(* ===== verification/_CoqProject ===== *)
-Q . S2P
Prelude.v
Ints.v
Amounts.v
Poseidon2.v
Poseidon2Tables.v
Poseidon2Facts.v
Hashes.v
Serialization.v
ProverMonad.v
Encryption.v
Notes.v
Flows.v
FlowFacts.v
Soroban.v
MerkleSpec.v
MerkleHistory.v
AspMembership.v
Pool.v
PoolSpec.v
PoolSafety.v
PoolTheorems.v
Smt.v
AspNonMembership.v
NonMembershipFacts.v
NonMembershipOps.v
NonMembershipTheorems.v
Verifier.v
Registry.v
PrefixTree.v
SparseMerkle.v
FlowTheorems.v
ScVals.v
ScValFacts.v
Events.v
Storage.v
Queries.v
Scan.v
StorageFacts.v
SyncFacts.v
WalletFacts.v
ReconcileFacts.v
SyncTheorems.v
SyncLimits.v
QueryFacts.v
DbTypes.v
EndToEnd.v
Rpc.v
Envelope.v
CodecExample.v
EnvelopeTheorems.v
StateFetch.v
Indexer.v
Bootnode.v
BootnodeTheorems.v
Listener.v
R1cs.v
Prover.v
ProverFacts.v
Witness.v
KeyFiles.v
Ceremony.v
Disclosure.v
DisclosureFacts.v
Combination.v
CombinationFacts.v
CombinationMin.v
Plan.v
PlanFacts.v
SessionFacts.v
PoolClient.v
PoolClientFacts.v
PoolClientTheorems.v
PoolExec.v
PoolExecFacts.v
PoolExecTheorems.v
PoolLocal.v
Worker.v
WorkerTheorems.v
WebClient.v
LeafCli.v
