(* ===== verification/Prelude.v ===== *)
(** * Pollar private payments

    A verification library for the Rust sources of the privacy pool: the Soroban
    contracts, the hash functions they share with the prover, the client (its prover, its
    database, its trees, its payments, its view of the network), its workers and session in the
    browser, the bootnode that serves old events, and the tools that make and deploy the keys of
    the circuit.  This file is the prelude (results, bytes, tactics, generic lemmas) and the map
    of the whole.

    ** The system and its parts

    Users deposit a token in the pool contract and receive notes, commitments kept in a
    Merkle tree; a transaction spends two notes by their nullifiers, adds two new
    commitments and moves a public amount in or out, with a Groth16 proof that it
    balances.  The proof also shows that its owner is in the membership tree and not in the
    non-membership tree, two contracts of the association-set provider.  The client follows
    the contracts' events into a local database, finds its notes by decrypting the published
    outputs, rebuilds the trees to produce proofs, cuts a payment into two-input
    transactions, builds each of them, signs it and calls the pool.  In the browser the database
    and the prover live in two workers behind bridges, and the wallet of the user signs.  The
    verification key of the contract comes from a ceremony of contributions, whose last key is
    exported to the files that the client loads and the contract is built with.

    - Integers and data: [Ints] (fixed-width and host integers, integers as text), [Amounts]
      ([sdk/types/src/amounts.rs]: [NoteAmount], [ExtAmount], [Field]).
    - Hashes: [Poseidon2] (the permutation of [poseidon2/src/poseidon2]), [Poseidon2Tables]
      (every BN254 constant of the crate and of the contracts), [Poseidon2Facts] (with the
      evaluation on machine integers), [Hashes] (the hash modes of
      [sdk/prover/src/crypto.rs] and of [contracts/soroban-utils]), [Serialization]
      ([sdk/prover/src/serialization.rs]).
    - Notes and transactions: [ProverMonad] (errors, panics and random draws),
      [Encryption] ([sdk/prover/src/encryption.rs]), [Notes] ([notes.rs]), [Flows]
      ([flows.rs], [types.rs]: one definition per stage of [transact]), [FlowFacts] and
      [FlowTheorems].
    - Contract execution: [Soroban], a state, error and trap monad; a call from outside
      that fails leaves no write ([invoke]); traces of invocations.
    - Pool: [MerkleSpec] (the hash tree over padded leaves, and the update loop that the
      pool and the membership contract both run, against the interface [PathStore]),
      [MerkleHistory] ([pool/src/merkle_with_history.rs]), [Pool] ([pool/src/pool.rs], one
      definition per function, the checks in the order of the source), [PoolSpec] (the
      abstract pool and the refinement), [PoolSafety] and [PoolTheorems].
    - Association sets: [AspMembership] ([asp-membership/src/lib.rs]); [Smt] (sparse
      tries), [AspNonMembership] ([asp-non-membership/src/lib.rs]), [NonMembershipFacts],
      [NonMembershipOps], [NonMembershipTheorems].
    - [Verifier] ([circom-groth16-verifier/src/lib.rs], [contracts/types/src/lib.rs]) and
      [Registry] ([public-key-registry/src/lib.rs]).
    - Client trees: [PrefixTree] ([sdk/prover/src/merkle.rs], [circuits/src/core/merkle.rs]),
      [SparseMerkle] ([sdk/prover/src/sparse_merkle.rs], over the trees of [Smt]).
    - Calls: [ScVals] ([sdk/stellar/src/conversions.rs], [soroban_encode.rs],
      [tx_prepare.rs], [ext_data_hash.rs]), [ScValFacts]; [Envelope] ([tx_assemble.rs],
      [signer.rs]: a call assembled, its authorisation entries and its envelope signed),
      [EnvelopeTheorems], with the codec [CodecExample] to run it on.
    - The network: [Rpc] ([sdk/stellar/src/rpc.rs], [submit.rs]: requests, range errors and bulk
      reads, over the class [RpcNode] of nodes, in the monad [IO]), [StateFetch]
      ([sdk/stellar/src/contract_state.rs]: the state of the pool and of its association sets),
      [Indexer] ([indexer.rs], over the class [ContractDataStorage]; the run of the indexer
      against the interfaces [PagedNode] and [EventStoreLaws], and that the database keeps the
      latter).
    - Events and the database: [Events] ([sdk/state/src/events_parsers.rs]), [Storage] and
      [Queries] ([storage.rs] over [schema.sql]: a table is a list of rows, a statement a
      function of the database, a transaction that fails leaves no write), [Scan] (the
      scans of [storage.rs], [processor.rs], [sdk/pool/src/core/state.rs]); their facts in
      [StorageFacts], [SyncFacts] (events become rows), [WalletFacts] (commitments become
      notes), [ReconcileFacts] (nullifiers mark notes), [DbTypes] (the schema as an invariant of
      every operation), and the theorems in [SyncTheorems], [SyncLimits], [QueryFacts] and
      [EndToEnd].
    - Bootnode: [Bootnode] ([tools/bootnode/src]: [config.rs], [messages.rs], [storage], [rpc.rs],
      [indexer.rs], the health check of [http_server.rs]), [BootnodeTheorems] (the interfaces
      [BootFaultLaws], for a store whose operations may fail, and [BootStorageLaws], for one that
      answers, that both stores keep them, and the theorems); [Listener]
      ([app/crates/platforms/web/src/events.rs], the client between its own node and a
      bootnode).
    - Proving and disclosure: [R1cs] ([sdk/prover/src/r1cs.rs]), [Prover] ([prover.rs]),
      [ProverFacts], [Disclosure] ([sdk/types/src/disclosure.rs],
      [sdk/disclosure/src/lib.rs]), [DisclosureFacts]; [Witness] ([sdk/witness/src/lib.rs]: the
      inputs of the circuit from JSON to numbers by name, and the witness to bytes).
    - Keys: [KeyFiles] ([circuit-keys/src/lib.rs] and the build script of the verifier contract:
      encodings of a key, the replacement of a file on a disk that can fail, the embedded
      constants), [Ceremony] ([tools/ceremony-cli/src]: the steps of the trusted setup, their
      log, the choice of the circuit, the export of the key).
    - Whitelist server: [LeafCli] ([server/leaf-cli/src/main.rs], the leaf of a user, the onboarding
      without a browser, the check of a membership, a deposit).
    - Payments: [Combination] ([sdk/tx-planner/src/plan/combination.rs]), [CombinationFacts],
      [CombinationMin], [Plan] ([plan/mod.rs], [execute/mod.rs]), [PlanFacts],
      [SessionFacts].
    - Pool client: [PoolClient] ([sdk/pool/src/transact.rs], [disclosure.rs], [plan.rs],
      [core/mod.rs], [core/plan.rs], [storage/mod.rs]: the inputs of a transaction from the local
      state and the state of the chain), [PoolClientFacts], [PoolClientTheorems]; [PoolExec]
      ([sdk/pool/src/pool.rs]: the pool object over the class [PoolParts] of its
      storage, prover and signer, and the execution of a plan), [PoolExecFacts],
      [PoolExecTheorems]; [PoolLocal] (the local parts of [storage/local.rs], [prover], [signer], and
      the whole synchronisation over a node).
    - Browser ([app/crates/platforms/web/src]): [Worker] ([workers/storage.rs], [workers/prover.rs],
      [protocol.rs], [signer.rs]: the routers of the workers, the processor task with its channel,
      the bridges, the wallet), [WorkerTheorems]; [WebClient] ([client]: the arguments of the page,
      the execution of plans, every flow).

    Storage of a contract is a record with one field per storage key ([option] for a single
    value, [gmap] for a keyed one) and the list of the events published.  A Rust [Result] is
    [result], a panic is [None] or, in a contract, [Trap].  Machine integers are [Z] with the
    range checks of the operation written out.  Names are those of the source, prefixed
    where two files use the same one ([asp_], [nm_], [pool_], [pt_], [ptb_], [flow_], [im_],
    [pq_], [boot_], [Client], [Boot]).

    ** What the theorems show

    - Pool: the transaction handler has the outcome of the abstract pool on every input, and
      its storage stays related to it; it accepts exactly the transactions that meet every
      condition; over any sequence of invocations by anybody no nullifier is accepted twice,
      the tree and the spent set are those of the accepted transactions, and the token
      balance covers the net deposits; the vector given to the verifier determines every
      public field; the configuration changes only with the administrator in force.
    - Trees: the incremental trees have the root of the full hash tree and the ring buffer
      holds the last ninety roots; the client trees have the same root, and their proofs open
      it; the zero-hash table is the chain of empty subtrees.
    - Non-membership: the node store refines a finite map, the root is a function of the map
      alone, and the proofs accepted are exactly the search answers for absent keys, with the
      one exception that is stated as a theorem of its own.  The client's sparse tree has the
      contract's root and gives its search answers.
    - Transactions: the builder accepts exactly the balanced, well-formed requests and its
      result passes the pool's checks; a payment is found by its recipient, and the nullifier
      the recipient predicts is the one a later transaction publishes; the arguments and the
      hash of the call are those the contract decodes and computes; the call is assembled with
      what the simulation asked for, and every signature on it is the signer's over the right
      payload.
    - Synchronisation: every contract event is parsed to the record that describes it; over a
      node that serves the contracts' log in pages the indexer ends with the whole log stored,
      and then the local synchronisation with exactly the notes the accounts can derive, spent
      exactly when their nullifier is published; with an event that cannot be stored it never
      returns success; a synchronised client has the pool's leaves and its root; the balances are
      the sums of the unspent notes.  Whatever events arrive and whatever fails, the database
      keeps the types, keys and references of its schema, so that its notes, the progress and a
      recipient's keys can always be read.
    - Pool client: the inputs it builds from its database open the pool's current root and are
      unspent notes of the user, and a synchronised client can always build; a plan of one
      step runs to its confirmed transaction, while one of several steps fails at its second step unless something
      synchronises the storage in between.
    - Bootnode: wherever the store or the upstream fails, a page served is a page of the upstream's log, is
      never replaced, and following the pages gives a prefix of it; the pages end for good at the first poll that found no event and moved the cursor; a
      client that fell behind its own node is handed back to it at once and stops.
    - Proving and disclosure: the parser inverts the format of circuit files, the replayed
      constraints are those of the file, proof bytes decode to the points of the proof; a
      report is fully verified exactly for a trustworthy receipt, and the context hash binds
      the context.
    - Hashes: the contracts' hashes are the prover's on canonical inputs and trap otherwise.
    - Verifier: a proof is accepted exactly when the Groth16 equation holds.
    - Payments: the selection reaches the amount whenever the wallet can, with as few notes as
      possible beyond two; plans balance; a session runs to the end without ambiguity and
      conserves value at every step.
    - Browser: no wake-up of the storage worker is lost, and a processor left alone comes to rest
      with nothing to process; through the bridge the client synchronises, and every answer is that
      of the native storage, private keys excepted; the page runs a plan as the pool object does
      and reports the hashes it confirmed; a number of the page is accepted exactly when it is in
      the range of its type.
    - Witness: the flattening of inputs always ends and is the recursive reading of the value; of
      every built transaction the calculator gets exactly the signals, and the prover reads from
      the bytes the elements the calculator returned.
    - Keys: the constants of the contract are the points of the key that was written, in the
      encoding of the prover, and determine it; in every state of the disk during an export each
      output is as it was or complete; a step of the ceremony that succeeds has run its commands
      and verifications in order and wrote over nothing unasked; its console shows the same for
      any entropy.
    - Whitelist server: the onboarding of the tool stores the keys that the browser stores for the
      same signature, and the leaf it prints is the one the client proves.
    - Amounts: conversions, modular arithmetic and encodings, with every bound.

    ** Parameters

    Code outside the repository is an argument: the host's Poseidon2 permutation
    ([HostPoseidon2], with the law that it is the permutation of the crate), its BN254 curve
    ([Bn254Host], with the laws of groups and of a pairing), the token, verifier and
    association-set contracts, Keccak-256 and XDR ([PoolHost] and [Call], of which only the
    effect of a token transfer on balances is assumed, [TokenLaws]), SHA-256, X25519, the
    box cipher and the random source ([Crypto], [CryptoLaws]), arkworks' constraint system
    and Groth16 ([ConstraintSystem], [ArkGroth16]), the XDR codec and strkeys of the client
    ([XdrLib], [XdrLaws], [XdrTyped] for the widths of what it decodes, [LedgerXdr], [EnvelopeXdr] with
    [EnvelopeLaws], and [HostEncoding] for its agreement with the host), Ed25519 ([Ed25519],
    [Ed25519Laws]), the [hex] crate ([HexCodec], [HexVec]), [serde_json] ([SerdeJson]), the rows SQLite and
    Postgres pick where the query leaves a choice ([SqliteMax], [PgLimit]), the unstable sort
    ([SortByAmount]: a sorted permutation), and the verification key the build generates
    ([EmbeddedVk]).  The RPC node is the class [RpcNode]; that it serves a fixed log in pages is
    [PagedNode], that it keeps a window of ledgers [RetentionNode], that the bootnode's upstream has a
    growing log [UpstreamLaws].  For the browser: the channel of the processor ([MpscChannel]), the
    shape of values across the bindings ([JsonValues]), the fetched artifacts ([WebArtifacts]), the
    witness calculator of the worker ([WitnessLib]), the wallet ([WalletBridge]), and whether an
    answer comes in time.  For keys and witnesses: the reading of digits ([NumBigint]), decimal
    text ([BigUintText]), the calculator of a circuit ([ArkCircom]), arkworks' keys ([ArkKeys]),
    which operations of a disk fail and how much a failed write wrote ([Faults]), the child
    processes, times, glob and quoting ([Host], with [BlindHost] for processes that show the
    entropy in files only).  What a pause does to the network is a function.  Each of these
    that a theorem uses has a
    reference instance on which the witnesses run.  The theorems on the sparse tree assume
    that the hash does not collide on the finitely many nodes the operations at hand touch
    ([distinct]); the ones on synchronisation that different commitments of the database do not
    derive the same nullifier ([derive_ok]); nothing else assumes anything of the hash.

    ** Recursion and fuel

    Loops over a list or a counter are structural.  Fuel is the bound of the source where it
    has one: 90 steps for the ring buffer, 257 for a search (a key has 256 bits, and the
    search stops at an index out of range), 256 for the common prefix of two keys, the 5000
    iterations of the depth-first search, the quota for the cycles of a scan (a cycle that
    continues uses at least one unit), the pages of a round, the retries of a proof and of a
    confirmation.  The pair scan and the reference tree take the
    length of their list, which shrinks at every turn; that this is enough is part of the
    theorems on them, which all give the result and never assume it.  The loops of
    [process_local_state], [catch_up], [execute] and [follow_bootnode] have no bound in the source: they take a
    number of rounds and answer [None] when they are not enough.  [local_sync_completes],
    [client_sync_completes] and [spend_plan_executes] show numbers that are;
    [unstorable_event_never_ends] that there is none for some databases.  The processor of the
    worker likewise runs for a number of turns, which [web_client_syncs] gives.  The stacks of the
    flattening take the number of values in the text, twice that number for arrays, which
    [flatten_input_exact] shows to be enough.  The names of a temporary file are the thousand of
    the source.

    ** What is not modelled

    The HTTP, JSON, TLS and timer layers, the bindings that turn values of the browser into Rust
    values and back, the blocking wrapper of the pool object and the command line of the
    bootnode: their logic is that of the libraries they call.  The circom templates, the build
    that compiles them, the program of the circuit that the calculator runs and the Groth16
    prover itself are not Rust of this repository's logic.  The tables of the other Poseidon2
    instances are data of the same permutation.  The seeds and helpers of the tests are left
    out. *)

From Stdlib Require Export ZArith Lia.
From stdpp Require Export base list numbers option gmap strings.

Global Set Default Goal Selector "!".

Declare Scope pay_scope.
Delimit Scope pay_scope with pay.
Open Scope Z_scope.

(** ** Results

    Rust's [Result<A, E>].  [?] is the monadic bind. *)

Inductive result (E A : Type) : Type :=
| Ok (a : A)
| Err (e : E).

Arguments Ok {E A} a.
Arguments Err {E A} e.

#[export] Instance result_ret {E} : MRet (result E) := fun _ a => Ok a.
#[export] Instance result_bind {E} : MBind (result E) :=
  fun _ _ k m => match m with Ok a => k a | Err e => Err e end.

(** [Option::ok_or]. *)
Definition ok_or {E A} (o : option A) (e : E) : result E A :=
  match o with Some a => Ok a | None => Err e end.

(** [Result::map_err]. *)
Definition map_err {E F A} (f : E -> F) (r : result E A) : result F A :=
  match r with Ok a => Ok a | Err e => Err (f e) end.

Definition is_ok {E A} (r : result E A) : bool :=
  match r with Ok _ => true | Err _ => false end.

Lemma bind_Ok {E A B} (m : result E A) (k : A -> result E B) b :
  (m ≫= k) = Ok b <-> exists a, m = Ok a /\ k a = Ok b.
Proof. destruct m; simpl; split; [eauto | by intros (? & [= ->] & ?) | done | by intros (? & ? & ?)]. Qed.

Lemma ok_or_Ok {E A} (o : option A) (e : E) a : ok_or o e = Ok a <-> o = Some a.
Proof. destruct o; simpl; split; congruence. Qed.

(** ** Rows found by a key *)

Section FindByKey.

Context {A K : Type} `{EqDecision K} (key : A -> K).

Lemma find_by_key (l : list A) (x : A) : NoDup (key <$> l) -> x ∈ l -> List.find (fun y => bool_decide (key y = key x)) l = Some x.
Proof.
  induction l as [|y l IH]; intros Hnd Hin; [by apply elem_of_nil in Hin |]. rewrite fmap_cons, NoDup_cons in Hnd. destruct Hnd as [Hni Hnd]. cbn [List.find].
  apply elem_of_cons in Hin as [-> | Hin]; [by rewrite bool_decide_eq_true_2 |]. rewrite bool_decide_eq_false_2; [by apply IH |].
  intros E. apply Hni. rewrite E. by apply list_elem_of_fmap_2.
Qed.

Lemma find_key_some (l : list A) (k : K) x : List.find (fun y => bool_decide (key y = k)) l = Some x -> x ∈ l /\ key x = k.
Proof. intros E. apply List.find_some in E as [Hin Hk]. apply list_elem_of_In in Hin. by apply bool_decide_eq_true in Hk. Qed.

Lemma find_key_none (l : list A) (k : K) : List.find (fun y => bool_decide (key y = k)) l = None <-> k ∉ key <$> l.
Proof.
  split.
  - intros E (x & -> & Hin)%list_elem_of_fmap. apply List.find_none with (x := x) in E; [| by apply list_elem_of_In]. by rewrite bool_decide_eq_true_2 in E.
  - intros Hk. destruct (List.find _ l) as [x|] eqn:E; [| done]. apply find_key_some in E as [Hin <-]. destruct Hk. by apply list_elem_of_fmap_2.
Qed.

End FindByKey.

Lemma find_app {A} (f : A -> bool) (l l' : list A) : List.find f (l ++ l') = match List.find f l with Some x => Some x | None => List.find f l' end.
Proof. induction l as [|x l IH]; [done |]. cbn. by destruct (f x). Qed.

(** ** Tactics *)

(** Split a successful chain of [?] into the success of each call. *)
Ltac ok_inv :=
  repeat match goal with
  | H : (_ ≫= _) = Ok _ |- _ => apply bind_Ok in H; destruct H as (? & ? & H)
  | H : ok_or _ _ = Ok _ |- _ => apply ok_or_Ok in H
  | H : Ok _ = Ok _ |- _ => injection H as H; subst
  | H : Err _ = Ok _ |- _ => discriminate H
  | H : Ok _ = Err _ |- _ => discriminate H
  | H : mret _ = _ |- _ => unfold mret, result_ret in H
  end.

(** Case analysis on the scrutinee of an [if], with boolean comparisons turned
    into propositions. *)
Ltac bools :=
  repeat match goal with
  | H : (_ <? _) = true |- _ => apply Z.ltb_lt in H
  | H : (_ <? _) = false |- _ => apply Z.ltb_ge in H
  | H : (_ <=? _) = true |- _ => apply Z.leb_le in H
  | H : (_ <=? _) = false |- _ => apply Z.leb_gt in H
  | H : (_ =? _) = true |- _ => apply Z.eqb_eq in H
  | H : (_ =? _) = false |- _ => apply Z.eqb_neq in H
  | H : (_ && _)%bool = true |- _ => apply andb_true_iff in H; destruct H
  | H : (_ || _)%bool = false |- _ => apply orb_false_iff in H; destruct H
  | H : (_ || _)%bool = true |- _ => apply orb_true_iff in H
  | H : (_ && _)%bool = false |- _ => apply andb_false_iff in H
  | H : negb _ = true |- _ => apply negb_true_iff in H
  | H : negb _ = false |- _ => apply negb_false_iff in H
  end.

Ltac case_if :=
  match goal with
  | |- context [if ?b then _ else _] => destruct b eqn:?
  end; bools.

Ltac case_if_in H :=
  match type of H with
  | context [if ?b then _ else _] => destruct b eqn:?
  end; bools.

(** ** Bytes

    A byte is a [Z] in [[0, 256)].  [le_bytes n x] are the [n] low bytes of [x]
    in little-endian order, [le_value] reads them back; [be_bytes] and
    [be_value] are the big-endian versions. *)

Abbreviation bytes := (list Z).

Definition is_byte (b : Z) : Prop := 0 <= b < 256.

Fixpoint le_bytes (n : nat) (x : Z) : bytes :=
  match n with
  | O => []
  | S n => x mod 256 :: le_bytes n (x / 256)
  end.

Fixpoint le_value (l : bytes) : Z :=
  match l with
  | [] => 0
  | b :: l => b + 256 * le_value l
  end.

Definition be_bytes (n : nat) (x : Z) : bytes := rev (le_bytes n x).
Definition be_value (l : bytes) : Z := le_value (rev l).

Create HintDb pay.
#[export] Hint Constants Opaque : pay.
Create Rewrite HintDb pay.

Lemma length_le_bytes n x : length (le_bytes n x) = n.
Proof. revert x; induction n; intros; simpl; auto. Qed.

Lemma length_be_bytes n x : length (be_bytes n x) = n.
Proof. unfold be_bytes. by rewrite length_rev, length_le_bytes. Qed.

Lemma pow_256_succ n : 256 ^ Z.of_nat (S n) = 256 * 256 ^ Z.of_nat n.
Proof. rewrite Nat2Z.inj_succ, Z.pow_succ_r; lia. Qed.

Lemma pow_256_pos n : 0 < 256 ^ Z.of_nat n.
Proof. apply Z.pow_pos_nonneg; lia. Qed.

Lemma le_bytes_bytes n x : Forall is_byte (le_bytes n x).
Proof.
  revert x; induction n; intros; simpl; constructor; auto.
  apply Z.mod_pos_bound; lia.
Qed.

Lemma be_bytes_bytes n x : Forall is_byte (be_bytes n x).
Proof. apply Forall_rev, le_bytes_bytes. Qed.

Lemma le_value_bytes n x : le_value (le_bytes n x) = x mod 256 ^ Z.of_nat n.
Proof.
  revert x; induction n as [|n IH]; intros x; [by rewrite Z.mod_1_r |].
  cbn [le_bytes le_value]. rewrite IH, pow_256_succ, Z.rem_mul_r by (pose proof (pow_256_pos n); lia).
  reflexivity.
Qed.

Lemma be_value_bytes n x : be_value (be_bytes n x) = x mod 256 ^ Z.of_nat n.
Proof. unfold be_value, be_bytes. by rewrite rev_involutive, le_value_bytes. Qed.

Lemma le_value_bound l : Forall is_byte l -> 0 <= le_value l < 256 ^ Z.of_nat (length l).
Proof.
  unfold is_byte. induction 1 as [|b l Hb Hl IH]; [simpl; lia |].
  cbn [length le_value]. rewrite pow_256_succ. lia.
Qed.

Lemma be_value_bound l : Forall is_byte l -> 0 <= be_value l < 256 ^ Z.of_nat (length l).
Proof. intros H. unfold be_value. rewrite <- (length_rev l). by apply le_value_bound, Forall_rev. Qed.

Lemma le_bytes_value l : Forall is_byte l -> le_bytes (length l) (le_value l) = l.
Proof.
  unfold is_byte. induction 1 as [|b l Hb Hl IH]; simpl; [done |].
  rewrite (Z.mul_comm 256), Z.mod_add, Z.div_add, (Z.mod_small b), (Z.div_small b) by lia.
  by rewrite Z.add_0_l, IH.
Qed.

Lemma be_bytes_value l : Forall is_byte l -> be_bytes (length l) (be_value l) = l.
Proof.
  intros H. unfold be_bytes, be_value.
  rewrite <- (length_rev l), le_bytes_value by (by apply Forall_rev). apply rev_involutive.
Qed.

Lemma be_value_inj l1 l2 :
  Forall is_byte l1 -> Forall is_byte l2 -> length l1 = length l2 ->
  be_value l1 = be_value l2 -> l1 = l2.
Proof. intros H1 H2 Hlen Hv. rewrite <- (be_bytes_value l1), <- (be_bytes_value l2), Hlen, Hv; done. Qed.

Lemma le_value_inj l1 l2 :
  Forall is_byte l1 -> Forall is_byte l2 -> length l1 = length l2 ->
  le_value l1 = le_value l2 -> l1 = l2.
Proof. intros H1 H2 Hlen Hv. rewrite <- (le_bytes_value l1), <- (le_bytes_value l2), Hlen, Hv; done. Qed.

Lemma le_value_app l1 l2 :
  le_value (l1 ++ l2) = le_value l1 + 256 ^ Z.of_nat (length l1) * le_value l2.
Proof.
  induction l1 as [|b l1 IH]; [simpl; lia |].
  change ((b :: l1) ++ l2) with (b :: (l1 ++ l2)). cbn [le_value length].
  rewrite IH, pow_256_succ. lia.
Qed.

#[export] Hint Resolve le_bytes_bytes be_bytes_bytes length_le_bytes length_be_bytes : pay.
#[export] Hint Rewrite length_le_bytes length_be_bytes le_value_bytes be_value_bytes : pay.

(** ** Lists *)

(** [l[i]] at an index of machine type: [None] is out of range. *)
Definition zlookup {A} (l : list A) (i : Z) : option A :=
  if i <? 0 then None else l !! Z.to_nat i.

Lemma zlookup_nonneg {A} (l : list A) i : 0 <= i -> zlookup l i = l !! Z.to_nat i.
Proof. unfold zlookup. intros. case_if; [lia | done]. Qed.

Definition zlength {A} (l : list A) : Z := Z.of_nat (length l).

Lemma zlookup_middle {A} (l1 l2 : list A) x : zlookup (l1 ++ x :: l2) (zlength l1) = Some x.
Proof. rewrite zlookup_nonneg by (unfold zlength; lia). apply list_lookup_middle. unfold zlength. lia. Qed.

(** The integers [a, a+1, ..., a+n-1]: the range of a [for] loop. *)
Definition zrange (a : Z) (n : nat) : list Z := (fun i => a + Z.of_nat i) <$> seq 0 n.

Lemma zrange_0 a : zrange a 0 = [].
Proof. done. Qed.

Lemma zrange_S a n : zrange a (S n) = a :: zrange (a + 1) n.
Proof.
  unfold zrange. cbn [seq fmap list_fmap]. f_equal; [lia |].
  rewrite <- fmap_S_seq, <- list_fmap_compose. apply list_fmap_ext. intros ? x _. simpl. lia.
Qed.

Lemma zrange_snoc a n : zrange a (S n) = zrange a n ++ [a + Z.of_nat n].
Proof. unfold zrange. rewrite seq_S, fmap_app. done. Qed.

Lemma elem_of_zrange a n x : x ∈ zrange a n <-> a <= x < a + Z.of_nat n.
Proof.
  unfold zrange. rewrite list_elem_of_fmap. setoid_rewrite elem_of_seq. split.
  - intros (i & -> & ?). lia.
  - intros. exists (Z.to_nat (x - a)). lia.
Qed.

(** ** Integers *)

Lemma shiftr_1 x : Z.shiftr x 1 = x / 2.
Proof. by rewrite Z.shiftr_div_pow2. Qed.

Lemma land_1 x : Z.land x 1 = x mod 2.
Proof. change 1 with (Z.ones 1). by rewrite Z.land_ones. Qed.

Lemma filter_all {A} (P : A -> Prop) `{forall x, Decision (P x)} (l : list A) :
  (forall x, x ∈ l -> P x) -> filter P l = l.
Proof.
  induction l as [|x l IH]; intros Hl; [done |]. rewrite filter_cons, decide_True by (apply Hl; set_solver).
  f_equal. apply IH. intros; apply Hl; set_solver.
Qed.
