(* ===== verification/Ints.v ===== *)
(** * Fixed-width integers

    The integer types of the sources, as [Z] with the width written out: Rust's
    [u32], [u64], [u128], [i128] and [usize] with their checked operations, and
    the Soroban host's [U256] and [I256], whose arithmetic traps on overflow
    ([None] here). *)

From Stdlib Require Import Ascii.
From S2P Require Import Prelude.

(** ** Ranges *)

Definition fits_u (w x : Z) : bool := (0 <=? x) && (x <? 2 ^ w).
Definition fits_i (w x : Z) : bool := (- 2 ^ (w - 1) <=? x) && (x <? 2 ^ (w - 1)).

Lemma fits_u_spec w x : fits_u w x = true <-> 0 <= x < 2 ^ w.
Proof. unfold fits_u. rewrite andb_true_iff, Z.leb_le, Z.ltb_lt. done. Qed.

Lemma fits_i_spec w x : fits_i w x = true <-> - 2 ^ (w - 1) <= x < 2 ^ (w - 1).
Proof. unfold fits_i. rewrite andb_true_iff, Z.leb_le, Z.ltb_lt. done. Qed.

(** ** Checked operations

    [w]-bit unsigned unless the name says otherwise. *)

Definition checked_add (w a b : Z) : option Z :=
  if a + b <? 2 ^ w then Some (a + b) else None.

Definition checked_sub (a b : Z) : option Z :=
  if b <=? a then Some (a - b) else None.

Definition saturating_sub (a b : Z) : Z := Z.max 0 (a - b).

(** [x.checked_shl(n)]: [None] when the shift is not smaller than the width,
    otherwise the shift with the high bits lost. *)
Definition checked_shl (w x n : Z) : option Z :=
  if n <? w then Some (Z.shiftl x n mod 2 ^ w) else None.

(** [u32::try_from] and the like. *)
Definition try_into_u (w x : Z) : option Z := if fits_u w x then Some x else None.
Definition try_into_i (w x : Z) : option Z := if fits_i w x then Some x else None.

Definition checked_add_i (w a b : Z) : option Z := try_into_i w (a + b).
Definition checked_sub_i (w a b : Z) : option Z := try_into_i w (a - b).
Definition checked_neg_i (w a : Z) : option Z := try_into_i w (- a).

(** An [if] that yields [Some] of its condition's value. *)
Ltac opt_arith :=
  case_if; split; solve [intros [= <-]; lia | intros [-> ?]; solve [done | lia] | done | lia].

Lemma checked_add_Some w a b c : checked_add w a b = Some c <-> c = a + b /\ a + b < 2 ^ w.
Proof. unfold checked_add. opt_arith. Qed.

Lemma checked_sub_Some a b c : checked_sub a b = Some c <-> c = a - b /\ b <= a.
Proof. unfold checked_sub. opt_arith. Qed.

Lemma checked_sub_None a b : checked_sub a b = None <-> a < b.
Proof. unfold checked_sub. opt_arith. Qed.

Lemma try_into_i_Some w a c :
  try_into_i w a = Some c <-> c = a /\ - 2 ^ (w - 1) <= a < 2 ^ (w - 1).
Proof.
  unfold try_into_i. destruct (fits_i w a) eqn:E.
  - apply fits_i_spec in E. split; [intros [= <-] | intros [-> _]]; done.
  - split; [done |]. intros [_ H]. apply fits_i_spec in H. congruence.
Qed.

Lemma try_into_u_Some w a c : try_into_u w a = Some c <-> c = a /\ 0 <= a < 2 ^ w.
Proof.
  unfold try_into_u. destruct (fits_u w a) eqn:E.
  - apply fits_u_spec in E. split; [intros [= <-] | intros [-> _]]; done.
  - split; [done |]. intros [_ H]. apply fits_u_spec in H. congruence.
Qed.

(** ** Soroban [U256] and [I256] *)

Definition U256_MAX : Z := 2 ^ 256.

Definition is_u256 (x : Z) : Prop := 0 <= x < 2 ^ 256.
Definition is_i256 (x : Z) : Prop := - 2 ^ 255 <= x < 2 ^ 255.

(** [U256::to_be_bytes], [U256::from_be_bytes] on 32 bytes. *)
Definition u256_to_be_bytes (x : Z) : bytes := be_bytes 32 x.
Definition u256_from_be_bytes (b : bytes) : Z := be_value b.

(** [I256::to_be_bytes]: the two's complement representation. *)
Definition i256_to_be_bytes (x : Z) : bytes := be_bytes 32 (x mod 2 ^ 256).

(** Host arithmetic: a result out of range is a host error. *)
Definition u256_add (a b : Z) : option Z := try_into_u 256 (a + b).
Definition u256_sub (a b : Z) : option Z := try_into_u 256 (a - b).
Definition u256_rem_euclid (a m : Z) : option Z := if m =? 0 then None else Some (a mod m).
Definition u256_div (a m : Z) : option Z := if m =? 0 then None else Some (a / m).
Definition i256_sub (a b : Z) : option Z := try_into_i 256 (a - b).

(** [I256::to_i128]. *)
Definition i256_to_i128 (x : Z) : option Z := try_into_i 128 x.

(** [U256::from_parts(hi_hi, hi_lo, lo_hi, lo_lo)]: four 64-bit limbs, the most
    significant first. *)
Definition u256_from_parts (hi_hi hi_lo lo_hi lo_lo : Z) : Z :=
  Z.lor (Z.shiftl hi_hi 192) (Z.lor (Z.shiftl hi_lo 128) (Z.lor (Z.shiftl lo_hi 64) lo_lo)).

Lemma pow_256_32 : 256 ^ Z.of_nat 32 = 2 ^ 256.
Proof. reflexivity. Qed.

Lemma u256_be_roundtrip x : is_u256 x -> u256_from_be_bytes (u256_to_be_bytes x) = x.
Proof.
  intros H. unfold u256_from_be_bytes, u256_to_be_bytes.
  rewrite be_value_bytes, pow_256_32. by apply Z.mod_small.
Qed.

(** Reading a non-negative [I256] back as a [U256] keeps its value; a negative
    one becomes its residue modulo [2^256]. *)
Lemma i256_be_u256 x : u256_from_be_bytes (i256_to_be_bytes x) = x mod 2 ^ 256.
Proof.
  unfold u256_from_be_bytes, i256_to_be_bytes.
  rewrite be_value_bytes, pow_256_32. by rewrite Z.mod_mod.
Qed.

Lemma i256_be_u256_nonneg x : is_i256 x -> 0 <= x -> u256_from_be_bytes (i256_to_be_bytes x) = x.
Proof. unfold is_i256. intros. rewrite i256_be_u256. apply Z.mod_small. lia. Qed.

#[export] Hint Rewrite i256_be_u256 : pay.

(** ** Decimal strings

    [to_string] and [str::parse] for Rust's unsigned and signed integers, which the amount
    types use for display, serde and SQL text columns. *)

Definition digit_char (d : Z) : ascii := ascii_of_nat (48 + Z.to_nat d).

(** The value of a decimal digit, [None] for any other character. *)
Definition digit_value (c : ascii) : option Z :=
  let v := Z.of_nat (nat_of_ascii c) - 48 in
  if (0 <=? v) && (v <? 10) then Some v else None.

(** The digits of [n] in front of [acc], most significant first. *)
Fixpoint digits (fuel : nat) (n : Z) (acc : list ascii) : list ascii :=
  match fuel with
  | O => acc
  | S fuel =>
      let acc := digit_char (n mod 10) :: acc in
      if n / 10 =? 0 then acc else digits fuel (n / 10) acc
  end.

(** 40 digits are enough for a 128-bit integer: [2^128 < 10^39]. *)
Definition show_u (n : Z) : list ascii := digits 40 n [].

Definition show_i (n : Z) : list ascii :=
  if n <? 0 then "-"%char :: show_u (- n) else show_u n.

(** Digit loop of [from_str_radix]: every step is checked against the width.
    [sign] is [1] or [-1]: a negative number is accumulated downwards. *)
Fixpoint parse_digits (fits : Z -> bool) (sign acc : Z) (s : list ascii) : option Z :=
  match s with
  | [] => Some acc
  | c :: s =>
      d ← digit_value c;
      let acc := acc * 10 + sign * d in
      if fits acc then parse_digits fits sign acc s else None
  end.

(** [s.parse::<uN>()]: an optional [+], then at least one digit. *)
Definition parse_u (w : Z) (s : list ascii) : option Z :=
  match s with
  | [] => None
  | "+"%char :: [] => None
  | "+"%char :: s => parse_digits (fits_u w) 1 0 s
  | _ => parse_digits (fits_u w) 1 0 s
  end.

(** [s.parse::<iN>()]: an optional sign, then at least one digit. *)
Definition parse_i (w : Z) (s : list ascii) : option Z :=
  match s with
  | [] => None
  | "+"%char :: [] => None
  | "-"%char :: [] => None
  | "+"%char :: s => parse_digits (fits_i w) 1 0 s
  | "-"%char :: s => parse_digits (fits_i w) (-1) 0 s
  | _ => parse_digits (fits_i w) 1 0 s
  end.

Lemma digit_value_char d : 0 <= d < 10 -> digit_value (digit_char d) = Some d.
Proof.
  intros H. unfold digit_value, digit_char. rewrite nat_ascii_embedding by lia.
  replace (Z.of_nat (48 + Z.to_nat d) - 48) with d by lia.
  destruct (Z.leb_spec 0 d), (Z.ltb_spec d 10); simpl; lia || done.
Qed.

(** Parsing the digits of [n] from zero leaves the parser at [sign * n]. *)
Lemma parse_digits_digits fits sign fuel n acc :
  (forall m, 0 <= m <= n -> fits (sign * m) = true) ->
  0 <= n < 10 ^ Z.of_nat fuel ->
  fuel <> O ->
  parse_digits fits sign 0 (digits fuel n acc) = parse_digits fits sign (sign * n) acc.
Proof.
  revert n acc. induction fuel as [|fuel IH]; intros n acc Hfits Hn Hf; [done |].
  pose proof (Z.mod_pos_bound n 10) as Hmod. pose proof (Z.div_mod n 10) as Hdm.
  cbn [digits]. case_if.
  - cbn [parse_digits]. rewrite digit_value_char by lia. cbn [mbind option_bind].
    replace (0 * 10 + sign * (n mod 10)) with (sign * n) by (rewrite (Z.mod_small n) by lia; lia).
    rewrite Hfits by lia. done.
  - destruct fuel as [|fuel]; [change (10 ^ Z.of_nat 1) with 10 in Hn; lia |].
    rewrite Nat2Z.inj_succ, Z.pow_succ_r in Hn by lia.
    rewrite IH; [| intros; apply Hfits; lia | lia | done].
    cbn [parse_digits]. rewrite digit_value_char by lia. cbn [mbind option_bind].
    replace (sign * (n / 10) * 10 + sign * (n mod 10)) with (sign * n) by lia.
    rewrite Hfits by lia. done.
Qed.

(** The first character of a printed number is a digit, so no sign is read. *)
Lemma digits_head fuel n acc :
  fuel <> O -> 0 <= n -> exists d s, digits fuel n acc = digit_char d :: s /\ 0 <= d < 10.
Proof.
  revert n acc. induction fuel as [|fuel IH]; intros n acc Hf Hn; [done |]. cbn [digits]. case_if.
  - eexists _, _. split; [done |]. apply Z.mod_pos_bound. lia.
  - destruct fuel as [|fuel].
    + eexists _, _. split; [done |]. apply Z.mod_pos_bound. lia.
    + apply IH; [done |]. apply Z.div_pos; lia.
Qed.

Lemma digit_char_not_sign d : 0 <= d < 10 -> digit_char d <> "+"%char /\ digit_char d <> "-"%char.
Proof.
  intros H. assert (digit_value (digit_char d) = Some d) as E by (by apply digit_value_char).
  split; intros Hc; rewrite Hc in E; discriminate.
Qed.

Lemma parse_u_nosign w c s :
  c <> "+"%char -> parse_u w (c :: s) = parse_digits (fits_u w) 1 0 (c :: s).
Proof. intros H. unfold parse_u. destruct c as [[] [] [] [] [] [] [] []]; done. Qed.

Lemma parse_i_nosign w c s :
  c <> "+"%char -> c <> "-"%char -> parse_i w (c :: s) = parse_digits (fits_i w) 1 0 (c :: s).
Proof. intros H1 H2. unfold parse_i. destruct c as [[] [] [] [] [] [] [] []]; done. Qed.

Lemma parse_show_u n : 0 <= n < 2 ^ 128 -> parse_u 128 (show_u n) = Some n.
Proof.
  intros H. unfold show_u.
  destruct (digits_head 40 n []) as (d & s & Hs & Hd); [done | lia |].
  rewrite Hs, parse_u_nosign by (by apply digit_char_not_sign). rewrite <- Hs.
  rewrite parse_digits_digits.
  - cbn [parse_digits]. f_equal. lia.
  - intros m Hm. apply fits_u_spec. lia.
  - split; [lia |]. change (2 ^ 128) with 340282366920938463463374607431768211456 in H.
    change (10 ^ Z.of_nat 40) with 10000000000000000000000000000000000000000. lia.
  - done.
Qed.

Lemma parse_show_i n : - 2 ^ 127 <= n < 2 ^ 127 -> parse_i 128 (show_i n) = Some n.
Proof.
  intros H. change (2 ^ 127) with 170141183460469231731687303715884105728 in H.
  assert (forall m, - 170141183460469231731687303715884105728 <= m < 170141183460469231731687303715884105728 ->
                    fits_i 128 m = true) as Hfits.
  { intros m Hm. apply fits_i_spec.
    change (2 ^ (128 - 1)) with 170141183460469231731687303715884105728. lia. }
  assert (10 ^ Z.of_nat 40 = 10000000000000000000000000000000000000000) as E40 by reflexivity.
  unfold show_i, show_u. case_if.
  - destruct (digits_head 40 (- n) []) as (d & s & Hs & Hd); [done | lia |].
    transitivity (parse_digits (fits_i 128) (-1) 0 (digits 40 (- n) [])).
    + rewrite Hs. done.
    + rewrite parse_digits_digits; [cbn [parse_digits]; f_equal; lia | | lia | done].
      intros m Hm. apply Hfits. lia.
  - destruct (digits_head 40 n []) as (d & s & Hs & Hd); [done | lia |].
    destruct (digit_char_not_sign d Hd).
    rewrite Hs, parse_i_nosign, <- Hs by done.
    rewrite parse_digits_digits; [cbn [parse_digits]; f_equal; lia | | lia | done].
    intros m Hm. apply Hfits. lia.
Qed.
