(* ===== verification/Amounts.v ===== *)
(** * Amounts and field elements ([sdk/types/src/amounts.rs], [sdk/types/src/lib.rs])

    [NoteAmount] (a [u128]), [ExtAmount] (an [i128]) and [Field] (a 256-bit
    integer meant to be below the BN254 scalar modulus) with their conversions,
    checked arithmetic, text, hex and SQL encodings.  A panic is [None]; an
    [anyhow] error is a value of [AmountError]. *)

From Stdlib Require Import Ascii.
From S2P Require Import Prelude Ints.

(** ** The modulus *)

Definition BN254_MODULUS_BE : bytes :=
  [48; 100; 78; 114; 225; 49; 160; 41; 184; 80; 69; 182; 129; 129; 88; 93; 40; 51; 232; 72; 121;
   185; 112; 145; 67; 225; 245; 147; 240; 0; 0; 1].

Definition bn254_modulus_u256 : Z := be_value BN254_MODULUS_BE.

(** [U256([l0, l1, l2, l3])]: little-endian 64-bit limbs. *)
Definition u256_of_limbs (l : list Z) : Z := foldr (fun x acc => x + 2 ^ 64 * acc) 0 l.

Definition BN254_PRIME : Z :=
  u256_of_limbs [0x43e1f593f0000001; 0x2833e84879b97091; 0xb85045b68181585d; 0x30644e72e131a029].

(** The modulus as a literal, for proofs by [lia]. *)
Definition BN_P : Z := 21888242871839275222246405745257275088548364400416034343698204186575808495617.

Lemma bn254_modulus_p : bn254_modulus_u256 = BN_P.
Proof. reflexivity. Qed.

Lemma BN254_PRIME_p : BN254_PRIME = BN_P.
Proof. reflexivity. Qed.

(** A canonical field element. *)
Definition in_field (x : Z) : Prop := 0 <= x < BN_P.

Lemma BN_P_pos : 0 < BN_P.
Proof. reflexivity. Qed.

Lemma BN_P_lt_2_254 : BN_P < 2 ^ 254.
Proof. reflexivity. Qed.

Lemma in_field_mod x : in_field (x mod BN_P).
Proof. apply Z.mod_pos_bound, BN_P_pos. Qed.

Lemma in_field_u256 x : in_field x -> is_u256 x.
Proof. unfold in_field, is_u256. pose proof BN_P_lt_2_254. assert (2 ^ 254 < 2 ^ 256) by reflexivity. lia. Qed.

#[export] Instance in_field_dec x : Decision (in_field x).
Proof. unfold in_field. apply and_dec; [apply Z.le_dec | apply Z.lt_dec]. Defined.

#[export] Hint Resolve in_field_mod in_field_u256 : pay.

(** ** Errors *)

Inductive AmountError : Type :=
| ParseInt                         (** [str::parse] failed *)
| NoteAmountOutOfRange (v : Z)     (** "NoteAmount out of range" *)
| TryFromInt                       (** [i128::try_from] failed *)
| FieldOutOfRange                  (** "field element out of range" *)
| ExtOutOfRange                    (** "ext amount out of range" *)
| ExtOutOfFieldRange               (** "ext amount out of field range" *)
| ExtAbsOutOfFieldRange            (** "ext amount abs out of field range" *)
| HexLength (n : nat)              (** "expected 64 hex chars" *)
| HexDecode.                       (** "cannot decode hex" *)

(** ** [NoteAmount] *)

Abbreviation NoteAmount := Z (only parsing).

Definition is_note (x : Z) : Prop := 0 <= x < 2 ^ 128.

Definition NoteAmount_MAX : NoteAmount := 2 ^ 128 - 1.
Definition NoteAmount_ONE : NoteAmount := 1.
Definition NoteAmount_ZERO : NoteAmount := 0.
Definition NoteAmount_is_zero (a : NoteAmount) : bool := a =? 0.
Definition NoteAmount_to_le_bytes (a : NoteAmount) : bytes := le_bytes 16 a.
Definition NoteAmount_checked_add (a b : NoteAmount) : option NoteAmount := checked_add 128 a b.
Definition NoteAmount_checked_sub (a b : NoteAmount) : option NoteAmount := checked_sub a b.

(** [impl Add], [impl Sub]: panic on overflow and underflow. *)
Definition NoteAmount_add (a b : NoteAmount) : option NoteAmount := NoteAmount_checked_add a b.
Definition NoteAmount_sub (a b : NoteAmount) : option NoteAmount := NoteAmount_checked_sub a b.

(** [Display] and the serde string; [FromStr]. *)
Definition NoteAmount_to_string (a : NoteAmount) : list ascii := show_u a.
Definition NoteAmount_from_str (s : list ascii) : result AmountError NoteAmount :=
  ok_or (parse_u 128 s) ParseInt.

(** ** [ExtAmount] *)

Abbreviation ExtAmount := Z (only parsing).

Definition is_ext (x : Z) : Prop := - 2 ^ 127 <= x < 2 ^ 127.

Definition ExtAmount_MAX : ExtAmount := 2 ^ 127 - 1.
Definition ExtAmount_ONE : ExtAmount := 1.
Definition ExtAmount_ZERO : ExtAmount := 0.
Definition ExtAmount_is_zero (a : ExtAmount) : bool := a =? 0.
Definition ExtAmount_checked_add (a b : ExtAmount) : option ExtAmount := checked_add_i 128 a b.
Definition ExtAmount_checked_sub (a b : ExtAmount) : option ExtAmount := checked_sub_i 128 a b.
Definition ExtAmount_checked_neg (a : ExtAmount) : option ExtAmount := checked_neg_i 128 a.

(** [impl Add], [impl Sub], [impl Neg]: panic when the checked operation fails. *)
Definition ExtAmount_add (a b : ExtAmount) : option ExtAmount := ExtAmount_checked_add a b.
Definition ExtAmount_sub (a b : ExtAmount) : option ExtAmount := ExtAmount_checked_sub a b.
Definition ExtAmount_neg (a : ExtAmount) : option ExtAmount := ExtAmount_checked_neg a.

Definition ExtAmount_to_string (a : ExtAmount) : list ascii := show_i a.
Definition ExtAmount_from_str (s : list ascii) : result AmountError ExtAmount :=
  ok_or (parse_i 128 s) ParseInt.

(** [TryFrom<ExtAmount> for NoteAmount] and back. *)
Definition NoteAmount_try_from_ext (v : ExtAmount) : result AmountError NoteAmount :=
  ok_or (try_into_u 128 v) (NoteAmountOutOfRange v).

Definition ExtAmount_try_from_note (v : NoteAmount) : result AmountError ExtAmount :=
  ok_or (try_into_i 128 v) TryFromInt.

(** ** [Field] *)

Abbreviation Field := Z (only parsing).

Definition Field_ONE : Field := u256_of_limbs [1; 0; 0; 0].
Definition Field_ZERO : Field := u256_of_limbs [0; 0; 0; 0].
Definition Field_modulus : Z := bn254_modulus_u256.
Definition Field_is_zero (f : Field) : bool := f =? Field_ZERO.
Definition Field_to_be_bytes (f : Field) : bytes := be_bytes 32 f.
Definition Field_to_le_bytes (f : Field) : bytes := le_bytes 32 f.

Definition Field_try_from_u256 (v : Z) : result AmountError Field :=
  if Field_modulus <=? v then Err FieldOutOfRange else Ok v.

Definition Field_try_from_be_bytes (b : bytes) : result AmountError Field :=
  Field_try_from_u256 (be_value b).

Definition Field_try_from_le_bytes (b : bytes) : result AmountError Field :=
  Field_try_from_u256 (le_value b).

Definition Field_from_le_bytes_mod_order (b : bytes) : Field := le_value b mod BN254_PRIME.

Definition Field_from_note (v : NoteAmount) : Field := v.

(** [TryFrom<ExtAmount> for Field]: the outer option is the panic of
    [expect("Field negative mapping underflow")]. *)
Definition Field_try_from_ext (v : ExtAmount) : option (result AmountError Field) :=
  let m := Field_modulus in
  if 0 <=? v then
    match try_into_u 128 v with
    | None => Some (Err ExtOutOfRange)
    | Some u => if m <=? u then Some (Err ExtOutOfFieldRange) else Some (Ok u)
    end
  else
    let abs := Z.abs v in
    if m <=? abs then Some (Err ExtAbsOutOfFieldRange)
    else f ← checked_sub m abs; Some (Ok f).

(** [impl Add], [impl Sub]; [None] is a failed [expect]. *)
Definition Field_add (a b : Field) : option Field :=
  v ← checked_add 256 a b;
  if Field_modulus <=? v then checked_sub v Field_modulus else Some v.

Definition Field_sub (a b : Field) : option Field :=
  if b <=? a then checked_sub a b
  else diff ← checked_sub b a; checked_sub Field_modulus diff.

(** ** Hex strings ([sdk/types/src/lib.rs])

    The [hex] crate is not part of the repository: its two functions are a
    parameter, with the documented facts the code relies on as laws. *)

Class HexCodec := {
  hex_encode : bytes -> list ascii;
  hex_decode_to_slice : list ascii -> nat -> option bytes;
}.

Class HexCodecLaws `{HexCodec} := {
  (** two characters per byte *)
  hex_encode_length b : length (hex_encode b) = (2 * length b)%nat;
  (** only hex digits, so never an [x] *)
  hex_encode_no_x b : Forall is_byte b -> ~ ("x"%char ∈ hex_encode b);
  (** decoding inverts encoding *)
  hex_decode_encode b :
    Forall is_byte b -> hex_decode_to_slice (hex_encode b) (length b) = Some b;
}.

Section hex.
Context `{HexCodec}.

(** [s.strip_prefix("0x").unwrap_or(s)]. *)
Definition strip_0x (s : list ascii) : list ascii :=
  match s with
  | c0 :: c1 :: s' => if bool_decide (c0 = "0"%char /\ c1 = "x"%char) then s' else s
  | _ => s
  end.

Definition encode_0x_hex (b : bytes) : list ascii := "0"%char :: "x"%char :: hex_encode b.

Definition parse_0x_hex_32 (s : list ascii) : result AmountError bytes :=
  let s := strip_0x s in
  if bool_decide (length s <> 64%nat) then Err (HexLength (length s))
  else ok_or (hex_decode_to_slice s 32) HexDecode.

Definition Field_from_0x_hex_le_bytes (s : list ascii) : result AmountError Field :=
  le ← parse_0x_hex_32 s; Field_try_from_le_bytes le.

Definition Field_from_0x_hex_be (s : list ascii) : result AmountError Field :=
  be ← parse_0x_hex_32 s; Field_try_from_be_bytes be.

Definition Field_to_0x_hex_be (f : Field) : list ascii := encode_0x_hex (Field_to_be_bytes f).

(** [FromStr] (and serde's [Deserialize], which calls it). *)
Definition Field_from_str (s : list ascii) : result AmountError Field :=
  be ← parse_0x_hex_32 s; Field_try_from_be_bytes be.

(** ** SQL columns ([rusqlite_impls])

    A text column is its characters: a byte string that is not UTF-8 fails the
    parse that follows in the same way, with [InvalidType]. *)

Inductive SqlValue : Type :=
| SqlNull
| SqlInteger (i : Z)
| SqlText (t : list ascii)
| SqlBlob (b : bytes).

Inductive FromSqlError : Type :=
| InvalidType
| OutOfRange (i : Z)
| InvalidBlobSize (expected_size blob_size : nat).

Definition NoteAmount_to_sql (a : NoteAmount) : SqlValue := SqlText (NoteAmount_to_string a).

Definition NoteAmount_column_result (v : SqlValue) : result FromSqlError NoteAmount :=
  match v with
  | SqlText t => ok_or (parse_u 128 t) InvalidType
  | _ => Err InvalidType
  end.

Definition ExtAmount_to_sql (a : ExtAmount) : result FromSqlError SqlValue :=
  v ← ok_or (try_into_i 64 a) (OutOfRange 0); Ok (SqlInteger v).

Definition ExtAmount_column_result (v : SqlValue) : result FromSqlError ExtAmount :=
  match v with
  | SqlInteger i => Ok i
  | _ => Err InvalidType
  end.

Definition Field_to_sql (f : Field) : SqlValue := SqlBlob (Field_to_le_bytes f).

Definition Field_column_result (v : SqlValue) : result FromSqlError Field :=
  match v with
  | SqlBlob b =>
      if bool_decide (length b <> 32%nat) then Err (InvalidBlobSize 32 (length b))
      else map_err (fun _ => OutOfRange 0) (Field_try_from_le_bytes b)
  | SqlText t => map_err (fun _ => InvalidType) (Field_from_0x_hex_le_bytes t)
  | _ => Err InvalidType
  end.

End hex.

(** ** Lemmas *)

Lemma Field_try_from_u256_ok v : in_field v -> Field_try_from_u256 v = Ok v.
Proof. intros [? ?]. unfold Field_try_from_u256, Field_modulus. rewrite bn254_modulus_p. case_if; [lia | done]. Qed.

Lemma Field_try_from_u256_Ok v f : Field_try_from_u256 v = Ok f <-> f = v /\ v < BN_P.
Proof.
  unfold Field_try_from_u256, Field_modulus. rewrite bn254_modulus_p. case_if.
  - split; [done | lia].
  - split; [intros [= <-]; done | by intros [-> _]].
Qed.

Lemma Field_le_roundtrip f : in_field f -> Field_try_from_le_bytes (Field_to_le_bytes f) = Ok f.
Proof.
  intros H. unfold Field_try_from_le_bytes, Field_to_le_bytes.
  rewrite le_value_bytes, pow_256_32, Z.mod_small by (by apply in_field_u256).
  by apply Field_try_from_u256_ok.
Qed.

Lemma Field_be_roundtrip f : in_field f -> Field_try_from_be_bytes (Field_to_be_bytes f) = Ok f.
Proof.
  intros H. unfold Field_try_from_be_bytes, Field_to_be_bytes.
  rewrite be_value_bytes, pow_256_32, Z.mod_small by (by apply in_field_u256).
  by apply Field_try_from_u256_ok.
Qed.

(** The code's reduction modulo the limbs constant is reduction modulo [BN_P]. *)
Lemma Field_mod_order_mod b : Field_from_le_bytes_mod_order b = le_value b mod BN_P.
Proof. unfold Field_from_le_bytes_mod_order. by rewrite BN254_PRIME_p. Qed.

Section hex_lemmas.
Context `{HexCodecLaws}.

Lemma parse_encode_0x_hex b :
  Forall is_byte b -> length b = 32%nat -> parse_0x_hex_32 (encode_0x_hex b) = Ok b.
Proof.
  intros Hb Hlen. unfold parse_0x_hex_32, encode_0x_hex.
  change (strip_0x _) with (hex_encode b). rewrite hex_encode_length, Hlen. simpl.
  rewrite <- Hlen, hex_decode_encode by done. done.
Qed.

(** The [0x] prefix is optional. *)
Lemma parse_raw_hex b :
  Forall is_byte b -> length b = 32%nat -> parse_0x_hex_32 (hex_encode b) = Ok b.
Proof.
  intros Hb Hlen. unfold parse_0x_hex_32.
  assert (strip_0x (hex_encode b) = hex_encode b) as ->.
  { pose proof (hex_encode_no_x b Hb) as Hx.
    destruct (hex_encode b) as [|c0 [|c1 l]]; [done | done |].
    assert (c1 <> "x"%char) as Hne by (intros ->; apply Hx; set_solver).
    unfold strip_0x. rewrite bool_decide_false; [done |]. by intros [_ ?]. }
  rewrite hex_encode_length, Hlen. simpl.
  rewrite <- Hlen, hex_decode_encode by done. done.
Qed.

End hex_lemmas.

(** ** A reference hex codec

    Lower-case nibbles, used to show that the codec laws can hold. *)

Definition nibble_char (n : Z) : ascii :=
  ascii_of_nat (Z.to_nat (if n <? 10 then 48 + n else 87 + n)).

Definition nibble_value (c : ascii) : option Z :=
  let v := Z.of_nat (nat_of_ascii c) in
  if (48 <=? v) && (v <=? 57) then Some (v - 48)
  else if (97 <=? v) && (v <=? 102) then Some (v - 87)
  else if (65 <=? v) && (v <=? 70) then Some (v - 55)
  else None.

Fixpoint nibbles_encode (b : bytes) : list ascii :=
  match b with
  | [] => []
  | x :: b => nibble_char (x / 16) :: nibble_char (x mod 16) :: nibbles_encode b
  end.

Fixpoint nibbles_decode (s : list ascii) (n : nat) : option bytes :=
  match n, s with
  | O, [] => Some []
  | S n, c0 :: c1 :: s =>
      h ← nibble_value c0; l ← nibble_value c1; b ← nibbles_decode s n; Some (16 * h + l :: b)
  | _, _ => None
  end.

#[export] Instance ref_hex : HexCodec :=
  {| hex_encode := nibbles_encode; hex_decode_to_slice := nibbles_decode |}.

Lemma nibble_spec n : 0 <= n < 16 -> nibble_value (nibble_char n) = Some n /\ nibble_char n <> "x"%char.
Proof.
  intros H. assert (exists k, n = Z.of_nat k /\ (k < 16)%nat) as (k & -> & Hk).
  { exists (Z.to_nat n). lia. }
  do 16 (destruct k as [|k]; [by split |]). lia.
Qed.

Lemma nibbles_of_byte x : is_byte x -> 0 <= x / 16 < 16 /\ 0 <= x mod 16 < 16.
Proof. unfold is_byte. intros. split; [| apply Z.mod_pos_bound; lia]. split; [apply Z.div_pos | apply Z.div_lt_upper_bound]; lia. Qed.

#[export] Instance ref_hex_laws : HexCodecLaws.
Proof.
  constructor; cbn.
  - induction b as [|x b IH]; cbn; [done |]. rewrite IH. lia.
  - induction 1 as [|x b Hx Hb IH]; [set_solver |]. cbn.
    destruct (nibbles_of_byte x Hx) as [Hh Hl].
    rewrite !not_elem_of_cons. split_and!; [by apply not_eq_sym, nibble_spec.. | done].
  - induction 1 as [|x b Hx Hb IH]; [done |]. cbn [nibbles_encode nibbles_decode length].
    destruct (nibbles_of_byte x Hx) as [Hh Hl].
    rewrite (proj1 (nibble_spec _ Hh)), (proj1 (nibble_spec _ Hl)). cbn [mbind option_bind].
    rewrite IH. cbn [mbind option_bind]. rewrite <- Z.div_mod by lia. done.
Qed.

(** The signed amount as a field element: itself or [BN_P - |x|]. *)
Lemma Field_try_from_ext_cases x :
  is_ext x -> Field_try_from_ext x = Some (Ok (if 0 <=? x then x else BN_P + x)).
Proof.
  intros [Hlo Hhi]. change (2 ^ 127) with 170141183460469231731687303715884105728 in *.
  unfold Field_try_from_ext, Field_modulus. rewrite bn254_modulus_p. unfold BN_P. case_if.
  - unfold try_into_u, fits_u. change (2 ^ 128) with 340282366920938463463374607431768211456.
    destruct (Z.leb_spec 0 x), (Z.ltb_spec x 340282366920938463463374607431768211456); try lia.
    cbn [andb]. case_if; [lia | done].
  - case_if; [lia |]. unfold checked_sub. case_if; [| lia]. cbn. do 2 f_equal. lia.
Qed.

Lemma Field_try_from_ext_mod x : is_ext x -> Field_try_from_ext x = Some (Ok (x mod BN_P)).
Proof.
  intros Hx. rewrite Field_try_from_ext_cases by done. do 2 f_equal. destruct Hx as [Hlo Hhi].
  change (2 ^ 127) with 170141183460469231731687303715884105728 in *. case_if.
  - rewrite Z.mod_small; unfold BN_P; lia.
  - apply (Z.mod_unique_pos _ _ (-1)); unfold BN_P; lia.
Qed.

(** ** Properties *)

(** [Field::try_from(ExtAmount)] is total on [i128]: it never panics and
    never errs, and its value is the residue of the signed amount modulo the
    BN254 scalar modulus ([x] for [x >= 0] and [BN_P - |x|] otherwise), so distinct
    amounts have distinct encodings. *)
Theorem ext_amount_field_encoding (v w : ExtAmount) :
  is_ext v -> is_ext w ->
  Field_try_from_ext v = Some (Ok (v mod BN_P)) /\
  (Field_try_from_ext v = Field_try_from_ext w -> v = w).
Proof.
  intros Hv Hw. split; [by apply Field_try_from_ext_mod |]. rewrite !Field_try_from_ext_cases by done.
  intros [= E]. destruct Hv as [Hv1 Hv2], Hw as [Hw1 Hw2].
  change (2 ^ 127) with 170141183460469231731687303715884105728 in *.
  unfold BN_P in E. repeat case_if_in E; lia.
Qed.

Lemma ext_amount_field_encoding_witness :
  Field_try_from_ext (-123) = Some (Ok (-123 mod BN_P)) /\
  (Field_try_from_ext (-123) = Field_try_from_ext 7 -> -123 = 7).
Proof. apply (ext_amount_field_encoding (-123) 7); vm_compute; split; congruence. Defined.

(** On canonical operands [Field] addition and subtraction never panic and
    are addition and subtraction modulo [BN_P]; the results are canonical, and
    subtraction undoes addition. *)
Theorem field_add_sub_modular (a b : Field) :
  in_field a -> in_field b ->
  Field_add a b = Some ((a + b) mod BN_P) /\
  Field_sub a b = Some ((a - b) mod BN_P) /\
  (Field_add a b ≫= fun s => Field_sub s b) = Some a.
Proof.
  assert (forall x y, in_field x -> in_field y -> Field_add x y = Some ((x + y) mod BN_P)) as Hadd.
  { intros x y [Hx0 Hx] [Hy0 Hy]. unfold Field_add, checked_add, Field_modulus. rewrite bn254_modulus_p.
    change (2 ^ 256) with 115792089237316195423570985008687907853269984665640564039457584007913129639936.
    unfold BN_P in *. case_if; [| lia]. cbn [mbind option_bind]. unfold checked_sub. repeat case_if; try lia; f_equal.
    - apply (Z.mod_unique_pos _ _ 1); lia.
    - symmetry. apply Z.mod_small. lia. }
  assert (forall x y, in_field x -> in_field y -> Field_sub x y = Some ((x - y) mod BN_P)) as Hsub.
  { intros x y [Hx0 Hx] [Hy0 Hy]. unfold Field_sub, checked_sub, Field_modulus. rewrite bn254_modulus_p.
    unfold BN_P in *. repeat (case_if; cbn [mbind option_bind]); try lia; f_equal.
    - symmetry. apply Z.mod_small. lia.
    - apply (Z.mod_unique_pos _ _ (-1)); lia. }
  intros Ha Hb. rewrite Hadd, Hsub by done. split_and!; [done | done |].
  cbn [mbind option_bind]. rewrite Hsub by (apply in_field_mod || done). f_equal.
  rewrite Zminus_mod_idemp_l. replace (a + b - b) with a by lia. by apply Z.mod_small.
Qed.

Lemma field_add_sub_modular_witness :
  Field_add (BN_P - 1) 5 = Some ((BN_P - 1 + 5) mod BN_P) /\
  Field_sub (BN_P - 1) 5 = Some ((BN_P - 1 - 5) mod BN_P) /\
  (Field_add (BN_P - 1) 5 ≫= fun s => Field_sub s 5) = Some (BN_P - 1).
Proof. apply (field_add_sub_modular (BN_P - 1) 5); vm_compute; split; congruence. Defined.

(** Every encoding of a canonical field element decodes to it: 32 bytes
    little- and big-endian, the [0x] hex string with and without the prefix
    ([Display]/[FromStr]/serde), and the SQL blob; and a 32-byte value is
    accepted by the checked decoders exactly when it is below the modulus. *)
Theorem field_codecs_roundtrip `{HexCodecLaws} (f : Field) (b : bytes) :
  in_field f -> Forall is_byte b -> length b = 32%nat ->
  Field_try_from_le_bytes (Field_to_le_bytes f) = Ok f /\
  Field_try_from_be_bytes (Field_to_be_bytes f) = Ok f /\
  Field_from_str (Field_to_0x_hex_be f) = Ok f /\
  Field_from_str (hex_encode (Field_to_be_bytes f)) = Ok f /\
  Field_column_result (Field_to_sql f) = Ok f /\
  (Field_try_from_le_bytes b = Ok (le_value b) <-> le_value b < BN_P) /\
  Field_try_from_le_bytes (Field_to_le_bytes (Field_from_le_bytes_mod_order b)) = Ok (le_value b mod BN_P).
Proof.
  intros Hf Hb Hlen.
  assert (Forall is_byte (Field_to_be_bytes f) /\ length (Field_to_be_bytes f) = 32%nat) as [Hbe Hbl].
  { split; [apply be_bytes_bytes | apply length_be_bytes]. }
  split_and!.
  - by apply Field_le_roundtrip.
  - by apply Field_be_roundtrip.
  - unfold Field_from_str, Field_to_0x_hex_be. rewrite parse_encode_0x_hex by done. by apply Field_be_roundtrip.
  - unfold Field_from_str. rewrite parse_raw_hex by done. by apply Field_be_roundtrip.
  - unfold Field_column_result, Field_to_sql.
    rewrite bool_decide_false by (intros Hne; apply Hne, length_le_bytes).
    by rewrite Field_le_roundtrip.
  - unfold Field_try_from_le_bytes. rewrite Field_try_from_u256_Ok. tauto.
  - rewrite Field_mod_order_mod. apply Field_le_roundtrip, in_field_mod.
Qed.

Lemma field_codecs_roundtrip_witness :
  Field_from_str (Field_to_0x_hex_be 12345) = Ok 12345 /\
  Field_from_str (hex_encode (Field_to_be_bytes 12345)) = Ok 12345 /\
  (Field_try_from_le_bytes BN254_MODULUS_BE = Ok (le_value BN254_MODULUS_BE) <-> le_value BN254_MODULUS_BE < BN_P).
Proof.
  assert (Forall is_byte BN254_MODULUS_BE) as Hb by (repeat constructor; vm_compute; congruence).
  assert (in_field 12345) as Hf by (vm_compute; split; congruence).
  destruct (field_codecs_roundtrip 12345 BN254_MODULUS_BE Hf Hb eq_refl) as (_ & _ & H1 & H2 & _ & H3 & _).
  exact (conj H1 (conj H2 H3)).
Defined.

(** Amounts survive their text and SQL encodings: a note amount and an
    external amount print to strings that parse back to them; the note amount's
    TEXT column reads back; an external amount is stored exactly when it fits in
    an [i64], and then reads back. *)
Theorem amount_text_roundtrip (n : NoteAmount) (e : ExtAmount) :
  is_note n -> is_ext e ->
  NoteAmount_from_str (NoteAmount_to_string n) = Ok n /\
  ExtAmount_from_str (ExtAmount_to_string e) = Ok e /\
  NoteAmount_column_result (NoteAmount_to_sql n) = Ok n /\
  (ExtAmount_to_sql e ≫= ExtAmount_column_result) =
    (if fits_i 64 e then Ok e else Err (OutOfRange 0)).
Proof.
  intros Hn He.
  unfold NoteAmount_from_str, NoteAmount_to_string, ExtAmount_from_str, ExtAmount_to_string,
    NoteAmount_column_result, NoteAmount_to_sql, NoteAmount_to_string.
  rewrite parse_show_u, parse_show_i by done. split_and!; [done.. |].
  unfold ExtAmount_to_sql, try_into_i. by destruct (fits_i 64 e).
Qed.

Lemma amount_text_roundtrip_witness :
  NoteAmount_from_str (NoteAmount_to_string NoteAmount_MAX) = Ok NoteAmount_MAX /\
  ExtAmount_from_str (ExtAmount_to_string (- 2 ^ 127)) = Ok (- 2 ^ 127) /\
  NoteAmount_column_result (NoteAmount_to_sql NoteAmount_MAX) = Ok NoteAmount_MAX /\
  (ExtAmount_to_sql (- 2 ^ 127) ≫= ExtAmount_column_result) = Err (OutOfRange 0).
Proof. apply (amount_text_roundtrip NoteAmount_MAX (- 2 ^ 127)); vm_compute; split; congruence. Defined.

(** Conversions between the two amount types: a note amount becomes an
    external amount exactly when it fits in an [i128], an external amount becomes
    a note amount exactly when it is not negative, and each conversion undoes the
    other where both are defined. *)
Theorem amount_conversions (n : NoteAmount) (e : ExtAmount) :
  is_note n -> is_ext e ->
  ExtAmount_try_from_note n = (if n <? 2 ^ 127 then Ok n else Err TryFromInt) /\
  NoteAmount_try_from_ext e = (if 0 <=? e then Ok e else Err (NoteAmountOutOfRange e)) /\
  (forall x, ExtAmount_try_from_note n = Ok x -> NoteAmount_try_from_ext x = Ok n) /\
  (forall x, NoteAmount_try_from_ext e = Ok x -> ExtAmount_try_from_note x = Ok e).
Proof.
  unfold is_note, is_ext, ExtAmount_try_from_note, NoteAmount_try_from_ext, try_into_i, try_into_u.
  change (2 ^ 127) with 170141183460469231731687303715884105728.
  change (2 ^ 128) with 340282366920938463463374607431768211456.
  intros Hn He.
  assert (forall x, 0 <= x < 170141183460469231731687303715884105728 ->
                    fits_i 128 x = true /\ fits_u 128 x = true) as Hfit.
  { intros x Hx. rewrite fits_i_spec, fits_u_spec.
    change (2 ^ (128 - 1)) with 170141183460469231731687303715884105728.
    change (2 ^ 128) with 340282366920938463463374607431768211456. lia. }
  assert (fits_i 128 n = (n <? 170141183460469231731687303715884105728)) as ->.
  { apply eq_true_iff_eq. rewrite fits_i_spec, Z.ltb_lt.
    change (2 ^ (128 - 1)) with 170141183460469231731687303715884105728. lia. }
  assert (fits_u 128 e = (0 <=? e)) as ->.
  { apply eq_true_iff_eq. rewrite fits_u_spec, Z.leb_le.
    change (2 ^ 128) with 340282366920938463463374607431768211456. lia. }
  destruct (Z.ltb_spec n 170141183460469231731687303715884105728) as [Hn'|Hn'], (Z.leb_spec 0 e) as [He'|He'];
    simpl; split_and!; try done; intros x; try done; intros [= <-].
  all: first [by rewrite (proj2 (Hfit n ltac:(lia))) | by rewrite (proj1 (Hfit e ltac:(lia)))].
Qed.

Lemma amount_conversions_witness :
  ExtAmount_try_from_note 5 = Ok 5 /\
  NoteAmount_try_from_ext (-5) = Err (NoteAmountOutOfRange (-5)) /\
  (forall x, ExtAmount_try_from_note 5 = Ok x -> NoteAmount_try_from_ext x = Ok 5) /\
  (forall x, NoteAmount_try_from_ext (-5) = Ok x -> ExtAmount_try_from_note x = Ok (-5)).
Proof. apply (amount_conversions 5 (-5)); vm_compute; split; congruence. Defined.
