(* ===== verification/Poseidon2.v ===== *)
(** * The Poseidon2 permutation ([poseidon2/src/poseidon2/])

    The crate is generic over a prime field; here over a [PrimeField] instance
    with the operations the code uses.  [None] is a panic: a failed assertion, an
    index out of range, or a state size or S-box degree without an
    implementation.  The permutation is stated once and run on two instances:
    residues modulo the BN254 scalar prime ([ZField]) and, in [Poseidon2Facts.v],
    arbitrary-precision machine integers. *)

From S2P Require Import Prelude Ints Amounts.

(** ** The field interface *)

Class PrimeField (F : Type) := {
  f_zero : F;
  f_add : F -> F -> F;
  f_mul : F -> F -> F;
}.

Section poseidon2.
Context {F : Type} `{PrimeField F}.

Definition double_in_place (x : F) : F := f_add x x.
Definition square_in_place (x : F) : F := f_mul x x.

(** ** Parameters *)

Record Poseidon2Params : Type := {
  t : nat;
  d : nat;
  rounds_f_div_2 : nat;
  rounds_p : nat;
  rounds : nat;
  mat_internal_diag_m_1 : list F;
  mat_internal : list (list F);
  round_constants : list (list F);
}.

(** [Poseidon2Params::new]: the two assertions, then the record. *)
Definition Poseidon2Params_new (t d rounds_f rounds_p : nat) (diag : list F)
    (mat : list (list F)) (rc : list (list F)) : option Poseidon2Params :=
  if bool_decide ((d = 3 \/ d = 5 \/ d = 7 \/ d = 11) /\ rounds_f mod 2 = 0)%nat then
    Some {| t := t; d := d; rounds_f_div_2 := rounds_f / 2; rounds_p := rounds_p;
            rounds := rounds_f + rounds_p; mat_internal_diag_m_1 := diag;
            mat_internal := mat; round_constants := rc |}
  else None.

(** ** Round functions *)

Definition sbox_p (d : nat) (input : F) : option F :=
  let input2 := square_in_place input in
  match d with
  | 3%nat => Some (f_mul input2 input)
  | 5%nat => Some (f_mul (square_in_place input2) input)
  | 7%nat => Some (f_mul (f_mul (square_in_place input2) input2) input)
  | _ => None
  end.

Definition sbox (d : nat) (input : list F) : option (list F) := mapM (sbox_p d) input.

(** One 4-element block of [matmul_m4]. *)
Definition m4_block (x0 x1 x2 x3 : F) : list F :=
  let t_0 := f_add x0 x1 in
  let t_1 := f_add x2 x3 in
  let t_2 := f_add (double_in_place x1) t_1 in
  let t_3 := f_add (double_in_place x3) t_0 in
  let t_4 := f_add (double_in_place (double_in_place t_1)) t_3 in
  let t_5 := f_add (double_in_place (double_in_place t_0)) t_2 in
  let t_6 := f_add t_3 t_5 in
  let t_7 := f_add t_2 t_4 in
  [t_6; t_5; t_7; t_4].

(** The loop of [matmul_m4] over [t4] blocks. *)
Fixpoint matmul_m4 (t4 : nat) (input : list F) : option (list F) :=
  match t4 with
  | O => Some input
  | S t4 =>
      match input with
      | x0 :: x1 :: x2 :: x3 :: rest =>
          rest ← matmul_m4 t4 rest; Some (m4_block x0 x1 x2 x3 ++ rest)
      | _ => None
      end
  end.

(** [stored[l]]: the sum of [input[l]], [input[4 + l]], ..., [input[4 (t4 - 1) + l]]. *)
Definition stored_sum (t4 l : nat) (input : list F) : option F :=
  x ← input !! l;
  foldl (fun acc j => a ← acc; y ← input !! (4 * j + l)%nat; Some (f_add a y))
        (Some x) (seq 1 (t4 - 1)).

Definition matmul_external (t : nat) (input : list F) : option (list F) :=
  match t with
  | 2%nat =>
      match input with
      | x0 :: x1 :: rest =>
          let sum := f_add x0 x1 in Some (f_add x0 sum :: f_add x1 sum :: rest)
      | _ => None
      end
  | 3%nat =>
      match input with
      | x0 :: x1 :: x2 :: rest =>
          let sum := f_add (f_add x0 x1) x2 in
          Some (f_add x0 sum :: f_add x1 sum :: f_add x2 sum :: rest)
      | _ => None
      end
  | 4%nat => matmul_m4 1 input
  | 8%nat | 12%nat | 16%nat | 20%nat | 24%nat =>
      input ← matmul_m4 (t / 4) input;
      stored ← mapM (fun l => stored_sum (t / 4) l input) (seq 0 4);
      Some (imap (fun i x => f_add x (default f_zero (stored !! (i mod 4)%nat))) input)
  | _ => None
  end.

(** [sum] of the general branch of [matmul_internal]: [input[0]] plus the next
    [t - 1] elements. *)
Definition state_sum (t : nat) (input : list F) : option F :=
  match input with
  | [] => None
  | x :: rest => Some (foldl f_add x (take (t - 1) rest))
  end.

(** [input[i] = input[i] * diag[i] + sum], for every [i]. *)
Fixpoint diag_rows (sum : F) (input diag : list F) : option (list F) :=
  match input, diag with
  | [], _ => Some []
  | x :: input, m :: diag => rest ← diag_rows sum input diag; Some (f_add (f_mul x m) sum :: rest)
  | _ :: _, [] => None
  end.

Definition matmul_internal (t : nat) (input diag : list F) : option (list F) :=
  match t with
  | 2%nat =>
      match input with
      | x0 :: x1 :: rest =>
          let sum := f_add x0 x1 in
          Some (f_add x0 sum :: f_add (double_in_place x1) sum :: rest)
      | _ => None
      end
  | 3%nat =>
      match input with
      | x0 :: x1 :: x2 :: rest =>
          let sum := f_add (f_add x0 x1) x2 in
          Some (f_add x0 sum :: f_add x1 sum :: f_add (double_in_place x2) sum :: rest)
      | _ => None
      end
  | 4%nat | 8%nat | 12%nat | 16%nat | 20%nat | 24%nat =>
      sum ← state_sum t input; diag_rows sum input diag
  | _ => None
  end.

(** [zip]: stops at the shorter list. *)
Definition add_rc (input rc : list F) : list F := zip_with f_add input rc.

(** ** The permutation *)

Definition full_round (ps : Poseidon2Params) (s : list F) (r : nat) : option (list F) :=
  rc ← ps.(round_constants) !! r;
  s ← sbox ps.(d) (add_rc s rc);
  matmul_external ps.(t) s.

Definition partial_round (ps : Poseidon2Params) (s : list F) (r : nat) : option (list F) :=
  rc ← ps.(round_constants) !! r;
  c ← rc !! 0%nat;
  match s with
  | [] => None
  | x :: rest =>
      y ← sbox_p ps.(d) (f_add x c);
      matmul_internal ps.(t) (y :: rest) ps.(mat_internal_diag_m_1)
  end.

Definition run_rounds (f : list F -> nat -> option (list F)) (s : list F) (rs : list nat)
  : option (list F) :=
  foldl (fun acc r => s ← acc; f s r) (Some s) rs.

Definition permutation (ps : Poseidon2Params) (input : list F) : option (list F) :=
  if bool_decide (length input = ps.(t)) then
    s ← matmul_external ps.(t) input;
    s ← run_rounds (full_round ps) s (seq 0 ps.(rounds_f_div_2));
    s ← run_rounds (partial_round ps) s (seq ps.(rounds_f_div_2) ps.(rounds_p));
    let p_end := (ps.(rounds_f_div_2) + ps.(rounds_p))%nat in
    run_rounds (full_round ps) s (seq p_end (ps.(rounds) - p_end))
  else None.

End poseidon2.

Arguments Poseidon2Params F : clear implicits.

(** ** Residues modulo the BN254 scalar prime *)

#[export] Instance ZField : PrimeField Z := {|
  f_zero := 0;
  f_add a b := (a + b) mod BN_P;
  f_mul a b := (a * b) mod BN_P;
|}.
