(* ===== verification/Poseidon2Tables.v ===== *)
(** * Poseidon2 constants for BN254

    The tables of [poseidon2/src/poseidon2/poseidon2_instance_bn256.rs] (hex
    strings there, hex literals here), and those the contracts embed as big-endian
    byte arrays in [contracts/soroban-utils/src/constants.rs] and
    [contracts/soroban-utils/src/poseidon2.rs].  Each round-constant table is cut
    at the boundaries between the opening full rounds, the partial rounds and the
    closing full rounds. *)

From S2P Require Import Prelude Ints Amounts Poseidon2.

(** ** Crate tables *)

Definition MAT_DIAG2_M_1 : list Z :=
  [0x0000000000000000000000000000000000000000000000000000000000000001;
   0x0000000000000000000000000000000000000000000000000000000000000002].

Definition MAT_INTERNAL2 : list (list Z) :=
  [[0x0000000000000000000000000000000000000000000000000000000000000002; 0x0000000000000000000000000000000000000000000000000000000000000001];
   [0x0000000000000000000000000000000000000000000000000000000000000001; 0x0000000000000000000000000000000000000000000000000000000000000003]].

Definition RC2_begin : list (list Z) :=
  [[0x09c46e9ec68e9bd4fe1faaba294cba38a71aa177534cdd1b6c7dc0dbd0abd7a7; 0x0c0356530896eec42a97ed937f3135cfc5142b3ae405b8343c1d83ffa604cb81];
   [0x1e28a1d935698ad1142e51182bb54cf4a00ea5aabd6268bd317ea977cc154a30; 0x27af2d831a9d2748080965db30e298e40e5757c3e008db964cf9e2b12b91251f];
   [0x1e6f11ce60fc8f513a6a3cfe16ae175a41291462f214cd0879aaf43545b74e03; 0x2a67384d3bbd5e438541819cb681f0be04462ed14c3613d8f719206268d142d3];
   [0x0b66fdf356093a611609f8e12fbfecf0b985e381f025188936408f5d5c9f45d0; 0x012ee3ec1e78d470830c61093c2ade370b26c83cc5cebeeddaa6852dbdb09e21]].

Definition RC2_partial : list (list Z) :=
  [[0x0252ba5f6760bfbdfd88f67f8175e3fd6cd1c431b099b6bb2d108e7b445bb1b9; 0x0000000000000000000000000000000000000000000000000000000000000000];
   [0x179474cceca5ff676c6bec3cef54296354391a8935ff71d6ef5aeaad7ca932f1; 0x0000000000000000000000000000000000000000000000000000000000000000];
   [0x2c24261379a51bfa9228ff4a503fd4ed9c1f974a264969b37e1a2589bbed2b91; 0x0000000000000000000000000000000000000000000000000000000000000000];
   [0x1cc1d7b62692e63eac2f288bd0695b43c2f63f5001fc0fc553e66c0551801b05; 0x0000000000000000000000000000000000000000000000000000000000000000];
   [0x255059301aada98bb2ed55f852979e9600784dbf17fbacd05d9eff5fd9c91b56; 0x0000000000000000000000000000000000000000000000000000000000000000];
   [0x28437be3ac1cb2e479e1f5c0eccd32b3aea24234970a8193b11c29ce7e59efd9; 0x0000000000000000000000000000000000000000000000000000000000000000];
   [0x28216a442f2e1f711ca4fa6b53766eb118548da8fb4f78d4338762c37f5f2043; 0x0000000000000000000000000000000000000000000000000000000000000000];
   [0x2c1f47cd17fa5adf1f39f4e7056dd03feee1efce03094581131f2377323482c9; 0x0000000000000000000000000000000000000000000000000000000000000000];
   [0x07abad02b7a5ebc48632bcc9356ceb7dd9dafca276638a63646b8566a621afc9; 0x0000000000000000000000000000000000000000000000000000000000000000];
   [0x0230264601ffdf29275b33ffaab51dfe9429f90880a69cd137da0c4d15f96c3c; 0x0000000000000000000000000000000000000000000000000000000000000000];
   [0x1bc973054e51d905a0f168656497ca40a864414557ee289e717e5d66899aa0a9; 0x0000000000000000000000000000000000000000000000000000000000000000];
   [0x2e1c22f964435008206c3157e86341edd249aff5c2d8421f2a6b22288f0a67fc; 0x0000000000000000000000000000000000000000000000000000000000000000];
   [0x1224f38df67c5378121c1d5f461bbc509e8ea1598e46c9f7a70452bc2bba86b8; 0x0000000000000000000000000000000000000000000000000000000000000000];
   [0x02e4e69d8ba59e519280b4bd9ed0068fd7bfe8cd9dfeda1969d2989186cde20e; 0x0000000000000000000000000000000000000000000000000000000000000000];
   [0x1f1eccc34aaba0137f5df81fc04ff3ee4f19ee364e653f076d47e9735d98018e; 0x0000000000000000000000000000000000000000000000000000000000000000];
   [0x1672ad3d709a353974266c3039a9a7311424448032cd1819eacb8a4d4284f582; 0x0000000000000000000000000000000000000000000000000000000000000000];
   [0x283e3fdc2c6e420c56f44af5192b4ae9cda6961f284d24991d2ed602df8c8fc7; 0x0000000000000000000000000000000000000000000000000000000000000000];
   [0x1c2a3d120c550ecfd0db0957170fa013683751f8fdff59d6614fbd69ff394bcc; 0x0000000000000000000000000000000000000000000000000000000000000000];
   [0x216f84877aac6172f7897a7323456efe143a9a43773ea6f296cb6b8177653fbd; 0x0000000000000000000000000000000000000000000000000000000000000000];
   [0x2c0d272becf2a75764ba7e8e3e28d12bceaa47ea61ca59a411a1f51552f94788; 0x0000000000000000000000000000000000000000000000000000000000000000];
   [0x16e34299865c0e28484ee7a74c454e9f170a5480abe0508fcb4a6c3d89546f43; 0x0000000000000000000000000000000000000000000000000000000000000000];
   [0x175ceba599e96f5b375a232a6fb9cc71772047765802290f48cd939755488fc5; 0x0000000000000000000000000000000000000000000000000000000000000000];
   [0x0c7594440dc48c16fead9e1758b028066aa410bfbc354f54d8c5ffbb44a1ee32; 0x0000000000000000000000000000000000000000000000000000000000000000];
   [0x1a3c29bc39f21bb5c466db7d7eb6fd8f760e20013ccf912c92479882d919fd8d; 0x0000000000000000000000000000000000000000000000000000000000000000];
   [0x0ccfdd906f3426e5c0986ea049b253400855d349074f5a6695c8eeabcd22e68f; 0x0000000000000000000000000000000000000000000000000000000000000000];
   [0x14f6bc81d9f186f62bdb475ce6c9411866a7a8a3fd065b3ce0e699b67dd9e796; 0x0000000000000000000000000000000000000000000000000000000000000000];
   [0x0962b82789fb3d129702ca70b2f6c5aacc099810c9c495c888edeb7386b97052; 0x0000000000000000000000000000000000000000000000000000000000000000];
   [0x1a880af7074d18b3bf20c79de25127bc13284ab01ef02575afef0c8f6a31a86d; 0x0000000000000000000000000000000000000000000000000000000000000000];
   [0x10cba18419a6a332cd5e77f0211c154b20af2924fc20ff3f4c3012bb7ae9311b; 0x0000000000000000000000000000000000000000000000000000000000000000];
   [0x057e62a9a8f89b3ebdc76ba63a9eaca8fa27b7319cae3406756a2849f302f10d; 0x0000000000000000000000000000000000000000000000000000000000000000];
   [0x287c971de91dc0abd44adf5384b4988cb961303bbf65cff5afa0413b44280cee; 0x0000000000000000000000000000000000000000000000000000000000000000];
   [0x21df3388af1687bbb3bca9da0cca908f1e562bc46d4aba4e6f7f7960e306891d; 0x0000000000000000000000000000000000000000000000000000000000000000];
   [0x1be5c887d25bce703e25cc974d0934cd789df8f70b498fd83eff8b560e1682b3; 0x0000000000000000000000000000000000000000000000000000000000000000];
   [0x268da36f76e568fb68117175cea2cd0dd2cb5d42fda5acea48d59c2706a0d5c1; 0x0000000000000000000000000000000000000000000000000000000000000000];
   [0x0e17ab091f6eae50c609beaf5510ececc5d8bb74135ebd05bd06460cc26a5ed6; 0x0000000000000000000000000000000000000000000000000000000000000000];
   [0x04d727e728ffa0a67aee535ab074a43091ef62d8cf83d270040f5caa1f62af40; 0x0000000000000000000000000000000000000000000000000000000000000000];
   [0x0ddbd7bf9c29341581b549762bc022ed33702ac10f1bfd862b15417d7e39ca6e; 0x0000000000000000000000000000000000000000000000000000000000000000];
   [0x2790eb3351621752768162e82989c6c234f5b0d1d3af9b588a29c49c8789654b; 0x0000000000000000000000000000000000000000000000000000000000000000];
   [0x1e457c601a63b73e4471950193d8a570395f3d9ab8b2fd0984b764206142f9e9; 0x0000000000000000000000000000000000000000000000000000000000000000];
   [0x21ae64301dca9625638d6ab2bbe7135ffa90ecd0c43ff91fc4c686fc46e091b0; 0x0000000000000000000000000000000000000000000000000000000000000000];
   [0x0379f63c8ce3468d4da293166f494928854be9e3432e09555858534eed8d350b; 0x0000000000000000000000000000000000000000000000000000000000000000];
   [0x002d56420359d0266a744a080809e054ca0e4921a46686ac8c9f58a324c35049; 0x0000000000000000000000000000000000000000000000000000000000000000];
   [0x123158e5965b5d9b1d68b3cd32e10bbeda8d62459e21f4090fc2c5af963515a6; 0x0000000000000000000000000000000000000000000000000000000000000000];
   [0x0be29fc40847a941661d14bbf6cbe0420fbb2b6f52836d4e60c80eb49cad9ec1; 0x0000000000000000000000000000000000000000000000000000000000000000];
   [0x1ac96991dec2bb0557716142015a453c36db9d859cad5f9a233802f24fdf4c1a; 0x0000000000000000000000000000000000000000000000000000000000000000];
   [0x1596443f763dbcc25f4964fc61d23b3e5e12c9fa97f18a9251ca3355bcb0627e; 0x0000000000000000000000000000000000000000000000000000000000000000];
   [0x12e0bcd3654bdfa76b2861d4ec3aeae0f1857d9f17e715aed6d049eae3ba3212; 0x0000000000000000000000000000000000000000000000000000000000000000];
   [0x0fc92b4f1bbea82b9ea73d4af9af2a50ceabac7f37154b1904e6c76c7cf964ba; 0x0000000000000000000000000000000000000000000000000000000000000000];
   [0x1f9c0b1610446442d6f2e592a8013f40b14f7c7722236f4f9c7e965233872762; 0x0000000000000000000000000000000000000000000000000000000000000000];
   [0x0ebd74244ae72675f8cde06157a782f4050d914da38b4c058d159f643dbbf4d3; 0x0000000000000000000000000000000000000000000000000000000000000000];
   [0x2cb7f0ed39e16e9f69a9fafd4ab951c03b0671e97346ee397a839839dccfc6d1; 0x0000000000000000000000000000000000000000000000000000000000000000];
   [0x1a9d6e2ecff022cc5605443ee41bab20ce761d0514ce526690c72bca7352d9bf; 0x0000000000000000000000000000000000000000000000000000000000000000];
   [0x2a115439607f335a5ea83c3bc44a9331d0c13326a9a7ba3087da182d648ec72f; 0x0000000000000000000000000000000000000000000000000000000000000000];
   [0x23f9b6529b5d040d15b8fa7aee3e3410e738b56305cd44f29535c115c5a4c060; 0x0000000000000000000000000000000000000000000000000000000000000000];
   [0x05872c16db0f72a2249ac6ba484bb9c3a3ce97c16d58b68b260eb939f0e6e8a7; 0x0000000000000000000000000000000000000000000000000000000000000000];
   [0x1300bdee08bb7824ca20fb80118075f40219b6151d55b5c52b624a7cdeddf6a7; 0x0000000000000000000000000000000000000000000000000000000000000000]].

Definition RC2_end : list (list Z) :=
  [[0x19b9b63d2f108e17e63817863a8f6c288d7ad29916d98cb1072e4e7b7d52b376; 0x015bee1357e3c015b5bda237668522f613d1c88726b5ec4224a20128481b4f7f];
   [0x2953736e94bb6b9f1b9707a4f1615e4efe1e1ce4bab218cbea92c785b128ffd1; 0x0b069353ba091618862f806180c0385f851b98d372b45f544ce7266ed6608dfc];
   [0x304f74d461ccc13115e4e0bcfb93817e55aeb7eb9306b64e4f588ac97d81f429; 0x15bbf146ce9bca09e8a33f5e77dfe4f5aad2a164a4617a4cb8ee5415cde913fc];
   [0x0ab4dfe0c2742cde44901031487964ed9b8f4b850405c10ca9ff23859572c8c6; 0x0e32db320a044e3197f45f7649a19675ef5eedfea546dea9251de39f9639779a]].

Definition RC2 : list (list Z) := RC2_begin ++ RC2_partial ++ RC2_end.

Definition POSEIDON2_BN256_PARAMS_2 : option (Poseidon2Params Z) :=
  Poseidon2Params_new 2 5 8 56 MAT_DIAG2_M_1 MAT_INTERNAL2 RC2.

Definition MAT_DIAG3_M_1 : list Z :=
  [0x0000000000000000000000000000000000000000000000000000000000000001;
   0x0000000000000000000000000000000000000000000000000000000000000001;
   0x0000000000000000000000000000000000000000000000000000000000000002].

Definition MAT_INTERNAL3 : list (list Z) :=
  [[0x0000000000000000000000000000000000000000000000000000000000000002; 0x0000000000000000000000000000000000000000000000000000000000000001; 0x0000000000000000000000000000000000000000000000000000000000000001];
   [0x0000000000000000000000000000000000000000000000000000000000000001; 0x0000000000000000000000000000000000000000000000000000000000000002; 0x0000000000000000000000000000000000000000000000000000000000000001];
   [0x0000000000000000000000000000000000000000000000000000000000000001; 0x0000000000000000000000000000000000000000000000000000000000000001; 0x0000000000000000000000000000000000000000000000000000000000000003]].

Definition RC3_begin : list (list Z) :=
  [[0x1d066a255517b7fd8bddd3a93f7804ef7f8fcde48bb4c37a59a09a1a97052816; 0x29daefb55f6f2dc6ac3f089cebcc6120b7c6fef31367b68eb7238547d32c1610; 0x1f2cb1624a78ee001ecbd88ad959d7012572d76f08ec5c4f9e8b7ad7b0b4e1d1];
   [0x0aad2e79f15735f2bd77c0ed3d14aa27b11f092a53bbc6e1db0672ded84f31e5; 0x2252624f8617738cd6f661dd4094375f37028a98f1dece66091ccf1595b43f28; 0x1a24913a928b38485a65a84a291da1ff91c20626524b2b87d49f4f2c9018d735];
   [0x22fc468f1759b74d7bfc427b5f11ebb10a41515ddff497b14fd6dae1508fc47a; 0x1059ca787f1f89ed9cd026e9c9ca107ae61956ff0b4121d5efd65515617f6e4d; 0x02be9473358461d8f61f3536d877de982123011f0bf6f155a45cbbfae8b981ce];
   [0x0ec96c8e32962d462778a749c82ed623aba9b669ac5b8736a1ff3a441a5084a4; 0x292f906e073677405442d9553c45fa3f5a47a7cdb8c99f9648fb2e4d814df57e; 0x274982444157b86726c11b9a0f5e39a5cc611160a394ea460c63f0b2ffe5657e]].

Definition RC3_partial : list (list Z) :=
  [[0x1a1d063e54b1e764b63e1855bff015b8cedd192f47308731499573f23597d4b5; 0x0000000000000000000000000000000000000000000000000000000000000000; 0x0000000000000000000000000000000000000000000000000000000000000000];
   [0x26abc66f3fdf8e68839d10956259063708235dccc1aa3793b91b002c5b257c37; 0x0000000000000000000000000000000000000000000000000000000000000000; 0x0000000000000000000000000000000000000000000000000000000000000000];
   [0x0c7c64a9d887385381a578cfed5aed370754427aabca92a70b3c2b12ff4d7be8; 0x0000000000000000000000000000000000000000000000000000000000000000; 0x0000000000000000000000000000000000000000000000000000000000000000];
   [0x1cf5998769e9fab79e17f0b6d08b2d1eba2ebac30dc386b0edd383831354b495; 0x0000000000000000000000000000000000000000000000000000000000000000; 0x0000000000000000000000000000000000000000000000000000000000000000];
   [0x0f5e3a8566be31b7564ca60461e9e08b19828764a9669bc17aba0b97e66b0109; 0x0000000000000000000000000000000000000000000000000000000000000000; 0x0000000000000000000000000000000000000000000000000000000000000000];
   [0x18df6a9d19ea90d895e60e4db0794a01f359a53a180b7d4b42bf3d7a531c976e; 0x0000000000000000000000000000000000000000000000000000000000000000; 0x0000000000000000000000000000000000000000000000000000000000000000];
   [0x04f7bf2c5c0538ac6e4b782c3c6e601ad0ea1d3a3b9d25ef4e324055fa3123dc; 0x0000000000000000000000000000000000000000000000000000000000000000; 0x0000000000000000000000000000000000000000000000000000000000000000];
   [0x29c76ce22255206e3c40058523748531e770c0584aa2328ce55d54628b89ebe6; 0x0000000000000000000000000000000000000000000000000000000000000000; 0x0000000000000000000000000000000000000000000000000000000000000000];
   [0x198d425a45b78e85c053659ab4347f5d65b1b8e9c6108dbe00e0e945dbc5ff15; 0x0000000000000000000000000000000000000000000000000000000000000000; 0x0000000000000000000000000000000000000000000000000000000000000000];
   [0x25ee27ab6296cd5e6af3cc79c598a1daa7ff7f6878b3c49d49d3a9a90c3fdf74; 0x0000000000000000000000000000000000000000000000000000000000000000; 0x0000000000000000000000000000000000000000000000000000000000000000];
   [0x138ea8e0af41a1e024561001c0b6eb1505845d7d0c55b1b2c0f88687a96d1381; 0x0000000000000000000000000000000000000000000000000000000000000000; 0x0000000000000000000000000000000000000000000000000000000000000000];
   [0x306197fb3fab671ef6e7c2cba2eefd0e42851b5b9811f2ca4013370a01d95687; 0x0000000000000000000000000000000000000000000000000000000000000000; 0x0000000000000000000000000000000000000000000000000000000000000000];
   [0x1a0c7d52dc32a4432b66f0b4894d4f1a21db7565e5b4250486419eaf00e8f620; 0x0000000000000000000000000000000000000000000000000000000000000000; 0x0000000000000000000000000000000000000000000000000000000000000000];
   [0x2b46b418de80915f3ff86a8e5c8bdfccebfbe5f55163cd6caa52997da2c54a9f; 0x0000000000000000000000000000000000000000000000000000000000000000; 0x0000000000000000000000000000000000000000000000000000000000000000];
   [0x12d3e0dc0085873701f8b777b9673af9613a1af5db48e05bfb46e312b5829f64; 0x0000000000000000000000000000000000000000000000000000000000000000; 0x0000000000000000000000000000000000000000000000000000000000000000];
   [0x263390cf74dc3a8870f5002ed21d089ffb2bf768230f648dba338a5cb19b3a1f; 0x0000000000000000000000000000000000000000000000000000000000000000; 0x0000000000000000000000000000000000000000000000000000000000000000];
   [0x0a14f33a5fe668a60ac884b4ca607ad0f8abb5af40f96f1d7d543db52b003dcd; 0x0000000000000000000000000000000000000000000000000000000000000000; 0x0000000000000000000000000000000000000000000000000000000000000000];
   [0x28ead9c586513eab1a5e86509d68b2da27be3a4f01171a1dd847df829bc683b9; 0x0000000000000000000000000000000000000000000000000000000000000000; 0x0000000000000000000000000000000000000000000000000000000000000000];
   [0x1c6ab1c328c3c6430972031f1bdb2ac9888f0ea1abe71cffea16cda6e1a7416c; 0x0000000000000000000000000000000000000000000000000000000000000000; 0x0000000000000000000000000000000000000000000000000000000000000000];
   [0x1fc7e71bc0b819792b2500239f7f8de04f6decd608cb98a932346015c5b42c94; 0x0000000000000000000000000000000000000000000000000000000000000000; 0x0000000000000000000000000000000000000000000000000000000000000000];
   [0x03e107eb3a42b2ece380e0d860298f17c0c1e197c952650ee6dd85b93a0ddaa8; 0x0000000000000000000000000000000000000000000000000000000000000000; 0x0000000000000000000000000000000000000000000000000000000000000000];
   [0x2d354a251f381a4669c0d52bf88b772c46452ca57c08697f454505f6941d78cd; 0x0000000000000000000000000000000000000000000000000000000000000000; 0x0000000000000000000000000000000000000000000000000000000000000000];
   [0x094af88ab05d94baf687ef14bc566d1c522551d61606eda3d14b4606826f794b; 0x0000000000000000000000000000000000000000000000000000000000000000; 0x0000000000000000000000000000000000000000000000000000000000000000];
   [0x19705b783bf3d2dc19bcaeabf02f8ca5e1ab5b6f2e3195a9d52b2d249d1396f7; 0x0000000000000000000000000000000000000000000000000000000000000000; 0x0000000000000000000000000000000000000000000000000000000000000000];
   [0x09bf4acc3a8bce3f1fcc33fee54fc5b28723b16b7d740a3e60cef6852271200e; 0x0000000000000000000000000000000000000000000000000000000000000000; 0x0000000000000000000000000000000000000000000000000000000000000000];
   [0x1803f8200db6013c50f83c0c8fab62843413732f301f7058543a073f3f3b5e4e; 0x0000000000000000000000000000000000000000000000000000000000000000; 0x0000000000000000000000000000000000000000000000000000000000000000];
   [0x0f80afb5046244de30595b160b8d1f38bf6fb02d4454c0add41f7fef2faf3e5c; 0x0000000000000000000000000000000000000000000000000000000000000000; 0x0000000000000000000000000000000000000000000000000000000000000000];
   [0x126ee1f8504f15c3d77f0088c1cfc964abcfcf643f4a6fea7dc3f98219529d78; 0x0000000000000000000000000000000000000000000000000000000000000000; 0x0000000000000000000000000000000000000000000000000000000000000000];
   [0x23c203d10cfcc60f69bfb3d919552ca10ffb4ee63175ddf8ef86f991d7d0a591; 0x0000000000000000000000000000000000000000000000000000000000000000; 0x0000000000000000000000000000000000000000000000000000000000000000];
   [0x2a2ae15d8b143709ec0d09705fa3a6303dec1ee4eec2cf747c5a339f7744fb94; 0x0000000000000000000000000000000000000000000000000000000000000000; 0x0000000000000000000000000000000000000000000000000000000000000000];
   [0x07b60dee586ed6ef47e5c381ab6343ecc3d3b3006cb461bbb6b5d89081970b2b; 0x0000000000000000000000000000000000000000000000000000000000000000; 0x0000000000000000000000000000000000000000000000000000000000000000];
   [0x27316b559be3edfd885d95c494c1ae3d8a98a320baa7d152132cfe583c9311bd; 0x0000000000000000000000000000000000000000000000000000000000000000; 0x0000000000000000000000000000000000000000000000000000000000000000];
   [0x1d5c49ba157c32b8d8937cb2d3f84311ef834cc2a743ed662f5f9af0c0342e76; 0x0000000000000000000000000000000000000000000000000000000000000000; 0x0000000000000000000000000000000000000000000000000000000000000000];
   [0x2f8b124e78163b2f332774e0b850b5ec09c01bf6979938f67c24bd5940968488; 0x0000000000000000000000000000000000000000000000000000000000000000; 0x0000000000000000000000000000000000000000000000000000000000000000];
   [0x1e6843a5457416b6dc5b7aa09a9ce21b1d4cba6554e51d84665f75260113b3d5; 0x0000000000000000000000000000000000000000000000000000000000000000; 0x0000000000000000000000000000000000000000000000000000000000000000];
   [0x11cdf00a35f650c55fca25c9929c8ad9a68daf9ac6a189ab1f5bc79f21641d4b; 0x0000000000000000000000000000000000000000000000000000000000000000; 0x0000000000000000000000000000000000000000000000000000000000000000];
   [0x21632de3d3bbc5e42ef36e588158d6d4608b2815c77355b7e82b5b9b7eb560bc; 0x0000000000000000000000000000000000000000000000000000000000000000; 0x0000000000000000000000000000000000000000000000000000000000000000];
   [0x0de625758452efbd97b27025fbd245e0255ae48ef2a329e449d7b5c51c18498a; 0x0000000000000000000000000000000000000000000000000000000000000000; 0x0000000000000000000000000000000000000000000000000000000000000000];
   [0x2ad253c053e75213e2febfd4d976cc01dd9e1e1c6f0fb6b09b09546ba0838098; 0x0000000000000000000000000000000000000000000000000000000000000000; 0x0000000000000000000000000000000000000000000000000000000000000000];
   [0x1d6b169ed63872dc6ec7681ec39b3be93dd49cdd13c813b7d35702e38d60b077; 0x0000000000000000000000000000000000000000000000000000000000000000; 0x0000000000000000000000000000000000000000000000000000000000000000];
   [0x1660b740a143664bb9127c4941b67fed0be3ea70a24d5568c3a54e706cfef7fe; 0x0000000000000000000000000000000000000000000000000000000000000000; 0x0000000000000000000000000000000000000000000000000000000000000000];
   [0x0065a92d1de81f34114f4ca2deef76e0ceacdddb12cf879096a29f10376ccbfe; 0x0000000000000000000000000000000000000000000000000000000000000000; 0x0000000000000000000000000000000000000000000000000000000000000000];
   [0x1f11f065202535987367f823da7d672c353ebe2ccbc4869bcf30d50a5871040d; 0x0000000000000000000000000000000000000000000000000000000000000000; 0x0000000000000000000000000000000000000000000000000000000000000000];
   [0x26596f5c5dd5a5d1b437ce7b14a2c3dd3bd1d1a39b6759ba110852d17df0693e; 0x0000000000000000000000000000000000000000000000000000000000000000; 0x0000000000000000000000000000000000000000000000000000000000000000];
   [0x16f49bc727e45a2f7bf3056efcf8b6d38539c4163a5f1e706743db15af91860f; 0x0000000000000000000000000000000000000000000000000000000000000000; 0x0000000000000000000000000000000000000000000000000000000000000000];
   [0x1abe1deb45b3e3119954175efb331bf4568feaf7ea8b3dc5e1a4e7438dd39e5f; 0x0000000000000000000000000000000000000000000000000000000000000000; 0x0000000000000000000000000000000000000000000000000000000000000000];
   [0x0e426ccab66984d1d8993a74ca548b779f5db92aaec5f102020d34aea15fba59; 0x0000000000000000000000000000000000000000000000000000000000000000; 0x0000000000000000000000000000000000000000000000000000000000000000];
   [0x0e7c30c2e2e8957f4933bd1942053f1f0071684b902d534fa841924303f6a6c6; 0x0000000000000000000000000000000000000000000000000000000000000000; 0x0000000000000000000000000000000000000000000000000000000000000000];
   [0x0812a017ca92cf0a1622708fc7edff1d6166ded6e3528ead4c76e1f31d3fc69d; 0x0000000000000000000000000000000000000000000000000000000000000000; 0x0000000000000000000000000000000000000000000000000000000000000000];
   [0x21a5ade3df2bc1b5bba949d1db96040068afe5026edd7a9c2e276b47cf010d54; 0x0000000000000000000000000000000000000000000000000000000000000000; 0x0000000000000000000000000000000000000000000000000000000000000000];
   [0x01f3035463816c84ad711bf1a058c6c6bd101945f50e5afe72b1a5233f8749ce; 0x0000000000000000000000000000000000000000000000000000000000000000; 0x0000000000000000000000000000000000000000000000000000000000000000];
   [0x0b115572f038c0e2028c2aafc2d06a5e8bf2f9398dbd0fdf4dcaa82b0f0c1c8b; 0x0000000000000000000000000000000000000000000000000000000000000000; 0x0000000000000000000000000000000000000000000000000000000000000000];
   [0x1c38ec0b99b62fd4f0ef255543f50d2e27fc24db42bc910a3460613b6ef59e2f; 0x0000000000000000000000000000000000000000000000000000000000000000; 0x0000000000000000000000000000000000000000000000000000000000000000];
   [0x1c89c6d9666272e8425c3ff1f4ac737b2f5d314606a297d4b1d0b254d880c53e; 0x0000000000000000000000000000000000000000000000000000000000000000; 0x0000000000000000000000000000000000000000000000000000000000000000];
   [0x03326e643580356bf6d44008ae4c042a21ad4880097a5eb38b71e2311bb88f8f; 0x0000000000000000000000000000000000000000000000000000000000000000; 0x0000000000000000000000000000000000000000000000000000000000000000];
   [0x268076b0054fb73f67cee9ea0e51e3ad50f27a6434b5dceb5bdde2299910a4c9; 0x0000000000000000000000000000000000000000000000000000000000000000; 0x0000000000000000000000000000000000000000000000000000000000000000]].

Definition RC3_end : list (list Z) :=
  [[0x1acd63c67fbc9ab1626ed93491bda32e5da18ea9d8e4f10178d04aa6f8747ad0; 0x19f8a5d670e8ab66c4e3144be58ef6901bf93375e2323ec3ca8c86cd2a28b5a5; 0x1c0dc443519ad7a86efa40d2df10a011068193ea51f6c92ae1cfbb5f7b9b6893];
   [0x14b39e7aa4068dbe50fe7190e421dc19fbeab33cb4f6a2c4180e4c3224987d3d; 0x1d449b71bd826ec58f28c63ea6c561b7b820fc519f01f021afb1e35e28b0795e; 0x1ea2c9a89baaddbb60fa97fe60fe9d8e89de141689d1252276524dc0a9e987fc];
   [0x0478d66d43535a8cb57e9c1c3d6a2bd7591f9a46a0e9c058134d5cefdb3c7ff1; 0x19272db71eece6a6f608f3b2717f9cd2662e26ad86c400b21cde5e4a7b00bebe; 0x14226537335cab33c749c746f09208abb2dd1bd66a87ef75039be846af134166];
   [0x01fd6af15956294f9dfe38c0d976a088b21c21e4a1c2e823f912f44961f9a9ce; 0x18e5abedd626ec307bca190b8b2cab1aaee2e62ed229ba5a5ad8518d4e5f2a57; 0x0fc1bbceba0590f5abbdffa6d3b35e3297c021a3a409926d0e2d54dc1c84fda6]].

Definition RC3 : list (list Z) := RC3_begin ++ RC3_partial ++ RC3_end.

Definition POSEIDON2_BN256_PARAMS_3 : option (Poseidon2Params Z) :=
  Poseidon2Params_new 3 5 8 56 MAT_DIAG3_M_1 MAT_INTERNAL3 RC3.

Definition MAT_DIAG4_M_1 : list Z :=
  [0x10dc6e9c006ea38b04b1e03b4bd9490c0d03f98929ca1d7fb56821fd19d3b6e7;
   0x0c28145b6a44df3e0149b3d0a30b3bb599df9756d4dd9b84a86b38cfb45a740b;
   0x00544b8338791518b2c7645a50392798b21f75bb60e3596170067d00141cac15;
   0x222c01175718386f2e2e82eb122789e352e105a3b8fa852613bc534433ee428b].

Definition MAT_INTERNAL4 : list (list Z) :=
  [[0x10dc6e9c006ea38b04b1e03b4bd9490c0d03f98929ca1d7fb56821fd19d3b6e8; 0x0000000000000000000000000000000000000000000000000000000000000001; 0x0000000000000000000000000000000000000000000000000000000000000001; 0x0000000000000000000000000000000000000000000000000000000000000001];
   [0x0000000000000000000000000000000000000000000000000000000000000001; 0x0c28145b6a44df3e0149b3d0a30b3bb599df9756d4dd9b84a86b38cfb45a740c; 0x0000000000000000000000000000000000000000000000000000000000000001; 0x0000000000000000000000000000000000000000000000000000000000000001];
   [0x0000000000000000000000000000000000000000000000000000000000000001; 0x0000000000000000000000000000000000000000000000000000000000000001; 0x00544b8338791518b2c7645a50392798b21f75bb60e3596170067d00141cac16; 0x0000000000000000000000000000000000000000000000000000000000000001];
   [0x0000000000000000000000000000000000000000000000000000000000000001; 0x0000000000000000000000000000000000000000000000000000000000000001; 0x0000000000000000000000000000000000000000000000000000000000000001; 0x222c01175718386f2e2e82eb122789e352e105a3b8fa852613bc534433ee428c]].

Definition RC4_begin : list (list Z) :=
  [[0x19b849f69450b06848da1d39bd5e4a4302bb86744edc26238b0878e269ed23e5; 0x265ddfe127dd51bd7239347b758f0a1320eb2cc7450acc1dad47f80c8dcf34d6; 0x199750ec472f1809e0f66a545e1e51624108ac845015c2aa3dfc36bab497d8aa; 0x157ff3fe65ac7208110f06a5f74302b14d743ea25067f0ffd032f787c7f1cdf8];
   [0x2e49c43c4569dd9c5fd35ac45fca33f10b15c590692f8beefe18f4896ac94902; 0x0e35fb89981890520d4aef2b6d6506c3cb2f0b6973c24fa82731345ffa2d1f1e; 0x251ad47cb15c4f1105f109ae5e944f1ba9d9e7806d667ffec6fe723002e0b996; 0x13da07dc64d428369873e97160234641f8beb56fdd05e5f3563fa39d9c22df4e];
   [0x0c009b84e650e6d23dc00c7dccef7483a553939689d350cd46e7b89055fd4738; 0x011f16b1c63a854f01992e3956f42d8b04eb650c6d535eb0203dec74befdca06; 0x0ed69e5e383a688f209d9a561daa79612f3f78d0467ad45485df07093f367549; 0x04dba94a7b0ce9e221acad41472b6bbe3aec507f5eb3d33f463672264c9f789b];
   [0x0a3f2637d840f3a16eb094271c9d237b6036757d4bb50bf7ce732ff1d4fa28e8; 0x259a666f129eea198f8a1c502fdb38fa39b1f075569564b6e54a485d1182323f; 0x28bf7459c9b2f4c6d8e7d06a4ee3a47f7745d4271038e5157a32fdf7ede0d6a1; 0x0a1ca941f057037526ea200f489be8d4c37c85bbcce6a2aeec91bd6941432447]].

Definition RC4_partial : list (list Z) :=
  [[0x0c6f8f958be0e93053d7fd4fc54512855535ed1539f051dcb43a26fd926361cf; 0x0000000000000000000000000000000000000000000000000000000000000000; 0x0000000000000000000000000000000000000000000000000000000000000000; 0x0000000000000000000000000000000000000000000000000000000000000000];
   [0x123106a93cd17578d426e8128ac9d90aa9e8a00708e296e084dd57e69caaf811; 0x0000000000000000000000000000000000000000000000000000000000000000; 0x0000000000000000000000000000000000000000000000000000000000000000; 0x0000000000000000000000000000000000000000000000000000000000000000];
   [0x26e1ba52ad9285d97dd3ab52f8e840085e8fa83ff1e8f1877b074867cd2dee75; 0x0000000000000000000000000000000000000000000000000000000000000000; 0x0000000000000000000000000000000000000000000000000000000000000000; 0x0000000000000000000000000000000000000000000000000000000000000000];
   [0x1cb55cad7bd133de18a64c5c47b9c97cbe4d8b7bf9e095864471537e6a4ae2c5; 0x0000000000000000000000000000000000000000000000000000000000000000; 0x0000000000000000000000000000000000000000000000000000000000000000; 0x0000000000000000000000000000000000000000000000000000000000000000];
   [0x1dcd73e46acd8f8e0e2c7ce04bde7f6d2a53043d5060a41c7143f08e6e9055d0; 0x0000000000000000000000000000000000000000000000000000000000000000; 0x0000000000000000000000000000000000000000000000000000000000000000; 0x0000000000000000000000000000000000000000000000000000000000000000];
   [0x011003e32f6d9c66f5852f05474a4def0cda294a0eb4e9b9b12b9bb4512e5574; 0x0000000000000000000000000000000000000000000000000000000000000000; 0x0000000000000000000000000000000000000000000000000000000000000000; 0x0000000000000000000000000000000000000000000000000000000000000000];
   [0x2b1e809ac1d10ab29ad5f20d03a57dfebadfe5903f58bafed7c508dd2287ae8c; 0x0000000000000000000000000000000000000000000000000000000000000000; 0x0000000000000000000000000000000000000000000000000000000000000000; 0x0000000000000000000000000000000000000000000000000000000000000000];
   [0x2539de1785b735999fb4dac35ee17ed0ef995d05ab2fc5faeaa69ae87bcec0a5; 0x0000000000000000000000000000000000000000000000000000000000000000; 0x0000000000000000000000000000000000000000000000000000000000000000; 0x0000000000000000000000000000000000000000000000000000000000000000];
   [0x0c246c5a2ef8ee0126497f222b3e0a0ef4e1c3d41c86d46e43982cb11d77951d; 0x0000000000000000000000000000000000000000000000000000000000000000; 0x0000000000000000000000000000000000000000000000000000000000000000; 0x0000000000000000000000000000000000000000000000000000000000000000];
   [0x192089c4974f68e95408148f7c0632edbb09e6a6ad1a1c2f3f0305f5d03b527b; 0x0000000000000000000000000000000000000000000000000000000000000000; 0x0000000000000000000000000000000000000000000000000000000000000000; 0x0000000000000000000000000000000000000000000000000000000000000000];
   [0x1eae0ad8ab68b2f06a0ee36eeb0d0c058529097d91096b756d8fdc2fb5a60d85; 0x0000000000000000000000000000000000000000000000000000000000000000; 0x0000000000000000000000000000000000000000000000000000000000000000; 0x0000000000000000000000000000000000000000000000000000000000000000];
   [0x179190e5d0e22179e46f8282872abc88db6e2fdc0dee99e69768bd98c5d06bfb; 0x0000000000000000000000000000000000000000000000000000000000000000; 0x0000000000000000000000000000000000000000000000000000000000000000; 0x0000000000000000000000000000000000000000000000000000000000000000];
   [0x29bb9e2c9076732576e9a81c7ac4b83214528f7db00f31bf6cafe794a9b3cd1c; 0x0000000000000000000000000000000000000000000000000000000000000000; 0x0000000000000000000000000000000000000000000000000000000000000000; 0x0000000000000000000000000000000000000000000000000000000000000000];
   [0x225d394e42207599403efd0c2464a90d52652645882aac35b10e590e6e691e08; 0x0000000000000000000000000000000000000000000000000000000000000000; 0x0000000000000000000000000000000000000000000000000000000000000000; 0x0000000000000000000000000000000000000000000000000000000000000000];
   [0x064760623c25c8cf753d238055b444532be13557451c087de09efd454b23fd59; 0x0000000000000000000000000000000000000000000000000000000000000000; 0x0000000000000000000000000000000000000000000000000000000000000000; 0x0000000000000000000000000000000000000000000000000000000000000000];
   [0x10ba3a0e01df92e87f301c4b716d8a394d67f4bf42a75c10922910a78f6b5b87; 0x0000000000000000000000000000000000000000000000000000000000000000; 0x0000000000000000000000000000000000000000000000000000000000000000; 0x0000000000000000000000000000000000000000000000000000000000000000];
   [0x0e070bf53f8451b24f9c6e96b0c2a801cb511bc0c242eb9d361b77693f21471c; 0x0000000000000000000000000000000000000000000000000000000000000000; 0x0000000000000000000000000000000000000000000000000000000000000000; 0x0000000000000000000000000000000000000000000000000000000000000000];
   [0x1b94cd61b051b04dd39755ff93821a73ccd6cb11d2491d8aa7f921014de252fb; 0x0000000000000000000000000000000000000000000000000000000000000000; 0x0000000000000000000000000000000000000000000000000000000000000000; 0x0000000000000000000000000000000000000000000000000000000000000000];
   [0x1d7cb39bafb8c744e148787a2e70230f9d4e917d5713bb050487b5aa7d74070b; 0x0000000000000000000000000000000000000000000000000000000000000000; 0x0000000000000000000000000000000000000000000000000000000000000000; 0x0000000000000000000000000000000000000000000000000000000000000000];
   [0x2ec93189bd1ab4f69117d0fe980c80ff8785c2961829f701bb74ac1f303b17db; 0x0000000000000000000000000000000000000000000000000000000000000000; 0x0000000000000000000000000000000000000000000000000000000000000000; 0x0000000000000000000000000000000000000000000000000000000000000000];
   [0x2db366bfdd36d277a692bb825b86275beac404a19ae07a9082ea46bd83517926; 0x0000000000000000000000000000000000000000000000000000000000000000; 0x0000000000000000000000000000000000000000000000000000000000000000; 0x0000000000000000000000000000000000000000000000000000000000000000];
   [0x062100eb485db06269655cf186a68532985275428450359adc99cec6960711b8; 0x0000000000000000000000000000000000000000000000000000000000000000; 0x0000000000000000000000000000000000000000000000000000000000000000; 0x0000000000000000000000000000000000000000000000000000000000000000];
   [0x0761d33c66614aaa570e7f1e8244ca1120243f92fa59e4f900c567bf41f5a59b; 0x0000000000000000000000000000000000000000000000000000000000000000; 0x0000000000000000000000000000000000000000000000000000000000000000; 0x0000000000000000000000000000000000000000000000000000000000000000];
   [0x20fc411a114d13992c2705aa034e3f315d78608a0f7de4ccf7a72e494855ad0d; 0x0000000000000000000000000000000000000000000000000000000000000000; 0x0000000000000000000000000000000000000000000000000000000000000000; 0x0000000000000000000000000000000000000000000000000000000000000000];
   [0x25b5c004a4bdfcb5add9ec4e9ab219ba102c67e8b3effb5fc3a30f317250bc5a; 0x0000000000000000000000000000000000000000000000000000000000000000; 0x0000000000000000000000000000000000000000000000000000000000000000; 0x0000000000000000000000000000000000000000000000000000000000000000];
   [0x23b1822d278ed632a494e58f6df6f5ed038b186d8474155ad87e7dff62b37f4b; 0x0000000000000000000000000000000000000000000000000000000000000000; 0x0000000000000000000000000000000000000000000000000000000000000000; 0x0000000000000000000000000000000000000000000000000000000000000000];
   [0x22734b4c5c3f9493606c4ba9012499bf0f14d13bfcfcccaa16102a29cc2f69e0; 0x0000000000000000000000000000000000000000000000000000000000000000; 0x0000000000000000000000000000000000000000000000000000000000000000; 0x0000000000000000000000000000000000000000000000000000000000000000];
   [0x26c0c8fe09eb30b7e27a74dc33492347e5bdff409aa3610254413d3fad795ce5; 0x0000000000000000000000000000000000000000000000000000000000000000; 0x0000000000000000000000000000000000000000000000000000000000000000; 0x0000000000000000000000000000000000000000000000000000000000000000];
   [0x070dd0ccb6bd7bbae88eac03fa1fbb26196be3083a809829bbd626df348ccad9; 0x0000000000000000000000000000000000000000000000000000000000000000; 0x0000000000000000000000000000000000000000000000000000000000000000; 0x0000000000000000000000000000000000000000000000000000000000000000];
   [0x12b6595bdb329b6fb043ba78bb28c3bec2c0a6de46d8c5ad6067c4ebfd4250da; 0x0000000000000000000000000000000000000000000000000000000000000000; 0x0000000000000000000000000000000000000000000000000000000000000000; 0x0000000000000000000000000000000000000000000000000000000000000000];
   [0x248d97d7f76283d63bec30e7a5876c11c06fca9b275c671c5e33d95bb7e8d729; 0x0000000000000000000000000000000000000000000000000000000000000000; 0x0000000000000000000000000000000000000000000000000000000000000000; 0x0000000000000000000000000000000000000000000000000000000000000000];
   [0x1a306d439d463b0816fc6fd64cc939318b45eb759ddde4aa106d15d9bd9baaaa; 0x0000000000000000000000000000000000000000000000000000000000000000; 0x0000000000000000000000000000000000000000000000000000000000000000; 0x0000000000000000000000000000000000000000000000000000000000000000];
   [0x28a8f8372e3c38daced7c00421cb4621f4f1b54ddc27821b0d62d3d6ec7c56cf; 0x0000000000000000000000000000000000000000000000000000000000000000; 0x0000000000000000000000000000000000000000000000000000000000000000; 0x0000000000000000000000000000000000000000000000000000000000000000];
   [0x0094975717f9a8a8bb35152f24d43294071ce320c829f388bc852183e1e2ce7e; 0x0000000000000000000000000000000000000000000000000000000000000000; 0x0000000000000000000000000000000000000000000000000000000000000000; 0x0000000000000000000000000000000000000000000000000000000000000000];
   [0x04d5ee4c3aa78f7d80fde60d716480d3593f74d4f653ae83f4103246db2e8d65; 0x0000000000000000000000000000000000000000000000000000000000000000; 0x0000000000000000000000000000000000000000000000000000000000000000; 0x0000000000000000000000000000000000000000000000000000000000000000];
   [0x2a6cf5e9aa03d4336349ad6fb8ed2269c7bef54b8822cc76d08495c12efde187; 0x0000000000000000000000000000000000000000000000000000000000000000; 0x0000000000000000000000000000000000000000000000000000000000000000; 0x0000000000000000000000000000000000000000000000000000000000000000];
   [0x2304d31eaab960ba9274da43e19ddeb7f792180808fd6e43baae48d7efcba3f3; 0x0000000000000000000000000000000000000000000000000000000000000000; 0x0000000000000000000000000000000000000000000000000000000000000000; 0x0000000000000000000000000000000000000000000000000000000000000000];
   [0x03fd9ac865a4b2a6d5e7009785817249bff08a7e0726fcb4e1c11d39d199f0b0; 0x0000000000000000000000000000000000000000000000000000000000000000; 0x0000000000000000000000000000000000000000000000000000000000000000; 0x0000000000000000000000000000000000000000000000000000000000000000];
   [0x00b7258ded52bbda2248404d55ee5044798afc3a209193073f7954d4d63b0b64; 0x0000000000000000000000000000000000000000000000000000000000000000; 0x0000000000000000000000000000000000000000000000000000000000000000; 0x0000000000000000000000000000000000000000000000000000000000000000];
   [0x159f81ada0771799ec38fca2d4bf65ebb13d3a74f3298db36272c5ca65e92d9a; 0x0000000000000000000000000000000000000000000000000000000000000000; 0x0000000000000000000000000000000000000000000000000000000000000000; 0x0000000000000000000000000000000000000000000000000000000000000000];
   [0x1ef90e67437fbc8550237a75bc28e3bb9000130ea25f0c5471e144cf4264431f; 0x0000000000000000000000000000000000000000000000000000000000000000; 0x0000000000000000000000000000000000000000000000000000000000000000; 0x0000000000000000000000000000000000000000000000000000000000000000];
   [0x1e65f838515e5ff0196b49aa41a2d2568df739bc176b08ec95a79ed82932e30d; 0x0000000000000000000000000000000000000000000000000000000000000000; 0x0000000000000000000000000000000000000000000000000000000000000000; 0x0000000000000000000000000000000000000000000000000000000000000000];
   [0x2b1b045def3a166cec6ce768d079ba74b18c844e570e1f826575c1068c94c33f; 0x0000000000000000000000000000000000000000000000000000000000000000; 0x0000000000000000000000000000000000000000000000000000000000000000; 0x0000000000000000000000000000000000000000000000000000000000000000];
   [0x0832e5753ceb0ff6402543b1109229c165dc2d73bef715e3f1c6e07c168bb173; 0x0000000000000000000000000000000000000000000000000000000000000000; 0x0000000000000000000000000000000000000000000000000000000000000000; 0x0000000000000000000000000000000000000000000000000000000000000000];
   [0x02f614e9cedfb3dc6b762ae0a37d41bab1b841c2e8b6451bc5a8e3c390b6ad16; 0x0000000000000000000000000000000000000000000000000000000000000000; 0x0000000000000000000000000000000000000000000000000000000000000000; 0x0000000000000000000000000000000000000000000000000000000000000000];
   [0x0e2427d38bd46a60dd640b8e362cad967370ebb777bedff40f6a0be27e7ed705; 0x0000000000000000000000000000000000000000000000000000000000000000; 0x0000000000000000000000000000000000000000000000000000000000000000; 0x0000000000000000000000000000000000000000000000000000000000000000];
   [0x0493630b7c670b6deb7c84d414e7ce79049f0ec098c3c7c50768bbe29214a53a; 0x0000000000000000000000000000000000000000000000000000000000000000; 0x0000000000000000000000000000000000000000000000000000000000000000; 0x0000000000000000000000000000000000000000000000000000000000000000];
   [0x22ead100e8e482674decdab17066c5a26bb1515355d5461a3dc06cc85327cea9; 0x0000000000000000000000000000000000000000000000000000000000000000; 0x0000000000000000000000000000000000000000000000000000000000000000; 0x0000000000000000000000000000000000000000000000000000000000000000];
   [0x25b3e56e655b42cdaae2626ed2554d48583f1ae35626d04de5084e0b6d2a6f16; 0x0000000000000000000000000000000000000000000000000000000000000000; 0x0000000000000000000000000000000000000000000000000000000000000000; 0x0000000000000000000000000000000000000000000000000000000000000000];
   [0x1e32752ada8836ef5837a6cde8ff13dbb599c336349e4c584b4fdc0a0cf6f9d0; 0x0000000000000000000000000000000000000000000000000000000000000000; 0x0000000000000000000000000000000000000000000000000000000000000000; 0x0000000000000000000000000000000000000000000000000000000000000000];
   [0x2fa2a871c15a387cc50f68f6f3c3455b23c00995f05078f672a9864074d412e5; 0x0000000000000000000000000000000000000000000000000000000000000000; 0x0000000000000000000000000000000000000000000000000000000000000000; 0x0000000000000000000000000000000000000000000000000000000000000000];
   [0x2f569b8a9a4424c9278e1db7311e889f54ccbf10661bab7fcd18e7c7a7d83505; 0x0000000000000000000000000000000000000000000000000000000000000000; 0x0000000000000000000000000000000000000000000000000000000000000000; 0x0000000000000000000000000000000000000000000000000000000000000000];
   [0x044cb455110a8fdd531ade530234c518a7df93f7332ffd2144165374b246b43d; 0x0000000000000000000000000000000000000000000000000000000000000000; 0x0000000000000000000000000000000000000000000000000000000000000000; 0x0000000000000000000000000000000000000000000000000000000000000000];
   [0x227808de93906d5d420246157f2e42b191fe8c90adfe118178ddc723a5319025; 0x0000000000000000000000000000000000000000000000000000000000000000; 0x0000000000000000000000000000000000000000000000000000000000000000; 0x0000000000000000000000000000000000000000000000000000000000000000];
   [0x02fcca2934e046bc623adead873579865d03781ae090ad4a8579d2e7a6800355; 0x0000000000000000000000000000000000000000000000000000000000000000; 0x0000000000000000000000000000000000000000000000000000000000000000; 0x0000000000000000000000000000000000000000000000000000000000000000];
   [0x0ef915f0ac120b876abccceb344a1d36bad3f3c5ab91a8ddcbec2e060d8befac; 0x0000000000000000000000000000000000000000000000000000000000000000; 0x0000000000000000000000000000000000000000000000000000000000000000; 0x0000000000000000000000000000000000000000000000000000000000000000]].

Definition RC4_end : list (list Z) :=
  [[0x1797130f4b7a3e1777eb757bc6f287f6ab0fb85f6be63b09f3b16ef2b1405d38; 0x0a76225dc04170ae3306c85abab59e608c7f497c20156d4d36c668555decc6e5; 0x1fffb9ec1992d66ba1e77a7b93209af6f8fa76d48acb664796174b5326a31a5c; 0x25721c4fc15a3f2853b57c338fa538d85f8fbba6c6b9c6090611889b797b9c5f];
   [0x0c817fd42d5f7a41215e3d07ba197216adb4c3790705da95eb63b982bfcaf75a; 0x13abe3f5239915d39f7e13c2c24970b6df8cf86ce00a22002bc15866e52b5a96; 0x2106feea546224ea12ef7f39987a46c85c1bc3dc29bdbd7a92cd60acb4d391ce; 0x21ca859468a746b6aaa79474a37dab49f1ca5a28c748bc7157e1b3345bb0f959];
   [0x05ccd6255c1e6f0c5cf1f0df934194c62911d14d0321662a8f1a48999e34185b; 0x0f0e34a64b70a626e464d846674c4c8816c4fb267fe44fe6ea28678cb09490a4; 0x0558531a4e25470c6157794ca36d0e9647dbfcfe350d64838f5b1a8a2de0d4bf; 0x09d3dca9173ed2faceea125157683d18924cadad3f655a60b72f5864961f1455];
   [0x0328cbd54e8c0913493f866ed03d218bf23f92d68aaec48617d4c722e5bd4335; 0x2bf07216e2aff0a223a487b1a7094e07e79e7bcc9798c648ee3347dd5329d34b; 0x1daf345a58006b736499c583cb76c316d6f78ed6a6dffc82111e11a63fe412df; 0x176563472456aaa746b694c60e1823611ef39039b2edc7ff391e6f2293d2c404]].

Definition RC4 : list (list Z) := RC4_begin ++ RC4_partial ++ RC4_end.

Definition POSEIDON2_BN256_PARAMS_4 : option (Poseidon2Params Z) :=
  Poseidon2Params_new 4 5 8 56 MAT_DIAG4_M_1 MAT_INTERNAL4 RC4.

(** ** Contract tables *)

Definition BN256_MOD_BYTES : bytes :=
  [48; 100; 78; 114; 225; 49; 160; 41; 184; 80; 69; 182; 129; 129; 88; 93; 40; 51; 232; 72; 121; 185; 112; 145; 67; 225; 245; 147; 240; 0; 0; 1].

Definition bn256_modulus : Z := u256_from_be_bytes BN256_MOD_BYTES.

(** [U256::from_be_bytes(env, &Bytes::from_array(env, &[...]))]. *)
Abbreviation u b := (u256_from_be_bytes b) (only parsing).

Definition rc_t2_begin : list (list Z) :=
  [[u [9; 196; 110; 158; 198; 142; 155; 212; 254; 31; 170; 186; 41; 76; 186; 56; 167; 26; 161; 119; 83; 76; 221; 27; 108; 125; 192; 219; 208; 171; 215; 167]; u [12; 3; 86; 83; 8; 150; 238; 196; 42; 151; 237; 147; 127; 49; 53; 207; 197; 20; 43; 58; 228; 5; 184; 52; 60; 29; 131; 255; 166; 4; 203; 129]];
   [u [30; 40; 161; 217; 53; 105; 138; 209; 20; 46; 81; 24; 43; 181; 76; 244; 160; 14; 165; 170; 189; 98; 104; 189; 49; 126; 169; 119; 204; 21; 74; 48]; u [39; 175; 45; 131; 26; 157; 39; 72; 8; 9; 101; 219; 48; 226; 152; 228; 14; 87; 87; 195; 224; 8; 219; 150; 76; 249; 226; 177; 43; 145; 37; 31]];
   [u [30; 111; 17; 206; 96; 252; 143; 81; 58; 106; 60; 254; 22; 174; 23; 90; 65; 41; 20; 98; 242; 20; 205; 8; 121; 170; 244; 53; 69; 183; 78; 3]; u [42; 103; 56; 77; 59; 189; 94; 67; 133; 65; 129; 156; 182; 129; 240; 190; 4; 70; 46; 209; 76; 54; 19; 216; 247; 25; 32; 98; 104; 209; 66; 211]];
   [u [11; 102; 253; 243; 86; 9; 58; 97; 22; 9; 248; 225; 47; 191; 236; 240; 185; 133; 227; 129; 240; 37; 24; 137; 54; 64; 143; 93; 92; 159; 69; 208]; u [1; 46; 227; 236; 30; 120; 212; 112; 131; 12; 97; 9; 60; 42; 222; 55; 11; 38; 200; 60; 197; 206; 190; 237; 218; 166; 133; 45; 189; 176; 158; 33]]].

Definition rc_t2_partial : list (list Z) :=
  [[u [2; 82; 186; 95; 103; 96; 191; 189; 253; 136; 246; 127; 129; 117; 227; 253; 108; 209; 196; 49; 176; 153; 182; 187; 45; 16; 142; 123; 68; 91; 177; 185]; u (replicate 32 0)];
   [u [23; 148; 116; 204; 236; 165; 255; 103; 108; 107; 236; 60; 239; 84; 41; 99; 84; 57; 26; 137; 53; 255; 113; 214; 239; 90; 234; 173; 124; 169; 50; 241]; u (replicate 32 0)];
   [u [44; 36; 38; 19; 121; 165; 27; 250; 146; 40; 255; 74; 80; 63; 212; 237; 156; 31; 151; 74; 38; 73; 105; 179; 126; 26; 37; 137; 187; 237; 43; 145]; u (replicate 32 0)];
   [u [28; 193; 215; 182; 38; 146; 230; 62; 172; 47; 40; 139; 208; 105; 91; 67; 194; 246; 63; 80; 1; 252; 15; 197; 83; 230; 108; 5; 81; 128; 27; 5]; u (replicate 32 0)];
   [u [37; 80; 89; 48; 26; 173; 169; 139; 178; 237; 85; 248; 82; 151; 158; 150; 0; 120; 77; 191; 23; 251; 172; 208; 93; 158; 255; 95; 217; 201; 27; 86]; u (replicate 32 0)];
   [u [40; 67; 123; 227; 172; 28; 178; 228; 121; 225; 245; 192; 236; 205; 50; 179; 174; 162; 66; 52; 151; 10; 129; 147; 177; 28; 41; 206; 126; 89; 239; 217]; u (replicate 32 0)];
   [u [40; 33; 106; 68; 47; 46; 31; 113; 28; 164; 250; 107; 83; 118; 110; 177; 24; 84; 141; 168; 251; 79; 120; 212; 51; 135; 98; 195; 127; 95; 32; 67]; u (replicate 32 0)];
   [u [44; 31; 71; 205; 23; 250; 90; 223; 31; 57; 244; 231; 5; 109; 208; 63; 238; 225; 239; 206; 3; 9; 69; 129; 19; 31; 35; 119; 50; 52; 130; 201]; u (replicate 32 0)];
   [u [7; 171; 173; 2; 183; 165; 235; 196; 134; 50; 188; 201; 53; 108; 235; 125; 217; 218; 252; 162; 118; 99; 138; 99; 100; 107; 133; 102; 166; 33; 175; 201]; u (replicate 32 0)];
   [u [2; 48; 38; 70; 1; 255; 223; 41; 39; 91; 51; 255; 170; 181; 29; 254; 148; 41; 249; 8; 128; 166; 156; 209; 55; 218; 12; 77; 21; 249; 108; 60]; u (replicate 32 0)];
   [u [27; 201; 115; 5; 78; 81; 217; 5; 160; 241; 104; 101; 100; 151; 202; 64; 168; 100; 65; 69; 87; 238; 40; 158; 113; 126; 93; 102; 137; 154; 160; 169]; u (replicate 32 0)];
   [u [46; 28; 34; 249; 100; 67; 80; 8; 32; 108; 49; 87; 232; 99; 65; 237; 210; 73; 175; 245; 194; 216; 66; 31; 42; 107; 34; 40; 143; 10; 103; 252]; u (replicate 32 0)];
   [u [18; 36; 243; 141; 246; 124; 83; 120; 18; 28; 29; 95; 70; 27; 188; 80; 158; 142; 161; 89; 142; 70; 201; 247; 167; 4; 82; 188; 43; 186; 134; 184]; u (replicate 32 0)];
   [u [2; 228; 230; 157; 139; 165; 158; 81; 146; 128; 180; 189; 158; 208; 6; 143; 215; 191; 232; 205; 157; 254; 218; 25; 105; 210; 152; 145; 134; 205; 226; 14]; u (replicate 32 0)];
   [u [31; 30; 204; 195; 74; 171; 160; 19; 127; 93; 248; 31; 192; 79; 243; 238; 79; 25; 238; 54; 78; 101; 63; 7; 109; 71; 233; 115; 93; 152; 1; 142]; u (replicate 32 0)];
   [u [22; 114; 173; 61; 112; 154; 53; 57; 116; 38; 108; 48; 57; 169; 167; 49; 20; 36; 68; 128; 50; 205; 24; 25; 234; 203; 138; 77; 66; 132; 245; 130]; u (replicate 32 0)];
   [u [40; 62; 63; 220; 44; 110; 66; 12; 86; 244; 74; 245; 25; 43; 74; 233; 205; 166; 150; 31; 40; 77; 36; 153; 29; 46; 214; 2; 223; 140; 143; 199]; u (replicate 32 0)];
   [u [28; 42; 61; 18; 12; 85; 14; 207; 208; 219; 9; 87; 23; 15; 160; 19; 104; 55; 81; 248; 253; 255; 89; 214; 97; 79; 189; 105; 255; 57; 75; 204]; u (replicate 32 0)];
   [u [33; 111; 132; 135; 122; 172; 97; 114; 247; 137; 122; 115; 35; 69; 110; 254; 20; 58; 154; 67; 119; 62; 166; 242; 150; 203; 107; 129; 119; 101; 63; 189]; u (replicate 32 0)];
   [u [44; 13; 39; 43; 236; 242; 167; 87; 100; 186; 126; 142; 62; 40; 209; 43; 206; 170; 71; 234; 97; 202; 89; 164; 17; 161; 245; 21; 82; 249; 71; 136]; u (replicate 32 0)];
   [u [22; 227; 66; 153; 134; 92; 14; 40; 72; 78; 231; 167; 76; 69; 78; 159; 23; 10; 84; 128; 171; 224; 80; 143; 203; 74; 108; 61; 137; 84; 111; 67]; u (replicate 32 0)];
   [u [23; 92; 235; 165; 153; 233; 111; 91; 55; 90; 35; 42; 111; 185; 204; 113; 119; 32; 71; 118; 88; 2; 41; 15; 72; 205; 147; 151; 85; 72; 143; 197]; u (replicate 32 0)];
   [u [12; 117; 148; 68; 13; 196; 140; 22; 254; 173; 158; 23; 88; 176; 40; 6; 106; 164; 16; 191; 188; 53; 79; 84; 216; 197; 255; 187; 68; 161; 238; 50]; u (replicate 32 0)];
   [u [26; 60; 41; 188; 57; 242; 27; 181; 196; 102; 219; 125; 126; 182; 253; 143; 118; 14; 32; 1; 60; 207; 145; 44; 146; 71; 152; 130; 217; 25; 253; 141]; u (replicate 32 0)];
   [u [12; 207; 221; 144; 111; 52; 38; 229; 192; 152; 110; 160; 73; 178; 83; 64; 8; 85; 211; 73; 7; 79; 90; 102; 149; 200; 238; 171; 205; 34; 230; 143]; u (replicate 32 0)];
   [u [20; 246; 188; 129; 217; 241; 134; 246; 43; 219; 71; 92; 230; 201; 65; 24; 102; 167; 168; 163; 253; 6; 91; 60; 224; 230; 153; 182; 125; 217; 231; 150]];
   [u [9; 98; 184; 39; 137; 251; 61; 18; 151; 2; 202; 112; 178; 246; 197; 170; 204; 9; 152; 16; 201; 196; 149; 200; 136; 237; 235; 115; 134; 185; 112; 82]; u (replicate 32 0)];
   [u [26; 136; 10; 247; 7; 77; 24; 179; 191; 32; 199; 157; 226; 81; 39; 188; 19; 40; 74; 176; 30; 240; 37; 117; 175; 239; 12; 143; 106; 49; 168; 109]; u (replicate 32 0)];
   [u [16; 203; 161; 132; 25; 166; 163; 50; 205; 94; 119; 240; 33; 28; 21; 75; 32; 175; 41; 36; 252; 32; 255; 63; 76; 48; 18; 187; 122; 233; 49; 27]; u (replicate 32 0)];
   [u [5; 126; 98; 169; 168; 248; 155; 62; 189; 199; 107; 166; 58; 158; 172; 168; 250; 39; 183; 49; 156; 174; 52; 6; 117; 106; 40; 73; 243; 2; 241; 13]; u (replicate 32 0)];
   [u [40; 124; 151; 29; 233; 29; 192; 171; 212; 74; 223; 83; 132; 180; 152; 140; 185; 97; 48; 59; 191; 101; 207; 245; 175; 160; 65; 59; 68; 40; 12; 238]; u (replicate 32 0)];
   [u [33; 223; 51; 136; 175; 22; 135; 187; 179; 188; 169; 218; 12; 202; 144; 143; 30; 86; 43; 196; 109; 74; 186; 78; 111; 127; 121; 96; 227; 6; 137; 29]; u (replicate 32 0)];
   [u [27; 229; 200; 135; 210; 91; 206; 112; 62; 37; 204; 151; 77; 9; 52; 205; 120; 157; 248; 247; 11; 73; 143; 216; 62; 255; 139; 86; 14; 22; 130; 179]; u (replicate 32 0)];
   [u [38; 141; 163; 111; 118; 229; 104; 251; 104; 17; 113; 117; 206; 162; 205; 13; 210; 203; 93; 66; 253; 165; 172; 234; 72; 213; 156; 39; 6; 160; 213; 193]; u (replicate 32 0)];
   [u [14; 23; 171; 9; 31; 110; 174; 80; 198; 9; 190; 175; 85; 16; 236; 236; 197; 216; 187; 116; 19; 94; 189; 5; 189; 6; 70; 12; 194; 106; 94; 214]; u (replicate 32 0)];
   [u [4; 215; 39; 231; 40; 255; 160; 166; 122; 238; 83; 90; 176; 116; 164; 48; 145; 239; 98; 216; 207; 131; 210; 112; 4; 15; 92; 170; 31; 98; 175; 64]; u (replicate 32 0)];
   [u [13; 219; 215; 191; 156; 41; 52; 21; 129; 181; 73; 118; 43; 192; 34; 237; 51; 112; 42; 193; 15; 27; 253; 134; 43; 21; 65; 125; 126; 57; 202; 110]; u (replicate 32 0)];
   [u [39; 144; 235; 51; 81; 98; 23; 82; 118; 129; 98; 232; 41; 137; 198; 194; 52; 245; 176; 209; 211; 175; 155; 88; 138; 41; 196; 156; 135; 137; 101; 75]; u (replicate 32 0)];
   [u [30; 69; 124; 96; 26; 99; 183; 62; 68; 113; 149; 1; 147; 216; 165; 112; 57; 95; 61; 154; 184; 178; 253; 9; 132; 183; 100; 32; 97; 66; 249; 233]; u (replicate 32 0)];
   [u [33; 174; 100; 48; 29; 202; 150; 37; 99; 141; 106; 178; 187; 231; 19; 95; 250; 144; 236; 208; 196; 63; 249; 31; 196; 198; 134; 252; 70; 224; 145; 176]; u (replicate 32 0)];
   [u [3; 121; 246; 60; 140; 227; 70; 141; 77; 162; 147; 22; 111; 73; 73; 40; 133; 75; 233; 227; 67; 46; 9; 85; 88; 88; 83; 78; 237; 141; 53; 11]; u (replicate 32 0)];
   [u [0; 45; 86; 66; 3; 89; 208; 38; 106; 116; 74; 8; 8; 9; 224; 84; 202; 14; 73; 33; 164; 102; 134; 172; 140; 159; 88; 163; 36; 195; 80; 73]; u (replicate 32 0)];
   [u [18; 49; 88; 229; 150; 91; 93; 155; 29; 104; 179; 205; 50; 225; 11; 190; 218; 141; 98; 69; 158; 33; 244; 9; 15; 194; 197; 175; 150; 53; 21; 166]; u (replicate 32 0)];
   [u [11; 226; 159; 196; 8; 71; 169; 65; 102; 29; 20; 187; 246; 203; 224; 66; 15; 187; 43; 111; 82; 131; 109; 78; 96; 200; 14; 180; 156; 173; 158; 193]; u (replicate 32 0)];
   [u [26; 201; 105; 145; 222; 194; 187; 5; 87; 113; 97; 66; 1; 90; 69; 60; 54; 219; 157; 133; 156; 173; 95; 154; 35; 56; 2; 242; 79; 223; 76; 26]; u (replicate 32 0)];
   [u [21; 150; 68; 63; 118; 61; 188; 194; 95; 73; 100; 252; 97; 210; 59; 62; 94; 18; 201; 250; 151; 241; 138; 146; 81; 202; 51; 85; 188; 176; 98; 126]; u (replicate 32 0)];
   [u [18; 224; 188; 211; 101; 75; 223; 167; 107; 40; 97; 212; 236; 58; 234; 224; 241; 133; 125; 159; 23; 231; 21; 174; 214; 208; 73; 234; 227; 186; 50; 18]; u (replicate 32 0)];
   [u [15; 201; 43; 79; 27; 190; 168; 43; 158; 167; 61; 74; 249; 175; 42; 80; 206; 171; 172; 127; 55; 21; 75; 25; 4; 230; 199; 108; 124; 249; 100; 186]; u (replicate 32 0)];
   [u [31; 156; 11; 22; 16; 68; 100; 66; 214; 242; 229; 146; 168; 1; 63; 64; 177; 79; 124; 119; 34; 35; 111; 79; 156; 126; 150; 82; 51; 135; 39; 98]; u (replicate 32 0)];
   [u [14; 189; 116; 36; 74; 231; 38; 117; 248; 205; 224; 97; 87; 167; 130; 244; 5; 13; 145; 77; 163; 139; 76; 5; 141; 21; 159; 100; 61; 187; 244; 211]; u (replicate 32 0)];
   [u [44; 183; 240; 237; 57; 225; 110; 159; 105; 169; 250; 253; 74; 185; 81; 192; 59; 6; 113; 233; 115; 70; 238; 57; 122; 131; 152; 57; 220; 207; 198; 209]; u (replicate 32 0)];
   [u [26; 157; 110; 46; 207; 240; 34; 204; 86; 5; 68; 62; 228; 27; 171; 32; 206; 118; 29; 5; 20; 206; 82; 102; 144; 199; 43; 202; 115; 82; 217; 191]; u (replicate 32 0)];
   [u [42; 17; 84; 57; 96; 127; 51; 90; 94; 168; 60; 59; 196; 74; 147; 49; 208; 193; 51; 38; 169; 167; 186; 48; 135; 218; 24; 45; 100; 142; 199; 47]; u (replicate 32 0)];
   [u [35; 249; 182; 82; 155; 93; 4; 13; 21; 184; 250; 122; 238; 62; 52; 16; 231; 56; 181; 99; 5; 205; 68; 242; 149; 53; 193; 21; 197; 164; 192; 96]; u (replicate 32 0)];
   [u [5; 135; 44; 22; 219; 15; 114; 162; 36; 154; 198; 186; 72; 75; 185; 195; 163; 206; 151; 193; 109; 88; 182; 139; 38; 14; 185; 57; 240; 230; 232; 167]; u (replicate 32 0)];
   [u [19; 0; 189; 238; 8; 187; 120; 36; 202; 32; 251; 128; 17; 128; 117; 244; 2; 25; 182; 21; 29; 85; 181; 197; 43; 98; 74; 124; 222; 221; 246; 167]; u (replicate 32 0)]].

Definition rc_t2_end : list (list Z) :=
  [[u [25; 185; 182; 61; 47; 16; 142; 23; 230; 56; 23; 134; 58; 143; 108; 40; 141; 122; 210; 153; 22; 217; 140; 177; 7; 46; 78; 123; 125; 82; 179; 118]; u [1; 91; 238; 19; 87; 227; 192; 21; 181; 189; 162; 55; 102; 133; 34; 246; 19; 209; 200; 135; 38; 181; 236; 66; 36; 162; 1; 40; 72; 27; 79; 127]];
   [u [41; 83; 115; 110; 148; 187; 107; 159; 27; 151; 7; 164; 241; 97; 94; 78; 254; 30; 28; 228; 186; 178; 24; 203; 234; 146; 199; 133; 177; 40; 255; 209]; u [11; 6; 147; 83; 186; 9; 22; 24; 134; 47; 128; 97; 128; 192; 56; 95; 133; 27; 152; 211; 114; 180; 95; 84; 76; 231; 38; 110; 214; 96; 141; 252]];
   [u [48; 79; 116; 212; 97; 204; 193; 49; 21; 228; 224; 188; 251; 147; 129; 126; 85; 174; 183; 235; 147; 6; 182; 78; 79; 88; 138; 201; 125; 129; 244; 41]; u [21; 187; 241; 70; 206; 155; 202; 9; 232; 163; 63; 94; 119; 223; 228; 245; 170; 210; 161; 100; 164; 97; 122; 76; 184; 238; 84; 21; 205; 233; 19; 252]];
   [u [10; 180; 223; 224; 194; 116; 44; 222; 68; 144; 16; 49; 72; 121; 100; 237; 155; 143; 75; 133; 4; 5; 193; 12; 169; 255; 35; 133; 149; 114; 200; 198]; u [14; 50; 219; 50; 10; 4; 78; 49; 151; 244; 95; 118; 73; 161; 150; 117; 239; 94; 237; 254; 165; 70; 222; 169; 37; 29; 227; 159; 150; 57; 119; 154]]].

Definition get_round_constants_t2 : list (list Z) := rc_t2_begin ++ rc_t2_partial ++ rc_t2_end.

Definition rc_t3_begin : list (list Z) :=
  [[u [29; 6; 106; 37; 85; 23; 183; 253; 139; 221; 211; 169; 63; 120; 4; 239; 127; 143; 205; 228; 139; 180; 195; 122; 89; 160; 154; 26; 151; 5; 40; 22]; u [41; 218; 239; 181; 95; 111; 45; 198; 172; 63; 8; 156; 235; 204; 97; 32; 183; 198; 254; 243; 19; 103; 182; 142; 183; 35; 133; 71; 211; 44; 22; 16]; u [31; 44; 177; 98; 74; 120; 238; 0; 30; 203; 216; 138; 217; 89; 215; 1; 37; 114; 215; 111; 8; 236; 92; 79; 158; 139; 122; 215; 176; 180; 225; 209]];
   [u [10; 173; 46; 121; 241; 87; 53; 242; 189; 119; 192; 237; 61; 20; 170; 39; 177; 31; 9; 42; 83; 187; 198; 225; 219; 6; 114; 222; 216; 79; 49; 229]; u [34; 82; 98; 79; 134; 23; 115; 140; 214; 246; 97; 221; 64; 148; 55; 95; 55; 2; 138; 152; 241; 222; 206; 102; 9; 28; 207; 21; 149; 180; 63; 40]; u [26; 36; 145; 58; 146; 139; 56; 72; 90; 101; 168; 74; 41; 29; 161; 255; 145; 194; 6; 38; 82; 75; 43; 135; 212; 159; 79; 44; 144; 24; 215; 53]];
   [u [34; 252; 70; 143; 23; 89; 183; 77; 123; 252; 66; 123; 95; 17; 235; 177; 10; 65; 81; 93; 223; 244; 151; 177; 79; 214; 218; 225; 80; 143; 196; 122]; u [16; 89; 202; 120; 127; 31; 137; 237; 156; 208; 38; 233; 201; 202; 16; 122; 230; 25; 86; 255; 11; 65; 33; 213; 239; 214; 85; 21; 97; 127; 110; 77]; u [2; 190; 148; 115; 53; 132; 97; 216; 246; 31; 53; 54; 216; 119; 222; 152; 33; 35; 1; 31; 11; 246; 241; 85; 164; 92; 187; 250; 232; 185; 129; 206]];
   [u [14; 201; 108; 142; 50; 150; 45; 70; 39; 120; 167; 73; 200; 46; 214; 35; 171; 169; 182; 105; 172; 91; 135; 54; 161; 255; 58; 68; 26; 80; 132; 164]; u [41; 47; 144; 110; 7; 54; 119; 64; 84; 66; 217; 85; 60; 69; 250; 63; 90; 71; 167; 205; 184; 201; 159; 150; 72; 251; 46; 77; 129; 77; 245; 126]; u [39; 73; 130; 68; 65; 87; 184; 103; 38; 193; 27; 154; 15; 94; 57; 165; 204; 97; 17; 96; 163; 148; 234; 70; 12; 99; 240; 178; 255; 229; 101; 126]]].

Definition rc_t3_partial : list (list Z) :=
  [[u [26; 29; 6; 62; 84; 177; 231; 100; 182; 62; 24; 85; 191; 240; 21; 184; 206; 221; 25; 47; 71; 48; 135; 49; 73; 149; 115; 242; 53; 151; 212; 181]; u [0; 0; 0; 0; 0; 0; 0; 0; 0; 0; 0; 0; 0; 0; 0; 0; 0; 0; 0; 0; 0; 0; 0; 0; 0; 0; 0; 0; 0; 0; 0; 0]; u [0; 0; 0; 0; 0; 0; 0; 0; 0; 0; 0; 0; 0; 0; 0; 0; 0; 0; 0; 0; 0; 0; 0; 0; 0; 0; 0; 0; 0; 0; 0; 0]];
   [u [38; 171; 198; 111; 63; 223; 142; 104; 131; 157; 16; 149; 98; 89; 6; 55; 8; 35; 93; 204; 193; 170; 55; 147; 185; 27; 0; 44; 91; 37; 124; 55]; u [0; 0; 0; 0; 0; 0; 0; 0; 0; 0; 0; 0; 0; 0; 0; 0; 0; 0; 0; 0; 0; 0; 0; 0; 0; 0; 0; 0; 0; 0; 0; 0]; u [0; 0; 0; 0; 0; 0; 0; 0; 0; 0; 0; 0; 0; 0; 0; 0; 0; 0; 0; 0; 0; 0; 0; 0; 0; 0; 0; 0; 0; 0; 0; 0]];
   [u [12; 124; 100; 169; 216; 135; 56; 83; 129; 165; 120; 207; 237; 90; 237; 55; 7; 84; 66; 122; 171; 202; 146; 167; 11; 60; 43; 18; 255; 77; 123; 232]; u [0; 0; 0; 0; 0; 0; 0; 0; 0; 0; 0; 0; 0; 0; 0; 0; 0; 0; 0; 0; 0; 0; 0; 0; 0; 0; 0; 0; 0; 0; 0; 0]; u [0; 0; 0; 0; 0; 0; 0; 0; 0; 0; 0; 0; 0; 0; 0; 0; 0; 0; 0; 0; 0; 0; 0; 0; 0; 0; 0; 0; 0; 0; 0; 0]];
   [u [28; 245; 153; 135; 105; 233; 250; 183; 158; 23; 240; 182; 208; 139; 45; 30; 186; 46; 186; 195; 13; 195; 134; 176; 237; 211; 131; 131; 19; 84; 180; 149]; u [0; 0; 0; 0; 0; 0; 0; 0; 0; 0; 0; 0; 0; 0; 0; 0; 0; 0; 0; 0; 0; 0; 0; 0; 0; 0; 0; 0; 0; 0; 0; 0]; u [0; 0; 0; 0; 0; 0; 0; 0; 0; 0; 0; 0; 0; 0; 0; 0; 0; 0; 0; 0; 0; 0; 0; 0; 0; 0; 0; 0; 0; 0; 0; 0]];
   [u [15; 94; 58; 133; 102; 190; 49; 183; 86; 76; 166; 4; 97; 233; 224; 139; 25; 130; 135; 100; 169; 102; 155; 193; 122; 186; 11; 151; 230; 107; 1; 9]; u [0; 0; 0; 0; 0; 0; 0; 0; 0; 0; 0; 0; 0; 0; 0; 0; 0; 0; 0; 0; 0; 0; 0; 0; 0; 0; 0; 0; 0; 0; 0; 0]; u [0; 0; 0; 0; 0; 0; 0; 0; 0; 0; 0; 0; 0; 0; 0; 0; 0; 0; 0; 0; 0; 0; 0; 0; 0; 0; 0; 0; 0; 0; 0; 0]];
   [u [24; 223; 106; 157; 25; 234; 144; 216; 149; 230; 14; 77; 176; 121; 74; 1; 243; 89; 165; 58; 24; 11; 125; 75; 66; 191; 61; 122; 83; 28; 151; 110]; u [0; 0; 0; 0; 0; 0; 0; 0; 0; 0; 0; 0; 0; 0; 0; 0; 0; 0; 0; 0; 0; 0; 0; 0; 0; 0; 0; 0; 0; 0; 0; 0]; u [0; 0; 0; 0; 0; 0; 0; 0; 0; 0; 0; 0; 0; 0; 0; 0; 0; 0; 0; 0; 0; 0; 0; 0; 0; 0; 0; 0; 0; 0; 0; 0]];
   [u [4; 247; 191; 44; 92; 5; 56; 172; 110; 75; 120; 44; 60; 110; 96; 26; 208; 234; 29; 58; 59; 157; 37; 239; 78; 50; 64; 85; 250; 49; 35; 220]; u [0; 0; 0; 0; 0; 0; 0; 0; 0; 0; 0; 0; 0; 0; 0; 0; 0; 0; 0; 0; 0; 0; 0; 0; 0; 0; 0; 0; 0; 0; 0; 0]; u [0; 0; 0; 0; 0; 0; 0; 0; 0; 0; 0; 0; 0; 0; 0; 0; 0; 0; 0; 0; 0; 0; 0; 0; 0; 0; 0; 0; 0; 0; 0; 0]];
   [u [41; 199; 108; 226; 34; 85; 32; 110; 60; 64; 5; 133; 35; 116; 133; 49; 231; 112; 192; 88; 74; 162; 50; 140; 229; 93; 84; 98; 139; 137; 235; 230]; u [0; 0; 0; 0; 0; 0; 0; 0; 0; 0; 0; 0; 0; 0; 0; 0; 0; 0; 0; 0; 0; 0; 0; 0; 0; 0; 0; 0; 0; 0; 0; 0]; u [0; 0; 0; 0; 0; 0; 0; 0; 0; 0; 0; 0; 0; 0; 0; 0; 0; 0; 0; 0; 0; 0; 0; 0; 0; 0; 0; 0; 0; 0; 0; 0]];
   [u [25; 141; 66; 90; 69; 183; 142; 133; 192; 83; 101; 154; 180; 52; 127; 93; 101; 177; 184; 233; 198; 16; 141; 190; 0; 224; 233; 69; 219; 197; 255; 21]; u [0; 0; 0; 0; 0; 0; 0; 0; 0; 0; 0; 0; 0; 0; 0; 0; 0; 0; 0; 0; 0; 0; 0; 0; 0; 0; 0; 0; 0; 0; 0; 0]; u [0; 0; 0; 0; 0; 0; 0; 0; 0; 0; 0; 0; 0; 0; 0; 0; 0; 0; 0; 0; 0; 0; 0; 0; 0; 0; 0; 0; 0; 0; 0; 0]];
   [u [37; 238; 39; 171; 98; 150; 205; 94; 106; 243; 204; 121; 197; 152; 161; 218; 167; 255; 127; 104; 120; 179; 196; 157; 73; 211; 169; 169; 12; 63; 223; 116]; u [0; 0; 0; 0; 0; 0; 0; 0; 0; 0; 0; 0; 0; 0; 0; 0; 0; 0; 0; 0; 0; 0; 0; 0; 0; 0; 0; 0; 0; 0; 0; 0]; u [0; 0; 0; 0; 0; 0; 0; 0; 0; 0; 0; 0; 0; 0; 0; 0; 0; 0; 0; 0; 0; 0; 0; 0; 0; 0; 0; 0; 0; 0; 0; 0]];
   [u [19; 142; 168; 224; 175; 65; 161; 224; 36; 86; 16; 1; 192; 182; 235; 21; 5; 132; 93; 125; 12; 85; 177; 178; 192; 248; 134; 135; 169; 109; 19; 129]; u [0; 0; 0; 0; 0; 0; 0; 0; 0; 0; 0; 0; 0; 0; 0; 0; 0; 0; 0; 0; 0; 0; 0; 0; 0; 0; 0; 0; 0; 0; 0; 0]; u [0; 0; 0; 0; 0; 0; 0; 0; 0; 0; 0; 0; 0; 0; 0; 0; 0; 0; 0; 0; 0; 0; 0; 0; 0; 0; 0; 0; 0; 0; 0; 0]];
   [u [48; 97; 151; 251; 63; 171; 103; 30; 246; 231; 194; 203; 162; 238; 253; 14; 66; 133; 27; 91; 152; 17; 242; 202; 64; 19; 55; 10; 1; 217; 86; 135]; u [0; 0; 0; 0; 0; 0; 0; 0; 0; 0; 0; 0; 0; 0; 0; 0; 0; 0; 0; 0; 0; 0; 0; 0; 0; 0; 0; 0; 0; 0; 0; 0]; u [0; 0; 0; 0; 0; 0; 0; 0; 0; 0; 0; 0; 0; 0; 0; 0; 0; 0; 0; 0; 0; 0; 0; 0; 0; 0; 0; 0; 0; 0; 0; 0]];
   [u [26; 12; 125; 82; 220; 50; 164; 67; 43; 102; 240; 180; 137; 77; 79; 26; 33; 219; 117; 101; 229; 180; 37; 4; 134; 65; 158; 175; 0; 232; 246; 32]; u [0; 0; 0; 0; 0; 0; 0; 0; 0; 0; 0; 0; 0; 0; 0; 0; 0; 0; 0; 0; 0; 0; 0; 0; 0; 0; 0; 0; 0; 0; 0; 0]; u [0; 0; 0; 0; 0; 0; 0; 0; 0; 0; 0; 0; 0; 0; 0; 0; 0; 0; 0; 0; 0; 0; 0; 0; 0; 0; 0; 0; 0; 0; 0; 0]];
   [u [43; 70; 180; 24; 222; 128; 145; 95; 63; 248; 106; 142; 92; 139; 223; 204; 235; 251; 229; 245; 81; 99; 205; 108; 170; 82; 153; 125; 162; 197; 74; 159]; u [0; 0; 0; 0; 0; 0; 0; 0; 0; 0; 0; 0; 0; 0; 0; 0; 0; 0; 0; 0; 0; 0; 0; 0; 0; 0; 0; 0; 0; 0; 0; 0]; u [0; 0; 0; 0; 0; 0; 0; 0; 0; 0; 0; 0; 0; 0; 0; 0; 0; 0; 0; 0; 0; 0; 0; 0; 0; 0; 0; 0; 0; 0; 0; 0]];
   [u [18; 211; 224; 220; 0; 133; 135; 55; 1; 248; 183; 119; 185; 103; 58; 249; 97; 58; 26; 245; 219; 72; 224; 91; 251; 70; 227; 18; 181; 130; 159; 100]; u [0; 0; 0; 0; 0; 0; 0; 0; 0; 0; 0; 0; 0; 0; 0; 0; 0; 0; 0; 0; 0; 0; 0; 0; 0; 0; 0; 0; 0; 0; 0; 0]; u [0; 0; 0; 0; 0; 0; 0; 0; 0; 0; 0; 0; 0; 0; 0; 0; 0; 0; 0; 0; 0; 0; 0; 0; 0; 0; 0; 0; 0; 0; 0; 0]];
   [u [38; 51; 144; 207; 116; 220; 58; 136; 112; 245; 0; 46; 210; 29; 8; 159; 251; 43; 247; 104; 35; 15; 100; 141; 186; 51; 138; 92; 177; 155; 58; 31]; u [0; 0; 0; 0; 0; 0; 0; 0; 0; 0; 0; 0; 0; 0; 0; 0; 0; 0; 0; 0; 0; 0; 0; 0; 0; 0; 0; 0; 0; 0; 0; 0]; u [0; 0; 0; 0; 0; 0; 0; 0; 0; 0; 0; 0; 0; 0; 0; 0; 0; 0; 0; 0; 0; 0; 0; 0; 0; 0; 0; 0; 0; 0; 0; 0]];
   [u [10; 20; 243; 58; 95; 230; 104; 166; 10; 200; 132; 180; 202; 96; 122; 208; 248; 171; 181; 175; 64; 249; 111; 29; 125; 84; 61; 181; 43; 0; 61; 205]; u [0; 0; 0; 0; 0; 0; 0; 0; 0; 0; 0; 0; 0; 0; 0; 0; 0; 0; 0; 0; 0; 0; 0; 0; 0; 0; 0; 0; 0; 0; 0; 0]; u [0; 0; 0; 0; 0; 0; 0; 0; 0; 0; 0; 0; 0; 0; 0; 0; 0; 0; 0; 0; 0; 0; 0; 0; 0; 0; 0; 0; 0; 0; 0; 0]];
   [u [40; 234; 217; 197; 134; 81; 62; 171; 26; 94; 134; 80; 157; 104; 178; 218; 39; 190; 58; 79; 1; 23; 26; 29; 216; 71; 223; 130; 155; 198; 131; 185]; u [0; 0; 0; 0; 0; 0; 0; 0; 0; 0; 0; 0; 0; 0; 0; 0; 0; 0; 0; 0; 0; 0; 0; 0; 0; 0; 0; 0; 0; 0; 0; 0]; u [0; 0; 0; 0; 0; 0; 0; 0; 0; 0; 0; 0; 0; 0; 0; 0; 0; 0; 0; 0; 0; 0; 0; 0; 0; 0; 0; 0; 0; 0; 0; 0]];
   [u [28; 106; 177; 195; 40; 195; 198; 67; 9; 114; 3; 31; 27; 219; 42; 201; 136; 143; 14; 161; 171; 231; 28; 255; 234; 22; 205; 166; 225; 167; 65; 108]; u [0; 0; 0; 0; 0; 0; 0; 0; 0; 0; 0; 0; 0; 0; 0; 0; 0; 0; 0; 0; 0; 0; 0; 0; 0; 0; 0; 0; 0; 0; 0; 0]; u [0; 0; 0; 0; 0; 0; 0; 0; 0; 0; 0; 0; 0; 0; 0; 0; 0; 0; 0; 0; 0; 0; 0; 0; 0; 0; 0; 0; 0; 0; 0; 0]];
   [u [31; 199; 231; 27; 192; 184; 25; 121; 43; 37; 0; 35; 159; 127; 141; 224; 79; 109; 236; 214; 8; 203; 152; 169; 50; 52; 96; 21; 197; 180; 44; 148]; u [0; 0; 0; 0; 0; 0; 0; 0; 0; 0; 0; 0; 0; 0; 0; 0; 0; 0; 0; 0; 0; 0; 0; 0; 0; 0; 0; 0; 0; 0; 0; 0]; u [0; 0; 0; 0; 0; 0; 0; 0; 0; 0; 0; 0; 0; 0; 0; 0; 0; 0; 0; 0; 0; 0; 0; 0; 0; 0; 0; 0; 0; 0; 0; 0]];
   [u [3; 225; 7; 235; 58; 66; 178; 236; 227; 128; 224; 216; 96; 41; 143; 23; 192; 193; 225; 151; 201; 82; 101; 14; 230; 221; 133; 185; 58; 13; 218; 168]; u [0; 0; 0; 0; 0; 0; 0; 0; 0; 0; 0; 0; 0; 0; 0; 0; 0; 0; 0; 0; 0; 0; 0; 0; 0; 0; 0; 0; 0; 0; 0; 0]; u [0; 0; 0; 0; 0; 0; 0; 0; 0; 0; 0; 0; 0; 0; 0; 0; 0; 0; 0; 0; 0; 0; 0; 0; 0; 0; 0; 0; 0; 0; 0; 0]];
   [u [45; 53; 74; 37; 31; 56; 26; 70; 105; 192; 213; 43; 248; 139; 119; 44; 70; 69; 44; 165; 124; 8; 105; 127; 69; 69; 5; 246; 148; 29; 120; 205]; u [0; 0; 0; 0; 0; 0; 0; 0; 0; 0; 0; 0; 0; 0; 0; 0; 0; 0; 0; 0; 0; 0; 0; 0; 0; 0; 0; 0; 0; 0; 0; 0]; u [0; 0; 0; 0; 0; 0; 0; 0; 0; 0; 0; 0; 0; 0; 0; 0; 0; 0; 0; 0; 0; 0; 0; 0; 0; 0; 0; 0; 0; 0; 0; 0]];
   [u [9; 74; 248; 138; 176; 93; 148; 186; 246; 135; 239; 20; 188; 86; 109; 28; 82; 37; 81; 214; 22; 6; 237; 163; 209; 75; 70; 6; 130; 111; 121; 75]; u [0; 0; 0; 0; 0; 0; 0; 0; 0; 0; 0; 0; 0; 0; 0; 0; 0; 0; 0; 0; 0; 0; 0; 0; 0; 0; 0; 0; 0; 0; 0; 0]; u [0; 0; 0; 0; 0; 0; 0; 0; 0; 0; 0; 0; 0; 0; 0; 0; 0; 0; 0; 0; 0; 0; 0; 0; 0; 0; 0; 0; 0; 0; 0; 0]];
   [u [25; 112; 91; 120; 59; 243; 210; 220; 25; 188; 174; 171; 240; 47; 140; 165; 225; 171; 91; 111; 46; 49; 149; 169; 213; 43; 45; 36; 157; 19; 150; 247]; u [0; 0; 0; 0; 0; 0; 0; 0; 0; 0; 0; 0; 0; 0; 0; 0; 0; 0; 0; 0; 0; 0; 0; 0; 0; 0; 0; 0; 0; 0; 0; 0]; u [0; 0; 0; 0; 0; 0; 0; 0; 0; 0; 0; 0; 0; 0; 0; 0; 0; 0; 0; 0; 0; 0; 0; 0; 0; 0; 0; 0; 0; 0; 0; 0]];
   [u [9; 191; 74; 204; 58; 139; 206; 63; 31; 204; 51; 254; 229; 79; 197; 178; 135; 35; 177; 107; 125; 116; 10; 62; 96; 206; 246; 133; 34; 113; 32; 14]; u [0; 0; 0; 0; 0; 0; 0; 0; 0; 0; 0; 0; 0; 0; 0; 0; 0; 0; 0; 0; 0; 0; 0; 0; 0; 0; 0; 0; 0; 0; 0; 0]; u [0; 0; 0; 0; 0; 0; 0; 0; 0; 0; 0; 0; 0; 0; 0; 0; 0; 0; 0; 0; 0; 0; 0; 0; 0; 0; 0; 0; 0; 0; 0; 0]];
   [u [24; 3; 248; 32; 13; 182; 1; 60; 80; 248; 60; 12; 143; 171; 98; 132; 52; 19; 115; 47; 48; 31; 112; 88; 84; 58; 7; 63; 63; 59; 94; 78]; u [0; 0; 0; 0; 0; 0; 0; 0; 0; 0; 0; 0; 0; 0; 0; 0; 0; 0; 0; 0; 0; 0; 0; 0; 0; 0; 0; 0; 0; 0; 0; 0]; u [0; 0; 0; 0; 0; 0; 0; 0; 0; 0; 0; 0; 0; 0; 0; 0; 0; 0; 0; 0; 0; 0; 0; 0; 0; 0; 0; 0; 0; 0; 0; 0]];
   [u [15; 128; 175; 181; 4; 98; 68; 222; 48; 89; 91; 22; 11; 141; 31; 56; 191; 111; 176; 45; 68; 84; 192; 173; 212; 31; 127; 239; 47; 175; 62; 92]; u [0; 0; 0; 0; 0; 0; 0; 0; 0; 0; 0; 0; 0; 0; 0; 0; 0; 0; 0; 0; 0; 0; 0; 0; 0; 0; 0; 0; 0; 0; 0; 0]; u [0; 0; 0; 0; 0; 0; 0; 0; 0; 0; 0; 0; 0; 0; 0; 0; 0; 0; 0; 0; 0; 0; 0; 0; 0; 0; 0; 0; 0; 0; 0; 0]];
   [u [18; 110; 225; 248; 80; 79; 21; 195; 215; 127; 0; 136; 193; 207; 201; 100; 171; 207; 207; 100; 63; 74; 111; 234; 125; 195; 249; 130; 25; 82; 157; 120]; u [0; 0; 0; 0; 0; 0; 0; 0; 0; 0; 0; 0; 0; 0; 0; 0; 0; 0; 0; 0; 0; 0; 0; 0; 0; 0; 0; 0; 0; 0; 0; 0]; u [0; 0; 0; 0; 0; 0; 0; 0; 0; 0; 0; 0; 0; 0; 0; 0; 0; 0; 0; 0; 0; 0; 0; 0; 0; 0; 0; 0; 0; 0; 0; 0]];
   [u [35; 194; 3; 209; 12; 252; 198; 15; 105; 191; 179; 217; 25; 85; 44; 161; 15; 251; 78; 230; 49; 117; 221; 248; 239; 134; 249; 145; 215; 208; 165; 145]; u [0; 0; 0; 0; 0; 0; 0; 0; 0; 0; 0; 0; 0; 0; 0; 0; 0; 0; 0; 0; 0; 0; 0; 0; 0; 0; 0; 0; 0; 0; 0; 0]; u [0; 0; 0; 0; 0; 0; 0; 0; 0; 0; 0; 0; 0; 0; 0; 0; 0; 0; 0; 0; 0; 0; 0; 0; 0; 0; 0; 0; 0; 0; 0; 0]];
   [u [42; 42; 225; 93; 139; 20; 55; 9; 236; 13; 9; 112; 95; 163; 166; 48; 61; 236; 30; 228; 238; 194; 207; 116; 124; 90; 51; 159; 119; 68; 251; 148]; u [0; 0; 0; 0; 0; 0; 0; 0; 0; 0; 0; 0; 0; 0; 0; 0; 0; 0; 0; 0; 0; 0; 0; 0; 0; 0; 0; 0; 0; 0; 0; 0]; u [0; 0; 0; 0; 0; 0; 0; 0; 0; 0; 0; 0; 0; 0; 0; 0; 0; 0; 0; 0; 0; 0; 0; 0; 0; 0; 0; 0; 0; 0; 0; 0]];
   [u [7; 182; 13; 238; 88; 110; 214; 239; 71; 229; 195; 129; 171; 99; 67; 236; 195; 211; 179; 0; 108; 180; 97; 187; 182; 181; 216; 144; 129; 151; 11; 43]; u [0; 0; 0; 0; 0; 0; 0; 0; 0; 0; 0; 0; 0; 0; 0; 0; 0; 0; 0; 0; 0; 0; 0; 0; 0; 0; 0; 0; 0; 0; 0; 0]; u [0; 0; 0; 0; 0; 0; 0; 0; 0; 0; 0; 0; 0; 0; 0; 0; 0; 0; 0; 0; 0; 0; 0; 0; 0; 0; 0; 0; 0; 0; 0; 0]];
   [u [39; 49; 107; 85; 155; 227; 237; 253; 136; 93; 149; 196; 148; 193; 174; 61; 138; 152; 163; 32; 186; 167; 209; 82; 19; 44; 254; 88; 60; 147; 17; 189]; u [0; 0; 0; 0; 0; 0; 0; 0; 0; 0; 0; 0; 0; 0; 0; 0; 0; 0; 0; 0; 0; 0; 0; 0; 0; 0; 0; 0; 0; 0; 0; 0]; u [0; 0; 0; 0; 0; 0; 0; 0; 0; 0; 0; 0; 0; 0; 0; 0; 0; 0; 0; 0; 0; 0; 0; 0; 0; 0; 0; 0; 0; 0; 0; 0]];
   [u [29; 92; 73; 186; 21; 124; 50; 184; 216; 147; 124; 178; 211; 248; 67; 17; 239; 131; 76; 194; 167; 67; 237; 102; 47; 95; 154; 240; 192; 52; 46; 118]; u [0; 0; 0; 0; 0; 0; 0; 0; 0; 0; 0; 0; 0; 0; 0; 0; 0; 0; 0; 0; 0; 0; 0; 0; 0; 0; 0; 0; 0; 0; 0; 0]; u [0; 0; 0; 0; 0; 0; 0; 0; 0; 0; 0; 0; 0; 0; 0; 0; 0; 0; 0; 0; 0; 0; 0; 0; 0; 0; 0; 0; 0; 0; 0; 0]];
   [u [47; 139; 18; 78; 120; 22; 59; 47; 51; 39; 116; 224; 184; 80; 181; 236; 9; 192; 27; 246; 151; 153; 56; 246; 124; 36; 189; 89; 64; 150; 132; 136]; u [0; 0; 0; 0; 0; 0; 0; 0; 0; 0; 0; 0; 0; 0; 0; 0; 0; 0; 0; 0; 0; 0; 0; 0; 0; 0; 0; 0; 0; 0; 0; 0]; u [0; 0; 0; 0; 0; 0; 0; 0; 0; 0; 0; 0; 0; 0; 0; 0; 0; 0; 0; 0; 0; 0; 0; 0; 0; 0; 0; 0; 0; 0; 0; 0]];
   [u [30; 104; 67; 165; 69; 116; 22; 182; 220; 91; 122; 160; 154; 156; 226; 27; 29; 76; 186; 101; 84; 229; 29; 132; 102; 95; 117; 38; 1; 19; 179; 213]; u [0; 0; 0; 0; 0; 0; 0; 0; 0; 0; 0; 0; 0; 0; 0; 0; 0; 0; 0; 0; 0; 0; 0; 0; 0; 0; 0; 0; 0; 0; 0; 0]; u [0; 0; 0; 0; 0; 0; 0; 0; 0; 0; 0; 0; 0; 0; 0; 0; 0; 0; 0; 0; 0; 0; 0; 0; 0; 0; 0; 0; 0; 0; 0; 0]];
   [u [17; 205; 240; 10; 53; 246; 80; 197; 95; 202; 37; 201; 146; 156; 138; 217; 166; 141; 175; 154; 198; 161; 137; 171; 31; 91; 199; 159; 33; 100; 29; 75]; u [0; 0; 0; 0; 0; 0; 0; 0; 0; 0; 0; 0; 0; 0; 0; 0; 0; 0; 0; 0; 0; 0; 0; 0; 0; 0; 0; 0; 0; 0; 0; 0]; u [0; 0; 0; 0; 0; 0; 0; 0; 0; 0; 0; 0; 0; 0; 0; 0; 0; 0; 0; 0; 0; 0; 0; 0; 0; 0; 0; 0; 0; 0; 0; 0]];
   [u [33; 99; 45; 227; 211; 187; 197; 228; 46; 243; 110; 88; 129; 88; 214; 212; 96; 139; 40; 21; 199; 115; 85; 183; 232; 43; 91; 155; 126; 181; 96; 188]; u [0; 0; 0; 0; 0; 0; 0; 0; 0; 0; 0; 0; 0; 0; 0; 0; 0; 0; 0; 0; 0; 0; 0; 0; 0; 0; 0; 0; 0; 0; 0; 0]; u [0; 0; 0; 0; 0; 0; 0; 0; 0; 0; 0; 0; 0; 0; 0; 0; 0; 0; 0; 0; 0; 0; 0; 0; 0; 0; 0; 0; 0; 0; 0; 0]];
   [u [13; 230; 37; 117; 132; 82; 239; 189; 151; 178; 112; 37; 251; 210; 69; 224; 37; 90; 228; 142; 242; 163; 41; 228; 73; 215; 181; 197; 28; 24; 73; 138]; u [0; 0; 0; 0; 0; 0; 0; 0; 0; 0; 0; 0; 0; 0; 0; 0; 0; 0; 0; 0; 0; 0; 0; 0; 0; 0; 0; 0; 0; 0; 0; 0]; u [0; 0; 0; 0; 0; 0; 0; 0; 0; 0; 0; 0; 0; 0; 0; 0; 0; 0; 0; 0; 0; 0; 0; 0; 0; 0; 0; 0; 0; 0; 0; 0]];
   [u [42; 210; 83; 192; 83; 231; 82; 19; 226; 254; 191; 212; 217; 118; 204; 1; 221; 158; 30; 28; 111; 15; 182; 176; 155; 9; 84; 107; 160; 131; 128; 152]; u [0; 0; 0; 0; 0; 0; 0; 0; 0; 0; 0; 0; 0; 0; 0; 0; 0; 0; 0; 0; 0; 0; 0; 0; 0; 0; 0; 0; 0; 0; 0; 0]; u [0; 0; 0; 0; 0; 0; 0; 0; 0; 0; 0; 0; 0; 0; 0; 0; 0; 0; 0; 0; 0; 0; 0; 0; 0; 0; 0; 0; 0; 0; 0; 0]];
   [u [29; 107; 22; 158; 214; 56; 114; 220; 110; 199; 104; 30; 195; 155; 59; 233; 61; 212; 156; 221; 19; 200; 19; 183; 211; 87; 2; 227; 141; 96; 176; 119]; u [0; 0; 0; 0; 0; 0; 0; 0; 0; 0; 0; 0; 0; 0; 0; 0; 0; 0; 0; 0; 0; 0; 0; 0; 0; 0; 0; 0; 0; 0; 0; 0]; u [0; 0; 0; 0; 0; 0; 0; 0; 0; 0; 0; 0; 0; 0; 0; 0; 0; 0; 0; 0; 0; 0; 0; 0; 0; 0; 0; 0; 0; 0; 0; 0]];
   [u [22; 96; 183; 64; 161; 67; 102; 75; 185; 18; 124; 73; 65; 182; 127; 237; 11; 227; 234; 112; 162; 77; 85; 104; 195; 165; 78; 112; 108; 254; 247; 254]; u [0; 0; 0; 0; 0; 0; 0; 0; 0; 0; 0; 0; 0; 0; 0; 0; 0; 0; 0; 0; 0; 0; 0; 0; 0; 0; 0; 0; 0; 0; 0; 0]; u [0; 0; 0; 0; 0; 0; 0; 0; 0; 0; 0; 0; 0; 0; 0; 0; 0; 0; 0; 0; 0; 0; 0; 0; 0; 0; 0; 0; 0; 0; 0; 0]];
   [u [0; 101; 169; 45; 29; 232; 31; 52; 17; 79; 76; 162; 222; 239; 118; 224; 206; 172; 221; 219; 18; 207; 135; 144; 150; 162; 159; 16; 55; 108; 203; 254]; u [0; 0; 0; 0; 0; 0; 0; 0; 0; 0; 0; 0; 0; 0; 0; 0; 0; 0; 0; 0; 0; 0; 0; 0; 0; 0; 0; 0; 0; 0; 0; 0]; u [0; 0; 0; 0; 0; 0; 0; 0; 0; 0; 0; 0; 0; 0; 0; 0; 0; 0; 0; 0; 0; 0; 0; 0; 0; 0; 0; 0; 0; 0; 0; 0]];
   [u [31; 17; 240; 101; 32; 37; 53; 152; 115; 103; 248; 35; 218; 125; 103; 44; 53; 62; 190; 44; 203; 196; 134; 155; 207; 48; 213; 10; 88; 113; 4; 13]; u [0; 0; 0; 0; 0; 0; 0; 0; 0; 0; 0; 0; 0; 0; 0; 0; 0; 0; 0; 0; 0; 0; 0; 0; 0; 0; 0; 0; 0; 0; 0; 0]; u [0; 0; 0; 0; 0; 0; 0; 0; 0; 0; 0; 0; 0; 0; 0; 0; 0; 0; 0; 0; 0; 0; 0; 0; 0; 0; 0; 0; 0; 0; 0; 0]];
   [u [38; 89; 111; 92; 93; 213; 165; 209; 180; 55; 206; 123; 20; 162; 195; 221; 59; 209; 209; 163; 155; 103; 89; 186; 17; 8; 82; 209; 125; 240; 105; 62]; u [0; 0; 0; 0; 0; 0; 0; 0; 0; 0; 0; 0; 0; 0; 0; 0; 0; 0; 0; 0; 0; 0; 0; 0; 0; 0; 0; 0; 0; 0; 0; 0]; u [0; 0; 0; 0; 0; 0; 0; 0; 0; 0; 0; 0; 0; 0; 0; 0; 0; 0; 0; 0; 0; 0; 0; 0; 0; 0; 0; 0; 0; 0; 0; 0]];
   [u [22; 244; 155; 199; 39; 228; 90; 47; 123; 243; 5; 110; 252; 248; 182; 211; 133; 57; 196; 22; 58; 95; 30; 112; 103; 67; 219; 21; 175; 145; 134; 15]; u [0; 0; 0; 0; 0; 0; 0; 0; 0; 0; 0; 0; 0; 0; 0; 0; 0; 0; 0; 0; 0; 0; 0; 0; 0; 0; 0; 0; 0; 0; 0; 0]; u [0; 0; 0; 0; 0; 0; 0; 0; 0; 0; 0; 0; 0; 0; 0; 0; 0; 0; 0; 0; 0; 0; 0; 0; 0; 0; 0; 0; 0; 0; 0; 0]];
   [u [26; 190; 29; 235; 69; 179; 227; 17; 153; 84; 23; 94; 251; 51; 27; 244; 86; 143; 234; 247; 234; 139; 61; 197; 225; 164; 231; 67; 141; 211; 158; 95]; u [0; 0; 0; 0; 0; 0; 0; 0; 0; 0; 0; 0; 0; 0; 0; 0; 0; 0; 0; 0; 0; 0; 0; 0; 0; 0; 0; 0; 0; 0; 0; 0]; u [0; 0; 0; 0; 0; 0; 0; 0; 0; 0; 0; 0; 0; 0; 0; 0; 0; 0; 0; 0; 0; 0; 0; 0; 0; 0; 0; 0; 0; 0; 0; 0]];
   [u [14; 66; 108; 202; 182; 105; 132; 209; 216; 153; 58; 116; 202; 84; 139; 119; 159; 93; 185; 42; 174; 197; 241; 2; 2; 13; 52; 174; 161; 95; 186; 89]; u [0; 0; 0; 0; 0; 0; 0; 0; 0; 0; 0; 0; 0; 0; 0; 0; 0; 0; 0; 0; 0; 0; 0; 0; 0; 0; 0; 0; 0; 0; 0; 0]; u [0; 0; 0; 0; 0; 0; 0; 0; 0; 0; 0; 0; 0; 0; 0; 0; 0; 0; 0; 0; 0; 0; 0; 0; 0; 0; 0; 0; 0; 0; 0; 0]];
   [u [14; 124; 48; 194; 226; 232; 149; 127; 73; 51; 189; 25; 66; 5; 63; 31; 0; 113; 104; 75; 144; 45; 83; 79; 168; 65; 146; 67; 3; 246; 166; 198]; u [0; 0; 0; 0; 0; 0; 0; 0; 0; 0; 0; 0; 0; 0; 0; 0; 0; 0; 0; 0; 0; 0; 0; 0; 0; 0; 0; 0; 0; 0; 0; 0]; u [0; 0; 0; 0; 0; 0; 0; 0; 0; 0; 0; 0; 0; 0; 0; 0; 0; 0; 0; 0; 0; 0; 0; 0; 0; 0; 0; 0; 0; 0; 0; 0]];
   [u [8; 18; 160; 23; 202; 146; 207; 10; 22; 34; 112; 143; 199; 237; 255; 29; 97; 102; 222; 214; 227; 82; 142; 173; 76; 118; 225; 243; 29; 63; 198; 157]; u [0; 0; 0; 0; 0; 0; 0; 0; 0; 0; 0; 0; 0; 0; 0; 0; 0; 0; 0; 0; 0; 0; 0; 0; 0; 0; 0; 0; 0; 0; 0; 0]; u [0; 0; 0; 0; 0; 0; 0; 0; 0; 0; 0; 0; 0; 0; 0; 0; 0; 0; 0; 0; 0; 0; 0; 0; 0; 0; 0; 0; 0; 0; 0; 0]];
   [u [33; 165; 173; 227; 223; 43; 193; 181; 187; 169; 73; 209; 219; 150; 4; 0; 104; 175; 229; 2; 110; 221; 122; 156; 46; 39; 107; 71; 207; 1; 13; 84]; u [0; 0; 0; 0; 0; 0; 0; 0; 0; 0; 0; 0; 0; 0; 0; 0; 0; 0; 0; 0; 0; 0; 0; 0; 0; 0; 0; 0; 0; 0; 0; 0]; u [0; 0; 0; 0; 0; 0; 0; 0; 0; 0; 0; 0; 0; 0; 0; 0; 0; 0; 0; 0; 0; 0; 0; 0; 0; 0; 0; 0; 0; 0; 0; 0]];
   [u [1; 243; 3; 84; 99; 129; 108; 132; 173; 113; 27; 241; 160; 88; 198; 198; 189; 16; 25; 69; 245; 14; 90; 254; 114; 177; 165; 35; 63; 135; 73; 206]; u [0; 0; 0; 0; 0; 0; 0; 0; 0; 0; 0; 0; 0; 0; 0; 0; 0; 0; 0; 0; 0; 0; 0; 0; 0; 0; 0; 0; 0; 0; 0; 0]; u [0; 0; 0; 0; 0; 0; 0; 0; 0; 0; 0; 0; 0; 0; 0; 0; 0; 0; 0; 0; 0; 0; 0; 0; 0; 0; 0; 0; 0; 0; 0; 0]];
   [u [11; 17; 85; 114; 240; 56; 192; 226; 2; 140; 42; 175; 194; 208; 106; 94; 139; 242; 249; 57; 141; 189; 15; 223; 77; 202; 168; 43; 15; 12; 28; 139]; u [0; 0; 0; 0; 0; 0; 0; 0; 0; 0; 0; 0; 0; 0; 0; 0; 0; 0; 0; 0; 0; 0; 0; 0; 0; 0; 0; 0; 0; 0; 0; 0]; u [0; 0; 0; 0; 0; 0; 0; 0; 0; 0; 0; 0; 0; 0; 0; 0; 0; 0; 0; 0; 0; 0; 0; 0; 0; 0; 0; 0; 0; 0; 0; 0]];
   [u [28; 56; 236; 11; 153; 182; 47; 212; 240; 239; 37; 85; 67; 245; 13; 46; 39; 252; 36; 219; 66; 188; 145; 10; 52; 96; 97; 59; 110; 245; 158; 47]; u [0; 0; 0; 0; 0; 0; 0; 0; 0; 0; 0; 0; 0; 0; 0; 0; 0; 0; 0; 0; 0; 0; 0; 0; 0; 0; 0; 0; 0; 0; 0; 0]; u [0; 0; 0; 0; 0; 0; 0; 0; 0; 0; 0; 0; 0; 0; 0; 0; 0; 0; 0; 0; 0; 0; 0; 0; 0; 0; 0; 0; 0; 0; 0; 0]];
   [u [28; 137; 198; 217; 102; 98; 114; 232; 66; 92; 63; 241; 244; 172; 115; 123; 47; 93; 49; 70; 6; 162; 151; 212; 177; 208; 178; 84; 216; 128; 197; 62]; u [0; 0; 0; 0; 0; 0; 0; 0; 0; 0; 0; 0; 0; 0; 0; 0; 0; 0; 0; 0; 0; 0; 0; 0; 0; 0; 0; 0; 0; 0; 0; 0]; u [0; 0; 0; 0; 0; 0; 0; 0; 0; 0; 0; 0; 0; 0; 0; 0; 0; 0; 0; 0; 0; 0; 0; 0; 0; 0; 0; 0; 0; 0; 0; 0]];
   [u [3; 50; 110; 100; 53; 128; 53; 107; 246; 212; 64; 8; 174; 76; 4; 42; 33; 173; 72; 128; 9; 122; 94; 179; 139; 113; 226; 49; 27; 184; 143; 143]; u [0; 0; 0; 0; 0; 0; 0; 0; 0; 0; 0; 0; 0; 0; 0; 0; 0; 0; 0; 0; 0; 0; 0; 0; 0; 0; 0; 0; 0; 0; 0; 0]; u [0; 0; 0; 0; 0; 0; 0; 0; 0; 0; 0; 0; 0; 0; 0; 0; 0; 0; 0; 0; 0; 0; 0; 0; 0; 0; 0; 0; 0; 0; 0; 0]];
   [u [38; 128; 118; 176; 5; 79; 183; 63; 103; 206; 233; 234; 14; 81; 227; 173; 80; 242; 122; 100; 52; 181; 220; 235; 91; 221; 226; 41; 153; 16; 164; 201]; u [0; 0; 0; 0; 0; 0; 0; 0; 0; 0; 0; 0; 0; 0; 0; 0; 0; 0; 0; 0; 0; 0; 0; 0; 0; 0; 0; 0; 0; 0; 0; 0]; u [0; 0; 0; 0; 0; 0; 0; 0; 0; 0; 0; 0; 0; 0; 0; 0; 0; 0; 0; 0; 0; 0; 0; 0; 0; 0; 0; 0; 0; 0; 0; 0]]].

Definition rc_t3_end : list (list Z) :=
  [[u [26; 205; 99; 198; 127; 188; 154; 177; 98; 110; 217; 52; 145; 189; 163; 46; 93; 161; 142; 169; 216; 228; 241; 1; 120; 208; 74; 166; 248; 116; 122; 208]; u [25; 248; 165; 214; 112; 232; 171; 102; 196; 227; 20; 75; 229; 142; 246; 144; 27; 249; 51; 117; 226; 50; 62; 195; 202; 140; 134; 205; 42; 40; 181; 165]; u [28; 13; 196; 67; 81; 154; 215; 168; 110; 250; 64; 210; 223; 16; 160; 17; 6; 129; 147; 234; 81; 246; 201; 42; 225; 207; 187; 95; 123; 155; 104; 147]];
   [u [20; 179; 158; 122; 164; 6; 141; 190; 80; 254; 113; 144; 228; 33; 220; 25; 251; 234; 179; 60; 180; 246; 162; 196; 24; 14; 76; 50; 36; 152; 125; 61]; u [29; 68; 155; 113; 189; 130; 110; 197; 143; 40; 198; 62; 166; 197; 97; 183; 184; 32; 252; 81; 159; 1; 240; 33; 175; 177; 227; 94; 40; 176; 121; 94]; u [30; 162; 201; 168; 155; 170; 221; 187; 96; 250; 151; 254; 96; 254; 157; 142; 137; 222; 20; 22; 137; 209; 37; 34; 118; 82; 77; 192; 169; 233; 135; 252]];
   [u [4; 120; 214; 109; 67; 83; 90; 140; 181; 126; 156; 28; 61; 106; 43; 215; 89; 31; 154; 70; 160; 233; 192; 88; 19; 77; 92; 239; 219; 60; 127; 241]; u [25; 39; 45; 183; 30; 236; 230; 166; 246; 8; 243; 178; 113; 127; 156; 210; 102; 46; 38; 173; 134; 196; 0; 178; 28; 222; 94; 74; 123; 0; 190; 190]; u [20; 34; 101; 55; 51; 92; 171; 51; 199; 73; 199; 70; 240; 146; 8; 171; 178; 221; 27; 214; 106; 135; 239; 117; 3; 155; 232; 70; 175; 19; 65; 102]];
   [u [1; 253; 106; 241; 89; 86; 41; 79; 157; 254; 56; 192; 217; 118; 160; 136; 178; 28; 33; 228; 161; 194; 232; 35; 249; 18; 244; 73; 97; 249; 169; 206]; u [24; 229; 171; 237; 214; 38; 236; 48; 123; 202; 25; 11; 139; 44; 171; 26; 174; 226; 230; 46; 210; 41; 186; 90; 90; 216; 81; 141; 78; 95; 42; 87]; u [15; 193; 187; 206; 186; 5; 144; 245; 171; 189; 255; 166; 211; 179; 94; 50; 151; 192; 33; 163; 164; 9; 146; 109; 14; 45; 84; 220; 28; 132; 253; 166]]].

Definition get_round_constants_t3 : list (list Z) := rc_t3_begin ++ rc_t3_partial ++ rc_t3_end.

Definition get_zeroes : list Z :=
  [u [37; 48; 34; 136; 219; 153; 53; 3; 68; 151; 65; 131; 206; 49; 13; 99; 181; 58; 187; 158; 240; 248; 87; 87; 83; 238; 211; 110; 1; 24; 249; 206];
   u [33; 244; 234; 36; 146; 173; 224; 6; 168; 238; 127; 183; 100; 6; 10; 149; 164; 238; 245; 202; 147; 30; 3; 123; 205; 240; 95; 194; 128; 103; 208; 8];
   u [14; 191; 180; 210; 240; 91; 182; 164; 115; 201; 191; 247; 37; 134; 254; 200; 6; 241; 172; 35; 112; 21; 197; 112; 215; 199; 130; 73; 207; 125; 119; 64];
   u [6; 104; 130; 165; 218; 177; 134; 212; 214; 63; 166; 96; 15; 158; 163; 213; 205; 254; 242; 162; 129; 28; 137; 115; 17; 40; 167; 41; 215; 232; 184; 151];
   u [6; 93; 179; 20; 141; 141; 165; 50; 155; 234; 236; 80; 66; 120; 92; 105; 242; 206; 7; 9; 226; 109; 70; 139; 218; 30; 37; 92; 89; 155; 86; 134];
   u [25; 146; 111; 170; 35; 176; 115; 125; 70; 127; 148; 118; 240; 248; 75; 41; 104; 255; 102; 102; 225; 106; 35; 228; 212; 72; 152; 248; 132; 80; 71; 100];
   u [40; 124; 72; 90; 114; 204; 200; 212; 216; 6; 146; 217; 126; 182; 44; 22; 73; 83; 160; 66; 39; 145; 246; 175; 98; 20; 169; 167; 173; 34; 121; 192];
   u [31; 114; 158; 16; 62; 125; 65; 95; 114; 141; 201; 69; 227; 182; 226; 196; 10; 192; 203; 54; 158; 83; 43; 165; 10; 86; 151; 144; 205; 222; 42; 204];
   u [24; 135; 231; 31; 146; 33; 127; 254; 134; 98; 14; 110; 165; 167; 26; 211; 82; 31; 173; 228; 200; 50; 3; 255; 163; 232; 56; 254; 61; 110; 114; 3];
   u [41; 90; 167; 142; 86; 199; 160; 154; 134; 79; 47; 65; 117; 16; 0; 149; 243; 231; 185; 239; 42; 145; 26; 248; 124; 176; 243; 247; 238; 242; 119; 0];
   u [5; 23; 3; 42; 121; 107; 3; 64; 220; 95; 157; 242; 139; 31; 211; 32; 218; 186; 36; 213; 164; 83; 53; 161; 55; 22; 115; 0; 238; 54; 136; 40];
   u [21; 250; 223; 73; 71; 210; 164; 12; 123; 67; 158; 131; 234; 60; 151; 159; 247; 37; 170; 209; 28; 71; 170; 175; 137; 42; 171; 65; 61; 178; 220; 221];
   u [0; 172; 183; 35; 107; 109; 135; 244; 135; 91; 59; 157; 23; 32; 169; 224; 104; 44; 112; 228; 188; 109; 84; 237; 246; 31; 170; 43; 201; 56; 65; 214];
   u [9; 131; 109; 217; 5; 77; 86; 10; 230; 14; 166; 168; 3; 52; 4; 179; 228; 3; 9; 246; 238; 77; 23; 10; 203; 146; 230; 102; 126; 134; 199; 117];
   u [33; 152; 148; 107; 23; 249; 186; 3; 93; 126; 231; 40; 116; 28; 165; 244; 229; 135; 92; 182; 175; 178; 150; 132; 166; 245; 249; 168; 47; 238; 196; 130];
   u [21; 212; 177; 104; 48; 96; 77; 190; 11; 50; 18; 227; 31; 149; 116; 120; 124; 21; 176; 245; 78; 94; 36; 176; 128; 104; 126; 122; 110; 246; 212; 85];
   u [45; 7; 247; 62; 4; 207; 10; 83; 128; 55; 186; 7; 86; 22; 81; 172; 151; 155; 176; 14; 23; 5; 199; 93; 220; 149; 22; 236; 75; 138; 106; 118];
   u [2; 248; 115; 26; 234; 40; 154; 107; 64; 16; 0; 72; 126; 140; 105; 37; 201; 34; 64; 126; 236; 165; 143; 46; 24; 204; 138; 217; 182; 197; 209; 63];
   u [10; 48; 5; 60; 23; 135; 199; 151; 130; 230; 11; 200; 216; 37; 233; 227; 35; 200; 169; 2; 249; 58; 165; 146; 60; 36; 209; 125; 22; 219; 146; 92];
   u [14; 163; 5; 141; 153; 88; 186; 95; 228; 65; 251; 215; 157; 201; 104; 244; 73; 33; 93; 222; 230; 97; 70; 22; 26; 252; 243; 76; 52; 191; 164; 144];
   u [39; 185; 147; 126; 71; 166; 89; 131; 173; 80; 165; 183; 246; 185; 207; 5; 66; 201; 26; 141; 250; 23; 20; 206; 248; 144; 19; 67; 138; 6; 249; 183];
   u [45; 52; 123; 228; 229; 71; 197; 131; 124; 27; 33; 114; 50; 38; 40; 160; 196; 141; 102; 129; 147; 25; 103; 145; 179; 16; 103; 75; 4; 83; 192; 57];
   u [3; 242; 70; 27; 53; 184; 146; 252; 140; 88; 151; 6; 40; 61; 16; 131; 244; 210; 214; 107; 228; 249; 126; 70; 26; 186; 242; 240; 111; 137; 207; 253];
   u [37; 155; 143; 160; 8; 44; 246; 6; 111; 0; 90; 10; 73; 0; 103; 18; 254; 29; 207; 239; 106; 152; 214; 143; 122; 180; 69; 248; 138; 219; 97; 167];
   u [25; 128; 165; 247; 234; 192; 157; 170; 199; 178; 210; 23; 155; 161; 217; 112; 251; 63; 2; 19; 221; 144; 97; 49; 40; 245; 213; 88; 99; 216; 68; 20];
   u [28; 252; 217; 74; 171; 194; 60; 172; 212; 204; 171; 34; 232; 125; 35; 3; 32; 13; 9; 176; 48; 66; 178; 4; 127; 3; 210; 224; 222; 245; 126; 133];
   u [16; 43; 220; 129; 172; 191; 140; 82; 211; 88; 113; 162; 31; 242; 117; 22; 221; 190; 110; 49; 239; 81; 116; 12; 73; 189; 46; 226; 177; 152; 12; 33];
   u [47; 173; 132; 243; 136; 162; 99; 231; 20; 199; 179; 159; 176; 221; 36; 190; 97; 88; 185; 226; 20; 128; 170; 58; 96; 119; 135; 7; 136; 159; 118; 173];
   u [42; 206; 148; 45; 48; 190; 203; 54; 159; 28; 253; 2; 91; 83; 148; 214; 238; 76; 151; 245; 89; 48; 4; 138; 24; 251; 80; 17; 40; 200; 119; 119];
   u [9; 48; 254; 204; 191; 118; 42; 107; 35; 154; 206; 226; 195; 105; 222; 154; 49; 189; 62; 35; 44; 144; 198; 74; 241; 65; 148; 92; 28; 65; 84; 99];
   u [26; 89; 226; 186; 85; 241; 232; 41; 188; 162; 198; 49; 106; 156; 205; 8; 1; 125; 46; 155; 245; 50; 148; 44; 38; 216; 35; 101; 202; 96; 75; 88];
   u [26; 142; 132; 12; 132; 226; 251; 82; 18; 214; 31; 9; 173; 95; 145; 214; 167; 10; 131; 7; 78; 148; 39; 114; 239; 116; 180; 45; 18; 161; 31; 80];
   u [19; 75; 80; 223; 2; 226; 204; 185; 139; 89; 175; 44; 44; 85; 215; 164; 31; 241; 2; 104; 23; 48; 196; 43; 163; 100; 219; 255; 18; 113; 207; 98]].

(** ** The prover's zero leaf ([sdk/prover/src/crypto.rs]) *)

Definition ZERO_LEAF_BYTES : bytes :=
  [37; 48; 34; 136; 219; 153; 53; 3; 68; 151; 65; 131; 206; 49; 13; 99; 181; 58; 187; 158; 240; 248; 87; 87; 83; 238; 211; 110; 1; 24; 249; 206].
