(* ===== verification/Poseidon2Facts.v ===== *)
(** * Facts about the Poseidon2 permutation

    The permutation never panics on the state sizes the system uses and yields a
    state of the same size; it reads of the constants table only the rows of the
    full rounds and the first column of the partial rounds; and it commutes with
    homomorphisms of the field operations, which lets it be evaluated on machine
    integers at the end of this file. *)

From Bignums Require Import BigN.BigN.
From S2P Require Import Prelude Ints Amounts Poseidon2 Poseidon2Tables.

(** ** Totality *)

Section total.
Context {F : Type} `{PrimeField F}.

(** A property of every sum: the permutation's output has it throughout. *)
Context (Q : F -> Prop) (Q_add : forall a b, Q (f_add a b)).

(** The parameter sets in use: a state of 2, 3 or 4 elements, the degree-5 S-box,
    and tables of the right shape. *)
Definition wf_params (ps : Poseidon2Params F) : bool :=
  bool_decide ((ps.(t) = 2 \/ ps.(t) = 3 \/ ps.(t) = 4)%nat) &&
  bool_decide (ps.(d) = 5%nat) &&
  bool_decide (ps.(rounds_f_div_2) + ps.(rounds_p) <= ps.(rounds))%nat &&
  bool_decide (length ps.(round_constants) = ps.(rounds)) &&
  forallb (fun '(r, row) =>
             bool_decide (length row = ps.(t)) ||
             (bool_decide (row <> []) && bool_decide (ps.(rounds_f_div_2) <= r < ps.(rounds_f_div_2) + ps.(rounds_p))%nat))
          (imap pair ps.(round_constants)) &&
  bool_decide (length ps.(mat_internal_diag_m_1) = ps.(t)).

Lemma sbox_5 l : sbox 5 l = Some ((fun x => f_mul (square_in_place (square_in_place x)) x) <$> l).
Proof. unfold sbox. induction l as [|x l IH]; cbn; [done |]. cbn in IH. by rewrite IH. Qed.

Lemma matmul_external_total n l :
  (n = 2 \/ n = 3 \/ n = 4)%nat -> length l = n ->
  exists l', matmul_external n l = Some l' /\ length l' = n /\ Forall Q l'.
Proof.
  intros [-> | [-> | ->]] Hl.
  all: repeat (destruct l as [|? l]; try discriminate Hl).
  all: eexists; repeat split; repeat constructor; apply Q_add.
Qed.

Lemma matmul_internal_total n l dg :
  (n = 2 \/ n = 3 \/ n = 4)%nat -> length l = n -> length dg = n ->
  exists l', matmul_internal n l dg = Some l' /\ length l' = n /\ Forall Q l'.
Proof.
  intros [-> | [-> | ->]] Hl Hd.
  all: repeat (destruct l as [|? l]; try discriminate Hl); repeat (destruct dg as [|? dg]; try discriminate Hd).
  all: eexists; repeat split; repeat constructor; apply Q_add.
Qed.

Lemma wf_params_row ps r row :
  wf_params ps = true -> ps.(round_constants) !! r = Some row ->
  length row = ps.(t) \/
  (row <> [] /\ (ps.(rounds_f_div_2) <= r < ps.(rounds_f_div_2) + ps.(rounds_p))%nat).
Proof.
  intros (((((_ & _)%andb_true_iff & _)%andb_true_iff & _)%andb_true_iff & Hrows)%andb_true_iff & _)%andb_true_iff Hr.
  rewrite forallb_forall in Hrows. specialize (Hrows (r, row)).
  assert (In (r, row) (imap pair (ps.(round_constants)))) as Hin.
  { apply list_elem_of_In, list_elem_of_lookup. exists r. rewrite list_lookup_imap, Hr. done. }
  apply Hrows in Hin. apply orb_true_iff in Hin as [Hl%bool_decide_eq_true | Hl]; [by left | right].
  apply andb_true_iff in Hl as [H1%bool_decide_eq_true H2%bool_decide_eq_true]. done.
Qed.

Record wf_facts (ps : Poseidon2Params F) : Prop := {
  wf_t : (ps.(t) = 2 \/ ps.(t) = 3 \/ ps.(t) = 4)%nat;
  wf_d : ps.(d) = 5%nat;
  wf_split : (ps.(rounds_f_div_2) + ps.(rounds_p) <= ps.(rounds))%nat;
  wf_rows : length ps.(round_constants) = ps.(rounds);
  wf_diag : length ps.(mat_internal_diag_m_1) = ps.(t);
}.

Lemma wf_params_facts ps : wf_params ps = true -> wf_facts ps.
Proof.
  unfold wf_params. rewrite !andb_true_iff, !bool_decide_eq_true.
  intros (((((? & ?) & ?) & ?) & _) & ?). by constructor.
Qed.

Lemma full_round_total ps s r :
  wf_params ps = true -> length s = ps.(t) -> (r < ps.(rounds))%nat ->
  ~ (ps.(rounds_f_div_2) <= r < ps.(rounds_f_div_2) + ps.(rounds_p))%nat ->
  exists s', full_round ps s r = Some s' /\ length s' = ps.(t) /\ Forall Q s'.
Proof.
  intros Hwf Hs Hr Hnp. destruct (wf_params_facts ps Hwf) as [Ht Hd _ Hrc _].
  destruct (lookup_lt_is_Some_2 ps.(round_constants) r) as [row Hrow]; [lia |].
  destruct (wf_params_row ps r row Hwf Hrow) as [Hlen | [_ ?]]; [| lia].
  unfold full_round. rewrite Hrow. cbn [mbind option_bind]. rewrite Hd, sbox_5. cbn [mbind option_bind].
  apply matmul_external_total; [done |]. rewrite length_fmap. unfold add_rc. rewrite length_zip_with. lia.
Qed.

Lemma partial_round_total ps s r :
  wf_params ps = true -> length s = ps.(t) -> (r < ps.(rounds))%nat ->
  exists s', partial_round ps s r = Some s' /\ length s' = ps.(t) /\ Forall Q s'.
Proof.
  intros Hwf Hs Hr. destruct (wf_params_facts ps Hwf) as [Ht Hd _ Hrc Hdg].
  destruct (lookup_lt_is_Some_2 ps.(round_constants) r) as [row Hrow]; [lia |].
  assert (row <> []) as Hne.
  { destruct (wf_params_row ps r row Hwf Hrow) as [Hlen | [? _]]; [| done]. destruct row; simpl in *; [lia | done]. }
  unfold partial_round. rewrite Hrow. cbn [mbind option_bind].
  destruct row as [|c row]; [done |]. cbn [lookup list_lookup mbind option_bind].
  destruct s as [|x s]; [simpl in Hs; lia |]. rewrite Hd. cbn [sbox_p mbind option_bind].
  apply matmul_internal_total; done.
Qed.

Lemma run_rounds_total (P : list F -> Prop) f s rs :
  P s -> (forall s r, P s -> r ∈ rs -> exists s', f s r = Some s' /\ P s') ->
  exists s', run_rounds f s rs = Some s' /\ P s'.
Proof.
  unfold run_rounds. revert s. induction rs as [|r rs IH]; intros s Hs Hf; [by exists s |].
  destruct (Hf s r Hs) as (s1 & E1 & H1); [set_solver |]. cbn [foldl mbind option_bind]. rewrite E1.
  apply IH; [done |]. intros; apply Hf; [done | set_solver].
Qed.

Lemma permutation_total ps input :
  wf_params ps = true -> length input = ps.(t) ->
  exists out, permutation ps input = Some out /\ length out = ps.(t) /\ Forall Q out.
Proof.
  intros Hwf Hin. destruct (wf_params_facts ps Hwf) as [Ht Hd Hsplit Hrc _].
  unfold permutation. rewrite bool_decide_true by done.
  destruct (matmul_external_total ps.(t) input) as (s0 & -> & Hs0 & Qs0); [done | done |]. cbn [mbind option_bind].
  destruct (run_rounds_total (fun s => length s = ps.(t) /\ Forall Q s) (full_round ps) s0 (seq 0 ps.(rounds_f_div_2)))
    as (s1 & -> & Hs1); [done | |].
  { intros s r [Hs _] Hr%elem_of_seq. apply full_round_total; [done | done | lia | lia]. }
  cbn [mbind option_bind].
  destruct (run_rounds_total (fun s => length s = ps.(t) /\ Forall Q s) (partial_round ps) s1 (seq ps.(rounds_f_div_2) ps.(rounds_p)))
    as (s2 & -> & Hs2); [done | |].
  { intros s r [Hs _] Hr%elem_of_seq. apply partial_round_total; [done | done | lia]. }
  cbn [mbind option_bind].
  apply (run_rounds_total (fun s => length s = ps.(t) /\ Forall Q s)); [done |].
  intros s r [Hs _] Hr%elem_of_seq. apply full_round_total; [done | done | lia | lia].
Qed.

End total.

(** ** What the permutation reads of the constants *)

Section constants.
Context {F : Type} `{PrimeField F}.

(** Two tables that agree on the full rounds' rows and on the first constant of
    the partial rounds' rows. *)
Definition same_constants (rf rp : nat) (rc1 rc2 : list (list F)) : Prop :=
  forall r,
    if decide (rf <= r < rf + rp)%nat
    then (rc1 !! r ≫= fun row => row !! 0%nat) = (rc2 !! r ≫= fun row => row !! 0%nat)
    else rc1 !! r = rc2 !! r.

Definition with_constants (ps : Poseidon2Params F) (rc : list (list F)) : Poseidon2Params F :=
  {| t := ps.(t); d := ps.(d); rounds_f_div_2 := ps.(rounds_f_div_2); rounds_p := ps.(rounds_p);
     rounds := ps.(rounds); mat_internal_diag_m_1 := ps.(mat_internal_diag_m_1);
     mat_internal := ps.(mat_internal); round_constants := rc |}.

Lemma run_rounds_ext (f g : list F -> nat -> option (list F)) s rs :
  (forall s r, r ∈ rs -> f s r = g s r) -> run_rounds f s rs = run_rounds g s rs.
Proof.
  intros Hfg. unfold run_rounds. generalize (Some s). induction rs as [|r rs IH]; intros o; [done |].
  cbn [foldl]. assert ((s ← o; f s r) = (s ← o; g s r)) as ->.
  { destruct o; [| done]. apply Hfg. set_solver. }
  apply IH. intros; apply Hfg. set_solver.
Qed.

Lemma permutation_same_constants ps rc input :
  (ps.(rounds_f_div_2) + ps.(rounds_p) <= ps.(rounds))%nat ->
  same_constants ps.(rounds_f_div_2) ps.(rounds_p) ps.(round_constants) rc ->
  permutation (with_constants ps rc) input = permutation ps input.
Proof.
  intros Hsplit Hsame.
  assert (forall s r, ~ (ps.(rounds_f_div_2) <= r < ps.(rounds_f_div_2) + ps.(rounds_p))%nat ->
                      full_round (with_constants ps rc) s r = full_round ps s r) as Hfull.
  { intros s r Hr. unfold full_round. cbn. specialize (Hsame r). rewrite decide_False in Hsame by done.
    by rewrite Hsame. }
  assert (forall s r, (ps.(rounds_f_div_2) <= r < ps.(rounds_f_div_2) + ps.(rounds_p))%nat ->
                      partial_round (with_constants ps rc) s r = partial_round ps s r) as Hpart.
  { intros s r Hr. unfold partial_round. cbn. specialize (Hsame r). rewrite decide_True in Hsame by done.
    destruct (round_constants ps !! r) as [[|c1 row1]|], (rc !! r) as [[|c2 row2]|];
      simplify_eq/=; done. }
  unfold permutation. cbn [with_constants t rounds_f_div_2 rounds_p rounds]. destruct (bool_decide _); [| done].
  destruct (matmul_external _ input) as [s0|]; [| done]. cbn [mbind option_bind].
  rewrite (run_rounds_ext (full_round (with_constants ps rc)) (full_round ps) s0) by
    (intros ? ? ?%elem_of_seq; apply Hfull; lia).
  destruct (run_rounds (full_round ps) s0 _) as [s1|]; [| done]. cbn [mbind option_bind].
  rewrite (run_rounds_ext (partial_round (with_constants ps rc)) (partial_round ps) s1) by
    (intros ? ? ?%elem_of_seq; apply Hpart; lia).
  destruct (run_rounds (partial_round ps) s1 _) as [s2|]; [| done]. cbn [mbind option_bind].
  apply run_rounds_ext. intros ? ? ?%elem_of_seq. apply Hfull. lia.
Qed.

(** With a state of 2 or 3 elements the internal matrix is built in: the stored
    one is not read. *)
Definition with_matrices (ps : Poseidon2Params F) (diag : list F) (mat : list (list F)) : Poseidon2Params F :=
  {| t := ps.(t); d := ps.(d); rounds_f_div_2 := ps.(rounds_f_div_2); rounds_p := ps.(rounds_p);
     rounds := ps.(rounds); mat_internal_diag_m_1 := diag; mat_internal := mat;
     round_constants := ps.(round_constants) |}.

Lemma permutation_matrices ps diag mat input :
  (ps.(t) = 2 \/ ps.(t) = 3)%nat ->
  permutation (with_matrices ps diag mat) input = permutation ps input.
Proof.
  intros Ht.
  assert (forall s r, partial_round (with_matrices ps diag mat) s r = partial_round ps s r) as Hpart.
  { intros s r. unfold partial_round. cbn [with_matrices t d round_constants mat_internal_diag_m_1].
    by destruct Ht as [-> | ->]. }
  unfold permutation. cbn [with_matrices t rounds_f_div_2 rounds_p rounds]. destruct (bool_decide _); [| done].
  destruct (matmul_external _ input) as [s0|]; [| done]. cbn [mbind option_bind].
  change (full_round (with_matrices ps diag mat)) with (full_round ps).
  destruct (run_rounds (full_round ps) s0 _) as [s1|]; [| done]. cbn [mbind option_bind].
  by rewrite (run_rounds_ext _ (partial_round ps)) by (intros; apply Hpart).
Qed.

End constants.

(** ** Homomorphisms *)

Section hom.
Context {F G : Type} `{PrimeField F} `{PrimeField G} (phi : F -> G).
Hypothesis phi_add : forall a b, phi (f_add a b) = f_add (phi a) (phi b).
Hypothesis phi_mul : forall a b, phi (f_mul a b) = f_mul (phi a) (phi b).

Definition map_params (ps : Poseidon2Params F) : Poseidon2Params G :=
  {| t := ps.(t); d := ps.(d); rounds_f_div_2 := ps.(rounds_f_div_2); rounds_p := ps.(rounds_p);
     rounds := ps.(rounds); mat_internal_diag_m_1 := list_fmap F G phi ps.(mat_internal_diag_m_1);
     mat_internal := list_fmap _ _ (list_fmap F G phi) ps.(mat_internal);
     round_constants := list_fmap _ _ (list_fmap F G phi) ps.(round_constants) |}.

Ltac push_phi := cbn; unfold double_in_place, square_in_place; rewrite ?phi_add, ?phi_mul; try reflexivity.

Lemma sbox_p_hom n x : sbox_p n (phi x) = phi <$> sbox_p n x.
Proof. do 8 (destruct n as [|n]; [by push_phi |]). done. Qed.

Lemma sbox_hom n (l : list F) : sbox n (phi <$> l) = fmap (M:=list) phi <$> sbox n l.
Proof.
  unfold sbox. induction l as [|x l IH]; [done |]. rewrite fmap_cons. cbn [mapM].
  rewrite sbox_p_hom, IH. destruct (sbox_p n x); [| done]. cbn.
  by destruct (mapM (sbox_p n) l).
Qed.

Lemma add_rc_hom (l rc : list F) : add_rc (phi <$> l) (phi <$> rc) = phi <$> add_rc l rc.
Proof.
  unfold add_rc. revert rc. induction l as [|x l IH]; intros [|c rc]; [done.. |].
  rewrite !fmap_cons. cbn [zip_with]. rewrite IH, <- phi_add. done.
Qed.

Lemma matmul_external_hom n (l : list F) :
  (n = 2 \/ n = 3 \/ n = 4)%nat -> matmul_external n (phi <$> l) = fmap (M:=list) phi <$> matmul_external n l.
Proof.
  intros [-> | [-> | ->]].
  - destruct l as [|x0 [|x1 l]]; [done | done | push_phi].
  - destruct l as [|x0 [|x1 [|x2 l]]]; [done | done | done | push_phi].
  - destruct l as [|x0 [|x1 [|x2 [|x3 l]]]]; [done | done | done | done | push_phi].
Qed.

Lemma diag_rows_hom sum (l dg : list F) :
  diag_rows (phi sum) (phi <$> l) (phi <$> dg) = fmap (M:=list) phi <$> diag_rows sum l dg.
Proof.
  revert dg. induction l as [|x l IH]; intros [|m dg]; [done.. |].
  rewrite !fmap_cons. cbn [diag_rows]. rewrite IH. destruct (diag_rows sum l dg); [| done].
  push_phi.
Qed.

Lemma state_sum_hom n (l : list F) : state_sum n (phi <$> l) = phi <$> state_sum n l.
Proof.
  destruct l as [|x l]; [done |]. cbn. f_equal. rewrite <- fmap_take. generalize (take (n - 1) l) as l'.
  revert x. clear -phi_add. intros x l'. revert x. induction l' as [|y l' IH]; intros x; [done |].
  cbn. by rewrite <- phi_add, IH.
Qed.

Lemma matmul_internal_hom n (l dg : list F) :
  (n = 2 \/ n = 3 \/ n = 4)%nat ->
  matmul_internal n (phi <$> l) (phi <$> dg) = fmap (M:=list) phi <$> matmul_internal n l dg.
Proof.
  intros [-> | [-> | ->]].
  - destruct l as [|x0 [|x1 l]]; [done | done | push_phi].
  - destruct l as [|x0 [|x1 [|x2 l]]]; [done | done | done | push_phi].
  - unfold matmul_internal. rewrite state_sum_hom. destruct (state_sum 4 l); [| done].
    apply diag_rows_hom.
Qed.

Lemma map_params_rows ps r :
  round_constants (map_params ps) !! r = fmap (M:=list) phi <$> round_constants ps !! r.
Proof. apply (list_lookup_fmap (fmap (M:=list) phi)). Qed.

Lemma full_round_hom ps (s : list F) r :
  (ps.(t) = 2 \/ ps.(t) = 3 \/ ps.(t) = 4)%nat ->
  full_round (map_params ps) (phi <$> s) r = fmap (M:=list) phi <$> full_round ps s r.
Proof.
  intros Ht. unfold full_round. rewrite map_params_rows. cbn [map_params t d].
  destruct (round_constants ps !! r) as [rc|]; [| done]. cbn [fmap option_fmap option_map mbind option_bind].
  rewrite add_rc_hom, sbox_hom. destruct (sbox (d ps) (add_rc s rc)); [| done].
  by apply matmul_external_hom.
Qed.

Lemma partial_round_hom ps (s : list F) r :
  (ps.(t) = 2 \/ ps.(t) = 3 \/ ps.(t) = 4)%nat ->
  partial_round (map_params ps) (phi <$> s) r = fmap (M:=list) phi <$> partial_round ps s r.
Proof.
  intros Ht. unfold partial_round. rewrite map_params_rows. cbn [map_params t d mat_internal_diag_m_1].
  destruct (round_constants ps !! r) as [[|c rc]|]; [done | | done].
  cbn [fmap option_fmap option_map list_fmap mbind option_bind lookup list_lookup].
  destruct s as [|x s]; [done |]. cbn [fmap list_fmap]. rewrite <- phi_add, sbox_p_hom.
  destruct (sbox_p (d ps) (f_add x c)) as [y|]; [| done]. cbn [fmap option_fmap option_map mbind option_bind].
  exact (matmul_internal_hom (t ps) (y :: s) (mat_internal_diag_m_1 ps) Ht).
Qed.

Lemma run_rounds_hom (f : list F -> nat -> option (list F)) (g : list G -> nat -> option (list G)) s rs :
  (forall s r, g (phi <$> s) r = fmap (M:=list) phi <$> f s r) ->
  run_rounds g (phi <$> s) rs = fmap (M:=list) phi <$> run_rounds f s rs.
Proof.
  intros Hfg. unfold run_rounds. change (Some (phi <$> s)) with (fmap (M:=list) phi <$> Some s).
  generalize (Some s). induction rs as [|r rs IH]; intros o; [done |]. cbn [foldl].
  assert ((s ← fmap (M:=list) phi <$> o; g s r) = fmap (M:=list) phi <$> (s ← o; f s r)) as -> by (destruct o; [apply Hfg | done]).
  apply IH.
Qed.

Lemma permutation_hom ps (s : list F) :
  (ps.(t) = 2 \/ ps.(t) = 3 \/ ps.(t) = 4)%nat ->
  permutation (map_params ps) (phi <$> s) = fmap (M:=list) phi <$> permutation ps s.
Proof.
  intros Ht. unfold permutation. rewrite length_fmap. cbn [map_params t rounds_f_div_2 rounds_p rounds].
  destruct (bool_decide _); [| done]. rewrite matmul_external_hom by done.
  destruct (matmul_external (t ps) s) as [s0|]; [| done]. cbn [fmap option_fmap option_map mbind option_bind].
  rewrite (run_rounds_hom (full_round ps)) by (intros; by apply full_round_hom).
  destruct (run_rounds (full_round ps) s0 _) as [s1|]; [| done]. cbn [fmap option_fmap option_map mbind option_bind].
  rewrite (run_rounds_hom (partial_round ps)) by (intros; by apply partial_round_hom).
  destruct (run_rounds (partial_round ps) s1 _) as [s2|]; [| done]. cbn [fmap option_fmap option_map mbind option_bind].
  apply run_rounds_hom. intros; by apply full_round_hom.
Qed.

End hom.

(** ** Evaluation

    The permutation over [BigN] machine integers, related to the one over residues by
    [permutation_hom]: a ground hash value is computed on the former and stated on the latter. *)

Definition big_p : BigN.t := Eval vm_compute in BigN.of_N (Z.to_N BN_P).

#[export] Instance BigField : PrimeField BigN.t := {|
  f_zero := BigN.zero;
  f_add a b := BigN.modulo (BigN.add a b) big_p;
  f_mul a b := BigN.modulo (BigN.mul a b) big_p;
|}.

Definition big_of_Z (z : Z) : BigN.t := BigN.of_N (Z.to_N z).

Definition big_params (ps : Poseidon2Params Z) : Poseidon2Params BigN.t := map_params big_of_Z ps.

(** Every constant of the tables is a natural number. *)
Definition nonneg_params (ps : Poseidon2Params Z) : bool :=
  forallb (Z.leb 0) ps.(mat_internal_diag_m_1) &&
  forallb (forallb (Z.leb 0)) ps.(mat_internal) &&
  forallb (forallb (Z.leb 0)) ps.(round_constants).

Lemma big_p_spec : BigN.to_Z big_p = BN_P.
Proof. reflexivity. Qed.

Lemma big_of_Z_spec z : 0 <= z -> BigN.to_Z (big_of_Z z) = z.
Proof. intros. unfold big_of_Z. rewrite BigN.spec_of_N. lia. Qed.

Lemma big_add_spec a b : BigN.to_Z (f_add a b) = f_add (BigN.to_Z a) (BigN.to_Z b).
Proof. cbn [f_add BigField ZField]. by rewrite BigN.spec_modulo, BigN.spec_add, big_p_spec. Qed.

Lemma big_mul_spec a b : BigN.to_Z (f_mul a b) = f_mul (BigN.to_Z a) (BigN.to_Z b).
Proof. cbn [f_mul BigField ZField]. by rewrite BigN.spec_modulo, BigN.spec_mul, big_p_spec. Qed.

Lemma big_row_spec l : forallb (Z.leb 0) l = true -> BigN.to_Z <$> (big_of_Z <$> l) = l.
Proof.
  induction l as [|z l IH]; [done |]. cbn [forallb]. intros [Hz%Z.leb_le Hl]%andb_true_iff.
  rewrite !fmap_cons, IH by done. by rewrite big_of_Z_spec.
Qed.

Lemma big_rows_spec l :
  forallb (forallb (Z.leb 0)) l = true ->
  fmap (M:=list) BigN.to_Z <$> (fmap (M:=list) big_of_Z <$> l) = l.
Proof.
  induction l as [|z l IH]; [done |]. cbn [forallb]. intros [Hz Hl]%andb_true_iff.
  rewrite !fmap_cons, IH by done. by rewrite big_row_spec.
Qed.

Lemma big_params_spec ps : nonneg_params ps = true -> map_params BigN.to_Z (big_params ps) = ps.
Proof.
  unfold nonneg_params. rewrite !andb_true_iff. intros [[Hd Hm] Hr].
  destruct ps as [? ? ? ? ? diag mat rc]. unfold big_params, map_params. cbn in *. f_equal.
  - by apply big_row_spec.
  - by apply big_rows_spec.
  - by apply big_rows_spec.
Qed.

Definition big_permutation (ps : Poseidon2Params Z) (l : list Z) : option (list Z) :=
  fmap (M:=list) BigN.to_Z <$> permutation (big_params ps) (big_of_Z <$> l).

Lemma permutation_eval ps l :
  (ps.(t) = 2 \/ ps.(t) = 3 \/ ps.(t) = 4)%nat -> nonneg_params ps = true -> forallb (Z.leb 0) l = true ->
  permutation ps l = big_permutation ps l.
Proof.
  intros Ht Hps Hl. unfold big_permutation.
  rewrite <- (permutation_hom BigN.to_Z big_add_spec big_mul_spec) by done.
  by rewrite big_params_spec, big_row_spec.
Qed.
