(* ===== verification/Hashes.v ===== *)
(** * The hash functions of the system

    The Poseidon2 modes the prover and the circuits crate use
    ([sdk/prover/src/crypto.rs], [circuits/src/core/merkle.rs]) and the ones the
    contracts use ([contracts/soroban-utils/src/poseidon2.rs]).  The contracts call
    the permutation of the Soroban host, a parameter here ([HostPoseidon2]) with
    its documented behaviour as a law; [None] is a panic, which in a contract traps
    the invocation. *)

From S2P Require Import Prelude Ints Amounts Poseidon2 Poseidon2Tables Poseidon2Facts.

(** ** The crate's hashes *)

(** [Poseidon2::new(&PARAMS).permutation(&input)]. *)
Definition permute (params : option (Poseidon2Params Z)) (input : list Z) : option (list Z) :=
  ps ← params; permutation ps input.

Definition poseidon2_compression (left right : Z) : option Z :=
  let input := [left; right] in
  perm ← permute POSEIDON2_BN256_PARAMS_2 input;
  p0 ← perm !! 0%nat;
  i0 ← input !! 0%nat;
  Some (f_add p0 i0).

Definition poseidon2_hash2_internal (a b : Z) (domain : option Z) : option Z :=
  let input := match domain with Some d => [a; b; d] | None => [a; b; 0] end in
  perm ← permute POSEIDON2_BN256_PARAMS_3 input;
  perm !! 0%nat.

Definition poseidon2_hash3_internal (a b c : Z) (domain : option Z) : option Z :=
  let input := match domain with Some d => [a; b; c; d] | None => [a; b; c; 0] end in
  perm ← permute POSEIDON2_BN256_PARAMS_4 input;
  perm !! 0%nat.

Definition derive_public_key_internal (private_key : Z) : option Z :=
  poseidon2_hash2_internal private_key 0 (Some 3).

(** ** The host's permutation *)

Class HostPoseidon2 : Type :=
  host_poseidon2_permutation :
    forall (input : list Z) (field : string) (t d rounds_f rounds_p : nat)
           (mat_internal_diag_m_1 : list Z) (round_constants : list (list Z)), option (list Z).

(** What the contracts rely on: with the internal-matrix diagonals of the two state
    sizes they use, the host computes the Poseidon2 permutation over BN254 with the
    round constants it is given. *)
Class HostPoseidon2Laws (host : HostPoseidon2) : Prop := {
  host_t2 : forall input rounds_f rounds_p rc,
    Forall in_field input ->
    host input "BN254" 2%nat 5%nat rounds_f rounds_p [1; 2] rc =
    permute (Poseidon2Params_new 2 5 rounds_f rounds_p [1; 2] [] rc) input;
  host_t3 : forall input rounds_f rounds_p rc,
    Forall in_field input ->
    host input "BN254" 3%nat 5%nat rounds_f rounds_p [1; 1; 2] rc =
    permute (Poseidon2Params_new 3 5 rounds_f rounds_p [1; 1; 2] [] rc) input;
}.

(** A host: the crate's permutation. *)
Definition ref_host_poseidon2 : HostPoseidon2 :=
  fun input field t d rounds_f rounds_p diag rc =>
    if bool_decide (field = "BN254") then
      permute (Poseidon2Params_new t d rounds_f rounds_p diag [] rc) input
    else None.

#[export] Instance ref_host_poseidon2_laws : HostPoseidon2Laws ref_host_poseidon2.
Proof. split; intros; unfold ref_host_poseidon2; by rewrite bool_decide_true. Qed.

(** ** The contracts' hashes *)

Section contract_hashes.
Context {host : HostPoseidon2}.

Definition poseidon2_compress (left right : Z) : option Z :=
  let bn256_mod := bn256_modulus in
  if (bn256_mod <=? left) || (bn256_mod <=? right) then None
  else
    out ← host_poseidon2_permutation [left; right] "BN254" 2 5 8 56 [1; 2] get_round_constants_t2;
    out_0 ← out !! 0%nat;
    compressed_0 ← u256_add out_0 left;
    if bn256_mod <=? compressed_0 then u256_rem_euclid compressed_0 bn256_mod
    else Some compressed_0.

Definition poseidon2_hash2 (a b : Z) (sep : option Z) : option Z :=
  let bn256_mod := bn256_modulus in
  let sep := default 0 sep in
  if (bn256_mod <=? a) || (bn256_mod <=? b) || (bn256_mod <=? sep) then None
  else
    out ← host_poseidon2_permutation [a; b; sep] "BN254" 3 5 8 56 [1; 1; 2] get_round_constants_t3;
    out !! 0%nat.

End contract_hashes.

(** ** The parameter sets *)

Definition params_2 : Poseidon2Params Z :=
  {| t := 2; d := 5; rounds_f_div_2 := 4; rounds_p := 56; rounds := 64;
     mat_internal_diag_m_1 := MAT_DIAG2_M_1; mat_internal := MAT_INTERNAL2; round_constants := RC2 |}.
Definition params_3 : Poseidon2Params Z :=
  {| t := 3; d := 5; rounds_f_div_2 := 4; rounds_p := 56; rounds := 64;
     mat_internal_diag_m_1 := MAT_DIAG3_M_1; mat_internal := MAT_INTERNAL3; round_constants := RC3 |}.
Definition params_4 : Poseidon2Params Z :=
  {| t := 4; d := 5; rounds_f_div_2 := 4; rounds_p := 56; rounds := 64;
     mat_internal_diag_m_1 := MAT_DIAG4_M_1; mat_internal := MAT_INTERNAL4; round_constants := RC4 |}.

Lemma PARAMS_2_new : POSEIDON2_BN256_PARAMS_2 = Some params_2.
Proof. reflexivity. Qed.
Lemma PARAMS_3_new : POSEIDON2_BN256_PARAMS_3 = Some params_3.
Proof. reflexivity. Qed.
Lemma PARAMS_4_new : POSEIDON2_BN256_PARAMS_4 = Some params_4.
Proof. reflexivity. Qed.

Lemma params_2_wf : wf_params params_2 = true.
Proof. vm_compute. reflexivity. Qed.
Lemma params_3_wf : wf_params params_3 = true.
Proof. vm_compute. reflexivity. Qed.
Lemma params_4_wf : wf_params params_4 = true.
Proof. vm_compute. reflexivity. Qed.

Lemma bn256_modulus_p : bn256_modulus = BN_P.
Proof. vm_compute. reflexivity. Qed.

(** ** The contracts' tables

    The two tables as the contracts embed them against the crate's. *)

Definition same_constants_b (rf rp : nat) (rc1 rc2 : list (list Z)) : bool :=
  bool_decide (length rc1 = length rc2) &&
  forallb (fun '(r, (row1, row2)) =>
             if bool_decide (rf <= r < rf + rp)%nat
             then bool_decide (head row1 = head row2) else bool_decide (row1 = row2))
          (imap pair (zip rc1 rc2)).

Lemma same_constants_b_spec rf rp rc1 rc2 :
  same_constants_b rf rp rc1 rc2 = true -> same_constants rf rp rc1 rc2.
Proof.
  unfold same_constants_b, same_constants.
  intros [Hlen%bool_decide_eq_true Hall]%andb_true_iff r. rewrite forallb_forall in Hall.
  destruct (rc1 !! r) as [row1|] eqn:E1.
  - destruct (lookup_lt_is_Some_2 rc2 r) as [row2 E2].
    { rewrite <- Hlen. by eapply lookup_lt_Some. }
    specialize (Hall (r, (row1, row2))). rewrite E2. cbn [mbind option_bind].
    assert (In (r, (row1, row2)) (imap pair (zip rc1 rc2))) as Hin%Hall.
    { apply list_elem_of_In, list_elem_of_lookup. exists r. rewrite list_lookup_imap.
      assert (zip rc1 rc2 !! r = Some (row1, row2)) as -> by (apply lookup_zip_with_Some; eauto). done. }
    cbv beta iota in Hin. destruct (decide (rf <= r < rf + rp)%nat) as [Hr|Hr].
    + rewrite (bool_decide_true _ Hr), bool_decide_eq_true in Hin. by destruct row1, row2.
    + rewrite (bool_decide_false _ Hr), bool_decide_eq_true in Hin. by rewrite Hin.
  - rewrite (proj2 (lookup_ge_None rc2 r)) by (rewrite <- Hlen; by apply lookup_ge_None).
    by case_decide.
Qed.

Lemma contract_t2_same : same_constants 4 56 get_round_constants_t2 RC2.
Proof. apply same_constants_b_spec. vm_compute. reflexivity. Qed.

Lemma contract_t3_eq : get_round_constants_t3 = RC3.
Proof. vm_compute. reflexivity. Qed.

(** ** Totality of the crate's hashes *)

Lemma permutation_field ps input :
  wf_params ps = true -> length input = ps.(t) ->
  exists out, permutation ps input = Some out /\ length out = ps.(t) /\ Forall in_field out.
Proof. apply permutation_total. intros. apply in_field_mod. Qed.

Lemma permute_field ps input n :
  wf_params ps = true -> ps.(t) = S n -> length input = S n ->
  exists x rest, permutation ps input = Some (x :: rest) /\ in_field x.
Proof.
  intros Hwf Ht Hl. destruct (permutation_field ps input Hwf) as (out & E & Hlen & Hf); [congruence |].
  destruct out as [|x rest]; [simpl in *; congruence |]. inversion Hf; subst. eauto.
Qed.

Lemma poseidon2_compression_total l r : exists h, poseidon2_compression l r = Some h /\ in_field h.
Proof.
  unfold poseidon2_compression, permute. rewrite PARAMS_2_new. cbn [mbind option_bind].
  destruct (permute_field params_2 [l; r] 1 params_2_wf) as (x & rest & -> & Hx); [done | done |].
  cbn [mbind option_bind lookup list_lookup]. eexists; split; [reflexivity | apply in_field_mod].
Qed.

Lemma poseidon2_hash2_internal_total a b s :
  exists h, poseidon2_hash2_internal a b s = Some h /\ in_field h.
Proof.
  unfold poseidon2_hash2_internal, permute. rewrite PARAMS_3_new. cbn [mbind option_bind].
  destruct (permute_field params_3 (match s with Some d => [a; b; d] | None => [a; b; 0] end) 2
              params_3_wf) as (x & rest & -> & Hx); [done | by destruct s |].
  eexists; split; [reflexivity | done].
Qed.

Lemma poseidon2_hash3_internal_total a b c s :
  exists h, poseidon2_hash3_internal a b c s = Some h /\ in_field h.
Proof.
  unfold poseidon2_hash3_internal, permute. rewrite PARAMS_4_new. cbn [mbind option_bind].
  destruct (permute_field params_4 (match s with Some d => [a; b; c; d] | None => [a; b; c; 0] end) 3
              params_4_wf) as (x & rest & -> & Hx); [done | by destruct s |].
  eexists; split; [reflexivity | done].
Qed.

(** ** Contract and crate agree *)

Section agreement.
Context {host : HostPoseidon2} {laws : HostPoseidon2Laws host}.

Lemma poseidon2_compress_field l r :
  in_field l -> in_field r -> poseidon2_compress l r = poseidon2_compression l r.
Proof.
  intros Hl Hr. unfold poseidon2_compress, host_poseidon2_permutation. rewrite bn256_modulus_p.
  rewrite (proj2 (Z.leb_gt _ _)), (proj2 (Z.leb_gt _ _)) by (unfold in_field in *; lia). cbn [orb].
  rewrite host_t2 by (repeat constructor; apply Hl || apply Hr).
  unfold poseidon2_compression, permute. rewrite PARAMS_2_new.
  change (Poseidon2Params_new 2 5 8 56 [1; 2] [] get_round_constants_t2) with
    (Some (with_constants (with_matrices params_2 [1; 2] []) get_round_constants_t2)).
  cbn [mbind option_bind].
  rewrite permutation_same_constants, permutation_matrices; [| by left | cbn; lia |].
  2: { intros i. pose proof (contract_t2_same i) as Hi.
       cbn [rounds_f_div_2 rounds_p round_constants with_matrices params_2].
       destruct (decide (4 <= i < 4 + 56)%nat); congruence. }
  destruct (permute_field params_2 [l; r] 1 params_2_wf) as (x & rest & -> & Hx); [done | done |].
  cbn [mbind option_bind lookup list_lookup f_add ZField]. unfold u256_add, in_field in *.
  pose proof BN_P_lt_2_254. assert (2 ^ 256 = 4 * 2 ^ 254) by reflexivity.
  rewrite (proj2 (try_into_u_Some 256 (x + l) (x + l))) by lia. cbn [mbind option_bind].
  case_if; [unfold u256_rem_euclid; by case_if |]. by rewrite Z.mod_small by lia.
Qed.

Lemma poseidon2_compress_trap l r :
  BN_P <= l \/ BN_P <= r -> poseidon2_compress l r = None.
Proof.
  intros Hlr. unfold poseidon2_compress. rewrite bn256_modulus_p. case_if; [done | lia].
Qed.

Lemma poseidon2_hash2_field a b s :
  in_field a -> in_field b -> in_field (default 0 s) ->
  poseidon2_hash2 a b s = poseidon2_hash2_internal a b s.
Proof.
  intros Ha Hb Hs. unfold poseidon2_hash2, host_poseidon2_permutation. rewrite bn256_modulus_p.
  rewrite !(proj2 (Z.leb_gt _ _)) by (unfold in_field in *; lia). cbn [orb].
  rewrite host_t3 by (repeat constructor; try apply Ha; try apply Hb; apply Hs).
  unfold poseidon2_hash2_internal, permute. rewrite PARAMS_3_new, contract_t3_eq.
  change (Poseidon2Params_new 3 5 8 56 [1; 1; 2] [] RC3) with (Some (with_matrices params_3 [1; 1; 2] [])).
  cbn [mbind option_bind]. rewrite permutation_matrices by (by right). by destruct s.
Qed.

Lemma poseidon2_hash2_trap a b s :
  BN_P <= a \/ BN_P <= b \/ BN_P <= default 0 s -> poseidon2_hash2 a b s = None.
Proof.
  intros Hlr. unfold poseidon2_hash2. rewrite bn256_modulus_p. case_if; [done | lia].
Qed.

End agreement.

(** ** Ground values *)

Definition head_is (o : option (list Z)) (f : Z -> Z) (h : Z) : bool :=
  match o with Some (x :: _) => f x =? h | _ => false end.

(** [zeros[i + 1]] is the compression of [zeros[i]] with itself. *)
Definition chain_step_b (z z' : Z) : bool :=
  head_is (big_permutation params_2 [z; z]) (fun x => (x + z) mod BN_P) z'.

Lemma params_2_nonneg : nonneg_params params_2 = true.
Proof. vm_compute. reflexivity. Qed.
Lemma params_4_nonneg : nonneg_params params_4 = true.
Proof. vm_compute. reflexivity. Qed.

Lemma chain_step_b_spec z z' :
  in_field z -> chain_step_b z z' = true -> poseidon2_compression z z = Some z'.
Proof.
  intros Hz. unfold chain_step_b, head_is, poseidon2_compression, permute. rewrite PARAMS_2_new.
  cbn [mbind option_bind].
  rewrite (permutation_eval params_2 [z; z] (or_introl eq_refl) params_2_nonneg).
  2: { cbn. unfold in_field in Hz. rewrite (proj2 (Z.leb_le 0 z)) by lia. done. }
  destruct (big_permutation params_2 [z; z]) as [[|x rest]|]; [done | | done].
  intros <-%Z.eqb_eq. done.
Qed.

Definition chain_b (zs : list Z) : bool :=
  forallb (fun '(z, z') => bool_decide (in_field z) && chain_step_b z z') (zip zs (tail zs)).

Lemma chain_b_spec zs i z z' :
  chain_b zs = true -> zs !! i = Some z -> zs !! S i = Some z' -> poseidon2_compression z z = Some z'.
Proof.
  intros Hc Hz Hz'. unfold chain_b in Hc. rewrite forallb_forall in Hc.
  assert (In (z, z') (zip zs (tail zs))) as Hin.
  { apply list_elem_of_In, list_elem_of_lookup. exists i. apply lookup_zip_with_Some. exists z, z'.
    rewrite lookup_tail. done. }
  apply Hc, andb_true_iff in Hin as [Hf%bool_decide_eq_true Hs]. by apply chain_step_b_spec.
Qed.

Lemma get_zeroes_chain : chain_b get_zeroes = true.
Proof. vm_compute. reflexivity. Qed.

Lemma zero_leaf_hash : poseidon2_hash3_internal 88 76 77 None = Some (u256_from_be_bytes ZERO_LEAF_BYTES).
Proof.
  unfold poseidon2_hash3_internal, permute. rewrite PARAMS_4_new. cbn [mbind option_bind].
  rewrite (permutation_eval params_4 [88; 76; 77; 0] (or_intror (or_intror eq_refl)) params_4_nonneg eq_refl).
  vm_compute. reflexivity.
Qed.

(** ** The prover's byte interface ([serialization.rs], [crypto.rs]) *)

Definition FIELD_SIZE : nat := 32.

(** Every [anyhow] error of the prover crate, by its message. *)
Inductive ProverError : Type :=
| ExpectedBytes (got : nat)            (** "Expected {} bytes, got {}" *)
| ExpectedFieldBytes                   (** "asp_membership_leaf: expected 32 bytes" *)
| FieldError (e : AmountError)         (** an error of the amount types *)
(* serialization.rs *)
| HexTooLong                           (** "Hex string too long" *)
| InvalidHexCharacter                  (** "Invalid hex character" *)
| IndexOverflow                        (** "Index overflow" *)
| WitnessLength (got : nat)            (** "Witness bytes length {} is not a multiple of {}" *)
| InvalidWitnessLength                 (** "Invalid witness bytes length" *)
| WitnessCountOverflow                 (** "Witness count exceeds u32" *)
| InvalidDecimal                       (** "Invalid decimal string" *)
(* encryption.rs *)
| SignatureLength                      (** "Signature must be 64 bytes (Ed25519)" *)
| RandomFailed                         (** "Random generation failed: {}" *)
| EphemeralKeyFailed                   (** "Failed to generate ephemeral key: {}" *)
| NonceFailed                          (** "Failed to generate nonce: {}" *)
| RecipientKeyLength                   (** "Recipient public key must be 32 bytes" *)
| PlaintextLength                      (** "Plaintext must be 48 bytes (16 amount + 32 blinding)" *)
| EncryptionFailed                     (** "Encryption failed: {:?}" *)
| PrivateKeyLength                     (** "Private key must be 32 bytes" *)
| EncryptedTooShort                    (** "Encrypted data too short" *)
| DecryptedLength (got : nat)          (** "Decrypted plaintext must be 48 bytes, got {}" *)
| ArrayLength (what : string) (got : nat) (** "{what}: expected 32 bytes, got {}" *)
(* flows.rs *)
| TreeDepthZero                        (** "tree_depth must be > 0" *)
| SmtDepthZero                         (** "smt_depth must be > 0" *)
| MembershipPathLength (expected got : nat)
| SiblingsLength (expected got : nat)
| TooManyOutputs (got : nat)
| TooManyInputs (got : nat)
| InputSumOverflow                     (** "overflow summing input amounts" *)
| OutputSumOverflow                    (** "overflow summing output amounts" *)
| LhsOverflow                          (** "overflow computing note amount LHS" *)
| RhsOverflow                          (** "overflow computing note amount RHS" *)
| NegationOverflow                     (** "public amount negation overflow" *)
| NotBalanced (inputs public outputs : Z) (** "not balanced: inputs({}) + public({}) != outputs({})" *)
| InputPathLength (i expected got : nat)
| RecipientKeyPairing (i : nat)        (** "... must be both set or both unset" *)
| InsufficientInput (have need : Z)    (** "insufficient input amount: have {}, need {}" *)
| InsufficientInputAmount              (** "insufficient input amount" *)
| WithdrawOverflow                     (** "withdraw amount overflow" *)
| ExtDataHashFailed.                   (** the caller's [hash_ext_data] *)

Definition bytes_to_prime_field (b : bytes) : result ProverError Z :=
  if negb (bool_decide (length b = FIELD_SIZE)) then Err (ExpectedBytes (length b))
  else Ok (le_value b mod BN_P).

Definition bytes_to_scalar : bytes -> result ProverError Z := bytes_to_prime_field.

(** [into_bigint().to_bytes_le()] of a 256-bit element is 32 bytes long; [None] is
    the panic of the length check. *)
Definition prime_field_to_bytes (f : Z) : option bytes :=
  let src := le_bytes 32 f in
  if (FIELD_SIZE <? length src)%nat then None
  else Some (src ++ replicate (FIELD_SIZE - length src) 0).

Definition scalar_to_bytes : Z -> option bytes := prime_field_to_bytes.

(** A panic inside a fallible function: the outer [option]. *)
Definition hash_bytes (h : option Z) : option (result ProverError bytes) :=
  x ← h; b ← scalar_to_bytes x; Some (Ok b).

Definition prover_poseidon2_hash2 (input0 input1 : bytes) (domain_separation : Z)
  : option (result ProverError bytes) :=
  match bytes_to_scalar input0 with
  | Err e => Some (Err e)
  | Ok a =>
      match bytes_to_scalar input1 with
      | Err e => Some (Err e)
      | Ok b => hash_bytes (poseidon2_hash2_internal a b (Some domain_separation))
      end
  end.

Definition derive_public_key (private_key : bytes) : option (result ProverError bytes) :=
  match bytes_to_scalar private_key with
  | Err e => Some (Err e)
  | Ok sk => hash_bytes (derive_public_key_internal sk)
  end.

(** [compute_commitment], [compute_signature] and [compute_nullifier]: three scalars
    and a domain tag. *)
Definition hash3_bytes (a b c : bytes) (domain : Z) : option (result ProverError bytes) :=
  match bytes_to_scalar a, bytes_to_scalar b, bytes_to_scalar c with
  | Err e, _, _ | Ok _, Err e, _ | Ok _, Ok _, Err e => Some (Err e)
  | Ok a, Ok b, Ok c => hash_bytes (poseidon2_hash3_internal a b c (Some domain))
  end.

Definition compute_commitment (amount public_key blinding : bytes) := hash3_bytes amount public_key blinding 1.
Definition compute_signature (private_key commitment merkle_path : bytes) := hash3_bytes private_key commitment merkle_path 4.
Definition compute_nullifier (commitment path_indices signature : bytes) := hash3_bytes commitment path_indices signature 2.

Definition asp_membership_leaf (note_pubkey : bytes) (membership_blinding : Field)
  : option (result ProverError Field) :=
  r ← prover_poseidon2_hash2 note_pubkey (Field_to_le_bytes membership_blinding) 1;
  match r with
  | Err e => Some (Err e)
  | Ok leaf_le =>
      if bool_decide (length leaf_le = 32%nat)
      then Some (map_err FieldError (Field_try_from_le_bytes leaf_le))
      else Some (Err ExpectedFieldBytes)
  end.

Lemma scalar_to_bytes_spec f : scalar_to_bytes f = Some (le_bytes 32 f).
Proof.
  unfold scalar_to_bytes, prime_field_to_bytes. rewrite length_le_bytes. cbn [Nat.ltb Nat.leb Nat.sub FIELD_SIZE replicate].
  by rewrite app_nil_r.
Qed.

Lemma bytes_to_scalar_len b :
  length b = 32%nat -> bytes_to_scalar b = Ok (le_value b mod BN_P).
Proof. intros Hb. unfold bytes_to_scalar, bytes_to_prime_field. by rewrite bool_decide_true. Qed.

Lemma bytes_to_scalar_le f : in_field f -> bytes_to_scalar (le_bytes 32 f) = Ok f.
Proof.
  intros Hf. rewrite bytes_to_scalar_len by apply length_le_bytes.
  rewrite le_value_bytes, pow_256_32, (Z.mod_small f) by (by apply in_field_u256).
  by rewrite Z.mod_small.
Qed.

(** ** Properties *)

(** C40. The contracts' Merkle compression and their two-input hash are the prover's
    ([poseidon2_compression], [poseidon2_hash2_internal]) on canonical inputs, where
    they return a canonical element; the hash and the compression trap when any of their inputs or the
    domain separator is not below the modulus.  This holds although the embedded constant table for two elements
    is not the crate's table. *)
Theorem contract_hashes_agree (host : HostPoseidon2) (laws : HostPoseidon2Laws host) (a b : Z) (sep : option Z) :
  in_field a -> in_field b -> in_field (default 0 sep) ->
  (exists h, poseidon2_compress a b = Some h /\ poseidon2_compression a b = Some h /\ in_field h) /\
  (exists h, poseidon2_hash2 a b sep = Some h /\ poseidon2_hash2_internal a b sep = Some h /\ in_field h) /\
  (forall x y, BN_P <= x -> poseidon2_compress y x = None /\ poseidon2_compress x y = None /\
     forall s, poseidon2_hash2 x y s = None /\ poseidon2_hash2 y x s = None /\ poseidon2_hash2 y a (Some x) = None) /\
  get_round_constants_t2 <> RC2.
Proof.
  intros Ha Hb Hs. split_and!.
  - rewrite poseidon2_compress_field by done. destruct (poseidon2_compression_total a b) as (h & ? & ?); eauto.
  - rewrite poseidon2_hash2_field by done. destruct (poseidon2_hash2_internal_total a b sep) as (h & ? & ?); eauto.
  - intros x y Hx. split; [apply poseidon2_compress_trap; by right |]. split; [apply poseidon2_compress_trap; by left |].
    intros s. split_and!; apply poseidon2_hash2_trap; cbn; auto.
  - intros E. assert (get_round_constants_t2 !! 29%nat = RC2 !! 29%nat) as E29 by by rewrite E.
    vm_compute in E29. discriminate E29.
Qed.

Lemma contract_hashes_agree_witness :
  exists h, poseidon2_compress (host := ref_host_poseidon2) 5 7 = Some h /\ poseidon2_compression 5 7 = Some h.
Proof.
  destruct (contract_hashes_agree ref_host_poseidon2 ref_host_poseidon2_laws 5 7 (Some 1))
    as ((h & H1 & H2 & _) & _); [vm_compute; split; congruence .. |]. exact (ex_intro _ h (conj H1 H2)).
Defined.

(** The table of empty-subtree hashes has an entry for each of the levels 0 to
    32: entry 0 is the Poseidon2 hash of "XLM" (88, 76, 77) and the prover's zero
    leaf, and each next entry is the compression of the previous one with itself,
    as computed by the contracts and by the prover. *)
Theorem zero_hashes_chain (host : HostPoseidon2) (laws : HostPoseidon2Laws host) :
  length get_zeroes = 33%nat /\
  get_zeroes !! 0%nat = Some (u256_from_be_bytes ZERO_LEAF_BYTES) /\
  poseidon2_hash3_internal 88 76 77 None = get_zeroes !! 0%nat /\
  (forall i, (i < 32)%nat -> exists z z',
     get_zeroes !! i = Some z /\ get_zeroes !! S i = Some z' /\ in_field z /\ in_field z' /\
     poseidon2_compress z z = Some z' /\ poseidon2_compression z z = Some z').
Proof.
  split_and!; [reflexivity | reflexivity | rewrite zero_leaf_hash; reflexivity |]. intros i Hi.
  destruct (lookup_lt_is_Some_2 get_zeroes i) as [z Hz]; [cbn; lia |].
  destruct (lookup_lt_is_Some_2 get_zeroes (S i)) as [z' Hz']; [cbn; lia |].
  assert (Forall in_field get_zeroes) as Hall.
  { apply (bool_decide_eq_true (Forall in_field get_zeroes)). vm_compute. reflexivity. }
  rewrite Forall_lookup in Hall.
  pose proof (chain_b_spec get_zeroes i z z' get_zeroes_chain Hz Hz') as Hc.
  exists z, z'. split_and!; [done | done | by eapply Hall | by eapply Hall | | done].
  rewrite poseidon2_compress_field; [done | by eapply Hall | by eapply Hall].
Qed.

Lemma zero_hashes_chain_witness : length get_zeroes = 33%nat.
Proof. apply (zero_hashes_chain ref_host_poseidon2 ref_host_poseidon2_laws). Defined.

(** The leaf of a 32-byte key is the contracts' hash of the key and the blinding. *)
Lemma asp_membership_leaf_run (host : HostPoseidon2) (laws : HostPoseidon2Laws host) (pk : bytes) (blinding : Field) :
  in_field blinding -> length pk = 32%nat -> exists leaf,
    asp_membership_leaf pk blinding = Some (Ok leaf) /\ in_field leaf /\
    poseidon2_hash2 (le_value pk mod BN_P) blinding (Some 1) = Some leaf.
Proof.
  intros Hb Hpk. unfold asp_membership_leaf, prover_poseidon2_hash2, Field_to_le_bytes. rewrite bytes_to_scalar_len, bytes_to_scalar_le by done.
  destruct (poseidon2_hash2_internal_total (le_value pk mod BN_P) blinding (Some 1)) as (h & Eh & Hh).
  unfold hash_bytes. rewrite Eh. cbn [mbind option_bind]. rewrite scalar_to_bytes_spec. cbn [mbind option_bind].
  rewrite bool_decide_true by apply length_le_bytes.
  exists h. fold (Field_to_le_bytes h). rewrite Field_le_roundtrip by done. split_and!; [done | done |].
  rewrite poseidon2_hash2_field; [done | apply in_field_mod | done | vm_compute; split; congruence].
Qed.

(** The prover's byte interface is total on 32-byte inputs and rejects every
    other length; a leaf computed by the prover for an association set is the
    leaf the contracts' hash gives for the same public key and blinding. *)
Theorem asp_membership_leaf_agrees (host : HostPoseidon2) (laws : HostPoseidon2Laws host) (pk : bytes) (blinding : Field) :
  in_field blinding ->
  (length pk <> 32%nat -> asp_membership_leaf pk blinding = Some (Err (ExpectedBytes (length pk)))) /\
  (length pk = 32%nat -> exists leaf,
     asp_membership_leaf pk blinding = Some (Ok leaf) /\ in_field leaf /\
     poseidon2_hash2 (le_value pk mod BN_P) blinding (Some 1) = Some leaf).
Proof.
  intros Hb. split; intros Hpk; [| by apply (asp_membership_leaf_run host laws)].
  unfold asp_membership_leaf, prover_poseidon2_hash2, bytes_to_scalar at 1, bytes_to_prime_field. by rewrite bool_decide_false by done.
Qed.

Lemma asp_membership_leaf_agrees_witness :
  exists leaf, asp_membership_leaf (replicate 32 7) 9 = Some (Ok leaf).
Proof.
  destruct (asp_membership_leaf_agrees ref_host_poseidon2 ref_host_poseidon2_laws (replicate 32 7) 9) as [_ H];
    [vm_compute; split; congruence |]. destruct (H eq_refl) as (leaf & E & _). exact (ex_intro _ leaf E).
Defined.
