(* ===== verification/Serialization.v ===== *)
(** * Field elements as bytes, hex and decimal text ([sdk/prover/src/serialization.rs])

    The conversions the prover makes between scalars, 32-byte little-endian arrays,
    big-endian hex strings and decimal strings.  A [str] is the list of its UTF-8 bytes.
    The two byte codecs are in [Hashes]. *)

From Stdlib Require Import Ascii.
From S2P Require Import Prelude Ints Amounts Hashes.

(** ** Conversions *)

Definition field_to_scalar (f : Field) : Z := le_value (Field_to_le_bytes f) mod BN_P.

(** [None]: one of the two [expect]s. *)
Definition scalar_to_field (scalar : Z) : option Field :=
  le ← scalar_to_bytes scalar;
  if bool_decide (length le = 32%nat) then
    match Field_try_from_le_bytes le with Ok f => Some f | Err _ => None end
  else None.

(** [format!("{:02x}", byte)]. *)
Definition hex_byte (b : Z) : list ascii := [nibble_char (b / 16); nibble_char (b mod 16)].

Definition scalar_to_hex (scalar : Z) : option (list ascii) :=
  b ← scalar_to_bytes scalar;
  Some ("0"%char :: "x"%char :: concat (hex_byte <$> rev b)).

(** The number of characters of a UTF-8 string: its bytes that do not continue a
    character ([10xxxxxx]). *)
Definition char_count (s : list ascii) : nat :=
  length (filter (fun c => Z.land (Z.of_nat (nat_of_ascii c)) 0xC0 <> 0x80) s).

(** [format!("{:0>64}", hex)]. *)
Definition pad_64 (s : list ascii) : list ascii := replicate (64 - char_count s) "0"%char ++ s.

(** [[u8]::chunks(2)]. *)
Fixpoint chunks_2 (s : list ascii) : list (list ascii) :=
  match s with
  | a :: b :: s' => [a; b] :: chunks_2 s'
  | [a] => [[a]]
  | [] => []
  end.

(** [u8::from_str_radix(_, 16)]: an optional plus sign in front of at least one digit;
    every step is checked. *)
Fixpoint radix_16_digits (acc : Z) (s : list ascii) : option Z :=
  match s with
  | [] => Some acc
  | c :: s' => d ← nibble_value c; acc' ← try_into_u 8 (16 * acc + d); radix_16_digits acc' s'
  end.

Definition u8_from_str_radix_16 (s : list ascii) : option Z :=
  match s with
  | [] => None
  | [_] => radix_16_digits 0 s
  | c :: s' => radix_16_digits 0 (if bool_decide (c = "+"%char) then s' else s)
  end.

(** The loop over the chunks: chunk [i] is byte [31 - i] of the array.  A chunk that is
    not UTF-8 has no digit, so the two errors of the source coincide. *)
Fixpoint hex_to_scalar_loop (i : nat) (chunks : list (list ascii)) (b : bytes) : result ProverError bytes :=
  match chunks with
  | [] => Ok b
  | chunk :: rest =>
      idx ← ok_or (v ← checked_sub (Z.of_nat FIELD_SIZE) 1; checked_sub v (Z.of_nat i)) IndexOverflow;
      v ← ok_or (u8_from_str_radix_16 chunk) InvalidHexCharacter;
      hex_to_scalar_loop (S i) rest (<[Z.to_nat idx := v]> b)
  end.

Definition hex_to_scalar (hex : list ascii) : result ProverError Z :=
  let hex := strip_0x hex in
  if bool_decide (64 < length hex)%nat then Err HexTooLong
  else
    let padded := pad_64 hex in
    b ← hex_to_scalar_loop 0 (chunks_2 padded) (replicate FIELD_SIZE 0);
    Ok (le_value b mod BN_P).

Definition parse_witness (witness_bytes : bytes) : result ProverError bytes :=
  if negb (bool_decide (length witness_bytes mod FIELD_SIZE = 0)%nat)
  then Err (WitnessLength (length witness_bytes))
  else Ok witness_bytes.

Definition witness_element_count (witness_bytes : bytes) : result ProverError Z :=
  if negb (bool_decide (length witness_bytes mod FIELD_SIZE = 0)%nat) then Err InvalidWitnessLength
  else ok_or (try_into_u 32 (Z.of_nat (length witness_bytes / FIELD_SIZE))) WitnessCountOverflow.

Definition u64_to_field_bytes (value : Z) : option bytes := scalar_to_bytes (value mod BN_P).

(** [Scalar::from(low) + Scalar::from(high) * Scalar::from(1 << 32)^2]. *)
Definition decimal_to_field_bytes (decimal : list ascii) : option (result ProverError bytes) :=
  match parse_u 128 decimal with
  | None => Some (Err InvalidDecimal)
  | Some value =>
      let low := Z.land value 0xFFFFFFFFFFFFFFFF in
      let high := Z.shiftr value 64 in
      let shift := (Z.shiftl 1 32) mod BN_P in
      let scalar := (low mod BN_P + (high mod BN_P * ((shift * shift) mod BN_P)) mod BN_P) mod BN_P in
      b ← scalar_to_bytes scalar; Some (Ok b)
  end.

Definition field_bytes_to_hex (b : bytes) : option (result ProverError (list ascii)) :=
  match bytes_to_scalar b with
  | Err e => Some (Err e)
  | Ok scalar => h ← scalar_to_hex scalar; Some (Ok h)
  end.

Definition hex_to_field_bytes (hex : list ascii) : option (result ProverError bytes) :=
  match hex_to_scalar hex with
  | Err e => Some (Err e)
  | Ok scalar => b ← scalar_to_bytes scalar; Some (Ok b)
  end.

(** ** The value of a hex string *)

Fixpoint hex_value (acc : Z) (s : list ascii) : option Z :=
  match s with
  | [] => Some acc
  | c :: s' => d ← nibble_value c; hex_value (16 * acc + d) s'
  end.

(** A character with a digit value is a single byte, is no sign, and its digit fits. *)
Lemma nibble_value_inv c d :
  nibble_value c = Some d ->
  0 <= d < 16 /\ c <> "+"%char /\ c <> "x"%char /\ Z.land (Z.of_nat (nat_of_ascii c)) 0xC0 <> 0x80.
Proof.
  intros H.
  assert (Hb : match nibble_value c with
     | Some d => (0 <=? d) && (d <? 16) && negb (bool_decide (c = "+"%char)) && negb (bool_decide (c = "x"%char))
                 && negb (Z.land (Z.of_nat (nat_of_ascii c)) 0xC0 =? 0x80)
     | None => true end = true).
  { clear H d. destruct c as [[] [] [] [] [] [] [] []]; vm_compute; reflexivity. }
  rewrite H in Hb. rewrite !andb_true_iff, !negb_true_iff, !bool_decide_eq_false, Z.leb_le, Z.ltb_lt, Z.eqb_neq in Hb.
  tauto.
Qed.

Lemma hex_value_cons acc c s v :
  hex_value acc (c :: s) = Some v ->
  exists d, nibble_value c = Some d /\ hex_value (16 * acc + d) s = Some v.
Proof. cbn [hex_value]. intros (d & Hd & H)%bind_Some. eauto. Qed.

Lemma hex_value_digits acc s v :
  hex_value acc s = Some v -> Forall (fun c => is_Some (nibble_value c)) s.
Proof.
  revert acc. induction s as [|c s IH]; intros acc H; [constructor |].
  apply hex_value_cons in H as (d & Hd & H). constructor; [by exists d | eauto].
Qed.

Lemma char_count_digits s : Forall (fun c => is_Some (nibble_value c)) s -> char_count s = length s.
Proof.
  intros H. unfold char_count. f_equal. apply filter_all. intros c Hc.
  rewrite Forall_forall in H. destruct (H c Hc) as [d Hd]. by apply nibble_value_inv in Hd as (_ & _ & _ & ?).
Qed.

Lemma hex_value_zeros n s : hex_value 0 (replicate n "0"%char ++ s) = hex_value 0 s.
Proof. induction n as [|n IH]; [done |]. cbn [replicate app hex_value]. exact IH. Qed.

(** One chunk of two digits. *)
Lemma u8_from_str_radix_pair a b h l :
  nibble_value a = Some h -> nibble_value b = Some l ->
  u8_from_str_radix_16 [a; b] = Some (16 * h + l).
Proof.
  intros Ha Hb. pose proof (nibble_value_inv a h Ha) as (Hh & Hne & _ & _).
  pose proof (nibble_value_inv b l Hb) as (Hl & _ & _ & _).
  unfold u8_from_str_radix_16. rewrite bool_decide_false by done. cbn [radix_16_digits].
  rewrite Ha. cbn [mbind option_bind].
  rewrite (proj2 (try_into_u_Some 8 (16 * 0 + h) h)) by lia. cbn [mbind option_bind].
  rewrite Hb. cbn [mbind option_bind].
  by rewrite (proj2 (try_into_u_Some 8 (16 * h + l) (16 * h + l))) by lia.
Qed.

(** The loop reads [2 * n] digits into the last [n] free bytes of the array. *)
Lemma hex_to_scalar_loop_digits n s lo hi acc v :
  length s = (2 * n)%nat -> length lo = n -> (length lo + length hi = 32)%nat ->
  hex_value acc s = Some v ->
  exists vs, hex_to_scalar_loop (length hi) (chunks_2 s) (lo ++ hi) = Ok (vs ++ hi) /\ length vs = n /\
             v = acc * 256 ^ Z.of_nat n + le_value vs.
Proof.
  revert s lo hi acc. induction n as [|n IH]; intros s lo hi acc Hs Hlo Hlen Hv.
  - destruct s; [| done]. destruct lo; [| done]. exists []. cbn in *. split_and!; [done | done |].
    injection Hv as <-. lia.
  - destruct s as [|a [|b s]]; [cbn in Hs; lia.. |]. cbn [length] in Hs.
    apply hex_value_cons in Hv as (h & Ha & Hv). apply hex_value_cons in Hv as (l & Hb & Hv).
    destruct (exists_last (l := lo)) as (lo' & x & ->); [by destruct lo |].
    rewrite length_app in Hlo, Hlen. cbn [length] in Hlo, Hlen.
    cbn [chunks_2 hex_to_scalar_loop]. unfold checked_sub at 2.
    change (1 <=? Z.of_nat FIELD_SIZE) with true. cbn [mbind option_bind].
    rewrite (proj2 (checked_sub_Some _ _ (Z.of_nat (length lo')))) by (unfold FIELD_SIZE; lia).
    cbn [ok_or mbind result_bind]. rewrite (u8_from_str_radix_pair a b h l) by done. cbn [ok_or mbind result_bind].
    rewrite Nat2Z.id, <- app_assoc, insert_app_r_alt, Nat.sub_diag by lia. cbn [app insert list_insert].
    destruct (IH s lo' ((16 * h + l) :: hi) (16 * (16 * acc + h) + l)) as (vs & E & Hvs & Hval); [lia | lia | cbn [length]; lia | done |].
    exists (vs ++ [16 * h + l]). cbn [length] in E. rewrite E, <- app_assoc. split_and!; [done | rewrite length_app; cbn; lia |].
    rewrite Hval, le_value_app, Hvs, pow_256_succ. cbn [le_value]. ring.
Qed.

(** At most 64 hex digits, with or without the prefix, are read as the number they
    denote, modulo the field order. *)
Lemma hex_to_scalar_digits hex v :
  (length (strip_0x hex) <= 64)%nat -> hex_value 0 (strip_0x hex) = Some v ->
  hex_to_scalar hex = Ok (v mod BN_P).
Proof.
  intros Hlen Hv. unfold hex_to_scalar. rewrite bool_decide_false by lia. cbv zeta.
  set (s := strip_0x hex) in *. unfold pad_64. rewrite char_count_digits by (by eapply hex_value_digits).
  destruct (hex_to_scalar_loop_digits 32 (replicate (64 - length s) "0"%char ++ s) (replicate 32 0) [] 0 v)
    as (vs & E & Hvs & Hval).
  - rewrite length_app, length_replicate. lia.
  - apply length_replicate.
  - rewrite length_replicate. done.
  - by rewrite hex_value_zeros.
  - rewrite !app_nil_r in E. cbn [length] in E. unfold FIELD_SIZE. rewrite E. cbn [mbind result_bind].
    rewrite Hval. by rewrite Z.mul_0_l, Z.add_0_l.
Qed.

(** ** Printing *)

Lemma hex_value_bytes acc l :
  Forall is_byte l ->
  hex_value acc (concat (hex_byte <$> rev l)) = Some (acc * 256 ^ Z.of_nat (length l) + le_value l).
Proof.
  intros Hl. revert acc. induction l as [|x l IH] using rev_ind; intros acc.
  - cbn. f_equal. lia.
  - apply Forall_app in Hl as [Hl Hx]. apply Forall_cons in Hx as [Hx _].
    destruct (nibbles_of_byte x Hx) as [Hh Hlo].
    rewrite rev_app_distr. cbn [rev app fmap list_fmap concat hex_byte hex_value].
    rewrite (proj1 (nibble_spec _ Hh)), (proj1 (nibble_spec _ Hlo)). cbn [mbind option_bind].
    unfold list_fmap in IH. rewrite IH by done. f_equal.
    rewrite length_app, Nat.add_1_r, pow_256_succ, le_value_app. cbn [le_value].
    pose proof (Z.div_mod x 16 ltac:(lia)) as Hd.
    replace (le_value l + 256 ^ Z.of_nat (length l) * (x + 256 * 0)) with
      (le_value l + 256 ^ Z.of_nat (length l) * (16 * (x / 16) + x mod 16)) by (rewrite <- Hd; ring). ring.
Qed.

Definition hex_of_scalar (x : Z) : list ascii := "0"%char :: "x"%char :: concat (hex_byte <$> rev (le_bytes 32 x)).

Lemma scalar_to_hex_eq x : scalar_to_hex x = Some (hex_of_scalar x).
Proof. unfold scalar_to_hex. rewrite scalar_to_bytes_spec. done. Qed.

Lemma length_concat_hex l : length (concat (hex_byte <$> l)) = (2 * length l)%nat.
Proof. induction l as [|x l IH]; [done |]. rewrite fmap_cons. cbn [concat]. rewrite length_app, IH. cbn [hex_byte length]. lia. Qed.

Lemma length_hex_of_scalar x : length (hex_of_scalar x) = 66%nat.
Proof. unfold hex_of_scalar. cbn [length]. rewrite length_concat_hex, length_rev, length_le_bytes. done. Qed.

Lemma hex_of_scalar_roundtrip x : in_field x -> hex_to_scalar (hex_of_scalar x) = Ok x.
Proof.
  intros Hx. rewrite (hex_to_scalar_digits _ x).
  - by rewrite Z.mod_small.
  - change (strip_0x (hex_of_scalar x)) with (concat (hex_byte <$> rev (le_bytes 32 x))).
    rewrite length_concat_hex, length_rev, length_le_bytes. lia.
  - change (strip_0x (hex_of_scalar x)) with (concat (hex_byte <$> rev (le_bytes 32 x))).
    rewrite hex_value_bytes by apply le_bytes_bytes. rewrite le_value_bytes, pow_256_32, Z.mod_small by (by apply in_field_u256).
    done.
Qed.

Lemma hex_of_scalar_inj x y : in_field x -> in_field y -> hex_of_scalar x = hex_of_scalar y -> x = y.
Proof. intros Hx Hy E. apply hex_of_scalar_roundtrip in Hx. rewrite E, hex_of_scalar_roundtrip in Hx by done. congruence. Qed.

Lemma field_bytes_to_hex_spec b :
  length b = 32%nat -> field_bytes_to_hex b = Some (Ok (hex_of_scalar (le_value b mod BN_P))).
Proof. intros Hb. unfold field_bytes_to_hex. rewrite bytes_to_scalar_len, scalar_to_hex_eq by done. done. Qed.

Lemma field_to_scalar_id f : in_field f -> field_to_scalar f = f.
Proof.
  intros Hf. unfold field_to_scalar, Field_to_le_bytes.
  rewrite le_value_bytes, pow_256_32, (Z.mod_small f (2 ^ 256)) by (by apply in_field_u256). by apply Z.mod_small.
Qed.

Lemma scalar_to_field_id s : in_field s -> scalar_to_field s = Some s.
Proof.
  intros Hs. unfold scalar_to_field. rewrite scalar_to_bytes_spec. cbn [mbind option_bind].
  rewrite bool_decide_true by apply length_le_bytes. change (le_bytes 32 s) with (Field_to_le_bytes s).
  by rewrite Field_le_roundtrip.
Qed.

Lemma decimal_scalar value :
  0 <= value < 2 ^ 128 ->
  let low := Z.land value 0xFFFFFFFFFFFFFFFF in
  let high := Z.shiftr value 64 in
  let shift := (Z.shiftl 1 32) mod BN_P in
  (low mod BN_P + (high mod BN_P * ((shift * shift) mod BN_P)) mod BN_P) mod BN_P = value.
Proof.
  intros Hv. cbv zeta. change 0xFFFFFFFFFFFFFFFF with (Z.ones 64). rewrite Z.land_ones, Z.shiftr_div_pow2 by lia.
  change ((Z.shiftl 1 32 mod BN_P * (Z.shiftl 1 32 mod BN_P)) mod BN_P) with (2 ^ 64).
  change (2 ^ 64) with 18446744073709551616. change (2 ^ 128) with 340282366920938463463374607431768211456 in Hv.
  pose proof (Z.div_mod value 18446744073709551616 ltac:(lia)) as Hd.
  pose proof (Z.mod_pos_bound value 18446744073709551616 ltac:(lia)) as Hlow.
  revert Hd Hlow. generalize (value / 18446744073709551616) (value mod 18446744073709551616). intros high low Hd Hlow.
  assert (0 <= high < BN_P /\ 0 <= low < BN_P /\ 0 <= high * 18446744073709551616 < BN_P) as (Hh & Hl & Hp) by (unfold BN_P; lia).
  rewrite (Z.mod_small low), (Z.mod_small high), (Z.mod_small (high * _)), Z.mod_small by (done || unfold BN_P; lia). lia.
Qed.

(** ** Properties *)

(** Scalars, their 32 bytes, their hex text and their decimal text denote the same
    number: a printed scalar is [0x] and 64 digits and reads back as itself; reading
    takes at most 64 hex digits in either case, with or without the prefix and with
    leading zeros left out, and reduces their value modulo the field order; longer text
    is refused; the two byte conversions are inverse to the hex ones, and a decimal of
    [u128] gives the bytes of its value. *)
Theorem scalar_text_roundtrip (x : Z) (hex : list ascii) :
  in_field x ->
  (exists h, scalar_to_hex x = Some h /\ length h = 66%nat /\ hex_to_scalar h = Ok x /\
             field_bytes_to_hex (le_bytes 32 x) = Some (Ok h) /\ hex_to_field_bytes h = Some (Ok (le_bytes 32 x))) /\
  (forall v, hex_value 0 (strip_0x hex) = Some v ->
     hex_to_scalar hex = if bool_decide (64 < length (strip_0x hex))%nat then Err HexTooLong else Ok (v mod BN_P)) /\
  (x < 2 ^ 128 -> decimal_to_field_bytes (show_u x) = Some (Ok (le_bytes 32 x))) /\
  (scalar_to_field x = Some x /\ field_to_scalar x = x).
Proof.
  intros Hx. split_and!.
  - exists (hex_of_scalar x). pose proof (hex_of_scalar_roundtrip x Hx) as E.
    split_and!; [apply scalar_to_hex_eq | apply length_hex_of_scalar | done | |].
    + rewrite field_bytes_to_hex_spec by apply length_le_bytes.
      rewrite le_value_bytes, pow_256_32, (Z.mod_small x (2 ^ 256)) by (by apply in_field_u256). by rewrite Z.mod_small.
    + unfold hex_to_field_bytes. rewrite E, scalar_to_bytes_spec. done.
  - intros v Hv. case_bool_decide as Hlen; [| apply hex_to_scalar_digits; [lia | done]].
    unfold hex_to_scalar. by rewrite bool_decide_true.
  - intros Hlt. unfold decimal_to_field_bytes, in_field in *. rewrite parse_show_u by lia.
    pose proof (decimal_scalar x ltac:(lia)) as E. cbv zeta in *. rewrite E, scalar_to_bytes_spec. done.
  - by apply scalar_to_field_id.
  - by apply field_to_scalar_id.
Qed.

Lemma scalar_text_roundtrip_witness :
  exists h, scalar_to_hex 123 = Some h /\ hex_to_scalar h = Ok 123.
Proof.
  destruct (scalar_text_roundtrip 123 []) as ((h & H1 & _ & H2 & _) & _); [vm_compute; split; congruence |].
  exact (ex_intro _ h (conj H1 H2)).
Defined.

(** A sign in a chunk is accepted: "0x+5" reads as 5, and "-5" does not. *)
Lemma hex_to_scalar_accepts_plus :
  hex_to_scalar ["0"; "x"; "+"; "5"]%char = Ok 5 /\
  hex_to_scalar ["0"; "x"; "-"; "5"]%char = Err InvalidHexCharacter.
Proof. split; vm_compute; reflexivity. Qed.
