(* ===== verification/ProverMonad.v ===== *)
(** * Effects of the prover crate

    The prover's functions fail with an [anyhow] error, can panic, and draw random bytes
    from [getrandom].  [RM A] is such a computation: it takes the number of draws made so
    far, which names the next draw, and gives [None] on a panic.  The primitives the crate
    takes from other crates (SHA-256, X25519, XSalsa20-Poly1305, [getrandom]) are the class
    [Crypto], their documented behaviour [CryptoLaws].  The second part gives the prover's
    hashes as total functions of scalars. *)

From S2P Require Import Prelude Ints Amounts Hashes.

(** ** The monad *)

Definition RM (A : Type) : Type := nat -> option (result ProverError A * nat).

#[export] Instance rm_ret : MRet RM := fun A a n => Some (Ok a, n).
#[export] Instance rm_bind : MBind RM := fun A B k m n =>
  match m n with
  | None => None
  | Some (Err e, n') => Some (Err e, n')
  | Some (Ok a, n') => k a n'
  end.

Definition throw {A} (e : ProverError) : RM A := fun n => Some (Err e, n).
(** A fallible computation with no panic, one that can panic, and a bare panic. *)
Definition lift_result {A} (r : result ProverError A) : RM A := fun n => Some (r, n).
Definition lift_fallible {A} (r : option (result ProverError A)) : RM A := fun n => r ← r; Some (r, n).
Definition or_panic {A} (o : option A) : RM A := fun n => a ← o; Some (Ok a, n).
(** [if cond { return Err(e) }]. *)
Definition bail_if (cond : bool) (e : ProverError) : RM unit := if cond then throw e else mret tt.
(** [vec.try_into::<[u8; 32]>()]. *)
Definition as_array_32 (what : string) (b : bytes) : RM bytes :=
  if bool_decide (length b = 32%nat) then mret b else throw (ArrayLength what (length b)).

Lemma rm_bind_Ok {A B} (m : RM A) (k : A -> RM B) n b n' :
  (m ≫= k) n = Some (Ok b, n') <-> exists a n1, m n = Some (Ok a, n1) /\ k a n1 = Some (Ok b, n').
Proof.
  unfold mbind, rm_bind. destruct (m n) as [[[a|e] n1]|]; split; try done.
  - eauto.
  - by intros (? & ? & [= <- <-] & ?).
  - by intros (? & ? & ? & ?).
  - by intros (? & ? & ? & ?).
Qed.

Lemma lift_result_Ok {A} (r : result ProverError A) n a n' :
  lift_result r n = Some (Ok a, n') <-> r = Ok a /\ n' = n.
Proof. unfold lift_result. split; [by intros [= -> ->] | by intros [-> ->]]. Qed.

Lemma lift_fallible_Ok {A} (r : option (result ProverError A)) n a n' :
  lift_fallible r n = Some (Ok a, n') <-> r = Some (Ok a) /\ n' = n.
Proof. unfold lift_fallible. destruct r; cbn; split; [by intros [= -> ->] | by intros [[= ->] ->] | done | by intros [? ?]]. Qed.

Lemma or_panic_Ok {A} (o : option A) n a n' : or_panic o n = Some (Ok a, n') <-> o = Some a /\ n' = n.
Proof. unfold or_panic. destruct o; cbn; split; [by intros [= -> ->] | by intros [[= ->] ->] | done | by intros [? ?]]. Qed.

Lemma bail_if_Ok b e n u n' : bail_if b e n = Some (Ok u, n') <-> b = false /\ n' = n.
Proof. unfold bail_if. destruct b, u; cbn; split; [done | by intros [? ?] | by intros [= ->] | by intros [_ ->]]. Qed.

Lemma as_array_32_Ok what b n a n' : as_array_32 what b n = Some (Ok a, n') <-> a = b /\ length b = 32%nat /\ n' = n.
Proof.
  unfold as_array_32. case_bool_decide; cbn; split; try done.
  - by intros [= -> ->].
  - by intros (-> & _ & ->).
  - by intros (_ & ? & _).
Qed.

Lemma mret_Ok {A} (a b : A) n n' : (mret a : RM A) n = Some (Ok b, n') <-> b = a /\ n' = n.
Proof. unfold mret, rm_ret. split; [by intros [= -> ->] | by intros [-> ->]]. Qed.

(** Split a successful run into the successes of its steps. *)
Ltac rm_inv :=
  repeat match goal with
  | H : (_ ≫= _) _ = Some (Ok _, _) |- _ => apply rm_bind_Ok in H; destruct H as (? & ? & ? & H)
  | H : lift_result _ _ = Some (Ok _, _) |- _ => apply lift_result_Ok in H; destruct H as [? ?]; subst
  | H : lift_fallible _ _ = Some (Ok _, _) |- _ => apply lift_fallible_Ok in H; destruct H as [? ?]; subst
  | H : or_panic _ _ = Some (Ok _, _) |- _ => apply or_panic_Ok in H; destruct H as [? ?]; subst
  | H : bail_if _ _ _ = Some (Ok _, _) |- _ => apply bail_if_Ok in H; destruct H as [? ?]; subst
  | H : as_array_32 _ _ _ = Some (Ok _, _) |- _ => apply as_array_32_Ok in H; destruct H as (? & ? & ?); subst
  | H : throw _ _ = Some (Ok _, _) |- _ => discriminate H
  | H : mret _ _ = Some (Ok _, _) |- _ => apply mret_Ok in H; destruct H as [? ?]; subst
  end.

(** Run the next step of a computation whose result is known. *)
Lemma rm_bind_step {A B} (m : RM A) (k : A -> RM B) n a n1 :
  m n = Some (Ok a, n1) -> (m ≫= k) n = k a n1.
Proof. unfold mbind, rm_bind. by intros ->. Qed.

Lemma rm_bind_fails {A B} (m : RM A) (k : A -> RM B) n e n1 :
  m n = Some (Err e, n1) -> (m ≫= k) n = Some (Err e, n1).
Proof. unfold mbind, rm_bind. by intros ->. Qed.

Lemma as_array_32_run what b n : length b = 32%nat -> as_array_32 what b n = Some (Ok b, n).
Proof. intros Hb. unfold as_array_32. by rewrite bool_decide_true. Qed.

Lemma bail_if_false cond e n : cond = false -> bail_if cond e n = Some (Ok tt, n).
Proof. by intros ->. Qed.

(** Run one step whose result is [H]; pass one guard. *)
Ltac rm_step H := rewrite (rm_bind_step _ _ _ _ _ H).
Ltac rm_pass :=
  erewrite rm_bind_step;
  [| apply bail_if_false; rewrite ?negb_false_iff, ?bool_decide_eq_true, ?bool_decide_eq_false;
     repeat match goal with H : length _ = _ |- _ => rewrite H end; (done || lia)].

(** Neither a panic nor a success: an error. *)
Definition errs {A} (o : option (result ProverError A * nat)) : Prop :=
  match o with Some (Err _, _) => True | _ => False end.

(** ** Exact specifications

    [decides E ok m Q]: [m] never panics; it succeeds only when [ok] holds, and then its
    result satisfies [Q]; when [ok] holds and the environment does its part ([E]: there is
    entropy, the caller's closures succeed) it does succeed.  Specifications compose along
    the binds of the source. *)

Definition decides (E ok : Prop) {A} (m : RM A) (Q : A -> Prop) : Prop :=
  forall n, match m n with
            | None => False
            | Some (Ok a, _) => ok /\ Q a
            | Some (Err _, _) => ~ (ok /\ E)
            end.

Section decides.
Context {E : Prop}.

Lemma decides_bind {A B} ok1 ok2 (m : RM A) (k : A -> RM B) P Q :
  decides E ok1 m P -> (forall a, P a -> decides E ok2 (k a) Q) -> decides E (ok1 /\ ok2) (m ≫= k) Q.
Proof.
  intros Hm Hk n. specialize (Hm n). unfold mbind, rm_bind. destruct (m n) as [[[a|e] n1]|]; [| tauto | done].
  destruct Hm as [Hok Ha]. specialize (Hk a Ha n1). destruct (k a n1) as [[[b|e] n2]|]; tauto.
Qed.

Lemma decides_conseq {A} ok ok' (m : RM A) (Q Q' : A -> Prop) :
  decides E ok m Q -> (ok <-> ok') -> (forall a, ok -> Q a -> Q' a) -> decides E ok' m Q'.
Proof.
  intros Hm Hok HQ n. specialize (Hm n). destruct (m n) as [[[a|e] n1]|]; [| tauto | done].
  destruct Hm as [H1 H2]. split; [tauto | by apply HQ].
Qed.

Lemma decides_ret {A} (a : A) (Q : A -> Prop) : Q a -> decides E True (mret a) Q.
Proof. intros Ha n. done. Qed.

(** A step whose result is known. *)
Lemma decides_run {A B} ok (m : RM A) (k : A -> RM B) a Q :
  (forall n, m n = Some (Ok a, n)) -> decides E ok (k a) Q -> decides E ok (m ≫= k) Q.
Proof. intros Hm Hk n. unfold mbind, rm_bind. rewrite Hm. apply Hk. Qed.

(** A step that only needs the environment. *)
Lemma decides_step {A B} ok (m : RM A) (k : A -> RM B) P Q :
  decides E True m P -> (forall a, P a -> decides E ok (k a) Q) -> decides E ok (m ≫= k) Q.
Proof. intros Hm Hk. eapply decides_conseq; [by eapply decides_bind | tauto | auto]. Qed.

Lemma decides_bail b e : decides E (b = false) (bail_if b e) (fun _ => True).
Proof. intros n. unfold bail_if. destruct b; cbn; [intros [? _]; done | done]. Qed.

(** A guard in front. *)
Lemma decides_guard {A} b e ok (k : RM A) Q :
  (b = false -> decides E ok k Q) -> decides E (b = false /\ ok) (bail_if b e;; k) Q.
Proof.
  intros Hk n. unfold mbind, rm_bind, bail_if. destruct b; cbn; [intros [[? _] _]; done |].
  specialize (Hk eq_refl n). destruct (k n) as [[[a|er] n1]|]; tauto.
Qed.

(** A loop of steps that only need the environment. *)
Lemma decides_mapM {A B} (f : A -> RM B) (P : A -> Prop) (Q : A -> B -> Prop) l :
  (forall a, P a -> decides E True (f a) (Q a)) -> Forall P l -> decides E True (mapM f l) (Forall2 Q l).
Proof.
  intros Hf. induction 1 as [|a l Ha Hl IH]; [apply decides_ret; constructor |]. cbn [mapM].
  eapply decides_step; [by apply Hf |]. intros b Hb. eapply decides_step; [exact IH |]. intros bs Hbs.
  apply decides_ret. by constructor.
Qed.

Lemma rm_mapM_run {A B} (f : A -> RM B) (g : A -> B) l :
  (forall a n, a ∈ l -> f a n = Some (Ok (g a), n)) -> forall n, mapM f l n = Some (Ok (g <$> l), n).
Proof.
  induction l as [|a l IH]; intros Hf n; [done |]. cbn [mapM].
  rm_step (Hf a n ltac:(set_solver)). rm_step (IH ltac:(intros; apply Hf; set_solver) n). done.
Qed.

End decides.

(** ** Primitives of other crates *)

Class Crypto : Type := {
  sha256 : bytes -> bytes;
  (** [PublicKey::from(&StaticSecret::from(secret)).to_bytes()] *)
  x25519_public : bytes -> bytes;
  (** [StaticSecret::from(secret).diffie_hellman(&PublicKey::from(public)).as_bytes()] *)
  x25519_dh : bytes -> bytes -> bytes;
  (** [XSalsa20Poly1305::new(key).encrypt(nonce, plaintext)], and [decrypt]; [None] is an error *)
  secretbox_encrypt : bytes -> bytes -> bytes -> option bytes;
  secretbox_decrypt : bytes -> bytes -> bytes -> option bytes;
  (** the answer to the [n]-th draw, of [len] bytes; [None] is an error *)
  getrandom_bytes : nat -> nat -> option bytes;
}.

Class CryptoLaws (C : Crypto) : Prop := {
  sha256_len b : length (sha256 b) = 32%nat;
  x25519_public_len s : length s = 32%nat -> length (x25519_public s) = 32%nat;
  x25519_dh_len s p : length s = 32%nat -> length p = 32%nat -> length (x25519_dh s p) = 32%nat;
  (** both sides of an exchange agree *)
  x25519_agree s t : length s = 32%nat -> length t = 32%nat ->
    x25519_dh s (x25519_public t) = x25519_dh t (x25519_public s);
  (** authenticated encryption adds a tag of 16 bytes and is undone by decryption *)
  secretbox_seals k n p : length k = 32%nat -> length n = 24%nat -> length p = 48%nat ->
    exists c, secretbox_encrypt k n p = Some c /\ length c = (length p + 16)%nat /\ secretbox_decrypt k n c = Some p;
  secretbox_decrypt_bytes k n c p : secretbox_decrypt k n c = Some p -> Forall is_byte c -> Forall is_byte p;
  (** a draw fills the buffer *)
  getrandom_len n len b : getrandom_bytes n len = Some b -> length b = len /\ Forall is_byte b;
}.

(** The entropy source never fails. *)
Definition entropy_available (C : Crypto) : Prop := forall n len, is_Some (getrandom_bytes n len).

(** [getrandom::getrandom(&mut [0; len]).map_err(_)]. *)
Definition getrandom `{Crypto} (len : nat) (e : ProverError) : RM bytes := fun n =>
  match getrandom_bytes n len with Some b => Some (Ok b, S n) | None => Some (Err e, S n) end.

(** ** The hashes as functions of scalars *)

Definition scalar_of (b : bytes) : Z := le_value b mod BN_P.

Definition scalar_hash2 (a b d : Z) : Z := default 0 (poseidon2_hash2_internal a b (Some d)).
Definition scalar_hash3 (a b c d : Z) : Z := default 0 (poseidon2_hash3_internal a b c (Some d)).

(** The note equations: public key, commitment and nullifier. *)
Definition public_key_of (sk : Z) : Z := scalar_hash2 sk 0 3.
Definition commitment_of (amount pk blinding : Z) : Z := scalar_hash3 amount pk blinding 1.
Definition signature_of (sk commitment path : Z) : Z := scalar_hash3 sk commitment path 4.
Definition nullifier_of (sk commitment path : Z) : Z := scalar_hash3 commitment path (signature_of sk commitment path) 2.

Lemma scalar_hash2_in_field a b d : in_field (scalar_hash2 a b d).
Proof. unfold scalar_hash2. destruct (poseidon2_hash2_internal_total a b (Some d)) as (h & -> & Hh). exact Hh. Qed.

Lemma scalar_hash3_in_field a b c d : in_field (scalar_hash3 a b c d).
Proof. unfold scalar_hash3. destruct (poseidon2_hash3_internal_total a b c (Some d)) as (h & -> & Hh). exact Hh. Qed.

Lemma hash_bytes_Some h : hash_bytes (Some h) = Some (Ok (le_bytes 32 h)).
Proof. unfold hash_bytes. cbn [mbind option_bind]. rewrite scalar_to_bytes_spec. reflexivity. Qed.

Lemma hash3_bytes_eq a b c d :
  length a = 32%nat -> length b = 32%nat -> length c = 32%nat ->
  hash3_bytes a b c d = Some (Ok (le_bytes 32 (scalar_hash3 (scalar_of a) (scalar_of b) (scalar_of c) d))).
Proof.
  intros Ha Hb Hc. unfold hash3_bytes, scalar_hash3, scalar_of. rewrite !bytes_to_scalar_len by done.
  destruct (poseidon2_hash3_internal_total (le_value a mod BN_P) (le_value b mod BN_P) (le_value c mod BN_P) (Some d))
    as (h & -> & _). apply hash_bytes_Some.
Qed.

Lemma derive_public_key_eq b :
  length b = 32%nat -> derive_public_key b = Some (Ok (le_bytes 32 (public_key_of (scalar_of b)))).
Proof.
  intros Hb. unfold derive_public_key, public_key_of, scalar_hash2, scalar_of, derive_public_key_internal.
  rewrite bytes_to_scalar_len by done.
  destruct (poseidon2_hash2_internal_total (le_value b mod BN_P) 0 (Some 3)) as (h & -> & _). apply hash_bytes_Some.
Qed.

#[global] Opaque scalar_hash2 scalar_hash3.

Lemma public_key_in_field sk : in_field (public_key_of sk).
Proof. apply scalar_hash2_in_field. Qed.
Lemma commitment_in_field a p b : in_field (commitment_of a p b).
Proof. apply scalar_hash3_in_field. Qed.
Lemma signature_in_field s c p : in_field (signature_of s c p).
Proof. apply scalar_hash3_in_field. Qed.
Lemma nullifier_in_field s c p : in_field (nullifier_of s c p).
Proof. apply scalar_hash3_in_field. Qed.

#[export] Hint Resolve public_key_in_field commitment_in_field signature_in_field nullifier_in_field : pay.

Lemma scalar_of_le_bytes x : in_field x -> scalar_of (le_bytes 32 x) = x.
Proof.
  intros Hx. unfold scalar_of. rewrite le_value_bytes, pow_256_32, (Z.mod_small x (2 ^ 256)) by (by apply in_field_u256).
  by apply Z.mod_small.
Qed.

Lemma scalar_of_in_field b : in_field (scalar_of b).
Proof. apply in_field_mod. Qed.

#[export] Hint Resolve scalar_of_in_field : pay.

Lemma compute_commitment_eq a p b :
  length a = 32%nat -> length p = 32%nat -> length b = 32%nat ->
  compute_commitment a p b = Some (Ok (le_bytes 32 (commitment_of (scalar_of a) (scalar_of p) (scalar_of b)))).
Proof. apply hash3_bytes_eq. Qed.

(** The signature and nullifier chain of the source. *)
Lemma compute_signature_eq sk c p :
  length sk = 32%nat -> length c = 32%nat -> length p = 32%nat ->
  compute_signature sk c p = Some (Ok (le_bytes 32 (signature_of (scalar_of sk) (scalar_of c) (scalar_of p)))).
Proof. apply hash3_bytes_eq. Qed.

Lemma compute_nullifier_eq sk c p :
  length c = 32%nat -> length p = 32%nat ->
  compute_nullifier c p (le_bytes 32 (signature_of sk (scalar_of c) (scalar_of p))) =
  Some (Ok (le_bytes 32 (nullifier_of sk (scalar_of c) (scalar_of p)))).
Proof.
  intros Hc Hp. unfold compute_nullifier. rewrite hash3_bytes_eq by (done || apply length_le_bytes).
  rewrite scalar_of_le_bytes by apply signature_in_field. reflexivity.
Qed.

(** ** A reference instance *)

(** Keys are their own public keys, the shared secret adds bytes, the tag is half of the
    key: enough to satisfy the laws. *)
Definition ref_dh (s p : bytes) : bytes := zip_with (fun a b => (a + b) mod 256) s p.

#[export] Instance ref_crypto : Crypto := {|
  sha256 b := le_bytes 32 (le_value b + Z.of_nat (length b));
  x25519_public s := s;
  x25519_dh := ref_dh;
  secretbox_encrypt k n p := Some (p ++ take 16 k);
  secretbox_decrypt k n c :=
    if bool_decide (drop (length c - 16) c = take 16 k) then Some (take (length c - 16) c) else None;
  getrandom_bytes n len := Some (le_bytes len (Z.of_nat n + 1));
|}.

#[export] Instance ref_crypto_laws : CryptoLaws ref_crypto.
Proof.
  constructor; cbn.
  - done.
  - done.
  - intros s p Hs Hp. unfold ref_dh. rewrite length_zip_with. lia.
  - intros s t _ _. unfold ref_dh. revert t. induction s as [|a s IH]; intros [|b t]; cbn; [done.. |].
    rewrite IH, Z.add_comm. done.
  - intros k n p Hk Hn Hp. eexists. split; [reflexivity |].
    rewrite length_app, length_take, Nat.min_l by lia. split; [done |].
    rewrite Nat.add_sub, drop_app_length, bool_decide_true, take_app_length by done. done.
  - intros k n c p. case_bool_decide; [intros [= <-] Hc; by apply Forall_take | done].
  - intros n len b [= <-]. split; [apply length_le_bytes | apply le_bytes_bytes].
Qed.

Lemma ref_entropy : entropy_available ref_crypto.
Proof. intros n len. by eexists. Qed.
