(* ===== verification/Encryption.v ===== *)
(** * Key derivation and note encryption ([sdk/prover/src/encryption.rs])

    Both key pairs of a user come from one wallet signature through SHA-256 with a domain
    tag; the data of a new note (amount and blinding) is sealed for its owner with an
    ephemeral X25519 exchange and XSalsa20-Poly1305.  The primitives are the parameters of
    [ProverMonad]; a field element of arkworks serializes to its 32 little-endian bytes. *)

From Stdlib Require Import Ascii.
From S2P Require Import Prelude Ints Amounts Hashes ProverMonad.

(** ** Types ([sdk/types/src/lib.rs])

    A key is its 32 bytes. *)

Abbreviation EncryptionPrivateKey := bytes (only parsing).
Abbreviation EncryptionPublicKey := bytes (only parsing).
Abbreviation NotePrivateKey := bytes (only parsing).
Abbreviation NotePublicKey := bytes (only parsing).
Abbreviation KeyDerivationSignature := bytes (only parsing).

Record EncryptionKeyPair : Type := { enc_private : EncryptionPrivateKey; enc_public : EncryptionPublicKey }.
Record NoteKeyPair : Type := { note_private : NotePrivateKey; note_public : NotePublicKey }.

(** ** Domain tags *)

(** [b"..."]. *)
Definition bytes_of_string (s : string) : bytes :=
  (fun c => Z.of_nat (nat_of_ascii c)) <$> String.list_ascii_of_string s.

Definition KEY_DERIVATION_MESSAGE : string := "Privacy Pool Key Derivation [v1]".
Definition NOTE_KEY_DOMAIN : bytes := bytes_of_string "privacy-pool/note-key/v1".
Definition ENCRYPTION_KEY_DOMAIN : bytes := bytes_of_string "privacy-pool/encryption-key/v1".
Definition MEMBERSHIP_BLINDING_DOMAIN : bytes := bytes_of_string "privacy-pool/asp-secret/v1".

(** ** Key derivation *)

Section encryption.
Context {C : Crypto}.

(** The hasher's updates, concatenated. *)
Definition hash_signature_with_domain (signature domain : bytes) : bytes := sha256 (domain ++ signature).

Definition hash_signature_with_domain_and_context (signature domain context : bytes) : bytes :=
  sha256 (domain ++ [0] ++ context ++ [0] ++ signature).

Definition derive_keypair_from_signature (signature : KeyDerivationSignature) : RM EncryptionKeyPair :=
  bail_if (negb (bool_decide (length signature = 64%nat))) SignatureLength;;
  let seed := hash_signature_with_domain signature ENCRYPTION_KEY_DOMAIN in
  mret {| enc_private := seed; enc_public := x25519_public seed |}.

Definition derive_note_private_key (signature : KeyDerivationSignature) : RM NotePrivateKey :=
  bail_if (negb (bool_decide (length signature = 64%nat))) SignatureLength;;
  let key := hash_signature_with_domain signature NOTE_KEY_DOMAIN in
  mret (le_bytes 32 (le_value key mod BN_P)).

Definition derive_encryption_and_note_keypairs (signature : KeyDerivationSignature)
  : RM (NoteKeyPair * EncryptionKeyPair) :=
  note_private_key ← derive_note_private_key signature;
  pubkey ← lift_fallible (derive_public_key note_private_key);
  note_public_key ← as_array_32 "public key" pubkey;
  encryption_keypair ← derive_keypair_from_signature signature;
  mret ({| note_private := note_private_key; note_public := note_public_key |}, encryption_keypair).

Definition derive_membership_blinding (signature : KeyDerivationSignature) (network_context : bytes) : RM Field :=
  bail_if (negb (bool_decide (length signature = 64%nat))) SignatureLength;;
  let key := hash_signature_with_domain_and_context signature MEMBERSHIP_BLINDING_DOMAIN network_context in
  lift_result (map_err FieldError (Field_try_from_le_bytes (le_bytes 32 (le_value key mod BN_P)))).

Definition generate_random_blinding : RM Field :=
  random_bytes ← getrandom 32 RandomFailed;
  le ← as_array_32 "random blinding" (le_bytes 32 (le_value random_bytes mod BN_P));
  lift_result (map_err FieldError (Field_try_from_le_bytes le)).

(** ** Sealing *)

Definition encrypt_note_data (recipient_pubkey_bytes plaintext : bytes) : RM bytes :=
  bail_if (negb (bool_decide (length recipient_pubkey_bytes = 32%nat))) RecipientKeyLength;;
  bail_if (negb (bool_decide (length plaintext = 48%nat))) PlaintextLength;;
  ephemeral_bytes ← getrandom 32 EphemeralKeyFailed;
  let ephemeral_public := x25519_public ephemeral_bytes in
  let shared_secret := x25519_dh ephemeral_bytes recipient_pubkey_bytes in
  nonce_bytes ← getrandom 24 NonceFailed;
  ciphertext ← lift_result (ok_or (secretbox_encrypt shared_secret nonce_bytes plaintext) EncryptionFailed);
  mret (ephemeral_public ++ nonce_bytes ++ ciphertext).

Definition decrypt_note_data (private_key_bytes encrypted_data : bytes) : RM bytes :=
  bail_if (negb (bool_decide (length private_key_bytes = 32%nat))) PrivateKeyLength;;
  bail_if (bool_decide (length encrypted_data < 120)%nat) EncryptedTooShort;;
  let ephemeral_pubkey := take 32 encrypted_data in
  let nonce_bytes := take 24 (drop 32 encrypted_data) in
  let ciphertext_with_tag := drop 56 encrypted_data in
  let shared_secret := x25519_dh private_key_bytes ephemeral_pubkey in
  match secretbox_decrypt shared_secret nonce_bytes ciphertext_with_tag with
  | Some plaintext => mret plaintext
  | None => mret []
  end.

Definition encrypt_output_note (recipient_pubkey : EncryptionPublicKey) (amount : NoteAmount) (blinding : Field)
  : RM bytes :=
  let plaintext := NoteAmount_to_le_bytes amount ++ Field_to_le_bytes blinding in
  encrypt_note_data recipient_pubkey plaintext.

Definition decrypt_output_note (recipient_privkey : EncryptionPrivateKey) (encrypted_output : bytes)
  : RM (option (NoteAmount * Field)) :=
  plaintext ← decrypt_note_data recipient_privkey encrypted_output;
  if bool_decide (plaintext = []) then mret None
  else
    bail_if (negb (bool_decide (length plaintext = 48%nat))) (DecryptedLength (length plaintext));;
    let amount := le_value (take 16 plaintext) in
    blinding ← lift_result (map_err FieldError (Field_try_from_le_bytes (drop 16 plaintext)));
    mret (Some (amount, blinding)).

End encryption.

(** ** Lemmas *)

Lemma field_of_le_bytes_mod x :
  map_err FieldError (Field_try_from_le_bytes (le_bytes 32 (x mod BN_P))) = Ok (x mod BN_P).
Proof. pose proof (Field_le_roundtrip (x mod BN_P) (in_field_mod x)) as E. unfold Field_to_le_bytes in E. by rewrite E. Qed.

Lemma field_of_le_bytes x :
  in_field x -> map_err FieldError (Field_try_from_le_bytes (le_bytes 32 x)) = Ok x.
Proof. intros Hx. pose proof (Field_le_roundtrip x Hx) as E. unfold Field_to_le_bytes in E. by rewrite E. Qed.

Section lemmas.
Context {C : Crypto} {CL : CryptoLaws C}.

(** A draw either fails or fills the buffer. *)
Lemma getrandom_Ok len e n b n' :
  getrandom len e n = Some (Ok b, n') -> n' = S n /\ length b = len /\ Forall is_byte b.
Proof.
  unfold getrandom. destruct (getrandom_bytes n len) as [b'|] eqn:E; [| done]. intros [= -> ->].
  split; [done |]. eapply getrandom_len. exact E.
Qed.

Lemma getrandom_available len e n :
  entropy_available C -> exists b, getrandom len e n = Some (Ok b, S n).
Proof. intros Ha. destruct (Ha n len) as [b Hb]. exists b. unfold getrandom. by rewrite Hb. Qed.

Lemma generate_random_blinding_Ok n b n' :
  generate_random_blinding n = Some (Ok b, n') -> in_field b /\ n' = S n.
Proof.
  unfold generate_random_blinding. intros H. rm_inv.
  match goal with H : getrandom _ _ _ = _ |- _ => apply getrandom_Ok in H as (? & ? & ?) end.
  match goal with H : map_err _ _ = Ok _ |- _ => rewrite field_of_le_bytes_mod in H; injection H as <- end.
  split; [apply in_field_mod | done].
Qed.

Lemma generate_random_blinding_available n :
  entropy_available C -> exists b, generate_random_blinding n = Some (Ok b, S n).
Proof.
  intros Ha. destruct (getrandom_available 32 RandomFailed n Ha) as [r Hr].
  exists (le_value r mod BN_P). unfold generate_random_blinding.
  rewrite (rm_bind_step _ _ _ _ _ Hr), (rm_bind_step _ _ _ _ _ (as_array_32_run _ _ _ (length_le_bytes _ _))).
  unfold lift_result. by rewrite field_of_le_bytes_mod.
Qed.

(** What a successful sealing has built. *)
Lemma encrypt_note_data_Ok pk p n c n' :
  encrypt_note_data pk p n = Some (Ok c, n') ->
  length pk = 32%nat /\ length p = 48%nat /\ n' = S (S n) /\
  exists eph nonce ct, length eph = 32%nat /\ length nonce = 24%nat /\
    secretbox_encrypt (x25519_dh eph pk) nonce p = Some ct /\ c = x25519_public eph ++ nonce ++ ct.
Proof.
  unfold encrypt_note_data. intros H. rm_inv. bools.
  repeat match goal with
  | H : bool_decide _ = true |- _ => apply bool_decide_eq_true in H
  | H : getrandom _ _ _ = _ |- _ => apply getrandom_Ok in H as (? & ? & ?)
  | H : ok_or _ _ = Ok _ |- _ => apply ok_or_Ok in H
  end. subst. eauto 12.
Qed.

(** The owner of the key opens what was sealed for it. *)
Lemma decrypt_encrypt sk p n c n' m :
  length sk = 32%nat -> encrypt_note_data (x25519_public sk) p n = Some (Ok c, n') ->
  length c = 120%nat /\ decrypt_note_data sk c m = Some (Ok p, m).
Proof.
  intros Hsk (_ & Hp & _ & eph & nonce & ct & He & Hn & Hc & ->)%encrypt_note_data_Ok.
  pose proof (x25519_public_len eph He) as Hpub.
  destruct (secretbox_seals (x25519_dh eph (x25519_public sk)) nonce p) as (ct' & E & Hl & Hd); [| done | done |].
  { apply x25519_dh_len; [done | by apply x25519_public_len]. }
  rewrite Hc in E. injection E as <-.
  assert (length (x25519_public eph ++ nonce ++ ct) = 120%nat) as Hlen by (rewrite !length_app; lia).
  split; [done |]. unfold decrypt_note_data. do 2 rm_pass.
  rewrite take_app_length' by done. rewrite drop_app_length' by done. rewrite take_app_length' by done.
  rewrite app_assoc, drop_app_length' by (rewrite length_app; lia).
  rewrite (x25519_agree sk eph), Hd by done. done.
Qed.

Lemma note_plaintext_length amount blinding :
  length (NoteAmount_to_le_bytes amount ++ Field_to_le_bytes blinding) = 48%nat.
Proof. unfold NoteAmount_to_le_bytes, Field_to_le_bytes. by rewrite length_app, !length_le_bytes. Qed.

(** Encryption only needs entropy and a key of 32 bytes. *)
Lemma encrypt_output_note_available pk amount blinding n :
  entropy_available C -> length pk = 32%nat ->
  exists c, encrypt_output_note pk amount blinding n = Some (Ok c, S (S n)).
Proof.
  intros Ha Hpk. unfold encrypt_output_note, encrypt_note_data.
  destruct (getrandom_available 32 EphemeralKeyFailed n Ha) as [eph He].
  destruct (getrandom_available 24 NonceFailed (S n) Ha) as [nonce Hn].
  pose proof (getrandom_Ok _ _ _ _ _ He) as (_ & Hel & _). pose proof (getrandom_Ok _ _ _ _ _ Hn) as (_ & Hnl & _).
  destruct (secretbox_seals (x25519_dh eph pk) nonce (NoteAmount_to_le_bytes amount ++ Field_to_le_bytes blinding))
    as (ct & E & _ & _); [by apply x25519_dh_len | done | apply note_plaintext_length |].
  exists (x25519_public eph ++ nonce ++ ct).
  rm_pass. erewrite rm_bind_step by (apply bail_if_false; by rewrite note_plaintext_length).
  rm_step He. rm_step Hn. rewrite E. done.
Qed.

(** The round trip of a note. *)
Lemma note_roundtrip sk amount blinding n c n' m :
  length sk = 32%nat -> is_note amount -> in_field blinding ->
  encrypt_output_note (x25519_public sk) amount blinding n = Some (Ok c, n') ->
  length c = 120%nat /\ decrypt_output_note sk c m = Some (Ok (Some (amount, blinding)), m).
Proof.
  intros Hsk Ha Hb H. unfold encrypt_output_note in H.
  destruct (decrypt_encrypt sk _ n c n' m Hsk H) as [Hlen Hd]. split; [done |].
  unfold decrypt_output_note. rm_step Hd.
  pose proof (note_plaintext_length amount blinding) as Hp.
  rewrite (bool_decide_false (_ ++ _ = [])) by (intros E; by rewrite E in Hp).
  rm_pass.
  unfold NoteAmount_to_le_bytes. rewrite take_app_length', drop_app_length' by (by rewrite length_le_bytes).
  unfold lift_result, mbind, rm_bind, Field_to_le_bytes. rewrite field_of_le_bytes by done.
  rewrite le_value_bytes. change (256 ^ Z.of_nat 16) with (2 ^ 128). by rewrite Z.mod_small.
Qed.

End lemmas.

(** ** Properties *)

(** A note sealed for a key is opened by that key: with the laws of the primitives,
    sealing for any 32-byte recipient key succeeds as soon as there is entropy, gives 120 bytes
    and, whatever was drawn, the owner of the private key reads back the same amount
    and blinding. *)
Theorem note_encryption_roundtrip (C : Crypto) (CL : CryptoLaws C) (sk : bytes) (amount blinding : Z) (n m : nat) :
  length sk = 32%nat -> is_note amount -> in_field blinding ->
  (entropy_available C -> exists c n', encrypt_output_note (x25519_public sk) amount blinding n = Some (Ok c, n')) /\
  (forall c n', encrypt_output_note (x25519_public sk) amount blinding n = Some (Ok c, n') ->
     length c = 120%nat /\ decrypt_output_note sk c m = Some (Ok (Some (amount, blinding)), m)).
Proof.
  intros Hsk Ha Hb. split.
  - intros He. destruct (encrypt_output_note_available (x25519_public sk) amount blinding n He) as [c Hc]; [| eauto].
    by apply x25519_public_len.
  - intros c n' Hc. by eapply note_roundtrip.
Qed.

Lemma note_encryption_roundtrip_witness :
  exists c n', encrypt_output_note (x25519_public (replicate 32 7)) 42 99 0%nat = Some (Ok c, n') /\
     decrypt_output_note (replicate 32 7) c 5%nat = Some (Ok (Some (42, 99)), 5%nat).
Proof.
  destruct (note_encryption_roundtrip ref_crypto ref_crypto_laws (replicate 32 7) 42 99 0 5) as [H1 H2];
    [reflexivity | vm_compute; split; congruence.. |].
  destruct (H1 ref_entropy) as (c & n' & Hc). exact (ex_intro _ c (ex_intro _ n' (conj Hc (proj2 (H2 c n' Hc))))).
Defined.

(** What each derivation hashes. *)
Definition note_key_preimage (sig : bytes) : bytes := NOTE_KEY_DOMAIN ++ sig.
Definition encryption_key_preimage (sig : bytes) : bytes := ENCRYPTION_KEY_DOMAIN ++ sig.
Definition membership_preimage (sig context : bytes) : bytes :=
  MEMBERSHIP_BLINDING_DOMAIN ++ [0] ++ context ++ [0] ++ sig.

(** The tags differ at byte 13. *)
Lemma domain_byte_13 (d rest : bytes) i x : d !! i = Some x -> (d ++ rest) !! i = Some x.
Proof. intros H. rewrite lookup_app_l; [done | by eapply lookup_lt_Some]. Qed.

Lemma membership_preimage_inj sig1 sig2 c1 c2 :
  length sig1 = length sig2 -> membership_preimage sig1 c1 = membership_preimage sig2 c2 -> sig1 = sig2 /\ c1 = c2.
Proof.
  intros Hl E. unfold membership_preimage in E. apply app_inv_head in E. cbn [app] in E. injection E as E.
  apply app_inj_2 in E as [-> E]; [by injection E as -> | cbn; lia].
Qed.

Lemma derive_keypairs_run (C : Crypto) sig n :
  derive_encryption_and_note_keypairs sig n =
    (if bool_decide (length sig = 64%nat) then
       let sk := le_bytes 32 (le_value (sha256 (note_key_preimage sig)) mod BN_P) in
       let ek := sha256 (encryption_key_preimage sig) in
       Some (Ok ({| note_private := sk; note_public := le_bytes 32 (public_key_of (scalar_of sk)) |},
                 {| enc_private := ek; enc_public := x25519_public ek |}), n)
     else Some (Err SignatureLength, n)).
Proof.
  unfold derive_encryption_and_note_keypairs. case_bool_decide as Hs.
  2: { apply rm_bind_fails. unfold derive_note_private_key. apply rm_bind_fails. unfold bail_if. by rewrite bool_decide_false. }
  assert (forall A (m : RM A), (bail_if (negb (bool_decide (length sig = 64%nat))) SignatureLength;; m) n = m n) as Hg.
  { intros A m. rm_pass. done. }
  erewrite rm_bind_step; [| unfold derive_note_private_key; rewrite Hg; reflexivity].
  erewrite rm_bind_step; [| apply lift_fallible_Ok; split; [apply derive_public_key_eq, length_le_bytes | reflexivity]].
  erewrite rm_bind_step; [| apply as_array_32_run, length_le_bytes].
  erewrite rm_bind_step; [| unfold derive_keypair_from_signature; rewrite Hg; reflexivity].
  reflexivity.
Qed.

(** From one 64-byte signature (any other length is refused) come a note key pair,
    an encryption key pair and a membership blinding, each the SHA-256 of its own
    preimage, reduced to the field for the two scalars, with the public keys of the private ones;
    the three uses never hash the same preimage, whatever the signatures and the network, and two
    membership preimages are equal only for the same signature and the same network. *)
Theorem key_derivation_separated (C : Crypto) (sig context : bytes) (n : nat) :
  derive_encryption_and_note_keypairs sig n =
    (if bool_decide (length sig = 64%nat) then
       let sk := le_bytes 32 (le_value (sha256 (note_key_preimage sig)) mod BN_P) in
       let ek := sha256 (encryption_key_preimage sig) in
       Some (Ok ({| note_private := sk; note_public := le_bytes 32 (public_key_of (scalar_of sk)) |},
                 {| enc_private := ek; enc_public := x25519_public ek |}), n)
     else Some (Err SignatureLength, n)) /\
  derive_membership_blinding sig context n =
    (if bool_decide (length sig = 64%nat) then
       Some (Ok (le_value (sha256 (membership_preimage sig context)) mod BN_P), n)
     else Some (Err SignatureLength, n)) /\
  (forall s1 s2 s3 ctx, note_key_preimage s1 <> encryption_key_preimage s2 /\
     note_key_preimage s1 <> membership_preimage s3 ctx /\ encryption_key_preimage s2 <> membership_preimage s3 ctx) /\
  (forall s1 s2 c1 c2, length s1 = 64%nat -> length s2 = 64%nat ->
     membership_preimage s1 c1 = membership_preimage s2 c2 -> s1 = s2 /\ c1 = c2).
Proof.
  split_and!.
  - apply derive_keypairs_run.
  - unfold derive_membership_blinding. case_bool_decide as Hs; cbn [negb bail_if]; [| done].
    unfold mbind, rm_bind. cbn [mret rm_ret]. unfold lift_result. rewrite field_of_le_bytes_mod. reflexivity.
  - intros s1 s2 s3 ctx.
    assert (note_key_preimage s1 !! 13%nat = Some 110) as H1 by (apply domain_byte_13; reflexivity).
    assert (encryption_key_preimage s2 !! 13%nat = Some 101) as H2 by (apply domain_byte_13; reflexivity).
    assert (membership_preimage s3 ctx !! 13%nat = Some 97) as H3 by (apply domain_byte_13; reflexivity).
    split_and!; intros E; rewrite E in *; congruence.
  - intros s1 s2 c1 c2 H1 H2. apply membership_preimage_inj. congruence.
Qed.

(** Anybody can make every wallet's scan of an output fail: data of fewer than 120
    bytes is an error, not "not for us", under every private key; data a sender seals
    for its recipient with a blinding that is not canonical is an error for that
    recipient. *)
Theorem malformed_output_errs (C : Crypto) (sk enc plaintext : bytes) (n : nat) :
  length sk = 32%nat ->
  ((length enc < 120)%nat -> decrypt_output_note sk enc n = Some (Err EncryptedTooShort, n)) /\
  (decrypt_note_data sk enc n = Some (Ok plaintext, n) -> length plaintext = 48%nat ->
   BN_P <= le_value (drop 16 plaintext) -> decrypt_output_note sk enc n = Some (Err (FieldError FieldOutOfRange), n)).
Proof.
  intros Hsk. split.
  - intros Hlen. unfold decrypt_output_note, decrypt_note_data. apply rm_bind_fails. rm_pass.
    apply rm_bind_fails. unfold bail_if. by rewrite bool_decide_true.
  - intros Hd Hp Hv. unfold decrypt_output_note. rm_step Hd.
    rewrite (bool_decide_false (plaintext = [])) by (by intros ->). rm_pass.
    apply rm_bind_fails. unfold lift_result, Field_try_from_le_bytes, Field_try_from_u256, Field_modulus.
    rewrite bn254_modulus_p, (proj2 (Z.leb_le _ _)) by done. done.
Qed.

Lemma malformed_output_errs_witness :
  decrypt_output_note (C := ref_crypto) (replicate 32 7) [1; 2; 3] 0%nat = Some (Err EncryptedTooShort, 0%nat).
Proof. apply (malformed_output_errs ref_crypto (replicate 32 7) [1; 2; 3] [] 0); [reflexivity | cbn; lia]. Defined.
