(* ===== verification/Notes.v ===== *)
(** * Note discovery ([sdk/prover/src/notes.rs])

    A wallet tries its encryption key on every output the pool publishes; a note is its own
    when the decrypted amount and blinding reproduce the published commitment under its
    note key. *)

From S2P Require Import Prelude Ints Amounts Hashes ProverMonad Encryption.

Record DerivedUserNote : Type := {
  derived_amount : NoteAmount;
  derived_blinding : Field;
  expected_nullifier : Field;
}.

Section notes.
Context {C : Crypto}.

Definition try_decrypt_and_derive_user_note (note_keypair : NoteKeyPair) (encryption_private_key : EncryptionPrivateKey)
    (commitment : Field) (leaf_index : Z) (encrypted_output : bytes) : RM (option DerivedUserNote) :=
  dec ← decrypt_output_note encryption_private_key encrypted_output;
  match dec with
  | None => mret None
  | Some (amount, blinding) =>
      if NoteAmount_is_zero amount then mret None
      else
        let amount_field_le := Field_to_le_bytes (Field_from_note amount) in
        computed ← lift_fallible (compute_commitment amount_field_le (note_public note_keypair) (Field_to_le_bytes blinding));
        computed ← as_array_32 "commitment" computed;
        if negb (bool_decide (computed = Field_to_le_bytes commitment)) then mret None
        else
          let commitment_le := Field_to_le_bytes commitment in
          let path_indices_le := le_bytes 8 leaf_index ++ replicate 24 0 in
          signature ← lift_fallible (compute_signature (note_private note_keypair) commitment_le path_indices_le);
          nullifier ← lift_fallible (compute_nullifier commitment_le path_indices_le signature);
          nullifier ← as_array_32 "nullifier" nullifier;
          nullifier ← lift_result (map_err FieldError (Field_try_from_le_bytes nullifier));
          mret (Some {| derived_amount := amount; derived_blinding := blinding; expected_nullifier := nullifier |})
  end.

End notes.

(** ** Lemmas *)

(** The packed leaf index is its field element. *)
Lemma path_indices_le_eq i : 0 <= i < 2 ^ 64 -> le_bytes 8 i ++ replicate 24 0 = le_bytes 32 i.
Proof.
  intros Hi. apply le_value_inj.
  - apply Forall_app; split; [apply le_bytes_bytes |]. apply Forall_replicate. unfold is_byte; lia.
  - apply le_bytes_bytes.
  - rewrite length_app, length_replicate, !length_le_bytes. done.
  - rewrite le_value_app, !le_value_bytes. change (256 ^ Z.of_nat 8) with (2 ^ 64). rewrite pow_256_32.
    change (le_value (replicate 24 0)) with 0.
    rewrite !Z.mod_small; [lia | | done]. assert (2 ^ 64 < 2 ^ 256) by reflexivity. lia.
Qed.

Lemma u32_in_field i : 0 <= i < 2 ^ 32 -> in_field i.
Proof. unfold in_field, BN_P. change (2 ^ 32) with 4294967296. lia. Qed.

Lemma note_in_field a : is_note a -> in_field a.
Proof. unfold is_note, in_field, BN_P. change (2 ^ 128) with 340282366920938463463374607431768211456. lia. Qed.

Lemma Field_to_le_bytes_inj x y : in_field x -> in_field y -> Field_to_le_bytes x = Field_to_le_bytes y -> x = y.
Proof.
  intros Hx Hy E. apply Field_le_roundtrip in Hx. rewrite E, Field_le_roundtrip in Hx by done. congruence.
Qed.

Section lemmas.
Context {C : Crypto}.

(** The run after a successful decryption of a non-zero amount. *)
Lemma derive_user_note_run kp ek commitment idx enc amount blinding n :
  length (note_public kp) = 32%nat -> length (note_private kp) = 32%nat ->
  0 <= idx < 2 ^ 32 -> in_field commitment -> is_note amount -> in_field blinding ->
  decrypt_output_note ek enc n = Some (Ok (Some (amount, blinding)), n) ->
  try_decrypt_and_derive_user_note kp ek commitment idx enc n =
  Some (Ok (if bool_decide (amount <> 0 /\ commitment = commitment_of amount (scalar_of (note_public kp)) blinding)
            then Some {| derived_amount := amount; derived_blinding := blinding;
                         expected_nullifier := nullifier_of (scalar_of (note_private kp)) commitment idx |}
            else None), n).
Proof.
  intros Hpk Hsk Hidx Hc Ha Hb Hd. unfold try_decrypt_and_derive_user_note. rm_step Hd.
  unfold NoteAmount_is_zero. destruct (Z.eqb_spec amount 0) as [Hz|Hz]; [by rewrite bool_decide_false by tauto |].
  unfold Field_from_note, Field_to_le_bytes.
  erewrite rm_bind_step by (apply lift_fallible_Ok; split; [apply compute_commitment_eq; (done || apply length_le_bytes) | done]).
  erewrite rm_bind_step by (apply as_array_32_run, length_le_bytes).
  rewrite (scalar_of_le_bytes amount), (scalar_of_le_bytes blinding) by (done || by apply note_in_field).
  destruct (decide (commitment = commitment_of amount (scalar_of (note_public kp)) blinding)) as [He|He].
  2: { rewrite (bool_decide_false (_ /\ _)) by tauto. rewrite bool_decide_false; [done |].
       intros E. apply He. symmetry. apply Field_to_le_bytes_inj; [apply commitment_in_field | assumption | exact E]. }
  rewrite (bool_decide_true (_ /\ _)) by (split; assumption). rewrite <- He, bool_decide_true by reflexivity. cbn [negb].
  rewrite path_indices_le_eq by (assert (2 ^ 32 < 2 ^ 64) by reflexivity; lia).
  erewrite rm_bind_step by (apply lift_fallible_Ok; split; [apply compute_signature_eq; (done || apply length_le_bytes) | done]).
  erewrite rm_bind_step by (apply lift_fallible_Ok; split; [apply compute_nullifier_eq; apply length_le_bytes | done]).
  erewrite rm_bind_step by (apply as_array_32_run, length_le_bytes).
  erewrite rm_bind_step by (apply lift_result_Ok; split; [apply field_of_le_bytes, nullifier_in_field | done]).
  rewrite (scalar_of_le_bytes commitment Hc), (scalar_of_le_bytes idx (u32_in_field idx Hidx)). reflexivity.
Qed.

(** Decryption yields an amount of 128 bits and a canonical blinding. *)
Lemma decrypt_output_note_Some ek enc n amount blinding n' :
  decrypt_output_note ek enc n = Some (Ok (Some (amount, blinding)), n') ->
  n' = n /\ exists p, decrypt_note_data ek enc n = Some (Ok p, n) /\ length p = 48%nat /\
    amount = le_value (take 16 p) /\ blinding = le_value (drop 16 p) /\ blinding < BN_P.
Proof.
  unfold decrypt_output_note. intros H. apply rm_bind_Ok in H as (p & n1 & Hp & H).
  assert (n1 = n) as ->.
  { unfold decrypt_note_data in Hp. rm_inv. destruct (secretbox_decrypt _ _ _); rm_inv; done. }
  case_bool_decide; [rm_inv; done |]. rm_inv. bools. split; [done |]. exists p.
  repeat match goal with
  | H : bool_decide _ = true |- _ => apply bool_decide_eq_true in H
  | H : map_err _ _ = Ok _ |- _ => unfold map_err in H
  end.
  destruct (Field_try_from_le_bytes (drop 16 p)) as [f|] eqn:Ef; [| done].
  match goal with H : Ok f = Ok _ |- _ => injection H as <- end.
  unfold Field_try_from_le_bytes in Ef. apply Field_try_from_u256_Ok in Ef as [-> ?]. simplify_eq. done.
Qed.

End lemmas.

(** ** Properties *)

Section discovery.
Context {C : Crypto} {CL : CryptoLaws C}.

Lemma decrypt_output_note_range ek enc n amount blinding n' :
  Forall is_byte enc -> decrypt_output_note ek enc n = Some (Ok (Some (amount, blinding)), n') ->
  n' = n /\ is_note amount /\ in_field blinding.
Proof.
  intros Henc (-> & p & Hp & Hlen & -> & -> & Hb)%decrypt_output_note_Some.
  unfold decrypt_note_data in Hp. rm_inv. destruct (secretbox_decrypt _ _ _) as [q|] eqn:Eq; apply mret_Ok in Hp as [-> _]; [| done].
  apply secretbox_decrypt_bytes in Eq; [| by apply Forall_drop].
  pose proof (le_value_bound (take 16 q) ltac:(by apply Forall_take)) as Ha.
  pose proof (le_value_bound (drop 16 q) ltac:(by apply Forall_drop)) as Hb'.
  rewrite length_take, Hlen in Ha. change (256 ^ Z.of_nat (16 `min` 48)) with (2 ^ 128) in Ha.
  unfold is_note, in_field. split_and!; lia.
Qed.

(** A run that finds a note had decrypted it. *)
Lemma derive_user_note_Some kp ek commitment idx enc n d n' :
  length (note_public kp) = 32%nat -> length (note_private kp) = 32%nat ->
  0 <= idx < 2 ^ 32 -> in_field commitment -> Forall is_byte enc ->
  try_decrypt_and_derive_user_note kp ek commitment idx enc n = Some (Ok (Some d), n') ->
  is_note (derived_amount d) /\ derived_amount d <> 0 /\ in_field (derived_blinding d) /\
  commitment = commitment_of (derived_amount d) (scalar_of (note_public kp)) (derived_blinding d) /\
  expected_nullifier d = nullifier_of (scalar_of (note_private kp)) commitment idx.
Proof.
  intros Hpk Hsk Hidx Hc Henc H. pose proof H as H0. unfold try_decrypt_and_derive_user_note in H0.
  apply rm_bind_Ok in H0 as ([[amount blinding]|] & n1 & Hd & H0); [clear H0 | rm_inv; discriminate].
  pose proof (decrypt_output_note_range _ _ _ _ _ _ Henc Hd) as (-> & Ha & Hb).
  rewrite (derive_user_note_run kp ek commitment idx enc amount blinding n Hpk Hsk Hidx Hc Ha Hb Hd) in H.
  case_bool_decide as Hm; [| discriminate]. destruct Hm as [Hz He]. injection H as H _. subst d. cbn.
  exact (conj Ha (conj Hz (conj Hb (conj He eq_refl)))).
Qed.

End discovery.

(** C8. Discovery finds exactly the notes that belong to the wallet: a note it reports
    opens the published commitment under the wallet's public key with a non-zero amount,
    whatever bytes the sender published, and carries the nullifier of that commitment at
    its leaf; and an output sealed for the wallet whose commitment is for its
    public key is reported, with the amount and blinding that were sealed. *)
Theorem note_discovery_exact (C : Crypto) (CL : CryptoLaws C) (kp : NoteKeyPair) (ek enc : bytes)
    (commitment idx amount blinding : Z) (n m : nat) :
  length (note_public kp) = 32%nat -> length (note_private kp) = 32%nat -> length ek = 32%nat ->
  0 <= idx < 2 ^ 32 -> in_field commitment -> Forall is_byte enc ->
  (forall d n', try_decrypt_and_derive_user_note kp ek commitment idx enc n = Some (Ok (Some d), n') ->
     is_note (derived_amount d) /\ derived_amount d <> 0 /\ in_field (derived_blinding d) /\
     commitment = commitment_of (derived_amount d) (scalar_of (note_public kp)) (derived_blinding d) /\
     expected_nullifier d = nullifier_of (scalar_of (note_private kp)) commitment idx) /\
  (forall n', is_note amount -> amount <> 0 -> in_field blinding ->
     encrypt_output_note (x25519_public ek) amount blinding m = Some (Ok enc, n') ->
     commitment = commitment_of amount (scalar_of (note_public kp)) blinding ->
     try_decrypt_and_derive_user_note kp ek commitment idx enc n =
     Some (Ok (Some {| derived_amount := amount; derived_blinding := blinding;
                       expected_nullifier := nullifier_of (scalar_of (note_private kp)) commitment idx |}), n)).
Proof.
  intros Hpk Hsk Hek Hidx Hc Henc. split.
  - intros d n'. by apply derive_user_note_Some.
  - intros n' Ha Hz Hb He Hcm. destruct (note_roundtrip ek amount blinding m enc n' n Hek Ha Hb He) as [_ Hd].
    rewrite (derive_user_note_run kp ek commitment idx enc amount blinding n) by assumption.
    rewrite bool_decide_true by (split; assumption). reflexivity.
Qed.

Lemma note_discovery_exact_witness :
  exists enc : bytes,
    try_decrypt_and_derive_user_note (C := ref_crypto)
      {| note_private := le_bytes 32 5; note_public := le_bytes 32 6 |} (replicate 32 7)
      (commitment_of 42 (scalar_of (le_bytes 32 6)) 99) 3 enc 0%nat =
    Some (Ok (Some {| derived_amount := 42; derived_blinding := 99;
                      expected_nullifier := nullifier_of (scalar_of (le_bytes 32 5))
                         (commitment_of 42 (scalar_of (le_bytes 32 6)) 99) 3 |}), 0%nat).
Proof.
  destruct (encrypt_output_note (C := ref_crypto) (replicate 32 7) 42 99 0%nat) as [[[enc|] n']|] eqn:E; [| discriminate..].
  exists enc. apply (note_discovery_exact ref_crypto ref_crypto_laws
      {| note_private := le_bytes 32 5; note_public := le_bytes 32 6 |} (replicate 32 7) enc
      (commitment_of 42 (scalar_of (le_bytes 32 6)) 99) 3 42 99 0 0) with (n' := n').
  - reflexivity.
  - reflexivity.
  - reflexivity.
  - split; [discriminate | reflexivity].
  - apply commitment_in_field.
  - vm_compute in E. injection E as <- _. repeat constructor; discriminate.
  - split; [discriminate | reflexivity].
  - discriminate.
  - split; [discriminate | reflexivity].
  - exact E.
  - reflexivity.
Defined.
