(* ===== verification/Flows.v ===== *)
(** * Transaction flows ([sdk/prover/src/flows.rs])

    The builder of a pool transaction: it checks the request, pads it to two inputs and two
    outputs, computes nullifiers, commitments and sealed outputs, and fills in the signals
    of the circuit ([CircuitInputs] of [sdk/prover/src/types.rs]).  [flow_transact] is
    [transact]; the names [flow_deposit], [flow_withdraw] and [flow_transfer] are the
    wrappers.  The hash of the external data is the caller's closure. *)

From Stdlib Require Import Ascii.
From stdpp Require Import pretty.
From S2P Require Import Prelude Ints Amounts Hashes Serialization ProverMonad Encryption.

Definition N_INPUTS : nat := 2.
Definition N_OUTPUTS : nat := 2.

(** ** Types *)

(** [CircuitInputs]: signal names to values in hex. *)
Inductive InputValue : Type :=
| Single (v : list ascii)
| Array (vs : list (list ascii)).

Abbreviation CircuitInputs := (gmap string InputValue).

Definition set_single (signals : CircuitInputs) (name : string) (value : list ascii) : CircuitInputs :=
  <[name := Single value]> signals.
Definition set_array (signals : CircuitInputs) (name : string) (values : list (list ascii)) : CircuitInputs :=
  <[name := Array values]> signals.

(** [types::AspMembershipProof], [types::AspNonMembershipProof], [types::ExtData]. *)
Record AspMembershipProof : Type := {
  mp_leaf : Field;
  mp_blinding : Field;
  mp_path_elements : list Field;
  mp_path_indices : Field;
  mp_root : Field;
}.

Record AspNonMembershipProof : Type := {
  nmp_key : Field;
  nmp_old_key : Field;
  nmp_old_value : Field;
  nmp_is_old0 : bool;
  nmp_siblings : list Field;
  nmp_root : Field;
}.

Record FlowExtData : Type := {
  fe_recipient : string;
  fe_ext_amount : ExtAmount;
  fe_encrypted_output0 : bytes;
  fe_encrypted_output1 : bytes;
}.

Record TransactInputNote : Type := {
  in_amount : NoteAmount;
  in_blinding : Field;
  merkle_path_elements : list Field;
  merkle_path_indices : Field;
}.

Record TransactOutput : Type := {
  out_amount : NoteAmount;
  out_blinding : Field;
  recipient_note_pubkey : option NotePublicKey;
  recipient_encryption_pubkey : option EncryptionPublicKey;
}.

(** The two arrays are lists of [N_INPUTS] and [N_OUTPUTS] elements. *)
Record PreparedTx : Type := {
  pt_pool_root : Field;
  pt_input_nullifiers : list Field;
  pt_output_commitments : list Field;
  pt_public_amount_field : Field;
  pt_ext_data_hash_be : bytes;
  pt_asp_membership_root : Field;
  pt_asp_non_membership_root : Field;
}.

Record TransactArtifacts : Type := {
  circuit_inputs : CircuitInputs;
  art_ext_data : FlowExtData;
  prepared : PreparedTx;
}.

Record TransactParams : Type := {
  priv_key : NotePrivateKey;
  encryption_pubkey : EncryptionPublicKey;
  pool_root : Field;
  ext_recipient : string;
  tx_ext_amount : ExtAmount;
  tx_inputs : list TransactInputNote;
  tx_outputs : list TransactOutput;
  membership_proof : AspMembershipProof;
  non_membership_proof : AspNonMembershipProof;
  tx_tree_depth : Z;
  tx_smt_depth : Z;
}.

Record DepositParams : Type := {
  dep_priv_key : NotePrivateKey;
  dep_encryption_pubkey : EncryptionPublicKey;
  dep_pool_root : Field;
  dep_pool_address : string;
  dep_amount : ExtAmount;
  dep_outputs : list TransactOutput;
  dep_membership_proof : AspMembershipProof;
  dep_non_membership_proof : AspNonMembershipProof;
  dep_tree_depth : Z;
  dep_smt_depth : Z;
}.

Record WithdrawParams : Type := {
  wd_priv_key : NotePrivateKey;
  wd_encryption_pubkey : EncryptionPublicKey;
  wd_pool_root : Field;
  withdraw_recipient : string;
  withdraw_amount : ExtAmount;
  wd_inputs : list TransactInputNote;
  wd_outputs : option (list TransactOutput);
  wd_membership_proof : AspMembershipProof;
  wd_non_membership_proof : AspNonMembershipProof;
  wd_tree_depth : Z;
  wd_smt_depth : Z;
}.

Record TransferParams : Type := {
  tr_priv_key : NotePrivateKey;
  tr_encryption_pubkey : EncryptionPublicKey;
  tr_pool_root : Field;
  tr_pool_address : string;
  tr_inputs : list TransactInputNote;
  tr_outputs : list TransactOutput;
  tr_membership_proof : AspMembershipProof;
  tr_non_membership_proof : AspNonMembershipProof;
  tr_tree_depth : Z;
  tr_smt_depth : Z;
}.

Record SelectiveDisclosure1Params : Type := {
  sd_root : Field;
  sd_note_commitment : Field;
  sd_note_amount : NoteAmount;
  sd_note_private_key : NotePrivateKey;
  sd_note_blinding : Field;
  sd_merkle_path_indices : Field;
  sd_merkle_path_elements : list Field;
  sd_ext_context_hash : Field;
}.

Record DisclosureArtifacts : Type := {
  da_circuit_inputs : CircuitInputs;
  da_ext_context_hash : Field;
}.

(** ** Helpers *)

Definition sum_note_amounts_inputs (inputs : list TransactInputNote) : result ProverError NoteAmount :=
  foldl (fun acc n => sum ← acc; ok_or (NoteAmount_checked_add sum (in_amount n)) InputSumOverflow)
        (Ok NoteAmount_ZERO) inputs.

Definition sum_note_amounts_outputs (outputs : list TransactOutput) : result ProverError NoteAmount :=
  foldl (fun acc o => sum ← acc; ok_or (NoteAmount_checked_add sum (out_amount o)) OutputSumOverflow)
        (Ok NoteAmount_ZERO) outputs.

Definition note_amount_to_field (amount : NoteAmount) : Field := Field_from_note amount.

Definition field_to_circuit_hex (f : Field) : RM (list ascii) := lift_fallible (field_bytes_to_hex (Field_to_le_bytes f)).

(** [Field::try_from(ExtAmount)?]. *)
Definition field_from_ext (amount : ExtAmount) : RM Field :=
  lift_fallible (r ← Field_try_from_ext amount; Some (map_err FieldError r)).

Definition ext_amount_to_circuit_hex (amount : ExtAmount) : RM (list ascii) :=
  f ← field_from_ext amount; field_to_circuit_hex f.

Definition be32_to_0x_hex (be : bytes) : list ascii := "0"%char :: "x"%char :: concat (hex_byte <$> be).

(** ** The builder *)

Section flows.
Context {C : Crypto}.
Variable hash_ext_data : FlowExtData -> result ProverError bytes.

Definition dummy_input (depth : nat) : RM TransactInputNote :=
  blinding ← generate_random_blinding;
  mret {| in_amount := NoteAmount_ZERO; in_blinding := blinding;
          merkle_path_elements := replicate depth Field_ZERO; merkle_path_indices := Field_ZERO |}.

(** A padding output. *)
Definition dummy_output : RM TransactOutput :=
  blinding ← generate_random_blinding;
  mret {| out_amount := NoteAmount_ZERO; out_blinding := blinding;
          recipient_note_pubkey := None; recipient_encryption_pubkey := None |}.

(** [while slots.len() < N { slots.push(..) }], [missing] pushes. *)
Fixpoint push_missing {A} (missing : nat) (push : RM A) (slots : list A) : RM (list A) :=
  match missing with
  | O => mret slots
  | S missing => x ← push; push_missing missing push (slots ++ [x])
  end.

(** The depths and the shapes of the ASP proofs and of the outputs. *)
Definition check_shapes (p : TransactParams) : RM unit :=
  bail_if (tx_tree_depth p =? 0) TreeDepthZero;;
  bail_if (tx_smt_depth p =? 0) SmtDepthZero;;
  let tree_depth_usize := Z.to_nat (tx_tree_depth p) in
  let smt_depth_usize := Z.to_nat (tx_smt_depth p) in
  bail_if (negb (bool_decide (length (mp_path_elements (membership_proof p)) = tree_depth_usize)))
    (MembershipPathLength tree_depth_usize (length (mp_path_elements (membership_proof p))));;
  bail_if (negb (bool_decide (length (nmp_siblings (non_membership_proof p)) = smt_depth_usize)))
    (SiblingsLength smt_depth_usize (length (nmp_siblings (non_membership_proof p))));;
  bail_if (N_OUTPUTS <? length (tx_outputs p))%nat (TooManyOutputs (length (tx_outputs p))).

(** [inputs + ext_amount == outputs]. *)
Definition is_balanced (inputs_sum outputs_sum : NoteAmount) (ext_amount : ExtAmount) : RM bool :=
  if 0 <=? ext_amount then
    public_note ← lift_result (map_err FieldError (NoteAmount_try_from_ext ext_amount));
    lhs ← lift_result (ok_or (NoteAmount_checked_add inputs_sum public_note) LhsOverflow);
    mret (lhs =? outputs_sum)
  else
    neg ← lift_result (ok_or (ExtAmount_checked_neg ext_amount) NegationOverflow);
    public_note ← lift_result (map_err FieldError (NoteAmount_try_from_ext neg));
    rhs ← lift_result (ok_or (NoteAmount_checked_add outputs_sum public_note) RhsOverflow);
    mret (inputs_sum =? rhs).

Definition check_balance (p : TransactParams) : RM unit :=
  inputs_sum ← lift_result (sum_note_amounts_inputs (tx_inputs p));
  outputs_sum ← lift_result (sum_note_amounts_outputs (tx_outputs p));
  balanced ← is_balanced inputs_sum outputs_sum (tx_ext_amount p);
  bail_if (negb balanced) (NotBalanced inputs_sum (tx_ext_amount p) outputs_sum).

Definition prepare_inputs (depth : nat) (inputs : list TransactInputNote) : RM (list TransactInputNote) :=
  if bool_decide (inputs = []) then
    d0 ← dummy_input depth;
    d1 ← dummy_input depth;
    mret [d0; d1]
  else
    bail_if (N_INPUTS <? length inputs)%nat (TooManyInputs (length inputs));;
    push_missing (N_INPUTS - length inputs) (dummy_input depth) inputs.

Fixpoint check_paths (depth : nat) (i : nat) (slots : list TransactInputNote) : RM unit :=
  match slots with
  | [] => mret tt
  | inp :: rest =>
      bail_if (negb (bool_decide (length (merkle_path_elements inp) = depth)))
        (InputPathLength i depth (length (merkle_path_elements inp)));;
      check_paths depth (S i) rest
  end.

Definition prepare_outputs (outputs : list TransactOutput) : RM (list TransactOutput) :=
  push_missing (N_OUTPUTS - length outputs) dummy_output outputs.

Definition is_set {A} (o : option A) : bool := match o with Some _ => true | None => false end.

Fixpoint check_recipients (i : nat) (slots : list TransactOutput) : RM unit :=
  match slots with
  | [] => mret tt
  | out :: rest =>
      let has_note := is_set (recipient_note_pubkey out) in
      let has_enc := is_set (recipient_encryption_pubkey out) in
      bail_if (negb (eqb has_note has_enc)) (RecipientKeyPairing i);;
      check_recipients (S i) rest
  end.

(** What one turn of the loop over the inputs adds to the arrays. *)
Record InputSlot : Type := {
  slot_nullifier : Field;
  slot_nullifier_hex : list ascii;
  slot_amount_hex : list ascii;
  slot_priv_hex : list ascii;
  slot_blinding_hex : list ascii;
  slot_path_indices_hex : list ascii;
  slot_path_elements_hex : list (list ascii);
}.

Definition process_input (priv : NotePrivateKey) (priv_key_hex : list ascii) (sender_note_pubkey : NotePublicKey)
    (inp : TransactInputNote) : RM InputSlot :=
  let amount_field := note_amount_to_field (in_amount inp) in
  let inp_blinding_le := Field_to_le_bytes (in_blinding inp) in
  let path_indices := Field_to_le_bytes (merkle_path_indices inp) in
  commitment ← lift_fallible (compute_commitment (Field_to_le_bytes amount_field) sender_note_pubkey inp_blinding_le);
  signature ← lift_fallible (compute_signature priv commitment path_indices);
  nullifier ← lift_fallible (compute_nullifier commitment path_indices signature);
  nullifier_arr ← as_array_32 "nullifier" nullifier;
  nullifier_field ← lift_result (map_err FieldError (Field_try_from_le_bytes nullifier_arr));
  nullifier_hex ← field_to_circuit_hex nullifier_field;
  amount_hex ← field_to_circuit_hex amount_field;
  blinding_hex ← lift_fallible (field_bytes_to_hex inp_blinding_le);
  path_indices_hex ← field_to_circuit_hex (merkle_path_indices inp);
  path_elements_hex ← mapM field_to_circuit_hex (merkle_path_elements inp);
  mret {| slot_nullifier := nullifier_field; slot_nullifier_hex := nullifier_hex; slot_amount_hex := amount_hex;
          slot_priv_hex := priv_key_hex; slot_blinding_hex := blinding_hex; slot_path_indices_hex := path_indices_hex;
          slot_path_elements_hex := path_elements_hex |}.

Record OutputSlot : Type := {
  slot_commitment : Field;
  slot_encrypted : bytes;
  slot_out_amount_hex : list ascii;
  slot_pubkey_hex : list ascii;
  slot_out_blinding_hex : list ascii;
  slot_commitment_hex : list ascii;
}.

Definition process_output (enc_pubkey : EncryptionPublicKey) (sender_note_pubkey : NotePublicKey)
    (out : TransactOutput) : RM OutputSlot :=
  let note_pubkey := default sender_note_pubkey (recipient_note_pubkey out) in
  let recipient_enc_pubkey := default enc_pubkey (recipient_encryption_pubkey out) in
  let amount_field := note_amount_to_field (out_amount out) in
  let out_blinding_le := Field_to_le_bytes (out_blinding out) in
  commitment ← lift_fallible (compute_commitment (Field_to_le_bytes amount_field) note_pubkey out_blinding_le);
  commitment_arr ← as_array_32 "commitment" commitment;
  commitment_field ← lift_result (map_err FieldError (Field_try_from_le_bytes commitment_arr));
  enc ← encrypt_output_note recipient_enc_pubkey (out_amount out) (out_blinding out);
  amount_hex ← field_to_circuit_hex amount_field;
  pubkey_hex ← lift_fallible (field_bytes_to_hex note_pubkey);
  blinding_hex ← lift_fallible (field_bytes_to_hex out_blinding_le);
  commitment_hex ← field_to_circuit_hex commitment_field;
  mret {| slot_commitment := commitment_field; slot_encrypted := enc; slot_out_amount_hex := amount_hex;
          slot_pubkey_hex := pubkey_hex; slot_out_blinding_hex := blinding_hex; slot_commitment_hex := commitment_hex |}.

(** The signals of the two ASP proofs for one input slot. *)
Definition asp_signals (m : AspMembershipProof) (nm : AspNonMembershipProof) (slot : nat) (circuit : CircuitInputs)
  : RM CircuitInputs :=
  let prefix_m := ("membershipProofs[" +:+ pretty slot +:+ "][0].")%string in
  leaf ← field_to_circuit_hex (mp_leaf m);
  let circuit := set_single circuit (prefix_m +:+ "leaf") leaf in
  blinding ← field_to_circuit_hex (mp_blinding m);
  let circuit := set_single circuit (prefix_m +:+ "blinding") blinding in
  path_indices ← field_to_circuit_hex (mp_path_indices m);
  let circuit := set_single circuit (prefix_m +:+ "pathIndices") path_indices in
  path_elements ← mapM field_to_circuit_hex (mp_path_elements m);
  let circuit := set_array circuit (prefix_m +:+ "pathElements") path_elements in
  root ← field_to_circuit_hex (mp_root m);
  let circuit := set_single circuit (prefix_m +:+ "root") root in
  let prefix_n := ("nonMembershipProofs[" +:+ pretty slot +:+ "][0].")%string in
  key ← field_to_circuit_hex (nmp_key nm);
  let circuit := set_single circuit (prefix_n +:+ "key") key in
  old_key ← field_to_circuit_hex (nmp_old_key nm);
  let circuit := set_single circuit (prefix_n +:+ "oldKey") old_key in
  old_value ← field_to_circuit_hex (nmp_old_value nm);
  let circuit := set_single circuit (prefix_n +:+ "oldValue") old_value in
  is_old0 ← field_to_circuit_hex (if nmp_is_old0 nm then Field_from_note NoteAmount_ONE else Field_ZERO);
  let circuit := set_single circuit (prefix_n +:+ "isOld0") is_old0 in
  siblings ← mapM field_to_circuit_hex (nmp_siblings nm);
  let circuit := set_array circuit (prefix_n +:+ "siblings") siblings in
  root ← field_to_circuit_hex (nmp_root nm);
  mret (set_single circuit (prefix_n +:+ "root") root).

(** The arrays of the inputs and of the outputs. *)
Definition set_note_signals (ins : list InputSlot) (outs : list OutputSlot) (circuit : CircuitInputs) : CircuitInputs :=
  let circuit := set_array circuit "inputNullifier" (slot_nullifier_hex <$> ins) in
  let circuit := set_array circuit "outputCommitment" (slot_commitment_hex <$> outs) in
  let circuit := set_array circuit "inAmount" (slot_amount_hex <$> ins) in
  let circuit := set_array circuit "inPrivateKey" (slot_priv_hex <$> ins) in
  let circuit := set_array circuit "inBlinding" (slot_blinding_hex <$> ins) in
  let circuit := set_array circuit "inPathIndices" (slot_path_indices_hex <$> ins) in
  let circuit := set_array circuit "inPathElements" (concat (slot_path_elements_hex <$> ins)) in
  let circuit := set_array circuit "outAmount" (slot_out_amount_hex <$> outs) in
  let circuit := set_array circuit "outPubkey" (slot_pubkey_hex <$> outs) in
  set_array circuit "outBlinding" (slot_out_blinding_hex <$> outs).

Definition set_asp_signals (m : AspMembershipProof) (nm : AspNonMembershipProof) (circuit : CircuitInputs)
  : RM CircuitInputs :=
  membership_root_hex ← field_to_circuit_hex (mp_root m);
  non_membership_root_hex ← field_to_circuit_hex (nmp_root nm);
  let circuit := set_array circuit "membershipRoots" [membership_root_hex; membership_root_hex] in
  let circuit := set_array circuit "nonMembershipRoots" [non_membership_root_hex; non_membership_root_hex] in
  circuit ← asp_signals m nm 0 circuit;
  asp_signals m nm 1 circuit.

Definition flow_transact (p : TransactParams) : RM TransactArtifacts :=
  check_shapes p;;
  check_balance p;;
  sender_note_pubkey_bytes ← lift_fallible (derive_public_key (priv_key p));
  sender_note_pubkey ← as_array_32 "derive_public_key" sender_note_pubkey_bytes;
  input_slots ← prepare_inputs (Z.to_nat (tx_tree_depth p)) (tx_inputs p);
  check_paths (Z.to_nat (tx_tree_depth p)) 0 input_slots;;
  output_slots ← prepare_outputs (tx_outputs p);
  check_recipients 0 output_slots;;
  root_hex ← field_to_circuit_hex (pool_root p);
  let circuit := set_single ∅ "root" root_hex in
  public_amount_field ← field_from_ext (tx_ext_amount p);
  public_amount_hex ← ext_amount_to_circuit_hex (tx_ext_amount p);
  let circuit := set_single circuit "publicAmount" public_amount_hex in
  priv_key_hex ← lift_fallible (field_bytes_to_hex (priv_key p));
  ins ← mapM (process_input (priv_key p) priv_key_hex sender_note_pubkey) input_slots;
  outs ← mapM (process_output (encryption_pubkey p) sender_note_pubkey) output_slots;
  let circuit := set_note_signals ins outs circuit in
  circuit ← set_asp_signals (membership_proof p) (non_membership_proof p) circuit;
  encrypted_output0 ← or_panic ((slot_encrypted <$> outs) !! 0%nat);
  encrypted_output1 ← or_panic ((slot_encrypted <$> outs) !! 1%nat);
  let ext_data := {| fe_recipient := ext_recipient p; fe_ext_amount := tx_ext_amount p;
                     fe_encrypted_output0 := encrypted_output0; fe_encrypted_output1 := encrypted_output1 |} in
  ext_data_hash_be ← lift_result (hash_ext_data ext_data);
  let circuit := set_single circuit "extDataHash" (be32_to_0x_hex ext_data_hash_be) in
  mret {| circuit_inputs := circuit; art_ext_data := ext_data;
          prepared := {| pt_pool_root := pool_root p; pt_input_nullifiers := slot_nullifier <$> ins;
                         pt_output_commitments := slot_commitment <$> outs;
                         pt_public_amount_field := public_amount_field; pt_ext_data_hash_be := ext_data_hash_be;
                         pt_asp_membership_root := mp_root (membership_proof p);
                         pt_asp_non_membership_root := nmp_root (non_membership_proof p) |} |}.

(** ** The wrappers *)

Definition flow_deposit (d : DepositParams) : RM TransactArtifacts :=
  flow_transact
    {| priv_key := dep_priv_key d; encryption_pubkey := dep_encryption_pubkey d; pool_root := dep_pool_root d;
       ext_recipient := dep_pool_address d; tx_ext_amount := dep_amount d; tx_inputs := [];
       tx_outputs := dep_outputs d; membership_proof := dep_membership_proof d;
       non_membership_proof := dep_non_membership_proof d; tx_tree_depth := dep_tree_depth d; tx_smt_depth := dep_smt_depth d |}.

Definition flow_withdraw (w : WithdrawParams) : RM TransactArtifacts :=
  input_total ← lift_result (sum_note_amounts_inputs (wd_inputs w));
  withdraw_note_amount ← lift_result (map_err FieldError (NoteAmount_try_from_ext (withdraw_amount w)));
  bail_if (input_total <? withdraw_note_amount) (InsufficientInput input_total (withdraw_amount w));;
  change ← lift_result (ok_or (NoteAmount_checked_sub input_total withdraw_note_amount) InsufficientInputAmount);
  outputs ←
    match wd_outputs w with
    | Some v => mret v
    | None =>
        change_blinding ← generate_random_blinding;
        dummy_blinding ← generate_random_blinding;
        mret [{| out_amount := change; out_blinding := change_blinding;
                 recipient_note_pubkey := None; recipient_encryption_pubkey := None |};
              {| out_amount := NoteAmount_ZERO; out_blinding := dummy_blinding;
                 recipient_note_pubkey := None; recipient_encryption_pubkey := None |}]
    end;
  ext_amount ← lift_result (ok_or (ExtAmount_checked_neg (withdraw_amount w)) WithdrawOverflow);
  flow_transact
    {| priv_key := wd_priv_key w; encryption_pubkey := wd_encryption_pubkey w; pool_root := wd_pool_root w;
       ext_recipient := withdraw_recipient w; tx_ext_amount := ext_amount; tx_inputs := wd_inputs w;
       tx_outputs := outputs; membership_proof := wd_membership_proof w;
       non_membership_proof := wd_non_membership_proof w; tx_tree_depth := wd_tree_depth w; tx_smt_depth := wd_smt_depth w |}.

Definition flow_transfer (t : TransferParams) : RM TransactArtifacts :=
  flow_transact
    {| priv_key := tr_priv_key t; encryption_pubkey := tr_encryption_pubkey t; pool_root := tr_pool_root t;
       ext_recipient := tr_pool_address t; tx_ext_amount := ExtAmount_ZERO; tx_inputs := tr_inputs t;
       tx_outputs := tr_outputs t; membership_proof := tr_membership_proof t;
       non_membership_proof := tr_non_membership_proof t; tx_tree_depth := tr_tree_depth t; tx_smt_depth := tr_smt_depth t |}.

(** ** Selective disclosure *)

Definition selective_disclosure_1 (p : SelectiveDisclosure1Params) : RM DisclosureArtifacts :=
  root ← field_to_circuit_hex (sd_root p);
  let circuit := set_array ∅ "roots" [root] in
  commitment ← field_to_circuit_hex (sd_note_commitment p);
  let circuit := set_array circuit "noteCommitments" [commitment] in
  context ← field_to_circuit_hex (sd_ext_context_hash p);
  let circuit := set_single circuit "extContextHash" context in
  amount ← field_to_circuit_hex (note_amount_to_field (sd_note_amount p));
  let circuit := set_array circuit "inAmount" [amount] in
  priv_key_hex ← lift_fallible (field_bytes_to_hex (sd_note_private_key p));
  let circuit := set_array circuit "inPrivateKey" [priv_key_hex] in
  blinding_hex ← lift_fallible (field_bytes_to_hex (Field_to_le_bytes (sd_note_blinding p)));
  let circuit := set_array circuit "inBlinding" [blinding_hex] in
  path_indices ← field_to_circuit_hex (sd_merkle_path_indices p);
  let circuit := set_array circuit "inPathIndices" [path_indices] in
  path_elements_hex ← mapM field_to_circuit_hex (sd_merkle_path_elements p);
  let circuit := set_array circuit "inPathElements" path_elements_hex in
  mret {| da_circuit_inputs := circuit; da_ext_context_hash := sd_ext_context_hash p |}.

End flows.
