(* ===== verification/FlowFacts.v ===== *)
(** * The transaction builder, phase by phase

    For every phase of [flow_transact] the exact condition under which it succeeds and
    what it returns ([decides]); [flow_transact_decides] composes them. *)

From Stdlib Require Import Ascii.
From stdpp Require Import pretty.
From S2P Require Import Prelude Ints Amounts Hashes Serialization ProverMonad Encryption Notes Flows.

(** ** The specification *)

Definition total {A} (f : A -> Z) (l : list A) : Z := foldr (fun x acc => f x + acc) 0 l.

Lemma flow_total_app {A} (f : A -> Z) l k : total f (l ++ k) = total f l + total f k.
Proof. induction l as [|x l IH]; [done |]. cbn [app total foldr]. fold (total f l) (total f (l ++ k)). lia. Qed.

(** The values of the Rust types. *)
Record input_typed (i : TransactInputNote) : Prop := {
  it_amount : is_note (in_amount i);
  it_blinding : in_field (in_blinding i);
  it_path : Forall in_field (merkle_path_elements i);
  it_indices : in_field (merkle_path_indices i);
}.

Record output_typed (o : TransactOutput) : Prop := {
  ot_amount : is_note (out_amount o);
  ot_blinding : in_field (out_blinding o);
  ot_note_key : forall k, recipient_note_pubkey o = Some k -> length k = 32%nat;
  ot_enc_key : forall k, recipient_encryption_pubkey o = Some k -> length k = 32%nat;
}.

Record membership_typed (m : AspMembershipProof) : Prop := {
  mt_leaf : in_field (mp_leaf m);
  mt_blinding : in_field (mp_blinding m);
  mt_path : Forall in_field (mp_path_elements m);
  mt_indices : in_field (mp_path_indices m);
  mt_root : in_field (mp_root m);
}.

Record non_membership_typed (m : AspNonMembershipProof) : Prop := {
  nt_key : in_field (nmp_key m);
  nt_old_key : in_field (nmp_old_key m);
  nt_old_value : in_field (nmp_old_value m);
  nt_siblings : Forall in_field (nmp_siblings m);
  nt_root : in_field (nmp_root m);
}.

Record params_typed (p : TransactParams) : Prop := {
  pt_priv : length (priv_key p) = 32%nat;
  pt_enc : length (encryption_pubkey p) = 32%nat;
  pt_root : in_field (pool_root p);
  pt_ext : is_ext (tx_ext_amount p);
  pt_inputs : Forall input_typed (tx_inputs p);
  pt_outputs : Forall output_typed (tx_outputs p);
  pt_membership : membership_typed (membership_proof p);
  pt_non_membership : non_membership_typed (non_membership_proof p);
  pt_tree_depth : 0 <= tx_tree_depth p;
  pt_smt_depth : 0 <= tx_smt_depth p;
}.

(** The requests the builder accepts. *)
Definition shapes_ok (p : TransactParams) : Prop :=
  tx_tree_depth p <> 0 /\ tx_smt_depth p <> 0 /\
  length (mp_path_elements (membership_proof p)) = Z.to_nat (tx_tree_depth p) /\
  length (nmp_siblings (non_membership_proof p)) = Z.to_nat (tx_smt_depth p) /\
  (length (tx_outputs p) <= 2)%nat.

Definition balance_ok (p : TransactParams) : Prop :=
  total in_amount (tx_inputs p) < 2 ^ 128 /\ total out_amount (tx_outputs p) < 2 ^ 128 /\
  tx_ext_amount p <> - 2 ^ 127 /\
  total in_amount (tx_inputs p) + tx_ext_amount p = total out_amount (tx_outputs p).

Definition keys_paired (o : TransactOutput) : Prop :=
  is_Some (recipient_note_pubkey o) <-> is_Some (recipient_encryption_pubkey o).

Definition flow_acceptable (p : TransactParams) : Prop :=
  shapes_ok p /\ balance_ok p /\ (length (tx_inputs p) <= 2)%nat /\
  Forall (fun i => length (merkle_path_elements i) = Z.to_nat (tx_tree_depth p)) (tx_inputs p) /\
  Forall keys_paired (tx_outputs p).

(** A dummy input: nothing, at position zero, with a random blinding. *)
Definition is_dummy_input (depth : nat) (i : TransactInputNote) : Prop :=
  exists b, in_field b /\ i = {| in_amount := 0; in_blinding := b; merkle_path_elements := replicate depth 0; merkle_path_indices := 0 |}.

Definition is_dummy_output (o : TransactOutput) : Prop :=
  exists b, in_field b /\ o = {| out_amount := 0; out_blinding := b; recipient_note_pubkey := None; recipient_encryption_pubkey := None |}.

(** The note equations of an input and of an output. *)
Definition input_commitment (sk : Z) (i : TransactInputNote) : Z :=
  commitment_of (in_amount i) (public_key_of sk) (in_blinding i).
Definition input_nullifier (sk : Z) (i : TransactInputNote) : Z :=
  nullifier_of sk (input_commitment sk i) (merkle_path_indices i).

(** An output without recipient is the sender's. *)
Definition owner_key (sk : Z) (o : TransactOutput) : Z :=
  match recipient_note_pubkey o with Some k => scalar_of k | None => public_key_of sk end.
Definition output_commitment (sk : Z) (o : TransactOutput) : Z :=
  commitment_of (out_amount o) (owner_key sk o) (out_blinding o).
Definition seal_key (p : TransactParams) (o : TransactOutput) : bytes :=
  default (encryption_pubkey p) (recipient_encryption_pubkey o).

(** The signals of one slot. *)
Definition input_slot (sk : Z) (i : TransactInputNote) : InputSlot :=
  {| slot_nullifier := input_nullifier sk i; slot_nullifier_hex := hex_of_scalar (input_nullifier sk i);
     slot_amount_hex := hex_of_scalar (in_amount i); slot_priv_hex := hex_of_scalar sk;
     slot_blinding_hex := hex_of_scalar (in_blinding i); slot_path_indices_hex := hex_of_scalar (merkle_path_indices i);
     slot_path_elements_hex := hex_of_scalar <$> merkle_path_elements i |}.

Definition output_slot (sk : Z) (o : TransactOutput) (c : bytes) : OutputSlot :=
  {| slot_commitment := output_commitment sk o; slot_encrypted := c;
     slot_out_amount_hex := hex_of_scalar (out_amount o); slot_pubkey_hex := hex_of_scalar (owner_key sk o);
     slot_out_blinding_hex := hex_of_scalar (out_blinding o);
     slot_commitment_hex := hex_of_scalar (output_commitment sk o) |}.

(** [slots]: the given notes, then dummies, two in all. *)
Definition padded {A} (dummy : A -> Prop) (given slots : list A) : Prop :=
  exists pad, slots = given ++ pad /\ Forall dummy pad /\ length slots = 2%nat.

(** ** The signals of the circuit, in the order of the source *)

Definition signal (f : Z) : InputValue := Single (hex_of_scalar f).
Definition signals {A} (f : A -> Z) (l : list A) : InputValue := Array ((fun x => hex_of_scalar (f x)) <$> l).

Definition asp_signal_list (m : AspMembershipProof) (nm : AspNonMembershipProof) (slot : nat) : list (string * InputValue) :=
  let prefix_m := ("membershipProofs[" +:+ pretty slot +:+ "][0].")%string in
  let prefix_n := ("nonMembershipProofs[" +:+ pretty slot +:+ "][0].")%string in
  [(prefix_m +:+ "leaf", signal (mp_leaf m)); (prefix_m +:+ "blinding", signal (mp_blinding m));
   (prefix_m +:+ "pathIndices", signal (mp_path_indices m)); (prefix_m +:+ "pathElements", signals id (mp_path_elements m));
   (prefix_m +:+ "root", signal (mp_root m));
   (prefix_n +:+ "key", signal (nmp_key nm)); (prefix_n +:+ "oldKey", signal (nmp_old_key nm));
   (prefix_n +:+ "oldValue", signal (nmp_old_value nm)); (prefix_n +:+ "isOld0", signal (if nmp_is_old0 nm then 1 else 0));
   (prefix_n +:+ "siblings", signals id (nmp_siblings nm)); (prefix_n +:+ "root", signal (nmp_root nm))]%string.

Definition flow_signals (p : TransactParams) (ins : list TransactInputNote) (outs : list TransactOutput) (hash : bytes)
  : list (string * InputValue) :=
  let sk := scalar_of (priv_key p) in
  let m := membership_proof p in
  let nm := non_membership_proof p in
  [("root", signal (pool_root p)); ("publicAmount", signal (tx_ext_amount p mod BN_P));
   ("inputNullifier", signals (input_nullifier sk) ins); ("outputCommitment", signals (output_commitment sk) outs);
   ("inAmount", signals in_amount ins); ("inPrivateKey", signals (fun _ => sk) ins);
   ("inBlinding", signals in_blinding ins); ("inPathIndices", signals merkle_path_indices ins);
   ("inPathElements", signals id (concat (merkle_path_elements <$> ins)));
   ("outAmount", signals out_amount outs); ("outPubkey", signals (owner_key sk) outs);
   ("outBlinding", signals out_blinding outs);
   ("membershipRoots", signals id [mp_root m; mp_root m]);
   ("nonMembershipRoots", signals id [nmp_root nm; nmp_root nm])]%string ++
  asp_signal_list m nm 0 ++ asp_signal_list m nm 1 ++ [("extDataHash"%string, Single (be32_to_0x_hex hash))].

(** Insertion one by one is the map of the list when the names differ. *)
Definition set_all (l : list (string * InputValue)) (c : CircuitInputs) : CircuitInputs :=
  foldl (fun c kv => <[kv.1 := kv.2]> c) c l.

Lemma set_all_list_to_map l : NoDup l.*1 -> set_all l ∅ = list_to_map l.
Proof.
  intros Hnd. transitivity (list_to_map (reverse l) : CircuitInputs).
  - clear Hnd. unfold set_all. induction l as [|[k v] l IH] using rev_ind; [done |].
    rewrite foldl_app, reverse_snoc, IH. done.
  - symmetry. apply list_to_map_proper; [done |]. symmetry. apply reverse_Permutation.
Qed.

Lemma fmap_concat {A B X} (f : A -> B) (g : X -> list A) l :
  f <$> concat (g <$> l) = concat ((fun x => f <$> g x) <$> l).
Proof. induction l as [|x l IH]; [done |]. rewrite !fmap_cons. cbn [concat]. by rewrite fmap_app, IH. Qed.

(** Every signal has a name of its own. *)
Lemma flow_signal_names p ins outs hash : NoDup (flow_signals p ins outs hash).*1.
Proof.
  match goal with |- NoDup ?l => let l' := eval cbv -[signal signals] in l in change (NoDup l') end.
  apply (bool_decide_unpack _). vm_compute. exact I.
Qed.

(** ** Sums *)

Section sums.
Context {A : Type} (f : A -> Z) (e : ProverError).

Let step (acc : result ProverError Z) (x : A) : result ProverError Z :=
  s ← acc; ok_or (NoteAmount_checked_add s (f x)) e.

Lemma foldl_sum_err l e' : foldl step (Err e') l = Err e'.
Proof. induction l; [done |]. exact IHl. Qed.

Lemma total_nonneg l : Forall (fun x => is_note (f x)) l -> 0 <= total f l.
Proof. unfold is_note. induction 1 as [|x l Hx Hl IH]; [done |]. cbn [total foldr]. fold (total f l). lia. Qed.

Lemma foldl_sum l s :
  Forall (fun x => is_note (f x)) l -> 0 <= s < 2 ^ 128 ->
  foldl step (Ok s) l = if s + total f l <? 2 ^ 128 then Ok (s + total f l) else Err e.
Proof.
  intros Hl. revert s. induction Hl as [|x l Hx Hl IH]; intros s Hs.
  - cbn. rewrite Z.add_0_r, (proj2 (Z.ltb_lt _ _)) by lia. done.
  - pose proof (total_nonneg l Hl) as Hn. cbn [foldl total foldr]. fold (total f l). unfold step at 2.
    cbn [mbind result_bind]. unfold NoteAmount_checked_add, checked_add, is_note in *.
    destruct (Z.ltb_spec (s + f x) (2 ^ 128)) as [Hlt|Hge]; cbn [ok_or].
    + rewrite IH by lia. by rewrite Z.add_assoc.
    + rewrite foldl_sum_err, (proj2 (Z.ltb_ge _ _)) by lia. done.
Qed.
End sums.

Lemma sum_inputs_eq l :
  Forall input_typed l ->
  sum_note_amounts_inputs l = if total in_amount l <? 2 ^ 128 then Ok (total in_amount l) else Err InputSumOverflow.
Proof.
  intros Hl. unfold sum_note_amounts_inputs. rewrite foldl_sum by ((split; [done | reflexivity]) || (eapply Forall_impl; [exact Hl |]; apply it_amount)).
  done.
Qed.

Lemma sum_outputs_eq l :
  Forall output_typed l ->
  sum_note_amounts_outputs l = if total out_amount l <? 2 ^ 128 then Ok (total out_amount l) else Err OutputSumOverflow.
Proof.
  intros Hl. unfold sum_note_amounts_outputs. rewrite foldl_sum by ((split; [done | reflexivity]) || (eapply Forall_impl; [exact Hl |]; apply ot_amount)).
  done.
Qed.

(** ** Guards *)

Section phases.
Context {C : Crypto} {CL : CryptoLaws C}.
Variable hash_ext_data : FlowExtData -> result ProverError bytes.

(** The environment: entropy, and a hash of the external data. *)
Definition flow_env : Prop := entropy_available C /\ forall e, exists h, hash_ext_data e = Ok h.

Lemma check_shapes_decides p :
  params_typed p -> decides flow_env (shapes_ok p) (check_shapes p) (fun _ => True).
Proof.
  intros Hp. unfold check_shapes. eapply decides_conseq;
    [repeat (apply decides_guard; intros ?); apply decides_bail | | done].
  rewrite !Z.eqb_neq, !negb_false_iff, !bool_decide_eq_true, Nat.ltb_ge. unfold shapes_ok, N_OUTPUTS. tauto.
Qed.

Lemma is_balanced_decides a b x e :
  0 <= a < 2 ^ 128 -> 0 <= b < 2 ^ 128 -> is_ext x ->
  decides flow_env (x <> - 2 ^ 127 /\ a + x = b) (balanced ← is_balanced a b x; bail_if (negb balanced) e) (fun _ => True).
Proof.
  intros Ha Hb [Hlo Hhi]. change (2 ^ 128) with 340282366920938463463374607431768211456 in *.
  change (2 ^ 127) with 170141183460469231731687303715884105728 in *. intros n.
  unfold is_balanced, NoteAmount_try_from_ext, try_into_u, fits_u, ExtAmount_checked_neg, checked_neg_i, try_into_i, fits_i,
    NoteAmount_checked_add, checked_add. change (128 - 1) with 127.
  change (2 ^ 128) with 340282366920938463463374607431768211456.
  change (2 ^ 127) with 170141183460469231731687303715884105728.
  repeat (unfold lift_result, bail_if, throw, mbind, rm_bind, mret, rm_ret, ok_or, map_err;
          match goal with |- context [if ?c then _ else _] => destruct c eqn:? | |- context [negb ?c] => destruct c eqn:? end; bools; try lia;
          cbn [andb negb]).
  all: cbn; try lia.
Qed.

Lemma check_balance_decides p :
  params_typed p -> decides flow_env (balance_ok p) (check_balance p) (fun _ => True).
Proof.
  intros Hp. unfold check_balance. rewrite sum_inputs_eq, sum_outputs_eq by (apply Hp).
  pose proof (total_nonneg in_amount (tx_inputs p)) as Hi. pose proof (total_nonneg out_amount (tx_outputs p)) as Ho.
  destruct (Z.ltb_spec (total in_amount (tx_inputs p)) (2 ^ 128)) as [H1|H1].
  2: { intros n. cbn. unfold balance_ok. intros [[? _] _]. lia. }
  destruct (Z.ltb_spec (total out_amount (tx_outputs p)) (2 ^ 128)) as [H2|H2].
  2: { intros n. cbn. unfold balance_ok. intros [(_ & ? & _) _]. lia. }
  eapply decides_conseq; [| | done].
  - eapply decides_run; [intros; reflexivity |]. eapply decides_run; [intros; reflexivity |].
    apply is_balanced_decides; [| | apply Hp].
    + split; [| done]. apply Hi. eapply Forall_impl; [apply (pt_inputs p Hp) |]. apply it_amount.
    + split; [| done]. apply Ho. eapply Forall_impl; [apply (pt_outputs p Hp) |]. apply ot_amount.
  - unfold balance_ok. tauto.
Qed.
(** ** Padding *)

Lemma random_blinding_decides : decides flow_env True generate_random_blinding in_field.
Proof.
  intros n. destruct (generate_random_blinding n) as [[[b|e] n']|] eqn:E.
  - split; [done |]. by apply generate_random_blinding_Ok in E as [? _].
  - intros [_ [Ha _]]. destruct (generate_random_blinding_available n Ha) as [b Hb]. congruence.
  - unfold generate_random_blinding, mbind, rm_bind, getrandom in E. destruct (getrandom_bytes n 32); [| done].
    rewrite as_array_32_run in E by apply length_le_bytes. done.
Qed.

Lemma dummy_input_decides depth : decides flow_env True (dummy_input depth) (is_dummy_input depth).
Proof.
  eapply decides_step; [apply random_blinding_decides |]. intros b Hb. apply decides_ret. by exists b.
Qed.

Lemma dummy_output_decides : decides flow_env True dummy_output is_dummy_output.
Proof.
  eapply decides_step; [apply random_blinding_decides |]. intros b Hb. apply decides_ret. by exists b.
Qed.

Lemma push_missing_decides {A} k (push : RM A) (P : A -> Prop) slots :
  decides flow_env True push P ->
  decides flow_env True (push_missing k push slots) (fun s => exists pad, s = slots ++ pad /\ Forall P pad /\ length pad = k).
Proof.
  intros Hp. revert slots. induction k as [|k IH]; intros slots; cbn [push_missing].
  - apply decides_ret. exists []. by rewrite app_nil_r.
  - eapply decides_step; [exact Hp |]. intros x Hx. eapply decides_conseq; [apply IH | reflexivity |].
    intros s _ (pad & -> & Hpad & Hl). exists (x :: pad). rewrite <- app_assoc. cbn [length app].
    split_and!; [done | by constructor | lia].
Qed.

Lemma prepare_inputs_decides depth inputs :
  decides flow_env (length inputs <= 2)%nat (prepare_inputs depth inputs) (padded (is_dummy_input depth) inputs).
Proof.
  unfold prepare_inputs. case_bool_decide as Hnil.
  - subst inputs. eapply decides_conseq with (ok := True) (Q := padded (is_dummy_input depth) []); [| cbn; split; [lia | done] | auto].
    eapply decides_step; [apply dummy_input_decides |]. intros d0 H0.
    eapply decides_step; [apply dummy_input_decides |]. intros d1 H1.
    apply decides_ret. exists [d0; d1]. split_and!; [done | by repeat constructor | done].
  - eapply decides_conseq; [apply decides_guard; intros Hlen; apply push_missing_decides, dummy_input_decides | |].
    + rewrite Nat.ltb_ge. unfold N_INPUTS. tauto.
    + intros s [Hlen%Nat.ltb_ge _] (pad & -> & Hpad & Hl). exists pad. split_and!; [done | done |].
      rewrite length_app. unfold N_INPUTS in *. lia.
Qed.

Lemma prepare_outputs_decides outputs :
  (length outputs <= 2)%nat ->
  decides flow_env True (prepare_outputs outputs) (padded is_dummy_output outputs).
Proof.
  intros Hlen. eapply decides_conseq; [apply push_missing_decides, dummy_output_decides | done |].
  intros s _ (pad & -> & Hpad & Hl). exists pad. split_and!; [done | done |]. rewrite length_app. unfold N_OUTPUTS in *. lia.
Qed.

Lemma check_paths_decides depth i slots :
  decides flow_env (Forall (fun x => length (merkle_path_elements x) = depth) slots) (check_paths depth i slots) (fun _ => True).
Proof.
  revert i. induction slots as [|x slots IH]; intros i; cbn [check_paths].
  - apply (decides_conseq True _ _ (fun _ => True)); [by apply decides_ret | | done]. split; [constructor | done].
  - eapply decides_conseq; [apply decides_guard; intros _; apply IH | | done].
    by rewrite Forall_cons, negb_false_iff, bool_decide_eq_true.
Qed.

Lemma check_recipients_decides i slots :
  decides flow_env (Forall keys_paired slots) (check_recipients i slots) (fun _ => True).
Proof.
  revert i. induction slots as [|x slots IH]; intros i; cbn [check_recipients].
  - apply (decides_conseq True _ _ (fun _ => True)); [by apply decides_ret | | done]. split; [constructor | done].
  - eapply decides_conseq; [apply decides_guard; intros _; apply IH | | done].
    rewrite Forall_cons, negb_false_iff, eqb_true_iff. unfold keys_paired at 2, is_set. rewrite !is_Some_alt.
    destruct (recipient_note_pubkey x), (recipient_encryption_pubkey x); intuition congruence.
Qed.

(** ** Slots *)

Lemma field_to_circuit_hex_run f n : in_field f -> field_to_circuit_hex f n = Some (Ok (hex_of_scalar f), n).
Proof.
  intros Hf. unfold field_to_circuit_hex, lift_fallible, Field_to_le_bytes.
  rewrite field_bytes_to_hex_spec by apply length_le_bytes. cbn [mbind option_bind].
  fold (scalar_of (le_bytes 32 f)). by rewrite scalar_of_le_bytes.
Qed.

Lemma fields_to_circuit_hex_run l n :
  Forall in_field l -> mapM field_to_circuit_hex l n = Some (Ok (hex_of_scalar <$> l), n).
Proof.
  intros Hl. apply rm_mapM_run. intros f m Hf. rewrite Forall_forall in Hl. by apply field_to_circuit_hex_run, Hl.
Qed.

Lemma lift_hex_run b n :
  length b = 32%nat -> lift_fallible (field_bytes_to_hex b) n = Some (Ok (hex_of_scalar (scalar_of b)), n).
Proof. intros Hb. apply lift_fallible_Ok. split; [by apply field_bytes_to_hex_spec | done]. Qed.

Lemma lift_run {A} (r : option (result ProverError A)) a n : r = Some (Ok a) -> lift_fallible r n = Some (Ok a, n).
Proof. by intros ->. Qed.

Lemma lift_field_run x n :
  in_field x -> lift_result (map_err FieldError (Field_try_from_le_bytes (le_bytes 32 x))) n = Some (Ok x, n).
Proof. intros Hx. unfold lift_result. by rewrite field_of_le_bytes. Qed.

Lemma process_input_run priv i n :
  length priv = 32%nat -> input_typed i ->
  process_input priv (hex_of_scalar (scalar_of priv)) (le_bytes 32 (public_key_of (scalar_of priv))) i n =
  Some (Ok (input_slot (scalar_of priv) i), n).
Proof.
  intros Hp [Ha Hb Hpath Hidx]. apply note_in_field in Ha. unfold process_input, Field_to_le_bytes, note_amount_to_field, Field_from_note.
  erewrite rm_bind_step; [| apply lift_run, compute_commitment_eq; apply length_le_bytes].
  erewrite rm_bind_step; [| apply lift_run, compute_signature_eq; (exact Hp || apply length_le_bytes)].
  erewrite rm_bind_step; [| apply lift_run, compute_nullifier_eq; apply length_le_bytes].
  erewrite rm_bind_step; [| apply as_array_32_run, length_le_bytes].
  erewrite rm_bind_step; [| apply lift_field_run, nullifier_in_field].
  erewrite rm_bind_step; [| apply field_to_circuit_hex_run, nullifier_in_field].
  erewrite rm_bind_step; [| apply field_to_circuit_hex_run, Ha].
  erewrite rm_bind_step; [| apply lift_hex_run, length_le_bytes].
  erewrite rm_bind_step; [| apply field_to_circuit_hex_run, Hidx].
  erewrite rm_bind_step; [| apply fields_to_circuit_hex_run, Hpath].
  rewrite (scalar_of_le_bytes _ Ha), (scalar_of_le_bytes _ Hb), (scalar_of_le_bytes _ Hidx).
  rewrite (scalar_of_le_bytes _ (public_key_in_field _)), (scalar_of_le_bytes _ (commitment_in_field _ _ _)). reflexivity.
Qed.

Lemma encrypt_decides pk amount blinding :
  length pk = 32%nat ->
  decides flow_env True (encrypt_output_note pk amount blinding)
    (fun c => exists m m', encrypt_output_note pk amount blinding m = Some (Ok c, m')).
Proof.
  intros Hpk n. destruct (encrypt_output_note pk amount blinding n) as [[[c|e] n']|] eqn:E; [by eauto | |].
  - intros [_ [Ha _]]. destruct (encrypt_output_note_available pk amount blinding n Ha Hpk) as [c Hc]. congruence.
  - revert E. unfold encrypt_output_note, encrypt_note_data, getrandom, bail_if, lift_result, mbind, rm_bind, throw, mret, rm_ret.
    repeat case_match; simplify_eq; done.
Qed.

Lemma process_output_decides p o :
  length (encryption_pubkey p) = 32%nat -> output_typed o ->
  decides flow_env True
    (process_output (encryption_pubkey p) (le_bytes 32 (public_key_of (scalar_of (priv_key p)))) o)
    (fun s => exists c m m', s = output_slot (scalar_of (priv_key p)) o c /\
       encrypt_output_note (seal_key p o) (out_amount o) (out_blinding o) m = Some (Ok c, m')).
Proof.
  intros He [Ha Hb Hnk Hek]. apply note_in_field in Ha.
  unfold process_output, Field_to_le_bytes, note_amount_to_field, Field_from_note.
  set (nk := default _ (recipient_note_pubkey o)).
  assert (length nk = 32%nat /\ scalar_of nk = owner_key (scalar_of (priv_key p)) o) as [Hnl Hns].
  { unfold nk, owner_key. destruct (recipient_note_pubkey o) as [k|]; cbn [default]; [split; [by apply Hnk | reflexivity] |].
    split; [apply length_le_bytes | apply scalar_of_le_bytes, public_key_in_field]. }
  assert (length (seal_key p o) = 32%nat) as Hsl.
  { unfold seal_key. destruct (recipient_encryption_pubkey o) as [k|]; [by apply Hek | exact He]. }
  eapply decides_run; [intros; apply lift_run, compute_commitment_eq; (exact Hnl || apply length_le_bytes) |].
  eapply decides_run; [intros; apply as_array_32_run, length_le_bytes |].
  eapply decides_run; [intros; apply lift_field_run, commitment_in_field |].
  eapply decides_step; [apply encrypt_decides; exact Hsl |]. intros c (m & m' & Hc).
  eapply decides_run; [intros; apply field_to_circuit_hex_run, Ha |].
  eapply decides_run; [intros; apply lift_hex_run, Hnl |].
  eapply decides_run; [intros; apply lift_hex_run, length_le_bytes |].
  eapply decides_run; [intros; apply field_to_circuit_hex_run, commitment_in_field |].
  apply decides_ret. exists c, m, m'. split; [| exact Hc].
  rewrite (scalar_of_le_bytes _ Ha), (scalar_of_le_bytes _ Hb), Hns. reflexivity.
Qed.
(** ** The ASP signals *)

Lemma asp_signals_run m nm slot c n :
  membership_typed m -> non_membership_typed nm ->
  asp_signals m nm slot c n = Some (Ok (set_all (asp_signal_list m nm slot) c), n).
Proof.
  intros [M1 M2 M3 M4 M5] [N1 N2 N3 N4 N5]. unfold asp_signals.
  erewrite rm_bind_step; [| apply field_to_circuit_hex_run, M1].
  erewrite rm_bind_step; [| apply field_to_circuit_hex_run, M2].
  erewrite rm_bind_step; [| apply field_to_circuit_hex_run, M4].
  erewrite rm_bind_step; [| apply fields_to_circuit_hex_run, M3].
  erewrite rm_bind_step; [| apply field_to_circuit_hex_run, M5].
  erewrite rm_bind_step; [| apply field_to_circuit_hex_run, N1].
  erewrite rm_bind_step; [| apply field_to_circuit_hex_run, N2].
  erewrite rm_bind_step; [| apply field_to_circuit_hex_run, N3].
  erewrite (rm_bind_step _ _ n (hex_of_scalar (if nmp_is_old0 nm then 1 else 0)));
    [| destruct (nmp_is_old0 nm); apply field_to_circuit_hex_run; split; [discriminate | reflexivity | discriminate | reflexivity]].
  erewrite rm_bind_step; [| apply fields_to_circuit_hex_run, N4].
  erewrite rm_bind_step; [| apply field_to_circuit_hex_run, N5].
  reflexivity.
Qed.
(** ** The whole builder *)

(** What a successful call has built: two input slots and two output slots, the given notes
    first; [c0] and [c1] are the sealed outputs. *)
Definition flow_result (p : TransactParams) (art : TransactArtifacts) : Prop :=
  let sk := scalar_of (priv_key p) in
  exists ins outs c0 c1 h,
    padded (is_dummy_input (Z.to_nat (tx_tree_depth p))) (tx_inputs p) ins /\
    padded is_dummy_output (tx_outputs p) outs /\
    Forall2 (fun o c => exists m m', encrypt_output_note (seal_key p o) (out_amount o) (out_blinding o) m = Some (Ok c, m'))
      outs [c0; c1] /\
    art_ext_data art = {| fe_recipient := ext_recipient p; fe_ext_amount := tx_ext_amount p;
                          fe_encrypted_output0 := c0; fe_encrypted_output1 := c1 |} /\
    hash_ext_data (art_ext_data art) = Ok h /\
    prepared art = {| pt_pool_root := pool_root p; pt_input_nullifiers := input_nullifier sk <$> ins;
                      pt_output_commitments := output_commitment sk <$> outs;
                      pt_public_amount_field := tx_ext_amount p mod BN_P; pt_ext_data_hash_be := h;
                      pt_asp_membership_root := mp_root (membership_proof p);
                      pt_asp_non_membership_root := nmp_root (non_membership_proof p) |} /\
    circuit_inputs art = list_to_map (flow_signals p ins outs h).

Lemma dummy_input_typed depth i : is_dummy_input depth i -> input_typed i /\ length (merkle_path_elements i) = depth.
Proof.
  intros (b & Hb & ->). split; [| apply length_replicate]. constructor; cbn.
  - split; [done | reflexivity].
  - exact Hb.
  - apply Forall_replicate. split; [done | reflexivity].
  - split; [done | reflexivity].
Qed.

Lemma dummy_output_typed o : is_dummy_output o -> output_typed o /\ keys_paired o.
Proof. intros (b & Hb & ->). split; [| done]. constructor; cbn; [split; [done | reflexivity] | exact Hb | done | done]. Qed.

(** A property of the given notes and of the dummies is one of all slots. *)
Lemma padded_Forall {A} (dummy P : A -> Prop) given slots :
  (forall x, dummy x -> P x) -> padded dummy given slots -> Forall P slots <-> Forall P given.
Proof.
  intros Hd (pad & -> & Hp & _). rewrite Forall_app. split; [tauto |]. intros Hg. split; [done |].
  eapply Forall_impl; [exact Hp |]. exact Hd.
Qed.

Lemma field_from_ext_run x n : is_ext x -> field_from_ext x n = Some (Ok (x mod BN_P), n).
Proof. intros Hx. unfold field_from_ext. rewrite Field_try_from_ext_mod by done. done. Qed.

Lemma ext_amount_to_circuit_hex_run x n :
  is_ext x -> ext_amount_to_circuit_hex x n = Some (Ok (hex_of_scalar (x mod BN_P)), n).
Proof.
  intros Hx. unfold ext_amount_to_circuit_hex. rm_step (field_from_ext_run x n Hx).
  apply field_to_circuit_hex_run, in_field_mod.
Qed.

Lemma set_asp_signals_run m nm c n :
  membership_typed m -> non_membership_typed nm ->
  set_asp_signals m nm c n =
  Some (Ok (set_all (asp_signal_list m nm 1) (set_all (asp_signal_list m nm 0)
    (set_all [("membershipRoots"%string, signals id [mp_root m; mp_root m]);
              ("nonMembershipRoots"%string, signals id [nmp_root nm; nmp_root nm])] c))), n).
Proof.
  intros Hm Hn. unfold set_asp_signals.
  erewrite rm_bind_step; [| apply field_to_circuit_hex_run, Hm].
  erewrite rm_bind_step; [| apply field_to_circuit_hex_run, Hn].
  erewrite rm_bind_step; [| by apply asp_signals_run]. by rewrite asp_signals_run.
Qed.

(** The last part: everything after the guards. *)
Definition finish (p : TransactParams) (ins : list TransactInputNote) (outs : list TransactOutput) : RM TransactArtifacts :=
  let sender_note_pubkey := le_bytes 32 (public_key_of (scalar_of (priv_key p))) in
  root_hex ← field_to_circuit_hex (pool_root p);
  let circuit := set_single ∅ "root" root_hex in
  public_amount_field ← field_from_ext (tx_ext_amount p);
  public_amount_hex ← ext_amount_to_circuit_hex (tx_ext_amount p);
  let circuit := set_single circuit "publicAmount" public_amount_hex in
  priv_key_hex ← lift_fallible (field_bytes_to_hex (priv_key p));
  ins ← mapM (process_input (priv_key p) priv_key_hex sender_note_pubkey) ins;
  outs ← mapM (process_output (encryption_pubkey p) sender_note_pubkey) outs;
  let circuit := set_note_signals ins outs circuit in
  circuit ← set_asp_signals (membership_proof p) (non_membership_proof p) circuit;
  encrypted_output0 ← or_panic ((slot_encrypted <$> outs) !! 0%nat);
  encrypted_output1 ← or_panic ((slot_encrypted <$> outs) !! 1%nat);
  let ext_data := {| fe_recipient := ext_recipient p; fe_ext_amount := tx_ext_amount p;
                     fe_encrypted_output0 := encrypted_output0; fe_encrypted_output1 := encrypted_output1 |} in
  ext_data_hash_be ← lift_result (hash_ext_data ext_data);
  let circuit := set_single circuit "extDataHash" (be32_to_0x_hex ext_data_hash_be) in
  mret {| circuit_inputs := circuit; art_ext_data := ext_data;
          prepared := {| pt_pool_root := pool_root p; pt_input_nullifiers := slot_nullifier <$> ins;
                         pt_output_commitments := slot_commitment <$> outs;
                         pt_public_amount_field := public_amount_field; pt_ext_data_hash_be := ext_data_hash_be;
                         pt_asp_membership_root := mp_root (membership_proof p);
                         pt_asp_non_membership_root := nmp_root (non_membership_proof p) |} |}.

Lemma hash_ext_decides e :
  decides flow_env True (lift_result (hash_ext_data e)) (fun h => hash_ext_data e = Ok h).
Proof.
  intros n. unfold lift_result. destruct (hash_ext_data e) as [h|er] eqn:E; [done |].
  intros [_ [_ Hh]]. destruct (Hh e) as [h Hh']. congruence.
Qed.

Lemma finish_decides p ins outs :
  params_typed p -> Forall input_typed ins -> Forall output_typed outs ->
  padded (is_dummy_input (Z.to_nat (tx_tree_depth p))) (tx_inputs p) ins -> padded is_dummy_output (tx_outputs p) outs ->
  decides flow_env True (finish p ins outs) (flow_result p).
Proof.
  intros Hp Hti Hto Hins Houts. unfold finish. cbv zeta.
  eapply decides_run; [intros; apply field_to_circuit_hex_run, Hp |].
  eapply decides_run; [intros; apply field_from_ext_run, Hp |].
  eapply decides_run; [intros; apply ext_amount_to_circuit_hex_run, Hp |].
  eapply decides_run; [intros; apply lift_hex_run, Hp |].
  eapply decides_run.
  { apply (rm_mapM_run _ (input_slot (scalar_of (priv_key p)))). intros i n Hi. rewrite Forall_forall in Hti.
    apply process_input_run; [apply Hp | by apply Hti]. }
  eapply decides_step.
  { apply (decides_mapM _ output_typed); [| exact Hto]. intros o Ho. apply process_output_decides; [apply Hp | exact Ho]. }
  intros slots Hslots.
  assert (length outs = 2%nat) as Hl by (destruct Houts as (? & _ & _ & Hl); exact Hl).
  destruct outs as [|o0 [|o1 [|]]]; [discriminate Hl .. | | discriminate Hl].
  apply Forall2_cons_inv_l in Hslots as (s0 & r & (c0 & m0 & m0' & -> & He0) & Hslots & ->).
  apply Forall2_cons_inv_l in Hslots as (s1 & r' & (c1 & m1 & m1' & -> & He1) & Hslots & ->).
  apply Forall2_nil_inv_l in Hslots as ->.
  eapply decides_run; [intros; apply set_asp_signals_run; apply Hp |].
  eapply decides_run; [intros; reflexivity |]. eapply decides_run; [intros; reflexivity |].
  eapply decides_step; [apply hash_ext_decides |]. intros h Hh. apply decides_ret.
  exists ins, [o0; o1], c0, c1, h. split_and!.
  - exact Hins.
  - exact Houts.
  - repeat constructor; eauto.
  - reflexivity.
  - exact Hh.
  - cbn [prepared]. rewrite <- list_fmap_compose. reflexivity.
  - cbn [circuit_inputs]. rewrite <- set_all_list_to_map by apply flow_signal_names.
    unfold flow_signals, set_note_signals, signals. rewrite <- !list_fmap_compose. unfold set_all. rewrite !foldl_app.
    rewrite fmap_concat. reflexivity.
Qed.
Lemma flow_transact_decides p :
  params_typed p -> decides flow_env (flow_acceptable p) (flow_transact hash_ext_data p) (flow_result p).
Proof.
  intros Hp. unfold flow_transact. eapply decides_conseq; [| reflexivity | intros a _ Ha; exact Ha].
  eapply decides_bind.
  { eapply decides_conseq with (Q' := fun _ => shapes_ok p); [by apply check_shapes_decides | reflexivity |]. intros a Hs _. exact Hs. }
  intros [] Hshapes. eapply decides_bind; [by apply check_balance_decides |]. intros _ _.
  eapply decides_run; [intros; apply lift_run, derive_public_key_eq, Hp |].
  eapply decides_run; [intros; apply as_array_32_run, length_le_bytes |].
  eapply decides_bind; [apply prepare_inputs_decides |]. intros ins Hins.
  eapply decides_conseq; [eapply decides_bind; [apply check_paths_decides |] | |].
  - intros _ _. eapply decides_step; [apply prepare_outputs_decides, Hshapes |]. intros outs Houts.
    eapply decides_conseq; [eapply decides_bind; [apply check_recipients_decides |] | |].
    + intros _ _. apply (finish_decides p ins outs Hp); [| | exact Hins | exact Houts].
      * apply (padded_Forall _ input_typed _ _ (fun x H => proj1 (dummy_input_typed _ x H)) Hins), Hp.
      * apply (padded_Forall _ output_typed _ _ (fun x H => proj1 (dummy_output_typed x H)) Houts), Hp.
    + rewrite (padded_Forall _ keys_paired _ _ (fun x H => proj2 (dummy_output_typed x H)) Houts).
      split; [intros [H _]; exact H | intros H; exact (conj H I)].
    + intros a _ Ha. exact Ha.
  - rewrite (padded_Forall _ _ _ _ (fun x H => proj2 (dummy_input_typed _ x H)) Hins). reflexivity.
  - intros a _ Ha. exact Ha.
Qed.

End phases.
