(* ===== verification/Soroban.v ===== *)
(** * Contract invocations

    A contract operation reads and writes the contract's storage, can return an
    error value, and can trap (a panic, a failed [require_auth], a host error, an
    error of a called contract).  [M S E A] is the type of such a computation over
    a state [S]: like the host, it keeps the writes made before an error value, so
    that code which ignores the error ([let _ = ...]) still sees them; [invoke] is
    the call from outside, which discards every write unless the call returns. *)

From S2P Require Import Prelude Ints.

Abbreviation Address := string (only parsing).

Inductive outcome (E A : Type) : Type :=
| Ret (a : A)
| Fail (e : E)
| Trap.

Arguments Ret {E A} a.
Arguments Fail {E A} e.
Arguments Trap {E A}.

#[export] Instance outcome_eq_dec {E A} `{EqDecision E, EqDecision A} : EqDecision (outcome E A).
Proof. solve_decision. Defined.

Definition M (S E A : Type) : Type := S -> outcome E A * S.

Section monad.
Context {S E : Type}.

#[export] Instance M_ret : MRet (M S E) := fun _ a s => (Ret a, s).

#[export] Instance M_bind : MBind (M S E) := fun _ _ k m s =>
  match m s with
  | (Ret a, s') => k a s'
  | (Fail e, s') => (Fail e, s')
  | (Trap, s') => (Trap, s')
  end.

Definition gets {A} (f : S -> A) : M S E A := fun s => (Ret (f s), s).
Definition modify (f : S -> S) : M S E unit := fun s => (Ret tt, f s).
Definition fail {A} (e : E) : M S E A := fun s => (Fail e, s).
Definition trap {A} : M S E A := fun s => (Trap, s).

(** [o.ok_or(e)?] and [o.unwrap()]. *)
Definition require {A} (o : option A) (e : E) : M S E A :=
  match o with Some a => mret a | None => fail e end.
Definition unwrap {A} (o : option A) : M S E A :=
  match o with Some a => mret a | None => trap end.

(** [if b { return Err(e) }]. *)
Definition fail_if (b : bool) (e : E) : M S E unit := if b then fail e else mret tt.

(** [let _ = m]: the error value is dropped, a trap is not. *)
Definition ignore {A} (m : M S E A) : M S E unit := fun s =>
  match m s with
  | (Ret _, s') | (Fail _, s') => (Ret tt, s')
  | (Trap, s') => (Trap, s')
  end.

Fixpoint for_each {A} (l : list A) (body : A -> M S E unit) : M S E unit :=
  match l with
  | [] => mret tt
  | x :: l => body x;; for_each l body
  end.

(** An invocation from outside the contract. *)
Definition invoke {A} (m : M S E A) (s : S) : outcome E A * S :=
  match m s with
  | (Ret a, s') => (Ret a, s')
  | (o, _) => (o, s)
  end.

(** ** Reasoning *)

Lemma bind_Ret {A B} (m : M S E A) (k : A -> M S E B) s b s' :
  (m ≫= k) s = (Ret b, s') <-> exists a s1, m s = (Ret a, s1) /\ k a s1 = (Ret b, s').
Proof.
  unfold mbind, M_bind. destruct (m s) as [[a|e|] s1]; split; try done.
  - eauto.
  - by intros (? & ? & [= -> ->] & ?).
  - by intros (? & ? & ? & ?).
  - by intros (? & ? & ? & ?).
Qed.

Lemma bind_run {A B} (m : M S E A) (k : A -> M S E B) s a s1 :
  m s = (Ret a, s1) -> (m ≫= k) s = k a s1.
Proof. unfold mbind, M_bind. by intros ->. Qed.

Lemma bind_run_fail {A B} (m : M S E A) (k : A -> M S E B) s e s1 :
  m s = (Fail e, s1) -> (m ≫= k) s = (Fail e, s1).
Proof. unfold mbind, M_bind. by intros ->. Qed.

Lemma bind_run_trap {A B} (m : M S E A) (k : A -> M S E B) s s1 :
  m s = (Trap, s1) -> (m ≫= k) s = (Trap, s1).
Proof. unfold mbind, M_bind. by intros ->. Qed.

Lemma bind_assoc {A B C} (m : M S E A) (k : A -> M S E B) (h : B -> M S E C) s :
  ((m ≫= k) ≫= h) s = (m ≫= (fun a => k a ≫= h)) s.
Proof. unfold mbind, M_bind. by destruct (m s) as [[a|e|] s1]. Qed.

Lemma bind_mret {A B} (a : A) (k : A -> M S E B) s : ((mret a : M S E A) ≫= k) s = k a s.
Proof. done. Qed.
Lemma bind_gets {A B} (f : S -> A) (k : A -> M S E B) s : (gets f ≫= k) s = k (f s) s.
Proof. done. Qed.
Lemma bind_modify {B} f (k : unit -> M S E B) s : (modify f ≫= k) s = k tt (f s).
Proof. done. Qed.
Lemma bind_fail {A B} e (k : A -> M S E B) s : (fail e ≫= k) s = (Fail e, s).
Proof. done. Qed.
Lemma bind_trap {A B} (k : A -> M S E B) s : (trap ≫= k) s = (Trap, s).
Proof. done. Qed.
Lemma bind_require_Some {A B} (a : A) e (k : A -> M S E B) s : (require (Some a) e ≫= k) s = k a s.
Proof. done. Qed.
Lemma bind_unwrap_Some {A B} (a : A) (k : A -> M S E B) s : (unwrap (Some a) ≫= k) s = k a s.
Proof. done. Qed.

Lemma require_Ret {A} (o : option A) e s a s' :
  require o e s = (Ret a, s') <-> o = Some a /\ s' = s.
Proof. destruct o; cbn; split; [by intros [= -> ->] | by intros ([= ->] & ->) | done | by intros [? _]]. Qed.

Lemma unwrap_Ret {A} (o : option A) s a s' : unwrap o s = (Ret a, s') <-> o = Some a /\ s' = s.
Proof. destruct o; cbn; split; [by intros [= -> ->] | by intros ([= ->] & ->) | done | by intros [? _]]. Qed.

Lemma fail_if_Ret b e s u s' : fail_if b e s = (Ret u, s') <-> b = false /\ s' = s.
Proof.
  destruct b; cbn; split; [done | by intros [? _] | by intros [= <- <-] |].
  intros [_ ->]. by destruct u.
Qed.

Lemma gets_Ret {A} (f : S -> A) s a s' : gets f s = (Ret a, s') <-> a = f s /\ s' = s.
Proof. cbn; split; [by intros [= <- <-] | by intros [-> ->]]. Qed.

Lemma modify_Ret f s u s' : modify f s = (Ret u, s') <-> s' = f s.
Proof. cbn; split; [by intros [= _ <-] | intros ->; by destruct u]. Qed.

Lemma mret_Ret {A} (a b : A) s s' : (mret a : M S E A) s = (Ret b, s') <-> b = a /\ s' = s.
Proof. cbn; split; [by intros [= <- <-] | by intros [-> ->]]. Qed.

(** What a property of the state survives: every step of the computation. *)
Definition preserves (P : S -> Prop) {A} (m : M S E A) : Prop := forall s, P s -> P (m s).2.

Lemma preserves_bind P {A B} (m : M S E A) (k : A -> M S E B) :
  preserves P m -> (forall a, preserves P (k a)) -> preserves P (m ≫= k).
Proof.
  intros Hm Hk s Hs. specialize (Hm s Hs). unfold mbind, M_bind.
  destruct (m s) as [[a|e|] s1]; [by apply Hk | done | done].
Qed.

Lemma for_each_app {A} (l1 l2 : list A) (body : A -> M S E unit) s :
  for_each (l1 ++ l2) body s = (for_each l1 body;; for_each l2 body) s.
Proof.
  revert s. induction l1 as [|x l1 IH]; intros s; [done |]. cbn [app for_each].
  rewrite bind_assoc. unfold mbind, M_bind. destruct (body x s) as [[?|?|] s2]; [apply IH | done | done].
Qed.

Lemma for_each_Ret {A} (l : list A) (body : A -> M S E unit) (f : A -> S -> S) s :
  (forall x s, x ∈ l -> body x s = (Ret tt, f x s)) ->
  for_each l body s = (Ret tt, foldl (fun s x => f x s) s l).
Proof.
  revert s. induction l as [|x l IH]; intros s Hb; [done |]. cbn [for_each foldl].
  rewrite (bind_run _ _ s tt (f x s)) by (apply Hb; set_solver).
  apply IH. intros; apply Hb; set_solver.
Qed.

(** A loop of checks: it goes on while [ok] holds and stops with [e] where it
    does not, leaving the state alone. *)
Lemma for_each_check {A} (l : list A) (body : A -> M S E unit) (ok : A -> bool) e s :
  (forall x, x ∈ l -> body x s = if ok x then (Ret tt, s) else (Fail e, s)) ->
  for_each l body s = if forallb ok l then (Ret tt, s) else (Fail e, s).
Proof.
  induction l as [|x l IH]; intros Hb; [done |]. cbn [for_each forallb].
  specialize (Hb x ltac:(set_solver)) as Hx. destruct (ok x); cbn [andb].
  - rewrite (bind_run _ _ s tt s Hx). apply IH. intros; apply Hb; set_solver.
  - by rewrite (bind_run_fail _ _ s e s Hx).
Qed.

End monad.

(** [addr.require_auth()]: the host traps when [addr] did not authorise the call. *)
Definition require_auth {S E} (authorised : Address -> bool) (a : Address) : M S E unit :=
  if authorised a then mret tt else trap.

Lemma require_auth_Ret {S E} auth a (s : S) u s' :
  require_auth (E := E) auth a s = (Ret u, s') <-> auth a = true /\ s' = s.
Proof.
  unfold require_auth. destruct (auth a); cbn; split; [by intros [= _ <-] | intros [_ ->]; by destruct u | done | by intros [? _]].
Qed.

(** Split a returning computation into its steps. *)
Ltac run_inv :=
  repeat match goal with
  | H : (_ ≫= _) _ = (Ret _, _) |- _ => apply bind_Ret in H; destruct H as (? & ? & ? & H)
  | H : require _ _ _ = (Ret _, _) |- _ => apply require_Ret in H; destruct H as [? ->]
  | H : unwrap _ _ = (Ret _, _) |- _ => apply unwrap_Ret in H; destruct H as [? ->]
  | H : fail_if _ _ _ = (Ret _, _) |- _ => apply fail_if_Ret in H; destruct H as [? ->]
  | H : require_auth _ _ _ = (Ret _, _) |- _ => apply require_auth_Ret in H; destruct H as [? ->]
  | H : gets _ _ = (Ret _, _) |- _ => apply gets_Ret in H; destruct H as [-> ->]
  | H : modify _ _ = (Ret _, _) |- _ => apply modify_Ret in H; subst
  | H : mret _ _ = (Ret _, _) |- _ => apply mret_Ret in H; destruct H as [-> ->]
  | H : fail _ _ = (Ret _, _) |- _ => discriminate H
  | H : trap _ = (Ret _, _) |- _ => discriminate H
  | H : (Fail _, _) = (Ret _, _) |- _ => discriminate H
  | H : (Trap, _) = (Ret _, _) |- _ => discriminate H
  end.

(** Run the steps whose result is known. *)
Ltac mstep :=
  first
    [ rewrite bind_assoc | rewrite bind_mret | rewrite bind_gets | rewrite bind_modify
    | rewrite bind_fail | rewrite bind_trap | rewrite bind_require_Some | rewrite bind_unwrap_Some ];
  cbv beta.
Ltac msteps := repeat mstep.

Lemma invoke_Ret {S E A} (m : M S E A) s a s' : invoke m s = (Ret a, s') <-> m s = (Ret a, s').
Proof. unfold invoke. destruct (m s) as [[?|?|] ?]; split; done. Qed.

(** An invocation that does not return changes nothing. *)
Lemma invoke_rollback {S E A} (m : M S E A) s :
  (forall a s', m s <> (Ret a, s')) -> (invoke m s).2 = s.
Proof. unfold invoke. destruct (m s) as [[?|?|] ?] eqn:E'; intros H; [by destruct (H a s0) | done | done]. Qed.

(** A computation on a part of the state, its error values converted ([?] with a
    [From] conversion). *)
Definition zoom {S T E F A} (part : S -> T) (set_part : T -> S -> S) (conv : E -> F)
    (m : M T E A) : M S F A := fun s =>
  let '(o, t) := m (part s) in
  (match o with Ret a => Ret a | Fail e => Fail (conv e) | Trap => Trap end, set_part t s).

Lemma zoom_run {S T E F A} (part : S -> T) set_part (conv : E -> F) (m : M T E A) s a t :
  m (part s) = (Ret a, t) -> zoom part set_part conv m s = (Ret a, set_part t s).
Proof. unfold zoom. by intros ->. Qed.

Lemma zoom_fail {S T E F A} (part : S -> T) set_part (conv : E -> F) (m : M T E A) s e t :
  m (part s) = (Fail e, t) -> zoom part set_part conv m s = (Fail (conv e), set_part t s).
Proof. unfold zoom. by intros ->. Qed.

Lemma zoom_trap {S T E F A} (part : S -> T) set_part (conv : E -> F) (m : M T E A) s t :
  m (part s) = (Trap, t) -> zoom part set_part conv m s = (Trap, set_part t s).
Proof. unfold zoom. by intros ->. Qed.

(** ** [soroban_utils::update_admin]

    [K] is the storage key the caller keeps its administrator under, here its
    getter and setter. *)
Definition utils_update_admin {S E} (get_admin : S -> option Address) (set_admin : Address -> S -> S)
    (authorised : Address -> bool) (new_admin : Address) : M S E unit :=
  stored ← gets get_admin;
  admin ← unwrap stored;
  require_auth authorised admin;;
  modify (set_admin new_admin).

(** ** Abstract computations and simulation

    [SM T E A] is the specification's side: a function of an abstract state that
    returns the next one, or refuses.  [simulates R m f]: whenever the states are
    related, the contract's computation [m] has the outcome [f] says, and ends in a
    related state when it returns. *)

Definition SM (T E A : Type) : Type := T -> outcome E (A * T).

Section spec_monad.
Context {T E : Type}.

#[export] Instance SM_ret : MRet (SM T E) := fun _ a t => Ret (a, t).

#[export] Instance SM_bind : MBind (SM T E) := fun _ _ k m t =>
  match m t with
  | Ret (a, t') => k a t'
  | Fail e => Fail e
  | Trap => Trap
  end.

Definition sgets {A} (f : T -> A) : SM T E A := fun t => Ret (f t, t).
Definition smodify (f : T -> T) : SM T E unit := fun t => Ret (tt, f t).
Definition sfail {A} (e : E) : SM T E A := fun _ => Fail e.
Definition strap {A} : SM T E A := fun _ => Trap.
Definition scheck (b : bool) (e : E) : SM T E unit := if b then mret tt else sfail e.
Definition sunwrap {A} (o : option A) : SM T E A := match o with Some a => mret a | None => strap end.

Lemma scheck_bind {A} (b : bool) (e : E) (k : unit -> SM T E A) t :
  (scheck b e ≫= k) t = if b then k tt t else Fail e.
Proof. by destruct b. Qed.

Lemma sbind_Ret {A B} (m : SM T E A) (k : A -> SM T E B) t b t' :
  (m ≫= k) t = Ret (b, t') <-> exists a t1, m t = Ret (a, t1) /\ k a t1 = Ret (b, t').
Proof.
  unfold mbind, SM_bind. destruct (m t) as [[a t1]|e|]; split; try done.
  - eauto.
  - by intros (? & ? & [= -> ->] & ?).
  - by intros (? & ? & ? & ?).
  - by intros (? & ? & ? & ?).
Qed.

Lemma scheck_Ret b e t u t' : scheck b e t = Ret (u, t') <-> b = true /\ t' = t.
Proof.
  destruct b; cbn; split; [by intros [= _ <-] | intros [_ ->]; by destruct u | done | by intros [? _]].
Qed.

Lemma sunwrap_Ret {A} (o : option A) t a t' : sunwrap o t = Ret (a, t') <-> o = Some a /\ t' = t.
Proof. destruct o; cbn; split; [by intros [= -> ->] | by intros ([= ->] & ->) | done | by intros [? _]]. Qed.

Lemma sgets_Ret {A} (f : T -> A) t a t' : sgets f t = Ret (a, t') <-> a = f t /\ t' = t.
Proof. cbn; split; [by intros [= <- <-] | by intros [-> ->]]. Qed.

Lemma smodify_Ret f t u t' : smodify f t = Ret (u, t') <-> t' = f t.
Proof. cbn; split; [by intros [= _ <-] | intros ->; by destruct u]. Qed.

Lemma smret_Ret {A} (a b : A) t t' : (mret a : SM T E A) t = Ret (b, t') <-> b = a /\ t' = t.
Proof. cbn; split; [by intros [= <- <-] | by intros [-> ->]]. Qed.

End spec_monad.

Section simulation.
Context {S T E : Type} (R : S -> T -> Prop).

Definition simulates {A} (m : M S E A) (f : SM T E A) : Prop :=
  forall s t, R s t ->
    match f t with
    | Ret (a, t') => exists s', m s = (Ret a, s') /\ R s' t'
    | Fail e => exists s', m s = (Fail e, s')
    | Trap => exists s', m s = (Trap, s')
    end.

Lemma sim_bind {A B} (m : M S E A) f (k : A -> M S E B) g :
  simulates m f -> (forall a, simulates (k a) (g a)) -> simulates (m ≫= k) (f ≫= g).
Proof.
  intros Hm Hk s t Hst. specialize (Hm s t Hst). unfold mbind, SM_bind, M_bind.
  destruct (f t) as [[a t']|e|].
  - destruct Hm as (s' & -> & Hst'). by apply Hk.
  - destruct Hm as (s' & ->). eauto.
  - destruct Hm as (s' & ->). eauto.
Qed.

Lemma sim_ret {A} (a : A) : simulates (mret a) (mret a).
Proof. intros s t Hst. cbn. eauto. Qed.

Lemma sim_fail {A} (e : E) : simulates (A := A) (fail e) (sfail e).
Proof. intros s t Hst. cbn. unfold fail. eauto. Qed.

Lemma sim_fail_if b (c : bool) e : b = negb c -> simulates (fail_if b e) (scheck c e).
Proof. intros ->. destruct c; [apply sim_ret | apply sim_fail]. Qed.

Lemma sim_unwrap {A} (o : option A) : simulates (unwrap o) (sunwrap o).
Proof. destruct o; [apply sim_ret |]. intros s t Hst. cbn. unfold trap. eauto. Qed.

(** A field the abstract state has too. *)
Lemma sim_get {A} (f : S -> option A) (g : T -> A) e :
  (forall s t, R s t -> f s = Some (g t)) -> simulates (o ← gets f; require o e) (sgets g).
Proof. intros H s t Hst. cbn. rewrite bind_gets, (H s t Hst). cbn. eauto. Qed.

Lemma sim_gets {A} (f : S -> A) (g : T -> A) :
  (forall s t, R s t -> f s = g t) -> simulates (gets f) (sgets g).
Proof. intros H s t Hst. cbn. exists s. by rewrite <- (H s t Hst). Qed.

Lemma sim_modify f g : (forall s t, R s t -> R (f s) (g t)) -> simulates (modify f) (smodify g).
Proof. intros H s t Hst. cbn. exists (f s). auto. Qed.

(** The invocation has the specified outcome and leaves the state alone unless it
    returns. *)
Lemma simulates_invoke {A} (m : M S E A) f s t :
  simulates m f -> R s t ->
  match f t with
  | Ret (a, t') => exists s', invoke m s = (Ret a, s') /\ R s' t'
  | Fail e => invoke m s = (Fail e, s)
  | Trap => invoke m s = (Trap, s)
  end.
Proof.
  intros Hm Hst. specialize (Hm s t Hst). unfold invoke. destruct (f t) as [[a t']|e|].
  - destruct Hm as (s' & -> & Hst'). eauto.
  - by destruct Hm as (s' & ->).
  - by destruct Hm as (s' & ->).
Qed.

End simulation.

(** Split a returning abstract computation into its steps. *)
Ltac srun_inv :=
  repeat match goal with
  | H : (_ ≫= _) _ = Ret _ |- _ => apply sbind_Ret in H; destruct H as (? & ? & ? & H)
  | H : scheck _ _ _ = Ret _ |- _ => apply scheck_Ret in H; destruct H as [? ->]
  | H : sunwrap _ _ = Ret _ |- _ => apply sunwrap_Ret in H; destruct H as [? ->]
  | H : sgets _ _ = Ret _ |- _ => apply sgets_Ret in H; destruct H as [-> ->]
  | H : smodify _ _ = Ret _ |- _ => apply smodify_Ret in H; subst
  | H : mret _ _ = Ret _ |- _ => apply smret_Ret in H; destruct H as [-> ->]
  | H : strap _ = Ret _ |- _ => discriminate H
  | H : sfail _ _ = Ret _ |- _ => discriminate H
  | H : (if ?b then mret tt else strap) _ = Ret _ |- _ => destruct b eqn:?; [| discriminate H]
  end.
