(* ===== verification/MerkleSpec.v ===== *)
(** * Append-only Merkle trees

    The two append-only trees of the contracts (the pool's, which adds leaves in
    pairs, and the membership tree, which adds one) keep, of a tree of fixed depth,
    only the last left node of each level.  This file has the specification (the
    hash tree over the leaves padded with the zero leaf), the update loop both
    contracts run, and its correctness against the specification. *)

From S2P Require Import Prelude Ints Amounts Poseidon2Tables Hashes Soroban.

(** ** The hash interface *)

(** What the trees rely on of the compression function: it is total and closed on
    canonical elements and traps ([None]) on anything larger. *)
Class Compression (compress : Z -> Z -> option Z) : Prop := {
  compress_total : forall l r, in_field l -> in_field r ->
    exists h, compress l r = Some h /\ in_field h;
  compress_range : forall l r, BN_P <= l \/ BN_P <= r -> compress l r = None;
}.

(** [zs] are the roots of the empty trees of each depth. *)
Record zero_chain (compress : Z -> Z -> option Z) (depth : nat) (zs : list Z) : Prop := {
  zeros_length : (depth < length zs)%nat;
  zeros_field : Forall in_field zs;
  zeros_step : forall l z z', (l < depth)%nat -> zs !! l = Some z -> zs !! S l = Some z' -> compress z z = Some z';
}.

(** ** The specification *)

Section spec.
Context (compress : Z -> Z -> option Z) (zero_leaf : Z).

Definition hash2 (l r : Z) : Z := default 0 (compress l r).

(** The node [i] of level [l] over [leaves]; leaves are at level 0. *)
Fixpoint node (leaves : list Z) (l : nat) (i : Z) : Z :=
  match l with
  | O => default zero_leaf (zlookup leaves i)
  | S l => hash2 (node leaves l (2 * i)) (node leaves l (2 * i + 1))
  end.

Definition tree_root (leaves : list Z) (depth : nat) : Z := node leaves depth 0.

Context `{!Compression compress}.

Lemma compress_hash2 l r : in_field l -> in_field r -> compress l r = Some (hash2 l r).
Proof. intros Hl Hr. destruct (compress_total l r Hl Hr) as (h & E & _). unfold hash2. by rewrite E. Qed.

Lemma hash2_field l r : in_field l -> in_field r -> in_field (hash2 l r).
Proof. intros Hl Hr. destruct (compress_total l r Hl Hr) as (h & E & Hh). unfold hash2. by rewrite E. Qed.

Lemma node_field leaves l i : in_field zero_leaf -> Forall in_field leaves -> in_field (node leaves l i).
Proof.
  intros Hz Hall. revert i. induction l as [|l IH]; intros i; cbn [node]; [| by apply hash2_field].
  unfold zlookup. destruct (i <? 0); [done |]. destruct (leaves !! _) eqn:E; [| done].
  rewrite Forall_lookup in Hall. by eapply Hall.
Qed.

(** A node over positions beyond the leaves is the empty tree's root. *)
Lemma node_empty zs depth leaves l i z :
  zero_chain compress depth zs -> zs !! 0%nat = Some zero_leaf -> (l <= depth)%nat ->
  zs !! l = Some z -> zlength leaves <= i * 2 ^ Z.of_nat l -> node leaves l i = z.
Proof.
  intros Hzs H0. revert i z. induction l as [|l IH]; intros i z Hl Hz Hi; cbn [node].
  - simplify_eq. unfold zlookup, zlength in *. case_if; [done |]. by rewrite lookup_ge_None_2 by lia.
  - destruct (lookup_lt_is_Some_2 zs l) as [z0 Hz0]; [pose proof (zeros_length _ _ _ Hzs); lia |].
    rewrite Nat2Z.inj_succ, Z.pow_succ_r in Hi by lia.
    rewrite (IH (2 * i) z0), (IH (2 * i + 1) z0); [| lia | done | nia | lia | done | nia].
    unfold hash2. by rewrite (zeros_step _ _ _ Hzs l z0 z) by (done || lia).
Qed.

(** A node whose leaves are all present does not depend on later ones. *)
Lemma node_app leaves more l i :
  0 <= i -> (i + 1) * 2 ^ Z.of_nat l <= zlength leaves -> node (leaves ++ more) l i = node leaves l i.
Proof.
  revert i. induction l as [|l IH]; intros i Hi Hlen; cbn [node].
  - unfold zlookup, zlength in *. case_if; [done |]. cbn in Hlen. by rewrite lookup_app_l by lia.
  - rewrite Nat2Z.inj_succ, Z.pow_succ_r in Hlen by lia.
    pose proof (Z.pow_pos_nonneg 2 (Z.of_nat l)). rewrite !IH by nia. done.
Qed.

End spec.

(** ** The update loop *)

(** What the loop reads and writes of a contract's storage. *)
Class PathStore (S E : Type) := {
  filled_subtrees : S -> gmap Z Z;
  set_filled_subtree : Z -> Z -> S -> S;
  stored_zeroes : S -> gmap Z Z;
  path_not_initialized : E;
}.

(** Writing a subtree changes that entry and no zero. *)
Class PathStoreLaws S E `{PathStore S E} : Prop := {
  filled_set : forall l h s, filled_subtrees (set_filled_subtree l h s) = <[l := h]> (filled_subtrees s);
  zeroes_set : forall l h s, stored_zeroes (set_filled_subtree l h s) = stored_zeroes s;
}.

Section path.
Context {S E : Type} `{PathStore S E} (compress : Z -> Z -> option Z).

Fixpoint insert_path (lvls : list Z) (current_index current_hash : Z) : M S E Z :=
  match lvls with
  | [] => mret current_hash
  | lvl :: lvls =>
      current_hash ←
        (if Z.land current_index 1 =? 1 then
           filled ← gets filled_subtrees;
           left ← require (filled !! lvl) path_not_initialized;
           unwrap (compress left current_hash)
         else
           modify (set_filled_subtree lvl current_hash);;
           zeroes ← gets stored_zeroes;
           zero_val ← require (zeroes !! lvl) path_not_initialized;
           unwrap (compress current_hash zero_val));
      insert_path lvls (Z.shiftr current_index 1) current_hash
  end.

(** The writes of a run of the loop. *)
Definition write_filled (ws : list (Z * Z)) (s : S) : S :=
  foldl (fun s w => set_filled_subtree w.1 w.2 s) s ws.

End path.

Section path_spec.
Context {S E : Type} `{PathStore S E, !PathStoreLaws S E}.
Context (compress : Z -> Z -> option Z) `{!Compression compress} (zero_leaf : Z).
Context (depth : nat) (zs : list Z) (Hzs : zero_chain compress depth zs) (Hz0 : zs !! 0%nat = Some zero_leaf).

Local Abbreviation node := (node compress zero_leaf).

(** [filled] holds the last complete left node of every level from [l0] on at
    which the [n] leaves end inside a right child. *)
Definition frontier (leaves : list Z) (filled : gmap Z Z) (l0 l1 : nat) (n : Z) : Prop :=
  forall l, (l0 <= l < l1)%nat -> Z.odd (n / 2 ^ Z.of_nat l) = true ->
    filled !! Z.of_nat l = Some (node leaves l (n / 2 ^ Z.of_nat l - 1)).

(** The stored zeros are the chain's. *)
Definition zeroes_ok (zeroes : gmap Z Z) : Prop :=
  forall l, (l <= depth)%nat -> zeroes !! Z.of_nat l = zs !! l.

Lemma zero_leaf_field : in_field zero_leaf.
Proof. pose proof (zeros_field _ _ _ Hzs) as Hf. rewrite Forall_lookup in Hf. by eapply Hf. Qed.

Lemma pow2_succ l : 2 ^ Z.of_nat (Datatypes.S l) = 2 * 2 ^ Z.of_nat l.
Proof. rewrite Nat2Z.inj_succ, Z.pow_succ_r; lia. Qed.

Lemma pow2_pos l : 0 < 2 ^ Z.of_nat l.
Proof. apply Z.pow_pos_nonneg; lia. Qed.

Lemma div_pow2_succ n l : n / 2 ^ Z.of_nat l / 2 = n / 2 ^ Z.of_nat (Datatypes.S l).
Proof. rewrite Z.div_div by (pose proof (pow2_pos l); lia). by rewrite pow2_succ, Z.mul_comm. Qed.

(** Adding a block of [2^s] leaves at a multiple of [2^s] moves the index of a level
    above by one exactly where the block completes the level's node. *)
Lemma block_index s l n :
  (s <= l)%nat -> 0 <= n -> (2 ^ Z.of_nat s | n) ->
  (n / 2 ^ Z.of_nat l + 1) * 2 ^ Z.of_nat l >= n + 2 ^ Z.of_nat s /\
  ((n + 2 ^ Z.of_nat s) / 2 ^ Z.of_nat l = n / 2 ^ Z.of_nat l \/
   (n + 2 ^ Z.of_nat s) / 2 ^ Z.of_nat l = n / 2 ^ Z.of_nat l + 1 /\
   (n / 2 ^ Z.of_nat l + 1) * 2 ^ Z.of_nat l = n + 2 ^ Z.of_nat s).
Proof.
  intros Hsl Hn [q Hq]. pose proof (pow2_pos s) as Hs. pose proof (pow2_pos l) as Hl.
  assert (2 ^ Z.of_nat l = 2 ^ (Z.of_nat l - Z.of_nat s) * 2 ^ Z.of_nat s) as Hp.
  { rewrite <- Z.pow_add_r by lia. f_equal. lia. }
  set (A := 2 ^ Z.of_nat s) in *. set (B := 2 ^ Z.of_nat l) in *.
  set (m := 2 ^ (Z.of_nat l - Z.of_nat s)) in *.
  assert (n / B = q / m) as Hdiv by (rewrite Hq, Hp, Z.div_mul_cancel_r; nia).
  assert ((n + A) / B = (q + 1) / m) as Hdiv'.
  { replace (n + A) with ((q + 1) * A) by lia. rewrite Hp, Z.div_mul_cancel_r; nia. }
  assert (0 < m) as Hm by nia. rewrite Hdiv, Hdiv'.
  pose proof (Z.div_mod q m ltac:(lia)). pose proof (Z.mod_pos_bound q m Hm).
  set (d := q / m) in *. set (r := q mod m) in *. split; [nia |].
  destruct (decide (r + 1 = m)).
  - right. split; [| nia]. symmetry. apply (Z.div_unique_pos _ _ _ 0); lia.
  - left. symmetry. apply (Z.div_unique_pos _ _ _ (r + 1)); lia.
Qed.

Section insertion.
(** A block [more] of [2^s0] leaves appended to [leaves]. *)
Context (leaves more : list Z) (s0 : nat).
Context (Hleaves : Forall in_field leaves) (Hmore : Forall in_field more).
Context (Hblock : zlength more = 2 ^ Z.of_nat s0) (Halign : (2 ^ Z.of_nat s0 | zlength leaves)).

Local Abbreviation n := (zlength leaves).
Local Abbreviation n' := (zlength leaves + 2 ^ Z.of_nat s0).
Local Abbreviation idx l := (zlength leaves / 2 ^ Z.of_nat l).

Lemma idx_nonneg l : 0 <= idx l.
Proof. apply Z.div_pos; [unfold zlength; lia | apply pow2_pos]. Qed.

Lemma new_field l i : in_field (node (leaves ++ more) l i).
Proof. apply node_field; [done | apply zero_leaf_field | by apply Forall_app]. Qed.

Lemma length_new : zlength (leaves ++ more) = n'.
Proof. unfold zlength in *. rewrite length_app. lia. Qed.

(** The node being updated combined with its sibling is the node above. *)
Lemma path_right l :
  (s0 <= l)%nat -> Z.odd (idx l) = true ->
  compress (node leaves l (idx l - 1)) (node (leaves ++ more) l (idx l)) =
  Some (node (leaves ++ more) (Datatypes.S l) (idx (Datatypes.S l))).
Proof using All.
  intros Hl Hodd. pose proof (idx_nonneg l). apply Z.odd_spec in Hodd as [q Hq].
  rewrite <- (node_app compress zero_leaf leaves more l (idx l - 1)).
  2: lia.
  2: { pose proof (Z.mul_div_le n (2 ^ Z.of_nat l) (pow2_pos l)). lia. }
  rewrite (compress_hash2 compress) by apply new_field. cbn [MerkleSpec.node]. do 2 f_equal.
  all: rewrite <- div_pow2_succ; f_equal; rewrite Hq; rewrite <- (Z.div_unique_pos (2 * q + 1) 2 q 1); lia.
Qed.

Lemma path_left l z :
  (s0 <= l < depth)%nat -> Z.odd (idx l) = false -> zs !! l = Some z ->
  compress (node (leaves ++ more) l (idx l)) z =
  Some (node (leaves ++ more) (Datatypes.S l) (idx (Datatypes.S l))).
Proof using All.
  intros Hl Hodd Hz. pose proof (idx_nonneg l).
  rewrite <- Z.negb_even, negb_false_iff in Hodd. apply Z.even_spec in Hodd as [q Hq].
  assert (node (leaves ++ more) l (idx l + 1) = z) as Hsib.
  { eapply node_empty; [done | done | | done |]; [lia |]. rewrite length_new.
    destruct (block_index s0 l n); [lia | unfold zlength; lia | done | lia]. }
  rewrite <- Hsib, (compress_hash2 compress) by apply new_field. cbn [MerkleSpec.node]. do 2 f_equal.
  all: rewrite <- div_pow2_succ; f_equal; rewrite Hq; rewrite <- (Z.div_unique_pos (2 * q) 2 q 0); lia.
Qed.

(** At a level the block leaves the index alone, an old left node stays. *)
Lemma frontier_keep l :
  (s0 <= l)%nat -> Z.odd (idx l) = true -> (n' / 2 ^ Z.of_nat l) = idx l ->
  node leaves l (idx l - 1) = node (leaves ++ more) l (n' / 2 ^ Z.of_nat l - 1).
Proof using All.
  intros Hl Hodd ->. pose proof (idx_nonneg l). apply Z.odd_spec in Hodd as [q Hq].
  symmetry. apply node_app; [lia |].
  pose proof (Z.mul_div_le n (2 ^ Z.of_nat l) (pow2_pos l)). lia.
Qed.

Lemma insert_path_from k l (s : S) :
  (l + k)%nat = depth -> (s0 <= l)%nat -> zeroes_ok (stored_zeroes s) ->
  frontier leaves (filled_subtrees s) l depth n ->
  frontier (leaves ++ more) (filled_subtrees s) s0 l n' ->
  exists ws,
    insert_path compress (zrange (Z.of_nat l) k) (idx l) (node (leaves ++ more) l (idx l)) s =
      (Ret (node (leaves ++ more) depth (idx depth)), write_filled ws s) /\
    zeroes_ok (stored_zeroes (write_filled ws s)) /\
    frontier (leaves ++ more) (filled_subtrees (write_filled ws s)) s0 depth n'.
Proof using All.
  revert l s. induction k as [|k IH]; intros l s Hk Hl Hz Hold Hnew.
  { assert (l = depth) as -> by lia. exists []. cbn. done. }
  rewrite zrange_S. cbn [insert_path]. rewrite land_1, shiftr_1, Zmod_odd, div_pow2_succ.
  destruct (lookup_lt_is_Some_2 zs l) as [z Hzl]; [pose proof (zeros_length _ _ _ Hzs); lia |].
  destruct (block_index s0 l n) as [_ Hidx]; [done | unfold zlength; lia | done |].
  assert (Z.of_nat l + 1 = Z.of_nat (Datatypes.S l)) as -> by lia.
  destruct (Z.odd (idx l)) eqn:Hodd; cbn [Z.eqb Pos.eqb].
  - msteps. rewrite (Hold l) by (done || lia). msteps. rewrite path_right by done.
    msteps. apply IH; [lia | lia | done | |].
    + intros j Hj. apply Hold. lia.
    + intros j Hj Hoj. destruct (decide (j = l)) as [-> | ]; [| apply Hnew; [lia | done]].
      destruct Hidx as [E' | [E' _]].
      * rewrite <- frontier_keep by done. apply Hold; [lia | done].
      * rewrite E', Z.add_1_r, Z.odd_succ, <- Z.negb_odd, Hodd in Hoj. done.
  - msteps. rewrite zeroes_set, (Hz l), Hzl by lia. msteps. rewrite path_left by (done || lia). msteps.
    destruct (IH (Datatypes.S l) (set_filled_subtree (Z.of_nat l) (node (leaves ++ more) l (idx l)) s))
      as (ws & -> & ? & ?).
    + lia.
    + lia.
    + by rewrite zeroes_set.
    + intros j Hj Hoj. rewrite filled_set, lookup_insert_ne by lia. apply Hold; [lia | done].
    + intros j Hj Hoj. rewrite filled_set. destruct (decide (j = l)) as [-> | ].
      * rewrite lookup_insert_eq. destruct Hidx as [E' | [E' _]]; [congruence |].
        rewrite E'. do 2 f_equal. lia.
      * rewrite lookup_insert_ne by lia. apply Hnew; [lia | done].
    + exists ((Z.of_nat l, node (leaves ++ more) l (idx l)) :: ws). done.
Qed.

(** From the block's own level the loop computes the root of the tree with the block
    appended, and restores the frontier. *)
Lemma insert_path_spec (s : S) :
  (s0 <= depth)%nat -> n' <= 2 ^ Z.of_nat depth ->
  zeroes_ok (stored_zeroes s) -> frontier leaves (filled_subtrees s) s0 depth n ->
  exists ws,
    insert_path compress (zrange (Z.of_nat s0) (depth - s0)) (idx s0) (node (leaves ++ more) s0 (idx s0)) s =
      (Ret (tree_root compress zero_leaf (leaves ++ more) depth), write_filled ws s) /\
    zeroes_ok (stored_zeroes (write_filled ws s)) /\
    frontier (leaves ++ more) (filled_subtrees (write_filled ws s)) s0 depth n'.
Proof using All.
  intros Hs Hcap Hz Hf. unfold tree_root. rewrite <- (Z.div_small n (2 ^ Z.of_nat depth)).
  2: { pose proof (pow2_pos s0). unfold zlength in *. lia. }
  apply insert_path_from; [lia | done | done | done |]. intros j Hj. lia.
Qed.

End insertion.

(** The empty tree. *)
Lemma frontier_nil filled l0 : frontier [] filled l0 depth 0.
Proof. intros l Hl Hodd. by rewrite Zdiv_0_l in Hodd. Qed.

Lemma tree_root_nil z : zs !! depth = Some z -> tree_root compress zero_leaf [] depth = z.
Proof using Hzs Hz0. intros Hz. eapply node_empty; [done | done | done | done | unfold zlength; cbn [length]; lia]. Qed.

End path_spec.

(** ** The contracts' hash and zeros *)

Section instances.
Context {host : HostPoseidon2} {laws : HostPoseidon2Laws host}.

#[export] Instance poseidon2_Compression : Compression poseidon2_compress.
Proof using laws.
  split.
  - intros l r Hl Hr. rewrite poseidon2_compress_field by done. apply poseidon2_compression_total.
  - apply poseidon2_compress_trap.
Qed.

Lemma get_zeroes_field : Forall in_field get_zeroes.
Proof. apply (bool_decide_eq_true (Forall in_field get_zeroes)). vm_compute. reflexivity. Qed.

Lemma get_zeroes_zero_chain depth : (depth <= 32)%nat -> zero_chain poseidon2_compress depth get_zeroes.
Proof using laws.
  intros Hd. split; [cbn; lia | apply get_zeroes_field |]. intros l z z' Hl Hz Hz'.
  pose proof get_zeroes_field as Hf. rewrite Forall_lookup in Hf.
  rewrite poseidon2_compress_field by (by eapply Hf). by eapply chain_b_spec; [apply get_zeroes_chain | ..].
Qed.

Definition zero_leaf : Z := u256_from_be_bytes ZERO_LEAF_BYTES.

Lemma get_zeroes_0 : get_zeroes !! 0%nat = Some zero_leaf.
Proof. reflexivity. Qed.

End instances.
