(* ===== verification/MerkleHistory.v ===== *)
(** * The pool's Merkle tree with history ([contracts/pool/src/merkle_with_history.rs])

    A tree of fixed depth to which leaves are added in pairs, with the last
    [ROOT_HISTORY_SIZE] roots in a ring buffer.  The specification state is the list
    of leaves: the stored tree refines it ([tree_ok]), the current root is the root
    of the specification tree and the ring buffer holds the most recent roots. *)

From S2P Require Import Prelude Ints Amounts Poseidon2Tables Hashes Soroban MerkleSpec.

Definition ROOT_HISTORY_SIZE : Z := 90.

Inductive MerkleError : Type :=
| ME_AlreadyInitialized
| ME_WrongLevels
| ME_MerkleTreeFull
| ME_NextIndexNotEven
| ME_NotInitialized
| ME_Overflow.

(** The entries of persistent storage under [MerkleDataKey]. *)
Record MerkleStore : Type := {
  md_levels : option Z;
  md_current_root_index : option Z;
  md_next_index : option Z;
  md_filled_subtree : gmap Z Z;
  md_zeroes : gmap Z Z;
  md_root : gmap Z Z;
}.

Definition empty_merkle_store : MerkleStore :=
  {| md_levels := None; md_current_root_index := None; md_next_index := None;
     md_filled_subtree := ∅; md_zeroes := ∅; md_root := ∅ |}.

Definition set_levels (v : Z) (s : MerkleStore) : MerkleStore :=
  {| md_levels := Some v; md_current_root_index := md_current_root_index s; md_next_index := md_next_index s;
     md_filled_subtree := md_filled_subtree s; md_zeroes := md_zeroes s; md_root := md_root s |}.
Definition set_current_root_index (v : Z) (s : MerkleStore) : MerkleStore :=
  {| md_levels := md_levels s; md_current_root_index := Some v; md_next_index := md_next_index s;
     md_filled_subtree := md_filled_subtree s; md_zeroes := md_zeroes s; md_root := md_root s |}.
Definition set_next_index (v : Z) (s : MerkleStore) : MerkleStore :=
  {| md_levels := md_levels s; md_current_root_index := md_current_root_index s; md_next_index := Some v;
     md_filled_subtree := md_filled_subtree s; md_zeroes := md_zeroes s; md_root := md_root s |}.
Definition set_filled (i h : Z) (s : MerkleStore) : MerkleStore :=
  {| md_levels := md_levels s; md_current_root_index := md_current_root_index s; md_next_index := md_next_index s;
     md_filled_subtree := <[i := h]> (md_filled_subtree s); md_zeroes := md_zeroes s; md_root := md_root s |}.
Definition set_zero (i h : Z) (s : MerkleStore) : MerkleStore :=
  {| md_levels := md_levels s; md_current_root_index := md_current_root_index s; md_next_index := md_next_index s;
     md_filled_subtree := md_filled_subtree s; md_zeroes := <[i := h]> (md_zeroes s); md_root := md_root s |}.
Definition set_root (i h : Z) (s : MerkleStore) : MerkleStore :=
  {| md_levels := md_levels s; md_current_root_index := md_current_root_index s; md_next_index := md_next_index s;
     md_filled_subtree := md_filled_subtree s; md_zeroes := md_zeroes s; md_root := <[i := h]> (md_root s) |}.

#[export] Instance merkle_path_store : PathStore MerkleStore MerkleError := {|
  filled_subtrees := md_filled_subtree;
  set_filled_subtree := set_filled;
  stored_zeroes := md_zeroes;
  path_not_initialized := ME_NotInitialized;
|}.

#[export] Instance merkle_path_store_laws : PathStoreLaws MerkleStore MerkleError.
Proof. by split. Qed.

Section merkle_with_history.
Context {host : HostPoseidon2}.

Local Abbreviation MT := (M MerkleStore MerkleError).

Definition init (levels : Z) : MT unit :=
  fail_if ((levels =? 0) || (32 <? levels)) ME_WrongLevels;;
  current ← gets md_current_root_index;
  fail_if (bool_decide (is_Some current)) ME_AlreadyInitialized;;
  modify (set_levels levels);;
  let zeros := get_zeroes in
  for_each (zrange 0 (Z.to_nat levels + 1)) (fun i =>
    z ← require (zlookup zeros i) ME_NotInitialized;
    modify (set_filled i z);;
    modify (set_zero i z));;
  root_0 ← require (zlookup zeros levels) ME_NotInitialized;
  modify (set_root 0 root_0);;
  modify (set_current_root_index 0);;
  modify (set_next_index 0).

Definition insert_two_leaves (leaf_1 leaf_2 : Z) : MT (Z * Z) :=
  stored_levels ← gets md_levels;
  levels ← require stored_levels ME_NotInitialized;
  stored_next ← gets md_next_index;
  next_index ← require stored_next ME_NotInitialized;
  stored_root_index ← gets md_current_root_index;
  root_index ← require stored_root_index ME_NotInitialized;
  max_leaves ← require (checked_shl 64 1 levels) ME_WrongLevels;
  fail_if (negb (next_index mod 2 =? 0)) ME_NextIndexNotEven;;
  after ← require (checked_add 64 next_index 2) ME_Overflow;
  fail_if (max_leaves <? after) ME_MerkleTreeFull;;
  current_hash ← unwrap (poseidon2_compress leaf_1 leaf_2);
  current_hash ← insert_path poseidon2_compress (zrange 1 (Z.to_nat (levels - 1)))
                   (Z.shiftr next_index 1) current_hash;
  next_root ← require (checked_add 32 root_index 1) ME_Overflow;
  let root_index := next_root mod ROOT_HISTORY_SIZE in
  modify (set_root root_index current_hash);;
  modify (set_current_root_index root_index);;
  after ← require (checked_add 64 next_index 2) ME_Overflow;
  modify (set_next_index after);;
  idx_0 ← require (try_into_u 32 next_index) ME_MerkleTreeFull;
  next_1 ← require (checked_add 64 next_index 1) ME_Overflow;
  idx_1 ← require (try_into_u 32 next_1) ME_MerkleTreeFull;
  mret (idx_0, idx_1).

(** The body of the search loop, run at most [fuel] times; without fuel the host's
    instruction budget runs out, a trap. *)
Fixpoint known_root_loop (fuel : nat) (root current_root_index i : Z) : MT bool :=
  match fuel with
  | O => trap
  | S fuel =>
      roots ← gets md_root;
      if bool_decide (roots !! i = Some root) then mret true
      else
        next ← require (checked_add 32 i 1) ME_Overflow;
        let i := next mod ROOT_HISTORY_SIZE in
        if i =? current_root_index then mret false
        else known_root_loop fuel root current_root_index i
  end.

(** Enough: the loop visits each slot of the ring once. *)
Definition known_root_fuel : nat := 90.

Definition is_known_root (root : Z) : MT bool :=
  if root =? 0 then mret false
  else
    stored ← gets md_current_root_index;
    current_root_index ← require stored ME_NotInitialized;
    known_root_loop known_root_fuel root current_root_index current_root_index.

Definition get_last_root : MT Z :=
  stored ← gets md_current_root_index;
  current_root_index ← require stored ME_NotInitialized;
  roots ← gets md_root;
  require (roots !! current_root_index) ME_NotInitialized.

End merkle_with_history.

(** ** The ring buffer *)

(** The last [k] elements. *)
Definition recent {A} (k : nat) (l : list A) : list A := drop (length l - k) l.

(** [roots] holds the last 90 elements of [hist], the newest at [cur]. *)
Record ring_ok (roots : gmap Z Z) (cur : Z) (hist : list Z) : Prop := {
  ring_nonempty : hist <> [];
  ring_cur : cur = (zlength hist - 1) mod ROOT_HISTORY_SIZE;
  ring_slot : forall p, 0 <= p < zlength hist -> zlength hist - ROOT_HISTORY_SIZE <= p ->
    roots !! (p mod ROOT_HISTORY_SIZE) = hist !! Z.to_nat p;
  ring_unused : forall i, zlength hist <= i < ROOT_HISTORY_SIZE -> roots !! i = None;
}.

Lemma ring_new r roots : roots = ∅ -> ring_ok (<[0 := r]> roots) 0 [r].
Proof.
  intros ->. split; [done | reflexivity | |]; unfold zlength, ROOT_HISTORY_SIZE; cbn [length].
  - intros p Hp _. assert (p = 0) as -> by lia. cbn. by rewrite lookup_insert_eq.
  - intros i Hi. rewrite lookup_insert_ne by lia. apply lookup_empty.
Qed.

Lemma ring_push roots cur hist r :
  ring_ok roots cur hist ->
  let cur' := (cur + 1) mod ROOT_HISTORY_SIZE in
  ring_ok (<[cur' := r]> roots) cur' (hist ++ [r]).
Proof.
  intros [Hne Hcur Hslot Hunused]. cbv zeta. unfold ROOT_HISTORY_SIZE in *.
  assert (0 < zlength hist) as Hpos by (destruct hist; [done | unfold zlength; cbn; lia]).
  assert (zlength (hist ++ [r]) = zlength hist + 1) as Hlen by (unfold zlength; rewrite length_app; cbn; lia).
  assert ((cur + 1) mod 90 = zlength hist mod 90) as Hc.
  { rewrite Hcur, Z.add_mod_idemp_l by lia. f_equal. lia. }
  rewrite Hc. split; unfold ROOT_HISTORY_SIZE.
  - by destruct hist.
  - rewrite Hlen. f_equal. lia.
  - rewrite Hlen. intros p Hp Hp'. destruct (decide (p = zlength hist)) as [-> | Hne'].
    + rewrite lookup_insert_eq. symmetry. apply list_lookup_middle. unfold zlength. lia.
    + rewrite lookup_insert_ne by (pose proof (Z.div_mod p 90 ltac:(lia)); pose proof (Z.div_mod (zlength hist) 90 ltac:(lia)); lia).
      rewrite Hslot by lia. symmetry. apply lookup_app_l. unfold zlength in *. lia.
  - rewrite Hlen. intros i Hi. rewrite Z.mod_small by lia. rewrite lookup_insert_ne by lia. apply Hunused. lia.
Qed.

Lemma ring_last roots cur hist : ring_ok roots cur hist -> roots !! cur = last hist.
Proof.
  intros [Hne -> Hslot _]. unfold ROOT_HISTORY_SIZE in *.
  assert (0 < zlength hist) as Hpos by (destruct hist; [done | unfold zlength; cbn; lia]).
  rewrite Hslot by lia. rewrite last_lookup. f_equal. unfold zlength. lia.
Qed.

Lemma ring_cur_range roots cur hist : ring_ok roots cur hist -> 0 <= cur < 90.
Proof. intros [_ -> _ _]. apply Z.mod_pos_bound. unfold ROOT_HISTORY_SIZE. lia. Qed.

(** A root is in some slot exactly when it is among the last 90. *)
Lemma ring_search roots cur hist r :
  ring_ok roots cur hist ->
  (exists j, 0 <= j < 90 /\ roots !! ((cur + j) mod 90) = Some r) <-> r ∈ recent 90 hist.
Proof.
  intros Hok. pose proof (ring_cur_range _ _ _ Hok) as Hcr. destruct Hok as [Hne Hcur Hslot Hunused].
  unfold ROOT_HISTORY_SIZE in *. rewrite list_elem_of_lookup. unfold recent. setoid_rewrite lookup_drop. split.
  - intros (j & Hj & Hr). set (i := (cur + j) mod 90) in *.
    pose proof (Z.mod_pos_bound (cur + j) 90 ltac:(lia)) as Hi. fold i in Hi.
    (* the last position congruent to the slot *)
    set (p := zlength hist - 1 - (zlength hist - 1 - i) mod 90).
    pose proof (Z.mod_pos_bound (zlength hist - 1 - i) 90 ltac:(lia)) as Hm.
    assert (p mod 90 = i) as Hp.
    { unfold p. rewrite Zminus_mod_idemp_r. replace (zlength hist - 1 - (zlength hist - 1 - i)) with i by lia.
      by apply Z.mod_small. }
    destruct (decide (0 <= p)) as [Hp0 | Hp0].
    + rewrite <- Hp, Hslot in Hr by lia. exists (Z.to_nat p - (length hist - 90))%nat.
      rewrite <- Hr. f_equal. unfold zlength in *. lia.
    + exfalso. rewrite Hunused in Hr; [done |]. split; [| lia].
      destruct (decide (zlength hist - 1 - i < 0)); [lia |].
      pose proof (Z.mod_le (zlength hist - 1 - i) 90 ltac:(lia) ltac:(lia)). unfold p in Hp0. lia.
  - intros (k & Hk). set (p := Z.of_nat (length hist - 90 + k)).
    pose proof (lookup_lt_Some _ _ _ Hk) as Hlt.
    exists ((p - cur) mod 90). split; [apply Z.mod_pos_bound; lia |].
    rewrite Z.add_mod_idemp_r by lia. replace (cur + (p - cur)) with p by lia.
    rewrite Hslot by (unfold zlength, p in *; lia). unfold p. by rewrite Nat2Z.id.
Qed.

(** ** Refinement *)

Section refinement.
Context {host : HostPoseidon2} {laws : HostPoseidon2Laws host}.

Definition root_of (depth : nat) (leaves : list Z) : Z := tree_root poseidon2_compress zero_leaf leaves depth.

(** The roots of the successive trees, oldest first: one before any leaf and one
    after each pair. *)
Definition history (depth : nat) (leaves : list Z) : list Z :=
  (fun k => root_of depth (take (2 * k) leaves)) <$> seq 0 (S (length leaves / 2)).

(** The store represents the tree over [leaves]. *)
Record tree_ok (depth : nat) (leaves : list Z) (s : MerkleStore) : Prop := {
  tree_depth : (1 <= depth <= 32)%nat;
  tree_levels : md_levels s = Some (Z.of_nat depth);
  tree_leaves : Forall in_field leaves;
  tree_next : md_next_index s = Some (zlength leaves);
  tree_even : (2 | zlength leaves);
  tree_capacity : zlength leaves <= 2 ^ Z.of_nat depth;
  tree_zeroes : zeroes_ok depth get_zeroes (md_zeroes s);
  tree_frontier : frontier poseidon2_compress zero_leaf leaves (md_filled_subtree s) 1 depth (zlength leaves);
  tree_ring : exists cur, md_current_root_index s = Some cur /\ ring_ok (md_root s) cur (history depth leaves);
}.

Lemma history_push depth leaves a b :
  (2 | zlength leaves) ->
  history depth (leaves ++ [a; b]) = history depth leaves ++ [root_of depth (leaves ++ [a; b])].
Proof.
  intros [q Hq]. unfold zlength in Hq. unfold history. rewrite length_app. cbn [length].
  assert (length leaves = (Z.to_nat q * 2)%nat) as Hl by lia. rewrite Hl.
  replace ((Z.to_nat q * 2 + 2) / 2)%nat with (S (Z.to_nat q)).
  2: { replace (Z.to_nat q * 2 + 2)%nat with (S (Z.to_nat q) * 2)%nat by lia. by rewrite Nat.div_mul. }
  rewrite Nat.div_mul, (seq_S (S (Z.to_nat q))), fmap_app by lia. f_equal.
  - apply list_fmap_ext. intros i k Hk%lookup_seq. f_equal. symmetry. rewrite take_app_le by lia. done.
  - cbn [fmap list_fmap]. do 2 f_equal. rewrite take_ge; [done |]. rewrite length_app. cbn [length]. lia.
Qed.

Lemma history_nonempty depth leaves : history depth leaves <> [].
Proof. unfold history. cbn. done. Qed.

Lemma history_last depth leaves : (2 | zlength leaves) -> last (history depth leaves) = Some (root_of depth leaves).
Proof.
  intros [q Hq]. unfold zlength in Hq. unfold history. rewrite seq_S, fmap_app. cbn [fmap list_fmap].
  rewrite last_snoc. do 2 f_equal. apply take_ge.
  assert (length leaves = (Z.to_nat q * 2)%nat) as Hl by lia. rewrite Hl, Nat.div_mul; lia.
Qed.

(** The writes of the update loop leave every other entry alone. *)
Lemma write_filled_frame ws (s : MerkleStore) :
  let s' := write_filled (E := MerkleError) ws s in
  md_levels s' = md_levels s /\ md_next_index s' = md_next_index s /\
  md_current_root_index s' = md_current_root_index s /\ md_root s' = md_root s.
Proof.
  cbv zeta. unfold write_filled. revert s. induction ws as [|w ws IH]; intros s; [done |]. cbn [foldl].
  destruct (IH (set_filled w.1 w.2 s)) as (H1 & H2 & H3 & H4). done.
Qed.

Lemma checked_shl_1 depth : (depth <= 32)%nat -> checked_shl 64 1 (Z.of_nat depth) = Some (2 ^ Z.of_nat depth).
Proof.
  intros Hd. unfold checked_shl. case_if; [| lia]. rewrite Z.shiftl_1_l, Z.mod_small; [done |].
  split; [apply Z.pow_nonneg; lia | apply Z.pow_lt_mono_r; lia].
Qed.

Lemma pow2_le_32 depth : (depth <= 32)%nat -> 2 ^ Z.of_nat depth <= 4294967296.
Proof. intros. change 4294967296 with (2 ^ 32). apply Z.pow_le_mono_r; lia. Qed.

(** The parent of the new pair. *)
Lemma pair_node leaves a b :
  (2 | zlength leaves) ->
  node poseidon2_compress zero_leaf (leaves ++ [a; b]) 1 (zlength leaves / 2 ^ Z.of_nat 1) =
  hash2 poseidon2_compress a b.
Proof.
  intros [q Hq]. change (2 ^ Z.of_nat 1) with 2. rewrite Hq, Z.div_mul by lia. cbn [node].
  unfold zlength in Hq. rewrite !zlookup_nonneg by lia.
  rewrite !lookup_app_r by lia.
  replace (Z.to_nat (2 * q) - length leaves)%nat with 0%nat by lia.
  by replace (Z.to_nat (2 * q + 1) - length leaves)%nat with 1%nat by lia.
Qed.

(** *** Insertion *)

Lemma insert_two_leaves_run depth leaves s a b :
  tree_ok depth leaves s -> zlength leaves + 2 <= 2 ^ Z.of_nat depth -> in_field a -> in_field b ->
  exists s',
    insert_two_leaves a b s = (Ret (zlength leaves, zlength leaves + 1), s') /\
    tree_ok depth (leaves ++ [a; b]) s'.
Proof using laws.
  intros [Hd Hlev Hleaves Hnext Heven Hcap Hz Hf (cur & Hcur & Hring)] Hroom Ha Hb.
  pose proof (ring_cur_range _ _ _ Hring) as Hcr. pose proof (pow2_le_32 depth ltac:(lia)) as H32.
  assert (0 <= zlength leaves) as Hn by (unfold zlength; lia).
  assert (Forall in_field [a; b]) as Hab by (rewrite !Forall_cons; split_and!; [done | done | apply Forall_nil_2]).
  unfold insert_two_leaves. msteps. rewrite Hlev. msteps. rewrite Hnext. msteps. rewrite Hcur. msteps.
  rewrite checked_shl_1 by lia. msteps.
  assert ((zlength leaves mod 2 =? 0) = true) as -> by (apply Z.eqb_eq, Z.mod_divide; [lia | done]).
  cbn [negb fail_if]. msteps.
  rewrite (proj2 (checked_add_Some 64 (zlength leaves) 2 _)) by (split; [done | lia]). msteps.
  rewrite (proj2 (Z.ltb_ge _ _)) by lia. cbn [fail_if]. msteps.
  rewrite (compress_hash2 poseidon2_compress) by done. msteps.
  destruct (insert_path_spec (S := MerkleStore) (E := MerkleError) poseidon2_compress zero_leaf depth
              get_zeroes (get_zeroes_zero_chain depth ltac:(lia)) get_zeroes_0 leaves [a; b] 1
              Hleaves Hab eq_refl Heven s) as (ws & Hrun & Hz' & Hf');
    [lia | exact Hroom | exact Hz | exact Hf |].
  rewrite pair_node in Hrun by done. rewrite shiftr_1.
  replace (Z.to_nat (Z.of_nat depth - 1)) with (depth - 1)%nat by lia.
  rewrite (bind_run _ _ _ _ _ Hrun). msteps.
  rewrite (proj2 (checked_add_Some 32 cur 1 _)) by (split; [done | lia]). msteps.
  rewrite (proj2 (checked_add_Some 64 (zlength leaves) 1 _)) by (split; [done | lia]).
  rewrite (proj2 (try_into_u_Some 32 (zlength leaves) _)) by (split; [done | lia]). msteps.
  rewrite (proj2 (try_into_u_Some 32 (zlength leaves + 1) _)) by (split; [done | lia]). msteps.
  eexists. split; [reflexivity |].
  destruct (write_filled_frame ws s) as (W1 & W2 & W3 & W4).
  assert (zlength (leaves ++ [a; b]) = zlength leaves + 2) as Hlen.
  { unfold zlength. rewrite length_app. cbn [length]. lia. }
  split; cbn -[zlength history write_filled Z.pow root_of].
  - done.
  - congruence.
  - apply Forall_app; done.
  - by rewrite Hlen.
  - rewrite Hlen. apply Z.divide_add_r; [done | exists 1; lia].
  - by rewrite Hlen.
  - exact Hz'.
  - rewrite Hlen. exact Hf'.
  - eexists. split; [done |]. rewrite W4, history_push by done. by apply ring_push.
Qed.

(** *** Initialisation *)

Lemma init_loop k s :
  (k <= 33)%nat ->
  exists s',
    for_each (zrange 0 k) (fun i =>
      z ← require (zlookup get_zeroes i) ME_NotInitialized;
      modify (set_filled i z);; modify (set_zero i z)) s = (Ret tt, s') /\
    (forall l, (l < k)%nat -> md_zeroes s' !! Z.of_nat l = get_zeroes !! l) /\
    md_levels s' = md_levels s /\ md_root s' = md_root s.
Proof.
  induction k as [|k IH]; intros Hk; [exists s; split_and!; [done | lia | done | done] |].
  destruct IH as (s1 & Hrun & Hz & Hl & Hr); [lia |]. rewrite zrange_snoc.
  rewrite for_each_app, (bind_run _ _ _ _ _ Hrun). cbn [for_each]. rewrite Z.add_0_l.
  destruct (lookup_lt_is_Some_2 get_zeroes k) as [z Hzk]; [cbn; lia |].
  rewrite zlookup_nonneg, Nat2Z.id, Hzk by lia. msteps.
  eexists. split; [reflexivity |]. cbn [md_zeroes md_levels md_root set_zero set_filled]. split_and!; [| done | done].
  intros l Hlk. destruct (decide (l = k)) as [-> | ]; [by rewrite lookup_insert_eq |].
  rewrite lookup_insert_ne by lia. apply Hz. lia.
Qed.

Lemma init_run depth :
  (1 <= depth <= 32)%nat ->
  exists s', init (Z.of_nat depth) empty_merkle_store = (Ret tt, s') /\ tree_ok depth [] s'.
Proof using laws.
  intros Hd. unfold init. rewrite (proj2 (Z.eqb_neq _ _)), (proj2 (Z.ltb_ge _ _)) by lia. cbn [orb fail_if]. msteps.
  cbn [md_current_root_index empty_merkle_store]. rewrite bool_decide_false by (by intros [? ?]). cbn [fail_if]. msteps.
  rewrite Nat2Z.id.
  destruct (init_loop (depth + 1) (set_levels (Z.of_nat depth) empty_merkle_store)) as (s1 & Hrun & Hz & Hl & Hr); [lia |].
  rewrite (bind_run _ _ _ _ _ Hrun).
  destruct (lookup_lt_is_Some_2 get_zeroes depth) as [z Hzd]; [cbn; lia |].
  rewrite zlookup_nonneg, Nat2Z.id, Hzd by lia. msteps.
  eexists. split; [reflexivity |]. split; cbn -[history Z.pow].
  - done.
  - by rewrite Hl.
  - done.
  - done.
  - by exists 0.
  - apply Z.pow_nonneg. lia.
  - intros l Hle. apply Hz. lia.
  - apply frontier_nil.
  - exists 0. split; [done |]. unfold history. cbn [length Nat.div fmap list_fmap seq fst]. cbn.
    unfold root_of. rewrite (tree_root_nil _ _ _ _ (get_zeroes_zero_chain depth ltac:(lia)) get_zeroes_0 z Hzd).
    by apply ring_new.
Qed.

(** *** Root queries *)

Lemma known_root_loop_run s root cur j (fuel : nat) :
  0 <= cur < 90 -> 0 <= j -> Z.of_nat fuel + j = 90 -> j < 90 ->
  exists b,
    known_root_loop fuel root cur ((cur + j) mod 90) s = (Ret b, s) /\
    (b = true <-> exists k, j <= k < 90 /\ md_root s !! ((cur + k) mod 90) = Some root).
Proof.
  intros Hcur. revert j. induction fuel as [|fuel IH]; intros j Hj Hf Hj90; [lia |].
  cbn [known_root_loop]. msteps. unfold ROOT_HISTORY_SIZE. case_bool_decide as Hhit.
  { exists true. split; [done |]. split; [| done]. exists j. split; [lia | done]. }
  pose proof (Z.mod_pos_bound (cur + j) 90 ltac:(lia)).
  rewrite (proj2 (checked_add_Some 32 _ 1 _)) by (split; [done | lia]). msteps.
  rewrite Z.add_mod_idemp_l by lia. replace (cur + j + 1) with (cur + (j + 1)) by lia.
  destruct (decide (j = 89)) as [-> | Hne].
  - replace (cur + (89 + 1)) with (cur + 1 * 90) by lia. rewrite Z.mod_add, Z.mod_small by lia.
    rewrite Z.eqb_refl. exists false. split; [done |]. split; [done |]. intros (k & Hk & E).
    assert (k = 89) as -> by lia. done.
  - rewrite (proj2 (Z.eqb_neq _ _)).
    2: { pose proof (Z.div_mod (cur + (j + 1)) 90 ltac:(lia)). pose proof (Z.mod_pos_bound (cur + (j + 1)) 90 ltac:(lia)). lia. }
    destruct (IH (j + 1)) as (b & Hrun & Hb); [lia | lia | lia |]. exists b. split; [done |]. rewrite Hb. split.
    + intros (k & Hk & E). exists k. split; [lia | done].
    + intros (k & Hk & E). destruct (decide (k = j)) as [-> | ]; [done |]. exists k. split; [lia | done].
Qed.

Lemma is_known_root_run depth leaves s root :
  tree_ok depth leaves s ->
  is_known_root root s = (Ret (bool_decide (root <> 0 /\ root ∈ recent 90 (history depth leaves))), s).
Proof.
  intros [_ _ _ _ _ _ _ _ (cur & Hcur & Hring)]. pose proof (ring_cur_range _ _ _ Hring) as Hcr.
  unfold is_known_root. case_if.
  { rewrite bool_decide_false; [done |]. tauto. }
  msteps. rewrite Hcur. msteps.
  destruct (known_root_loop_run s root cur 0 90) as (b & Hrun & Hb); [lia | lia | lia | lia |].
  rewrite Z.add_0_r, Z.mod_small in Hrun by lia. unfold known_root_fuel. rewrite Hrun.
  rewrite (ring_search _ _ _ root Hring) in Hb. do 2 f_equal. destruct b; symmetry.
  - apply bool_decide_eq_true. tauto.
  - apply bool_decide_eq_false. intros [_ Hin]. apply Hb in Hin. done.
Qed.

Lemma get_last_root_run depth leaves s :
  tree_ok depth leaves s -> get_last_root s = (Ret (root_of depth leaves), s).
Proof.
  intros [_ _ _ _ Heven _ _ _ (cur & Hcur & Hring)]. unfold get_last_root. msteps. rewrite Hcur. msteps.
  rewrite (ring_last _ _ _ Hring), history_last by done. done.
Qed.

End refinement.

Section errors.
Context {host : HostPoseidon2} {laws : HostPoseidon2Laws host}.

Lemma insert_two_leaves_full depth leaves s a b :
  tree_ok depth leaves s -> 2 ^ Z.of_nat depth < zlength leaves + 2 ->
  insert_two_leaves a b s = (Fail ME_MerkleTreeFull, s).
Proof.
  intros [Hd Hlev Hleaves Hnext Heven Hcap Hz Hf (cur & Hcur & Hring)] Hfull.
  pose proof (pow2_le_32 depth ltac:(lia)) as H32.
  unfold insert_two_leaves. msteps. rewrite Hlev. msteps. rewrite Hnext. msteps. rewrite Hcur. msteps.
  rewrite checked_shl_1 by lia. msteps.
  assert ((zlength leaves mod 2 =? 0) = true) as -> by (apply Z.eqb_eq, Z.mod_divide; [lia | done]).
  cbn [negb fail_if]. msteps.
  rewrite (proj2 (checked_add_Some 64 (zlength leaves) 2 _)) by (split; [done | lia]). msteps.
  rewrite (proj2 (Z.ltb_lt _ _)) by lia. done.
Qed.

Lemma insert_two_leaves_noncanonical depth leaves s a b :
  tree_ok depth leaves s -> zlength leaves + 2 <= 2 ^ Z.of_nat depth -> BN_P <= a \/ BN_P <= b ->
  insert_two_leaves a b s = (Trap, s).
Proof.
  intros [Hd Hlev Hleaves Hnext Heven Hcap Hz Hf (cur & Hcur & Hring)] Hroom Hab.
  pose proof (pow2_le_32 depth ltac:(lia)) as H32.
  unfold insert_two_leaves. msteps. rewrite Hlev. msteps. rewrite Hnext. msteps. rewrite Hcur. msteps.
  rewrite checked_shl_1 by lia. msteps.
  assert ((zlength leaves mod 2 =? 0) = true) as -> by (apply Z.eqb_eq, Z.mod_divide; [lia | done]).
  cbn [negb fail_if]. msteps.
  rewrite (proj2 (checked_add_Some 64 (zlength leaves) 2 _)) by (split; [done | lia]). msteps.
  rewrite (proj2 (Z.ltb_ge _ _)) by lia. cbn [fail_if]. msteps.
  rewrite poseidon2_compress_trap by done. done.
Qed.

(** Pairs inserted one after the other. *)
Lemma insert_pairs_run depth leaves s (ps : list (Z * Z)) :
  tree_ok depth leaves s -> Forall (fun p => in_field p.1 /\ in_field p.2) ps ->
  zlength leaves + 2 * zlength ps <= 2 ^ Z.of_nat depth ->
  exists s',
    for_each ps (fun p => insert_two_leaves p.1 p.2;; mret tt) s = (Ret tt, s') /\
    tree_ok depth (leaves ++ (ps ≫= fun p => [p.1; p.2])) s'.
Proof using laws.
  revert leaves s. induction ps as [|p ps IH]; intros leaves s Hok Hps Hcap.
  { exists s. split; [done |]. by rewrite app_nil_r. }
  inversion Hps as [|? ? [Ha Hb] Hps']; subst. unfold zlength in Hcap. cbn [length] in Hcap.
  destruct (insert_two_leaves_run depth leaves s p.1 p.2 Hok) as (s1 & Hrun & Hok1);
    [unfold zlength; lia | done | done |].
  destruct (IH _ _ Hok1 Hps') as (s2 & Hrun2 & Hok2).
  { unfold zlength. rewrite length_app. cbn [length]. lia. }
  exists s2. cbn [for_each]. split; [| by rewrite <- app_assoc in Hok2].
  rewrite bind_assoc, (bind_run _ _ _ _ _ Hrun). exact Hrun2.
Qed.

End errors.

(** ** Properties *)

(** C3. The pool's tree is the Merkle tree of everything inserted: from an empty
    store, initialisation at any supported depth followed by any sequence of pairs
    of canonical leaves that fits returns, and then the current root is the root
    of the full binary hash tree over all the inserted leaves padded with the zero
    leaf, and a root is known exactly when it is nonzero and is one of the last 90
    roots the tree has had. *)
Theorem merkle_history_refines (host : HostPoseidon2) (laws : HostPoseidon2Laws host)
    (depth : nat) (ps : list (Z * Z)) (root : Z) :
  (1 <= depth <= 32)%nat -> Forall (fun p => in_field p.1 /\ in_field p.2) ps ->
  2 * zlength ps <= 2 ^ Z.of_nat depth ->
  let leaves := ps ≫= fun p => [p.1; p.2] in
  exists s,
    (init (Z.of_nat depth);; for_each ps (fun p => insert_two_leaves p.1 p.2;; mret tt))
      empty_merkle_store = (Ret tt, s) /\
    get_last_root s = (Ret (tree_root poseidon2_compress zero_leaf leaves depth), s) /\
    is_known_root root s =
      (Ret (bool_decide (root <> 0 /\ root ∈ recent 90 (history depth leaves))), s).
Proof.
  intros Hd Hps Hcap leaves. destruct (init_run depth Hd) as (s0 & Hinit & Hok0).
  destruct (insert_pairs_run depth [] s0 ps Hok0 Hps) as (s & Hrun & Hok); [exact Hcap |].
  exists s. rewrite (bind_run _ _ _ _ _ Hinit). split_and!; [done | by apply get_last_root_run |].
  by apply is_known_root_run.
Qed.

Lemma merkle_history_refines_witness :
  exists s, (init (Z.of_nat 3);;
             for_each [(1, 2); (3, 4)] (fun p => insert_two_leaves (host := ref_host_poseidon2) p.1 p.2;; mret tt)) empty_merkle_store = (Ret tt, s).
Proof.
  destruct (merkle_history_refines ref_host_poseidon2 ref_host_poseidon2_laws 3 [(1, 2); (3, 4)] 5) as (s & H & _);
    [lia | repeat constructor; vm_compute; congruence | vm_compute; congruence |].
  exact (ex_intro _ s H).
Defined.

(** Every branch of a pair insertion on a store that represents a tree: it
    reports a full tree exactly when two more leaves do not fit, it traps on a leaf
    that is not a canonical field element, and otherwise it returns the two indices
    the leaves have and the store represents the tree with the two leaves appended. *)
Theorem merkle_insert_branches (host : HostPoseidon2) (laws : HostPoseidon2Laws host)
    (depth : nat) (leaves : list Z) (s : MerkleStore) (a b : Z) :
  tree_ok depth leaves s -> 0 <= a -> 0 <= b ->
  (2 ^ Z.of_nat depth < zlength leaves + 2 /\ insert_two_leaves a b s = (Fail ME_MerkleTreeFull, s)) \/
  (zlength leaves + 2 <= 2 ^ Z.of_nat depth /\ (BN_P <= a \/ BN_P <= b) /\
   insert_two_leaves a b s = (Trap, s)) \/
  (zlength leaves + 2 <= 2 ^ Z.of_nat depth /\ a < BN_P /\ b < BN_P /\
   exists s', insert_two_leaves a b s = (Ret (zlength leaves, zlength leaves + 1), s') /\
              tree_ok depth (leaves ++ [a; b]) s').
Proof.
  intros Hok Ha Hb. destruct (decide (zlength leaves + 2 <= 2 ^ Z.of_nat depth)) as [Hroom | Hfull].
  - right. destruct (decide (BN_P <= a \/ BN_P <= b)) as [Hbad | Hgood].
    + left. split_and!; [done | done |]. by eapply insert_two_leaves_noncanonical.
    + right. split_and!; [done | lia | lia |]. apply insert_two_leaves_run; [done | done | unfold in_field; lia ..].
  - left. split; [lia |]. eapply insert_two_leaves_full; [done | lia].
Qed.

Lemma merkle_insert_branches_witness :
  exists s s', insert_two_leaves (host := ref_host_poseidon2) 1 2 s = (Ret (0, 1), s').
Proof.
  destruct (init_run (host := ref_host_poseidon2) 3) as (s0 & _ & Hok0); [lia |]. exists s0.
  destruct (merkle_insert_branches ref_host_poseidon2 ref_host_poseidon2_laws 3 [] s0 1 2 Hok0)
    as [[H _] | [(_ & H & _) | (_ & _ & _ & s' & H & _)]].
  - lia.
  - lia.
  - exfalso. vm_compute in H. congruence.
  - exfalso. unfold BN_P in H. lia.
  - exact (ex_intro _ s' H).
Defined.

(** Initialisation accepts exactly the depths 1 to 32, and only once. *)
Theorem merkle_init_branches (host : HostPoseidon2) (laws : HostPoseidon2Laws host) (levels : Z) (s : MerkleStore) :
  0 <= levels ->
  (levels = 0 \/ 32 < levels -> init levels s = (Fail ME_WrongLevels, s)) /\
  (1 <= levels <= 32 -> forall cur, md_current_root_index s = Some cur ->
     init levels s = (Fail ME_AlreadyInitialized, s)) /\
  (1 <= levels <= 32 -> exists s', init levels empty_merkle_store = (Ret tt, s') /\
     tree_ok (Z.to_nat levels) [] s').
Proof.
  intros Hl. split_and!; intros H.
  - unfold init. assert ((levels =? 0) || (32 <? levels) = true)%bool as -> by (apply orb_true_iff; lia). done.
  - intros cur Hcur. unfold init. rewrite (proj2 (Z.eqb_neq _ _)), (proj2 (Z.ltb_ge _ _)) by lia.
    cbn [orb fail_if]. msteps. rewrite Hcur, bool_decide_true by eauto. done.
  - pose proof (init_run (Z.to_nat levels) ltac:(lia)) as Hrun. by rewrite Z2Nat.id in Hrun by lia.
Qed.

Lemma merkle_init_branches_witness : init 33 empty_merkle_store = (Fail ME_WrongLevels, empty_merkle_store).
Proof. apply (merkle_init_branches ref_host_poseidon2 ref_host_poseidon2_laws 33 empty_merkle_store); lia. Defined.
