(* ===== verification/AspMembership.v ===== *)
(** * The membership contract ([contracts/asp-membership/src/lib.rs])

    An append-only Merkle tree of members, one leaf per insertion, with an
    administrator who may be required for insertions. *)

From S2P Require Import Prelude Ints Amounts Poseidon2Tables Hashes Soroban MerkleSpec.

Inductive AspError : Type :=
| AE_NotAuthorized
| AE_MerkleTreeFull
| AE_WrongLevels
| AE_NotInitialized
| AE_Overflow.

Record LeafAddedEvent : Type := {
  la_leaf : Z;
  la_index : Z;
  la_root : Z;
}.

(** The entries of persistent storage under [DataKey], and the published events,
    newest first. *)
Record AspStore : Type := {
  am_admin : option Address;
  am_filled_subtrees : gmap Z Z;
  am_zeroes : gmap Z Z;
  am_levels : option Z;
  am_next_index : option Z;
  am_root : option Z;
  am_admin_insert_only : option bool;
  am_events : list LeafAddedEvent;
}.

Definition empty_asp_store : AspStore :=
  {| am_admin := None; am_filled_subtrees := ∅; am_zeroes := ∅; am_levels := None; am_next_index := None;
     am_root := None; am_admin_insert_only := None; am_events := [] |}.

Definition am_set_admin (v : Address) (s : AspStore) : AspStore :=
  {| am_admin := Some v; am_filled_subtrees := am_filled_subtrees s; am_zeroes := am_zeroes s;
     am_levels := am_levels s; am_next_index := am_next_index s; am_root := am_root s;
     am_admin_insert_only := am_admin_insert_only s; am_events := am_events s |}.
Definition am_set_filled (i h : Z) (s : AspStore) : AspStore :=
  {| am_admin := am_admin s; am_filled_subtrees := <[i := h]> (am_filled_subtrees s); am_zeroes := am_zeroes s;
     am_levels := am_levels s; am_next_index := am_next_index s; am_root := am_root s;
     am_admin_insert_only := am_admin_insert_only s; am_events := am_events s |}.
Definition am_set_zero (i h : Z) (s : AspStore) : AspStore :=
  {| am_admin := am_admin s; am_filled_subtrees := am_filled_subtrees s; am_zeroes := <[i := h]> (am_zeroes s);
     am_levels := am_levels s; am_next_index := am_next_index s; am_root := am_root s;
     am_admin_insert_only := am_admin_insert_only s; am_events := am_events s |}.
Definition am_set_levels (v : Z) (s : AspStore) : AspStore :=
  {| am_admin := am_admin s; am_filled_subtrees := am_filled_subtrees s; am_zeroes := am_zeroes s;
     am_levels := Some v; am_next_index := am_next_index s; am_root := am_root s;
     am_admin_insert_only := am_admin_insert_only s; am_events := am_events s |}.
Definition am_set_next_index (v : Z) (s : AspStore) : AspStore :=
  {| am_admin := am_admin s; am_filled_subtrees := am_filled_subtrees s; am_zeroes := am_zeroes s;
     am_levels := am_levels s; am_next_index := Some v; am_root := am_root s;
     am_admin_insert_only := am_admin_insert_only s; am_events := am_events s |}.
Definition am_set_root (v : Z) (s : AspStore) : AspStore :=
  {| am_admin := am_admin s; am_filled_subtrees := am_filled_subtrees s; am_zeroes := am_zeroes s;
     am_levels := am_levels s; am_next_index := am_next_index s; am_root := Some v;
     am_admin_insert_only := am_admin_insert_only s; am_events := am_events s |}.
Definition am_set_admin_insert_only (v : bool) (s : AspStore) : AspStore :=
  {| am_admin := am_admin s; am_filled_subtrees := am_filled_subtrees s; am_zeroes := am_zeroes s;
     am_levels := am_levels s; am_next_index := am_next_index s; am_root := am_root s;
     am_admin_insert_only := Some v; am_events := am_events s |}.
Definition am_publish (e : LeafAddedEvent) (s : AspStore) : AspStore :=
  {| am_admin := am_admin s; am_filled_subtrees := am_filled_subtrees s; am_zeroes := am_zeroes s;
     am_levels := am_levels s; am_next_index := am_next_index s; am_root := am_root s;
     am_admin_insert_only := am_admin_insert_only s; am_events := e :: am_events s |}.

#[export] Instance asp_path_store : PathStore AspStore AspError := {|
  filled_subtrees := am_filled_subtrees;
  set_filled_subtree := am_set_filled;
  stored_zeroes := am_zeroes;
  path_not_initialized := AE_NotInitialized;
|}.

#[export] Instance asp_path_store_laws : PathStoreLaws AspStore AspError.
Proof. by split. Qed.

(** ** Operations *)

Section asp_membership.
Context {host : HostPoseidon2}.

Local Abbreviation MA := (M AspStore AspError).

Definition asp_constructor (admin : Address) (levels : Z) : MA unit :=
  fail_if ((levels =? 0) || (32 <? levels)) AE_WrongLevels;;
  modify (am_set_admin admin);;
  modify (am_set_levels levels);;
  modify (am_set_next_index 0);;
  modify (am_set_admin_insert_only true);;
  let zeros := get_zeroes in
  for_each (zrange 0 (Z.to_nat levels + 1)) (fun lvl =>
    zero_val ← require (zlookup zeros lvl) AE_NotInitialized;
    modify (am_set_filled lvl zero_val);;
    modify (am_set_zero lvl zero_val));;
  root_val ← require (zlookup zeros levels) AE_NotInitialized;
  modify (am_set_root root_val).

Definition asp_update_admin (authorised : Address -> bool) (new_admin : Address) : MA unit :=
  stored ← gets am_admin;
  fail_if (negb (bool_decide (is_Some stored))) AE_NotInitialized;;
  utils_update_admin am_admin am_set_admin authorised new_admin.

Definition set_admin_insert_only (authorised : Address -> bool) (admin_only : bool) : MA unit :=
  stored ← gets am_admin;
  admin ← require stored AE_NotInitialized;
  require_auth authorised admin;;
  modify (am_set_admin_insert_only admin_only).

Definition asp_get_root : MA Z :=
  stored ← gets am_root;
  require stored AE_NotInitialized.

Definition asp_insert_leaf (authorised : Address -> bool) (leaf : Z) : MA unit :=
  stored_only ← gets am_admin_insert_only;
  let admin_only := default true stored_only in
  (if admin_only then
     stored ← gets am_admin;
     admin ← require stored AE_NotInitialized;
     require_auth authorised admin
   else mret tt);;
  stored_levels ← gets am_levels;
  levels ← require stored_levels AE_NotInitialized;
  stored_next ← gets am_next_index;
  actual_index ← require stored_next AE_NotInitialized;
  capacity ← require (checked_shl 64 1 levels) AE_MerkleTreeFull;
  fail_if (capacity <=? actual_index) AE_MerkleTreeFull;;
  current_hash ← insert_path poseidon2_compress (zrange 0 (Z.to_nat levels)) actual_index leaf;
  modify (am_set_root current_hash);;
  modify (am_publish {| la_leaf := leaf; la_index := actual_index; la_root := current_hash |});;
  next ← require (checked_add 64 actual_index 1) AE_Overflow;
  modify (am_set_next_index next).

(** ** Invocations *)

Inductive asp_op : Type :=
| AspUpdateAdmin (new_admin : Address)
| AspSetAdminInsertOnly (admin_only : bool)
| AspInsertLeaf (leaf : Z)
| AspGetRoot.

Definition asp_exec (authorised : Address -> bool) (op : asp_op) : MA unit :=
  match op with
  | AspUpdateAdmin a => asp_update_admin authorised a
  | AspSetAdminInsertOnly b => set_admin_insert_only authorised b
  | AspInsertLeaf x => asp_insert_leaf authorised x
  | AspGetRoot => asp_get_root;; mret tt
  end.

(** A sequence of invocations, each with the addresses that authorised it: the final
    store and the leaves of the insertions that returned. *)
Fixpoint asp_run (tr : list ((Address -> bool) * asp_op)) (s : AspStore) : list Z * AspStore :=
  match tr with
  | [] => ([], s)
  | (auth, op) :: tr =>
      let '(o, s1) := invoke (asp_exec auth op) s in
      let '(leaves, s2) := asp_run tr s1 in
      (match o, op with Ret _, AspInsertLeaf x => x :: leaves | _, _ => leaves end, s2)
  end.

End asp_membership.

(** ** Refinement *)

Section asp_refinement.
Context {host : HostPoseidon2} {laws : HostPoseidon2Laws host}.

Definition asp_root_of (depth : nat) (leaves : list Z) : Z := tree_root poseidon2_compress zero_leaf leaves depth.

(** One event per leaf, with its position and the root it led to; newest first. *)
Definition asp_events_of (depth : nat) (leaves : list Z) : list LeafAddedEvent :=
  rev (imap (fun i x => {| la_leaf := x; la_index := Z.of_nat i; la_root := asp_root_of depth (take (S i) leaves) |}) leaves).

Record asp_ok (depth : nat) (leaves : list Z) (s : AspStore) : Prop := {
  asp_depth : (1 <= depth <= 32)%nat;
  asp_admin : is_Some (am_admin s);
  asp_levels : am_levels s = Some (Z.of_nat depth);
  asp_leaves : Forall in_field leaves;
  asp_next : am_next_index s = Some (zlength leaves);
  asp_capacity : zlength leaves <= 2 ^ Z.of_nat depth;
  asp_zeroes : zeroes_ok depth get_zeroes (am_zeroes s);
  asp_frontier : frontier poseidon2_compress zero_leaf leaves (am_filled_subtrees s) 0 depth (zlength leaves);
  asp_root_ok : am_root s = Some (asp_root_of depth leaves);
  asp_events_ok : am_events s = asp_events_of depth leaves;
}.

Lemma asp_events_push depth leaves x :
  asp_events_of depth (leaves ++ [x]) =
  {| la_leaf := x; la_index := zlength leaves; la_root := asp_root_of depth (leaves ++ [x]) |} :: asp_events_of depth leaves.
Proof.
  unfold asp_events_of. rewrite imap_app, rev_app_distr. cbn [imap rev app]. f_equal.
  - rewrite Nat.add_0_r. rewrite take_ge; [done |]. rewrite length_app. cbn. lia.
  - f_equal. apply imap_ext. intros i y Hy%lookup_lt_Some. f_equal. by rewrite take_app_le by lia.
Qed.

Lemma am_write_filled_frame ws (s : AspStore) :
  let s' := write_filled (E := AspError) ws s in
  am_levels s' = am_levels s /\ am_admin s' = am_admin s /\ am_events s' = am_events s /\
  am_admin_insert_only s' = am_admin_insert_only s.
Proof.
  cbv zeta. unfold write_filled. revert s. induction ws as [|w ws IH]; intros s; [done |]. cbn [foldl].
  destruct (IH (am_set_filled w.1 w.2 s)) as (H1 & H2 & H3 & H4). done.
Qed.

(** May the call insert: the administrator's authorisation, or open insertion. *)
Definition asp_may_insert (authorised : Address -> bool) (s : AspStore) : Prop :=
  am_admin_insert_only s = Some false \/ exists a, am_admin s = Some a /\ authorised a = true.

#[export] Instance asp_may_insert_dec authorised s : Decision (asp_may_insert authorised s).
Proof.
  apply or_dec; [apply _ |]. destruct (am_admin s) as [a|].
  - destruct (authorised a) eqn:E; [left; eauto | right; intros (? & [= <-] & ?); congruence].
  - right. by intros (? & ? & ?).
Defined.

Lemma asp_guard_run authorised s :
  is_Some (am_admin s) ->
  (stored_only ← gets am_admin_insert_only;
   (if default true stored_only then
      stored ← gets am_admin;
      admin ← require stored AE_NotInitialized;
      require_auth authorised admin
    else mret tt) : M AspStore AspError unit) s =
  (if bool_decide (am_admin_insert_only s = Some false) || match am_admin s with Some a => authorised a | None => false end
   then Ret tt else Trap, s).
Proof.
  intros [a Ha]. msteps. rewrite Ha. destruct (am_admin_insert_only s) as [[]|]; cbn [default from_option id].
  - msteps. rewrite Ha. msteps. rewrite bool_decide_false by done. cbn [orb]. unfold require_auth.
    by destruct (authorised a).
  - by rewrite bool_decide_true.
  - msteps. rewrite Ha. msteps. rewrite bool_decide_false by done. cbn [orb]. unfold require_auth.
    by destruct (authorised a).
Qed.

Lemma asp_insert_run depth leaves s authorised x :
  asp_ok depth leaves s -> asp_may_insert authorised s ->
  zlength leaves + 1 <= 2 ^ Z.of_nat depth -> in_field x ->
  exists s', asp_insert_leaf authorised x s = (Ret tt, s') /\ asp_ok depth (leaves ++ [x]) s'.
Proof using laws.
  intros [Hd Hadm Hlev Hleaves Hnext Hcap Hz Hf Hroot Hev] Hmay Hroom Hx.
  assert (0 <= zlength leaves) as Hn by (unfold zlength; lia).
  assert (2 ^ Z.of_nat depth <= 2 ^ 32) as H32 by (apply Z.pow_le_mono_r; lia). change (2 ^ 32) with 4294967296 in H32.
  unfold asp_insert_leaf. pose proof (asp_guard_run authorised s Hadm) as Hguard.
  destruct (bool_decide _ || _)%bool eqn:Hg.
  2: { exfalso. destruct Hmay as [Ho | (a & Ha & Hauth)].
       - rewrite bool_decide_true in Hg by done. done.
       - rewrite Ha, Hauth, orb_true_r in Hg. done. }
  msteps. rewrite bind_gets in Hguard. cbv beta in Hguard. rewrite (bind_run _ _ _ _ _ Hguard).
  msteps. rewrite Hlev. msteps. rewrite Hnext. msteps.
  assert (checked_shl 64 1 (Z.of_nat depth) = Some (2 ^ Z.of_nat depth)) as ->.
  { unfold checked_shl. case_if; [| lia]. rewrite Z.shiftl_1_l, Z.mod_small; [done |]. change (2 ^ 64) with 18446744073709551616. split; [apply Z.pow_nonneg; lia | lia]. }
  msteps. rewrite (proj2 (Z.leb_gt _ _)) by lia. cbn [fail_if]. msteps. rewrite Nat2Z.id.
  assert (Forall in_field [x]) as Hx1 by (rewrite Forall_cons; split; [done | apply Forall_nil_2]).
  destruct (insert_path_spec (S := AspStore) (E := AspError) poseidon2_compress zero_leaf depth
              get_zeroes (get_zeroes_zero_chain depth ltac:(lia)) get_zeroes_0 leaves [x] 0
              Hleaves Hx1 eq_refl (Z.divide_1_l _) s) as (ws & Hrun & Hz' & Hf');
    [lia | exact Hroom | exact Hz | exact Hf |].
  rewrite Z.div_1_r, Nat.sub_0_r in Hrun. cbn [node] in Hrun. rewrite zlookup_middle in Hrun. cbn [default from_option id] in Hrun.
  rewrite (bind_run _ _ _ _ _ Hrun). msteps.
  rewrite (proj2 (checked_add_Some 64 (zlength leaves) 1 _)) by (split; [done | lia]). msteps.
  eexists. split; [reflexivity |]. destruct (am_write_filled_frame ws s) as (W1 & W2 & W3 & W4).
  assert (zlength (leaves ++ [x]) = zlength leaves + 1) as Hlen.
  { unfold zlength. rewrite length_app. cbn [length]. lia. }
  split; cbn -[zlength write_filled Z.pow asp_root_of asp_events_of].
  - done.
  - by rewrite W2.
  - congruence.
  - by apply Forall_app.
  - by rewrite Hlen.
  - by rewrite Hlen.
  - exact Hz'.
  - rewrite Hlen. exact Hf'.
  - done.
  - by rewrite asp_events_push, W3, Hev.
Qed.

(** The other branches leave no trace. *)
Lemma asp_insert_refused depth leaves s authorised x :
  asp_ok depth leaves s ->
  ~ asp_may_insert authorised s \/ 2 ^ Z.of_nat depth < zlength leaves + 1 \/ BN_P <= x ->
  (asp_insert_leaf authorised x s).1 =
    (if decide (asp_may_insert authorised s) then
       if decide (2 ^ Z.of_nat depth < zlength leaves + 1) then Fail AE_MerkleTreeFull else Trap
     else Trap).
Proof using laws.
  intros [Hd Hadm Hlev Hleaves Hnext Hcap Hz Hf Hroot Hev] Hbad.
  assert (2 ^ Z.of_nat depth <= 2 ^ 32) as H32 by (apply Z.pow_le_mono_r; lia). change (2 ^ 32) with 4294967296 in H32.
  unfold asp_insert_leaf. pose proof (asp_guard_run authorised s Hadm) as Hguard.
  msteps. rewrite bind_gets in Hguard. cbv beta in Hguard. destruct (bool_decide _ || _)%bool eqn:Hg.
  2: { rewrite (bind_run_trap _ _ _ _ Hguard). apply orb_false_iff in Hg as [Hg1%bool_decide_eq_false Hg2].
       destruct (decide _) as [[? | (a & Ha & Hauth)]|]; [done | by rewrite Ha, Hauth in Hg2 | done]. }
  assert (asp_may_insert authorised s) as Hmay.
  { apply orb_true_iff in Hg as [Hg%bool_decide_eq_true | Hg]; [by left | right]. destruct (am_admin s); [eauto | done]. }
  rewrite (bind_run _ _ _ _ _ Hguard), decide_True by done.
  msteps. rewrite Hlev. msteps. rewrite Hnext. msteps.
  assert (checked_shl 64 1 (Z.of_nat depth) = Some (2 ^ Z.of_nat depth)) as ->.
  { unfold checked_shl. case_if; [| lia]. rewrite Z.shiftl_1_l, Z.mod_small; [done |]. change (2 ^ 64) with 18446744073709551616. split; [apply Z.pow_nonneg; lia | lia]. }
  msteps. destruct (decide (2 ^ Z.of_nat depth < zlength leaves + 1)) as [Hfull | Hfull].
  { rewrite (proj2 (Z.leb_le _ _)) by lia. done. }
  rewrite (proj2 (Z.leb_gt _ _)) by lia. cbn [fail_if]. msteps.
  destruct Hbad as [? | [? | Hx]]; [done | lia |].
  assert (0 < zlength get_zeroes) by reflexivity.
  rewrite Nat2Z.id. destruct depth as [|depth]; [lia |]. rewrite zrange_S. cbn [insert_path].
  rewrite land_1, Zmod_odd. destruct (Z.odd (zlength leaves)) eqn:Hodd; cbn [Z.eqb Pos.eqb]; msteps.
  - specialize (Hf 0%nat ltac:(lia)). rewrite Z.div_1_r in Hf. change (Z.of_nat 0) with 0 in Hf. cbn [filled_subtrees asp_path_store].
    rewrite (Hf Hodd). msteps. by rewrite poseidon2_compress_trap by (by right).
  - cbn [stored_zeroes asp_path_store am_zeroes am_set_filled set_filled_subtree].
    specialize (Hz 0%nat ltac:(lia)). change (Z.of_nat 0) with 0 in Hz. rewrite Hz, get_zeroes_0. msteps. by rewrite poseidon2_compress_trap by (by left).
Qed.

Lemma asp_constructor_loop k s :
  (k <= 33)%nat ->
  exists s',
    (for_each (zrange 0 k) (fun lvl =>
      zero_val ← require (zlookup get_zeroes lvl) AE_NotInitialized;
      modify (am_set_filled lvl zero_val);; modify (am_set_zero lvl zero_val)) : M AspStore AspError unit) s = (Ret tt, s') /\
    (forall l, (l < k)%nat -> am_zeroes s' !! Z.of_nat l = get_zeroes !! l) /\
    am_levels s' = am_levels s /\ am_admin s' = am_admin s /\ am_next_index s' = am_next_index s /\
    am_events s' = am_events s /\ am_admin_insert_only s' = am_admin_insert_only s.
Proof.
  induction k as [|k IH]; intros Hk; [exists s; split_and!; [done | lia | done ..] |].
  destruct IH as (s1 & Hrun & Hz & Hl & Ha & Hn & He & Ho); [lia |]. rewrite zrange_snoc, for_each_app.
  rewrite (bind_run _ _ _ _ _ Hrun). cbn [for_each]. rewrite Z.add_0_l.
  destruct (lookup_lt_is_Some_2 get_zeroes k) as [z Hzk]; [cbn; lia |].
  rewrite zlookup_nonneg, Nat2Z.id, Hzk by lia. msteps.
  eexists. split; [reflexivity |]. cbn [am_zeroes am_levels am_admin am_next_index am_events am_admin_insert_only am_set_zero am_set_filled].
  split_and!; [| done ..].
  intros l Hlk. destruct (decide (l = k)) as [-> | ]; [by rewrite lookup_insert_eq |].
  rewrite lookup_insert_ne by lia. apply Hz. lia.
Qed.

Lemma asp_constructor_run admin depth :
  (1 <= depth <= 32)%nat ->
  exists s', asp_constructor admin (Z.of_nat depth) empty_asp_store = (Ret tt, s') /\
    asp_ok depth [] s' /\ am_admin s' = Some admin /\ am_admin_insert_only s' = Some true.
Proof using laws.
  intros Hd. unfold asp_constructor. rewrite (proj2 (Z.eqb_neq _ _)), (proj2 (Z.ltb_ge _ _)) by lia.
  cbn [orb fail_if]. msteps. rewrite Nat2Z.id.
  edestruct (asp_constructor_loop (depth + 1)) as (s1 & Hrun & Hz & Hl & Ha & Hn & He & Ho); [lia |].
  rewrite (bind_run _ _ _ _ _ Hrun).
  destruct (lookup_lt_is_Some_2 get_zeroes depth) as [z Hzd]; [cbn; lia |].
  rewrite zlookup_nonneg, Nat2Z.id, Hzd by lia. msteps.
  eexists. split; [reflexivity |]. cbn [am_set_root am_admin am_admin_insert_only].
  split_and!; [| by rewrite Ha | by rewrite Ho]. split; cbn -[Z.pow asp_root_of].
  - done.
  - rewrite Ha. by eexists.
  - by rewrite Hl.
  - done.
  - by rewrite Hn.
  - apply Z.pow_nonneg. lia.
  - intros l Hle. apply Hz. lia.
  - apply frontier_nil.
  - unfold asp_root_of. by rewrite (tree_root_nil _ _ _ _ (get_zeroes_zero_chain depth ltac:(lia)) get_zeroes_0 z Hzd).
  - by rewrite He.
Qed.

End asp_refinement.

(** ** Traces *)

Section asp_traces.
Context {host : HostPoseidon2} {laws : HostPoseidon2Laws host}.

(** The leaf argument is a [U256]. *)
Definition asp_op_typed (op : asp_op) : Prop :=
  match op with AspInsertLeaf x => 0 <= x | _ => True end.

Lemma asp_ok_frame depth leaves s s' :
  asp_ok depth leaves s -> is_Some (am_admin s') ->
  am_levels s' = am_levels s -> am_next_index s' = am_next_index s -> am_zeroes s' = am_zeroes s ->
  am_filled_subtrees s' = am_filled_subtrees s -> am_root s' = am_root s -> am_events s' = am_events s ->
  asp_ok depth leaves s'.
Proof. intros [] ? Hl Hn Hz Hf Hr He. split; congruence || (rewrite ?Hl, ?Hn, ?Hz, ?Hf, ?Hr, ?He; done). Qed.

Lemma asp_insert_Ret depth leaves s authorised x u s' :
  asp_ok depth leaves s -> 0 <= x -> asp_insert_leaf authorised x s = (Ret u, s') ->
  asp_may_insert authorised s /\ in_field x /\ asp_ok depth (leaves ++ [x]) s'.
Proof using laws.
  intros Hok Hx Hrun.
  destruct (decide (asp_may_insert authorised s)) as [Hmay | Hmay].
  2: { pose proof (asp_insert_refused depth leaves s authorised x Hok ltac:(by left)) as Hr.
       rewrite Hrun, decide_False in Hr by done. done. }
  destruct (decide (2 ^ Z.of_nat depth < zlength leaves + 1)) as [Hfull | Hroom].
  { pose proof (asp_insert_refused depth leaves s authorised x Hok ltac:(by right; left)) as Hr.
    rewrite Hrun, decide_True, decide_True in Hr by done. done. }
  destruct (decide (BN_P <= x)) as [Hbig | Hsmall].
  { pose proof (asp_insert_refused depth leaves s authorised x Hok ltac:(by right; right)) as Hr.
    rewrite Hrun, decide_True, decide_False in Hr by done. done. }
  assert (in_field x) as Hxf by (unfold in_field; lia).
  destruct (asp_insert_run depth leaves s authorised x) as (s1 & Hrun1 & Hok1); [done | done | lia | done |].
  rewrite Hrun1 in Hrun. simplify_eq. done.
Qed.

Lemma asp_exec_Ret depth leaves s authorised op u s' :
  asp_ok depth leaves s -> asp_op_typed op -> asp_exec authorised op s = (Ret u, s') ->
  asp_ok depth (match op with AspInsertLeaf x => leaves ++ [x] | _ => leaves end) s'.
Proof using laws.
  intros Hok Hop Hrun. destruct op as [a | b | x |]; cbn [asp_exec] in Hrun.
  - unfold asp_update_admin, utils_update_admin in Hrun. run_inv.
    eapply asp_ok_frame; [done | by eexists | done ..].
  - unfold set_admin_insert_only in Hrun. run_inv.
    eapply asp_ok_frame; [done | apply (asp_admin _ _ _ Hok) | done ..].
  - by eapply asp_insert_Ret in Hrun as (_ & _ & ?).
  - unfold asp_get_root in Hrun. run_inv. done.
Qed.

Lemma asp_run_ok depth leaves s tr :
  asp_ok depth leaves s -> Forall (fun c => asp_op_typed c.2) tr ->
  asp_ok depth (leaves ++ (asp_run tr s).1) (asp_run tr s).2.
Proof using laws.
  revert leaves s. induction tr as [|[auth op] tr IH]; intros leaves s Hok Htr; cbn [asp_run].
  { by rewrite app_nil_r. }
  inversion Htr as [|? ? Hop Htr']; subst. cbn in Hop. unfold invoke.
  destruct (asp_exec auth op s) as [[u|e|] s1] eqn:Hrun.
  - pose proof (asp_exec_Ret depth leaves s auth op u s1 Hok Hop Hrun) as Hok1.
    specialize (IH _ s1 Hok1 Htr'). destruct (asp_run tr s1) as [ls s2]; cbn in *.
    destruct op; [done | done | by rewrite <- app_assoc in IH | done].
  - specialize (IH leaves s Hok Htr'). destruct (asp_run tr s) as [ls s2]; cbn in *. by destruct op.
  - specialize (IH leaves s Hok Htr'). destruct (asp_run tr s) as [ls s2]; cbn in *. by destruct op.
Qed.

End asp_traces.

(** ** Properties *)

(** The membership root commits to exactly the members inserted: after the
    constructor and any sequence of invocations (administration, insertions by
    anyone, successful or not), the stored root is the root of the hash tree over
    the leaves of the insertions that returned, in order, and the published events
    are one per such leaf, with its index and the root it led to. *)
Theorem asp_root_commits (host : HostPoseidon2) (laws : HostPoseidon2Laws host)
    (admin : Address) (depth : nat) (tr : list ((Address -> bool) * asp_op)) :
  (1 <= depth <= 32)%nat -> Forall (fun c => asp_op_typed c.2) tr ->
  exists s0,
    asp_constructor admin (Z.of_nat depth) empty_asp_store = (Ret tt, s0) /\
    let '(leaves, s) := asp_run tr s0 in
    Forall in_field leaves /\ zlength leaves <= 2 ^ Z.of_nat depth /\
    asp_get_root s = (Ret (tree_root poseidon2_compress zero_leaf leaves depth), s) /\
    am_events s = asp_events_of depth leaves.
Proof.
  intros Hd Htr. destruct (asp_constructor_run admin depth Hd) as (s0 & Hrun & Hok & _).
  exists s0. split; [done |]. pose proof (asp_run_ok depth [] s0 tr Hok Htr) as Hfin.
  destruct (asp_run tr s0) as [leaves s]. cbn in Hfin. destruct Hfin.
  split_and!; [done | done | | done]. unfold asp_get_root. msteps. by rewrite asp_root_ok0.
Qed.

Lemma asp_root_commits_witness :
  exists s0, asp_constructor "admin" (Z.of_nat 2) empty_asp_store = (Ret tt, s0).
Proof.
  destruct (asp_root_commits ref_host_poseidon2 ref_host_poseidon2_laws "admin" 2
              [(fun a => bool_decide (a = "admin"), AspInsertLeaf 5)]) as (s0 & H & _);
    [lia | repeat constructor; cbn; lia |]. exact (ex_intro _ s0 H).
Defined.

(** Only the administrator inserts while [AdminInsertOnly] is set: an insertion
    returns exactly when the caller may insert (the stored administrator authorised
    the call, or insertion is open), the tree has room and the leaf is canonical;
    otherwise the store is left as it was. *)
Theorem asp_insert_authorised (host : HostPoseidon2) (laws : HostPoseidon2Laws host)
    (depth : nat) (leaves : list Z) (s : AspStore) (authorised : Address -> bool) (x : Z) :
  asp_ok depth leaves s -> 0 <= x ->
  ((exists s', invoke (asp_insert_leaf authorised x) s = (Ret tt, s')) <->
   (asp_may_insert authorised s /\ zlength leaves + 1 <= 2 ^ Z.of_nat depth /\ x < BN_P)) /\
  ((forall s', invoke (asp_insert_leaf authorised x) s <> (Ret tt, s')) ->
   (invoke (asp_insert_leaf authorised x) s).2 = s).
Proof.
  intros Hok Hx. split; [split |].
  - intros (s' & Hrun). apply (proj1 (invoke_Ret _ _ _ _)) in Hrun. pose proof (asp_insert_Ret _ _ _ _ _ _ _ Hok Hx Hrun) as (Hmay & [_ Hf] & Hok').
    pose proof (asp_capacity _ _ _ Hok') as Hc. split_and!; [done | | done].
    unfold zlength in *. rewrite length_app in Hc. cbn [length] in Hc. lia.
  - intros (Hmay & Hroom & Hf).
    destruct (asp_insert_run depth leaves s authorised x Hok Hmay Hroom) as (s' & Hrun & _); [by split |].
    exists s'. by apply invoke_Ret.
  - intros Hno. apply invoke_rollback. intros [] s' Hrun. apply (Hno s'). by apply invoke_Ret.
Qed.

Lemma asp_insert_authorised_witness :
  exists s s', invoke (asp_insert_leaf (host := ref_host_poseidon2) (fun a => bool_decide (a = "admin")) 5) s = (Ret tt, s').
Proof.
  destruct (asp_constructor_run (host := ref_host_poseidon2) "admin" 2) as (s & _ & Hok & Ha & Ho); [lia |].
  exists s. apply (asp_insert_authorised ref_host_poseidon2 ref_host_poseidon2_laws 2 [] s
                     (fun a => bool_decide (a = "admin")) 5 Hok); [lia |].
  split; [right; exists "admin"; split; [exact Ha | reflexivity] | split; [vm_compute; congruence | unfold BN_P; lia]].
Defined.
