(* ===== verification/Pool.v ===== *)
(** * The pool contract ([contracts/pool/src/pool.rs])

    The whole contract: construction, the transaction handler with its checks in
    order, the administration calls and the getters.  What it calls is a
    parameter: the token, verifier and association-set contracts, Keccak-256 and
    the XDR encoding ([PoolHost] and [Call]). *)

From S2P Require Import Prelude Ints Amounts Poseidon2Tables Hashes Soroban MerkleSpec MerkleHistory.

(** ** Data *)

Inductive PoolError : Type :=
| NotAuthorized
| MerkleTreeFull
| AlreadyInitialized
| WrongLevels
| NextIndexNotEven
| WrongExtAmount
| InvalidProof
| UnknownRoot
| AlreadySpentNullifier
| WrongExtHash
| NotInitialized
| Overflow
| NonCanonicalPublicInput.

Definition PoolError_from (e : MerkleError) : PoolError :=
  match e with
  | ME_AlreadyInitialized => AlreadyInitialized
  | ME_MerkleTreeFull => MerkleTreeFull
  | ME_WrongLevels => WrongLevels
  | ME_NextIndexNotEven => NextIndexNotEven
  | ME_NotInitialized => NotInitialized
  | ME_Overflow => Overflow
  end.

(** [contract_types::Groth16Proof]: the points as their byte encodings. *)
Record Groth16Proof : Type := {
  g16_a : bytes;
  g16_b : bytes;
  g16_c : bytes;
}.

Definition bytes_is_empty (b : bytes) : bool := match b with [] => true | _ => false end.

Definition Groth16Proof_is_empty (p : Groth16Proof) : bool :=
  bytes_is_empty (g16_a p) || bytes_is_empty (g16_b p) || bytes_is_empty (g16_c p).

Record Proof : Type := {
  proof : Groth16Proof;
  root : Z;
  input_nullifiers : list Z;
  output_commitment0 : Z;
  output_commitment1 : Z;
  public_amount : Z;
  ext_data_hash : bytes;
  asp_membership_root : Z;
  asp_non_membership_root : Z;
}.

Record ExtData : Type := {
  recipient : Address;
  ext_amount : Z;
  encrypted_output0 : bytes;
  encrypted_output1 : bytes;
}.

Inductive PoolEvent : Type :=
| NewCommitmentEvent (commitment index : Z) (encrypted_output : bytes)
| NewNullifierEvent (nullifier : Z).

(** ** What the contract calls *)

(** The parts that do not change from one call to the next: the contract's own
    address, the hash and encoding of the host, and the token contract's transfer on
    its ledger ([None] when it traps). *)
Class PoolHost (Ledger : Type) := {
  current_contract_address : Address;
  keccak256 : bytes -> bytes;
  to_xdr : ExtData -> bytes;
  token_transfer : Address -> Ledger -> Address -> Address -> Z -> option Ledger;
}.

(** What a single invocation sees of its surroundings: who authorised it, the roots
    the association-set contracts return and the verifier's answers; [None] when the
    called contract traps or returns an error. *)
Record Call : Type := {
  authorised : Address -> bool;
  asp_get_root_of : Address -> option Z;
  verify : Address -> Groth16Proof -> list bytes -> option bool;
}.

(** ** State *)

(** The entries of persistent storage under [DataKey], the tree's own entries, the
    published events (newest first) and the token's ledger. *)
Record PoolState (Ledger : Type) : Type := {
  pl_admin : option Address;
  pl_token : option Address;
  pl_verifier : option Address;
  pl_maximum_deposit : option Z;
  pl_nullifiers : option (gmap Z bool);
  pl_asp_membership : option Address;
  pl_asp_non_membership : option Address;
  pl_tree : MerkleStore;
  pl_events : list PoolEvent;
  pl_ledger : Ledger;
}.

Arguments pl_admin {_}.
Arguments pl_token {_}.
Arguments pl_verifier {_}.
Arguments pl_maximum_deposit {_}.
Arguments pl_nullifiers {_}.
Arguments pl_asp_membership {_}.
Arguments pl_asp_non_membership {_}.
Arguments pl_tree {_}.
Arguments pl_events {_}.
Arguments pl_ledger {_}.

Section setters.
Context {L : Type}.

Definition pl_set_admin (v : Address) (s : PoolState L) : PoolState L :=
  {| pl_admin := Some v; pl_token := pl_token s; pl_verifier := pl_verifier s; pl_maximum_deposit :=
     pl_maximum_deposit s; pl_nullifiers := pl_nullifiers s; pl_asp_membership := pl_asp_membership s;
     pl_asp_non_membership := pl_asp_non_membership s; pl_tree := pl_tree s; pl_events := pl_events s;
     pl_ledger := pl_ledger s |}.
Definition pl_set_token (v : Address) (s : PoolState L) : PoolState L :=
  {| pl_admin := pl_admin s; pl_token := Some v; pl_verifier := pl_verifier s; pl_maximum_deposit :=
     pl_maximum_deposit s; pl_nullifiers := pl_nullifiers s; pl_asp_membership := pl_asp_membership s;
     pl_asp_non_membership := pl_asp_non_membership s; pl_tree := pl_tree s; pl_events := pl_events s;
     pl_ledger := pl_ledger s |}.
Definition pl_set_verifier (v : Address) (s : PoolState L) : PoolState L :=
  {| pl_admin := pl_admin s; pl_token := pl_token s; pl_verifier := Some v; pl_maximum_deposit :=
     pl_maximum_deposit s; pl_nullifiers := pl_nullifiers s; pl_asp_membership := pl_asp_membership s;
     pl_asp_non_membership := pl_asp_non_membership s; pl_tree := pl_tree s; pl_events := pl_events s;
     pl_ledger := pl_ledger s |}.
Definition pl_set_maximum_deposit (v : Z) (s : PoolState L) : PoolState L :=
  {| pl_admin := pl_admin s; pl_token := pl_token s; pl_verifier := pl_verifier s; pl_maximum_deposit :=
     Some v; pl_nullifiers := pl_nullifiers s; pl_asp_membership := pl_asp_membership s;
     pl_asp_non_membership := pl_asp_non_membership s; pl_tree := pl_tree s; pl_events := pl_events s;
     pl_ledger := pl_ledger s |}.
Definition pl_set_nullifiers (v : gmap Z bool) (s : PoolState L) : PoolState L :=
  {| pl_admin := pl_admin s; pl_token := pl_token s; pl_verifier := pl_verifier s; pl_maximum_deposit :=
     pl_maximum_deposit s; pl_nullifiers := Some v; pl_asp_membership := pl_asp_membership s;
     pl_asp_non_membership := pl_asp_non_membership s; pl_tree := pl_tree s; pl_events := pl_events s;
     pl_ledger := pl_ledger s |}.
Definition pl_set_asp_membership (v : Address) (s : PoolState L) : PoolState L :=
  {| pl_admin := pl_admin s; pl_token := pl_token s; pl_verifier := pl_verifier s; pl_maximum_deposit :=
     pl_maximum_deposit s; pl_nullifiers := pl_nullifiers s; pl_asp_membership := Some v;
     pl_asp_non_membership := pl_asp_non_membership s; pl_tree := pl_tree s; pl_events := pl_events s;
     pl_ledger := pl_ledger s |}.
Definition pl_set_asp_non_membership (v : Address) (s : PoolState L) : PoolState L :=
  {| pl_admin := pl_admin s; pl_token := pl_token s; pl_verifier := pl_verifier s; pl_maximum_deposit :=
     pl_maximum_deposit s; pl_nullifiers := pl_nullifiers s; pl_asp_membership := pl_asp_membership s;
     pl_asp_non_membership := Some v; pl_tree := pl_tree s; pl_events := pl_events s; pl_ledger :=
     pl_ledger s |}.
Definition pl_set_tree (v : MerkleStore) (s : PoolState L) : PoolState L :=
  {| pl_admin := pl_admin s; pl_token := pl_token s; pl_verifier := pl_verifier s; pl_maximum_deposit :=
     pl_maximum_deposit s; pl_nullifiers := pl_nullifiers s; pl_asp_membership := pl_asp_membership s;
     pl_asp_non_membership := pl_asp_non_membership s; pl_tree := v; pl_events := pl_events s; pl_ledger
     := pl_ledger s |}.
Definition pl_set_ledger (v : L) (s : PoolState L) : PoolState L :=
  {| pl_admin := pl_admin s; pl_token := pl_token s; pl_verifier := pl_verifier s; pl_maximum_deposit :=
     pl_maximum_deposit s; pl_nullifiers := pl_nullifiers s; pl_asp_membership := pl_asp_membership s;
     pl_asp_non_membership := pl_asp_non_membership s; pl_tree := pl_tree s; pl_events := pl_events s;
     pl_ledger := v |}.
Definition pl_publish (v : PoolEvent) (s : PoolState L) : PoolState L :=
  {| pl_admin := pl_admin s; pl_token := pl_token s; pl_verifier := pl_verifier s; pl_maximum_deposit :=
     pl_maximum_deposit s; pl_nullifiers := pl_nullifiers s; pl_asp_membership := pl_asp_membership s;
     pl_asp_non_membership := pl_asp_non_membership s; pl_tree := pl_tree s; pl_events := v :: pl_events
     s; pl_ledger := pl_ledger s |}.

End setters.

Definition empty_pool {L} (l : L) : PoolState L :=
  {| pl_admin := None; pl_token := None; pl_verifier := None; pl_maximum_deposit := None; pl_nullifiers := None;
     pl_asp_membership := None; pl_asp_non_membership := None; pl_tree := empty_merkle_store; pl_events := [];
     pl_ledger := l |}.

(** ** Operations *)

Section pool.
Context {Ledger : Type} {env : PoolHost Ledger} {host : HostPoseidon2}.

Local Abbreviation MP := (M (PoolState Ledger) PoolError).

Definition on_tree {A} (m : M MerkleStore MerkleError A) : MP A := zoom pl_tree pl_set_tree PoolError_from m.

Definition pool_constructor (admin token verifier asp_membership asp_non_membership : Address)
    (maximum_deposit_amount levels : Z) : MP unit :=
  modify (pl_set_admin admin);;
  modify (pl_set_token token);;
  modify (pl_set_verifier verifier);;
  modify (pl_set_asp_membership asp_membership);;
  modify (pl_set_asp_non_membership asp_non_membership);;
  modify (pl_set_maximum_deposit maximum_deposit_amount);;
  modify (pl_set_nullifiers ∅);;
  on_tree (init levels).

Definition hash_ext_data (ext : ExtData) : option bytes :=
  let payload := to_xdr ext in
  let digest := keccak256 payload in
  let digest_u256 := u256_from_be_bytes digest in
  reduced ← u256_rem_euclid digest_u256 bn256_modulus;
  Some (u256_to_be_bytes reduced).

Definition max_ext_amount : Z := u256_from_parts 0x0100000000000000 0 0 0.

Definition i256_to_i128_nonneg (v : Z) : MP Z :=
  if v <? 0 then fail WrongExtAmount else require (i256_to_i128 v) WrongExtAmount.

Definition i256_abs_to_u256 (v : Z) : MP Z :=
  abs ← (if 0 <=? v then mret v else unwrap (i256_sub 0 v));
  mret (u256_from_be_bytes (i256_to_be_bytes abs)).

Definition calculate_public_amount (ext_amount : Z) : MP Z :=
  abs_ext ← i256_abs_to_u256 ext_amount;
  fail_if (max_ext_amount <=? abs_ext) WrongExtAmount;;
  if 0 <=? ext_amount then mret (u256_from_be_bytes (i256_to_be_bytes ext_amount))
  else
    neg ← unwrap (i256_sub 0 ext_amount);
    let neg_u256 := u256_from_be_bytes (i256_to_be_bytes neg) in
    unwrap (u256_sub bn256_modulus neg_u256).

(** *** Storage getters *)

Definition get_nullifiers : MP (gmap Z bool) := o ← gets pl_nullifiers; require o NotInitialized.
Definition get_token : MP Address := o ← gets pl_token; require o NotInitialized.
Definition get_maximum_deposit : MP Z := o ← gets pl_maximum_deposit; require o NotInitialized.
Definition get_verifier : MP Address := o ← gets pl_verifier; require o NotInitialized.
Definition get_admin : MP Address := o ← gets pl_admin; require o NotInitialized.
Definition get_asp_membership : MP Address := o ← gets pl_asp_membership; require o NotInitialized.
Definition get_asp_non_membership : MP Address := o ← gets pl_asp_non_membership; require o NotInitialized.

(** *** Nullifiers *)

Definition is_spent (n : Z) : MP bool :=
  nulls ← get_nullifiers;
  mret (default false (nulls !! n)).

Definition mark_spent (n : Z) : MP unit :=
  nulls ← get_nullifiers;
  modify (pl_set_nullifiers (<[n := true]> nulls)).

(** *** Proof verification *)

Definition validate_bn256_public_input (value modulus : Z) : MP unit :=
  fail_if (modulus <=? value) NonCanonicalPublicInput.

Definition validate_bn256_public_inputs (p : Proof) (modulus : Z) : MP unit :=
  validate_bn256_public_input (root p) modulus;;
  validate_bn256_public_input (public_amount p) modulus;;
  for_each (input_nullifiers p) (fun nullifier => validate_bn256_public_input nullifier modulus);;
  validate_bn256_public_input (output_commitment0 p) modulus;;
  validate_bn256_public_input (output_commitment1 p) modulus;;
  validate_bn256_public_input (asp_membership_root p) modulus;;
  validate_bn256_public_input (asp_non_membership_root p) modulus.

Definition public_inputs_of (p : Proof) : list bytes :=
  [u256_to_be_bytes (root p); u256_to_be_bytes (public_amount p); ext_data_hash p] ++
  (u256_to_be_bytes <$> input_nullifiers p) ++
  [u256_to_be_bytes (output_commitment0 p); u256_to_be_bytes (output_commitment1 p)] ++
  ((fun _ => u256_to_be_bytes (asp_membership_root p)) <$> input_nullifiers p) ++
  ((fun _ => u256_to_be_bytes (asp_non_membership_root p)) <$> input_nullifiers p).

Definition verify_proof (call : Call) (p : Proof) : MP bool :=
  fail_if (Groth16Proof_is_empty (proof p)) InvalidProof;;
  verifier ← get_verifier;
  validate_bn256_public_inputs p bn256_modulus;;
  let public_inputs := public_inputs_of p in
  unwrap (verify call verifier (proof p) public_inputs).

(** *** Association-set roots *)

Definition get_asp_membership_root (call : Call) : MP Z :=
  asp_address ← get_asp_membership;
  unwrap (asp_get_root_of call asp_address).

Definition get_asp_non_membership_root (call : Call) : MP Z :=
  asp_address ← get_asp_non_membership;
  unwrap (asp_get_root_of call asp_address).

(** *** Transactions *)

Definition transfer (token from to_ : Address) (amount : Z) : MP unit :=
  ledger ← gets pl_ledger;
  ledger' ← unwrap (token_transfer token ledger from to_ amount);
  modify (pl_set_ledger ledger').

Definition internal_transact (call : Call) (p : Proof) (ext : ExtData) : MP unit :=
  known ← on_tree (is_known_root (root p));
  fail_if (negb known) UnknownRoot;;
  for_each (input_nullifiers p) (fun n =>
    spent ← is_spent n;
    fail_if spent AlreadySpentNullifier);;
  ext_hash ← unwrap (hash_ext_data ext);
  fail_if (negb (bool_decide (ext_hash = ext_data_hash p))) WrongExtHash;;
  expected_public_amount ← calculate_public_amount (ext_amount ext);
  fail_if (negb (public_amount p =? expected_public_amount)) WrongExtAmount;;
  member_root ← get_asp_membership_root call;
  non_member_root ← get_asp_non_membership_root call;
  fail_if (negb (member_root =? asp_membership_root p) || negb (non_member_root =? asp_non_membership_root p))
    InvalidProof;;
  is_valid ← verify_proof call p;
  fail_if (negb is_valid) InvalidProof;;
  for_each (input_nullifiers p) (fun n =>
    ignore (mark_spent n);;
    modify (pl_publish (NewNullifierEvent n)));;
  token ← get_token;
  (if ext_amount ext <? 0 then
     abs ← unwrap (i256_sub 0 (ext_amount ext));
     amount ← i256_to_i128_nonneg abs;
     transfer token current_contract_address (recipient ext) amount
   else mret tt);;
  idx ← on_tree (insert_two_leaves (output_commitment0 p) (output_commitment1 p));
  modify (pl_publish (NewCommitmentEvent (output_commitment0 p) idx.1 (encrypted_output0 ext)));;
  modify (pl_publish (NewCommitmentEvent (output_commitment1 p) idx.2 (encrypted_output1 ext))).

Definition transact (call : Call) (p : Proof) (ext : ExtData) (sender : Address) : MP unit :=
  require_auth (authorised call) sender;;
  token ← get_token;
  (if 0 <? ext_amount ext then
     let deposit_u := u256_from_be_bytes (i256_to_be_bytes (ext_amount ext)) in
     max ← get_maximum_deposit;
     fail_if (max <? deposit_u) WrongExtAmount;;
     amount ← i256_to_i128_nonneg (ext_amount ext);
     transfer token sender current_contract_address amount
   else mret tt);;
  internal_transact call p ext.

(** *** Queries and administration *)

Definition pool_get_root : MP Z := on_tree get_last_root.
Definition pool_is_known_root (r : Z) : MP bool := on_tree (is_known_root r).

Definition pool_update_admin (call : Call) (new_admin : Address) : MP unit :=
  stored ← gets pl_admin;
  fail_if (negb (bool_decide (is_Some stored))) NotInitialized;;
  utils_update_admin pl_admin pl_set_admin (authorised call) new_admin.

Definition update_asp_membership (call : Call) (new_asp_membership : Address) : MP unit :=
  admin ← get_admin;
  require_auth (authorised call) admin;;
  modify (pl_set_asp_membership new_asp_membership).

Definition update_asp_non_membership (call : Call) (new_asp_non_membership : Address) : MP unit :=
  admin ← get_admin;
  require_auth (authorised call) admin;;
  modify (pl_set_asp_non_membership new_asp_non_membership).

End pool.
