(* ===== verification/PoolSpec.v ===== *)
(** * The pool's contract with its users

    An abstract pool: the list of commitments, the set of spent nullifiers, the
    configuration, the event log and the token ledger.  [spec_transact] is what a
    transaction does to it; [pool_rel] relates the contract's storage to it, and
    the handler of [Pool.v] refines it: same outcome on every input, related state
    when it returns. *)

From S2P Require Import Prelude Ints Amounts Poseidon2Tables Hashes Soroban MerkleSpec MerkleHistory Pool.

(** ** The abstract pool *)

Record PoolSpec (Ledger : Type) : Type := {
  ps_depth : nat;
  ps_leaves : list Z;
  ps_spent : gset Z;
  ps_admin : Address;
  ps_token : Address;
  ps_verifier : Address;
  ps_maximum_deposit : Z;
  ps_asp_membership : Address;
  ps_asp_non_membership : Address;
  ps_events : list PoolEvent;
  ps_ledger : Ledger;
}.

Arguments ps_depth {_}.
Arguments ps_leaves {_}.
Arguments ps_spent {_}.
Arguments ps_admin {_}.
Arguments ps_token {_}.
Arguments ps_verifier {_}.
Arguments ps_maximum_deposit {_}.
Arguments ps_asp_membership {_}.
Arguments ps_asp_non_membership {_}.
Arguments ps_events {_}.
Arguments ps_ledger {_}.

Section spec.
Context {Ledger : Type} {env : PoolHost Ledger} {host : HostPoseidon2}.

Local Abbreviation SP := (SM (PoolSpec Ledger) PoolError).

Definition ps_update (leaves : list Z) (spent : gset Z) (events : list PoolEvent) (ledger : Ledger)
    (a : PoolSpec Ledger) : PoolSpec Ledger :=
  {| ps_depth := ps_depth a; ps_leaves := leaves; ps_spent := spent; ps_admin := ps_admin a;
     ps_token := ps_token a; ps_verifier := ps_verifier a; ps_maximum_deposit := ps_maximum_deposit a;
     ps_asp_membership := ps_asp_membership a; ps_asp_non_membership := ps_asp_non_membership a;
     ps_events := events; ps_ledger := ledger |}.

Definition ps_set_ledger (l : Ledger) (a : PoolSpec Ledger) : PoolSpec Ledger :=
  ps_update (ps_leaves a) (ps_spent a) (ps_events a) l a.

Definition ps_publish (e : PoolEvent) (a : PoolSpec Ledger) : PoolSpec Ledger :=
  ps_update (ps_leaves a) (ps_spent a) (e :: ps_events a) (ps_ledger a) a.

(** A root is usable when it is nonzero and among the last 90. *)
Definition usable_root (r : Z) (a : PoolSpec Ledger) : bool :=
  bool_decide (r <> 0 /\ r ∈ recent 90 (history (ps_depth a) (ps_leaves a))).

(** The public amount of an external amount: its residue, for amounts below
    [2^248] in absolute value; the smallest [I256] has no absolute value. *)
Definition spec_public_amount (v : Z) : SP Z :=
  if v =? - 2 ^ 255 then strap
  else scheck (Z.abs v <? 2 ^ 248) WrongExtAmount;; mret (v mod BN_P).

(** Every public input is a canonical field element. *)
Definition canonical_inputs (p : Proof) : bool :=
  forallb (fun x => x <? BN_P)
    ([root p; public_amount p] ++ input_nullifiers p ++
     [output_commitment0 p; output_commitment1 p; asp_membership_root p; asp_non_membership_root p]).

Definition spec_transfer (token from to_ : Address) (amount : Z) : SP unit :=
  ledger ← sgets ps_ledger;
  ledger' ← sunwrap (token_transfer token ledger from to_ amount);
  smodify (ps_set_ledger ledger').

(** Spending: each nullifier joins the spent set and is published. *)
Definition spend (ns : list Z) (a : PoolSpec Ledger) : PoolSpec Ledger :=
  ps_update (ps_leaves a) (ps_spent a ∪ list_to_set ns) (rev (NewNullifierEvent <$> ns) ++ ps_events a) (ps_ledger a) a.

(** Appending the two commitments, if the tree has room. *)
Definition spec_insert (c0 c1 : Z) : SP (Z * Z) :=
  a ← sgets id;
  let n := zlength (ps_leaves a) in
  scheck (n + 2 <=? 2 ^ Z.of_nat (ps_depth a)) MerkleTreeFull;;
  (if (BN_P <=? c0) || (BN_P <=? c1) then strap else mret tt);;
  smodify (fun a => ps_update (ps_leaves a ++ [c0; c1]) (ps_spent a) (ps_events a) (ps_ledger a) a);;
  mret (n, n + 1).

(** No nullifier has been spent. *)
Definition spec_unspent (ns : list Z) : SP unit :=
  spent ← sgets ps_spent;
  scheck (forallb (fun n => bool_decide (n ∉ spent)) ns) AlreadySpentNullifier.

(** The verifier accepts the proof for the canonical public inputs. *)
Definition spec_verify (call : Call) (p : Proof) : SP bool :=
  scheck (negb (Groth16Proof_is_empty (proof p))) InvalidProof;;
  verifier ← sgets ps_verifier;
  scheck (canonical_inputs p) NonCanonicalPublicInput;;
  sunwrap (verify call verifier (proof p) (public_inputs_of p)).

(** A token amount: below [2^127]. *)
Definition spec_amount (v : Z) : SP Z := scheck (v <? 2 ^ 127) WrongExtAmount;; mret v.

Definition spec_asp_root (call : Call) (which : PoolSpec Ledger -> Address) : SP Z :=
  asp ← sgets which;
  sunwrap (asp_get_root_of call asp).

Definition ext_hash (ext : ExtData) : bytes := u256_to_be_bytes (be_value (keccak256 (to_xdr ext)) mod BN_P).

Definition spec_internal_transact (call : Call) (p : Proof) (ext : ExtData) : SP unit :=
  known ← sgets (usable_root (root p));
  scheck known UnknownRoot;;
  spec_unspent (input_nullifiers p);;
  scheck (bool_decide (ext_hash ext = ext_data_hash p)) WrongExtHash;;
  expected ← spec_public_amount (ext_amount ext);
  scheck (public_amount p =? expected) WrongExtAmount;;
  member_root ← spec_asp_root call ps_asp_membership;
  non_member_root ← spec_asp_root call ps_asp_non_membership;
  scheck ((member_root =? asp_membership_root p) && (non_member_root =? asp_non_membership_root p)) InvalidProof;;
  is_valid ← spec_verify call p;
  scheck is_valid InvalidProof;;
  smodify (spend (input_nullifiers p));;
  token ← sgets ps_token;
  (if ext_amount ext <? 0 then
     amount ← spec_amount (- ext_amount ext);
     spec_transfer token current_contract_address (recipient ext) amount
   else mret tt);;
  idx ← spec_insert (output_commitment0 p) (output_commitment1 p);
  smodify (ps_publish (NewCommitmentEvent (output_commitment0 p) idx.1 (encrypted_output0 ext)));;
  smodify (ps_publish (NewCommitmentEvent (output_commitment1 p) idx.2 (encrypted_output1 ext))).

Definition spec_transact (call : Call) (p : Proof) (ext : ExtData) (sender : Address) : SP unit :=
  (if authorised call sender then mret tt else strap);;
  token ← sgets ps_token;
  (if 0 <? ext_amount ext then
     max ← sgets ps_maximum_deposit;
     scheck (ext_amount ext <=? max) WrongExtAmount;;
     amount ← spec_amount (ext_amount ext);
     spec_transfer token sender current_contract_address amount
   else mret tt);;
  spec_internal_transact call p ext.

(** The administration calls. *)
Definition ps_set_config (admin asp_m asp_n : Address) (a : PoolSpec Ledger) : PoolSpec Ledger :=
  {| ps_depth := ps_depth a; ps_leaves := ps_leaves a; ps_spent := ps_spent a; ps_admin := admin;
     ps_token := ps_token a; ps_verifier := ps_verifier a; ps_maximum_deposit := ps_maximum_deposit a;
     ps_asp_membership := asp_m; ps_asp_non_membership := asp_n;
     ps_events := ps_events a; ps_ledger := ps_ledger a |}.

Definition spec_as_admin (call : Call) (change : PoolSpec Ledger -> PoolSpec Ledger) : SP unit :=
  admin ← sgets ps_admin;
  (if authorised call admin then mret tt else strap);;
  smodify change.

End spec.

(** ** The representation relation *)

Section refinement.
Context {Ledger : Type} {env : PoolHost Ledger} {host : HostPoseidon2} {laws : HostPoseidon2Laws host}.

Record pool_rel (s : PoolState Ledger) (a : PoolSpec Ledger) : Prop := {
  rel_tree : tree_ok (ps_depth a) (ps_leaves a) (pl_tree s);
  rel_spent : exists m, pl_nullifiers s = Some m /\ forall n, default false (m !! n) = bool_decide (n ∈ ps_spent a);
  rel_admin : pl_admin s = Some (ps_admin a);
  rel_token : pl_token s = Some (ps_token a);
  rel_verifier : pl_verifier s = Some (ps_verifier a);
  rel_max : pl_maximum_deposit s = Some (ps_maximum_deposit a);
  rel_asp_m : pl_asp_membership s = Some (ps_asp_membership a);
  rel_asp_n : pl_asp_non_membership s = Some (ps_asp_non_membership a);
  rel_events : pl_events s = ps_events a;
  rel_ledger : pl_ledger s = ps_ledger a;
}.

Local Abbreviation sim := (simulates (E := PoolError) pool_rel).

Lemma sim_known r : sim (on_tree (is_known_root r)) (sgets (usable_root r)).
Proof.
  intros s a Hrel. cbn. exists s. split; [| done]. unfold on_tree.
  erewrite zoom_run by (apply is_known_root_run, (rel_tree _ _ Hrel)). by destruct s.
Qed.

Lemma sim_transfer token from to_ amount : sim (transfer token from to_ amount) (spec_transfer token from to_ amount).
Proof.
  apply sim_bind; [apply sim_gets; by intros ? ? [] | intros l].
  apply sim_bind; [apply sim_unwrap | intros l']. apply sim_modify. intros s a []. by split.
Qed.

Lemma sim_unspent ns :
  sim (for_each ns (fun n => spent ← is_spent n; fail_if spent AlreadySpentNullifier))
      (spec_unspent ns).
Proof.
  intros s a Hrel. destruct (rel_spent _ _ Hrel) as (m & Hm & Hspent).
  rewrite (for_each_check ns _ (fun n => bool_decide (n ∉ ps_spent a)) AlreadySpentNullifier s).
  - unfold spec_unspent, mbind, SM_bind, sgets, scheck. destruct (forallb _ ns); cbn; eauto.
  - intros n _. unfold is_spent, get_nullifiers. msteps. rewrite Hm. msteps. rewrite Hspent.
    case_bool_decide; [rewrite bool_decide_false by tauto | rewrite bool_decide_true by done]; done.
Qed.

Lemma sim_spend ns :
  sim (for_each ns (fun n => ignore (mark_spent n);; modify (pl_publish (NewNullifierEvent n))))
      (smodify (spend ns)).
Proof.
  induction ns as [|n ns IH]; intros s a Hrel.
  - cbn. exists s. split; [done |]. destruct Hrel, rel_spent0 as (m & Hm & Hsp).
    split; [done | | done ..]. exists m. split; [done |]. intros n. cbn. rewrite Hsp. apply bool_decide_ext. set_solver.
  - destruct (rel_spent _ _ Hrel) as (m & Hm & Hspent).
    set (s1 := pl_publish (NewNullifierEvent n) (pl_set_nullifiers (<[n := true]> m) s)).
    assert (pool_rel s1 (spend [n] a)) as Hrel1.
    { destruct Hrel. split; [done | | done .. | cbn; congruence | done]. exists (<[n := true]> m). split; [done |]. intros k. cbn.
      destruct (decide (k = n)) as [-> | Hk].
      - rewrite lookup_insert_eq. cbn. symmetry. apply bool_decide_eq_true. set_solver.
      - rewrite lookup_insert_ne, Hspent by done. apply bool_decide_ext. set_solver. }
    cbn [for_each]. rewrite bind_assoc.
    assert (ignore (mark_spent n) s = (Ret tt, pl_set_nullifiers (<[n := true]> m) s)) as Hmark.
    { unfold ignore, mark_spent, get_nullifiers. msteps. rewrite Hm. done. }
    destruct (IH s1 (spend [n] a) Hrel1) as (s' & Hrun & Hrel').
    exists s'. rewrite (bind_run _ _ _ _ _ Hmark), bind_modify. split; [exact Hrun |].
    assert (spend ns (spend [n] a) = spend (n :: ns) a) as <-; [| done].
    unfold spend, ps_update. cbn. f_equal; [set_solver |]. by rewrite <- app_assoc.
Qed.

Lemma sim_insert c0 c1 :
  0 <= c0 -> 0 <= c1 -> sim (on_tree (insert_two_leaves c0 c1)) (spec_insert c0 c1).
Proof using laws.
  intros H0 H1 s a Hrel. pose proof (rel_tree _ _ Hrel) as Htree. unfold spec_insert, mbind, SM_bind, sgets, scheck, id. cbn.
  destruct (Z.leb_spec (zlength (ps_leaves a) + 2) (2 ^ Z.of_nat (ps_depth a))) as [Hroom | Hfull]; cbn.
  - destruct ((BN_P <=? c0) || (BN_P <=? c1)) eqn:Hc; cbn.
    + exists (pl_set_tree (pl_tree s) s). apply zoom_trap.
      eapply insert_two_leaves_noncanonical; [done | done |]. bools. destruct Hc; bools; auto.
    + bools. destruct (insert_two_leaves_run _ _ _ c0 c1 Htree Hroom) as (t & Hrun & Hok); [by split | by split |].
      exists (pl_set_tree t s). split; [by apply zoom_run |]. destruct Hrel. by split.
  - exists (pl_set_tree (pl_tree s) s). apply (zoom_fail _ _ PoolError_from _ _ ME_MerkleTreeFull).
    by eapply insert_two_leaves_full.
Qed.

(** *** Amounts *)

Lemma max_ext_amount_spec : max_ext_amount = 2 ^ 248.
Proof. reflexivity. Qed.

Lemma pow_bounds : 2 ^ 248 < BN_P /\ BN_P < 2 ^ 254 /\ 2 ^ 255 = 128 * 2 ^ 248 /\ 2 ^ 254 = 64 * 2 ^ 248 /\
  2 ^ 256 = 256 * 2 ^ 248 /\ 2 ^ 127 < 2 ^ 248 /\ 0 < 2 ^ 127.
Proof. vm_compute. done. Qed.

Lemma i256_sub_0 v : is_i256 v -> v <> - 2 ^ 255 -> i256_sub 0 v = Some (- v).
Proof.
  unfold is_i256, i256_sub. intros Hv Hmin. rewrite Z.sub_0_l. apply try_into_i_Some. split; [done |].
  change (256 - 1) with 255. lia.
Qed.

Lemma i256_sub_min : i256_sub 0 (- 2 ^ 255) = None.
Proof. reflexivity. Qed.

Lemma abs_run (s : PoolState Ledger) v :
  is_i256 v -> v <> - 2 ^ 255 -> i256_abs_to_u256 v s = (Ret (Z.abs v), s).
Proof.
  intros Hv Hmin. unfold i256_abs_to_u256. pose proof pow_bounds. unfold is_i256 in Hv. case_if.
  - msteps. rewrite i256_be_u256_nonneg by (unfold is_i256; lia). by rewrite Z.abs_eq by lia.
  - rewrite i256_sub_0 by (unfold is_i256; done || lia). msteps.
    rewrite i256_be_u256_nonneg by (unfold is_i256; lia). by rewrite Z.abs_neq by lia.
Qed.

Lemma calculate_public_amount_run (s : PoolState Ledger) v :
  is_i256 v ->
  calculate_public_amount v s =
    (if v =? - 2 ^ 255 then Trap else if Z.abs v <? 2 ^ 248 then Ret (v mod BN_P) else Fail WrongExtAmount, s).
Proof.
  intros Hv. unfold calculate_public_amount. pose proof pow_bounds as Hp.
  destruct (Z.eqb_spec v (- 2 ^ 255)) as [-> | Hmin].
  { unfold i256_abs_to_u256. change (0 <=? - 2 ^ 255) with false. rewrite i256_sub_min. done. }
  rewrite (bind_run _ _ _ _ _ (abs_run s v Hv Hmin)), max_ext_amount_spec.
  destruct (Z.ltb_spec (Z.abs v) (2 ^ 248)) as [Hlt | Hge].
  2: { rewrite (proj2 (Z.leb_le (2 ^ 248) _)) by lia. done. }
  rewrite (proj2 (Z.leb_gt (2 ^ 248) _)) by lia. cbn [fail_if mret SM_ret]. rewrite bind_mret.
  unfold is_i256 in Hv. destruct (Z.leb_spec 0 v) as [Hpos | Hneg].
  - rewrite i256_be_u256_nonneg by (unfold is_i256; lia). rewrite Z.mod_small by lia. done.
  - rewrite i256_sub_0 by (unfold is_i256; done || lia). msteps.
    rewrite i256_be_u256_nonneg by (unfold is_i256; lia). rewrite bn256_modulus_p. unfold u256_sub.
    rewrite (proj2 (try_into_u_Some 256 _ (v mod BN_P))); [done |].
    assert (v mod BN_P = BN_P - - v) as ->; [| lia].
    symmetry. apply (Z.mod_unique_pos _ _ (-1)); lia.
Qed.

Lemma sim_public_amount v : is_i256 v -> sim (calculate_public_amount v) (spec_public_amount v).
Proof.
  intros Hv s a Hrel. rewrite calculate_public_amount_run by done. unfold spec_public_amount.
  destruct (v =? - 2 ^ 255); [cbn; eauto |]. rewrite scheck_bind. destruct (Z.abs v <? 2 ^ 248); cbn; eauto.
Qed.

(** A non-negative amount as [i128]. *)
Lemma sim_nonneg v : 0 <= v -> sim (i256_to_i128_nonneg v) (spec_amount v).
Proof.
  intros Hv s a Hrel. unfold i256_to_i128_nonneg. rewrite (proj2 (Z.ltb_ge v 0)) by lia.
  unfold spec_amount, mbind, SM_bind, scheck. destruct (Z.ltb_spec v (2 ^ 127)) as [Hlt | Hge]; cbn.
  - exists s. split; [| done]. unfold i256_to_i128.
    rewrite (proj2 (try_into_i_Some 128 v v)); [done |]. split; [done |]. change (128 - 1) with 127. lia.
  - exists s. unfold i256_to_i128. destruct (try_into_i 128 v) eqn:E; [| done].
    apply try_into_i_Some in E as [_ E]. change (128 - 1) with 127 in E. lia.
Qed.

(** *** Proof verification *)

Lemma validate_run (s : PoolState Ledger) p :
  validate_bn256_public_inputs p bn256_modulus s =
  if canonical_inputs p then (Ret tt, s) else (Fail NonCanonicalPublicInput, s).
Proof.
  unfold validate_bn256_public_inputs, canonical_inputs, validate_bn256_public_input. rewrite bn256_modulus_p.
  rewrite forallb_app. cbn [forallb]. rewrite forallb_app. cbn [forallb].
  assert (forall (x : Z) {B} (k : unit -> M (PoolState Ledger) PoolError B),
    (fail_if (BN_P <=? x) NonCanonicalPublicInput ≫= k) s =
    if x <? BN_P then k tt s else (Fail NonCanonicalPublicInput, s)) as Hone.
  { intros x B k. destruct (Z.ltb_spec x BN_P); [rewrite (proj2 (Z.leb_gt _ _)) by lia | rewrite (proj2 (Z.leb_le _ _)) by lia]; done. }
  rewrite !Hone. destruct (root p <? BN_P); cbn [andb]; [| done].
  destruct (public_amount p <? BN_P); cbn [andb]; [| done].
  assert (for_each (input_nullifiers p) (fun n => fail_if (BN_P <=? n) NonCanonicalPublicInput) s =
    if forallb (fun x => x <? BN_P) (input_nullifiers p) then (Ret tt, s) else (Fail NonCanonicalPublicInput, s)) as Hns.
  { apply for_each_check. intros x _. destruct (Z.ltb_spec x BN_P);
      [rewrite (proj2 (Z.leb_gt _ _)) by lia | rewrite (proj2 (Z.leb_le _ _)) by lia]; done. }
  destruct (forallb _ (input_nullifiers p)); cbn [andb].
  2: { by rewrite (bind_run_fail _ _ _ _ _ Hns). }
  rewrite (bind_run _ _ _ _ _ Hns), !Hone.
  destruct (output_commitment0 p <? BN_P); cbn [andb]; [| done].
  destruct (output_commitment1 p <? BN_P); cbn [andb]; [| done].
  destruct (asp_membership_root p <? BN_P); cbn [andb]; [| done].
  destruct (Z.ltb_spec (asp_non_membership_root p) BN_P);
    [rewrite (proj2 (Z.leb_gt _ _)) by lia | rewrite (proj2 (Z.leb_le _ _)) by lia]; done.
Qed.

Lemma sim_verify call p :
  sim (verify_proof call p) (spec_verify call p).
Proof.
  unfold verify_proof. apply sim_bind; [apply sim_fail_if; by rewrite negb_involutive | intros _].
  apply sim_bind; [apply sim_get; by intros ? ? [] | intros v].
  apply sim_bind; [| intros _; apply sim_unwrap].
  intros s a Hrel. rewrite validate_run. unfold scheck. destruct (canonical_inputs p); cbn; eauto.
Qed.

(** *** The handlers *)

Lemma sim_auth (auth : Address -> bool) who :
  sim (require_auth auth who) (if auth who then mret tt else strap).
Proof. unfold require_auth. destruct (auth who); [apply sim_ret |]. intros s a Hrel. cbn. unfold trap. eauto. Qed.

Lemma sim_unwrap_Some {A B} (x : A) (k : A -> M (PoolState Ledger) PoolError B) g :
  sim (k x) g -> sim (unwrap (Some x) ≫= k) g.
Proof. done. Qed.

Lemma hash_ext_data_spec ext : hash_ext_data ext = Some (ext_hash ext).
Proof. unfold hash_ext_data, u256_rem_euclid. rewrite bn256_modulus_p. done. Qed.

(** The typing of the arguments: what [I256] and [U256] values are. *)
Record tx_typed (p : Proof) (ext : ExtData) : Prop := {
  typed_ext : is_i256 (ext_amount ext);
  typed_c0 : 0 <= output_commitment0 p;
  typed_c1 : 0 <= output_commitment1 p;
}.

Lemma sim_withdrawal token ext :
  is_i256 (ext_amount ext) -> ext_amount ext <> - 2 ^ 255 ->
  sim (if ext_amount ext <? 0 then
         abs ← unwrap (i256_sub 0 (ext_amount ext));
         amount ← i256_to_i128_nonneg abs;
         transfer token current_contract_address (recipient ext) amount
       else mret tt)
      (if ext_amount ext <? 0 then
         amount ← spec_amount (- ext_amount ext);
         spec_transfer token current_contract_address (recipient ext) amount
       else mret tt).
Proof.
  intros Hext Hmin. destruct (Z.ltb_spec (ext_amount ext) 0); [| apply sim_ret].
  rewrite i256_sub_0 by done. apply sim_unwrap_Some.
  apply sim_bind; [apply sim_nonneg; lia | intros amount; apply sim_transfer].
Qed.

Lemma sim_internal_transact call p ext :
  tx_typed p ext -> sim (internal_transact call p ext) (spec_internal_transact call p ext).
Proof using laws.
  intros [Hext Hc0 Hc1]. unfold internal_transact, spec_internal_transact.
  apply sim_bind; [apply sim_known | intros known].
  apply sim_bind; [by apply sim_fail_if | intros _].
  apply sim_bind; [apply sim_unspent | intros _].
  rewrite hash_ext_data_spec. apply sim_unwrap_Some.
  apply sim_bind; [by apply sim_fail_if | intros _].
  destruct (decide (ext_amount ext = - 2 ^ 255)) as [Hmin | Hmin].
  { intros s a Hrel. pose proof (sim_public_amount _ Hext s a Hrel) as Hs. unfold spec_public_amount in *.
    rewrite Hmin in *. destruct Hs as (s' & Hs). exists s'. by rewrite (bind_run_trap _ _ _ _ Hs). }
  apply sim_bind; [by apply sim_public_amount | intros expected].
  apply sim_bind; [by apply sim_fail_if | intros _].
  apply sim_bind; [apply sim_bind; [apply sim_get; by intros ? ? [] | intros; apply sim_unwrap] | intros member_root].
  apply sim_bind; [apply sim_bind; [apply sim_get; by intros ? ? [] | intros; apply sim_unwrap] | intros non_member_root].
  apply sim_bind; [apply sim_fail_if; by rewrite negb_andb | intros _].
  apply sim_bind; [apply sim_verify | intros is_valid].
  apply sim_bind; [by apply sim_fail_if | intros _].
  apply sim_bind; [apply sim_spend | intros _].
  apply sim_bind; [apply sim_get; by intros ? ? [] | intros token].
  apply sim_bind; [by apply sim_withdrawal | intros _].
  apply sim_bind; [by apply sim_insert | intros idx].
  apply sim_bind; [| intros _]; apply sim_modify; intros s a []; split; cbn; congruence || done.
Qed.

Lemma sim_transact call p ext sender :
  tx_typed p ext -> sim (transact call p ext sender) (spec_transact call p ext sender).
Proof using laws.
  intros Htyped. unfold transact, spec_transact.
  apply sim_bind; [apply sim_auth | intros _].
  apply sim_bind; [apply sim_get; by intros ? ? [] | intros token].
  apply sim_bind; [| intros _; by apply sim_internal_transact].
  destruct (Z.ltb_spec 0 (ext_amount ext)); [| apply sim_ret].
  apply sim_bind; [apply sim_get; by intros ? ? [] | intros max].
  rewrite i256_be_u256_nonneg by (apply Htyped || lia).
  apply sim_bind; [apply sim_fail_if, Z.ltb_antisym | intros _].
  apply sim_bind; [apply sim_nonneg; lia | intros amount; apply sim_transfer].
Qed.

(** The administration calls. *)
Lemma sim_update_admin call new :
  sim (pool_update_admin call new)
      (spec_as_admin call (fun a => ps_set_config new (ps_asp_membership a) (ps_asp_non_membership a) a)).
Proof.
  intros s a Hrel. pose proof (rel_admin _ _ Hrel) as Ha.
  unfold pool_update_admin, utils_update_admin, spec_as_admin, require_auth, mbind, SM_bind, M_bind, gets, sgets.
  rewrite Ha. cbn. rewrite Ha. cbn. destruct (authorised call (ps_admin a)); cbn.
  - eexists. split; [reflexivity |]. destruct Hrel. by split.
  - unfold trap. eauto.
Qed.

Lemma sim_update_asp_membership call new :
  sim (update_asp_membership call new)
      (spec_as_admin call (fun a => ps_set_config (ps_admin a) new (ps_asp_non_membership a) a)).
Proof.
  apply sim_bind; [apply sim_get; by intros ? ? [] | intros admin].
  apply sim_bind; [apply sim_auth | intros _]. apply sim_modify. intros s a []. by split.
Qed.

Lemma sim_update_asp_non_membership call new :
  sim (update_asp_non_membership call new)
      (spec_as_admin call (fun a => ps_set_config (ps_admin a) (ps_asp_membership a) new a)).
Proof.
  apply sim_bind; [apply sim_get; by intros ? ? [] | intros admin].
  apply sim_bind; [apply sim_auth | intros _]. apply sim_modify. intros s a []. by split.
Qed.

Lemma pool_get_root_run s a :
  pool_rel s a -> pool_get_root s = (Ret (root_of (ps_depth a) (ps_leaves a)), s).
Proof.
  intros Hrel. unfold pool_get_root, on_tree.
  erewrite zoom_run by (apply get_last_root_run, (rel_tree _ _ Hrel)). by destruct s.
Qed.

Lemma sim_get_root :
  sim pool_get_root (sgets (fun a => root_of (ps_depth a) (ps_leaves a))).
Proof. intros s a Hrel. cbn. exists s. split; [by apply pool_get_root_run | done]. Qed.

Lemma is_spent_run s a n : pool_rel s a -> is_spent n s = (Ret (bool_decide (n ∈ ps_spent a)), s).
Proof.
  intros Hrel. destruct (rel_spent _ _ Hrel) as (m & Hm & Hspent). unfold is_spent, get_nullifiers.
  msteps. rewrite Hm. msteps. by rewrite Hspent.
Qed.

(** Construction. *)
Definition new_pool_spec (admin token verifier asp_m asp_n : Address) (max : Z) (depth : nat) (l : Ledger) : PoolSpec Ledger :=
  {| ps_depth := depth; ps_leaves := []; ps_spent := ∅; ps_admin := admin; ps_token := token; ps_verifier := verifier;
     ps_maximum_deposit := max; ps_asp_membership := asp_m; ps_asp_non_membership := asp_n; ps_events := []; ps_ledger := l |}.

Lemma pool_constructor_run admin token verifier asp_m asp_n max depth l :
  (1 <= depth <= 32)%nat ->
  exists s,
    pool_constructor admin token verifier asp_m asp_n max (Z.of_nat depth) (empty_pool l) = (Ret tt, s) /\
    pool_rel s (new_pool_spec admin token verifier asp_m asp_n max depth l).
Proof using laws.
  intros Hd. destruct (init_run depth Hd) as (t & Hinit & Hok). unfold pool_constructor. msteps.
  eexists. split; [apply zoom_run; exact Hinit |]. split; try done.
  exists ∅. split; [done |]. intros n. rewrite lookup_empty. cbn. symmetry. apply bool_decide_eq_false. set_solver.
Qed.

End refinement.
