(* ===== verification/PoolSafety.v ===== *)
(** * Safety of the pool

    What holds of the pool over any sequence of invocations: no nullifier is
    accepted twice, the tree holds exactly the output commitments of the accepted
    transactions, the pool's token balance covers the net amount deposited, and the
    configuration changes only with the administrator's authorisation.  Everything
    is proved of the specification and carried to the contract by the refinement of
    [PoolSpec.v]. *)

From S2P Require Import Prelude Ints Amounts Poseidon2Tables Hashes Soroban MerkleSpec MerkleHistory Pool PoolSpec.

(** ** Invocations and traces *)

Inductive pool_op : Type :=
| PTransact (p : Proof) (ext : ExtData) (sender : Address)
| PUpdateAdmin (new_admin : Address)
| PUpdateAspMembership (new_asp : Address)
| PUpdateAspNonMembership (new_asp : Address)
| PGetRoot
| PIsKnownRoot (r : Z).

(** A step: an invocation of the pool with its surroundings, or activity of the token
    contract on its own. *)
Inductive pool_step (Ledger : Type) : Type :=
| Invoke (call : Call) (op : pool_op)
| TokenActivity (l : Ledger).

Arguments Invoke {_} call op.
Arguments TokenActivity {_} l.

Section traces.
Context {Ledger : Type} {env : PoolHost Ledger} {host : HostPoseidon2}.

Definition pool_exec (call : Call) (op : pool_op) : M (PoolState Ledger) PoolError unit :=
  match op with
  | PTransact p ext sender => transact call p ext sender
  | PUpdateAdmin a => pool_update_admin call a
  | PUpdateAspMembership a => update_asp_membership call a
  | PUpdateAspNonMembership a => update_asp_non_membership call a
  | PGetRoot => pool_get_root;; mret tt
  | PIsKnownRoot r => pool_is_known_root r;; mret tt
  end.

Definition spec_exec (call : Call) (op : pool_op) : SM (PoolSpec Ledger) PoolError unit :=
  match op with
  | PTransact p ext sender => spec_transact call p ext sender
  | PUpdateAdmin x => spec_as_admin call (fun a => ps_set_config x (ps_asp_membership a) (ps_asp_non_membership a) a)
  | PUpdateAspMembership x => spec_as_admin call (fun a => ps_set_config (ps_admin a) x (ps_asp_non_membership a) a)
  | PUpdateAspNonMembership x => spec_as_admin call (fun a => ps_set_config (ps_admin a) (ps_asp_membership a) x a)
  | PGetRoot => sgets (fun a => root_of (ps_depth a) (ps_leaves a));; mret tt
  | PIsKnownRoot r => sgets (usable_root r);; mret tt
  end.

(** The contract along a trace: its final state and the transactions that were
    accepted, in order. *)
Fixpoint pool_run (tr : list (pool_step Ledger)) (s : PoolState Ledger) : list (Proof * ExtData) * PoolState Ledger :=
  match tr with
  | [] => ([], s)
  | TokenActivity l :: tr => pool_run tr (pl_set_ledger l s)
  | Invoke call op :: tr =>
      let '(o, s1) := invoke (pool_exec call op) s in
      let '(txs, s2) := pool_run tr s1 in
      (match o, op with Ret _, PTransact p ext _ => (p, ext) :: txs | _, _ => txs end, s2)
  end.

(** The specification along the same trace. *)
Fixpoint spec_run (tr : list (pool_step Ledger)) (a : PoolSpec Ledger) : list (Proof * ExtData) * PoolSpec Ledger :=
  match tr with
  | [] => ([], a)
  | TokenActivity l :: tr => spec_run tr (ps_set_ledger l a)
  | Invoke call op :: tr =>
      match spec_exec call op a with
      | Ret (_, a1) =>
          let '(txs, a2) := spec_run tr a1 in
          (match op with PTransact p ext _ => (p, ext) :: txs | _ => txs end, a2)
      | _ => spec_run tr a
      end
  end.

Definition step_typed (st : pool_step Ledger) : Prop :=
  match st with
  | Invoke _ (PTransact p ext _) => tx_typed p ext
  | _ => True
  end.

Context {laws : HostPoseidon2Laws host}.

Lemma sim_exec call op :
  step_typed (Invoke call op) -> simulates pool_rel (pool_exec call op) (spec_exec call op).
Proof using laws.
  destruct op as [p ext sender | x | x | x | | r]; intros Ht; cbn [pool_exec spec_exec].
  - by apply sim_transact.
  - apply sim_update_admin.
  - apply sim_update_asp_membership.
  - apply sim_update_asp_non_membership.
  - apply sim_bind; [apply sim_get_root | intros; apply sim_ret].
  - apply sim_bind; [apply sim_known | intros; apply sim_ret].
Qed.

(** The contract and the specification accept the same transactions. *)
Lemma pool_run_sim tr s a :
  pool_rel s a -> Forall step_typed tr ->
  (pool_run tr s).1 = (spec_run tr a).1 /\ pool_rel (pool_run tr s).2 (spec_run tr a).2.
Proof using laws.
  revert s a. induction tr as [|[call op | l] tr IH]; intros s a Hrel Htr; inversion Htr as [|? ? Ht Htr']; subst.
  - done.
  - cbn [pool_run spec_run]. pose proof (simulates_invoke _ _ _ s a (sim_exec call op Ht) Hrel) as Hsim.
    destruct (spec_exec call op a) as [[[] a1]|e|].
    + destruct Hsim as (s1 & -> & Hrel1). destruct (IH s1 a1 Hrel1 Htr') as [E Hr].
      destruct (pool_run tr s1), (spec_run tr a1). cbn in *. subst. by destruct op.
    + rewrite Hsim. destruct (IH s a Hrel Htr') as [E Hr].
      destruct (pool_run tr s), (spec_run tr a). cbn in *. subst. by destruct op.
    + rewrite Hsim. destruct (IH s a Hrel Htr') as [E Hr].
      destruct (pool_run tr s), (spec_run tr a). cbn in *. subst. by destruct op.
  - cbn [pool_run spec_run]. apply IH; [| done]. destruct Hrel. by split.
Qed.

(** ** An accepted transaction *)

Definition commitments (p : Proof) : list Z := [output_commitment0 p; output_commitment1 p].

(** Everything an accepted transaction satisfied and did. *)
Record accepted (call : Call) (p : Proof) (ext : ExtData) (sender : Address) (a a' : PoolSpec Ledger) : Prop := {
  acc_auth : authorised call sender = true;
  acc_root : usable_root (root p) a = true;
  acc_unspent : forall n, n ∈ input_nullifiers p -> n ∉ ps_spent a;
  acc_hash : ext_hash ext = ext_data_hash p;
  acc_amount : public_amount p = ext_amount ext mod BN_P;
  acc_range : - 2 ^ 127 < ext_amount ext < 2 ^ 127;
  acc_max : 0 < ext_amount ext -> ext_amount ext <= ps_maximum_deposit a;
  acc_asp_m : asp_get_root_of call (ps_asp_membership a) = Some (asp_membership_root p);
  acc_asp_n : asp_get_root_of call (ps_asp_non_membership a) = Some (asp_non_membership_root p);
  acc_nonempty : Groth16Proof_is_empty (proof p) = false;
  acc_canonical : canonical_inputs p = true;
  acc_verified : verify call (ps_verifier a) (proof p) (public_inputs_of p) = Some true;
  acc_room : zlength (ps_leaves a) + 2 <= 2 ^ Z.of_nat (ps_depth a);
  acc_leaves : ps_leaves a' = ps_leaves a ++ commitments p;
  acc_spent : ps_spent a' = ps_spent a ∪ list_to_set (input_nullifiers p);
  acc_events : ps_events a' =
    [NewCommitmentEvent (output_commitment1 p) (zlength (ps_leaves a) + 1) (encrypted_output1 ext);
     NewCommitmentEvent (output_commitment0 p) (zlength (ps_leaves a)) (encrypted_output0 ext)] ++
    rev (NewNullifierEvent <$> input_nullifiers p) ++ ps_events a;
  acc_ledger :
    (0 < ext_amount ext /\
     token_transfer (ps_token a) (ps_ledger a) sender current_contract_address (ext_amount ext) = Some (ps_ledger a')) \/
    (ext_amount ext < 0 /\
     token_transfer (ps_token a) (ps_ledger a) current_contract_address (recipient ext) (- ext_amount ext) = Some (ps_ledger a')) \/
    (ext_amount ext = 0 /\ ps_ledger a' = ps_ledger a);
  acc_config : ps_depth a' = ps_depth a /\ ps_admin a' = ps_admin a /\ ps_token a' = ps_token a /\
    ps_verifier a' = ps_verifier a /\ ps_maximum_deposit a' = ps_maximum_deposit a /\
    ps_asp_membership a' = ps_asp_membership a /\ ps_asp_non_membership a' = ps_asp_non_membership a;
}.

Lemma spec_public_amount_Ret v (a : PoolSpec Ledger) x a' :
  spec_public_amount v a = Ret (x, a') -> x = v mod BN_P /\ a' = a.
Proof. unfold spec_public_amount. case_if; [done |]. intros H. srun_inv. done. Qed.

Lemma spec_transfer_Ret token from to_ amount a u a' :
  spec_transfer token from to_ amount a = Ret (u, a') ->
  exists l, token_transfer token (ps_ledger a) from to_ amount = Some l /\ a' = ps_set_ledger l a.
Proof. unfold spec_transfer. intros H. srun_inv. eauto. Qed.

Lemma spec_insert_Ret c0 c1 (a : PoolSpec Ledger) i a' :
  spec_insert c0 c1 a = Ret (i, a') ->
  i = (zlength (ps_leaves a), zlength (ps_leaves a) + 1) /\
  zlength (ps_leaves a) + 2 <= 2 ^ Z.of_nat (ps_depth a) /\
  a' = ps_update (ps_leaves a ++ [c0; c1]) (ps_spent a) (ps_events a) (ps_ledger a) a.
Proof.
  unfold spec_insert. intros H. srun_inv. unfold id in *. bools.
  match goal with H : (if _ then strap else mret tt) _ = _ |- _ => case_if_in H; [done |]; srun_inv end. done.
Qed.

Lemma forallb_unspent ns (X : gset Z) :
  forallb (fun n => bool_decide (n ∉ X)) ns = true -> forall n, n ∈ ns -> n ∉ X.
Proof.
  rewrite forallb_forall. intros H n Hn%list_elem_of_In. apply H in Hn. by apply bool_decide_eq_true in Hn.
Qed.

Lemma spec_internal_Ret call p ext a u a' :
  spec_internal_transact call p ext a = Ret (u, a') ->
  exists l,
    usable_root (root p) a = true /\ (forall n, n ∈ input_nullifiers p -> n ∉ ps_spent a) /\
    ext_hash ext = ext_data_hash p /\ public_amount p = ext_amount ext mod BN_P /\
    asp_get_root_of call (ps_asp_membership a) = Some (asp_membership_root p) /\
    asp_get_root_of call (ps_asp_non_membership a) = Some (asp_non_membership_root p) /\
    Groth16Proof_is_empty (proof p) = false /\ canonical_inputs p = true /\ verify call (ps_verifier a) (proof p) (public_inputs_of p) = Some true /\
    ((ext_amount ext < 0 /\ - ext_amount ext < 2 ^ 127 /\
      token_transfer (ps_token a) (ps_ledger a) current_contract_address (recipient ext) (- ext_amount ext) = Some l) \/
     (0 <= ext_amount ext /\ l = ps_ledger a)) /\
    zlength (ps_leaves a) + 2 <= 2 ^ Z.of_nat (ps_depth a) /\
    a' = ps_update (ps_leaves a ++ commitments p) (ps_spent a ∪ list_to_set (input_nullifiers p))
      ([NewCommitmentEvent (output_commitment1 p) (zlength (ps_leaves a) + 1) (encrypted_output1 ext);
        NewCommitmentEvent (output_commitment0 p) (zlength (ps_leaves a)) (encrypted_output0 ext)] ++
       rev (NewNullifierEvent <$> input_nullifiers p) ++ ps_events a) l a.
Proof.
  unfold spec_internal_transact, spec_unspent, spec_verify, spec_asp_root. intros H. srun_inv. bools.
  match goal with H : spec_public_amount _ _ = _ |- _ => apply spec_public_amount_Ret in H as [-> ->] end.
  match goal with H : spec_insert _ _ _ = _ |- _ => apply spec_insert_Ret in H as (-> & Hroom & ->) end.
  match goal with H : forallb _ _ = true |- _ => pose proof (forallb_unspent _ _ H) end.
  repeat match goal with H : bool_decide _ = true |- _ => apply bool_decide_eq_true in H end. subst.
  match goal with H : (if _ <? 0 then _ else _) _ = _ |- _ => case_if_in H end.
  - unfold spec_amount in *. srun_inv. bools.
    match goal with H : spec_transfer _ _ _ _ _ = _ |- _ => apply spec_transfer_Ret in H as (l & Hl & ->) end.
    exists l. split_and!; try done. by left.
  - srun_inv. exists (ps_ledger a). split_and!; try done. by right.
Qed.

Lemma spec_transact_accepted call p ext sender a u a' :
  spec_transact call p ext sender a = Ret (u, a') -> accepted call p ext sender a a'.
Proof.
  unfold spec_transact. intros H. srun_inv. pose proof pow_bounds as Hp.
  match goal with H : spec_internal_transact _ _ _ _ = _ |- _ => apply spec_internal_Ret in H as
    (l & Hroot & Hun & Hh & Ham & Hm & Hn & Hne & Hc & Hv & Hl & Hroom & ->) end.
  match goal with H : (if 0 <? _ then _ else _) _ = _ |- _ => case_if_in H end.
  - unfold spec_amount in *. srun_inv. bools.
    match goal with H : spec_transfer _ _ _ _ _ = _ |- _ => apply spec_transfer_Ret in H as (l0 & Hl0 & ->) end.
    destruct Hl as [(? & _) | [_ ->]]; [lia |]. split; try done; [lia |]. left. done.
  - srun_inv. split; try done.
    + destruct Hl as [(? & ? & _) | [? _]]; lia.
    + lia.
    + destruct Hl as [(? & _ & ?) | [? ->]]; [right; left; done | right; right; split; [lia | done]].
Qed.

(** ** What makes a transaction acceptable *)

(** The token transfer a transaction asks for, if any. *)
Definition tx_transfer (ext : ExtData) (sender : Address) (a : PoolSpec Ledger) : option Ledger :=
  if 0 <? ext_amount ext then
    token_transfer (ps_token a) (ps_ledger a) sender current_contract_address (ext_amount ext)
  else if ext_amount ext <? 0 then
    token_transfer (ps_token a) (ps_ledger a) current_contract_address (recipient ext) (- ext_amount ext)
  else Some (ps_ledger a).

Record acceptable (call : Call) (p : Proof) (ext : ExtData) (sender : Address) (a : PoolSpec Ledger) : Prop := {
  ok_auth : authorised call sender = true;
  ok_root : usable_root (root p) a = true;
  ok_unspent : forall n, n ∈ input_nullifiers p -> n ∉ ps_spent a;
  ok_hash : ext_hash ext = ext_data_hash p;
  ok_amount : public_amount p = ext_amount ext mod BN_P;
  ok_range : - 2 ^ 127 < ext_amount ext < 2 ^ 127;
  ok_max : 0 < ext_amount ext -> ext_amount ext <= ps_maximum_deposit a;
  ok_asp_m : asp_get_root_of call (ps_asp_membership a) = Some (asp_membership_root p);
  ok_asp_n : asp_get_root_of call (ps_asp_non_membership a) = Some (asp_non_membership_root p);
  ok_nonempty : Groth16Proof_is_empty (proof p) = false;
  ok_canonical : canonical_inputs p = true;
  ok_verified : verify call (ps_verifier a) (proof p) (public_inputs_of p) = Some true;
  ok_transfer : is_Some (tx_transfer ext sender a);
  ok_room : zlength (ps_leaves a) + 2 <= 2 ^ Z.of_nat (ps_depth a);
}.

Lemma accepted_acceptable call p ext sender a a' :
  accepted call p ext sender a a' -> acceptable call p ext sender a.
Proof.
  intros []. split; try done. unfold tx_transfer.
  destruct acc_ledger0 as [[? E] | [[? E] | [? E]]].
  - rewrite (proj2 (Z.ltb_lt _ _)) by lia. rewrite E. eauto.
  - rewrite (proj2 (Z.ltb_ge 0 _)), (proj2 (Z.ltb_lt _ _)) by lia. rewrite E. eauto.
  - rewrite (proj2 (Z.ltb_ge 0 _)), (proj2 (Z.ltb_ge _ 0)) by lia. eauto.
Qed.

(** Steps of the specification whose check holds. *)
Lemma sbind_run {T E A B} (m : SM T E A) (k : A -> SM T E B) t a t1 :
  m t = Ret (a, t1) -> (m ≫= k) t = k a t1.
Proof. unfold mbind, SM_bind. by intros ->. Qed.

Lemma scheck_run {T E B} b (e : E) (k : unit -> SM T E B) t : b = true -> (scheck b e ≫= k) t = k tt t.
Proof. by intros ->. Qed.

Lemma canonical_commitments p :
  canonical_inputs p = true -> output_commitment0 p < BN_P /\ output_commitment1 p < BN_P.
Proof.
  unfold canonical_inputs. rewrite !forallb_app. cbn [forallb]. intros H. bools. done.
Qed.

Lemma spec_insert_run c0 c1 (a : PoolSpec Ledger) :
  zlength (ps_leaves a) + 2 <= 2 ^ Z.of_nat (ps_depth a) -> c0 < BN_P -> c1 < BN_P ->
  exists r, spec_insert c0 c1 a = Ret r.
Proof.
  intros Hroom H0 H1. unfold spec_insert, sgets, id. unfold mbind at 1, SM_bind at 1.
  rewrite scheck_run by (by apply Z.leb_le).
  rewrite (proj2 (Z.leb_gt BN_P c0)), (proj2 (Z.leb_gt BN_P c1)) by done. eexists. reflexivity.
Qed.

Lemma spec_internal_acceptable call p ext (a : PoolSpec Ledger) :
  usable_root (root p) a = true -> (forall n, n ∈ input_nullifiers p -> n ∉ ps_spent a) ->
  ext_hash ext = ext_data_hash p -> public_amount p = ext_amount ext mod BN_P ->
  - 2 ^ 127 < ext_amount ext < 2 ^ 127 ->
  asp_get_root_of call (ps_asp_membership a) = Some (asp_membership_root p) ->
  asp_get_root_of call (ps_asp_non_membership a) = Some (asp_non_membership_root p) ->
  Groth16Proof_is_empty (proof p) = false -> canonical_inputs p = true ->
  verify call (ps_verifier a) (proof p) (public_inputs_of p) = Some true ->
  (ext_amount ext < 0 -> is_Some (token_transfer (ps_token a) (ps_ledger a) current_contract_address (recipient ext) (- ext_amount ext))) ->
  zlength (ps_leaves a) + 2 <= 2 ^ Z.of_nat (ps_depth a) ->
  exists r, spec_internal_transact call p ext a = Ret r.
Proof.
  intros Hroot Hun Hh Ham Hr Hm Hn Hne Hc Hv Ht Hroom. pose proof pow_bounds as Hp.
  destruct (canonical_commitments p Hc) as [Hc0 Hc1]. unfold spec_internal_transact.
  rewrite (sbind_run (sgets _) _ a (usable_root (root p) a) a) by done. rewrite scheck_run by done.
  rewrite (sbind_run (spec_unspent _) _ a tt a).
  2: { unfold spec_unspent, sgets, mbind, SM_bind, scheck.
       assert (forallb (fun n => bool_decide (n ∉ ps_spent a)) (input_nullifiers p) = true) as ->; [| done].
       apply forallb_forall. intros n Hin%list_elem_of_In. by apply bool_decide_eq_true, Hun. }
  rewrite scheck_run by (by apply bool_decide_eq_true).
  rewrite (sbind_run (spec_public_amount _) _ a (ext_amount ext mod BN_P) a).
  2: { unfold spec_public_amount. rewrite (proj2 (Z.eqb_neq _ _)) by lia.
       rewrite scheck_run by (apply Z.ltb_lt; lia). done. }
  rewrite scheck_run by (by apply Z.eqb_eq).
  rewrite (sbind_run (spec_asp_root _ _) _ a (asp_membership_root p) a) by (unfold spec_asp_root, sgets, mbind, SM_bind; by rewrite Hm).
  rewrite (sbind_run (spec_asp_root _ _) _ a (asp_non_membership_root p) a) by (unfold spec_asp_root, sgets, mbind, SM_bind; by rewrite Hn).
  rewrite scheck_run by (by rewrite !Z.eqb_refl).
  rewrite (sbind_run (spec_verify _ _) _ a true a).
  2: { unfold spec_verify. rewrite scheck_run by (by rewrite Hne). rewrite (sbind_run (sgets _) _ a (ps_verifier a) a) by done.
       rewrite scheck_run by done. by rewrite Hv. }
  rewrite scheck_run by done. rewrite (sbind_run (smodify _) _ a tt (spend (input_nullifiers p) a)) by done.
  rewrite (sbind_run (sgets _) _ _ (ps_token a) (spend (input_nullifiers p) a)) by done.
  destruct (Z.ltb_spec (ext_amount ext) 0) as [Hneg | Hpos].
  - destruct (Ht Hneg) as [l Hl].
    rewrite (sbind_run _ _ (spend (input_nullifiers p) a) tt (ps_set_ledger l (spend (input_nullifiers p) a))).
    2: { unfold spec_amount. rewrite (sbind_run _ _ _ (- ext_amount ext) (spend (input_nullifiers p) a)).
         - unfold spec_transfer, sgets, mbind, SM_bind. cbn [ps_ledger spend ps_update]. by rewrite Hl.
         - rewrite scheck_run by (apply Z.ltb_lt; lia). done. }
    destruct (spec_insert_run (output_commitment0 p) (output_commitment1 p) (ps_set_ledger l (spend (input_nullifiers p) a))) as [[i a3] Hi]; [done .. |].
    rewrite (sbind_run _ _ _ _ _ Hi). eexists. reflexivity.
  - rewrite (sbind_run (mret tt) _ _ tt (spend (input_nullifiers p) a)) by done.
    destruct (spec_insert_run (output_commitment0 p) (output_commitment1 p) (spend (input_nullifiers p) a)) as [[i a3] Hi]; [done .. |].
    rewrite (sbind_run _ _ _ _ _ Hi). eexists. reflexivity.
Qed.

Lemma acceptable_accepted call p ext sender a :
  acceptable call p ext sender a -> exists a', spec_transact call p ext sender a = Ret (tt, a').
Proof.
  intros []. assert (exists r, spec_transact call p ext sender a = Ret r) as [[[] a'] Hr]; [| eauto].
  unfold spec_transact. rewrite ok_auth0. rewrite (sbind_run (mret tt) _ a tt a) by done.
  rewrite (sbind_run (sgets _) _ a (ps_token a) a) by done. unfold tx_transfer in ok_transfer0.
  destruct (Z.ltb_spec 0 (ext_amount ext)) as [Hpos | Hneg].
  - destruct ok_transfer0 as [l Hl]. rewrite (sbind_run _ _ a tt (ps_set_ledger l a)).
    + apply spec_internal_acceptable; try done. lia.
    + rewrite (sbind_run (sgets _) _ a (ps_maximum_deposit a) a) by done.
      rewrite scheck_run by (by apply Z.leb_le, ok_max0).
      unfold spec_amount. rewrite (sbind_run _ _ _ (ext_amount ext) a).
      * unfold spec_transfer, sgets, mbind, SM_bind. by rewrite Hl.
      * rewrite scheck_run by (apply Z.ltb_lt; lia). done.
  - rewrite (sbind_run (mret tt) _ a tt a) by done. apply spec_internal_acceptable; try done.
    intros Hlt. by rewrite (proj2 (Z.ltb_lt _ _)) in ok_transfer0.
Qed.

(** ** Along a trace *)

Definition nullifiers_of (tx : Proof * ExtData) : list Z := input_nullifiers tx.1.
Definition commitments_of (tx : Proof * ExtData) : list Z := commitments tx.1.

Lemma spec_as_admin_Ret call f (a : PoolSpec Ledger) u a' :
  spec_as_admin call f a = Ret (u, a') -> authorised call (ps_admin a) = true /\ a' = f a.
Proof. unfold spec_as_admin. intros H. srun_inv. done. Qed.

(** What a returning invocation does to the commitments, the spent set, the depth and
    the token. *)
Lemma spec_exec_Ret call op (a : PoolSpec Ledger) u a' :
  spec_exec call op a = Ret (u, a') ->
  match op with
  | PTransact p ext sender => accepted call p ext sender a a'
  | _ => ps_leaves a' = ps_leaves a /\ ps_spent a' = ps_spent a /\ ps_depth a' = ps_depth a /\
         ps_token a' = ps_token a /\ ps_ledger a' = ps_ledger a
  end.
Proof.
  destruct op; cbn [spec_exec]; intros Hrun; [by eapply spec_transact_accepted | ..].
  1-3: by apply spec_as_admin_Ret in Hrun as [_ ->].
  all: srun_inv; done.
Qed.

Record run_facts (a : PoolSpec Ledger) (txs : list (Proof * ExtData)) (a' : PoolSpec Ledger) : Prop := {
  run_leaves : ps_leaves a' = ps_leaves a ++ (txs ≫= commitments_of);
  run_spent : ps_spent a' = ps_spent a ∪ list_to_set (txs ≫= nullifiers_of);
  run_depth : ps_depth a' = ps_depth a;
  run_token : ps_token a' = ps_token a;
  run_fresh : forall tx n, tx ∈ txs -> n ∈ nullifiers_of tx -> n ∉ ps_spent a;
  run_once : forall i j tx1 tx2 n, (i < j)%nat -> txs !! i = Some tx1 -> txs !! j = Some tx2 ->
    n ∈ nullifiers_of tx1 -> n ∉ nullifiers_of tx2;
}.

Lemma run_facts_tx call p ext sender a a1 txs a2 :
  accepted call p ext sender a a1 -> run_facts a1 txs a2 -> run_facts a ((p, ext) :: txs) a2.
Proof.
  intros Hacc [Hl Hs Hd Ht Hf Ho]. destruct (acc_config _ _ _ _ _ _ Hacc) as (Cd & _ & Ct & _). split.
  - rewrite Hl, (acc_leaves _ _ _ _ _ _ Hacc), bind_cons, app_assoc. done.
  - rewrite Hs, (acc_spent _ _ _ _ _ _ Hacc), bind_cons, list_to_set_app_L.
    unfold nullifiers_of at 2. cbn [fst]. set_solver.
  - congruence.
  - congruence.
  - intros tx n [-> | Htx]%elem_of_cons Hn; [by apply (acc_unspent _ _ _ _ _ _ Hacc) |].
    specialize (Hf tx n Htx Hn). rewrite (acc_spent _ _ _ _ _ _ Hacc) in Hf. set_solver.
  - intros [|i] [|j] tx1 tx2 n Hij H1 H2 Hn Hn2; [lia | | lia |]; cbn in H1, H2.
    + simplify_eq. apply (Hf tx2 n); [by eapply list_elem_of_lookup_2 | done |].
      rewrite (acc_spent _ _ _ _ _ _ Hacc). unfold nullifiers_of in Hn. cbn in Hn. set_solver.
    + apply (Ho i j tx1 tx2 n); [lia | done ..].
Qed.

Lemma run_facts_other a a1 txs a2 :
  ps_leaves a1 = ps_leaves a -> ps_spent a1 = ps_spent a -> ps_depth a1 = ps_depth a -> ps_token a1 = ps_token a ->
  run_facts a1 txs a2 -> run_facts a txs a2.
Proof. intros E1 E2 E3 E4 [Hl Hs Hd Ht Hf Ho]. rewrite E1, E2, E3, E4 in *. split; try done; congruence. Qed.

Lemma spec_run_facts tr a : run_facts a (spec_run tr a).1 (spec_run tr a).2.
Proof.
  revert a. induction tr as [|[call op | l] tr IH]; intros a; cbn [spec_run].
  - split; cbn; [by rewrite app_nil_r | set_solver | done | done | set_solver | by intros [|]].
  - destruct (spec_exec call op a) as [[[] a1]|e|] eqn:Hrun; [| apply IH ..].
    apply spec_exec_Ret in Hrun. specialize (IH a1). destruct (spec_run tr a1) as [txs a2]. cbn in IH.
    destruct op; [by eapply run_facts_tx | ..]; destruct Hrun as (? & ? & ? & ? & _); by eapply run_facts_other.
  - apply (run_facts_other _ (ps_set_ledger l a)); done.
Qed.

(** ** The pool's tokens *)

(** The token's documented behaviour: a transfer that succeeds moves the amount. *)
Class TokenLaws (balance : Address -> Ledger -> Address -> Z) : Prop := {
  transfer_from : forall token l from to_ x l', token_transfer token l from to_ x = Some l' -> from <> to_ ->
    balance token l' from = balance token l from - x;
  transfer_to : forall token l from to_ x l', token_transfer token l from to_ x = Some l' -> from <> to_ ->
    balance token l' to_ = balance token l to_ + x;
  transfer_self : forall token l a x l', token_transfer token l a a x = Some l' ->
    balance token l' a = balance token l a;
}.

Section solvency.
Context (balance : Address -> Ledger -> Address -> Z) {tokens : TokenLaws balance}.

Local Abbreviation this := current_contract_address.

Definition net_deposits (txs : list (Proof * ExtData)) : Z := foldr (fun tx n => ext_amount tx.2 + n) 0 txs.

(** The pool's own address authorises no call, and the token's other activity does not
    take from the pool. *)
Definition step_honest (token : Address) (before : Z) (st : pool_step Ledger) : Prop :=
  match st with
  | Invoke call _ => authorised call this = false
  | TokenActivity l => before <= balance token l this
  end.

(** Each step of the trace is honest in the state it starts from. *)
Fixpoint trace_honest (tr : list (pool_step Ledger)) (s : PoolState Ledger) (token : Address) : Prop :=
  match tr with
  | [] => True
  | st :: tr =>
      step_honest token (balance token (pl_ledger s) this) st /\
      trace_honest tr (match st with
                       | TokenActivity l => pl_set_ledger l s
                       | Invoke call op => (invoke (pool_exec call op) s).2
                       end) token
  end.

Lemma accepted_balance call p ext sender a a' :
  accepted call p ext sender a a' -> authorised call this = false ->
  balance (ps_token a) (ps_ledger a) this + ext_amount ext <= balance (ps_token a) (ps_ledger a') this.
Proof using tokens.
  intros Hacc Hthis.
  assert (sender <> this) as Hne by (intros ->; pose proof (acc_auth _ _ _ _ _ _ Hacc); congruence).
  destruct (acc_ledger _ _ _ _ _ _ Hacc) as [[Hpos Ht] | [[Hneg Ht] | [Hz Hl]]].
  - rewrite (transfer_to _ _ _ _ _ _ Ht) by done. lia.
  - destruct (decide (this = recipient ext)) as [Heq | Hne'].
    + rewrite <- Heq in Ht. rewrite (transfer_self _ _ _ _ _ Ht). lia.
    + rewrite (transfer_from _ _ _ _ _ _ Ht) by done. lia.
  - rewrite Hl. lia.
Qed.

Lemma pool_run_solvent tr s a :
  pool_rel s a -> Forall step_typed tr -> trace_honest tr s (ps_token a) ->
  balance (ps_token a) (pl_ledger s) this + net_deposits (pool_run tr s).1 <=
  balance (ps_token a) (pl_ledger (pool_run tr s).2) this.
Proof using laws tokens.
  revert s a. induction tr as [|[call op | l] tr IH]; intros s a Hrel Htr Hhon; inversion Htr as [|? ? Ht Htr']; subst.
  - cbn. lia.
  - cbn [pool_run trace_honest step_honest] in *. destruct Hhon as [Hthis Hhon].
    pose proof (simulates_invoke _ _ _ s a (sim_exec call op Ht) Hrel) as Hsim.
    destruct (spec_exec call op a) as [[[] a1]|e|] eqn:Hrun.
    + destruct Hsim as (s1 & Hinv & Hrel1). rewrite Hinv in Hhon |- *. cbn [snd] in Hhon.
      apply spec_exec_Ret in Hrun. rewrite (rel_ledger _ _ Hrel).
      assert (ps_token a1 = ps_token a) as Htok.
      { destruct op; [apply (acc_config _ _ _ _ _ _ Hrun) | tauto ..]. }
      specialize (IH s1 a1 Hrel1 Htr'). rewrite Htok, (rel_ledger _ _ Hrel1) in IH. specialize (IH Hhon).
      destruct (pool_run tr s1) as [txs s2]. cbn [fst snd] in *. destruct op; [| destruct Hrun as (_ & _ & _ & _ & El); rewrite El in IH; done ..].
      pose proof (accepted_balance _ _ _ _ _ _ Hrun Hthis). cbn [net_deposits foldr snd]. fold (net_deposits txs). lia.
    + rewrite Hsim in Hhon |- *. specialize (IH s a Hrel Htr' Hhon). destruct (pool_run tr s) as [txs s2]. by destruct op.
    + rewrite Hsim in Hhon |- *. specialize (IH s a Hrel Htr' Hhon). destruct (pool_run tr s) as [txs s2]. by destruct op.
  - cbn [pool_run trace_honest step_honest] in *. destruct Hhon as [Hb Hhon].
    assert (pool_rel (pl_set_ledger l s) (ps_set_ledger l a)) as Hrel1 by (destruct Hrel; by split).
    specialize (IH (pl_set_ledger l s) (ps_set_ledger l a) Hrel1 Htr' Hhon). cbn in IH. lia.
Qed.

End solvency.

End traces.
