(* ===== verification/PoolTheorems.v ===== *)
(** * What the pool guarantees

    The properties of the pool contract, each a few lines from the refinement
    ([PoolSpec.v]) and the safety lemmas ([PoolSafety.v]), with a concrete pool on
    which their hypotheses hold. *)

From S2P Require Import Prelude Ints Amounts Poseidon2Tables Hashes Soroban MerkleSpec MerkleHistory Pool PoolSpec PoolSafety.

(** ** A concrete host

    A token ledger as a map of balances, a fixed digest and encoding. *)

Abbreviation RefLedger := (gmap (string * string) Z).

Definition ref_balance (token : Address) (l : RefLedger) (a : Address) : Z := default 0 (l !! (token, a)).

Definition ref_transfer (token : Address) (l : RefLedger) (from to_ : Address) (x : Z) : option RefLedger :=
  if (x <? 0) || (ref_balance token l from <? x) then None
  else
    let l1 := <[(token, from) := ref_balance token l from - x]> l in
    Some (<[(token, to_) := ref_balance token l1 to_ + x]> l1).

#[export] Instance ref_pool_host : PoolHost RefLedger := {|
  current_contract_address := "pool";
  keccak256 _ := replicate 32 255;
  to_xdr e := encrypted_output0 e ++ encrypted_output1 e;
  token_transfer := ref_transfer;
|}.

#[export] Instance ref_token_laws : TokenLaws ref_balance.
Proof.
  split; unfold token_transfer, ref_pool_host, ref_transfer.
  - intros token l from to_ x l' H Hne. case_if_in H; [done |]. simplify_eq. unfold ref_balance.
    rewrite lookup_insert_ne by congruence. by rewrite lookup_insert_eq.
  - intros token l from to_ x l' H Hne. case_if_in H; [done |]. simplify_eq. unfold ref_balance.
    rewrite lookup_insert_eq. cbn. by rewrite lookup_insert_ne by congruence.
  - intros token l a x l' H. case_if_in H; [done |]. simplify_eq. unfold ref_balance.
    rewrite !lookup_insert_eq. cbn. lia.
Qed.

Definition wit_spec : PoolSpec RefLedger :=
  new_pool_spec "admin" "token" "verifier" "aspm" "aspn" 1000 3 {[ ("token", "alice") := 50 ]}.

Definition wit_call : Call :=
  {| authorised a := bool_decide (a = "alice");
     asp_get_root_of a := if bool_decide (a = "aspm") then Some 31 else Some 32;
     verify _ _ _ := Some true |}.

Definition wit_ext : ExtData :=
  {| recipient := "bob"; ext_amount := 20; encrypted_output0 := [1]; encrypted_output1 := [2] |}.

Definition wit_proof : Proof :=
  {| proof := {| g16_a := [1]; g16_b := [2]; g16_c := [3] |};
     root := default 0 (get_zeroes !! 3%nat); input_nullifiers := [11; 12]; output_commitment0 := 21;
     output_commitment1 := 22; public_amount := 20; ext_data_hash := ext_hash wit_ext;
     asp_membership_root := 31; asp_non_membership_root := 32 |}.

Lemma wit_typed : tx_typed wit_proof wit_ext.
Proof. split; vm_compute; try split; congruence. Qed.

Section with_hash.
Context {host : HostPoseidon2} {laws : HostPoseidon2Laws host}.

Lemma wit_history : history 3 [] = [default 0 (get_zeroes !! 3%nat)].
Proof using laws.
  unfold history. cbn [length Nat.div fmap list_fmap seq fst]. cbn. f_equal. unfold root_of.
  by apply (tree_root_nil _ _ _ _ (get_zeroes_zero_chain 3 ltac:(lia)) get_zeroes_0).
Qed.

Lemma wit_usable : usable_root (root wit_proof) wit_spec = true.
Proof using laws.
  unfold usable_root. cbn [ps_depth ps_leaves wit_spec new_pool_spec]. rewrite wit_history.
  apply bool_decide_eq_true. split; [vm_compute; congruence |]. cbn [root wit_proof]. set_solver.
Qed.

Lemma wit_acceptable : acceptable wit_call wit_proof wit_ext "alice" wit_spec.
Proof using laws.
  split; try reflexivity.
  - apply wit_usable.
  - cbn. intros n _. set_solver.
  - vm_compute. split; congruence.
  - cbn. lia.
  - by eexists.
  - vm_compute. congruence.
Qed.

Lemma wit_pool : exists s, pool_rel s wit_spec.
Proof using laws.
  destruct (pool_constructor_run "admin" "token" "verifier" "aspm" "aspn" 1000 3 ({[ ("token", "alice") := 50 ]} : RefLedger))
    as (s & _ & Hrel); [lia |]. eauto.
Qed.

End with_hash.

(** ** The transaction handler *)

(** C1. The transaction handler refines the abstract pool: on every input it has the
    outcome of the specification, error or trap included and in the order of the
    specification's checks; when it returns, the storage represents the
    specification's next state, and otherwise it is left as it was. *)
Theorem pool_transact_refines {Ledger} (env : PoolHost Ledger) (host : HostPoseidon2) (laws : HostPoseidon2Laws host)
    (s : PoolState Ledger) (a : PoolSpec Ledger) (call : Call) (p : Proof) (ext : ExtData) (sender : Address) :
  pool_rel s a -> tx_typed p ext ->
  match spec_transact call p ext sender a with
  | Ret (_, a') => exists s', invoke (transact call p ext sender) s = (Ret tt, s') /\ pool_rel s' a'
  | Fail e => invoke (transact call p ext sender) s = (Fail e, s)
  | Trap => invoke (transact call p ext sender) s = (Trap, s)
  end.
Proof.
  intros Hrel Ht. pose proof (simulates_invoke _ _ _ s a (sim_transact call p ext sender Ht) Hrel) as H.
  by destruct (spec_transact call p ext sender a) as [[[] a']|e|].
Qed.

Lemma pool_transact_refines_witness :
  exists s, invoke (transact (host := ref_host_poseidon2) wit_call wit_proof wit_ext "mallory") s = (Trap, s).
Proof.
  destruct (wit_pool (host := ref_host_poseidon2)) as (s & Hrel). exists s.
  exact (pool_transact_refines ref_pool_host ref_host_poseidon2 ref_host_poseidon2_laws s wit_spec wit_call
           wit_proof wit_ext "mallory" Hrel wit_typed).
Defined.

(** A transaction is accepted exactly when it is acceptable: the sender authorised
    it, the root is one of the last 90 and nonzero, no nullifier is spent, the
    external data has the committed hash, the public amount is the residue of the
    external amount, the amount is an [i128] within the deposit limit, both
    association-set roots are current, every public input is canonical, the
    verifier accepts the public inputs, the token transfer succeeds and the tree has
    room. *)
Theorem pool_transact_iff_acceptable {Ledger} (env : PoolHost Ledger) (host : HostPoseidon2)
    (laws : HostPoseidon2Laws host)
    (s : PoolState Ledger) (a : PoolSpec Ledger) (call : Call) (p : Proof) (ext : ExtData) (sender : Address) :
  pool_rel s a -> tx_typed p ext ->
  (exists s', invoke (transact call p ext sender) s = (Ret tt, s')) <-> acceptable call p ext sender a.
Proof.
  intros Hrel Ht. pose proof (simulates_invoke _ _ _ s a (sim_transact call p ext sender Ht) Hrel) as H. split.
  - intros (s' & Hrun). rewrite Hrun in H. destruct (spec_transact call p ext sender a) as [[u a']|e|] eqn:E; [| done ..].
    by eapply accepted_acceptable, spec_transact_accepted.
  - intros Hok. destruct (acceptable_accepted _ _ _ _ _ Hok) as (a' & E). rewrite E in H.
    destruct H as (s' & ? & _). eauto.
Qed.

Lemma pool_transact_iff_acceptable_witness :
  exists s s', invoke (transact (host := ref_host_poseidon2) wit_call wit_proof wit_ext "alice") s = (Ret tt, s').
Proof.
  destruct (wit_pool (host := ref_host_poseidon2)) as (s & Hrel). exists s.
  apply (pool_transact_iff_acceptable ref_pool_host ref_host_poseidon2 ref_host_poseidon2_laws s wit_spec wit_call
           wit_proof wit_ext "alice" Hrel wit_typed). apply wit_acceptable.
Defined.

(** What an accepted transaction does: exactly its two commitments are appended
    to the tree, exactly its nullifiers become spent, the events are one per
    nullifier and the two commitments with their indices, the token moves
    by the external amount and the configuration is unchanged. *)
Theorem pool_transact_effect {Ledger} (env : PoolHost Ledger) (host : HostPoseidon2) (laws : HostPoseidon2Laws host)
    (s s' : PoolState Ledger) (a : PoolSpec Ledger) (call : Call) (p : Proof) (ext : ExtData) (sender : Address) :
  pool_rel s a -> tx_typed p ext -> invoke (transact call p ext sender) s = (Ret tt, s') ->
  exists a', pool_rel s' a' /\
    ps_leaves a' = ps_leaves a ++ [output_commitment0 p; output_commitment1 p] /\
    ps_spent a' = ps_spent a ∪ list_to_set (input_nullifiers p) /\
    ps_events a' =
      [NewCommitmentEvent (output_commitment1 p) (zlength (ps_leaves a) + 1) (encrypted_output1 ext);
       NewCommitmentEvent (output_commitment0 p) (zlength (ps_leaves a)) (encrypted_output0 ext)] ++
      rev (NewNullifierEvent <$> input_nullifiers p) ++ ps_events a /\
    tx_transfer ext sender a = Some (ps_ledger a') /\
    pl_admin s' = pl_admin s /\ pl_token s' = pl_token s /\ pl_verifier s' = pl_verifier s /\
    pl_asp_membership s' = pl_asp_membership s /\ pl_asp_non_membership s' = pl_asp_non_membership s.
Proof.
  intros Hrel Ht Hrun. pose proof (simulates_invoke _ _ _ s a (sim_transact call p ext sender Ht) Hrel) as H.
  rewrite Hrun in H. destruct (spec_transact call p ext sender a) as [[u a']|e|] eqn:E; [| done ..].
  destruct H as (s1 & [= <-] & Hrel'). apply spec_transact_accepted in E. exists a'.
  destruct (acc_config _ _ _ _ _ _ E) as (_ & Ca & Ct & Cv & _ & Cm & Cn). pose proof Hrel' as Hr.
  pose proof (acc_ledger _ _ _ _ _ _ E) as Hled. destruct E, Hrel, Hr. split_and!; try congruence; try done. unfold tx_transfer.
  destruct Hled as [[? El] | [[? El] | [? El]]].
  - by rewrite (proj2 (Z.ltb_lt _ _)) by lia.
  - by rewrite (proj2 (Z.ltb_ge 0 _)), (proj2 (Z.ltb_lt _ _)) by lia.
  - by rewrite (proj2 (Z.ltb_ge 0 _)), (proj2 (Z.ltb_ge _ 0)), El by lia.
Qed.

Lemma pool_transact_effect_witness :
  exists (s s' : PoolState RefLedger) a',
    invoke (transact (host := ref_host_poseidon2) wit_call wit_proof wit_ext "alice") s = (Ret tt, s') /\
    pool_rel (host := ref_host_poseidon2) s' a' /\ ps_leaves a' = [21; 22].
Proof.
  destruct (wit_pool (host := ref_host_poseidon2)) as (s & Hrel).
  destruct (acceptable_accepted _ _ _ _ _ (wit_acceptable (host := ref_host_poseidon2))) as (a1 & E).
  pose proof (simulates_invoke _ _ _ s wit_spec
    (sim_transact (host := ref_host_poseidon2) wit_call wit_proof wit_ext "alice" wit_typed) Hrel) as Hsim.
  rewrite E in Hsim. destruct Hsim as (s' & Hrun & _).
  destruct (pool_transact_effect ref_pool_host ref_host_poseidon2 ref_host_poseidon2_laws s s' wit_spec wit_call
           wit_proof wit_ext "alice" Hrel wit_typed Hrun) as (a' & Hrel' & Hl & _).
  exists s, s', a'. exact (conj Hrun (conj Hrel' Hl)).
Defined.

(** ** Traces *)

(** C2. No nullifier is accepted twice: from construction on, along any sequence of
    invocations by any callers (and any activity of the token contract), a
    nullifier of an accepted transaction is in no later accepted transaction. *)
Theorem pool_no_double_spend {Ledger} (env : PoolHost Ledger) (host : HostPoseidon2) (laws : HostPoseidon2Laws host)
    (admin token verifier asp_m asp_n : Address) (max : Z) (depth : nat) (l : Ledger) (tr : list (pool_step Ledger)) :
  (1 <= depth <= 32)%nat -> Forall step_typed tr ->
  exists s,
    pool_constructor admin token verifier asp_m asp_n max (Z.of_nat depth) (empty_pool l) = (Ret tt, s) /\
    forall i j tx1 tx2 n, (i < j)%nat ->
      (pool_run tr s).1 !! i = Some tx1 -> (pool_run tr s).1 !! j = Some tx2 ->
      n ∈ input_nullifiers tx1.1 -> n ∉ input_nullifiers tx2.1.
Proof.
  intros Hd Htr. destruct (pool_constructor_run admin token verifier asp_m asp_n max depth l Hd) as (s & Hrun & Hrel).
  exists s. split; [done |]. destruct (pool_run_sim tr s _ Hrel Htr) as [-> _].
  apply (run_once _ _ _ (spec_run_facts tr (new_pool_spec admin token verifier asp_m asp_n max depth l))).
Qed.

Lemma pool_no_double_spend_witness :
  exists s, pool_constructor "admin" "token" "verifier" "aspm" "aspn" 1000 (Z.of_nat 3)
              (empty_pool ({[ ("token", "alice") := 50 ]} : RefLedger)) = (Ret tt, s).
Proof.
  destruct (pool_no_double_spend ref_pool_host ref_host_poseidon2 ref_host_poseidon2_laws "admin" "token" "verifier"
              "aspm" "aspn" 1000 3 ({[ ("token", "alice") := 50 ]} : RefLedger)
              [Invoke wit_call (PTransact wit_proof wit_ext "alice"); Invoke wit_call (PTransact wit_proof wit_ext "alice")])
    as (s & H & _); [lia | repeat constructor; vm_compute; try split; congruence |].
  exact (ex_intro _ s H).
Defined.

(** The pool's root commits to exactly what was accepted: along any trace from
    construction the current root is the root of the hash tree over the output
    commitments of the accepted transactions, in order, and a nullifier is recorded
    as spent exactly when an accepted transaction spent it. *)
Theorem pool_state_is_history {Ledger} (env : PoolHost Ledger) (host : HostPoseidon2) (laws : HostPoseidon2Laws host)
    (admin token verifier asp_m asp_n : Address) (max : Z) (depth : nat) (l : Ledger) (tr : list (pool_step Ledger)) :
  (1 <= depth <= 32)%nat -> Forall step_typed tr ->
  exists s,
    pool_constructor admin token verifier asp_m asp_n max (Z.of_nat depth) (empty_pool l) = (Ret tt, s) /\
    let '(txs, s') := pool_run tr s in
    let leaves := txs ≫= fun tx => [output_commitment0 tx.1; output_commitment1 tx.1] in
    pool_get_root s' = (Ret (tree_root poseidon2_compress zero_leaf leaves depth), s') /\
    forall n, exists b, is_spent n s' = (Ret b, s') /\
      (b = true <-> exists tx, tx ∈ txs /\ n ∈ input_nullifiers tx.1).
Proof.
  intros Hd Htr. destruct (pool_constructor_run admin token verifier asp_m asp_n max depth l Hd) as (s & Hrun & Hrel).
  exists s. split; [done |]. destruct (pool_run_sim tr s _ Hrel Htr) as [Etx Hrel'].
  pose proof (spec_run_facts tr (new_pool_spec admin token verifier asp_m asp_n max depth l)) as [Hl Hs Hdep _ _ _].
  rewrite <- Etx in Hl, Hs. set (a' := (spec_run tr _).2) in *. destruct (pool_run tr s) as [txs s']. cbn [fst snd] in *. split.
  - rewrite (pool_get_root_run s' a' Hrel'), Hl, Hdep. done.
  - intros n. eexists. split; [by apply is_spent_run |]. rewrite bool_decide_eq_true, Hs. cbn.
    rewrite elem_of_union, elem_of_list_to_set, list_elem_of_bind. unfold nullifiers_of. set_solver.
Qed.

Lemma pool_state_is_history_witness :
  exists s, pool_constructor "admin" "token" "verifier" "aspm" "aspn" 1000 (Z.of_nat 3)
              (empty_pool ({[ ("token", "alice") := 50 ]} : RefLedger)) = (Ret tt, s).
Proof.
  destruct (pool_state_is_history ref_pool_host ref_host_poseidon2 ref_host_poseidon2_laws "admin" "token" "verifier"
              "aspm" "aspn" 1000 3 ({[ ("token", "alice") := 50 ]} : RefLedger)
              [Invoke wit_call (PTransact wit_proof wit_ext "alice")])
    as (s & H & _); [lia | repeat constructor; vm_compute; try split; congruence |].
  exact (ex_intro _ s H).
Defined.

(** C27. The pool stays solvent: if its address authorises no call and others' token
    activity does not take from it, then along any trace the pool's token balance
    grows by at least the sum of the external amounts of the accepted transactions
    (deposits positive, withdrawals negative). *)
Theorem pool_solvent {Ledger} (env : PoolHost Ledger) (host : HostPoseidon2) (laws : HostPoseidon2Laws host)
    (balance : Address -> Ledger -> Address -> Z) (tokens : TokenLaws balance)
    (s : PoolState Ledger) (a : PoolSpec Ledger) (tr : list (pool_step Ledger)) :
  pool_rel s a -> Forall step_typed tr -> trace_honest balance tr s (ps_token a) ->
  let '(txs, s') := pool_run tr s in
  balance (ps_token a) (pl_ledger s) current_contract_address + net_deposits txs <=
  balance (ps_token a) (pl_ledger s') current_contract_address.
Proof.
  intros Hrel Htr Hhon. pose proof (pool_run_solvent balance tr s a Hrel Htr Hhon) as H.
  by destruct (pool_run tr s).
Qed.

Lemma pool_solvent_witness :
  exists s : PoolState RefLedger,
    let '(txs, s') := pool_run (host := ref_host_poseidon2) [Invoke wit_call (PTransact wit_proof wit_ext "alice")] s in
    ref_balance "token" (pl_ledger s) "pool" + net_deposits txs <= ref_balance "token" (pl_ledger s') "pool".
Proof.
  destruct (wit_pool (host := ref_host_poseidon2)) as (s & Hrel). exists s.
  apply (pool_solvent ref_pool_host ref_host_poseidon2 ref_host_poseidon2_laws ref_balance ref_token_laws s wit_spec
           [Invoke wit_call (PTransact wit_proof wit_ext "alice")] Hrel).
  - constructor; [exact wit_typed | constructor].
  - split; [reflexivity | exact I].
Defined.

(** ** Amounts and public inputs *)

(** C38. The public amount the contract recomputes is the residue of the signed
    external amount for every amount below [2^248] in absolute value; [2^248] itself (which the
    comments of the source allow) and larger ones are refused, the smallest [I256] traps, and on the amounts the SDK has
    ([i128]) it is the field element the SDK puts in the witness. *)
Theorem public_amount_spec {Ledger} (env : PoolHost Ledger) (s : PoolState Ledger) (v : Z) :
  is_i256 v ->
  (calculate_public_amount v s).1 =
    (if v =? - 2 ^ 255 then Trap else if Z.abs v <? 2 ^ 248 then Ret (v mod BN_P) else Fail WrongExtAmount) /\
  (is_ext v -> (exists f, Field_try_from_ext v = Some (Ok f) /\ calculate_public_amount v s = (Ret f, s))).
Proof.
  intros Hv. rewrite calculate_public_amount_run by done. split; [done |]. intros Hext.
  exists (v mod BN_P). split; [by apply Field_try_from_ext_mod |]. unfold is_ext in Hext. pose proof pow_bounds.
  rewrite (proj2 (Z.eqb_neq _ _)), (proj2 (Z.ltb_lt _ _)) by lia. done.
Qed.

Lemma public_amount_spec_witness :
  exists f, calculate_public_amount (-7) (empty_pool (∅ : RefLedger)) = (Ret f, empty_pool ∅).
Proof.
  destruct (public_amount_spec ref_pool_host (empty_pool ∅) (-7)) as [_ H]; [vm_compute; split; congruence |].
  destruct (H ltac:(vm_compute; split; congruence)) as (f & _ & E). exact (ex_intro _ f E).
Defined.

(** Equal vectors split at equal lengths. *)
Lemma app_eq_split {A} (l1 l2 k1 k2 : list A) : length l1 = length k1 -> l1 ++ l2 = k1 ++ k2 -> l1 = k1 /\ l2 = k2.
Proof. intros Hl E. by apply app_inj_1. Qed.

Lemma u256_to_be_bytes_inj x y :
  0 <= x < BN_P -> 0 <= y < BN_P -> u256_to_be_bytes x = u256_to_be_bytes y -> x = y.
Proof.
  intros Hx Hy E. rewrite <- (u256_be_roundtrip x), <- (u256_be_roundtrip y) by (apply in_field_u256; done). by rewrite E.
Qed.

Lemma u256_list_inj (l k : list Z) :
  Forall (fun x => 0 <= x < BN_P) l -> Forall (fun x => 0 <= x < BN_P) k ->
  u256_to_be_bytes <$> l = u256_to_be_bytes <$> k -> l = k.
Proof.
  intros Hl. revert k. induction Hl as [|x l Hx Hl IH]; intros k Hk E.
  - by destruct k.
  - destruct Hk as [|y k Hy Hk]; [done |]. rewrite !fmap_cons in E. apply cons_eq_inj in E as [E1 E2].
    f_equal; [by apply u256_to_be_bytes_inj | by apply IH].
Qed.

Definition public_values (p : Proof) : list Z :=
  [root p; public_amount p] ++ input_nullifiers p ++
  [output_commitment0 p; output_commitment1 p; asp_membership_root p; asp_non_membership_root p].

(** The verifier's public-input vector binds the transaction: it has
    [5 + 3k] entries for [k] nullifiers, each of 32 bytes, and two transactions with
    at least one nullifier, canonical values and equal vectors have equal roots,
    amounts, external data hashes, nullifiers, commitments and association-set
    roots. *)
Theorem public_inputs_bind (p q : Proof) :
  Forall (fun x => 0 <= x < BN_P) (public_values p) -> Forall (fun x => 0 <= x < BN_P) (public_values q) ->
  input_nullifiers p <> [] ->
  length (public_inputs_of p) = (5 + 3 * length (input_nullifiers p))%nat /\
  (public_inputs_of p = public_inputs_of q ->
   root p = root q /\ public_amount p = public_amount q /\ ext_data_hash p = ext_data_hash q /\
   input_nullifiers p = input_nullifiers q /\ output_commitment0 p = output_commitment0 q /\
   output_commitment1 p = output_commitment1 q /\ asp_membership_root p = asp_membership_root q /\
   asp_non_membership_root p = asp_non_membership_root q).
Proof.
  intros Hp Hq Hne. assert (forall r, length (public_inputs_of r) = (5 + 3 * length (input_nullifiers r))%nat) as Hlen.
  { intros r. unfold public_inputs_of. rewrite !length_app, !length_fmap. cbn [length]. lia. }
  split; [apply Hlen |]. intros E. pose proof (f_equal length E) as El. rewrite !Hlen in El.
  assert (length (input_nullifiers p) = length (input_nullifiers q)) as Hn by lia.
  unfold public_values in Hp, Hq. rewrite !Forall_app, !Forall_cons in Hp, Hq.
  destruct Hp as ((Hr1 & Ha1 & _) & Hns1 & Hc01 & Hc11 & Hm1 & Hnm1 & _).
  destruct Hq as ((Hr2 & Ha2 & _) & Hns2 & Hc02 & Hc12 & Hm2 & Hnm2 & _).
  unfold public_inputs_of in E. apply app_eq_split in E as [E1 E]; [| done].
  apply app_eq_split in E as [E2 E]; [| by rewrite !length_fmap].
  apply app_eq_split in E as [E3 E]; [| done].
  apply app_eq_split in E as [E4 E5]; [| by rewrite !length_fmap].
  apply cons_eq_inj in E1 as [E1a [E1b [E1c _]%cons_eq_inj]%cons_eq_inj].
  apply cons_eq_inj in E3 as [E3a [E3b _]%cons_eq_inj].
  destruct (input_nullifiers p) as [|n0 ns] eqn:Enp; [done |].
  destruct (input_nullifiers q) as [|m0 ms] eqn:Enq; [done |].
  rewrite !fmap_cons in E4, E5. apply cons_eq_inj in E4 as [E4 _]. apply cons_eq_inj in E5 as [E5 _].
  split_and!; try (by apply u256_to_be_bytes_inj); [done | by apply u256_list_inj].
Qed.

Lemma public_inputs_bind_witness : length (public_inputs_of wit_proof) = 11%nat.
Proof.
  destruct (public_inputs_bind wit_proof wit_proof) as [H _].
  - apply (bool_decide_eq_true (Forall (fun x => 0 <= x < BN_P) (public_values wit_proof))). vm_compute. reflexivity.
  - apply (bool_decide_eq_true (Forall (fun x => 0 <= x < BN_P) (public_values wit_proof))). vm_compute. reflexivity.
  - discriminate.
  - exact H.
Defined.

(** The configuration is under the administrator's control: an invocation that
    changes the administrator or an association-set address is one of the three
    administration calls, authorised by the administrator in force; the token, the
    verifier and the deposit limit never change. *)
Theorem pool_admin_controls_config {Ledger} (env : PoolHost Ledger) (host : HostPoseidon2) (laws : HostPoseidon2Laws host)
    (s : PoolState Ledger) (a : PoolSpec Ledger) (call : Call) (op : pool_op) :
  pool_rel s a -> step_typed (Ledger := Ledger) (Invoke call op) ->
  let s' := (invoke (pool_exec call op) s).2 in
  pl_token s' = pl_token s /\ pl_verifier s' = pl_verifier s /\ pl_maximum_deposit s' = pl_maximum_deposit s /\
  (authorised call (ps_admin a) = false ->
   pl_admin s' = pl_admin s /\ pl_asp_membership s' = pl_asp_membership s /\
   pl_asp_non_membership s' = pl_asp_non_membership s).
Proof.
  intros Hrel Ht s'. pose proof (simulates_invoke _ _ _ s a (sim_exec call op Ht) Hrel) as H.
  destruct (spec_exec call op a) as [[u a']|e|] eqn:E.
  2, 3: subst s'; by rewrite H.
  destruct H as (s1 & E1 & Hrel1). subst s'. rewrite E1. cbn [snd]. clear E1.
  assert (ps_token a' = ps_token a /\ ps_verifier a' = ps_verifier a /\ ps_maximum_deposit a' = ps_maximum_deposit a /\
    (authorised call (ps_admin a) = false -> ps_admin a' = ps_admin a /\ ps_asp_membership a' = ps_asp_membership a /\
       ps_asp_non_membership a' = ps_asp_non_membership a)) as (Ct & Cv & Cm & Cc).
  { destruct op; cbn [spec_exec] in E.
    - apply spec_transact_accepted, acc_config in E. tauto.
    - apply spec_as_admin_Ret in E as [Ha ->]. split_and!; [done .. | congruence].
    - apply spec_as_admin_Ret in E as [Ha ->]. split_and!; [done .. | congruence].
    - apply spec_as_admin_Ret in E as [Ha ->]. split_and!; [done .. | congruence].
    - srun_inv. done.
    - srun_inv. done. }
  destruct Hrel, Hrel1. split_and!; [congruence .. |]. intros Hf. destruct (Cc Hf) as (? & ? & ?). split_and!; congruence.
Qed.

Lemma pool_admin_controls_config_witness :
  exists s : PoolState RefLedger,
    pl_admin (invoke (pool_exec (host := ref_host_poseidon2) wit_call (PUpdateAdmin "mallory")) s).2 = pl_admin s.
Proof.
  destruct (wit_pool (host := ref_host_poseidon2)) as (s & Hrel). exists s.
  apply (pool_admin_controls_config ref_pool_host ref_host_poseidon2 ref_host_poseidon2_laws s wit_spec wit_call
           (PUpdateAdmin "mallory") Hrel I). reflexivity.
Defined.
