(* ===== verification/Smt.v ===== *)
(** * Sparse Merkle trees

    The trees behind the non-membership contract and the SDK's sparse tree: a
    binary trie on the bits of the key, least significant first, in which a leaf
    hangs as high as its key allows.  This file has the trees, insertion and deletion
    on them, the invariant that makes a tree canonical, and that a canonical
    tree is determined by its entries. *)

From S2P Require Import Prelude Ints.

Inductive tree : Type :=
| E
| Lf (k v : Z)
| Br (a b : tree).

#[export] Instance tree_eq_dec : EqDecision tree.
Proof. solve_decision. Defined.

(** The bit of [k] that branches at level [l]. *)
Definition kbit (k : Z) (l : nat) : bool := Z.testbit k (Z.of_nat l).

Fixpoint entries (t : tree) : list (Z * Z) :=
  match t with
  | E => []
  | Lf k v => [(k, v)]
  | Br a b => entries a ++ entries b
  end.

Definition keys (t : tree) : list Z := (entries t).*1.

Fixpoint tsize (t : tree) : nat :=
  match t with
  | Br a b => S (tsize a + tsize b)
  | _ => 1%nat
  end.

(** The subtrees that are nodes of storage. *)
Fixpoint subtrees (t : tree) : list tree :=
  match t with
  | E => []
  | Lf k v => [t]
  | Br a b => t :: subtrees a ++ subtrees b
  end.

(** Canonical at level [l]: every branch separates its keys by the bit of its level
    and has at least two entries below it. *)
Fixpoint canonical (l : nat) (t : tree) : Prop :=
  match t with
  | E => True
  | Lf _ _ => True
  | Br a b =>
      (l < 256)%nat /\
      (forall k, k ∈ keys a -> kbit k l = false) /\ (forall k, k ∈ keys b -> kbit k l = true) /\
      (2 <= length (entries a) + length (entries b))%nat /\
      canonical (S l) a /\ canonical (S l) b
  end.

(** ** Insertion and deletion *)

(** The tree of two leaves that first differ at or above level [l]. *)
Fixpoint split (fuel l : nat) (k v k' v' : Z) : tree :=
  match fuel with
  | O => E
  | S fuel =>
      if Bool.eqb (kbit k l) (kbit k' l) then
        if kbit k l then Br E (split fuel (S l) k v k' v') else Br (split fuel (S l) k v k' v') E
      else if kbit k l then Br (Lf k' v') (Lf k v) else Br (Lf k v) (Lf k' v')
  end.

Fixpoint insert_tree (l : nat) (t : tree) (k v : Z) : tree :=
  match t with
  | E => Lf k v
  | Lf k' v' => split (256 - l) l k v k' v'
  | Br a b => if kbit k l then Br a (insert_tree (S l) b k v) else Br (insert_tree (S l) a k v) b
  end.

(** A branch with a single leaf below it is that leaf. *)
Definition join (a b : tree) : tree :=
  match a, b with
  | E, Lf _ _ => b
  | Lf _ _, E => a
  | _, _ => Br a b
  end.

Fixpoint delete_tree (l : nat) (t : tree) (k : Z) : tree :=
  match t with
  | E => E
  | Lf k' v' => if decide (k' = k) then E else t
  | Br a b => if kbit k l then join a (delete_tree (S l) b k) else join (delete_tree (S l) a k) b
  end.

(** ** Keys *)

Lemma keys_Br a b k : k ∈ keys (Br a b) <-> k ∈ keys a \/ k ∈ keys b.
Proof. unfold keys. cbn [entries]. by rewrite fmap_app, elem_of_app. Qed.

Lemma keys_Lf k v k' : k' ∈ keys (Lf k v) <-> k' = k.
Proof. unfold keys. cbn. set_solver. Qed.

Lemma keys_E k : k ∈ keys E <-> False.
Proof. unfold keys. cbn. set_solver. Qed.

Lemma subtrees_Br u a b : u ∈ subtrees (Br a b) <-> u = Br a b \/ u ∈ subtrees a \/ u ∈ subtrees b.
Proof. cbn [subtrees]. by rewrite elem_of_cons, elem_of_app. Qed.

Lemma subtrees_Lf u k v : u ∈ subtrees (Lf k v) <-> u = Lf k v.
Proof. apply list_elem_of_singleton. Qed.

Lemma subtrees_E u : u ∈ subtrees E <-> False.
Proof. apply elem_of_nil. Qed.

Lemma subtrees_keys u t k : u ∈ subtrees t -> k ∈ keys u -> k ∈ keys t.
Proof.
  induction t as [|k0 v0|a IHa b IHb]; cbn [subtrees].
  - by rewrite elem_of_nil.
  - by intros ->%list_elem_of_singleton.
  - rewrite elem_of_cons, elem_of_app, keys_Br. intros [-> | [?|?]] Hk; [by apply keys_Br | auto | auto].
Qed.

(** Every node of storage has an entry below it. *)
Lemma subtrees_nonempty l u t : canonical l t -> u ∈ subtrees t -> exists k, k ∈ keys u.
Proof.
  revert l. induction t as [|k0 v0|a IHa b IHb]; intros l; cbn [subtrees canonical].
  - by rewrite elem_of_nil.
  - intros _ ->%list_elem_of_singleton. exists k0. by apply keys_Lf.
  - intros (_ & _ & _ & H2 & Ha & Hb). rewrite elem_of_cons, elem_of_app. intros [-> | [?|?]].
    + unfold keys. cbn [entries]. destruct (entries a) as [|[k v] ?] eqn:Ea.
      * destruct (entries b) as [|[k v] ?] eqn:Eb; [simpl in H2; lia |]. exists k. cbn. set_solver.
      * exists k. cbn. set_solver.
    + by apply (IHa (S l)).
    + by apply (IHb (S l)).
Qed.

Lemma subtrees_size u t : u ∈ subtrees t -> (tsize u <= tsize t)%nat.
Proof.
  induction t as [|k0 v0|a IHa b IHb]; cbn [subtrees].
  - by rewrite elem_of_nil.
  - by intros ->%list_elem_of_singleton.
  - rewrite elem_of_cons, elem_of_app. cbn [tsize]. intros [-> | [?%IHa|?%IHb]]; cbn [tsize]; lia.
Qed.

Lemma subtrees_self t : t <> E -> t ∈ subtrees t.
Proof. destruct t; [done | set_solver | set_solver]. Qed.

Lemma subtrees_trans u t w : u ∈ subtrees t -> w ∈ subtrees u -> w ∈ subtrees t.
Proof.
  induction t as [|k0 v0|a IHa b IHb]; cbn [subtrees].
  - by rewrite elem_of_nil.
  - by intros ->%list_elem_of_singleton.
  - rewrite elem_of_cons, elem_of_app. intros [-> | [?|?]] Hw; [exact Hw | |]; rewrite elem_of_cons, elem_of_app; auto.
Qed.

Lemma leaf_subtree t k v : (k, v) ∈ entries t -> Lf k v ∈ subtrees t.
Proof.
  induction t as [|k0 v0|a IHa b IHb]; cbn [entries].
  - by rewrite elem_of_nil.
  - intros [= -> ->]%list_elem_of_singleton. by apply subtrees_Lf.
  - rewrite elem_of_app, subtrees_Br. tauto.
Qed.

(** ** Bits of keys *)

Definition is_key (k : Z) : Prop := 0 <= k < 2 ^ 256.

Definition agree (l : nat) (k k' : Z) : Prop := forall j, (j < l)%nat -> kbit k j = kbit k' j.

Lemma agree_S l k k' : agree l k k' -> kbit k l = kbit k' l -> agree (S l) k k'.
Proof. intros H E j Hj. destruct (decide (j = l)) as [-> | ]; [done | apply H; lia]. Qed.

Lemma agree_mono l l' k k' : (l <= l')%nat -> agree l' k k' -> agree l k k'.
Proof. intros Hl H j Hj. apply H. lia. Qed.

Lemma agree_256 k k' : is_key k -> is_key k' -> agree 256 k k' -> k = k'.
Proof.
  intros Hk Hk' H. apply Z.bits_inj'. intros n Hn. destruct (decide (n < 256)) as [Hlt | Hge].
  - specialize (H (Z.to_nat n) ltac:(lia)). unfold kbit in H. by rewrite Z2Nat.id in H.
  - assert (forall x, is_key x -> Z.testbit x n = false) as Hhi.
    { intros x [? ?]. destruct (decide (x = 0)) as [-> | ]; [apply Z.testbit_0_l |].
      apply Z.bits_above_log2; [done |]. assert (Z.log2 x < 256) by (apply Z.log2_lt_pow2; lia). lia. }
    by rewrite !Hhi.
Qed.

(** ** Insertion *)

Lemma entries_split n l k v k' v' :
  (l + n)%nat = 256%nat -> agree l k k' -> is_key k -> is_key k' -> k <> k' ->
  entries (split n l k v k' v') ≡ₚ [(k, v); (k', v')].
Proof.
  revert l. induction n as [|n IH]; intros l Hn Hag Hk Hk' Hne.
  { assert (l = 256%nat) as -> by lia. by destruct Hne; apply agree_256. }
  cbn [split]. destruct (Bool.eqb_spec (kbit k l) (kbit k' l)) as [Heq | Hneq].
  - specialize (IH (S l) ltac:(lia) (agree_S _ _ _ Hag Heq) Hk Hk' Hne).
    destruct (kbit k l); cbn [entries]; [done |]. by rewrite app_nil_r.
  - destruct (kbit k l); cbn [entries app]; [apply perm_swap | done].
Qed.

Lemma canonical_split n l k v k' v' :
  (l + n)%nat = 256%nat -> agree l k k' -> is_key k -> is_key k' -> k <> k' ->
  canonical l (split n l k v k' v').
Proof.
  revert l. induction n as [|n IH]; intros l Hn Hag Hk Hk' Hne; [done |]. cbn [split].
  destruct (Bool.eqb_spec (kbit k l) (kbit k' l)) as [Heq | Hneq].
  - pose proof (agree_S _ _ _ Hag Heq) as Hag'. specialize (IH (S l) ltac:(lia) Hag' Hk Hk' Hne).
    pose proof (entries_split n (S l) k v k' v' ltac:(lia) Hag' Hk Hk' Hne) as Hp.
    assert (forall x, x ∈ keys (split n (S l) k v k' v') -> kbit x l = kbit k l) as Hbits.
    { intros x Hx. unfold keys in Hx. rewrite Hp in Hx. cbn in Hx. set_solver. }
    destruct (kbit k l); cbn [canonical]; rewrite Hp; (split_and!; [lia | | | cbn; lia | done | done]).
    1: by intros x ?%keys_E.
    1: done.
    1: done.
    by intros x ?%keys_E.
  - destruct (kbit k l) eqn:E1, (kbit k' l) eqn:E2; try done; cbn [canonical];
      (split_and!; [lia | intros x ->%keys_Lf; done | intros x ->%keys_Lf; done | cbn; lia | done | done]).
Qed.

(** All keys of the tree agree with [p] below the level. *)
Definition prefixed (l : nat) (p : Z) (t : tree) : Prop := forall k, k ∈ keys t -> is_key k /\ agree l k p.

Lemma prefixed_child l p a b :
  canonical l (Br a b) -> prefixed l p (Br a b) -> prefixed (S l) p (if kbit p l then b else a).
Proof.
  cbn [canonical]. intros (_ & Ha & Hb & _) Hp x Hx. destruct (kbit p l) eqn:Ep.
  - destruct (Hp x) as [Hkx Hag]; [apply keys_Br; auto |]. split; [done |]. apply agree_S; [done |]. rewrite Ep. by apply Hb.
  - destruct (Hp x) as [Hkx Hag]; [apply keys_Br; auto |]. split; [done |]. apply agree_S; [done |]. rewrite Ep. by apply Ha.
Qed.

Lemma insert_entries l t k v :
  (l <= 256)%nat -> canonical l t -> prefixed l k t -> is_key k -> k ∉ keys t ->
  entries (insert_tree l t k v) ≡ₚ (k, v) :: entries t.
Proof.
  revert l. induction t as [|k' v'|a IHa b IHb]; intros l Hl Hc Hp Hk Hnk; cbn [insert_tree].
  - done.
  - destruct (Hp k') as [Hk' Hag]; [by apply keys_Lf |]. rewrite entries_split; [done | lia | | done | done |].
    + intros j Hj. symmetry. by apply Hag.
    + intros ->. apply Hnk. by apply keys_Lf.
  - pose proof (prefixed_child _ _ _ _ Hc Hp) as Hp'. cbn [canonical] in Hc. destruct Hc as (? & _ & _ & _ & Ha & Hb).
    rewrite keys_Br in Hnk. destruct (kbit k l); cbn [entries].
    + rewrite IHb; [| lia | done | done | done | tauto]. by rewrite Permutation_middle.
    + rewrite IHa; [done | lia | done | done | done | tauto].
Qed.

Lemma insert_keys l t k v x :
  (l <= 256)%nat -> canonical l t -> prefixed l k t -> is_key k -> k ∉ keys t ->
  x ∈ keys (insert_tree l t k v) <-> x = k \/ x ∈ keys t.
Proof. intros. unfold keys. rewrite insert_entries by done. cbn. by rewrite elem_of_cons. Qed.

Lemma canonical_insert l t k v :
  (l <= 256)%nat -> canonical l t -> prefixed l k t -> is_key k -> k ∉ keys t ->
  canonical l (insert_tree l t k v).
Proof.
  revert l. induction t as [|k' v'|a IHa b IHb]; intros l Hl Hc Hp Hk Hnk; cbn [insert_tree].
  - done.
  - destruct (Hp k') as [Hk' Hag]; [by apply keys_Lf |]. apply canonical_split; [lia | | done | done |].
    + intros j Hj. symmetry. by apply Hag.
    + intros ->. apply Hnk. by apply keys_Lf.
  - pose proof (prefixed_child _ _ _ _ Hc Hp) as Hp'. cbn [canonical] in Hc. destruct Hc as (? & Ka & Kb & H2 & Ha & Hb).
    rewrite keys_Br in Hnk. destruct (kbit k l) eqn:Ek; cbn [canonical].
    + split_and!; [done | done | | | done | apply IHb; [lia | tauto ..]].
      * intros x [-> | ?]%insert_keys; [done | by apply Kb | lia | tauto ..].
      * rewrite (Permutation_length (insert_entries (S l) b k v ltac:(lia) Hb Hp' Hk ltac:(tauto))). cbn. lia.
    + split_and!; [done | | done | | apply IHa; [lia | tauto ..] | done].
      * intros x [-> | ?]%insert_keys; [done | by apply Ka | lia | tauto ..].
      * rewrite (Permutation_length (insert_entries (S l) a k v ltac:(lia) Ha Hp' Hk ltac:(tauto))). cbn. lia.
Qed.

(** The nodes of the new tree: the ones above the new key, and old ones. *)
Lemma subtrees_split n l k v k' v' u :
  (l + n)%nat = 256%nat -> agree l k k' -> is_key k -> is_key k' -> k <> k' ->
  u ∈ subtrees (split n l k v k' v') -> k ∈ keys u \/ u = Lf k' v'.
Proof.
  revert l. induction n as [|n IH]; intros l Hn Hag Hk Hk' Hne; cbn [split].
  { by rewrite elem_of_nil. }
  destruct (Bool.eqb_spec (kbit k l) (kbit k' l)) as [Heq | Hneq].
  - pose proof (agree_S _ _ _ Hag Heq) as Hag'. specialize (IH (S l) ltac:(lia) Hag' Hk Hk' Hne).
    assert (k ∈ keys (split n (S l) k v k' v')) as Hin.
    { unfold keys. rewrite entries_split by (done || lia). cbn. set_solver. }
    destruct (kbit k l); cbn [subtrees app]; rewrite ?app_nil_r, elem_of_cons; (intros [-> | ?]; [left; apply keys_Br; auto | auto]).
  - destruct (kbit k l); cbn [subtrees app]; rewrite !elem_of_cons, elem_of_nil;
      (intros [-> | [-> | [-> | []]]]; [left; rewrite keys_Br, !keys_Lf; auto | ..]); rewrite ?keys_Lf; auto.
Qed.

Lemma subtrees_insert l t k v u :
  (l <= 256)%nat -> canonical l t -> prefixed l k t -> is_key k -> k ∉ keys t ->
  u ∈ subtrees (insert_tree l t k v) -> k ∈ keys u \/ u ∈ subtrees t.
Proof.
  revert l. induction t as [|k' v'|a IHa b IHb]; intros l Hl Hc Hp Hk Hnk; cbn [insert_tree].
  - cbn [subtrees]. intros ->%list_elem_of_singleton. left. by apply keys_Lf.
  - destruct (Hp k') as [Hk' Hag]; [by apply keys_Lf |]. intros [? | ->]%subtrees_split; [by left | | lia | | done | done |].
    + right. cbn. set_solver.
    + intros j Hj. symmetry. by apply Hag.
    + intros ->. apply Hnk. by apply keys_Lf.
  - pose proof (prefixed_child _ _ _ _ Hc Hp) as Hp'. pose proof Hc as Hc'. cbn [canonical] in Hc'.
    destruct Hc' as (? & Ka & Kb & H2 & Ha & Hb). rewrite keys_Br in Hnk.
    destruct (kbit k l) eqn:Ek; cbn [subtrees]; rewrite !elem_of_cons, !elem_of_app; (intros [-> | [Hu | Hu]]).
    + left. apply keys_Br. right. apply insert_keys; [lia | tauto ..].
    + tauto.
    + apply IHb in Hu; [tauto | lia | tauto ..].
    + left. apply keys_Br. left. apply insert_keys; [lia | tauto ..].
    + apply IHa in Hu; [tauto | lia | tauto ..].
    + tauto.
Qed.

Lemma leaf_in_split n l k v k' v' :
  (l + n)%nat = 256%nat -> agree l k k' -> is_key k -> is_key k' -> k <> k' ->
  Lf k v ∈ subtrees (split n l k v k' v').
Proof.
  revert l. induction n as [|n IH]; intros l Hn Hag Hk Hk' Hne; cbn [split].
  { assert (l = 256%nat) as -> by lia. by destruct Hne; apply agree_256. }
  destruct (Bool.eqb_spec (kbit k l) (kbit k' l)) as [Heq | Hneq].
  - specialize (IH (S l) ltac:(lia) (agree_S _ _ _ Hag Heq) Hk Hk' Hne). destruct (kbit k l); apply subtrees_Br; auto.
  - destruct (kbit k l); rewrite subtrees_Br, !subtrees_Lf; auto.
Qed.

Lemma leaf_in_insert l t k v :
  (l <= 256)%nat -> canonical l t -> prefixed l k t -> is_key k -> k ∉ keys t ->
  Lf k v ∈ subtrees (insert_tree l t k v).
Proof.
  revert l. induction t as [|k' v'|a IHa b IHb]; intros l Hl Hc Hp Hk Hnk; cbn [insert_tree].
  - by apply subtrees_Lf.
  - destruct (Hp k') as [Hk' Hag]; [by apply keys_Lf |]. apply leaf_in_split; [lia | | done | done |].
    + intros j Hj. symmetry. by apply Hag.
    + intros ->. apply Hnk. by apply keys_Lf.
  - pose proof (prefixed_child _ _ _ _ Hc Hp) as Hp'. cbn [canonical] in Hc. destruct Hc as (? & _ & _ & _ & Ha & Hb).
    rewrite keys_Br in Hnk. destruct (kbit k l); apply subtrees_Br; right; [right; apply IHb | left; apply IHa];
      (lia || tauto).
Qed.

(** ** Deletion *)

Lemma entries_join a b : entries (join a b) = entries a ++ entries b.
Proof. destruct a, b; cbn; by rewrite ?app_nil_r. Qed.

Lemma canonical_length l t : canonical l t -> match t with Br _ _ => (2 <= length (entries t))%nat | _ => True end.
Proof. destruct t; [done | done |]. cbn [canonical entries]. rewrite length_app. tauto. Qed.

Lemma canonical_join l a b :
  (l < 256)%nat -> (forall k, k ∈ keys a -> kbit k l = false) -> (forall k, k ∈ keys b -> kbit k l = true) ->
  (1 <= length (entries a) + length (entries b))%nat -> canonical (S l) a -> canonical (S l) b ->
  canonical l (join a b).
Proof.
  intros Hl Ka Kb H1 Ha Hb. pose proof (canonical_length _ _ Ha) as La. pose proof (canonical_length _ _ Hb) as Lb.
  assert ((2 <= length (entries a) + length (entries b))%nat -> canonical l (Br a b)) as HBr.
  { intros H2. cbn [canonical]. done. }
  destruct a, b; try done; cbn [join]; apply HBr; cbn [entries length] in *; lia.
Qed.

Lemma delete_entries l t k :
  canonical l t -> entries (delete_tree l t k) = filter (fun e => e.1 <> k) (entries t).
Proof.
  revert l. induction t as [|k' v'|a IHa b IHb]; intros l Hc; cbn [delete_tree].
  - done.
  - cbn [entries]. rewrite filter_cons, filter_nil. cbn [fst]. destruct (decide (k' = k)) as [-> | Hne].
    + by rewrite decide_False by tauto.
    + by rewrite decide_True.
  - cbn [canonical] in Hc. destruct Hc as (_ & Ka & Kb & _ & Ha & Hb). cbn [entries]. rewrite filter_app.
    assert (forall t, (forall x, x ∈ keys t -> x <> k) -> filter (fun e => e.1 <> k) (entries t) = entries t) as Hno.
    { intros t Ht. apply filter_all. intros e He. apply Ht. unfold keys. set_solver. }
    destruct (kbit k l) eqn:Ek; rewrite entries_join.
    + rewrite IHb by done. f_equal. symmetry. apply Hno. intros x Hx ->. apply Ka in Hx. congruence.
    + rewrite IHa by done. f_equal. symmetry. apply Hno. intros x Hx ->. apply Kb in Hx. congruence.
Qed.

Lemma delete_keys l t k x : canonical l t -> x ∈ keys (delete_tree l t k) <-> x <> k /\ x ∈ keys t.
Proof.
  intros Hc. unfold keys. rewrite delete_entries by done. rewrite !list_elem_of_fmap. setoid_rewrite list_elem_of_filter.
  split; [intros (e & -> & ? & ?); eauto | intros (? & e & -> & ?); eauto].
Qed.

Lemma canonical_NoDup l t : canonical l t -> NoDup (keys t).
Proof.
  revert l. induction t as [|k' v'|a IHa b IHb]; intros l Hc.
  - constructor.
  - unfold keys. cbn. apply NoDup_singleton.
  - cbn [canonical] in Hc. destruct Hc as (_ & Ka & Kb & _ & Ha & Hb). unfold keys. cbn [entries].
    rewrite fmap_app. apply NoDup_app. split_and!; [by eapply IHa | | by eapply IHb].
    intros x Hxa Hxb. specialize (Ka x Hxa). specialize (Kb x Hxb). congruence.
Qed.

Lemma delete_length l t k :
  canonical l t -> (length (entries t) <= S (length (entries (delete_tree l t k))))%nat.
Proof.
  intros Hc. rewrite (delete_entries l) by done. pose proof (canonical_NoDup l t Hc) as Hnd. unfold keys in Hnd.
  clear Hc. induction (entries t) as [|e es IH]; [cbn; lia |]. rewrite fmap_cons, NoDup_cons in Hnd. destruct Hnd as [Hni Hnd].
  rewrite filter_cons. destruct (decide (e.1 <> k)) as [Hne | Heq]; cbn [length]; [specialize (IH Hnd); lia |].
  assert (e.1 = k) as E by (destruct (decide (e.1 = k)); tauto).
  rewrite filter_all; [lia |]. intros e' He' E'. apply Hni. rewrite E, <- E'. set_solver.
Qed.

Lemma canonical_delete l t k : canonical l t -> canonical l (delete_tree l t k).
Proof.
  revert l. induction t as [|k' v'|a IHa b IHb]; intros l Hc; cbn [delete_tree].
  - done.
  - by destruct (decide (k' = k)).
  - cbn [canonical] in Hc. destruct Hc as (Hl & Ka & Kb & H2 & Ha & Hb). destruct (kbit k l).
    + apply canonical_join; [done | done | | | done | by apply IHb].
      * intros x [_ Hx]%delete_keys; [by apply Kb | done].
      * pose proof (delete_length (S l) b k Hb). lia.
    + apply canonical_join; [done | | done | | by apply IHa | done].
      * intros x [_ Hx]%delete_keys; [by apply Ka | done].
      * pose proof (delete_length (S l) a k Ha). lia.
Qed.

(** ** A canonical tree is determined by its entries *)

Lemma canonical_unique l t1 t2 :
  canonical l t1 -> canonical l t2 -> (forall e, e ∈ entries t1 <-> e ∈ entries t2) -> t1 = t2.
Proof.
  revert l t2. induction t1 as [|k v|a IHa b IHb]; intros l t2 H1 H2 He.
  - destruct t2 as [|k v|a b]; [done | |].
    + exfalso. specialize (He (k, v)). cbn in He. set_solver.
    + pose proof (canonical_length _ _ H2) as Hlen. destruct (entries (Br a b)) as [|e es]; [simpl in Hlen; lia |].
      exfalso. specialize (He e). cbn in He. set_solver.
  - destruct t2 as [|k2 v2|a b].
    + exfalso. specialize (He (k, v)). cbn in He. set_solver.
    + specialize (He (k, v)). cbn in He. set_solver.
    + exfalso. pose proof (canonical_length _ _ H2) as Hlen. pose proof (canonical_NoDup _ _ H2) as Hnd. unfold keys in Hnd.
      cbn [entries] in He. destruct (entries (Br a b)) as [|e1 [|e2 es]] eqn:Ee; [simpl in Hlen; lia | simpl in Hlen; lia |].
      cbn [entries] in Ee. rewrite Ee in He.
      assert (e1 = (k, v)) by (specialize (He e1); set_solver). assert (e2 = (k, v)) by (specialize (He e2); set_solver).
      subst. rewrite !fmap_cons, NoDup_cons in Hnd. set_solver.
  - destruct t2 as [|k2 v2|a2 b2].
    + pose proof (canonical_length _ _ H1) as Hlen. destruct (entries (Br a b)) as [|e es]; [simpl in Hlen; lia |].
      exfalso. specialize (He e). cbn in He. set_solver.
    + exfalso. pose proof (canonical_length _ _ H1) as Hlen. pose proof (canonical_NoDup _ _ H1) as Hnd. unfold keys in Hnd.
      cbn [entries] in He, Hlen, Hnd. destruct (entries a ++ entries b) as [|e1 [|e2 es]] eqn:Ee; [simpl in Hlen; lia | simpl in Hlen; lia |].
      assert (e1 = (k2, v2)) by (specialize (He e1); set_solver). assert (e2 = (k2, v2)) by (specialize (He e2); set_solver).
      subst. rewrite !fmap_cons, NoDup_cons in Hnd. set_solver.
    + cbn [canonical] in H1, H2. destruct H1 as (Hl & Ka & Kb & _ & Ha & Hb). destruct H2 as (_ & Ka2 & Kb2 & _ & Ha2 & Hb2).
      cbn [entries] in He.
      assert (forall (t : tree) e, e ∈ entries t -> e.1 ∈ keys t) as Hkey by (intros t e ?; unfold keys; set_solver).
      assert (forall e, e ∈ entries a <-> e ∈ entries a2) as Hea.
      { intros e. specialize (He e). rewrite !elem_of_app in He. split; intros Hin.
        - destruct (proj1 He (or_introl Hin)) as [? | Hb']; [done |]. apply Hkey, Kb2 in Hb'. apply Hkey, Ka in Hin. congruence.
        - destruct (proj2 He (or_introl Hin)) as [? | Hb']; [done |]. apply Hkey, Kb in Hb'. apply Hkey, Ka2 in Hin. congruence. }
      assert (forall e, e ∈ entries b <-> e ∈ entries b2) as Heb.
      { intros e. specialize (He e). rewrite !elem_of_app in He. split; intros Hin.
        - destruct (proj1 He (or_intror Hin)) as [Hb' | ?]; [| done]. apply Hkey, Ka2 in Hb'. apply Hkey, Kb in Hin. congruence.
        - destruct (proj2 He (or_intror Hin)) as [Hb' | ?]; [| done]. apply Hkey, Ka in Hb'. apply Hkey, Kb2 in Hin. congruence. }
      f_equal; [by apply (IHa (S l)) | by apply (IHb (S l))].
Qed.
