(* ===== verification/AspNonMembership.v ===== *)
(** * The non-membership contract ([contracts/asp-non-membership/src/lib.rs])

    A sparse Merkle tree kept node by node in storage, keyed by node hash: search,
    insertion, deletion and the verification of non-membership proofs.  The lists
    of siblings run from the root to the leaf. *)

From S2P Require Import Prelude Ints Amounts Poseidon2Tables Hashes Soroban MerkleSpec.

Inductive NmError : Type :=
| NE_NotAuthorized
| NE_KeyNotFound
| NE_KeyAlreadyExists
| NE_InvalidProof
| NE_NotInitialized
| NE_Overflow.

#[export] Instance NmError_eq_dec : EqDecision NmError.
Proof. solve_decision. Defined.

Record FindResult : Type := {
  found : bool;
  siblings : list Z;
  found_value : Z;
  not_found_key : Z;
  not_found_value : Z;
  is_old0 : bool;
}.

Inductive NmEvent : Type :=
| LeafInsertedEvent (key value root : Z)
| LeafDeletedEvent (key root : Z).

(** The entries of persistent storage under [DataKey], and the events, newest first. *)
Record NmStore : Type := {
  nm_admin : option Address;
  nm_root : option Z;
  nm_nodes : gmap Z (list Z);
  nm_events : list NmEvent;
}.

Definition empty_nm_store : NmStore := {| nm_admin := None; nm_root := None; nm_nodes := ∅; nm_events := [] |}.

Definition nm_set_admin (a : Address) (s : NmStore) : NmStore :=
  {| nm_admin := Some a; nm_root := nm_root s; nm_nodes := nm_nodes s; nm_events := nm_events s |}.
Definition nm_set_root (r : Z) (s : NmStore) : NmStore :=
  {| nm_admin := nm_admin s; nm_root := Some r; nm_nodes := nm_nodes s; nm_events := nm_events s |}.
Definition nm_with_nodes (m : gmap Z (list Z)) (s : NmStore) : NmStore :=
  {| nm_admin := nm_admin s; nm_root := nm_root s; nm_nodes := m; nm_events := nm_events s |}.
Definition nm_publish (e : NmEvent) (s : NmStore) : NmStore :=
  {| nm_admin := nm_admin s; nm_root := nm_root s; nm_nodes := nm_nodes s; nm_events := e :: nm_events s |}.
Definition nm_set_node (h : Z) (d : list Z) (s : NmStore) : NmStore := nm_with_nodes (<[h := d]> (nm_nodes s)) s.
Definition nm_remove_node (h : Z) (s : NmStore) : NmStore := nm_with_nodes (delete h (nm_nodes s)) s.

Section asp_non_membership.
Context {host : HostPoseidon2}.

Local Abbreviation MN := (M NmStore NmError).

Definition from_result {A} (r : result NmError A) : MN A :=
  match r with Ok a => mret a | Err e => fail e end.

Definition nm_constructor (admin : Address) : MN unit :=
  modify (nm_set_admin admin);;
  modify (nm_set_root 0).

Definition nm_update_admin (authorised : Address -> bool) (new_admin : Address) : MN unit :=
  utils_update_admin nm_admin nm_set_admin authorised new_admin.

Definition hash_leaf (key value : Z) : option Z := poseidon2_hash2 key value (Some 1).
Definition hash_internal (left right : Z) : option Z := poseidon2_compress left right.

Fixpoint split_bits_loop (n : nat) (k : Z) : list bool :=
  match n with
  | O => []
  | S n => (k mod 2 =? 1) :: split_bits_loop n (k / 2)
  end.

Definition split_bits (key : Z) : list bool := split_bits_loop 256 key.

(** The recursion goes down one level at a time and stops at the end of the key's 256
    bits, so that 257 levels of fuel are enough. *)
Fixpoint find_key_internal (fuel : nat) (nodes : gmap Z (list Z)) (key : Z) (key_bits : list bool)
    (root : Z) (level : nat) : result NmError FindResult :=
  match fuel with
  | O => Err NE_KeyNotFound
  | S fuel =>
      if root =? 0 then
        Ok {| found := false; siblings := []; found_value := 0; not_found_key := key;
              not_found_value := 0; is_old0 := true |}
      else
        node_data ← ok_or (nodes !! root) NE_KeyNotFound;
        if bool_decide (length node_data = 3%nat) && bool_decide (node_data !! 0%nat = Some 1) then
          stored_key ← ok_or (node_data !! 1%nat) NE_KeyNotFound;
          stored_value ← ok_or (node_data !! 2%nat) NE_KeyNotFound;
          if stored_key =? key then
            Ok {| found := true; siblings := []; found_value := stored_value; not_found_key := 0;
                  not_found_value := 0; is_old0 := false |}
          else
            Ok {| found := false; siblings := []; found_value := 0; not_found_key := stored_key;
                  not_found_value := stored_value; is_old0 := false |}
        else if bool_decide (length node_data = 2%nat) then
          left ← ok_or (node_data !! 0%nat) NE_KeyNotFound;
          right ← ok_or (node_data !! 1%nat) NE_KeyNotFound;
          bit ← ok_or (key_bits !! level) NE_KeyNotFound;
          r ← find_key_internal fuel nodes key key_bits (if bit : bool then right else left) (S level);
          Ok {| found := found r; siblings := (if bit : bool then left else right) :: siblings r;
                found_value := found_value r; not_found_key := not_found_key r;
                not_found_value := not_found_value r; is_old0 := is_old0 r |}
        else Err NE_KeyNotFound
  end.

Definition find_fuel : nat := 257.

Definition find_key (key : Z) : MN FindResult :=
  stored ← gets nm_root;
  let root := default 0 stored in
  nodes ← gets nm_nodes;
  from_result (find_key_internal find_fuel nodes key (split_bits key) root 0).

(** ** Insertion *)

(** The [while] loop that pads the siblings with zeros over the common prefix; at most
    256 rounds, one per bit. *)
Fixpoint extend_siblings (fuel : nat) (old_key_bits key_bits : list bool) (sibs : list Z) : list Z :=
  match fuel with
  | O => sibs
  | S fuel =>
      match old_key_bits !! length sibs, key_bits !! length sibs with
      | Some b, Some b' => if Bool.eqb b b' then extend_siblings fuel old_key_bits key_bits (sibs ++ [0]) else sibs
      | _, _ => sibs
      end
  end.

(** One round of the loop that rebuilds the path, at position [i] with its sibling. *)
Definition rebuild_step (key_bits : list bool) (found_siblings : list Z) (siblings_len : nat) (added_one : bool)
    (i : nat) (sibling : Z) (st : bool * Z * Z) : MN (bool * Z * Z) :=
  let '(mixed, rt_old, rt) := st in
  let is_last_added_leaf := added_one && (i =? siblings_len - 1)%nat in
  let mixed := mixed || (negb is_last_added_leaf && (i <? siblings_len - 1)%nat && negb (sibling =? 0)) in
  rt_old ←
    (if mixed && negb is_last_added_leaf then
       old_sibling ← (if (i <? length found_siblings)%nat then require (found_siblings !! i) NE_KeyNotFound else mret 0);
       bit ← require (key_bits !! i) NE_KeyNotFound;
       rt_old ← unwrap (if bit : bool then hash_internal old_sibling rt_old else hash_internal rt_old old_sibling);
       modify (nm_remove_node rt_old);;
       mret rt_old
     else mret rt_old);
  bit ← require (key_bits !! i) NE_KeyNotFound;
  let '(left_hash, right_hash) := if bit : bool then (sibling, rt) else (rt, sibling) in
  rt ← unwrap (hash_internal left_hash right_hash);
  modify (nm_set_node rt [left_hash; right_hash]);;
  mret (mixed, rt_old, rt).

Fixpoint rebuild (key_bits : list bool) (found_siblings : list Z) (siblings_len : nat) (added_one : bool)
    (path : list (nat * Z)) (st : bool * Z * Z) : MN (bool * Z * Z) :=
  match path with
  | [] => mret st
  | (i, sibling) :: path =>
      st ← rebuild_step key_bits found_siblings siblings_len added_one i sibling st;
      rebuild key_bits found_siblings siblings_len added_one path st
  end.

(** The siblings are trimmed at the end of the source function; nothing reads them
    after that. *)
Definition nm_insert_leaf (authorised : Address -> bool) (key value : Z) : MN unit :=
  stored ← gets nm_admin;
  admin ← require stored NE_NotInitialized;
  require_auth authorised admin;;
  stored_root ← gets nm_root;
  let root := default 0 stored_root in
  let key_bits := split_bits key in
  nodes ← gets nm_nodes;
  find_result ← from_result (find_key_internal find_fuel nodes key key_bits root 0);
  fail_if (found find_result) NE_KeyAlreadyExists;;
  prep ←
    (if negb (is_old0 find_result) then
       let old_key_bits := split_bits (not_found_key find_result) in
       let sibs := extend_siblings 256 old_key_bits key_bits (siblings find_result) in
       rt_old ← unwrap (hash_leaf (not_found_key find_result) (not_found_value find_result));
       mret (sibs ++ [rt_old], false, rt_old, true)
     else mret (siblings find_result, bool_decide (siblings find_result <> []), 0, false));
  let '(sibs, mixed, rt_old, added_one) := prep in
  rt ← unwrap (hash_leaf key value);
  modify (nm_set_node rt [1; key; value]);;
  st ← rebuild key_bits (siblings find_result) (length sibs) added_one (rev (imap pair sibs)) (mixed, rt_old, rt);
  let '(_, _, rt) := st in
  modify (nm_set_root rt);;
  modify (nm_publish (LeafInsertedEvent key value rt)).

(** ** Deletion *)

Definition unlink_step (key_bits : list bool) (level : nat) (sibling : Z) (st : bool * Z * Z) : MN (bool * Z * Z) :=
  let '(mixed, rt_old, rt_new) := st in
  let new_sibling := sibling in
  bit ← require (key_bits !! level) NE_KeyNotFound;
  rt_old ← unwrap (if bit : bool then hash_internal sibling rt_old else hash_internal rt_old sibling);
  modify (nm_remove_node rt_old);;
  let mixed := mixed || negb (new_sibling =? 0) in
  rt_new ←
    (if mixed then
       let '(left_hash, right_hash) := if bit : bool then (new_sibling, rt_new) else (rt_new, new_sibling) in
       rt_new ← unwrap (hash_internal left_hash right_hash);
       modify (nm_set_node rt_new [left_hash; right_hash]);;
       mret rt_new
     else mret rt_new);
  mret (mixed, rt_old, rt_new).

Fixpoint unlink (key_bits : list bool) (path : list (nat * Z)) (st : bool * Z * Z) : MN (bool * Z * Z) :=
  match path with
  | [] => mret st
  | (level, sibling) :: path =>
      st ← unlink_step key_bits level sibling st;
      unlink key_bits path st
  end.

(** Whether the last sibling takes the place of the branch: the new node and the
    siblings still to process. *)
Definition promote (sibs : list Z) : MN (Z * list Z) :=
  match last sibs with
  | Some last_sibling =>
      nodes ← gets nm_nodes;
      match nodes !! last_sibling with
      | Some node_data =>
          if bool_decide (length node_data = 3%nat) && bool_decide (node_data !! 0%nat = Some 1) then
            mret (last_sibling, removelast sibs)
          else if bool_decide (length node_data = 2%nat) then mret (0, sibs)
          else fail NE_KeyNotFound
      | None => fail NE_KeyNotFound
      end
  | None => mret (0, sibs)
  end.

Definition delete_leaf (authorised : Address -> bool) (key : Z) : MN unit :=
  stored ← gets nm_admin;
  admin ← require stored NE_NotInitialized;
  require_auth authorised admin;;
  stored_root ← gets nm_root;
  root ← require stored_root NE_NotInitialized;
  let key_bits := split_bits key in
  nodes ← gets nm_nodes;
  find_result ← from_result (find_key_internal find_fuel nodes key key_bits root 0);
  fail_if (negb (found find_result)) NE_KeyNotFound;;
  rt_old ← unwrap (hash_leaf key (found_value find_result));
  modify (nm_remove_node rt_old);;
  prep ← promote (siblings find_result);
  let '(rt_new, siblings_to_use) := prep in
  st ← unlink key_bits (rev (imap pair siblings_to_use)) (false, rt_old, rt_new);
  let '(_, _, rt_new) := st in
  modify (nm_set_root rt_new);;
  modify (nm_publish (LeafDeletedEvent key rt_new)).

(** ** Verification *)

Fixpoint fold_root (key_bits : list bool) (path : list (nat * Z)) (computed_root : Z) : MN Z :=
  match path with
  | [] => mret computed_root
  | (level, sibling) :: path =>
      bit ← require (key_bits !! level) NE_InvalidProof;
      computed_root ← unwrap (if bit : bool then hash_internal sibling computed_root
                              else hash_internal computed_root sibling);
      fold_root key_bits path computed_root
  end.

Definition verify_non_membership (key : Z) (sibs : list Z) (nf_key nf_value : Z) : MN bool :=
  stored_root ← gets nm_root;
  let root := default 0 stored_root in
  let key_bits := split_bits key in
  nodes ← gets nm_nodes;
  find_result ← from_result (find_key_internal find_fuel nodes key key_bits root 0);
  if found find_result then mret false
  else
    fail_if (negb (bool_decide (length (siblings find_result) = length sibs))) NE_InvalidProof;;
    for_each (imap pair sibs) (fun '(i, sibling) =>
      expected ← require (siblings find_result !! i) NE_InvalidProof;
      fail_if (negb (sibling =? expected)) NE_InvalidProof);;
    fail_if (negb (not_found_key find_result =? nf_key) || negb (not_found_value find_result =? nf_value)) NE_InvalidProof;;
    computed_root ← (if negb (nf_key =? key) && negb (nf_value =? 0) then unwrap (hash_leaf nf_key nf_value) else mret 0);
    computed_root ← fold_root key_bits (rev (imap pair sibs)) computed_root;
    fail_if (negb (computed_root =? root)) NE_InvalidProof;;
    mret true.

Definition nm_get_root : MN Z :=
  stored ← gets nm_root;
  require stored NE_NotInitialized.

End asp_non_membership.
