(* ===== verification/NonMembershipFacts.v ===== *)
(** * The sparse tree in storage

    The node map of [AspNonMembership.v] represents a tree of [Smt.v]: every subtree
    is stored under its hash.  Search in storage is search in the tree, and the
    bottom-up loops of insertion and deletion compute the tree operations, as long as
    the hash does not collide on the subtrees involved. *)

From S2P Require Import Prelude Ints Amounts Poseidon2Tables Hashes Soroban MerkleSpec Smt AspNonMembership.

Section representation.
Context {host : HostPoseidon2} {laws : HostPoseidon2Laws host}.

Fixpoint thash (t : tree) : Z :=
  match t with
  | E => 0
  | Lf k v => default 0 (hash_leaf k v)
  | Br a b => default 0 (hash_internal (thash a) (thash b))
  end.

(** What is stored under a subtree's hash. *)
Definition enc (t : tree) : list Z :=
  match t with
  | E => []
  | Lf k v => [1; k; v]
  | Br a b => [thash a; thash b]
  end.

Definition stored (m : gmap Z (list Z)) (t : tree) : Prop := forall u, u ∈ subtrees t -> m !! thash u = Some (enc u).

(** Keys and values are canonical field elements. *)
Definition tfield (t : tree) : Prop := forall e, e ∈ entries t -> in_field e.1 /\ in_field e.2.

(** The hash is collision-free on [us], and none of them hashes to the empty tree. *)
Record distinct (us : list tree) : Prop := {
  distinct_inj : forall x y, x ∈ us -> y ∈ us -> thash x = thash y -> x = y;
  distinct_nonzero : forall x, x ∈ us -> thash x <> 0;
}.

Lemma in_field_1 : in_field 1.
Proof. vm_compute. split; congruence. Qed.

Lemma in_field_0 : in_field 0.
Proof. vm_compute. split; congruence. Qed.

Lemma in_field_is_key k : in_field k -> is_key k.
Proof. apply in_field_u256. Qed.

Lemma hash_leaf_thash k v : in_field k -> in_field v -> hash_leaf k v = Some (thash (Lf k v)) /\ in_field (thash (Lf k v)).
Proof using laws.
  intros Hk Hv. cbn [thash]. unfold hash_leaf. rewrite poseidon2_hash2_field; [| done | done | apply in_field_1].
  destruct (poseidon2_hash2_internal_total k v (Some 1)) as (h & -> & Hh). done.
Qed.

Lemma thash_field t : tfield t -> in_field (thash t).
Proof using laws.
  induction t as [|k v|a IHa b IHb]; intros Ht.
  - apply in_field_0.
  - destruct (Ht (k, v)) as [Hk Hv]; [cbn; set_solver |]. by apply hash_leaf_thash.
  - cbn [thash]. unfold hash_internal.
    destruct (compress_total (compress := poseidon2_compress) (thash a) (thash b)) as (h & -> & Hh); [| | done].
    + apply IHa. intros e He. apply Ht. cbn. set_solver.
    + apply IHb. intros e He. apply Ht. cbn. set_solver.
Qed.

Lemma tfield_Br a b : tfield (Br a b) <-> tfield a /\ tfield b.
Proof. unfold tfield. cbn [entries]. setoid_rewrite elem_of_app. naive_solver. Qed.

Lemma hash_internal_thash a b :
  tfield a -> tfield b -> hash_internal (thash a) (thash b) = Some (thash (Br a b)).
Proof using laws.
  intros Ha%thash_field Hb%thash_field. cbn [thash]. unfold hash_internal.
  by destruct (compress_total (compress := poseidon2_compress) (thash a) (thash b) Ha Hb) as (h & -> & _).
Qed.

Lemma stored_Br m a b :
  stored m (Br a b) <-> m !! thash (Br a b) = Some (enc (Br a b)) /\ stored m a /\ stored m b.
Proof.
  unfold stored. cbn [subtrees]. setoid_rewrite elem_of_cons. setoid_rewrite elem_of_app. split.
  - intros H. split_and!; [apply H; auto | intros; apply H; auto ..].
  - intros (H1 & H2 & H3) u [-> | [?|?]]; auto.
Qed.

Lemma stored_Lf m k v : stored m (Lf k v) <-> m !! thash (Lf k v) = Some [1; k; v].
Proof.
  unfold stored. cbn [subtrees]. setoid_rewrite list_elem_of_singleton. split; [intros H; by apply H | by intros H u ->].
Qed.

(** ** Bits *)

Lemma split_bits_loop_lookup n k i : (i < n)%nat -> split_bits_loop n k !! i = Some (kbit k i).
Proof.
  revert k i. induction n as [|n IH]; intros k i Hi; [lia |]. cbn [split_bits_loop]. destruct i as [|i].
  - cbn. f_equal. unfold kbit. cbn [Z.of_nat]. rewrite Z.bit0_odd, Zmod_odd. by destruct (Z.odd k).
  - cbn [lookup list_lookup]. rewrite IH by lia. f_equal. unfold kbit.
    rewrite <- Z.div2_div, Z.div2_spec, Z.shiftr_spec by lia. f_equal. lia.
Qed.

Lemma split_bits_lookup k i : (i < 256)%nat -> split_bits k !! i = Some (kbit k i).
Proof. apply split_bits_loop_lookup. Qed.

Lemma split_bits_length k : length (split_bits k) = 256%nat.
Proof.
  unfold split_bits. generalize 256%nat. intros n. revert k. induction n; intros k; cbn; auto.
Qed.

Lemma split_bits_lookup_ge k i : (256 <= i)%nat -> split_bits k !! i = None.
Proof. intros. apply lookup_ge_None. by rewrite split_bits_length. Qed.

(** ** Search *)

Fixpoint tree_find (l : nat) (t : tree) (key : Z) : FindResult :=
  match t with
  | E => {| found := false; siblings := []; found_value := 0; not_found_key := key; not_found_value := 0; is_old0 := true |}
  | Lf k v =>
      if k =? key then {| found := true; siblings := []; found_value := v; not_found_key := 0; not_found_value := 0; is_old0 := false |}
      else {| found := false; siblings := []; found_value := 0; not_found_key := k; not_found_value := v; is_old0 := false |}
  | Br a b =>
      let r := tree_find (S l) (if kbit key l then b else a) key in
      {| found := found r; siblings := thash (if kbit key l then a else b) :: siblings r; found_value := found_value r;
         not_found_key := not_found_key r; not_found_value := not_found_value r; is_old0 := is_old0 r |}
  end.

Lemma find_in_tree fuel m t key l :
  (l <= 256)%nat -> (257 <= fuel + l)%nat -> canonical l t -> stored m t -> (forall u, u ∈ subtrees t -> thash u <> 0) ->
  find_key_internal fuel m key (split_bits key) (thash t) l = Ok (tree_find l t key).
Proof.
  revert l t. induction fuel as [|fuel IH]; intros l t Hl Hf Hc Hst Hnz; [lia |]. cbn [find_key_internal].
  destruct t as [|k v|a b].
  - done.
  - rewrite (proj2 (Z.eqb_neq _ _)) by (apply Hnz; cbn; set_solver).
    rewrite (proj1 (stored_Lf _ _ _) Hst). cbn -[Z.eqb]. by destruct (Z.eqb k key).
  - rewrite (proj2 (Z.eqb_neq _ _)) by (apply Hnz; cbn; set_solver).
    destruct (proj1 (stored_Br _ _ _) Hst) as (E & Ha & Hb). rewrite E. cbn [ok_or enc mbind result_bind].
    cbn -[find_key_internal split_bits thash]. pose proof Hc as Hc'. cbn [canonical] in Hc'. destruct Hc' as (Hlt & _ & _ & _ & Hca & Hcb).
    rewrite split_bits_lookup by done. cbn [ok_or mbind result_bind].
    destruct (kbit key l) eqn:Eb.
    + rewrite IH; [done | lia | lia | done | done |]. intros u Hu. apply Hnz, subtrees_Br. auto.
    + rewrite IH; [done | lia | lia | done | done |]. intros u Hu. apply Hnz, subtrees_Br. auto.
Qed.

(** ** Storing one node *)

Lemma store_node U (m : gmap Z (list Z)) t u :
  distinct U -> t ∈ U -> u ∈ U -> u = t \/ m !! thash u = Some (enc u) ->
  <[thash t := enc t]> m !! thash u = Some (enc u).
Proof.
  intros HU Ht Hu Hm. destruct (decide (thash t = thash u)) as [E | Hne].
  - apply (distinct_inj _ HU) in E as ->; [| done | done]. by rewrite lookup_insert_eq.
  - rewrite lookup_insert_ne by done. destruct Hm as [-> | ?]; done.
Qed.

Definition hashes (t : tree) : list Z := thash <$> subtrees t.

Lemma hashes_Br h a b : h ∈ hashes (Br a b) <-> h = thash (Br a b) \/ h ∈ hashes a \/ h ∈ hashes b.
Proof. unfold hashes. cbn [subtrees]. by rewrite fmap_cons, fmap_app, elem_of_cons, elem_of_app. Qed.

(** ** Paths *)

Definition ipath (l : nat) (ss : list Z) : list (nat * Z) := imap (fun i s => ((l + i)%nat, s)) ss.

Lemma ipath_0 ss : ipath 0 ss = imap pair ss.
Proof. done. Qed.

Lemma rev_ipath_cons l s ss : rev (ipath l (s :: ss)) = rev (ipath (S l) ss) ++ [(l, s)].
Proof.
  unfold ipath. rewrite imap_cons. cbn [rev]. rewrite Nat.add_0_r. do 2 f_equal.
  apply imap_ext. intros i x _. cbn. f_equal. lia.
Qed.

Lemma rebuild_app bits F n added p1 p2 st s :
  rebuild bits F n added (p1 ++ p2) st s =
  (st ← rebuild bits F n added p1 st; rebuild bits F n added p2 st) s.
Proof.
  revert st s. induction p1 as [|[i x] p1 IH]; intros st s; [done |]. cbn [app rebuild]. rewrite bind_assoc.
  unfold mbind, M_bind. destruct (rebuild_step bits F n added i x st s) as [[st'|e|] s']; [apply IH | done | done].
Qed.

(** Building the branch above a rebuilt child, without removing anything. *)
Lemma rebuild_step_keep key F n added i sib ro rt (s : NmStore) a b :
  (i < 256)%nat -> tfield a -> tfield b ->
  (if kbit key i then (sib, rt) else (rt, sib)) = (thash a, thash b) ->
  (added = true /\ i = (n - 1)%nat) \/ sib = 0 ->
  rebuild_step (split_bits key) F n added i sib (false, ro, rt) s =
  (Ret (false, ro, thash (Br a b)), nm_set_node (thash (Br a b)) (enc (Br a b)) s).
Proof using laws.
  intros Hi Ha Hb Hab Hskip. unfold rebuild_step. cbn [orb].
  assert ((negb (added && (i =? n - 1)%nat) && (i <? n - 1)%nat && negb (sib =? 0))%bool = false) as ->.
  { destruct Hskip as [[-> ->] | ->]; [by rewrite Nat.eqb_refl | by rewrite andb_false_r]. }
  cbn [andb]. msteps. rewrite split_bits_lookup by done. msteps.
  destruct (kbit key i); injection Hab as -> ->; rewrite hash_internal_thash by done; done.
Qed.

(** The same with the removal of the branch that stood there. *)
Lemma rebuild_step_replace key F n added i sib mixed (s : NmStore) old new a b a' b' :
  (i < 256)%nat -> tfield a -> tfield b -> tfield a' -> tfield b' ->
  (if kbit key i then (sib, old) else (old, sib)) = (thash a, thash b) ->
  (if kbit key i then (sib, new) else (new, sib)) = (thash a', thash b') ->
  (added && (i =? n - 1)%nat)%bool = false -> F !! i = Some sib ->
  mixed = true \/ ((i < n - 1)%nat /\ sib <> 0) ->
  rebuild_step (split_bits key) F n added i sib (mixed, old, new) s =
  (Ret (true, thash (Br a b), thash (Br a' b')),
   nm_set_node (thash (Br a' b')) (enc (Br a' b')) (nm_remove_node (thash (Br a b)) s)).
Proof using laws.
  intros Hi Ha Hb Ha' Hb' Hold Hnew Hlast HF Hmix. unfold rebuild_step. rewrite Hlast. cbn [negb andb].
  assert ((mixed || (i <? n - 1)%nat && negb (sib =? 0))%bool = true) as ->.
  { destruct Hmix as [-> | [Hlt Hne]]; [done |]. rewrite (proj2 (Nat.ltb_lt _ _)), (proj2 (Z.eqb_neq _ _)) by done.
    by rewrite orb_true_r. }
  cbn [andb]. rewrite (proj2 (Nat.ltb_lt i (length F))) by (by eapply lookup_lt_Some). rewrite HF. msteps.
  rewrite split_bits_lookup by done. msteps.
  destruct (kbit key i); injection Hold as -> ->; injection Hnew as Hnew1 Hnew2.
  - rewrite hash_internal_thash by done. msteps. rewrite Hnew1, Hnew2, hash_internal_thash by done. done.
  - rewrite hash_internal_thash by done. msteps. rewrite Hnew1, Hnew2, hash_internal_thash by done. done.
Qed.

(** The branch over the path's child [c] and the other child [o]. *)
Definition branch (bit : bool) (c o : tree) : tree := if bit then Br o c else Br c o.

Lemma subtrees_branch u bit c o : u ∈ subtrees (branch bit c o) <-> u = branch bit c o \/ u ∈ subtrees c \/ u ∈ subtrees o.
Proof. destruct bit; cbn [branch]; rewrite subtrees_Br; tauto. Qed.

Lemma hashes_branch h bit c o : h ∈ hashes (branch bit c o) <-> h = thash (branch bit c o) \/ h ∈ hashes c \/ h ∈ hashes o.
Proof. destruct bit; cbn [branch]; rewrite hashes_Br; tauto. Qed.

(** Every branch is a branch along the key. *)
Lemma tree_cases (P : nat -> tree -> Prop) key :
  (forall l, P l E) -> (forall l k v, P l (Lf k v)) ->
  (forall l c o, P (S l) c -> P l (branch (kbit key l) c o)) -> forall l t, P l t.
Proof.
  intros HE HL HB l t. revert l. induction t as [|k v|a IHa b IHb]; intros l; [done | done |].
  specialize (HB l (if kbit key l then b else a) (if kbit key l then a else b)). unfold branch in HB.
  destruct (kbit key l); by apply HB.
Qed.

(** Storing the branch above a rebuilt child. *)
Lemma rebuild_top U key F n i ro c o m (s : NmStore) :
  let top := branch (kbit key i) c o in
  (i < 256)%nat -> tfield c -> tfield o -> i = (n - 1)%nat \/ thash o = 0 ->
  distinct U -> (forall u, u ∈ subtrees top -> u ∈ U) -> stored m c -> stored m o ->
  exists m',
    rebuild_step (split_bits key) F n true i (thash o) (false, ro, thash c) (nm_with_nodes m s) =
      (Ret (false, ro, thash top), nm_with_nodes m' s) /\
    stored m' top /\ (forall h, h <> thash top -> m' !! h = m !! h).
Proof using laws.
  intros top Hi Hc Ho Hskip HU Hsub Hsc Hso. exists (<[thash top := enc top]> m). split_and!.
  - unfold top, branch. destruct (kbit key i) eqn:Eb; (apply rebuild_step_keep; [done | done | done | by rewrite Eb | tauto]).
  - intros u Hu. assert (top ∈ U) by (apply Hsub, subtrees_self; unfold top, branch; by destruct (kbit key i)).
    eapply store_node; [done | done | by apply Hsub |]. apply subtrees_branch in Hu as [-> | [Hu | Hu]]; auto.
  - intros h Hh. by apply lookup_insert_ne.
Qed.

(** ** Two leaves parting *)

Fixpoint split_sibs (fuel l : nat) (k k' h' : Z) : list Z :=
  match fuel with
  | O => []
  | S fuel => if Bool.eqb (kbit k l) (kbit k' l) then 0 :: split_sibs fuel (S l) k k' h' else [h']
  end.

Lemma split_sibs_nonempty n l k k' h' :
  (l + n)%nat = 256%nat -> agree l k k' -> is_key k -> is_key k' -> k <> k' -> split_sibs n l k k' h' <> [].
Proof.
  intros Hn Hag Hk Hk' Hne. destruct n as [|n]; cbn [split_sibs].
  - assert (l = 256%nat) as -> by lia. intros _. by apply Hne, agree_256.
  - by destruct (Bool.eqb _ _).
Qed.

Lemma tfield_pair k v : in_field k -> in_field v -> tfield (Lf k v).
Proof. intros Hk Hv e He. cbn in He. apply list_elem_of_singleton in He as ->. done. Qed.

Lemma tfield_E : tfield E.
Proof. intros e He. cbn in He. set_solver. Qed.

Lemma tfield_perm t es : entries t ≡ₚ es -> (forall e, e ∈ es -> in_field e.1 /\ in_field e.2) -> tfield t.
Proof. intros Hp H e He. apply H. by rewrite <- Hp. Qed.

Lemma rebuild_split U key F n l v k' v' ro (s : NmStore) :
  let t := split n l key v k' v' in
  let sibs := split_sibs n l key k' (thash (Lf k' v')) in
  (l + n)%nat = 256%nat -> agree l key k' -> in_field key -> in_field v -> in_field k' -> in_field v' -> key <> k' ->
  distinct U -> (forall u, u ∈ subtrees t -> u ∈ U) ->
  nm_nodes s !! thash (Lf key v) = Some [1; key; v] -> nm_nodes s !! thash (Lf k' v') = Some [1; k'; v'] ->
  exists m,
    rebuild (split_bits key) F (l + length sibs) true (rev (ipath l sibs)) (false, ro, thash (Lf key v)) s =
      (Ret (false, ro, thash t), nm_with_nodes m s) /\
    stored m t /\ (forall h, h ∉ hashes t -> m !! h = nm_nodes s !! h).
Proof using laws.
  revert l s. induction n as [|n IH]; intros l s t sibs Hn Hag Hk Hv Hk' Hv' Hne HU Hsub Hm1 Hm2.
  { assert (l = 256%nat) as -> by lia. exfalso. apply Hne, agree_256; [by apply in_field_is_key .. | done]. }
  assert (l < 256)%nat as Hlt by lia. subst t sibs. cbn [split split_sibs] in *.
  destruct (Bool.eqb_spec (kbit key l) (kbit k' l)) as [Heq | Hneq].
  - pose proof (agree_S _ _ _ Hag Heq) as Hag'. set (t := split n (S l) key v k' v') in *.
    set (sibs := split_sibs n (S l) key k' (thash (Lf k' v'))) in *. fold (branch (kbit key l) t E) in *.
    assert (tfield t) as Htf.
    { eapply tfield_perm; [apply entries_split; [lia | done | by apply in_field_is_key .. | done] |].
      intros e. rewrite !elem_of_cons, elem_of_nil. by intros [-> | [-> | []]]. }
    destruct (IH (S l) s) as (m & Hrun & Hst & Hfr); [lia | done .. | | done | done |].
    { intros u Hu. apply Hsub, subtrees_branch. auto. }
    fold t sibs in Hrun, Hst, Hfr. rewrite rev_ipath_cons, rebuild_app. cbn [length].
    replace (l + S (length sibs))%nat with (S l + length sibs)%nat by lia.
    rewrite (bind_run _ _ _ _ _ Hrun). cbn [rebuild].
    destruct (rebuild_top U key F (S l + length sibs) l ro t E m s) as (m' & Hstep & Hst' & Hfr');
      [done | done | apply tfield_E | by right | done | done | done | by intros u Hu%subtrees_E |].
    cbn [thash] in Hstep. rewrite (bind_run _ _ _ _ _ Hstep). exists m'. split_and!; [done | done |].
    intros h Hh. rewrite hashes_branch in Hh. rewrite Hfr' by tauto. apply Hfr. tauto.
  - cbn [length]. change (ipath l [thash (Lf k' v')]) with (imap (fun i s => ((l + i)%nat, s)) [thash (Lf k' v')]).
    cbn [imap rev app rebuild]. rewrite Nat.add_0_r. fold (branch (kbit key l) (Lf key v) (Lf k' v')) in *.
    destruct (rebuild_top U key F (l + 1) l ro (Lf key v) (Lf k' v') (nm_nodes s) s) as (m' & Hstep & Hst' & Hfr');
      [done | by apply tfield_pair | by apply tfield_pair | left; lia | done | done | by apply stored_Lf | by apply stored_Lf |].
    replace (nm_with_nodes (nm_nodes s) s) with s in Hstep by (by destruct s).
    rewrite (bind_run _ _ _ _ _ Hstep). exists m'. split_and!; [done | done |].
    intros h Hh. apply Hfr'. rewrite hashes_branch in Hh. tauto.
Qed.

(** ** Insertion along a path *)

(** The siblings the rebuilding loop runs over. *)
Fixpoint ins_sibs (l : nat) (t : tree) (k : Z) : list Z :=
  match t with
  | E => []
  | Lf k' v' => split_sibs (256 - l) l k k' (thash (Lf k' v'))
  | Br a b => if kbit k l then thash a :: ins_sibs (S l) b k else thash b :: ins_sibs (S l) a k
  end.

Definition is_Br (t : tree) : bool := match t with Br _ _ => true | _ => false end.

(** Removing the branch [old] and storing [new] above a rebuilt child keeps every other
    subtree of the new tree. *)
Lemma stored_replace U (m : gmap Z (list Z)) old new u :
  distinct U -> old ∈ U -> new ∈ U -> u ∈ U -> u <> old -> u = new \/ m !! thash u = Some (enc u) ->
  <[thash new := enc new]> (delete (thash old) m) !! thash u = Some (enc u).
Proof.
  intros HU Ho Hn Hu Hne Hm. eapply store_node; [done | done | done |].
  destruct Hm as [-> | Hm]; [by left | right]. rewrite lookup_delete_ne; [done |].
  intros E. apply Hne. symmetry. by apply (distinct_inj _ HU).
Qed.

(** A new subtree is not an old branch that lacks the key. *)
Lemma insert_not_old l a b k v u c :
  canonical (S l) c -> (l < 256)%nat -> prefixed (S l) k c -> is_key k -> k ∉ keys (Br a b) -> c = a \/ c = b ->
  u ∈ subtrees (insert_tree (S l) c k v) -> u <> Br a b.
Proof.
  intros Hc Hl Hp Hk Hnk Hchild Hu ->. apply subtrees_insert in Hu as [? | Hsz%subtrees_size]; [done | | lia | done .. |].
  - cbn [tsize] in Hsz. destruct Hchild as [-> | ->]; lia.
  - destruct Hchild as [-> | ->]; rewrite keys_Br in Hnk; tauto.
Qed.

Lemma not_in_hashes U u t :
  distinct U -> u ∈ U -> (forall w, w ∈ subtrees t -> w ∈ U) -> u ∉ subtrees t -> thash u ∉ hashes t.
Proof.
  intros HU Hu Ht Hnin. unfold hashes. rewrite list_elem_of_fmap. intros (w & E & Hw).
  apply (distinct_inj _ HU) in E as ->; auto.
Qed.

(** One level up: the child [c] has become [c']. *)
Lemma rebuild_branch U key F n added l c o c' m mixed (s : NmStore) :
  let old := branch (kbit key l) c o in
  let new := branch (kbit key l) c' o in
  (l < 256)%nat -> tfield c -> tfield o -> tfield c' -> F !! l = Some (thash o) ->
  (added && (l =? n - 1)%nat)%bool = false -> mixed = true \/ ((l < n - 1)%nat /\ thash o <> 0) ->
  distinct U -> (forall u, u ∈ subtrees old -> u ∈ U) -> (forall u, u ∈ subtrees new -> u ∈ U) ->
  stored m c' -> stored (nm_nodes s) o -> (forall h, h ∉ hashes c -> h ∉ hashes c' -> m !! h = nm_nodes s !! h) ->
  old ∉ subtrees c' -> old <> new -> (forall u, u ∈ subtrees o -> (u ∉ subtrees c) /\ (u ∉ subtrees c')) ->
  exists m',
    rebuild_step (split_bits key) F n added l (thash o) (mixed, thash c, thash c') (nm_with_nodes m s) =
      (Ret (true, thash old, thash new), nm_with_nodes m' s) /\
    stored m' new /\ (forall h, h ∉ hashes old -> h ∉ hashes new -> m' !! h = nm_nodes s !! h).
Proof using laws.
  intros old new Hlt Hc Ho Hc' HF Hlast Hmix HU Hold Hnew Hstc Hsto Hfr Hnin Hne Hdisj.
  exists (<[thash new := enc new]> (delete (thash old) m)).
  assert (old ∈ U) as HoU by (apply Hold, subtrees_self; unfold old, branch; by destruct (kbit key l)).
  assert (new ∈ U) as HnU by (apply Hnew, subtrees_self; unfold new, branch; by destruct (kbit key l)).
  assert (forall u, u ∈ subtrees o -> u <> old) as Hoo.
  { intros u Hu%subtrees_size ->. unfold old, branch in Hu. destruct (kbit key l); cbn [tsize] in Hu; lia. }
  split_and!.
  - subst old new. unfold branch. destruct (kbit key l) eqn:Eb;
      (apply rebuild_step_replace; [done | done | done | done | done | by rewrite Eb | by rewrite Eb | done | done | done]).
  - intros u Hu. pose proof (Hnew u Hu) as HuU. apply subtrees_branch in Hu as [-> | [Hu | Hu]].
    + apply (stored_replace U); auto.
    + apply (stored_replace U); auto. intros ->. done.
    + apply (stored_replace U); auto. right. rewrite Hfr; [by apply Hsto | |].
      * apply (not_in_hashes U); [done | done | | by apply Hdisj]. intros w Hw. apply Hold, subtrees_branch. auto.
      * apply (not_in_hashes U); [done | done | | by apply Hdisj]. intros w Hw. apply Hnew, subtrees_branch. auto.
  - intros h H1 H2. unfold old, new in H1, H2. rewrite hashes_branch in H1, H2. fold old in H1. fold new in H2.
    rewrite lookup_insert_ne by (intros <-; tauto). rewrite lookup_delete_ne by (intros <-; tauto). apply Hfr; tauto.
Qed.

(** The two children of a branch share no subtree, before and after an insertion. *)
Lemma branch_disjoint l key c o :
  canonical l (branch (kbit key l) c o) ->
  (forall k, k ∈ keys c -> kbit k l = kbit key l) /\ (forall k, k ∈ keys o -> kbit k l = negb (kbit key l)) /\
  canonical (S l) c /\ canonical (S l) o /\ (l < 256)%nat /\ (2 <= length (entries c) + length (entries o))%nat.
Proof. unfold branch. destruct (kbit key l); cbn [canonical negb]; intros (? & ? & ? & ? & ? & ?); (split_and!; [done .. | lia]). Qed.

Lemma disjoint_subtrees l o c (x : bool) u :
  canonical (S l) o -> (forall k, k ∈ keys o -> kbit k l = negb x) -> (forall k, k ∈ keys c -> kbit k l = x) ->
  u ∈ subtrees o -> u ∉ subtrees c.
Proof.
  intros Ho Ko Kc Hu Hu'. destruct (subtrees_nonempty _ _ _ Ho Hu) as [k Hk].
  pose proof (Ko k (subtrees_keys _ _ _ Hu Hk)) as E1. pose proof (Kc k (subtrees_keys _ _ _ Hu' Hk)) as E2.
  rewrite E1 in E2. by destruct x.
Qed.

Lemma insert_branch l c o key v :
  insert_tree l (branch (kbit key l) c o) key v = branch (kbit key l) (insert_tree (S l) c key v) o.
Proof. unfold branch. destruct (kbit key l) eqn:Eb; cbn [insert_tree]; by rewrite Eb. Qed.

Lemma ins_sibs_branch l c o key : ins_sibs l (branch (kbit key l) c o) key = thash o :: ins_sibs (S l) c key.
Proof. unfold branch. destruct (kbit key l) eqn:Eb; cbn [ins_sibs]; by rewrite Eb. Qed.

Lemma tree_find_along l c o key :
  tree_find l (branch (kbit key l) c o) key =
  let r := tree_find (S l) c key in
  {| found := found r; siblings := thash o :: siblings r; found_value := found_value r;
     not_found_key := not_found_key r; not_found_value := not_found_value r; is_old0 := is_old0 r |}.
Proof. unfold branch. destruct (kbit key l) eqn:Eb; cbn [tree_find]; by rewrite Eb. Qed.

Lemma prefixed_branch l c o key :
  canonical l (branch (kbit key l) c o) -> prefixed l key (branch (kbit key l) c o) -> prefixed (S l) key c.
Proof. unfold branch. destruct (kbit key l) eqn:Eb; intros Hc Hp; pose proof (prefixed_child _ _ _ _ Hc Hp) as H; by rewrite Eb in H. Qed.

Section insertion.
Variables (U : list tree) (key v : Z) (F : list Z) (added mixed : bool) (ro : Z) (s : NmStore).

(** What the loop of [insert_leaf] starts from, below level [l]. *)
Record ins_pre (l : nat) (t : tree) : Prop := {
  ip_level : (l <= 256)%nat;
  ip_canonical : canonical l t;
  ip_prefixed : prefixed l key t;
  ip_tfield : tfield t;
  ip_absent : key ∉ keys t;
  ip_old : forall u, u ∈ subtrees t -> u ∈ U;
  ip_new : forall u, u ∈ subtrees (insert_tree l t key v) -> u ∈ U;
  ip_stored : stored (nm_nodes s) t;
  ip_found : forall i, (i < length (siblings (tree_find l t key)))%nat -> F !! (l + i)%nat = siblings (tree_find l t key) !! i;
  ip_added : added = negb (is_old0 (tree_find l t key));
  ip_init : if is_old0 (tree_find l t key) then ro = 0 /\ (is_Br t = true -> mixed = true)
            else ro = thash (Lf (not_found_key (tree_find l t key)) (not_found_value (tree_find l t key))) /\ mixed = false;
}.

(** What it ends with. *)
Definition rebuilt (l : nat) (t : tree) : Prop :=
  exists m mixed',
    rebuild (split_bits key) F (l + length (ins_sibs l t key)) added (rev (ipath l (ins_sibs l t key))) (mixed, ro, thash (Lf key v)) s =
      (Ret (mixed', thash t, thash (insert_tree l t key v)), nm_with_nodes m s) /\
    (if is_Br t then mixed' = true else mixed' = mixed) /\
    stored m (insert_tree l t key v) /\ (forall h, h ∉ hashes t -> h ∉ hashes (insert_tree l t key v) -> m !! h = nm_nodes s !! h).

Hypotheses (Hk : in_field key) (Hv : in_field v) (HU : distinct U).

Lemma ins_pre_child l c o : ins_pre l (branch (kbit key l) c o) -> ins_pre (S l) c.
Proof.
  intros [Hl Hc Hp Htf Hnk Ho Hn Hst HF Ha Hi]. rewrite insert_branch in Hn. rewrite tree_find_along in HF, Ha, Hi.
  cbn [siblings is_old0 not_found_key not_found_value] in *. pose proof (prefixed_branch _ _ _ _ Hc Hp) as Hp'.
  destruct (branch_disjoint _ _ _ _ Hc) as (_ & _ & Hcc & _ & Hlt & _). split; [lia | done | done | | | | | | | done |].
  - intros e He. apply Htf. unfold branch. destruct (kbit key l); cbn [entries]; apply elem_of_app; auto.
  - intros Hin. apply Hnk. unfold branch. destruct (kbit key l); apply keys_Br; auto.
  - intros u Hu. apply Ho, subtrees_branch. auto.
  - intros u Hu. apply Hn, subtrees_branch. auto.
  - intros u Hu. apply Hst, subtrees_branch. auto.
  - intros i Hi'. specialize (HF (S i)). replace (S l + i)%nat with (l + S i)%nat by lia. apply HF. cbn [length]. lia.
  - destruct (is_old0 (tree_find (S l) c key)); [| done]. destruct Hi as [-> Hmx]. split; [done |]. intros _. apply Hmx.
    unfold branch. by destruct (kbit key l).
Qed.

(** A leaf below a branch parts from the key, and has a sibling. *)
Lemma leaf_siblings l k0 v0 o :
  ins_pre l (branch (kbit key l) (Lf k0 v0) o) -> o <> E /\ ins_sibs (S l) (Lf k0 v0) key <> [].
Proof using Hk.
  intros H. destruct (branch_disjoint _ _ _ _ (ip_canonical _ _ H)) as (_ & _ & _ & _ & Hlt & H2).
  apply ins_pre_child in H as [_ _ Hp _ Hnk _ _ _ _ _ _]. split; [intros ->; cbn in H2; lia |].
  destruct (Hp k0) as [Hk0 Hag]; [by apply keys_Lf |]. rewrite keys_Lf in Hnk.
  apply split_sibs_nonempty; [lia | intros j Hj; symmetry; by apply Hag | by apply in_field_is_key | done | done].
Qed.

(** Which rounds of the loop remove the old node. *)
Lemma rebuild_mixed l c o mixed' :
  ins_pre l (branch (kbit key l) c o) -> (if is_Br c then mixed' = true else mixed' = mixed) ->
  let n := (S l + length (ins_sibs (S l) c key))%nat in
  (added && (l =? n - 1)%nat)%bool = false /\ (mixed' = true \/ ((l < n - 1)%nat /\ thash o <> 0)).
Proof using Hk HU.
  intros H Hmx. cbv zeta. pose proof (ip_added _ _ H) as Ha. pose proof (ip_init _ _ H) as Hi. rewrite tree_find_along in Ha, Hi.
  cbn [is_old0] in Ha, Hi. destruct c as [|k0 v0|c1 c2]; cbn [is_Br] in Hmx.
  - rewrite Ha. split; [done | left]. rewrite Hmx. apply Hi. unfold branch. by destruct (kbit key l).
  - destruct (leaf_siblings _ _ _ _ H) as [Hoe Hne]. destruct (ins_sibs (S l) (Lf k0 v0) key) as [|x xs] eqn:E; [done |]. cbn [length].
    rewrite (proj2 (Nat.eqb_neq l _)) by lia. rewrite andb_false_r. split; [done | right]. split; [lia |].
    apply (distinct_nonzero _ HU), (ip_old _ _ H), subtrees_branch. right; right. by apply subtrees_self.
  - split; [| by left]. cbn [ins_sibs]. rewrite (proj2 (Nat.eqb_neq l _)); [by rewrite andb_false_r |].
    destruct (kbit key (S l)); cbn [length]; lia.
Qed.

Lemma rebuilt_branch l c o : ins_pre l (branch (kbit key l) c o) -> rebuilt (S l) c -> rebuilt l (branch (kbit key l) c o).
Proof using laws Hk Hv HU.
  intros H (m & mixed' & Hrun & Hmx & Hstc & Hfr). destruct (rebuild_mixed _ _ _ _ H Hmx) as [Hlast Hmix].
  pose proof (ins_pre_child _ _ _ H) as [_ _ Hp' Htc Hnkc _ _ _ _ _ _]. destruct H as [Hl Hc Hp Htf Hnk Ho Hn Hst HF _ _].
  destruct (branch_disjoint _ _ _ _ Hc) as (Kc & Ko & Hcc & Hco & Hlt & _). pose proof (in_field_is_key _ Hk) as Hkk.
  pose proof (insert_entries (S l) c key v ltac:(lia) Hcc Hp' Hkk Hnkc) as Hperm.
  assert (tfield o) as Hto by (unfold branch in Htf; destruct (kbit key l); apply tfield_Br in Htf; tauto).
  assert (tfield (insert_tree (S l) c key v)) as Htc'.
  { eapply tfield_perm; [exact Hperm |]. intros e. rewrite elem_of_cons. intros [-> | He]; [done | by apply Htc]. }
  unfold rebuilt. rewrite insert_branch in *. rewrite ins_sibs_branch, tree_find_along in *. cbn [siblings] in HF.
  rewrite rev_ipath_cons, rebuild_app. cbn [length].
  replace (l + S (length (ins_sibs (S l) c key)))%nat with (S l + length (ins_sibs (S l) c key))%nat by lia.
  rewrite (bind_run _ _ _ _ _ Hrun). cbn [rebuild].
  destruct (rebuild_branch U key F (S l + length (ins_sibs (S l) c key)) added l c o (insert_tree (S l) c key v) m mixed' s)
    as (m' & Hstep & Hst' & Hfr'); try done.
  - specialize (HF 0%nat). rewrite Nat.add_0_r in HF. apply HF. cbn [length]. lia.
  - intros u Hu. apply Hst, subtrees_branch. auto.
  - intros Hin. apply subtrees_insert in Hin as [? | Hsz%subtrees_size]; [done | | lia | done | done | done | done].
    unfold branch in Hsz. destruct (kbit key l); cbn [tsize] in Hsz; lia.
  - intros Heq. apply Hnk. rewrite Heq. assert (key ∈ keys (insert_tree (S l) c key v)) by (unfold keys; rewrite Hperm; cbn; set_solver).
    unfold branch. destruct (kbit key l); apply keys_Br; auto.
  - intros u Hu. split; eapply disjoint_subtrees; try done.
    intros k0 Hk0. apply insert_keys in Hk0 as [-> | ?]; [done | by apply Kc | lia | done ..].
  - exists m', true. rewrite (bind_run _ _ _ _ _ Hstep). split_and!; [done | | done | done]. unfold branch. by destruct (kbit key l).
Qed.

Lemma rebuild_insert l t : nm_nodes s !! thash (Lf key v) = Some [1; key; v] -> ins_pre l t -> rebuilt l t.
Proof using laws Hk Hv HU.
  intros Hm. revert l t. apply (tree_cases (fun l t => ins_pre l t -> rebuilt l t) key).
  - intros l H. pose proof (ip_init _ _ H) as Hi. cbn in Hi. exists (nm_nodes s), mixed.
    split_and!; [destruct Hi as [-> _]; by destruct s | done | | done]. intros u Hu. apply subtrees_Lf in Hu as ->. done.
  - intros l k' v' [Hl Hc Hp Htf Hnk Ho Hn Hst HF Ha Hi]. cbn [tree_find] in *. rewrite keys_Lf in Hnk.
    rewrite (proj2 (Z.eqb_neq k' key)) in * by congruence. cbn [is_old0 not_found_key not_found_value negb] in *.
    destruct Hi as [Hro Hmx]. destruct (Hp k') as [_ Hag]; [by apply keys_Lf |].
    destruct (Htf (k', v')) as [Hk' Hv']; [by apply list_elem_of_singleton |].
    destruct (rebuild_split U key F (256 - l) l v k' v' (thash (Lf k' v')) s) as (m & Hrun & Hst' & Hfr);
      [lia | intros j Hj; symmetry; by apply Hag | done .. | by apply stored_Lf |].
    exists m, false. rewrite Hmx, Hro, Ha. split_and!; [exact Hrun | done | exact Hst' | intros h _; apply Hfr].
  - intros l c o IH H. apply rebuilt_branch; [done |]. apply IH. by eapply ins_pre_child.
Qed.

End insertion.

(** ** What a search finds *)

Lemma tree_find_found l t key :
  canonical l t -> found (tree_find l t key) = bool_decide (key ∈ keys t).
Proof.
  revert l. induction t as [|k v|a IHa b IHb]; intros l Hc; cbn [tree_find].
  - symmetry. apply bool_decide_eq_false. by intros ?%keys_E.
  - destruct (Z.eqb_spec k key) as [-> | Hne]; cbn [found]; symmetry.
    + apply bool_decide_eq_true. by apply keys_Lf.
    + apply bool_decide_eq_false. rewrite keys_Lf. congruence.
  - cbn [canonical] in Hc. destruct Hc as (_ & Ka & Kb & _ & Ha & Hb). cbn [found].
    destruct (kbit key l) eqn:Ek.
    + rewrite (IHb (S l)) by done. apply bool_decide_ext. rewrite keys_Br. split; [auto |].
      intros [Hin | ?]; [| done]. apply Ka in Hin. congruence.
    + rewrite (IHa (S l)) by done. apply bool_decide_ext. rewrite keys_Br. split; [auto |].
      intros [? | Hin]; [done |]. apply Kb in Hin. congruence.
Qed.

Lemma tree_find_value l t key :
  canonical l t -> key ∈ keys t -> (key, found_value (tree_find l t key)) ∈ entries t.
Proof.
  revert l. induction t as [|k v|a IHa b IHb]; intros l Hc; cbn [tree_find].
  - by rewrite keys_E.
  - rewrite keys_Lf. intros ->. rewrite Z.eqb_refl. cbn. set_solver.
  - cbn [canonical] in Hc. destruct Hc as (_ & Ka & Kb & _ & Ha & Hb). rewrite keys_Br. cbn [found_value entries].
    rewrite elem_of_app. destruct (kbit key l) eqn:Ek; (intros [Hin | Hin]).
    + apply Ka in Hin. congruence.
    + right. by apply (IHb (S l)).
    + left. by apply (IHa (S l)).
    + apply Kb in Hin. congruence.
Qed.

(** The siblings of the rebuilding loop are the search's, extended when the search ended
    at another leaf. *)
Lemma ins_sibs_find l t key :
  (l <= 256)%nat -> canonical l t -> key ∉ keys t -> prefixed l key t ->
  let r := tree_find l t key in
  let l' := (l + length (siblings r))%nat in
  ins_sibs l t key = siblings r ++
    (if is_old0 r then [] else split_sibs (256 - l') l' key (not_found_key r) (thash (Lf (not_found_key r) (not_found_value r)))) /\
  (l' <= 256)%nat /\
  (is_old0 r = false -> (not_found_key r, not_found_value r) ∈ entries t /\ agree l' key (not_found_key r)).
Proof.
  revert l. induction t as [|k v|a IHa b IHb]; intros l Hl Hc Hnk Hp; cbv zeta.
  - cbn [tree_find ins_sibs siblings is_old0 length app]. split_and!; [done | lia | done].
  - cbn [tree_find]. rewrite keys_Lf in Hnk. rewrite (proj2 (Z.eqb_neq k key)) by congruence.
    cbn [siblings is_old0 not_found_key not_found_value length app]. rewrite Nat.add_0_r.
    destruct (Hp k) as [_ Hag]; [by apply keys_Lf |].
    split_and!; [done | lia |]. intros _. split; [cbn; set_solver |]. intros j Hj. symmetry. by apply Hag.
  - pose proof (prefixed_child _ _ _ _ Hc Hp) as Hp'. cbn [canonical] in Hc. destruct Hc as (Hlt & _ & _ & _ & Ha & Hb).
    rewrite keys_Br in Hnk. cbn [tree_find ins_sibs siblings is_old0 not_found_key not_found_value entries length].
    setoid_rewrite elem_of_app. destruct (kbit key l).
    + destruct (IHb (S l)) as (E & Hle & Hold); [lia | done | tauto | done |].
      rewrite E. replace (l + S (length (siblings (tree_find (S l) b key))))%nat with (S l + length (siblings (tree_find (S l) b key)))%nat by lia.
      split_and!; [done | done |]. intros Ho. destruct (Hold Ho). auto.
    + destruct (IHa (S l)) as (E & Hle & Hold); [lia | done | tauto | done |].
      rewrite E. replace (l + S (length (siblings (tree_find (S l) a key))))%nat with (S l + length (siblings (tree_find (S l) a key)))%nat by lia.
      split_and!; [done | done |]. intros Ho. destruct (Hold Ho). auto.
Qed.

Lemma extend_siblings_spec fuel n sibs k k' h' :
  (length sibs + n)%nat = 256%nat -> (n <= fuel)%nat -> agree (length sibs) k k' -> is_key k -> is_key k' -> k <> k' ->
  extend_siblings fuel (split_bits k') (split_bits k) sibs ++ [h'] = sibs ++ split_sibs n (length sibs) k k' h'.
Proof.
  revert n sibs. induction fuel as [|fuel IH]; intros n sibs Hn Hf Hag Hk Hk' Hne.
  { exfalso. assert (length sibs = 256%nat) as E by lia. rewrite E in Hag. by apply Hne, agree_256. }
  destruct n as [|n].
  { exfalso. assert (length sibs = 256%nat) as E by lia. rewrite E in Hag. by apply Hne, agree_256. }
  cbn [extend_siblings split_sibs]. rewrite !split_bits_lookup by lia.
  assert (Bool.eqb (kbit k' (length sibs)) (kbit k (length sibs)) = Bool.eqb (kbit k (length sibs)) (kbit k' (length sibs))) as ->
    by (destruct (kbit k (length sibs)), (kbit k' (length sibs)); done).
  destruct (Bool.eqb_spec (kbit k (length sibs)) (kbit k' (length sibs))) as [Heq | Hneq]; [| done].
  assert (length (sibs ++ [0]) = S (length sibs)) as El by (rewrite length_app; cbn; lia).
  rewrite (IH n (sibs ++ [0])); [by rewrite El, <- app_assoc | lia | lia | rewrite El; by apply agree_S | done | done | done].
Qed.

End representation.
