(* ===== verification/NonMembershipOps.v ===== *)
(** * The non-membership contract is a finite map

    The abstract state of the contract is the finite map of its entries.  The stored
    root and nodes are those of the canonical tree of that map, so that the root
    does not depend on the history; insertion and deletion are those of the map;
    the proofs [find_key] gives out are the ones [verify_non_membership] accepts. *)

From S2P Require Import Prelude Ints Amounts Poseidon2Tables Hashes Soroban MerkleSpec Smt AspNonMembership NonMembershipFacts.

(** ** The tree of a map *)

Definition tree_of (es : list (Z * Z)) : tree := foldr (fun e t => insert_tree 0 t e.1 e.2) E es.

Definition blocked (m : gmap Z Z) : tree := tree_of (map_to_list m).

Definition field_map (m : gmap Z Z) : Prop := forall k v, m !! k = Some v -> in_field k /\ in_field v.

Lemma prefixed_0 p t : (forall k, k ∈ keys t -> is_key k) -> prefixed 0 p t.
Proof. intros H k Hk. split; [by apply H |]. intros j Hj. lia. Qed.

Lemma tree_of_ok es :
  NoDup es.*1 -> (forall k, k ∈ es.*1 -> is_key k) -> canonical 0 (tree_of es) /\ entries (tree_of es) ≡ₚ es.
Proof.
  induction es as [|[k v] es IH]; intros Hnd Hk; [done |]. rewrite fmap_cons, NoDup_cons in Hnd. destruct Hnd as [Hni Hnd].
  destruct IH as [Hc He]; [done | intros; apply Hk; rewrite fmap_cons; by right |]. cbn [tree_of foldr fst snd]. fold (tree_of es).
  assert (forall x, x ∈ keys (tree_of es) <-> x ∈ es.*1) as Hkeys by (intros x; unfold keys; by rewrite He).
  assert (prefixed 0 k (tree_of es)) as Hp.
  { apply prefixed_0. intros x Hx. apply Hk. rewrite fmap_cons. right. by apply Hkeys. }
  assert (is_key k) as Hkk by (apply Hk; rewrite fmap_cons; by left).
  split.
  - apply canonical_insert; [lia | done | done | done | by rewrite Hkeys].
  - rewrite insert_entries; [by rewrite He | lia | done | done | done | by rewrite Hkeys].
Qed.

Section maps.
Variable m : gmap Z Z.
Hypothesis Hm : field_map m.

Lemma field_map_keys k : k ∈ (map_to_list m).*1 -> is_key k.
Proof using Hm.
  intros ([k' v] & -> & Hin%elem_of_map_to_list)%list_elem_of_fmap. by apply in_field_is_key, (Hm _ v).
Qed.

Lemma blocked_canonical : canonical 0 (blocked m).
Proof using Hm. apply tree_of_ok; [apply NoDup_fst_map_to_list | apply field_map_keys]. Qed.

Lemma blocked_entries e : e ∈ entries (blocked m) <-> m !! e.1 = Some e.2.
Proof using Hm.
  unfold blocked. rewrite (proj2 (tree_of_ok _ (NoDup_fst_map_to_list m) field_map_keys)).
  destruct e. apply elem_of_map_to_list.
Qed.

Lemma blocked_keys k : k ∈ keys (blocked m) <-> is_Some (m !! k).
Proof using Hm.
  unfold keys. rewrite list_elem_of_fmap. setoid_rewrite blocked_entries. split.
  - intros ([k' v] & -> & H). eauto.
  - intros [v H]. by exists (k, v).
Qed.

Lemma blocked_prefixed p : prefixed 0 p (blocked m).
Proof using Hm. apply prefixed_0. intros k [v Hk]%blocked_keys. by apply in_field_is_key, (Hm _ v). Qed.

Lemma blocked_field : tfield (blocked m).
Proof using Hm. intros e He%blocked_entries. by apply Hm. Qed.

(** Any canonical tree with the entries of the map is its tree. *)
Lemma blocked_unique t : canonical 0 t -> (forall e, e ∈ entries t <-> m !! e.1 = Some e.2) -> t = blocked m.
Proof using Hm.
  intros Hc He. apply (canonical_unique 0); [done | apply blocked_canonical |]. intros e. by rewrite He, blocked_entries.
Qed.

End maps.

Lemma field_map_insert m k v : field_map m -> in_field k -> in_field v -> field_map (<[k := v]> m).
Proof. intros Hm Hk Hv k' v'. rewrite lookup_insert_Some. intros [[<- <-] | [_ H]]; [done | by apply Hm]. Qed.

Lemma field_map_delete m k : field_map m -> field_map (delete k m).
Proof. intros Hm k' v' [_ H]%lookup_delete_Some. by apply Hm. Qed.

Lemma blocked_insert m k v :
  field_map m -> in_field k -> in_field v -> m !! k = None -> insert_tree 0 (blocked m) k v = blocked (<[k := v]> m).
Proof.
  intros Hm Hk Hv Hnone. pose proof (in_field_is_key _ Hk) as Hkk.
  assert (k ∉ keys (blocked m)) as Hnk by (rewrite blocked_keys by done; rewrite Hnone; by intros [? ?]).
  apply blocked_unique; [by apply field_map_insert | |].
  - apply canonical_insert; [lia | by apply blocked_canonical | by apply blocked_prefixed | done | done].
  - intros [k' v']. rewrite insert_entries; [| lia | by apply blocked_canonical | by apply blocked_prefixed | done | done].
    rewrite elem_of_cons, blocked_entries by done. cbn [fst snd]. rewrite lookup_insert_Some. split.
    + intros [[= -> ->] | H]; [by left |]. right. split; [| done]. intros ->. congruence.
    + intros [[-> ->] | [_ H]]; [by left | by right].
Qed.

Lemma blocked_delete m k : field_map m -> delete_tree 0 (blocked m) k = blocked (delete k m).
Proof.
  intros Hm. pose proof (blocked_canonical m Hm) as Hc. apply blocked_unique; [by apply field_map_delete | by apply canonical_delete |].
  intros [k' v']. rewrite (delete_entries 0) by done. rewrite list_elem_of_filter, blocked_entries by done. cbn [fst snd].
  rewrite lookup_delete_Some. naive_solver.
Qed.

Section contract.
Context {host : HostPoseidon2} {laws : HostPoseidon2Laws host}.

Lemma blocked_find m k :
  field_map m -> let r := tree_find 0 (blocked m) k in
  found r = bool_decide (is_Some (m !! k)) /\ (forall v, m !! k = Some v -> found_value r = v).
Proof.
  intros Hm. cbv zeta. pose proof (blocked_canonical m Hm) as Hc. split.
  - rewrite tree_find_found by done. apply bool_decide_ext. by apply blocked_keys.
  - intros v Hv. pose proof (tree_find_value 0 (blocked m) k Hc) as H.
    rewrite blocked_keys, blocked_entries in H by done. specialize (H ltac:(eauto)). cbn in H. congruence.
Qed.

(** ** The invariant *)

Record nm_ok (m : gmap Z Z) (s : NmStore) : Prop := {
  nm_ok_field : field_map m;
  nm_ok_root : nm_root s = Some (thash (blocked m));
  nm_ok_stored : stored (nm_nodes s) (blocked m);
  nm_ok_nonzero : forall u, u ∈ subtrees (blocked m) -> thash u <> 0;
}.

Lemma nm_ok_find m s key :
  nm_ok m s ->
  find_key_internal find_fuel (nm_nodes s) key (split_bits key) (thash (blocked m)) 0 = Ok (tree_find 0 (blocked m) key).
Proof. intros [? ? ? ?]. apply find_in_tree; [lia | unfold find_fuel; lia | by apply blocked_canonical | done | done]. Qed.

Lemma nm_ok_same m s s' :
  nm_ok m s -> nm_root s' = nm_root s -> nm_nodes s' = nm_nodes s -> nm_ok m s'.
Proof. intros [] Er En. split; [done | by rewrite Er | by rewrite En | done]. Qed.

Lemma nm_ok_init admin s : nm_ok ∅ (nm_set_root 0 (nm_set_admin admin s)).
Proof.
  assert (blocked ∅ = E) as EE by (unfold blocked; by rewrite map_to_list_empty). split.
  - intros k v. by rewrite lookup_empty.
  - by rewrite EE.
  - rewrite EE. intros u Hu%subtrees_E. done.
  - rewrite EE. intros u Hu%subtrees_E. done.
Qed.

(** ** Insertion *)

(** Everything [insert_leaf] does after the search found the key absent. *)
Definition insert_state (m : gmap Z Z) (s : NmStore) (key value : Z) (s' : NmStore) : Prop :=
  exists nodes,
    s' = nm_publish (LeafInsertedEvent key value (thash (blocked (<[key := value]> m))))
           (nm_set_root (thash (blocked (<[key := value]> m))) (nm_with_nodes nodes s)) /\
    nm_ok (<[key := value]> m) s'.

Lemma stored_set_leaf U m t key v :
  distinct U -> Lf key v ∈ U -> (forall u, u ∈ subtrees t -> u ∈ U) -> stored m t ->
  stored (<[thash (Lf key v) := [1; key; v]]> m) t.
Proof. intros HU Hl Hs Hst u Hu. eapply (store_node U _ (Lf key v)); auto. Qed.

Lemma insert_prep m key :
  field_map m -> m !! key = None -> is_key key ->
  let r := tree_find 0 (blocked m) key in
  (is_old0 r = false ->
    extend_siblings 256 (split_bits (not_found_key r)) (split_bits key) (siblings r) ++
      [thash (Lf (not_found_key r) (not_found_value r))] = ins_sibs 0 (blocked m) key /\
    in_field (not_found_key r) /\ in_field (not_found_value r)) /\
  (is_old0 r = true -> siblings r = ins_sibs 0 (blocked m) key).
Proof using laws.
  intros Hm Hnone Hk. cbv zeta.
  assert (key ∉ keys (blocked m)) as Hnk by (rewrite blocked_keys by done; rewrite Hnone; by intros [? ?]).
  destruct (ins_sibs_find 0 (blocked m) key) as (Esib & Hle & Hold); [lia | by apply blocked_canonical | done | by apply blocked_prefixed |].
  cbn [Nat.add] in *. set (r := tree_find 0 (blocked m) key) in *. split.
  - intros Ho. rewrite Ho in Esib. destruct (Hold Ho) as [He Hag]. rewrite blocked_entries in He by done. cbn in He.
    destruct (Hm _ _ He) as [Hk' Hv']. split; [| done]. rewrite Esib.
    apply extend_siblings_spec; [lia | lia | done | done | by apply in_field_is_key | congruence].
  - intros Ho. rewrite Ho, app_nil_r in Esib. done.
Qed.

Lemma siblings_Br_nonempty l t key : is_Br t = true -> siblings (tree_find l t key) <> [].
Proof. by destruct t. Qed.

Lemma nm_insert_run m s authorised admin key value :
  nm_ok m s -> nm_admin s = Some admin -> authorised admin = true -> m !! key = None -> in_field key -> in_field value ->
  distinct (subtrees (blocked m) ++ subtrees (blocked (<[key := value]> m))) ->
  exists s', nm_insert_leaf authorised key value s = (Ret tt, s') /\ insert_state m s key value s'.
Proof using laws.
  intros Hok Hadm Hauth Hnone Hk Hv HU. pose proof (nm_ok_field _ _ Hok) as Hm.
  pose proof (blocked_insert m key value Hm Hk Hv Hnone) as Eins.
  pose proof (in_field_is_key _ Hk) as Hkk.
  assert (key ∉ keys (blocked m)) as Hnk by (rewrite blocked_keys by done; rewrite Hnone; by intros [? ?]).
  set (U := subtrees (blocked m) ++ subtrees (blocked (<[key := value]> m))) in *.
  assert (forall u, u ∈ subtrees (blocked m) -> u ∈ U) as HsubU by (intros; apply elem_of_app; auto).
  assert (forall u, u ∈ subtrees (blocked (<[key := value]> m)) -> u ∈ U) as HsubU' by (intros; apply elem_of_app; auto).
  assert (Lf key value ∈ subtrees (blocked (<[key := value]> m))) as Hleaf.
  { rewrite <- Eins. apply leaf_in_insert; [lia | by apply blocked_canonical | by apply blocked_prefixed | done | done]. }
  unfold nm_insert_leaf. msteps. rewrite Hadm. msteps. unfold require_auth at 1. rewrite Hauth. msteps.
  rewrite (nm_ok_root _ _ Hok). cbn [default id]. rewrite (nm_ok_find _ _ _ Hok). cbn [from_result]. msteps.
  destruct (blocked_find m key Hm) as [Ef _]. destruct (insert_prep m key Hm Hnone Hkk) as [Hp1 Hp2].
  set (r := tree_find 0 (blocked m) key) in *. rewrite Ef, Hnone, (bool_decide_false (is_Some None)) by (by intros [? ?]).
  cbn [fail_if]. msteps.
  set (prep := if negb (is_old0 r) then _ else _).
  assert (exists mixed ro added,
    prep s = (Ret (ins_sibs 0 (blocked m) key, mixed, ro, added), s) /\ added = negb (is_old0 r) /\
    (if is_old0 r then ro = 0 /\ (is_Br (blocked m) = true -> mixed = true)
     else ro = thash (Lf (not_found_key r) (not_found_value r)) /\ mixed = false)) as (mixed & ro & added & Eprep & Eadd & Hinit).
  { unfold prep. destruct (is_old0 r) eqn:Eo; cbn [negb].
    - rewrite <- (Hp2 eq_refl). do 3 eexists. split; [reflexivity |]. split; [done |]. split; [done |].
      intros HB. apply bool_decide_true. by apply siblings_Br_nonempty.
    - destruct (Hp1 eq_refl) as (Es & Hk' & Hv'). rewrite (proj1 (hash_leaf_thash _ _ Hk' Hv')). msteps.
      do 3 eexists. rewrite Es. split; [reflexivity |]. done. }
  rewrite (bind_run _ _ _ _ _ Eprep). cbv beta iota zeta. rewrite (proj1 (hash_leaf_thash _ _ Hk Hv)). msteps.
  destruct (rebuild_insert U key value (siblings r) added mixed ro (nm_set_node (thash (Lf key value)) [1; key; value] s) Hk Hv HU 0 (blocked m))
    as (nodes & mixed' & Hrun & _ & Hst & _); [apply lookup_insert_eq | |].
  - split; [lia | by apply blocked_canonical | by apply blocked_prefixed | by apply blocked_field | done | done | by rewrite Eins | | done ..].
    apply (stored_set_leaf U); [done | by apply HsubU' | done | by apply nm_ok_stored].
  - rewrite ipath_0 in Hrun. cbn [Nat.add] in Hrun. rewrite (bind_run _ _ _ _ _ Hrun). cbv beta iota zeta. msteps.
    rewrite Eins in *. eexists. split; [reflexivity |]. exists nodes. split; [done |]. split.
    + by apply field_map_insert.
    + done.
    + exact Hst.
    + intros u Hu. apply (distinct_nonzero _ HU), HsubU', Hu.
Qed.

(** What [insert_leaf] answers, as a function of the map. *)
Definition insert_outcome (m : gmap Z Z) (admin : option Address) (authorised : Address -> bool) (key value : Z) : outcome NmError unit :=
  match admin with
  | None => Fail NE_NotInitialized
  | Some a =>
      if negb (authorised a) then Trap
      else if bool_decide (is_Some (m !! key)) then Fail NE_KeyAlreadyExists
      else if bool_decide (in_field key /\ in_field value) then Ret tt
      else Trap
  end.

Lemma hash_leaf_trap k v : 0 <= k -> 0 <= v -> ~ (in_field k /\ in_field v) -> hash_leaf k v = None.
Proof. intros Hk Hv Hn. apply poseidon2_hash2_trap. unfold in_field in Hn. lia. Qed.

Lemma nm_insert_errors m s authorised key value :
  nm_ok m s -> 0 <= key < 2 ^ 256 -> 0 <= value ->
  insert_outcome m (nm_admin s) authorised key value <> Ret tt ->
  exists s', nm_insert_leaf authorised key value s = (insert_outcome m (nm_admin s) authorised key value, s').
Proof using laws.
  intros Hok Hk Hv. pose proof (nm_ok_field _ _ Hok) as Hm. unfold insert_outcome, nm_insert_leaf. msteps.
  destruct (nm_admin s) as [a|]; [| intros _; by exists s]. msteps. unfold require_auth.
  destruct (authorised a); cbn [negb]; [| intros _; by exists s]. msteps.
  rewrite (nm_ok_root _ _ Hok). cbn [default id]. rewrite (nm_ok_find _ _ _ Hok). cbn [from_result]. msteps.
  destruct (blocked_find m key Hm) as [Ef _]. rewrite Ef. destruct (m !! key) as [v0|] eqn:Elk.
  { rewrite (bool_decide_true (is_Some (Some v0))) by done. intros _. by exists s. }
  destruct (insert_prep m key Hm Elk Hk) as [Hp1 _].
  rewrite (bool_decide_false (is_Some None)) by (by intros [? ?]). cbn [fail_if]. msteps.
  destruct (bool_decide_reflect (in_field key /\ in_field value)) as [Hf | Hnf]; [done |]. intros _.
  destruct (is_old0 (tree_find 0 (blocked m) key)) eqn:Eo; cbn [negb].
  - msteps. rewrite hash_leaf_trap by (done || lia). by exists s.
  - destruct (Hp1 eq_refl) as (_ & Hk' & Hv'). rewrite (proj1 (hash_leaf_thash _ _ Hk' Hv')). msteps.
    rewrite hash_leaf_trap by (done || lia). by exists s.
Qed.

(** ** Deletion *)

(** The tree whose path the loop of [delete_leaf] removes node by node: the tree itself,
    except that the branch over the deleted leaf and its sibling leaf, whose level the
    loop skips, is the deleted leaf alone. *)
Fixpoint unlinked (l : nat) (t : tree) (key : Z) : tree :=
  match t with
  | Br a b =>
      match (if kbit key l then b else a), (if kbit key l then a else b) with
      | Lf k v, Lf _ _ => Lf k v
      | Lf _ _, _ => t
      | _, _ => if kbit key l then Br a (unlinked (S l) b key) else Br (unlinked (S l) a key) b
      end
  | _ => t
  end.

(** The node the loop starts from and the siblings it runs over. *)
Fixpoint del_path (l : nat) (t : tree) (key : Z) : Z * list Z :=
  match t with
  | Br a b =>
      match (if kbit key l then b else a), (if kbit key l then a else b) with
      | Lf _ _, Lf k v => (thash (Lf k v), [])
      | Lf _ _, o => (0, [thash o])
      | _, o =>
          let r := if kbit key l then del_path (S l) b key else del_path (S l) a key in
          (r.1, thash o :: r.2)
      end
  | _ => (0, [])
  end.

(** The cases of a branch with the key below it, on the path's child and the other. *)
Lemma unlinked_branch l c o key :
  unlinked l (branch (kbit key l) c o) key =
  match c, o with
  | Lf k v, Lf _ _ => Lf k v
  | Lf _ _, _ => branch (kbit key l) c o
  | _, _ => branch (kbit key l) (unlinked (S l) c key) o
  end.
Proof. unfold branch. cbn [unlinked]. destruct (kbit key l) eqn:Eb; rewrite ?Eb; destruct c, o; cbn [unlinked]; rewrite ?Eb; done. Qed.

Lemma del_path_branch l c o key :
  del_path l (branch (kbit key l) c o) key =
  match c, o with
  | Lf _ _, Lf k v => (thash (Lf k v), [])
  | Lf _ _, o => (0, [thash o])
  | _, _ => ((del_path (S l) c key).1, thash o :: (del_path (S l) c key).2)
  end.
Proof.
  unfold branch. destruct (kbit key l) eqn:Eb; destruct c, o; cbn [del_path]; by rewrite ?Eb.
Qed.

Lemma delete_branch l c o key :
  delete_tree l (branch (kbit key l) c o) key =
  if kbit key l then join o (delete_tree (S l) c key) else join (delete_tree (S l) c key) o.
Proof. unfold branch. destruct (kbit key l) eqn:Eb; cbn [delete_tree]; by rewrite Eb. Qed.

Lemma keys_branch bit c o k : k ∈ keys (branch bit c o) <-> k ∈ keys c \/ k ∈ keys o.
Proof. destruct bit; cbn [branch]; rewrite keys_Br; tauto. Qed.

Lemma entries_branch bit c o e : e ∈ entries (branch bit c o) <-> e ∈ entries c \/ e ∈ entries o.
Proof. destruct bit; cbn [branch entries]; rewrite elem_of_app; tauto. Qed.

Lemma unlinked_entries l t key e : e ∈ entries (unlinked l t key) -> e ∈ entries t.
Proof.
  revert l t. apply (tree_cases (fun l t => e ∈ entries (unlinked l t key) -> e ∈ entries t) key); [done | done |].
  intros l c o IH. rewrite unlinked_branch, entries_branch. destruct c as [|k v|c1 c2].
  - rewrite entries_branch. tauto.
  - destruct o; [by rewrite entries_branch | tauto | by rewrite entries_branch].
  - rewrite entries_branch. tauto.
Qed.

Lemma unlinked_keys l t key k : k ∈ keys (unlinked l t key) -> k ∈ keys t.
Proof. unfold keys. rewrite !list_elem_of_fmap. intros (e & -> & He%unlinked_entries). eauto. Qed.

Lemma unlinked_has_key l t key : canonical l t -> key ∈ keys t -> key ∈ keys (unlinked l t key).
Proof.
  revert l t. apply (tree_cases (fun l t => canonical l t -> key ∈ keys t -> key ∈ keys (unlinked l t key)) key); [done | done |].
  intros l c o IH Hc. destruct (branch_disjoint _ _ _ _ Hc) as (Kc & Ko & Hcc & Hco & _).
  rewrite keys_branch. intros [Hin | Hin%Ko]; [| by destruct (kbit key l)]. rewrite unlinked_branch. destruct c as [|k v|c1 c2].
  - by apply keys_E in Hin.
  - destruct o; [rewrite keys_branch; tauto | done | rewrite keys_branch; tauto].
  - rewrite keys_branch. left. by apply IH.
Qed.

Lemma unlinked_leaf l t key v : canonical l t -> (key, v) ∈ entries t -> Lf key v ∈ subtrees (unlinked l t key).
Proof.
  revert l t. apply (tree_cases (fun l t => canonical l t -> (key, v) ∈ entries t -> Lf key v ∈ subtrees (unlinked l t key)) key).
  - intros l _ Hin. by apply elem_of_nil in Hin.
  - intros l k v' _ [= <- <-]%list_elem_of_singleton. by apply subtrees_Lf.
  - intros l c o IH Hc. destruct (branch_disjoint _ _ _ _ Hc) as (Kc & Ko & Hcc & Hco & _).
    rewrite entries_branch. intros [Hin | Hin].
    2: { assert (key ∈ keys o) as Hx%Ko by (unfold keys; by apply (list_elem_of_fmap_2 fst _ (key, v))). by destruct (kbit key l). }
    rewrite unlinked_branch. destruct c as [|k v'|c1 c2].
    + by apply elem_of_nil in Hin.
    + apply list_elem_of_singleton in Hin as [= <- <-].
      destruct o; [rewrite subtrees_branch, subtrees_Lf; auto | by apply subtrees_Lf | rewrite subtrees_branch, subtrees_Lf; auto].
    + apply subtrees_branch. right; left. by apply IH.
Qed.

Lemma unlink_app bits p1 p2 st s :
  unlink bits (p1 ++ p2) st s = (st ← unlink bits p1 st; unlink bits p2 st) s.
Proof.
  revert st s. induction p1 as [|[i x] p1 IH]; intros st s; [done |]. cbn [app unlink]. rewrite bind_assoc.
  unfold mbind, M_bind. destruct (unlink_step bits i x st s) as [[st'|e|] s']; [apply IH | done | done].
Qed.

Lemma hash_branch_thash bit c o :
  tfield c -> tfield o ->
  (if bit : bool then hash_internal (thash o) (thash c) else hash_internal (thash c) (thash o)) = Some (thash (branch bit c o)).
Proof using laws. intros Hc Ho. destruct bit; cbn [branch]; by rewrite hash_internal_thash. Qed.

(** One level up, the removed path above [cf] and the new node above [c']. *)
Lemma unlink_step_store key l cf c' o mixed (s : NmStore) :
  let old := branch (kbit key l) cf o in
  let new := branch (kbit key l) c' o in
  (l < 256)%nat -> tfield cf -> tfield c' -> tfield o -> mixed = true \/ thash o <> 0 ->
  unlink_step (split_bits key) l (thash o) (mixed, thash cf, thash c') s =
  (Ret (true, thash old, thash new), nm_with_nodes (<[thash new := enc new]> (delete (thash old) (nm_nodes s))) s).
Proof using laws.
  intros old new Hl Hcf Hc' Ho Hmix. unfold unlink_step. rewrite split_bits_lookup by done. msteps.
  rewrite hash_branch_thash by done. msteps. fold old.
  assert ((mixed || negb (thash o =? 0))%bool = true) as ->.
  { destruct Hmix as [-> | ?]; [done |]. rewrite (proj2 (Z.eqb_neq _ _)) by done. apply orb_true_r. }
  subst new. pose proof (hash_branch_thash (kbit key l) c' o Hc' Ho) as E.
  destruct (kbit key l); rewrite E; done.
Qed.

Lemma unlink_step_skip key l cf o rt (s : NmStore) :
  let old := branch (kbit key l) cf o in
  (l < 256)%nat -> tfield cf -> tfield o -> thash o = 0 ->
  unlink_step (split_bits key) l (thash o) (false, thash cf, rt) s =
  (Ret (false, thash old, rt), nm_with_nodes (delete (thash old) (nm_nodes s)) s).
Proof using laws.
  intros old Hl Hcf Ho H0. unfold unlink_step. rewrite split_bits_lookup by done. msteps.
  rewrite hash_branch_thash by done. msteps. by rewrite H0.
Qed.

(** What the nodes are after that level. *)
Lemma unlink_nodes U key bit cf c' o (m nodes : gmap Z (list Z)) :
  let old := branch bit cf o in
  let new := branch bit c' o in
  distinct U -> (forall u, u ∈ subtrees old -> u ∈ U) -> (forall u, u ∈ subtrees new -> u ∈ U) ->
  key ∈ keys cf -> key ∉ keys c' -> key ∉ keys o ->
  stored m c' -> stored nodes o -> (forall h, h ∉ hashes cf -> h ∉ hashes c' -> m !! h = nodes !! h) ->
  (forall u, u ∈ subtrees o -> (u ∉ subtrees cf) /\ (u ∉ subtrees c')) ->
  stored (<[thash new := enc new]> (delete (thash old) m)) new /\ stored (delete (thash old) m) c' /\
  (forall h, h ∉ hashes old -> h ∉ hashes new ->
     <[thash new := enc new]> (delete (thash old) m) !! h = nodes !! h /\ delete (thash old) m !! h = nodes !! h).
Proof.
  intros old new HU Hold Hnew Hk Hk' Hko Hst Hso Hfr Hdisj.
  assert (old ∈ U) as HoU by (apply Hold, subtrees_self; unfold old, branch; by destruct bit).
  assert (new ∈ U) as HnU by (apply Hnew, subtrees_self; unfold new, branch; by destruct bit).
  assert (key ∈ keys old) as Hkold by (apply keys_branch; auto).
  assert (key ∉ keys new) as Hknew by (unfold new; rewrite keys_branch; tauto).
  assert (forall u t, u ∈ subtrees t -> key ∉ keys t -> u <> old) as Hne.
  { intros u t Hu Hnt ->. by apply Hnt, (subtrees_keys _ _ _ Hu). }
  split_and!.
  - intros u Hu. pose proof (Hnew u Hu) as HuU. pose proof (Hne u new Hu Hknew) as Huo.
    apply (stored_replace U); try done. apply subtrees_branch in Hu as [-> | [Hu | Hu]]; [by left | right; by apply Hst | right].
    rewrite Hfr; [by apply Hso | |].
    + apply (not_in_hashes U); [done | done | | by apply Hdisj]. intros w Hw. apply Hold, subtrees_branch. auto.
    + apply (not_in_hashes U); [done | done | | by apply Hdisj]. intros w Hw. apply Hnew, subtrees_branch. auto.
  - intros u Hu. rewrite lookup_delete_ne; [by apply Hst |]. intros Eh. apply (Hne u c' Hu Hk'). symmetry.
    apply (distinct_inj _ HU); [done | | done]. apply Hnew, subtrees_branch. auto.
  - intros h H1 H2. unfold old, new in H1, H2. rewrite hashes_branch in H1, H2. fold old in H1. fold new in H2.
    rewrite lookup_insert_ne by (intros <-; tauto). rewrite !lookup_delete_ne by (intros <-; tauto).
    split; apply Hfr; tauto.
Qed.

(** The tree after a deletion: the branch stays, unless it would hold a single leaf. *)
Lemma delete_branch_cases l c o key :
  canonical l (branch (kbit key l) c o) -> is_Br c = true ->
  let c' := delete_tree (S l) c key in
  (is_Br c' = false /\ o = E /\ delete_tree l (branch (kbit key l) c o) key = c') \/
  ((is_Br c' = true \/ o <> E) /\ delete_tree l (branch (kbit key l) c o) key = branch (kbit key l) c' o).
Proof.
  intros Hc HB c'. rewrite delete_branch. fold c'. destruct (branch_disjoint _ _ _ _ Hc) as (_ & _ & Hcc & _ & _).
  assert (c' <> E) as HcE.
  { intros Hc'. pose proof (delete_length (S l) c key Hcc) as Hlen. fold c' in Hlen. rewrite Hc' in Hlen.
    pose proof (canonical_length _ _ Hcc) as H2. destruct c; [done | done |]. cbn [entries length] in Hlen, H2. lia. }
  unfold branch. destruct c' as [|k v|x y], o as [|k' v'|x' y']; cbn [is_Br]; try done;
    destruct (kbit key l); cbn [join]; (left; by split_and!) || (right; by auto).
Qed.

Lemma tfield_sub t t' : tfield t -> (forall e, e ∈ entries t' -> e ∈ entries t) -> tfield t'.
Proof. intros H Hs e He. by apply H, Hs. Qed.

Lemma tfield_branch bit c o : tfield (branch bit c o) -> tfield c /\ tfield o.
Proof. destruct bit; cbn [branch]; rewrite tfield_Br; tauto. Qed.

Lemma delete_sub l t key e : canonical l t -> e ∈ entries (delete_tree l t key) -> e ∈ entries t.
Proof. intros Hc. rewrite (delete_entries l) by done. rewrite list_elem_of_filter. tauto. Qed.

Lemma or_mix (b : bool) (o : tree) (P : Prop) : b = true \/ o <> E -> (o <> E -> P) -> b = true \/ P.
Proof. tauto. Qed.

Lemma in_branch_other bit c o : o <> E -> o ∈ subtrees (branch bit c o).
Proof. intros Ho. apply subtrees_branch. right; right. by apply subtrees_self. Qed.

Definition stored_off (m : gmap Z (list Z)) (key : Z) (t : tree) : Prop :=
  forall u, u ∈ subtrees t -> key ∉ keys u -> m !! thash u = Some (enc u).

Section unlink_delete.
Variables (U : list tree) (key v : Z).
Hypothesis HU : distinct U.

Definition unlinks (l : nat) (t : tree) : Prop := forall s : NmStore,
  canonical l t -> tfield t -> (key, v) ∈ entries t ->
  (forall u, u ∈ subtrees t -> u ∈ U) -> (forall u, u ∈ subtrees (unlinked l t key) -> u ∈ U) ->
  (forall u, u ∈ subtrees (delete_tree l t key) -> u ∈ U) -> stored_off (nm_nodes s) key t ->
  exists m,
    unlink (split_bits key) (rev (ipath l (del_path l t key).2)) (false, thash (Lf key v), (del_path l t key).1) s =
      (Ret (is_Br (delete_tree l t key), thash (unlinked l t key), thash (delete_tree l t key)), nm_with_nodes m s) /\
    stored m (delete_tree l t key) /\
    (forall h, h ∉ hashes (unlinked l t key) -> h ∉ hashes (delete_tree l t key) -> m !! h = nm_nodes s !! h).

(** The leaf hangs directly below the branch. *)
Lemma unlinks_leaf l k0 v0 o : unlinks l (branch (kbit key l) (Lf k0 v0) o).
Proof using laws HU.
  intros s Hc Htf Hin HsU HfU HdU Hst. destruct (branch_disjoint _ _ _ _ Hc) as (Kc & Ko & Hcc & Hco & Hlt & H2).
  destruct (tfield_branch _ _ _ Htf) as [Htc Hto].
  assert (forall e, e ∈ entries o -> e.1 <> key) as Hko.
  { intros e He Ek. assert (key ∈ keys o) as Hx%Ko by (rewrite <- Ek; unfold keys; by apply list_elem_of_fmap_2). by destruct (kbit key l). }
  apply entries_branch in Hin as [Hin | Hin]; [| by apply Hko in Hin]. apply list_elem_of_singleton in Hin as [= <- <-].
  assert (key ∉ keys o) as Hnko.
  { unfold keys. rewrite list_elem_of_fmap. intros (e & Ee & He). by apply (Hko e). }
  assert (stored (nm_nodes s) o) as Hso.
  { intros u Hu. apply Hst; [apply subtrees_branch; auto |]. intros Hku. by apply Hnko, (subtrees_keys _ _ _ Hu). }
  rewrite delete_branch, unlinked_branch, del_path_branch in *. cbn [delete_tree] in *. rewrite decide_True in * by done.
  destruct o as [|k' v'|x y].
  - cbn in H2. lia.
  - exists (nm_nodes s). assert ((if kbit key l then join (Lf k' v') E else join E (Lf k' v')) = Lf k' v') as -> by (by destruct (kbit key l)).
    cbn [fst snd]. split_and!; [by destruct s | done | done].
  - set (o := Br x y) in *. assert ((if kbit key l then join o E else join E o) = branch (kbit key l) E o) as EJ by (by destruct (kbit key l)).
    rewrite EJ in *.
    destruct (unlink_nodes U key (kbit key l) (Lf key v) E o (nm_nodes s) (nm_nodes s)) as (Hst' & _ & Hfr'); try done.
    { by apply keys_Lf. }
    { by intros ?%keys_E. }
    { intros u Hu%subtrees_E. done. }
    { intros u Hu. split; [| by intros ?%subtrees_E]. intros ->%subtrees_Lf. apply Hnko. eapply subtrees_keys; [exact Hu |]. by apply keys_Lf. }
    eexists. split_and!; [| exact Hst' | intros h H1' H2'; by apply Hfr'].
    cbn [fst snd ipath imap rev app unlink]. rewrite Nat.add_0_r.
    assert (thash o <> 0) as Hnz.
    { apply (distinct_nonzero _ HU), HsU, subtrees_branch. right; right. by apply subtrees_self. }
    rewrite (bind_run _ _ _ _ _ (unlink_step_store key l (Lf key v) E o false s Hlt Htc tfield_E Hto (or_intror Hnz))).
    by destruct (kbit key l).
Qed.

(** The leaf hangs further down. *)
Lemma unlinks_branch l x y o : unlinks (S l) (Br x y) -> unlinks l (branch (kbit key l) (Br x y) o).
Proof using laws HU.
  set (c := Br x y). intros IH s Hc Htf Hin HsU HfU HdU Hst.
  destruct (branch_disjoint _ _ _ _ Hc) as (Kc & Ko & Hcc & Hco & Hlt & H2). destruct (tfield_branch _ _ _ Htf) as [Htc Hto].
  pose proof (delete_branch_cases l c o key Hc eq_refl) as Hcases. cbv zeta in Hcases.
  assert (key ∉ keys o) as Hnko by (intros Hx%Ko; by destruct (kbit key l)).
  assert ((key, v) ∈ entries c) as Hinc.
  { apply entries_branch in Hin as [Hin | Hin]; [done |]. exfalso. apply Hnko. unfold keys. by apply (list_elem_of_fmap_2 fst _ (key, v)). }
  assert (key ∈ keys c) as Hkc by (unfold keys; by apply (list_elem_of_fmap_2 fst _ (key, v))).
  assert (stored (nm_nodes s) o) as Hso.
  { intros u Hu. apply Hst; [apply subtrees_branch; auto |]. intros Hku. by apply Hnko, (subtrees_keys _ _ _ Hu). }
  rewrite unlinked_branch, del_path_branch in *. cbn [c] in HfU |- *. fold c in HfU |- *.
  set (cf := unlinked (S l) c key) in *. set (c' := delete_tree (S l) c key) in *.
  assert (tfield cf) as Hcf by (apply (tfield_sub c); [done | apply unlinked_entries]).
  assert (tfield c') as Hc' by (apply (tfield_sub c); [done | intros e; by apply delete_sub]).
  assert (key ∉ keys c') as Hkc' by (unfold c'; rewrite delete_keys by done; tauto).
  assert (forall u, u ∈ subtrees o -> (u ∉ subtrees cf) /\ (u ∉ subtrees c')) as Hdisj.
  { intros u Hu. split; (apply (disjoint_subtrees l o _ (kbit key l)); [done | done | | done]).
    - intros k Hk%unlinked_keys. by apply Kc.
    - intros k [_ Hk]%delete_keys; [by apply Kc | done]. }
  assert (forall u, u ∈ subtrees c' -> u ∈ U) as HcU.
  { intros u Hu. apply HdU. destruct Hcases as [(_ & _ & ->) | [_ ->]]; [done | apply subtrees_branch; auto]. }
  destruct (IH s) as (m & Hrun & Hstc & Hfr); try done.
  { intros u Hu. apply HsU, subtrees_branch. auto. }
  { intros u Hu. apply HfU, subtrees_branch. auto. }
  { intros u Hu. apply Hst, subtrees_branch. auto. }
  fold cf c' in Hrun, Hstc, Hfr. cbn [fst snd]. rewrite rev_ipath_cons, unlink_app, (bind_run _ _ _ _ _ Hrun). cbn [unlink].
  destruct Hcases as [(HB & -> & Ed) | [Hmix Ed]]; rewrite Ed in *.
  - rewrite HB. rewrite (bind_run _ _ _ _ _ (unlink_step_skip key l cf E (thash c') (nm_with_nodes m s) Hlt Hcf tfield_E eq_refl)).
    exists (delete (thash (branch (kbit key l) cf E)) m). split_and!; [done | |].
    + intros u Hu. rewrite lookup_delete_ne; [by apply Hstc |]. intros Eh.
      assert (branch (kbit key l) cf E = u) as <-.
      { apply (distinct_inj _ HU); [| by apply HcU | done]. apply HfU, subtrees_self. unfold branch. by destruct (kbit key l). }
      apply Hkc', (subtrees_keys _ _ _ Hu), keys_branch. left. by apply unlinked_has_key.
    + intros h H1 H3. rewrite hashes_branch in H1. rewrite lookup_delete_ne by (intros <-; tauto). apply Hfr; tauto.
  - rewrite (bind_run _ _ _ _ _ (unlink_step_store key l cf c' o (is_Br c') (nm_with_nodes m s) Hlt Hcf Hc' Hto
      (or_mix _ _ _ Hmix (fun Ho => distinct_nonzero _ HU o (HsU o (in_branch_other _ _ _ Ho)))))).
    destruct (unlink_nodes U key (kbit key l) cf c' o m (nm_nodes s)) as (Hst' & _ & Hfr'); try done.
    { by apply unlinked_has_key. }
    eexists. split_and!; [| exact Hst' | intros h H1' H3'; by apply Hfr'].
    by destruct (kbit key l).
Qed.

Lemma unlinks_all l t : unlinks l t.
Proof using laws HU.
  revert l t. apply (tree_cases unlinks key).
  - intros l s _ _ Hin. by apply elem_of_nil in Hin.
  - intros l k0 v0 s _ _ Hin _ _ _ Hst. apply list_elem_of_singleton in Hin as [= <- <-].
    cbn [unlinked delete_tree del_path] in *. rewrite decide_True by done. exists (nm_nodes s). cbn [fst snd].
    split_and!; [by destruct s | by intros u ?%subtrees_E | done].
  - intros l [|k0 v0|x y] o IH.
    + intros s Hc _ Hin. destruct (branch_disjoint _ _ _ _ Hc) as (_ & Ko & _).
      apply entries_branch in Hin as [Hin | Hin]; [by apply elem_of_nil in Hin |]. exfalso.
      assert (key ∈ keys o) as Hx%Ko by (unfold keys; by apply (list_elem_of_fmap_2 fst _ (key, v))). by destruct (kbit key l).
    + apply unlinks_leaf.
    + by apply unlinks_branch.
Qed.

End unlink_delete.

Lemma promote_cons x l s :
  l <> [] -> promote (x :: l) s = (r ← promote l; mret (r.1, x :: r.2)) s.
Proof.
  intros Hl. unfold promote. rewrite last_cons. destruct (last l) as [y|] eqn:El; [| by apply last_None in El].
  msteps. destruct (nm_nodes s !! y) as [d|]; [| done].
  assert (removelast (x :: l) = x :: removelast l) as -> by (by destruct l).
  destruct (bool_decide (length d = 3%nat) && bool_decide (d !! 0%nat = Some 1)); [done |].
  by destruct (bool_decide (length d = 2%nat)).
Qed.

Lemma tree_find_branch l c o key :
  siblings (tree_find l (branch (kbit key l) c o) key) = thash o :: siblings (tree_find (S l) c key).
Proof. by rewrite tree_find_along. Qed.

Lemma promote_run key v l t (s : NmStore) :
  canonical l t -> (key, v) ∈ entries t -> stored_off (nm_nodes s) key t ->
  promote (siblings (tree_find l t key)) s = (Ret (del_path l t key), s).
Proof.
  revert l t. apply (tree_cases (fun l t => canonical l t -> (key, v) ∈ entries t -> stored_off (nm_nodes s) key t ->
    promote (siblings (tree_find l t key)) s = (Ret (del_path l t key), s)) key).
  - done.
  - intros l k0 v0 _ Hin _. apply list_elem_of_singleton in Hin as [= <- <-]. cbn [tree_find]. by rewrite Z.eqb_refl.
  - intros l c o IH Hc Hin Hst. destruct (branch_disjoint _ _ _ _ Hc) as (Kc & Ko & Hcc & Hco & Hlt & H2).
    assert (key ∉ keys o) as Hnko by (intros Hx%Ko; by destruct (kbit key l)).
    assert ((key, v) ∈ entries c) as Hinc.
    { apply entries_branch in Hin as [Hin | Hin]; [done |]. exfalso. apply Hnko. unfold keys. by apply (list_elem_of_fmap_2 fst _ (key, v)). }
    rewrite tree_find_branch, del_path_branch. destruct c as [|k0 v0|x y].
    + by apply elem_of_nil in Hinc.
    + apply list_elem_of_singleton in Hinc as [= <- <-]. cbn [tree_find]. rewrite Z.eqb_refl. cbn [siblings].
      assert (o <> E) as HoE by (intros ->; cbn in H2; lia).
      unfold promote. cbn [last]. msteps. rewrite (Hst o); [by destruct o | | done]. apply in_branch_other, HoE.
    + rewrite promote_cons by done. rewrite (bind_run _ _ _ _ _ (IH Hcc Hinc ltac:(intros u Hu; apply Hst, subtrees_branch; auto))). done.
Qed.

(** What [delete_leaf] answers, as a function of the map. *)
Definition delete_outcome (m : gmap Z Z) (admin : option Address) (authorised : Address -> bool) (key : Z) : outcome NmError unit :=
  match admin with
  | None => Fail NE_NotInitialized
  | Some a =>
      if negb (authorised a) then Trap
      else if bool_decide (is_Some (m !! key)) then Ret tt
      else Fail NE_KeyNotFound
  end.

Lemma nm_delete_errors m s authorised key :
  nm_ok m s -> delete_outcome m (nm_admin s) authorised key <> Ret tt ->
  exists s', delete_leaf authorised key s = (delete_outcome m (nm_admin s) authorised key, s').
Proof.
  intros Hok. pose proof (nm_ok_field _ _ Hok) as Hm. unfold delete_outcome, delete_leaf. msteps.
  destruct (nm_admin s) as [a|]; [| intros _; by exists s]. msteps. unfold require_auth.
  destruct (authorised a); cbn [negb]; [| intros _; by exists s]. msteps.
  rewrite (nm_ok_root _ _ Hok). msteps. rewrite (nm_ok_find _ _ _ Hok). cbn [from_result]. msteps.
  destruct (blocked_find m key Hm) as [Ef _]. rewrite Ef. destruct (bool_decide (is_Some (m !! key))); [done |].
  intros _. by exists s.
Qed.

Definition delete_state (m : gmap Z Z) (s : NmStore) (key : Z) (s' : NmStore) : Prop :=
  exists nodes,
    s' = nm_publish (LeafDeletedEvent key (thash (blocked (delete key m))))
           (nm_set_root (thash (blocked (delete key m))) (nm_with_nodes nodes s)) /\
    nm_ok (delete key m) s' /\
    (forall u, u ∈ subtrees (blocked m) -> u ∉ subtrees (unlinked 0 (blocked m) key) -> nodes !! thash u = Some (enc u)).

Lemma nm_delete_run m s authorised admin key :
  nm_ok m s -> nm_admin s = Some admin -> authorised admin = true -> is_Some (m !! key) ->
  distinct (subtrees (blocked m) ++ subtrees (unlinked 0 (blocked m) key) ++ subtrees (blocked (delete key m))) ->
  exists s', delete_leaf authorised key s = (Ret tt, s') /\ delete_state m s key s'.
Proof using laws.
  intros Hok Hadm Hauth [v Hv] HU. pose proof (nm_ok_field _ _ Hok) as Hm. destruct (Hm _ _ Hv) as [Hkf Hvf].
  pose proof (blocked_delete m key Hm) as Edel. pose proof (blocked_canonical m Hm) as Hc.
  set (U := subtrees (blocked m) ++ _) in HU.
  assert ((key, v) ∈ entries (blocked m)) as Hin by (by apply blocked_entries).
  unfold delete_leaf. msteps. rewrite Hadm. msteps. unfold require_auth. rewrite Hauth. msteps.
  rewrite (nm_ok_root _ _ Hok). msteps. rewrite (nm_ok_find _ _ _ Hok). cbn [from_result]. msteps.
  destruct (blocked_find m key Hm) as [Ef Efv]. rewrite Ef, (bool_decide_true (is_Some (m !! key))) by eauto.
  cbn [negb fail_if]. msteps. rewrite (Efv v Hv), (proj1 (hash_leaf_thash _ _ Hkf Hvf)). msteps.
  set (s1 := nm_remove_node (thash (Lf key v)) s).
  assert (Lf key v ∈ subtrees (blocked m)) as Hleaf by (by apply leaf_subtree).
  assert (stored_off (nm_nodes s1) key (blocked m)) as Hoff.
  { intros u Hu Hku. change (delete (thash (Lf key v)) (nm_nodes s) !! thash u = Some (enc u)). rewrite lookup_delete_ne; [by apply (nm_ok_stored _ _ Hok) |]. intros Eh. apply Hku.
    apply (distinct_inj _ HU) in Eh as <-; [by apply keys_Lf | apply elem_of_app; auto ..]. }
  rewrite (bind_run _ _ _ _ _ (promote_run key v 0 (blocked m) s1 Hc Hin Hoff)).
  destruct (unlinks_all U key v HU 0 (blocked m) s1) as (nodes & Hrun & Hst & Hfr); try done.
  { by apply blocked_field. }
  { intros u Hu. apply elem_of_app. auto. }
  { intros u Hu. unfold U. rewrite !elem_of_app. auto. }
  { rewrite Edel. intros u Hu. unfold U. rewrite !elem_of_app. auto. }
  destruct (del_path 0 (blocked m) key) as [start sibs]. rewrite ipath_0 in Hrun. cbn [fst snd] in Hrun.
  rewrite (bind_run _ _ _ _ _ Hrun). cbv beta iota zeta. msteps. rewrite Edel in *.
  eexists. split; [reflexivity |]. exists nodes. split_and!; [done | split |].
  - by apply field_map_delete.
  - done.
  - exact Hst.
  - intros u Hu. apply (distinct_nonzero _ HU). unfold U. rewrite !elem_of_app. auto.
  - intros u Hu Hnu. destruct (decide (u ∈ subtrees (blocked (delete key m)))) as [Hin' | Hnin]; [by apply Hst |].
    assert (u ∈ U) as HuU by (unfold U; rewrite !elem_of_app; auto).
    rewrite Hfr.
    + change (delete (thash (Lf key v)) (nm_nodes s) !! thash u = Some (enc u)).
      rewrite lookup_delete_ne; [by apply (nm_ok_stored _ _ Hok) |]. intros Eh.
      apply (distinct_inj _ HU) in Eh as <-; [| unfold U; rewrite !elem_of_app; auto | done].
      apply Hnu. by apply (unlinked_leaf 0).
    + apply (not_in_hashes U); [done | done | | done]. intros w Hw. unfold U. rewrite !elem_of_app. auto.
    + apply (not_in_hashes U); [done | done | | done]. intros w Hw. unfold U. rewrite !elem_of_app. auto.
Qed.

(** ** Verification *)

Lemma fold_root_app bits p1 p2 r (s : NmStore) :
  fold_root bits (p1 ++ p2) r s = (r ← fold_root bits p1 r; fold_root bits p2 r) s.
Proof.
  revert r s. induction p1 as [|[i x] p1 IH]; intros r s; [done |]. cbn [app fold_root]. unfold mbind, M_bind in *.
  destruct (require (bits !! i) NE_InvalidProof s) as [[b|e|] s']; [| done | done].
  destruct (unwrap _ s') as [[h|e|] s2]; [apply IH | done | done].
Qed.

(** The node a search for an absent key ends at. *)
Definition end_node (r : FindResult) : tree := if is_old0 r then E else Lf (not_found_key r) (not_found_value r).

Lemma fold_root_run key l t (s : NmStore) :
  (l <= 256)%nat -> canonical l t -> tfield t -> key ∉ keys t ->
  fold_root (split_bits key) (rev (ipath l (siblings (tree_find l t key)))) (thash (end_node (tree_find l t key))) s =
  (Ret (thash t), s).
Proof using laws.
  revert l t. apply (tree_cases (fun l t => (l <= 256)%nat -> canonical l t -> tfield t -> key ∉ keys t ->
    fold_root (split_bits key) (rev (ipath l (siblings (tree_find l t key)))) (thash (end_node (tree_find l t key))) s =
    (Ret (thash t), s)) key).
  - done.
  - intros l k v _ _ _ Hnk. rewrite keys_Lf in Hnk. cbn [tree_find]. by rewrite (proj2 (Z.eqb_neq k key)) by congruence.
  - intros l c o IH Hl Hc Htf Hnk. destruct (branch_disjoint _ _ _ _ Hc) as (_ & _ & Hcc & _ & Hlt & _).
    destruct (tfield_branch _ _ _ Htf) as [Htc Hto]. rewrite keys_branch in Hnk.
    rewrite tree_find_branch, rev_ipath_cons, fold_root_app.
    assert (end_node (tree_find l (branch (kbit key l) c o) key) = end_node (tree_find (S l) c key)) as ->.
    { unfold branch. destruct (kbit key l) eqn:Eb; unfold end_node; cbn [tree_find is_old0 not_found_key not_found_value]; by rewrite Eb. }
    rewrite (bind_run _ _ _ _ _ (IH ltac:(lia) Hcc Htc ltac:(tauto))). cbn [fold_root].
    rewrite split_bits_lookup by done. msteps. by rewrite hash_branch_thash.
Qed.

Lemma check_siblings (sibs sibs' : list Z) (s : NmStore) :
  length sibs' = length sibs ->
  for_each (imap pair sibs) (fun '(i, sibling) =>
    expected ← require (sibs' !! i) NE_InvalidProof;
    fail_if (negb (sibling =? expected)) NE_InvalidProof) s =
  (if bool_decide (sibs = sibs') then Ret tt else Fail NE_InvalidProof, s).
Proof.
  intros Hlen. rewrite (for_each_check _ _ (fun p => bool_decide (sibs' !! p.1 = Some p.2)) NE_InvalidProof).
  - assert (forallb (fun p => bool_decide (sibs' !! p.1 = Some p.2)) (imap pair sibs) = bool_decide (sibs = sibs')) as ->.
    { apply Bool.eq_iff_eq_true. rewrite forallb_forall, bool_decide_eq_true. split.
      - intros H. apply list_eq. intros i. destruct (sibs !! i) as [x|] eqn:Ei.
        + symmetry. specialize (H (i, x)). rewrite bool_decide_eq_true in H. apply H.
          apply list_elem_of_In, list_elem_of_lookup. exists i. by rewrite list_lookup_imap, Ei.
        + symmetry. apply lookup_ge_None. apply lookup_ge_None in Ei. lia.
      - intros <- [i x] (j & Hj)%list_elem_of_In%list_elem_of_lookup. rewrite list_lookup_imap in Hj.
        destruct (sibs !! j) as [y|] eqn:Ej; [| done]. cbn in Hj. injection Hj as <- <-. apply bool_decide_eq_true. exact Ej. }
    by destruct (bool_decide (sibs = sibs')).
  - intros [i x] (j & Hj)%list_elem_of_lookup. rewrite list_lookup_imap in Hj.
    destruct (sibs !! j) as [y|] eqn:Ej; [| done]. cbn in Hj. injection Hj as <- <-. cbn [fst snd].
    destruct (sibs' !! j) as [e|] eqn:Ee.
    + msteps. destruct (Z.eqb_spec y e) as [-> | Hne]; cbn [negb fail_if].
      * by rewrite bool_decide_true.
      * by rewrite bool_decide_false by congruence.
    + apply lookup_lt_Some in Ej. apply lookup_ge_None in Ee. lia.
Qed.

(** What [verify_non_membership] answers, as a function of the map. *)
Definition is_proof (m : gmap Z Z) (key : Z) (sibs : list Z) (nf_key nf_value : Z) : Prop :=
  let r := tree_find 0 (blocked m) key in
  sibs = siblings r /\ nf_key = not_found_key r /\ nf_value = not_found_value r.

#[export] Instance is_proof_dec m key sibs k v : Decision (is_proof m key sibs k v).
Proof. unfold is_proof. apply _. Defined.

Lemma verify_present m s key sibs nf_key nf_value :
  nm_ok m s -> is_Some (m !! key) -> verify_non_membership key sibs nf_key nf_value s = (Ret false, s).
Proof.
  intros Hok Hin. unfold verify_non_membership. msteps. rewrite (nm_ok_root _ _ Hok). cbn [default id].
  rewrite (nm_ok_find _ _ _ Hok). cbn [from_result]. msteps.
  destruct (blocked_find m key (nm_ok_field _ _ Hok)) as [Ef _]. by rewrite Ef, (bool_decide_true (is_Some (m !! key))).
Qed.

Lemma verify_absent m s key sibs nf_key nf_value :
  nm_ok m s -> m !! key = None ->
  verify_non_membership key sibs nf_key nf_value s =
  (if bool_decide (is_proof m key sibs nf_key nf_value) then
     (computed_root ← (if negb (nf_key =? key) && negb (nf_value =? 0) then unwrap (hash_leaf nf_key nf_value) else mret 0);
      computed_root ← fold_root (split_bits key) (rev (imap pair sibs)) computed_root;
      fail_if (negb (computed_root =? thash (blocked m))) NE_InvalidProof;;
      mret true) s
   else (Fail NE_InvalidProof, s)).
Proof.
  intros Hok Hnone. unfold verify_non_membership. msteps. rewrite (nm_ok_root _ _ Hok). cbn [default id].
  rewrite (nm_ok_find _ _ _ Hok). cbn [from_result]. msteps.
  destruct (blocked_find m key (nm_ok_field _ _ Hok)) as [Ef _].
  rewrite Ef, Hnone, (bool_decide_false (is_Some None)) by (by intros [? ?]). set (r := tree_find 0 (blocked m) key).
  destruct (bool_decide_reflect (length (siblings r) = length sibs)) as [Hlen | Hlen]; cbn [negb fail_if]; msteps.
  2: { by rewrite (bool_decide_false (is_proof m key sibs nf_key nf_value)) by (intros (-> & _); done). }
  destruct (bool_decide_reflect (is_proof m key sibs nf_key nf_value)) as [(Es & Ek & Ev) | Hno].
  - fold r in Es, Ek, Ev. rewrite (bind_run _ _ s tt s) by (rewrite check_siblings by done; by rewrite bool_decide_true).
    rewrite <- Ek, <- Ev, !Z.eqb_refl. done.
  - destruct (decide (sibs = siblings r)) as [Es | Es].
    + rewrite (bind_run _ _ s tt s) by (rewrite check_siblings by done; by rewrite bool_decide_true).
      destruct (Z.eqb_spec (not_found_key r) nf_key) as [Ek | Ek]; cbn [negb orb fail_if]; [| done].
      destruct (Z.eqb_spec (not_found_value r) nf_value) as [Ev | Ev]; cbn [negb fail_if]; [| done].
      destruct Hno. by split_and!.
    + by rewrite (bind_run_fail _ _ s NE_InvalidProof s) by (rewrite check_siblings by done; by rewrite bool_decide_false).
Qed.

(** The leaf a search for an absent key ends at is not the key's. *)
Lemma not_found_ne m key :
  field_map m -> m !! key = None -> let r := tree_find 0 (blocked m) key in
  (is_old0 r = true -> not_found_key r = key) /\
  (is_old0 r = false -> not_found_key r <> key /\ in_field (not_found_key r) /\ in_field (not_found_value r)).
Proof.
  intros Hm Hnone. cbv zeta. split.
  - generalize 0%nat. induction (blocked m) as [|k v|a IHa b IHb]; intros l; cbn [tree_find].
    + done.
    + by destruct (k =? key).
    + cbn [is_old0 not_found_key]. destruct (kbit key l); auto.
  - intros Ho. assert (key ∉ keys (blocked m)) as Hnk by (rewrite blocked_keys by done; rewrite Hnone; by intros [? ?]).
    assert (forall l, is_old0 (tree_find l (blocked m) key) = false -> (not_found_key (tree_find l (blocked m) key), not_found_value (tree_find l (blocked m) key)) ∈ entries (blocked m)) as Hin.
    { clear Ho. revert Hnk. induction (blocked m) as [|k v|a IHa b IHb]; intros Hnk l; cbn [tree_find].
      - done.
      - rewrite keys_Lf in Hnk. rewrite (proj2 (Z.eqb_neq k key)) by congruence. intros _. by apply list_elem_of_singleton.
      - rewrite keys_Br in Hnk. cbn [is_old0 not_found_key not_found_value entries]. rewrite elem_of_app.
        destruct (kbit key l); intros Ho; [right; apply IHb | left; apply IHa]; tauto. }
    specialize (Hin 0%nat Ho). apply blocked_entries in Hin; [| done]. cbn [fst snd] in Hin. split; [congruence | by apply Hm].
Qed.

Lemma verify_complete m s key :
  nm_ok m s -> m !! key = None ->
  let r := tree_find 0 (blocked m) key in
  is_old0 r = true \/ not_found_value r <> 0 ->
  verify_non_membership key (siblings r) (not_found_key r) (not_found_value r) s = (Ret true, s).
Proof using laws.
  intros Hok Hnone r Hend. pose proof (nm_ok_field _ _ Hok) as Hm. rewrite (verify_absent m) by done.
  rewrite bool_decide_true by done. fold r.
  assert (key ∉ keys (blocked m)) as Hnk by (rewrite blocked_keys by done; rewrite Hnone; by intros [? ?]).
  pose proof (fold_root_run key 0 (blocked m) s ltac:(lia) (blocked_canonical m Hm) (blocked_field m Hm) Hnk) as Hfold.
  rewrite ipath_0 in Hfold. fold r in Hfold. destruct (not_found_ne m key Hm Hnone) as [H1 H2]. fold r in H1, H2.
  assert ((if negb (not_found_key r =? key) && negb (not_found_value r =? 0)
           then unwrap (hash_leaf (not_found_key r) (not_found_value r)) else mret 0 : M NmStore NmError Z) s =
          (Ret (thash (end_node r)), s)) as Estart.
  { unfold end_node. destruct (is_old0 r).
    - by rewrite (H1 eq_refl), Z.eqb_refl.
    - destruct (H2 eq_refl) as (Hne & Hk & Hv). destruct Hend as [? | Hnz]; [done |].
      rewrite !(proj2 (Z.eqb_neq _ _)) by done. cbn [negb andb]. by rewrite (proj1 (hash_leaf_thash _ _ Hk Hv)). }
  rewrite (bind_run _ _ _ _ _ Estart), (bind_run _ _ _ _ _ Hfold), Z.eqb_refl. done.
Qed.

Lemma verify_absent_not_false m s key sibs k v s' :
  nm_ok m s -> m !! key = None -> verify_non_membership key sibs k v s <> (Ret false, s').
Proof.
  intros Hok Hnone. rewrite (verify_absent m) by done. destruct (bool_decide _); [| done].
  by intros (? & ? & _ & (? & ? & _ & (? & ? & _ & H)%bind_Ret)%bind_Ret)%bind_Ret.
Qed.

End contract.
