(* ===== verification/NonMembershipTheorems.v ===== *)
(** * The theorems on the non-membership contract

    The contract refines a finite map with an administrator: insertion, deletion and
    administration have the outcomes and effects of the map's, over any sequence of
    invocations, and the root is a function of the map.  The hash is assumed
    collision-free on the finitely many nodes an operation touches ([distinct]), and
    on nothing else. *)

From S2P Require Import Prelude Ints Amounts Poseidon2 Poseidon2Tables Poseidon2Facts Hashes Soroban MerkleSpec.
From S2P Require Import Smt AspNonMembership NonMembershipFacts NonMembershipOps.

(** ** Ground hashes

    The hash of a ground tree, evaluated on machine-word big numbers. *)

Fixpoint ground_hash (t : tree) : Z :=
  match t with
  | E => 0
  | Lf k v => match big_permutation params_3 [k; v; 1] with Some (x :: _) => x | _ => 0 end
  | Br a b =>
      let ha := ground_hash a in
      match big_permutation params_2 [ha; ground_hash b] with Some (x :: _) => (x + ha) mod BN_P | _ => 0 end
  end.

Lemma params_3_nonneg : nonneg_params params_3 = true.
Proof. vm_compute. reflexivity. Qed.

Lemma ground_hash_thash {host : HostPoseidon2} {laws : HostPoseidon2Laws host} t : tfield t -> thash t = ground_hash t.
Proof.
  induction t as [|k v|a IHa b IHb]; intros Ht; [done | |].
  - destruct (Ht (k, v)) as [Hk Hv]; [by apply list_elem_of_singleton |]. cbn [fst snd] in Hk, Hv. cbn [thash ground_hash].
    unfold hash_leaf. rewrite poseidon2_hash2_field by (done || apply in_field_1).
    unfold poseidon2_hash2_internal, permute. rewrite PARAMS_3_new. cbn [mbind option_bind].
    rewrite (permutation_eval params_3 [k; v; 1] (or_intror (or_introl eq_refl)) params_3_nonneg).
    + by destruct (big_permutation params_3 [k; v; 1]) as [[|x rest]|].
    + unfold in_field in Hk, Hv. cbn [forallb]. by rewrite !(proj2 (Z.leb_le 0 _)) by lia.
  - apply tfield_Br in Ht as [Ha Hb]. pose proof (thash_field _ Ha) as Fa. pose proof (thash_field _ Hb) as Fb.
    cbn [thash ground_hash]. rewrite <- IHa, <- IHb by done. unfold hash_internal. rewrite poseidon2_compress_field by done.
    unfold poseidon2_compression, permute. rewrite PARAMS_2_new. cbn [mbind option_bind].
    rewrite (permutation_eval params_2 [thash a; thash b] (or_introl eq_refl) params_2_nonneg).
    + by destruct (big_permutation params_2 [thash a; thash b]) as [[|x rest]|].
    + unfold in_field in Fa, Fb. cbn [forallb]. by rewrite !(proj2 (Z.leb_le 0 _)) by lia.
Qed.

Definition tfield_b (t : tree) : bool := forallb (fun e => bool_decide (in_field e.1) && bool_decide (in_field e.2)) (entries t).

Definition distinct_b (us : list tree) : bool :=
  forallb tfield_b us &&
  let hs := (fun u => (u, ground_hash u)) <$> us in
  forallb (fun '(_, h) => negb (h =? 0)) hs &&
  forallb (fun '(u, h) => forallb (fun '(u', h') => negb (h =? h') || bool_decide (u = u')) hs) hs.

Lemma distinct_b_spec {host : HostPoseidon2} {laws : HostPoseidon2Laws host} us : distinct_b us = true -> distinct us.
Proof.
  unfold distinct_b. rewrite !andb_true_iff, !forallb_forall. intros [Hf [Hz Hd]].
  assert (forall u, u ∈ us -> thash u = ground_hash u) as Hg.
  { intros u Hu. apply ground_hash_thash. intros e He. specialize (Hf u (proj1 (list_elem_of_In _ _) Hu)).
    unfold tfield_b in Hf. rewrite forallb_forall in Hf. specialize (Hf e (proj1 (list_elem_of_In _ _) He)).
    apply andb_true_iff in Hf as [H1%bool_decide_eq_true H2%bool_decide_eq_true]. done. }
  assert (forall u, u ∈ us -> In (u, ground_hash u) ((fun u => (u, ground_hash u)) <$> us)) as Hin.
  { intros u Hu. apply list_elem_of_In. by apply (list_elem_of_fmap_2 (fun u => (u, ground_hash u))). }
  split.
  - intros x y Hx Hy E. rewrite !Hg in E by done. specialize (Hd _ (Hin x Hx)). cbn in Hd. rewrite forallb_forall in Hd.
    specialize (Hd _ (Hin y Hy)). cbn in Hd. rewrite E, Z.eqb_refl in Hd. cbn in Hd. by apply bool_decide_eq_true in Hd.
  - intros x Hx. rewrite Hg by done. specialize (Hz _ (Hin x Hx)). cbn in Hz. by apply negb_true_iff, Z.eqb_neq in Hz.
Qed.

Lemma distinct_sub {host : HostPoseidon2} us vs : distinct us -> (forall u, u ∈ vs -> u ∈ us) -> distinct vs.
Proof. intros [Hi Hn] Hs. split; auto. Qed.

(** ** The refinement *)

Lemma invoke_outcome {S E A} (m : M S E A) s o s' : m s = (o, s') -> (invoke m s).1 = o.
Proof. unfold invoke. intros ->. by destruct o. Qed.

Lemma invoke_failed {S E A} (m : M S E A) s o s' : m s = (o, s') -> (forall a, o <> Ret a) -> (invoke m s).2 = s.
Proof. unfold invoke. intros ->. destruct o; [intros H; by destruct (H a) | done | done]. Qed.

Section refinement.
Context {host : HostPoseidon2} {laws : HostPoseidon2Laws host}.

Lemma nm_insert_refines m s authorised key value :
  nm_ok m s -> is_u256 key -> is_u256 value ->
  let o := insert_outcome m (nm_admin s) authorised key value in
  (o = Ret tt -> distinct (subtrees (blocked m) ++ subtrees (blocked (<[key := value]> m)))) ->
  (invoke (nm_insert_leaf authorised key value) s).1 = o /\
  (o = Ret tt -> insert_state m s key value (invoke (nm_insert_leaf authorised key value) s).2) /\
  (o <> Ret tt -> (invoke (nm_insert_leaf authorised key value) s).2 = s).
Proof using laws.
  intros Hok Hk Hv o HU. destruct (decide (o = Ret tt)) as [Ho | Ho].
  - specialize (HU Ho). subst o. pose proof Ho as Ho'. unfold insert_outcome in Ho'.
    destruct (nm_admin s) as [a|] eqn:Ea; [| done]. destruct (authorised a) eqn:Eauth; [| done]. cbn [negb] in Ho'.
    destruct (bool_decide_reflect (is_Some (m !! key))) as [| Hno]; [done |].
    destruct (bool_decide_reflect (in_field key /\ in_field value)) as [[Hkf Hvf] |]; [| done].
    destruct (nm_insert_run m s authorised a key value) as (s' & Hrun & Hst); try done; [by apply eq_None_not_Some |].
    rewrite Ho. split_and!; [by eapply invoke_outcome | | done]. intros _. unfold invoke. by rewrite Hrun.
  - destruct (nm_insert_errors m s authorised key value Hok Hk ltac:(apply Hv) Ho) as [s' Hrun].
    split_and!; [by eapply invoke_outcome | done |]. intros _. eapply invoke_failed; [exact Hrun |]. by intros [].
Qed.

Lemma nm_delete_refines m s authorised key :
  nm_ok m s ->
  let o := delete_outcome m (nm_admin s) authorised key in
  (o = Ret tt ->
   distinct (subtrees (blocked m) ++ subtrees (unlinked 0 (blocked m) key) ++ subtrees (blocked (delete key m)))) ->
  (invoke (delete_leaf authorised key) s).1 = o /\
  (o = Ret tt -> delete_state m s key (invoke (delete_leaf authorised key) s).2) /\
  (o <> Ret tt -> (invoke (delete_leaf authorised key) s).2 = s).
Proof using laws.
  intros Hok o HU. destruct (decide (o = Ret tt)) as [Ho | Ho].
  - specialize (HU Ho). subst o. pose proof Ho as Ho'. unfold delete_outcome in Ho'.
    destruct (nm_admin s) as [a|] eqn:Ea; [| done]. destruct (authorised a) eqn:Eauth; [| done]. cbn [negb] in Ho'.
    destruct (bool_decide_reflect (is_Some (m !! key))) as [Hin |]; [| done].
    destruct (nm_delete_run m s authorised a key) as (s' & Hrun & Hst); try done.
    rewrite Ho. split_and!; [by eapply invoke_outcome | | done]. intros _. unfold invoke. by rewrite Hrun.
  - destruct (nm_delete_errors m s authorised key Hok Ho) as [s' Hrun].
    split_and!; [by eapply invoke_outcome | done |]. intros _. eapply invoke_failed; [exact Hrun |]. by intros [].
Qed.

End refinement.

(** ** Invocations and histories *)

Inductive nm_op : Type :=
| NmUpdateAdmin (new_admin : Address)
| NmInsertLeaf (key value : Z)
| NmDeleteLeaf (key : Z).

Definition nm_op_typed (op : nm_op) : Prop :=
  match op with NmInsertLeaf k v => is_u256 k /\ is_u256 v | NmDeleteLeaf k => is_u256 k | NmUpdateAdmin _ => True end.

Definition nm_exec {host : HostPoseidon2} (authorised : Address -> bool) (op : nm_op) : M NmStore NmError unit :=
  match op with
  | NmUpdateAdmin a => nm_update_admin authorised a
  | NmInsertLeaf k v => nm_insert_leaf authorised k v
  | NmDeleteLeaf k => delete_leaf authorised k
  end.

(** The specification: an administrator and a finite map. *)
Definition nm_spec_outcome (authorised : Address -> bool) (op : nm_op) (st : Address * gmap Z Z) : outcome NmError unit :=
  match op with
  | NmUpdateAdmin _ => if authorised st.1 then Ret tt else Trap
  | NmInsertLeaf k v => insert_outcome st.2 (Some st.1) authorised k v
  | NmDeleteLeaf k => delete_outcome st.2 (Some st.1) authorised k
  end.

Definition nm_spec_step (authorised : Address -> bool) (op : nm_op) (st : Address * gmap Z Z) : Address * gmap Z Z :=
  if bool_decide (nm_spec_outcome authorised op st = Ret tt) then
    match op with
    | NmUpdateAdmin a => (a, st.2)
    | NmInsertLeaf k v => (st.1, <[k := v]> st.2)
    | NmDeleteLeaf k => (st.1, delete k st.2)
    end
  else st.

(** The nodes an operation reads, writes and removes. *)
Definition nm_touched (authorised : Address -> bool) (op : nm_op) (st : Address * gmap Z Z) : list tree :=
  if bool_decide (nm_spec_outcome authorised op st = Ret tt) then
    match op with
    | NmUpdateAdmin a => []
    | NmInsertLeaf k v => subtrees (blocked st.2) ++ subtrees (blocked (<[k := v]> st.2))
    | NmDeleteLeaf k => subtrees (blocked st.2) ++ subtrees (unlinked 0 (blocked st.2) k) ++ subtrees (blocked (delete k st.2))
    end
  else [].

Definition nm_refines {host : HostPoseidon2} (st : Address * gmap Z Z) (s : NmStore) : Prop :=
  nm_ok st.2 s /\ nm_admin s = Some st.1.

Section histories.
Context {host : HostPoseidon2} {laws : HostPoseidon2Laws host}.

Lemma nm_step_ok st s authorised op :
  nm_refines st s -> nm_op_typed op -> distinct (nm_touched authorised op st) ->
  (invoke (nm_exec authorised op) s).1 = nm_spec_outcome authorised op st /\
  nm_refines (nm_spec_step authorised op st) (invoke (nm_exec authorised op) s).2.
Proof using laws.
  intros [Hok Hadm] Hty HU. unfold nm_spec_step, nm_touched in *. destruct op as [a|k v|k]; cbn [nm_exec nm_spec_outcome] in *.
  - unfold invoke, nm_update_admin, utils_update_admin. msteps. rewrite Hadm. msteps. unfold require_auth.
    destruct (authorised st.1); [| done]. msteps. rewrite bool_decide_true by done. split; [done |]. split; [| done].
    by eapply nm_ok_same.
  - destruct Hty as [Hk Hv]. destruct (nm_insert_refines st.2 s authorised k v Hok Hk Hv) as (Ho & Hret & Hno); rewrite Hadm in *.
    { intros E. by rewrite bool_decide_true in HU. }
    split; [done |]. destruct (bool_decide_reflect (insert_outcome st.2 (Some st.1) authorised k v = Ret tt)) as [E | E].
    + destruct (Hret E) as (nodes & Es & Hok'). split; [done |]. by rewrite Es.
    + by rewrite (Hno E).
  - destruct (nm_delete_refines st.2 s authorised k Hok) as (Ho & Hret & Hno); rewrite Hadm in *.
    { intros E. by rewrite bool_decide_true in HU. }
    split; [done |]. destruct (bool_decide_reflect (delete_outcome st.2 (Some st.1) authorised k = Ret tt)) as [E | E].
    + destruct (Hret E) as (nodes & Es & Hok' & _). split; [done |]. by rewrite Es.
    + by rewrite (Hno E).
Qed.

End histories.

(** A sequence of invocations, with what each answered. *)
Fixpoint nm_run {host : HostPoseidon2} (tr : list ((Address -> bool) * nm_op)) (s : NmStore) : list (outcome NmError unit) * NmStore :=
  match tr with
  | [] => ([], s)
  | (authorised, op) :: tr =>
      let '(o, s) := invoke (nm_exec authorised op) s in
      let '(os, s) := nm_run tr s in
      (o :: os, s)
  end.

Fixpoint nm_spec_run (tr : list ((Address -> bool) * nm_op)) (st : Address * gmap Z Z) : list (outcome NmError unit) * (Address * gmap Z Z) :=
  match tr with
  | [] => ([], st)
  | (authorised, op) :: tr =>
      let '(os, st') := nm_spec_run tr (nm_spec_step authorised op st) in
      (nm_spec_outcome authorised op st :: os, st')
  end.

(** The nodes a whole sequence touches. *)
Fixpoint nm_trace_touched (tr : list ((Address -> bool) * nm_op)) (st : Address * gmap Z Z) : list tree :=
  match tr with
  | [] => []
  | (authorised, op) :: tr => nm_touched authorised op st ++ nm_trace_touched tr (nm_spec_step authorised op st)
  end.

Lemma nm_run_ok {host : HostPoseidon2} {laws : HostPoseidon2Laws host} tr st s :
  nm_refines st s -> Forall (fun c => nm_op_typed c.2) tr -> distinct (nm_trace_touched tr st) ->
  (nm_run tr s).1 = (nm_spec_run tr st).1 /\ nm_refines (nm_spec_run tr st).2 (nm_run tr s).2.
Proof.
  revert st s. induction tr as [|[authorised op] tr IH]; intros st s Href Hty HU; [done |].
  apply Forall_cons in Hty as [Hop Hty]. cbn [nm_trace_touched snd] in *. cbn [nm_run nm_spec_run].
  destruct (nm_step_ok st s authorised op Href Hop) as [Ho Hs'].
  { eapply distinct_sub; [exact HU |]. intros u Hu. apply elem_of_app. auto. }
  destruct (invoke (nm_exec authorised op) s) as [o s']. cbn [fst snd] in Ho, Hs'.
  destruct (IH _ s' Hs' Hty) as [Hos Href'].
  { eapply distinct_sub; [exact HU |]. intros u Hu. apply elem_of_app. auto. }
  destruct (nm_run tr s') as [os s2], (nm_spec_run tr (nm_spec_step authorised op st)) as [os' st2].
  cbn [fst snd] in *. split; [congruence | done].
Qed.

(** ** The claims *)

Definition by_admin : Address -> bool := fun a => bool_decide (a = "admin").

(** Two insertions that part at the lowest bit, a duplicate, an unauthorised deletion
    and a deletion that promotes the sibling. *)
Definition nm_demo : list ((Address -> bool) * nm_op) :=
  [(by_admin, NmInsertLeaf 4 7); (by_admin, NmInsertLeaf 1 9); (by_admin, NmInsertLeaf 4 8);
   ((fun _ => false), NmDeleteLeaf 4); (by_admin, NmDeleteLeaf 4)].

(** C25. The non-membership contract refines a finite map with an administrator: on a store
    that represents a map, every invocation (administration, insertion, deletion) answers
    exactly what the map's operation does on every branch (unauthorised callers trap,
    present keys are refused, non-canonical keys and values trap, absent keys are not
    deleted), the store afterwards represents the updated map when it returned, and is
    unchanged when it did not; provided the hash does not collide on the nodes the
    operation touches. *)
Theorem nm_step_refines (host : HostPoseidon2) (laws : HostPoseidon2Laws host)
    (st : Address * gmap Z Z) (s : NmStore) (authorised : Address -> bool) (op : nm_op) :
  nm_refines st s -> nm_op_typed op -> distinct (nm_touched authorised op st) ->
  (invoke (nm_exec authorised op) s).1 = nm_spec_outcome authorised op st /\
  nm_refines (nm_spec_step authorised op st) (invoke (nm_exec authorised op) s).2 /\
  (nm_spec_outcome authorised op st <> Ret tt -> (invoke (nm_exec authorised op) s).2 = s).
Proof.
  intros Href Hty HU. destruct (nm_step_ok st s authorised op Href Hty HU) as [Ho Hs]. split_and!; [done | done |].
  intros Hne. apply invoke_rollback. intros [] s' Hrun. apply Hne. rewrite <- Ho. unfold invoke. by rewrite Hrun.
Qed.

Lemma nm_step_refines_witness :
  exists s, (invoke (nm_exec (host := ref_host_poseidon2) by_admin (NmInsertLeaf 4 7)) s).1 = Ret tt /\
    nm_refines (host := ref_host_poseidon2) ("admin", {[4 := 7]})
      (invoke (nm_exec (host := ref_host_poseidon2) by_admin (NmInsertLeaf 4 7)) s).2.
Proof.
  pose (s := nm_set_root 0 (nm_set_admin "admin" empty_nm_store)). exists s.
  destruct (nm_step_refines ref_host_poseidon2 _ ("admin", ∅) s by_admin (NmInsertLeaf 4 7)) as (Ho & Hr & _).
  - split; [exact (nm_ok_init (host := ref_host_poseidon2) "admin" empty_nm_store) | reflexivity].
  - split; unfold is_u256; lia.
  - apply distinct_b_spec. vm_compute. reflexivity.
  - split; [exact Ho | exact Hr].
Defined.

(** The non-membership root commits to the current entries and to nothing else: after
    the constructor and any sequence of invocations by anyone, every answer is the map's,
    and the stored root is the hash of the canonical tree of the entries the returning
    invocations left, whatever the order they came in. *)
Theorem nm_root_commits (host : HostPoseidon2) (laws : HostPoseidon2Laws host)
    (admin : Address) (tr : list ((Address -> bool) * nm_op)) (s0 : NmStore) :
  nm_constructor admin empty_nm_store = (Ret tt, s0) ->
  Forall (fun c => nm_op_typed c.2) tr -> distinct (nm_trace_touched tr (admin, ∅)) ->
  let '(os, s) := nm_run tr s0 in
  let '(os', st) := nm_spec_run tr (admin, ∅) in
  os = os' /\ nm_admin s = Some st.1 /\ nm_get_root s = (Ret (thash (blocked st.2)), s).
Proof.
  intros Hc Hty HU. injection Hc as <-.
  destruct (nm_run_ok tr (admin, ∅) (nm_set_root 0 (nm_set_admin admin empty_nm_store))) as [Hos [Hok Hadm]]; [| done | done |].
  { split; [apply nm_ok_init | done]. }
  destruct (nm_run tr _) as [os s], (nm_spec_run tr (admin, ∅)) as [os' st]. cbn [fst snd] in *. split_and!; [done | done |].
  unfold nm_get_root. msteps. by rewrite (nm_ok_root _ _ Hok).
Qed.

Lemma nm_root_commits_witness :
  exists s, (nm_run (host := ref_host_poseidon2) nm_demo (nm_set_root 0 (nm_set_admin "admin" empty_nm_store))) =
    ([Ret tt; Ret tt; Fail NE_KeyAlreadyExists; Trap; Ret tt], s) /\
    nm_get_root s = (Ret (thash (host := ref_host_poseidon2) (Lf 1 9)), s).
Proof.
  pose proof (nm_root_commits ref_host_poseidon2 _ "admin" nm_demo (nm_set_root 0 (nm_set_admin "admin" empty_nm_store)) eq_refl) as H.
  destruct (nm_run nm_demo _) as [os s]. exists s.
  assert (nm_spec_run nm_demo ("admin", ∅) =
          ([Ret tt; Ret tt; Fail NE_KeyAlreadyExists; Trap; Ret tt], ("admin", {[1 := 9]}))) as E by (vm_compute; reflexivity).
  rewrite E in H. destruct H as (-> & _ & H).
  - repeat constructor; unfold is_u256; cbn; lia.
  - apply distinct_b_spec. vm_compute. reflexivity.
  - split; [reflexivity | exact H].
Defined.

(** Non-membership proofs: on a store that represents a map, [find_key] returns for an
    absent key a proof that [verify_non_membership] accepts (when the search ended at an
    empty branch or at a leaf with a non-zero value); whatever proof is offered,
    [verify_non_membership] answers true only for an absent key and only for that proof,
    and answers false exactly for a present key. *)
Theorem nm_verify_correct (host : HostPoseidon2) (laws : HostPoseidon2Laws host) (m : gmap Z Z) (s : NmStore) (key : Z) :
  nm_ok m s ->
  exists r, find_key key s = (Ret r, s) /\
    (found r = true <-> is_Some (m !! key)) /\
    (forall v, m !! key = Some v -> found_value r = v) /\
    (m !! key = None -> is_old0 r = true \/ not_found_value r <> 0 ->
       verify_non_membership key (siblings r) (not_found_key r) (not_found_value r) s = (Ret true, s)) /\
    (forall sibs k v, verify_non_membership key sibs k v s = (Ret true, s) ->
       m !! key = None /\ sibs = siblings r /\ k = not_found_key r /\ v = not_found_value r) /\
    (forall sibs k v, verify_non_membership key sibs k v s = (Ret false, s) <-> is_Some (m !! key)).
Proof.
  intros Hok. pose proof (nm_ok_field _ _ Hok) as Hm. set (r := tree_find 0 (blocked m) key). exists r.
  destruct (blocked_find m key Hm) as [Ef Efv]. fold r in Ef, Efv. split_and!.
  - unfold find_key. msteps. rewrite (nm_ok_root _ _ Hok). cbn [default id]. rewrite (nm_ok_find _ _ _ Hok). done.
  - by rewrite Ef, bool_decide_eq_true.
  - done.
  - intros Hnone Hend. by apply verify_complete.
  - intros sibs k v Hv. destruct (m !! key) as [v0|] eqn:E; [by rewrite (verify_present m) in Hv |].
    rewrite (verify_absent m) in Hv by done. destruct (bool_decide_reflect (is_proof m key sibs k v)) as [Hp |]; [| done]. by split.
  - intros sibs k v. split.
    + intros Hv. destruct (m !! key) as [v0|] eqn:E; [done |]. by apply (verify_absent_not_false m) in Hv.
    + intros Hin. by apply (verify_present m).
Qed.

Lemma nm_verify_correct_witness :
  exists s r, find_key 5 s = (Ret r, s) /\
    verify_non_membership (host := ref_host_poseidon2) 5 (siblings r) (not_found_key r) (not_found_value r) s = (Ret true, s).
Proof.
  pose (s := nm_set_root 0 (nm_set_admin "admin" empty_nm_store)). exists s.
  destruct (nm_verify_correct ref_host_poseidon2 _ ∅ s 5) as (r & Hf & _ & _ & Hv & _);
    [exact (nm_ok_init (host := ref_host_poseidon2) "admin" empty_nm_store) |].
  exists r. split; [exact Hf |]. apply Hv; [reflexivity |]. left.
  assert (find_key 5 s = (Ret {| found := false; siblings := []; found_value := 0; not_found_key := 5;
    not_found_value := 0; is_old0 := true |}, s)) as E by reflexivity.
  rewrite E in Hf. injection Hf as <-. reflexivity.
Defined.

(** A leaf with value zero breaks the proofs of its neighbours: with a single entry of
    value zero stored, the proof [find_key] returns for any other key is rejected by
    [verify_non_membership], which starts from the empty node instead of the leaf. *)
Theorem nm_zero_value_rejected (host : HostPoseidon2) (laws : HostPoseidon2Laws host) (s : NmStore) (k key : Z) :
  nm_ok {[k := 0]} s -> key <> k ->
  exists r, find_key key s = (Ret r, s) /\ found r = false /\
    verify_non_membership key (siblings r) (not_found_key r) (not_found_value r) s = (Fail NE_InvalidProof, s).
Proof.
  intros Hok Hne. assert (blocked {[k := 0]} = Lf k 0) as EL by (unfold blocked; by rewrite map_to_list_singleton).
  assert (({[k := 0]} : gmap Z Z) !! key = None) as Hnone by (by rewrite lookup_singleton_ne).
  exists (tree_find 0 (blocked {[k := 0]}) key).
  assert (thash (Lf k 0) <> 0) as Hnz by (apply (nm_ok_nonzero _ _ Hok); rewrite EL; by apply subtrees_Lf).
  split_and!.
  - unfold find_key. msteps. rewrite (nm_ok_root _ _ Hok). cbn [default id]. rewrite (nm_ok_find _ _ _ Hok). done.
  - rewrite EL. cbn [tree_find]. by rewrite (proj2 (Z.eqb_neq k key)) by congruence.
  - rewrite (verify_absent {[k := 0]}) by done. rewrite bool_decide_true by done. rewrite EL. cbn [tree_find].
    rewrite (proj2 (Z.eqb_neq k key)) by congruence. cbn [not_found_key not_found_value siblings].
    rewrite Z.eqb_refl, andb_false_r. msteps. cbn [imap rev fold_root]. msteps.
    rewrite (proj2 (Z.eqb_neq 0 _)) by congruence. done.
Qed.

Lemma nm_zero_value_rejected_witness :
  exists s r, find_key 5 s = (Ret r, s) /\ found r = false /\
    verify_non_membership (host := ref_host_poseidon2) 5 (siblings r) (not_found_key r) (not_found_value r) s = (Fail NE_InvalidProof, s).
Proof.
  destruct (nm_insert_run (host := ref_host_poseidon2) ∅ (nm_set_root 0 (nm_set_admin "admin" empty_nm_store)) by_admin "admin" 4 0)
    as (s & _ & nodes & _ & Hok).
  - exact (nm_ok_init (host := ref_host_poseidon2) "admin" empty_nm_store).
  - reflexivity.
  - reflexivity.
  - reflexivity.
  - split; vm_compute; congruence.
  - split; vm_compute; congruence.
  - apply distinct_b_spec. vm_compute. reflexivity.
  - exists s. exact (nm_zero_value_rejected ref_host_poseidon2 _ s 4 5 Hok ltac:(congruence)).
Defined.

(** A deletion removes the nodes of [unlinked] and no others: every node of the old tree
    that is not one of those is still in storage afterwards, whether or not the new tree
    has it.  Where the sibling leaf is promoted the old path above the two leaves is not
    among the removed nodes, so that it stays behind. *)
Theorem nm_delete_leftover (host : HostPoseidon2) (laws : HostPoseidon2Laws host)
    (m : gmap Z Z) (s : NmStore) (authorised : Address -> bool) (admin : Address) (key : Z) :
  nm_ok m s -> nm_admin s = Some admin -> authorised admin = true -> is_Some (m !! key) ->
  distinct (nm_touched authorised (NmDeleteLeaf key) (admin, m)) ->
  exists s', invoke (delete_leaf authorised key) s = (Ret tt, s') /\ nm_ok (delete key m) s' /\
    (forall u, u ∈ subtrees (blocked m) -> u ∉ subtrees (unlinked 0 (blocked m) key) ->
       nm_nodes s' !! thash u = Some (enc u)).
Proof.
  intros Hok Hadm Hauth Hin HU.
  assert (nm_spec_outcome authorised (NmDeleteLeaf key) (admin, m) = Ret tt) as Ho.
  { cbn. rewrite Hauth. cbn. by rewrite bool_decide_true. }
  unfold nm_touched in HU. rewrite bool_decide_true in HU by done.
  destruct (nm_delete_run m s authorised admin key Hok Hadm Hauth Hin HU) as (s' & Hrun & nodes & Es & Hok' & Hleft).
  exists s'. split_and!; [by apply invoke_Ret | done |]. rewrite Es. exact Hleft.
Qed.

Lemma nm_delete_leftover_witness :
  exists s s', invoke (delete_leaf (host := ref_host_poseidon2) by_admin 4) s = (Ret tt, s') /\
    is_Some (nm_nodes s' !! thash (host := ref_host_poseidon2) (Br (Lf 4 7) (Lf 1 9))).
Proof.
  destruct (nm_run_ok (host := ref_host_poseidon2) [(by_admin, NmInsertLeaf 4 7); (by_admin, NmInsertLeaf 1 9)] ("admin", ∅)
              (nm_set_root 0 (nm_set_admin "admin" empty_nm_store))) as [_ [Hok Hadm]].
  - split; [exact (nm_ok_init (host := ref_host_poseidon2) "admin" empty_nm_store) | reflexivity].
  - repeat constructor; unfold is_u256; cbn; lia.
  - apply distinct_b_spec. vm_compute. reflexivity.
  - set (s := (nm_run _ _).2) in Hok, Hadm. exists s.
    assert (nm_spec_run [(by_admin, NmInsertLeaf 4 7); (by_admin, NmInsertLeaf 1 9)] ("admin", ∅) =
            ([Ret tt; Ret tt], ("admin", {[4 := 7; 1 := 9]}))) as E by (vm_compute; reflexivity).
    rewrite E in Hok, Hadm. cbn [snd] in Hok, Hadm.
    destruct (nm_delete_leftover ref_host_poseidon2 _ {[4 := 7; 1 := 9]} s by_admin "admin" 4 Hok Hadm eq_refl)
      as (s' & Hrun & _ & Hleft).
    + exists 7. reflexivity.
    + apply distinct_b_spec. vm_compute. reflexivity.
    + exists s'. split; [exact Hrun |]. exists (enc (host := ref_host_poseidon2) (Br (Lf 4 7) (Lf 1 9))). apply Hleft.
      * vm_compute. constructor.
      * apply (bool_decide_eq_false_1 _). vm_compute. reflexivity.
Defined.
