(* ===== verification/Verifier.v ===== *)
(** * The Groth16 verifier ([contracts/circom-groth16-verifier], [contracts/types])

    The verifier contract, its verification key a parameter (the build generates it), the
    curve operations of the host a parameter with the laws of groups and pairings; the
    byte encoding of proofs; and what the verifier's answers mean for the pool. *)

From S2P Require Import Prelude Ints Amounts Soroban Poseidon2Tables Hashes MerkleHistory Pool PoolTheorems.

Inductive Groth16Error : Type :=
| G16_InvalidProof
| G16_MalformedPublicInputs
| G16_MalformedProof.

(** ** Proofs as bytes *)

Definition FIELD_ELEMENT_SIZE : Z := 32.
Definition G1_SIZE : Z := FIELD_ELEMENT_SIZE * 2.
Definition G2_SIZE : Z := FIELD_ELEMENT_SIZE * 4.
Definition PROOF_SIZE : Z := G1_SIZE + G2_SIZE + G1_SIZE.

(** [Bytes::slice]; the host traps on a range that is not inside the bytes. *)
Definition slice (value : bytes) (from to_ : Z) : option bytes :=
  if (from <=? to_) && (to_ <=? zlength value) then Some (take (Z.to_nat (to_ - from)) (drop (Z.to_nat from) value)) else None.

Lemma slice_Some value from to_ :
  from <= to_ <= zlength value -> slice value from to_ = Some (take (Z.to_nat (to_ - from)) (drop (Z.to_nat from) value)).
Proof. intros H. unfold slice. by rewrite !(proj2 (Z.leb_le _ _)) by lia. Qed.

(** [Bytes::try_into::<BytesN<n>>()]. *)
Definition try_into_bytes (n : Z) (b : bytes) : result Groth16Error bytes :=
  if zlength b =? n then Ok b else Err G16_MalformedProof.

Definition Groth16Proof_try_from (value : bytes) : option (result Groth16Error Groth16Proof) :=
  if negb (zlength value =? PROOF_SIZE) then Some (Err G16_MalformedProof)
  else
    a ← slice value 0 G1_SIZE;
    b ← slice value G1_SIZE (G1_SIZE + G2_SIZE);
    c ← slice value (G1_SIZE + G2_SIZE) (zlength value);
    Some (a ← try_into_bytes 64 a;
          b ← try_into_bytes 128 b;
          c ← try_into_bytes 64 c;
          Ok {| g16_a := a; g16_b := b; g16_c := c |}).

(** ** The contract *)

(** The host's BN254 functions on encoded points and scalars; [None] is a trap. *)
Class Bn254Host : Type := {
  g1_neg : bytes -> option bytes;
  g1_add : bytes -> bytes -> option bytes;
  g1_mul : bytes -> bytes -> option bytes;
  pairing_check : list bytes -> list bytes -> option bool;
}.

Record VerificationKey : Type := {
  vk_alpha : bytes;
  vk_beta : bytes;
  vk_gamma : bytes;
  vk_delta : bytes;
  vk_ic : list bytes;
}.

(** The constants [build.rs] writes. *)
Class EmbeddedVk : Type := {
  VK_ALPHA_G1 : bytes;
  VK_BETA_G2 : bytes;
  VK_GAMMA_G2 : bytes;
  VK_DELTA_G2 : bytes;
  VK_IC : list bytes;
}.

Section verifier.
Context {host : Bn254Host}.

Local Abbreviation MV := (M unit Groth16Error).

Definition embedded_vk {vk : EmbeddedVk} : VerificationKey :=
  {| vk_alpha := VK_ALPHA_G1; vk_beta := VK_BETA_G2; vk_gamma := VK_GAMMA_G2; vk_delta := VK_DELTA_G2; vk_ic := VK_IC |}.

(** The loop over the public inputs, from input [i] on. *)
Fixpoint vk_x_loop (ic pub_inputs : list bytes) (n i : nat) (vk_x : bytes) : MV bytes :=
  match n with
  | O => mret vk_x
  | S n =>
      s ← require (pub_inputs !! i) G16_MalformedPublicInputs;
      ic_idx ← require (checked_add 32 (Z.of_nat i) 1) G16_MalformedPublicInputs;
      v ← require (ic !! Z.to_nat ic_idx) G16_MalformedPublicInputs;
      prod ← unwrap (g1_mul v s);
      vk_x ← unwrap (g1_add vk_x prod);
      vk_x_loop ic pub_inputs n (S i) vk_x
  end.

Definition verify_with_vk (vk : VerificationKey) (p : Groth16Proof) (pub_inputs : list bytes) : MV bool :=
  fail_if (negb (bool_decide (checked_add 32 (zlength pub_inputs) 1 = Some (zlength (vk_ic vk))))) G16_MalformedPublicInputs;;
  vk_x ← require (vk_ic vk !! 0%nat) G16_MalformedPublicInputs;
  vk_x ← vk_x_loop (vk_ic vk) pub_inputs (length pub_inputs) 0 vk_x;
  neg_a ← unwrap (g1_neg (g16_a p));
  let g1_points := [neg_a; vk_alpha vk; vk_x; g16_c p] in
  let g2_points := [g16_b p; vk_beta vk; vk_gamma vk; vk_delta vk] in
  valid ← unwrap (pairing_check g1_points g2_points);
  if valid : bool then mret true else fail G16_InvalidProof.

Definition groth16_verify {vk : EmbeddedVk} (p : Groth16Proof) (public_inputs : list bytes) : MV bool :=
  verify_with_vk embedded_vk p public_inputs.

End verifier.

(** ** The laws of the curve

    Encoded points decode to two groups with a pairing; the host computes on what the
    encodings denote. *)
Class Bn254Laws (host : Bn254Host) : Type := {
  G1 : Type;
  G2 : Type;
  GT : Type;
  g1_dec : bytes -> option G1;
  g2_dec : bytes -> option G2;
  g1_opp : G1 -> G1;
  g1_plus : G1 -> G1 -> G1;
  g1_smul : Z -> G1 -> G1;
  gt_one : GT;
  gt_mul : GT -> GT -> GT;
  gt_inv : GT -> GT;
  pair : G1 -> G2 -> GT;
  gt_assoc : forall x y z, gt_mul x (gt_mul y z) = gt_mul (gt_mul x y) z;
  gt_id_l : forall x, gt_mul gt_one x = x;
  gt_id_r : forall x, gt_mul x gt_one = x;
  gt_inv_l : forall x, gt_mul (gt_inv x) x = gt_one;
  gt_inv_r : forall x, gt_mul x (gt_inv x) = gt_one;
  pair_opp : forall a b, pair (g1_opp a) b = gt_inv (pair a b);
  host_neg : forall x a, g1_dec x = Some a -> exists y, g1_neg x = Some y /\ g1_dec y = Some (g1_opp a);
  host_add : forall x y a b, g1_dec x = Some a -> g1_dec y = Some b ->
    exists z, g1_add x y = Some z /\ g1_dec z = Some (g1_plus a b);
  host_mul : forall x s a, g1_dec x = Some a -> length s = 32%nat ->
    exists z, g1_mul x s = Some z /\ g1_dec z = Some (g1_smul (be_value s) a);
  host_pairing : forall xs ys ps qs,
    Forall2 (fun x a => g1_dec x = Some a) xs ps -> Forall2 (fun y b => g2_dec y = Some b) ys qs -> length ps = length qs ->
    exists b, pairing_check xs ys = Some b /\
      (b = true <-> foldr (fun p acc => gt_mul (pair p.1 p.2) acc) gt_one (zip ps qs) = gt_one);
}.

Section correctness.
Context {host : Bn254Host} {laws : Bn254Laws host}.

(** What a verification key and a proof denote. *)
Record vk_denotes (vk : VerificationKey) (alpha : G1) (beta gamma delta : G2) (ic0 : G1) (ics : list G1) : Prop := {
  den_alpha : g1_dec (vk_alpha vk) = Some alpha;
  den_beta : g2_dec (vk_beta vk) = Some beta;
  den_gamma : g2_dec (vk_gamma vk) = Some gamma;
  den_delta : g2_dec (vk_delta vk) = Some delta;
  den_ic : Forall2 (fun x a => g1_dec x = Some a) (vk_ic vk) (ic0 :: ics);
}.

Record proof_denotes (p : Groth16Proof) (a : G1) (b : G2) (c : G1) : Prop := {
  den_a : g1_dec (g16_a p) = Some a;
  den_b : g2_dec (g16_b p) = Some b;
  den_c : g1_dec (g16_c p) = Some c;
}.

(** The input commitment: [ic0 + sum_i s_i * ic_(i+1)]. *)
Definition input_commitment (ic0 : G1) (ics : list G1) (scalars : list Z) : G1 :=
  foldl (fun x '(s, v) => g1_plus x (g1_smul s v)) ic0 (zip scalars ics).

(** The Groth16 equation. *)
Definition groth16_equation (alpha : G1) (beta gamma delta : G2) (x a : G1) (b : G2) (c : G1) : Prop :=
  pair a b = gt_mul (pair alpha beta) (gt_mul (pair x gamma) (pair c delta)).

Lemma vk_x_loop_run ic ps pub n i vk_x x :
  Forall2 (fun x a => g1_dec x = Some a) ic ps -> Forall (fun s => length s = 32%nat) pub ->
  (i + n)%nat = length pub -> length ps = S (length pub) -> zlength pub < 2 ^ 32 - 1 -> g1_dec vk_x = Some x ->
  exists y, vk_x_loop ic pub n i vk_x tt = (Ret y, tt) /\
    g1_dec y = Some (input_commitment x (drop (S i) ps) (drop i (be_value <$> pub))).
Proof.
  intros Hic Hpub. revert i vk_x x. induction n as [|n IH]; intros i vk_x x Hi Hlen Hmax Hx.
  - exists vk_x. split; [done |]. rewrite (drop_ge (be_value <$> pub)) by (rewrite length_fmap; lia). done.
  - destruct (lookup_lt_is_Some_2 pub i) as [s Hs]; [lia |].
    destruct (lookup_lt_is_Some_2 ps (S i)) as [v Hv]; [lia |].
    destruct (Forall2_lookup_r _ _ _ _ _ Hic Hv) as (vb & Hvb & Hdec).
    pose proof (Forall_lookup_1 _ _ _ _ Hpub Hs) as Hsl.
    destruct (host_mul vb s v Hdec Hsl) as (prod & Hmul & Hprod).
    destruct (host_add vk_x prod x _ Hx Hprod) as (y & Hadd & Hy).
    destruct (IH (S i) y _ ltac:(lia) Hlen Hmax Hy) as (z & Hrun & Hz). exists z. split.
    + cbn [vk_x_loop]. rewrite Hs. msteps.
      rewrite (proj2 (checked_add_Some 32 (Z.of_nat i) 1 (Z.of_nat i + 1))) by (unfold zlength in Hmax; lia). msteps.
      replace (Z.to_nat (Z.of_nat i + 1)) with (S i) by lia. rewrite Hvb. msteps. rewrite Hmul. msteps. rewrite Hadd. msteps. done.
    + rewrite Hz. f_equal. rewrite (drop_S ps v (S i)) by done.
      rewrite (drop_S (be_value <$> pub) (be_value s) i) by (by rewrite list_lookup_fmap, Hs). done.
Qed.

Lemma equation_shift (alpha : G1) (beta gamma delta : G2) (x a : G1) (b : G2) (c : G1) :
  gt_mul (pair (g1_opp a) b) (gt_mul (pair alpha beta) (gt_mul (pair x gamma) (gt_mul (pair c delta) gt_one))) = gt_one <->
  groth16_equation alpha beta gamma delta x a b c.
Proof.
  unfold groth16_equation. rewrite gt_id_r, pair_opp. set (r := gt_mul (pair alpha beta) _). split.
  - intros H. rewrite <- (gt_id_r (pair a b)), <- H, gt_assoc, gt_inv_r, gt_id_l. done.
  - intros ->. apply gt_inv_l.
Qed.

End correctness.

(** ** When a computation returns an error

    [fails_only e P m]: [m] returns the error [e] only when [P] holds. *)

Definition fails_only {S E A} (e : E) (P : Prop) (m : M S E A) : Prop := forall s s', m s = (Fail e, s') -> P.

Section fails_only.
Context {S E : Type} (e : E) (P : Prop).

Lemma fails_bind_post {A B} (m : M S E A) (k : A -> M S E B) :
  fails_only e P m -> (forall a s s1, m s = (Ret a, s1) -> fails_only e P (k a)) -> fails_only e P (m ≫= k).
Proof.
  intros Hm Hk s s'. unfold mbind, M_bind. specialize (Hm s). destruct (m s) as [[a|e'|] s1] eqn:Em; [by eapply Hk | | done].
  intros [= -> ->]. by apply (Hm s').
Qed.
Lemma fails_bind {A B} (m : M S E A) (k : A -> M S E B) :
  fails_only e P m -> (forall a, fails_only e P (k a)) -> fails_only e P (m ≫= k).
Proof. intros Hm Hk. apply fails_bind_post; auto. Qed.
Lemma fails_mret {A} (a : A) : fails_only e P (mret a : M S E A). Proof. done. Qed.
Lemma fails_gets {A} (f : S -> A) : fails_only e P (gets f). Proof. done. Qed.
Lemma fails_modify f : fails_only e P (modify f : M S E unit). Proof. done. Qed.
Lemma fails_fail {A} e' : e' <> e -> fails_only e P (fail e' : M S E A). Proof. intros ? ? ? [= ->]. done. Qed.
Lemma fails_unwrap {A} (o : option A) : fails_only e P (unwrap o : M S E A). Proof. by destruct o. Qed.
Lemma fails_require {A} (o : option A) e' : e' <> e -> fails_only e P (require o e' : M S E A).
Proof. intros ?. destruct o; [done | by apply fails_fail]. Qed.
Lemma fails_fail_if b e' : e' <> e -> fails_only e P (fail_if b e' : M S E unit).
Proof. intros ?. destruct b; [by apply fails_fail | done]. Qed.
Lemma fails_fail_if_true b e' : (b = true -> P) -> fails_only e P (fail_if b e' : M S E unit).
Proof. intros H s s'. destruct b; [intros _; by apply H | done]. Qed.
Lemma fails_require_auth auth a : fails_only e P (require_auth auth a : M S E unit).
Proof. unfold require_auth. by destruct (auth a). Qed.
Lemma fails_ignore {A} (m : M S E A) : fails_only e P (ignore m).
Proof. intros s s'. unfold ignore. by destruct (m s) as [[a|e'|] s1]. Qed.
Lemma fails_for_each {A} (l : list A) (body : A -> M S E unit) : (forall x, fails_only e P (body x)) -> fails_only e P (for_each l body).
Proof. intros Hb. induction l; [done |]. cbn [for_each]. by apply fails_bind. Qed.
End fails_only.

Lemma fails_zoom {S T E F A} (part : S -> T) set_part (conv : E -> F) (m : M T E A) f P :
  (forall e, conv e <> f) -> fails_only f P (zoom part set_part conv m).
Proof. intros Hc s s'. unfold zoom. destruct (m (part s)) as [[a|e|] t]; [done | | done]. intros [= H _]. by destruct (Hc e). Qed.

Create HintDb fails.
#[export] Hint Resolve fails_mret fails_gets fails_modify fails_unwrap fails_require_auth fails_ignore : fails.
#[export] Hint Extern 1 (fails_only _ _ (require _ _)) => apply fails_require; discriminate : fails.
#[export] Hint Extern 1 (fails_only _ _ (fail_if _ _)) => apply fails_fail_if; discriminate : fails.
#[export] Hint Extern 1 (fails_only _ _ (fail _)) => apply fails_fail; discriminate : fails.

(** Descend into a computation, the leaves by the hints. *)
Ltac fails :=
  repeat lazymatch goal with
  | |- fails_only _ _ (_ ≫= _) => apply fails_bind; [| intros ?]
  | |- fails_only _ _ (if ?b then _ else _) => destruct b
  | |- fails_only _ _ (for_each _ _) => apply fails_for_each; intros ?
  | |- _ => solve [auto with fails]
  end.

(** ** The pool's view

    The generated client traps when the called contract returns an error. *)
Definition client_verify {host : Bn254Host} {vk : EmbeddedVk} (p : Groth16Proof) (inputs : list bytes) : option bool :=
  match invoke (groth16_verify p inputs) tt with
  | (Ret b, _) => Some b
  | _ => None
  end.

Lemma client_verify_not_false {host : Bn254Host} {vk : EmbeddedVk} p inputs : client_verify p inputs <> Some false.
Proof.
  unfold client_verify, invoke. destruct (groth16_verify p inputs tt) as [[b|e|] u] eqn:E; [| done | done].
  intros [= ->]. unfold groth16_verify, verify_with_vk in E.
  do 5 (apply bind_Ret in E as (? & ? & _ & E)). by case_match.
Qed.

Lemma verify_proof_true {Ledger} (call : Call) p (s : PoolState Ledger) b s' :
  (forall v q inputs, verify call v q inputs <> Some false) ->
  verify_proof call p s = (Ret b, s') -> b = true.
Proof.
  intros Hv Hrun. unfold verify_proof in Hrun. apply bind_Ret in Hrun as (? & ? & _ & Hrun).
  apply bind_Ret in Hrun as (ver & ? & _ & Hrun). apply bind_Ret in Hrun as (? & ? & _ & Hrun).
  apply unwrap_Ret in Hrun as [Hrun _]. destruct b; [done |]. by apply Hv in Hrun.
Qed.

Section pool_view.
Context {Ledger : Type} {env : PoolHost Ledger} {phost : HostPoseidon2}.
Variable call : Call.
Hypothesis Hverify : forall v q inputs, verify call v q inputs <> Some false.

Lemma fails_on_tree {A} (m : M MerkleStore MerkleError A) P : fails_only InvalidProof P (on_tree (Ledger := Ledger) m).
Proof. apply fails_zoom. by intros []. Qed.

Lemma fails_verify {A} p P (k : M (PoolState Ledger) PoolError A) :
  Groth16Proof_is_empty (proof p) = false -> fails_only InvalidProof P k ->
  fails_only InvalidProof P (is_valid ← verify_proof call p; fail_if (negb is_valid) InvalidProof;; k).
Proof using Hverify.
  intros Hne Hk. apply fails_bind_post.
  - unfold verify_proof. rewrite Hne. unfold get_verifier, validate_bn256_public_inputs, validate_bn256_public_input.
    apply fails_bind; [done |]. intros _. fails.
  - intros b s s1 E. by rewrite (verify_proof_true _ _ _ _ _ Hverify E).
Qed.

(** The association sets the pool asked disagree with the proof. *)
Definition asp_mismatch (p : Proof) : Prop :=
  exists am an rm rn, asp_get_root_of call am = Some rm /\ asp_get_root_of call an = Some rn /\
    (rm <> asp_membership_root p \/ rn <> asp_non_membership_root p).

Lemma fails_asp {A} p (k : M (PoolState Ledger) PoolError A) :
  fails_only InvalidProof (asp_mismatch p) k ->
  fails_only InvalidProof (asp_mismatch p)
    (member_root ← get_asp_membership_root call;
     non_member_root ← get_asp_non_membership_root call;
     fail_if (negb (member_root =? asp_membership_root p) || negb (non_member_root =? asp_non_membership_root p)) InvalidProof;;
     k).
Proof.
  intros Hk. unfold get_asp_membership_root, get_asp_non_membership_root, get_asp_membership, get_asp_non_membership.
  apply fails_bind_post; [fails |]. intros rm s s1 (am & ? & _ & [E1 _]%unwrap_Ret)%bind_Ret.
  apply fails_bind_post; [fails |]. intros rn s2 s3 (an & ? & _ & [E2 _]%unwrap_Ret)%bind_Ret.
  apply fails_bind; [| done]. apply fails_fail_if_true. intros [H | H]%orb_true_iff; exists am, an, rm, rn; (split_and!; [done | done |]).
  - left. by apply negb_true_iff, Z.eqb_neq in H.
  - right. by apply negb_true_iff, Z.eqb_neq in H.
Qed.

Lemma fails_transact p ext sender :
  Groth16Proof_is_empty (proof p) = false -> fails_only InvalidProof (asp_mismatch p) (transact call p ext sender).
Proof using Hverify.
  intros Hne. pose proof (@fails_on_tree) as Ht.
  unfold transact, internal_transact, get_token, get_maximum_deposit, i256_to_i128_nonneg, transfer, is_spent, get_nullifiers,
    calculate_public_amount, i256_abs_to_u256.
  repeat lazymatch goal with
  | |- fails_only _ _ (verify_proof _ _ ≫= _) => apply fails_verify; [done |]
  | |- fails_only _ _ (get_asp_membership_root _ ≫= _) => apply fails_asp
  | |- fails_only _ _ (_ ≫= _) => apply fails_bind; [| intros ?]
  | |- fails_only _ _ (on_tree _) => apply Ht
  | |- _ => fails
  end.
Qed.

End pool_view.

(** A host over the integers: a point is its discrete logarithm, the pairing their product. *)
#[export] Instance ref_bn254 : Bn254Host := {|
  g1_neg := fun x => match x with [a] => Some [- a] | _ => None end;
  g1_add := fun x y => match x, y with [a], [b] => Some [a + b] | _, _ => None end;
  g1_mul := fun x s => match x with [a] => Some [be_value s * a] | _ => None end;
  pairing_check := fun xs ys =>
    if forallb (fun x => (length x =? 1)%nat) (xs ++ ys) then
      Some (foldr (fun p acc => match p with ([a], [b]) => a * b + acc | _ => acc end) 0 (zip xs ys) =? 0)
    else None;
|}.

Lemma ref_dec_all (xs : list bytes) (ps : list Z) :
  Forall2 (fun x a => match x with [b] => Some b | _ => None end = Some a) xs ps -> xs = (fun a => [a]) <$> ps.
Proof. induction 1 as [|[|b [|? ?]] a xs ps Hx _ IH]; [done | done | | done]. injection Hx as ->. by rewrite IH. Qed.

Lemma ref_single_all (ps : list Z) : forallb (fun x => (length x =? 1)%nat) ((fun a => [a]) <$> ps) = true.
Proof. induction ps; cbn; auto. Qed.

Definition ref_dec (x : bytes) : option Z := match x with [a] => Some a | _ => None end.

Lemma ref_neg x a : ref_dec x = Some a -> exists y, g1_neg x = Some y /\ ref_dec y = Some (- a).
Proof. destruct x as [|b [|? ?]]; intros [= ->]. by exists [- a]. Qed.

Lemma ref_add x y a b : ref_dec x = Some a -> ref_dec y = Some b -> exists z, g1_add x y = Some z /\ ref_dec z = Some (a + b).
Proof. destruct x as [|a' [|? ?]], y as [|b' [|? ?]]; intros [= ->] [= ->]. by exists [a + b]. Qed.

Lemma ref_mul x s a : ref_dec x = Some a -> length s = 32%nat -> exists z, g1_mul x s = Some z /\ ref_dec z = Some (be_value s * a).
Proof. destruct x as [|b [|? ?]]; intros [= ->] _. by exists [be_value s * a]. Qed.

Lemma ref_pairing xs ys ps qs :
  Forall2 (fun x a => ref_dec x = Some a) xs ps -> Forall2 (fun y b => ref_dec y = Some b) ys qs -> length ps = length qs ->
  exists b, pairing_check xs ys = Some b /\ (b = true <-> foldr (fun p acc => p.1 * p.2 + acc) 0 (zip ps qs) = 0).
Proof.
  intros ->%ref_dec_all ->%ref_dec_all Hlen. unfold pairing_check, ref_bn254. rewrite <- fmap_app, ref_single_all.
  eexists. split; [reflexivity |]. rewrite Z.eqb_eq.
  assert (forall (ps qs : list Z),
    foldr (fun p acc => match p with ([a], [b]) => a * b + acc | _ => acc end) 0
      (zip ((fun a => [a]) <$> ps) ((fun a => [a]) <$> qs)) = foldr (fun p acc => p.1 * p.2 + acc) 0 (zip ps qs)) as ->; [| done].
  clear. intros ps. induction ps as [|a ps IH]; intros [|b qs]; cbn; [done .. |]. by rewrite IH.
Qed.

#[export] Instance ref_bn254_laws : Bn254Laws ref_bn254 := {|
  G1 := Z; G2 := Z; GT := Z; g1_dec := ref_dec; g2_dec := ref_dec;
  g1_opp := Z.opp; g1_plus := Z.add; g1_smul := Z.mul; gt_one := 0; gt_mul := Z.add; gt_inv := Z.opp; pair := Z.mul;
  gt_assoc := Z.add_assoc; gt_id_l := Z.add_0_l; gt_id_r := Z.add_0_r; gt_inv_l := Z.add_opp_diag_l;
  gt_inv_r := Z.add_opp_diag_r; pair_opp := Z.mul_opp_l;
  host_neg := ref_neg; host_add := ref_add; host_mul := ref_mul; host_pairing := ref_pairing;
|}.

(** ** The claims *)

(** C37. The verifier checks the Groth16 equation: for a verification key and a proof that
    denote curve points, with one key point more than public inputs, it answers [Ok(true)]
    exactly when e(A, B) = e(alpha, beta) e(X, gamma) e(C, delta) for the input commitment
    X = IC0 + sum s_i IC(i+1), and the error [InvalidProof] otherwise; with any other
    number of public inputs it answers [MalformedPublicInputs]; it never answers
    [Ok(false)]. *)
Theorem groth16_verify_correct (host : Bn254Host) (laws : Bn254Laws host) (vk : VerificationKey) (p : Groth16Proof)
    (pub : list bytes) (alpha a c ic0 : G1) (beta gamma delta b : G2) (ics : list G1) :
  vk_denotes vk alpha beta gamma delta ic0 ics -> proof_denotes p a b c ->
  Forall (fun s => length s = 32%nat) pub -> zlength pub < 2 ^ 32 - 1 ->
  let x := input_commitment ic0 ics (be_value <$> pub) in
  (length pub = length ics ->
    (verify_with_vk vk p pub tt = (Ret true, tt) <-> groth16_equation alpha beta gamma delta x a b c) /\
    (verify_with_vk vk p pub tt = (Fail G16_InvalidProof, tt) <-> ~ groth16_equation alpha beta gamma delta x a b c)) /\
  (length pub <> length ics -> verify_with_vk vk p pub tt = (Fail G16_MalformedPublicInputs, tt)).
Proof.
  intros Hvk Hp Hpub Hmax x. pose proof (Forall2_length _ _ _ (den_ic _ _ _ _ _ _ _ Hvk)) as Hic. cbn [length] in Hic.
  assert (checked_add 32 (zlength pub) 1 = Some (zlength pub + 1)) as Hadd by (apply checked_add_Some; lia). split.
  - intros Hlen. unfold verify_with_vk. rewrite Hadd, bool_decide_true by (unfold zlength; f_equal; lia). cbn [negb fail_if]. msteps.
    destruct (vk_ic vk) as [|ic icrest] eqn:Eic; [done |]. pose proof (den_ic _ _ _ _ _ _ _ Hvk) as Hden. rewrite Eic in Hden.
    apply Forall2_cons in Hden as [Hd0 Hdr].
    change ((ic :: icrest) !! 0%nat) with (Some ic). msteps.
    destruct (vk_x_loop_run (ic :: icrest) (ic0 :: ics) pub (length pub) 0 ic ic0) as (y & Hrun & Hy);
      [by constructor | done | lia | cbn; lia | done | done |].
    cbn [drop] in Hy. rewrite (bind_run _ _ _ _ _ Hrun).
    destruct (host_neg (g16_a p) a (den_a _ _ _ _ Hp)) as (na & -> & Hna). msteps.
    destruct (host_pairing [na; vk_alpha vk; y; g16_c p] [g16_b p; vk_beta vk; vk_gamma vk; vk_delta vk]
                [g1_opp a; alpha; x; c] [b; beta; gamma; delta]) as (valid & -> & Hvalid).
    + repeat constructor; [done | by apply Hvk | done | by apply Hp].
    + repeat constructor; [by apply Hp | by apply Hvk ..].
    + done.
    + msteps. cbn [zip zip_with foldr fst snd] in Hvalid. rewrite equation_shift in Hvalid. rewrite <- Hvalid.
      destruct valid; (split; split; intros; (done || congruence || tauto)).
  - intros Hlen. unfold verify_with_vk. rewrite Hadd, bool_decide_false; [done |].
    intros [= E]. unfold zlength in E. lia.
Qed.

Lemma groth16_verify_correct_witness :
  verify_with_vk {| vk_alpha := [2]; vk_beta := [3]; vk_gamma := [1]; vk_delta := [5]; vk_ic := [[10]; [4]] |}
    {| g16_a := [61]; g16_b := [1]; g16_c := [1] |} [repeat 0 31 ++ [10]] tt = (Ret true, tt).
Proof.
  refine (proj2 (proj1 (proj1 (groth16_verify_correct ref_bn254 ref_bn254_laws
    {| vk_alpha := [2]; vk_beta := [3]; vk_gamma := [1]; vk_delta := [5]; vk_ic := [[10]; [4]] |}
    {| g16_a := [61]; g16_b := [1]; g16_c := [1] |} [repeat 0 31 ++ [10]] 2 61 1 10 3 1 5 1 [4] _ _ _ _) _)) _).
  - split; try reflexivity. repeat constructor.
  - split; reflexivity.
  - repeat constructor.
  - vm_compute. reflexivity.
  - reflexivity.
  - vm_compute. reflexivity.
Defined.

(** A rejected proof reaches the pool as a trap, never as [InvalidProof]: with the
    verifier contract behind the pool's client, for a proof whose points are not empty, the
    transaction handler returns the error [InvalidProof] only when one of the association
    sets it asked has another root than the proof's. *)
Theorem pool_invalid_proof_cause (host : Bn254Host) (vk : EmbeddedVk) (Ledger : Type) (env : PoolHost Ledger)
    (phost : HostPoseidon2) (call : Call) (p : Proof) (ext : ExtData) (sender : Address) (s s' : PoolState Ledger) :
  verify call = (fun _ => client_verify) -> Groth16Proof_is_empty (proof p) = false ->
  invoke (transact call p ext sender) s = (Fail InvalidProof, s') -> asp_mismatch call p.
Proof.
  intros Hcall Hne Hrun.
  assert (fails_only InvalidProof (asp_mismatch call p) (transact call p ext sender)) as Hf.
  { apply fails_transact; [| done]. intros v q inputs. rewrite Hcall. apply client_verify_not_false. }
  unfold invoke in Hrun. destruct (transact call p ext sender s) as [[r|e|] s1] eqn:E; [done | | done].
  injection Hrun as -> _. by apply (Hf _ _ E).
Qed.

#[export] Instance demo_vk : EmbeddedVk :=
  {| VK_ALPHA_G1 := [2]; VK_BETA_G2 := [3]; VK_GAMMA_G2 := [1]; VK_DELTA_G2 := [5]; VK_IC := [[10]; [4]] |}.

(** The membership contract moved on to another root. *)
Definition stale_call : Call :=
  {| authorised a := bool_decide (a = "alice"); asp_get_root_of _ := Some 99; verify := fun _ => client_verify |}.

Definition demo_pool : PoolState RefLedger :=
  (pool_constructor "admin" "token" "verifier" "aspm" "aspn" 1000 3
     (empty_pool {[ ("token", "alice") := 50 ]})).2.

Lemma pool_invalid_proof_cause_witness : asp_mismatch stale_call wit_proof.
Proof.
  apply (pool_invalid_proof_cause ref_bn254 demo_vk RefLedger ref_pool_host ref_host_poseidon2 stale_call wit_proof wit_ext "alice"
           demo_pool demo_pool).
  - reflexivity.
  - reflexivity.
  - vm_compute. reflexivity.
Defined.

(** Proof encodings: 256 bytes decode to the three points they concatenate, of the
    sizes of two G1 points and one G2 point, never empty; any other length is refused as
    [MalformedProof]; decoding never traps. *)
Theorem proof_bytes_decode (value : bytes) :
  (zlength value = 256 -> exists p, Groth16Proof_try_from value = Some (Ok p) /\
     g16_a p ++ g16_b p ++ g16_c p = value /\ length (g16_a p) = 64%nat /\ length (g16_b p) = 128%nat /\
     length (g16_c p) = 64%nat /\ Groth16Proof_is_empty p = false) /\
  (zlength value <> 256 -> Groth16Proof_try_from value = Some (Err G16_MalformedProof)).
Proof.
  unfold Groth16Proof_try_from. change PROOF_SIZE with 256. change G1_SIZE with 64. change G2_SIZE with 128. split.
  - intros Hlen. rewrite Hlen. rewrite !slice_Some by lia. cbn [Z.eqb Pos.eqb negb mbind option_bind].
    change (Z.to_nat (64 - 0)) with 64%nat. change (Z.to_nat 0) with 0%nat. change (Z.to_nat (64 + 128 - 64)) with 128%nat.
    change (Z.to_nat 64) with 64%nat. change (Z.to_nat (256 - (64 + 128))) with 64%nat. change (Z.to_nat (64 + 128)) with 192%nat.
    unfold zlength in Hlen.
    set (a := take 64 (drop 0 value)). set (b := take 128 (drop 64 value)). set (c := take 64 (drop 192 value)).
    assert (length a = 64%nat /\ length b = 128%nat /\ length c = 64%nat) as (La & Lb & Lc).
    { unfold a, b, c. rewrite !length_take, !length_drop. lia. }
    assert (forall n x, zlength x = n -> try_into_bytes n x = Ok x) as Hti.
    { intros n x <-. unfold try_into_bytes. by rewrite Z.eqb_refl. }
    rewrite (Hti 64 a), (Hti 128 b), (Hti 64 c) by (unfold zlength; lia). cbn [mbind result_bind].
    eexists. split; [reflexivity |]. cbn [g16_a g16_b g16_c]. split_and!; [| done .. |].
    + unfold a, b, c. rewrite drop_0, (take_ge (drop 192 value)) by (rewrite length_drop; lia).
      rewrite <- (take_drop 64 value) at 4. f_equal. rewrite <- (take_drop 128 (drop 64 value)) at 2. by rewrite drop_drop.
    + unfold Groth16Proof_is_empty. cbn [g16_a g16_b g16_c]. by destruct a, b, c.
  - intros Hlen. rewrite (proj2 (Z.eqb_neq _ _)) by done. done.
Qed.

Lemma proof_bytes_decode_witness : exists p, Groth16Proof_try_from (repeat 7 256) = Some (Ok p) /\ g16_a p = repeat 7 64.
Proof.
  destruct (proj1 (proof_bytes_decode (repeat 7 256)) eq_refl) as (p & H & _). exists p. split; [exact H |].
  assert (Groth16Proof_try_from (repeat 7 256) =
          Some (Ok {| g16_a := repeat 7 64; g16_b := repeat 7 128; g16_c := repeat 7 64 |})) as E by (vm_compute; reflexivity).
  rewrite E in H. injection H as <-. reflexivity.
Defined.
