(* ===== verification/Registry.v ===== *)
(** * The public-key registry ([contracts/public-key-registry/src/lib.rs])

    Registrations per owner in storage and one event per change; the event stream from
    which other users learn the keys determines the stored registrations. *)

From S2P Require Import Prelude Ints Soroban.

Record Account : Type := {
  owner : Address;
  account_encryption_key : bytes;
  account_note_key : bytes;
}.

Record Registration : Type := {
  encryption_key : bytes;
  note_key : bytes;
}.

#[export] Instance Registration_eq_dec : EqDecision Registration.
Proof. solve_decision. Defined.

Record PublicKeyEvent : Type := {
  event_owner : Address;
  event_encryption_key : bytes;
  event_note_key : bytes;
}.

(** The entries under [DataKey::Registration] and the events, newest first. *)
Record RegistryStore : Type := {
  registrations : gmap string Registration;
  registry_events : list PublicKeyEvent;
}.

Definition empty_registry : RegistryStore := {| registrations := ∅; registry_events := [] |}.

(** [assert_eq!(a, b)]. *)
Definition assert_eq {S E} (a b : Z) : M S E unit := if a =? b then mret tt else trap.

Definition register (authorised : Address -> bool) (account : Account) : M RegistryStore Empty_set unit :=
  require_auth authorised (owner account);;
  assert_eq (zlength (account_encryption_key account)) 32;;
  assert_eq (zlength (account_note_key account)) 32;;
  let next := {| encryption_key := account_encryption_key account; note_key := account_note_key account |} in
  stored ← gets (fun s => registrations s !! owner account);
  if bool_decide (stored = Some next) then mret tt
  else
    modify (fun s => {| registrations := <[owner account := next]> (registrations s); registry_events := registry_events s |});;
    modify (fun s => {| registrations := registrations s;
                        registry_events := {| event_owner := owner account;
                                              event_encryption_key := account_encryption_key account;
                                              event_note_key := account_note_key account |} :: registry_events s |}).

(** ** What a reader of the events learns *)

Definition event_registration (e : PublicKeyEvent) : Registration :=
  {| encryption_key := event_encryption_key e; note_key := event_note_key e |}.

(** The registrations after replaying the events, oldest last. *)
Definition replay (es : list PublicKeyEvent) : gmap string Registration :=
  foldr (fun e m => <[event_owner e := event_registration e]> m) ∅ es.

(** A call is valid when the owner authorised it and both keys have 32 bytes. *)
Definition valid_registration (authorised : Address -> bool) (a : Account) : bool :=
  authorised (owner a) && (zlength (account_encryption_key a) =? 32) && (zlength (account_note_key a) =? 32).

Definition account_registration (a : Account) : Registration :=
  {| encryption_key := account_encryption_key a; note_key := account_note_key a |}.

Definition account_event (a : Account) : PublicKeyEvent :=
  {| event_owner := owner a; event_encryption_key := account_encryption_key a; event_note_key := account_note_key a |}.

Lemma register_run authorised a s :
  register authorised a s =
  if valid_registration authorised a then
    (Ret tt,
     if bool_decide (registrations s !! owner a = Some (account_registration a)) then s
     else {| registrations := <[owner a := account_registration a]> (registrations s);
             registry_events := account_event a :: registry_events s |})
  else (Trap, s).
Proof.
  unfold register, valid_registration, require_auth, assert_eq. destruct (authorised (owner a)); cbn [andb]; [| done]. msteps.
  destruct (zlength (account_encryption_key a) =? 32); cbn [andb]; [| done]. msteps.
  destruct (zlength (account_note_key a) =? 32); [| done]. msteps. fold (account_registration a).
  by destruct (bool_decide (registrations s !! owner a = Some (account_registration a))).
Qed.

(** A sequence of calls, with what each answered. *)
Fixpoint register_all (calls : list ((Address -> bool) * Account)) (s : RegistryStore) : RegistryStore :=
  match calls with
  | [] => s
  | (authorised, a) :: calls => register_all calls (invoke (register authorised a) s).2
  end.

(** The last valid call of an owner. *)
Fixpoint last_valid (o : Address) (calls : list ((Address -> bool) * Account)) : option Registration :=
  match calls with
  | [] => None
  | (authorised, a) :: calls =>
      match last_valid o calls with
      | Some r => Some r
      | None => if valid_registration authorised a && bool_decide (owner a = o) then Some (account_registration a) else None
      end
  end.

(** No event repeats the registration its owner already had. *)
Fixpoint no_repeat (es : list PublicKeyEvent) : Prop :=
  match es with
  | [] => True
  | e :: es => replay es !! event_owner e <> Some (event_registration e) /\ no_repeat es
  end.

Record registry_ok (s : RegistryStore) : Prop := {
  registry_replay : registrations s = replay (registry_events s);
  registry_no_repeat : no_repeat (registry_events s);
  registry_sizes : forall o r, registrations s !! o = Some r -> zlength (encryption_key r) = 32 /\ zlength (note_key r) = 32;
}.

Lemma invoke_register authorised a s :
  (invoke (register authorised a) s).2 =
  if valid_registration authorised a && negb (bool_decide (registrations s !! owner a = Some (account_registration a)))
  then {| registrations := <[owner a := account_registration a]> (registrations s);
          registry_events := account_event a :: registry_events s |}
  else s.
Proof.
  unfold invoke. rewrite register_run. destruct (valid_registration authorised a); [| done].
  by destruct (bool_decide (registrations s !! owner a = Some (account_registration a))).
Qed.

Lemma register_ok authorised a s : registry_ok s -> registry_ok (invoke (register authorised a) s).2.
Proof.
  intros [Hr Hn Hs]. rewrite invoke_register. destruct (valid_registration authorised a) eqn:Ev; cbn [andb]; [| done].
  destruct (bool_decide_reflect (registrations s !! owner a = Some (account_registration a))) as [He | Hne]; cbn [negb]; [done |].
  unfold valid_registration in Ev. rewrite !andb_true_iff, !Z.eqb_eq in Ev. destruct Ev as [[_ H1] H2]. split; cbn [registrations registry_events].
  - by rewrite Hr.
  - split; [| done]. by rewrite <- Hr.
  - intros o r. rewrite lookup_insert_Some. intros [[_ <-] | [_ H]]; [done | by eapply Hs].
Qed.

Lemma register_lookup authorised a s o :
  registrations (invoke (register authorised a) s).2 !! o =
  if valid_registration authorised a && bool_decide (owner a = o) then Some (account_registration a) else registrations s !! o.
Proof.
  rewrite invoke_register. destruct (valid_registration authorised a); cbn [andb]; [| done].
  destruct (bool_decide_reflect (registrations s !! owner a = Some (account_registration a))) as [He | Hne]; cbn [negb registrations].
  - destruct (bool_decide_reflect (owner a = o)) as [<- | ]; done.
  - destruct (bool_decide_reflect (owner a = o)) as [<- | ]; [by rewrite lookup_insert_eq | by rewrite lookup_insert_ne].
Qed.

Lemma register_all_spec calls s o :
  registry_ok s ->
  registry_ok (register_all calls s) /\
  registrations (register_all calls s) !! o = match last_valid o calls with Some r => Some r | None => registrations s !! o end.
Proof.
  revert s. induction calls as [|[authorised a] calls IH]; intros s Hok; [done |]. cbn [register_all last_valid].
  destruct (IH _ (register_ok authorised a s Hok)) as [Hok' Hl]. split; [done |]. rewrite Hl, register_lookup.
  destruct (last_valid o calls); [done |]. by destruct (valid_registration authorised a && bool_decide (owner a = o)).
Qed.

(** The registry holds for every owner the keys of the last call the owner authorised
    with keys of 32 bytes, whatever else was called; and the published events say the same:
    replaying them gives the stored registrations, and no event repeats the keys its owner
    already had. *)
Theorem registry_latest (calls : list ((Address -> bool) * Account)) (o : Address) :
  let s := register_all calls empty_registry in
  registrations s !! o = last_valid o calls /\
  registrations s = replay (registry_events s) /\ no_repeat (registry_events s) /\
  (forall r, registrations s !! o = Some r -> zlength (encryption_key r) = 32 /\ zlength (note_key r) = 32).
Proof.
  intros s. destruct (register_all_spec calls empty_registry o) as [Hok Hl].
  { split; [done | done |]. intros o' r. cbn. by rewrite lookup_empty. }
  fold s in Hok, Hl. destruct Hok. split_and!; [| done | done | by intros r; apply registry_sizes0].
  rewrite Hl. cbn. rewrite lookup_empty. by destruct (last_valid o calls).
Qed.
