(* ===== verification/PrefixTree.v ===== *)
(** * The client's Merkle trees ([sdk/prover/src/merkle.rs], [circuits/src/core/merkle.rs])

    The SDK rebuilds the contracts' append-only trees from the leaves it saw, without
    the padding: [MerklePrefixTree] computes roots, its built variant also proofs; the
    circuits' helpers do the same on a full list of leaves.  All are proved equal to the
    tree of [MerkleSpec.v], so that a client's root is the contract's and its proofs
    open it. *)

From S2P Require Import Prelude Ints Amounts Poseidon2 Poseidon2Tables Hashes Serialization Soroban MerkleSpec.

(** The [anyhow] errors, one constructor per message. *)
Inductive TreeError : Type :=
| DepthRange                       (** "Depth must be between 1 and 32" *)
| ZeroLeafBytes                    (** "zero leaf: expected 32 bytes" *)
| LeafIndexRange (index : Z) (leaves : nat)
| TreeField (e : AmountError).

(** A panic ([None]) inside a fallible function. *)
Abbreviation fallible A := (option (result TreeError A)).

Definition hash_pair (left right : Field) : option Field :=
  let left_s := field_to_scalar left in
  let right_s := field_to_scalar right in
  hashed ← poseidon2_compression left_s right_s;
  scalar_to_field hashed.

(** ** The prefix tree *)

Record MerklePrefixTree : Type := {
  pt_depth : nat;
  pt_leaves : list Field;
  pt_empty : list Field;
}.

Record MerklePrefixTreeBuilt : Type := {
  ptb_depth : nat;
  ptb_empty : list Field;
  ptb_levels : list (list Field);
}.

Record MerkleProof : Type := {
  path_elements : list Field;
  path_indices : Field;
  proof_root : Field;
  proof_levels : nat;
}.

(** [for i in 0..depth { empty.push(hash_pair(empty[i], empty[i])) }]. *)
Fixpoint empty_chain (n : nat) (z : Field) : option (list Field) :=
  match n with
  | O => Some [z]
  | S n =>
      h ← hash_pair z z;
      zs ← empty_chain n h;
      Some (z :: zs)
  end.

Definition MerklePrefixTree_new (depth : Z) (leaves : list Field) : fallible MerklePrefixTree :=
  if (depth =? 0) || (32 <? depth) then Some (Err DepthRange)
  else
    let zero_leaf_le := rev ZERO_LEAF_BYTES in
    if negb (bool_decide (length zero_leaf_le = 32%nat)) then Some (Err ZeroLeafBytes)
    else
      match Field_try_from_le_bytes zero_leaf_le with
      | Err e => Some (Err (TreeField e))
      | Ok zero =>
          empty ← empty_chain (Z.to_nat depth) zero;
          Some (Ok {| pt_depth := Z.to_nat depth; pt_leaves := leaves; pt_empty := empty |})
      end.

Definition pt_leaf_count (t : MerklePrefixTree) : nat := length (pt_leaves t).

(** One level of hashing: [div_ceil(2)] pairs, the missing right node the empty one. *)
Definition next_level (empty_node : Field) (nodes : list Field) : option (list Field) :=
  let next_len := ((length nodes + 1) / 2)%nat in
  mapM (fun i =>
    let left := default empty_node (nodes !! (2 * i)%nat) in
    let right := default empty_node (nodes !! (2 * i + 1)%nat) in
    hash_pair left right) (seq 0 next_len).

Definition or_empty (empty_node : Field) (nodes : list Field) : list Field :=
  match nodes with [] => [empty_node] | _ => nodes end.

(** The loop of [build_from_parts], from [level] on with [nodes] the level's nodes: the
    levels it leaves behind. *)
Fixpoint build_levels (n level : nat) (empty nodes : list Field) : option (list (list Field)) :=
  match n with
  | O => Some [nodes]
  | S n =>
      empty_node ← empty !! level;
      let nodes := or_empty empty_node nodes in
      next ← next_level empty_node nodes;
      rest ← build_levels n (S level) empty next;
      Some (nodes :: rest)
  end.

Definition build_from_parts (depth : nat) (leaves empty : list Field) : option MerklePrefixTreeBuilt :=
  levels ← build_levels depth 0 empty leaves;
  Some {| ptb_depth := depth; ptb_empty := empty; ptb_levels := levels |}.

Definition pt_build (t : MerklePrefixTree) : option MerklePrefixTreeBuilt :=
  build_from_parts (pt_depth t) (pt_leaves t) (pt_empty t).

(** The loop of [root]. *)
Fixpoint hash_levels (n level : nat) (empty nodes : list Field) : option (list Field) :=
  match n with
  | O => Some nodes
  | S n =>
      empty_node ← empty !! level;
      next ← next_level empty_node (or_empty empty_node nodes);
      hash_levels n (S level) empty next
  end.

Definition pt_root (t : MerklePrefixTree) : fallible Field :=
  nodes ← hash_levels (pt_depth t) 0 (pt_empty t) (pt_leaves t);
  match nodes with
  | n :: _ => Some (Ok n)
  | [] => e ← pt_empty t !! pt_depth t; Some (Ok e)
  end.

(** ** The built tree *)

Definition ptb_leaf_count (t : MerklePrefixTreeBuilt) : nat :=
  match ptb_levels t with leaves :: _ => length leaves | [] => 0%nat end.

Definition ptb_root (t : MerklePrefixTreeBuilt) : fallible Field :=
  match ptb_levels t !! ptb_depth t with
  | Some (n :: _) => Some (Ok n)
  | _ => e ← ptb_empty t !! ptb_depth t; Some (Ok e)
  end.

Fixpoint proof_loop (levels : list (list Field)) (empty : list Field) (n level current_index : nat) (bits : Z)
  : option (list Field * Z) :=
  match n with
  | O => Some ([], bits)
  | S n =>
      let sib_index := Nat.lxor current_index 1 in
      nodes ← levels !! level;
      empty_node ← empty !! level;
      let sib := default empty_node (nodes !! sib_index) in
      let bits := if Nat.even current_index then bits else Z.lor bits (Z.shiftl 1 (Z.of_nat level)) in
      r ← proof_loop levels empty n (S level) (current_index / 2) bits;
      Some (sib :: r.1, r.2)
  end.

Definition ptb_proof (t : MerklePrefixTreeBuilt) (index : Z) : fallible MerkleProof :=
  let idx_usize := Z.to_nat index in
  if (ptb_leaf_count t <=? idx_usize)%nat then Some (Err (LeafIndexRange index (ptb_leaf_count t)))
  else
    r ← proof_loop (ptb_levels t) (ptb_empty t) (ptb_depth t) 0 idx_usize 0;
    let '(path, bits) := r in
    match Field_try_from_le_bytes (le_bytes 8 bits ++ replicate 24 0) with
    | Err e => Some (Err (TreeField e))
    | Ok indices =>
        root ← ptb_root t;
        match root with
        | Err e => Some (Err e)
        | Ok root =>
            Some (Ok {| path_elements := path; path_indices := indices; proof_root := root; proof_levels := ptb_depth t |})
        end
    end.

(** ** The circuits' helpers on a full list of leaves *)

Fixpoint compress_pairs (nodes : list Z) : option (list Z) :=
  match nodes with
  | a :: b :: nodes =>
      h ← poseidon2_compression a b;
      hs ← compress_pairs nodes;
      Some (h :: hs)
  | _ => Some []
  end.

Definition is_power_of_two (n : nat) : bool := (0 <? n)%nat && (n =? 2 ^ Nat.log2 n)%nat.

(** [while leaves.len() > 1]; each round halves the list, so [length] rounds are enough. *)
Fixpoint merkle_root_loop (fuel : nat) (leaves : list Z) : option (list Z) :=
  match fuel with
  | O => Some leaves
  | S fuel =>
      if (1 <? length leaves)%nat then
        next ← compress_pairs leaves;
        merkle_root_loop fuel next
      else Some leaves
  end.

Definition merkle_root (leaves : list Z) : option Z :=
  if negb (is_power_of_two (length leaves)) then None
  else
    nodes ← merkle_root_loop (length leaves) leaves;
    nodes !! 0%nat.

Fixpoint merkle_proof_loop (n : nat) (level_nodes : list Z) (index : nat) : option (list Z * list Z) :=
  match n with
  | O => Some ([], [])
  | S n =>
      sib_index ← (if Nat.even index then Some (index + 1)%nat else if (index =? 0)%nat then None else Some (index - 1)%nat);
      sib ← level_nodes !! sib_index;
      next ← compress_pairs level_nodes;
      r ← merkle_proof_loop n next (index / 2);
      Some (sib :: r.1, Z.of_nat (index mod 2) :: r.2)
  end.

(** [for (i, b) in bits.enumerate() { path_indices |= b << i }]. *)
Definition pack_bits (bits : list Z) : Z := foldl Z.lor 0 (imap (fun i b => Z.shiftl b (Z.of_nat i)) bits).

Definition merkle_proof (leaves : list Z) (index : nat) : option (list Z * Z * nat) :=
  if negb (is_power_of_two (length leaves)) then None
  else
    let levels := Nat.log2 (length leaves) in
    r ← merkle_proof_loop levels leaves index;
    Some (r.1, pack_bits r.2, levels).

(** ** The check of a proof

    As the circuits do it: hash up from the leaf, the sibling on the side the bit of the
    index says. *)

Definition path_step (cur sibling : Z) (right : bool) : option Z :=
  if right then poseidon2_compression sibling cur else poseidon2_compression cur sibling.

Definition path_root (leaf : Z) (path : list Z) (index : nat) : option Z :=
  fst <$> foldl (fun st e =>
    st ← st; h ← path_step st.1 e (Nat.odd st.2); Some (h, (st.2 / 2)%nat)) (Some (leaf, index)) path.

(** ** Indices *)

Lemma lxor_1 i : Nat.lxor i 1 = if Nat.even i then (i + 1)%nat else (i - 1)%nat.
Proof.
  assert (forall k, Nat.lxor (2 * k) 1 = 2 * k + 1 /\ Nat.lxor (2 * k + 1) 1 = 2 * k)%nat as H.
  { intros k. split; apply Nat.bits_inj; intros [|n]; rewrite Nat.lxor_spec.
    - by rewrite Nat.testbit_even_0, Nat.testbit_odd_0.
    - rewrite Nat.testbit_even_succ', Nat.testbit_odd_succ'. change 1%nat with (2 * 0 + 1)%nat.
      rewrite Nat.testbit_odd_succ', Nat.bits_0. by rewrite xorb_false_r.
    - by rewrite Nat.testbit_odd_0, Nat.testbit_even_0.
    - rewrite Nat.testbit_even_succ', Nat.testbit_odd_succ'. change 1%nat with (2 * 0 + 1)%nat.
      rewrite Nat.testbit_odd_succ', Nat.bits_0. by rewrite xorb_false_r. }
  destruct (Nat.even i) eqn:Ei.
  - apply Nat.even_spec in Ei as [k ->]. apply H.
  - assert (Nat.odd i = true) as [k ->]%Nat.odd_spec by (unfold Nat.odd; by rewrite Ei). rewrite (proj2 (H k)). lia.
Qed.

(** Setting a bit above [b]. *)
Lemma lor_high b l : 0 <= b < 2 ^ Z.of_nat l -> Z.lor b (Z.shiftl 1 (Z.of_nat l)) = b + 2 ^ Z.of_nat l.
Proof.
  intros Hb. rewrite Z.shiftl_1_l. pose proof (Z.add_lor_land b (2 ^ Z.of_nat l)) as E.
  assert (Z.land b (2 ^ Z.of_nat l) = 0) as H0; [| lia]. apply Z.bits_inj'. intros n Hn.
  rewrite Z.land_spec, Z.bits_0, Z.pow2_bits_eqb by lia. destruct (Z.eqb_spec (Z.of_nat l) n) as [<- | ]; [| apply andb_false_r].
  rewrite andb_true_r. destruct (decide (b = 0)) as [-> | ]; [apply Z.bits_0 |].
  apply Z.bits_above_log2; [lia |]. apply Z.log2_lt_pow2; lia.
Qed.

Lemma mod_step i n : (i mod 2 ^ S n = i mod 2 + 2 * ((i / 2) mod 2 ^ n))%nat.
Proof. rewrite Nat.pow_succ_r'. apply Nat.Div0.mod_mul_r. Qed.

Lemma even_mod i : (i mod 2 = if Nat.even i then 0 else 1)%nat.
Proof.
  destruct (Nat.even i) eqn:E.
  - apply Nat.even_spec in E as [k ->]. by rewrite Nat.mul_comm, Nat.Div0.mod_mul.
  - assert (Nat.odd i = true) as [k ->]%Nat.odd_spec by (unfold Nat.odd; by rewrite E).
    rewrite Nat.add_comm, Nat.mul_comm, Nat.Div0.mod_add. done.
Qed.

(** ** Hashing field elements *)

Section tree.
Context {host : HostPoseidon2} {laws : HostPoseidon2Laws host}.

Lemma hash_pair_hash2 l r : in_field l -> in_field r -> hash_pair l r = Some (hash2 poseidon2_compress l r).
Proof using laws.
  intros Hl Hr. unfold hash_pair. rewrite !field_to_scalar_id by done.
  rewrite <- poseidon2_compress_field by done. rewrite (compress_hash2 poseidon2_compress) by done.
  cbn [mbind option_bind]. apply scalar_to_field_id. apply hash2_field; [apply _ | done | done].
Qed.

Lemma compression_hash2 l r : in_field l -> in_field r -> poseidon2_compression l r = Some (hash2 poseidon2_compress l r).
Proof using laws. intros Hl Hr. rewrite <- poseidon2_compress_field by done. by apply (compress_hash2 poseidon2_compress). Qed.

(** The empty nodes are the contract's zero hashes. *)
Lemma empty_chain_from i n z :
  (i + n <= 32)%nat -> get_zeroes !! i = Some z -> empty_chain n z = Some (take (S n) (drop i get_zeroes)).
Proof using laws.
  revert i z. induction n as [|n IH]; intros i z Hn Hz; cbn [empty_chain].
  - by rewrite (drop_S _ _ _ Hz).
  - destruct (lookup_lt_is_Some_2 get_zeroes (S i)) as [z' Hz']; [change (length get_zeroes) with 33%nat; lia |].
    pose proof get_zeroes_field as Hf. rewrite Forall_lookup in Hf.
    rewrite hash_pair_hash2 by (by eapply Hf).
    assert (hash2 poseidon2_compress z z = z') as ->.
    { unfold hash2. by rewrite (zeros_step _ _ _ (get_zeroes_zero_chain 32 ltac:(lia)) i z z' ltac:(lia) Hz Hz'). }
    cbn [mbind option_bind]. rewrite (IH (S i) z') by (done || lia). cbn [mbind option_bind].
    by rewrite (drop_S _ _ _ Hz).
Qed.

Lemma zero_leaf_le : Field_try_from_le_bytes (rev ZERO_LEAF_BYTES) = Ok zero_leaf.
Proof. vm_compute. reflexivity. Qed.

Lemma new_run depth leaves :
  (1 <= depth <= 32)%nat ->
  MerklePrefixTree_new (Z.of_nat depth) leaves =
  Some (Ok {| pt_depth := depth; pt_leaves := leaves; pt_empty := take (S depth) get_zeroes |}).
Proof using laws.
  intros Hd. unfold MerklePrefixTree_new.
  rewrite (proj2 (Z.eqb_neq (Z.of_nat depth) 0)), (proj2 (Z.ltb_ge 32 (Z.of_nat depth))) by lia. cbn [orb].
  rewrite bool_decide_true by done. cbn [negb]. rewrite zero_leaf_le, Nat2Z.id.
  rewrite (empty_chain_from 0 depth zero_leaf) by (done || lia). done.
Qed.

Section over_leaves.
Variable leaves : list Z.
Hypothesis Hleaves : Forall in_field leaves.

Local Abbreviation nd := (node poseidon2_compress zero_leaf leaves).

Definition nodes_at (l k : nat) : list Z := (fun i => nd l (Z.of_nat i)) <$> seq 0 k.

Lemma zero_leaf_in_field : in_field zero_leaf.
Proof. vm_compute. split; congruence. Qed.

Lemma nd_field l i : in_field (nd l i).
Proof using laws Hleaves. apply node_field; [apply _ | apply zero_leaf_in_field | done]. Qed.

Lemma nodes_at_lookup l k i : (i < k)%nat -> nodes_at l k !! i = Some (nd l (Z.of_nat i)).
Proof. intros Hi. unfold nodes_at. rewrite list_lookup_fmap, lookup_seq_lt by done. done. Qed.

Lemma nodes_at_lookup_ge l k i : (k <= i)%nat -> nodes_at l k !! i = None.
Proof. intros Hi. unfold nodes_at. apply lookup_ge_None. rewrite length_fmap, length_seq. done. Qed.

Lemma nodes_at_length l k : length (nodes_at l k) = k.
Proof. unfold nodes_at. by rewrite length_fmap, length_seq. Qed.

Lemma mapM_Some_map {A B} (f : A -> option B) (g : A -> B) (l : list A) :
  (forall x, x ∈ l -> f x = Some (g x)) -> mapM f l = Some (g <$> l).
Proof.
  induction l as [|x l IH]; intros H; [done |]. cbn. rewrite H by (by left). cbn. by rewrite IH by (intros; apply H; by right).
Qed.

Lemma half_covers k l :
  zlength leaves <= Z.of_nat k * 2 ^ Z.of_nat l -> zlength leaves <= Z.of_nat ((k + 1) / 2) * 2 ^ Z.of_nat (S l).
Proof.
  intros H. rewrite Nat2Z.inj_succ, Z.pow_succ_r by lia. pose proof (Z.pow_pos_nonneg 2 (Z.of_nat l)).
  pose proof (Nat.div_mod (k + 1) 2). pose proof (Nat.mod_upper_bound (k + 1) 2). nia.
Qed.

(** The number of nodes the client keeps of each level. *)
Fixpoint width (l : nat) : nat :=
  match l with
  | O => Nat.max 1 (length leaves)
  | S l => ((width l + 1) / 2)%nat
  end.

Lemma width_pos l : (1 <= width l)%nat.
Proof.
  induction l as [|l IH]; cbn [width]; [lia |].
  pose proof (Nat.div_mod (width l + 1) 2). pose proof (Nat.mod_upper_bound (width l + 1) 2). lia.
Qed.

Lemma width_covers l : zlength leaves <= Z.of_nat (width l) * 2 ^ Z.of_nat l.
Proof. induction l as [|l IH]; [cbn [width]; unfold zlength; lia |]. by apply half_covers. Qed.

Lemma leaves_nodes : leaves = nodes_at 0 (length leaves).
Proof.
  apply list_eq. intros i. destruct (decide (i < length leaves)%nat) as [Hi | Hi].
  - rewrite nodes_at_lookup by done. cbn [node]. rewrite zlookup_nonneg, Nat2Z.id by lia.
    destruct (lookup_lt_is_Some_2 leaves i Hi) as [x ->]. done.
  - rewrite nodes_at_lookup_ge by lia. apply lookup_ge_None. lia.
Qed.

Lemma nodes_at_head l : exists rest, nodes_at l (width l) = nd l 0 :: rest.
Proof. pose proof (width_pos l). destruct (width l) as [|w]; [lia |]. unfold nodes_at. cbn. eauto. Qed.

(** The siblings on the way up from node [i] of level [l]. *)
Fixpoint sib_path (n l i : nat) : list Z :=
  match n with
  | O => []
  | S n => nd l (Z.of_nat (Nat.lxor i 1)) :: sib_path n (S l) (i / 2)
  end.

Lemma half_lt i l : (i < width l)%nat -> (i / 2 < width (S l))%nat.
Proof.
  cbn [width]. intros Hi. pose proof (Nat.div_mod i 2). pose proof (Nat.mod_upper_bound i 2).
  pose proof (Nat.div_mod (width l + 1) 2). pose proof (Nat.mod_upper_bound (width l + 1) 2). lia.
Qed.

Lemma path_step_node l i :
  path_step (nd l (Z.of_nat i)) (nd l (Z.of_nat (Nat.lxor i 1))) (Nat.odd i) = Some (nd (S l) (Z.of_nat (i / 2))).
Proof using laws Hleaves.
  rewrite lxor_1. pose proof (Nat.div_mod i 2 ltac:(lia)) as Hdm. rewrite even_mod in Hdm. unfold path_step, Nat.odd.
  destruct (Nat.even i); cbn [negb]; rewrite compression_hash2 by apply nd_field; cbn [node]; do 3 f_equal; lia.
Qed.

Lemma path_root_run n l i : path_root (nd l (Z.of_nat i)) (sib_path n l i) i = Some (nd (l + n) (Z.of_nat (i / 2 ^ n))).
Proof using laws Hleaves.
  unfold path_root. revert l i. induction n as [|n IH]; intros l i; cbn [sib_path foldl].
  - rewrite Nat.pow_0_r, Nat.div_1_r, Nat.add_0_r. done.
  - cbn [mbind option_bind fst snd]. rewrite path_step_node. cbn [mbind option_bind]. rewrite IH.
    rewrite Nat.pow_succ_r', <- Nat.Div0.div_div. do 2 f_equal. lia.
Qed.

Lemma compress_pairs_from l k j :
  compress_pairs ((fun i => nd l (Z.of_nat i)) <$> seq (2 * j) (2 * k)) = Some ((fun i => nd (S l) (Z.of_nat i)) <$> seq j k).
Proof using laws Hleaves.
  revert j. induction k as [|k IH]; intros j; [done |]. replace (2 * S k)%nat with (S (S (2 * k))) by lia.
  cbn [seq fmap list_fmap compress_pairs]. rewrite compression_hash2 by apply nd_field. cbn [mbind option_bind].
  replace (S (S (2 * j))) with (2 * S j)%nat by lia. rewrite (IH (S j)). cbn [mbind option_bind node].
  do 4 f_equal; lia.
Qed.

Lemma compress_pairs_run l k : compress_pairs (nodes_at l (2 * k)) = Some (nodes_at (S l) k).
Proof using laws Hleaves. apply (compress_pairs_from l k 0). Qed.

Lemma merkle_root_loop_run fuel n l :
  (n <= fuel)%nat -> merkle_root_loop fuel (nodes_at l (2 ^ n)) = Some (nodes_at (l + n) 1).
Proof using laws Hleaves.
  revert fuel l. induction n as [|n IH]; intros fuel l Hf.
  - rewrite Nat.pow_0_r, Nat.add_0_r. by destruct fuel.
  - destruct fuel as [|fuel]; [lia |]. cbn [merkle_root_loop]. rewrite nodes_at_length.
    assert (1 < 2 ^ S n)%nat as H1 by (rewrite Nat.pow_succ_r'; pose proof (Nat.pow_nonzero 2 n); lia).
    rewrite (proj2 (Nat.ltb_lt _ _) H1). rewrite Nat.pow_succ_r', compress_pairs_run. cbn [mbind option_bind].
    rewrite IH by lia. do 2 f_equal. lia.
Qed.

Lemma merkle_proof_loop_run n l i :
  (i < 2 ^ n)%nat ->
  merkle_proof_loop n (nodes_at l (2 ^ n)) i =
  Some (sib_path n l i, (fun j => Z.of_nat ((i / 2 ^ j) mod 2)) <$> seq 0 n).
Proof using laws Hleaves.
  revert l i. induction n as [|n IH]; intros l i Hi; cbn [merkle_proof_loop sib_path]; [done |].
  assert ((if Nat.even i then Some (i + 1)%nat else if (i =? 0)%nat then None else Some (i - 1)%nat) = Some (Nat.lxor i 1)) as ->.
  { rewrite lxor_1. destruct (Nat.even i) eqn:Ei; [done |]. destruct (Nat.eqb_spec i 0) as [-> | ]; done. }
  cbn [mbind option_bind]. rewrite Nat.pow_succ_r' in Hi |- *.
  pose proof (Nat.div_mod i 2 ltac:(lia)) as Hdm. rewrite even_mod in Hdm.
  assert (Nat.lxor i 1 < 2 * 2 ^ n)%nat as Hx by (rewrite lxor_1; destruct (Nat.even i); lia).
  rewrite nodes_at_lookup by done. cbn [mbind option_bind]. rewrite compress_pairs_run. cbn [mbind option_bind].
  rewrite (IH (S l) (i / 2)%nat) by (apply Nat.Div0.div_lt_upper_bound; lia). cbn [mbind option_bind fst snd].
  do 2 f_equal. cbn [seq fmap list_fmap]. rewrite Nat.pow_0_r, Nat.div_1_r. f_equal.
  rewrite <- fmap_S_seq, <- list_fmap_compose. apply list_fmap_ext. intros _ j _. cbn [compose].
  by rewrite Nat.pow_succ_r', Nat.Div0.div_div.
Qed.

Variable depth : nat.
Hypothesis Hdepth : (depth <= 32)%nat.

Lemma empty_lookup l : (l <= depth)%nat -> exists z, take (S depth) get_zeroes !! l = Some z /\ get_zeroes !! l = Some z.
Proof using Hdepth.
  intros Hl. destruct (lookup_lt_is_Some_2 get_zeroes l) as [z Hz]; [change (length get_zeroes) with 33%nat; lia |].
  exists z. split; [| done]. by rewrite lookup_take_lt by lia.
Qed.

Lemma nd_empty l k z :
  (l <= depth)%nat -> get_zeroes !! l = Some z -> zlength leaves <= Z.of_nat k * 2 ^ Z.of_nat l -> nd l (Z.of_nat k) = z.
Proof using laws Hdepth.
  intros Hl Hz Hk. eapply (node_empty _ _ get_zeroes depth); [by apply get_zeroes_zero_chain | apply get_zeroes_0 | done ..].
Qed.

(** A node of the level, or the empty node past the end. *)
Lemma nodes_at_default l k i z :
  (l <= depth)%nat -> get_zeroes !! l = Some z -> zlength leaves <= Z.of_nat k * 2 ^ Z.of_nat l -> (i <= k)%nat ->
  default z (nodes_at l k !! i) = nd l (Z.of_nat i).
Proof using laws Hdepth.
  intros Hl Hz Hk Hi. destruct (decide (i < k)%nat) as [Hlt | Hge]; [by rewrite nodes_at_lookup |].
  assert (i = k) as -> by lia. rewrite nodes_at_lookup_ge by lia. cbn. symmetry. by apply nd_empty.
Qed.

Lemma or_empty_nodes l k z :
  (l <= depth)%nat -> get_zeroes !! l = Some z -> zlength leaves <= Z.of_nat k * 2 ^ Z.of_nat l ->
  or_empty z (nodes_at l k) = nodes_at l (Nat.max 1 k).
Proof using laws Hdepth.
  intros Hl Hz Hk. destruct k as [|k]; [| by rewrite Nat.max_r by lia].
  cbn [or_empty nodes_at]. cbn. f_equal. symmetry. by apply (nd_empty l 0).
Qed.

Lemma next_level_nodes l k z :
  (l < depth)%nat -> get_zeroes !! l = Some z -> (1 <= k)%nat -> zlength leaves <= Z.of_nat k * 2 ^ Z.of_nat l ->
  next_level z (nodes_at l k) = Some (nodes_at (S l) ((k + 1) / 2)).
Proof using laws Hleaves Hdepth.
  intros Hl Hz Hk Hlen. unfold next_level.
  assert (length (nodes_at l k) = k) as -> by (unfold nodes_at; by rewrite length_fmap, length_seq).
  apply mapM_Some_map. intros i Hi%elem_of_seq.
  assert (2 * i < k)%nat as Hik. { pose proof (Nat.div_mod (k + 1) 2). pose proof (Nat.mod_upper_bound (k + 1) 2). lia. }
  rewrite !(nodes_at_default l k) by (done || lia). rewrite hash_pair_hash2 by apply nd_field.
  cbn [node]. do 3 f_equal; lia.
Qed.

Lemma or_empty_leaves z : get_zeroes !! 0%nat = Some z -> or_empty z leaves = nodes_at 0 (width 0).
Proof using laws Hdepth.
  intros Hz. rewrite leaves_nodes at 1. rewrite or_empty_nodes; [done | lia | done |]. unfold zlength. lia.
Qed.

Lemma or_empty_width l z :
  (l <= depth)%nat -> get_zeroes !! l = Some z -> or_empty z (nodes_at l (width l)) = nodes_at l (width l).
Proof using laws Hdepth.
  intros Hl Hz. rewrite or_empty_nodes by (done || apply width_covers). by rewrite Nat.max_r by apply width_pos.
Qed.

Lemma next_level_width l z :
  (l < depth)%nat -> get_zeroes !! l = Some z -> next_level z (nodes_at l (width l)) = Some (nodes_at (S l) (width (S l))).
Proof using laws Hleaves Hdepth. intros Hl Hz. apply next_level_nodes; [done | done | apply width_pos | apply width_covers]. Qed.

Local Abbreviation zs := (take (S depth) get_zeroes).

Lemma hash_levels_from n l :
  (l + n)%nat = depth -> hash_levels n l zs (nodes_at l (width l)) = Some (nodes_at depth (width depth)).
Proof using laws Hleaves Hdepth.
  revert l. induction n as [|n IH]; intros l Hl; cbn [hash_levels].
  - by replace l with depth by lia.
  - destruct (empty_lookup l ltac:(lia)) as (z & -> & Hz). cbn [mbind option_bind].
    rewrite or_empty_width, next_level_width by (done || lia). cbn [mbind option_bind]. apply IH. lia.
Qed.

Lemma build_levels_from n l :
  (l + n)%nat = depth ->
  build_levels n l zs (nodes_at l (width l)) = Some ((fun j => nodes_at j (width j)) <$> seq l (S n)).
Proof using laws Hleaves Hdepth.
  revert l. induction n as [|n IH]; intros l Hl; cbn [build_levels].
  - done.
  - destruct (empty_lookup l ltac:(lia)) as (z & -> & Hz). cbn [mbind option_bind].
    rewrite or_empty_width, next_level_width by (done || lia). cbn [mbind option_bind].
    rewrite (IH (S l)) by lia. done.
Qed.

(** The two loops, from the leaves. *)
Lemma first_level z : zs !! 0%nat = Some z -> or_empty z leaves = or_empty z (nodes_at 0 (width 0)).
Proof using laws Hdepth.
  intros Hz. rewrite lookup_take_lt in Hz by lia. rewrite or_empty_leaves by done. by rewrite or_empty_width by (done || lia).
Qed.

Lemma hash_levels_run : (1 <= depth)%nat -> hash_levels depth 0 zs leaves = Some (nodes_at depth (width depth)).
Proof using laws Hleaves Hdepth.
  intros Hd. rewrite <- (hash_levels_from depth 0 eq_refl). generalize first_level. generalize zs. revert Hd. generalize depth.
  intros [|d] Hd es Hf; [lia |]. cbn [hash_levels]. destruct (es !! 0%nat) as [z|] eqn:Ez; [| done]. cbn [mbind option_bind].
  by rewrite (Hf z).
Qed.

Lemma build_levels_run :
  (1 <= depth)%nat -> build_levels depth 0 zs leaves = Some ((fun j => nodes_at j (width j)) <$> seq 0 (S depth)).
Proof using laws Hleaves Hdepth.
  intros Hd. rewrite <- (build_levels_from depth 0 eq_refl). generalize first_level. generalize zs. revert Hd. generalize depth.
  intros [|d] Hd es Hf; [lia |]. cbn [build_levels]. destruct (es !! 0%nat) as [z|] eqn:Ez; [| done]. cbn [mbind option_bind].
  by rewrite (Hf z).
Qed.

Lemma proof_loop_run n l i b :
  (l + n)%nat = depth -> (i < width l)%nat -> 0 <= b < 2 ^ Z.of_nat l ->
  proof_loop ((fun j => nodes_at j (width j)) <$> seq 0 (S depth)) zs n l i b =
  Some (sib_path n l i, b + 2 ^ Z.of_nat l * Z.of_nat (i mod 2 ^ n)).
Proof using laws Hdepth.
  revert l i b. induction n as [|n IH]; intros l i b Hl Hi Hb; cbn [proof_loop sib_path].
  - rewrite Nat.pow_0_r, Nat.mod_1_r. do 2 f_equal. lia.
  - rewrite list_lookup_fmap, lookup_seq_lt by lia. cbn [fmap option_fmap option_map mbind option_bind Nat.add].
    destruct (empty_lookup l ltac:(lia)) as (z & -> & Hz). cbn [mbind option_bind].
    rewrite (nodes_at_default l (width l)) by (done || lia || apply width_covers || (rewrite lxor_1; destruct (Nat.even i); lia)).
    assert (2 ^ Z.of_nat (S l) = 2 * 2 ^ Z.of_nat l) as Hp by (rewrite Nat2Z.inj_succ, Z.pow_succ_r by lia; done).
    rewrite (IH (S l) (i / 2)%nat); [| lia | by apply half_lt |].
    + cbn [mbind option_bind fst snd]. rewrite mod_step, even_mod. do 2 f_equal.
      destruct (Nat.even i); rewrite ?lor_high by done; lia.
    + destruct (Nat.even i); rewrite ?lor_high by done; lia.
Qed.

End over_leaves.
End tree.

Lemma pack_bits_from n l i b :
  0 <= b < 2 ^ Z.of_nat l ->
  foldl Z.lor b (imap (fun j x => Z.shiftl x (Z.of_nat (l + j))) ((fun j => Z.of_nat ((i / 2 ^ j) mod 2)) <$> seq 0 n)) =
  b + 2 ^ Z.of_nat l * Z.of_nat (i mod 2 ^ n).
Proof.
  revert l i b. induction n as [|n IH]; intros l i b Hb; [rewrite Nat.pow_0_r, Nat.mod_1_r; cbn; lia |].
  cbn [seq fmap list_fmap]. rewrite imap_cons. cbn [foldl]. rewrite Nat.pow_0_r, Nat.div_1_r, Nat.add_0_r.
  rewrite <- fmap_S_seq, <- list_fmap_compose.
  assert (2 ^ Z.of_nat (S l) = 2 * 2 ^ Z.of_nat l) as Hp by (rewrite Nat2Z.inj_succ, Z.pow_succ_r by lia; done).
  assert (Z.lor b (Z.shiftl (Z.of_nat (i mod 2)) (Z.of_nat l)) = b + 2 ^ Z.of_nat l * Z.of_nat (i mod 2)) as ->.
  { rewrite even_mod. destruct (Nat.even i); [rewrite Z.shiftl_0_l, Z.lor_0_r; lia |]. rewrite lor_high by done. lia. }
  assert (((fun j => Z.of_nat ((i / 2 ^ j) mod 2)) ∘ S) <$> seq 0 n = (fun j => Z.of_nat ((i / 2 / 2 ^ j) mod 2)) <$> seq 0 n) as ->.
  { apply list_fmap_ext. intros _ j _. cbn [compose]. by rewrite Nat.pow_succ_r', Nat.Div0.div_div. }
  assert (forall xs : list Z, imap ((fun j x => Z.shiftl x (Z.of_nat (l + j))) ∘ S) xs = imap (fun j x => Z.shiftl x (Z.of_nat (S l + j))) xs) as ->.
  { intros xs. apply imap_ext. intros j x _. cbn [compose]. do 2 f_equal. lia. }
  rewrite IH; rewrite even_mod.
  - rewrite mod_step, even_mod. destruct (Nat.even i); lia.
  - destruct (Nat.even i); lia.
Qed.

Lemma pack_bits_run n i : pack_bits ((fun j => Z.of_nat ((i / 2 ^ j) mod 2)) <$> seq 0 n) = Z.of_nat (i mod 2 ^ n).
Proof. unfold pack_bits. pose proof (pack_bits_from n 0 i 0 ltac:(cbn; lia)) as E. cbn [Nat.add] in E. rewrite E. cbn. lia. Qed.

Lemma node_pad compress z leaves k l i : node compress z (leaves ++ replicate k z) l i = node compress z leaves l i.
Proof.
  revert i. induction l as [|l IH]; intros i; cbn [node]; [| by rewrite !IH]. unfold zlookup. destruct (i <? 0); [done |].
  destruct (decide (Z.to_nat i < length leaves)%nat) as [Hi | Hi]; [by rewrite lookup_app_l |].
  rewrite lookup_app_r by lia. rewrite (lookup_ge_None_2 leaves) by lia.
  destruct (replicate k z !! _) as [x|] eqn:E; [| done]. by apply lookup_replicate in E as [-> _].
Qed.

Lemma sib_path_pad {host : HostPoseidon2} leaves k n l i : sib_path (leaves ++ replicate k zero_leaf) n l i = sib_path leaves n l i.
Proof. revert l i. induction n as [|n IH]; intros l i; [done |]. cbn [sib_path]. by rewrite node_pad, IH. Qed.

Lemma sib_path_length {host : HostPoseidon2} leaves n l i : length (sib_path leaves n l i) = n.
Proof. revert l i. induction n as [|n IH]; intros l i; [done |]. cbn [sib_path length]. by rewrite IH. Qed.

Lemma is_power_of_two_pow d : is_power_of_two (2 ^ d) = true.
Proof.
  unfold is_power_of_two. rewrite Nat.log2_pow2 by lia. rewrite Nat.eqb_refl, andb_true_r.
  apply Nat.ltb_lt. pose proof (Nat.pow_nonzero 2 d). lia.
Qed.

(** ** The claims *)

(** A tree the SDK built: the prefix tree, its built variant and their shared root. *)
Lemma client_tree_run {host : HostPoseidon2} {laws : HostPoseidon2Laws host} leaves depth :
  Forall in_field leaves -> (1 <= depth <= 32)%nat ->
  exists t b, MerklePrefixTree_new (Z.of_nat depth) leaves = Some (Ok t) /\ pt_build t = Some b /\
    t = {| pt_depth := depth; pt_leaves := leaves; pt_empty := take (S depth) get_zeroes |} /\
    b = {| ptb_depth := depth; ptb_empty := take (S depth) get_zeroes;
           ptb_levels := (fun j => nodes_at leaves j (width leaves j)) <$> seq 0 (S depth) |} /\
    pt_root t = Some (Ok (tree_root poseidon2_compress zero_leaf leaves depth)) /\
    ptb_root b = Some (Ok (tree_root poseidon2_compress zero_leaf leaves depth)).
Proof.
  intros Hl Hd. destruct (nodes_at_head leaves depth) as [rest Hhead]. do 2 eexists. split; [by apply new_run |].
  split; [| split; [done | split; [reflexivity |]]].
  - unfold pt_build, build_from_parts. cbn [pt_depth pt_leaves pt_empty]. by rewrite build_levels_run by (done || lia).
  - split.
    + unfold pt_root. cbn [pt_depth pt_leaves pt_empty]. rewrite hash_levels_run by (done || lia). cbn [mbind option_bind].
      by rewrite Hhead.
    + unfold ptb_root. cbn [ptb_depth ptb_levels ptb_empty]. rewrite list_lookup_fmap, lookup_seq_lt by lia.
      cbn [fmap option_fmap option_map Nat.add]. by rewrite Hhead.
Qed.

Lemma full_nodes {host : HostPoseidon2} full d : length full = (2 ^ d)%nat -> nodes_at full 0 (2 ^ d) = full.
Proof. intros E. rewrite <- E. symmetry. apply leaves_nodes. Qed.

Lemma tree_root_pad {host : HostPoseidon2} leaves k d :
  tree_root poseidon2_compress zero_leaf (leaves ++ replicate k zero_leaf) d = tree_root poseidon2_compress zero_leaf leaves d.
Proof. apply node_pad. Qed.

Lemma merkle_root_run {host : HostPoseidon2} {laws : HostPoseidon2Laws host} full d :
  Forall in_field full -> (d <= 32)%nat -> length full = (2 ^ d)%nat ->
  merkle_root full = Some (tree_root poseidon2_compress zero_leaf full d).
Proof.
  intros Hf Hd Hlen. unfold merkle_root. rewrite Hlen, is_power_of_two_pow. cbn [negb].
  rewrite <- (full_nodes full d Hlen) at 1. rewrite (merkle_root_loop_run full Hf (2 ^ d) d 0); [done |].
  apply Nat.lt_le_incl, Nat.pow_gt_lin_r. lia.
Qed.

(** The client's root is the contract's: for every depth from 1 to 32 and every list of
    canonical leaves, the SDK's prefix tree and its built variant are created without error
    or panic and return the root of the hash tree the contracts maintain over those leaves;
    so does the circuits' [merkle_root] on the leaves padded with the zero leaf; any other
    depth is refused. *)
Theorem client_root_is_contract_root (host : HostPoseidon2) (laws : HostPoseidon2Laws host) (leaves : list Z) (depth : nat) :
  Forall in_field leaves ->
  let r := tree_root poseidon2_compress zero_leaf leaves depth in
  ((1 <= depth <= 32)%nat ->
    exists t b, MerklePrefixTree_new (Z.of_nat depth) leaves = Some (Ok t) /\ pt_build t = Some b /\
      pt_root t = Some (Ok r) /\ ptb_root b = Some (Ok r) /\
      ((length leaves <= 2 ^ depth)%nat -> merkle_root (leaves ++ replicate (2 ^ depth - length leaves) zero_leaf) = Some r)) /\
  (~ (1 <= depth <= 32)%nat -> MerklePrefixTree_new (Z.of_nat depth) leaves = Some (Err DepthRange)).
Proof.
  intros Hl r. split.
  - intros Hd. destruct (client_tree_run leaves depth Hl Hd) as (t & b & Hn & Hb & _ & _ & Hr & Hrb).
    exists t, b. split_and!; [done .. |]. intros Hlen. unfold r. rewrite <- (tree_root_pad leaves (2 ^ depth - length leaves)).
    apply merkle_root_run; [| lia | rewrite length_app, length_replicate; lia].
    apply Forall_app. split; [done |]. apply Forall_replicate, zero_leaf_in_field.
  - intros Hd. unfold MerklePrefixTree_new.
    destruct (Z.eqb_spec (Z.of_nat depth) 0) as [E | E]; [done |]. by rewrite (proj2 (Z.ltb_lt 32 (Z.of_nat depth))) by lia.
Qed.

Lemma client_root_is_contract_root_witness :
  exists t, MerklePrefixTree_new (Z.of_nat 2) [5; 6; 7] = Some (Ok t) /\
    pt_root t = Some (Ok (tree_root (poseidon2_compress (host := ref_host_poseidon2)) zero_leaf [5; 6; 7] 2)).
Proof.
  destruct (proj1 (client_root_is_contract_root ref_host_poseidon2 _ [5; 6; 7] 2
    ltac:(repeat constructor; vm_compute; congruence)) ltac:(lia)) as (t & b & H & _ & Hr & _).
  exists t. split; [exact H | exact Hr].
Defined.

Lemma indices_field n : 0 <= n < 2 ^ 32 -> Field_try_from_le_bytes (le_bytes 8 n ++ replicate 24 0) = Ok n.
Proof.
  intros Hn. assert (le_bytes 8 n ++ replicate 24 0 = Field_to_le_bytes n) as ->.
  { unfold Field_to_le_bytes. assert (forall j x, 0 <= x < 256 ^ Z.of_nat j -> forall k, le_bytes j x ++ replicate k 0 = le_bytes (j + k) x) as H.
    { intros j. induction j as [|j IH]; intros x Hx k.
      - cbn in Hx. assert (x = 0) as -> by lia. clear. induction k as [|k IHk]; [done |]. cbn. f_equal. exact IHk.
      - cbn [le_bytes app Nat.add]. f_equal. apply IH. rewrite Nat2Z.inj_succ, Z.pow_succ_r in Hx by lia.
        split; [apply Z.div_pos; lia | apply Z.div_lt_upper_bound; lia]. }
    apply (H 8%nat n). cbn. lia. }
  apply Field_le_roundtrip. split; [lia |]. unfold BN_P. lia.
Qed.

(** The proof of a leaf of a tree that fits, and of an index past the leaves. *)
Lemma client_proof_run {host : HostPoseidon2} {laws : HostPoseidon2Laws host} leaves depth index leaf :
  Forall in_field leaves -> (1 <= depth <= 32)%nat -> (length leaves <= 2 ^ depth)%nat -> leaves !! index = Some leaf ->
  let r := tree_root poseidon2_compress zero_leaf leaves depth in
  exists t b, MerklePrefixTree_new (Z.of_nat depth) leaves = Some (Ok t) /\ pt_build t = Some b /\ ptb_root b = Some (Ok r) /\
    ptb_proof b (Z.of_nat index) = Some (Ok {| path_elements := sib_path leaves depth 0 index; path_indices := Z.of_nat index; proof_root := r; proof_levels := depth |}) /\
    path_root leaf (sib_path leaves depth 0 index) index = Some r /\
    (forall i, (length leaves <= i)%nat -> ptb_proof b (Z.of_nat i) = Some (Err (LeafIndexRange (Z.of_nat i) (length leaves)))).
Proof.
  intros Hl Hd Hfit Hleaf r. destruct (client_tree_run leaves depth Hl Hd) as (t & b & Hn & Hb & _ & Eb & _ & Hrb).
  pose proof (lookup_lt_Some _ _ _ Hleaf) as Hi.
  assert (ptb_leaf_count b = length leaves) as Hcount.
  { rewrite Eb. unfold ptb_leaf_count. cbn [ptb_levels seq fmap list_fmap]. rewrite nodes_at_length. cbn [width]. lia. }
  assert (index < 2 ^ depth)%nat as Hidx by lia.
  assert (Z.of_nat index < 2 ^ 32) as H32.
  { assert (Z.of_nat (2 ^ depth) <= 2 ^ 32) as H; [| lia]. rewrite Nat2Z.inj_pow. apply Z.pow_le_mono_r; lia. }
  exists t, b. split_and!; try done.
  - unfold ptb_proof. rewrite Hcount, Nat2Z.id, (proj2 (Nat.leb_gt _ _)) by done. rewrite Eb. cbn [ptb_levels ptb_empty ptb_depth].
    rewrite (proof_loop_run leaves depth ltac:(lia) depth 0 index 0) by (done || cbn; lia). cbn [mbind option_bind].
    rewrite Nat.mod_small by done. change (2 ^ Z.of_nat 0) with 1. rewrite Z.mul_1_l, Z.add_0_l, indices_field by lia.
    rewrite <- Eb, Hrb. done.
  - assert (leaf = node poseidon2_compress zero_leaf leaves 0 (Z.of_nat index)) as ->.
    { cbn [node]. rewrite zlookup_nonneg, Nat2Z.id, Hleaf by lia. done. }
    rewrite (path_root_run leaves Hl depth 0 index). rewrite Nat.div_small by done. done.
  - intros i Hge. unfold ptb_proof. rewrite Hcount, Nat2Z.id, (proj2 (Nat.leb_le _ _)) by done. done.
Qed.

(** The client's proofs open the contract's root: for every leaf of a tree that fits, the
    proof has one sibling per level, its packed path bits are the leaf's index, its root is
    the contract's, and hashing up from the leaf along it gives that root; it is the proof
    the circuits' [merkle_proof] computes on the padded list; an index past the leaves is
    refused. *)
Theorem client_proofs_open_root (host : HostPoseidon2) (laws : HostPoseidon2Laws host) (leaves : list Z) (depth index : nat) (leaf : Z) :
  Forall in_field leaves -> (1 <= depth <= 32)%nat -> (length leaves <= 2 ^ depth)%nat -> leaves !! index = Some leaf ->
  let r := tree_root poseidon2_compress zero_leaf leaves depth in
  exists t b p, MerklePrefixTree_new (Z.of_nat depth) leaves = Some (Ok t) /\ pt_build t = Some b /\
    ptb_proof b (Z.of_nat index) = Some (Ok p) /\
    path_root leaf (path_elements p) index = Some r /\ proof_root p = r /\ path_indices p = Z.of_nat index /\
    proof_levels p = depth /\ length (path_elements p) = depth /\
    merkle_proof (leaves ++ replicate (2 ^ depth - length leaves) zero_leaf) index = Some (path_elements p, path_indices p, proof_levels p) /\
    (forall i, (length leaves <= i)%nat -> ptb_proof b (Z.of_nat i) = Some (Err (LeafIndexRange (Z.of_nat i) (length leaves)))).
Proof.
  intros Hl Hd Hfit Hleaf r. destruct (client_proof_run leaves depth index leaf Hl Hd Hfit Hleaf) as (t & b & Hn & Hb & _ & Hp & Hroot & Hout).
  pose proof (lookup_lt_Some _ _ _ Hleaf) as Hi. assert (index < 2 ^ depth)%nat as Hidx by lia.
  exists t, b. eexists. split; [exact Hn |]. split; [exact Hb |]. split; [exact Hp |].
  cbn [path_elements path_indices proof_root proof_levels]. split_and!; try done.
  - apply sib_path_length.
  - set (full := leaves ++ _). assert (length full = (2 ^ depth)%nat) as Hlen by (unfold full; rewrite length_app, length_replicate; lia).
    assert (Forall in_field full) as Hff.
    { apply Forall_app. split; [done |]. apply Forall_replicate, zero_leaf_in_field. }
    unfold merkle_proof. rewrite Hlen, is_power_of_two_pow. cbn [negb]. rewrite Nat.log2_pow2 by lia.
    rewrite <- (full_nodes full depth Hlen) at 1. rewrite (merkle_proof_loop_run full Hff depth 0 index Hidx).
    cbn [mbind option_bind fst snd]. rewrite pack_bits_run, Nat.mod_small by done. do 3 f_equal.
    apply sib_path_pad.
Qed.

Lemma client_proofs_open_root_witness :
  exists t b p, MerklePrefixTree_new (Z.of_nat 2) [5; 6; 7] = Some (Ok t) /\ pt_build t = Some b /\
    ptb_proof b (Z.of_nat 2) = Some (Ok p) /\ path_indices p = 2.
Proof.
  destruct (client_proofs_open_root ref_host_poseidon2 _ [5; 6; 7] 2 2 7) as (t & b & p & H1 & H2 & H3 & _ & _ & H4 & _).
  - repeat constructor; vm_compute; congruence.
  - lia.
  - cbn. lia.
  - reflexivity.
  - exists t, b, p. split; [exact H1 | split; [exact H2 | split; [exact H3 | exact H4]]].
Defined.

(** A built tree without leaves counts one: the padding node the builder adds is counted
    as a leaf, so that [leaf_count] is 1 and a proof for index 0 is given out, although no
    leaf was provided. *)
Theorem built_empty_tree_has_leaf (host : HostPoseidon2) (laws : HostPoseidon2Laws host) (depth : nat) :
  (1 <= depth <= 32)%nat ->
  exists t b p, MerklePrefixTree_new (Z.of_nat depth) [] = Some (Ok t) /\ pt_build t = Some b /\
    pt_leaf_count t = 0%nat /\ ptb_leaf_count b = 1%nat /\ ptb_proof b 0 = Some (Ok p).
Proof.
  intros Hd. destruct (client_tree_run [] depth (Forall_nil_2 _) Hd) as (t & b & Hn & Hb & Et & Eb & _ & Hrb).
  assert (ptb_leaf_count b = 1%nat) as Hc by (rewrite Eb; unfold ptb_leaf_count; cbn [ptb_levels seq fmap list_fmap]; by rewrite nodes_at_length).
  exists t, b. eexists. split_and!; [done | done | by rewrite Et | done |].
  unfold ptb_proof. rewrite Hc. change (Z.to_nat 0) with 0%nat. cbn [Nat.leb]. rewrite Eb. cbn [ptb_levels ptb_empty ptb_depth].
  rewrite (proof_loop_run [] depth ltac:(lia) depth 0 0 0) by (done || cbn; lia). cbn [mbind option_bind].
  rewrite Nat.Div0.mod_0_l. change (0 + 2 ^ Z.of_nat 0 * Z.of_nat 0) with 0. rewrite indices_field by lia.
  rewrite <- Eb, Hrb. cbn [mbind option_bind]. reflexivity.
Qed.

Lemma built_empty_tree_has_leaf_witness : exists t b, MerklePrefixTree_new (Z.of_nat 5) [] = Some (Ok t) /\ pt_build t = Some b /\ ptb_leaf_count b = 1%nat.
Proof.
  destruct (built_empty_tree_has_leaf ref_host_poseidon2 _ 5 ltac:(lia)) as (t & b & p & H1 & H2 & _ & H3 & _).
  exists t, b. split; [exact H1 | split; [exact H2 | exact H3]].
Defined.
