(* ===== verification/SparseMerkle.v ===== *)
(** * The client's sparse Merkle tree ([sdk/prover/src/sparse_merkle.rs])

    The client's copy of the non-membership tree: nodes by hash in an ordered map,
    insertion, update, search and padded proofs, and the byte-level wrapper.  Nodes are
    never removed.  The tree represents a finite map of entries through the same
    canonical tree as the contract's, so that the two have the same root and give the same
    search answers. *)

From S2P Require Import Prelude Ints Amounts Poseidon2Tables Hashes Serialization Soroban MerkleSpec Smt AspNonMembership.
From S2P Require Import NonMembershipFacts NonMembershipOps NonMembershipTheorems PrefixTree.

(** The errors, one constructor per message; the level counter stays below 257, so that its
    checked addition does not fail. *)
Inductive SmtError : Type :=
| SmtDepthExceeded                 (** "Maximum tree depth exceeded" *)
| SmtNodeNotFound                  (** "Node not found in database" *)
| SmtKeyExists                     (** "Key already exists" *)
| SmtKeyMissing                    (** "Key does not exist" *)
| SmtBytesLength                   (** "expected 32 bytes" *)
| SmtField (e : AmountError).

(** A fallible computation that may also panic ([None]). *)
Definition smt (A : Type) : Type := option (result SmtError A).

#[export] Instance smt_ret : MRet smt := fun _ a => Some (Ok a).
#[export] Instance smt_bind : MBind smt :=
  fun _ _ k m => match m with Some (Ok a) => k a | Some (Err e) => Some (Err e) | None => None end.

Definition smt_err {A} (e : SmtError) : smt A := Some (Err e).

(** An index or an [expect]: the panic of a missing value. *)
Definition or_panic {A} (o : option A) : smt A := Ok <$> o.

Definition poseidon2_hash_leaf (key value : Field) : option Field :=
  let key_s := field_to_scalar key in
  let value_s := field_to_scalar value in
  hashed ← poseidon2_hash2_internal key_s value_s (Some 1);
  scalar_to_field hashed.

Definition smt_hash_pair_field (left right : Field) : option Field :=
  let left_s := field_to_scalar left in
  let right_s := field_to_scalar right in
  hashed ← poseidon2_compression left_s right_s;
  scalar_to_field hashed.

Definition field_to_key (f : Field) : bytes := Field_to_le_bytes f.

(** The four 64-bit limbs of a scalar, least significant first. *)
Definition limbs (x : Z) : list Z := (fun j => (x / 2 ^ (64 * Z.of_nat j)) mod 2 ^ 64) <$> seq 0 4.

Definition field_to_bits (f : Field) : list bool :=
  take 256 (mjoin ((fun limb => (fun i => Z.land (Z.shiftr limb (Z.of_nat i)) 1 =? 1) <$> seq 0 64) <$> limbs (field_to_scalar f))).

Inductive Node : Type :=
| Node_Empty
| Node_Leaf (key value : Field)
| Node_Internal (left right : Field).

(** [SparseMerkleTree]; the search result has the fields of the contract's [FindResult]. *)
Record SparseMerkleTree : Type := {
  db : gmap bytes Node;
  smt_root : Field;
}.

Record SMTResult : Type := {
  sr_old_root : Field;
  sr_new_root : Field;
  sr_siblings : list Field;
  sr_old_key : Field;
  sr_old_value : Field;
  sr_new_key : Field;
  sr_new_value : Field;
  sr_is_old0 : bool;
}.

Definition smt_new : SparseMerkleTree := {| db := ∅; smt_root := Field_ZERO |}.

Definition get_node (t : SparseMerkleTree) (hash : Field) : option Node :=
  if hash =? Field_ZERO then Some Node_Empty else db t !! field_to_key hash.

Definition put_node (t : SparseMerkleTree) (hash : Field) (node : Node) : SparseMerkleTree :=
  if negb (hash =? Field_ZERO) then {| db := <[field_to_key hash := node]> (db t); smt_root := smt_root t |} else t.

Definition with_root (t : SparseMerkleTree) (root : Field) : SparseMerkleTree := {| db := db t; smt_root := root |}.

Definition absent_result (key : Field) : FindResult :=
  {| found := false; siblings := []; found_value := Field_ZERO; not_found_key := key; not_found_value := Field_ZERO; is_old0 := true |}.

Definition push_sibling (sibling : Field) (r : FindResult) : FindResult :=
  {| found := found r; siblings := siblings r ++ [sibling]; found_value := found_value r;
     not_found_key := not_found_key r; not_found_value := not_found_value r; is_old0 := is_old0 r |}.

(** The recursion stops at level 256, so that 257 calls from level 0 are enough. *)
Fixpoint find_internal (fuel : nat) (t : SparseMerkleTree) (key : Field) (key_bits : list bool) (current_hash : Field) (level : nat)
  : smt FindResult :=
  match fuel with
  | O => None
  | S fuel =>
      if (256 <=? level)%nat then smt_err SmtDepthExceeded
      else if current_hash =? Field_ZERO then mret (absent_result key)
      else
        match get_node t current_hash with
        | Some (Node_Leaf leaf_key leaf_value) =>
            mret (if leaf_key =? key then
                    {| found := true; siblings := []; found_value := leaf_value; not_found_key := Field_ZERO;
                       not_found_value := Field_ZERO; is_old0 := false |}
                  else
                    {| found := false; siblings := []; found_value := Field_ZERO; not_found_key := leaf_key;
                       not_found_value := leaf_value; is_old0 := false |})
        | Some (Node_Internal lh rh) =>
            bit ← or_panic (key_bits !! level);
            let '(child, sibling) := if bit : bool then (rh, lh) else (lh, rh) in
            r ← find_internal fuel t key key_bits child (S level);
            mret (push_sibling sibling r)
        | Some Node_Empty => mret (absent_result key)
        | None => smt_err SmtNodeNotFound
        end
  end.

Definition smt_find (t : SparseMerkleTree) (key : Field) : smt FindResult :=
  r ← find_internal 257 t key (field_to_bits key) (smt_root t) 0;
  mret {| found := found r; siblings := rev (siblings r); found_value := found_value r;
          not_found_key := not_found_key r; not_found_value := not_found_value r; is_old0 := is_old0 r |}.

(** The loop that finds where two keys part, [diverge_level] being the number of siblings;
    at most 256 rounds. *)
Fixpoint diverge (fuel : nat) (old_key_bits key_bits : list bool) (sibs : list Field) : option (list Field) :=
  match fuel with
  | O => Some sibs
  | S fuel =>
      if (length sibs <? 256)%nat then
        b ← old_key_bits !! length sibs;
        b' ← key_bits !! length sibs;
        if Bool.eqb b b' then diverge fuel old_key_bits key_bits (sibs ++ [Field_ZERO]) else Some sibs
      else Some sibs
  end.

(** One round of the loop from the leaf to the root. *)
Definition path_round (key_bits : list bool) (level : nat) (sibling : Field) (st : SparseMerkleTree * Field)
  : smt (SparseMerkleTree * Field) :=
  bit ← or_panic (key_bits !! level);
  let '(lh, rh) := if bit : bool then (sibling, st.2) else (st.2, sibling) in
  current_hash ← or_panic (smt_hash_pair_field lh rh);
  mret (put_node st.1 current_hash (Node_Internal lh rh), current_hash).

Fixpoint build_path (key_bits : list bool) (path : list (nat * Field)) (st : SparseMerkleTree * Field) : smt (SparseMerkleTree * Field) :=
  match path with
  | [] => mret st
  | (level, sibling) :: path =>
      st ← path_round key_bits level sibling st;
      build_path key_bits path st
  end.

(** [while v.last() == Some(&Field::ZERO) { v.pop(); }], on the reversed list. *)
Fixpoint drop_zeros (l : list Field) : list Field :=
  match l with
  | x :: l' => if x =? Field_ZERO then drop_zeros l' else l
  | [] => []
  end.

Definition trim_zeros (l : list Field) : list Field := rev (drop_zeros (rev l)).

Definition smt_insert (t : SparseMerkleTree) (key value : Field) : smt (SMTResult * SparseMerkleTree) :=
  find_result ← smt_find t key;
  if found find_result then smt_err SmtKeyExists
  else
    let old_root := smt_root t in
    let key_bits := field_to_bits key in
    new_leaf_hash ← or_panic (poseidon2_hash_leaf key value);
    let t := put_node t new_leaf_hash (Node_Leaf key value) in
    sibs ← (if negb (is_old0 find_result) then
              let old_key_bits := field_to_bits (not_found_key find_result) in
              sibs ← or_panic (diverge 256 old_key_bits key_bits (siblings find_result));
              old_leaf_hash ← or_panic (poseidon2_hash_leaf (not_found_key find_result) (not_found_value find_result));
              mret (sibs ++ [old_leaf_hash])
            else mret (siblings find_result));
    st ← build_path key_bits (rev (imap pair sibs)) (t, new_leaf_hash);
    let t := with_root st.1 st.2 in
    let result_siblings := trim_zeros sibs in
    let result_siblings :=
      if negb (is_old0 find_result) && negb (bool_decide (result_siblings = [])) then removelast result_siblings else result_siblings in
    mret ({| sr_old_root := old_root; sr_new_root := smt_root t; sr_siblings := result_siblings;
             sr_old_key := not_found_key find_result; sr_old_value := not_found_value find_result;
             sr_new_key := key; sr_new_value := value; sr_is_old0 := is_old0 find_result |}, t).

Definition smt_update (t : SparseMerkleTree) (key new_value : Field) : smt (SMTResult * SparseMerkleTree) :=
  find_result ← smt_find t key;
  if negb (found find_result) then smt_err SmtKeyMissing
  else
    let old_root := smt_root t in
    let old_value := found_value find_result in
    let key_bits := field_to_bits key in
    new_leaf_hash ← or_panic (poseidon2_hash_leaf key new_value);
    let t := put_node t new_leaf_hash (Node_Leaf key new_value) in
    st ← build_path key_bits (rev (imap pair (siblings find_result))) (t, new_leaf_hash);
    let t := with_root st.1 st.2 in
    mret ({| sr_old_root := old_root; sr_new_root := smt_root t; sr_siblings := siblings find_result;
             sr_old_key := key; sr_old_value := old_value; sr_new_key := key; sr_new_value := new_value; sr_is_old0 := false |}, t).

(** ** The byte-level wrapper *)

Definition bytes_to_field (b : bytes) : smt Field :=
  if negb (bool_decide (length b = 32%nat)) then smt_err SmtBytesLength
  else Some (map_err SmtField (Field_try_from_le_bytes b)).

Definition flat_bytes (fs : list Field) : bytes := mjoin (Field_to_le_bytes <$> fs).

Record WasmSMTResult : Type := {
  wr_old_root : bytes;
  wr_new_root : bytes;
  wr_siblings : bytes;
  wr_old_key : bytes;
  wr_old_value : bytes;
  wr_new_key : bytes;
  wr_new_value : bytes;
  wr_is_old0 : bool;
  wr_num_siblings : nat;
}.

Definition WasmSMTResult_from_result (r : SMTResult) : WasmSMTResult :=
  {| wr_old_root := Field_to_le_bytes (sr_old_root r); wr_new_root := Field_to_le_bytes (sr_new_root r);
     wr_siblings := flat_bytes (sr_siblings r); wr_old_key := Field_to_le_bytes (sr_old_key r);
     wr_old_value := Field_to_le_bytes (sr_old_value r); wr_new_key := Field_to_le_bytes (sr_new_key r);
     wr_new_value := Field_to_le_bytes (sr_new_value r); wr_is_old0 := sr_is_old0 r; wr_num_siblings := length (sr_siblings r) |}.

(** [WasmFindResult] and [SMTProof], which have the same fields. *)
Record SMTProof : Type := {
  sp_found : bool;
  sp_siblings : bytes;
  sp_found_value : bytes;
  sp_not_found_key : bytes;
  sp_not_found_value : bytes;
  sp_is_old0 : bool;
  sp_root : bytes;
  sp_num_siblings : nat;
}.

Definition WasmFindResult_from_result (r : FindResult) (root : Field) : SMTProof :=
  {| sp_found := found r; sp_siblings := flat_bytes (siblings r); sp_found_value := Field_to_le_bytes (found_value r);
     sp_not_found_key := Field_to_le_bytes (not_found_key r); sp_not_found_value := Field_to_le_bytes (not_found_value r);
     sp_is_old0 := is_old0 r; sp_root := Field_to_le_bytes root; sp_num_siblings := length (siblings r) |}.

Definition wasm_insert (t : SparseMerkleTree) (key_bytes value_bytes : bytes) : smt (WasmSMTResult * SparseMerkleTree) :=
  key ← bytes_to_field key_bytes;
  value ← bytes_to_field value_bytes;
  r ← smt_insert t key value;
  mret (WasmSMTResult_from_result r.1, r.2).

Definition wasm_update (t : SparseMerkleTree) (key_bytes new_value_bytes : bytes) : smt (WasmSMTResult * SparseMerkleTree) :=
  key ← bytes_to_field key_bytes;
  new_value ← bytes_to_field new_value_bytes;
  r ← smt_update t key new_value;
  mret (WasmSMTResult_from_result r.1, r.2).

Definition wasm_find (t : SparseMerkleTree) (key_bytes : bytes) : smt SMTProof :=
  key ← bytes_to_field key_bytes;
  r ← smt_find t key;
  mret (WasmFindResult_from_result r (smt_root t)).

(** [while siblings.len() < max_levels { siblings.push(Field::ZERO) }]. *)
Definition pad_siblings (max_levels : nat) (sibs : list Field) : list Field := sibs ++ replicate (max_levels - length sibs) Field_ZERO.

Definition get_proof (t : SparseMerkleTree) (key_bytes : bytes) (max_levels : nat) : smt SMTProof :=
  key ← bytes_to_field key_bytes;
  find_result ← smt_find t key;
  let sibs := pad_siblings max_levels (siblings find_result) in
  mret {| sp_found := found find_result; sp_siblings := flat_bytes sibs; sp_found_value := Field_to_le_bytes (found_value find_result);
          sp_not_found_key := Field_to_le_bytes (not_found_key find_result);
          sp_not_found_value := Field_to_le_bytes (not_found_value find_result); sp_is_old0 := is_old0 find_result;
          sp_root := Field_to_le_bytes (smt_root t); sp_num_siblings := length sibs |}.

(** ** Bits *)

Lemma testbit_limb x i : 0 <= x -> 0 <= i -> (Z.land (Z.shiftr x i) 1 =? 1) = Z.testbit x i.
Proof.
  intros Hx Hi. rewrite land_1, <- Z.bit0_mod. rewrite Z.shiftr_spec by lia. rewrite Z.add_0_l. by destruct (Z.testbit x i).
Qed.

Lemma limb_bit x j i : 0 <= x -> (i < 64)%nat ->
  Z.testbit ((x / 2 ^ (64 * Z.of_nat j)) mod 2 ^ 64) (Z.of_nat i) = kbit x (64 * j + i).
Proof.
  intros Hx Hi. rewrite Z.mod_pow2_bits_low by lia. rewrite Z.div_pow2_bits by lia. unfold kbit. f_equal. lia.
Qed.

Lemma field_to_bits_split f : in_field f -> field_to_bits f = split_bits f.
Proof.
  intros Hf. unfold field_to_bits. rewrite field_to_scalar_id by done. pose proof (proj1 Hf) as H0.
  assert (forall j, (fun i => Z.land (Z.shiftr ((f / 2 ^ (64 * Z.of_nat j)) mod 2 ^ 64) (Z.of_nat i)) 1 =? 1) <$> seq 0 64 =
                    kbit f <$> seq (64 * j) 64) as Hl.
  { intros j. apply list_eq. intros i. rewrite !list_lookup_fmap. destruct (decide (i < 64)%nat) as [Hi | Hi].
    - rewrite !lookup_seq_lt by done. cbn [fmap option_fmap option_map]. f_equal. rewrite Nat.add_0_l.
      rewrite testbit_limb; [by apply limb_bit | apply Z.mod_pos_bound; lia | lia].
    - by rewrite !lookup_seq_ge by lia. }
  unfold limbs. rewrite <- list_fmap_compose. rewrite (list_fmap_ext _ (fun j => kbit f <$> seq (64 * j) 64) (seq 0 4)) by (intros; apply Hl).
  change (mjoin ((fun j => kbit f <$> seq (64 * j) 64) <$> seq 0 4)) with (kbit f <$> seq 0 256).
  rewrite take_ge by (by rewrite length_fmap, length_seq). apply list_eq. intros i. rewrite list_lookup_fmap.
  destruct (decide (i < 256)%nat) as [Hi | Hi].
  - rewrite lookup_seq_lt, split_bits_lookup by done. done.
  - rewrite lookup_seq_ge by lia. by rewrite split_bits_lookup_ge by lia.
Qed.

Lemma field_to_key_inj f g : in_field f -> in_field g -> field_to_key f = field_to_key g -> f = g.
Proof.
  intros Hf Hg E. unfold field_to_key in E. assert (Ok (E := AmountError) f = Ok g) as [= ->]; [| done].
  rewrite <- (Field_le_roundtrip f), <- (Field_le_roundtrip g) by done. by rewrite E.
Qed.

(** ** Replacing a value *)

Fixpoint update_tree (l : nat) (t : tree) (k v : Z) : tree :=
  match t with
  | E => E
  | Lf k' _ => if k' =? k then Lf k v else t
  | Br a b => if kbit k l then Br a (update_tree (S l) b k v) else Br (update_tree (S l) a k v) b
  end.

Definition set_value (k v : Z) (e : Z * Z) : Z * Z := if e.1 =? k then (k, v) else e.

Lemma set_value_fst k v e : (set_value k v e).1 = e.1.
Proof. unfold set_value. by destruct (Z.eqb_spec e.1 k). Qed.

Lemma set_value_absent k v es : k ∉ es.*1 -> set_value k v <$> es = es.
Proof.
  induction es as [|e es IH]; intros Hni; [done |]. rewrite !fmap_cons in *. rewrite not_elem_of_cons in Hni.
  rewrite IH by tauto. unfold set_value. by rewrite (proj2 (Z.eqb_neq e.1 k)) by (intros E; symmetry in E; tauto).
Qed.

Lemma update_branch l c o k v :
  update_tree l (branch (kbit k l) c o) k v = branch (kbit k l) (update_tree (S l) c k v) o.
Proof. unfold branch. destruct (kbit k l) eqn:Eb; cbn [update_tree]; by rewrite Eb. Qed.

Lemma off_key l c o k : canonical l (branch (kbit k l) c o) -> k ∉ keys o.
Proof. intros Hc Hin. destruct (branch_disjoint _ _ _ _ Hc) as (_ & Ko & _). specialize (Ko k Hin). by destruct (kbit k l). Qed.

Lemma update_entries l t k v : canonical l t -> entries (update_tree l t k v) = set_value k v <$> entries t.
Proof.
  revert l t. apply (tree_cases (fun l t => canonical l t -> entries (update_tree l t k v) = set_value k v <$> entries t) k).
  - done.
  - intros l k' v' _. cbn. unfold set_value. cbn. by destruct (Z.eqb_spec k' k) as [-> |].
  - intros l c o IH Hc. pose proof (off_key _ _ _ _ Hc) as Ho. destruct (branch_disjoint _ _ _ _ Hc) as (_ & _ & Hcc & _).
    rewrite update_branch. unfold branch in *. destruct (kbit k l); cbn [entries]; rewrite fmap_app, IH by done;
      by rewrite (set_value_absent k v (entries o)) by done.
Qed.

Lemma update_keys l t k v : canonical l t -> keys (update_tree l t k v) = keys t.
Proof.
  intros Hc. unfold keys. rewrite (update_entries l) by done. rewrite <- list_fmap_compose. apply list_fmap_ext. intros; apply set_value_fst.
Qed.

Lemma update_canonical l t k v : canonical l t -> canonical l (update_tree l t k v).
Proof.
  revert l t. apply (tree_cases (fun l t => canonical l t -> canonical l (update_tree l t k v)) k).
  - done.
  - intros l k' v'. cbn [update_tree]. by destruct (k' =? k).
  - intros l c o IH Hc. destruct (branch_disjoint _ _ _ _ Hc) as (Kc & Ko & Hcc & Hco & Hlt & H2). rewrite update_branch.
    assert (length (entries (update_tree (S l) c k v)) = length (entries c)) as El.
    { rewrite (update_entries (S l)) by done. apply length_fmap. }
    specialize (IH Hcc). pose proof (update_keys (S l) c k v Hcc) as Ek. unfold branch in *.
    destruct (kbit k l); cbn [canonical]; rewrite Ek, El; split_and!; try done; lia.
Qed.

Lemma blocked_update m k v v0 :
  field_map m -> in_field k -> in_field v -> m !! k = Some v0 -> update_tree 0 (blocked m) k v = blocked (<[k := v]> m).
Proof.
  intros Hm Hk Hv Hlk. pose proof (blocked_canonical m Hm) as Hc. apply blocked_unique; [by apply field_map_insert | by apply update_canonical |].
  intros [k' v']. rewrite (update_entries 0) by done. rewrite list_elem_of_fmap. setoid_rewrite blocked_entries; [| done].
  cbn [fst snd]. rewrite lookup_insert_Some. split.
  - intros ([k1 v1] & E & H1). unfold set_value in E. cbn in E, H1. destruct (Z.eqb_spec k1 k) as [-> | Hne]; injection E as -> ->; [by left |].
    right. split; [congruence | done].
  - intros [[<- <-] | [Hne H1]].
    + exists (k, v0). unfold set_value. cbn. by rewrite Z.eqb_refl.
    + exists (k', v'). unfold set_value. cbn. by rewrite (proj2 (Z.eqb_neq k' k)) by congruence.
Qed.

(** ** Levels

    Keys are below 2 ^ 254, so that two of them part above level 254. *)

Lemma field_bits_high k n : in_field k -> 254 <= n -> Z.testbit k n = false.
Proof.
  intros [H0 Hlt] Hn. destruct (decide (k = 0)) as [-> | Hne]; [apply Z.bits_0 |]. apply Z.bits_above_log2; [done |].
  apply Z.log2_lt_pow2; [lia |]. pose proof BN_P_lt_2_254. pose proof (Z.pow_le_mono_r 2 254 n ltac:(lia) Hn). lia.
Qed.

Lemma agree_field l k k' : in_field k -> in_field k' -> (254 <= l)%nat -> agree l k k' -> k = k'.
Proof.
  intros Hk Hk' Hl Hag. apply Z.bits_inj'. intros n Hn. destruct (decide (n < 254)) as [Hlt | Hge].
  - specialize (Hag (Z.to_nat n) ltac:(lia)). unfold kbit in Hag. by rewrite Z2Nat.id in Hag.
  - rewrite !field_bits_high by (done || lia). done.
Qed.

Lemma branch_level l p c o bit :
  canonical l (branch bit c o) -> prefixed l p (branch bit c o) -> tfield (branch bit c o) -> (l < 254)%nat.
Proof.
  intros Hc Hp Htf. pose proof (canonical_NoDup _ _ Hc) as Hnd. set (t := branch bit c o) in *.
  assert (2 <= length (entries t))%nat as H2 by (unfold t, branch in *; destruct bit; exact (canonical_length _ _ Hc)).
  unfold keys in Hnd. assert (forall e, e ∈ entries t -> in_field e.1 /\ agree l e.1 p) as He.
  { intros e He. split; [by apply Htf |]. apply Hp. unfold keys. by apply list_elem_of_fmap_2. }
  destruct (entries t) as [|e1 [|e2 es]]; [cbn in H2; lia | cbn in H2; lia |]. destruct (He e1) as [F1 A1]; [by left |].
  destruct (He e2) as [F2 A2]; [right; by left |]. rewrite !fmap_cons, !NoDup_cons in Hnd. destruct Hnd as [Hni _].
  destruct (decide (l < 254)%nat) as [| Hge]; [done |]. exfalso. apply Hni. rewrite (agree_field l e1.1 e2.1); [by left | done | done | lia |].
  intros j Hj. rewrite A1 by done. symmetry. by apply A2.
Qed.

(** ** The tree in the database *)

Section client.
Context {host : HostPoseidon2} {laws : HostPoseidon2Laws host}.

Definition node_of (t : tree) : Node :=
  match t with
  | E => Node_Empty
  | Lf k v => Node_Leaf k v
  | Br a b => Node_Internal (thash a) (thash b)
  end.

Definition node_in (d : gmap bytes Node) (u : tree) : Prop := d !! field_to_key (thash u) = Some (node_of u).

Definition db_stored (d : gmap bytes Node) (t : tree) : Prop := forall u, u ∈ subtrees t -> node_in d u.

Lemma leaf_hash_thash k v : in_field k -> in_field v -> poseidon2_hash_leaf k v = Some (thash (Lf k v)).
Proof using laws.
  intros Hk Hv. destruct (hash_leaf_thash k v Hk Hv) as [E Hf]. unfold hash_leaf in E.
  rewrite poseidon2_hash2_field in E; [| done | done | apply in_field_1]. unfold poseidon2_hash_leaf. rewrite !field_to_scalar_id by done.
  rewrite E. cbn [mbind option_bind]. by apply scalar_to_field_id.
Qed.

Lemma smt_hash_pair_same l r : smt_hash_pair_field l r = hash_pair l r.
Proof. unfold smt_hash_pair_field, hash_pair. reflexivity. Qed.

Lemma pair_hash_thash a b : tfield a -> tfield b -> smt_hash_pair_field (thash a) (thash b) = Some (thash (Br a b)).
Proof using laws.
  intros Ha Hb. rewrite smt_hash_pair_same.
  pose proof (hash_internal_thash a b Ha Hb) as E. unfold hash_internal in E. rewrite (compress_hash2 poseidon2_compress) in E by (by apply thash_field).
  rewrite hash_pair_hash2 by (by apply thash_field). exact E.
Qed.

Definition rev_result (r : FindResult) : FindResult :=
  {| found := found r; siblings := rev (siblings r); found_value := found_value r;
     not_found_key := not_found_key r; not_found_value := not_found_value r; is_old0 := is_old0 r |}.

Lemma rev_result_involutive r : rev_result (rev_result r) = r.
Proof. destruct r. unfold rev_result. cbn. by rewrite rev_involutive. Qed.

Lemma get_node_stored c t u :
  db_stored (db c) t -> u ∈ subtrees t -> thash u <> 0 -> get_node c (thash u) = Some (node_of u).
Proof. intros Hst Hu Hnz. unfold get_node, Field_ZERO. rewrite (proj2 (Z.eqb_neq _ _)) by done. by apply Hst. Qed.

Lemma find_internal_tree c key l t :
  in_field key -> forall fuel, (l <= 254)%nat -> (257 <= fuel + l)%nat -> canonical l t -> prefixed l key t -> tfield t ->
  db_stored (db c) t -> (forall u, u ∈ subtrees t -> thash u <> 0) ->
  find_internal fuel c key (split_bits key) (thash t) l = Some (Ok (rev_result (tree_find l t key))).
Proof.
  intros Hk. revert l t. apply (tree_cases (fun l t => forall fuel, (l <= 254)%nat -> (257 <= fuel + l)%nat -> canonical l t ->
    prefixed l key t -> tfield t -> db_stored (db c) t -> (forall u, u ∈ subtrees t -> thash u <> 0) ->
    find_internal fuel c key (split_bits key) (thash t) l = Some (Ok (rev_result (tree_find l t key)))) key).
  - intros l fuel Hl Hf _ _ _ _ _. destruct fuel as [|fuel]; [lia |]. cbn [find_internal]. by rewrite (proj2 (Nat.leb_gt _ _)) by lia.
  - intros l k v fuel Hl Hf _ _ _ Hst Hnz. destruct fuel as [|fuel]; [lia |]. cbn [find_internal].
    rewrite (proj2 (Nat.leb_gt _ _)) by lia. pose proof (Hnz (Lf k v) ltac:(by apply subtrees_Lf)) as Hz.
    rewrite (proj2 (Z.eqb_neq (thash (Lf k v)) Field_ZERO) Hz).
    rewrite (get_node_stored c (Lf k v) (Lf k v) Hst ltac:(by apply subtrees_Lf) Hz). cbn [node_of tree_find]. by destruct (k =? key).
  - intros l ch o IH fuel Hl Hf Hc Hp Htf Hst Hnz. destruct fuel as [|fuel]; [lia |]. cbn [find_internal].
    pose proof (branch_level _ _ _ _ _ Hc Hp Htf) as Hlv. rewrite (proj2 (Nat.leb_gt _ _)) by lia.
    set (t := branch (kbit key l) ch o) in *. assert (t ∈ subtrees t) as Hself by (apply subtrees_branch; by left).
    pose proof (Hnz t Hself) as Hz. rewrite (proj2 (Z.eqb_neq (thash t) Field_ZERO) Hz), (get_node_stored c t t Hst Hself Hz).
    pose proof (prefixed_branch _ _ _ _ Hc Hp) as Hp'. destruct (branch_disjoint _ _ _ _ Hc) as (_ & _ & Hcc & _ & Hlt & _).
    destruct (tfield_branch _ _ _ Htf) as [Htc _].
    specialize (IH fuel ltac:(lia) ltac:(lia) Hcc Hp' Htc ltac:(intros u Hu; apply Hst, subtrees_branch; auto)
      ltac:(intros u Hu; apply Hnz, subtrees_branch; auto)).
    rewrite (split_bits_lookup key l) by done. unfold t at 2. rewrite tree_find_along. unfold t, branch.
    destruct (kbit key l); cbn [node_of or_panic fmap option_fmap option_map mbind smt_bind]; rewrite IH; done.
Qed.

(** Stored nodes stay stored. *)
Definition keeps (U : list tree) (d d' : gmap bytes Node) : Prop := forall u, u ∈ U -> node_in d u -> node_in d' u.

Section path.
Variables (U : list tree) (key v : Z).
Hypotheses (HU : distinct U) (HF : forall u, u ∈ U -> tfield u).

Lemma put_node_run c t :
  t ∈ U -> exists d, put_node c (thash t) (node_of t) = {| db := d; smt_root := smt_root c |} /\ node_in d t /\ keeps U (db c) d.
Proof using laws HU HF.
  intros Ht. unfold put_node, Field_ZERO. rewrite (proj2 (Z.eqb_neq _ _)) by (by apply (distinct_nonzero _ HU)). cbn [negb].
  eexists. split; [reflexivity |]. split; [apply lookup_insert_eq |]. intros u Hu Hn. unfold node_in.
  destruct (decide (field_to_key (thash t) = field_to_key (thash u))) as [E | Hne]; [| by rewrite lookup_insert_ne].
  apply field_to_key_inj in E; [| by apply thash_field, HF ..]. apply (distinct_inj _ HU) in E as ->; [| done | done]. apply lookup_insert_eq.
Qed.

Lemma build_path_app bits p1 p2 st :
  build_path bits (p1 ++ p2) st = (st ← build_path bits p1 st; build_path bits p2 st).
Proof.
  revert st. induction p1 as [|[i x] p1 IH]; intros st; [done |]. cbn [app build_path].
  destruct (path_round bits i x st) as [[st'|e]|]; cbn [mbind smt_bind]; [apply IH | done | done].
Qed.

Lemma path_round_eq bits i (b : bool) sib c cur h :
  bits !! i = Some b -> smt_hash_pair_field (if b then sib else cur) (if b then cur else sib) = Some h ->
  path_round bits i sib (c, cur) = Some (Ok (put_node c h (if b then Node_Internal sib cur else Node_Internal cur sib), h)).
Proof.
  intros E1. unfold path_round. generalize smt_hash_pair_field. intros f E2. rewrite E1.
  destruct b; cbn [or_panic fmap option_fmap option_map mbind smt_bind fst snd]; by rewrite E2.
Qed.

Lemma path_round_run l c o ch :
  (l < 256)%nat -> branch (kbit key l) ch o ∈ U -> tfield ch -> tfield o ->
  exists d, path_round (split_bits key) l (thash o) (c, thash ch) =
    Some (Ok ({| db := d; smt_root := smt_root c |}, thash (branch (kbit key l) ch o))) /\
    node_in d (branch (kbit key l) ch o) /\ keeps U (db c) d.
Proof using laws HU HF.
  intros Hl Ht Htc Hto. destruct (put_node_run c _ Ht) as (d & Hput & Hn & Hk). exists d. split; [| done].
  rewrite (path_round_eq _ l (kbit key l) (thash o) c (thash ch) (thash (branch (kbit key l) ch o)) (split_bits_lookup key l Hl)).
  - unfold branch in *. destruct (kbit key l); cbn [node_of] in Hput; by rewrite Hput.
  - unfold branch. destruct (kbit key l); by apply pair_hash_thash.
Qed.

(** From the leaf to the root of a tree whose nodes off the path are stored. *)
Lemma build_path_run l t c :
  canonical l t -> (key, v) ∈ entries t -> (forall u, u ∈ subtrees t -> u ∈ U) ->
  (forall u, u ∈ subtrees t -> key ∉ keys u -> node_in (db c) u) -> node_in (db c) (Lf key v) ->
  exists d, build_path (split_bits key) (rev (ipath l (siblings (tree_find l t key)))) (c, thash (Lf key v)) =
    Some (Ok ({| db := d; smt_root := smt_root c |}, thash t)) /\ db_stored d t /\ keeps U (db c) d.
Proof using laws HU HF.
  revert l t. apply (tree_cases (fun l t => canonical l t -> (key, v) ∈ entries t -> (forall u, u ∈ subtrees t -> u ∈ U) ->
    (forall u, u ∈ subtrees t -> key ∉ keys u -> node_in (db c) u) -> node_in (db c) (Lf key v) ->
    exists d, build_path (split_bits key) (rev (ipath l (siblings (tree_find l t key)))) (c, thash (Lf key v)) =
      Some (Ok ({| db := d; smt_root := smt_root c |}, thash t)) /\ db_stored d t /\ keeps U (db c) d) key).
  - intros l _ Hin%elem_of_nil. done.
  - intros l k0 v0 _ Hin _ _ Hleaf. apply list_elem_of_singleton in Hin as [= <- <-]. cbn [tree_find]. rewrite Z.eqb_refl.
    exists (db c). split_and!; [by destruct c | by intros u ->%subtrees_Lf | by intros u].
  - intros l ch o IH Hc Hin Hsub Hoff Hleaf. pose proof (off_key _ _ _ _ Hc) as Hno.
    destruct (branch_disjoint _ _ _ _ Hc) as (_ & _ & Hcc & _ & Hlt & _).
    assert ((key, v) ∈ entries ch) as Hinc.
    { apply entries_branch in Hin as [| Hin]; [done |]. exfalso. apply Hno. unfold keys. by apply (list_elem_of_fmap_2 fst _ (key, v)). }
    assert (branch (kbit key l) ch o ∈ U) as Ht by (apply Hsub, subtrees_branch; by left).
    destruct (tfield_branch _ _ _ (HF _ Ht)) as [Htc Hto].
    destruct (IH Hcc Hinc) as (d & Hrun & Hst & Hkeep); [intros; apply Hsub, subtrees_branch; auto | intros; apply Hoff; [apply subtrees_branch; auto | done] | done |].
    destruct (path_round_run l {| db := d; smt_root := smt_root c |} o ch Hlt Ht Htc Hto) as (d' & Hround & Hn & Hkeep').
    rewrite tree_find_along. cbn [siblings]. rewrite rev_ipath_cons, build_path_app, Hrun. cbn [mbind smt_bind build_path].
    rewrite Hround. exists d'. split_and!; [done | |].
    + intros u Hu. pose proof (Hsub u Hu) as HuU. apply subtrees_branch in Hu as [-> | [Hu | Hu]]; [done | apply Hkeep'; auto |].
      apply Hkeep'; [done |]. apply Hkeep; [done |]. apply Hoff; [apply subtrees_branch; auto |]. intros Hk. by apply Hno, (subtrees_keys u).
    + intros u Hu Hn'. apply Hkeep'; [done |]. by apply Hkeep.
Qed.

End path.

(** ** The operations *)

Record smt_ok (m : gmap Z Z) (c : SparseMerkleTree) : Prop := {
  smt_ok_field : field_map m;
  smt_ok_root : smt_root c = thash (blocked m);
  smt_ok_stored : db_stored (db c) (blocked m);
  smt_ok_nonzero : forall u, u ∈ subtrees (blocked m) -> thash u <> 0;
}.

Lemma smt_ok_new : smt_ok ∅ smt_new.
Proof.
  assert (blocked ∅ = E) as EE by (unfold blocked; by rewrite map_to_list_empty). split.
  - intros k v. by rewrite lookup_empty.
  - by rewrite EE.
  - rewrite EE. intros u Hu%subtrees_E. done.
  - rewrite EE. intros u Hu%subtrees_E. done.
Qed.

Lemma smt_find_eq t key r :
  find_internal 257 t key (field_to_bits key) (smt_root t) 0 = Some (Ok r) -> smt_find t key = Some (Ok (rev_result r)).
Proof. unfold smt_find. generalize (find_internal 257 t key (field_to_bits key) (smt_root t) 0). by intros ? ->. Qed.

Lemma smt_find_run m c key : smt_ok m c -> in_field key -> smt_find c key = Some (Ok (tree_find 0 (blocked m) key)).
Proof.
  intros [Hm Hr Hst Hnz] Hk. rewrite <- (rev_result_involutive (tree_find 0 (blocked m) key)). apply smt_find_eq.
  rewrite field_to_bits_split, Hr by done.
  apply find_internal_tree; [done | lia | lia | by apply blocked_canonical | by apply blocked_prefixed | by apply blocked_field | done | done].
Qed.

Lemma split_find n l key v k' v' :
  siblings (tree_find l (split n l key v k' v') key) = split_sibs n l key k' (thash (Lf k' v')).
Proof.
  revert l. induction n as [|n IH]; intros l; [done |]. cbn [split split_sibs]. destruct (Bool.eqb (kbit key l) (kbit k' l)).
  - destruct (kbit key l) eqn:Eb; cbn [tree_find siblings]; rewrite Eb; by rewrite IH.
  - destruct (kbit key l) eqn:Eb; cbn [tree_find siblings]; rewrite Eb; cbn [tree_find]; rewrite Z.eqb_refl; done.
Qed.

(** The path to a key just inserted. *)
Lemma ins_sibs_new l t key v : siblings (tree_find l (insert_tree l t key v) key) = ins_sibs l t key.
Proof.
  revert l t. apply (tree_cases (fun l t => siblings (tree_find l (insert_tree l t key v) key) = ins_sibs l t key) key).
  - intros l. cbn [insert_tree tree_find]. by rewrite Z.eqb_refl.
  - intros l k' v'. apply split_find.
  - intros l c o IH. rewrite insert_branch, tree_find_along, ins_sibs_branch. cbn [siblings]. by rewrite IH.
Qed.

Lemma update_sibs l t key v : siblings (tree_find l (update_tree l t key v) key) = siblings (tree_find l t key).
Proof.
  revert l t. apply (tree_cases (fun l t => siblings (tree_find l (update_tree l t key v) key) = siblings (tree_find l t key)) key).
  - done.
  - intros l k' v'. cbn [update_tree tree_find]. destruct (Z.eqb_spec k' key) as [-> | Hne]; [cbn [tree_find]; by rewrite Z.eqb_refl |].
    cbn [tree_find]. by rewrite (proj2 (Z.eqb_neq k' key)) by done.
  - intros l c o IH. rewrite update_branch, !tree_find_along. cbn [siblings]. by rewrite IH.
Qed.

Lemma subtrees_update l t key v u :
  canonical l t -> key ∈ keys t -> u ∈ subtrees (update_tree l t key v) -> key ∈ keys u \/ u ∈ subtrees t.
Proof.
  revert l t. apply (tree_cases (fun l t => canonical l t -> key ∈ keys t -> u ∈ subtrees (update_tree l t key v) ->
    key ∈ keys u \/ u ∈ subtrees t) key).
  - auto.
  - intros l k' v' _. cbn [update_tree]. destruct (k' =? key); [| auto]. intros _ ->%subtrees_Lf. left. by apply keys_Lf.
  - intros l c o IH Hc. pose proof (off_key _ _ _ _ Hc) as Hno. destruct (branch_disjoint _ _ _ _ Hc) as (_ & _ & Hcc & _).
    rewrite update_branch, !subtrees_branch, keys_branch. intros [Hk | ?] [-> | [Hu | Hu]]; try done.
    + left. rewrite keys_branch. left. by rewrite (update_keys (S l)).
    + destruct (IH Hcc Hk Hu); auto.
    + auto.
Qed.

Lemma diverge_extend fuel ob kb sibs :
  length ob = 256%nat -> length kb = 256%nat -> diverge fuel ob kb sibs = Some (extend_siblings fuel ob kb sibs).
Proof.
  intros Ho Hk. revert sibs. induction fuel as [|fuel IH]; intros sibs; [done |]. cbn [diverge extend_siblings].
  destruct (Nat.ltb_spec (length sibs) 256) as [Hlt | Hge].
  - destruct (lookup_lt_is_Some_2 ob (length sibs)) as [b ->]; [lia |]. destruct (lookup_lt_is_Some_2 kb (length sibs)) as [b' ->]; [lia |].
    cbn [mbind option_bind]. destruct (Bool.eqb b b'); [apply IH | done].
  - by rewrite (lookup_ge_None_2 ob) by lia.
Qed.

(** The siblings reported by an insertion: without trailing zeros, or without the old leaf. *)
Definition reported (is_old0 : bool) (sibs : list Field) : list Field :=
  if negb is_old0 && negb (bool_decide (trim_zeros sibs = [])) then removelast (trim_zeros sibs) else trim_zeros sibs.

Lemma smt_insert_eq t key value r h sibs d rt :
  smt_find t key = Some (Ok r) -> found r = false -> poseidon2_hash_leaf key value = Some h ->
  (if is_old0 r then sibs = siblings r
   else exists ext h', diverge 256 (field_to_bits (not_found_key r)) (field_to_bits key) (siblings r) = Some ext /\
          poseidon2_hash_leaf (not_found_key r) (not_found_value r) = Some h' /\ sibs = ext ++ [h']) ->
  build_path (field_to_bits key) (rev (imap pair sibs)) (put_node t h (Node_Leaf key value), h) = Some (Ok (d, rt)) ->
  smt_insert t key value =
    Some (Ok ({| sr_old_root := smt_root t; sr_new_root := rt; sr_siblings := reported (is_old0 r) sibs;
                 sr_old_key := not_found_key r; sr_old_value := not_found_value r; sr_new_key := key; sr_new_value := value;
                 sr_is_old0 := is_old0 r |}, with_root d rt)).
Proof.
  unfold smt_insert, reported. generalize (smt_find t key). generalize poseidon2_hash_leaf. generalize field_to_bits.
  generalize build_path. intros bp bits leaf f -> Hf Hh Hs Hb. cbn [mbind smt_bind]. rewrite Hf, Hh. cbn [or_panic fmap option_fmap option_map].
  destruct (is_old0 r); cbn [negb].
  - subst sibs. cbn [mbind smt_bind mret smt_ret]. by rewrite Hb.
  - destruct Hs as (ext & h' & -> & -> & ->). cbn [or_panic fmap option_fmap option_map mbind smt_bind mret smt_ret]. by rewrite Hb.
Qed.

Lemma smt_update_eq t key value r h d rt :
  smt_find t key = Some (Ok r) -> found r = true -> poseidon2_hash_leaf key value = Some h ->
  build_path (field_to_bits key) (rev (imap pair (siblings r))) (put_node t h (Node_Leaf key value), h) = Some (Ok (d, rt)) ->
  smt_update t key value =
    Some (Ok ({| sr_old_root := smt_root t; sr_new_root := rt; sr_siblings := siblings r; sr_old_key := key; sr_old_value := found_value r;
                 sr_new_key := key; sr_new_value := value; sr_is_old0 := false |}, with_root d rt)).
Proof.
  unfold smt_update. generalize (smt_find t key). generalize poseidon2_hash_leaf. generalize field_to_bits.
  generalize build_path. intros bp bits leaf f -> Hf Hh Hb. cbn [mbind smt_bind]. rewrite Hf, Hh.
  cbn [or_panic fmap option_fmap option_map negb mbind smt_bind]. by rewrite Hb.
Qed.

Lemma tfield_subtree t u : tfield t -> u ∈ subtrees t -> tfield u.
Proof.
  intros Ht. induction t as [|k v|a IHa b IHb]; [by intros Hu%subtrees_E | by intros ->%subtrees_Lf |].
  pose proof (proj1 (tfield_Br a b) Ht) as [Ha Hb]. rewrite subtrees_Br. intros [-> | [Hu | Hu]]; [done | by apply IHa | by apply IHb].
Qed.

(** Storing the leaf and the path above it. *)
Lemma store_path m c key value :
  let m' := <[key := value]> m in
  smt_ok m c -> in_field key -> in_field value -> distinct (subtrees (blocked m) ++ subtrees (blocked m')) ->
  (forall u, u ∈ subtrees (blocked m') -> key ∈ keys u \/ u ∈ subtrees (blocked m)) ->
  exists c', build_path (split_bits key) (rev (imap pair (siblings (tree_find 0 (blocked m') key))))
      (put_node c (thash (Lf key value)) (Node_Leaf key value), thash (Lf key value)) = Some (Ok (c', thash (blocked m'))) /\
    smt_ok m' (with_root c' (thash (blocked m'))).
Proof using laws.
  intros m' [Hm Hr Hst Hnz] Hk Hv HU Hnew. pose proof (field_map_insert m key value Hm Hk Hv) as Hm'. fold m' in Hm'.
  set (U := subtrees (blocked m) ++ subtrees (blocked m')) in *.
  assert (forall u, u ∈ U -> tfield u) as HF.
  { intros u [Hu | Hu]%elem_of_app; (eapply tfield_subtree; [| exact Hu]); by apply blocked_field. }
  assert ((key, value) ∈ entries (blocked m')) as Hin by (apply blocked_entries; [done |]; apply lookup_insert_eq).
  assert (Lf key value ∈ U) as HlU.
  { apply elem_of_app. right. by apply leaf_subtree. }
  destruct (put_node_run U HU HF c (Lf key value) HlU) as (d0 & Hput & Hleaf & Hkeep0). cbn [node_of] in Hput. rewrite Hput.
  destruct (build_path_run U key value HU HF 0 (blocked m') {| db := d0; smt_root := smt_root c |}) as (d & Hrun & Hst' & _).
  - by apply blocked_canonical.
  - done.
  - intros u Hu. apply elem_of_app. by right.
  - intros u Hu Hno. destruct (Hnew u Hu) as [| Hu']; [done |]. apply Hkeep0; [apply elem_of_app; by left | by apply Hst].
  - exact Hleaf.
  - exists {| db := d; smt_root := smt_root c |}. rewrite ipath_0 in Hrun. split; [exact Hrun |]. split; [done | done | exact Hst' |].
    intros u Hu. apply (distinct_nonzero _ HU), elem_of_app. by right.
Qed.

Lemma smt_insert_run m c key value :
  smt_ok m c -> in_field key -> in_field value -> m !! key = None ->
  distinct (subtrees (blocked m) ++ subtrees (blocked (<[key := value]> m))) ->
  exists r c', smt_insert c key value = Some (Ok (r, c')) /\ smt_ok (<[key := value]> m) c' /\
    sr_old_root r = smt_root c /\ sr_new_root r = smt_root c'.
Proof using laws.
  intros Hok Hk Hv Hnone HU. pose proof (smt_ok_field _ _ Hok) as Hm. pose proof (in_field_is_key _ Hk) as Hkk.
  pose proof (blocked_insert m key value Hm Hk Hv Hnone) as Eins.
  assert (key ∉ keys (blocked m)) as Hnk by (rewrite blocked_keys by done; rewrite Hnone; by intros [? ?]).
  destruct (store_path m c key value Hok Hk Hv HU) as (c' & Hpath & Hok').
  { rewrite <- Eins. intros u. apply subtrees_insert; [lia | by apply blocked_canonical | by apply blocked_prefixed | done | done]. }
  rewrite <- Eins in Hpath at 1. rewrite ins_sibs_new in Hpath.
  destruct (insert_prep m key Hm Hnone Hkk) as [Hp1 Hp2]. destruct (blocked_find m key Hm) as [Ef _].
  do 2 eexists. split; [apply (smt_insert_eq c key value (tree_find 0 (blocked m) key) (thash (Lf key value)) (ins_sibs 0 (blocked m) key) c' (thash (blocked (<[key := value]> m)))) |].
  - by apply smt_find_run.
  - rewrite Ef. apply bool_decide_false. rewrite Hnone. by intros [? ?].
  - by apply leaf_hash_thash.
  - destruct (is_old0 (tree_find 0 (blocked m) key)); [by rewrite Hp2 |]. destruct (Hp1 eq_refl) as (Es & Hk' & Hv').
    do 2 eexists. split; [by rewrite !field_to_bits_split, diverge_extend by (done || apply split_bits_length) |].
    split; [by apply leaf_hash_thash |]. done.
  - by rewrite field_to_bits_split.
  - done.
Qed.

Lemma smt_update_run m c key value v0 :
  smt_ok m c -> in_field key -> in_field value -> m !! key = Some v0 ->
  distinct (subtrees (blocked m) ++ subtrees (blocked (<[key := value]> m))) ->
  exists r c', smt_update c key value = Some (Ok (r, c')) /\ smt_ok (<[key := value]> m) c' /\
    sr_old_root r = smt_root c /\ sr_new_root r = smt_root c' /\ sr_old_value r = v0.
Proof using laws.
  intros Hok Hk Hv Hlk HU. pose proof (smt_ok_field _ _ Hok) as Hm. pose proof (blocked_update m key value v0 Hm Hk Hv Hlk) as Eup.
  assert (key ∈ keys (blocked m)) as Hin by (apply blocked_keys; [done |]; by rewrite Hlk).
  destruct (store_path m c key value Hok Hk Hv HU) as (c' & Hpath & Hok').
  { rewrite <- Eup. intros u. apply subtrees_update; [by apply blocked_canonical | done]. }
  rewrite <- Eup in Hpath at 1. rewrite update_sibs in Hpath. destruct (blocked_find m key Hm) as [Ef Efv].
  do 2 eexists. split; [apply (smt_update_eq c key value (tree_find 0 (blocked m) key) (thash (Lf key value)) c' (thash (blocked (<[key := value]> m)))) |].
  - by apply smt_find_run.
  - rewrite Ef. apply bool_decide_true. by rewrite Hlk.
  - by apply leaf_hash_thash.
  - by rewrite field_to_bits_split.
  - split_and!; [done | done | done |]. by apply Efv.
Qed.

Lemma smt_find_present m c key : smt_ok m c -> in_field key ->
  exists r, smt_find c key = Some (Ok r) /\ found r = bool_decide (is_Some (m !! key)).
Proof.
  intros Hok Hk. eexists. split; [by apply smt_find_run |]. by destruct (blocked_find m key (smt_ok_field _ _ Hok)) as [-> _].
Qed.

Lemma smt_insert_present m c key value : smt_ok m c -> in_field key -> is_Some (m !! key) -> smt_insert c key value = Some (Err SmtKeyExists).
Proof.
  intros Hok Hk Hin. destruct (smt_find_present m c key Hok Hk) as (r & Hf & Hr). rewrite bool_decide_true in Hr by done.
  revert Hf. unfold smt_insert. generalize (smt_find c key). intros ? ->. cbn [mbind smt_bind]. by rewrite Hr.
Qed.

Lemma smt_update_absent m c key value : smt_ok m c -> in_field key -> m !! key = None -> smt_update c key value = Some (Err SmtKeyMissing).
Proof.
  intros Hok Hk Hno. destruct (smt_find_present m c key Hok Hk) as (r & Hf & Hr).
  rewrite Hno, bool_decide_false in Hr by (by intros [? ?]).
  revert Hf. unfold smt_update. generalize (smt_find c key). intros ? ->. cbn [mbind smt_bind]. by rewrite Hr.
Qed.

End client.

(** ** Histories *)

Inductive SmtOp : Type :=
| SmtInsert (key value : Field)
| SmtUpdate (key value : Field).

Definition smt_op_typed (op : SmtOp) : Prop :=
  match op with SmtInsert k v | SmtUpdate k v => in_field k /\ in_field v end.

Definition smt_exec (op : SmtOp) (c : SparseMerkleTree) : smt (SMTResult * SparseMerkleTree) :=
  match op with SmtInsert k v => smt_insert c k v | SmtUpdate k v => smt_update c k v end.

(** A sequence of operations with their answers; after an error the tree is as before. *)
Fixpoint smt_run (ops : list SmtOp) (c : SparseMerkleTree) : option (list (result SmtError SMTResult) * SparseMerkleTree) :=
  match ops with
  | [] => Some ([], c)
  | op :: ops =>
      o ← smt_exec op c;
      r ← smt_run ops (match o with Ok (_, c') => c' | Err _ => c end);
      Some (match o with Ok (res, _) => Ok res | Err e => Err e end :: r.1, r.2)
  end.

(** The specification: insertions and updates of a finite map. *)
Definition smt_spec_error (op : SmtOp) (m : gmap Z Z) : option SmtError :=
  match op with
  | SmtInsert k _ => if bool_decide (is_Some (m !! k)) then Some SmtKeyExists else None
  | SmtUpdate k _ => if bool_decide (is_Some (m !! k)) then None else Some SmtKeyMissing
  end.

Definition smt_spec_step (op : SmtOp) (m : gmap Z Z) : gmap Z Z :=
  match smt_spec_error op m with
  | Some _ => m
  | None => match op with SmtInsert k v | SmtUpdate k v => <[k := v]> m end
  end.

Fixpoint smt_spec_run (ops : list SmtOp) (m : gmap Z Z) : list (option SmtError) * gmap Z Z :=
  match ops with
  | [] => ([], m)
  | op :: ops => let r := smt_spec_run ops (smt_spec_step op m) in (smt_spec_error op m :: r.1, r.2)
  end.

(** The nodes the operations read and write. *)
Fixpoint smt_touched (ops : list SmtOp) (m : gmap Z Z) : list tree :=
  match ops with
  | [] => []
  | op :: ops => subtrees (blocked m) ++ subtrees (blocked (smt_spec_step op m)) ++ smt_touched ops (smt_spec_step op m)
  end.

Definition error_of {A} (r : result SmtError A) : option SmtError := match r with Ok _ => None | Err e => Some e end.

Lemma smt_exec_ok {host : HostPoseidon2} {laws : HostPoseidon2Laws host} op m c :
  smt_ok m c -> smt_op_typed op -> distinct (subtrees (blocked m) ++ subtrees (blocked (smt_spec_step op m))) ->
  exists o, smt_exec op c = Some o /\ error_of o = smt_spec_error op m /\
    smt_ok (smt_spec_step op m) (match o with Ok (_, c') => c' | Err _ => c end).
Proof.
  unfold smt_spec_step, smt_exec. destruct op as [k v|k v]; intros Hok [Hk Hv]; cbn [smt_spec_error]; destruct (m !! k) as [v0|] eqn:E.
  - rewrite bool_decide_true by done. intros _. eexists. split; [eapply smt_insert_present; [done | done | by rewrite E] |]. done.
  - rewrite bool_decide_false by (by intros [? ?]). intros HU. destruct (smt_insert_run m c k v Hok Hk Hv E HU) as (r & c' & Hrun & Hok' & _).
    eexists. split; [exact Hrun |]. done.
  - rewrite bool_decide_true by done. intros HU. destruct (smt_update_run m c k v v0 Hok Hk Hv E HU) as (r & c' & Hrun & Hok' & _).
    eexists. split; [exact Hrun |]. done.
  - rewrite bool_decide_false by (by intros [? ?]). intros _. eexists. split; [by eapply smt_update_absent |]. done.
Qed.

Lemma smt_run_ok {host : HostPoseidon2} {laws : HostPoseidon2Laws host} ops m c :
  smt_ok m c -> Forall smt_op_typed ops -> distinct (smt_touched ops m) ->
  exists outs c', smt_run ops c = Some (outs, c') /\ error_of <$> outs = (smt_spec_run ops m).1 /\ smt_ok (smt_spec_run ops m).2 c'.
Proof.
  revert m c. induction ops as [|op ops IH]; intros m c Hok Hty HU; [by exists [], c |].
  apply Forall_cons in Hty as [Hop Hty]. cbn [smt_touched] in HU.
  destruct (smt_exec_ok op m c Hok Hop) as (o & Hex & He & Hok').
  { eapply distinct_sub; [exact HU |]. intros u. rewrite !elem_of_app. tauto. }
  destruct (IH _ _ Hok' Hty) as (outs & c' & Hrun & Hes & Hok2).
  { eapply distinct_sub; [exact HU |]. intros u. rewrite !elem_of_app. tauto. }
  cbn [smt_run smt_spec_run]. rewrite Hex. cbn [mbind option_bind]. rewrite Hrun. cbn [mbind option_bind fst snd].
  do 2 eexists. split; [reflexivity |]. split; [| done]. rewrite fmap_cons, Hes, <- He. f_equal. by destruct o as [[r c1]|e].
Qed.

(** ** The claims *)

(** C28. The client's sparse tree is the contract's: after any sequence of insertions and
    updates it answers as a finite map does (a present key is not inserted, an absent one not
    updated), never panics, and has the root of the canonical tree of that map; a search
    finds exactly the map's entries; and for every state of the non-membership contract that
    represents the same map, the two roots are equal and the client's search answer is the
    contract's, siblings and all.  The hash is assumed not to collide on the nodes of the
    trees along the way. *)
Theorem client_smt_agrees (host : HostPoseidon2) (laws : HostPoseidon2Laws host) (ops : list SmtOp) :
  Forall smt_op_typed ops -> distinct (smt_touched ops ∅) ->
  exists outs c, smt_run ops smt_new = Some (outs, c) /\ error_of <$> outs = (smt_spec_run ops ∅).1 /\
    let m := (smt_spec_run ops ∅).2 in
    smt_root c = thash (blocked m) /\
    forall key, in_field key ->
      exists r, smt_find c key = Some (Ok r) /\ (found r = true <-> is_Some (m !! key)) /\
        (forall v, m !! key = Some v -> found_value r = v) /\
        forall s, nm_ok m s -> nm_get_root s = (Ret (smt_root c), s) /\ find_key key s = (Ret r, s).
Proof.
  intros Hty HU. destruct (smt_run_ok ops ∅ smt_new smt_ok_new Hty HU) as (outs & c & Hrun & Hes & Hok).
  exists outs, c. split_and!; [done | done |]. cbv zeta. set (m := (smt_spec_run ops ∅).2) in *. split; [by apply smt_ok_root |].
  intros key Hk. exists (tree_find 0 (blocked m) key). destruct (blocked_find m key (smt_ok_field _ _ Hok)) as [Ef Efv].
  split_and!; [by apply smt_find_run | by rewrite Ef, bool_decide_eq_true | done |]. intros s Hs. split.
  - unfold nm_get_root. msteps. by rewrite (nm_ok_root _ _ Hs), (smt_ok_root _ _ Hok).
  - unfold find_key. msteps. rewrite (nm_ok_root _ _ Hs). cbn [default id]. by rewrite (nm_ok_find _ _ _ Hs).
Qed.

Definition smt_demo : list SmtOp := [SmtInsert 4 7; SmtInsert 1 9; SmtInsert 4 8; SmtUpdate 1 5; SmtUpdate 2 1].

Lemma client_smt_agrees_witness :
  exists outs c, smt_run smt_demo smt_new = Some (outs, c) /\
    error_of <$> outs = [None; None; Some SmtKeyExists; None; Some SmtKeyMissing] /\
    smt_root c = thash (host := ref_host_poseidon2) (blocked {[1 := 5; 4 := 7]}).
Proof.
  destruct (client_smt_agrees ref_host_poseidon2 _ smt_demo) as (outs & c & Hrun & Hes & Hroot & _).
  - repeat constructor; vm_compute; congruence.
  - apply distinct_b_spec. vm_compute. reflexivity.
  - exists outs, c. split; [exact Hrun |]. split; [rewrite Hes; vm_compute; reflexivity |]. rewrite Hroot. do 2 f_equal.
Defined.

Lemma flat_bytes_slice fs i f :
  fs !! i = Some f -> take 32 (drop (32 * i) (flat_bytes fs)) = Field_to_le_bytes f.
Proof.
  revert i. induction fs as [|g fs IH]; intros i Hi; [done |]. unfold flat_bytes in *. rewrite fmap_cons. cbn [mjoin list_join].
  assert (length (Field_to_le_bytes g) = 32%nat) as Hl by apply length_le_bytes. destruct i as [|i].
  - injection Hi as ->. rewrite Nat.mul_0_r, drop_0. by apply take_app_length'.
  - replace (32 * S i)%nat with (length (Field_to_le_bytes g) + 32 * i)%nat by lia. rewrite drop_app_add. by apply IH.
Qed.

Lemma flat_bytes_length fs : length (flat_bytes fs) = (32 * length fs)%nat.
Proof.
  induction fs as [|f fs IH]; [done |]. change (flat_bytes (f :: fs)) with (Field_to_le_bytes f ++ flat_bytes fs). rewrite length_app, IH.
  unfold Field_to_le_bytes. rewrite length_le_bytes. cbn [length]. lia.
Qed.

Lemma bytes_to_field_canonical b : Forall is_byte b -> length b = 32%nat -> le_value b < BN_P -> bytes_to_field b = Some (Ok (le_value b)).
Proof.
  intros Hb Hl Hlt. unfold bytes_to_field. rewrite bool_decide_true by done. cbn [negb]. unfold Field_try_from_le_bytes.
  by rewrite (proj2 (Field_try_from_u256_Ok (le_value b) (le_value b))).
Qed.

Lemma get_proof_eq c b max_levels key r :
  bytes_to_field b = Some (Ok key) -> smt_find c key = Some (Ok r) ->
  exists p, get_proof c b max_levels = Some (Ok p) /\ sp_found p = found r /\ sp_root p = Field_to_le_bytes (smt_root c) /\
    sp_found_value p = Field_to_le_bytes (found_value r) /\ sp_siblings p = flat_bytes (pad_siblings max_levels (siblings r)) /\
    sp_num_siblings p = length (pad_siblings max_levels (siblings r)).
Proof.
  unfold get_proof. generalize (bytes_to_field b). intros ? ->. cbn [mbind smt_bind]. generalize (smt_find c key). intros ? ->.
  cbn [mbind smt_bind]. eexists. split; [reflexivity |]. done.
Qed.

(** Padded proofs: the wrapper refuses keys that are not 32 bytes of a canonical field
    element; for any other key [get_proof] says whether the map has it and with which value,
    gives the root, and a byte string of at least [max_levels] siblings of 32 bytes each,
    which are the siblings of the contract's search from the root down, and zeros after
    them. *)
Theorem client_proof_bytes (host : HostPoseidon2) (laws : HostPoseidon2Laws host) (m : gmap Z Z) (c : SparseMerkleTree)
    (b : bytes) (max_levels : nat) :
  smt_ok m c -> Forall is_byte b ->
  (length b <> 32%nat -> get_proof c b max_levels = Some (Err SmtBytesLength)) /\
  (length b = 32%nat -> BN_P <= le_value b -> get_proof c b max_levels = Some (Err (SmtField FieldOutOfRange))) /\
  (length b = 32%nat -> le_value b < BN_P ->
     exists p, get_proof c b max_levels = Some (Ok p) /\
       sp_found p = bool_decide (is_Some (m !! le_value b)) /\
       (forall v, m !! le_value b = Some v -> sp_found_value p = Field_to_le_bytes v) /\
       sp_root p = Field_to_le_bytes (thash (blocked m)) /\
       (max_levels <= sp_num_siblings p)%nat /\ length (sp_siblings p) = (32 * sp_num_siblings p)%nat /\
       (forall s r, nm_ok m s -> find_key (le_value b) s = (Ret r, s) ->
          (length (siblings r) <= sp_num_siblings p)%nat /\
          forall i, (i < sp_num_siblings p)%nat ->
            take 32 (drop (32 * i) (sp_siblings p)) = Field_to_le_bytes (default 0 (siblings r !! i)))).
Proof.
  intros Hok Hb. split_and!.
  - intros Hl. unfold get_proof, bytes_to_field. by rewrite bool_decide_false.
  - intros Hl Hge. unfold get_proof, bytes_to_field. rewrite bool_decide_true by done. cbn [negb].
    unfold Field_try_from_le_bytes, Field_try_from_u256, Field_modulus. rewrite bn254_modulus_p. by rewrite (proj2 (Z.leb_le _ _)).
  - intros Hl Hlt. assert (in_field (le_value b)) as Hk by (split; [apply le_value_bound; done | done]).
    destruct (blocked_find m (le_value b) (smt_ok_field _ _ Hok)) as [Ef Efv].
    destruct (get_proof_eq c b max_levels _ _ (bytes_to_field_canonical b Hb Hl Hlt) (smt_find_run m c _ Hok Hk))
      as (p & Hp & Hpf & Hpr & Hpv & Hps & Hpn).
    assert (length (pad_siblings max_levels (siblings (tree_find 0 (blocked m) (le_value b)))) =
            Nat.max (length (siblings (tree_find 0 (blocked m) (le_value b)))) max_levels) as Hpad.
    { unfold pad_siblings. rewrite length_app, length_replicate. lia. }
    exists p. split_and!; [done | by rewrite Hpf, Ef | intros v Hv; by rewrite Hpv, (Efv v Hv) | by rewrite Hpr, (smt_ok_root _ _ Hok) |
      rewrite Hpn, Hpad; lia | by rewrite Hps, Hpn, flat_bytes_length |].
    intros s r Hs Hfind. unfold find_key in Hfind. revert Hfind. msteps. rewrite (nm_ok_root _ _ Hs). cbn [default id].
    rewrite (nm_ok_find _ _ _ Hs). intros [= <-]. split; [rewrite Hpn, Hpad; lia |]. intros i Hi. rewrite Hps. apply flat_bytes_slice.
    rewrite Hpn in Hi. unfold pad_siblings in *. rewrite length_app, length_replicate in Hi.
    destruct (decide (i < length (siblings (tree_find 0 (blocked m) (le_value b))))%nat) as [Hin | Hout].
    + rewrite lookup_app_l by done. destruct (lookup_lt_is_Some_2 _ _ Hin) as [x ->]. done.
    + rewrite (lookup_ge_None_2 (siblings _)) by lia. rewrite lookup_app_r by lia. apply lookup_replicate_2. lia.
Qed.

Lemma client_proof_bytes_witness :
  get_proof smt_new [1] 3 = Some (Err SmtBytesLength) /\
  exists p, get_proof smt_new (le_bytes 32 5) 3 = Some (Ok p) /\ sp_found p = false /\ (3 <= sp_num_siblings p)%nat.
Proof.
  split.
  - apply (client_proof_bytes ref_host_poseidon2 _ ∅ smt_new [1] 3 smt_ok_new ltac:(repeat constructor; cbn; lia)). cbn. lia.
  - destruct (proj2 (proj2 (client_proof_bytes ref_host_poseidon2 _ ∅ smt_new (le_bytes 32 5) 3 smt_ok_new (le_bytes_bytes 32 5)))
      ltac:(reflexivity) ltac:(vm_compute; reflexivity)) as (p & Hp & Hf & _ & _ & Hn & _).
    exists p. split; [exact Hp |]. split; [rewrite Hf; vm_compute; reflexivity | exact Hn].
Defined.
