(* ===== verification/FlowTheorems.v ===== *)
(** * Properties of the transaction builder

    What [flow_transact] and its wrappers accept and build, that the pool contract takes
    what was built, and that its recipients find their notes. *)

From S2P Require Import Prelude Ints Amounts Poseidon2Tables Hashes Serialization ProverMonad Encryption Notes Flows FlowFacts.
From S2P Require Import Soroban MerkleSpec MerkleHistory Pool PoolSpec PoolSafety PoolTheorems.

(** ** Reference requests *)

Definition ref_hash (e : FlowExtData) : result ProverError bytes := Ok (replicate 32 (Z.of_nat (length (fe_encrypted_output0 e)))).

Definition wit_output (amount : Z) : TransactOutput :=
  {| out_amount := amount; out_blinding := 77; recipient_note_pubkey := Some (le_bytes 32 6);
     recipient_encryption_pubkey := Some (replicate 32 7) |}.

Definition wit_membership : AspMembershipProof :=
  {| mp_leaf := 1; mp_blinding := 2; mp_path_elements := [3; 4; 5]; mp_path_indices := 0; mp_root := 31 |}.
Definition wit_non_membership : AspNonMembershipProof :=
  {| nmp_key := 1; nmp_old_key := 2; nmp_old_value := 3; nmp_is_old0 := false; nmp_siblings := [1; 2]; nmp_root := 32 |}.

Definition wit_params (inputs : list TransactInputNote) (outputs : list TransactOutput) (ext : Z) : TransactParams :=
  {| priv_key := le_bytes 32 5; encryption_pubkey := replicate 32 9; pool_root := default 0 (get_zeroes !! 3%nat);
     ext_recipient := "bob"; tx_ext_amount := ext; tx_inputs := inputs; tx_outputs := outputs;
     membership_proof := wit_membership; non_membership_proof := wit_non_membership; tx_tree_depth := 3; tx_smt_depth := 2 |}.

Definition wit_input (amount idx : Z) : TransactInputNote :=
  {| in_amount := amount; in_blinding := 88; merkle_path_elements := [1; 2; 3]; merkle_path_indices := idx |}.

Ltac ground := repeat first [split | constructor]; vm_compute; congruence.

Lemma wit_output_typed a : is_note a -> output_typed (wit_output a).
Proof. intros Ha. constructor; cbn; [exact Ha | split; [discriminate | reflexivity] | by intros ? [= <-] ..]. Qed.

Lemma wit_input_typed a i : is_note a -> in_field i -> input_typed (wit_input a i).
Proof. intros Ha Hi. constructor; cbn; [exact Ha | split; [discriminate | reflexivity] | ground | exact Hi]. Qed.

Lemma wit_params_typed inputs outputs ext :
  is_ext ext -> Forall input_typed inputs -> Forall output_typed outputs -> params_typed (wit_params inputs outputs ext).
Proof.
  intros He Hi Ho. constructor; cbn [wit_params priv_key encryption_pubkey pool_root tx_ext_amount tx_inputs tx_outputs
    membership_proof non_membership_proof tx_tree_depth tx_smt_depth].
  - reflexivity.
  - reflexivity.
  - ground.
  - exact He.
  - exact Hi.
  - exact Ho.
  - constructor; ground.
  - constructor; ground.
  - lia.
  - lia.
Qed.

Definition wit_deposit : TransactParams := wit_params [] [wit_output 20] 20.

Lemma wit_deposit_typed : params_typed wit_deposit.
Proof. apply wit_params_typed; [ground | constructor | constructor; [apply wit_output_typed; ground | constructor]]. Qed.

Lemma wit_deposit_acceptable : flow_acceptable wit_deposit.
Proof.
  unfold flow_acceptable, shapes_ok, balance_ok. cbn. split_and!; try lia; try reflexivity; try constructor; [| constructor].
  unfold keys_paired. cbn. split; intros _; by eexists.
Qed.

(** A run on which the request succeeds. *)
Lemma flow_transact_succeeds (C : Crypto) (CL : CryptoLaws C) hash p n :
  params_typed p -> flow_env hash -> flow_acceptable p ->
  exists art n', flow_transact hash p n = Some (Ok art, n') /\ flow_result hash p art.
Proof.
  intros Hp He Ha. pose proof (flow_transact_decides hash p Hp n) as H.
  destruct (flow_transact hash p n) as [[[art|e] n']|]; [| tauto | done]. exists art, n'. tauto.
Qed.

Lemma flow_transact_result (C : Crypto) (CL : CryptoLaws C) hash p n art n' :
  params_typed p -> flow_transact hash p n = Some (Ok art, n') -> flow_acceptable p /\ flow_result hash p art.
Proof. intros Hp H. pose proof (flow_transact_decides hash p Hp n) as Hd. rewrite H in Hd. exact Hd. Qed.

Lemma ref_env : flow_env (C := ref_crypto) ref_hash.
Proof. split; [apply ref_entropy | intros e; by eexists]. Qed.

(** ** What is built *)

(** C5. The builder accepts exactly the well-formed balanced requests and builds what the
    circuit proves: on arguments of the Rust types it never panics; it succeeds, when
    entropy and the caller's hash are available, exactly if the depths are non-zero, the
    proofs have their lengths, there are at most two inputs and outputs, no sum overflows,
    inputs plus the signed public amount equal the outputs, and every output has both
    recipient keys or none; the result has two slots on each side, the given notes first
    and random dummies of amount zero after them, with the nullifiers, commitments and
    sealed outputs of these slots, the public amount modulo the field order, and one
    circuit signal per name, each with the value of its slots. *)
Theorem flow_transact_exact (C : Crypto) (CL : CryptoLaws C) (hash : FlowExtData -> result ProverError bytes)
    (p : TransactParams) (n : nat) :
  params_typed p ->
  flow_transact hash p n <> None /\
  (forall art n', flow_transact hash p n = Some (Ok art, n') -> flow_acceptable p /\ flow_result hash p art) /\
  (entropy_available C -> (forall e, exists h, hash e = Ok h) ->
   (exists art n', flow_transact hash p n = Some (Ok art, n')) <-> flow_acceptable p).
Proof.
  intros Hp. split_and!.
  - pose proof (flow_transact_decides hash p Hp n) as Hd. by destruct (flow_transact hash p n).
  - intros art n'. by apply flow_transact_result.
  - intros He Hh. split.
    + intros (art & n' & H). by apply flow_transact_result in H as [? _].
    + intros Ha. destruct (flow_transact_succeeds C CL hash p n Hp (conj He Hh) Ha) as (art & n' & H & _). eauto.
Qed.

Lemma flow_transact_exact_witness :
  exists art n', flow_transact (C := ref_crypto) ref_hash wit_deposit 0%nat = Some (Ok art, n').
Proof.
  apply (flow_transact_exact ref_crypto ref_crypto_laws ref_hash wit_deposit 0 wit_deposit_typed).
  - exact ref_entropy.
  - intros e. exact (ex_intro _ _ eq_refl).
  - exact wit_deposit_acceptable.
Defined.

(** ** The contract takes it *)

Definition pool_ext (e : FlowExtData) : ExtData :=
  {| recipient := fe_recipient e; ext_amount := fe_ext_amount e;
     encrypted_output0 := fe_encrypted_output0 e; encrypted_output1 := fe_encrypted_output1 e |}.

(** The arguments of the contract call, with a Groth16 proof for the signals. *)
Definition pool_proof (g : Groth16Proof) (t : PreparedTx) : Proof :=
  {| proof := g; root := pt_pool_root t; input_nullifiers := pt_input_nullifiers t;
     output_commitment0 := default 0 (pt_output_commitments t !! 0%nat);
     output_commitment1 := default 0 (pt_output_commitments t !! 1%nat);
     public_amount := pt_public_amount_field t; ext_data_hash := pt_ext_data_hash_be t;
     asp_membership_root := pt_asp_membership_root t; asp_non_membership_root := pt_asp_non_membership_root t |}.

Lemma outs_two (dummy : TransactOutput -> Prop) given outs :
  padded dummy given outs -> exists o0 o1, outs = [o0; o1].
Proof. intros (? & _ & _ & Hl). destruct outs as [|o0 [|o1 [|]]]; [discriminate Hl .. | by eauto | discriminate Hl]. Qed.

Lemma built_canonical (C : Crypto) hash p art g :
  params_typed p -> flow_result hash p art ->
  canonical_inputs (pool_proof g (prepared art)) = true /\ tx_typed (pool_proof g (prepared art)) (pool_ext (art_ext_data art)).
Proof.
  intros Hp (ins & outs & c0 & c1 & h & _ & Ho & _ & He & _ & Hprep & _).
  destruct (outs_two _ _ _ Ho) as (o0 & o1 & ->). rewrite Hprep, He. split.
  - unfold canonical_inputs. apply forallb_forall. intros x Hx%list_elem_of_In. apply Z.ltb_lt.
    enough (in_field x) as [_ ?] by assumption. revert x Hx. apply Forall_forall.
    cbn [pool_proof root public_amount input_nullifiers output_commitment0 output_commitment1 asp_membership_root
      asp_non_membership_root pt_pool_root pt_input_nullifiers pt_output_commitments pt_public_amount_field
      pt_asp_membership_root pt_asp_non_membership_root fmap list_fmap lookup list_lookup default].
    repeat (apply Forall_app; split).
    + constructor; [apply Hp | constructor; [apply in_field_mod | constructor]].
    + apply Forall_fmap, Forall_true. intros i. apply nullifier_in_field.
    + constructor; [apply commitment_in_field |]. constructor; [apply commitment_in_field |].
      constructor; [apply Hp |]. constructor; [apply Hp | constructor].
  - constructor; cbn [pool_ext fe_ext_amount ext_amount pool_proof output_commitment0 output_commitment1 pt_output_commitments fmap list_fmap lookup list_lookup default].
    + pose proof (pt_ext p Hp) as [Hlo Hhi]. assert (2 ^ 127 < 2 ^ 255) by reflexivity. unfold is_i256. lia.
    + apply commitment_in_field.
    + apply commitment_in_field.
Qed.

(** C6. The pool accepts what the builder built, exactly when the things the builder
    cannot know hold: given the contract's hash of the external data, the call with the
    artifacts and a proof succeeds if and only if the sender authorised it, the root is
    among the last ninety, the nullifiers are unspent, a deposit is within the limit, the
    association-set roots are current, the verifier accepts, the token moves and the
    tree has room.  The hash, the public amount, its range and the canonical
    form of every public input hold by construction. *)
Theorem flow_submission_accepted {Ledger} (env : PoolHost Ledger) (host : HostPoseidon2) (laws : HostPoseidon2Laws host)
    (C : Crypto) (CL : CryptoLaws C) (s : PoolState Ledger) (a : PoolSpec Ledger) (call : Call) (sender : Address)
    (p : TransactParams) (g : Groth16Proof) (art : TransactArtifacts) (n n' : nat) :
  pool_rel s a -> params_typed p ->
  flow_transact (fun e => Ok (ext_hash (pool_ext e))) p n = Some (Ok art, n') ->
  let tx := pool_proof g (prepared art) in
  let ext := pool_ext (art_ext_data art) in
  (exists s', invoke (transact call tx ext sender) s = (Ret tt, s')) <->
  (authorised call sender = true /\ usable_root (pool_root p) a = true /\
   (forall x, x ∈ pt_input_nullifiers (prepared art) -> x ∉ ps_spent a) /\
   (0 < tx_ext_amount p -> tx_ext_amount p <= ps_maximum_deposit a) /\
   asp_get_root_of call (ps_asp_membership a) = Some (mp_root (membership_proof p)) /\
   asp_get_root_of call (ps_asp_non_membership a) = Some (nmp_root (non_membership_proof p)) /\
   Groth16Proof_is_empty g = false /\ verify call (ps_verifier a) g (public_inputs_of tx) = Some true /\
   is_Some (tx_transfer ext sender a) /\ zlength (ps_leaves a) + 2 <= 2 ^ Z.of_nat (ps_depth a)).
Proof.
  intros Hrel Hp H tx ext. destruct (flow_transact_result C CL _ _ _ _ _ Hp H) as [Hacc Hres].
  destruct (built_canonical C _ p art g Hp Hres) as [Hcan Hty]. fold tx in Hcan, Hty. fold ext in Hty.
  pose proof (simulates_invoke _ _ _ s a (sim_transact call tx ext sender Hty) Hrel) as Hsim.
  destruct Hres as (ins & outs & c0 & c1 & h & _ & _ & _ & He & Hh & Hprep & _). injection Hh as Hh.
  destruct Hacc as (_ & (_ & _ & Hmin & _) & _). pose proof (pt_ext p Hp) as [Hlo Hhi].
  assert (ext_amount ext = tx_ext_amount p) as Hamt by (unfold ext; rewrite He; reflexivity). split.
  - intros (s' & Hrun). rewrite Hrun in Hsim. destruct (spec_transact call tx ext sender a) as [[u a']|e|] eqn:E; [| done ..].
    apply spec_transact_accepted, accepted_acceptable in E. destruct E as [A1 A2 A3 A4 A5 A6 A7 A8 A9 A10 A11 A12 A13 A14].
    unfold tx, pool_proof in A2, A8, A9. rewrite Hprep in A2, A8, A9. cbn in A2, A8, A9. rewrite Hamt in A7.
    exact (conj A1 (conj A2 (conj A3 (conj A7 (conj A8 (conj A9 (conj A10 (conj A12 (conj A13 A14))))))))).
  - intros (A1 & A2 & A3 & A7 & A8 & A9 & A10 & A12 & A13 & A14).
    assert (acceptable call tx ext sender a) as Hok.
    { constructor; try assumption.
      - unfold tx, pool_proof. rewrite Hprep. exact A2.
      - unfold tx, pool_proof. rewrite Hprep. cbn [ext_data_hash pt_ext_data_hash_be]. exact Hh.
      - unfold tx, pool_proof. rewrite Hprep, Hamt. reflexivity.
      - rewrite Hamt. lia.
      - rewrite Hamt. exact A7.
      - unfold tx, pool_proof. rewrite Hprep. exact A8.
      - unfold tx, pool_proof. rewrite Hprep. exact A9. }
    destruct (acceptable_accepted _ _ _ _ _ Hok) as (a' & E). rewrite E in Hsim. destruct Hsim as (s' & ? & _). eauto.
Qed.

Lemma flow_submission_accepted_witness :
  exists s art n', flow_transact (C := ref_crypto) (fun e => Ok (ext_hash (pool_ext e))) wit_deposit 0%nat = Some (Ok art, n') /\
    ((exists s', invoke (transact (host := ref_host_poseidon2) wit_call
         (pool_proof {| g16_a := [1]; g16_b := [2]; g16_c := [3] |} (prepared art)) (pool_ext (art_ext_data art)) "mallory") s = (Ret tt, s')) ->
     authorised wit_call "mallory" = true).
Proof.
  destruct (wit_pool (host := ref_host_poseidon2)) as (s & Hrel). exists s.
  destruct (flow_transact_succeeds ref_crypto ref_crypto_laws (fun e => Ok (ext_hash (pool_ext e))) wit_deposit 0 wit_deposit_typed)
    as (art & n' & H & _); [split; [exact ref_entropy | intros e; exact (ex_intro _ _ eq_refl)] | exact wit_deposit_acceptable |].
  exists art, n'. split; [exact H |].
  intros Hrun. exact (proj1 (proj1 (flow_submission_accepted ref_pool_host ref_host_poseidon2 ref_host_poseidon2_laws
    ref_crypto ref_crypto_laws s wit_spec wit_call "mallory" wit_deposit {| g16_a := [1]; g16_b := [2]; g16_c := [3] |} art 0 n'
    Hrel wit_deposit_typed H) Hrun)).
Defined.

(** ** The recipient finds it, and sees it spent *)

(** The sealed outputs of a transaction, by slot. *)
Definition sealed_outputs (e : FlowExtData) : list bytes := [fe_encrypted_output0 e; fe_encrypted_output1 e].

Section payment.
Context {C : Crypto} {CL : CryptoLaws C}.

(** Slot [i] of the result is the [i]-th output given. *)
Lemma built_output hash p art i o :
  flow_result hash p art -> tx_outputs p !! i = Some o ->
  pt_output_commitments (prepared art) !! i = Some (output_commitment (scalar_of (priv_key p)) o) /\
  exists c m m', sealed_outputs (art_ext_data art) !! i = Some c /\
    encrypt_output_note (seal_key p o) (out_amount o) (out_blinding o) m = Some (Ok c, m').
Proof.
  intros (ins & outs & c0 & c1 & h & _ & (pad & -> & _ & _) & Hseal & He & _ & Hprep & _) Hi.
  rewrite Hprep, He. assert ((tx_outputs p ++ pad) !! i = Some o) as Ho by (by apply lookup_app_l_Some).
  split; [cbn [pt_output_commitments]; rewrite list_lookup_fmap, Ho; reflexivity |].
  destruct (Forall2_lookup_l _ _ _ _ _ Hseal Ho) as (c & Hc & m & m' & Hm). eauto.
Qed.

Lemma built_input hash p art j i :
  flow_result hash p art -> tx_inputs p !! j = Some i ->
  pt_input_nullifiers (prepared art) !! j = Some (input_nullifier (scalar_of (priv_key p)) i).
Proof.
  intros (ins & outs & c0 & c1 & h & (pad & -> & _ & _) & _ & _ & _ & _ & Hprep & _) Hi. rewrite Hprep.
  cbn [pt_input_nullifiers]. rewrite list_lookup_fmap, (lookup_app_l_Some _ _ _ _ Hi). reflexivity.
Qed.

End payment.

(** C4. A payment reaches its recipient and its spending is recognised: when a transaction
    pays a non-zero amount to the keys of a wallet, the wallet that scans the published
    output at its leaf finds a note with that amount and blinding; and when the wallet
    later spends the note from that leaf, the nullifier published is the one the scan predicted. *)
Theorem payment_discovered_and_spent (C : Crypto) (CL : CryptoLaws C) (hash hash' : FlowExtData -> result ProverError bytes)
    (p q : TransactParams) (art art' : TransactArtifacts) (n n' k k' m : nat)
    (i j : nat) (o : TransactOutput) (inp : TransactInputNote) (kp : NoteKeyPair) (ek : bytes) (idx : Z) :
  params_typed p -> flow_transact hash p n = Some (Ok art, n') ->
  length (note_private kp) = 32%nat -> note_public kp = le_bytes 32 (public_key_of (scalar_of (note_private kp))) ->
  length ek = 32%nat -> 0 <= idx < 2 ^ 32 ->
  tx_outputs p !! i = Some o -> out_amount o <> 0 ->
  recipient_note_pubkey o = Some (note_public kp) -> recipient_encryption_pubkey o = Some (x25519_public ek) ->
  params_typed q -> flow_transact hash' q k = Some (Ok art', k') ->
  priv_key q = note_private kp -> tx_inputs q !! j = Some inp ->
  in_amount inp = out_amount o -> in_blinding inp = out_blinding o -> merkle_path_indices inp = idx ->
  exists commitment c d,
    pt_output_commitments (prepared art) !! i = Some commitment /\ sealed_outputs (art_ext_data art) !! i = Some c /\
    try_decrypt_and_derive_user_note kp ek commitment idx c m = Some (Ok (Some d), m) /\
    derived_amount d = out_amount o /\ derived_blinding d = out_blinding o /\
    pt_input_nullifiers (prepared art') !! j = Some (expected_nullifier d).
Proof.
  intros Hp H Hsk Hpk Hek Hidx Ho Hz Hrn Hre Hq H' Hqk Hin Ha Hb Hi.
  destruct (flow_transact_result C CL _ _ _ _ _ Hp H) as [_ Hres].
  destruct (flow_transact_result C CL _ _ _ _ _ Hq H') as [_ Hres'].
  destruct (built_output hash p art i o Hres Ho) as [Hc (c & m1 & m2 & Hs & He)].
  pose proof (pt_outputs p Hp) as Ht. rewrite Forall_lookup in Ht. destruct (Ht i o Ho) as [Hta Htb _ _].
  unfold seal_key in He. rewrite Hre in He. cbn [default] in He.
  destruct (note_roundtrip ek _ _ _ _ _ m Hek Hta Htb He) as [_ Hd].
  set (cm := output_commitment (scalar_of (priv_key p)) o) in *.
  assert (cm = commitment_of (out_amount o) (scalar_of (note_public kp)) (out_blinding o)) as Hcm.
  { unfold cm, output_commitment, owner_key. rewrite Hrn. reflexivity. }
  assert (length (note_public kp) = 32%nat) as Hpl by (rewrite Hpk; apply length_le_bytes).
  pose proof (derive_user_note_run kp ek cm idx c (out_amount o) (out_blinding o) m Hpl Hsk Hidx
    (commitment_in_field _ _ _) Hta Htb Hd) as Hrun.
  rewrite bool_decide_true in Hrun by (split; [exact Hz | exact Hcm]).
  exists cm, c. eexists. split; [exact Hc |]. split; [exact Hs |]. split; [exact Hrun |].
  split; [reflexivity |]. split; [reflexivity |]. cbn [expected_nullifier].
  rewrite (built_input hash' q art' j inp Hres' Hin), Hqk. unfold input_nullifier, input_commitment.
  rewrite Hpk, (scalar_of_le_bytes _ (public_key_in_field _)) in Hcm. rewrite Ha, Hb, Hi, Hcm. reflexivity.
Qed.

Definition wit_kp : NoteKeyPair :=
  {| note_private := le_bytes 32 5; note_public := le_bytes 32 (public_key_of (scalar_of (le_bytes 32 5))) |}.
Definition wit_payment : TransactOutput :=
  {| out_amount := 20; out_blinding := 88; recipient_note_pubkey := Some (note_public wit_kp);
     recipient_encryption_pubkey := Some (replicate 32 7) |}.
Definition wit_pay : TransactParams := wit_params [] [wit_payment] 20.
Definition wit_spend : TransactParams := wit_params [wit_input 20 3] [] (-20).

Lemma wit_pay_typed : params_typed wit_pay.
Proof.
  apply wit_params_typed; [ground | constructor | constructor; [| constructor]].
  constructor; cbn [wit_payment out_amount out_blinding recipient_note_pubkey recipient_encryption_pubkey]; [ground | ground | |].
  - intros k Hk. apply (inj Some) in Hk. rewrite <- Hk. apply length_le_bytes.
  - intros k Hk. apply (inj Some) in Hk. by rewrite <- Hk.
Qed.

Lemma wit_pay_acceptable : flow_acceptable wit_pay.
Proof.
  split; [unfold shapes_ok; cbn; lia |]. split; [unfold balance_ok; cbn; lia |].
  split; [cbn; lia |]. split; [constructor |]. constructor; [| constructor].
  split; intros _; [exact (ex_intro _ _ eq_refl) | exact (ex_intro _ _ eq_refl)].
Qed.

Lemma wit_spend_typed : params_typed wit_spend.
Proof. apply wit_params_typed; [ground | constructor; [apply wit_input_typed; ground | constructor] | constructor]. Qed.

Lemma wit_spend_acceptable : flow_acceptable wit_spend.
Proof.
  split; [unfold shapes_ok; cbn; lia |]. split; [unfold balance_ok; cbn; lia |].
  split; [cbn; lia |]. split; [constructor; [reflexivity | constructor] | constructor].
Qed.

Lemma payment_discovered_and_spent_witness :
  exists art art' commitment c d,
    pt_output_commitments (prepared art) !! 0%nat = Some commitment /\ sealed_outputs (art_ext_data art) !! 0%nat = Some c /\
    try_decrypt_and_derive_user_note (C := ref_crypto) wit_kp (replicate 32 7) commitment 3 c 0%nat = Some (Ok (Some d), 0%nat) /\
    derived_amount d = 20 /\ derived_blinding d = 88 /\
    pt_input_nullifiers (prepared art') !! 0%nat = Some (expected_nullifier d).
Proof.
  destruct (flow_transact_succeeds ref_crypto ref_crypto_laws ref_hash wit_pay 0 wit_pay_typed ref_env wit_pay_acceptable)
    as (art & n' & H & _).
  destruct (flow_transact_succeeds ref_crypto ref_crypto_laws ref_hash wit_spend 0 wit_spend_typed ref_env wit_spend_acceptable)
    as (art' & k' & H' & _).
  exists art, art'.
  refine (payment_discovered_and_spent ref_crypto ref_crypto_laws ref_hash ref_hash wit_pay wit_spend art art' 0 n' 0 k' 0
    0 0 wit_payment (wit_input 20 3) wit_kp (replicate 32 7) 3 wit_pay_typed H eq_refl eq_refl eq_refl _ eq_refl _ eq_refl eq_refl
    wit_spend_typed H' eq_refl eq_refl eq_refl eq_refl eq_refl).
  - lia.
  - discriminate.
Defined.

(** ** The wrappers *)

Definition deposit_request (d : DepositParams) : TransactParams :=
  {| priv_key := dep_priv_key d; encryption_pubkey := dep_encryption_pubkey d; pool_root := dep_pool_root d;
     ext_recipient := dep_pool_address d; tx_ext_amount := dep_amount d; tx_inputs := [];
     tx_outputs := dep_outputs d; membership_proof := dep_membership_proof d;
     non_membership_proof := dep_non_membership_proof d; tx_tree_depth := dep_tree_depth d; tx_smt_depth := dep_smt_depth d |}.

Definition transfer_request (t : TransferParams) : TransactParams :=
  {| priv_key := tr_priv_key t; encryption_pubkey := tr_encryption_pubkey t; pool_root := tr_pool_root t;
     ext_recipient := tr_pool_address t; tx_ext_amount := 0; tx_inputs := tr_inputs t;
     tx_outputs := tr_outputs t; membership_proof := tr_membership_proof t;
     non_membership_proof := tr_non_membership_proof t; tx_tree_depth := tr_tree_depth t; tx_smt_depth := tr_smt_depth t |}.

Definition withdraw_request (w : WithdrawParams) (outputs : list TransactOutput) : TransactParams :=
  {| priv_key := wd_priv_key w; encryption_pubkey := wd_encryption_pubkey w; pool_root := wd_pool_root w;
     ext_recipient := withdraw_recipient w; tx_ext_amount := - withdraw_amount w; tx_inputs := wd_inputs w;
     tx_outputs := outputs; membership_proof := wd_membership_proof w;
     non_membership_proof := wd_non_membership_proof w; tx_tree_depth := wd_tree_depth w; tx_smt_depth := wd_smt_depth w |}.

(** The default outputs of a withdrawal: the change and a dummy, both the sender's. *)
Definition change_outputs (change b0 b1 : Z) : list TransactOutput :=
  [{| out_amount := change; out_blinding := b0; recipient_note_pubkey := None; recipient_encryption_pubkey := None |};
   {| out_amount := 0; out_blinding := b1; recipient_note_pubkey := None; recipient_encryption_pubkey := None |}].

Lemma own_output_typed amount b :
  is_note amount -> in_field b ->
  output_typed {| out_amount := amount; out_blinding := b; recipient_note_pubkey := None; recipient_encryption_pubkey := None |}.
Proof. intros Ha Hb. constructor; [exact Ha | exact Hb | discriminate | discriminate]. Qed.

(** What a withdrawal without explicit outputs needs. *)
Definition withdraw_acceptable (w : WithdrawParams) : Prop :=
  total in_amount (wd_inputs w) < 2 ^ 128 /\ 0 <= withdraw_amount w <= total in_amount (wd_inputs w) /\
  shapes_ok (withdraw_request w []) /\ (length (wd_inputs w) <= 2)%nat /\
  Forall (fun i => length (merkle_path_elements i) = Z.to_nat (wd_tree_depth w)) (wd_inputs w).

Definition withdraw_result `{Crypto} (hash : FlowExtData -> result ProverError bytes) (w : WithdrawParams) (art : TransactArtifacts) : Prop :=
  exists b0 b1, in_field b0 /\ in_field b1 /\
    flow_result hash (withdraw_request w (change_outputs (total in_amount (wd_inputs w) - withdraw_amount w) b0 b1)) art.

Section withdraw.
Context {C : Crypto} {CL : CryptoLaws C}.
Variable hash : FlowExtData -> result ProverError bytes.

Lemma withdraw_request_typed w change b0 b1 :
  params_typed (withdraw_request w []) -> 0 <= withdraw_amount w -> is_note change -> in_field b0 -> in_field b1 ->
  params_typed (withdraw_request w (change_outputs change b0 b1)).
Proof.
  intros [] Ha Hc H0 H1. constructor; try assumption.
  constructor; [by apply own_output_typed |]. constructor; [| constructor]. apply own_output_typed; [ground | done].
Qed.

Lemma withdraw_request_acceptable w b0 b1 :
  is_ext (withdraw_amount w) -> total in_amount (wd_inputs w) < 2 ^ 128 -> 0 <= withdraw_amount w <= total in_amount (wd_inputs w) ->
  flow_acceptable (withdraw_request w (change_outputs (total in_amount (wd_inputs w) - withdraw_amount w) b0 b1)) <->
  withdraw_acceptable w.
Proof.
  intros Hx Ht Ha. unfold flow_acceptable, withdraw_acceptable, shapes_ok, balance_ok, is_ext in *.
  cbn [withdraw_request change_outputs tx_inputs tx_outputs tx_ext_amount tx_tree_depth tx_smt_depth membership_proof non_membership_proof
       total foldr out_amount length].
  assert (Forall keys_paired (change_outputs (total in_amount (wd_inputs w) - withdraw_amount w) b0 b1)) as Hk.
  { repeat constructor; cbn; intros [? ?]; discriminate. }
  unfold change_outputs in Hk. fold (total in_amount (wd_inputs w)) in *.
  split; [intros ((? & ? & ? & ? & ?) & (? & ? & ? & ?) & ? & ? & ?) | intros (? & ? & (? & ? & ? & ? & ?) & ? & ?)];
    split_and!; (assumption || lia).
Qed.

Lemma flow_withdraw_decides w :
  params_typed (withdraw_request w []) -> is_ext (withdraw_amount w) -> wd_outputs w = None ->
  decides (flow_env hash) (withdraw_acceptable w) (flow_withdraw hash w) (withdraw_result hash w).
Proof.
  intros Hp Hx Ho. unfold flow_withdraw. rewrite sum_inputs_eq by (exact (pt_inputs _ Hp)). rewrite Ho.
  destruct (Z.ltb_spec (total in_amount (wd_inputs w)) (2 ^ 128)) as [Ht|Ht].
  2: { intros n. cbn. intros [[? _] _]. lia. }
  eapply decides_run; [intros; reflexivity |].
  destruct (decide (0 <= withdraw_amount w)) as [Hpos|Hneg].
  2: { intros n. unfold NoteAmount_try_from_ext, try_into_u, fits_u.
       rewrite (proj2 (Z.leb_gt 0 (withdraw_amount w))) by lia. cbn. intros [(_ & ? & _) _]. lia. }
  assert (is_note (withdraw_amount w)) as Hn.
  { unfold is_ext, is_note in *. assert (2 ^ 127 < 2 ^ 128) by reflexivity. lia. }
  eapply decides_run.
  { intros. unfold lift_result, NoteAmount_try_from_ext. rewrite (proj2 (try_into_u_Some 128 _ (withdraw_amount w))); [reflexivity |].
    split; [reflexivity | exact Hn]. }
  destruct (Z.ltb_spec (total in_amount (wd_inputs w)) (withdraw_amount w)) as [Hlt|Hge].
  { intros n. cbn. intros [(_ & ? & _) _]. lia. }
  eapply decides_run; [intros; reflexivity |].
  eapply decides_run.
  { intros. unfold lift_result, NoteAmount_checked_sub.
    rewrite (proj2 (checked_sub_Some _ _ (total in_amount (wd_inputs w) - withdraw_amount w))); [reflexivity | done]. }
  eapply decides_step with (P := fun outs => exists b0 b1, in_field b0 /\ in_field b1 /\
     outs = change_outputs (total in_amount (wd_inputs w) - withdraw_amount w) b0 b1).
  { eapply decides_step; [apply random_blinding_decides |]. intros b0 H0.
    eapply decides_step; [apply random_blinding_decides |]. intros b1 H1. apply decides_ret. eauto. }
  intros outs (b0 & b1 & H0 & H1 & ->).
  eapply decides_run.
  { intros. unfold lift_result, ExtAmount_checked_neg, checked_neg_i.
    rewrite (proj2 (try_into_i_Some 128 (- withdraw_amount w) (- withdraw_amount w))); [reflexivity |].
    split; [done |]. unfold is_ext in Hx. change (128 - 1) with 127. lia. }
  eapply decides_conseq.
  - apply (flow_transact_decides hash (withdraw_request w (change_outputs (total in_amount (wd_inputs w) - withdraw_amount w) b0 b1))).
    apply withdraw_request_typed; [exact Hp | exact Hpos | | exact H0 | exact H1]. unfold is_note. lia.
  - by apply withdraw_request_acceptable.
  - intros art _ Hr. exists b0, b1. tauto.
Qed.

End withdraw.

(** The three flows: a withdrawal with default outputs succeeds exactly for an amount
    between zero and the sum of its inputs (and well-formed proofs), sends out minus that
    amount and returns the whole change to the sender in the first output, with a zero
    second output; a transfer built has equal input and output sums and moves nothing in public; a deposit
    built has a non-negative amount equal to the sum of its outputs. *)
Theorem flow_wrappers_exact (C : Crypto) (CL : CryptoLaws C) (hash : FlowExtData -> result ProverError bytes)
    (w : WithdrawParams) (t : TransferParams) (d : DepositParams) (n : nat) :
  params_typed (withdraw_request w []) -> is_ext (withdraw_amount w) -> wd_outputs w = None ->
  params_typed (transfer_request t) -> params_typed (deposit_request d) ->
  (forall art n', flow_withdraw hash w n = Some (Ok art, n') -> withdraw_acceptable w /\ withdraw_result hash w art) /\
  (flow_env hash -> (exists art n', flow_withdraw hash w n = Some (Ok art, n')) <-> withdraw_acceptable w) /\
  (forall art n', flow_transfer hash t n = Some (Ok art, n') ->
     total in_amount (tr_inputs t) = total out_amount (tr_outputs t) /\ fe_ext_amount (art_ext_data art) = 0 /\
     pt_public_amount_field (prepared art) = 0) /\
  (forall art n', flow_deposit hash d n = Some (Ok art, n') ->
     0 <= dep_amount d /\ dep_amount d = total out_amount (dep_outputs d) /\ fe_ext_amount (art_ext_data art) = dep_amount d).
Proof.
  intros Hw Hx Ho Ht Hd. pose proof (flow_withdraw_decides hash w Hw Hx Ho n) as Hdec. split_and!.
  - intros art n' H. rewrite H in Hdec. exact Hdec.
  - intros He. destruct (flow_withdraw hash w n) as [[[art|e] n']|]; [| | done].
    + split; [intros _; apply Hdec | by eauto].
    + split; [by intros (? & ? & ?) | tauto].
  - intros art n' H. destruct (flow_transact_result C CL hash (transfer_request t) n art n' Ht H) as [(_ & (_ & _ & _ & Hb) & _) Hr].
    destruct Hr as (ins & outs & c0 & c1 & h & _ & _ & _ & -> & _ & -> & _). cbn in Hb. rewrite Z.add_0_r in Hb.
    split; [exact Hb | split; reflexivity].
  - intros art n' H. destruct (flow_transact_result C CL hash (deposit_request d) n art n' Hd H) as [(_ & (_ & _ & _ & Hb) & _) Hr].
    destruct Hr as (ins & outs & c0 & c1 & h & _ & _ & _ & -> & _ & _ & _). change (0 + dep_amount d = total out_amount (dep_outputs d)) in Hb.
    pose proof (total_nonneg out_amount (dep_outputs d)) as Hn.
    assert (0 <= total out_amount (dep_outputs d)) as Hn'.
    { apply Hn. eapply Forall_impl; [exact (pt_outputs _ Hd) |]. apply ot_amount. }
    split_and!; [lia | lia | reflexivity].
Qed.

Definition wit_withdraw : WithdrawParams :=
  {| wd_priv_key := le_bytes 32 5; wd_encryption_pubkey := replicate 32 9; wd_pool_root := 4; withdraw_recipient := "bob";
     withdraw_amount := 15; wd_inputs := [wit_input 20 3]; wd_outputs := None; wd_membership_proof := wit_membership;
     wd_non_membership_proof := wit_non_membership; wd_tree_depth := 3; wd_smt_depth := 2 |}.
Definition wit_transfer : TransferParams :=
  {| tr_priv_key := le_bytes 32 5; tr_encryption_pubkey := replicate 32 9; tr_pool_root := 4; tr_pool_address := "pool";
     tr_inputs := [wit_input 20 3]; tr_outputs := [wit_output 20]; tr_membership_proof := wit_membership;
     tr_non_membership_proof := wit_non_membership; tr_tree_depth := 3; tr_smt_depth := 2 |}.
Definition wit_dep : DepositParams :=
  {| dep_priv_key := le_bytes 32 5; dep_encryption_pubkey := replicate 32 9; dep_pool_root := 4; dep_pool_address := "pool";
     dep_amount := 20; dep_outputs := [wit_output 20]; dep_membership_proof := wit_membership;
     dep_non_membership_proof := wit_non_membership; dep_tree_depth := 3; dep_smt_depth := 2 |}.

Ltac typed_request :=
  constructor; [reflexivity | reflexivity | ground | ground | | | constructor; ground | constructor; ground | cbn; lia | cbn; lia];
  repeat (constructor; [first [apply wit_input_typed; ground | apply wit_output_typed; ground] |]); constructor.

Lemma flow_wrappers_exact_witness :
  exists art n', flow_withdraw (C := ref_crypto) ref_hash wit_withdraw 0%nat = Some (Ok art, n').
Proof.
  assert (params_typed (withdraw_request wit_withdraw [])) as Hw by typed_request.
  assert (params_typed (transfer_request wit_transfer)) as Ht by typed_request.
  assert (params_typed (deposit_request wit_dep)) as Hd by typed_request.
  apply (flow_wrappers_exact ref_crypto ref_crypto_laws ref_hash wit_withdraw wit_transfer wit_dep 0 Hw); try assumption.
  - ground.
  - reflexivity.
  - exact ref_env.
  - unfold withdraw_acceptable, shapes_ok. cbn. split_and!; try lia. constructor; [reflexivity | constructor].
Defined.
