(* ===== verification/ScVals.v ===== *)
(** * Soroban values on the client

    [sdk/stellar/src/conversions.rs], [soroban_encode.rs] and [ext_data_hash.rs]: the
    values of contract calls and events, their integers as 64-bit limbs, the maps that
    stand for contract structs and the client's own hash of the external data. *)

From S2P Require Import Prelude Ints Amounts Poseidon2Tables Hashes Flows Soroban MerkleHistory Pool Registry.

(** ** Values

    [stellar_xdr]'s [ScVal] and [ScAddress]: the variants the sources name, and one for
    the rest. *)

Inductive ScAddress : Type :=
| AddrAccount (key : bytes)
| AddrContract (hash : bytes)
| AddrOther (kind : Z) (body : bytes).

(** [UInt256Parts] and [Int256Parts]; in the second the first limb is signed. *)
Record Parts256 : Type := { hi_hi : Z; hi_lo : Z; lo_hi : Z; lo_lo : Z }.

#[warnings="-register-all"]
Inductive ScVal : Type :=
| ScBool (b : bool)
| ScVoid
| ScU32 (n : Z)
| ScU64 (n : Z)
| ScU256 (p : Parts256)
| ScI256 (p : Parts256)
| ScBytes (b : bytes)
| ScSymbol (s : string)
| ScVec (items : option (list ScVal))
| ScMap (entries : option (list (ScVal * ScVal)))
| ScAddr (a : ScAddress)
| ScOther (kind : Z) (body : bytes).

(** The XDR codec, the text of addresses and the text of symbols, from [stellar_xdr] and
    [stellar_strkey]. *)
Class XdrLib : Type := {
  from_xdr_base64 : string -> option ScVal;
  scval_to_xdr : ScVal -> option bytes;
  symbol_to_utf8 : string -> option string;
  parse_address : string -> option ScAddress;
  account_strkey : bytes -> string;
  contract_strkey : bytes -> string;
}.

Inductive StellarError : Type :=
| UnexpectedScVal
| XdrError
| BytesTooLong
| InvalidMapKey
| MapTooLong
| BadAddress
| ProofLength (len : nat)
| MissingTopic
| MissingValue (field : string)
| UnhandledEvent (name : string)
| TryIntoError
| StellarFieldError (e : AmountError).

(** ** [conversions.rs] *)

Section Conversions.

Context `{XdrLib}.

Definition scval_to_address_string (v : ScVal) : result StellarError string :=
  match v with
  | ScAddr (AddrAccount key) => Ok (account_strkey key)
  | ScAddr (AddrContract hash) => Ok (contract_strkey hash)
  | _ => Err UnexpectedScVal
  end.

Definition scval_to_bytes (v : ScVal) : result StellarError bytes :=
  match v with ScBytes b => Ok b | _ => Err UnexpectedScVal end.

(** [u64::from_be_bytes(be[i..i + 8])]. *)
Definition limb_at (i : nat) (be : bytes) : Z := be_value (take 8 (drop i be)).

Definition field_to_scval_u256 (v : Field) : ScVal :=
  let be := Field_to_be_bytes v in
  ScU256 {| hi_hi := limb_at 0 be; hi_lo := limb_at 8 be; lo_hi := limb_at 16 be; lo_lo := limb_at 24 be |}.

Definition i128_to_i256_scval (n : Z) : ScVal :=
  let hi := if n <? 0 then -1 else 0 in
  let be := be_bytes 16 (n mod 2 ^ 128) in
  ScI256 {| hi_hi := hi; hi_lo := be_value (be_bytes 8 (hi mod 2 ^ 64)); lo_hi := limb_at 0 be; lo_lo := limb_at 8 be |}.

Definition bytes_to_scval (b : bytes) : result StellarError ScVal :=
  if zlength b <=? 2 ^ 32 - 1 then Ok (ScBytes b) else Err BytesTooLong.

Definition scval_to_u256 (v : ScVal) : result StellarError Z :=
  match v with
  | ScU256 p =>
      let out := Z.shiftl (hi_hi p) 192 mod 2 ^ 256 in
      out ← ok_or (checked_add 256 out (Z.shiftl (hi_lo p) 128 mod 2 ^ 256)) UnexpectedScVal;
      out ← ok_or (checked_add 256 out (Z.shiftl (lo_hi p) 64 mod 2 ^ 256)) UnexpectedScVal;
      ok_or (checked_add 256 out (lo_lo p)) UnexpectedScVal
  | _ => Err UnexpectedScVal
  end.

Definition scval_to_u32 (v : ScVal) : result StellarError Z :=
  match v with ScU32 n => Ok n | _ => Err UnexpectedScVal end.

Definition scval_to_u64 (v : ScVal) : result StellarError Z :=
  match v with ScU64 n => Ok n | _ => Err UnexpectedScVal end.

Definition scval_to_bool (v : ScVal) : result StellarError bool :=
  match v with ScBool b => Ok b | _ => Err UnexpectedScVal end.

(** An event as the RPC node returns it, and as the client parses it. *)
Record ContractEvent : Type := {
  ce_id : string;
  ce_ledger : Z;
  ce_contract_id : string;
  ce_topics : list string;
  ce_value : string;
}.

Record ParsedContractEvent : Type := {
  pe_id : string;
  pe_ledger : Z;
  pe_contract_id : string;
  pe_name : string;
  pe_topics : list ScVal;
  pe_values : gmap string ScVal;
}.

Fixpoint decode_topics (topics : list string) : result StellarError (list ScVal) :=
  match topics with
  | [] => Ok []
  | s :: rest => v ← ok_or (from_xdr_base64 s) XdrError; vs ← decode_topics rest; Ok (v :: vs)
  end.

(** The loop over the entries of the data map; a later entry replaces an earlier one. *)
Fixpoint event_values (entries : list (ScVal * ScVal)) (values : gmap string ScVal) : result StellarError (gmap string ScVal) :=
  match entries with
  | [] => Ok values
  | (key, val) :: rest =>
      match key with
      | ScSymbol sym => field_name ← ok_or (symbol_to_utf8 sym) XdrError; event_values rest (<[field_name := val]> values)
      | _ => Err UnexpectedScVal
      end
  end.

Definition parse_event_metadata (event : ContractEvent) : result StellarError ParsedContractEvent :=
  match ce_topics event with
  | [] => Err XdrError
  | first :: rest =>
      topics ← decode_topics rest;
      first ← ok_or (from_xdr_base64 first) XdrError;
      name ← match first with ScSymbol sym => ok_or (symbol_to_utf8 sym) XdrError | _ => Err UnexpectedScVal end;
      data ← ok_or (from_xdr_base64 (ce_value event)) XdrError;
      values ← match data with
               | ScMap (Some map) => event_values map ∅
               | ScVoid => Ok ∅
               | _ => Err UnexpectedScVal
               end;
      Ok {| pe_id := ce_id event; pe_ledger := ce_ledger event; pe_contract_id := ce_contract_id event;
            pe_name := name; pe_topics := topics; pe_values := values |}
  end.

(** ** [soroban_encode.rs] *)

Definition map_entry (key : string) (val : ScVal) : result StellarError (ScVal * ScVal) :=
  if (String.length key <=? 32)%nat then Ok (ScSymbol key, val) else Err InvalidMapKey.

(** [sort_by], a stable sort, by the text of the keys; entries without a symbol key
    compare equal to everything. *)
Definition key_le (a b : ScVal * ScVal) : bool :=
  match a.1, b.1 with ScSymbol ka, ScSymbol kb => String.leb ka kb | _, _ => true end.

Fixpoint insert_entry (e : ScVal * ScVal) (l : list (ScVal * ScVal)) : list (ScVal * ScVal) :=
  match l with
  | [] => [e]
  | x :: rest => if key_le e x then e :: x :: rest else x :: insert_entry e rest
  end.

Definition sort_entries (l : list (ScVal * ScVal)) : list (ScVal * ScVal) := foldr insert_entry [] l.

Definition sorted_map (entries : list (ScVal * ScVal)) : result StellarError ScVal :=
  if zlength entries <=? 2 ^ 32 - 1 then Ok (ScMap (Some (sort_entries entries))) else Err MapTooLong.

Definition slice (i j : nat) (b : bytes) : bytes := take (j - i) (drop i b).

Definition groth16_proof_to_scval (proof_uncompressed : bytes) : result StellarError ScVal :=
  if (length proof_uncompressed =? 256)%nat then
    a ← bytes_to_scval (slice 0 64 proof_uncompressed); ea ← map_entry "a" a;
    b ← bytes_to_scval (slice 64 192 proof_uncompressed); eb ← map_entry "b" b;
    c ← bytes_to_scval (slice 192 256 proof_uncompressed); ec ← map_entry "c" c;
    sorted_map [ea; eb; ec]
  else Err (ProofLength (length proof_uncompressed)).

Definition pool_proof_to_scval (proof_uncompressed : bytes) (root : Field) (input_nullifiers : list Field)
    (output_commitment0 output_commitment1 public_amount : Field) (ext_data_hash_be : bytes)
    (asp_membership_root asp_non_membership_root : Field) : result StellarError ScVal :=
  nullifiers ← (if zlength input_nullifiers <=? 2 ^ 32 - 1
                then Ok (ScVec (Some (field_to_scval_u256 <$> input_nullifiers))) else Err MapTooLong);
  e1 ← map_entry "asp_membership_root" (field_to_scval_u256 asp_membership_root);
  e2 ← map_entry "asp_non_membership_root" (field_to_scval_u256 asp_non_membership_root);
  h ← bytes_to_scval ext_data_hash_be; e3 ← map_entry "ext_data_hash" h;
  e4 ← map_entry "input_nullifiers" nullifiers;
  e5 ← map_entry "output_commitment0" (field_to_scval_u256 output_commitment0);
  e6 ← map_entry "output_commitment1" (field_to_scval_u256 output_commitment1);
  p ← groth16_proof_to_scval proof_uncompressed; e7 ← map_entry "proof" p;
  e8 ← map_entry "public_amount" (field_to_scval_u256 public_amount);
  e9 ← map_entry "root" (field_to_scval_u256 root);
  sorted_map [e1; e2; e3; e4; e5; e6; e7; e8; e9].

Definition pool_ext_data_to_scval (ext : FlowExtData) : result StellarError ScVal :=
  b0 ← bytes_to_scval (fe_encrypted_output0 ext); e0 ← map_entry "encrypted_output0" b0;
  b1 ← bytes_to_scval (fe_encrypted_output1 ext); e1 ← map_entry "encrypted_output1" b1;
  e2 ← map_entry "ext_amount" (i128_to_i256_scval (fe_ext_amount ext));
  r ← ok_or (parse_address (fe_recipient ext)) BadAddress;
  e3 ← map_entry "recipient" (ScAddr r);
  sorted_map [e0; e1; e2; e3].

Definition register_account_to_scval (owner : string) (encryption_key note_key : bytes) : result StellarError ScVal :=
  b0 ← bytes_to_scval encryption_key; e0 ← map_entry "encryption_key" b0;
  b1 ← bytes_to_scval note_key; e1 ← map_entry "note_key" b1;
  r ← ok_or (parse_address owner) BadAddress; e2 ← map_entry "owner" (ScAddr r);
  sorted_map [e0; e1; e2].

(** ** The arguments of a call: [transact.rs], [plan.rs] of the pool client, [tx_prepare.rs] *)

Record PreparedTxPublic : Type := {
  tp_pool_root : Field;
  tp_input_nullifiers : list Field;
  tp_output_commitments : list Field;
  tp_public_amount : Field;
  tp_ext_data_hash_be : bytes;
  tp_asp_membership_root : Field;
  tp_asp_non_membership_root : Field;
}.

Definition PreparedTxPublic_of (p : PreparedTx) : PreparedTxPublic :=
  {| tp_pool_root := pt_pool_root p; tp_input_nullifiers := pt_input_nullifiers p;
     tp_output_commitments := pt_output_commitments p; tp_public_amount := pt_public_amount_field p;
     tp_ext_data_hash_be := pt_ext_data_hash_be p; tp_asp_membership_root := pt_asp_membership_root p;
     tp_asp_non_membership_root := pt_asp_non_membership_root p |}.

Record OnchainProofPublicInputs : Type := {
  op_root : Field;
  op_input_nullifiers : list Field;
  op_output_commitment0 : Field;
  op_output_commitment1 : Field;
  op_public_amount : Field;
  op_ext_data_hash_be : bytes;
  op_asp_membership_root : Field;
  op_asp_non_membership_root : Field;
}.

(** The arrays have two elements by their type, so the indexing does not panic. *)
Definition OnchainProofPublicInputs_from (p : PreparedTxPublic) : OnchainProofPublicInputs :=
  {| op_root := tp_pool_root p; op_input_nullifiers := tp_input_nullifiers p;
     op_output_commitment0 := default 0 (tp_output_commitments p !! 0%nat);
     op_output_commitment1 := default 0 (tp_output_commitments p !! 1%nat);
     op_public_amount := tp_public_amount p; op_ext_data_hash_be := tp_ext_data_hash_be p;
     op_asp_membership_root := tp_asp_membership_root p; op_asp_non_membership_root := tp_asp_non_membership_root p |}.

Record PoolTransactInput : Type := {
  pti_proof_uncompressed : bytes;
  pti_ext_data : FlowExtData;
  pti_public : OnchainProofPublicInputs;
}.

Definition pool_transact_input (proof_uncompressed : bytes) (ext_data : FlowExtData) (prepared : PreparedTxPublic) : PoolTransactInput :=
  {| pti_proof_uncompressed := proof_uncompressed; pti_ext_data := ext_data; pti_public := OnchainProofPublicInputs_from prepared |}.

(** The arguments [prepare_pool_transact] puts in the invocation of [transact]. *)
Definition transact_args (input : PoolTransactInput) (source_account : string) : result StellarError (list ScVal) :=
  let p := pti_public input in
  proof_scval ← pool_proof_to_scval (pti_proof_uncompressed input) (op_root p) (op_input_nullifiers p)
                  (op_output_commitment0 p) (op_output_commitment1 p) (op_public_amount p) (op_ext_data_hash_be p)
                  (op_asp_membership_root p) (op_asp_non_membership_root p);
  ext_scval ← pool_ext_data_to_scval (pti_ext_data input);
  sender ← ok_or (parse_address source_account) BadAddress;
  Ok [proof_scval; ext_scval; ScAddr sender].

(** The one argument [prepare_register] puts in the invocation of [register]. *)
Definition register_args (source_account : string) (note_key encryption_key : bytes) : result StellarError (list ScVal) :=
  account_scval ← register_account_to_scval source_account encryption_key note_key; Ok [account_scval].

(** [next_sequence]: on [i64]. *)
Definition next_sequence (current : Z) : option Z := checked_add_i 64 current 1.

(** ** [ext_data_hash.rs] *)

Variable keccak256_lib : bytes -> bytes.

Definition sort_fields (l : list (string * ScVal)) : list (string * ScVal) :=
  foldr (fix ins e l := match l with
                        | [] => [e]
                        | x :: rest => if String.leb e.1 x.1 then e :: x :: rest else x :: ins e rest
                        end) [] l.

Fixpoint symbol_entries (l : list (string * ScVal)) : result StellarError (list (ScVal * ScVal)) :=
  match l with
  | [] => Ok []
  | (k, v) :: rest =>
      if (String.length k <=? 32)%nat then es ← symbol_entries rest; Ok ((ScSymbol k, v) :: es) else Err InvalidMapKey
  end.

Definition hash_ext_data_offchain (ext : FlowExtData) : result StellarError bytes :=
  b0 ← bytes_to_scval (fe_encrypted_output0 ext);
  b1 ← bytes_to_scval (fe_encrypted_output1 ext);
  r ← ok_or (parse_address (fe_recipient ext)) BadAddress;
  let entries := [("encrypted_output0", b0); ("encrypted_output1", b1);
                  ("ext_amount", i128_to_i256_scval (fe_ext_amount ext)); ("recipient", ScAddr r)] in
  map_entries ← symbol_entries (sort_fields entries);
  payload ← ok_or (scval_to_xdr (ScMap (Some map_entries))) XdrError;
  let digest := keccak256_lib payload in
  Ok (be_bytes 32 (be_value digest mod be_value BN254_MODULUS_BE)).

End Conversions.
