(* ===== verification/ScValFacts.v ===== *)
(** * The client's encoding of contract values

    What the client sends is what the contracts decode, and the hash of the external data
    it computes is the contract's. *)

From S2P Require Import Prelude Ints Amounts Poseidon2Tables Hashes ProverMonad Flows FlowFacts Soroban MerkleHistory Pool PoolTheorems Registry ScVals FlowTheorems.

(** ** Limbs *)

Lemma le_bytes_app a b x : le_bytes (a + b) x = le_bytes a x ++ le_bytes b (x / 256 ^ Z.of_nat a).
Proof.
  revert x. induction a as [|a IH]; intros x; simpl.
  - by rewrite Z.div_1_r.
  - rewrite IH. do 3 f_equal. rewrite Z.div_div by (try lia; apply pow_256_pos). f_equal.
    change (Z.pos (Pos.of_succ_nat a)) with (Z.of_nat (S a)). by rewrite pow_256_succ.
Qed.

Lemma be_bytes_app a b x : be_bytes (a + b) x = be_bytes a (x / 256 ^ Z.of_nat b) ++ be_bytes b x.
Proof. unfold be_bytes. by rewrite Nat.add_comm, le_bytes_app, rev_app_distr. Qed.

Lemma limb_at_app (l1 l2 : bytes) i : (i = length l1)%nat -> limb_at i (l1 ++ l2) = limb_at 0 l2.
Proof. intros ->. unfold limb_at. by rewrite drop_app_length. Qed.

Lemma limb_at_bytes x l : limb_at 0 (be_bytes 8 x ++ l) = x mod 2 ^ 64.
Proof. unfold limb_at. rewrite drop_0, take_app_length' by (by rewrite length_be_bytes). by rewrite be_value_bytes. Qed.

(** The 64-bit limb number [i] of an integer, least significant first. *)
Definition limb (i x : Z) : Z := (x / 2 ^ (64 * i)) mod 2 ^ 64.

Lemma limbs_of_32 x :
  let be := be_bytes 32 x in
  limb_at 0 be = limb 3 x /\ limb_at 8 be = limb 2 x /\ limb_at 16 be = limb 1 x /\ limb_at 24 be = limb 0 x.
Proof.
  assert (be_bytes 32 x = be_bytes 8 (x / 2 ^ 192) ++ be_bytes 8 (x / 2 ^ 128) ++ be_bytes 8 (x / 2 ^ 64) ++ be_bytes 8 x ++ []) as E.
  { rewrite app_nil_r. change 32%nat with (8 + (8 + (8 + 8)))%nat. by rewrite !be_bytes_app. }
  intros be. unfold be. rewrite E. unfold limb. change (2 ^ (64 * 0)) with 1. rewrite Z.div_1_r.
  rewrite (limb_at_app (be_bytes 8 _) _ 8) by (by rewrite length_be_bytes).
  rewrite (app_assoc (be_bytes 8 _) (be_bytes 8 _)) at 1.
  split; [| split; [| split]].
  - rewrite <- app_assoc. apply limb_at_bytes.
  - apply limb_at_bytes.
  - rewrite app_assoc, limb_at_app by (by rewrite length_app, !length_be_bytes). apply limb_at_bytes.
  - rewrite !app_assoc, <- (app_assoc _ (be_bytes 8 x)), limb_at_app by (by rewrite !length_app, !length_be_bytes). apply limb_at_bytes.
Qed.

Lemma limbs_of_16 x : limb_at 0 (be_bytes 16 x) = limb 1 x /\ limb_at 8 (be_bytes 16 x) = limb 0 x.
Proof.
  change 16%nat with (8 + 8)%nat. rewrite be_bytes_app, limb_at_bytes, (limb_at_app (be_bytes 8 _) _ 8) by (by rewrite length_be_bytes).
  rewrite <- (app_nil_r (be_bytes 8 x)), limb_at_bytes. unfold limb. change (2 ^ (64 * 0)) with 1. by rewrite Z.div_1_r.
Qed.

Lemma limb_bound i x : 0 <= limb i x < 2 ^ 64.
Proof. apply Z.mod_pos_bound. lia. Qed.

Lemma limbs_sum x : 0 <= x < 2 ^ 256 ->
  x = limb 3 x * 2 ^ 192 + limb 2 x * 2 ^ 128 + limb 1 x * 2 ^ 64 + limb 0 x.
Proof.
  intros Hx. unfold limb. change (64 * 3) with 192. change (64 * 2) with 128. change (64 * 1) with 64. change (64 * 0) with 0.
  rewrite Z.pow_0_r, Z.div_1_r, (Z.mod_small (x / 2 ^ 192)) by (split; [apply Z.div_pos; lia | apply Z.div_lt_upper_bound; lia]).
  pose proof (Z.div_mod x (2 ^ 64) ltac:(lia)) as H0.
  pose proof (Z.div_mod (x / 2 ^ 64) (2 ^ 64) ltac:(lia)) as H1.
  pose proof (Z.div_mod (x / 2 ^ 128) (2 ^ 64) ltac:(lia)) as H2.
  rewrite Z.div_div in H1, H2 by lia. change (2 ^ 64 * 2 ^ 64) with (2 ^ 128) in H1. change (2 ^ 128 * 2 ^ 64) with (2 ^ 192) in H2.
  lia.
Qed.

(** ** The encoding of contract types

    What [#[contracttype]] gives for the integers and structs of the contracts: 64-bit
    limbs, two's complement for the signed ones, and maps from field names to values, the
    names in increasing order. *)

Definition u256_val (x : Z) : ScVal :=
  ScU256 {| hi_hi := limb 3 x; hi_lo := limb 2 x; lo_hi := limb 1 x; lo_lo := limb 0 x |}.

Definition i256_val (x : Z) : ScVal :=
  ScI256 {| hi_hi := x / 2 ^ 192; hi_lo := limb 2 x; lo_hi := limb 1 x; lo_lo := limb 0 x |}.

Definition struct_val (fields : list (string * ScVal)) : ScVal :=
  ScMap (Some ((fun f => (ScSymbol f.1, f.2)) <$> fields)).

Definition groth16_val (g : Groth16Proof) : ScVal :=
  struct_val [("a", ScBytes (g16_a g)); ("b", ScBytes (g16_b g)); ("c", ScBytes (g16_c g))].

Definition proof_val (p : Proof) : ScVal :=
  struct_val
    [("asp_membership_root", u256_val (asp_membership_root p)); ("asp_non_membership_root", u256_val (asp_non_membership_root p));
     ("ext_data_hash", ScBytes (ext_data_hash p)); ("input_nullifiers", ScVec (Some (u256_val <$> input_nullifiers p)));
     ("output_commitment0", u256_val (output_commitment0 p)); ("output_commitment1", u256_val (output_commitment1 p));
     ("proof", groth16_val (proof p)); ("public_amount", u256_val (public_amount p)); ("root", u256_val (root p))].

Definition ext_val (e : ExtData) (recipient : ScAddress) : ScVal :=
  struct_val [("encrypted_output0", ScBytes (encrypted_output0 e)); ("encrypted_output1", ScBytes (encrypted_output1 e));
              ("ext_amount", i256_val (ext_amount e)); ("recipient", ScAddr recipient)].

Definition account_val (a : Account) (owner : ScAddress) : ScVal :=
  struct_val [("encryption_key", ScBytes (account_encryption_key a)); ("note_key", ScBytes (account_note_key a)); ("owner", ScAddr owner)].

(** The contract's [to_xdr] is the XDR of its value, and both sides use the same
    Keccak-256. *)
Class HostEncoding {Ledger} (X : XdrLib) (keccak : bytes -> bytes) (env : PoolHost Ledger) : Prop := {
  host_to_xdr : forall e a, parse_address (recipient e) = Some a -> scval_to_xdr (ext_val e a) = Some (to_xdr e);
  host_keccak : forall b, keccak b = keccak256 b;
}.

(** ** The client's values *)

Lemma field_to_scval_u256_val x : field_to_scval_u256 x = u256_val x.
Proof.
  unfold field_to_scval_u256, u256_val, Field_to_be_bytes. destruct (limbs_of_32 x) as (-> & -> & -> & ->). reflexivity.
Qed.

Lemma scval_to_u256_val x : is_u256 x -> scval_to_u256 (u256_val x) = Ok x.
Proof.
  intros Hx. unfold scval_to_u256, u256_val, hi_hi, hi_lo, lo_hi, lo_lo.
  pose proof (limbs_sum x Hx). pose proof (limb_bound 3 x). pose proof (limb_bound 2 x). pose proof (limb_bound 1 x). pose proof (limb_bound 0 x).
  rewrite !Z.shiftl_mul_pow2 by lia. rewrite !Z.mod_small by (unfold is_u256 in Hx; lia).
  rewrite (proj2 (checked_add_Some 256 (limb 3 x * 2 ^ 192) (limb 2 x * 2 ^ 128) _)) by (unfold is_u256 in Hx; split; [reflexivity | lia]).
  cbn [ok_or mbind result_bind].
  rewrite (proj2 (checked_add_Some 256 _ (limb 1 x * 2 ^ 64) _)) by (unfold is_u256 in Hx; split; [reflexivity | lia]).
  cbn [ok_or mbind result_bind].
  rewrite (proj2 (checked_add_Some 256 _ (limb 0 x) x)) by (unfold is_u256 in Hx; split; lia). reflexivity.
Qed.

Lemma limb_mod_pow i n x : 0 <= i -> 64 * (i + 1) <= n -> limb i (x mod 2 ^ n) = limb i x.
Proof.
  intros Hi Hn. unfold limb. apply Z.bits_inj'. intros k Hk.
  rewrite <- !Z.shiftr_div_pow2 by lia.
  destruct (decide (k < 64)).
  - rewrite !Z.mod_pow2_bits_low by lia. rewrite !Z.shiftr_spec by lia. apply Z.mod_pow2_bits_low. lia.
  - rewrite !Z.mod_pow2_bits_high by lia. reflexivity.
Qed.

Lemma i128_to_i256_val n : - 2 ^ 127 <= n < 2 ^ 127 -> i128_to_i256_scval n = i256_val n.
Proof.
  intros Hn. unfold i128_to_i256_scval, i256_val. destruct (limbs_of_16 (n mod 2 ^ 128)) as [-> ->].
  rewrite !limb_mod_pow by lia. rewrite be_value_bytes. change (256 ^ Z.of_nat 8) with (2 ^ 64). rewrite Zmod_mod. unfold limb at 3.
  change (64 * 2) with 128. destruct (Z.ltb_spec n 0).
  - assert (n / 2 ^ 192 = -1) as -> by (symmetry; apply (Z.div_unique n (2 ^ 192) (-1) (n + 2 ^ 192)); lia).
    assert (n / 2 ^ 128 = -1) as -> by (symmetry; apply (Z.div_unique n (2 ^ 128) (-1) (n + 2 ^ 128)); lia). reflexivity.
  - rewrite !Z.div_small by lia. reflexivity.
Qed.

Lemma bytes_to_scval_short b : (length b <= 256)%nat -> bytes_to_scval b = Ok (ScBytes b).
Proof. intros. unfold bytes_to_scval, zlength. destruct (Z.leb_spec (Z.of_nat (length b)) (2 ^ 32 - 1)); [reflexivity | lia]. Qed.

Lemma bytes_to_scval_sized b : zlength b < 2 ^ 32 -> bytes_to_scval b = Ok (ScBytes b).
Proof. intros. unfold bytes_to_scval. destruct (Z.leb_spec (zlength b) (2 ^ 32 - 1)); [reflexivity | lia]. Qed.

(** The uncompressed proof bytes and the points the contract reads from them. *)
Definition splits_into (pf : bytes) (g : Groth16Proof) : Prop :=
  pf = g16_a g ++ g16_b g ++ g16_c g /\ length (g16_a g) = 64%nat /\ length (g16_b g) = 128%nat /\ length (g16_c g) = 64%nat.

Lemma groth16_proof_to_scval_val pf g : splits_into pf g -> groth16_proof_to_scval pf = Ok (groth16_val g).
Proof.
  intros (-> & Ha & Hb & Hc). unfold groth16_proof_to_scval, slice.
  rewrite (proj2 (Nat.eqb_eq _ _)) by (rewrite !length_app; lia).
  rewrite drop_0, (take_app_length' (g16_a g)) by lia.
  rewrite (drop_app_length' (g16_a g) _ 64), (take_app_length' (g16_b g)) by lia.
  rewrite (app_assoc (g16_a g)), (drop_app_length' (_ ++ _) _ 192), (take_ge (g16_c g)) by (rewrite ?length_app; lia).
  rewrite !bytes_to_scval_short by lia. reflexivity.
Qed.

(** ** The call *)

Section Call.

Context {Ledger : Type} {X : XdrLib} {keccak : bytes -> bytes} {env : PoolHost Ledger} {HE : HostEncoding X keccak env}.

Definition ext_encodable (e : FlowExtData) (a : ScAddress) : Prop :=
  is_ext (fe_ext_amount e) /\ zlength (fe_encrypted_output0 e) < 2 ^ 32 /\ zlength (fe_encrypted_output1 e) < 2 ^ 32 /\
  parse_address (fe_recipient e) = Some a.

Lemma pool_ext_data_to_scval_val e a : ext_encodable e a -> pool_ext_data_to_scval e = Ok (ext_val (pool_ext e) a).
Proof.
  intros (Ha & H0 & H1 & Hr). unfold pool_ext_data_to_scval. rewrite !bytes_to_scval_sized by assumption.
  rewrite Hr, i128_to_i256_val by apply Ha. reflexivity.
Qed.

Lemma pool_proof_to_scval_val pf g t :
  splits_into pf g -> zlength (pt_ext_data_hash_be t) < 2 ^ 32 -> length (pt_input_nullifiers t) = 2%nat ->
  let p := OnchainProofPublicInputs_from (PreparedTxPublic_of t) in
  pool_proof_to_scval pf (op_root p) (op_input_nullifiers p) (op_output_commitment0 p) (op_output_commitment1 p)
    (op_public_amount p) (op_ext_data_hash_be p) (op_asp_membership_root p) (op_asp_non_membership_root p)
  = Ok (proof_val (pool_proof g t)).
Proof.
  intros Hs Hh Hn p. unfold pool_proof_to_scval, p, OnchainProofPublicInputs_from, PreparedTxPublic_of.
  cbn [op_root op_input_nullifiers op_output_commitment0 op_output_commitment1 op_public_amount op_ext_data_hash_be
    op_asp_membership_root op_asp_non_membership_root tp_pool_root tp_input_nullifiers tp_output_commitments tp_public_amount
    tp_ext_data_hash_be tp_asp_membership_root tp_asp_non_membership_root].
  assert (zlength (pt_input_nullifiers t) = 2) as -> by (unfold zlength; lia).
  rewrite (groth16_proof_to_scval_val pf g Hs), (bytes_to_scval_sized _ Hh), !field_to_scval_u256_val.
  rewrite (list_fmap_ext _ u256_val _ (fun _ x _ => field_to_scval_u256_val x)). reflexivity.
Qed.

Lemma hash_ext_data_offchain_agrees e a : ext_encodable e a ->
  exists h, hash_ext_data_offchain keccak e = Ok h /\ hash_ext_data (pool_ext e) = Some h.
Proof.
  intros (Ha & H0 & H1 & Hr). unfold hash_ext_data_offchain, hash_ext_data.
  rewrite !bytes_to_scval_sized by assumption. rewrite Hr, i128_to_i256_val by apply Ha. cbn [mbind result_bind ok_or].
  change (symbol_entries _) with (Ok (E := StellarError) ((fun f : string * ScVal => (ScSymbol f.1, f.2)) <$>
    [("encrypted_output0", ScBytes (fe_encrypted_output0 e)); ("encrypted_output1", ScBytes (fe_encrypted_output1 e));
     ("ext_amount", i256_val (fe_ext_amount e)); ("recipient", ScAddr a)])).
  cbn [mbind result_bind]. pose proof (host_to_xdr (pool_ext e) a Hr) as E.
  unfold ext_val, struct_val in E. cbn [pool_ext encrypted_output0 encrypted_output1 ext_amount] in E.
  rewrite E. cbn [ok_or mbind result_bind]. rewrite host_keccak.
  eexists. split; [reflexivity |]. unfold u256_rem_euclid, u256_from_be_bytes, u256_to_be_bytes.
  fold bn254_modulus_u256. rewrite bn254_modulus_p. reflexivity.
Qed.

End Call.

(** ** The contract reads back what it was sent *)

Lemma u256_val_inj x y : is_u256 x -> is_u256 y -> u256_val x = u256_val y -> x = y.
Proof.
  intros Hx Hy [= H3 H2 H1 H0]. rewrite (limbs_sum x Hx), (limbs_sum y Hy), H3, H2, H1, H0. reflexivity.
Qed.

Lemma u256_vals_inj l k : Forall is_u256 l -> Forall is_u256 k -> u256_val <$> l = u256_val <$> k -> l = k.
Proof.
  intros Hl. revert k. induction Hl as [|x l Hx Hl IH]; intros [|y k] Hk E; try discriminate E; [reflexivity |].
  inversion Hk; subst. cbn [fmap list_fmap] in E. apply (inj2 cons) in E as [E1 E2].
  f_equal; [by apply u256_val_inj | by apply IH].
Qed.

Definition proof_integers (p : Proof) : list Z :=
  [asp_membership_root p; asp_non_membership_root p; output_commitment0 p; output_commitment1 p; public_amount p; root p] ++ input_nullifiers p.

Lemma proof_val_inj p q :
  Forall is_u256 (proof_integers p) -> Forall is_u256 (proof_integers q) -> proof_val p = proof_val q -> p = q.
Proof.
  destruct p as [[] ], q as [[] ]. unfold proof_integers, proof_val, groth16_val, struct_val. simpl.
  intros Hp Hq E.
  apply Forall_cons in Hp as [? Hp], Hq as [? Hq]. apply Forall_cons in Hp as [? Hp], Hq as [? Hq].
  apply Forall_cons in Hp as [? Hp], Hq as [? Hq]. apply Forall_cons in Hp as [? Hp], Hq as [? Hq].
  apply Forall_cons in Hp as [? Hp], Hq as [? Hq]. apply Forall_cons in Hp as [? Hp], Hq as [? Hq].
  unfold u256_val in E. injection E; intros.
  f_equal; first [assumption | congruence
    | apply u256_val_inj; [assumption | assumption | unfold u256_val; congruence]
    | apply u256_vals_inj; [assumption | assumption | assumption]].
Qed.

(** C7. What the client submits is what the contract reads: the arguments of a call are
    the contract's own encoding of the transaction that was built, of its external data
    and of the sender (limbs, two's complement, fields in the order of their names), no
    other transaction has this encoding, and the hash of the external data the client
    computes is the one the contract recomputes. *)
Theorem client_call_matches_contract {Ledger} (X : XdrLib) (keccak : bytes -> bytes) (env : PoolHost Ledger)
    (HE : HostEncoding X keccak env) (pf : bytes) (g : Groth16Proof) (t : PreparedTx) (e : FlowExtData)
    (source : string) (a sender : ScAddress) :
  splits_into pf g -> length (pt_ext_data_hash_be t) = 32%nat -> length (pt_input_nullifiers t) = 2%nat ->
  Forall is_u256 (proof_integers (pool_proof g t)) ->
  ext_encodable e a -> parse_address source = Some sender ->
  transact_args (pool_transact_input pf e (PreparedTxPublic_of t)) source
  = Ok [proof_val (pool_proof g t); ext_val (pool_ext e) a; ScAddr sender] /\
  (forall q, Forall is_u256 (proof_integers q) -> proof_val q = proof_val (pool_proof g t) -> q = pool_proof g t) /\
  (exists h, hash_ext_data_offchain keccak e = Ok h /\ hash_ext_data (pool_ext e) = Some h).
Proof.
  intros Hs Hh Hn Hu He Hsrc. split; [| split].
  - unfold transact_args, pool_transact_input. cbn [pti_public pti_proof_uncompressed pti_ext_data].
    rewrite (pool_proof_to_scval_val pf g t Hs); [| unfold zlength; lia | exact Hn].
    rewrite (pool_ext_data_to_scval_val e a He), Hsrc. reflexivity.
  - intros q Hq E. exact (proof_val_inj q _ Hq Hu E).
  - exact (hash_ext_data_offchain_agrees e a He).
Qed.

(** A reference codec: a table of texts, and the payload bytes of the external data. *)
#[export] Instance ref_xdr : XdrLib := {|
  from_xdr_base64 s :=
    if bool_decide (s = "name") then Some (ScSymbol "new_commitment_event")
    else if bool_decide (s = "topic") then Some (u256_val 7)
    else if bool_decide (s = "data") then Some (struct_val [("encrypted_output", ScBytes [1; 2]); ("index", ScU32 4)])
    else None;
  scval_to_xdr v :=
    match v with
    | ScMap (Some [(_, ScBytes b0); (_, ScBytes b1); _; _]) => Some (b0 ++ b1)
    | _ => None
    end;
  symbol_to_utf8 s := Some s;
  parse_address s := Some (AddrContract [Z.of_nat (String.length s)]);
  account_strkey _ := "G";
  contract_strkey _ := "C";
|}.

#[export] Instance ref_host_encoding : HostEncoding ref_xdr (fun _ => replicate 32 255) ref_pool_host.
Proof. split; [intros e a _; reflexivity | reflexivity]. Qed.

Definition wit_prepared : PreparedTx :=
  {| pt_pool_root := 5; pt_input_nullifiers := [1; 2]; pt_output_commitments := [3; 4]; pt_public_amount_field := BN_P - 1;
     pt_ext_data_hash_be := replicate 32 9; pt_asp_membership_root := 6; pt_asp_non_membership_root := 7 |}.

Definition wit_groth16 : Groth16Proof := {| g16_a := replicate 64 1; g16_b := replicate 128 2; g16_c := replicate 64 3 |}.

Definition wit_ext : FlowExtData :=
  {| fe_recipient := "bob"; fe_ext_amount := -1; fe_encrypted_output0 := [1]; fe_encrypted_output1 := [2; 3] |}.

Lemma client_call_matches_contract_witness :
  exists h, hash_ext_data_offchain (fun _ => replicate 32 255) wit_ext = Ok h /\ hash_ext_data (pool_ext wit_ext) = Some h.
Proof.
  apply (client_call_matches_contract ref_xdr (fun _ => replicate 32 255) ref_pool_host ref_host_encoding
    (replicate 64 1 ++ replicate 128 2 ++ replicate 64 3) wit_groth16 wit_prepared wit_ext "alice"
    (AddrContract [3]) (AddrContract [5])).
  - repeat split.
  - reflexivity.
  - reflexivity.
  - unfold is_u256. repeat constructor; vm_compute; congruence.
  - unfold ext_encodable, is_ext. repeat split; vm_compute; congruence.
  - reflexivity.
Defined.
