(* ===== verification/Events.v ===== *)
(** * Parsing of contract events

    [sdk/state/src/events_parsers.rs]: from the events of the RPC node to the records the
    client stores ([sdk/types/src/chain_data.rs]), and that the events of the contracts of
    this library are parsed into the records that describe them. *)

From S2P Require Import Prelude Ints Amounts Poseidon2Tables Hashes Encryption Flows Soroban MerkleHistory Pool Registry AspMembership AspNonMembership ScVals ScValFacts.

(** ** The client's records *)

Record ClientNullifierEvent : Type := { cn_id : string; cn_nullifier : Field }.

Record ClientCommitmentEvent : Type := {
  cc_id : string;
  cc_commitment : Field;
  cc_index : Z;
  cc_encrypted_output : bytes;
}.

Record ClientPublicKeyEvent : Type := {
  ck_id : string;
  ck_owner : string;
  ck_encryption_key : bytes;
  ck_note_key : bytes;
}.

Record ClientLeafAddedEvent : Type := { cl_id : string; cl_leaf : Field; cl_index : Z; cl_root : Field }.
Record ClientLeafInsertedEvent : Type := { ci_id : string; ci_key : Field; ci_value : Field; ci_root : Field }.
Record ClientLeafUpdatedEvent : Type := { cu_id : string; cu_key : Field; cu_old_value : Field; cu_new_value : Field; cu_root : Field }.
Record ClientLeafDeletedEvent : Type := { cd_id : string; cd_key : Field; cd_root : Field }.

Inductive ProcessedEvent : Type :=
| Nullifier (e : ClientNullifierEvent)
| Commitment (e : ClientCommitmentEvent)
| PublicKey (e : ClientPublicKeyEvent)
| LeafAdded (e : ClientLeafAddedEvent)
| LeafInserted (e : ClientLeafInsertedEvent)
| LeafUpdated (e : ClientLeafUpdatedEvent)
| LeafDeleted (e : ClientLeafDeletedEvent).

(** ** The parsers *)

Section Parsers.

Context `{XdrLib}.

Definition first_topic (p : ParsedContractEvent) : result StellarError ScVal := ok_or (head (pe_topics p)) MissingTopic.

Definition value_of (p : ParsedContractEvent) (name : string) : result StellarError ScVal :=
  ok_or (pe_values p !! name) (MissingValue name).

(** [Field::try_from_u256(scval_to_u256(v)?)?]. *)
Definition scval_to_field (v : ScVal) : result StellarError Field :=
  x ← scval_to_u256 v; map_err StellarFieldError (Field_try_from_u256 x).

(** [Vec<u8>::try_into()] for a 32-byte key. *)
Definition key_of (b : bytes) : result StellarError bytes := if (length b =? 32)%nat then Ok b else Err TryIntoError.

Definition field_value (p : ParsedContractEvent) (name : string) : result StellarError Field :=
  v ← value_of p name; scval_to_field v.

Definition parse_new_nullifier_event (p : ParsedContractEvent) : result StellarError ClientNullifierEvent :=
  v ← first_topic p;
  nullifier ← scval_to_field v;
  Ok {| cn_id := pe_id p; cn_nullifier := nullifier |}.

Definition parse_new_commitment_event (p : ParsedContractEvent) : result StellarError ClientCommitmentEvent :=
  v ← first_topic p;
  commitment ← scval_to_field v;
  v ← value_of p "index";
  index ← scval_to_u32 v;
  v ← value_of p "encrypted_output";
  encrypted_output ← scval_to_bytes v;
  Ok {| cc_id := pe_id p; cc_commitment := commitment; cc_index := index; cc_encrypted_output := encrypted_output |}.

Definition parse_public_key_event (p : ParsedContractEvent) : result StellarError ClientPublicKeyEvent :=
  v ← first_topic p;
  owner ← scval_to_address_string v;
  v ← value_of p "encryption_key";
  b ← scval_to_bytes v;
  encryption_key ← key_of b;
  v ← value_of p "note_key";
  b ← scval_to_bytes v;
  note_key ← key_of b;
  Ok {| ck_id := pe_id p; ck_owner := owner; ck_encryption_key := encryption_key; ck_note_key := note_key |}.

Definition parse_leaf_added (p : ParsedContractEvent) : result StellarError ClientLeafAddedEvent :=
  leaf ← field_value p "leaf";
  v ← value_of p "index";
  n ← scval_to_u64 v;
  index ← ok_or (try_into_u 32 n) TryIntoError;
  root ← field_value p "root";
  Ok {| cl_id := pe_id p; cl_leaf := leaf; cl_index := index; cl_root := root |}.

Definition parse_leaf_inserted (p : ParsedContractEvent) : result StellarError ClientLeafInsertedEvent :=
  key ← field_value p "key";
  value ← field_value p "value";
  root ← field_value p "root";
  Ok {| ci_id := pe_id p; ci_key := key; ci_value := value; ci_root := root |}.

Definition parse_leaf_updated (p : ParsedContractEvent) : result StellarError ClientLeafUpdatedEvent :=
  key ← field_value p "key";
  old_value ← field_value p "old_value";
  new_value ← field_value p "new_value";
  root ← field_value p "root";
  Ok {| cu_id := pe_id p; cu_key := key; cu_old_value := old_value; cu_new_value := new_value; cu_root := root |}.

Definition parse_leaf_deleted (p : ParsedContractEvent) : result StellarError ClientLeafDeletedEvent :=
  key ← field_value p "key";
  root ← field_value p "root";
  Ok {| cd_id := pe_id p; cd_key := key; cd_root := root |}.

Definition one_of (name a b : string) : bool := bool_decide (name = a) || bool_decide (name = b).

Definition parse_event (event : ContractEvent) : result StellarError ProcessedEvent :=
  p ← parse_event_metadata event;
  let name := pe_name p in
  if one_of name "new_nullifier_event" "NewNullifierEvent" then e ← parse_new_nullifier_event p; Ok (Nullifier e)
  else if one_of name "new_commitment_event" "NewCommitmentEvent" then e ← parse_new_commitment_event p; Ok (Commitment e)
  else if one_of name "public_key_event" "PublicKeyEvent" then e ← parse_public_key_event p; Ok (PublicKey e)
  else if one_of name "leaf_added" "LeafAdded" then e ← parse_leaf_added p; Ok (LeafAdded e)
  else if one_of name "leaf_inserted" "LeafInserted" then e ← parse_leaf_inserted p; Ok (LeafInserted e)
  else if one_of name "leaf_updated" "LeafUpdated" then e ← parse_leaf_updated p; Ok (LeafUpdated e)
  else if one_of name "leaf_deleted" "LeafDeleted" then e ← parse_leaf_deleted p; Ok (LeafDeleted e)
  else Err (UnhandledEvent name).

End Parsers.

(** ** The events of the contracts *)

(** The events the contracts publish. *)
Inductive ChainEvent : Type :=
| FromPool (e : PoolEvent)
| FromRegistry (e : PublicKeyEvent) (owner : ScAddress)
| FromMembership (e : LeafAddedEvent)
| FromNonMembership (e : NmEvent).

(** What [#[contractevent]] publishes: a name, the fields marked as topics, and the map of
    the others, in the order of their names. *)
Definition event_name (e : ChainEvent) : string :=
  match e with
  | FromPool (NewNullifierEvent _) => "new_nullifier_event"
  | FromPool (NewCommitmentEvent _ _ _) => "new_commitment_event"
  | FromRegistry _ _ => "public_key_event"
  | FromMembership _ => "LeafAdded"
  | FromNonMembership (LeafInsertedEvent _ _ _) => "LeafInserted"
  | FromNonMembership (LeafDeletedEvent _ _) => "LeafDeleted"
  end.

Definition event_topics (e : ChainEvent) : list ScVal :=
  match e with
  | FromPool (NewNullifierEvent n) => [u256_val n]
  | FromPool (NewCommitmentEvent c _ _) => [u256_val c]
  | FromRegistry _ owner => [ScAddr owner]
  | _ => []
  end.

Definition event_fields (e : ChainEvent) : list (string * ScVal) :=
  match e with
  | FromPool (NewNullifierEvent _) => []
  | FromPool (NewCommitmentEvent _ i b) => [("encrypted_output", ScBytes b); ("index", ScU32 i)]
  | FromRegistry k _ => [("encryption_key", ScBytes (event_encryption_key k)); ("note_key", ScBytes (event_note_key k))]
  | FromMembership l => [("index", ScU64 (la_index l)); ("leaf", u256_val (la_leaf l)); ("root", u256_val (la_root l))]
  | FromNonMembership (LeafInsertedEvent k v r) => [("key", u256_val k); ("root", u256_val r); ("value", u256_val v)]
  | FromNonMembership (LeafDeletedEvent k r) => [("key", u256_val k); ("root", u256_val r)]
  end.

(** The names in use are symbols of letters, digits and underscores, which are their own
    text. *)
Definition event_symbols : list string :=
  ["new_nullifier_event"; "new_commitment_event"; "public_key_event"; "LeafAdded"; "LeafInserted"; "LeafDeleted";
   "encrypted_output"; "index"; "encryption_key"; "note_key"; "leaf"; "root"; "key"; "value"].

Class XdrLaws (X : XdrLib) : Prop := {
  symbols_are_text : forall s, s ∈ event_symbols -> symbol_to_utf8 s = Some s;
}.

(** The RPC event carries the XDR of the contract event; an event without data fields may
    carry the empty map or no value. *)
Definition carries `{XdrLib} (ev : ContractEvent) (e : ChainEvent) : Prop :=
  exists first rest, ce_topics ev = first :: rest /\
    from_xdr_base64 first = Some (ScSymbol (event_name e)) /\
    Forall2 (fun s v => from_xdr_base64 s = Some v) rest (event_topics e) /\
    (from_xdr_base64 (ce_value ev) = Some (struct_val (event_fields e)) \/
     event_fields e = [] /\ from_xdr_base64 (ce_value ev) = Some ScVoid).

(** The values are those the contracts publish: field elements, 32-bit indices and
    32-byte keys. *)
Definition event_typed (e : ChainEvent) : Prop :=
  match e with
  | FromPool (NewNullifierEvent n) => in_field n
  | FromPool (NewCommitmentEvent c i b) => in_field c
  | FromRegistry k owner => length (event_encryption_key k) = 32%nat /\ length (event_note_key k) = 32%nat /\
      match owner with AddrOther _ _ => False | _ => True end
  | FromMembership l => in_field (la_leaf l) /\ in_field (la_root l) /\ 0 <= la_index l < 2 ^ 32
  | FromNonMembership (LeafInsertedEvent k v r) => in_field k /\ in_field v /\ in_field r
  | FromNonMembership (LeafDeletedEvent k r) => in_field k /\ in_field r
  end.

Definition owner_text `{XdrLib} (a : ScAddress) : string :=
  match a with AddrAccount k => account_strkey k | AddrContract h => contract_strkey h | AddrOther _ _ => EmptyString end.

(** The client's record of a contract event. *)
Definition client_event `{XdrLib} (id : string) (e : ChainEvent) : ProcessedEvent :=
  match e with
  | FromPool (NewNullifierEvent n) => Nullifier {| cn_id := id; cn_nullifier := n |}
  | FromPool (NewCommitmentEvent c i b) => Commitment {| cc_id := id; cc_commitment := c; cc_index := i; cc_encrypted_output := b |}
  | FromRegistry k owner =>
      PublicKey {| ck_id := id; ck_owner := owner_text owner; ck_encryption_key := event_encryption_key k; ck_note_key := event_note_key k |}
  | FromMembership l => LeafAdded {| cl_id := id; cl_leaf := la_leaf l; cl_index := la_index l; cl_root := la_root l |}
  | FromNonMembership (LeafInsertedEvent k v r) => LeafInserted {| ci_id := id; ci_key := k; ci_value := v; ci_root := r |}
  | FromNonMembership (LeafDeletedEvent k r) => LeafDeleted {| cd_id := id; cd_key := k; cd_root := r |}
  end.

Section Facts.

Context {X : XdrLib} {XL : XdrLaws X}.

Lemma decode_topics_ok ss vs : Forall2 (fun s v => from_xdr_base64 s = Some v) ss vs -> decode_topics ss = Ok vs.
Proof. induction 1 as [|s v ss vs H _ IH]; [reflexivity |]. cbn [decode_topics]. rewrite H, IH. reflexivity. Qed.

Lemma event_values_ok fields values :
  Forall (fun f => f.1 ∈ event_symbols) fields ->
  event_values ((fun f : string * ScVal => (ScSymbol f.1, f.2)) <$> fields) values = Ok (foldl (fun m f => <[f.1 := f.2]> m) values fields).
Proof.
  intros Hf. revert values. induction Hf as [|[k v] fields Hk _ IH]; intros values; [reflexivity |].
  cbn [fmap list_fmap event_values fst snd]. rewrite symbols_are_text by exact Hk. cbn [ok_or mbind result_bind]. apply IH.
Qed.

Definition event_map (e : ChainEvent) : gmap string ScVal := foldl (fun m f => <[f.1 := f.2]> m) ∅ (event_fields e).

Ltac in_symbols := apply list_elem_of_In; simpl; tauto.

Lemma fields_in_symbols e : Forall (fun f => f.1 ∈ event_symbols) (event_fields e).
Proof.
  destruct e as [[]| | |[]]; cbn [event_fields]; repeat apply Forall_cons_2; try apply Forall_nil_2; cbn [fst]; in_symbols.
Qed.

Lemma name_in_symbols e : event_name e ∈ event_symbols.
Proof. destruct e as [[]| | |[]]; cbn [event_name]; in_symbols. Qed.

Lemma parse_event_metadata_ok ev e : carries ev e ->
  parse_event_metadata ev = Ok {| pe_id := ce_id ev; pe_ledger := ce_ledger ev; pe_contract_id := ce_contract_id ev;
    pe_name := event_name e; pe_topics := event_topics e; pe_values := event_map e |}.
Proof.
  intros (first & rest & Et & Hn & Ht & Hv). unfold parse_event_metadata. rewrite Et, (decode_topics_ok _ _ Ht), Hn.
  cbn [ok_or mbind result_bind]. rewrite symbols_are_text by apply name_in_symbols. cbn [ok_or mbind result_bind].
  destruct Hv as [-> | [E ->]]; cbn [ok_or mbind result_bind].
  - unfold struct_val. rewrite event_values_ok by apply fields_in_symbols. reflexivity.
  - unfold event_map. rewrite E. reflexivity.
Qed.

Lemma scval_to_field_val x : in_field x -> scval_to_field (u256_val x) = Ok x.
Proof.
  intros Hx. unfold scval_to_field. rewrite scval_to_u256_val.
  - cbn [mbind result_bind]. rewrite Field_try_from_u256_ok by exact Hx. reflexivity.
  - assert (BN_P < 2 ^ 256) by reflexivity. unfold in_field in Hx. unfold is_u256. lia.
Qed.

Lemma key_of_ok b : length b = 32%nat -> key_of b = Ok b.
Proof. intros E. unfold key_of. rewrite E. reflexivity. Qed.

(** The parsed record of a contract event. *)
Definition parsed_of (ev : ContractEvent) (e : ChainEvent) : ParsedContractEvent :=
  {| pe_id := ce_id ev; pe_ledger := ce_ledger ev; pe_contract_id := ce_contract_id ev;
     pe_name := event_name e; pe_topics := event_topics e; pe_values := event_map e |}.

Ltac step_value v :=
  lazymatch goal with |- (_ ← value_of ?p ?n; _) = _ => change (value_of p n) with (Ok (E := StellarError) v) end; cbn [mbind result_bind scval_to_u32 scval_to_u64 scval_to_bytes].

Lemma commitment_parsed ev c i b : in_field c ->
  parse_new_commitment_event (parsed_of ev (FromPool (NewCommitmentEvent c i b)))
  = Ok {| cc_id := ce_id ev; cc_commitment := c; cc_index := i; cc_encrypted_output := b |}.
Proof.
  intros Hc. unfold parse_new_commitment_event. change (first_topic _) with (Ok (E := StellarError) (u256_val c)).
  cbn [mbind result_bind]. rewrite scval_to_field_val by exact Hc. cbn [mbind result_bind].
  step_value (ScU32 i). step_value (ScBytes b). reflexivity.
Qed.

Lemma public_key_parsed ev k owner : event_typed (FromRegistry k owner) ->
  parse_public_key_event (parsed_of ev (FromRegistry k owner))
  = Ok {| ck_id := ce_id ev; ck_owner := owner_text owner; ck_encryption_key := event_encryption_key k; ck_note_key := event_note_key k |}.
Proof.
  intros (He & Hn & Ho). unfold parse_public_key_event. change (first_topic _) with (Ok (E := StellarError) (ScAddr owner)).
  cbn [mbind result_bind].
  assert (scval_to_address_string (ScAddr owner) = Ok (owner_text owner)) as -> by (destruct owner; [reflexivity | reflexivity | destruct Ho]).
  cbn [mbind result_bind]. step_value (ScBytes (event_encryption_key k)). rewrite key_of_ok by exact He. cbn [mbind result_bind].
  step_value (ScBytes (event_note_key k)). rewrite key_of_ok by exact Hn. reflexivity.
Qed.

Lemma field_value_parsed p name x : value_of p name = Ok (u256_val x) -> in_field x -> field_value p name = Ok x.
Proof. intros E Hx. unfold field_value. rewrite E. cbn [mbind result_bind]. by apply scval_to_field_val. Qed.

Ltac step_field x Hx :=
  lazymatch goal with |- (_ ← field_value ?p ?n; _) = _ => rewrite (field_value_parsed p n x eq_refl Hx) end; cbn [mbind result_bind].

Lemma leaf_added_parsed ev l : event_typed (FromMembership l) ->
  parse_leaf_added (parsed_of ev (FromMembership l)) = Ok {| cl_id := ce_id ev; cl_leaf := la_leaf l; cl_index := la_index l; cl_root := la_root l |}.
Proof.
  intros (Hl & Hr & Hi). unfold parse_leaf_added. step_field (la_leaf l) Hl.
  step_value (ScU64 (la_index l)). rewrite (proj2 (try_into_u_Some 32 (la_index l) (la_index l)) (conj eq_refl Hi)). cbn [ok_or mbind result_bind].
  step_field (la_root l) Hr. reflexivity.
Qed.

Lemma leaf_inserted_parsed ev key v r : event_typed (FromNonMembership (LeafInsertedEvent key v r)) ->
  parse_leaf_inserted (parsed_of ev (FromNonMembership (LeafInsertedEvent key v r)))
  = Ok {| ci_id := ce_id ev; ci_key := key; ci_value := v; ci_root := r |}.
Proof.
  intros (Hk & Hv & Hr). unfold parse_leaf_inserted. step_field key Hk. step_field v Hv. step_field r Hr. reflexivity.
Qed.

Lemma leaf_deleted_parsed ev key r : event_typed (FromNonMembership (LeafDeletedEvent key r)) ->
  parse_leaf_deleted (parsed_of ev (FromNonMembership (LeafDeletedEvent key r))) = Ok {| cd_id := ce_id ev; cd_key := key; cd_root := r |}.
Proof. intros (Hk & Hr). unfold parse_leaf_deleted. step_field key Hk. step_field r Hr. reflexivity. Qed.

Lemma contract_event_parsed ev e : event_typed e -> carries ev e -> parse_event ev = Ok (client_event (ce_id ev) e).
Proof.
  intros Ht Hc. unfold parse_event. rewrite (parse_event_metadata_ok ev e Hc). cbn [mbind result_bind pe_name].
  fold (parsed_of ev e). destruct e as [[c i b|n]|k owner|l|[key v r|key r]]; cbn [event_name event_typed] in *.
  - rewrite commitment_parsed by exact Ht. reflexivity.
  - simpl. unfold parse_new_nullifier_event. change (first_topic _) with (Ok (E := StellarError) (u256_val n)).
    cbn [mbind result_bind]. rewrite scval_to_field_val by exact Ht. reflexivity.
  - rewrite public_key_parsed by exact Ht. reflexivity.
  - rewrite leaf_added_parsed by exact Ht. reflexivity.
  - rewrite leaf_inserted_parsed by exact Ht. reflexivity.
  - rewrite leaf_deleted_parsed by exact Ht. reflexivity.
Qed.

End Facts.

(** C23. Every event of the pool, the key registry and the association-set contracts reaches
    the client as the record that describes it: the RPC event that carries it is parsed,
    under the name the contract gives it, to its identifier and its field values. *)
Theorem contract_events_reach_client (X : XdrLib) (XL : XdrLaws X) (ev : ContractEvent) (e : ChainEvent) :
  event_typed e -> carries ev e -> parse_event ev = Ok (client_event (ce_id ev) e).
Proof. apply contract_event_parsed. Qed.

#[export] Instance ref_xdr_laws : XdrLaws ref_xdr.
Proof. split. reflexivity. Qed.

Definition wit_event : ContractEvent :=
  {| ce_id := "0001-01"; ce_ledger := 10; ce_contract_id := "pool"; ce_topics := ["name"; "topic"]; ce_value := "data" |}.

Lemma contract_events_reach_client_witness :
  parse_event wit_event = Ok (client_event "0001-01" (FromPool (NewCommitmentEvent 7 4 [1; 2]))).
Proof.
  apply (contract_events_reach_client ref_xdr ref_xdr_laws wit_event (FromPool (NewCommitmentEvent 7 4 [1; 2]))).
  - vm_compute. split; congruence.
  - exists "name", ["topic"]. split; [reflexivity |]. split; [reflexivity |]. split; [repeat constructor | left; reflexivity].
Defined.
