(* ===== verification/Storage.v ===== *)
(** * The client's database

    [sdk/state/src/storage.rs] over the tables of [schema.sql]: each table is a list of
    rows, each query the comprehension its SQL text denotes, each constraint of the schema
    the check SQLite makes; a transaction that fails leaves no write. *)

From Stdlib Require Import Ascii.
From stdpp Require Import sorting.
From S2P Require Import Prelude Ints Amounts Poseidon2Tables Hashes ProverMonad Encryption Notes Flows ScVals Events.

(** ** Rows and tables *)

Record RawEvent : Type := {
  raw_id : string;
  raw_ledger : Z;
  raw_contract : Z;
  raw_topics : string;
  raw_value : string;
}.

Record SyncRow : Type := {
  sr_contract : Z;
  sr_cursor : option string;
  sr_indexed : Z;
  sr_fully_indexed : Z;
}.

Record KeypairRow : Type := {
  kr_id : Z;
  kr_note : NoteKeyPair;
  kr_encryption : EncryptionKeyPair;
  kr_membership_blinding : Field;
  kr_account : Z;
}.

Record NullifierRow : Type := { pn_id : Z; pn_nullifier : Field; pn_event : string }.

Record CommitmentRow : Type := {
  pc_id : Z;
  pc_commitment : Field;
  pc_leaf_index : Z;
  pc_encrypted_output : bytes;
  pc_event : string;
}.

Record PublicKeyRow : Type := { pk_owner : string; pk_encryption_key : bytes; pk_note_key : bytes; pk_event : string }.

Record LeafRow : Type := { lr_contract : Z; lr_index : Z; lr_leaf : Field; lr_root : Field; lr_event : string }.

(** The amount is stored as text. *)
Record UserNoteRow : Type := {
  un_id : Field;
  un_account : Z;
  un_commitment_id : Z;
  un_nullifier_id : option Z;
  un_expected_nullifier : Field;
  un_blinding : Field;
  un_amount : list ascii;
}.

Record Db : Type := {
  contracts : list (Z * string);
  indexing_metadata : list SyncRow;
  raw_contract_events : list RawEvent;
  accounts : list (Z * string);
  keypairs : list KeypairRow;
  pool_nullifiers : list NullifierRow;
  pool_commitments : list CommitmentRow;
  public_keys : list PublicKeyRow;
  asp_membership_leaves : list LeafRow;
  user_notes : list UserNoteRow;
  account_commitment_scan : gmap (Z * Z) Z;
  nullifier_scan_state : gmap Z Z;
}.

Definition empty_db : Db := Build_Db [] [] [] [] [] [] [] [] [] [] ∅ ∅.

Definition set_contracts v d := Build_Db v (indexing_metadata d) (raw_contract_events d) (accounts d) (keypairs d) (pool_nullifiers d) (pool_commitments d) (public_keys d) (asp_membership_leaves d) (user_notes d) (account_commitment_scan d) (nullifier_scan_state d).
Definition set_metadata v d := Build_Db (contracts d) v (raw_contract_events d) (accounts d) (keypairs d) (pool_nullifiers d) (pool_commitments d) (public_keys d) (asp_membership_leaves d) (user_notes d) (account_commitment_scan d) (nullifier_scan_state d).
Definition set_raw v d := Build_Db (contracts d) (indexing_metadata d) v (accounts d) (keypairs d) (pool_nullifiers d) (pool_commitments d) (public_keys d) (asp_membership_leaves d) (user_notes d) (account_commitment_scan d) (nullifier_scan_state d).
Definition set_accounts v d := Build_Db (contracts d) (indexing_metadata d) (raw_contract_events d) v (keypairs d) (pool_nullifiers d) (pool_commitments d) (public_keys d) (asp_membership_leaves d) (user_notes d) (account_commitment_scan d) (nullifier_scan_state d).
Definition set_keypairs v d := Build_Db (contracts d) (indexing_metadata d) (raw_contract_events d) (accounts d) v (pool_nullifiers d) (pool_commitments d) (public_keys d) (asp_membership_leaves d) (user_notes d) (account_commitment_scan d) (nullifier_scan_state d).
Definition set_nullifiers v d := Build_Db (contracts d) (indexing_metadata d) (raw_contract_events d) (accounts d) (keypairs d) v (pool_commitments d) (public_keys d) (asp_membership_leaves d) (user_notes d) (account_commitment_scan d) (nullifier_scan_state d).
Definition set_commitments v d := Build_Db (contracts d) (indexing_metadata d) (raw_contract_events d) (accounts d) (keypairs d) (pool_nullifiers d) v (public_keys d) (asp_membership_leaves d) (user_notes d) (account_commitment_scan d) (nullifier_scan_state d).
Definition set_public_keys v d := Build_Db (contracts d) (indexing_metadata d) (raw_contract_events d) (accounts d) (keypairs d) (pool_nullifiers d) (pool_commitments d) v (asp_membership_leaves d) (user_notes d) (account_commitment_scan d) (nullifier_scan_state d).
Definition set_leaves v d := Build_Db (contracts d) (indexing_metadata d) (raw_contract_events d) (accounts d) (keypairs d) (pool_nullifiers d) (pool_commitments d) (public_keys d) v (user_notes d) (account_commitment_scan d) (nullifier_scan_state d).
Definition set_notes v d := Build_Db (contracts d) (indexing_metadata d) (raw_contract_events d) (accounts d) (keypairs d) (pool_nullifiers d) (pool_commitments d) (public_keys d) (asp_membership_leaves d) v (account_commitment_scan d) (nullifier_scan_state d).
Definition set_scan v d := Build_Db (contracts d) (indexing_metadata d) (raw_contract_events d) (accounts d) (keypairs d) (pool_nullifiers d) (pool_commitments d) (public_keys d) (asp_membership_leaves d) (user_notes d) v (nullifier_scan_state d).
Definition set_nullifier_scan v d := Build_Db (contracts d) (indexing_metadata d) (raw_contract_events d) (accounts d) (keypairs d) (pool_nullifiers d) (pool_commitments d) (public_keys d) (asp_membership_leaves d) (user_notes d) (account_commitment_scan d) v.

(** The errors of the statements; the last two are those of a database behind a worker, which
    answers too late, or with an error or another message than the one awaited. *)
Inductive StorageError : Type :=
| UniqueConstraint
| ForeignKey
| ColumnRange
| IndexGap (expected got : Z)
| IndexOverflow
| RootMismatch (ledger : Z)
| AmountText
| NoRow
| PoolCount
| BalanceOverflow
| DisclaimerMismatch
| SettingJson
| DeriveError (e : ProverError)
| DerivePanic
| WorkerTimeout
| WorkerReply.

(** ** Statements and transactions *)

Definition DM (A : Type) : Type := Db -> result StorageError A * Db.

#[export] Instance dm_ret : MRet DM := fun A a d => (Ok a, d).
#[export] Instance dm_bind : MBind DM := fun A B k m d =>
  match m d with (Ok a, d') => k a d' | (Err e, d') => (Err e, d') end.

Definition db_read {A} (f : Db -> A) : DM A := fun d => (Ok (f d), d).
Definition db_write (f : Db -> Db) : DM unit := fun d => (Ok tt, f d).
Definition db_fail {A} (e : StorageError) : DM A := fun d => (Err e, d).
Definition db_try {A} (r : result StorageError A) : DM A := fun d => (r, d).

(** A [rusqlite] transaction that is dropped before [commit] rolls back. *)
Definition transaction {A} (m : DM A) : DM A := fun d =>
  match m d with (Ok a, d') => (Ok a, d') | (Err e, _) => (Err e, d) end.

Fixpoint db_each {A} (f : A -> DM unit) (l : list A) : DM unit :=
  match l with [] => mret tt | x :: rest => f x;; db_each f rest end.

(** The identifier SQLite gives a new row: one more than the largest. *)
Definition next_id (ids : list Z) : Z := foldr Z.max 0 ids + 1.

(** [ORDER BY key]. *)
Definition by_key {A} (key : A -> Z) (a b : A) : Prop := key a <= key b.

#[export] Instance by_key_dec {A} (key : A -> Z) : RelDecision (by_key key).
Proof. intros a b. unfold by_key. exact _. Defined.

Definition order_by {A} (key : A -> Z) (l : list A) : list A := merge_sort (by_key key) l.

(** [u32::try_from] of a column. *)
Definition col_u32 (val : Z) : result StorageError Z := if fits_u 32 val then Ok val else Err ColumnRange.

(** ** Contracts, accounts and raw events *)

Definition lookup_id (table : list (Z * string)) (address : string) : option Z :=
  fst <$> find (fun row => bool_decide (row.2 = address)) table.

Definition lookup_address (table : list (Z * string)) (id : Z) : option string :=
  snd <$> find (fun row => bool_decide (row.1 = id)) table.

Definition get_or_create_contract_id (address : string) : DM Z :=
  table ← db_read contracts;
  match lookup_id table address with
  | Some id => mret id
  | None => let id := next_id (fst <$> table) in db_write (set_contracts (table ++ [(id, address)]));; mret id
  end.

Definition get_or_create_account (address : string) : DM Z :=
  table ← db_read accounts;
  match lookup_id table address with
  | Some id => mret id
  | None => let id := next_id (fst <$> table) in db_write (set_accounts (table ++ [(id, address)]));; mret id
  end.

Definition raw_of (d : Db) (id : string) : option RawEvent :=
  find (fun r => bool_decide (raw_id r = id)) (raw_contract_events d).

Definition contract_of (d : Db) (event : string) : option Z := raw_contract <$> raw_of d event.

(** The join of an event with its contract's address. *)
Definition address_of (d : Db) (event : string) : option string := c ← contract_of d event; lookup_address (contracts d) c.

Definition save_raw_event (e : ContractEvent) : DM unit :=
  contract ← get_or_create_contract_id (ce_contract_id e);
  d ← db_read id;
  match raw_of d (ce_id e) with
  | Some _ => mret tt
  | None =>
      db_write (set_raw (raw_contract_events d ++
        [{| raw_id := ce_id e; raw_ledger := ce_ledger e; raw_contract := contract;
            raw_topics := String.concat "," (ce_topics e); raw_value := ce_value e |}]))
  end.

Definition save_events_batch (events : list ContractEvent) : DM unit := transaction (db_each save_raw_event events).

(** ** Synchronisation progress *)

Record SyncMetadata : Type := {
  sm_contract_id : string;
  sm_cursor : string;
  sm_last_indexed_ledger : Z;
  sm_last_fully_indexed_ledger : Z;
}.

Definition save_sync_entry (fully_indexed : bool) (entry : SyncMetadata) : DM unit :=
  contract ← get_or_create_contract_id (sm_contract_id entry);
  table ← db_read indexing_metadata;
  let fresh := {| sr_contract := contract; sr_cursor := Some (sm_cursor entry); sr_indexed := sm_last_indexed_ledger entry; sr_fully_indexed := 0 |} in
  let table := if existsb (fun r => sr_contract r =? contract) table then table else table ++ [fresh] in
  let update r :=
    if sr_contract r =? contract then
      {| sr_contract := contract; sr_cursor := Some (sm_cursor entry); sr_indexed := sm_last_indexed_ledger entry;
         sr_fully_indexed := if fully_indexed then sm_last_indexed_ledger entry else sr_fully_indexed r |}
    else r in
  db_write (set_metadata (update <$> table)).

Definition save_sync_progress (metadata : list SyncMetadata) (fully_indexed : bool) : DM unit :=
  transaction (db_each (save_sync_entry fully_indexed) metadata).

Definition clear_indexing_cursors : DM unit :=
  table ← db_read indexing_metadata;
  db_write (set_metadata ((fun r => {| sr_contract := sr_contract r; sr_cursor := None; sr_indexed := sr_indexed r; sr_fully_indexed := sr_fully_indexed r |}) <$> table)).

Fixpoint sync_rows (d : Db) (rows : list SyncRow) : result StorageError (list SyncMetadata) :=
  match rows with
  | [] => Ok []
  | r :: rest =>
      match lookup_address (contracts d) (sr_contract r) with
      | None => sync_rows d rest
      | Some address =>
          indexed ← col_u32 (sr_indexed r);
          fully ← col_u32 (sr_fully_indexed r);
          others ← sync_rows d rest;
          Ok ({| sm_contract_id := address; sm_cursor := default EmptyString (sr_cursor r); sm_last_indexed_ledger := indexed;
                 sm_last_fully_indexed_ledger := fully |} :: others)
      end
  end.

Definition get_sync_metadata (d : Db) : result StorageError (list SyncMetadata) :=
  sync_rows d (order_by sr_contract (indexing_metadata d)).

Definition network_tip_ledger (d : Db) : result StorageError Z :=
  metadata ← get_sync_metadata d;
  Ok (foldr (fun e m => Z.max (Z.max (sm_last_indexed_ledger e) (sm_last_fully_indexed_ledger e)) m) 0 metadata).

(** ** Keys *)

Record StoredUserKeys : Type := {
  su_note_keypair : NoteKeyPair;
  su_encryption_keypair : EncryptionKeyPair;
  su_membership_blinding : Field;
}.

Record AccountKeys : Type := {
  ak_account : Z;
  ak_note_keypair : NoteKeyPair;
  ak_encryption_keypair : EncryptionKeyPair;
  ak_membership_blinding : Field;
}.

(** The row with the largest identifier among the account's. *)
Definition latest_keypair (d : Db) (account : Z) : option KeypairRow :=
  last (order_by kr_id (filter (fun k => kr_account k = account) (keypairs d))).

Definition get_user_keys (d : Db) (address : string) : option StoredUserKeys :=
  account ← lookup_id (accounts d) address;
  k ← latest_keypair d account;
  Some {| su_note_keypair := kr_note k; su_encryption_keypair := kr_encryption k; su_membership_blinding := kr_membership_blinding k |}.

Definition save_encryption_and_note_keypairs (address : string) (note : NoteKeyPair) (encryption : EncryptionKeyPair)
    (membership_blinding : Field) : DM unit :=
  transaction (
    account ← get_or_create_account address;
    table ← db_read keypairs;
    db_write (set_keypairs (table ++ [{| kr_id := next_id (kr_id <$> table); kr_note := note; kr_encryption := encryption;
      kr_membership_blinding := membership_blinding; kr_account := account |}]))).

Definition get_accounts_with_latest_keypairs (d : Db) : list AccountKeys :=
  omap (fun a => k ← latest_keypair d a.1;
     Some {| ak_account := a.1; ak_note_keypair := kr_note k; ak_encryption_keypair := kr_encryption k;
             ak_membership_blinding := kr_membership_blinding k |}) (order_by fst (accounts d)).

(** ** Events parsed into tables *)

(** [ON CONFLICT(nullifier) DO NOTHING]; the other constraints of the table still fail. *)
Definition save_nullifier (e : ClientNullifierEvent) : DM unit :=
  d ← db_read id;
  let table := pool_nullifiers d in
  if existsb (fun r => pn_nullifier r =? cn_nullifier e) table then mret tt
  else if existsb (fun r => bool_decide (pn_event r = cn_id e)) table then db_fail UniqueConstraint
  else match raw_of d (cn_id e) with
       | None => db_fail ForeignKey
       | Some _ => db_write (set_nullifiers (table ++
                     [{| pn_id := next_id (pn_id <$> table); pn_nullifier := cn_nullifier e; pn_event := cn_id e |}]))
       end.

Definition save_nullifier_events_batch (events : list ClientNullifierEvent) : DM unit :=
  transaction (db_each save_nullifier events).

Definition save_commitment (e : ClientCommitmentEvent) : DM unit :=
  d ← db_read id;
  let table := pool_commitments d in
  if existsb (fun r => pc_commitment r =? cc_commitment e) table then mret tt
  else if existsb (fun r => bool_decide (pc_event r = cc_id e)) table then db_fail UniqueConstraint
  else match raw_of d (cc_id e) with
       | None => db_fail ForeignKey
       | Some _ => db_write (set_commitments (table ++
                     [{| pc_id := next_id (pc_id <$> table); pc_commitment := cc_commitment e; pc_leaf_index := cc_index e;
                         pc_encrypted_output := cc_encrypted_output e; pc_event := cc_id e |}]))
       end.

Definition save_commitment_events_batch (events : list ClientCommitmentEvent) : DM unit :=
  transaction (db_each save_commitment events).

Definition save_public_key (e : ClientPublicKeyEvent) : DM unit :=
  d ← db_read id;
  let table := public_keys d in
  if existsb (fun r => bool_decide (pk_event r = ck_id e)) table then mret tt
  else match raw_of d (ck_id e) with
       | None => db_fail ForeignKey
       | Some _ => db_write (set_public_keys (table ++
                     [{| pk_owner := ck_owner e; pk_encryption_key := ck_encryption_key e; pk_note_key := ck_note_key e; pk_event := ck_id e |}]))
       end.

Definition save_public_key_events_batch (events : list ClientPublicKeyEvent) : DM unit :=
  transaction (db_each save_public_key events).

(** [INSERT OR IGNORE ... SELECT]: nothing without the raw event, nothing on a conflict. *)
Definition save_leaf_added (e : ClientLeafAddedEvent) : DM unit :=
  d ← db_read id;
  let table := asp_membership_leaves d in
  match raw_of d (cl_id e) with
  | None => mret tt
  | Some r =>
      if existsb (fun l => (lr_contract l =? raw_contract r) && (lr_index l =? cl_index e)) table then mret tt
      else if existsb (fun l => bool_decide (lr_event l = cl_id e)) table then mret tt
      else db_write (set_leaves (table ++
             [{| lr_contract := raw_contract r; lr_index := cl_index e; lr_leaf := cl_leaf e; lr_root := cl_root e; lr_event := cl_id e |}]))
  end.

Definition save_leaf_added_events_batch (events : list ClientLeafAddedEvent) : DM unit :=
  transaction (db_each save_leaf_added events).

(** ** Queries *)

(** [topics_str.split(',')]. *)
Fixpoint split_commas (s : string) : list string :=
  match s with
  | EmptyString => [EmptyString]
  | String c rest =>
      match split_commas rest with
      | part :: parts => if bool_decide (c = ","%char) then EmptyString :: part :: parts else String c part :: parts
      | [] => []
      end
  end.

Definition is_processed (d : Db) (id : string) : bool :=
  existsb (fun r => bool_decide (pc_event r = id)) (pool_commitments d)
  || existsb (fun r => bool_decide (pk_event r = id)) (public_keys d)
  || existsb (fun r => bool_decide (lr_event r = id)) (asp_membership_leaves d)
  || existsb (fun r => bool_decide (pn_event r = id)) (pool_nullifiers d).

(** [ORDER BY r.ledger ASC, r.id ASC]; the texts compare byte by byte. *)
Definition raw_le (a b : RawEvent) : Prop :=
  raw_ledger a < raw_ledger b \/ raw_ledger a = raw_ledger b /\ String.leb (raw_id a) (raw_id b) = true.

#[export] Instance raw_le_dec : RelDecision raw_le.
Proof. intros a b. unfold raw_le. exact _. Defined.

Definition unprocessed (d : Db) : list RawEvent :=
  filter (fun r => is_processed d (raw_id r) = false /\ is_Some (lookup_address (contracts d) (raw_contract r))) (raw_contract_events d).

Definition event_of (d : Db) (r : RawEvent) : ContractEvent :=
  {| ce_id := raw_id r; ce_ledger := raw_ledger r; ce_contract_id := default EmptyString (lookup_address (contracts d) (raw_contract r));
     ce_topics := split_commas (raw_topics r); ce_value := raw_value r |}.

Definition get_unprocessed_events (limit : Z) (d : Db) : list ContractEvent :=
  event_of d <$> take (Z.to_nat limit) (merge_sort raw_le (unprocessed d)).

(** The loop that turns rows ordered by index into leaves. *)
Fixpoint consecutive (expected : Z) (rows : list (Z * Field)) : result StorageError (list Field) :=
  match rows with
  | [] => Ok []
  | (idx, leaf) :: rest =>
      idx ← col_u32 idx;
      if idx =? expected then
        expected ← ok_or (checked_add 32 expected 1) IndexOverflow;
        leaves ← consecutive expected rest;
        Ok (leaf :: leaves)
      else Err (IndexGap expected idx)
  end.

Definition get_pool_commitment_leaves_ordered (d : Db) (pool : string) : result StorageError (list Field) :=
  consecutive 0 ((fun r => (pc_leaf_index r, pc_commitment r)) <$>
    order_by pc_leaf_index (filter (fun r => address_of d (pc_event r) = Some pool) (pool_commitments d))).

Definition get_all_asp_membership_leaves_ordered (d : Db) (contract : string) : result StorageError (list Field) :=
  consecutive 0 ((fun r => (lr_index r, lr_leaf r)) <$>
    order_by lr_index (filter (fun r => address_of d (lr_event r) = Some contract) (asp_membership_leaves d))).

Inductive AspMembershipSync : Type :=
| SyncRequired (gap : option Z)
| RegisterAtASP
| UserIndex (index : Z).

Definition check_asp_membership_precondition (d : Db) (contract : string) (user_leaf current_root : Field) (current_ledger : Z)
    : result StorageError AspMembershipSync :=
  metadata ← get_sync_metadata d;
  match find (fun m => bool_decide (sm_contract_id m = contract)) metadata with
  | None => Ok (SyncRequired (Some current_ledger))
  | Some m =>
      if sm_last_fully_indexed_ledger m <? current_ledger then
        Ok (SyncRequired (Some (saturating_sub current_ledger (sm_last_fully_indexed_ledger m))))
      else
        let rows := filter (fun r => address_of d (lr_event r) = Some contract) (asp_membership_leaves d) in
        match last (order_by lr_index rows) with
        | None => Ok RegisterAtASP
        | Some l =>
            last_leaf_ledger ← col_u32 (default 0 (raw_ledger <$> raw_of d (lr_event l)));
            if negb (current_root =? lr_root l) then
              if last_leaf_ledger <? current_ledger then Ok (SyncRequired (Some (saturating_sub current_ledger last_leaf_ledger)))
              else Err (RootMismatch current_ledger)
            else
              match find (fun r => lr_leaf r =? user_leaf) rows with
              | Some r => Ok (UserIndex (lr_index r))
              | None => Ok RegisterAtASP
              end
        end
  end.

Definition commitment_by_id (d : Db) (id : Z) : option CommitmentRow := find (fun c => pc_id c =? id) (pool_commitments d).

Definition note_in_pool (d : Db) (pool : string) (c : CommitmentRow) : bool := bool_decide (address_of d (pc_event c) = Some pool).

Definition get_unspent_user_note_by_commitment (d : Db) (pool address : string) (commitment : Field)
    : result StorageError (option (NoteAmount * Field * Z)) :=
  let matching n :=
    c ← commitment_by_id d (un_commitment_id n);
    if bool_decide (lookup_address (accounts d) (un_account n) = Some address) && note_in_pool d pool c
       && (pc_commitment c =? commitment) && bool_decide (un_nullifier_id n = None)
    then Some (n, c) else None in
  match head (omap matching (user_notes d)) with
  | None => Ok None
  | Some (n, c) =>
      amount ← map_err (fun _ => AmountText) (NoteAmount_column_result (SqlText (un_amount n)));
      leaf_index ← col_u32 (pc_leaf_index c);
      Ok (Some (amount, un_blinding n, leaf_index))
  end.
