(* ===== verification/Queries.v ===== *)
(** * What the client reads from its database

    The deployment configuration ([ContractConfig] of [sdk/types/src/lib.rs]) and the rest
    of [sdk/state/src/storage.rs]: the lists of notes, the balances, the address book, the
    settings, the disclaimer and the log of operations. *)

From Stdlib Require Import Ascii.
From stdpp Require Import sorting.
From S2P Require Import Prelude Ints Amounts Poseidon2Tables Hashes ProverMonad Encryption Notes Flows ScVals Events Storage.

(** ** The deployment *)

Inductive AssetDescriptor : Type :=
| Native
| Classic (code issuer : string)
| TokenContract (contract_id symbol : string).

Record PoolConfigEntry : Type := {
  pool_contract_id : string;
  token_contract_id : string;
  deployment_ledger : Z;
  pool_enabled : bool;
  pool_asset : AssetDescriptor;
}.

Record ContractConfig : Type := {
  cfg_network : string;
  cfg_deployer : string;
  cfg_admin : string;
  cfg_asp_membership : string;
  cfg_asp_non_membership : string;
  cfg_verifier : string;
  cfg_public_key_registry : string;
  cfg_pools : list PoolConfigEntry;
}.

Definition enabled_pools (c : ContractConfig) : list PoolConfigEntry := filter (fun p => pool_enabled p = true) (cfg_pools c).

Definition all_contract_ids (c : ContractConfig) : list string :=
  (pool_contract_id <$> enabled_pools c) ++ [cfg_asp_membership c] ++ [cfg_public_key_registry c].

(** [None] is the error that no pool is enabled. *)
Definition min_deployment_ledger (c : ContractConfig) : option Z :=
  match deployment_ledger <$> enabled_pools c with
  | [] => None
  | l :: rest => Some (foldl Z.min l rest)
  end.

Definition token_label (pool : PoolConfigEntry) : string :=
  match pool_asset pool with
  | Native => "XLM"
  | Classic code _ => code
  | TokenContract _ symbol => symbol
  end.

(** ** Notes *)

Record UserNoteSummary : Type := {
  us_id : Field;
  us_pool_contract_id : string;
  us_amount : NoteAmount;
  us_leaf_index : Z;
  us_created_at_ledger : Z;
  us_spent : bool;
}.

(** A note joined with its account, its commitment, the commitment's event and the pool. *)
Record JoinedNote : Type := {
  jn_note : UserNoteRow;
  jn_owner : string;
  jn_commitment : CommitmentRow;
  jn_raw : RawEvent;
  jn_pool : string;
}.

Definition join_note (d : Db) (n : UserNoteRow) : option JoinedNote :=
  owner ← lookup_address (accounts d) (un_account n);
  c ← commitment_by_id d (un_commitment_id n);
  r ← raw_of d (pc_event c);
  pool ← lookup_address (contracts d) (raw_contract r);
  Some {| jn_note := n; jn_owner := owner; jn_commitment := c; jn_raw := r; jn_pool := pool |}.

Definition joined_notes (d : Db) : list JoinedNote := omap (join_note d) (user_notes d).

(** [ORDER BY r.ledger DESC]; the order of equal ledgers is not specified. *)
Definition newest_first (l : list JoinedNote) : list JoinedNote := order_by (fun j => - raw_ledger (jn_raw j)) l.

Definition column_amount (text : list ascii) : result StorageError NoteAmount :=
  map_err (fun _ => AmountText) (NoteAmount_column_result (SqlText text)).

Definition is_unspent (n : UserNoteRow) : bool := bool_decide (un_nullifier_id n = None).

Definition summary_of (j : JoinedNote) : result StorageError UserNoteSummary :=
  amount ← column_amount (un_amount (jn_note j));
  leaf_index ← col_u32 (pc_leaf_index (jn_commitment j));
  created_at_ledger ← col_u32 (raw_ledger (jn_raw j));
  Ok {| us_id := un_id (jn_note j); us_pool_contract_id := jn_pool j; us_amount := amount; us_leaf_index := leaf_index;
        us_created_at_ledger := created_at_ledger; us_spent := negb (is_unspent (jn_note j)) |}.

Fixpoint summaries (l : list JoinedNote) : result StorageError (list UserNoteSummary) :=
  match l with
  | [] => Ok []
  | j :: rest => s ← summary_of j; others ← summaries rest; Ok (s :: others)
  end.

Definition list_user_notes (d : Db) (address : string) (limit : Z) : result StorageError (list UserNoteSummary) :=
  summaries (take (Z.to_nat limit) (newest_first (filter (fun j => jn_owner j = address) (joined_notes d)))).

Definition list_pool_user_notes (d : Db) (pool address : string) : result StorageError (list UserNoteSummary) :=
  summaries (newest_first (filter (fun j => jn_owner j = address /\ jn_pool j = pool) (joined_notes d))).

Definition list_unspent_user_notes (d : Db) (pool address : string) : result StorageError (list UserNoteSummary) :=
  summaries (newest_first (filter (fun j => jn_owner j = address /\ jn_pool j = pool /\ is_unspent (jn_note j) = true) (joined_notes d))).

(** ** Balances *)

Record PortfolioBalance : Type := {
  pb_pool_contract_id : string;
  pb_token_contract_id : string;
  pb_token_label : string;
  pb_amount : NoteAmount;
  pb_note_count : Z;
}.

(** [ORDER BY pool.address]. *)
Definition pool_le (a b : JoinedNote) : Prop := String.leb (jn_pool a) (jn_pool b) = true.

#[export] Instance pool_le_dec : RelDecision pool_le.
Proof. intros a b. unfold pool_le. exact _. Defined.

Abbreviation Totals := (gmap string (Z * NoteAmount)).

(** The loop over the rows. *)
Fixpoint aggregate (rows : list JoinedNote) (aggregated : Totals) : result StorageError Totals :=
  match rows with
  | [] => Ok aggregated
  | j :: rest =>
      amount ← column_amount (un_amount (jn_note j));
      let '(count, total) := default (0, NoteAmount_ZERO) (aggregated !! jn_pool j) in
      total ← ok_or (NoteAmount_checked_add total amount) BalanceOverflow;
      aggregate rest (<[jn_pool j := (Z.min (2 ^ 32 - 1) (count + 1), total)]> aggregated)
  end.

(** The loop over the pools; [remove] takes the entry out of the map. *)
Fixpoint pool_balances (pools : list PoolConfigEntry) (aggregated : Totals) : list PortfolioBalance :=
  match pools with
  | [] => []
  | pool :: rest =>
      let '(note_count, amount) := default (0, NoteAmount_ZERO) (aggregated !! pool_contract_id pool) in
      {| pb_pool_contract_id := pool_contract_id pool; pb_token_contract_id := token_contract_id pool; pb_token_label := token_label pool;
         pb_amount := amount; pb_note_count := note_count |} :: pool_balances rest (delete (pool_contract_id pool) aggregated)
  end.

Definition list_portfolio_balances (d : Db) (address : string) (config : ContractConfig) : result StorageError (list PortfolioBalance) :=
  aggregated ← aggregate (merge_sort pool_le (filter (fun j => jn_owner j = address /\ is_unspent (jn_note j) = true) (joined_notes d))) ∅;
  Ok (pool_balances (enabled_pools config) aggregated).

(** ** The address book *)

Record PublicKeyEntry : Type := {
  pke_address : string;
  pke_encryption_key : bytes;
  pke_note_key : bytes;
  pke_ledger : Z;
}.

(** SQLite takes the bare columns of a query with [MAX] from one of the rows that have the
    maximum, and does not say which. *)
Class SqliteMax : Type := { max_row : list (PublicKeyRow * Z) -> option (PublicKeyRow * Z) }.

Class SqliteMaxLaws (S : SqliteMax) : Prop := {
  max_row_nil : max_row [] = None;
  max_row_max l : l <> [] -> exists x, max_row l = Some x /\ x ∈ l /\ forall y, y ∈ l -> y.2 <= x.2;
}.

Section AddressBook.

Context {S : SqliteMax}.

Definition registrations (d : Db) (owner : string) : list (PublicKeyRow * Z) :=
  omap (fun p => r ← raw_of d (pk_event p); Some (p, raw_ledger r)) (filter (fun p => pk_owner p = owner) (public_keys d)).

Definition map_public_key_entry (row : PublicKeyRow * Z) : result StorageError PublicKeyEntry :=
  ledger ← col_u32 row.2;
  Ok {| pke_address := pk_owner row.1; pke_encryption_key := pk_encryption_key row.1; pke_note_key := pk_note_key row.1; pke_ledger := ledger |}.

Fixpoint key_entries (rows : list (PublicKeyRow * Z)) : result StorageError (list PublicKeyEntry) :=
  match rows with
  | [] => Ok []
  | row :: rest => e ← map_public_key_entry row; others ← key_entries rest; Ok (e :: others)
  end.

(** [GROUP BY p.owner], then [ORDER BY ledger DESC LIMIT ?1]. *)
Definition get_recent_public_keys (d : Db) (limit : Z) : result StorageError (list PublicKeyEntry) :=
  key_entries (take (Z.to_nat limit) (order_by (fun row => - row.2)
    (omap (fun owner => max_row (registrations d owner)) (remove_dups (pk_owner <$> public_keys d))))).

Definition lookup_public_key_by_address (d : Db) (address : string) : result StorageError (option PublicKeyEntry) :=
  match max_row (registrations d address) with
  | None => Ok None
  | Some row => e ← map_public_key_entry row; Ok (Some e)
  end.

Record RecipientLookup : Type := {
  rl_entry : option PublicKeyEntry;
  rl_registry_fully_synced : bool;
  rl_network_tip_ledger : Z;
  rl_registry_last_fully_indexed_ledger : Z;
}.

Definition recipient_lookup (d : Db) (address registry : string) : result StorageError RecipientLookup :=
  entry ← lookup_public_key_by_address d address;
  metadata ← get_sync_metadata d;
  let registry_last := default 0 (sm_last_fully_indexed_ledger <$> find (fun m => bool_decide (sm_contract_id m = registry)) metadata) in
  tip ← network_tip_ledger d;
  Ok {| rl_entry := entry; rl_registry_fully_synced := (0 <? tip) && (tip <=? registry_last); rl_network_tip_ledger := tip;
        rl_registry_last_fully_indexed_ledger := registry_last |}.

End AddressBook.

(** ** The operational feed *)

Record OperationalFeedItem : Type := {
  fi_kind : string;
  fi_title : string;
  fi_body : string;
  fi_ledger : Z;
  fi_contract_id : string;
  fi_pool_contract_id : option string;
  fi_tx_type : string;
}.

(** The joins of rows with their events and contracts: the ledger and the address. *)
Definition event_places (d : Db) (events : list string) : list (Z * string) :=
  omap (fun e => r ← raw_of d e; address ← lookup_address (contracts d) (raw_contract r); Some (raw_ledger r, address)) events.

(** [GROUP BY r.ledger, c.address] with [COUNT( * )]. *)
Definition count_of (place : Z * string) (places : list (Z * string)) : Z := zlength (filter (fun p => p = place) places).
Definition group_count (places : list (Z * string)) : list (Z * string * Z) := (fun p => (p, count_of p places)) <$> remove_dups places.

(** The commitments and nullifiers of a pool in a ledger: the sums over the two groupings. *)
Definition pool_activity (d : Db) : list (Z * string * (Z * Z)) :=
  let rows := ((fun g => (g.1, (g.2, 0))) <$> group_count (event_places d (pc_event <$> pool_commitments d)))
    ++ ((fun g => (g.1, (0, g.2))) <$> group_count (event_places d (pn_event <$> pool_nullifiers d))) in
  (fun place =>
     let group := filter (fun row => row.1 = place) rows in
     (place, (foldr Z.add 0 (fst ∘ snd <$> group), foldr Z.add 0 (snd ∘ snd <$> group)))) <$> remove_dups (fst <$> rows).

(** [printf] of a count. *)
Definition show_count (n : Z) : string := String.string_of_list_ascii (show_u n).

Definition pool_item (row : Z * string * (Z * Z)) : OperationalFeedItem :=
  let '(ledger, pool, (commitments, nullifiers)) := row in
  {| fi_kind := "pool"; fi_title := "Pool activity";
     fi_body := (show_count commitments +:+ " commitment(s), " +:+ show_count nullifiers +:+ " nullifier(s)")%string;
     fi_ledger := ledger; fi_contract_id := pool; fi_pool_contract_id := Some pool;
     fi_tx_type := if (0 <? commitments) && (0 <? nullifiers) then "mixed" else if 0 <? commitments then "deposit_or_transfer" else "spend" |}.

Definition count_item (kind title unit tx_type : string) (row : Z * string * Z) : OperationalFeedItem :=
  let '(ledger, contract, count) := row in
  {| fi_kind := kind; fi_title := title; fi_body := (show_count count +:+ unit)%string; fi_ledger := ledger; fi_contract_id := contract;
     fi_pool_contract_id := None; fi_tx_type := tx_type |}.

(** [WHERE c.address = ?]. *)
Definition contract_places (d : Db) (contract : string) (events : list string) : list (Z * string) :=
  filter (fun p => p.2 = contract) (event_places d events).

Fixpoint feed_items (rows : list OperationalFeedItem) : result StorageError (list OperationalFeedItem) :=
  match rows with
  | [] => Ok []
  | row :: rest => _ ← col_u32 (fi_ledger row); others ← feed_items rest; Ok (row :: others)
  end.

(** The union of the three queries; the order of equal ledgers is not specified. *)
Definition feed_rows (d : Db) (asp_membership registry : string) : list OperationalFeedItem :=
  (pool_item <$> pool_activity d)
  ++ (count_item "registry" "Address book registration" " public key registration(s)" "registration" <$>
        group_count (contract_places d registry (pk_event <$> public_keys d)))
  ++ (count_item "asp" "ASP membership update" " membership leaf/leaves inserted" "membership" <$>
        group_count (contract_places d asp_membership (lr_event <$> asp_membership_leaves d))).

Definition get_operational_feed (d : Db) (limit : Z) (asp_membership registry : string) : result StorageError (list OperationalFeedItem) :=
  feed_items (take (Z.to_nat limit) (order_by (fun row => - fi_ledger row) (feed_rows d asp_membership registry))).

(** ** Settings, disclaimer and operations *)

Record OperationRow : Type := {
  or_id : Z;
  or_address : string;
  or_pool : string;
  or_op_type : string;
  or_amount : string;
  or_direction : string;
  or_counterparty : option string;
  or_tx_hash : option string;
  or_created_at : Z;
}.

(** The tables that have nothing to do with the chain, beside the others. *)
Record AppDb : Type := {
  app_chain : Db;
  app_settings : gmap string string;
  disclaimer_acceptances : list (Z * string);
  app_user_operations : list OperationRow;
}.

Record DisclaimerState : Type := {
  disclaimer_text_md : string;
  disclaimer_hash_hex : string;
  disclaimer_accepted : bool;
}.

Section App.

(** The text and its hash are generated by the build. *)
Variables CURRENT_DISCLAIMER_TEXT_MD CURRENT_DISCLAIMER_HASH_HEX : string.

Definition has_accepted (a : AppDb) (account : Z) : bool :=
  existsb (fun row => (row.1 =? account) && bool_decide (row.2 = CURRENT_DISCLAIMER_HASH_HEX)) (disclaimer_acceptances a).

Definition get_disclaimer_state (address : string) (a : AppDb) : result StorageError DisclaimerState * AppDb :=
  match get_or_create_account address (app_chain a) with
  | (Err e, _) => (Err e, a)
  | (Ok account, d) =>
      (Ok {| disclaimer_text_md := CURRENT_DISCLAIMER_TEXT_MD; disclaimer_hash_hex := CURRENT_DISCLAIMER_HASH_HEX;
             disclaimer_accepted := has_accepted a account |},
       Build_AppDb d (app_settings a) (disclaimer_acceptances a) (app_user_operations a))
  end.

Definition accept_current_disclaimer (address hash : string) (a : AppDb) : result StorageError unit * AppDb :=
  if negb (bool_decide (hash = CURRENT_DISCLAIMER_HASH_HEX)) then (Err DisclaimerMismatch, a)
  else match get_or_create_account address (app_chain a) with
       | (Err e, _) => (Err e, a)
       | (Ok account, d) =>
           let table := disclaimer_acceptances a in
           let table := if existsb (fun row => (row.1 =? account) && bool_decide (row.2 = hash)) table then table else table ++ [(account, hash)] in
           (Ok tt, Build_AppDb d (app_settings a) table (app_user_operations a))
       end.

End App.

(** [serde_json] for a type of settings. *)
Class SerdeJson (T : Type) : Type := {
  json_to_string : T -> option string;
  json_from_str : string -> option T;
}.

Class SerdeJsonLaws {T} (J : SerdeJson T) : Prop := {
  json_roundtrip x s : json_to_string x = Some s -> json_from_str s = Some x;
}.

Definition get_setting_json {T} `{SerdeJson T} (a : AppDb) (key : string) : result StorageError (option T) :=
  match app_settings a !! key with
  | None => Ok None
  | Some value => x ← ok_or (json_from_str value) SettingJson; Ok (Some x)
  end.

Definition set_setting_json {T} `{SerdeJson T} (key : string) (value : T) (a : AppDb) : result StorageError unit * AppDb :=
  match json_to_string value with
  | None => (Err SettingJson, a)
  | Some value_json =>
      (Ok tt, Build_AppDb (app_chain a) (<[key := value_json]> (app_settings a)) (disclaimer_acceptances a) (app_user_operations a))
  end.

Definition APP_SETTING_BOOTNODE_CONFIG : string := "bootnode_config".

Record BootnodeSetting : Type := { bs_enabled : bool; bs_url : string }.

Definition get_bootnode_setting `{SerdeJson BootnodeSetting} (a : AppDb) : result StorageError BootnodeSetting :=
  setting ← get_setting_json a APP_SETTING_BOOTNODE_CONFIG;
  Ok (default {| bs_enabled := false; bs_url := EmptyString |} setting).

Definition set_bootnode_setting `{SerdeJson BootnodeSetting} (enabled : bool) (url : string) (a : AppDb) : result StorageError unit * AppDb :=
  set_setting_json APP_SETTING_BOOTNODE_CONFIG {| bs_enabled := enabled; bs_url := url |} a.

(** [now] is the clock of the database. *)
Definition insert_operation (now : Z) (address pool op_type amount direction : string) (counterparty tx_hash : option string) (a : AppDb)
    : result StorageError unit * AppDb :=
  let table := app_user_operations a in
  (Ok tt, Build_AppDb (app_chain a) (app_settings a) (disclaimer_acceptances a) (table ++
    [{| or_id := next_id (or_id <$> table); or_address := address; or_pool := pool; or_op_type := op_type; or_amount := amount;
        or_direction := direction; or_counterparty := counterparty; or_tx_hash := tx_hash; or_created_at := now |}])).

Record UserOperation : Type := {
  uo_op_type : string;
  uo_amount : string;
  uo_direction : string;
  uo_counterparty : option string;
  uo_tx_hash : option string;
  uo_created_at : Z;
}.

Definition operation_le (a b : OperationRow) : Prop :=
  or_created_at b < or_created_at a \/ or_created_at a = or_created_at b /\ or_id b <= or_id a.

#[export] Instance operation_le_dec : RelDecision operation_le.
Proof. intros a b. unfold operation_le. exact _. Defined.

Definition list_operations (a : AppDb) (address pool : string) (limit : Z) : list UserOperation :=
  (fun o => {| uo_op_type := or_op_type o; uo_amount := or_amount o; uo_direction := or_direction o; uo_counterparty := or_counterparty o;
               uo_tx_hash := or_tx_hash o; uo_created_at := or_created_at o |}) <$>
  take (Z.to_nat limit) (merge_sort operation_le (filter (fun o => or_address o = address /\ or_pool o = pool) (app_user_operations a))).
