(* ===== verification/Scan.v ===== *)
(** * Processing of stored events

    The scanning functions of [sdk/state/src/storage.rs], [sdk/state/src/processor.rs] and
    [sdk/pool/src/core/state.rs]: raw events are parsed into tables, commitments are
    scanned for the notes of the local accounts, and nullifiers are matched to notes. *)

From stdpp Require Import sorting.
From S2P Require Import Prelude Ints Amounts Poseidon2Tables Hashes ProverMonad Encryption Notes Flows ScVals Events Storage.

Record PoolCommitmentRow : Type := {
  cr_id : Z;
  cr_commitment : Field;
  cr_leaf_index : Z;
  cr_encrypted_output : bytes;
}.

Record DerivedUserNoteRow : Type := {
  dn_amount : NoteAmount;
  dn_blinding : Field;
  dn_expected_nullifier : Field;
}.

(** ** Quotas *)

Definition saturating_u32 (x : Z) : Z := Z.min (2 ^ 32 - 1) x.

(** The loop that hands out the remainder one by one, round robin. *)
Fixpoint spread (remainder : nat) (next_pool : nat) (quotas : list Z) : list Z :=
  match remainder with
  | O => quotas
  | S r => spread r ((next_pool + 1) mod length quotas) (alter (fun q => saturating_u32 (q + 1)) next_pool quotas)
  end.

Definition pool_quotas (total_limit : Z) (pools : nat) : list Z :=
  let n := Z.of_nat pools in
  let base_quota := if n =? 0 then 0 else if n <=? total_limit then total_limit / n else 1 in
  let assigned := saturating_u32 (base_quota * n) in
  spread (Z.to_nat (saturating_sub total_limit assigned)) 0 (replicate pools base_quota).

(** ** Scanning *)

Definition ACCOUNT_CHUNK : Z := 4.

(** [SELECT DISTINCT r.contract_id ... ORDER BY r.contract_id]. *)
Definition distinct_contracts (d : Db) (events : list string) : list Z := merge_sort Z.le (remove_dups (omap (contract_of d) events)).

Section Scan.

Variable derive : AccountKeys -> PoolCommitmentRow -> result StorageError (option DerivedUserNoteRow).

Fixpoint commitment_rows (rows : list CommitmentRow) : result StorageError (list PoolCommitmentRow) :=
  match rows with
  | [] => Ok []
  | c :: rest =>
      leaf_index ← col_u32 (pc_leaf_index c);
      others ← commitment_rows rest;
      Ok ({| cr_id := pc_id c; cr_commitment := pc_commitment c; cr_leaf_index := leaf_index; cr_encrypted_output := pc_encrypted_output c |} :: others)
  end.

(** The commitments of a pool after a mark, in the order of their identifiers. *)
Definition pending_commitments (d : Db) (pool last : Z) : list CommitmentRow :=
  order_by pc_id (filter (fun c => contract_of d (pc_event c) = Some pool /\ last < pc_id c) (pool_commitments d)).

(** [INSERT OR IGNORE INTO user_notes], with the three unique columns of the table. *)
Definition insert_user_note (n : UserNoteRow) : DM unit :=
  notes ← db_read user_notes;
  let clash m := (un_id m =? un_id n) || (un_commitment_id m =? un_commitment_id n)
    || (bool_decide (is_Some (un_nullifier_id n)) && bool_decide (un_nullifier_id m = un_nullifier_id n)) in
  if existsb clash notes then mret tt else db_write (set_notes (notes ++ [n])).

Definition scan_row (pool : Z) (account : AccountKeys) (row : PoolCommitmentRow) : DM unit :=
  derived ← db_try (derive account row);
  match derived with
  | None => mret tt
  | Some x =>
      d ← db_read id;
      let hit n := bool_decide (contract_of d (pn_event n) = Some pool) && (pn_nullifier n =? dn_expected_nullifier x) in
      insert_user_note {| un_id := cr_commitment row; un_account := ak_account account; un_commitment_id := cr_id row;
        un_nullifier_id := pn_id <$> find hit (pool_nullifiers d); un_expected_nullifier := dn_expected_nullifier x;
        un_blinding := dn_blinding x; un_amount := NoteAmount_to_string (dn_amount x) |}
  end.

(** One chunk of one account; the number of commitments scanned. *)
Definition scan_account (pool : Z) (account : AccountKeys) (pool_quota : Z) : DM Z :=
  d ← db_read id;
  match account_commitment_scan d !! (pool, ak_account account) with
  | None => db_fail NoRow
  | Some last_commitment_id =>
      let quota := Z.min pool_quota ACCOUNT_CHUNK in
      commitments ← db_try (commitment_rows (take (Z.to_nat quota) (pending_commitments d pool last_commitment_id)));
      if bool_decide (commitments = []) then mret 0
      else
        db_each (scan_row pool account) commitments;;
        let max_scanned_id := foldl (fun m r => Z.max m (cr_id r)) last_commitment_id commitments in
        db_write (fun d => set_scan (<[(pool, ak_account account) := max_scanned_id]> (account_commitment_scan d)) d);;
        mret (zlength commitments)
  end.

Fixpoint scan_cycle (pool : Z) (accounts : list AccountKeys) (pool_quota : Z) (progressed : bool) : DM (Z * bool) :=
  match accounts with
  | [] => mret (pool_quota, progressed)
  | a :: rest =>
      if pool_quota =? 0 then mret (pool_quota, progressed)
      else
        n ← scan_account pool a pool_quota;
        scan_cycle pool rest (saturating_sub pool_quota n) (progressed || (0 <? n))
  end.

(** The [while pool_quota > 0] loop: a cycle that continues uses up at least one unit of
    the quota, which bounds the number of cycles. *)
Fixpoint scan_loop (fuel : nat) (pool : Z) (accounts : list AccountKeys) (pool_quota : Z) (did : bool) : DM bool :=
  match fuel with
  | O => mret did
  | S f =>
      if pool_quota =? 0 then mret did
      else
        '(quota, progressed) ← scan_cycle pool accounts pool_quota false;
        if (progressed : bool) then scan_loop f pool accounts quota true else mret did
  end.

Definition init_scan (pool : Z) (account : AccountKeys) : DM unit :=
  db_write (fun d => match account_commitment_scan d !! (pool, ak_account account) with
                     | Some _ => d
                     | None => set_scan (<[(pool, ak_account account) := 0]> (account_commitment_scan d)) d
                     end).

Definition scan_pool (accounts : list AccountKeys) (pool pool_quota : Z) : DM bool :=
  if pool_quota =? 0 then mret false
  else transaction (db_each (init_scan pool) accounts;; scan_loop (Z.to_nat pool_quota) pool accounts pool_quota false).

Fixpoint scan_pools (accounts : list AccountKeys) (pools : list (Z * Z)) (did : bool) : DM bool :=
  match pools with
  | [] => mret did
  | (pool, quota) :: rest => p ← scan_pool accounts pool quota; scan_pools accounts rest (did || p)
  end.

Definition scan_commitments_for_user_notes (total_limit : Z) : DM bool :=
  d ← db_read id;
  let accounts := get_accounts_with_latest_keypairs d in
  if bool_decide (accounts = []) || (total_limit =? 0) then mret false
  else
    let pool_ids := distinct_contracts d (pc_event <$> pool_commitments d) in
    if bool_decide (pool_ids = []) then mret false
    else if 2 ^ 32 <=? zlength pool_ids then db_fail PoolCount
    else scan_pools accounts (zip pool_ids (pool_quotas total_limit (length pool_ids))) false.

(** ** Reconciliation of nullifiers *)

(** The rows an [UPDATE user_notes] for this nullifier selects, and what it sets. *)
Definition link_hit (d : Db) (pool : Z) (n : NullifierRow) (m : UserNoteRow) : bool :=
  bool_decide (un_nullifier_id m = None) && (un_expected_nullifier m =? pn_nullifier n)
  && match commitment_by_id d (un_commitment_id m) with
     | Some c => bool_decide (contract_of d (pc_event c) = Some pool)
     | None => false
     end.

Definition link_note (hit : UserNoteRow -> bool) (id : Z) (m : UserNoteRow) : UserNoteRow :=
  if hit m then {| un_id := un_id m; un_account := un_account m; un_commitment_id := un_commitment_id m; un_nullifier_id := Some id;
    un_expected_nullifier := un_expected_nullifier m; un_blinding := un_blinding m; un_amount := un_amount m |} else m.

(** The column is unique. *)
Definition link_nullifier (pool : Z) (n : NullifierRow) : DM unit :=
  d ← db_read id;
  let hit := link_hit d pool n in
  match filter (fun m => hit m = true) (user_notes d) with
  | [] => mret tt
  | [_] => if existsb (fun m => bool_decide (un_nullifier_id m = Some (pn_id n))) (user_notes d) then db_fail UniqueConstraint
           else db_write (set_notes (link_note hit (pn_id n) <$> user_notes d))
  | _ => db_fail UniqueConstraint
  end.

Definition pending_nullifiers (d : Db) (pool last : Z) : list NullifierRow :=
  order_by pn_id (filter (fun n => contract_of d (pn_event n) = Some pool /\ last < pn_id n) (pool_nullifiers d)).

Definition reconcile_pool (limit pool : Z) : DM bool :=
  transaction (
    db_write (fun d => match nullifier_scan_state d !! pool with
                       | Some _ => d
                       | None => set_nullifier_scan (<[pool := 0]> (nullifier_scan_state d)) d
                       end);;
    d ← db_read id;
    match nullifier_scan_state d !! pool with
    | None => db_fail NoRow
    | Some last_nullifier_id =>
        let nullifiers := take (Z.to_nat limit) (pending_nullifiers d pool last_nullifier_id) in
        db_each (link_nullifier pool) nullifiers;;
        let max_id := foldl (fun m r => Z.max m (pn_id r)) last_nullifier_id nullifiers in
        (if last_nullifier_id <? max_id
         then db_write (fun d => set_nullifier_scan (<[pool := max_id]> (nullifier_scan_state d)) d) else mret tt);;
        mret (negb (bool_decide (nullifiers = [])))
    end).

Fixpoint reconcile_pools (limit : Z) (pools : list Z) (did : bool) : DM bool :=
  match pools with
  | [] => mret did
  | pool :: rest => p ← reconcile_pool limit pool; reconcile_pools limit rest (did || p)
  end.

Definition reconcile_nullifiers (limit : Z) : DM bool :=
  if limit =? 0 then mret false
  else
    d ← db_read id;
    reconcile_pools limit (distinct_contracts d (pn_event <$> pool_nullifiers d)) false.

(** ** [processor.rs] *)

Definition process_notes (limit : Z) : DM bool :=
  scanned ← scan_commitments_for_user_notes limit;
  reconciled ← reconcile_nullifiers limit;
  mret (scanned || reconciled).

End Scan.

Section Processor.

Context `{XdrLib}.

(** The batches [process_events] collects, in the order it pushes to them. *)
Record Batches : Type := {
  b_nullifiers : list ClientNullifierEvent;
  b_commitments : list ClientCommitmentEvent;
  b_pubkeys : list ClientPublicKeyEvent;
  b_leaves : list ClientLeafAddedEvent;
}.

Definition push_event (b : Batches) (event : ContractEvent) : Batches :=
  match parse_event event with
  | Ok (Nullifier e) => Build_Batches (b_nullifiers b ++ [e]) (b_commitments b) (b_pubkeys b) (b_leaves b)
  | Ok (Commitment e) => Build_Batches (b_nullifiers b) (b_commitments b ++ [e]) (b_pubkeys b) (b_leaves b)
  | Ok (PublicKey e) => Build_Batches (b_nullifiers b) (b_commitments b) (b_pubkeys b ++ [e]) (b_leaves b)
  | Ok (LeafAdded e) => Build_Batches (b_nullifiers b) (b_commitments b) (b_pubkeys b) (b_leaves b ++ [e])
  | _ => b
  end.

(** [while let Some(event) = unprocessed.pop()]: from the last event to the first. *)
Definition collect_events (events : list ContractEvent) : Batches := foldl push_event (Build_Batches [] [] [] []) (rev events).

Definition process_events (limit : Z) : DM bool :=
  d ← db_read id;
  let unprocessed := get_unprocessed_events limit d in
  if bool_decide (unprocessed = []) then mret false
  else
    let b := collect_events unprocessed in
    save_nullifier_events_batch (b_nullifiers b);;
    save_commitment_events_batch (b_commitments b);;
    save_public_key_events_batch (b_pubkeys b);;
    save_leaf_added_events_batch (b_leaves b);;
    mret true.

(** ** [core/state.rs] *)

Definition PROCESS_FETCH_LIMIT : Z := 50.

Section LocalState.

Variable derive : AccountKeys -> PoolCommitmentRow -> result StorageError (option DerivedUserNoteRow).

Definition process_local_state_batch : DM bool :=
  did_raw ← process_events PROCESS_FETCH_LIMIT;
  did_notes ← process_notes derive PROCESS_FETCH_LIMIT;
  mret (did_raw || did_notes).

(** [while process_local_state_batch(storage)? {}]; [None] when the given number of rounds
    does not reach the end. *)
Fixpoint process_local_state (fuel : nat) (d : Db) : option (result StorageError unit * Db) :=
  match fuel with
  | O => None
  | S f =>
      match process_local_state_batch d with
      | (Err e, d') => Some (Err e, d')
      | (Ok true, d') => process_local_state f d'
      | (Ok false, d') => Some (Ok tt, d')
      end
  end.

End LocalState.

End Processor.

(** The callback of the pool client. *)
Definition derive_user_note `{Crypto} (account : AccountKeys) (row : PoolCommitmentRow) : result StorageError (option DerivedUserNoteRow) :=
  match try_decrypt_and_derive_user_note (ak_note_keypair account) (enc_private (ak_encryption_keypair account))
          (cr_commitment row) (cr_leaf_index row) (cr_encrypted_output row) 0%nat with
  | Some (Ok opt, _) =>
      Ok ((fun x => {| dn_amount := derived_amount x; dn_blinding := derived_blinding x; dn_expected_nullifier := expected_nullifier x |}) <$> opt)
  | Some (Err e, _) => Err (DeriveError e)
  | None => Err DerivePanic
  end.
