(* ===== verification/StorageFacts.v ===== *)
(** * Facts on the client's database

    Reasoning about statements and transactions, what every operation leaves unchanged,
    and the effect of the operations that parse raw events into tables. *)

From stdpp Require Import sorting.
From S2P Require Import Prelude Ints Amounts Poseidon2Tables Hashes ProverMonad Encryption Notes Flows ScVals Events Storage Scan.

(** ** Invariants of statements *)

Definition keeps {A} (I : Db -> Prop) (m : DM A) : Prop := forall d, I d -> I (m d).2.

Create HintDb db discriminated.

Lemma keeps_ret {A} I (a : A) : keeps I (mret a).
Proof. by intros d. Qed.
Lemma keeps_read {A} I (f : Db -> A) : keeps I (db_read f).
Proof. by intros d. Qed.
Lemma keeps_fail {A} I e : keeps I (db_fail (A := A) e).
Proof. by intros d. Qed.
Lemma keeps_try {A} I (r : result StorageError A) : keeps I (db_try r).
Proof. by intros d. Qed.

Lemma keeps_bind {A B} I (m : DM A) (k : A -> DM B) : keeps I m -> (forall a, keeps I (k a)) -> keeps I (m ≫= k).
Proof.
  intros Hm Hk d Hd. specialize (Hm d Hd). unfold mbind, dm_bind. destruct (m d) as [[a|e] d']; [by apply Hk | exact Hm].
Qed.

Lemma keeps_transaction {A} I (m : DM A) : keeps I m -> keeps I (transaction m).
Proof. intros Hm d Hd. specialize (Hm d Hd). unfold transaction. destruct (m d) as [[a|e] d']; [exact Hm | exact Hd]. Qed.

Lemma keeps_each {A} I (f : A -> DM unit) l : (forall x, x ∈ l -> keeps I (f x)) -> keeps I (db_each f l).
Proof.
  induction l as [|x l IH]; intros Hf; [apply keeps_ret |]. cbn [db_each].
  apply keeps_bind; [apply Hf, list_elem_of_here | intros _; apply IH; intros y Hy; by apply Hf, list_elem_of_further].
Qed.

(** After a read the continuation runs on the state that was read. *)
Lemma keeps_read_bind {A B} I (f : Db -> A) (k : A -> DM B) : (forall d, I d -> I (k (f d) d).2) -> keeps I (db_read f ≫= k).
Proof. intros Hk d Hd. exact (Hk d Hd). Qed.

#[export] Hint Resolve keeps_ret keeps_read keeps_fail keeps_try keeps_transaction : db.

(** ** What processing leaves alone *)

Section Unchanged.

Context {X : XdrLib}.
Variable derive : AccountKeys -> PoolCommitmentRow -> result StorageError (option DerivedUserNoteRow).

(** The parts of the database that hold what was ingested. *)
Definition ingested (d : Db) := (contracts d, raw_contract_events d, accounts d, keypairs d, indexing_metadata d).

(** The parts that hold what the parsed events say. *)
Definition parsed_tables (d : Db) := (ingested d, pool_nullifiers d, pool_commitments d, public_keys d, asp_membership_leaves d).

Lemma save_nullifier_ingested x e : keeps (fun d => ingested d = x) (save_nullifier e).
Proof.
  apply keeps_read_bind. intros d Hd. unfold id. cbn zeta. destruct (existsb _ _); [exact Hd |].
  destruct (existsb _ _); [exact Hd |]. destruct (raw_of _ _); exact Hd.
Qed.

Lemma save_commitment_ingested x e : keeps (fun d => ingested d = x) (save_commitment e).
Proof.
  apply keeps_read_bind. intros d Hd. unfold id. cbn zeta. destruct (existsb _ _); [exact Hd |].
  destruct (existsb _ _); [exact Hd |]. destruct (raw_of _ _); exact Hd.
Qed.

Lemma save_public_key_ingested x e : keeps (fun d => ingested d = x) (save_public_key e).
Proof.
  apply keeps_read_bind. intros d Hd. unfold id. cbn zeta. destruct (existsb _ _); [exact Hd |]. destruct (raw_of _ _); exact Hd.
Qed.

Lemma save_leaf_added_ingested x e : keeps (fun d => ingested d = x) (save_leaf_added e).
Proof.
  apply keeps_read_bind. intros d Hd. unfold id. cbn zeta. destruct (raw_of _ _); [| exact Hd].
  destruct (existsb _ _); [exact Hd |]. destruct (existsb _ _); exact Hd.
Qed.

(** Scanning and reconciliation write only notes and marks. *)
Lemma insert_user_note_tables x n : keeps (fun d => parsed_tables d = x) (insert_user_note n).
Proof. apply keeps_read_bind. intros d Hd. cbn zeta. destruct (existsb _ _); exact Hd. Qed.

Lemma scan_row_tables x pool account row : keeps (fun d => parsed_tables d = x) (scan_row derive pool account row).
Proof.
  apply keeps_bind; [apply keeps_try |]. intros [y|]; [| apply keeps_ret].
  apply keeps_bind; [apply keeps_read |]. intros d. apply insert_user_note_tables.
Qed.

Lemma scan_account_tables x pool account quota : keeps (fun d => parsed_tables d = x) (scan_account derive pool account quota).
Proof.
  apply keeps_bind; [apply keeps_read |]. intros d. destruct (_ !! _); [| apply keeps_fail].
  apply keeps_bind; [apply keeps_try |]. intros rows. destruct (bool_decide _); [apply keeps_ret |].
  apply keeps_bind; [apply keeps_each; intros row _; apply scan_row_tables |]. intros _.
  apply keeps_bind; [by intros d' Hd' | intros _; apply keeps_ret].
Qed.

Lemma scan_cycle_tables x pool accounts : forall quota p, keeps (fun d => parsed_tables d = x) (scan_cycle derive pool accounts quota p).
Proof.
  induction accounts as [|a rest IH]; intros quota p; cbn [scan_cycle]; [apply keeps_ret |].
  destruct (quota =? 0); [apply keeps_ret |]. apply keeps_bind; [apply scan_account_tables | intros n; apply IH].
Qed.

Lemma scan_loop_tables x pool accounts fuel : forall quota did, keeps (fun d => parsed_tables d = x) (scan_loop derive fuel pool accounts quota did).
Proof.
  induction fuel as [|f IH]; intros quota did; cbn [scan_loop]; [apply keeps_ret |].
  destruct (quota =? 0); [apply keeps_ret |]. apply keeps_bind; [apply scan_cycle_tables |].
  intros [q [|]]; [apply IH | apply keeps_ret].
Qed.

Lemma init_scan_tables x pool a : keeps (fun d => parsed_tables d = x) (init_scan pool a).
Proof. intros d Hd. unfold init_scan, db_write. simpl. destruct (_ !! _); exact Hd. Qed.

Lemma scan_pools_tables x accounts pools : forall did, keeps (fun d => parsed_tables d = x) (scan_pools derive accounts pools did).
Proof.
  induction pools as [|[pool quota] rest IH]; intros did; cbn [scan_pools]; [apply keeps_ret |].
  apply keeps_bind; [| intros p; apply IH]. unfold scan_pool. destruct (quota =? 0); [apply keeps_ret |].
  apply keeps_transaction, keeps_bind; [apply keeps_each; intros a _; apply init_scan_tables | intros _; apply scan_loop_tables].
Qed.

Lemma scan_tables x limit : keeps (fun d => parsed_tables d = x) (scan_commitments_for_user_notes derive limit).
Proof.
  apply keeps_bind; [apply keeps_read |]. intros d. cbv zeta. destruct (_ || _); [apply keeps_ret |].
  destruct (bool_decide _); [apply keeps_ret |]. destruct (_ <=? _); [apply keeps_fail | apply scan_pools_tables].
Qed.

Lemma link_nullifier_tables x pool n : keeps (fun d => parsed_tables d = x) (link_nullifier pool n).
Proof.
  apply keeps_read_bind. intros d Hd. unfold id. cbn zeta. destruct (filter _ _) as [|m [|]]; [exact Hd | | exact Hd].
  destruct (existsb _ _); exact Hd.
Qed.

Lemma reconcile_pool_tables x limit pool : keeps (fun d => parsed_tables d = x) (reconcile_pool limit pool).
Proof.
  apply keeps_transaction, keeps_bind; [intros d Hd; unfold db_write; simpl; destruct (_ !! _); exact Hd |]. intros _.
  apply keeps_bind; [apply keeps_read |]. intros d. destruct (_ !! _); [| apply keeps_fail].
  apply keeps_bind; [apply keeps_each; intros n _; apply link_nullifier_tables |]. intros _.
  apply keeps_bind; [destruct (_ <? _); [by intros d' Hd' | apply keeps_ret] | intros _; apply keeps_ret].
Qed.

Lemma reconcile_tables x limit : keeps (fun d => parsed_tables d = x) (reconcile_nullifiers limit).
Proof.
  unfold reconcile_nullifiers. destruct (limit =? 0); [apply keeps_ret |]. apply keeps_bind; [apply keeps_read |]. intros d.
  generalize (distinct_contracts d (pn_event <$> pool_nullifiers d)) as pools. intros pools. generalize false as did.
  induction pools as [|pool rest IH]; intros did; cbn [reconcile_pools]; [apply keeps_ret |].
  apply keeps_bind; [apply reconcile_pool_tables | intros p; apply IH].
Qed.

Lemma process_notes_tables x limit : keeps (fun d => parsed_tables d = x) (process_notes derive limit).
Proof.
  apply keeps_bind; [apply scan_tables |]. intros a. apply keeps_bind; [apply reconcile_tables |]. intros b. apply keeps_ret.
Qed.

End Unchanged.

(** ** Parsing keeps identifiers *)

Section Parsing.

Context {X : XdrLib}.

Lemma parse_event_metadata_id ev p : parse_event_metadata ev = Ok p -> pe_id p = ce_id ev.
Proof.
  unfold parse_event_metadata. destruct (ce_topics ev) as [|first rest]; [discriminate |].
  intros (ts & _ & (f & _ & (name & _ & (data & _ & (values & _ & [= <-])%bind_Ok)%bind_Ok)%bind_Ok)%bind_Ok)%bind_Ok. reflexivity.
Qed.

(** The identifier of a processed event. *)
Definition processed_id (e : ProcessedEvent) : string :=
  match e with
  | Nullifier e => cn_id e | Commitment e => cc_id e | PublicKey e => ck_id e | LeafAdded e => cl_id e
  | LeafInserted e => ci_id e | LeafUpdated e => cu_id e | LeafDeleted e => cd_id e
  end.

Lemma parse_event_id ev e : parse_event ev = Ok e -> processed_id e = ce_id ev.
Proof.
  unfold parse_event. intros (p & <-%parse_event_metadata_id & H)%bind_Ok. revert H.
  repeat (destruct (one_of _ _ _); [intros (x & Hx & [= <-])%bind_Ok; revert Hx;
    unfold parse_new_nullifier_event, parse_new_commitment_event, parse_public_key_event, parse_leaf_added, parse_leaf_inserted,
      parse_leaf_updated, parse_leaf_deleted; repeat (intros (? & _ & H)%bind_Ok; revert H); by intros [= <-] |]).
  discriminate.
Qed.

End Parsing.

(** ** Success *)

(** The statement returns a value, and the value and the new state satisfy [Q]. *)
Definition runs {A} (m : DM A) (d : Db) (Q : A -> Db -> Prop) : Prop := exists a d', m d = (Ok a, d') /\ Q a d'.

Lemma runs_bind {A B} (m : DM A) (k : A -> DM B) d Q R :
  runs m d Q -> (forall a d', Q a d' -> runs (k a) d' R) -> runs (m ≫= k) d R.
Proof. intros (a & d' & E & H) Hk. unfold runs, mbind, dm_bind. rewrite E. exact (Hk a d' H). Qed.

Lemma runs_ret {A} (a : A) d (Q : A -> Db -> Prop) : Q a d -> runs (mret a) d Q.
Proof. intros H. exists a, d. split; [reflexivity | exact H]. Qed.

Lemma runs_read {A} (f : Db -> A) d (Q : A -> Db -> Prop) : Q (f d) d -> runs (db_read f) d Q.
Proof. intros H. exists (f d), d. split; [reflexivity | exact H]. Qed.

Lemma runs_read_bind {A B} (f : Db -> A) (k : A -> DM B) d R : runs (k (f d)) d R -> runs (db_read f ≫= k) d R.
Proof. exact id. Qed.

Lemma runs_write_bind {B} f (k : unit -> DM B) d R : runs (k tt) (f d) R -> runs (db_write f ≫= k) d R.
Proof. exact id. Qed.

Lemma runs_try_bind {A B} (a : A) (k : A -> DM B) d R : runs (k a) d R -> runs (db_try (Ok a) ≫= k) d R.
Proof. exact id. Qed.

Lemma runs_write f d (Q : unit -> Db -> Prop) : Q tt (f d) -> runs (db_write f) d Q.
Proof. intros H. exists tt, (f d). split; [reflexivity | exact H]. Qed.

Lemma runs_transaction {A} (m : DM A) d Q : runs m d Q -> runs (transaction m) d Q.
Proof. intros (a & d' & E & H). exists a, d'. unfold transaction. rewrite E. split; [reflexivity | exact H]. Qed.

Lemma runs_mono {A} (m : DM A) d (Q R : A -> Db -> Prop) : runs m d Q -> (forall a d', Q a d' -> R a d') -> runs m d R.
Proof. intros (a & d' & E & H) HR. exists a, d'. split; [exact E | by apply HR]. Qed.

(** A loop that establishes [Inv] of the elements still to do. *)
Lemma runs_each {A} (f : A -> DM unit) (Inv : list A -> Db -> Prop) :
  (forall x l d, Inv (x :: l) d -> runs (f x) d (fun _ d' => Inv l d')) ->
  forall l d, Inv l d -> runs (db_each f l) d (fun _ d' => Inv [] d').
Proof.
  intros Hf. induction l as [|x l IH]; intros d Hd; cbn [db_each].
  - by apply runs_ret.
  - eapply runs_bind; [exact (Hf x l d Hd) |]. intros a d' Hd'. exact (IH d' Hd').
Qed.

(** Invariants of a statement that runs hold after it. *)
Lemma runs_keeps {A} (m : DM A) I d Q : keeps I m -> I d -> runs m d Q -> runs m d (fun a d' => Q a d' /\ I d').
Proof.
  intros Hk Hi (a & d' & E & H). exists a, d'. split; [exact E |]. split; [exact H |]. specialize (Hk d Hi). by rewrite E in Hk.
Qed.

(** ** Ordered rows *)

Section Ordering.

Context {A : Type} (key : A -> Z).

#[export] Instance by_key_trans : Transitive (by_key key).
Proof. intros a b c. unfold by_key. lia. Qed.

#[export] Instance by_key_total : Total (by_key key).
Proof. intros a b. unfold by_key. lia. Qed.

Lemma order_by_perm l : order_by key l ≡ₚ l.
Proof. apply merge_sort_Permutation. Qed.

Lemma elem_of_order_by x l : x ∈ order_by key l <-> x ∈ l.
Proof. by rewrite order_by_perm. Qed.

Lemma order_by_nil l : order_by key l = [] <-> l = [].
Proof.
  split; intros E.
  - apply Permutation_nil_r. rewrite <- E. symmetry. apply order_by_perm.
  - subst. reflexivity.
Qed.

Lemma order_by_sorted l : StronglySorted (by_key key) (order_by key l).
Proof. apply (StronglySorted_merge_sort (by_key key)). Qed.

(** A prefix of the ordered rows holds every row up to the keys it holds. *)
Lemma order_by_prefix l n x y :
  NoDup (key <$> l) -> x ∈ l -> y ∈ take n (order_by key l) -> key x <= key y -> x ∈ take n (order_by key l).
Proof.
  intros Hnd Hx Hy Hle. pose proof (order_by_sorted l) as Hs. rewrite <- (take_drop n (order_by key l)) in Hs.
  apply (elem_of_order_by x) in Hx. rewrite <- (take_drop n (order_by key l)) in Hx. apply elem_of_app in Hx as [?|Hx]; [assumption |].
  assert (key y <= key x) as Hge.
  { clear - Hs Hx Hy. induction (take n (order_by key l)) as [|z t IH]; [by apply not_elem_of_nil in Hy |].
    cbn in Hs. apply StronglySorted_inv in Hs as [Hs Hall]. apply elem_of_cons in Hy as [-> | Hy]; [| by apply IH].
    apply (proj1 (Forall_forall _ _) Hall x). apply elem_of_app. by right. }
  exfalso. rewrite <- (order_by_perm l), <- (take_drop n (order_by key l)), fmap_app in Hnd. apply NoDup_app in Hnd as (_ & Hd & _).
  apply (Hd (key y)); [by apply list_elem_of_fmap_2 |]. replace (key y) with (key x) by lia. by apply list_elem_of_fmap_2.
Qed.

End Ordering.

(** The rows after a mark: fewer when the mark advances. *)
Section Backlog.

Context {A : Type} (key : A -> Z) (P : A -> Prop) `{forall x, Decision (P x)}.

Definition backlog (last : Z) (l : list A) : list A := order_by key (filter (fun c => P c /\ last < key c) l).

Lemma backlog_split l last last' : last <= last' -> backlog last' l ≡ₚ filter (fun c => last' < key c) (filter (fun c => P c /\ last < key c) l).
Proof.
  intros Hle. unfold backlog. rewrite order_by_perm, list_filter_filter. apply Permutation_refl', list_filter_iff.
  intros x. split; [intros [? ?]; repeat split; [assumption.. | lia] | tauto].
Qed.

Lemma backlog_le l last last' : last <= last' -> (length (backlog last' l) <= length (backlog last l))%nat.
Proof. intros Hle. rewrite (backlog_split l last last' Hle). unfold backlog. rewrite order_by_perm. apply length_filter. Qed.

Lemma backlog_lt l last last' c : last <= last' -> c ∈ l -> P c -> last < key c <= last' -> (length (backlog last' l) < length (backlog last l))%nat.
Proof.
  intros Hle Hc Hp Hk. rewrite (backlog_split l last last' Hle). unfold backlog. rewrite order_by_perm.
  apply (length_filter_lt _ _ c); [| lia]. apply list_elem_of_filter. split; [split; [exact Hp | lia] | exact Hc].
Qed.

End Backlog.

Lemma foldl_max_ge {A} (key : A -> Z) l : forall m, let r := foldl (fun m c => Z.max m (key c)) m l in
  m <= r /\ (forall c, c ∈ l -> key c <= r) /\ (r = m \/ exists c, c ∈ l /\ r = key c).
Proof.
  induction l as [|c l IH]; intros m; cbn [foldl].
  - split; [lia |]. split; [intros c Hc; by apply not_elem_of_nil in Hc | by left].
  - destruct (IH (Z.max m (key c))) as (H1 & H2 & H3). split; [lia |]. split.
    + intros c' [-> | Hc']%elem_of_cons; [lia | by apply H2].
    + destruct H3 as [H3 | (c' & Hc' & H3)]; [| right; exists c'; split; [by apply list_elem_of_further | exact H3]].
      destruct (Z.max_spec m (key c)) as [[_ E]|[_ E]]; [right; exists c; split; [apply list_elem_of_here | congruence] | left; congruence].
Qed.

(** New identifiers are above the old ones. *)
Lemma next_id_gt ids x : x ∈ ids -> x < next_id ids.
Proof. unfold next_id. induction ids as [|y ids IH]; intros Hx; [by apply not_elem_of_nil in Hx |]. cbn [foldr]. apply elem_of_cons in Hx as [->|Hx]; [lia | specialize (IH Hx); lia]. Qed.

Lemma next_id_pos ids : 0 < next_id ids.
Proof. unfold next_id. induction ids as [|y ids IH]; cbn [foldr]; lia. Qed.
