(* ===== verification/SyncFacts.v ===== *)
(** * Raw events become rows

    When every stored raw event can be parsed and no two of them claim the same
    commitment, nullifier or leaf, a round of [process_events] succeeds, its rows are
    those of the events, and fewer events are left. *)

From stdpp Require Import sorting.
From S2P Require Import Prelude Ints Amounts Poseidon2Tables Hashes ProverMonad Encryption Notes Flows ScVals Events Storage Scan StorageFacts.

Section Sync.

Context {X : XdrLib}.

(** ** Events of a database *)

Definition event_at (d : Db) (r : RawEvent) (e : ProcessedEvent) : Prop :=
  r ∈ raw_contract_events d /\ parse_event (event_of d r) = Ok e.

(** The kinds of event [process_events] stores; an index is a [u32]. *)
Definition stored_kind (e : ProcessedEvent) : Prop :=
  match e with
  | Nullifier _ | PublicKey _ | LeafAdded _ => True
  | Commitment e => 0 <= cc_index e < 2 ^ 32
  | _ => False
  end.

Record storable (d : Db) : Prop := {
  st_count : zlength (raw_contract_events d) < 2 ^ 32;
  st_ids : NoDup (raw_id <$> raw_contract_events d);
  st_contracts : forall r, r ∈ raw_contract_events d -> is_Some (lookup_address (contracts d) (raw_contract r));
  st_kinds : forall r, r ∈ raw_contract_events d -> exists e, parse_event (event_of d r) = Ok e /\ stored_kind e;
  st_commitments : forall r1 r2 e1 e2, event_at d r1 (Commitment e1) -> event_at d r2 (Commitment e2) ->
    cc_commitment e1 = cc_commitment e2 -> raw_id r1 = raw_id r2;
  st_nullifiers : forall r1 r2 e1 e2, event_at d r1 (Nullifier e1) -> event_at d r2 (Nullifier e2) ->
    cn_nullifier e1 = cn_nullifier e2 -> raw_id r1 = raw_id r2;
  st_leaves : forall r1 r2 e1 e2, event_at d r1 (LeafAdded e1) -> event_at d r2 (LeafAdded e2) ->
    raw_contract r1 = raw_contract r2 -> cl_index e1 = cl_index e2 -> raw_id r1 = raw_id r2;
}.

(** Every row is the row of an event, and identifiers do not repeat. *)
Record tables_ok (d : Db) : Prop := {
  to_commitments : forall c, c ∈ pool_commitments d -> exists r e, event_at d r (Commitment e) /\ pc_event c = raw_id r /\
    pc_commitment c = cc_commitment e /\ pc_leaf_index c = cc_index e /\ pc_encrypted_output c = cc_encrypted_output e;
  to_nullifiers : forall n, n ∈ pool_nullifiers d -> exists r e, event_at d r (Nullifier e) /\ pn_event n = raw_id r /\
    pn_nullifier n = cn_nullifier e;
  to_public_keys : forall k, k ∈ public_keys d -> exists r e, event_at d r (PublicKey e) /\ pk_event k = raw_id r /\
    pk_owner k = ck_owner e /\ pk_encryption_key k = ck_encryption_key e /\ pk_note_key k = ck_note_key e;
  to_leaves : forall l, l ∈ asp_membership_leaves d -> exists r e, event_at d r (LeafAdded e) /\ lr_event l = raw_id r /\
    lr_contract l = raw_contract r /\ lr_index l = cl_index e /\ lr_leaf l = cl_leaf e /\ lr_root l = cl_root e;
  to_commitment_ids : NoDup (pc_id <$> pool_commitments d);
  to_nullifier_ids : NoDup (pn_id <$> pool_nullifiers d);
  to_commitment_events : NoDup (pc_event <$> pool_commitments d);
  to_nullifier_events : NoDup (pn_event <$> pool_nullifiers d);
}.

Lemma event_at_ingested d d' r e : ingested d = ingested d' -> event_at d r e -> event_at d' r e.
Proof. unfold ingested, event_at, event_of. intros [= Hc Hr _ _ _]. rewrite Hc, Hr. exact id. Qed.

Lemma storable_ingested d d' : ingested d = ingested d' -> storable d -> storable d'.
Proof.
  intros E H. assert (ingested d' = ingested d) as E' by (symmetry; exact E). pose proof E as [= Hc Hr _ _ _].
  split.
  - rewrite <- Hr. apply (st_count d H).
  - rewrite <- Hr. apply (st_ids d H).
  - rewrite <- Hr, <- Hc. apply (st_contracts d H).
  - unfold event_of. rewrite <- Hr, <- Hc. apply (st_kinds d H).
  - intros r1 r2 e1 e2 H1 H2. apply (st_commitments d H r1 r2 e1 e2); by apply (event_at_ingested d' d).
  - intros r1 r2 e1 e2 H1 H2. apply (st_nullifiers d H r1 r2 e1 e2); by apply (event_at_ingested d' d).
  - intros r1 r2 e1 e2 H1 H2. apply (st_leaves d H r1 r2 e1 e2); by apply (event_at_ingested d' d).
Qed.

Lemma find_unique {A B} (key : A -> B) `{EqDecision B} (l : list A) x :
  NoDup (key <$> l) -> x ∈ l -> find (fun y => bool_decide (key y = key x)) l = Some x.
Proof.
  induction l as [|y l IH]; intros Hnd Hx; [by apply not_elem_of_nil in Hx |]. cbn [find].
  apply NoDup_cons in Hnd as [Hy Hnd]. apply elem_of_cons in Hx as [-> | Hx]; [by rewrite bool_decide_true |].
  rewrite bool_decide_false; [by apply IH |]. intros E. apply Hy. cbn. rewrite E. by apply list_elem_of_fmap_2.
Qed.

Lemma fmap_nodup_eq {A B} (key : A -> B) (l : list A) x y : NoDup (key <$> l) -> x ∈ l -> y ∈ l -> key x = key y -> x = y.
Proof.
  induction l as [|z l IH]; intros Hnd Hx Hy E; [by apply not_elem_of_nil in Hx |].
  apply NoDup_cons in Hnd as [Hz Hnd]. apply elem_of_cons in Hx, Hy.
  destruct Hx as [->|Hx], Hy as [->|Hy]; [reflexivity | | | by apply IH].
  - exfalso. apply Hz. cbn. rewrite E. by apply list_elem_of_fmap_2.
  - exfalso. apply Hz. cbn. rewrite <- E. by apply list_elem_of_fmap_2.
Qed.

Lemma raw_of_elem d r : NoDup (raw_id <$> raw_contract_events d) -> r ∈ raw_contract_events d -> raw_of d (raw_id r) = Some r.
Proof. apply (find_unique raw_id). Qed.

Lemma event_at_same d r1 r2 e1 e2 : storable d -> event_at d r1 e1 -> event_at d r2 e2 -> raw_id r1 = raw_id r2 -> r1 = r2 /\ e1 = e2.
Proof.
  intros Hs [H1 P1] [H2 P2] E. assert (r1 = r2) as -> by exact (fmap_nodup_eq raw_id _ _ _ (st_ids d Hs) H1 H2 E).
  split; [reflexivity |]. rewrite P1 in P2. by injection P2.
Qed.

Lemma event_at_id d r e : event_at d r e -> processed_id e = raw_id r.
Proof. intros [_ H%parse_event_id]. exact H. Qed.

Lemma existsb_false {A} (f : A -> bool) l : existsb f l = false <-> forall x, x ∈ l -> f x = false.
Proof.
  split.
  - intros H x Hx%list_elem_of_In. destruct (f x) eqn:E; [| reflexivity].
    rewrite (proj2 (existsb_exists f l) (ex_intro _ x (conj Hx E))) in H. discriminate.
  - intros H. destruct (existsb f l) eqn:E; [| reflexivity]. apply existsb_exists in E as (x & Hx%list_elem_of_In & E).
    rewrite (H x Hx) in E. discriminate.
Qed.

Lemma nodup_snoc_id {A} (key : A -> Z) l x : NoDup (key <$> l) -> key x = next_id (key <$> l) -> NoDup (key <$> l ++ [x]).
Proof.
  intros Hnd E. rewrite fmap_app. apply NoDup_app. split; [exact Hnd |]. split; [| apply NoDup_singleton].
  intros k Hk Hin. apply list_elem_of_singleton in Hin. subst k. apply next_id_gt in Hk. lia.
Qed.

Lemma nodup_snoc {A B} (key : A -> B) l x : NoDup (key <$> l) -> key x ∉ key <$> l -> NoDup (key <$> l ++ [x]).
Proof.
  intros Hnd Hx. rewrite fmap_app. apply NoDup_app. split; [exact Hnd |]. split; [| apply NoDup_singleton].
  intros k Hk Hin. apply list_elem_of_singleton in Hin. subst k. exact (Hx Hk).
Qed.

(** ** One row *)

Lemma bool_decide_neq (a b : string) : a <> b -> bool_decide (a = b) = false.
Proof. apply bool_decide_false. Qed.

Lemma event_absent {A} (event : A -> string) (l : list A) id : id ∉ event <$> l -> existsb (fun x => bool_decide (event x = id)) l = false.
Proof. intros H. apply existsb_false. intros x Hx. apply bool_decide_neq. intros <-. apply H. by apply list_elem_of_fmap_2. Qed.

Lemma save_commitment_run d r e :
  storable d -> tables_ok d -> event_at d r (Commitment e) -> raw_id r ∉ pc_event <$> pool_commitments d ->
  exists row, save_commitment e d = (Ok tt, set_commitments (pool_commitments d ++ [row]) d) /\ pc_event row = raw_id r /\
    pc_id row = next_id (pc_id <$> pool_commitments d) /\ tables_ok (set_commitments (pool_commitments d ++ [row]) d).
Proof.
  intros Hs Ht He Hfresh. pose proof (event_at_id _ _ _ He) as Hid. cbn in Hid.
  unfold save_commitment, mbind, dm_bind, db_read, id. cbn zeta.
  rewrite (proj2 (existsb_false _ _)); cycle 1.
  { intros c Hc. apply Z.eqb_neq. intros E. destruct (to_commitments d Ht c Hc) as (r' & e' & He' & Hev & Hcm & _).
    apply Hfresh. rewrite (st_commitments d Hs r r' e e' He He' ltac:(congruence)), <- Hev. by apply list_elem_of_fmap_2. }
  rewrite Hid, (event_absent pc_event _ _ Hfresh), (raw_of_elem d r (st_ids d Hs) (proj1 He)).
  eexists. split; [reflexivity |]. split; [reflexivity |]. split; [reflexivity |]. split.
  - intros c Hc. cbn in Hc. apply elem_of_app in Hc as [Hc | ->%list_elem_of_singleton]; [exact (to_commitments d Ht c Hc) |].
    exists r, e. split; [exact He | by repeat split].
  - apply (to_nullifiers d Ht).
  - apply (to_public_keys d Ht).
  - apply (to_leaves d Ht).
  - by apply nodup_snoc_id; [apply (to_commitment_ids d Ht) |].
  - apply (to_nullifier_ids d Ht).
  - apply nodup_snoc; [apply (to_commitment_events d Ht) | exact Hfresh].
  - apply (to_nullifier_events d Ht).
Qed.

Lemma save_nullifier_run d r e :
  storable d -> tables_ok d -> event_at d r (Nullifier e) -> raw_id r ∉ pn_event <$> pool_nullifiers d ->
  exists row, save_nullifier e d = (Ok tt, set_nullifiers (pool_nullifiers d ++ [row]) d) /\ pn_event row = raw_id r /\
    pn_id row = next_id (pn_id <$> pool_nullifiers d) /\ tables_ok (set_nullifiers (pool_nullifiers d ++ [row]) d).
Proof.
  intros Hs Ht He Hfresh. pose proof (event_at_id _ _ _ He) as Hid. cbn in Hid.
  unfold save_nullifier, mbind, dm_bind, db_read, id. cbn zeta.
  rewrite (proj2 (existsb_false _ _)); cycle 1.
  { intros c Hc. apply Z.eqb_neq. intros E. destruct (to_nullifiers d Ht c Hc) as (r' & e' & He' & Hev & Hcm).
    apply Hfresh. rewrite (st_nullifiers d Hs r r' e e' He He' ltac:(congruence)), <- Hev. by apply list_elem_of_fmap_2. }
  rewrite Hid, (event_absent pn_event _ _ Hfresh), (raw_of_elem d r (st_ids d Hs) (proj1 He)).
  eexists. split; [reflexivity |]. split; [reflexivity |]. split; [reflexivity |]. split.
  - apply (to_commitments d Ht).
  - intros c Hc. cbn in Hc. apply elem_of_app in Hc as [Hc | ->%list_elem_of_singleton]; [exact (to_nullifiers d Ht c Hc) |].
    exists r, e. split; [exact He | by repeat split].
  - apply (to_public_keys d Ht).
  - apply (to_leaves d Ht).
  - apply (to_commitment_ids d Ht).
  - by apply nodup_snoc_id; [apply (to_nullifier_ids d Ht) |].
  - apply (to_commitment_events d Ht).
  - apply nodup_snoc; [apply (to_nullifier_events d Ht) | exact Hfresh].
Qed.

Lemma save_public_key_run d r e :
  storable d -> tables_ok d -> event_at d r (PublicKey e) -> raw_id r ∉ pk_event <$> public_keys d ->
  exists row, save_public_key e d = (Ok tt, set_public_keys (public_keys d ++ [row]) d) /\ pk_event row = raw_id r /\
    tables_ok (set_public_keys (public_keys d ++ [row]) d).
Proof.
  intros Hs Ht He Hfresh. pose proof (event_at_id _ _ _ He) as Hid. cbn in Hid.
  unfold save_public_key, mbind, dm_bind, db_read, id. cbn zeta.
  rewrite Hid, (event_absent pk_event _ _ Hfresh), (raw_of_elem d r (st_ids d Hs) (proj1 He)).
  eexists. split; [reflexivity |]. split; [reflexivity |]. destruct Ht as [T1 T2 T3 T4 T5 T6 T7 T8]. split; try assumption.
  intros c Hc. cbn in Hc. apply elem_of_app in Hc as [Hc | ->%list_elem_of_singleton]; [exact (T3 c Hc) |].
  exists r, e. split; [exact He | by repeat split].
Qed.

Lemma save_leaf_added_run d r e :
  storable d -> tables_ok d -> event_at d r (LeafAdded e) -> raw_id r ∉ lr_event <$> asp_membership_leaves d ->
  exists row, save_leaf_added e d = (Ok tt, set_leaves (asp_membership_leaves d ++ [row]) d) /\ lr_event row = raw_id r /\
    tables_ok (set_leaves (asp_membership_leaves d ++ [row]) d).
Proof.
  intros Hs Ht He Hfresh. pose proof (event_at_id _ _ _ He) as Hid. cbn in Hid.
  unfold save_leaf_added, mbind, dm_bind, db_read, id. cbn zeta. rewrite Hid, (raw_of_elem d r (st_ids d Hs) (proj1 He)).
  rewrite (proj2 (existsb_false _ _)); cycle 1.
  { intros c Hc. apply andb_false_iff. destruct (Z.eqb_spec (lr_contract c) (raw_contract r)) as [E1|]; [| by left].
    right. apply Z.eqb_neq. intros E2. destruct (to_leaves d Ht c Hc) as (r' & e' & He' & Hev & Hco & Hix & _).
    apply Hfresh. rewrite (st_leaves d Hs r r' e e' He He' ltac:(congruence) ltac:(congruence)), <- Hev. by apply list_elem_of_fmap_2. }
  rewrite (event_absent lr_event _ _ Hfresh).
  eexists. split; [reflexivity |]. split; [reflexivity |]. destruct Ht as [T1 T2 T3 T4 T5 T6 T7 T8]. split; try assumption.
  intros c Hc. cbn in Hc. apply elem_of_app in Hc as [Hc | ->%list_elem_of_singleton]; [exact (T4 c Hc) |].
  exists r, e. split; [exact He | by repeat split].
Qed.


(** ** One batch *)

Section Batch.

Context {E Row : Type}.
Variables (save : E -> DM unit) (wrap : E -> ProcessedEvent) (table : Db -> list Row) (set : list Row -> Db -> Db) (event : Row -> string)
  (above : Row -> list Row -> Prop).

Hypothesis table_set : forall t d, table (set t d) = t.
Hypothesis set_set : forall t t' d, set t (set t' d) = set t d.
Hypothesis set_id : forall d, set (table d) d = d.
Hypothesis set_ingested : forall t d, ingested (set t d) = ingested d.
Hypothesis above_app : forall row t t', above row (t ++ t') -> above row t.
Hypothesis save_run : forall d r e,
  storable d -> tables_ok d -> event_at d r (wrap e) -> raw_id r ∉ event <$> table d ->
  exists row, save e d = (Ok tt, set (table d ++ [row]) d) /\ event row = raw_id r /\ above row (table d) /\ tables_ok (set (table d ++ [row]) d).

Definition batch_ready (es : list E) (d : Db) : Prop :=
  (forall e, e ∈ es -> exists r, event_at d r (wrap e) /\ raw_id r ∉ event <$> table d) /\ NoDup ((fun e => processed_id (wrap e)) <$> es).

Definition batch_done (d0 : Db) (done : list string) (d : Db) : Prop :=
  exists rows, d = set (table d0 ++ rows) d0 /\ event <$> rows = done /\ (forall row, row ∈ rows -> above row (table d0)) /\ tables_ok d.

Lemma save_batch_run d es : storable d -> tables_ok d -> batch_ready es d ->
  runs (transaction (db_each save es)) d (fun _ d' => batch_done d ((fun e => processed_id (wrap e)) <$> es) d').
Proof.
  intros Hs Ht [Hready Hnd]. apply runs_transaction.
  set (ids := fun e => processed_id (wrap e)).
  pose (Inv := fun todo d' => exists before, es = before ++ todo /\ batch_done d (ids <$> before) d').
  assert (Inv [] = fun d' => exists before, es = before ++ [] /\ batch_done d (ids <$> before) d') as E0 by reflexivity.
  eapply runs_mono; [apply (runs_each save Inv) |].
  - intros e todo d' (before & Hes & rows & Hd' & Hev & Hab & Ht').
    assert (e ∈ es) as He by (rewrite Hes; apply elem_of_app; right; apply list_elem_of_here).
    destruct (Hready e He) as (r & Hat & Hfresh). pose proof (event_at_id _ _ _ Hat) as Hid.
    assert (ingested d = ingested d') as Hing by (by rewrite Hd', set_ingested).
    destruct (save_run d' r e) as (row & Hrun & Hrow & Hrab & Htok).
    + by apply (storable_ingested d).
    + exact Ht'.
    + by apply (event_at_ingested d).
    + rewrite Hd', table_set, fmap_app. intros [Hin|Hin]%elem_of_app; [exact (Hfresh Hin) |].
      rewrite Hev in Hin. rewrite Hes, fmap_app in Hnd. apply NoDup_app in Hnd as (_ & Hdis & _). apply (Hdis _ Hin).
      rewrite <- Hid. cbn. apply list_elem_of_here.
    + exists tt, (set (table d' ++ [row]) d'). split; [exact Hrun |]. exists (before ++ [e]). split; [by rewrite <- app_assoc |].
      exists (rows ++ [row]). split; [by rewrite Hd', table_set, set_set, app_assoc |]. split; [| split; [| exact Htok]].
      * rewrite !fmap_app, Hev. cbn. by rewrite Hrow, <- Hid.
      * intros x [Hx | ->%list_elem_of_singleton]%elem_of_app; [by apply Hab |]. rewrite Hd', table_set in Hrab. exact (above_app _ _ _ Hrab).
  - exists []. split; [reflexivity |]. exists []. split; [by rewrite app_nil_r, set_id |]. split; [reflexivity |].
    split; [| exact Ht]. intros row Hrow. by apply not_elem_of_nil in Hrow.
  - intros a d' (before & Hes & Hdone). rewrite app_nil_r in Hes. by subst before.
Qed.

End Batch.

Definition id_above {A} (key : A -> Z) (row : A) (t : list A) : Prop := 0 < key row /\ forall x, x ∈ t -> key x < key row.

Lemma id_above_app {A} (key : A -> Z) row t t' : id_above key row (t ++ t') -> id_above key row t.
Proof. intros [Hp H]. split; [exact Hp |]. intros x Hx. apply H. apply elem_of_app. by left. Qed.

Lemma id_above_next {A} (key : A -> Z) row t : key row = next_id (key <$> t) -> id_above key row t.
Proof. intros E. unfold id_above. rewrite E. split; [apply next_id_pos |]. intros x Hx. apply next_id_gt. by apply list_elem_of_fmap_2. Qed.

Definition commitments_ready := batch_ready Commitment pool_commitments pc_event.
Definition commitments_done := batch_done pool_commitments set_commitments pc_event (id_above pc_id).
Definition nullifiers_ready := batch_ready Nullifier pool_nullifiers pn_event.
Definition nullifiers_done := batch_done pool_nullifiers set_nullifiers pn_event (id_above pn_id).
Definition pubkeys_ready := batch_ready PublicKey public_keys pk_event.
Definition pubkeys_done := batch_done public_keys set_public_keys pk_event (fun _ _ => True).
Definition leaves_ready := batch_ready LeafAdded asp_membership_leaves lr_event.
Definition leaves_done := batch_done asp_membership_leaves set_leaves lr_event (fun _ _ => True).

Lemma save_commitments_run d es : storable d -> tables_ok d -> commitments_ready es d ->
  runs (save_commitment_events_batch es) d (fun _ d' => commitments_done d (cc_id <$> es) d').
Proof.
  apply (save_batch_run save_commitment Commitment); try reflexivity; [by intros [] | apply id_above_app |].
  intros d0 r e Hs Ht He Hf. destruct (save_commitment_run d0 r e Hs Ht He Hf) as (row & H1 & H2 & H3 & H4).
  exists row. split; [exact H1 |]. split; [exact H2 |]. split; [by apply id_above_next | exact H4].
Qed.

Lemma save_nullifiers_run d es : storable d -> tables_ok d -> nullifiers_ready es d ->
  runs (save_nullifier_events_batch es) d (fun _ d' => nullifiers_done d (cn_id <$> es) d').
Proof.
  apply (save_batch_run save_nullifier Nullifier); try reflexivity; [by intros [] | apply id_above_app |].
  intros d0 r e Hs Ht He Hf. destruct (save_nullifier_run d0 r e Hs Ht He Hf) as (row & H1 & H2 & H3 & H4).
  exists row. split; [exact H1 |]. split; [exact H2 |]. split; [by apply id_above_next | exact H4].
Qed.

Lemma save_pubkeys_run d es : storable d -> tables_ok d -> pubkeys_ready es d ->
  runs (save_public_key_events_batch es) d (fun _ d' => pubkeys_done d (ck_id <$> es) d').
Proof.
  apply (save_batch_run save_public_key PublicKey); try reflexivity; [by intros [] |].
  intros d0 r e Hs Ht He Hf. destruct (save_public_key_run d0 r e Hs Ht He Hf) as (row & H1 & H2 & H3).
  exists row. exact (conj H1 (conj H2 (conj I H3))).
Qed.

Lemma save_leaves_run d es : storable d -> tables_ok d -> leaves_ready es d ->
  runs (save_leaf_added_events_batch es) d (fun _ d' => leaves_done d (cl_id <$> es) d').
Proof.
  apply (save_batch_run save_leaf_added LeafAdded); try reflexivity; [by intros [] |].
  intros d0 r e Hs Ht He Hf. destruct (save_leaf_added_run d0 r e Hs Ht He Hf) as (row & H1 & H2 & H3).
  exists row. exact (conj H1 (conj H2 (conj I H3))).
Qed.


(** ** The batches of a round *)

Definition as_nullifier (ev : ContractEvent) : option ClientNullifierEvent := match parse_event ev with Ok (Nullifier e) => Some e | _ => None end.
Definition as_commitment (ev : ContractEvent) : option ClientCommitmentEvent := match parse_event ev with Ok (Commitment e) => Some e | _ => None end.
Definition as_public_key (ev : ContractEvent) : option ClientPublicKeyEvent := match parse_event ev with Ok (PublicKey e) => Some e | _ => None end.
Definition as_leaf (ev : ContractEvent) : option ClientLeafAddedEvent := match parse_event ev with Ok (LeafAdded e) => Some e | _ => None end.

Lemma collect_events_spec evs :
  collect_events evs = Build_Batches (omap as_nullifier (rev evs)) (omap as_commitment (rev evs)) (omap as_public_key (rev evs)) (omap as_leaf (rev evs)).
Proof.
  unfold collect_events.
  assert (forall l b, foldl push_event b l =
    Build_Batches (b_nullifiers b ++ omap as_nullifier l) (b_commitments b ++ omap as_commitment l)
      (b_pubkeys b ++ omap as_public_key l) (b_leaves b ++ omap as_leaf l)) as H; [| apply (H (rev evs) (Build_Batches [] [] [] []))].
  induction l as [|ev l IH]; intros b; cbn [foldl omap list_omap].
  - rewrite !app_nil_r. by destruct b.
  - rewrite IH. unfold push_event, as_nullifier, as_commitment, as_public_key, as_leaf.
    destruct (parse_event ev) as [[]|]; cbn [b_nullifiers b_commitments b_pubkeys b_leaves]; by rewrite <- ?app_assoc.
Qed.

Lemma omap_nodup {A B C} (f : A -> option B) (g : B -> C) (h : A -> C) l :
  (forall x y, f x = Some y -> g y = h x) -> NoDup (h <$> l) -> NoDup (g <$> omap f l).
Proof.
  intros Hf. induction l as [|x l IH]; intros Hnd; [constructor |]. apply NoDup_cons in Hnd as [Hx Hnd]. cbn.
  destruct (f x) as [y|] eqn:E; [| by apply IH]. apply NoDup_cons. split; [| by apply IH].
  intros (y' & Hy' & (z & Hz & Hzy)%list_elem_of_omap)%list_elem_of_fmap. apply Hx. rewrite <- (Hf x y E), Hy', (Hf z y' Hzy).
  by apply list_elem_of_fmap_2.
Qed.

Lemma fmap_nodup_filter {A B} (key : A -> B) (P : A -> Prop) `{forall x, Decision (P x)} l : NoDup (key <$> l) -> NoDup (key <$> filter P l).
Proof.
  induction l as [|x l IH]; intros Hnd; [constructor |]. apply NoDup_cons in Hnd as [Hx Hnd]. rewrite filter_cons.
  case_decide; [| by apply IH]. apply NoDup_cons. split; [| by apply IH].
  intros (y & Hy & [_ Hin]%list_elem_of_filter)%list_elem_of_fmap. apply Hx. cbn. rewrite Hy. by apply list_elem_of_fmap_2.
Qed.

Lemma batch_events limit d : storable d ->
  NoDup (ce_id <$> rev (get_unprocessed_events limit d)) /\
  forall ev, ev ∈ rev (get_unprocessed_events limit d) -> exists r, r ∈ unprocessed d /\ ev = event_of d r.
Proof.
  intros Hs. split.
  - rewrite <- Permutation_rev. unfold get_unprocessed_events. rewrite <- list_fmap_compose.
    change (NoDup ((fun r => raw_id r) <$> take (Z.to_nat limit) (merge_sort raw_le (unprocessed d)))).
    rewrite fmap_take. eapply sublist_NoDup; [| apply sublist_take]. rewrite merge_sort_Permutation.
    apply fmap_nodup_filter. exact (st_ids d Hs).
  - intros ev Hev. rewrite <- Permutation_rev in Hev. apply list_elem_of_fmap in Hev as (r & -> & Hr).
    exists r. split; [| reflexivity]. apply elem_of_take in Hr as (i & Hi%list_elem_of_lookup_2 & _). by rewrite merge_sort_Permutation in Hi.
Qed.


(** ** A round of [process_events] *)

Lemma is_processed_spec d id :
  is_processed d id = true <->
  id ∈ pc_event <$> pool_commitments d \/ id ∈ pk_event <$> public_keys d \/ id ∈ lr_event <$> asp_membership_leaves d \/
  id ∈ pn_event <$> pool_nullifiers d.
Proof.
  assert (forall A (ev : A -> string) l, existsb (fun x => bool_decide (ev x = id)) l = true <-> id ∈ ev <$> l) as H.
  { intros A ev l. rewrite existsb_exists, list_elem_of_fmap. split.
    - intros (x & Hx%list_elem_of_In & <-%bool_decide_eq_true). by exists x.
    - intros (x & -> & Hx%list_elem_of_In). exists x. split; [exact Hx | by apply bool_decide_eq_true]. }
  unfold is_processed. rewrite !orb_true_iff, !H. tauto.
Qed.

(** What a round does to the database. *)
Record events_processed (d d' : Db) : Prop := {
  ep_ingested : ingested d' = ingested d;
  ep_tables : tables_ok d';
  ep_commitments : exists rows, pool_commitments d' = pool_commitments d ++ rows /\ forall c, c ∈ rows -> id_above pc_id c (pool_commitments d);
  ep_nullifiers : exists rows, pool_nullifiers d' = pool_nullifiers d ++ rows /\ forall c, c ∈ rows -> id_above pn_id c (pool_nullifiers d);
  ep_notes : user_notes d' = user_notes d;
  ep_scan : account_commitment_scan d' = account_commitment_scan d;
  ep_nullifier_scan : nullifier_scan_state d' = nullifier_scan_state d;
  ep_monotone : forall id, is_processed d id = true -> is_processed d' id = true;
}.

Lemma ready_of {E Row} (wrap : E -> ProcessedEvent) (as_e : ContractEvent -> option E) (table : Db -> list Row) (event : Row -> string) limit d d1 :
  (forall ev e, as_e ev = Some e <-> parse_event ev = Ok (wrap e)) ->
  (forall d id, id ∈ event <$> table d -> is_processed d id = true) ->
  storable d -> ingested d1 = ingested d -> table d1 = table d ->
  batch_ready wrap table event (omap as_e (rev (get_unprocessed_events limit d))) d1.
Proof.
  intros Has Hpr Hs Hing Htab. destruct (batch_events limit d Hs) as [Hnd Hev]. split.
  - intros e (ev & Hin & He%Has)%list_elem_of_omap. destruct (Hev ev Hin) as (r & [[Hun _] Hr]%list_elem_of_filter & ->).
    exists r. split; [apply (event_at_ingested d); [by symmetry | by split] |]. rewrite Htab. intros Hp%Hpr. by rewrite Hp in Hun.
  - apply (omap_nodup as_e _ ce_id); [| exact Hnd]. intros ev e He%Has. by apply parse_event_id.
Qed.

Lemma as_spec_nullifier ev e : as_nullifier ev = Some e <-> parse_event ev = Ok (Nullifier e).
Proof. unfold as_nullifier. destruct (parse_event ev) as [[]|]; split; congruence. Qed.
Lemma as_spec_commitment ev e : as_commitment ev = Some e <-> parse_event ev = Ok (Commitment e).
Proof. unfold as_commitment. destruct (parse_event ev) as [[]|]; split; congruence. Qed.
Lemma as_spec_public_key ev e : as_public_key ev = Some e <-> parse_event ev = Ok (PublicKey e).
Proof. unfold as_public_key. destruct (parse_event ev) as [[]|]; split; congruence. Qed.
Lemma as_spec_leaf ev e : as_leaf ev = Some e <-> parse_event ev = Ok (LeafAdded e).
Proof. unfold as_leaf. destruct (parse_event ev) as [[]|]; split; congruence. Qed.

(** The four batches one after the other. *)
Lemma process_events_saves limit d :
  storable d -> tables_ok d -> get_unprocessed_events limit d <> [] ->
  runs (process_events limit) d (fun did d' => did = true /\ events_processed d d' /\
    forall ev, ev ∈ get_unprocessed_events limit d -> is_processed d' (ce_id ev) = true).
Proof.
  intros Hs Ht Hne. unfold process_events. apply runs_read_bind. unfold id. cbv zeta.
  rewrite bool_decide_false by exact Hne. rewrite collect_events_spec. cbn [b_nullifiers b_commitments b_pubkeys b_leaves].
  set (evs := rev (get_unprocessed_events limit d)).
  eapply runs_bind; [apply save_nullifiers_run; [exact Hs | exact Ht |] |].
  { apply (ready_of Nullifier as_nullifier); [apply as_spec_nullifier | | exact Hs | reflexivity | reflexivity].
    intros d0 i H. apply is_processed_spec. tauto. }
  intros a1 d1 (ns & -> & Hns & Hnab & Ht1). set (d1 := set_nullifiers _ d) in *.
  eapply runs_bind; [apply save_commitments_run; [by apply (storable_ingested d) | exact Ht1 |] |].
  { apply (ready_of Commitment as_commitment); [apply as_spec_commitment | | exact Hs | reflexivity | reflexivity].
    intros d0 i H. apply is_processed_spec. tauto. }
  intros a2 d2 (cs & -> & Hcs & Hcab & Ht2). set (d2 := set_commitments _ d1) in *.
  eapply runs_bind; [apply save_pubkeys_run; [by apply (storable_ingested d) | exact Ht2 |] |].
  { apply (ready_of PublicKey as_public_key); [apply as_spec_public_key | | exact Hs | reflexivity | reflexivity].
    intros d0 i H. apply is_processed_spec. tauto. }
  intros a3 d3 (ks & -> & Hks & _ & Ht3). set (d3 := set_public_keys _ d2) in *.
  eapply runs_bind; [apply save_leaves_run; [by apply (storable_ingested d) | exact Ht3 |] |].
  { apply (ready_of LeafAdded as_leaf); [apply as_spec_leaf | | exact Hs | reflexivity | reflexivity].
    intros d0 i H. apply is_processed_spec. tauto. }
  intros a4 d4 (ls & -> & Hls & _ & Ht4). apply runs_ret. split; [reflexivity |]. split.
  - split; try reflexivity; [exact Ht4 | by exists cs | by exists ns |].
    intros i. rewrite !is_processed_spec. cbn. rewrite !fmap_app, !elem_of_app. tauto.
  - intros ev Hev. destruct (batch_events limit d Hs) as [_ Hraw]. assert (ev ∈ evs) as Hin by (unfold evs; by rewrite <- Permutation_rev).
    destruct (Hraw ev Hin) as (r & Hr & Eev). apply list_elem_of_filter in Hr as [_ Hr].
    destruct (st_kinds d Hs r Hr) as (e & Hp & Hk). rewrite <- Eev in Hp. rewrite <- (parse_event_id ev e Hp).
    apply is_processed_spec. cbn. rewrite !fmap_app, !elem_of_app, Hcs, Hks, Hls, Hns.
    destruct e as [e|e|e|e|e|e|e]; cbn [processed_id]; try destruct Hk.
    + right. right. right. right. apply list_elem_of_fmap_2, list_elem_of_omap. exists ev. split; [exact Hin | by apply as_spec_nullifier].
    + left. right. apply list_elem_of_fmap_2, list_elem_of_omap. exists ev. split; [exact Hin | by apply as_spec_commitment].
    + right. left. right. apply list_elem_of_fmap_2, list_elem_of_omap. exists ev. split; [exact Hin | by apply as_spec_public_key].
    + right. right. left. right. apply list_elem_of_fmap_2, list_elem_of_omap. exists ev. split; [exact Hin | by apply as_spec_leaf].
Qed.

Lemma unprocessed_shrinks d d' r :
  events_processed d d' -> r ∈ unprocessed d -> is_processed d' (raw_id r) = true -> (length (unprocessed d') < length (unprocessed d))%nat.
Proof.
  intros He Hr Hp. pose proof (ep_ingested _ _ He) as [= Hc Hraw _ _ _].
  assert (unprocessed d' = filter (fun r => is_processed d' (raw_id r) = false) (unprocessed d)) as ->.
  { unfold unprocessed. rewrite Hc, Hraw, list_filter_filter. apply list_filter_iff. intros x. split; [| tauto].
    intros [Hx Ha]. split; [exact Hx |]. split; [| exact Ha]. destruct (is_processed d (raw_id x)) eqn:E; [| reflexivity].
    apply (ep_monotone _ _ He) in E. congruence. }
  apply (length_filter_lt _ _ r Hr). by rewrite Hp.
Qed.

(** A round with events left succeeds and leaves fewer; without events it does nothing. *)
Lemma process_events_run limit d :
  0 < limit -> storable d -> tables_ok d ->
  (unprocessed d = [] /\ process_events limit d = (Ok false, d)) \/
  (runs (process_events limit) d (fun did d' => did = true /\ events_processed d d' /\ (length (unprocessed d') < length (unprocessed d))%nat)).
Proof.
  intros Hl Hs Ht. destruct (merge_sort raw_le (unprocessed d)) as [|r rest] eqn:E.
  - left. assert (unprocessed d = []) as Hu by (apply Permutation_nil_r; rewrite <- E; symmetry; apply merge_sort_Permutation).
    split; [exact Hu |]. unfold process_events, mbind, dm_bind, db_read, id, get_unprocessed_events. rewrite E, take_nil. reflexivity.
  - right. assert (event_of d r ∈ get_unprocessed_events limit d) as Hin.
    { unfold get_unprocessed_events. rewrite E. destruct (Z.to_nat limit) eqn:En; [lia |]. apply list_elem_of_here. }
    eapply runs_mono; [apply process_events_saves; [exact Hs | exact Ht |] |].
    + intros Hnil. rewrite Hnil in Hin. by apply not_elem_of_nil in Hin.
    + intros did d' (Hd & He & Hp). split; [exact Hd |]. split; [exact He |]. apply (unprocessed_shrinks d d' r He).
      * rewrite <- (merge_sort_Permutation raw_le (unprocessed d)), E. apply list_elem_of_here.
      * exact (Hp _ Hin).
Qed.

End Sync.
