(* ===== verification/WalletFacts.v ===== *)
(** * Scanning finds the notes

    The invariant that ties the notes and the scan marks to the stored commitments and
    nullifiers, and that scanning and reconciliation keep it and make progress. *)

From stdpp Require Import sorting.
From S2P Require Import Prelude Ints Amounts Poseidon2Tables Hashes ProverMonad Encryption Notes Flows ScVals Events Storage Scan StorageFacts SyncFacts.

Section Wallet.

Context {X : XdrLib}.
Variable derive : AccountKeys -> PoolCommitmentRow -> result StorageError (option DerivedUserNoteRow).

(** ** The invariant *)

Definition row_of (c : CommitmentRow) : PoolCommitmentRow :=
  {| cr_id := pc_id c; cr_commitment := pc_commitment c; cr_leaf_index := pc_leaf_index c; cr_encrypted_output := pc_encrypted_output c |}.

Definition row_at (id : Z) (e : ClientCommitmentEvent) : PoolCommitmentRow :=
  {| cr_id := id; cr_commitment := cc_commitment e; cr_leaf_index := cc_index e; cr_encrypted_output := cc_encrypted_output e |}.

Definition is_account (d : Db) (a : AccountKeys) : Prop := a ∈ get_accounts_with_latest_keypairs d.

(** The callback answers for every commitment event, and two different commitments do not
    have the same nullifier. *)
Record derive_ok (d : Db) : Prop := {
  do_total : forall a r e i, is_account d a -> event_at d r (Commitment e) -> exists o, derive a (row_at i e) = Ok o;
  do_distinct : forall a1 a2 r1 r2 e1 e2 i1 i2 x1 x2, is_account d a1 -> is_account d a2 ->
    event_at d r1 (Commitment e1) -> event_at d r2 (Commitment e2) ->
    derive a1 (row_at i1 e1) = Ok (Some x1) -> derive a2 (row_at i2 e2) = Ok (Some x2) ->
    dn_expected_nullifier x1 = dn_expected_nullifier x2 -> cc_commitment e1 = cc_commitment e2;
}.

Definition in_contract (d : Db) (event : string) (pool : Z) : Prop := contract_of d event = Some pool.

(** A note is what an account derives from a stored commitment, and it is linked only to
    its own nullifier, published by the same pool. *)
Definition note_ok (d : Db) (n : UserNoteRow) : Prop :=
  exists c a x, c ∈ pool_commitments d /\ is_account d a /\ derive a (row_of c) = Ok (Some x) /\
    un_commitment_id n = pc_id c /\ un_id n = pc_commitment c /\ un_account n = ak_account a /\
    un_expected_nullifier n = dn_expected_nullifier x /\ un_blinding n = dn_blinding x /\ un_amount n = NoteAmount_to_string (dn_amount x) /\
    forall k, un_nullifier_id n = Some k -> exists m, m ∈ pool_nullifiers d /\ pn_id m = k /\
      pn_nullifier m = dn_expected_nullifier x /\ contract_of d (pn_event m) = contract_of d (pc_event c).

Definition noted (d : Db) (c : CommitmentRow) : Prop := pc_id c ∈ un_commitment_id <$> user_notes d.

Record wallet_ok (d : Db) : Prop := {
  wo_tables : tables_ok d;
  wo_commitments_positive : forall c, c ∈ pool_commitments d -> 0 < pc_id c;
  wo_nullifiers_positive : forall n, n ∈ pool_nullifiers d -> 0 < pn_id n;
  wo_notes : forall n, n ∈ user_notes d -> note_ok d n;
  wo_notes_nodup : NoDup (un_commitment_id <$> user_notes d);
  wo_scanned : forall a p m c x, is_account d a -> account_commitment_scan d !! (p, ak_account a) = Some m ->
    c ∈ pool_commitments d -> in_contract d (pc_event c) p -> pc_id c <= m -> derive a (row_of c) = Ok (Some x) -> noted d c;
  wo_marks : forall k m, account_commitment_scan d !! k = Some m -> m = 0 \/ exists c, c ∈ pool_commitments d /\ pc_id c = m;
  wo_nullifier_marks : forall p m, nullifier_scan_state d !! p = Some m -> m = 0 \/ exists n, n ∈ pool_nullifiers d /\ pn_id n = m;
  wo_reconciled : forall p m k n c, nullifier_scan_state d !! p = Some m -> k ∈ pool_nullifiers d -> in_contract d (pn_event k) p ->
    pn_id k <= m -> n ∈ user_notes d -> c ∈ pool_commitments d -> un_commitment_id n = pc_id c -> in_contract d (pc_event c) p ->
    un_expected_nullifier n = pn_nullifier k -> is_Some (un_nullifier_id n);
}.

Lemma contract_of_ingested d d' ev : ingested d = ingested d' -> contract_of d ev = contract_of d' ev.
Proof. intros [= _ Hr _ _ _]. unfold contract_of, raw_of. by rewrite Hr. Qed.

Lemma accounts_ingested d d' : ingested d = ingested d' -> get_accounts_with_latest_keypairs d = get_accounts_with_latest_keypairs d'.
Proof. intros [= _ _ Ha Hk _]. unfold get_accounts_with_latest_keypairs, latest_keypair. by rewrite Ha, Hk. Qed.

Lemma derive_ok_ingested d d' : ingested d = ingested d' -> derive_ok d -> derive_ok d'.
Proof.
  intros E [H1 H2]. assert (forall a, is_account d' a -> is_account d a) as Ha by (intros a; unfold is_account; by rewrite (accounts_ingested d d' E)).
  assert (forall r e, event_at d' r e -> event_at d r e) as He by (intros r e; apply event_at_ingested; by symmetry). split.
  - intros a r e i Hac Hat. apply (H1 a r e i); auto.
  - intros a1 a2 r1 r2 e1 e2 i1 i2 x1 x2 A1 A2 E1 E2 D1 D2. apply (H2 a1 a2 r1 r2 e1 e2 i1 i2 x1 x2); auto.
Qed.

(** An account of the list is determined by its identifier. *)
Lemma account_same d a a' : is_account d a -> is_account d a' -> ak_account a = ak_account a' -> a = a'.
Proof.
  unfold is_account, get_accounts_with_latest_keypairs. rewrite !list_elem_of_omap.
  intros ([i s] & _ & H) ([i' s'] & _ & H'). cbn in H, H'. destruct (latest_keypair d i) as [k|] eqn:E; [| discriminate].
  destruct (latest_keypair d i') as [k'|] eqn:E'; [| discriminate]. cbn in H, H'. injection H as <-. injection H' as <-. cbn. intros ->.
  rewrite E in E'. by injection E' as ->.
Qed.

(** ** New rows *)

Lemma note_ok_mono d d' n :
  ingested d = ingested d' -> (forall c, c ∈ pool_commitments d -> c ∈ pool_commitments d') ->
  (forall m, m ∈ pool_nullifiers d -> m ∈ pool_nullifiers d') -> note_ok d n -> note_ok d' n.
Proof.
  intros E Hc Hn (c & a & x & H1 & H2 & H3 & H4 & H5 & H6 & H7 & H8 & H9 & H10). exists c, a, x. split; [auto |].
  split; [unfold is_account; by rewrite <- (accounts_ingested d d' E) |]. repeat (split; [assumption |]).
  intros k Hk. destruct (H10 k Hk) as (m & M1 & M2 & M3 & M4). exists m. rewrite <- !(contract_of_ingested d d' _ E). auto.
Qed.

Lemma events_processed_wallet d d' : wallet_ok d -> events_processed d d' -> wallet_ok d'.
Proof.
  intros W He. pose proof (ep_ingested _ _ He) as E. symmetry in E.
  destruct (ep_commitments _ _ He) as (cs & Hcs & Hcab). destruct (ep_nullifiers _ _ He) as (ns & Hns & Hnab).
  assert (forall ev p, in_contract d' ev p <-> in_contract d ev p) as Hin by (intros; unfold in_contract; by rewrite (contract_of_ingested d d' ev E)).
  assert (forall a, is_account d' a <-> is_account d a) as Hac by (intros; unfold is_account; by rewrite (accounts_ingested d d' E)).
  split.
  - apply (ep_tables _ _ He).
  - rewrite Hcs. intros c [Hc|Hc]%elem_of_app; [by apply (wo_commitments_positive d W) | by apply Hcab].
  - rewrite Hns. intros c [Hc|Hc]%elem_of_app; [by apply (wo_nullifiers_positive d W) | by apply Hnab].
  - rewrite (ep_notes _ _ He). intros n Hn. apply (note_ok_mono d d' n E); [| | by apply (wo_notes d W)].
    + intros c Hc. rewrite Hcs. apply elem_of_app. by left.
    + intros c Hc. rewrite Hns. apply elem_of_app. by left.
  - rewrite (ep_notes _ _ He). apply (wo_notes_nodup d W).
  - intros a p m c x Ha Hm Hc Hp Hle Hd. rewrite (ep_scan _ _ He) in Hm. unfold noted. rewrite (ep_notes _ _ He).
    rewrite Hcs in Hc. apply elem_of_app in Hc as [Hc|Hc].
    + exact (wo_scanned d W a p m c x (proj1 (Hac a) Ha) Hm Hc (proj1 (Hin _ _) Hp) Hle Hd).
    + destruct (Hcab c Hc) as [Hpos Hlt]. destruct (wo_marks d W _ _ Hm) as [-> | (c' & Hc' & <-)]; [lia |]. specialize (Hlt c' Hc'). lia.
  - rewrite (ep_scan _ _ He). intros k m Hm. destruct (wo_marks d W _ _ Hm) as [?|(c & Hc & ?)]; [by left |]. right.
    exists c. split; [| assumption]. rewrite Hcs. apply elem_of_app. by left.
  - rewrite (ep_nullifier_scan _ _ He). intros k m Hm. destruct (wo_nullifier_marks d W _ _ Hm) as [?|(c & Hc & ?)]; [by left |]. right.
    exists c. split; [| assumption]. rewrite Hns. apply elem_of_app. by left.
  - intros p m k n c Hm Hk Hkp Hle Hn Hc Hid Hcp Hex. rewrite (ep_nullifier_scan _ _ He) in Hm. rewrite (ep_notes _ _ He) in Hn.
    assert (k ∈ pool_nullifiers d) as Hk'.
    { rewrite Hns in Hk. apply elem_of_app in Hk as [Hk|Hk]; [exact Hk |]. destruct (Hnab k Hk) as [Hpos Hlt].
      destruct (wo_nullifier_marks d W _ _ Hm) as [-> | (k' & Hk'' & <-)]; [lia |]. specialize (Hlt k' Hk''). lia. }
    assert (c ∈ pool_commitments d) as Hc'.
    { rewrite Hcs in Hc. apply elem_of_app in Hc as [Hc|Hc]; [exact Hc |].
      destruct (wo_notes d W n Hn) as (c0 & a & x & Hc0 & _ & _ & Hid0 & _). destruct (Hcab c Hc) as [_ Hlt]. specialize (Hlt c0 Hc0). lia. }
    exact (wo_reconciled d W p m k n c Hm Hk' (proj1 (Hin _ _) Hkp) Hle Hn Hc' Hid (proj1 (Hin _ _) Hcp) Hex).
Qed.


(** ** One commitment *)

Lemma commitment_event d c : tables_ok d -> c ∈ pool_commitments d ->
  exists r e, event_at d r (Commitment e) /\ row_of c = row_at (pc_id c) e /\ pc_event c = raw_id r /\ pc_commitment c = cc_commitment e.
Proof.
  intros Ht Hc. destruct (to_commitments d Ht c Hc) as (r & e & He & H1 & H2 & H3 & H4). exists r, e.
  unfold row_of, row_at. rewrite H2, H3, H4. auto.
Qed.

Lemma commitment_same d c c' : storable d -> tables_ok d -> c ∈ pool_commitments d -> c' ∈ pool_commitments d ->
  pc_commitment c = pc_commitment c' -> c = c'.
Proof.
  intros Hs Ht Hc Hc' E. destruct (commitment_event d c Ht Hc) as (r & e & He & _ & Hr & Hcm).
  destruct (commitment_event d c' Ht Hc') as (r' & e' & He' & _ & Hr' & Hcm').
  apply (fmap_nodup_eq pc_event (pool_commitments d)); [apply (to_commitment_events d Ht) | exact Hc | exact Hc' |].
  rewrite Hr, Hr'. apply (st_commitments d Hs r r' e e' He He'). congruence.
Qed.

(** Two derivations with the same nullifier are of the same commitment. *)
Lemma derived_same d a a' c c' x x' : storable d -> derive_ok d -> tables_ok d -> is_account d a -> is_account d a' ->
  c ∈ pool_commitments d -> c' ∈ pool_commitments d -> derive a (row_of c) = Ok (Some x) -> derive a' (row_of c') = Ok (Some x') ->
  dn_expected_nullifier x = dn_expected_nullifier x' -> c = c'.
Proof.
  intros Hs Hd Ht Ha Ha' Hc Hc' Hx Hx' E. apply (commitment_same d c c' Hs Ht Hc Hc').
  destruct (commitment_event d c Ht Hc) as (r & e & He & Hrow & _ & ->). destruct (commitment_event d c' Ht Hc') as (r' & e' & He' & Hrow' & _ & ->).
  rewrite Hrow in Hx. rewrite Hrow' in Hx'. exact (do_distinct d Hd a a' r r' e e' _ _ x x' Ha Ha' He He' Hx Hx' E).
Qed.

(** The state after more notes were added. *)
Definition notes_grow (d d' : Db) : Prop := exists extra, d' = set_notes (user_notes d ++ extra) d.

Lemma notes_grow_refl d : notes_grow d d.
Proof. exists []. rewrite app_nil_r. by destruct d. Qed.

Lemma notes_grow_trans d1 d2 d3 : notes_grow d1 d2 -> notes_grow d2 d3 -> notes_grow d1 d3.
Proof. intros (e1 & ->) (e2 & ->). exists (e1 ++ e2). by rewrite app_assoc. Qed.

Lemma noted_grow d d' c : notes_grow d d' -> noted d c -> noted d' c.
Proof. intros (extra & ->) H. unfold noted. cbn. rewrite fmap_app. apply elem_of_app. by left. Qed.

(** A new note keeps the invariant. *)
Lemma add_note_ok d n c a x p :
  wallet_ok d -> c ∈ pool_commitments d -> is_account d a -> in_contract d (pc_event c) p -> derive a (row_of c) = Ok (Some x) ->
  un_commitment_id n ∉ un_commitment_id <$> user_notes d ->
  n = {| un_id := pc_commitment c; un_account := ak_account a; un_commitment_id := pc_id c;
         un_nullifier_id := pn_id <$> find (fun m => bool_decide (contract_of d (pn_event m) = Some p) && (pn_nullifier m =? dn_expected_nullifier x)) (pool_nullifiers d);
         un_expected_nullifier := dn_expected_nullifier x; un_blinding := dn_blinding x; un_amount := NoteAmount_to_string (dn_amount x) |} ->
  wallet_ok (set_notes (user_notes d ++ [n]) d).
Proof.
  intros W Hc Ha Hp Hx Hfresh Hn. pose proof (wo_tables d W) as Ht. split.
  - destruct Ht as [T1 T2 T3 T4 T5 T6 T7 T8]. by split.
  - apply (wo_commitments_positive d W).
  - apply (wo_nullifiers_positive d W).
  - cbn. intros m [Hm | ->%list_elem_of_singleton]%elem_of_app; [exact (wo_notes d W m Hm) |].
    exists c, a, x. rewrite Hn. cbn. repeat (split; [assumption || reflexivity |]). intros k Hk.
    destruct (find _ _) as [m|] eqn:E; [| discriminate]. injection Hk as <-. apply find_some in E as [Hm%list_elem_of_In E].
    apply andb_true_iff in E as [E1%bool_decide_eq_true E2%Z.eqb_eq]. exists m. unfold in_contract in Hp.
    split; [exact Hm |]. split; [reflexivity |]. split; [exact E2 |]. transitivity (Some p); [exact E1 | by symmetry].
  - cbn. apply nodup_snoc; [apply (wo_notes_nodup d W) | exact Hfresh].
  - intros a' p' m c' x' Ha' Hm Hc' Hp' Hle Hd. apply (noted_grow d); [by exists [n] |].
    exact (wo_scanned d W a' p' m c' x' Ha' Hm Hc' Hp' Hle Hd).
  - apply (wo_marks d W).
  - apply (wo_nullifier_marks d W).
  - intros p' m k n' c' Hm Hk Hkp Hle Hn' Hc' Hid Hcp Hex. cbn in Hn'. apply elem_of_app in Hn' as [Hn' | ->%list_elem_of_singleton].
    + exact (wo_reconciled d W p' m k n' c' Hm Hk Hkp Hle Hn' Hc' Hid Hcp Hex).
    + assert (c = c') as <-.
      { apply (fmap_nodup_eq pc_id (pool_commitments d)); [apply (to_commitment_ids d Ht) | exact Hc | exact Hc' |]. by rewrite Hn in Hid. }
      assert (p' = p) as -> by (unfold in_contract in Hp, Hcp; cbn in Hcp; change (contract_of d (pc_event c) = Some p') in Hcp; congruence).
      rewrite Hn. cbn. destruct (find _ _) as [m'|] eqn:E; [by eexists |]. exfalso.
      pose proof (find_none _ _ E k (proj1 (list_elem_of_In _ _) Hk)) as Hf. cbn in Hf.
      rewrite bool_decide_true in Hf by exact Hkp. rewrite Hn in Hex. cbn in Hex. apply Z.eqb_neq in Hf. congruence.
Qed.

Lemma scan_row_run d p a c :
  storable d -> derive_ok d -> wallet_ok d -> is_account d a -> c ∈ pool_commitments d -> in_contract d (pc_event c) p ->
  runs (scan_row derive p a (row_of c)) d (fun _ d' => wallet_ok d' /\ notes_grow d d' /\
    forall x, derive a (row_of c) = Ok (Some x) -> noted d' c).
Proof.
  intros Hs Hd W Ha Hc Hp. pose proof (wo_tables d W) as Ht. destruct (commitment_event d c Ht Hc) as (r & e & He & Hrow & _ & _).
  destruct (do_total d Hd a r e (pc_id c) Ha He) as (o & Ho). rewrite <- Hrow in Ho. unfold scan_row. rewrite Ho. apply runs_try_bind.
  destruct o as [x|]; [| apply runs_ret; split; [exact W |]; split; [apply notes_grow_refl | congruence]].
  apply runs_read_bind. unfold id. cbv zeta. unfold insert_user_note. apply runs_read_bind. cbv zeta.
  destruct (existsb _ _) eqn:Ecl.
  - apply runs_ret. split; [exact W |]. split; [apply notes_grow_refl |]. intros x' _.
    apply existsb_exists in Ecl as (m & Hm%list_elem_of_In & Hcl). unfold noted.
    destruct (wo_notes d W m Hm) as (c' & a' & x'' & Hc' & Ha' & Hx' & Hid & Huid & _ & Hexp & _ & _ & Hlink).
    enough (c' = c) as <- by (rewrite <- Hid; by apply list_elem_of_fmap_2).
    apply orb_true_iff in Hcl as [[Hcl | Hcl]%orb_true_iff | [Hsome%bool_decide_eq_true Heq%bool_decide_eq_true]%andb_true_iff].
    + apply (commitment_same d c' c Hs Ht Hc' Hc). apply Z.eqb_eq in Hcl. rewrite <- Huid. exact Hcl.
    + apply (fmap_nodup_eq pc_id (pool_commitments d)); [apply (to_commitment_ids d Ht) | exact Hc' | exact Hc |].
      rewrite <- Hid. by apply Z.eqb_eq in Hcl.
    + cbn in Hsome, Heq. destruct (find _ _) as [h|] eqn:Eh; [| by destruct Hsome]. cbn in Heq.
      apply find_some in Eh as [Hh%list_elem_of_In Eh]. apply andb_true_iff in Eh as [_ Eh%Z.eqb_eq].
      destruct (Hlink _ Heq) as (m' & Hm' & Hmid & Hmn & _).
      assert (m' = h) as -> by (apply (fmap_nodup_eq pn_id (pool_nullifiers d)); [apply (to_nullifier_ids d Ht) | exact Hm' | exact Hh | exact Hmid]).
      apply (derived_same d a' a c' c x'' x Hs Hd Ht Ha' Ha Hc' Hc Hx' Ho). congruence.
  - apply runs_write. split; [| split].
    + apply (add_note_ok d _ c a x p W Hc Ha Hp Ho); [| reflexivity]. cbn. intros (m & Hm & Hin)%list_elem_of_fmap.
      pose proof (proj1 (existsb_false _ _) Ecl m Hin) as Hf. cbn in Hf. apply orb_false_iff in Hf as [Hf _]. apply orb_false_iff in Hf as [_ Hf].
      apply Z.eqb_neq in Hf. congruence.
    + by eexists.
    + intros x' _. unfold noted. cbn. rewrite fmap_app. apply elem_of_app. right. apply list_elem_of_here.
Qed.


(** ** One account *)

Lemma notes_grow_ingested d d' : notes_grow d d' -> ingested d = ingested d'.
Proof. by intros (extra & ->). Qed.

Lemma scan_rows_run p a cs : forall d,
  storable d -> derive_ok d -> wallet_ok d -> is_account d a ->
  (forall c, c ∈ cs -> c ∈ pool_commitments d /\ in_contract d (pc_event c) p) ->
  runs (db_each (scan_row derive p a) (row_of <$> cs)) d (fun _ d' => wallet_ok d' /\ notes_grow d d' /\
    forall c x, c ∈ cs -> derive a (row_of c) = Ok (Some x) -> noted d' c).
Proof.
  induction cs as [|c cs IH]; intros d Hs Hd W Ha Hcs; cbn [fmap list_fmap db_each].
  - apply runs_ret. split; [exact W |]. split; [apply notes_grow_refl |]. intros c x Hc. by apply not_elem_of_nil in Hc.
  - destruct (Hcs c (list_elem_of_here _ _)) as [Hc Hp].
    eapply runs_bind; [exact (scan_row_run d p a c Hs Hd W Ha Hc Hp) |]. intros u d1 (W1 & G1 & N1).
    pose proof (notes_grow_ingested d d1 G1) as E1.
    eapply runs_mono; [apply (IH d1) |].
    + by apply (storable_ingested d).
    + by apply (derive_ok_ingested d).
    + exact W1.
    + unfold is_account. by rewrite <- (accounts_ingested d d1 E1).
    + intros c' Hc'. destruct (Hcs c' (list_elem_of_further _ _ _ Hc')) as [H1 H2]. destruct G1 as (extra & ->). by split.
    + intros u' d' (W' & G' & N'). split; [exact W' |]. split; [exact (notes_grow_trans _ _ _ G1 G') |].
      intros c' x [-> | Hc']%elem_of_cons Hx; [| by apply (N' c' x)]. apply (noted_grow d1 d' c G'). by apply (N1 x).
Qed.

Lemma commitment_rows_ok d cs : storable d -> tables_ok d -> (forall c, c ∈ cs -> c ∈ pool_commitments d) -> commitment_rows cs = Ok (row_of <$> cs).
Proof.
  intros Hs Ht. induction cs as [|c cs IH]; intros Hcs; [reflexivity |]. cbn [commitment_rows fmap list_fmap].
  destruct (to_commitments d Ht c (Hcs c (list_elem_of_here _ _))) as (r & e & He & _ & _ & Hix & _).
  destruct (st_kinds d Hs r (proj1 He)) as (e' & Hp & Hk). rewrite (proj2 He) in Hp. injection Hp as <-. cbn in Hk.
  unfold col_u32. rewrite (proj2 (fits_u_spec 32 (pc_leaf_index c))) by (rewrite Hix; exact Hk). cbn [mbind result_bind].
  rewrite IH; [reflexivity |]. intros c' Hc'. by apply Hcs, list_elem_of_further.
Qed.

Definition mark (d : Db) (p : Z) (a : AccountKeys) : Z := default 0 (account_commitment_scan d !! (p, ak_account a)).

(** How many commitments of a pool an account has not seen. *)
Definition pend (d : Db) (p : Z) (a : AccountKeys) : nat := length (pending_commitments d p (mark d p a)).

Lemma elem_of_pending d p last c : c ∈ pending_commitments d p last <-> c ∈ pool_commitments d /\ in_contract d (pc_event c) p /\ last < pc_id c.
Proof. unfold pending_commitments. rewrite elem_of_order_by, list_elem_of_filter. unfold in_contract. tauto. Qed.

Lemma pending_le d p last last' : last <= last' -> (length (pending_commitments d p last') <= length (pending_commitments d p last))%nat.
Proof. apply backlog_le. Qed.

Lemma pending_shorter d p last last' c : last <= last' -> c ∈ pending_commitments d p last -> pc_id c <= last' ->
  (length (pending_commitments d p last') < length (pending_commitments d p last))%nat.
Proof. intros Hle (H1 & H2 & H3)%elem_of_pending Hc. exact (backlog_lt pc_id _ _ last last' c Hle H1 H2 (conj H3 Hc)). Qed.

(** What scanning changes: notes and marks; nobody's backlog grows. *)
Record scan_step (d d' : Db) : Prop := {
  ss_shape : exists notes marks, d' = set_scan marks (set_notes notes d);
  ss_wallet : wallet_ok d';
  ss_marked : forall k, is_Some (account_commitment_scan d !! k) -> is_Some (account_commitment_scan d' !! k);
  ss_pend : forall p a, (pend d' p a <= pend d p a)%nat;
}.

Lemma scan_step_refl d : wallet_ok d -> scan_step d d.
Proof. intros W. split; [by exists (user_notes d), (account_commitment_scan d); destruct d | exact W | done | done]. Qed.

Lemma scan_step_trans d1 d2 d3 : scan_step d1 d2 -> scan_step d2 d3 -> scan_step d1 d3.
Proof.
  intros [(n1 & m1 & E1) W1 M1 P1] [(n2 & m2 & E2) W2 M2 P2]. split.
  - exists n2, m2. by rewrite E2, E1.
  - exact W2.
  - intros k Hk. by apply M2, M1.
  - intros p a. specialize (P1 p a). specialize (P2 p a). lia.
Qed.

Lemma scan_step_tables d d' : scan_step d d' -> parsed_tables d' = parsed_tables d.
Proof. by intros [(n & m & ->) _ _ _]. Qed.

Lemma scan_step_ingested d d' : scan_step d d' -> ingested d = ingested d'.
Proof. by intros [(n & m & ->) _ _ _]. Qed.

(** Advancing the mark of an account past commitments it has seen. *)
Lemma advance_mark d p a last m :
  wallet_ok d -> is_account d a -> account_commitment_scan d !! (p, ak_account a) = Some last -> last <= m ->
  (m = 0 \/ exists c, c ∈ pool_commitments d /\ pc_id c = m) ->
  (forall c x, c ∈ pool_commitments d -> in_contract d (pc_event c) p -> last < pc_id c <= m -> derive a (row_of c) = Ok (Some x) -> noted d c) ->
  wallet_ok (set_scan (<[(p, ak_account a) := m]> (account_commitment_scan d)) d).
Proof.
  intros W Ha Hlast Hle Hm Hseen. split; try apply W.
  - destruct (wo_tables d W) as [T1 T2 T3 T4 T5 T6 T7 T8]. by split.
  - intros a' p' m' c x Ha' Hm' Hc Hp Hlem Hx. cbn in Hm'. destruct (decide ((p, ak_account a) = (p', ak_account a'))) as [E|E].
    + pose proof E as [= Ep Eac]. subst p'. rewrite E, lookup_insert_eq in Hm'. injection Hm' as <-.
      assert (a = a') as <- by exact (account_same d a a' Ha Ha' Eac).
      destruct (Z.le_gt_cases (pc_id c) last) as [Hl|Hl].
      * exact (wo_scanned d W a p last c x Ha Hlast Hc Hp Hl Hx).
      * apply (Hseen c x Hc Hp); [lia | exact Hx].
    + rewrite lookup_insert_ne in Hm' by exact E. exact (wo_scanned d W a' p' m' c x Ha' Hm' Hc Hp Hlem Hx).
  - intros k m' Hm'. cbn in Hm'. destruct (decide ((p, ak_account a) = k)) as [<-|E].
    + rewrite lookup_insert_eq in Hm'. injection Hm' as <-. exact Hm.
    + rewrite lookup_insert_ne in Hm' by exact E. exact (wo_marks d W k m' Hm').
Qed.

Lemma pend_advance d p a last m p' a' :
  account_commitment_scan d !! (p, ak_account a) = Some last -> last <= m ->
  (pend (set_scan (<[(p, ak_account a) := m]> (account_commitment_scan d)) d) p' a' <= pend d p' a')%nat.
Proof.
  intros Hlast Hle. unfold pend, mark. change (pending_commitments (set_scan _ d)) with (pending_commitments d). cbn [set_scan account_commitment_scan].
  destruct (decide ((p, ak_account a) = (p', ak_account a'))) as [E|E].
  - rewrite <- E, lookup_insert_eq, Hlast. injection E as <- _. by apply pending_le.
  - rewrite lookup_insert_ne by exact E. reflexivity.
Qed.


(** What scanning relies on; it depends on what was ingested. *)
Definition scannable (d : Db) : Prop := storable d /\ derive_ok d.

Lemma scannable_ingested d d' : ingested d = ingested d' -> scannable d -> scannable d'.
Proof. intros E [H1 H2]. split; [by apply (storable_ingested d) | by apply (derive_ok_ingested d)]. Qed.

Definition has_mark (d : Db) (p : Z) (a : AccountKeys) : Prop := is_account d a /\ is_Some (account_commitment_scan d !! (p, ak_account a)).

Lemma has_mark_step d d' p a : scan_step d d' -> has_mark d p a -> has_mark d' p a.
Proof.
  intros Hst [Ha Hm]. split; [| by apply (ss_marked _ _ Hst)].
  unfold is_account. by rewrite <- (accounts_ingested d d' (scan_step_ingested _ _ Hst)).
Qed.

Lemma scan_account_run d p a quota :
  scannable d -> wallet_ok d -> has_mark d p a -> 0 < quota ->
  runs (scan_account derive p a quota) d (fun n d' => scan_step d d' /\ 0 <= n <= quota /\
    ((n = 0 /\ d' = d /\ pend d p a = O) \/ (0 < n /\ (pend d' p a < pend d p a)%nat))).
Proof.
  intros [Hs Hd] W [Ha [last Hlast]] Hq. unfold scan_account. apply runs_read_bind. unfold id. rewrite Hlast. cbv zeta.
  set (q := Z.to_nat (Z.min quota ACCOUNT_CHUNK)). set (cs := take q (pending_commitments d p last)).
  assert (forall c, c ∈ cs -> c ∈ pending_commitments d p last) as Hcs by (intros c (i & Hi%list_elem_of_lookup_2 & _)%elem_of_take; exact Hi).
  rewrite (commitment_rows_ok d cs Hs (wo_tables d W)) by (intros c Hc; by apply Hcs, elem_of_pending in Hc as [? _]). apply runs_try_bind.
  assert ((0 < q)%nat) as Hqpos by (unfold q, ACCOUNT_CHUNK; lia).
  assert (pend d p a = length (pending_commitments d p last)) as Hpend by (unfold pend, mark; by rewrite Hlast).
  destruct (bool_decide_reflect (row_of <$> cs = [])) as [Hnil|Hnil].
  - apply runs_ret. split; [by apply scan_step_refl |]. split; [lia |]. left. split; [reflexivity |]. split; [reflexivity |].
    apply fmap_nil_inv in Hnil. unfold cs in Hnil. apply (f_equal length) in Hnil. rewrite length_take in Hnil. cbn in Hnil. lia.
  - eapply runs_bind; [apply (scan_rows_run p a cs d Hs Hd W Ha) |].
    { intros c Hc%Hcs%elem_of_pending. tauto. }
    intros u d1 (W1 & (extra & Ed1) & N1). apply runs_write_bind, runs_ret.
    set (m := foldl _ last (row_of <$> cs)). assert (m = foldl (fun m c => Z.max m (pc_id c)) last cs) as Em0 by (unfold m; generalize last; clear; induction cs; intros; simpl; auto).
    destruct (foldl_max_ge pc_id cs last) as (Hm1 & Hm2 & Hm3). rewrite <- Em0 in Hm1, Hm2, Hm3.
    assert (account_commitment_scan d1 !! (p, ak_account a) = Some last) as Hlast1 by (by rewrite Ed1).
    assert (is_account d1 a) as Ha1 by (by rewrite Ed1).
    assert (exists c0, c0 ∈ cs) as (c0 & Hc0) by (destruct cs as [|c0 ?]; [by destruct Hnil | exists c0; apply list_elem_of_here]).
    assert (exists c, c ∈ cs /\ m = pc_id c) as (cm & Hcm & Em).
    { destruct Hm3 as [Hm3|?]; [| assumption]. exfalso. pose proof (Hm2 c0 Hc0). apply Hcs, elem_of_pending in Hc0 as (_ & _ & ?). lia. }
    split; [| split].
    + split.
      * exists (user_notes d ++ extra). eexists. rewrite Ed1. reflexivity.
      * apply (advance_mark d1 p a last m W1 Ha1 Hlast1 Hm1).
        -- right. exists cm. split; [| by symmetry]. rewrite Ed1. by apply Hcs, elem_of_pending in Hcm as [? _].
        -- intros c x Hc Hp Hid Hx. apply (N1 c x); [| exact Hx]. rewrite Ed1 in Hc, Hp. unfold cs, pending_commitments.
           apply (order_by_prefix pc_id _ q c cm).
           ++ apply fmap_nodup_filter, (to_commitment_ids d (wo_tables d W)).
           ++ apply list_elem_of_filter. split; [split; [exact Hp | lia] | exact Hc].
           ++ exact Hcm.
           ++ lia.
      * intros k Hk. cbn. destruct (decide ((p, ak_account a) = k)) as [<-|E]; [by rewrite lookup_insert_eq |].
        rewrite lookup_insert_ne by exact E. by rewrite Ed1.
      * intros p' a'. pose proof (pend_advance d1 p a last m p' a' Hlast1 Hm1) as Hp. rewrite Ed1 in Hp at 3. exact Hp.
    + unfold zlength. rewrite length_fmap. unfold cs. rewrite length_take. unfold q, ACCOUNT_CHUNK. lia.
    + right. split.
      * unfold zlength. destruct cs; [by destruct Hnil | cbn; lia].
      * rewrite Hpend. unfold pend, mark. cbn. rewrite lookup_insert_eq. cbn. rewrite Ed1.
        change (pending_commitments (set_scan _ _)) with (pending_commitments d).
        apply (pending_shorter d p last m c0 Hm1); [by apply Hcs | by apply Hm2].
Qed.

Lemma scan_cycle_run p accs : forall d quota b,
  scannable d -> wallet_ok d -> (forall a, a ∈ accs -> has_mark d p a) -> 0 <= quota ->
  runs (scan_cycle derive p accs quota b) d (fun r d' => scan_step d d' /\ 0 <= r.1 <= quota /\
    (r.2 = false -> b = false /\ d' = d /\ (0 < quota -> forall a, a ∈ accs -> pend d p a = O)) /\
    (r.2 = true -> b = true \/ (r.1 < quota /\ exists a, a ∈ accs /\ (pend d' p a < pend d p a)%nat))).
Proof.
  induction accs as [|a accs IH]; intros d quota b Hsc W Hm Hq; cbn [scan_cycle].
  - apply runs_ret. cbn. split; [by apply scan_step_refl |]. split; [lia |]. split; [| by left].
    intros ->. split; [reflexivity |]. split; [reflexivity |]. intros _ a Ha. by apply not_elem_of_nil in Ha.
  - destruct (Z.eqb_spec quota 0) as [->|Hq0].
    { apply runs_ret. cbn. split; [by apply scan_step_refl |]. split; [lia |]. split; [| by left]. intros ->. split; [reflexivity |].
      split; [reflexivity | lia]. }
    eapply runs_bind; [apply (scan_account_run d p a quota Hsc W (Hm a (list_elem_of_here _ _))); lia |].
    intros n d1 (S1 & Hn & Hcase). pose proof (scan_step_ingested _ _ S1) as E1.
    eapply runs_mono; [apply (IH d1 (saturating_sub quota n) (b || (0 <? n)))|].
    + by apply (scannable_ingested d).
    + apply (ss_wallet _ _ S1).
    + intros a' Ha'. apply (has_mark_step d d1 p a' S1). by apply Hm, list_elem_of_further.
    + unfold saturating_sub. lia.
    + intros [q' b'] d' (S' & Hq' & Hf & Ht). cbn in *. split; [exact (scan_step_trans _ _ _ S1 S') |].
      unfold saturating_sub in Hq'. split; [lia |]. split.
      * intros Hb'. destruct (Hf Hb') as ([Hb Hn0]%orb_false_iff & -> & Hrest). apply Z.ltb_ge in Hn0.
        destruct Hcase as [(-> & -> & Hp0) | [? _]]; [| lia]. split; [exact Hb |]. split; [reflexivity |].
        intros _ a' [-> | Ha']%elem_of_cons; [exact Hp0 | apply Hrest; [unfold saturating_sub; lia | exact Ha']].
      * intros Hb'. destruct (Ht Hb') as [[Hb | Hn0%Z.ltb_lt]%orb_true_iff | (Hlt & a' & Ha' & Hp)]; [by left | |].
        -- right. split; [lia |]. exists a. split; [apply list_elem_of_here |]. destruct Hcase as [[? _]|[_ Hlt]]; [lia |].
           pose proof (ss_pend _ _ S' p a). lia.
        -- right. split; [unfold saturating_sub in Hlt; lia |]. exists a'. split; [by apply list_elem_of_further |].
           pose proof (ss_pend _ _ S1 p a'). lia.
Qed.

Lemma scan_loop_run p accs : forall fuel d quota did,
  scannable d -> wallet_ok d -> (forall a, a ∈ accs -> has_mark d p a) -> 0 <= quota <= Z.of_nat fuel ->
  runs (scan_loop derive fuel p accs quota did) d (fun did' d' => scan_step d d' /\
    (did' = false -> did = false /\ d' = d /\ (0 < quota -> forall a, a ∈ accs -> pend d p a = O)) /\
    (did' = true -> did = true \/ exists a, a ∈ accs /\ (pend d' p a < pend d p a)%nat)).
Proof.
  induction fuel as [|f IH]; intros d quota did Hsc W Hm Hq; cbn [scan_loop].
  - apply runs_ret. split; [by apply scan_step_refl |]. split; [intros ->; split; [reflexivity | split; [reflexivity | lia]] | by left].
  - destruct (Z.eqb_spec quota 0) as [->|Hq0].
    { apply runs_ret. split; [by apply scan_step_refl |]. split; [intros ->; split; [reflexivity | split; [reflexivity | lia]] | by left]. }
    eapply runs_bind; [apply (scan_cycle_run p accs d quota false Hsc W Hm); lia |].
    intros [q' b'] d1 (S1 & Hq' & Hf & Ht). cbn in *. pose proof (scan_step_ingested _ _ S1) as E1. destruct b'.
    + destruct (Ht eq_refl) as [?|(Hlt & a & Ha & Hp)]; [discriminate |].
      eapply runs_mono; [apply (IH d1 q' true); [by apply (scannable_ingested d) | apply (ss_wallet _ _ S1) | | lia] |].
      * intros a' Ha'. by apply (has_mark_step d d1 p a' S1), Hm.
      * intros did' d' (S' & Hf' & Ht'). split; [exact (scan_step_trans _ _ _ S1 S') |]. split.
        -- intros E. destruct (Hf' E) as [? _]. discriminate.
        -- intros _. right. exists a. split; [exact Ha |]. pose proof (ss_pend _ _ S' p a). lia.
    + apply runs_ret. destruct (Hf eq_refl) as (_ & -> & Hall). split; [exact S1 |]. split; [| by left].
      intros ->. split; [reflexivity |]. split; [reflexivity |]. exact Hall.
Qed.


(** ** One pool *)

Lemma init_scan_run d p a : wallet_ok d ->
  runs (init_scan p a) d (fun _ d' => scan_step d d' /\ (forall p' a', pend d' p' a' = pend d p' a') /\
    is_Some (account_commitment_scan d' !! (p, ak_account a))).
Proof.
  intros W. unfold init_scan. apply runs_write. destruct (account_commitment_scan d !! (p, ak_account a)) as [m|] eqn:E.
  { split; [by apply scan_step_refl |]. split; [done | by rewrite E]. }
  assert (forall p' a', pend (set_scan (<[(p, ak_account a) := 0]> (account_commitment_scan d)) d) p' a' = pend d p' a') as Hpend.
  { intros p' a'. unfold pend, mark. change (pending_commitments (set_scan _ d)) with (pending_commitments d). cbn [set_scan account_commitment_scan].
    destruct (decide ((p, ak_account a) = (p', ak_account a'))) as [Ek|Ek].
    - by rewrite <- Ek, lookup_insert_eq, E.
    - by rewrite lookup_insert_ne. }
  split; [| split; [exact Hpend | cbn; by rewrite lookup_insert_eq]]. split.
  - exists (user_notes d). eexists. by destruct d.
  - destruct W as [W1 W2 W3 W4 W5 W6 W7 W8 W9]. split; try assumption.
    + destruct W1 as [T1 T2 T3 T4 T5 T6 T7 T8]. by split.
    + intros a' p' m c x Ha' Hm Hc Hp Hle Hx. cbn in Hm. destruct (decide ((p, ak_account a) = (p', ak_account a'))) as [Ek|Ek].
      * rewrite Ek, lookup_insert_eq in Hm. injection Hm as <-. specialize (W2 c Hc). lia.
      * rewrite lookup_insert_ne in Hm by exact Ek. exact (W6 a' p' m c x Ha' Hm Hc Hp Hle Hx).
    + intros k m Hm. cbn in Hm. destruct (decide ((p, ak_account a) = k)) as [<-|Ek].
      * rewrite lookup_insert_eq in Hm. injection Hm as <-. by left.
      * rewrite lookup_insert_ne in Hm by exact Ek. exact (W7 k m Hm).
  - intros k Hk. cbn. destruct (decide ((p, ak_account a) = k)) as [<-|Ek]; [by rewrite lookup_insert_eq | by rewrite lookup_insert_ne].
  - intros p' a'. by rewrite Hpend.
Qed.

Lemma init_scans_run p accs : forall d, wallet_ok d ->
  runs (db_each (init_scan p) accs) d (fun _ d' => scan_step d d' /\ (forall p' a', pend d' p' a' = pend d p' a') /\
    forall a, a ∈ accs -> is_Some (account_commitment_scan d' !! (p, ak_account a))).
Proof.
  induction accs as [|a accs IH]; intros d W; cbn [db_each].
  - apply runs_ret. split; [by apply scan_step_refl |]. split; [done |]. intros a Ha. by apply not_elem_of_nil in Ha.
  - eapply runs_bind; [apply (init_scan_run d p a W) |]. intros u d1 (S1 & P1 & M1).
    eapply runs_mono; [apply (IH d1), (ss_wallet _ _ S1) |]. intros u' d' (S' & P' & M').
    split; [exact (scan_step_trans _ _ _ S1 S') |]. split; [intros p' a'; by rewrite P', P1 |].
    intros a' [-> | Ha']%elem_of_cons; [by apply (ss_marked _ _ S') | by apply M'].
Qed.

Lemma scan_pool_run d p accs quota :
  scannable d -> wallet_ok d -> (forall a, a ∈ accs -> is_account d a) -> 0 < quota ->
  runs (scan_pool derive accs p quota) d (fun did d' => scan_step d d' /\
    (did = false -> forall a, a ∈ accs -> pend d' p a = O) /\
    (did = true -> exists a, a ∈ accs /\ (pend d' p a < pend d p a)%nat)).
Proof.
  intros Hsc W Ha Hq. unfold scan_pool. rewrite (proj2 (Z.eqb_neq quota 0)) by lia. apply runs_transaction.
  eapply runs_bind; [apply (init_scans_run p accs d W) |]. intros u d1 (S1 & P1 & M1). pose proof (scan_step_ingested _ _ S1) as E1.
  eapply runs_mono; [apply (scan_loop_run p accs (Z.to_nat quota) d1 quota false)|].
  - by apply (scannable_ingested d).
  - apply (ss_wallet _ _ S1).
  - intros a Hin. split; [unfold is_account; rewrite <- (accounts_ingested d d1 E1); by apply Ha | by apply M1].
  - lia.
  - intros did d' (S' & Hf & Ht). split; [exact (scan_step_trans _ _ _ S1 S') |]. split.
    + intros E a Hin. destruct (Hf E) as (_ & -> & Hall). by apply Hall.
    + intros E. destruct (Ht E) as [?|(a & Hin & Hlt)]; [discriminate |]. exists a. split; [exact Hin |]. by rewrite <- P1.
Qed.

(** ** All pools *)

Lemma scan_pools_run accs pools : forall d did,
  scannable d -> wallet_ok d -> (forall a, a ∈ accs -> is_account d a) -> Forall (fun pq => 0 < pq.2) pools ->
  runs (scan_pools derive accs pools did) d (fun did' d' => scan_step d d' /\
    (did' = false -> did = false /\ forall p q a, (p, q) ∈ pools -> a ∈ accs -> pend d' p a = O) /\
    (did' = true -> did = true \/ exists p q a, (p, q) ∈ pools /\ a ∈ accs /\ (pend d' p a < pend d p a)%nat)).
Proof.
  induction pools as [|[p q] pools IH]; intros d did Hsc W Ha Hq; cbn [scan_pools].
  - apply runs_ret. split; [by apply scan_step_refl |]. split; [| by left]. intros ->. split; [reflexivity |].
    intros p q a Hin. by apply not_elem_of_nil in Hin.
  - apply Forall_cons in Hq as [Hq Hqs]. cbn in Hq.
    eapply runs_bind; [apply (scan_pool_run d p accs q Hsc W Ha Hq) |]. intros b d1 (S1 & Hf1 & Ht1). pose proof (scan_step_ingested _ _ S1) as E1.
    eapply runs_mono; [apply (IH d1 (did || b))|].
    + by apply (scannable_ingested d).
    + apply (ss_wallet _ _ S1).
    + intros a Hin. unfold is_account. rewrite <- (accounts_ingested d d1 E1). by apply Ha.
    + exact Hqs.
    + intros did' d' (S' & Hf & Ht). split; [exact (scan_step_trans _ _ _ S1 S') |]. split.
      * intros E. destruct (Hf E) as ([Hd Hb]%orb_false_iff & Hall). split; [exact Hd |].
        intros p' q' a [[= -> ->] | Hin]%elem_of_cons Hina; [| by apply (Hall p' q' a)].
        pose proof (Hf1 Hb a Hina). pose proof (ss_pend _ _ S' p a). lia.
      * intros E. destruct (Ht E) as [[Hd|Hb]%orb_true_iff | (p' & q' & a & Hin & Hina & Hlt)]; [by left | |].
        -- right. destruct (Ht1 Hb) as (a & Hina & Hlt). exists p, q, a. split; [apply list_elem_of_here |]. split; [exact Hina |].
           pose proof (ss_pend _ _ S' p a). lia.
        -- right. exists p', q', a. split; [by apply list_elem_of_further |]. split; [exact Hina |]. pose proof (ss_pend _ _ S1 p' a). lia.
Qed.

Lemma spread_length r : forall next qs, length (spread r next qs) = length qs.
Proof. induction r as [|r IH]; intros next qs; cbn [spread]; [reflexivity |]. by rewrite IH, length_alter. Qed.

Lemma spread_positive r : forall next qs, Forall (fun q => 0 < q) qs -> Forall (fun q => 0 < q) (spread r next qs).
Proof.
  induction r as [|r IH]; intros next qs Hq; cbn [spread]; [exact Hq |]. apply IH.
  apply Forall_alter; [exact Hq |]. intros x _ Hx. unfold saturating_u32. lia.
Qed.

Lemma pool_quotas_positive limit n : 0 < limit -> Forall (fun q => 0 < q) (pool_quotas limit n) /\ length (pool_quotas limit n) = n.
Proof.
  intros Hl. unfold pool_quotas. cbv zeta. split; [| by rewrite spread_length, length_replicate]. apply spread_positive.
  destruct n as [|n]; [constructor |]. apply Forall_replicate. destruct (Z.eqb_spec (Z.of_nat (S n)) 0) as [|_]; [lia |].
  destruct (Z.leb_spec (Z.of_nat (S n)) limit); [| lia]. apply Z.div_str_pos. lia.
Qed.

Lemma elem_of_distinct_contracts d events p : p ∈ distinct_contracts d events <-> exists ev, ev ∈ events /\ in_contract d ev p.
Proof. unfold distinct_contracts. rewrite merge_sort_Permutation, elem_of_remove_dups, list_elem_of_omap. reflexivity. Qed.

Lemma distinct_contracts_count d events : storable d -> zlength (distinct_contracts d events) < 2 ^ 32.
Proof.
  intros Hs. pose proof (st_count d Hs) as Hc. unfold zlength in *.
  assert ((length (distinct_contracts d events) <= length (raw_contract <$> raw_contract_events d))%nat) as H; [| rewrite length_fmap in H; lia].
  apply submseteq_length, NoDup_submseteq.
  - unfold distinct_contracts. rewrite merge_sort_Permutation. apply NoDup_remove_dups.
  - intros p (ev & _ & Hp)%elem_of_distinct_contracts. unfold in_contract, contract_of, raw_of in Hp.
    destruct (find _ _) as [r|] eqn:E; [| discriminate]. injection Hp as <-. apply find_some in E as [E%list_elem_of_In _]. by apply list_elem_of_fmap_2.
Qed.

Lemma pend_other d p a : p ∉ distinct_contracts d (pc_event <$> pool_commitments d) -> pend d p a = O.
Proof.
  intros Hp. unfold pend. destruct (pending_commitments d p (mark d p a)) as [|c l] eqn:E; [reflexivity |]. exfalso. apply Hp.
  assert (c ∈ pending_commitments d p (mark d p a)) as (Hc & Hin & _)%elem_of_pending by (rewrite E; apply list_elem_of_here).
  apply elem_of_distinct_contracts. exists (pc_event c). split; [by apply list_elem_of_fmap_2 | exact Hin].
Qed.

Definition pools_of (d : Db) : list Z := distinct_contracts d (pc_event <$> pool_commitments d).

Lemma scan_commitments_run limit d : 0 < limit -> scannable d -> wallet_ok d ->
  runs (scan_commitments_for_user_notes derive limit) d (fun did d' => scan_step d d' /\
    (did = false -> forall p a, is_account d a -> pend d' p a = O) /\
    (did = true -> exists p a, p ∈ pools_of d /\ is_account d a /\ (pend d' p a < pend d p a)%nat)).
Proof.
  intros Hl Hsc W. unfold scan_commitments_for_user_notes. apply runs_read_bind. unfold id. cbv zeta.
  rewrite (proj2 (Z.eqb_neq limit 0)), orb_false_r by lia.
  destruct (bool_decide_reflect (get_accounts_with_latest_keypairs d = [])) as [Hnil|_].
  { apply runs_ret. split; [by apply scan_step_refl |]. split; [| discriminate]. intros _ p a Ha. unfold is_account in Ha.
    rewrite Hnil in Ha. by apply not_elem_of_nil in Ha. }
  fold (pools_of d). destruct (bool_decide_reflect (pools_of d = [])) as [Hnil|_].
  { apply runs_ret. split; [by apply scan_step_refl |]. split; [| discriminate]. intros _ p a _. apply pend_other. fold (pools_of d).
    rewrite Hnil. apply not_elem_of_nil. }
  rewrite (proj2 (Z.leb_gt (2 ^ 32) _)) by apply (distinct_contracts_count d _ (proj1 Hsc)).
  destruct (pool_quotas_positive limit (length (pools_of d)) Hl) as [Hpos Hlen].
  eapply runs_mono; [apply (scan_pools_run _ _ d false Hsc W) |].
  - intros a Ha. exact Ha.
  - apply Forall_forall. intros [p q] Hin%elem_of_zip_r. cbn. exact (proj1 (Forall_forall _ _) Hpos q Hin).
  - intros did d' (S' & Hf & Ht). split; [exact S' |]. split.
    + intros E p a Ha. destruct (Hf E) as [_ Hall]. destruct (decide (p ∈ pools_of d)) as [Hin|Hin].
      * apply list_elem_of_lookup in Hin as (i & Hi). destruct (lookup_lt_is_Some_2 (pool_quotas limit (length (pools_of d))) i) as [q Hq].
        { rewrite Hlen. by eapply lookup_lt_Some. }
        apply (Hall p q a); [| exact Ha]. apply list_elem_of_lookup. exists i. rewrite lookup_zip_with, Hi, Hq. reflexivity.
      * pose proof (ss_pend _ _ S' p a). rewrite (pend_other d p a Hin) in *. lia.
    + intros E. destruct (Ht E) as [?|(p & q & a & Hin & Ha & Hlt)]; [discriminate |]. exists p, a. split; [by apply elem_of_zip_l in Hin |]. by split.
Qed.

End Wallet.
