(* ===== verification/ReconcileFacts.v ===== *)
(** * Reconciliation marks the spent notes

    Matching the stored nullifiers to the notes never fails on the databases of
    [WalletFacts], keeps the invariant and shortens the backlog of nullifiers. *)

From stdpp Require Import sorting.
From S2P Require Import Prelude Ints Amounts Poseidon2Tables Hashes ProverMonad Encryption Notes Flows ScVals Events Storage Scan StorageFacts SyncFacts WalletFacts.

Section Reconcile.

Context {X : XdrLib}.
Variable derive : AccountKeys -> PoolCommitmentRow -> result StorageError (option DerivedUserNoteRow).

Abbreviation wallet_ok := (wallet_ok derive).
Abbreviation scannable := (scannable derive).

(** Every note of the pool with this nullifier is linked. *)
Definition settled (d : Db) (p : Z) (k : NullifierRow) : Prop :=
  forall n c, n ∈ user_notes d -> c ∈ pool_commitments d -> un_commitment_id n = pc_id c -> in_contract d (pc_event c) p ->
    un_expected_nullifier n = pn_nullifier k -> is_Some (un_nullifier_id n).

(** Two notes with the same nullifier are the same note. *)
Lemma notes_same d n n' : scannable d -> wallet_ok d -> n ∈ user_notes d -> n' ∈ user_notes d ->
  un_expected_nullifier n = un_expected_nullifier n' -> n = n'.
Proof.
  intros [Hs Hd] W Hn Hn' E. apply (fmap_nodup_eq un_commitment_id (user_notes d)); [apply (wo_notes_nodup derive d W) | exact Hn | exact Hn' |].
  destruct (wo_notes derive d W n Hn) as (c & a & x & Hc & Ha & Hx & Hid & _ & _ & Hex & _).
  destruct (wo_notes derive d W n' Hn') as (c' & a' & x' & Hc' & Ha' & Hx' & Hid' & _ & _ & Hex' & _).
  rewrite Hid, Hid'. f_equal. apply (derived_same derive d a a' c c' x x' Hs Hd (wo_tables derive d W) Ha Ha' Hc Hc' Hx Hx'). congruence.
Qed.

Record rec_step (d d' : Db) : Prop := {
  rs_shape : exists notes marks, d' = set_nullifier_scan marks (set_notes notes d);
  rs_wallet : wallet_ok d';
  rs_settled : forall p k, settled d p k -> settled d' p k;
}.

Lemma rec_shape d notes : set_notes notes d = set_nullifier_scan (nullifier_scan_state d) (set_notes notes d).
Proof. by destruct d. Qed.

Lemma rec_shape_refl d : d = set_nullifier_scan (nullifier_scan_state d) (set_notes (user_notes d) d).
Proof. by destruct d. Qed.

Lemma rec_step_refl d : wallet_ok d -> rec_step d d.
Proof. intros W. split; [| exact W | done]. exists (user_notes d), (nullifier_scan_state d). apply rec_shape_refl. Qed.

Lemma link_note_same hit k m : un_id (link_note hit k m) = un_id m /\ un_account (link_note hit k m) = un_account m /\
  un_commitment_id (link_note hit k m) = un_commitment_id m /\ un_expected_nullifier (link_note hit k m) = un_expected_nullifier m /\
  un_blinding (link_note hit k m) = un_blinding m /\ un_amount (link_note hit k m) = un_amount m.
Proof. unfold link_note. by destruct (hit m). Qed.

Lemma link_ids hit k (l : list UserNoteRow) : un_commitment_id <$> (link_note hit k <$> l) = un_commitment_id <$> l.
Proof. rewrite <- list_fmap_compose. apply list_fmap_ext. intros i m _. cbn. apply link_note_same. Qed.

(** Linking notes to a nullifier of theirs keeps the invariant. *)
Lemma link_wallet d p k hit :
  wallet_ok d -> k ∈ pool_nullifiers d -> in_contract d (pn_event k) p ->
  (forall m c, hit m = true -> c ∈ pool_commitments d -> un_commitment_id m = pc_id c -> in_contract d (pc_event c) p /\ un_expected_nullifier m = pn_nullifier k) ->
  wallet_ok (set_notes (link_note hit (pn_id k) <$> user_notes d) d) /\
  forall p' k', settled d p' k' -> settled (set_notes (link_note hit (pn_id k) <$> user_notes d) d) p' k'.
Proof.
  intros W Hk Hkp Hhit.
  assert (forall p' k', settled d p' k' -> settled (set_notes (link_note hit (pn_id k) <$> user_notes d) d) p' k') as Hset.
  { intros p' k' Hs n c (m & -> & Hm)%list_elem_of_fmap Hc Hid Hcp Hex. destruct (link_note_same hit (pn_id k) m) as (_ & _ & Ei & Ee & _).
    rewrite Ei in Hid. rewrite Ee in Hex. unfold link_note. destruct (hit m); [by eexists |]. exact (Hs m c Hm Hc Hid Hcp Hex). }
  split; [| exact Hset]. pose proof W as [W1 W2 W3 W4 W5 W6 W7 W8 W9]. split; try assumption.
  - destruct W1 as [T1 T2 T3 T4 T5 T6 T7 T8]. by split.
  - cbn. intros n (m & -> & Hm)%list_elem_of_fmap. destruct (W4 m Hm) as (c & a & x & Hc & Ha & Hx & H1 & H2 & H3 & H4 & H5 & H6 & H7).
    destruct (link_note_same hit (pn_id k) m) as (E1 & E2 & E3 & E4 & E5 & E6). exists c, a, x. rewrite E1, E2, E3, E4, E5, E6.
    repeat (split; [assumption |]). unfold link_note. destruct (hit m) eqn:Eh; [| exact H7].
    intros i [= <-]. exists k. destruct (Hhit m c Eh Hc H1) as [Hcp Hex]. split; [exact Hk |]. split; [reflexivity |].
    split; [congruence |]. unfold in_contract in *. transitivity (Some p); [exact Hkp | by symmetry].
  - cbn. by rewrite link_ids.
  - intros a p' m c x Ha Hm Hc Hp Hle Hx. unfold noted. cbn. rewrite link_ids. exact (W6 a p' m c x Ha Hm Hc Hp Hle Hx).
  - intros p' m k' n c Hm Hk' Hkp' Hle Hn Hc Hid Hcp Hex. apply (Hset p' k') with (c := c); try assumption.
    intros n' c' Hn' Hc' Hid' Hcp' Hex'. exact (W9 p' m k' n' c' Hm Hk' Hkp' Hle Hn' Hc' Hid' Hcp' Hex').
Qed.

Lemma find_id d c id : find (fun c => pc_id c =? id) (pool_commitments d) = Some c -> c ∈ pool_commitments d /\ pc_id c = id.
Proof. intros [H%list_elem_of_In E%Z.eqb_eq]%find_some. by split. Qed.

Lemma find_id_unique d c : tables_ok d -> c ∈ pool_commitments d -> commitment_by_id d (pc_id c) = Some c.
Proof.
  intros Ht Hc. unfold commitment_by_id. destruct (find _ _) as [c'|] eqn:E.
  - apply find_id in E as [Hc' E]. f_equal. apply (fmap_nodup_eq pc_id (pool_commitments d)); [apply (to_commitment_ids d Ht) | exact Hc' | exact Hc | exact E].
  - pose proof (find_none _ _ E c (proj1 (list_elem_of_In _ _) Hc)) as Hf. cbn in Hf. by rewrite Z.eqb_refl in Hf.
Qed.

Lemma link_nullifier_run d p k :
  scannable d -> wallet_ok d -> k ∈ pool_nullifiers d -> in_contract d (pn_event k) p ->
  runs (link_nullifier p k) d (fun _ d' => rec_step d d' /\ settled d' p k /\ nullifier_scan_state d' = nullifier_scan_state d).
Proof.
  intros Hsc W Hk Hkp. pose proof (wo_tables derive d W) as Ht. unfold link_nullifier. apply runs_read_bind. unfold id. cbv zeta.
  set (hit := link_hit d p k).
  assert (forall m, hit m = true -> un_nullifier_id m = None /\ un_expected_nullifier m = pn_nullifier k) as Hhit.
  { intros m Hm. unfold hit, link_hit in Hm. apply andb_true_iff in Hm as [Hm _]. apply andb_true_iff in Hm as [H1%bool_decide_eq_true H2%Z.eqb_eq]. by split. }
  assert (forall m c, hit m = true -> c ∈ pool_commitments d -> un_commitment_id m = pc_id c -> in_contract d (pc_event c) p /\ un_expected_nullifier m = pn_nullifier k) as Hhitc.
  { intros m c Hm Hc Hid. split; [| by apply Hhit]. unfold hit, link_hit in Hm. apply andb_true_iff in Hm as [_ Hm].
    rewrite Hid, (find_id_unique d c Ht Hc) in Hm. by apply bool_decide_eq_true in Hm. }
  assert (forall m c, m ∈ user_notes d -> c ∈ pool_commitments d -> un_commitment_id m = pc_id c -> in_contract d (pc_event c) p ->
            un_expected_nullifier m = pn_nullifier k -> hit m = false -> is_Some (un_nullifier_id m)) as Hmiss.
  { intros m c Hm Hc Hid Hcp Hex Hf. unfold hit, link_hit in Hf. rewrite Hid, (find_id_unique d c Ht Hc), (proj2 (Z.eqb_eq _ _) Hex) in Hf.
    rewrite (bool_decide_true (contract_of d (pc_event c) = Some p)) in Hf by exact Hcp. rewrite !andb_true_r in Hf.
    apply bool_decide_eq_false in Hf. by apply not_eq_None_Some. }
  destruct (filter (fun m => hit m = true) (user_notes d)) as [|n0 [|n1 rest]] eqn:Ef.
  - apply runs_ret. split; [by apply rec_step_refl |]. split; [| reflexivity].
    intros n c Hn Hc Hid Hcp Hex. apply (Hmiss n c Hn Hc Hid Hcp Hex). destruct (hit n) eqn:E; [| reflexivity]. exfalso.
    apply (not_elem_of_nil n). rewrite <- Ef. by apply list_elem_of_filter.
  - assert (n0 ∈ filter (fun m => hit m = true) (user_notes d)) as [Hh0 Hn0]%list_elem_of_filter by (rewrite Ef; apply list_elem_of_here).
    rewrite (proj2 (existsb_false _ _)).
    + apply runs_write. destruct (link_wallet d p k hit W Hk Hkp Hhitc) as [W' Hset]. split; [split; [| exact W' | exact Hset] |].
      * eexists. exists (nullifier_scan_state d). apply rec_shape.
      * split; [| reflexivity]. intros n c (m & -> & Hm)%list_elem_of_fmap Hc Hid Hcp Hex. destruct (link_note_same hit (pn_id k) m) as (_ & _ & Ei & Ee & _).
        rewrite Ei in Hid. rewrite Ee in Hex. unfold link_note. destruct (hit m) eqn:E; [by eexists |].
        exact (Hmiss m c Hm Hc Hid Hcp Hex E).
    + intros m Hm. apply bool_decide_eq_false. intros Hl. destruct (wo_notes derive d W m Hm) as (c & a & x & _ & _ & _ & _ & _ & _ & Hex & _ & _ & Hlink).
      destruct (Hlink _ Hl) as (k' & Hk' & Eid & En & _).
      assert (k' = k) as -> by (apply (fmap_nodup_eq pn_id (pool_nullifiers d)); [apply (to_nullifier_ids d Ht) | exact Hk' | exact Hk | exact Eid]).
      destruct (Hhit n0 Hh0) as [H0 H1]. assert (m = n0) as -> by (apply (notes_same d m n0 Hsc W Hm Hn0); congruence). congruence.
  - exfalso. assert (n0 ∈ filter (fun m => hit m = true) (user_notes d)) as [Hh0 Hn0]%list_elem_of_filter by (rewrite Ef; apply list_elem_of_here).
    assert (n1 ∈ filter (fun m => hit m = true) (user_notes d)) as [Hh1 Hn1]%list_elem_of_filter by (rewrite Ef; apply list_elem_of_further, list_elem_of_here).
    assert (n0 = n1) as <- by (apply (notes_same d n0 n1 Hsc W Hn0 Hn1); destruct (Hhit n0 Hh0), (Hhit n1 Hh1); congruence).
    pose proof (fmap_nodup_filter un_commitment_id (fun m => hit m = true) _ (wo_notes_nodup derive d W)) as Hnd. rewrite Ef in Hnd.
    apply NoDup_cons in Hnd as [Hnin _]. apply Hnin. apply list_elem_of_here.
Qed.


Lemma rec_step_ingested d d' : rec_step d d' -> ingested d = ingested d'.
Proof. by intros [(notes & marks & ->) _ _]. Qed.

Lemma rec_step_tables d d' : rec_step d d' -> parsed_tables d' = parsed_tables d.
Proof. by intros [(notes & marks & ->) _ _]. Qed.

Lemma rec_step_trans d1 d2 d3 : rec_step d1 d2 -> rec_step d2 d3 -> rec_step d1 d3.
Proof.
  intros [(n1 & m1 & E1) W1 S1] [(n2 & m2 & E2) W2 S2]. split; [| exact W2 | auto]. exists n2, m2. by rewrite E2, E1.
Qed.

Lemma links_run p ks : forall d,
  scannable d -> wallet_ok d -> (forall k, k ∈ ks -> k ∈ pool_nullifiers d /\ in_contract d (pn_event k) p) ->
  runs (db_each (link_nullifier p) ks) d (fun _ d' => rec_step d d' /\ (forall k, k ∈ ks -> settled d' p k) /\
    nullifier_scan_state d' = nullifier_scan_state d).
Proof.
  induction ks as [|k ks IH]; intros d Hsc W Hks; cbn [db_each].
  - apply runs_ret. split; [by apply rec_step_refl |]. split; [| reflexivity]. intros k Hk. by apply not_elem_of_nil in Hk.
  - destruct (Hks k (list_elem_of_here _ _)) as [Hk Hkp].
    eapply runs_bind; [exact (link_nullifier_run d p k Hsc W Hk Hkp) |]. intros u d1 (S1 & Hset & Hst).
    pose proof (rec_step_ingested _ _ S1) as E1.
    eapply runs_mono; [apply (IH d1); [by apply (scannable_ingested derive d) | apply (rs_wallet _ _ S1) |] |].
    + intros k' Hk'. destruct (Hks k' (list_elem_of_further _ _ _ Hk')) as [H1 H2]. pose proof (rec_step_tables _ _ S1) as [= _ _ _ _ _ En _ _ _].
      rewrite En. split; [exact H1 |]. unfold in_contract. by rewrite <- (contract_of_ingested d d1 _ E1).
    + intros u' d' (S' & Hall & Hst'). split; [exact (rec_step_trans _ _ _ S1 S') |]. split; [| congruence].
      intros k' [-> | Hk']%elem_of_cons; [by apply (rs_settled _ _ S') | by apply Hall].
Qed.

Definition nullifier_mark (d : Db) (p : Z) : Z := default 0 (nullifier_scan_state d !! p).

(** How many nullifiers of a pool were not matched yet. *)
Definition npend (d : Db) (p : Z) : nat := length (pending_nullifiers d p (nullifier_mark d p)).

Lemma elem_of_pending_nullifiers d p last k : k ∈ pending_nullifiers d p last <-> k ∈ pool_nullifiers d /\ in_contract d (pn_event k) p /\ last < pn_id k.
Proof. unfold pending_nullifiers. rewrite elem_of_order_by, list_elem_of_filter. unfold in_contract. tauto. Qed.

Lemma set_nullifier_mark d p m :
  wallet_ok d -> (m = 0 \/ exists k, k ∈ pool_nullifiers d /\ pn_id k = m) ->
  (forall k, k ∈ pool_nullifiers d -> in_contract d (pn_event k) p -> pn_id k <= m -> settled d p k) ->
  wallet_ok (set_nullifier_scan (<[p := m]> (nullifier_scan_state d)) d).
Proof.
  intros [W1 W2 W3 W4 W5 W6 W7 W8 W9] Hm Hseen. split; try assumption.
  - destruct W1 as [T1 T2 T3 T4 T5 T6 T7 T8]. by split.
  - intros p' m' Hm'. cbn in Hm'. destruct (decide (p = p')) as [<-|E].
    + rewrite lookup_insert_eq in Hm'. injection Hm' as <-. exact Hm.
    + rewrite lookup_insert_ne in Hm' by exact E. exact (W8 p' m' Hm').
  - intros p' m' k n c Hm' Hk Hkp Hle Hn Hc Hid Hcp Hex. cbn in Hm'. destruct (decide (p = p')) as [<-|E].
    + rewrite lookup_insert_eq in Hm'. injection Hm' as <-. exact (Hseen k Hk Hkp Hle n c Hn Hc Hid Hcp Hex).
    + rewrite lookup_insert_ne in Hm' by exact E. exact (W9 p' m' k n c Hm' Hk Hkp Hle Hn Hc Hid Hcp Hex).
Qed.

Lemma npend_set d p m p' : nullifier_mark d p <= m ->
  (npend (set_nullifier_scan (<[p := m]> (nullifier_scan_state d)) d) p' <= npend d p')%nat.
Proof.
  intros Hle. unfold npend, nullifier_mark in *. change (pending_nullifiers (set_nullifier_scan _ d)) with (pending_nullifiers d).
  cbn [set_nullifier_scan nullifier_scan_state]. destruct (decide (p = p')) as [<-|E].
  - rewrite lookup_insert_eq. by apply backlog_le.
  - by rewrite lookup_insert_ne.
Qed.

(** The first statement of a pool: the mark exists. *)
Lemma init_nullifier_run d p : wallet_ok d ->
  runs (db_write (fun d => match nullifier_scan_state d !! p with Some _ => d | None => set_nullifier_scan (<[p := 0]> (nullifier_scan_state d)) d end)) d
    (fun _ d' => rec_step d d' /\ nullifier_scan_state d' !! p = Some (nullifier_mark d p) /\ forall p', npend d' p' = npend d p').
Proof.
  intros W. apply runs_write. unfold nullifier_mark. destruct (nullifier_scan_state d !! p) as [m|] eqn:E.
  { split; [by apply rec_step_refl |]. by rewrite E. }
  split; [split; [| | done] |].
  - exists (user_notes d). eexists. by destruct d.
  - apply set_nullifier_mark; [exact W | by left |]. intros k Hk _ Hle. pose proof (wo_nullifiers_positive derive d W k Hk). lia.
  - cbn. rewrite lookup_insert_eq. split; [reflexivity |]. intros p'. unfold npend, nullifier_mark.
    change (pending_nullifiers (set_nullifier_scan _ d)) with (pending_nullifiers d). cbn [set_nullifier_scan nullifier_scan_state].
    destruct (decide (p = p')) as [<-|Ep]; [by rewrite lookup_insert_eq, E | by rewrite lookup_insert_ne].
Qed.

Lemma npend_notes d notes p : npend (set_notes notes d) p = npend d p.
Proof. reflexivity. Qed.

Lemma reconcile_pool_run limit d p :
  0 < limit -> scannable d -> wallet_ok d ->
  runs (reconcile_pool limit p) d (fun did d' => rec_step d d' /\ (forall p', (npend d' p' <= npend d p')%nat) /\
    (did = false -> npend d' p = O) /\ (did = true -> (npend d' p < npend d p)%nat)).
Proof.
  intros Hl Hsc W. unfold reconcile_pool. apply runs_transaction.
  eapply runs_bind; [apply (init_nullifier_run d p W) |]. intros u d1 (S1 & Hmark & Hpend1).
  pose proof (rec_step_ingested _ _ S1) as E1. apply runs_read_bind. unfold id. rewrite Hmark. cbv zeta.
  set (last := nullifier_mark d p) in *. set (ks := take (Z.to_nat limit) (pending_nullifiers d1 p last)).
  assert (forall k, k ∈ ks -> k ∈ pending_nullifiers d1 p last) as Hks by (intros k (i & Hi%list_elem_of_lookup_2 & _)%elem_of_take; exact Hi).
  eapply runs_bind; [apply (links_run p ks d1); [by apply (scannable_ingested derive d) | apply (rs_wallet _ _ S1) |] |].
  { intros k Hk%Hks%elem_of_pending_nullifiers. tauto. }
  intros u2 d2 (S2 & Hset & Hst2). set (m := foldl _ last ks). destruct (foldl_max_ge pn_id ks last) as (Hm1 & Hm2 & Hm3). fold m in Hm1, Hm2, Hm3.
  pose proof (rec_step_tables _ _ S2) as [= _ _ _ _ _ En _ _ _]. pose proof (rec_step_ingested _ _ S2) as E2.
  assert (forall p', npend d2 p' = npend d p') as Hpend2.
  { intros p'. rewrite <- Hpend1. destruct (rs_shape _ _ S2) as (notes & marks & Ed2). unfold npend, nullifier_mark. rewrite Hst2.
    f_equal. rewrite Ed2. reflexivity. }
  assert (nullifier_mark d2 p = last) as Hmark2 by (unfold nullifier_mark; by rewrite Hst2, Hmark).
  assert (forall k, k ∈ pool_nullifiers d2 -> in_contract d2 (pn_event k) p -> pn_id k <= m -> settled d2 p k) as Hseen.
  { intros k Hk Hkp Hle. rewrite En in Hk. unfold in_contract in Hkp. rewrite <- (contract_of_ingested d1 d2 _ E2) in Hkp.
    destruct (Z.le_gt_cases (pn_id k) last) as [Hl1|Hl1].
    - intros n c Hn Hc Hid Hcp Hex. apply (wo_reconciled derive d2 (rs_wallet _ _ S2) p last k n c); try assumption; [by rewrite Hst2 | by rewrite En |].
      unfold in_contract. by rewrite <- (contract_of_ingested d1 d2 _ E2).
    - apply Hset. destruct Hm3 as [Hm3 | (km & Hkm & Hm3)]; [lia |]. unfold ks, pending_nullifiers.
      apply (order_by_prefix pn_id _ _ k km); [| | exact Hkm | lia].
      + apply fmap_nodup_filter, (to_nullifier_ids d1 (wo_tables derive d1 (rs_wallet _ _ S1))).
      + apply list_elem_of_filter. split; [split; [exact Hkp | exact Hl1] | exact Hk]. }
  assert (wallet_ok (set_nullifier_scan (<[p := m]> (nullifier_scan_state d2)) d2)) as Wm.
  { apply set_nullifier_mark; [apply (rs_wallet _ _ S2) | | exact Hseen]. destruct Hm3 as [-> | (km & Hkm & ->)].
    - destruct (wo_nullifier_marks derive d1 (rs_wallet _ _ S1) p last Hmark) as [?|(k & Hk & ?)]; [by left |]. right. exists k. by rewrite En.
    - right. exists km. split; [| reflexivity]. rewrite En. by apply Hks, elem_of_pending_nullifiers in Hkm as [? _]. }
  assert (length (pending_nullifiers d1 p last) = npend d p) as Hlen by (rewrite <- Hpend1; unfold npend, nullifier_mark; by rewrite Hmark).
  destruct ks as [|k0 ks'] eqn:Eks.
  - (* nothing to do *)
    assert (m = last) as Em by reflexivity. rewrite Em, Z.ltb_irrefl. apply runs_bind with (Q := fun _ d' => d' = d2); [by apply runs_ret |].
    intros u3 d3 ->. apply runs_ret. split; [exact (rec_step_trans _ _ _ S1 S2) |]. split; [intros p'; by rewrite Hpend2 |].
    split; [| discriminate]. intros _. rewrite Hpend2, <- Hlen. apply (f_equal length) in Eks. unfold ks in Eks. rewrite length_take in Eks. cbn in Eks. lia.
  - assert (last < m) as Hlt.
    { pose proof (Hm2 k0 (list_elem_of_here _ _)). specialize (Hks k0 (list_elem_of_here _ _)). apply elem_of_pending_nullifiers in Hks as (_ & _ & ?). lia. }
    rewrite (proj2 (Z.ltb_lt last m) Hlt). apply runs_write_bind, runs_ret. split; [| split].
    + apply (rec_step_trans _ d2); [exact (rec_step_trans _ _ _ S1 S2) |]. split; [exists (user_notes d2); eexists; by destruct d2 | exact Wm | done].
    + intros p'. rewrite <- Hpend2. apply npend_set. rewrite Hmark2. exact Hm1.
    + split; [discriminate |]. intros _. rewrite <- Hpend2. unfold npend, nullifier_mark at 1. cbn [set_nullifier_scan nullifier_scan_state].
      rewrite lookup_insert_eq, Hmark2. cbn [default from_option]. change (pending_nullifiers (set_nullifier_scan _ d2)) with (pending_nullifiers d2).
      pose proof (Hks k0 (list_elem_of_here _ _)) as (H1 & H2 & H3)%elem_of_pending_nullifiers.
      apply (backlog_lt pn_id _ _ last m k0 Hm1); [by rewrite En | | split; [exact H3 | apply Hm2, list_elem_of_here]].
      cbn beta. by rewrite <- (contract_of_ingested d1 d2 _ E2).
Qed.


(** ** All pools *)

Lemma reconcile_pools_run limit pools : 0 < limit -> forall d did,
  scannable d -> wallet_ok d ->
  runs (reconcile_pools limit pools did) d (fun did' d' => rec_step d d' /\ (forall p, (npend d' p <= npend d p)%nat) /\
    (did' = false -> did = false /\ forall p, p ∈ pools -> npend d' p = O) /\
    (did' = true -> did = true \/ exists p, p ∈ pools /\ (npend d' p < npend d p)%nat)).
Proof.
  intros Hl. induction pools as [|p pools IH]; intros d did Hsc W; cbn [reconcile_pools].
  - apply runs_ret. split; [by apply rec_step_refl |]. split; [done |]. split; [| by left]. intros ->. split; [reflexivity |].
    intros p Hp. by apply not_elem_of_nil in Hp.
  - eapply runs_bind; [apply (reconcile_pool_run limit d p Hl Hsc W) |]. intros b d1 (S1 & P1 & Hf1 & Ht1).
    eapply runs_mono; [apply (IH d1 (did || b)); [by apply (scannable_ingested derive d), Hsc; apply rec_step_ingested | apply (rs_wallet _ _ S1)] |].
    intros did' d' (S' & P' & Hf & Ht). split; [exact (rec_step_trans _ _ _ S1 S') |].
    split; [intros p'; specialize (P1 p'); specialize (P' p'); lia |]. split.
    + intros E. destruct (Hf E) as ([Hd Hb]%orb_false_iff & Hall). split; [exact Hd |].
      intros p' [-> | Hp']%elem_of_cons; [| by apply Hall]. pose proof (Hf1 Hb). specialize (P' p). lia.
    + intros E. destruct (Ht E) as [[Hd|Hb]%orb_true_iff | (p' & Hp' & Hlt)]; [by left | |].
      * right. exists p. split; [apply list_elem_of_here |]. pose proof (Ht1 Hb). specialize (P' p). lia.
      * right. exists p'. split; [by apply list_elem_of_further |]. specialize (P1 p'). lia.
Qed.

Definition nullifier_pools (d : Db) : list Z := distinct_contracts d (pn_event <$> pool_nullifiers d).

Lemma npend_other d p : p ∉ nullifier_pools d -> npend d p = O.
Proof.
  intros Hp. unfold npend. destruct (pending_nullifiers d p (nullifier_mark d p)) as [|k l] eqn:E; [reflexivity |]. exfalso. apply Hp.
  assert (k ∈ pending_nullifiers d p (nullifier_mark d p)) as (Hk & Hin & _)%elem_of_pending_nullifiers by (rewrite E; apply list_elem_of_here).
  apply elem_of_distinct_contracts. exists (pn_event k). split; [by apply list_elem_of_fmap_2 | exact Hin].
Qed.

Lemma reconcile_run limit d : 0 < limit -> scannable d -> wallet_ok d ->
  runs (reconcile_nullifiers limit) d (fun did d' => rec_step d d' /\ (forall p, (npend d' p <= npend d p)%nat) /\
    (did = false -> forall p, npend d' p = O) /\ (did = true -> exists p, p ∈ nullifier_pools d /\ (npend d' p < npend d p)%nat)).
Proof.
  intros Hl Hsc W. unfold reconcile_nullifiers. rewrite (proj2 (Z.eqb_neq limit 0)) by lia. apply runs_read_bind. unfold id. fold (nullifier_pools d).
  eapply runs_mono; [apply (reconcile_pools_run limit _ Hl d false Hsc W) |]. intros did d' (S' & P' & Hf & Ht).
  split; [exact S' |]. split; [exact P' |]. split.
  - intros E p. destruct (Hf E) as [_ Hall]. destruct (decide (p ∈ nullifier_pools d)) as [Hp|Hp]; [by apply Hall |].
    specialize (P' p). rewrite (npend_other d p Hp) in P'. lia.
  - intros E. destruct (Ht E) as [?|?]; [discriminate | assumption].
Qed.

(** ** Both passes *)

(** The work left for the two passes. *)
Definition notes_left (d : Db) : nat :=
  sum_list_with (fun a => sum_list_with (fun p => pend d p a) (pools_of d)) (get_accounts_with_latest_keypairs d)
  + sum_list_with (npend d) (nullifier_pools d).

Lemma sum_le {A} (f g : A -> nat) l : (forall x, x ∈ l -> (f x <= g x)%nat) -> (sum_list_with f l <= sum_list_with g l)%nat.
Proof.
  induction l as [|x l IH]; intros H; cbn; [lia |]. pose proof (H x (list_elem_of_here _ _)).
  assert (sum_list_with f l <= sum_list_with g l)%nat by (apply IH; intros y Hy; by apply H, list_elem_of_further). lia.
Qed.

Lemma sum_lt {A} (f g : A -> nat) l x : (forall y, y ∈ l -> (f y <= g y)%nat) -> x ∈ l -> (f x < g x)%nat -> (sum_list_with f l < sum_list_with g l)%nat.
Proof.
  induction l as [|y l IH]; intros H Hx Hlt; [by apply not_elem_of_nil in Hx |]. cbn. pose proof (H y (list_elem_of_here _ _)).
  assert (forall z, z ∈ l -> (f z <= g z)%nat) as Hl by (intros z Hz; by apply H, list_elem_of_further).
  apply elem_of_cons in Hx as [-> | Hx]; [pose proof (sum_le f g l Hl); lia | specialize (IH Hl Hx Hlt); lia].
Qed.

Lemma rec_step_pend d d' p a : rec_step d d' -> pend d' p a = pend d p a.
Proof. by intros [(notes & marks & ->) _ _]. Qed.

Lemma scan_step_npend d d' p : scan_step derive d d' -> npend d' p = npend d p.
Proof. by intros [(notes & marks & ->) _ _ _]. Qed.

Definition all_scanned (d : Db) : Prop := (forall p a, is_account d a -> pend d p a = O) /\ forall p, npend d p = O.

Lemma process_notes_run limit d : 0 < limit -> scannable d -> wallet_ok d ->
  runs (process_notes derive limit) d (fun did d' => wallet_ok d' /\ parsed_tables d' = parsed_tables d /\
    (did = false -> all_scanned d') /\ (did = true -> (notes_left d' < notes_left d)%nat)).
Proof.
  intros Hl Hsc W. unfold process_notes. eapply runs_bind; [apply (scan_commitments_run derive limit d Hl Hsc W) |].
  intros b1 d1 (S1 & Hf1 & Ht1). pose proof (scan_step_ingested derive _ _ S1) as E1.
  eapply runs_bind; [apply (reconcile_run limit d1 Hl); [by apply (scannable_ingested derive d) | apply (ss_wallet derive _ _ S1)] |].
  intros b2 d2 (S2 & P2 & Hf2 & Ht2). apply runs_ret. pose proof (rec_step_ingested _ _ S2) as E2.
  assert (parsed_tables d2 = parsed_tables d) as Etab by (rewrite (rec_step_tables _ _ S2); apply (scan_step_tables derive _ _ S1)).
  assert (forall a, is_account d2 a <-> is_account d a) as Hac by (intros a; unfold is_account; by rewrite (accounts_ingested d d1 E1), (accounts_ingested d1 d2 E2)).
  split; [apply (rs_wallet _ _ S2) |]. split; [exact Etab |].
  assert (pools_of d2 = pools_of d /\ nullifier_pools d2 = nullifier_pools d /\ get_accounts_with_latest_keypairs d2 = get_accounts_with_latest_keypairs d) as (Ep & En & Ea).
  { pose proof Etab as [= _ Eraw _ _ _ Enn Ecc _ _]. unfold pools_of, nullifier_pools, distinct_contracts. rewrite Ecc, Enn.
    assert (contract_of d2 = contract_of d) as -> by (unfold contract_of, raw_of; by rewrite Eraw).
    split; [reflexivity |]. split; [reflexivity |]. by rewrite (accounts_ingested d d1 E1), (accounts_ingested d1 d2 E2). }
  split.
  - intros [H1 H2]%orb_false_iff. split; [| by apply Hf2]. intros p a Ha. rewrite (rec_step_pend d1 d2 p a S2). apply (Hf1 H1). by apply Hac.
  - assert (forall p, (npend d2 p <= npend d p)%nat) as Hn by (intros p; rewrite <- (scan_step_npend d d1 p S1); apply P2).
    assert (forall p a, (pend d2 p a <= pend d p a)%nat) as Hp by (intros p a; rewrite (rec_step_pend d1 d2 p a S2); apply (ss_pend derive _ _ S1)).
    unfold notes_left. rewrite Ep, En, Ea. intros [H1|H2]%orb_true_iff.
    + destruct (Ht1 H1) as (p & a & Hin & Ha & Hlt). apply Nat.add_lt_le_mono; [| apply sum_le; auto].
      apply (sum_lt _ _ _ a); [intros a' _; apply sum_le; auto | exact Ha |]. apply (sum_lt _ _ _ p); [auto | exact Hin |].
      by rewrite (rec_step_pend d1 d2 p a S2).
    + destruct (Ht2 H2) as (p & Hin & Hlt). apply Nat.add_le_lt_mono; [apply sum_le; intros a' _; apply sum_le; auto |].
      apply (sum_lt _ _ _ p); [auto | | by rewrite <- (scan_step_npend d d1 p S1)]. unfold nullifier_pools in *.
      pose proof (scan_step_tables derive _ _ S1) as [= _ Eraw _ _ _ Enn _ _ _]. rewrite Enn in Hin. unfold distinct_contracts in *.
      assert (contract_of d1 = contract_of d) as Ec by (unfold contract_of, raw_of; by rewrite Eraw). by rewrite Ec in Hin.
Qed.

End Reconcile.
