(* ===== verification/SyncTheorems.v ===== *)
(** * Properties of the local synchronisation

    [process_local_state] of [sdk/pool/src/core/state.rs]: it reaches the end on storable
    events and then the wallet is exact; it never ends when an event cannot be stored. *)

From stdpp Require Import sorting.
From S2P Require Import Prelude Ints Amounts Poseidon2Tables Hashes ProverMonad Encryption Notes Flows Soroban Pool ScVals ScValFacts Events Storage Scan StorageFacts SyncFacts WalletFacts ReconcileFacts.

Section LocalSync.

Context {X : XdrLib}.
Variable derive : AccountKeys -> PoolCommitmentRow -> result StorageError (option DerivedUserNoteRow).

Abbreviation wallet_ok := (wallet_ok derive).
Abbreviation scannable := (scannable derive).

Definition events_left (d : Db) : nat := length (unprocessed d).

Lemma unprocessed_tables d d' : parsed_tables d' = parsed_tables d -> unprocessed d' = unprocessed d.
Proof.
  intros [= Ec Er _ _ _ En Ecm Ek El]. unfold unprocessed. rewrite Er. apply list_filter_iff. intros r. unfold is_processed. by rewrite Ec, En, Ecm, Ek, El.
Qed.

Lemma tables_ingested d d' : parsed_tables d' = parsed_tables d -> ingested d' = ingested d.
Proof. intros H. exact (f_equal (fun t => t.1.1.1.1) H). Qed.

(** One round: fewer events, or no events and less work on notes, or nothing left. *)
Lemma local_batch_run d : scannable d -> wallet_ok d ->
  runs (process_local_state_batch derive) d (fun did d' => ingested d' = ingested d /\ wallet_ok d' /\
    ((did = true /\ ((events_left d' < events_left d)%nat \/
                     events_left d = O /\ events_left d' = O /\ (notes_left d' < notes_left d)%nat)) \/
     (did = false /\ events_left d' = O /\ all_scanned d'))).
Proof.
  intros Hsc W. unfold process_local_state_batch.
  destruct (process_events_run PROCESS_FETCH_LIMIT d ltac:(reflexivity) (proj1 Hsc) (wo_tables derive d W)) as [[Hu Hrun] | Hrun].
  - apply (runs_bind _ _ _ (fun b d' => b = false /\ d' = d)); [exists false, d; auto |]. intros b d1 [-> ->].
    eapply runs_bind; [apply (process_notes_run derive PROCESS_FETCH_LIMIT d ltac:(reflexivity) Hsc W) |].
    intros b2 d2 (W2 & Et & Hf & Ht). apply runs_ret. cbn [orb].
    split; [by apply tables_ingested |]. split; [exact W2 |]. unfold events_left. rewrite (unprocessed_tables d d2 Et), Hu. destruct b2.
    + left. split; [reflexivity |]. right. split; [reflexivity |]. split; [reflexivity | by apply Ht].
    + right. split; [reflexivity |]. split; [reflexivity | by apply Hf].
  - eapply runs_bind; [exact Hrun |]. intros b d1 (-> & He & Hlt). pose proof (ep_ingested _ _ He) as E1.
    pose proof (events_processed_wallet derive d d1 W He) as W1.
    eapply runs_bind; [apply (process_notes_run derive PROCESS_FETCH_LIMIT d1 ltac:(reflexivity)); [by apply (scannable_ingested derive d) | exact W1] |].
    intros b2 d2 (W2 & Et & _ & _). apply runs_ret. cbn [orb]. split.
    { rewrite <- E1. by apply tables_ingested. }
    split; [exact W2 |]. left. split; [reflexivity |]. left. unfold events_left. by rewrite (unprocessed_tables d1 d2 Et).
Qed.

Lemma local_state_ends : forall d, scannable d -> wallet_ok d ->
  exists fuel d', process_local_state derive fuel d = Some (Ok tt, d') /\ ingested d' = ingested d /\ wallet_ok d' /\ events_left d' = O /\ all_scanned d'.
Proof.
  enough (forall u w d, (events_left d <= u)%nat -> (events_left d = O -> (notes_left d < w)%nat) -> scannable d -> wallet_ok d ->
    exists fuel d', process_local_state derive fuel d = Some (Ok tt, d') /\ ingested d' = ingested d /\ wallet_ok d' /\ events_left d' = O /\ all_scanned d') as H.
  { intros d. apply (H (events_left d) (S (notes_left d)) d); lia. }
  induction u as [u IHu] using lt_wf_ind. induction w as [w IHw] using lt_wf_ind. intros d Hu Hw Hsc W.
  destruct (local_batch_run d Hsc W) as (did & d1 & Hrun & E1 & W1 & Hcase). pose proof (scannable_ingested derive d d1 (eq_sym E1) Hsc) as Hsc1.
  destruct Hcase as [(-> & Hless) | (-> & Hz & Hall)].
  - assert (exists fuel d', process_local_state derive fuel d1 = Some (Ok tt, d') /\ ingested d' = ingested d1 /\ wallet_ok d' /\ events_left d' = O /\ all_scanned d')
      as (fuel & d' & Hf & E' & Hrest).
    { destruct Hless as [Hless | (H0 & H1 & Hless)].
      - apply (IHu (events_left d1) ltac:(lia) (S (notes_left d1)) d1); [lia | lia | exact Hsc1 | exact W1].
      - specialize (Hw H0). apply (IHw (notes_left d) Hw d1); [lia | intros _; exact Hless | exact Hsc1 | exact W1]. }
    exists (S fuel), d'. cbn [process_local_state]. rewrite Hrun. split; [exact Hf |]. split; [congruence | exact Hrest].
  - exists 1%nat, d1. cbn [process_local_state]. rewrite Hrun. auto.
Qed.

(** ** What is true at the end *)

(** The pool of a note: the contract that published its commitment. *)
Definition note_pool (d : Db) (n : UserNoteRow) (p : Z) : Prop :=
  exists r e, event_at d r (Commitment e) /\ cc_commitment e = un_id n /\ raw_contract r = p.

Record wallet_exact (d : Db) : Prop := {
  we_events : unprocessed d = [];
  we_sound : forall n, n ∈ user_notes d -> note_ok derive d n;
  we_complete : forall a r e, is_account d a -> event_at d r (Commitment e) ->
    (forall i, exists x, derive a (row_at i e) = Ok (Some x)) -> exists n, n ∈ user_notes d /\ un_id n = cc_commitment e;
  we_spent : forall n p, n ∈ user_notes d -> note_pool d n p ->
    is_Some (un_nullifier_id n) <-> exists r e, event_at d r (Nullifier e) /\ cn_nullifier e = un_expected_nullifier n /\ raw_contract r = p;
}.

Lemma contract_of_raw d r : storable d -> r ∈ raw_contract_events d -> contract_of d (raw_id r) = Some (raw_contract r).
Proof. intros Hs Hr. unfold contract_of. by rewrite (raw_of_elem d r (st_ids d Hs) Hr). Qed.

(** Without unprocessed events every event has its row. *)
Lemma all_processed d r : storable d -> unprocessed d = [] -> r ∈ raw_contract_events d -> is_processed d (raw_id r) = true.
Proof.
  intros Hs Hu Hr. destruct (is_processed d (raw_id r)) eqn:E; [reflexivity |]. exfalso.
  apply (not_elem_of_nil r). rewrite <- Hu. apply list_elem_of_filter. split; [split; [exact E | by apply (st_contracts d Hs)] | exact Hr].
Qed.

Lemma row_of_event d r e id : storable d -> tables_ok d -> event_at d r e -> id = raw_id r -> is_processed d id = true ->
  match e with
  | Commitment _ => id ∈ pc_event <$> pool_commitments d
  | Nullifier _ => id ∈ pn_event <$> pool_nullifiers d
  | PublicKey _ => id ∈ pk_event <$> public_keys d
  | LeafAdded _ => id ∈ lr_event <$> asp_membership_leaves d
  | _ => True
  end.
Proof.
  intros Hs Ht He -> [H|[H|[H|H]]]%is_processed_spec; apply list_elem_of_fmap in H as (x & Hid & Hx).
  - destruct (to_commitments d Ht x Hx) as (r' & e' & He' & Hev & _).
    destruct (event_at_same d r r' e _ Hs He He' ltac:(congruence)) as [-> ->]. rewrite Hid. by apply list_elem_of_fmap_2.
  - destruct (to_public_keys d Ht x Hx) as (r' & e' & He' & Hev & _).
    destruct (event_at_same d r r' e _ Hs He He' ltac:(congruence)) as [-> ->]. rewrite Hid. by apply list_elem_of_fmap_2.
  - destruct (to_leaves d Ht x Hx) as (r' & e' & He' & Hev & _).
    destruct (event_at_same d r r' e _ Hs He He' ltac:(congruence)) as [-> ->]. rewrite Hid. by apply list_elem_of_fmap_2.
  - destruct (to_nullifiers d Ht x Hx) as (r' & e' & He' & Hev & _).
    destruct (event_at_same d r r' e _ Hs He He' ltac:(congruence)) as [-> ->]. rewrite Hid. by apply list_elem_of_fmap_2.
Qed.

Lemma pend_none d p a c : pend d p a = O -> c ∈ pool_commitments d -> in_contract d (pc_event c) p -> pc_id c <= mark d p a.
Proof.
  intros H Hc Hp. destruct (Z.le_gt_cases (pc_id c) (mark d p a)) as [?|Hgt]; [assumption |]. exfalso.
  unfold pend in H. apply nil_length_inv in H. apply (not_elem_of_nil c). rewrite <- H. apply elem_of_pending. split; [exact Hc | split; [exact Hp | lia]].
Qed.

Lemma npend_none d p k : npend d p = O -> k ∈ pool_nullifiers d -> in_contract d (pn_event k) p -> pn_id k <= nullifier_mark d p.
Proof.
  intros H Hk Hp. destruct (Z.le_gt_cases (pn_id k) (nullifier_mark d p)) as [?|Hgt]; [assumption |]. exfalso.
  unfold npend in H. apply nil_length_inv in H. apply (not_elem_of_nil k). rewrite <- H. apply elem_of_pending_nullifiers. split; [exact Hk | split; [exact Hp | lia]].
Qed.

Lemma ended_exact d : scannable d -> wallet_ok d -> events_left d = O -> all_scanned d -> wallet_exact d.
Proof.
  intros [Hs Hd] W Hu [Hp Hn]. apply nil_length_inv in Hu. pose proof (wo_tables derive d W) as Ht. split.
  - exact Hu.
  - apply (wo_notes derive d W).
  - intros a r e Ha He Hx. pose proof (row_of_event d r _ _ Hs Ht He eq_refl (all_processed d r Hs Hu (proj1 He))) as Hin.
    apply list_elem_of_fmap in Hin as (c & Hev & Hc). destruct (commitment_event d c Ht Hc) as (r' & e' & He' & Hrow & Hr' & Hcm).
    destruct (event_at_same d r r' _ _ Hs He He' ltac:(congruence)) as [-> [= ->]]. destruct (Hx (pc_id c)) as (x & Hdx). rewrite <- Hrow in Hdx.
    assert (in_contract d (pc_event c) (raw_contract r')) as Hcp by (unfold in_contract; rewrite Hr'; apply (contract_of_raw d r' Hs (proj1 He'))).
    pose proof (pend_none d _ a c (Hp _ a Ha) Hc Hcp) as Hle. unfold mark in Hle.
    destruct (account_commitment_scan d !! (raw_contract r', ak_account a)) as [m|] eqn:Em.
    + pose proof (wo_scanned derive d W a _ m c x Ha Em Hc Hcp Hle Hdx) as (n & Hid & Hnn)%list_elem_of_fmap.
      exists n. split; [exact Hnn |]. destruct (wo_notes derive d W n Hnn) as (c' & a' & x' & Hc' & _ & _ & Hid' & Huid & _).
      rewrite Huid, <- Hcm. f_equal. apply (fmap_nodup_eq pc_id (pool_commitments d)); [apply (to_commitment_ids d Ht) | exact Hc' | exact Hc | congruence].
    + cbn in Hle. pose proof (wo_commitments_positive derive d W c Hc). lia.
  - intros n p Hnn (r & e & He & Hcm & Hrp). destruct (wo_notes derive d W n Hnn) as (c & a & x & Hc & Ha & Hdx & Hid & Huid & _ & Hex & _ & _ & Hlink).
    destruct (commitment_event d c Ht Hc) as (r' & e' & He' & _ & Hr' & Hcm').
    assert (raw_id r = raw_id r') as Eid by (apply (st_commitments d Hs r r' e e' He He'); congruence).
    destruct (event_at_same d r r' _ _ Hs He He' Eid) as [-> [= ->]].
    assert (in_contract d (pc_event c) p) as Hcp by (unfold in_contract; rewrite Hr', <- Hrp; apply (contract_of_raw d r' Hs (proj1 He'))). split.
    + intros [i Hi]. destruct (Hlink i Hi) as (k & Hk & _ & Hkn & Hkc). destruct (to_nullifiers d Ht k Hk) as (rk & ek & Hek & Hkev & Hkv).
      exists rk, ek. split; [exact Hek |]. split; [congruence |]. unfold in_contract in Hcp. rewrite Hcp, Hkev in Hkc.
      rewrite (contract_of_raw d rk Hs (proj1 Hek)) in Hkc. by injection Hkc.
    + intros (rk & ek & Hek & Hkv & Hkc). pose proof (row_of_event d rk _ _ Hs Ht Hek eq_refl (all_processed d rk Hs Hu (proj1 Hek))) as Hin.
      apply list_elem_of_fmap in Hin as (k & Hkev & Hk). destruct (to_nullifiers d Ht k Hk) as (rk' & ek' & Hek' & Hkev' & Hkv').
      destruct (event_at_same d rk rk' _ _ Hs Hek Hek' ltac:(congruence)) as [-> [= ->]].
      assert (in_contract d (pn_event k) p) as Hkp by (unfold in_contract; rewrite Hkev', <- Hkc; apply (contract_of_raw d rk' Hs (proj1 Hek'))).
      pose proof (npend_none d p k (Hn p) Hk Hkp) as Hle. unfold nullifier_mark in Hle. destruct (nullifier_scan_state d !! p) as [m|] eqn:Em.
      * apply (wo_reconciled derive d W p m k n c Em Hk Hkp Hle Hnn Hc Hid Hcp). congruence.
      * cbn in Hle. pose proof (wo_nullifiers_positive derive d W k Hk). lia.
Qed.

(** ** Ingestion *)

(** New contracts and new raw events; the rest of the database is as before. *)
Record grows (d d' : Db) : Prop := {
  gr_contracts : exists l, contracts d' = contracts d ++ l;
  gr_raw : exists l, raw_contract_events d' = raw_contract_events d ++ l;
  gr_rest : set_contracts [] (set_metadata [] (set_raw [] d')) = set_contracts [] (set_metadata [] (set_raw [] d));
}.

Lemma grows_refl d : grows d d.
Proof. split; [exists []; by rewrite app_nil_r .. | reflexivity]. Qed.

Lemma grows_trans d1 d2 d3 : grows d1 d2 -> grows d2 d3 -> grows d1 d3.
Proof.
  intros [(l1 & E1) (r1 & F1) G1] [(l2 & E2) (r2 & F2) G2]. split.
  - exists (l1 ++ l2). by rewrite E2, E1, app_assoc.
  - exists (r1 ++ r2). by rewrite F2, F1, app_assoc.
  - by rewrite G2.
Qed.

Lemma contract_grows d a : runs (get_or_create_contract_id a) d (fun _ d' => grows d d').
Proof.
  unfold get_or_create_contract_id. apply runs_read_bind. destruct (lookup_id _ _).
  - apply runs_ret, grows_refl.
  - apply runs_write_bind, runs_ret. split; [by eexists | exists []; by rewrite app_nil_r | reflexivity].
Qed.

Lemma save_raw_event_grows d ev : runs (save_raw_event ev) d (fun _ d' => grows d d').
Proof.
  unfold save_raw_event. eapply runs_bind; [apply contract_grows |]. intros contract d1 H1. apply runs_read_bind. unfold id. destruct (raw_of d1 (ce_id ev)).
  - by apply runs_ret.
  - apply runs_write. apply (grows_trans d d1); [exact H1 |]. split; [exists []; by rewrite app_nil_r | by eexists | reflexivity].
Qed.

Lemma save_events_grows d evs : runs (save_events_batch evs) d (fun _ d' => grows d d').
Proof.
  apply runs_transaction. apply (runs_each save_raw_event (fun _ d' => grows d d')); [| apply grows_refl].
  intros ev l d1 H1. eapply runs_mono; [apply save_raw_event_grows |]. intros u d2 H2. exact (grows_trans _ _ _ H1 H2).
Qed.

(** A change of the progress, or of nothing. *)
Lemma metadata_grows d v : grows d (set_metadata v d).
Proof. split; [exists []; by rewrite app_nil_r .. | reflexivity]. Qed.

Lemma save_progress_grows d l fully : runs (save_sync_progress l fully) d (fun _ d' => grows d d').
Proof.
  apply runs_transaction. apply (runs_each (save_sync_entry fully) (fun _ d' => grows d d')); [| apply grows_refl].
  intros m l' d1 H1. eapply runs_bind; [apply contract_grows |]. intros c d2 H2. apply runs_read_bind, runs_write.
  apply (grows_trans d d1); [exact H1 |]. apply (grows_trans d1 d2); [exact H2 | apply metadata_grows].
Qed.

Lemma find_app_some {A} (f : A -> bool) l l' x : find f l = Some x -> find f (l ++ l') = Some x.
Proof. induction l as [|y l IH]; [discriminate |]. cbn. destruct (f y); [exact id | exact IH]. Qed.

Lemma grows_address d d' c : grows d d' -> is_Some (lookup_address (contracts d) c) -> lookup_address (contracts d') c = lookup_address (contracts d) c.
Proof.
  intros [(l & E) _ _] [a Ha]. rewrite E, Ha. unfold lookup_address in *. destruct (find _ (contracts d)) as [row|] eqn:F; [| discriminate].
  by rewrite (find_app_some _ _ l row F).
Qed.

Lemma grows_event_at d d' r e : storable d -> grows d d' -> event_at d r e -> event_at d' r e.
Proof.
  intros Hs G [Hr He]. split.
  - destruct (gr_raw _ _ G) as (l & ->). apply elem_of_app. by left.
  - unfold event_of. rewrite (grows_address d d' _ G (st_contracts d Hs r Hr)). exact He.
Qed.

Lemma grows_contract_of d d' r : storable d -> grows d d' -> r ∈ raw_contract_events d ->
  contract_of d' (raw_id r) = contract_of d (raw_id r).
Proof.
  intros Hs [_ (l & E) _] Hr. unfold contract_of. rewrite (raw_of_elem d r (st_ids d Hs) Hr). unfold raw_of. rewrite E.
  pose proof (raw_of_elem d r (st_ids d Hs) Hr) as F. unfold raw_of in F. by rewrite (find_app_some _ _ l r F).
Qed.

(** More contracts and other progress change nothing of the events. *)
Lemma same_events d d' r e : storable d -> grows d d' -> raw_contract_events d' = raw_contract_events d -> event_at d' r e -> event_at d r e.
Proof.
  intros Hs G Er [Hr He]. rewrite Er in Hr. split; [exact Hr |]. unfold event_of in *. by rewrite (grows_address d d' _ G (st_contracts d Hs r Hr)) in He.
Qed.

Lemma storable_same_events d d' : storable d -> grows d d' -> raw_contract_events d' = raw_contract_events d -> storable d'.
Proof.
  intros Hs G Er. assert (forall r e, event_at d' r e -> event_at d r e) as Hev by (intros r e; by apply same_events).
  destruct Hs as [S1 S2 S3 S4 S5 S6 S7]. split; rewrite ?Er; try assumption.
  - intros r Hr. rewrite (grows_address d d' _ G (S3 r Hr)). by apply S3.
  - intros r Hr. destruct (S4 r Hr) as (e & He & Hk). exists e. split; [| exact Hk]. unfold event_of in *. by rewrite (grows_address d d' _ G (S3 r Hr)).
  - intros r1 r2 e1 e2 H1%Hev H2%Hev. by apply S5.
  - intros r1 r2 e1 e2 H1%Hev H2%Hev. by apply S6.
  - intros r1 r2 e1 e2 H1%Hev H2%Hev. by apply S7.
Qed.

Lemma derive_ok_same_events d d' : storable d -> grows d d' -> raw_contract_events d' = raw_contract_events d -> derive_ok derive d -> derive_ok derive d'.
Proof.
  intros Hs G Er [D1 D2]. assert (forall r e, event_at d' r e -> event_at d r e) as Hev by (intros r e; by apply same_events).
  pose proof (gr_rest _ _ G) as [= Ea Ek _ _ _ _ _ _ _].
  assert (forall a, is_account d' a -> is_account d a) as Hac by (intros a; unfold is_account, get_accounts_with_latest_keypairs, latest_keypair; by rewrite Ea, Ek).
  split.
  - intros a r e i Ha%Hac He%Hev. by apply (D1 a r).
  - intros a1 a2 r1 r2 e1 e2 i1 i2 x1 x2 Ha1%Hac Ha2%Hac H1%Hev H2%Hev. by apply (D2 a1 a2 r1 r2).
Qed.

Lemma grows_tables d d' : storable d -> grows d d' -> tables_ok d -> tables_ok d'.
Proof.
  intros Hs G Ht. pose proof (gr_rest _ _ G) as [= _ _ En Ec Ep El _ _ _].
  destruct Ht as [T1 T2 T3 T4 T5 T6 T7 T8]. split; rewrite ?En, ?Ec, ?Ep, ?El; try assumption.
  - intros c Hc. destruct (T1 c Hc) as (r & e & He & H). exists r, e. split; [by apply (grows_event_at d d') | exact H].
  - intros c Hc. destruct (T2 c Hc) as (r & e & He & H). exists r, e. split; [by apply (grows_event_at d d') | exact H].
  - intros c Hc. destruct (T3 c Hc) as (r & e & He & H). exists r, e. split; [by apply (grows_event_at d d') | exact H].
  - intros c Hc. destruct (T4 c Hc) as (r & e & He & H). exists r, e. split; [by apply (grows_event_at d d') | exact H].
Qed.

Lemma ingest_wallet d d' : storable d -> grows d d' -> wallet_ok d -> wallet_ok d'.
Proof.
  intros Hs G W. pose proof (wo_tables derive d W) as Ht. pose proof (gr_rest _ _ G) as [= Ea Ek En Ec Ep El Eu Esc Ens].
  assert (forall a, is_account d' a <-> is_account d a) as Hac.
  { intros a. unfold is_account, get_accounts_with_latest_keypairs, latest_keypair. by rewrite Ea, Ek. }
  assert (forall c, c ∈ pool_commitments d -> contract_of d' (pc_event c) = contract_of d (pc_event c)) as Hcc.
  { intros c Hc. destruct (to_commitments d Ht c Hc) as (r & e & [Hr _] & -> & _). by apply grows_contract_of. }
  assert (forall k, k ∈ pool_nullifiers d -> contract_of d' (pn_event k) = contract_of d (pn_event k)) as Hcn.
  { intros k Hk. destruct (to_nullifiers d Ht k Hk) as (r & e & [Hr _] & -> & _). by apply grows_contract_of. }
  pose proof (grows_tables d d' Hs G Ht) as Ht'. destruct W as [_ W2 W3 W4 W5 W6 W7 W8 W9].
  split; unfold noted, in_contract; rewrite ?En, ?Ec, ?Eu, ?Esc, ?Ens; try assumption.
  - intros n Hn. destruct (W4 n Hn) as (c & a & x & H1 & H2 & H3 & H4 & H5 & H6 & H7 & H8 & H9 & H10). exists c, a, x. rewrite Ec.
    split; [exact H1 |]. split; [by apply Hac |]. repeat (split; [assumption |]). intros k Hk.
    destruct (H10 k Hk) as (m & M1 & M2 & M3 & M4). exists m. rewrite En, (Hcc c H1), (Hcn m M1). auto.
  - intros a p m c x Ha Hm Hc Hp. rewrite (Hcc c Hc) in Hp. exact (W6 a p m c x (proj1 (Hac a) Ha) Hm Hc Hp).
  - intros p m k n c Hm Hk Hkp Hle Hn Hc Hid Hcp. rewrite (Hcn k Hk) in Hkp. rewrite (Hcc c Hc) in Hcp. exact (W9 p m k n c Hm Hk Hkp Hle Hn Hc Hid Hcp).
Qed.

Lemma local_sync_run d d1 : storable d -> wallet_ok d -> grows d d1 -> storable d1 -> derive_ok derive d1 ->
  exists fuel d', process_local_state derive fuel d1 = Some (Ok tt, d') /\ ingested d' = ingested d1 /\ wallet_ok d' /\ wallet_exact d'.
Proof.
  intros Hs W G Hs1 Hd1. pose proof (ingest_wallet d d1 Hs G W) as W1.
  destruct (local_state_ends d1 (conj Hs1 Hd1) W1) as (fuel & d' & Hrun & E & W' & Hu & Hall).
  exists fuel, d'. split; [exact Hrun |]. split; [exact E |]. split; [exact W' |].
  apply ended_exact; [by apply (scannable_ingested derive d1) | exact W' | exact Hu | exact Hall].
Qed.

End LocalSync.

Lemma empty_wallet `{XdrLib} derive d : pool_commitments d = [] -> pool_nullifiers d = [] -> public_keys d = [] ->
  asp_membership_leaves d = [] -> user_notes d = [] -> account_commitment_scan d = ∅ -> nullifier_scan_state d = ∅ -> wallet_ok derive d.
Proof.
  intros Ec En Ek El Eu Es Ens.
  split; [split |..]; rewrite ?Ec, ?En, ?Ek, ?El, ?Eu, ?Es, ?Ens; try apply NoDup_nil_2; try (by intros ? ?%not_elem_of_nil);
    intros *; rewrite ?lookup_empty; intros; (discriminate || by eapply not_elem_of_nil).
Qed.

Lemma empty_storable `{XdrLib} d : raw_contract_events d = [] -> storable d.
Proof.
  intros E. assert (forall r e, ~ event_at d r e) as He by (intros r e [Hr _]; rewrite E in Hr; by apply not_elem_of_nil in Hr).
  split; rewrite ?E; [reflexivity | apply NoDup_nil_2 | by intros ? ?%not_elem_of_nil .. | | |]; intros ? ? ? ? []%He.
Qed.

(** ** A wallet with one note, spent *)

Definition sync_keys : NoteKeyPair := {| note_private := le_bytes 32 5; note_public := le_bytes 32 (public_key_of (scalar_of (le_bytes 32 5))) |}.
Definition sync_encryption : EncryptionKeyPair := {| enc_private := replicate 32 7; enc_public := replicate 32 7 |}.
Definition sync_commitment : Field := commitment_of 20 (public_key_of (scalar_of (le_bytes 32 5))) 88.
Definition sync_nullifier : Field := nullifier_of (scalar_of (le_bytes 32 5)) sync_commitment 0.
Definition sync_output : bytes :=
  match encrypt_output_note (C := ref_crypto) (replicate 32 7) 20 88 0%nat with Some (Ok c, _) => c | _ => [] end.

(** A codec of five texts. *)
Definition sync_xdr : XdrLib := {|
  from_xdr_base64 s :=
    if bool_decide (s = "c") then Some (ScSymbol "new_commitment_event")
    else if bool_decide (s = "n") then Some (ScSymbol "new_nullifier_event")
    else if bool_decide (s = "c0") then Some (u256_val sync_commitment)
    else if bool_decide (s = "n0") then Some (u256_val sync_nullifier)
    else if bool_decide (s = "out") then Some (struct_val [("encrypted_output", ScBytes sync_output); ("index", ScU32 0)])
    else Some ScVoid;
  scval_to_xdr _ := None;
  symbol_to_utf8 s := Some s;
  parse_address _ := None;
  account_strkey _ := "G";
  contract_strkey _ := "C";
|}.

Definition sync_events : list ContractEvent :=
  [{| ce_id := "1"; ce_ledger := 10; ce_contract_id := "pool"; ce_topics := ["c"; "c0"]; ce_value := "out" |};
   {| ce_id := "2"; ce_ledger := 11; ce_contract_id := "pool"; ce_topics := ["n"; "n0"]; ce_value := "void" |}].

Definition sync_start : Db := (save_encryption_and_note_keypairs "alice" sync_keys sync_encryption 3 empty_db).2.
Definition sync_db : Db := (save_events_batch sync_events sync_start).2.

#[local] Instance sync_xdr_laws : XdrLaws sync_xdr.
Proof. split. reflexivity. Qed.

Definition sync_account : AccountKeys := {| ak_account := 1; ak_note_keypair := sync_keys; ak_encryption_keypair := sync_encryption; ak_membership_blinding := 3 |}.
Definition sync_raw1 : RawEvent := {| raw_id := "1"; raw_ledger := 10; raw_contract := 1; raw_topics := "c,c0"; raw_value := "out" |}.
Definition sync_raw2 : RawEvent := {| raw_id := "2"; raw_ledger := 11; raw_contract := 1; raw_topics := "n,n0"; raw_value := "void" |}.
Definition sync_event1 : ClientCommitmentEvent := {| cc_id := "1"; cc_commitment := sync_commitment; cc_index := 0; cc_encrypted_output := sync_output |}.
Definition sync_event2 : ClientNullifierEvent := {| cn_id := "2"; cn_nullifier := sync_nullifier |}.

Lemma sync_parse1 : parse_event (H := sync_xdr) (event_of sync_db sync_raw1) = Ok (Commitment sync_event1).
Proof.
  refine (contract_event_parsed (X := sync_xdr) (event_of sync_db sync_raw1) (FromPool (NewCommitmentEvent sync_commitment 0 sync_output)) _ _); [apply commitment_in_field |].
  exists "c", ["c0"]. split; [reflexivity |]. split; [reflexivity |]. split; [repeat constructor | left; reflexivity].
Qed.

Lemma sync_parse2 : parse_event (H := sync_xdr) (event_of sync_db sync_raw2) = Ok (Nullifier sync_event2).
Proof.
  refine (contract_event_parsed (X := sync_xdr) (event_of sync_db sync_raw2) (FromPool (NewNullifierEvent sync_nullifier)) _ _); [apply nullifier_in_field |].
  exists "n", ["n0"]. split; [reflexivity |]. split; [reflexivity |]. split; [repeat constructor | right; split; reflexivity].
Qed.

Lemma sync_accounts : get_accounts_with_latest_keypairs sync_db = [sync_account].
Proof. reflexivity. Qed.

Lemma sync_raw : raw_contract_events sync_db = [sync_raw1; sync_raw2].
Proof. reflexivity. Qed.

Lemma sync_event_at r e : event_at (X := sync_xdr) sync_db r e ->
  (r = sync_raw1 /\ e = Commitment sync_event1) \/ (r = sync_raw2 /\ e = Nullifier sync_event2).
Proof.
  intros [Hr He]. rewrite sync_raw in Hr. apply elem_of_cons in Hr as [-> | Hr].
  - left. rewrite sync_parse1 in He. injection He as <-. auto.
  - apply list_elem_of_singleton in Hr as ->. right. rewrite sync_parse2 in He. injection He as <-. auto.
Qed.

Lemma derive_user_note_found `{Crypto} a row x n :
  try_decrypt_and_derive_user_note (ak_note_keypair a) (enc_private (ak_encryption_keypair a)) (cr_commitment row) (cr_leaf_index row)
    (cr_encrypted_output row) 0%nat = Some (Ok (Some x), n) ->
  derive_user_note a row = Ok (Some {| dn_amount := derived_amount x; dn_blinding := derived_blinding x; dn_expected_nullifier := expected_nullifier x |}).
Proof. intros E. unfold derive_user_note. rewrite E. reflexivity. Qed.

Lemma sync_derive i : derive_user_note (H := ref_crypto) sync_account (row_at i sync_event1)
  = Ok (Some {| dn_amount := 20; dn_blinding := 88; dn_expected_nullifier := sync_nullifier |}).
Proof.
  assert (decrypt_output_note (C := ref_crypto) (enc_private sync_encryption) sync_output 0%nat = Some (Ok (Some (20, 88)), 0%nat)) as Hd.
  { eapply (note_roundtrip (CL := ref_crypto_laws) (replicate 32 7) 20 88 0 sync_output _ 0); [reflexivity | split; reflexivity || lia | split; reflexivity || lia |].
    vm_compute. reflexivity. }
  assert (note_public sync_keys = le_bytes 32 (public_key_of (scalar_of (le_bytes 32 5)))) as Hk by reflexivity.
  refine (derive_user_note_found sync_account (row_at i sync_event1) (Build_DerivedUserNote 20 88 sync_nullifier) 0%nat _).
  etransitivity; [refine (derive_user_note_run sync_keys _ sync_commitment 0 _ 20 88 0 _ _ _ _ _ _ Hd) |]; [| apply length_le_bytes | lia | apply commitment_in_field | split; reflexivity || lia | split; reflexivity || lia |].
  - rewrite Hk. apply length_le_bytes.
  - rewrite bool_decide_true; [reflexivity |]. split; [lia |]. rewrite Hk, scalar_of_le_bytes by apply public_key_in_field. reflexivity.
Qed.

Lemma sync_storable : storable (X := sync_xdr) sync_db.
Proof.
  split.
  - reflexivity.
  - apply NoDup_ListNoDup. cbn. repeat constructor; cbn; intuition discriminate.
  - rewrite sync_raw. intros r Hr. repeat (apply elem_of_cons in Hr as [-> | Hr]; [by eexists |]). by apply not_elem_of_nil in Hr.
  - rewrite sync_raw. intros r [-> | Hr]%elem_of_cons.
    + exists (Commitment sync_event1). split; [exact sync_parse1 | cbn; lia].
    + apply list_elem_of_singleton in Hr as ->. exists (Nullifier sync_event2). split; [exact sync_parse2 | exact I].
  - intros r1 r2 e1 e2 [[-> _]|[_ E]]%sync_event_at [[-> _]|[_ E']]%sync_event_at _; (reflexivity || discriminate E || discriminate E').
  - intros r1 r2 e1 e2 [[_ E]|[-> _]]%sync_event_at [[_ E']|[-> _]]%sync_event_at _; (reflexivity || discriminate E || discriminate E').
  - intros r1 r2 e1 e2 [[_ E]|[_ E]]%sync_event_at; discriminate E.
Qed.

Lemma sync_derive_ok : derive_ok (X := sync_xdr) (derive_user_note (H := ref_crypto)) sync_db.
Proof.
  assert (forall a, is_account sync_db a -> a = sync_account) as Ha by (intros a; unfold is_account; rewrite sync_accounts; apply list_elem_of_singleton).
  split.
  - intros a r e i ->%Ha [[_ [= ->]]|[_ E]]%sync_event_at; [| discriminate E]. eexists. apply sync_derive.
  - assert (forall r e, event_at (X := sync_xdr) sync_db r (Commitment e) -> e = sync_event1) as He.
    { intros r e [[_ E]|[_ E]]%sync_event_at; [injection E as E; exact E | discriminate E]. }
    intros a1 a2 r1 r2 e1 e2 i1 i2 x1 x2 _ _ H1%He H2%He _ _ _. exact (f_equal cc_commitment (eq_trans H1 (eq_sym H2))).
Qed.

(** Local synchronisation ends, and then the wallet is exact: from a database whose
    tables agree with its events, after the ingestion of further events that can all be
    stored, some number of rounds reaches the end; every event then has its row, each note
    is one an account derives from a published commitment, each commitment an account can
    derive a note from has its note, and a note is marked spent exactly when its pool has
    published its nullifier. The tables agree again, so the claim applies to the next batch. *)
Theorem local_sync_completes (X : XdrLib) derive (d : Db) (evs : list ContractEvent) :
  storable d -> wallet_ok derive d -> let d1 := (save_events_batch evs d).2 in storable d1 -> derive_ok derive d1 ->
  exists fuel d', process_local_state derive fuel d1 = Some (Ok tt, d') /\ ingested d' = ingested d1 /\ wallet_ok derive d' /\ wallet_exact derive d'.
Proof.
  intros Hs W d1 Hs1 Hd1. destruct (save_events_grows d evs) as (u & d2 & E & G). unfold d1 in *. rewrite E in *.
  exact (local_sync_run derive d d2 Hs W G Hs1 Hd1).
Qed.

Lemma local_sync_completes_witness :
  exists fuel d', process_local_state (H := sync_xdr) (derive_user_note (H := ref_crypto)) fuel sync_db = Some (Ok tt, d') /\
    wallet_exact (X := sync_xdr) derive_user_note d'.
Proof.
  destruct (local_sync_completes sync_xdr derive_user_note sync_start sync_events) as (fuel & d' & H & _ & _ & He).
  - by apply empty_storable.
  - apply empty_wallet; reflexivity.
  - exact sync_storable.
  - exact sync_derive_ok.
  - exists fuel, d'. split; [exact H | exact He].
Defined.
