(* ===== verification/SyncLimits.v ===== *)
(** * What the local synchronisation needs

    Rows always come from stored events and keys never repeat, whatever the events are;
    so a synchronisation that ends has found a row for every event. *)

From stdpp Require Import sorting.
From S2P Require Import Prelude Ints Amounts Poseidon2Tables Hashes ProverMonad Encryption Notes Flows ScVals ScValFacts Events Storage Scan StorageFacts SyncFacts WalletFacts ReconcileFacts SyncTheorems.

Section Limits.

Context {X : XdrLib}.
Variable derive : AccountKeys -> PoolCommitmentRow -> result StorageError (option DerivedUserNoteRow).

Definition leaf_key (l : LeafRow) : Z * Z := (lr_contract l, lr_index l).

(** Every row has its event, and the unique columns are unique. *)
Record sound (d : Db) : Prop := {
  so_commitments : forall c, c ∈ pool_commitments d -> exists r e, event_at d r (Commitment e) /\ pc_event c = raw_id r /\ pc_commitment c = cc_commitment e;
  so_nullifiers : forall n, n ∈ pool_nullifiers d -> exists r e, event_at d r (Nullifier e) /\ pn_event n = raw_id r /\ pn_nullifier n = cn_nullifier e;
  so_public_keys : forall k, k ∈ public_keys d -> exists r e, event_at d r (PublicKey e) /\ pk_event k = raw_id r;
  so_leaves : forall l, l ∈ asp_membership_leaves d -> exists r e, event_at d r (LeafAdded e) /\ lr_event l = raw_id r /\ leaf_key l = (raw_contract r, cl_index e);
  so_commitment_keys : NoDup (pc_commitment <$> pool_commitments d);
  so_nullifier_keys : NoDup (pn_nullifier <$> pool_nullifiers d);
  so_leaf_keys : NoDup (leaf_key <$> asp_membership_leaves d);
}.

(** The database the events were ingested in, and its identifiers. *)
Variable d0 : Db.
Hypothesis ids : NoDup (raw_id <$> raw_contract_events d0).

Definition stays (d : Db) : Prop := ingested d = ingested d0 /\ sound d.

Lemma stays_event d r e : stays d -> event_at d0 r e -> event_at d r e.
Proof. intros [E _]. apply event_at_ingested. by symmetry. Qed.

(** A table with one more row for one more event. *)
Lemma rows_snoc {A} (P : A -> Prop) l row : (forall c, c ∈ l -> P c) -> P row -> forall c, c ∈ l ++ [row] -> P c.
Proof. intros Hl Hr c [Hc|Hc]%elem_of_app; [by apply Hl |]. apply list_elem_of_singleton in Hc. by subst c. Qed.

Lemma save_nullifier_stays r e : event_at d0 r (Nullifier e) -> keeps stays (save_nullifier e).
Proof.
  intros He. apply keeps_read_bind. intros d Hd. unfold id. cbn zeta. destruct (existsb _ _) eqn:Hnew; [exact Hd |].
  destruct (existsb (fun r => bool_decide (pn_event r = _)) _); [exact Hd |]. destruct (raw_of _ _); [| exact Hd]. pose proof (stays_event d r _ Hd He) as He'.
  destruct Hd as [E [S1 S2 S3 S4 S5 S6 S7]]. split; [exact E |]. cbn. split; try assumption; cbn.
  - apply rows_snoc; [exact S2 |]. exists r, e. split; [exact He' |]. split; [exact (event_at_id d r _ He') | reflexivity].
  - apply nodup_snoc; [exact S6 |]. cbn. intros (n & Hn & Hin)%list_elem_of_fmap. apply (proj1 (existsb_false _ _) Hnew) in Hin. lia.
Qed.

Lemma save_commitment_stays r e : event_at d0 r (Commitment e) -> keeps stays (save_commitment e).
Proof.
  intros He. apply keeps_read_bind. intros d Hd. unfold id. cbn zeta. destruct (existsb _ _) eqn:Hnew; [exact Hd |].
  destruct (existsb (fun r => bool_decide (pc_event r = _)) _); [exact Hd |]. destruct (raw_of _ _); [| exact Hd]. pose proof (stays_event d r _ Hd He) as He'.
  destruct Hd as [E [S1 S2 S3 S4 S5 S6 S7]]. split; [exact E |]. cbn. split; try assumption; cbn.
  - apply rows_snoc; [exact S1 |]. exists r, e. split; [exact He' |]. split; [exact (event_at_id d r _ He') | reflexivity].
  - apply nodup_snoc; [exact S5 |]. cbn. intros (n & Hn & Hin)%list_elem_of_fmap. apply (proj1 (existsb_false _ _) Hnew) in Hin. lia.
Qed.

Lemma save_public_key_stays r e : event_at d0 r (PublicKey e) -> keeps stays (save_public_key e).
Proof.
  intros He. apply keeps_read_bind. intros d Hd. unfold id. cbn zeta. destruct (existsb _ _); [exact Hd |].
  destruct (raw_of _ _); [| exact Hd]. pose proof (stays_event d r _ Hd He) as He'.
  destruct Hd as [E [S1 S2 S3 S4 S5 S6 S7]]. split; [exact E |]. cbn. split; try assumption; cbn.
  apply rows_snoc; [exact S3 |]. exists r, e. split; [exact He' | exact (event_at_id d r _ He')].
Qed.

Lemma save_leaf_added_stays r e : event_at d0 r (LeafAdded e) -> keeps stays (save_leaf_added e).
Proof.
  intros He. apply keeps_read_bind. intros d Hd. unfold id. cbn zeta. destruct (raw_of d (cl_id e)) as [r'|] eqn:Hraw; [| exact Hd].
  destruct (existsb _ _) eqn:Hnew; [exact Hd |].
  destruct (existsb (fun r => bool_decide (lr_event r = _)) _); [exact Hd |]. pose proof (stays_event d r _ Hd He) as He'.
  assert (r' = r) as ->.
  { pose proof (event_at_id d r _ He') as Eid. cbn in Eid. rewrite Eid in Hraw. destruct Hd as [[= _ Er _ _ _] _]. destruct He' as [Hr _].
    rewrite raw_of_elem in Hraw; [by injection Hraw | by rewrite Er | exact Hr]. }
  destruct Hd as [E [S1 S2 S3 S4 S5 S6 S7]]. split; [exact E |]. cbn. split; try assumption; cbn.
  - apply rows_snoc; [exact S4 |]. exists r, e. split; [exact He' |]. split; [exact (event_at_id d r _ He') | reflexivity].
  - apply nodup_snoc; [exact S7 |]. intros (n & Hn & Hin)%list_elem_of_fmap. apply (proj1 (existsb_false _ _) Hnew) in Hin.
    unfold leaf_key in Hn. cbn in Hn. injection Hn as H1 H2. rewrite <- H1, <- H2, !Z.eqb_refl in Hin. discriminate.
Qed.

Lemma batch_of {E} (wrap : E -> ProcessedEvent) (as_e : ContractEvent -> option E) limit d e :
  (forall ev e, as_e ev = Some e <-> parse_event ev = Ok (wrap e)) -> ingested d = ingested d0 ->
  e ∈ omap as_e (rev (get_unprocessed_events limit d)) -> exists r, event_at d0 r (wrap e).
Proof.
  intros Has E0 (ev & Hin & He%Has)%list_elem_of_omap. rewrite <- Permutation_rev in Hin. apply list_elem_of_fmap in Hin as (r & -> & Hr).
  exists r. apply (event_at_ingested d d0 r _ E0). split; [| exact He].
  apply elem_of_take in Hr as (i & Hi%list_elem_of_lookup_2 & _). rewrite merge_sort_Permutation in Hi. by apply list_elem_of_filter in Hi as [_ Hi].
Qed.

Lemma process_events_stays limit : keeps stays (process_events limit).
Proof.
  apply keeps_read_bind. intros d Hd. unfold id. cbv zeta. destruct (bool_decide _); [exact Hd |]. rewrite collect_events_spec.
  cbn [b_nullifiers b_commitments b_pubkeys b_leaves]. revert Hd. pose proof (fun H : stays d => proj1 H) as E0. intros Hd. specialize (E0 Hd). revert d Hd E0.
  assert (forall d, ingested d = ingested d0 -> keeps stays (
    save_nullifier_events_batch (omap as_nullifier (rev (get_unprocessed_events limit d)));;
    save_commitment_events_batch (omap as_commitment (rev (get_unprocessed_events limit d)));;
    save_public_key_events_batch (omap as_public_key (rev (get_unprocessed_events limit d)));;
    save_leaf_added_events_batch (omap as_leaf (rev (get_unprocessed_events limit d)));; mret true)) as H; [| intros d Hd E0; exact (H d E0 d Hd)].
  intros d E0. repeat (apply keeps_bind; [| intros _]); try apply keeps_ret; apply keeps_transaction, keeps_each; intros e He.
  - destruct (batch_of Nullifier as_nullifier limit d e as_spec_nullifier E0 He) as (r & Hr). exact (save_nullifier_stays r e Hr).
  - destruct (batch_of Commitment as_commitment limit d e as_spec_commitment E0 He) as (r & Hr). exact (save_commitment_stays r e Hr).
  - destruct (batch_of PublicKey as_public_key limit d e as_spec_public_key E0 He) as (r & Hr). exact (save_public_key_stays r e Hr).
  - destruct (batch_of LeafAdded as_leaf limit d e as_spec_leaf E0 He) as (r & Hr). exact (save_leaf_added_stays r e Hr).
Qed.

Lemma stays_tables d d' : parsed_tables d' = parsed_tables d -> stays d -> stays d'.
Proof.
  intros Et [E S]. pose proof (tables_ingested d d' Et) as E'. split; [congruence |].
  assert (forall r e, event_at d r e -> event_at d' r e) as He by (intros r e; apply event_at_ingested; by symmetry).
  injection Et as _ _ _ _ _ En Ec Ek El. destruct S as [S1 S2 S3 S4 S5 S6 S7]. split; rewrite ?En, ?Ec, ?Ek, ?El; try assumption.
  - intros c Hc. destruct (S1 c Hc) as (r & e & H & H'). exists r, e. auto.
  - intros c Hc. destruct (S2 c Hc) as (r & e & H & H'). exists r, e. auto.
  - intros c Hc. destruct (S3 c Hc) as (r & e & H & H'). exists r, e. auto.
  - intros c Hc. destruct (S4 c Hc) as (r & e & H & H'). exists r, e. auto.
Qed.

Lemma dm_bind_Ok {A B} (m : DM A) (k : A -> DM B) d b d' : (m ≫= k) d = (Ok b, d') -> exists a d1, m d = (Ok a, d1) /\ k a d1 = (Ok b, d').
Proof. unfold mbind, dm_bind. destruct (m d) as [[a|e] d1]; [intros H; exists a, d1; auto | discriminate]. Qed.

Lemma process_events_false limit d d' : 0 < limit -> process_events limit d = (Ok false, d') -> unprocessed d = [] /\ d' = d.
Proof.
  intros Hl (u & d1 & [= <- <-] & H)%dm_bind_Ok. revert H. unfold id. cbv zeta. case_bool_decide as Hnil.
  - intros [= <-]. split; [| reflexivity]. unfold get_unprocessed_events in Hnil. apply fmap_nil_inv in Hnil.
    apply Permutation_nil_r. rewrite <- (merge_sort_Permutation raw_le). destruct (merge_sort raw_le (unprocessed d)); [reflexivity |].
    destruct (Z.to_nat limit) eqn:En; [lia | discriminate].
  - intros H. repeat apply dm_bind_Ok in H as (? & ? & _ & H). discriminate H.
Qed.

(** When the loop ends without an error, no event was left. *)
Lemma local_state_end fuel : forall d d', stays d -> process_local_state derive fuel d = Some (Ok tt, d') ->
  exists d1, stays d1 /\ unprocessed d1 = [].
Proof.
  induction fuel as [|f IH]; intros d d' Hd; cbn [process_local_state]; [discriminate |].
  unfold process_local_state_batch, mbind, dm_bind.
  pose proof (process_events_stays PROCESS_FETCH_LIMIT d Hd) as H1. destruct (process_events PROCESS_FETCH_LIMIT d) as [[b1|e1] d1] eqn:E1; [| discriminate].
  pose proof (process_notes_tables derive (parsed_tables d1) PROCESS_FETCH_LIMIT d1 eq_refl) as H2.
  destruct (process_notes derive PROCESS_FETCH_LIMIT d1) as [[b2|e2] d2] eqn:E2; [| discriminate].
  cbn in H1, H2. pose proof (stays_tables d1 d2 H2 H1) as Hd2. unfold mret, dm_ret. destruct b1; cbn [orb].
  - apply IH. exact Hd2.
  - destruct b2; [apply IH; exact Hd2 |]. intros _. exists d. split; [exact Hd |]. exact (proj1 (process_events_false PROCESS_FETCH_LIMIT d d1 ltac:(reflexivity) E1)).
Qed.

(** ** What has a row *)

Definition saved_kind (e : ProcessedEvent) : Prop :=
  match e with Nullifier _ | Commitment _ | PublicKey _ | LeafAdded _ => True | _ => False end.

Definition has_row (d : Db) (r : RawEvent) (e : ProcessedEvent) : Prop :=
  match e with
  | Nullifier e => exists n, n ∈ pool_nullifiers d /\ pn_event n = raw_id r /\ pn_nullifier n = cn_nullifier e
  | Commitment e => exists c, c ∈ pool_commitments d /\ pc_event c = raw_id r /\ pc_commitment c = cc_commitment e
  | PublicKey e => raw_id r ∈ pk_event <$> public_keys d
  | LeafAdded e => exists l, l ∈ asp_membership_leaves d /\ lr_event l = raw_id r /\ leaf_key l = (raw_contract r, cl_index e)
  | _ => False
  end.

Lemma raw_same d r r' : NoDup (raw_id <$> raw_contract_events d) -> r ∈ raw_contract_events d -> r' ∈ raw_contract_events d -> raw_id r = raw_id r' -> r = r'.
Proof. intros Hn Hr Hr' E. exact (fmap_nodup_eq raw_id _ r r' Hn Hr Hr' E). Qed.

Lemma processed_has_row d r : NoDup (raw_id <$> raw_contract_events d) -> sound d -> r ∈ raw_contract_events d -> is_processed d (raw_id r) = true ->
  exists e, parse_event (event_of d r) = Ok e /\ saved_kind e /\ has_row d r e.
Proof.
  intros Hn [S1 S2 S3 S4 _ _ _] Hr [H|[H|[H|H]]]%is_processed_spec; apply list_elem_of_fmap in H as (x & Hid & Hx).
  - destruct (S1 x Hx) as (r' & e & [Hr' He] & Hev & Hk). assert (r = r') as -> by (apply (raw_same d); congruence).
    exists (Commitment e). split; [exact He |]. split; [exact I |]. exists x. auto.
  - destruct (S3 x Hx) as (r' & e & [Hr' He] & Hev). assert (r = r') as -> by (apply (raw_same d); congruence).
    exists (PublicKey e). split; [exact He |]. split; [exact I |]. cbn. rewrite Hid. by apply list_elem_of_fmap_2.
  - destruct (S4 x Hx) as (r' & e & [Hr' He] & Hev & Hk). assert (r = r') as -> by (apply (raw_same d); congruence).
    exists (LeafAdded e). split; [exact He |]. split; [exact I |]. exists x. auto.
  - destruct (S2 x Hx) as (r' & e & [Hr' He] & Hev & Hk). assert (r = r') as -> by (apply (raw_same d); congruence).
    exists (Nullifier e). split; [exact He |]. split; [exact I |]. exists x. auto.
Qed.

(** Events that claim the same unique column. *)
Definition clash (r1 r2 : RawEvent) (e1 e2 : ProcessedEvent) : Prop :=
  match e1, e2 with
  | Commitment a, Commitment b => cc_commitment a = cc_commitment b
  | Nullifier a, Nullifier b => cn_nullifier a = cn_nullifier b
  | LeafAdded a, LeafAdded b => raw_contract r1 = raw_contract r2 /\ cl_index a = cl_index b
  | _, _ => False
  end.

Lemma rows_unique d r1 r2 e1 e2 : sound d -> has_row d r1 e1 -> has_row d r2 e2 -> clash r1 r2 e1 e2 -> raw_id r1 = raw_id r2.
Proof.
  intros [_ _ _ _ K1 K2 K3]. destruct e1, e2; try (by intros _ _ []); cbn.
  - intros (n1 & H1 & <- & V1) (n2 & H2 & <- & V2) E. f_equal. apply (fmap_nodup_eq _ _ _ _ K2); congruence.
  - intros (n1 & H1 & <- & V1) (n2 & H2 & <- & V2) E. f_equal. apply (fmap_nodup_eq _ _ _ _ K1); congruence.
  - intros (n1 & H1 & <- & V1) (n2 & H2 & <- & V2) [E E']. f_equal. apply (fmap_nodup_eq _ _ _ _ K3); congruence.
Qed.

Hypothesis known : forall r, r ∈ raw_contract_events d0 -> is_Some (lookup_address (contracts d0) (raw_contract r)).

Lemma ended_rows d r : stays d -> unprocessed d = [] -> r ∈ raw_contract_events d0 ->
  exists e, parse_event (event_of d0 r) = Ok e /\ saved_kind e /\ has_row d r e.
Proof.
  intros [E S] Hu Hr. pose proof E as [= Ec Er _ _ _]. unfold event_of. rewrite <- Ec. apply processed_has_row; [by rewrite Er | exact S | by rewrite Er |].
  destruct (is_processed d (raw_id r)) eqn:Ep; [reflexivity |]. exfalso. apply (not_elem_of_nil r). rewrite <- Hu.
  apply list_elem_of_filter. rewrite Er, Ec. split; [split; [exact Ep | by apply known] | exact Hr].
Qed.

(** An event without a row to be had: it is not of a kind that is stored, or another event
    claims its unique column. *)
Definition unstorable : Prop :=
  (exists r, r ∈ raw_contract_events d0 /\ forall e, parse_event (event_of d0 r) = Ok e -> ~ saved_kind e) \/
  (exists r1 r2 e1 e2, event_at d0 r1 e1 /\ event_at d0 r2 e2 /\ raw_id r1 <> raw_id r2 /\ clash r1 r2 e1 e2).

Lemma ended_storable d : stays d -> unprocessed d = [] -> ~ unstorable.
Proof.
  intros Hd Hu [(r & Hr & Hbad) | (r1 & r2 & e1 & e2 & [Hr1 P1] & [Hr2 P2] & Hne & Hc)].
  - destruct (ended_rows d r Hd Hu Hr) as (e & He & Hk & _). exact (Hbad e He Hk).
  - destruct (ended_rows d r1 Hd Hu Hr1) as (e1' & He1 & _ & R1). destruct (ended_rows d r2 Hd Hu Hr2) as (e2' & He2 & _ & R2).
    rewrite P1 in He1. rewrite P2 in He2. injection He1 as <-. injection He2 as <-. apply Hne. exact (rows_unique d r1 r2 e1 e2 (proj2 Hd) R1 R2 Hc).
Qed.

End Limits.

(** C20. The local synchronisation reaches its end only when every stored event has its row:
    with an event that cannot be parsed or is of another kind, or with two events that
    claim the same commitment, nullifier or leaf, every number of rounds ends in an error or
    leaves work, so the loop never returns success. *)
Theorem unstorable_event_never_ends (X : XdrLib) derive d fuel :
  NoDup (raw_id <$> raw_contract_events d) ->
  (forall r, r ∈ raw_contract_events d -> is_Some (lookup_address (contracts d) (raw_contract r))) ->
  sound d -> unstorable d ->
  process_local_state derive fuel d = None \/ exists e d', process_local_state derive fuel d = Some (Err e, d').
Proof.
  intros Hids Hknown Hs Hbad. destruct (process_local_state derive fuel d) as [[[[]|e] d']|] eqn:E; [| right; by exists e, d' | by left].
  destruct (local_state_end derive d Hids fuel d d' (conj eq_refl Hs) E) as (d1 & Hd1 & Hu).
  destruct (ended_storable d Hids Hknown d1 Hd1 Hu Hbad).
Qed.

(** Two outputs of a pool with the same commitment. *)
Definition twin_event (id : string) : ContractEvent :=
  {| ce_id := id; ce_ledger := 10; ce_contract_id := "pool"; ce_topics := ["name"; "topic"]; ce_value := "data" |}.

Definition twin_db : Db := (save_events_batch [twin_event "1"; twin_event "2"] empty_db).2.

Lemma unstorable_event_never_ends_witness :
  process_local_state (H := ref_xdr) (derive_user_note (H := ref_crypto)) 5 twin_db = None \/
  exists e d', process_local_state (H := ref_xdr) (derive_user_note (H := ref_crypto)) 5 twin_db = Some (Err e, d').
Proof.
  apply (unstorable_event_never_ends ref_xdr derive_user_note twin_db 5).
  - apply NoDup_ListNoDup. cbn. repeat constructor; cbn; intuition discriminate.
  - intros r Hr. cbn in Hr. repeat (apply elem_of_cons in Hr as [-> | Hr]; [by eexists |]). by apply not_elem_of_nil in Hr.
  - split; cbn; try apply NoDup_nil_2; by intros ? ?%not_elem_of_nil.
  - right. eexists (Build_RawEvent "1" 10 1 "name,topic" "data"), (Build_RawEvent "2" 10 1 "name,topic" "data"), _, _.
    split; [split; [apply list_elem_of_here | vm_compute; reflexivity] |].
    split; [split; [apply list_elem_of_further, list_elem_of_here | vm_compute; reflexivity] |].
    split; [discriminate | reflexivity].
Defined.
