(* ===== verification/QueryFacts.v ===== *)
(** * Properties of what the client reads

    The balances are those of the unspent notes, and after a complete synchronisation the
    leaves of a pool are the commitments it published, in order. *)

From Stdlib Require Import Ascii.
From stdpp Require Import sorting.
From S2P Require Import Prelude Ints Amounts Poseidon2Tables Hashes ProverMonad Encryption Notes Flows ScVals ScValFacts Events Storage Queries Scan StorageFacts SyncFacts WalletFacts ReconcileFacts SyncTheorems.

(** ** Balances *)

(** The amounts of the stored notes are texts of amounts, as [scan_row] writes them. *)
Definition amounts_ok (d : Db) : Prop := forall n, n ∈ user_notes d -> exists a, is_note a /\ un_amount n = NoteAmount_to_string a.

Definition amount_of (n : UserNoteRow) : NoteAmount := match column_amount (un_amount n) with Ok a => a | Err _ => 0 end.

Lemma column_amount_ok n a : is_note a -> un_amount n = NoteAmount_to_string a -> column_amount (un_amount n) = Ok (amount_of n) /\ amount_of n = a.
Proof.
  intros Ha E. assert (column_amount (un_amount n) = Ok a) as H; [| unfold amount_of; rewrite H; auto].
  rewrite E. unfold column_amount. destruct (amount_text_roundtrip a 0 Ha ltac:(vm_compute; split; congruence)) as (_ & _ & H & _).
  unfold NoteAmount_to_sql in H. by rewrite H.
Qed.

(** The sum of the amounts of a list of notes, and what of it lies in a pool. *)
Definition note_total (l : list JoinedNote) : Z := foldr (fun j t => amount_of (jn_note j) + t) 0 l.
Definition in_pool (pool : string) (l : list JoinedNote) : list JoinedNote := filter (fun j => jn_pool j = pool) l.

#[export] Instance note_total_perm : Proper (Permutation ==> eq) note_total.
Proof. intros l l' H. unfold note_total. induction H; cbn; [reflexivity | by f_equal | lia | by etransitivity]. Qed.

Lemma note_total_cons j l : note_total (j :: l) = amount_of (jn_note j) + note_total l.
Proof. reflexivity. Qed.

Definition rows_ok (l : list JoinedNote) : Prop := forall j, j ∈ l -> is_note (amount_of (jn_note j)) /\ column_amount (un_amount (jn_note j)) = Ok (amount_of (jn_note j)).

Lemma rows_ok_cons j l : rows_ok (j :: l) -> is_note (amount_of (jn_note j)) /\ column_amount (un_amount (jn_note j)) = Ok (amount_of (jn_note j)) /\ rows_ok l.
Proof. intros H. destruct (H j (list_elem_of_here _ _)) as [H1 H2]. split; [exact H1 |]. split; [exact H2 |]. intros x Hx. by apply H, list_elem_of_further. Qed.

Lemma note_total_nonneg l : rows_ok l -> 0 <= note_total l.
Proof. unfold note_total. induction l as [|j l IH]; cbn; [lia |]. intros ([? ?] & _ & Hl)%rows_ok_cons. specialize (IH Hl). lia. Qed.

Lemma rows_ok_filter l (P : JoinedNote -> Prop) `{Dec : forall x, Decision (P x)} : rows_ok l -> rows_ok (filter P l).
Proof. intros H' j [_ Hj]%list_elem_of_filter. by apply H'. Qed.

Definition balance (m : Totals) (pool : string) : Z := (default (0, 0) (m !! pool)).2.
Definition count (m : Totals) (pool : string) : Z := (default (0, 0) (m !! pool)).1.

(** The loop adds the amounts of each pool, or reports that one of them is too large. *)
Lemma aggregate_spec rows : forall m, rows_ok rows -> (forall p, 0 <= count m p <= 2 ^ 32 - 1) ->
  match aggregate rows m with
  | Ok m' => (forall p, balance m' p = balance m p + note_total (in_pool p rows)) /\
             (forall p, count m' p = Z.min (2 ^ 32 - 1) (count m p + zlength (in_pool p rows))) /\
             (forall p, p ∈ jn_pool <$> rows -> balance m' p < 2 ^ 128)
  | Err e => e = BalanceOverflow /\ exists p, p ∈ jn_pool <$> rows /\ 2 ^ 128 <= balance m p + note_total (in_pool p rows)
  end.
Proof.
  induction rows as [|j rows IH]; intros m Hrows Hc; cbn [aggregate].
  { unfold in_pool, zlength. cbn. split; [intros p; lia |]. split; [intros p; specialize (Hc p); lia |]. intros p Hp. by apply not_elem_of_nil in Hp. }
  apply rows_ok_cons in Hrows as (Ha & Ec & Hrows). rewrite Ec. cbn [mbind result_bind].
  assert (default (0, NoteAmount_ZERO) (m !! jn_pool j) = (count m (jn_pool j), balance m (jn_pool j))) as E by (by unfold count, balance; destruct (m !! jn_pool j) as [[]|]).
  rewrite E. unfold NoteAmount_checked_add, checked_add.
  destruct (Z.ltb_spec (balance m (jn_pool j) + amount_of (jn_note j)) (2 ^ 128)) as [Hlt|Hge]; cbn [ok_or mbind result_bind].
  2: { split; [reflexivity |]. exists (jn_pool j). split; [apply list_elem_of_here |]. unfold in_pool. rewrite filter_cons_True by reflexivity.
       rewrite note_total_cons. pose proof (note_total_nonneg _ (rows_ok_filter rows (fun x => jn_pool x = jn_pool j) Hrows)). lia. }
  set (m1 := <[jn_pool j := _]> m).
  assert (forall p, balance m1 p + note_total (in_pool p rows) = balance m p + note_total (in_pool p (j :: rows))) as Hb.
  { intros p. unfold balance, m1, in_pool. rewrite filter_cons. destruct (decide (jn_pool j = p)) as [<-|Hne].
    - rewrite lookup_insert_eq, note_total_cons. cbn. unfold balance. lia.
    - by rewrite lookup_insert_ne. }
  assert (forall p, 0 <= count m1 p <= 2 ^ 32 - 1 /\
    Z.min (2 ^ 32 - 1) (count m1 p + zlength (in_pool p rows)) = Z.min (2 ^ 32 - 1) (count m p + zlength (in_pool p (j :: rows)))) as Hcnt.
  { intros p. specialize (Hc p). unfold in_pool. rewrite filter_cons. destruct (decide (jn_pool j = p)) as [<-|Hne].
    - assert (count m1 (jn_pool j) = Z.min (2 ^ 32 - 1) (count m (jn_pool j) + 1)) as -> by (unfold count at 1, m1; by rewrite lookup_insert_eq).
      unfold zlength. cbn [length]. rewrite Nat2Z.inj_succ. split; lia.
    - assert (count m1 p = count m p) as -> by (unfold count, m1; by rewrite lookup_insert_ne). split; [exact Hc | reflexivity]. }
  specialize (IH m1 Hrows (fun p => proj1 (Hcnt p))). destruct (aggregate rows m1) as [m'|e].
  - destruct IH as (H1 & H2 & H3). split; [intros p; by rewrite H1, Hb |]. split; [intros p; rewrite H2; apply Hcnt |].
    intros p Hp. cbn in Hp. destruct (decide (p ∈ jn_pool <$> rows)) as [Hin|Hin]; [by apply H3 |]. apply elem_of_cons in Hp as [-> | Hp]; [| done].
    rewrite H1. assert (in_pool (jn_pool j) rows = []) as ->.
    { unfold in_pool. destruct (filter _ rows) as [|x l] eqn:F; [reflexivity |]. exfalso. apply Hin.
      assert (x ∈ filter (fun x => jn_pool x = jn_pool j) rows) as [Hx Hxr]%list_elem_of_filter by (rewrite F; apply list_elem_of_here).
      rewrite <- Hx. by apply list_elem_of_fmap_2. }
    assert (balance m1 (jn_pool j) = balance m (jn_pool j) + amount_of (jn_note j)) as -> by (unfold balance at 1, m1; by rewrite lookup_insert_eq). cbn [note_total foldr]. lia.
  - destruct IH as (-> & p & Hp & Hov). split; [reflexivity |]. exists p. split; [by apply list_elem_of_further |]. by rewrite <- Hb.
Qed.

Lemma pool_balances_spec pools : forall m, NoDup (pool_contract_id <$> pools) ->
  pool_balances pools m = (fun p => {| pb_pool_contract_id := pool_contract_id p; pb_token_contract_id := token_contract_id p; pb_token_label := token_label p;
    pb_amount := balance m (pool_contract_id p); pb_note_count := count m (pool_contract_id p) |}) <$> pools.
Proof.
  induction pools as [|p pools IH]; intros m Hnd; [reflexivity |]. cbn [pool_balances fmap list_fmap] in *. apply NoDup_cons in Hnd as [Hp Hnd].
  unfold NoteAmount_ZERO. rewrite (surjective_pairing (default (0, 0) (m !! pool_contract_id p))). f_equal. rewrite (IH _ Hnd).
  apply list_fmap_ext. intros i q Hq%list_elem_of_lookup_2. assert (pool_contract_id p <> pool_contract_id q) as Hne.
  { intros E. apply Hp. rewrite E. by apply list_elem_of_fmap_2. }
  unfold balance, count. by rewrite lookup_delete_ne.
Qed.

Lemma joined_rows_ok d l : amounts_ok d -> (forall j, j ∈ l -> j ∈ joined_notes d) -> rows_ok l.
Proof.
  intros Ha Hl j Hj. apply Hl in Hj. unfold joined_notes in Hj. apply list_elem_of_omap in Hj as (n & Hn & Hjn).
  assert (jn_note j = n) as ->.
  { unfold join_note in Hjn. destruct (lookup_address _ _); [| discriminate]. cbn in Hjn. destruct (commitment_by_id _ _); [| discriminate]. cbn in Hjn.
    destruct (raw_of _ _); [| discriminate]. cbn in Hjn. destruct (lookup_address _ _); [| discriminate]. cbn in Hjn. by injection Hjn as <-. }
  destruct (Ha n Hn) as (a & Hna & E). destruct (column_amount_ok n a Hna E) as [H1 H2]. split; [by rewrite H2 | exact H1].
Qed.

Lemma summaries_total l ss : rows_ok l -> summaries l = Ok ss -> foldr (fun s t => us_amount s + t) 0 ss = note_total l /\ length ss = length l.
Proof.
  revert ss. induction l as [|j l IH]; cbn [summaries]; intros ss Hl; [by intros [= <-] |].
  apply rows_ok_cons in Hl as (_ & Ec & Hl). intros (s & (a & Ha & (i & _ & (t & _ & [= <-])%bind_Ok)%bind_Ok)%bind_Ok & (others & Ho & [= <-])%bind_Ok)%bind_Ok.
  rewrite Ec in Ha. injection Ha as <-. destruct (IH _ Hl Ho) as [H1 H2]. cbn. unfold note_total in H1. rewrite H1, H2. auto.
Qed.

(** The unspent notes of an address. *)
Definition unspent_notes (d : Db) (address : string) : list JoinedNote :=
  filter (fun j => jn_owner j = address /\ is_unspent (jn_note j) = true) (joined_notes d).

Lemma listed_is_unspent d pool address : newest_first (filter (fun j => jn_owner j = address /\ jn_pool j = pool /\ is_unspent (jn_note j) = true) (joined_notes d))
  ≡ₚ in_pool pool (unspent_notes d address).
Proof.
  unfold newest_first, in_pool, unspent_notes. rewrite order_by_perm, list_filter_filter. apply Permutation_refl', list_filter_iff. intros j. tauto.
Qed.

Lemma listed_total d pool address notes : amounts_ok d -> list_unspent_user_notes d pool address = Ok notes ->
  foldr (fun s t => us_amount s + t) 0 notes = note_total (in_pool pool (unspent_notes d address)) /\
  length notes = length (in_pool pool (unspent_notes d address)).
Proof.
  intros Ha Hn. pose proof (listed_is_unspent d pool address) as Hperm. unfold list_unspent_user_notes in Hn. revert Hperm Hn.
  set (l := newest_first _). intros Hperm Hn. assert (rows_ok l) as Hok.
  { apply (joined_rows_ok d _ Ha). intros j Hj. unfold l, newest_first in Hj. rewrite elem_of_order_by in Hj. by apply list_elem_of_filter in Hj as [_ Hj]. }
  destruct (summaries_total _ _ Hok Hn) as [-> ->]. split; [by apply note_total_perm | by apply Permutation_length].
Qed.

(** The balances shown are those of the unspent notes: they are computed exactly when the
    amounts of each pool together fit 128 bits, and then the balance and the number of notes of every
    enabled pool are the sum and the number of the notes that the list of unspent notes of
    that pool returns. *)
Theorem balances_are_unspent_notes (d : Db) (address : string) (config : ContractConfig) :
  amounts_ok d -> NoDup (pool_contract_id <$> enabled_pools config) ->
  (list_portfolio_balances d address config = Err BalanceOverflow /\
   exists pool, 2 ^ 128 <= note_total (in_pool pool (unspent_notes d address))) \/
  (exists bs, list_portfolio_balances d address config = Ok bs /\
   (forall pool, note_total (in_pool pool (unspent_notes d address)) < 2 ^ 128) /\
   Forall2 (fun p b => pb_pool_contract_id b = pool_contract_id p /\ pb_token_contract_id b = token_contract_id p /\ pb_token_label b = token_label p /\
     forall notes, list_unspent_user_notes d (pool_contract_id p) address = Ok notes ->
       pb_amount b = foldr (fun s t => us_amount s + t) 0 notes /\ pb_note_count b = Z.min (2 ^ 32 - 1) (zlength notes))
     (enabled_pools config) bs).
Proof.
  intros Ha Hnd. unfold list_portfolio_balances. fold (unspent_notes d address). set (rows := merge_sort pool_le (unspent_notes d address)).
  assert (rows ≡ₚ unspent_notes d address) as Hperm by apply merge_sort_Permutation.
  assert (forall p, in_pool p rows ≡ₚ in_pool p (unspent_notes d address)) as Hp by (intros p; unfold in_pool; by rewrite Hperm).
  assert (rows_ok rows) as Hok by (apply (joined_rows_ok d _ Ha); intros j Hj; rewrite Hperm in Hj; by apply list_elem_of_filter in Hj as [_ Hj]).
  pose proof (aggregate_spec rows ∅ Hok) as H. specialize (H ltac:(intros p; unfold count; rewrite lookup_empty; cbn; lia)).
  destruct (aggregate rows ∅) as [m|e]; cbn [mbind result_bind].
  - right. destruct H as (Hb & Hc & Hlt). eexists. split; [reflexivity |]. split.
    { intros p. rewrite <- Hp. destruct (decide (p ∈ jn_pool <$> rows)) as [Hin|Hin].
      - specialize (Hlt p Hin). rewrite Hb in Hlt. unfold balance in Hlt. rewrite lookup_empty in Hlt. exact Hlt.
      - unfold in_pool. destruct (filter _ rows) as [|x l] eqn:F; [reflexivity |]. exfalso. apply Hin.
        assert (x ∈ filter (fun x => jn_pool x = p) rows) as [Hx Hxr]%list_elem_of_filter by (rewrite F; apply list_elem_of_here).
        rewrite <- Hx. by apply list_elem_of_fmap_2. }
    rewrite (pool_balances_spec _ m Hnd). apply Forall2_fmap_r, Forall_Forall2_diag, Forall_forall. intros p _. cbn. repeat (split; [reflexivity |]).
    intros notes Hn. destruct (listed_total d _ _ notes Ha Hn) as [Ht Hl]. rewrite <- Hp in Ht. pose proof (Permutation_length (Hp (pool_contract_id p))) as Hlen.
    unfold zlength in *. rewrite Ht, Hl, <- Hlen, Hb, Hc. unfold balance, count, zlength. rewrite lookup_empty. cbn [default from_option id fst snd]. split; lia.
  - left. destruct H as (-> & p & _ & Hov). split; [reflexivity |]. exists p. rewrite <- Hp. unfold balance in Hov. rewrite lookup_empty in Hov. exact Hov.
Qed.

(** A wallet with two notes in one pool. *)
Definition balance_note (id : Z) (amount : list ascii) : UserNoteRow :=
  {| un_id := id; un_account := 1; un_commitment_id := id; un_nullifier_id := None; un_expected_nullifier := 0; un_blinding := 0; un_amount := amount |}.

Definition balance_db : Db :=
  Build_Db [(1, "pool")] [] [{| raw_id := "1"; raw_ledger := 5; raw_contract := 1; raw_topics := ""; raw_value := "" |}] [(1, "alice")] [] []
    [{| pc_id := 1; pc_commitment := 1; pc_leaf_index := 0; pc_encrypted_output := []; pc_event := "1" |};
     {| pc_id := 2; pc_commitment := 2; pc_leaf_index := 1; pc_encrypted_output := []; pc_event := "1" |}] [] []
    [balance_note 1 (NoteAmount_to_string 30); balance_note 2 (NoteAmount_to_string 12)] ∅ ∅.

Definition balance_config : ContractConfig :=
  {| cfg_network := "testnet"; cfg_deployer := "d"; cfg_admin := "a"; cfg_asp_membership := "m"; cfg_asp_non_membership := "n"; cfg_verifier := "v";
     cfg_public_key_registry := "r"; cfg_pools := [{| pool_contract_id := "pool"; token_contract_id := "t"; deployment_ledger := 1; pool_enabled := true; pool_asset := Native |}] |}.

Lemma balances_are_unspent_notes_witness :
  exists bs, list_portfolio_balances balance_db "alice" balance_config = Ok bs /\ pb_amount <$> bs = [42].
Proof.
  destruct (balances_are_unspent_notes balance_db "alice" balance_config) as [[H _] | (bs & H & _ & Hall)].
  - intros n Hn. repeat (apply elem_of_cons in Hn as [-> | Hn]; [eexists; split; [| reflexivity]; split; lia |]). by apply not_elem_of_nil in Hn.
  - apply NoDup_singleton.
  - vm_compute in H. discriminate.
  - exists bs. split; [exact H |]. apply Forall2_cons_inv_l in Hall as (b & bs' & (_ & _ & _ & Hb) & ->%Forall2_nil_inv_l & ->).
    destruct (list_unspent_user_notes balance_db "pool" "alice") as [notes|] eqn:E; [| vm_compute in E; discriminate].
    destruct (Hb notes E) as [Ht _]. cbn. rewrite Ht. vm_compute in E. injection E as <-. reflexivity.
Defined.

(** ** The operational feed *)

Lemma count_positive p l : 0 < count_of p l <-> p ∈ l.
Proof.
  unfold count_of, zlength. split.
  - intros H. destruct (filter (fun q => q = p) l) as [|x rest] eqn:E; [cbn in H; lia |].
    assert (x ∈ filter (fun q => q = p) l) as [-> Hx]%list_elem_of_filter by (rewrite E; apply list_elem_of_here). exact Hx.
  - intros H. assert (p ∈ filter (fun q => q = p) l) as Hp by by apply list_elem_of_filter.
    destruct (filter (fun q => q = p) l); [by apply not_elem_of_nil in Hp | cbn; lia].
Qed.

Lemma filter_key_none {A B} `{EqDecision B} (key : A -> B) l k : k ∉ key <$> l -> filter (fun x => key x = k) l = [].
Proof.
  intros H. destruct (filter _ l) as [|x rest] eqn:E; [reflexivity |]. exfalso. apply H.
  assert (x ∈ filter (fun x => key x = k) l) as [<- Hx]%list_elem_of_filter by (rewrite E; apply list_elem_of_here). by apply list_elem_of_fmap_2.
Qed.

Lemma foldr_add_app l1 l2 : foldr Z.add 0 (l1 ++ l2) = foldr Z.add 0 l1 + foldr Z.add 0 l2.
Proof. induction l1 as [|x l1 IH]; cbn; [reflexivity |]. lia. Qed.

(** What the grouping counts for a place: the row of the place, if it occurs. *)
Lemma group_sum {A} (f : Z * string * Z -> Z * string * A) (g : A -> Z) (places : list (Z * string)) (p : Z * string) :
  (forall x, (f x).1 = x.1) -> (forall q, g (f (q, 0)).2 = 0) ->
  foldr Z.add 0 (g ∘ snd <$> filter (fun row => row.1 = p) (f <$> group_count places)) = g (f (p, count_of p places)).2.
Proof.
  intros Hf H0. unfold group_count.
  replace (f <$> ((fun q => (q, count_of q places)) <$> remove_dups places)) with ((fun q => f (q, count_of q places)) <$> remove_dups places)
    by (by rewrite <- list_fmap_compose).
  assert (forall l, p ∉ l -> filter (fun row => row.1 = p) ((fun x => f (x, count_of x places)) <$> l) = []) as Hnone.
  { intros l Hl. apply filter_key_none. intros (x & -> & (y & -> & Hy)%list_elem_of_fmap)%list_elem_of_fmap. by rewrite Hf in Hl. }
  destruct (decide (p ∈ remove_dups places)) as [Hin|Hout].
  - pose proof (NoDup_remove_dups places) as Hnd. apply list_elem_of_split in Hin as (l1 & l2 & E). rewrite E in *.
    apply NoDup_app in Hnd as (_ & H1 & Hnd%NoDup_cons). destruct Hnd as [H2 _].
    rewrite fmap_app, fmap_cons, filter_app, (Hnone l1), filter_cons_True, (Hnone l2 H2); [cbn; lia | exact (Hf _) |].
    intros Hq. apply (H1 p Hq), list_elem_of_here.
  - rewrite (Hnone _ Hout). rewrite elem_of_remove_dups, <- count_positive in Hout. replace (count_of p places) with 0; [cbn; by rewrite H0 |].
    unfold count_of, zlength in *. lia.
Qed.

Lemma group_keys {A} (f : Z * string * Z -> Z * string * A) places p : (forall x, (f x).1 = x.1) -> p ∈ fst <$> (f <$> group_count places) <-> p ∈ places.
Proof.
  intros Hf. unfold group_count. rewrite list_elem_of_fmap. setoid_rewrite list_elem_of_fmap. setoid_rewrite list_elem_of_fmap. setoid_rewrite elem_of_remove_dups. split.
  - intros (x & -> & y & -> & z & -> & H). by rewrite Hf.
  - intros H. exists (f (p, count_of p places)). split; [by rewrite Hf | eauto].
Qed.

(** The activity of a pool in a ledger is shown once, with the numbers of its commitments and
    of its nullifiers there. *)
Lemma pool_activity_exact d place c n :
  (place, (c, n)) ∈ pool_activity d <->
  c = count_of place (event_places d (pc_event <$> pool_commitments d)) /\
  n = count_of place (event_places d (pn_event <$> pool_nullifiers d)) /\ 0 < c + n.
Proof.
  unfold pool_activity. cbv zeta. set (cs := event_places _ _). set (ns := event_places d (pn_event <$> _)).
  assert (forall p, foldr Z.add 0 (fst ∘ snd <$> filter (fun row => row.1 = p) (((fun g => (g.1, (g.2, 0))) <$> group_count cs) ++ ((fun g => (g.1, (0, g.2))) <$> group_count ns)))
    = count_of p cs) as Hc.
  { intros p. rewrite filter_app, fmap_app, foldr_add_app. rewrite (group_sum (fun g => (g.1, (0, g.2))) fst), (group_sum (fun g => (g.1, (g.2, 0))) fst) by done. cbn. lia. }
  assert (forall p, foldr Z.add 0 (snd ∘ snd <$> filter (fun row => row.1 = p) (((fun g => (g.1, (g.2, 0))) <$> group_count cs) ++ ((fun g => (g.1, (0, g.2))) <$> group_count ns)))
    = count_of p ns) as Hn.
  { intros p. rewrite filter_app, fmap_app, foldr_add_app. rewrite (group_sum (fun g => (g.1, (0, g.2))) snd), (group_sum (fun g => (g.1, (g.2, 0))) snd) by done. cbn. lia. }
  rewrite list_elem_of_fmap. setoid_rewrite elem_of_remove_dups. setoid_rewrite fmap_app. setoid_rewrite elem_of_app.
  setoid_rewrite (group_keys (fun g => (g.1, (g.2, 0))) cs _ ltac:(done)). setoid_rewrite (group_keys (fun g => (g.1, (0, g.2))) ns _ ltac:(done)).
  setoid_rewrite Hc. setoid_rewrite Hn. setoid_rewrite <- count_positive.
  assert (forall p l, 0 <= count_of p l) as Hpos by (intros; unfold count_of, zlength; lia).
  split.
  - intros (x & [= -> -> ->] & H). pose proof (Hpos x cs). pose proof (Hpos x ns). split; [reflexivity |]. split; [reflexivity | lia].
  - intros (-> & -> & H). exists place. split; [reflexivity |]. pose proof (Hpos place cs). pose proof (Hpos place ns). lia.
Qed.
