(* ===== verification/DbTypes.v ===== *)
(** * The types of the database

    The tables of [sdk/state/src/schema.sql] with its migrations, as an invariant: the width
    of every column, the keys that do not repeat and the references between tables.  Every
    operation of [storage.rs] and [processor.rs] that writes keeps it, also when it fails and
    whatever events the node delivered; with it, the reads of the notes, of the progress and of a
    recipient's keys do not fail. *)

From stdpp Require Import sorting relations.
From S2P Require Import Prelude Ints Amounts Poseidon2Tables Hashes ProverMonad Encryption Notes Flows ScVals ScValFacts Events Storage Queries Scan StorageFacts SyncFacts WalletFacts QueryFacts.

(** ** Decoded values *)

Definition parts_typed (p : Parts256) : Prop :=
  0 <= hi_hi p < 2 ^ 64 /\ 0 <= hi_lo p < 2 ^ 64 /\ 0 <= lo_hi p < 2 ^ 64 /\ 0 <= lo_lo p < 2 ^ 64.

(** The widths of the parts of a value: those of a map's entries and of the values that are
    no container. *)
Fixpoint value_typed (v : ScVal) : Prop :=
  match v with
  | ScU32 n => 0 <= n < 2 ^ 32
  | ScU64 n => 0 <= n < 2 ^ 64
  | ScU256 p => parts_typed p
  | ScBytes b => Forall is_byte b
  | ScMap (Some entries) => Forall (fun v => v) (map (fun e => value_typed e.2) entries)
  | _ => True
  end.

(** What [stellar_xdr] decodes has the types of its structures. *)
Class XdrTyped (X : XdrLib) : Prop := {
  decoded_typed s v : from_xdr_base64 s = Some v -> value_typed v;
}.

Definition event_columns (e : ProcessedEvent) : Prop :=
  match e with
  | Nullifier e => in_field (cn_nullifier e)
  | Commitment e => in_field (cc_commitment e) /\ 0 <= cc_index e < 2 ^ 32 /\ Forall is_byte (cc_encrypted_output e)
  | PublicKey e => length (ck_encryption_key e) = 32%nat /\ length (ck_note_key e) = 32%nat
  | LeafAdded e => in_field (cl_leaf e) /\ in_field (cl_root e) /\ 0 <= cl_index e < 2 ^ 32
  | _ => True
  end.

Section Parsed.

Context {X : XdrLib} {XT : XdrTyped X}.

Lemma decode_topics_typed topics vs : decode_topics topics = Ok vs -> Forall value_typed vs.
Proof using XT.
  revert vs. induction topics as [|s rest IH]; cbn [decode_topics]; intros vs H; ok_inv; [constructor |].
  constructor; [by eapply decoded_typed | by apply IH].
Qed.

Lemma event_values_typed entries : forall values out, Forall value_typed (snd <$> entries) -> map_Forall (fun _ => value_typed) values ->
  event_values entries values = Ok out -> map_Forall (fun _ => value_typed) out.
Proof.
  induction entries as [|[k v] rest IH]; cbn [event_values]; intros values out He Hv H; ok_inv; [done |].
  rewrite fmap_cons, Forall_cons in He. destruct He as [Hv' He]. destruct k; ok_inv. eapply IH; [exact He | | exact H]. by apply map_Forall_insert_2.
Qed.

(** The parsed event holds decoded values. *)
Lemma metadata_typed ev p : parse_event_metadata ev = Ok p ->
  (forall v, first_topic p = Ok v -> value_typed v) /\ (forall name v, value_of p name = Ok v -> value_typed v).
Proof using XT.
  unfold parse_event_metadata. destruct (ce_topics ev) as [|first rest]; [discriminate |]. intros H.
  apply bind_Ok in H as (topics & Ht%decode_topics_typed & H). apply bind_Ok in H as (f & _ & H). apply bind_Ok in H as (name & _ & H).
  apply bind_Ok in H as (data & Hd & H). apply ok_or_Ok, decoded_typed in Hd. apply bind_Ok in H as (values & Hv & H). injection H as <-.
  unfold first_topic, value_of. cbn [pe_topics pe_values]. split.
  - intros v H%ok_or_Ok. apply head_Some_elem_of in H. by eapply Forall_forall in Ht.
  - intros n v H%ok_or_Ok. assert (map_Forall (fun _ => value_typed) values) as Hm; [| by apply (Hm n)].
    destruct data as [| | | | | | | | | [entries|] | |]; try discriminate Hv; [injection Hv as <-; apply map_Forall_empty |].
    eapply event_values_typed; [| apply map_Forall_empty | exact Hv]. cbn [value_typed] in Hd. rewrite Forall_forall in Hd.
    apply Forall_forall. intros x (e & -> & He)%list_elem_of_fmap. apply Hd. apply list_elem_of_In, in_map_iff. exists e. split; [reflexivity | by apply list_elem_of_In].
Qed.

Lemma scval_field_typed v x : value_typed v -> scval_to_field v = Ok x -> in_field x.
Proof.
  intros Hv H. unfold scval_to_field in H. apply bind_Ok in H as (y & Hy & H). destruct v; try discriminate Hy.
  destruct (Field_try_from_u256 y) eqn:E in H; [| discriminate H]. injection H as ->. apply Field_try_from_u256_Ok in E as [-> Hlt].
  split; [| exact Hlt]. cbn in Hv, Hy. destruct Hv as (_ & _ & _ & H4). ok_inv.
  repeat match goal with H : checked_add _ _ _ = Some _ |- _ => apply checked_add_Some in H as [? ?] end.
  pose proof (fun a => Z.mod_pos_bound a (2 ^ 256) ltac:(lia)) as Hm. pose proof (Hm (Z.shiftl (hi_hi p) 192)). pose proof (Hm (Z.shiftl (hi_lo p) 128)).
  pose proof (Hm (Z.shiftl (lo_hi p) 64)). lia.
Qed.

Lemma parse_event_columns ev e : parse_event ev = Ok e -> event_columns e.
Proof using XT.
  intros H. apply bind_Ok in H as (p & [Htopic Hvalue]%metadata_typed & H). cbv zeta in H.
  assert (forall name x, field_value p name = Ok x -> in_field x) as Hf.
  { intros name x (v & Hv & Hx)%bind_Ok. eapply scval_field_typed; [by eapply Hvalue | exact Hx]. }
  repeat case_if_in H; try discriminate H; apply bind_Ok in H as (y & Hy & [= <-]); cbn [event_columns]; try exact I.
  - apply bind_Ok in Hy as (v & Hv%Htopic & Hy). ok_inv. cbn. by eapply scval_field_typed.
  - apply bind_Ok in Hy as (v & Hv%Htopic & Hy). apply bind_Ok in Hy as (c & Hc & Hy). apply bind_Ok in Hy as (i & Hi%Hvalue & Hy).
    apply bind_Ok in Hy as (n & Hn & Hy). apply bind_Ok in Hy as (b & Hb%Hvalue & Hy). apply bind_Ok in Hy as (o & Ho & [= <-]). cbn.
    split; [exact (scval_field_typed _ _ Hv Hc) |]. destruct i; try discriminate Hn. injection Hn as <-. destruct b; try discriminate Ho. injection Ho as <-. split; [exact Hi | exact Hb].
  - unfold parse_public_key_event in Hy. ok_inv. unfold key_of in *. repeat match goal with H : (if (?a =? 32)%nat then _ else _) = Ok _ |- _ =>
      destruct (Nat.eqb_spec a 32); [injection H as <- | discriminate H] end. by split.
  - unfold parse_leaf_added in Hy. ok_inv. cbn. repeat match goal with H : field_value p _ = Ok _ |- _ => apply Hf in H end.
    match goal with H : try_into_u _ _ = Some _ |- _ => apply try_into_u_Some in H as [-> ?] end. auto.
Qed.

End Parsed.

(** ** The schema *)

Definition contract_ids (d : Db) : list Z := fst <$> contracts d.
Definition account_ids (d : Db) : list Z := fst <$> accounts d.
Definition event_ids (d : Db) : list string := raw_id <$> raw_contract_events d.
Definition nullifier_ids (d : Db) : list Z := pn_id <$> pool_nullifiers d.
Definition commitment_ids (d : Db) : list Z := pc_id <$> pool_commitments d.

(** A table of names: the identifiers and the names are keys. *)
Definition names_ok (t : list (Z * string)) : Prop := NoDup (fst <$> t) /\ NoDup (snd <$> t).

(** The rows, with the keys of the tables they refer to. *)
Definition sync_row (contracts : list Z) (r : SyncRow) : Prop :=
  sr_contract r ∈ contracts /\ 0 <= sr_indexed r < 2 ^ 32 /\ 0 <= sr_fully_indexed r < 2 ^ 32.

Definition raw_row (contracts : list Z) (r : RawEvent) : Prop := raw_contract r ∈ contracts /\ 0 <= raw_ledger r < 2 ^ 32.

Definition keys_typed (note : NoteKeyPair) (encryption : EncryptionKeyPair) (blinding : Field) : Prop :=
  length (note_public note) = 32%nat /\ length (note_private note) = 32%nat /\
  length (enc_public encryption) = 32%nat /\ length (enc_private encryption) = 32%nat /\ in_field blinding.

Definition keypair_row (accounts : list Z) (k : KeypairRow) : Prop :=
  kr_account k ∈ accounts /\ keys_typed (kr_note k) (kr_encryption k) (kr_membership_blinding k).

Definition nullifier_row (events : list string) (n : NullifierRow) : Prop := pn_event n ∈ events /\ in_field (pn_nullifier n).

Definition commitment_row (events : list string) (c : CommitmentRow) : Prop :=
  pc_event c ∈ events /\ in_field (pc_commitment c) /\ 0 <= pc_leaf_index c < 2 ^ 32 /\ Forall is_byte (pc_encrypted_output c).

Definition public_key_row (events : list string) (k : PublicKeyRow) : Prop :=
  pk_event k ∈ events /\ length (pk_encryption_key k) = 32%nat /\ length (pk_note_key k) = 32%nat.

Definition leaf_row (contracts : list Z) (events : list string) (l : LeafRow) : Prop :=
  lr_contract l ∈ contracts /\ lr_event l ∈ events /\ in_field (lr_leaf l) /\ in_field (lr_root l) /\ 0 <= lr_index l < 2 ^ 32.

Definition note_row (accounts commitments nullifiers : list Z) (n : UserNoteRow) : Prop :=
  un_account n ∈ accounts /\ un_commitment_id n ∈ commitments /\ (forall k, un_nullifier_id n = Some k -> k ∈ nullifiers) /\
  in_field (un_id n) /\ in_field (un_expected_nullifier n) /\ in_field (un_blinding n) /\
  exists a, un_amount n = NoteAmount_to_string a /\ is_note a.

(** The marks of the scans. *)
Definition scan_keys (contracts accounts : list Z) (marks : gmap (Z * Z) Z) : Prop :=
  forall k m, marks !! k = Some m -> k.1 ∈ contracts /\ k.2 ∈ accounts.

Definition nullifier_scan_keys (contracts : list Z) (marks : gmap Z Z) : Prop := forall k m, marks !! k = Some m -> k ∈ contracts.

(** The database has the types, keys and references of its schema. *)
Record schema_ok (d : Db) : Prop := {
  so_contracts : names_ok (contracts d);
  so_accounts : names_ok (accounts d);
  so_metadata : NoDup (sr_contract <$> indexing_metadata d) /\ Forall (sync_row (contract_ids d)) (indexing_metadata d);
  so_raw : NoDup (event_ids d) /\ Forall (raw_row (contract_ids d)) (raw_contract_events d);
  so_keypairs : NoDup (kr_id <$> keypairs d) /\ Forall (keypair_row (account_ids d)) (keypairs d);
  so_nullifiers : NoDup (nullifier_ids d) /\ NoDup (pn_nullifier <$> pool_nullifiers d) /\ NoDup (pn_event <$> pool_nullifiers d) /\
    Forall (nullifier_row (event_ids d)) (pool_nullifiers d);
  so_commitments : NoDup (commitment_ids d) /\ NoDup (pc_commitment <$> pool_commitments d) /\ NoDup (pc_event <$> pool_commitments d) /\
    Forall (commitment_row (event_ids d)) (pool_commitments d);
  so_public_keys : NoDup (pk_event <$> public_keys d) /\ Forall (public_key_row (event_ids d)) (public_keys d);
  so_leaves : NoDup ((fun l => (lr_contract l, lr_index l)) <$> asp_membership_leaves d) /\ NoDup (lr_event <$> asp_membership_leaves d) /\
    Forall (leaf_row (contract_ids d) (event_ids d)) (asp_membership_leaves d);
  so_notes : NoDup (un_id <$> user_notes d) /\ NoDup (un_commitment_id <$> user_notes d) /\ NoDup (omap un_nullifier_id (user_notes d)) /\
    Forall (note_row (account_ids d) (commitment_ids d) (nullifier_ids d)) (user_notes d);
  so_scan : scan_keys (contract_ids d) (account_ids d) (account_commitment_scan d);
  so_nullifier_scan : nullifier_scan_keys (contract_ids d) (nullifier_scan_state d);
}.

(** *** References survive new rows *)

Ltac more := intros; eapply Forall_impl; [eassumption |]; intros ? Hrow; cbv beta in Hrow |- *; destruct_and! Hrow; split_and!; eauto.

Lemma sync_row_more ks ks' l : ks ⊆ ks' -> Forall (sync_row ks) l -> Forall (sync_row ks') l.
Proof. unfold sync_row. more. Qed.
Lemma raw_row_more ks ks' l : ks ⊆ ks' -> Forall (raw_row ks) l -> Forall (raw_row ks') l.
Proof. unfold raw_row. more. Qed.
Lemma keypair_row_more ks ks' l : ks ⊆ ks' -> Forall (keypair_row ks) l -> Forall (keypair_row ks') l.
Proof. unfold keypair_row. more. Qed.
Lemma nullifier_row_more ks ks' l : ks ⊆ ks' -> Forall (nullifier_row ks) l -> Forall (nullifier_row ks') l.
Proof. unfold nullifier_row. more. Qed.
Lemma commitment_row_more ks ks' l : ks ⊆ ks' -> Forall (commitment_row ks) l -> Forall (commitment_row ks') l.
Proof. unfold commitment_row. more. Qed.
Lemma public_key_row_more ks ks' l : ks ⊆ ks' -> Forall (public_key_row ks) l -> Forall (public_key_row ks') l.
Proof. unfold public_key_row. more. Qed.
Lemma leaf_row_more ks ks' es es' l : ks ⊆ ks' -> es ⊆ es' -> Forall (leaf_row ks es) l -> Forall (leaf_row ks' es') l.
Proof. unfold leaf_row. more. Qed.
Lemma note_row_more ks ks' cs cs' ns ns' l : ks ⊆ ks' -> cs ⊆ cs' -> ns ⊆ ns' -> Forall (note_row ks cs ns) l -> Forall (note_row ks' cs' ns') l.
Proof. unfold note_row. more. Qed.

Lemma scan_keys_more ks ks' cs cs' m : ks ⊆ ks' -> cs ⊆ cs' -> scan_keys ks cs m -> scan_keys ks' cs' m.
Proof. intros H1 H2 H k v [? ?]%H. auto. Qed.
Lemma nullifier_scan_keys_more ks ks' m : ks ⊆ ks' -> nullifier_scan_keys ks m -> nullifier_scan_keys ks' m.
Proof. intros H1 H k v ?%H. auto. Qed.

Lemma ids_refl {A} (l : list A) : l ⊆ l.
Proof. done. Qed.

Create HintDb schema discriminated.
#[export] Hint Resolve sync_row_more raw_row_more keypair_row_more nullifier_row_more commitment_row_more public_key_row_more leaf_row_more note_row_more scan_keys_more nullifier_scan_keys_more ids_refl : schema.

(** The invariant after a table is replaced by one with the keys of the old one. *)
Ltac replace_table := intros []; unfold contract_ids, account_ids, event_ids, nullifier_ids, commitment_ids in *; intros; split; cbn [set_contracts set_metadata set_raw set_accounts set_keypairs set_nullifiers set_commitments
  set_public_keys set_leaves set_notes set_scan set_nullifier_scan contracts indexing_metadata raw_contract_events accounts keypairs pool_nullifiers pool_commitments public_keys
  asp_membership_leaves user_notes account_commitment_scan nullifier_scan_state]; unfold contract_ids, account_ids, event_ids, nullifier_ids, commitment_ids; destruct_and?; split_and?; eauto with schema; assumption.

Lemma schema_empty : schema_ok empty_db.
Proof.
  split; try (repeat split; (exact NoDup_nil_2 || exact (List.Forall_nil _))); intros k m H; discriminate (eq_trans (eq_sym (lookup_empty k)) H).
Qed.

Lemma set_contracts_ok d t : schema_ok d -> names_ok t -> contract_ids d ⊆ fst <$> t -> schema_ok (set_contracts t d).
Proof. replace_table. Qed.
Lemma set_accounts_ok d t : schema_ok d -> names_ok t -> account_ids d ⊆ fst <$> t -> schema_ok (set_accounts t d).
Proof. replace_table. Qed.
Lemma set_metadata_ok d t : schema_ok d -> NoDup (sr_contract <$> t) -> Forall (sync_row (contract_ids d)) t -> schema_ok (set_metadata t d).
Proof. replace_table. Qed.
Lemma set_raw_ok d t : schema_ok d -> NoDup (raw_id <$> t) -> Forall (raw_row (contract_ids d)) t -> event_ids d ⊆ raw_id <$> t -> schema_ok (set_raw t d).
Proof. replace_table. Qed.
Lemma set_keypairs_ok d t : schema_ok d -> NoDup (kr_id <$> t) -> Forall (keypair_row (account_ids d)) t -> schema_ok (set_keypairs t d).
Proof. replace_table. Qed.
Lemma set_nullifiers_ok d t : schema_ok d -> NoDup (pn_id <$> t) -> NoDup (pn_nullifier <$> t) -> NoDup (pn_event <$> t) ->
  Forall (nullifier_row (event_ids d)) t -> nullifier_ids d ⊆ pn_id <$> t -> schema_ok (set_nullifiers t d).
Proof. replace_table. Qed.
Lemma set_commitments_ok d t : schema_ok d -> NoDup (pc_id <$> t) -> NoDup (pc_commitment <$> t) -> NoDup (pc_event <$> t) ->
  Forall (commitment_row (event_ids d)) t -> commitment_ids d ⊆ pc_id <$> t -> schema_ok (set_commitments t d).
Proof. replace_table. Qed.
Lemma set_public_keys_ok d t : schema_ok d -> NoDup (pk_event <$> t) -> Forall (public_key_row (event_ids d)) t -> schema_ok (set_public_keys t d).
Proof. replace_table. Qed.
Lemma set_leaves_ok d t : schema_ok d -> NoDup ((fun l => (lr_contract l, lr_index l)) <$> t) -> NoDup (lr_event <$> t) ->
  Forall (leaf_row (contract_ids d) (event_ids d)) t -> schema_ok (set_leaves t d).
Proof. replace_table. Qed.
Lemma set_notes_ok d t : schema_ok d -> NoDup (un_id <$> t) -> NoDup (un_commitment_id <$> t) -> NoDup (omap un_nullifier_id t) ->
  Forall (note_row (account_ids d) (commitment_ids d) (nullifier_ids d)) t -> schema_ok (set_notes t d).
Proof. replace_table. Qed.
Lemma set_scan_ok d m : schema_ok d -> scan_keys (contract_ids d) (account_ids d) m -> schema_ok (set_scan m d).
Proof. replace_table. Qed.
Lemma set_nullifier_scan_ok d m : schema_ok d -> nullifier_scan_keys (contract_ids d) m -> schema_ok (set_nullifier_scan m d).
Proof. replace_table. Qed.

(** ** Ingestion *)

Lemma ids_app {A K} (key : A -> K) (l l' : list A) : (key <$> l) ⊆ (key <$> l ++ l').
Proof. rewrite fmap_app. intros x Hx. apply elem_of_app. auto. Qed.

Lemma id_last {A K} (key : A -> K) (l : list A) x : key x ∈ key <$> l ++ [x].
Proof. apply list_elem_of_fmap_2, elem_of_app. right. by apply list_elem_of_singleton. Qed.

Lemma absent_key {A} (key : A -> Z) (l : list A) k : existsb (fun x => key x =? k) l = false -> k ∉ key <$> l.
Proof. intros H (x & -> & Hx)%list_elem_of_fmap. apply (proj1 (existsb_false _ _) H) in Hx. by rewrite Z.eqb_refl in Hx. Qed.

Lemma absent_event {A} (key : A -> string) (l : list A) k : existsb (fun x => bool_decide (key x = k)) l = false -> k ∉ key <$> l.
Proof. intros H (x & -> & Hx)%list_elem_of_fmap. apply (proj1 (existsb_false _ _) H) in Hx. by rewrite bool_decide_eq_true_2 in Hx. Qed.

Lemma raw_of_id d id r : raw_of d id = Some r -> r ∈ raw_contract_events d /\ raw_id r = id.
Proof. apply (find_key_some raw_id). Qed.

Lemma raw_of_event_ids d id r : raw_of d id = Some r -> id ∈ event_ids d.
Proof. intros [H <-]%raw_of_id. by apply list_elem_of_fmap_2. Qed.

#[export] Hint Resolve ids_app id_last absent_key absent_event raw_of_event_ids : schema.

Lemma names_snoc t address : names_ok t -> lookup_id t address = None -> names_ok (t ++ [(next_id (fst <$> t), address)]).
Proof.
  intros [H1 H2] Hn. split; [by apply (nodup_snoc_id fst) |]. apply nodup_snoc; [exact H2 |]. cbn.
  apply (find_key_none (snd (A := Z))). unfold lookup_id in Hn. by destruct (find _ t).
Qed.

(** The identifier of a name, created when it is new. *)
Lemma lookup_id_key t address id : lookup_id t address = Some id -> id ∈ fst <$> t.
Proof.
  unfold lookup_id. intros H. destruct (find _ t) as [row|] eqn:E; [| discriminate]. injection H as <-.
  apply (find_key_some (snd (A := Z))) in E as [E _]. by apply list_elem_of_fmap_2.
Qed.

Lemma contract_id_run d address : schema_ok d -> exists id t, get_or_create_contract_id address d = (Ok id, set_contracts t d) /\
  schema_ok (set_contracts t d) /\ id ∈ fst <$> t.
Proof.
  intros H. unfold get_or_create_contract_id, mbind, dm_bind, db_read, db_write, mret, dm_ret. destruct (lookup_id _ _) as [id|] eqn:E.
  - exists id, (contracts d). replace (set_contracts (contracts d) d) with d by (by destruct d). split; [done |]. split; [done |]. by apply lookup_id_key in E.
  - eexists _, _. split; [reflexivity |]. split; [| apply (id_last fst _ (_, _))].
    apply set_contracts_ok; [exact H | by apply names_snoc; [apply (so_contracts d H) |] | apply ids_app].
Qed.

Lemma account_id_run d address : schema_ok d -> exists id t, get_or_create_account address d = (Ok id, set_accounts t d) /\
  schema_ok (set_accounts t d) /\ id ∈ fst <$> t.
Proof.
  intros H. unfold get_or_create_account, mbind, dm_bind, db_read, db_write, mret, dm_ret. destruct (lookup_id _ _) as [id|] eqn:E.
  - exists id, (accounts d). replace (set_accounts (accounts d) d) with d by (by destruct d). split; [done |]. split; [done |]. by apply lookup_id_key in E.
  - eexists _, _. split; [reflexivity |]. split; [| apply (id_last fst _ (_, _))].
    apply set_accounts_ok; [exact H | by apply names_snoc; [apply (so_accounts d H) |] | apply ids_app].
Qed.

(** An event of the node: its ledger is a [u32]. *)
Definition ledger_typed (e : ContractEvent) : Prop := 0 <= ce_ledger e < 2 ^ 32.

Lemma save_raw_event_schema e : ledger_typed e -> keeps schema_ok (save_raw_event e).
Proof.
  intros He d H. destruct (contract_id_run d (ce_contract_id e) H) as (key & t & E & H' & Hid).
  unfold save_raw_event. unfold mbind, dm_bind at 1. rewrite E. unfold dm_bind, db_read, id. cbv beta iota.
  destruct (raw_of (set_contracts t d) (ce_id e)) as [r|] eqn:Er; [exact H' |]. apply (find_key_none raw_id) in Er.
  destruct (so_raw _ H') as [H1 H2]. apply set_raw_ok; [exact H' | by apply nodup_snoc | | apply ids_app].
  apply Forall_app. split; [exact H2 |]. apply Forall_singleton. by split.
Qed.

Lemma save_events_schema events : Forall ledger_typed events -> keeps schema_ok (save_events_batch events).
Proof. intros He. apply keeps_transaction, keeps_each. intros e Hin. apply save_raw_event_schema. by eapply Forall_forall in He. Qed.

Lemma save_sync_entry_schema fully entry : 0 <= sm_last_indexed_ledger entry < 2 ^ 32 -> keeps schema_ok (save_sync_entry fully entry).
Proof.
  intros He d H. destruct (contract_id_run d (sm_contract_id entry) H) as (key & t & E & H' & Hid).
  unfold save_sync_entry. unfold mbind, dm_bind at 1. rewrite E. unfold dm_bind, db_read, db_write. cbn zeta beta iota.
  destruct (so_metadata _ H') as [H1 H2]. cbn [snd].
  set (u := fun r : SyncRow => _). set (table := if existsb _ _ then _ else _).
  assert (forall r, sr_contract (u r) = sr_contract r) as Hu. { intros r. unfold u. by destruct (Z.eqb_spec (sr_contract r) key) as [->|]. }
  assert (NoDup (sr_contract <$> table) /\ Forall (sync_row (contract_ids (set_contracts t d))) table) as [T1 T2].
  { unfold table. destruct (existsb _ _) eqn:Eb; [done |]. split; [apply nodup_snoc; [exact H1 | by apply absent_key] |].
    apply Forall_app. split; [exact H2 |]. apply Forall_singleton. split; [exact Hid |]. split; [exact He | cbn; lia]. }
  apply set_metadata_ok; [exact H' | |].
  - rewrite <- list_fmap_compose. rewrite (list_fmap_ext _ sr_contract); [exact T1 | intros i r _; apply Hu].
  - apply Forall_fmap. eapply Forall_impl; [exact T2 |]. intros r (R1 & R2 & R3). unfold compose, sync_row. rewrite Hu. split; [exact R1 |].
    unfold u. destruct (_ =? _); [| done]. cbn. destruct fully; done.
Qed.

Lemma save_progress_schema metadata fully : Forall (fun m => 0 <= sm_last_indexed_ledger m < 2 ^ 32) metadata -> keeps schema_ok (save_sync_progress metadata fully).
Proof. intros Hm. apply keeps_transaction, keeps_each. intros e Hin. apply save_sync_entry_schema. by eapply Forall_forall in Hm. Qed.

Lemma clear_cursors_schema : keeps schema_ok clear_indexing_cursors.
Proof.
  intros d H. destruct (so_metadata d H) as [H1 H2]. apply set_metadata_ok; [exact H | |].
  - by rewrite <- list_fmap_compose.
  - apply Forall_fmap. eapply Forall_impl; [exact H2 |]. by intros r.
Qed.

Lemma save_keys_schema address note encryption blinding : keys_typed note encryption blinding ->
  keeps schema_ok (save_encryption_and_note_keypairs address note encryption blinding).
Proof.
  intros Hk. apply keeps_transaction. intros d H. destruct (account_id_run d address H) as (key & t & E & H' & Hid).
  unfold mbind, dm_bind at 1. rewrite E. unfold dm_bind, db_read, db_write. cbn [snd]. destruct (so_keypairs _ H') as [H1 H2].
  apply set_keypairs_ok; [exact H' | by apply nodup_snoc_id |]. apply Forall_app. split; [exact H2 |]. apply Forall_singleton. by split.
Qed.

(** ** Parsed events *)

(** A statement that reads the whole database and inserts a row unless a key is taken. *)
Ltac insert_row d := apply keeps_read_bind; intros d Hd; unfold id; cbv zeta.

Lemma save_nullifier_schema e : in_field (cn_nullifier e) -> keeps schema_ok (save_nullifier e).
Proof.
  intros He. insert_row d. destruct (existsb _ _) eqn:E1; [exact Hd |]. destruct (existsb _ _) eqn:E2 in |- *; [exact Hd |].
  destruct (raw_of d (cn_id e)) as [r|] eqn:Er; [| exact Hd]. destruct (so_nullifiers d Hd) as (H1 & H2 & H3 & H4).
  apply set_nullifiers_ok; [exact Hd | by apply nodup_snoc_id | apply nodup_snoc; eauto with schema | apply nodup_snoc; eauto with schema | | apply ids_app].
  apply Forall_app. split; [exact H4 |]. apply Forall_singleton. split; [by eapply raw_of_event_ids | exact He].
Qed.

Lemma save_commitment_schema e : event_columns (Commitment e) -> keeps schema_ok (save_commitment e).
Proof.
  intros He. insert_row d. destruct (existsb _ _) eqn:E1; [exact Hd |]. destruct (existsb _ _) eqn:E2 in |- *; [exact Hd |].
  destruct (raw_of d (cc_id e)) as [r|] eqn:Er; [| exact Hd]. destruct (so_commitments d Hd) as (H1 & H2 & H3 & H4).
  apply set_commitments_ok; [exact Hd | by apply nodup_snoc_id | apply nodup_snoc; eauto with schema | apply nodup_snoc; eauto with schema | | apply ids_app].
  apply Forall_app. split; [exact H4 |]. apply Forall_singleton. split; [by eapply raw_of_event_ids | exact He].
Qed.

Lemma save_public_key_schema e : event_columns (PublicKey e) -> keeps schema_ok (save_public_key e).
Proof.
  intros He. insert_row d. destruct (existsb _ _) eqn:E1; [exact Hd |]. destruct (raw_of d (ck_id e)) as [r|] eqn:Er; [| exact Hd].
  destruct (so_public_keys d Hd) as (H1 & H2). apply set_public_keys_ok; [exact Hd | apply nodup_snoc; eauto with schema |].
  apply Forall_app. split; [exact H2 |]. apply Forall_singleton. split; [by eapply raw_of_event_ids | exact He].
Qed.

Lemma save_leaf_schema e : event_columns (LeafAdded e) -> keeps schema_ok (save_leaf_added e).
Proof.
  intros He. insert_row d. destruct (raw_of d (cl_id e)) as [r|] eqn:Er; [| exact Hd].
  destruct (existsb _ _) eqn:E1; [exact Hd |]. destruct (existsb _ _) eqn:E2 in |- *; [exact Hd |]. destruct (so_leaves d Hd) as (H1 & H2 & H3).
  apply set_leaves_ok; [exact Hd | apply nodup_snoc; [exact H1 |] | apply nodup_snoc; eauto with schema |].
  - intros (l & [= Ec Ei] & Hl)%list_elem_of_fmap. apply (proj1 (existsb_false _ _) E1) in Hl. rewrite Ec, Ei, !Z.eqb_refl in Hl. discriminate Hl.
  - apply Forall_app. split; [exact H3 |]. apply Forall_singleton. apply raw_of_id in Er as Hr. destruct Hr as [Hr _].
    split; [exact (proj1 (proj1 (Forall_forall _ _) (proj2 (so_raw d Hd)) r Hr)) |]. split; [by eapply raw_of_event_ids | exact He].
Qed.

Section Processing.

Context {X : XdrLib} {XT : XdrTyped X}.

Definition batches_typed (b : Batches) : Prop :=
  Forall (fun e => event_columns (Nullifier e)) (b_nullifiers b) /\ Forall (fun e => event_columns (Commitment e)) (b_commitments b) /\
  Forall (fun e => event_columns (PublicKey e)) (b_pubkeys b) /\ Forall (fun e => event_columns (LeafAdded e)) (b_leaves b).

Lemma collect_typed events : batches_typed (collect_events events).
Proof using XT.
  unfold collect_events. assert (batches_typed (Build_Batches [] [] [] [])) as H by (repeat split; constructor). revert H.
  generalize (Build_Batches [] [] [] []). induction (rev events) as [|ev l IH]; intros b Hb; [exact Hb |]. cbn [foldl]. apply IH.
  unfold push_event. destruct (parse_event ev) as [e|] eqn:E; [| exact Hb]. apply parse_event_columns in E. destruct Hb as (H1 & H2 & H3 & H4).
  destruct e; try (by repeat split); repeat split; cbn; try assumption; apply Forall_app; (split; [assumption |]); by apply Forall_singleton.
Qed.

Lemma process_events_schema limit : keeps schema_ok (process_events limit).
Proof using XT.
  apply keeps_bind; [apply keeps_read |]. intros d. cbv zeta. destruct (bool_decide _); [apply keeps_ret |].
  destruct (collect_typed (get_unprocessed_events limit d)) as (H1 & H2 & H3 & H4). rewrite Forall_forall in H1. rewrite Forall_forall in H2. rewrite Forall_forall in H3. rewrite Forall_forall in H4.
  apply keeps_bind; [apply keeps_transaction, keeps_each; intros e He; by apply save_nullifier_schema, H1 | intros _].
  apply keeps_bind; [apply keeps_transaction, keeps_each; intros e He; by apply save_commitment_schema, H2 | intros _].
  apply keeps_bind; [apply keeps_transaction, keeps_each; intros e He; by apply save_public_key_schema, H3 | intros _].
  apply keeps_bind; [apply keeps_transaction, keeps_each; intros e He; by apply save_leaf_schema, H4 | intros _; apply keeps_ret].
Qed.

End Processing.

(** ** Scans *)

Section Scanning.

Context {C : Crypto} {CL : CryptoLaws C}.

(** The state while the scans run: only notes and marks change. *)
Definition scanning (d0 d : Db) : Prop := schema_ok d /\ parsed_tables d = parsed_tables d0.

Lemma scanning_keys d0 d : scanning d0 d -> contract_ids d = contract_ids d0 /\ account_ids d = account_ids d0 /\ nullifier_ids d = nullifier_ids d0 /\
  commitment_ids d = commitment_ids d0 /\ pool_commitments d = pool_commitments d0.
Proof.
  intros [_ [= E1 _ E2 _ _ E3 E4 _ _]]. unfold contract_ids, account_ids, nullifier_ids, commitment_ids. by rewrite E1, E2, E3, E4.
Qed.

(** A write of marks or notes that keeps the schema keeps the state of the scans. *)
Lemma scanning_keeps {A} d0 (m : DM A) : keeps (fun d => parsed_tables d = parsed_tables d0) m ->
  (forall d, scanning d0 d -> schema_ok (m d).2) -> keeps (scanning d0) m.
Proof. intros Hm Hs d Hd. split; [by apply Hs | by apply Hm, Hd]. Qed.

Definition account_typed (ids : list Z) (a : AccountKeys) : Prop :=
  ak_account a ∈ ids /\ keys_typed (ak_note_keypair a) (ak_encryption_keypair a) (ak_membership_blinding a).

Lemma accounts_typed d : schema_ok d -> Forall (account_typed (account_ids d)) (get_accounts_with_latest_keypairs d).
Proof.
  intros H. apply Forall_forall. intros a (row & Hrow & (k & Hk & [= <-])%bind_Some)%list_elem_of_omap. rewrite elem_of_order_by in Hrow.
  apply last_Some_elem_of in Hk. rewrite elem_of_order_by in Hk. apply list_elem_of_filter in Hk as [_ Hk].
  split; [by apply (list_elem_of_fmap_2 fst) | exact (proj2 (proj1 (Forall_forall _ _) (proj2 (so_keypairs d H)) k Hk))].
Qed.

Lemma insert_note_schema d n : schema_ok d -> note_row (account_ids d) (commitment_ids d) (nullifier_ids d) n -> schema_ok (insert_user_note n d).2.
Proof.
  intros Hd Hn. unfold insert_user_note, mbind, dm_bind, db_read. cbv zeta. destruct (existsb _ _) eqn:E; [exact Hd |].
  pose proof (proj1 (existsb_false _ _) E) as Hc. destruct (so_notes d Hd) as (H1 & H2 & H3 & H4).
  assert (forall m, m ∈ user_notes d -> un_id m <> un_id n /\ un_commitment_id m <> un_commitment_id n /\
    (forall k, un_nullifier_id n = Some k -> un_nullifier_id m <> Some k)) as Hfresh.
  { intros m Hm. apply Hc in Hm. apply orb_false_iff in Hm as [[A B]%orb_false_iff D]. apply Z.eqb_neq in A, B. split; [exact A |]. split; [exact B |].
    intros k Hk Hmk. rewrite Hk, Hmk, !bool_decide_eq_true_2 in D by (by eexists || done). discriminate D. }
  apply set_notes_ok; [exact Hd | | | |].
  - apply nodup_snoc; [exact H1 |]. intros (m & Em & Hm)%list_elem_of_fmap. by destruct (Hfresh m Hm) as [[] _].
  - apply nodup_snoc; [exact H2 |]. intros (m & Em & Hm)%list_elem_of_fmap. by destruct (Hfresh m Hm) as (_ & [] & _).
  - rewrite omap_app. cbn. destruct (un_nullifier_id n) as [k|] eqn:Ek; [| by rewrite app_nil_r]. apply NoDup_app. split; [exact H3 |].
    split; [| apply NoDup_singleton]. intros j (m & Hm & Em)%list_elem_of_omap ->%list_elem_of_singleton. by apply (proj2 (proj2 (Hfresh m Hm)) k).
  - apply Forall_app. split; [exact H4 | by apply Forall_singleton].
Qed.

Lemma derived_typed a c x : keys_typed (ak_note_keypair a) (ak_encryption_keypair a) (ak_membership_blinding a) ->
  in_field (pc_commitment c) -> 0 <= pc_leaf_index c < 2 ^ 32 -> Forall is_byte (pc_encrypted_output c) -> derive_user_note a (row_of c) = Ok (Some x) ->
  is_note (dn_amount x) /\ in_field (dn_blinding x) /\ in_field (dn_expected_nullifier x).
Proof using CL.
  intros (K1 & K2 & _) H1 H2 H3 H. unfold derive_user_note in H. destruct (try_decrypt_and_derive_user_note _ _ _ _ _ _) as [[[[y|]|e] n]|] eqn:E; try discriminate H.
  injection H as <-. destruct (derive_user_note_Some _ _ _ _ _ _ _ _ K1 K2 H2 H1 H3 E) as (A1 & _ & A3 & _ & A5).
  cbn [dn_amount dn_blinding dn_expected_nullifier]. split; [exact A1 |]. split; [exact A3 |]. rewrite A5. apply nullifier_in_field.
Qed.

Lemma scan_row_schema d0 pool a c : c ∈ pool_commitments d0 -> account_typed (account_ids d0) a -> keeps (scanning d0) (scan_row derive_user_note pool a (row_of c)).
Proof using CL.
  intros Hc [Ha Hk]. apply scanning_keeps; [apply scan_row_tables |]. intros d Hd. destruct (scanning_keys d0 d Hd) as (_ & Ea & _ & _ & Ec).
  unfold scan_row, mbind, dm_bind at 1, db_try. destruct (derive_user_note a (row_of c)) as [[x|]|e] eqn:E; [| exact (proj1 Hd) ..].
  unfold dm_bind, db_read, id. cbv zeta beta iota. rewrite <- Ec in Hc. destruct (so_commitments d (proj1 Hd)) as (_ & _ & _ & Hrows).
  destruct (proj1 (Forall_forall _ _) Hrows c Hc) as (_ & H1 & H2 & H3). destruct (derived_typed a c x Hk H1 H2 H3 E) as (A1 & A2 & A3).
  apply insert_note_schema; [exact (proj1 Hd) |]. split; [by rewrite Ea |]. split; [by apply (list_elem_of_fmap_2 pc_id) |].
  split; [| split; [exact H1 | split; [exact A3 | split; [exact A2 | by eexists]]]].
  cbn. intros k Hf. destruct (find _ (pool_nullifiers d)) as [m|] eqn:Em; [| discriminate Hf]. injection Hf as <-.
  apply List.find_some in Em as [Em _]. by apply (list_elem_of_fmap_2 pn_id), list_elem_of_In.
Qed.

Lemma commitment_rows_typed events cs : Forall (commitment_row events) cs -> commitment_rows cs = Ok (row_of <$> cs).
Proof.
  induction 1 as [|c cs (_ & _ & Hc & _) _ IH]; [reflexivity |]. cbn [commitment_rows]. unfold col_u32. rewrite (proj2 (fits_u_spec 32 _) Hc). cbn. by rewrite IH.
Qed.

Lemma try_ok {A B} (a : A) (k : A -> DM B) d : (db_try (Ok a) ≫= k) d = k a d.
Proof. reflexivity. Qed.

(** A mark of a scan refers to a contract and an account. *)
Lemma mark_schema d0 d pool a mark : scanning d0 d -> pool ∈ contract_ids d0 -> ak_account a ∈ account_ids d0 ->
  schema_ok (set_scan (<[(pool, ak_account a) := mark]> (account_commitment_scan d)) d).
Proof.
  intros Hd Hp Ha. destruct (scanning_keys d0 d Hd) as (Ek & Ea & _). apply set_scan_ok; [exact (proj1 Hd) |].
  intros k v [[<- _]|[_ Hk]]%lookup_insert_Some; [cbn; by rewrite Ek, Ea | exact (so_scan d (proj1 Hd) k v Hk)].
Qed.

Lemma scan_account_schema d0 pool a quota : account_typed (account_ids d0) a -> keeps (scanning d0) (scan_account derive_user_note pool a quota).
Proof using CL.
  intros Ha. apply keeps_read_bind. intros d Hd. unfold id. destruct (_ !! _) as [m|] eqn:Em; [| exact Hd]. cbv zeta.
  set (cs := take _ _). assert (forall c, c ∈ cs -> c ∈ pool_commitments d) as Hcs.
  { intros c Hc. unfold cs in Hc. apply list_elem_of_lookup in Hc as (i & Hc). apply lookup_take_Some in Hc as [Hc _]. apply list_elem_of_lookup_2 in Hc.
    unfold pending_commitments in Hc. rewrite elem_of_order_by in Hc. by apply list_elem_of_filter in Hc as [_ Hc]. }
  rewrite (commitment_rows_typed (event_ids d)); cycle 1.
  { apply Forall_forall. intros c Hc%Hcs. destruct (so_commitments d (proj1 Hd)) as (_ & _ & _ & Hrows). exact (proj1 (Forall_forall _ _) Hrows c Hc). }
  destruct (scanning_keys d0 d Hd) as (Ek & Ea & _ & _ & Ec). destruct (so_scan d (proj1 Hd) _ _ Em) as [Hp _]. cbn in Hp. rewrite Ek in Hp.
  rewrite try_ok. destruct (bool_decide _); [exact Hd |].
  match goal with |- scanning d0 (?body d).2 => enough (keeps (scanning d0) body) as Hm by exact (Hm d Hd) end. apply keeps_bind.
  - apply keeps_each. intros row (c & -> & Hc)%list_elem_of_fmap. apply scan_row_schema; [rewrite <- Ec; by apply Hcs | exact Ha].
  - intros _. apply keeps_bind; [| intros _; apply keeps_ret]. apply scanning_keeps; [by intros d' Hd' |]. intros d' Hd'. apply (mark_schema d0); [exact Hd' | exact Hp | exact (proj1 Ha)].
Qed.

Lemma scan_cycle_schema d0 pool accounts : Forall (account_typed (account_ids d0)) accounts ->
  forall quota p, keeps (scanning d0) (scan_cycle derive_user_note pool accounts quota p).
Proof using CL.
  induction 1 as [|a rest Ha _ IH]; intros quota p; cbn [scan_cycle]; [apply keeps_ret |].
  destruct (quota =? 0); [apply keeps_ret |]. apply keeps_bind; [by apply scan_account_schema | intros n; apply IH].
Qed.

Lemma scan_pool_schema d0 pool accounts quota : pool ∈ contract_ids d0 -> Forall (account_typed (account_ids d0)) accounts ->
  keeps (scanning d0) (scan_pool derive_user_note accounts pool quota).
Proof using CL.
  intros Hp Ha. unfold scan_pool. destruct (quota =? 0); [apply keeps_ret |]. apply keeps_transaction, keeps_bind.
  - apply keeps_each. intros a Hin. apply (proj1 (Forall_forall _ _) Ha) in Hin as [Hin _]. apply scanning_keeps; [apply init_scan_tables |].
    intros d Hd. unfold init_scan, db_write. cbn [snd]. destruct (_ !! _); [exact (proj1 Hd) | by apply (mark_schema d0)].
  - intros _. generalize false as did. generalize (Z.to_nat quota) as fuel. intros fuel. revert quota.
    induction fuel as [|f IH]; intros quota did; cbn [scan_loop]; [apply keeps_ret |].
    destruct (quota =? 0); [apply keeps_ret |]. apply keeps_bind; [by apply scan_cycle_schema |]. intros [q [|]]; [apply IH | apply keeps_ret].
Qed.

Lemma contract_of_key d event pool : schema_ok d -> contract_of d event = Some pool -> pool ∈ contract_ids d.
Proof.
  intros Hd H. unfold contract_of in H. destruct (raw_of d event) as [r|] eqn:E; [| discriminate H]. injection H as <-.
  apply raw_of_id in E as [E _]. exact (proj1 (proj1 (Forall_forall _ _) (proj2 (so_raw d Hd)) r E)).
Qed.

Lemma distinct_contract_key d events pool : schema_ok d -> pool ∈ distinct_contracts d events -> pool ∈ contract_ids d.
Proof.
  intros Hd H. unfold distinct_contracts in H. rewrite merge_sort_Permutation in H. rewrite elem_of_remove_dups in H.
  apply list_elem_of_omap in H as (e & _ & H). by eapply contract_of_key.
Qed.

Lemma scan_schema d0 limit : schema_ok d0 -> scanning d0 (scan_commitments_for_user_notes derive_user_note limit d0).2.
Proof using CL.
  intros Hd0. assert (scanning d0 d0) as Hs by done. unfold scan_commitments_for_user_notes, mbind, dm_bind, db_read, id. cbv zeta beta iota.
  destruct (_ || _); [exact Hs |]. destruct (bool_decide _); [exact Hs |]. destruct (_ <=? _); [exact Hs |].
  set (pools := zip _ _). assert (Forall (fun p => p.1 ∈ contract_ids d0) pools) as Hp.
  { apply Forall_forall. intros [pool q] H. apply elem_of_zip_l in H. cbn. by eapply distinct_contract_key. }
  clearbody pools. enough (forall did, keeps (scanning d0) (scan_pools derive_user_note (get_accounts_with_latest_keypairs d0) pools did)) as Hk by exact (Hk false d0 Hs).
  induction Hp as [|[pool q] rest Hp _ IH]; intros did; cbn [scan_pools]; [apply keeps_ret |].
  apply keeps_bind; [apply scan_pool_schema; [exact Hp | by apply accounts_typed] |]. intros p. apply IH.
Qed.

(** ** Reconciliation *)

Lemma link_none hit id notes : filter (fun m => hit m = true) notes = [] -> link_note hit id <$> notes = notes.
Proof.
  induction notes as [|m notes IH]; [done |]. rewrite filter_cons, fmap_cons. unfold link_note at 1. intros Hf. destruct (hit m); case_decide; [discriminate Hf | done | done | by rewrite (IH Hf)].
Qed.

(** The only note hit gets a new nullifier. *)
Lemma link_one hit id notes n : filter (fun m => hit m = true) notes = [n] -> un_nullifier_id n = None ->
  exists l1 l2, notes = l1 ++ n :: l2 /\ link_note hit id <$> notes = l1 ++ link_note hit id n :: l2 /\ un_nullifier_id (link_note hit id n) = Some id.
Proof.
  induction notes as [|m notes IH]; [done |]. rewrite filter_cons. case_decide as Hm.
  - intros [= -> Hf] _. exists [], notes. rewrite fmap_cons, (link_none hit id notes Hf). unfold link_note at 3. by rewrite Hm.
  - intros Hf Hn. destruct (IH Hf Hn) as (l1 & l2 & -> & E & E'). exists (m :: l1), l2. rewrite fmap_cons, E. unfold link_note at 1.
    destruct (hit m); [by destruct Hm | done].
Qed.

Lemma link_note_key {K} (key : UserNoteRow -> K) hit id (notes : list UserNoteRow) : (forall m, key (link_note hit id m) = key m) -> key <$> (link_note hit id <$> notes) = key <$> notes.
Proof. intros H. rewrite <- list_fmap_compose. apply list_fmap_ext. intros i m _. apply H. Qed.

Lemma link_nullifier_schema d0 pool n : pn_id n ∈ nullifier_ids d0 -> keeps (scanning d0) (link_nullifier pool n).
Proof.
  intros Hn. apply scanning_keeps; [apply link_nullifier_tables |]. intros d Hd. unfold link_nullifier, mbind, dm_bind, db_read, id. cbv zeta beta iota.
  destruct (filter _ _) as [|m [|]] eqn:Ef; [exact (proj1 Hd) | | exact (proj1 Hd)]. destruct (existsb _ _) eqn:Ee; [exact (proj1 Hd) |].
  destruct (scanning_keys d0 d Hd) as (_ & _ & En & _). destruct (so_notes d (proj1 Hd)) as (H1 & H2 & H3 & H4).
  assert (m ∈ user_notes d /\ un_nullifier_id m = None) as [Hm Hnone].
  { assert (m ∈ filter (fun m => link_hit d pool n m = true) (user_notes d)) as Hm by (rewrite Ef; by apply list_elem_of_singleton).
    apply list_elem_of_filter in Hm as [Hh Hm]. split; [exact Hm |]. apply andb_true_iff in Hh as [[Hh _]%andb_true_iff _]. by apply bool_decide_eq_true in Hh. }
  destruct (link_one _ (pn_id n) _ _ Ef Hnone) as (l1 & l2 & E & E' & Eid). unfold db_write. cbn [snd].
  apply set_notes_ok; [exact (proj1 Hd) | | | |].
  - rewrite (link_note_key un_id); [exact H1 |]. intros x. unfold link_note. by destruct (link_hit _ _ _ _).
  - rewrite (link_note_key un_commitment_id); [exact H2 |]. intros x. unfold link_note. by destruct (link_hit _ _ _ _).
  - rewrite E', omap_app. cbn [omap list_omap]. rewrite Eid. rewrite E, omap_app in H3. cbn [omap list_omap] in H3. rewrite Hnone in H3.
    rewrite <- Permutation_middle. apply NoDup_cons. split; [| exact H3]. rewrite <- omap_app. intros (x & Hx & Ex)%list_elem_of_omap.
    assert (x ∈ user_notes d) as Hin by (rewrite E; set_solver). apply (proj1 (existsb_false _ _) Ee) in Hin. by rewrite bool_decide_eq_true_2 in Hin.
  - apply Forall_fmap. eapply Forall_impl; [exact H4 |]. intros x Hx. unfold compose, link_note. destruct (link_hit _ _ _ _); [| exact Hx].
    destruct Hx as (X1 & X2 & _ & X4). split; [exact X1 |]. split; [exact X2 |]. split; [| exact X4]. intros k [= <-]. by rewrite En.
Qed.
Lemma reconcile_pool_schema d0 limit pool : pool ∈ contract_ids d0 -> keeps (scanning d0) (reconcile_pool limit pool).
Proof.
  intros Hp. assert (forall d mark, scanning d0 d -> schema_ok (set_nullifier_scan (<[pool := mark]> (nullifier_scan_state d)) d)) as Hmark.
  { intros d mark Hd. destruct (scanning_keys d0 d Hd) as (Ek & _). apply set_nullifier_scan_ok; [exact (proj1 Hd) |].
    intros k v [[<- _]|[_ Hk]]%lookup_insert_Some; [by rewrite Ek | exact (so_nullifier_scan d (proj1 Hd) k v Hk)]. }
  apply keeps_transaction, keeps_bind.
  { apply scanning_keeps; [intros d Hd; unfold db_write; cbn [snd]; destruct (_ !! _); exact Hd |]. intros d Hd. unfold db_write. cbn [snd].
    destruct (_ !! _); [exact (proj1 Hd) | by apply Hmark]. }
  intros _. apply keeps_read_bind. intros d Hd. unfold id. destruct (_ !! _) as [m|]; [| exact Hd]. cbv zeta.
  match goal with |- scanning d0 (?body d).2 => enough (keeps (scanning d0) body) as Hm by exact (Hm d Hd) end. apply keeps_bind.
  - apply keeps_each. intros n Hn. apply link_nullifier_schema. destruct (scanning_keys d0 d Hd) as (_ & _ & <- & _). apply (list_elem_of_fmap_2 pn_id).
    apply list_elem_of_lookup in Hn as (i & Hn). apply lookup_take_Some in Hn as [Hn _]. apply list_elem_of_lookup_2 in Hn.
    unfold pending_nullifiers in Hn. rewrite elem_of_order_by in Hn. by apply list_elem_of_filter in Hn as [_ Hn].
  - intros _. apply keeps_bind; [| intros _; apply keeps_ret]. destruct (_ <? _); [| apply keeps_ret].
    apply scanning_keeps; [by intros d' Hd' | intros d' Hd'; by apply Hmark].
Qed.

Lemma reconcile_schema d0 limit : schema_ok d0 -> scanning d0 (reconcile_nullifiers limit d0).2.
Proof.
  intros Hd0. assert (scanning d0 d0) as Hs by done. unfold reconcile_nullifiers. destruct (limit =? 0); [exact Hs |].
  unfold mbind, dm_bind, db_read, id. cbv beta iota. pose proof (fun p => distinct_contract_key d0 (pn_event <$> pool_nullifiers d0) p Hd0) as Hp.
  enough (forall did, keeps (scanning d0) (reconcile_pools limit (distinct_contracts d0 (pn_event <$> pool_nullifiers d0)) did)) as Hk by exact (Hk false d0 Hs).
  induction (distinct_contracts _ _) as [|pool rest IH]; intros did; cbn [reconcile_pools]; [apply keeps_ret |].
  apply keeps_bind; [apply reconcile_pool_schema, Hp, list_elem_of_here |]. intros p. apply IH. intros q Hq. by apply Hp, list_elem_of_further.
Qed.

Lemma process_notes_schema limit : keeps schema_ok (process_notes derive_user_note limit).
Proof using CL.
  apply keeps_bind; [intros d Hd; by apply (scan_schema d) |]. intros scanned. apply keeps_bind; [intros d Hd; by apply (reconcile_schema d) |].
  intros reconciled. apply keeps_ret.
Qed.

End Scanning.

(** ** Every run of the client *)

Section Runs.

Context {C : Crypto} {X : XdrLib}.

(** The operations that write the database, with arguments of the types of the source; an
    operation that fails leaves what it wrote before. *)
Inductive db_step (d : Db) : Db -> Prop :=
| step_events events : Forall ledger_typed events -> db_step d (save_events_batch events d).2
| step_progress metadata fully : Forall (fun m => 0 <= sm_last_indexed_ledger m < 2 ^ 32) metadata -> db_step d (save_sync_progress metadata fully d).2
| step_cursors : db_step d (clear_indexing_cursors d).2
| step_keys address note encryption blinding : keys_typed note encryption blinding ->
    db_step d (save_encryption_and_note_keypairs address note encryption blinding d).2
| step_account address : db_step d (get_or_create_account address d).2
| step_process_events limit : db_step d (process_events limit d).2
| step_process_notes limit : db_step d (process_notes derive_user_note limit d).2
| step_local_batch : db_step d (process_local_state_batch derive_user_note d).2.

Context {CL : CryptoLaws C} {XT : XdrTyped X}.

Lemma step_schema d d' : schema_ok d -> db_step d d' -> schema_ok d'.
Proof using CL XT.
  intros Hd []; [by apply save_events_schema | by apply save_progress_schema | by apply clear_cursors_schema | by apply save_keys_schema |
    | by apply process_events_schema | by apply process_notes_schema |].
  - destruct (account_id_run d address Hd) as (id & t & -> & H & _). exact H.
  - revert d Hd. apply keeps_bind; [apply process_events_schema |]. intros b. apply keeps_bind; [apply process_notes_schema |]. intros b'. apply keeps_ret.
Qed.

Lemma reachable_schema d : rtc db_step empty_db d -> schema_ok d.
Proof using CL XT.
  intros H. assert (schema_ok empty_db) as H0 by exact schema_empty. revert H0. induction H as [|d1 d2 d3 H12 _ IH]; [done |].
  intros H1. apply IH. exact (step_schema d1 d2 H1 H12).
Qed.

End Runs.

(** ** Reads *)

Section Reads.

Lemma lookup_address_key t id : id ∈ fst <$> t -> is_Some (lookup_address t id).
Proof.
  intros H. unfold lookup_address. destruct (find _ t) as [row|] eqn:E; [by eexists |]. by apply (find_key_none (fst (B := string))) in E.
Qed.

Lemma raw_of_key d id : id ∈ event_ids d -> exists r, raw_of d id = Some r.
Proof. intros H. unfold raw_of. destruct (find _ _) as [r|] eqn:E; [by eexists |]. by apply (find_key_none raw_id) in E. Qed.

Lemma commitment_by_key d id : id ∈ commitment_ids d -> exists c, commitment_by_id d id = Some c.
Proof.
  intros (c & -> & H)%list_elem_of_fmap. unfold commitment_by_id. destruct (find _ _) as [c'|] eqn:E; [by eexists |].
  apply List.find_none with (x := c) in E; [by rewrite Z.eqb_refl in E | by apply list_elem_of_In].
Qed.

(** The joins drop no note. *)
Lemma note_joins d n : schema_ok d -> n ∈ user_notes d -> exists j, join_note d n = Some j /\ jn_note j = n.
Proof.
  intros Hd Hn. destruct (so_notes d Hd) as (_ & _ & _ & Hrows). destruct (proj1 (Forall_forall _ _) Hrows n Hn) as (H1 & H2 & _).
  destruct (lookup_address_key _ _ H1) as [owner E1]. destruct (commitment_by_key d _ H2) as [c E2].
  apply List.find_some in E2 as Hc. destruct Hc as [Hc%list_elem_of_In _]. destruct (so_commitments d Hd) as (_ & _ & _ & Hcs).
  destruct (proj1 (Forall_forall _ _) Hcs c Hc) as [He _]. destruct (raw_of_key d _ He) as [r E3]. apply raw_of_id in E3 as Hr. destruct Hr as [Hr _].
  destruct (proj1 (Forall_forall _ _) (proj2 (so_raw d Hd)) r Hr) as [Hk _]. destruct (lookup_address_key _ _ Hk) as [pool E4].
  unfold join_note. rewrite E1. cbn. rewrite E2. cbn. rewrite E3. cbn. rewrite E4. by eexists.
Qed.

Lemma col_u32_typed x : 0 <= x < 2 ^ 32 -> col_u32 x = Ok x.
Proof. intros H. unfold col_u32. by rewrite (proj2 (fits_u_spec 32 x) H). Qed.

Lemma note_amount_typed d n : schema_ok d -> n ∈ user_notes d -> column_amount (un_amount n) = Ok (amount_of n).
Proof.
  intros Hd Hn. destruct (so_notes d Hd) as (_ & _ & _ & Hrows). destruct (proj1 (Forall_forall _ _) Hrows n Hn) as (_ & _ & _ & _ & _ & _ & a & Ha & H).
  exact (proj1 (column_amount_ok n a H Ha)).
Qed.

Lemma summary_typed d j : schema_ok d -> j ∈ joined_notes d -> exists s, summary_of j = Ok s.
Proof.
  intros Hd (n & Hn & Hj)%list_elem_of_omap. unfold join_note in Hj.
  apply bind_Some in Hj as (owner & _ & Hj). apply bind_Some in Hj as (c & Hc & Hj). apply bind_Some in Hj as (r & Hr & Hj). apply bind_Some in Hj as (pool & _ & [= <-]).
  apply List.find_some in Hc as [Hc%list_elem_of_In _]. apply raw_of_id in Hr as [Hr _]. destruct (so_commitments d Hd) as (_ & _ & _ & Hcs).
  destruct (proj1 (Forall_forall _ _) Hcs c Hc) as (_ & _ & Hi & _). destruct (proj1 (Forall_forall _ _) (proj2 (so_raw d Hd)) r Hr) as [_ Hl].
  unfold summary_of. cbn [jn_note jn_commitment jn_raw]. rewrite (note_amount_typed d n Hd Hn), (col_u32_typed _ Hi), (col_u32_typed _ Hl). by eexists.
Qed.

Lemma summaries_typed d l : schema_ok d -> l ⊆ joined_notes d -> exists s, summaries l = Ok s.
Proof.
  intros Hd. induction l as [|j l IH]; intros Hl; [by eexists |]. destruct (summary_typed d j Hd) as [s Hs]; [apply Hl, list_elem_of_here |].
  destruct IH as [ss Hss]; [intros x Hx; by apply Hl, list_elem_of_further |]. cbn [summaries]. rewrite Hs. cbn. rewrite Hss. by eexists.
Qed.

Lemma newest_subset (P : JoinedNote -> Prop) `{forall x, Decision (P x)} d : newest_first (filter P (joined_notes d)) ⊆ joined_notes d.
Proof. intros j Hj. unfold newest_first in Hj. rewrite elem_of_order_by in Hj. by apply list_elem_of_filter in Hj as [_ Hj]. Qed.

Lemma found_typed d pool address c : schema_ok d -> exists o, get_unspent_user_note_by_commitment d pool address c = Ok o.
Proof.
  intros Hd. unfold get_unspent_user_note_by_commitment. destruct (head _) as [[n row]|] eqn:E; [| by eexists].
  apply head_Some_elem_of, list_elem_of_omap in E as (n' & Hn & E). apply bind_Some in E as (row' & Hrow & E). destruct (_ && _); [| discriminate E]. injection E as -> ->.
  apply List.find_some in Hrow as [Hrow%list_elem_of_In _]. destruct (so_commitments d Hd) as (_ & _ & _ & Hcs).
  destruct (proj1 (Forall_forall _ _) Hcs row Hrow) as (_ & _ & Hi & _). pose proof (note_amount_typed d n Hd Hn) as Ha. unfold column_amount in Ha.
  rewrite Ha, (col_u32_typed _ Hi). by eexists.
Qed.

Lemma sync_rows_typed d l : Forall (sync_row (contract_ids d)) l -> exists m, sync_rows d l = Ok m /\ length m = length l.
Proof.
  induction 1 as [|r l (H1 & H2 & H3) _ (m & IH & Hlen)]; [by exists [] |]. destruct (lookup_address_key _ _ H1) as [address E].
  cbn [sync_rows]. rewrite E, (col_u32_typed _ H2), (col_u32_typed _ H3), IH. eexists. split; [reflexivity | cbn; by rewrite Hlen].
Qed.

(** Every contract followed is reported. *)
Lemma sync_metadata_typed d : schema_ok d -> exists m, get_sync_metadata d = Ok m /\ length m = length (indexing_metadata d).
Proof.
  intros Hd. unfold get_sync_metadata. destruct (sync_rows_typed d (order_by sr_contract (indexing_metadata d))) as (m & E & Hlen).
  - rewrite order_by_perm. exact (proj2 (so_metadata d Hd)).
  - exists m. split; [exact E |]. by rewrite Hlen, order_by_perm.
Qed.

Lemma lookup_key_typed {S : SqliteMax} {SL : SqliteMaxLaws S} d address : schema_ok d -> exists o, lookup_public_key_by_address d address = Ok o.
Proof.
  intros Hd. unfold lookup_public_key_by_address. destruct (max_row _) as [row|] eqn:E; [| by eexists].
  destruct (registrations d address) as [|first rest] eqn:Er; [rewrite max_row_nil in E; discriminate E |].
  destruct (max_row_max (first :: rest) ltac:(discriminate)) as (x & Ex & Hx & _). rewrite E in Ex. injection Ex as <-. rewrite <- Er in Hx.
  apply list_elem_of_omap in Hx as (p & _ & Hp). apply bind_Some in Hp as (r & [Hr _]%raw_of_id & [= <-]).
  destruct (proj1 (Forall_forall _ _) (proj2 (so_raw d Hd)) r Hr) as [_ Hl]. unfold map_public_key_entry. cbn. rewrite (col_u32_typed _ Hl). by eexists.
Qed.

Lemma recipient_typed {S : SqliteMax} {SL : SqliteMaxLaws S} d address registry : schema_ok d -> exists o, recipient_lookup d address registry = Ok o.
Proof.
  intros Hd. unfold recipient_lookup, network_tip_ledger. destruct (lookup_key_typed d address Hd) as [o ->]. destruct (sync_metadata_typed d Hd) as (m & -> & _).
  by eexists.
Qed.

End Reads.

(** ** The theorem *)

(** C24. Whatever events the node delivers and in whatever order the client's operations run,
    also when some of them fail, the database keeps the types, keys and references of its
    schema: field elements below the modulus, 32-byte keys, [u32] indices and ledgers, amounts
    that are the text of a note amount, at most one note for a commitment and for a nullifier,
    and no dangling reference.  So the joins drop no note, and these reads do not fail: the list
    of a user's notes, the notes and the unspent notes of a pool, an unspent note by its
    commitment, the synchronisation progress and the keys of a recipient.  (Others can fail on a
    well-typed database: the ordered leaves on a gap of their indices, the balances on an overflow of
    their sum, the membership precondition on a root other than the chain's.) *)
Theorem database_stays_typed {C : Crypto} {X : XdrLib} {S : SqliteMax} (CL : CryptoLaws C) (XT : XdrTyped X) (SL : SqliteMaxLaws S) d :
  rtc db_step empty_db d ->
  schema_ok d /\
  (forall n, n ∈ user_notes d -> exists j, join_note d n = Some j /\ jn_note j = n) /\
  (forall address limit, exists l, list_user_notes d address limit = Ok l) /\
  (forall pool address, (exists l, list_pool_user_notes d pool address = Ok l) /\ (exists l, list_unspent_user_notes d pool address = Ok l)) /\
  (forall pool address c, exists o, get_unspent_user_note_by_commitment d pool address c = Ok o) /\
  (exists m, get_sync_metadata d = Ok m /\ length m = length (indexing_metadata d)) /\
  (forall address registry, exists r, recipient_lookup d address registry = Ok r).
Proof.
  intros Hd%reachable_schema. split; [exact Hd |]. split; [intros n; by apply note_joins |]. split.
  { intros address limit. apply (summaries_typed d); [exact Hd |]. intros j Hj. apply list_elem_of_lookup in Hj as (i & Hj).
    apply lookup_take_Some in Hj as [Hj%list_elem_of_lookup_2 _]. revert Hj. apply newest_subset. }
  split; [intros pool address; split; (apply (summaries_typed d); [exact Hd | apply newest_subset]) |].
  split; [intros pool address c; by apply found_typed |]. split; [by apply sync_metadata_typed | intros address registry; by apply recipient_typed].
Qed.

(** The first of the rows with the largest ledger. *)
Fixpoint first_max (l : list (PublicKeyRow * Z)) : option (PublicKeyRow * Z) :=
  match l with
  | [] => None
  | x :: rest => match first_max rest with Some y => if y.2 <=? x.2 then Some x else Some y | None => Some x end
  end.

#[local] Instance first_max_sqlite : SqliteMax := {| max_row := first_max |}.

Lemma first_max_laws : SqliteMaxLaws first_max_sqlite.
Proof.
  split; [reflexivity |]. intros l _l. cbn [max_row first_max_sqlite]. revert _l. induction l as [|x l IH]; [done |]. intros _. cbn [first_max].
  destruct l as [|y l]; [exists x; split; [reflexivity |]; split; [apply list_elem_of_here | intros z ->%list_elem_of_singleton; lia] |].
  destruct IH as (m & Em & Hm & Hmax); [discriminate |]. rewrite Em. destruct (Z.leb_spec m.2 x.2).
  - exists x. split; [reflexivity |]. split; [apply list_elem_of_here |]. intros z [->|Hz%Hmax]%elem_of_cons; lia.
  - exists m. split; [reflexivity |]. split; [by apply list_elem_of_further |]. intros z [->|Hz%Hmax]%elem_of_cons; lia.
Qed.

Lemma ref_xdr_typed : XdrTyped ref_xdr.
Proof.
  split. intros s v H. cbn [from_xdr_base64 ref_xdr] in H. repeat case_if_in H; try discriminate H; injection H as <-; cbn; [done | |].
  - unfold parts_typed. vm_compute. intuition congruence.
  - repeat constructor; vm_compute; intuition congruence.
Qed.

(** Alice's keys are saved, then an event of the pool is fetched, parsed and scanned. *)
Definition typed_run : Db :=
  let keys := {| note_private := le_bytes 32 5; note_public := le_bytes 32 6 |} in
  let d := (save_encryption_and_note_keypairs "alice" keys {| enc_private := replicate 32 7; enc_public := replicate 32 8 |} 3 empty_db).2 in
  let d := (save_events_batch [{| ce_id := "e1"; ce_ledger := 10; ce_contract_id := "pool"; ce_topics := ["name"; "topic"]; ce_value := "data" |}] d).2 in
  (process_events 50 d).2.

Lemma database_stays_typed_witness :
  length (pool_commitments typed_run) = 1%nat /\ schema_ok typed_run /\ exists r, recipient_lookup typed_run "bob" "registry" = Ok r.
Proof.
  assert (rtc (db_step (C := ref_crypto)) empty_db typed_run) as Hrun.
  { eapply rtc_l; [apply (step_keys _ "alice" {| note_private := le_bytes 32 5; note_public := le_bytes 32 6 |} {| enc_private := replicate 32 7; enc_public := replicate 32 8 |} 3);
      repeat split; vm_compute; congruence |].
    eapply rtc_l; [apply (step_events _ [{| ce_id := "e1"; ce_ledger := 10; ce_contract_id := "pool"; ce_topics := ["name"; "topic"]; ce_value := "data" |}]);
      repeat constructor; vm_compute; congruence |].
    apply rtc_once. exact (step_process_events _ 50). }
  split; [vm_compute; reflexivity |]. destruct (database_stays_typed (C := ref_crypto) ref_crypto_laws ref_xdr_typed first_max_laws typed_run Hrun) as (H1 & _ & _ & _ & _ & _ & H2).
  split; [exact H1 | exact (H2 "bob" "registry")].
Defined.
