(* ===== verification/EndToEnd.v ===== *)
(** * From the chain to the client's tree

    The pool's events carry its leaves; a client that holds them and has synchronised
    rebuilds the tree of the contract. *)

From stdpp Require Import sorting.
From S2P Require Import Prelude Ints Amounts Poseidon2Tables Hashes ProverMonad Encryption Notes Flows Soroban MerkleSpec MerkleHistory Pool PoolSpec PoolSafety PoolTheorems PrefixTree ScVals ScValFacts Events Storage Scan StorageFacts SyncFacts WalletFacts ReconcileFacts SyncTheorems.

(** ** The events of the pool *)

Section PoolEvents.

Context {Ledger : Type} {env : PoolHost Ledger} {host : HostPoseidon2}.

Definition commitment_published (events : list PoolEvent) (i : Z) (c : Z) : Prop := exists b, NewCommitmentEvent c i b ∈ events.

(** The commitments published are the leaves at their indices, and they are canonical. *)
Record events_match (a : PoolSpec Ledger) : Prop := {
  em_leaves : forall z c, commitment_published (ps_events a) z c <-> exists i, z = Z.of_nat i /\ ps_leaves a !! i = Some c;
  em_canonical : Forall in_field (ps_leaves a);
}.

Lemma lookup_two {A} (l : list A) c0 c1 i x : (l ++ [c0; c1]) !! i = Some x <->
  l !! i = Some x \/ (i = length l /\ x = c0) \/ (i = S (length l) /\ x = c1).
Proof.
  rewrite lookup_app. destruct (l !! i) as [y|] eqn:E.
  - pose proof (lookup_lt_Some _ _ _ E). split; [intros H'; left; exact H' | intros [?|[[? _]|[? _]]]; [assumption | lia | lia]].
  - apply lookup_ge_None in E. destruct (decide (i = length l)) as [->|H0]; [| destruct (decide (i = S (length l))) as [->|H1]].
    + rewrite Nat.sub_diag. cbn. split; [intros [= ->]; auto | intros [?|[[_ ->]|[? _]]]; [discriminate | reflexivity | lia]].
    + replace (S (length l) - length l)%nat with 1%nat by lia. cbn. split; [intros [= ->]; auto | intros [?|[[? _]|[_ ->]]]; [discriminate | lia | reflexivity]].
    + destruct (i - length l)%nat as [|[|k]] eqn:Ek; [lia | lia |]. cbn. split; [discriminate | intros [?|[[? _]|[? _]]]; [discriminate | lia | lia]].
Qed.

Lemma published_tx (p : Proof) (ext : ExtData) ns n0 n1 events z c :
  commitment_published ([NewCommitmentEvent (output_commitment1 p) n1 (encrypted_output1 ext); NewCommitmentEvent (output_commitment0 p) n0 (encrypted_output0 ext)] ++
    rev (NewNullifierEvent <$> ns) ++ events) z c <->
  (z = n0 /\ c = output_commitment0 p) \/ (z = n1 /\ c = output_commitment1 p) \/ commitment_published events z c.
Proof.
  unfold commitment_published. split.
  - intros (b & [[E|[E|[]%not_elem_of_nil]%elem_of_cons]%elem_of_cons | [H|H]%elem_of_app]%elem_of_app).
    + injection E as -> -> _. auto.
    + injection E as -> -> _. auto.
    + rewrite <- Permutation_rev in H. apply list_elem_of_fmap in H as (n & E & _). discriminate.
    + right. right. by exists b.
  - intros [[-> ->]|[[-> ->]|(b & H)]]; eexists; rewrite !elem_of_app.
    + left. apply list_elem_of_further, list_elem_of_here.
    + left. apply list_elem_of_here.
    + right. right. exact H.
Qed.

Lemma accepted_events call p ext sender (a a' : PoolSpec Ledger) : tx_typed p ext -> accepted call p ext sender a a' -> events_match a -> events_match a'.
Proof.
  intros Ht Hacc [H1 H2]. split.
  - intros z c. rewrite (acc_events _ _ _ _ _ _ Hacc), (acc_leaves _ _ _ _ _ _ Hacc), published_tx, H1. unfold commitments, zlength. split.
    + intros [[-> ->]|[[-> ->]|(i & -> & Hi)]].
      * exists (length (ps_leaves a)). split; [reflexivity |]. apply lookup_two. auto.
      * exists (S (length (ps_leaves a))). split; [lia |]. apply lookup_two. auto.
      * exists i. split; [reflexivity |]. apply lookup_two. auto.
    + intros (i & -> & [Hi|[[-> ->]|[-> ->]]]%lookup_two); [right; right; by exists i | left; auto | right; left; split; [lia | reflexivity]].
  - rewrite (acc_leaves _ _ _ _ _ _ Hacc). apply Forall_app. split; [exact H2 |].
    destruct (canonical_commitments p (acc_canonical _ _ _ _ _ _ Hacc)). destruct Ht as [_ ? ?]. repeat constructor; assumption.
Qed.

Lemma spec_exec_events call op (a : PoolSpec Ledger) u a' : spec_exec call op a = Ret (u, a') ->
  match op with PTransact _ _ _ => True | _ => ps_events a' = ps_events a end.
Proof.
  destruct op; cbn [spec_exec]; intros Hrun; [exact I | ..]. 1-3: by apply spec_as_admin_Ret in Hrun as [_ ->]. all: srun_inv; done.
Qed.

Lemma spec_run_events tr : forall a : PoolSpec Ledger, Forall step_typed tr -> events_match a -> events_match (spec_run tr a).2.
Proof.
  induction tr as [|[call op | l] tr IH]; intros a Htr Ha; cbn [spec_run]; [exact Ha | |]; apply Forall_cons in Htr as [Ht Htr].
  - destruct (spec_exec call op a) as [[u a1]|e|] eqn:Hrun; [| by apply IH ..]. assert (events_match a1) as H1.
    { pose proof (spec_exec_Ret _ _ _ _ _ Hrun) as Hr. pose proof (spec_exec_events _ _ _ _ _ Hrun) as He.
      destruct op; [by eapply accepted_events | ..]; destruct Hr as (El & _); destruct Ha as [A1 A2]; split; rewrite ?He, ?El; assumption. }
    specialize (IH a1 Htr H1). by destruct (spec_run tr a1).
  - apply IH; [exact Htr |]. by destruct Ha.
Qed.

Lemma spec_run_single call p ext sender (a : PoolSpec Ledger) u a' : spec_transact call p ext sender a = Ret (u, a') ->
  spec_run [Invoke call (PTransact p ext sender)] a = ([(p, ext)], a').
Proof. intros E. cbn [spec_run spec_exec]. rewrite E. reflexivity. Qed.

End PoolEvents.

(** ** The client *)

Section Client.

Context {X : XdrLib} {XL : XdrLaws X}.

Definition raw_pool (d : Db) (r : RawEvent) : option string := lookup_address (contracts d) (raw_contract r).

(** The client holds the events of the pool, all of them and no others. *)
Record holds_events (d : Db) (pool : string) (events : list PoolEvent) : Prop := {
  he_all : forall e, e ∈ events -> exists r, r ∈ raw_contract_events d /\ raw_pool d r = Some pool /\ carries (event_of d r) (FromPool e);
  he_only : forall r, r ∈ raw_contract_events d -> raw_pool d r = Some pool -> exists e, e ∈ events /\ carries (event_of d r) (FromPool e);
}.

Definition published (d : Db) (pool : string) (i : Z) (c : Z) : Prop :=
  exists r e, event_at d r (Commitment e) /\ raw_pool d r = Some pool /\ cc_index e = i /\ cc_commitment e = c.

Lemma nullifier_no_commitment ev n e : carries ev (FromPool (NewNullifierEvent n)) -> parse_event ev <> Ok (Commitment e).
Proof.
  intros Hc. unfold parse_event. rewrite (parse_event_metadata_ok ev _ Hc). cbn [mbind result_bind pe_name event_name].
  change (one_of "new_nullifier_event" "new_nullifier_event" "NewNullifierEvent") with true. cbn iota.
  intros (x & _ & E)%bind_Ok. discriminate.
Qed.

Lemma holds_published d pool events : (forall z c, commitment_published events z c -> in_field c) -> holds_events d pool events ->
  forall z c, published d pool z c <-> commitment_published events z c.
Proof.
  intros Hf [H1 H2] z c. split.
  - intros (r & e & [Hr He] & Hp & <- & <-). destruct (H2 r Hr Hp) as ([c i b|n] & Hin & Hcar).
    + assert (in_field c) as Hc by (apply (Hf i c); by exists b). rewrite (contract_event_parsed _ (FromPool (NewCommitmentEvent c i b)) Hc Hcar) in He. injection He as <-. by exists b.
    + destruct (nullifier_no_commitment _ _ e Hcar He).
  - intros (b & Hin). destruct (H1 _ Hin) as (r & Hr & Hp & Hcar). assert (in_field c) as Hc by (apply (Hf z c); by exists b).
    exists r. eexists. split; [split; [exact Hr | exact (contract_event_parsed _ (FromPool (NewCommitmentEvent c z b)) Hc Hcar)] |]. auto.
Qed.

(** The rows of the pool's commitments are the published ones. *)
Definition pool_rows (d : Db) (pool : string) : list CommitmentRow := filter (fun r => address_of d (pc_event r) = Some pool) (pool_commitments d).
Definition index_pair (r : CommitmentRow) : Z * Field := (pc_leaf_index r, pc_commitment r).

Lemma address_of_raw d r : storable d -> r ∈ raw_contract_events d -> address_of d (raw_id r) = raw_pool d r.
Proof. intros Hs Hr. unfold address_of. by rewrite (contract_of_raw d r Hs Hr). Qed.

Lemma pool_rows_published d pool z c : storable d -> tables_ok d -> unprocessed d = [] ->
  (z, c) ∈ index_pair <$> pool_rows d pool <-> published d pool z c.
Proof.
  intros Hs Ht Hu. split.
  - intros (row & [= -> ->] & [Hp Hrow]%list_elem_of_filter)%list_elem_of_fmap.
    destruct (to_commitments d Ht row Hrow) as (r & e & He & Hev & Hc & Hi & _). exists r, e. split; [exact He |].
    rewrite Hev, (address_of_raw d r Hs (proj1 He)) in Hp. auto.
  - intros (r & e & He & Hp & <- & <-). pose proof (row_of_event d r _ _ Hs Ht He eq_refl (all_processed d r Hs Hu (proj1 He))) as Hin.
    apply list_elem_of_fmap in Hin as (row & Hev & Hrow). destruct (to_commitments d Ht row Hrow) as (r' & e' & He' & Hev' & Hc & Hi & _).
    destruct (event_at_same d r r' _ _ Hs He He' ltac:(congruence)) as [-> [= ->]].
    apply list_elem_of_fmap. exists row. split; [unfold index_pair; congruence |]. apply list_elem_of_filter. split; [| exact Hrow].
    by rewrite <- Hev, (address_of_raw d r' Hs (proj1 He')).
Qed.

Lemma pool_rows_nodup d pool : storable d -> tables_ok d -> NoDup (index_pair <$> pool_rows d pool).
Proof.
  intros Hs Ht. apply NoDup_fmap_2_strong.
  - intros r1 r2 [_ H1]%list_elem_of_filter [_ H2]%list_elem_of_filter [= _ E]. exact (commitment_same d r1 r2 Hs Ht H1 H2 E).
  - apply NoDup_filter. exact (NoDup_fmap_1 _ _ (to_commitment_ids d Ht)).
Qed.

(** Leaves paired with their positions. *)
Definition positioned (leaves : list Field) : list (Z * Field) := imap (fun i c => (Z.of_nat i, c)) leaves.

Lemma elem_of_positioned leaves z c : (z, c) ∈ positioned leaves <-> exists i, z = Z.of_nat i /\ leaves !! i = Some c.
Proof.
  unfold positioned. rewrite list_elem_of_lookup. split.
  - intros (i & H). rewrite list_lookup_imap in H. destruct (leaves !! i) as [x|] eqn:E; [| discriminate]. injection H as <- <-. by exists i.
  - intros (i & -> & E). exists i. by rewrite list_lookup_imap, E.
Qed.

Lemma consecutive_positions leaves : forall k, 0 <= k -> k + zlength leaves < 2 ^ 32 ->
  consecutive k (imap (fun i c => (k + Z.of_nat i, c)) leaves) = Ok leaves.
Proof.
  induction leaves as [|c leaves IH]; intros k Hk Hlen; [reflexivity |]. unfold zlength in *. cbn [length] in Hlen. rewrite imap_cons. cbn [consecutive].
  unfold col_u32, fits_u. rewrite (proj2 (Z.leb_le 0 _)), (proj2 (Z.ltb_lt _ (2 ^ 32))) by lia. cbn [andb mbind result_bind].
  rewrite (proj2 (Z.eqb_eq _ _)) by lia. rewrite (proj2 (checked_add_Some 32 k 1 (k + 1))) by lia. cbn [ok_or mbind result_bind].
  rewrite (imap_ext _ (fun i c => (k + 1 + Z.of_nat i, c))) by (intros i x _; cbn; f_equal; lia). by rewrite IH by lia.
Qed.

Lemma positioned_sorted leaves : StronglySorted (by_key fst) (positioned leaves).
Proof.
  unfold positioned. assert (forall k, StronglySorted (by_key fst) (imap (fun i c => (k + Z.of_nat i, c)) leaves)) as H.
  { induction leaves as [|c leaves IH]; intros k; [constructor |]. rewrite imap_cons. constructor.
    - erewrite imap_ext; [apply (IH (k + 1)) |]. intros i x _. cbn. f_equal. lia.
    - apply Forall_forall. intros [z x] (i & Hi)%list_elem_of_lookup. rewrite list_lookup_imap in Hi. destruct (leaves !! i); [| discriminate].
      injection Hi as <- _. unfold by_key. cbn. lia. }
  exact (H 0).
Qed.

Lemma leaves_ordered_exact d pool leaves : storable d -> tables_ok d -> unprocessed d = [] ->
  (forall z c, published d pool z c <-> exists i, z = Z.of_nat i /\ leaves !! i = Some c) ->
  get_pool_commitment_leaves_ordered d pool = Ok leaves.
Proof.
  intros Hs Ht Hu Hpub. assert (index_pair <$> pool_rows d pool ≡ₚ positioned leaves) as Hperm.
  { apply NoDup_Permutation; [by apply pool_rows_nodup | | intros [z c]; by rewrite pool_rows_published, Hpub, elem_of_positioned].
    apply (NoDup_fmap_1 fst). unfold positioned. rewrite fmap_imap. apply NoDup_alt. intros i j x Hi Hj. rewrite list_lookup_imap in Hi, Hj.
    destruct (leaves !! i), (leaves !! j); try discriminate. cbn in *. injection Hi. injection Hj. lia. }
  assert (index_pair <$> order_by pc_leaf_index (pool_rows d pool) = positioned leaves) as Heq.
  { apply (StronglySorted_unique_strong (by_key fst)).
    - intros [z1 c1] [z2 c2] H1 H2 L1 L2. unfold by_key in L1, L2. cbn in L1, L2. assert (z1 = z2) as <- by lia.
      rewrite order_by_perm, Hperm in H1. apply elem_of_positioned in H1 as (i & -> & E1), H2 as (j & Ej & E2).
      assert (i = j) as <- by lia. rewrite E1 in E2. by injection E2 as ->.
    - pose proof (order_by_sorted pc_leaf_index (pool_rows d pool)) as Hso. induction Hso as [|r l _ IH Hall]; [constructor |]. cbn. constructor; [exact IH |].
      apply Forall_fmap. exact Hall.
    - apply positioned_sorted.
    - by rewrite order_by_perm. }
  unfold get_pool_commitment_leaves_ordered. fold (pool_rows d pool). change (fun r => (pc_leaf_index r, pc_commitment r)) with index_pair. rewrite Heq.
  apply (consecutive_positions leaves 0); [lia |]. apply Permutation_length in Hperm. unfold positioned in Hperm. rewrite length_imap, length_fmap in Hperm.
  unfold zlength. rewrite <- Hperm. pose proof (st_count d Hs) as Hcount. unfold zlength in Hcount.
  assert ((length (pool_rows d pool) <= length (raw_id <$> raw_contract_events d))%nat) as Hle; [| rewrite length_fmap in Hle; lia].
  etransitivity; [apply length_filter |]. rewrite <- (length_fmap pc_event). apply submseteq_length, NoDup_submseteq; [apply (to_commitment_events d Ht) |].
  intros ev (row & -> & Hrow)%list_elem_of_fmap. destruct (to_commitments d Ht row Hrow) as (r & e & [Hr _] & -> & _). by apply list_elem_of_fmap_2.
Qed.

End Client.

(** C9. The client's tree is the pool's: along any trace of the pool contract, a client that
    holds the pool's events, as the RPC carries them, and has no event left to process reads
    the leaves of the contract in order, and the tree it builds from them has the
    contract's current root. *)
Theorem synced_root_is_pool_root {Ledger} (env : PoolHost Ledger) (host : HostPoseidon2) (laws : HostPoseidon2Laws host) (X : XdrLib) (XL : XdrLaws X)
    (admin token verifier asp_m asp_n : Address) (max : Z) (depth : nat) (l : Ledger) (tr : list (pool_step Ledger)) (d : Db) (pool : string) :
  (1 <= depth <= 32)%nat -> Forall step_typed tr -> storable d -> tables_ok d -> unprocessed d = [] ->
  exists s, pool_constructor admin token verifier asp_m asp_n max (Z.of_nat depth) (empty_pool l) = (Ret tt, s) /\
    let '(txs, s') := pool_run tr s in
    holds_events d pool (pl_events s') ->
    exists t r, get_pool_commitment_leaves_ordered d pool = Ok (txs ≫= fun tx => [output_commitment0 tx.1; output_commitment1 tx.1]) /\
      MerklePrefixTree_new (Z.of_nat depth) (txs ≫= fun tx => [output_commitment0 tx.1; output_commitment1 tx.1]) = Some (Ok t) /\
      pt_root t = Some (Ok r) /\ pool_get_root s' = (Ret r, s').
Proof.
  intros Hd Htr Hs Ht Hu. destruct (pool_constructor_run admin token verifier asp_m asp_n max depth l Hd) as (s & Hrun & Hrel).
  exists s. split; [exact Hrun |]. destruct (pool_run_sim tr s _ Hrel Htr) as [Etx Hrel'].
  pose proof (spec_run_facts tr (new_pool_spec admin token verifier asp_m asp_n max depth l)) as [Hl _ Hdep _ _ _].
  assert (events_match (spec_run tr (new_pool_spec admin token verifier asp_m asp_n max depth l)).2) as Hm.
  { apply spec_run_events; [exact Htr |]. split; [| constructor]. intros z c. cbn. split; [intros (b & []%not_elem_of_nil) | intros (i & _ & H)]. by rewrite lookup_nil in H. }
  rewrite <- Etx in Hl. set (a' := (spec_run tr _).2) in *. destruct (pool_run tr s) as [txs s']. cbn [fst snd] in *. intros Hh.
  rewrite (rel_events _ _ Hrel') in Hh. cbn [ps_leaves new_pool_spec app] in Hl. change (txs ≫= commitments_of) with (txs ≫= fun tx => [output_commitment0 tx.1; output_commitment1 tx.1]) in Hl.
  rewrite <- Hl. destruct (client_tree_run (ps_leaves a') depth (em_canonical a' Hm) Hd) as (t & b & Hn & _ & _ & _ & Hr & _).
  exists t, (tree_root poseidon2_compress zero_leaf (ps_leaves a') depth). split; [| split; [exact Hn | split; [exact Hr |]]].
  - apply (leaves_ordered_exact d pool (ps_leaves a') Hs Ht Hu). intros z c. rewrite (holds_published d pool (ps_events a')); [apply (em_leaves a' Hm) | | exact Hh].
    intros z' c' (i & _ & Hi)%(em_leaves a' Hm). exact (proj1 (Forall_lookup _ _) (em_canonical a' Hm) i c' Hi).
  - rewrite (pool_get_root_run s' a' Hrel'), Hdep. reflexivity.
Qed.

(** One deposit, whose two commitments and two nullifiers the client has stored. *)
Definition chain_xdr : XdrLib := {|
  from_xdr_base64 s :=
    if bool_decide (s = "c") then Some (ScSymbol "new_commitment_event")
    else if bool_decide (s = "n") then Some (ScSymbol "new_nullifier_event")
    else if bool_decide (s = "11") then Some (u256_val 11)
    else if bool_decide (s = "12") then Some (u256_val 12)
    else if bool_decide (s = "21") then Some (u256_val 21)
    else if bool_decide (s = "22") then Some (u256_val 22)
    else if bool_decide (s = "out0") then Some (struct_val [("encrypted_output", ScBytes [1]); ("index", ScU32 0)])
    else if bool_decide (s = "out1") then Some (struct_val [("encrypted_output", ScBytes [2]); ("index", ScU32 1)])
    else Some ScVoid;
  scval_to_xdr _ := None;
  symbol_to_utf8 s := Some s;
  parse_address _ := None;
  account_strkey _ := "G";
  contract_strkey _ := "C";
|}.

#[local] Instance chain_xdr_laws : XdrLaws chain_xdr.
Proof. split. reflexivity. Qed.

Definition chain_raw (id topics value : string) : RawEvent := {| raw_id := id; raw_ledger := 7; raw_contract := 1; raw_topics := topics; raw_value := value |}.

Definition chain_events : list RawEvent := [chain_raw "1" "n,11" "void"; chain_raw "2" "n,12" "void"; chain_raw "3" "c,21" "out0"; chain_raw "4" "c,22" "out1"].

Definition chain_db : Db :=
  Build_Db [(1, "pool")] [] chain_events [] []
    [{| pn_id := 1; pn_nullifier := 11; pn_event := "1" |}; {| pn_id := 2; pn_nullifier := 12; pn_event := "2" |}]
    [{| pc_id := 1; pc_commitment := 22; pc_leaf_index := 1; pc_encrypted_output := [2]; pc_event := "4" |};
     {| pc_id := 2; pc_commitment := 21; pc_leaf_index := 0; pc_encrypted_output := [1]; pc_event := "3" |}] [] [] [] ∅ ∅.

Ltac each_event H := unfold chain_events in H; repeat (apply elem_of_cons in H as [H | H]; [subst | ]); [.. | by apply not_elem_of_nil in H].

Lemma chain_event_at r e : event_at (X := chain_xdr) chain_db r e ->
  (r, e) ∈ [(chain_raw "1" "n,11" "void", Nullifier {| cn_id := "1"; cn_nullifier := 11 |}); (chain_raw "2" "n,12" "void", Nullifier {| cn_id := "2"; cn_nullifier := 12 |});
    (chain_raw "3" "c,21" "out0", Commitment {| cc_id := "3"; cc_commitment := 21; cc_index := 0; cc_encrypted_output := [1] |});
    (chain_raw "4" "c,22" "out1", Commitment {| cc_id := "4"; cc_commitment := 22; cc_index := 1; cc_encrypted_output := [2] |})].
Proof.
  intros [Hr He]. change (raw_contract_events chain_db) with chain_events in Hr. each_event Hr; vm_compute in He; injection He as <-; apply list_elem_of_In; cbn; tauto.
Qed.

Lemma chain_storable : storable (X := chain_xdr) chain_db.
Proof.
  split.
  - reflexivity.
  - apply NoDup_ListNoDup. cbn. repeat constructor; cbn; intuition discriminate.
  - intros r Hr. change (raw_contract_events chain_db) with chain_events in Hr. each_event Hr; by eexists.
  - intros r Hr. change (raw_contract_events chain_db) with chain_events in Hr. each_event Hr; eexists; (split; [vm_compute; reflexivity | vm_compute; try split; congruence]).
  - intros r1 r2 e1 e2 H1%chain_event_at H2%chain_event_at E. apply list_elem_of_In in H1, H2. cbn in H1, H2. intuition (simplify_eq; (reflexivity || discriminate E)).
  - intros r1 r2 e1 e2 H1%chain_event_at H2%chain_event_at E. apply list_elem_of_In in H1, H2. cbn in H1, H2. intuition (simplify_eq; (reflexivity || discriminate E)).
  - intros r1 r2 e1 e2 H1%chain_event_at. apply list_elem_of_In in H1. cbn in H1. intuition discriminate.
Qed.

Ltac chain_row r := exists r; eexists; split; [split; [apply list_elem_of_In; cbn; tauto | vm_compute; reflexivity] | repeat split].

Lemma chain_tables : tables_ok (X := chain_xdr) chain_db.
Proof.
  split; try (by intros ? ?%not_elem_of_nil); try (apply NoDup_ListNoDup; cbn; repeat constructor; cbn; intuition discriminate).
  - intros c [-> | [-> | []%not_elem_of_nil]%elem_of_cons]%elem_of_cons; [chain_row (chain_raw "4" "c,22" "out1") | chain_row (chain_raw "3" "c,21" "out0")].
  - intros c [-> | [-> | []%not_elem_of_nil]%elem_of_cons]%elem_of_cons; [chain_row (chain_raw "1" "n,11" "void") | chain_row (chain_raw "2" "n,12" "void")].
Qed.

Lemma chain_holds : holds_events (X := chain_xdr) chain_db "pool"
  [NewCommitmentEvent 22 1 [2]; NewCommitmentEvent 21 0 [1]; NewNullifierEvent 12; NewNullifierEvent 11].
Proof.
  split.
  - intros e He. each_event He.
    + exists (chain_raw "4" "c,22" "out1"). split; [apply list_elem_of_In; cbn; tauto |]. split; [reflexivity |]. exists "c", ["22"]. repeat split; [repeat constructor | left; reflexivity].
    + exists (chain_raw "3" "c,21" "out0"). split; [apply list_elem_of_In; cbn; tauto |]. split; [reflexivity |]. exists "c", ["21"]. repeat split; [repeat constructor | left; reflexivity].
    + exists (chain_raw "2" "n,12" "void"). split; [apply list_elem_of_In; cbn; tauto |]. split; [reflexivity |]. exists "n", ["12"]. repeat split; [repeat constructor | right; split; reflexivity].
    + exists (chain_raw "1" "n,11" "void"). split; [apply list_elem_of_In; cbn; tauto |]. split; [reflexivity |]. exists "n", ["11"]. repeat split; [repeat constructor | right; split; reflexivity].
  - intros r Hr _. change (raw_contract_events chain_db) with chain_events in Hr. each_event Hr.
    + exists (NewNullifierEvent 11). split; [apply list_elem_of_In; cbn; tauto |]. exists "n", ["11"]. repeat split; [repeat constructor | right; split; reflexivity].
    + exists (NewNullifierEvent 12). split; [apply list_elem_of_In; cbn; tauto |]. exists "n", ["12"]. repeat split; [repeat constructor | right; split; reflexivity].
    + exists (NewCommitmentEvent 21 0 [1]). split; [apply list_elem_of_In; cbn; tauto |]. exists "c", ["21"]. repeat split; [repeat constructor | left; reflexivity].
    + exists (NewCommitmentEvent 22 1 [2]). split; [apply list_elem_of_In; cbn; tauto |]. exists "c", ["22"]. repeat split; [repeat constructor | left; reflexivity].
Qed.

Definition chain_trace : list (pool_step RefLedger) := [Invoke wit_call (PTransact wit_proof PoolTheorems.wit_ext "alice")].

Lemma chain_pool s : pool_rel (host := ref_host_poseidon2) s wit_spec ->
  (pool_run (host := ref_host_poseidon2) chain_trace s).1 = [(wit_proof, PoolTheorems.wit_ext)] /\
  pl_events (pool_run (host := ref_host_poseidon2) chain_trace s).2 = [NewCommitmentEvent 22 1 [2]; NewCommitmentEvent 21 0 [1]; NewNullifierEvent 12; NewNullifierEvent 11].
Proof.
  intros Hrel. destruct (pool_run_sim chain_trace s wit_spec Hrel) as [E1 Hrel']; [repeat constructor; apply wit_typed |].
  destruct (acceptable_accepted wit_call wit_proof PoolTheorems.wit_ext "alice" wit_spec (wit_acceptable (laws := ref_host_poseidon2_laws))) as (a' & Ha).
  assert (spec_run chain_trace wit_spec = ([(wit_proof, PoolTheorems.wit_ext)], a')) as Es by exact (spec_run_single _ _ _ _ _ _ _ Ha).
  rewrite E1, (rel_events _ _ Hrel'), Es. split; [reflexivity |]. exact (acc_events _ _ _ _ _ _ (spec_transact_accepted _ _ _ _ _ _ _ Ha)).
Qed.

Lemma synced_root_is_pool_root_witness :
  get_pool_commitment_leaves_ordered chain_db "pool" = Ok [21; 22] /\
  exists s t r, MerklePrefixTree_new 3 [21; 22] = Some (Ok t) /\ pt_root t = Some (Ok r) /\ pool_get_root (Ledger := RefLedger) s = (Ret r, s).
Proof.
  destruct (synced_root_is_pool_root ref_pool_host ref_host_poseidon2 ref_host_poseidon2_laws chain_xdr chain_xdr_laws "admin" "token" "verifier" "aspm" "aspn" 1000 3
    {[ ("token", "alice") := 50 ]} chain_trace chain_db "pool") as (s & Hc & H).
  - lia.
  - repeat constructor; apply wit_typed.
  - exact chain_storable.
  - exact chain_tables.
  - reflexivity.
  - destruct (pool_constructor_run (laws := ref_host_poseidon2_laws) "admin" "token" "verifier" "aspm" "aspn" 1000 3 ({[ ("token", "alice") := 50 ]} : RefLedger)) as (s0 & Hc0 & Hrel); [lia |].
    rewrite Hc in Hc0. injection Hc0 as <-. destruct (chain_pool s Hrel) as [E1 E2]. destruct (pool_run chain_trace s) as [txs s']. cbn [fst snd] in E1, E2. subst txs.
    rewrite E2 in H. destruct (H chain_holds) as (t & r & Hl & Hn & Hr & Hg). split; [exact Hl |]. exists s', t, r. split; [exact Hn |]. split; [exact Hr | exact Hg].
Defined.

