(* ===== verification/Rpc.v ===== *)
(** * The RPC client

    [sdk/stellar/src/rpc.rs] and [submit.rs]: the requests of the Soroban RPC client, the
    reading of its range errors, bulk reads of contract data and the polling of
    transactions.  The node, with the HTTP and JSON layers in front of it, is the class
    [RpcNode] over a type of network states; [IO] is a computation that talks to it. *)

From Stdlib Require Import Ascii.
From stdpp Require Import strings.
From S2P Require Import Prelude Ints Amounts ScVals.

(** ** Computations on a world *)

Definition IO (W E A : Type) : Type := W -> result E A * W.

#[export] Instance io_ret W E : MRet (IO W E) := fun A a w => (Ok a, w).
#[export] Instance io_bind W E : MBind (IO W E) := fun A B k m w =>
  match m w with
  | (Ok a, w') => k a w'
  | (Err e, w') => (Err e, w')
  end.

Definition io_result {W E A} (r : result E A) : IO W E A := fun w => (r, w).
Definition io_throw {W E A} (e : E) : IO W E A := fun w => (Err e, w).
Definition io_map_err {W E F A} (f : E -> F) (m : IO W E A) : IO W F A := fun w => let '(r, w') := m w in (map_err f r, w').

(** ** Errors, requests and responses *)

Inductive RpcError : Type :=
| InvalidAddress
| Reqwest
| JsonRpc (code : Z) (message : string)
| RpcXdr
| RpcSerde
| RpcNotFound (what name : string)
| RpcUnexpectedScVal
| RpcSyncGap (oldest : Z)
| RpcAhead (newest : Z)
| InvalidLatestLedger (ledger : Z)
| MissingRequiredContractKeys (contract_id : string) (missing_keys : list string)
| RpcTimeout.

Inductive EventType : Type := AllEvents | ContractEvents | SystemEvents.

Inductive EventStart : Type :=
| StartLedger (ledger : Z)
| StartRange (first last : Z)
| StartCursor (cursor : string).

Record RpcEvent : Type := {
  ev_ledger : Z;
  ev_contract_id : string;
  ev_id : string;
  ev_topic : list string;
  ev_value : string;
}.

Record GetEventsResponse : Type := {
  er_events : list RpcEvent;
  er_latest_ledger : Z;
  er_oldest_ledger : Z;
  er_cursor : string;
}.

(** The parameters of [getEvents]: the filter, the page and where to start. *)
Record GetEventsParams : Type := {
  gp_type : option string;
  gp_topics : list (list string);
  gp_contract_ids : list string;
  gp_limit : option nat;
  gp_cursor : option string;
  gp_start_ledger : option Z;
  gp_end_ledger : option Z;
}.

Record LedgerEntryResult : Type := { le_key : string; le_xdr : string }.
Record GetLedgerEntriesResponse : Type := { ge_entries : option (list LedgerEntryResult); ge_latest_ledger : Z }.

Record SimulateHostFunctionResult : Type := { sh_auth : list string; sh_retval : option string; sh_xdr : option string }.

Record SimulateTransactionResponse : Type := {
  sim_latest_ledger : Z;
  sim_result : option SimulateHostFunctionResult;
  sim_results : list SimulateHostFunctionResult;
  sim_transaction_data : option string;
  sim_min_resource_fee : option (list ascii);
  sim_error : option string;
}.

Record SendTransactionResponse : Type := { sr_hash : string; sr_status : string; sr_error_result_xdr : option string }.
Record GetTransactionResponse : Type := { gt_status : string; gt_result_xdr : option string }.

(** One method of the node each. *)
Class RpcNode (Net : Type) : Type := {
  rpc_get_events : GetEventsParams -> IO Net RpcError GetEventsResponse;
  rpc_get_latest_ledger : IO Net RpcError Z;
  rpc_get_ledger_entries : list string -> IO Net RpcError GetLedgerEntriesResponse;
  rpc_simulate_transaction : string -> IO Net RpcError SimulateTransactionResponse;
  rpc_send_transaction : string -> IO Net RpcError SendTransactionResponse;
  rpc_get_transaction : string -> IO Net RpcError GetTransactionResponse;
}.

(** ** Range errors *)

Definition ascii_space (c : ascii) : bool := let v := nat_of_ascii c in ((9 <=? v) && (v <=? 13) || (v =? 32))%nat.

Fixpoint trim_start (s : list ascii) : list ascii :=
  match s with
  | c :: rest => if ascii_space c then trim_start rest else s
  | [] => []
  end.

Definition trim (s : list ascii) : list ascii := rev (trim_start (rev (trim_start s))).

(** [split]: the pieces between the separators. *)
Fixpoint split_on (sep : ascii) (s : list ascii) : list (list ascii) :=
  match s with
  | [] => [[]]
  | c :: rest =>
      if Ascii.eqb c sep then [] :: split_on sep rest
      else match split_on sep rest with
           | piece :: pieces => (c :: piece) :: pieces
           | [] => [[c]]
           end
  end.

Fixpoint split_once (sep : ascii) (s : list ascii) : option (list ascii * list ascii) :=
  match s with
  | [] => None
  | c :: rest => if Ascii.eqb c sep then Some ([], rest) else '(a, b) ← split_once sep rest; Some (c :: a, b)
  end.

Definition parse_ledger_range (message : string) : option (Z * Z) :=
  match split_on ":" (String.list_ascii_of_string message) with
  | [_; part] =>
      '(first, last) ← split_once "-" (trim part);
      first ← parse_u 32 (trim first);
      last ← parse_u 32 (trim last);
      Some (first, last)
  | _ => None
  end.

(** ** Requests *)

Section Client.

Context {Net : Type} `{RpcNode Net}.

Definition get_events (start : EventStart) (event_type : option EventType) (contract_ids : list string) (topics : list (list string)) (limit : option nat)
    : IO Net RpcError GetEventsResponse :=
  let type := match event_type with Some ContractEvents => Some "contract" | Some SystemEvents => Some "system" | _ => None end in
  rpc_get_events {|
    gp_type := type; gp_topics := topics; gp_contract_ids := contract_ids; gp_limit := limit;
    gp_cursor := match start with StartCursor c => Some c | _ => None end;
    gp_start_ledger := match start with StartLedger l => Some l | StartRange l _ => Some l | StartCursor _ => None end;
    gp_end_ledger := match start with StartRange _ l => Some l | _ => None end |}.

Definition text_of (s : list ascii) : string := String.string_of_list_ascii s.

(** What a failed [getEvents] is reported as. *)
Definition events_error (start_ledger : Z) (cursor : option string) (e : RpcError) : RpcError :=
  match e with
  | JsonRpc code message =>
      let requested := JsonRpc code (message +:+ " (requested startLedger=" +:+ text_of (show_u start_ledger) +:+ ", cursor=" +:+ default "<none>" cursor +:+ ")") in
      match parse_ledger_range message with
      | Some (oldest, newest) =>
          if start_ledger <? oldest then RpcSyncGap oldest
          else if newest <? start_ledger then RpcAhead newest
          else requested
      | None => requested
      end
  | e => e
  end.

Definition get_contract_events (contract_ids : list string) (start_ledger : Z) (page_size : nat) (cursor : option string)
    : IO Net RpcError (option string * list RpcEvent * Z) :=
  let start := match cursor with Some c => StartCursor c | None => StartLedger start_ledger end in
  resp ← io_map_err (events_error start_ledger cursor) (get_events start (Some ContractEvents) contract_ids [["**"]] (Some page_size));
  mret (Some (er_cursor resp), er_events resp, er_latest_ledger resp).

Definition get_latest_ledger : IO Net RpcError Z := rpc_get_latest_ledger.

Definition send_transaction (tx : string) : IO Net RpcError SendTransactionResponse :=
  resp ← rpc_send_transaction tx;
  if bool_decide (sr_status resp = "ERROR") then io_throw (JsonRpc (-1) ("sendTransaction failed: " +:+ default "" (sr_error_result_xdr resp)))
  else mret resp.

Definition get_transaction (hash : string) : IO Net RpcError GetTransactionResponse := rpc_get_transaction hash.

(** ** [submit.rs] *)

Inductive SubmitError : Type :=
| SubmitRpc (e : RpcError)
| EmptyHash.

Definition submit_tx (signed_tx : string) : IO Net SubmitError string :=
  send ← io_map_err SubmitRpc (send_transaction signed_tx);
  if bool_decide (sr_hash send = "") then io_throw EmptyHash else mret (sr_hash send).

Inductive TxConfirmStatus : Type :=
| TxSuccess
| TxFailed (detail : string)
| TxPending.

Definition confirm_tx (hash : string) : IO Net SubmitError TxConfirmStatus :=
  status ← io_map_err SubmitRpc (get_transaction hash);
  mret (if bool_decide (gt_status status = "SUCCESS") then TxSuccess
        else if bool_decide (gt_status status = "FAILED") then
          TxFailed (match gt_result_xdr status with Some xdr => " (resultXdr: " +:+ xdr +:+ ")" | None => "" end)
        else TxPending).

End Client.

(** ** Contract data *)

Record LedgerKey : Type := { lk_contract : ScAddress; lk_key : ScVal }.

(** The ledger entries the client asks for; an account carries its sequence number. *)
Inductive LedgerEntryData : Type :=
| ContractData (val : ScVal)
| AccountData (seq_num : Z)
| OtherEntry.

(** Codecs of [stellar_strkey] and [stellar_xdr]. *)
Class LedgerXdr : Type := {
  contract_from_strkey : string -> option bytes;
  account_from_strkey : string -> option bytes;
  ledger_key_xdr : LedgerKey -> option string;
  account_key_xdr : bytes -> option string;
  entry_from_xdr : string -> option LedgerEntryData;
}.

Record ContractDataBulkRequest : Type := {
  br_contract_id : string;
  br_enum_keys : list string;
  br_valued_keys : list (string * Z);
}.

Record KeyMeta : Type := { km_contract_id : string; km_key_name : string; km_required : bool }.

(** [ScVal::LedgerKeyContractInstance]. *)
Definition contract_instance_key : ScVal := ScOther 20 [].

Definition symbol_try_from (s : string) : result RpcError ScVal := if (String.length s <=? 32)%nat then Ok (ScSymbol s) else Err RpcXdr.

Definition MAX_LEDGER_KEYS_PER_REQUEST : nat := 200.

(** [slice::chunks]. *)
Fixpoint chunks {A} (fuel size : nat) (l : list A) : list (list A) :=
  match fuel, l with
  | S fuel, _ :: _ => take size l :: chunks fuel size (drop size l)
  | _, _ => []
  end.

Abbreviation ContractState := (gmap string ScVal).
Abbreviation BulkState := (gmap string (gmap string ScVal)).
Abbreviation KeyNames := (gmap string (gset string)).

Section Bulk.

Context {Net : Type} `{RpcNode Net} `{LedgerXdr}.

Definition get_ledger_entries (keys : list LedgerKey) : IO Net RpcError GetLedgerEntriesResponse :=
  base64_keys ← io_result (ok_or (mapM ledger_key_xdr keys) RpcXdr);
  rpc_get_ledger_entries base64_keys.

Fixpoint enum_specs (contract : ScAddress) (enum_keys : list string) : result RpcError (list (LedgerKey * string * bool)) :=
  match enum_keys with
  | [] => Ok []
  | variant :: rest =>
      symbol ← symbol_try_from variant;
      others ← enum_specs contract rest;
      Ok (({| lk_contract := contract; lk_key := ScVec (Some [symbol]) |}, variant, true) :: others)
  end.

Fixpoint valued_specs (contract : ScAddress) (valued_keys : list (string * Z)) : result RpcError (list (LedgerKey * string * bool)) :=
  match valued_keys with
  | [] => Ok []
  | (variant, value) :: rest =>
      symbol ← symbol_try_from variant;
      others ← valued_specs contract rest;
      Ok (({| lk_contract := contract; lk_key := ScVec (Some [symbol; ScU32 value]) |}, variant, true) :: others)
  end.

Definition build_contract_data_key_specs (contract_id : string) (enum_keys : list string) (valued_keys : list (string * Z))
    : result RpcError (list (LedgerKey * string * bool)) :=
  contract ← ok_or (contract_from_strkey contract_id) InvalidAddress;
  let address := AddrContract contract in
  enums ← enum_specs address enum_keys;
  valued ← valued_specs address valued_keys;
  Ok (({| lk_contract := address; lk_key := contract_instance_key |}, "__contract_instance", false) :: enums ++ valued).

(** The keys to ask for, each once, and what each stands for. *)
Fixpoint add_specs (contract_id : string) (specs : list (LedgerKey * string * bool)) (acc : list LedgerKey * gmap string KeyMeta)
    : result RpcError (list LedgerKey * gmap string KeyMeta) :=
  match specs with
  | [] => Ok acc
  | (key, key_name, required) :: rest =>
      key_xdr ← ok_or (ledger_key_xdr key) RpcXdr;
      add_specs contract_id rest
        match acc.2 !! key_xdr with
        | Some _ => acc
        | None => (acc.1 ++ [key], <[key_xdr := {| km_contract_id := contract_id; km_key_name := key_name; km_required := required |}]> acc.2)
        end
  end.

Fixpoint collect_keys (requests : list ContractDataBulkRequest) (acc : list LedgerKey * gmap string KeyMeta)
    : result RpcError (list LedgerKey * gmap string KeyMeta) :=
  match requests with
  | [] => Ok acc
  | r :: rest =>
      specs ← build_contract_data_key_specs (br_contract_id r) (br_enum_keys r) (br_valued_keys r);
      acc ← add_specs (br_contract_id r) specs acc;
      collect_keys rest acc
  end.

Definition add_name (names : KeyNames) (meta : KeyMeta) : KeyNames :=
  if km_required meta then <[km_contract_id meta := {[km_key_name meta]} ∪ default ∅ (names !! km_contract_id meta)]> names else names.

Definition expected_required (metas : gmap string KeyMeta) : KeyNames := foldl add_name ∅ (map_to_list metas).*2.

(** The entries of one response. *)
Fixpoint read_entries (metas : gmap string KeyMeta) (entries : list LedgerEntryResult) (acc : BulkState * KeyNames) : result RpcError (BulkState * KeyNames) :=
  match entries with
  | [] => Ok acc
  | entry :: rest =>
      match metas !! le_key entry with
      | None => read_entries metas rest acc
      | Some meta =>
          data ← ok_or (entry_from_xdr (le_xdr entry)) RpcXdr;
          match data with
          | ContractData val =>
              let state := <[km_key_name meta := val]> (default ∅ (acc.1 !! km_contract_id meta)) in
              read_entries metas rest (<[km_contract_id meta := state]> acc.1, add_name acc.2 meta)
          | _ => read_entries metas rest acc
          end
      end
  end.

Fixpoint read_chunks (metas : gmap string KeyMeta) (chunks : list (list LedgerKey)) (latest_ledger : Z) (acc : BulkState * KeyNames)
    : IO Net RpcError (BulkState * KeyNames * Z) :=
  match chunks with
  | [] => mret (acc, latest_ledger)
  | chunk :: rest =>
      response ← get_ledger_entries chunk;
      chunk_latest_ledger ← io_result (ok_or (try_into_u 32 (ge_latest_ledger response)) (InvalidLatestLedger (ge_latest_ledger response)));
      acc ← io_result (read_entries metas (default [] (ge_entries response)) acc);
      read_chunks metas rest (Z.min latest_ledger chunk_latest_ledger) acc
  end.

(** The first contract, in the order of the map, with a key that was not returned. *)
Fixpoint check_required (expected : list (string * gset string)) (actual : KeyNames) : result RpcError unit :=
  match expected with
  | [] => Ok tt
  | (contract_id, names) :: rest =>
      let missing := names ∖ default ∅ (actual !! contract_id) in
      if bool_decide (missing = ∅) then check_required rest actual
      else Err (MissingRequiredContractKeys contract_id (elements missing))
  end.

Definition get_contract_data_bulk (requests : list ContractDataBulkRequest) : IO Net RpcError (BulkState * Z) :=
  collected ← io_result (collect_keys requests ([], ∅));
  let '(all_keys, key_meta_by_xdr) := collected in
  if bool_decide (length all_keys = 0%nat) then mret (∅, 0)
  else
    read ← read_chunks key_meta_by_xdr (chunks (length all_keys) MAX_LEDGER_KEYS_PER_REQUEST all_keys) (2 ^ 32 - 1) (∅, ∅);
    let '(result, actual_required, latest_ledger) := read in
    io_result (check_required (map_to_list (expected_required key_meta_by_xdr)) actual_required);;
    mret (result, latest_ledger).

Definition get_account (address : string) : IO Net RpcError Z :=
  pk ← io_result (ok_or (account_from_strkey address) InvalidAddress);
  key ← io_result (ok_or (account_key_xdr pk) RpcXdr);
  response ← rpc_get_ledger_entries [key];
  match default [] (ge_entries response) with
  | [] => io_throw (RpcNotFound "Account" address)
  | entry :: _ =>
      data ← io_result (ok_or (entry_from_xdr (le_xdr entry)) RpcXdr);
      match data with AccountData seq_num => mret seq_num | _ => io_throw RpcUnexpectedScVal end
  end.

End Bulk.

(** ** Runs taken apart

    How a computation comes to an answer: the lemmas and the tactic [io_inv] that take a
    successful run apart, and [io_run] that puts one together. *)

Section Inversion.

Context {W E F A B : Type}.

Lemma io_bind_Ok (m : IO W E A) (k : A -> IO W E B) w b w' :
  (m ≫= k) w = (Ok b, w') <-> exists a w1, m w = (Ok a, w1) /\ k a w1 = (Ok b, w').
Proof.
  unfold mbind, io_bind. destruct (m w) as [[a|e] w1]; split.
  - intros H. by exists a, w1.
  - by intros (? & ? & [= <- <-] & H).
  - done.
  - by intros (? & ? & [=] & _).
Qed.

Lemma io_bind_run (m : IO W E A) (k : A -> IO W E B) w a w1 : m w = (Ok a, w1) -> (m ≫= k) w = k a w1.
Proof. unfold mbind, io_bind. by intros ->. Qed.

Lemma io_bind_fail (m : IO W E A) (k : A -> IO W E B) w e w1 : m w = (Err e, w1) -> (m ≫= k) w = (Err e, w1).
Proof. unfold mbind, io_bind. by intros ->. Qed.

Lemma io_result_Ok (r : result E A) (w : W) a w' : io_result r w = (Ok a, w') <-> r = Ok a /\ w' = w.
Proof. unfold io_result. split; [by intros [= -> ->] | by intros [-> ->]]. Qed.

Lemma io_mret_Ok (a b : A) (w w' : W) : (mret a : IO W E A) w = (Ok b, w') <-> b = a /\ w' = w.
Proof. unfold mret, io_ret. split; [by intros [= -> ->] | by intros [-> ->]]. Qed.

Lemma io_throw_Ok (e : E) (w : W) (a : A) w' : io_throw e w = (Ok a, w') <-> False.
Proof. done. Qed.

Lemma io_map_err_Ok (f : E -> F) (m : IO W E A) w a w' : io_map_err f m w = (Ok a, w') <-> m w = (Ok a, w').
Proof. unfold io_map_err. destruct (m w) as [[|] ?]; cbn; split; congruence. Qed.

End Inversion.

(** The runs of the program in the context, taken apart. *)
Ltac io_inv :=
  repeat match goal with
  | H : (_ ≫= _) _ = (Ok _, _) |- _ => apply io_bind_Ok in H; destruct H as (? & ? & ? & H)
  | H : io_result _ _ = (Ok _, _) |- _ => apply io_result_Ok in H; destruct H as [? ?]; subst
  | H : io_map_err _ _ _ = (Ok _, _) |- _ => apply io_map_err_Ok in H
  | H : mret _ _ = (Ok _, _) |- _ => apply io_mret_Ok in H; destruct H as [? ?]; subst
  | H : io_throw _ _ = (Ok _, _) |- _ => discriminate H
  end.

(** The next computation of the goal, known to succeed. *)
Ltac io_run H := rewrite (io_bind_run _ _ _ _ _ H).

(** The computations of the goal whose runs are known. *)
Ltac io_go :=
  repeat match goal with H : ?m ?w = (Ok _, _) |- context [(?m ≫= _) ?w] => rewrite (io_bind_run _ _ _ _ _ H) end.
