(* ===== verification/Envelope.v ===== *)
(** * Transactions of the client

    [sdk/stellar/src/tx_assemble.rs], [tx_prepare.rs], [signer.rs] and the envelopes of
    [contract_state.rs]: an invocation of a contract as an unsigned transaction, the merge of
    its simulation, the signing of its authorization entries and of the whole, and the
    verification of a signature. *)

From Stdlib Require Import Ascii.
From stdpp Require Import strings.
From S2P Require Import Prelude Ints Amounts Hashes ProverMonad Flows ScVals Rpc Queries.

(** ** The types of [stellar_xdr]: the variants in use, and one for the rest *)

(** The tree of invocations an entry authorises is only copied. *)
Record AddressCredentials : Type := {
  cred_address : ScAddress;
  cred_nonce : Z;
  cred_expiration : Z;
  cred_signature : ScVal;
}.

Inductive SorobanCredentials : Type :=
| SourceAccountCredentials
| AddressCreds (creds : AddressCredentials).

Record SorobanAuthorizationEntry : Type := {
  auth_credentials : SorobanCredentials;
  auth_root_invocation : bytes;
}.

Record InvokeContractArgs : Type := { ic_contract : ScAddress; ic_function : string; ic_args : list ScVal }.

Inductive OperationBody : Type :=
| InvokeHostFunction (host_function : InvokeContractArgs) (auth : list SorobanAuthorizationEntry)
| OtherOperation (body : bytes).

Record Operation : Type := { op_source_account : option bytes; op_body : OperationBody }.

Record SorobanTransactionData : Type := { sd_resources : bytes; sd_resource_fee : Z }.

Inductive TransactionExt : Type :=
| ExtV0
| ExtV1 (data : SorobanTransactionData).

(** [tx_cond_memo] is empty for no preconditions and no memo. *)
Record Transaction : Type := {
  tx_source_account : bytes;
  tx_fee : Z;
  tx_seq_num : Z;
  tx_cond_memo : bytes;
  tx_operations : list Operation;
  tx_ext : TransactionExt;
}.

Record DecoratedSignature : Type := { ds_hint : bytes; ds_signature : bytes }.

Inductive TransactionEnvelope : Type :=
| EnvelopeTx (tx : Transaction) (signatures : list DecoratedSignature)
| OtherEnvelope (body : bytes).

(** [HashIdPreimageSorobanAuthorization]. *)
Record AuthPreimage : Type := {
  ap_network_id : bytes;
  ap_nonce : Z;
  ap_expiration : Z;
  ap_invocation : bytes;
}.

Class EnvelopeXdr : Type := {
  envelope_to_xdr : TransactionEnvelope -> option string;
  envelope_from_xdr : string -> option TransactionEnvelope;
  auth_entry_from_xdr : string -> option SorobanAuthorizationEntry;
  soroban_data_from_xdr : string -> option SorobanTransactionData;
  preimage_to_xdr : AuthPreimage -> option bytes;
  (** [TransactionEnvelope::hash], over the network and the transaction *)
  transaction_hash : bytes -> Transaction -> option bytes;
}.

Class Ed25519 : Type := {
  secret_from_strkey : string -> option bytes;
  ed_public : bytes -> bytes;
  ed_sign : bytes -> bytes -> bytes;
  ed_verify : bytes -> bytes -> bytes -> bool;
}.

(** ** Errors *)

Inductive FetchError : Type :=
| FetchRpc (e : RpcError)
| FetchStellar (e : StellarError)
| FetchField (e : AmountError)
| FetchXdr
| BadStrkey
| InvalidFunctionName
| PoolNotEnabled (pool : string)
| MissingContractState (contract : string)
| MissingStateKey (key contract : string)
| InconsistentSnapshot
| NotI128
| CapacityOverflow                  (** a panic *)
| SmtDepthZero
| Sanctioned
| NoOpResults
| MissingRetval
| BadFindResult
| PoolDataMissing (pool : string)
| MissingMerkleRoot
| InvalidNextIndex
| SequenceOverflow
| SimulationFailed (message : string)
| InvalidResourceFee
| MissingTransactionData
| InvalidTransactionData
| InvalidAuthEntry
| NotV1Envelope
| OperationCount (n : nat)
| FeeOverflow
| NotInvoke
| AuthNotEmpty
| LatestLedgerRange
| NotAddressCredentials
| AlreadySigned
| MissingAuthSignature (index : nat)
| UnexpectedAuthSignatures
| WrongSecretKey
| BadSecretKey
| BadSignatureIndex
| HintMismatch
| SignatureInvalid.

(** ** Envelopes *)

Definition BASE_FEE : Z := 100.

Section Envelopes.

Context `{LedgerXdr} `{EnvelopeXdr}.

Definition build_invoke_contract_tx_envelope (source_account : string) (seq_num fee : Z) (contract_id function : string) (args : list ScVal)
    (auth_entries : list SorobanAuthorizationEntry) : result FetchError TransactionEnvelope :=
  source ← ok_or (account_from_strkey source_account) BadStrkey;
  contract ← ok_or (contract_from_strkey contract_id) BadStrkey;
  if (32 <? String.length function)%nat then Err InvalidFunctionName
  else if (2 ^ 32 - 1 <? zlength args) || (2 ^ 32 - 1 <? zlength auth_entries) then Err FetchXdr
  else
    let op := {| op_source_account := None;
                 op_body := InvokeHostFunction {| ic_contract := AddrContract contract; ic_function := function; ic_args := args |} auth_entries |} in
    Ok (EnvelopeTx {| tx_source_account := source; tx_fee := fee; tx_seq_num := seq_num; tx_cond_memo := []; tx_operations := [op]; tx_ext := ExtV0 |} []).

(** ** Simulation *)

Definition first_result (sim : SimulateTransactionResponse) : result FetchError SimulateHostFunctionResult :=
  match sim_result sim with
  | Some r => Ok r
  | None => ok_or (head (sim_results sim)) NoOpResults
  end.

Definition auth_entries_base64 (sim : SimulateTransactionResponse) : result FetchError (list string) :=
  r ← first_result sim; Ok (sh_auth r).

Definition min_resource_fee_u64 (sim : SimulateTransactionResponse) : result FetchError Z :=
  match sim_min_resource_fee sim with
  | None => Ok 0
  | Some raw => ok_or (parse_u 64 raw) InvalidResourceFee
  end.

Definition soroban_transaction_data (sim : SimulateTransactionResponse) : result FetchError SorobanTransactionData :=
  b64 ← ok_or (sim_transaction_data sim) MissingTransactionData;
  ok_or (soroban_data_from_xdr b64) InvalidTransactionData.

Fixpoint decode_auth_entries (l : list string) : result FetchError (list SorobanAuthorizationEntry) :=
  match l with
  | [] => Ok []
  | b64 :: rest => entry ← ok_or (auth_entry_from_xdr b64) InvalidAuthEntry; others ← decode_auth_entries rest; Ok (entry :: others)
  end.

Definition auth_entries (sim : SimulateTransactionResponse) : result FetchError (list SorobanAuthorizationEntry) :=
  l ← auth_entries_base64 sim; decode_auth_entries l.

Definition ensure_success (sim : SimulateTransactionResponse) : result FetchError unit :=
  match sim_error sim with Some err => Err (SimulationFailed err) | None => Ok tt end.

(** The fee with the simulated resource fee in the place of the one it carried; [resource_fee]
    of an envelope is an [i64]. *)
Definition assembled_fee (fee : Z) (ext : TransactionExt) (resource_fee : Z) : option Z :=
  let classic_fee := match ext with
                     | ExtV1 existing => saturating_sub fee (default 0 (try_into_u 64 (sd_resource_fee existing)))
                     | ExtV0 => fee
                     end in
  try_into_u 32 (Z.min (2 ^ 64 - 1) (classic_fee + resource_fee)).

Definition assemble_soroban_transaction (raw : TransactionEnvelope) (sim : SimulateTransactionResponse) : result FetchError TransactionEnvelope :=
  ensure_success sim;;
  min_resource_fee ← min_resource_fee_u64 sim;
  soroban_data ← soroban_transaction_data sim;
  auth ← auth_entries sim;
  match raw with
  | OtherEnvelope _ => Err NotV1Envelope
  | EnvelopeTx tx signatures =>
      match tx_operations tx with
      | [op] =>
          resource_fee ← ok_or (try_into_u 32 min_resource_fee) FeeOverflow;
          fee ← ok_or (assembled_fee (tx_fee tx) (tx_ext tx) resource_fee) FeeOverflow;
          match op_body op with
          | OtherOperation _ => Err NotInvoke
          | InvokeHostFunction host_function existing =>
              if bool_decide (length existing <> 0%nat) then Err AuthNotEmpty
              else if 2 ^ 32 - 1 <? zlength auth then Err FetchXdr
              else
                let op := {| op_source_account := op_source_account op; op_body := InvokeHostFunction host_function auth |} in
                Ok (EnvelopeTx {| tx_source_account := tx_source_account tx; tx_fee := fee; tx_seq_num := tx_seq_num tx; tx_cond_memo := tx_cond_memo tx;
                                  tx_operations := [op]; tx_ext := ExtV1 soroban_data |} signatures)
          end
      | ops => Err (OperationCount (length ops))
      end
  end.

Record PreparedSorobanTx : Type := {
  ps_tx_xdr : string;
  ps_auth_entries : list string;
  ps_latest_ledger : Z;
}.

Definition from_simulation (raw : TransactionEnvelope) (sim : SimulateTransactionResponse) : result FetchError PreparedSorobanTx :=
  assembled ← assemble_soroban_transaction raw sim;
  latest_ledger ← ok_or (try_into_u 32 (sim_latest_ledger sim)) LatestLedgerRange;
  tx_xdr ← ok_or (envelope_to_xdr assembled) FetchXdr;
  auth ← auth_entries_base64 sim;
  Ok {| ps_tx_xdr := tx_xdr; ps_auth_entries := auth; ps_latest_ledger := latest_ledger |}.

End Envelopes.

(** ** Signing *)

Definition AUTH_EXPIRATION_LEDGERS : Z := 100.

Section Signing.

Context `{XdrLib} `{LedgerXdr} `{EnvelopeXdr} `{Ed25519} `{Crypto}.

Definition text_bytes (s : string) : bytes := (fun c => Z.of_nat (nat_of_ascii c)) <$> String.list_ascii_of_string s.

Definition network_id (network_passphrase : string) : bytes := sha256 (text_bytes network_passphrase).

Definition auth_expiration_ledger (prepared : PreparedSorobanTx) : Z := Z.min (2 ^ 32 - 1) (ps_latest_ledger prepared + AUTH_EXPIRATION_LEDGERS).

Definition is_void (v : ScVal) : bool := match v with ScVoid => true | _ => false end.

Definition needs_wallet_auth (entry : SorobanAuthorizationEntry) (address : string) : result FetchError bool :=
  match auth_credentials entry with
  | SourceAccountCredentials => Ok false
  | AddressCreds creds =>
      if negb (is_void (cred_signature creds)) then Ok false
      else
        text ← map_err FetchStellar (scval_to_address_string (ScAddr (cred_address creds)));
        Ok (bool_decide (text = address))
  end.

Definition soroban_auth_preimage (entry : SorobanAuthorizationEntry) (network_passphrase : string) (expiration_ledger : Z) : result FetchError AuthPreimage :=
  match auth_credentials entry with
  | SourceAccountCredentials => Err NotAddressCredentials
  | AddressCreds creds =>
      Ok {| ap_network_id := network_id network_passphrase; ap_nonce := cred_nonce creds; ap_expiration := expiration_ledger;
            ap_invocation := auth_root_invocation entry |}
  end.

Record AuthSignStep : Type := { as_entry_index : nat; as_preimage : AuthPreimage }.

Fixpoint auth_steps_from (index : nat) (entries : list string) (network_passphrase user_address : string) (expiration : Z) : result FetchError (list AuthSignStep) :=
  match entries with
  | [] => Ok []
  | entry_b64 :: rest =>
      entry ← ok_or (auth_entry_from_xdr entry_b64) InvalidAuthEntry;
      needed ← needs_wallet_auth entry user_address;
      if needed : bool then
        preimage ← soroban_auth_preimage entry network_passphrase expiration;
        others ← auth_steps_from (S index) rest network_passphrase user_address expiration;
        Ok ({| as_entry_index := index; as_preimage := preimage |} :: others)
      else auth_steps_from (S index) rest network_passphrase user_address expiration
  end.

Definition auth_sign_steps (prepared : PreparedSorobanTx) (network_passphrase user_address : string) : result FetchError (list AuthSignStep) :=
  auth_steps_from 0 (ps_auth_entries prepared) network_passphrase user_address (auth_expiration_ledger prepared).

(** The map of [public_key] and [signature] in a vector. *)
Definition address_credentials_signature (public_key signature : bytes) : ScVal :=
  ScVec (Some [ScMap (Some [(ScSymbol "public_key", ScBytes public_key); (ScSymbol "signature", ScBytes signature)])]).

Definition apply_address_auth_signature (entry : SorobanAuthorizationEntry) (public_key signature : bytes) (expiration_ledger : Z)
    : result FetchError SorobanAuthorizationEntry :=
  match auth_credentials entry with
  | SourceAccountCredentials => Err NotAddressCredentials
  | AddressCreds creds =>
      if negb (is_void (cred_signature creds)) then Err AlreadySigned
      else Ok {| auth_credentials := AddressCreds {| cred_address := cred_address creds; cred_nonce := cred_nonce creds; cred_expiration := expiration_ledger;
                                                     cred_signature := address_credentials_signature public_key signature |};
                 auth_root_invocation := auth_root_invocation entry |}
  end.

(** The loop over the entries: the entries with their signatures, the signatures left over and
    whether an entry was signed. *)
Fixpoint sign_entries (index : nat) (entries : list string) (user_address : string) (public_key : bytes) (expiration : Z) (sigs : gmap nat bytes)
    : result FetchError (list SorobanAuthorizationEntry * gmap nat bytes * bool) :=
  match entries with
  | [] => Ok ([], sigs, false)
  | entry_b64 :: rest =>
      entry ← ok_or (auth_entry_from_xdr entry_b64) InvalidAuthEntry;
      needed ← needs_wallet_auth entry user_address;
      if needed : bool then
        signature ← ok_or (sigs !! index) (MissingAuthSignature index);
        entry ← apply_address_auth_signature entry public_key signature expiration;
        others ← sign_entries (S index) rest user_address public_key expiration (delete index sigs);
        Ok (entry :: others.1.1, others.1.2, true)
      else
        others ← sign_entries (S index) rest user_address public_key expiration sigs;
        Ok (entry :: others.1.1, others.1.2, others.2)
  end.

(** The first operation that invokes a host function gets the entries. *)
Fixpoint patch_operations (ops : list Operation) (signed_auth : list SorobanAuthorizationEntry) : option (list Operation) :=
  match ops with
  | [] => None
  | op :: rest =>
      match op_body op with
      | InvokeHostFunction host_function _ => Some ({| op_source_account := op_source_account op; op_body := InvokeHostFunction host_function signed_auth |} :: rest)
      | OtherOperation _ => ops ← patch_operations rest signed_auth; Some (op :: ops)
      end
  end.

Definition patch_auth_entries (envelope : TransactionEnvelope) (signed_auth : list SorobanAuthorizationEntry) : result FetchError TransactionEnvelope :=
  match envelope with
  | OtherEnvelope _ => Err NotV1Envelope
  | EnvelopeTx tx signatures =>
      ops ← ok_or (patch_operations (tx_operations tx) signed_auth) NotInvoke;
      Ok (EnvelopeTx {| tx_source_account := tx_source_account tx; tx_fee := tx_fee tx; tx_seq_num := tx_seq_num tx; tx_cond_memo := tx_cond_memo tx;
                        tx_operations := ops; tx_ext := tx_ext tx |} signatures)
  end.

Definition unsigned_tx_for_signing (prepared : PreparedSorobanTx) (user_address : string) (auth_signatures : list (nat * bytes)) : result FetchError string :=
  let expiration := auth_expiration_ledger prepared in
  public_key ← ok_or (account_from_strkey user_address) BadStrkey;
  let sigs_by_index := foldl (fun m s => <[s.1 := s.2]> m) (∅ : gmap nat bytes) auth_signatures in
  signed ← sign_entries 0 (ps_auth_entries prepared) user_address public_key expiration sigs_by_index;
  let '(signed_auth, left_over, needs_patch) := signed in
  if bool_decide (left_over <> ∅) then Err UnexpectedAuthSignatures
  else if needs_patch : bool then
    envelope ← ok_or (envelope_from_xdr (ps_tx_xdr prepared)) FetchXdr;
    envelope ← patch_auth_entries envelope signed_auth;
    ok_or (envelope_to_xdr envelope) FetchXdr
  else Ok (ps_tx_xdr prepared).

Record LocalSigner : Type := { ls_public_key : string; ls_signing_key : bytes }.

Definition from_secret (secret : string) : result FetchError LocalSigner :=
  private_key ← ok_or (secret_from_strkey secret) BadSecretKey;
  Ok {| ls_public_key := account_strkey (ed_public private_key); ls_signing_key := private_key |}.

Definition sign_digest (s : LocalSigner) (digest : bytes) : bytes := ed_sign (ls_signing_key s) digest.

Definition sign_data (s : LocalSigner) (data : bytes) : bytes := sign_digest s (sha256 data).

Definition sign_auth_preimage (s : LocalSigner) (preimage : AuthPreimage) : result FetchError bytes :=
  data ← ok_or (preimage_to_xdr preimage) FetchXdr; Ok (sign_data s data).

Definition sign_transaction (s : LocalSigner) (envelope : TransactionEnvelope) (network_passphrase : string) : result FetchError TransactionEnvelope :=
  match envelope with
  | OtherEnvelope _ => Err NotV1Envelope
  | EnvelopeTx tx signatures =>
      tx_hash ← ok_or (transaction_hash (network_id network_passphrase) tx) FetchXdr;
      public_key ← ok_or (account_from_strkey (ls_public_key s)) BadStrkey;
      let decorated := {| ds_hint := drop 28 public_key; ds_signature := sign_digest s tx_hash |} in
      if (20 <=? length signatures)%nat then Err FetchXdr
      else Ok (EnvelopeTx tx (signatures ++ [decorated]))
  end.

Fixpoint sign_steps (s : LocalSigner) (steps : list AuthSignStep) : result FetchError (list (nat * bytes)) :=
  match steps with
  | [] => Ok []
  | step :: rest => signature ← sign_auth_preimage s (as_preimage step); others ← sign_steps s rest; Ok ((as_entry_index step, signature) :: others)
  end.

Definition sign_prepared_transaction (s : LocalSigner) (prepared : PreparedSorobanTx) (network_passphrase user_address : string)
    : result FetchError TransactionEnvelope :=
  if negb (bool_decide (ls_public_key s = user_address)) then Err WrongSecretKey
  else
    steps ← auth_sign_steps prepared network_passphrase user_address;
    auth_signatures ← sign_steps s steps;
    tx_b64 ← unsigned_tx_for_signing prepared user_address auth_signatures;
    envelope ← ok_or (envelope_from_xdr tx_b64) FetchXdr;
    sign_transaction s envelope network_passphrase.

(** [verify_tx]; the hash does not cover the signatures, so those before the index do not matter. *)
Definition verify_tx (envelope : TransactionEnvelope) (network_passphrase signer_public_key : string) (signature_index : nat) : result FetchError unit :=
  match envelope with
  | OtherEnvelope _ => Err NotV1Envelope
  | EnvelopeTx tx signatures =>
      decorated ← ok_or (signatures !! signature_index) BadSignatureIndex;
      tx_hash ← ok_or (transaction_hash (network_id network_passphrase) tx) FetchXdr;
      public_key ← ok_or (account_from_strkey signer_public_key) BadStrkey;
      if negb (bool_decide (ds_hint decorated = drop 28 public_key)) then Err HintMismatch
      else if negb (bool_decide (length (ds_signature decorated) = 64%nat)) then Err SignatureInvalid
      else if ed_verify public_key tx_hash (ds_signature decorated) then Ok tt else Err SignatureInvalid
  end.

End Signing.
