(* ===== verification/CodecExample.v ===== *)
(** * A codec of envelopes

    Texts for all the envelopes of [Envelope.v], read back as they are: the codec the examples
    of signing run on.  Values are encoded as trees of numbers and texts, trees as positive
    numbers and numbers as binary digits. *)

From Stdlib Require Import Ascii.
From stdpp Require Import strings countable.
From S2P Require Import Prelude Ints Amounts ScVals Rpc Queries Envelope.

Local Abbreviation tree := (gen_tree (Z + string)).
Local Abbreviation num x := (GenLeaf (inl x) : tree).
Local Abbreviation text x := (GenLeaf (inr x) : tree).

Definition of_num (t : tree) : option Z := match t with GenLeaf (inl x) => Some x | _ => None end.
Definition of_text (t : tree) : option string := match t with GenLeaf (inr x) => Some x | _ => None end.

Definition nums (l : list Z) : list tree := (fun x => num x) <$> l.
Definition of_nums (l : list tree) : option (list Z) := mapM of_num l.

Lemma of_nums_of l : of_nums (nums l) = Some l.
Proof. unfold of_nums, nums. induction l as [|x l IH]; [done |]. cbn. by rewrite IH. Qed.

Definition address_tree (a : ScAddress) : tree :=
  match a with AddrAccount key => GenNode 0 (nums key) | AddrContract hash => GenNode 1 (nums hash) | AddrOther kind body => GenNode 2 (nums (kind :: body)) end.

Definition address_of_tree (t : tree) : option ScAddress :=
  match t with
  | GenNode 0 l => AddrAccount <$> of_nums l
  | GenNode 1 l => AddrContract <$> of_nums l
  | GenNode 2 l => l ← of_nums l; match l with kind :: body => Some (AddrOther kind body) | [] => None end
  | _ => None
  end.

Lemma address_of_tree_of a : address_of_tree (address_tree a) = Some a.
Proof. destruct a; cbn; by rewrite ?of_nums_of. Qed.

(** ** Values *)

Definition parts_tree (p : Parts256) : list tree := nums [hi_hi p; hi_lo p; lo_hi p; lo_lo p].
Definition parts_of (l : list tree) : option Parts256 :=
  l ← of_nums l; match l with [a; b; c; d] => Some {| hi_hi := a; hi_lo := b; lo_hi := c; lo_lo := d |} | _ => None end.

Fixpoint value_tree (v : ScVal) : tree :=
  match v with
  | ScBool b => GenNode (if b then 0 else 1) []
  | ScVoid => GenNode 2 []
  | ScU32 n => GenNode 3 [num n]
  | ScU64 n => GenNode 4 [num n]
  | ScU256 p => GenNode 5 (parts_tree p)
  | ScI256 p => GenNode 6 (parts_tree p)
  | ScBytes b => GenNode 7 (nums b)
  | ScSymbol s => GenNode 8 [text s]
  | ScVec None => GenNode 9 []
  | ScVec (Some l) => GenNode 10 (List.map value_tree l)
  | ScMap None => GenNode 11 []
  | ScMap (Some l) => GenNode 12 (List.map (fun e => GenNode 0 [value_tree e.1; value_tree e.2]) l)
  | ScAddr a => GenNode 13 [address_tree a]
  | ScOther kind body => GenNode 14 (nums (kind :: body))
  end.

Fixpoint value_of (t : tree) : option ScVal :=
  match t with
  | GenLeaf _ => None
  | GenNode 0 [] => Some (ScBool true)
  | GenNode 1 [] => Some (ScBool false)
  | GenNode 2 [] => Some ScVoid
  | GenNode 3 [t] => ScU32 <$> of_num t
  | GenNode 4 [t] => ScU64 <$> of_num t
  | GenNode 5 l => ScU256 <$> parts_of l
  | GenNode 6 l => ScI256 <$> parts_of l
  | GenNode 7 l => ScBytes <$> of_nums l
  | GenNode 8 [t] => ScSymbol <$> of_text t
  | GenNode 9 [] => Some (ScVec None)
  | GenNode 10 l => (fun l => ScVec (Some l)) <$> mapM value_of l
  | GenNode 11 [] => Some (ScMap None)
  | GenNode 12 l =>
      (fun l => ScMap (Some l)) <$> mapM (fun e => match e with GenNode 0 [k; v] => k ← value_of k; v ← value_of v; Some (k, v) | _ => None end) l
  | GenNode 13 [t] => ScAddr <$> address_of_tree t
  | GenNode 14 l => l ← of_nums l; match l with kind :: body => Some (ScOther kind body) | [] => None end
  | GenNode _ _ => None
  end.

Lemma value_of_tree_of : forall v, value_of (value_tree v) = Some v.
Proof.
  fix IH 1. intros [b| |n|n|p|p|b|t|[l|]|[l|]|a|kind body]; cbn [value_tree value_of]; try reflexivity.
  - by destruct b.
  - destruct p; cbn. reflexivity.
  - destruct p; cbn. reflexivity.
  - by rewrite of_nums_of.
  - assert (mapM value_of (List.map value_tree l) = Some l) as ->; [| reflexivity]. induction l as [|v l IHl]; [reflexivity |]. cbn. rewrite IH. cbn. by rewrite IHl.
  - match goal with |- _ <$> mapM ?f _ = _ => assert (mapM f (List.map (fun e => GenNode 0 [value_tree e.1; value_tree e.2]) l) = Some l) as -> end; [| reflexivity].
    induction l as [|[k v] l IHl]; [reflexivity |]. cbn. rewrite !IH. cbn. by rewrite IHl.
  - by rewrite address_of_tree_of.
  - by rewrite of_nums_of.
Qed.

(** ** Envelopes *)

(** Lists of parts, each with its own encoding. *)
Lemma mapM_encoded {A} (f : A -> tree) (g : tree -> option A) (l : list A) : (forall x, g (f x) = Some x) -> mapM g (f <$> l) = Some l.
Proof. intros Hfg. induction l as [|x l IH]; [done |]. cbn. rewrite Hfg. cbn. by rewrite IH. Qed.

Definition entry_tree (e : SorobanAuthorizationEntry) : tree :=
  match auth_credentials e with
  | SourceAccountCredentials => GenNode 0 (nums (auth_root_invocation e))
  | AddressCreds c => GenNode 1 (address_tree (cred_address c) :: num (cred_nonce c) :: num (cred_expiration c) :: value_tree (cred_signature c) :: nums (auth_root_invocation e))
  end.

Definition entry_of (t : tree) : option SorobanAuthorizationEntry :=
  match t with
  | GenNode 0 l => b ← of_nums l; Some {| auth_credentials := SourceAccountCredentials; auth_root_invocation := b |}
  | GenNode 1 (a :: n :: x :: v :: l) =>
      a ← address_of_tree a; n ← of_num n; x ← of_num x; v ← value_of v; b ← of_nums l;
      Some {| auth_credentials := AddressCreds {| cred_address := a; cred_nonce := n; cred_expiration := x; cred_signature := v |}; auth_root_invocation := b |}
  | _ => None
  end.

Lemma entry_of_tree_of e : entry_of (entry_tree e) = Some e.
Proof.
  destruct e as [[|[a n x v]] b]; unfold entry_tree; cbn [auth_credentials entry_of cred_address cred_nonce cred_expiration cred_signature auth_root_invocation].
  - by rewrite of_nums_of.
  - rewrite address_of_tree_of. cbn. rewrite value_of_tree_of. cbn. by rewrite of_nums_of.
Qed.

Definition option_tree (o : option (list Z)) : tree := match o with None => GenNode 0 [] | Some l => GenNode 1 (nums l) end.
Definition option_of (t : tree) : option (option (list Z)) := match t with GenNode 0 [] => Some None | GenNode 1 l => Some <$> of_nums l | _ => None end.

Definition operation_tree (o : Operation) : tree :=
  match op_body o with
  | InvokeHostFunction h auth =>
      GenNode 0 [option_tree (op_source_account o); address_tree (ic_contract h); text (ic_function h); GenNode 0 (value_tree <$> ic_args h); GenNode 0 (entry_tree <$> auth)]
  | OtherOperation body => GenNode 1 (option_tree (op_source_account o) :: nums body)
  end.

Definition operation_of (t : tree) : option Operation :=
  match t with
  | GenNode 0 [s; c; f; GenNode 0 args; GenNode 0 auth] =>
      s ← option_of s; c ← address_of_tree c; f ← of_text f; args ← mapM value_of args; auth ← mapM entry_of auth;
      Some {| op_source_account := s; op_body := InvokeHostFunction {| ic_contract := c; ic_function := f; ic_args := args |} auth |}
  | GenNode 1 (s :: l) => s ← option_of s; b ← of_nums l; Some {| op_source_account := s; op_body := OtherOperation b |}
  | _ => None
  end.

Lemma option_of_tree_of o : option_of (option_tree o) = Some o.
Proof. destruct o; cbn; by rewrite ?of_nums_of. Qed.

Lemma operation_of_tree_of o : operation_of (operation_tree o) = Some o.
Proof.
  destruct o as [s [[c f args] auth|body]]; unfold operation_tree; cbn [op_body op_source_account operation_of ic_contract ic_function ic_args]; rewrite option_of_tree_of; cbn.
  - rewrite address_of_tree_of. cbn. rewrite (mapM_encoded value_tree value_of _ value_of_tree_of). cbn. by rewrite (mapM_encoded entry_tree entry_of _ entry_of_tree_of).
  - by rewrite of_nums_of.
Qed.

Definition transaction_tree (tx : Transaction) : tree :=
  GenNode 0 [GenNode 0 (nums (tx_source_account tx)); num (tx_fee tx); num (tx_seq_num tx); GenNode 0 (nums (tx_cond_memo tx)); GenNode 0 (operation_tree <$> tx_operations tx);
             match tx_ext tx with ExtV0 => GenNode 0 [] | ExtV1 d => GenNode 1 (num (sd_resource_fee d) :: nums (sd_resources d)) end].

Definition transaction_of (t : tree) : option Transaction :=
  match t with
  | GenNode 0 [GenNode 0 s; f; q; GenNode 0 m; GenNode 0 ops; ext] =>
      s ← of_nums s; f ← of_num f; q ← of_num q; m ← of_nums m; ops ← mapM operation_of ops;
      ext ← match ext with
            | GenNode 0 [] => Some ExtV0
            | GenNode 1 (fee :: l) => fee ← of_num fee; l ← of_nums l; Some (ExtV1 {| sd_resources := l; sd_resource_fee := fee |})
            | _ => None
            end;
      Some {| tx_source_account := s; tx_fee := f; tx_seq_num := q; tx_cond_memo := m; tx_operations := ops; tx_ext := ext |}
  | _ => None
  end.

Lemma transaction_of_tree_of tx : transaction_of (transaction_tree tx) = Some tx.
Proof.
  destruct tx as [s f q m ops [|[l fee]]]; unfold transaction_tree; cbn [transaction_of tx_source_account tx_fee tx_seq_num tx_cond_memo tx_operations tx_ext sd_resource_fee sd_resources];
    rewrite !of_nums_of; cbn; rewrite (mapM_encoded operation_tree operation_of _ operation_of_tree_of); cbn; by rewrite ?of_nums_of.
Qed.

Definition signature_tree (s : DecoratedSignature) : tree := GenNode 0 [GenNode 0 (nums (ds_hint s)); GenNode 0 (nums (ds_signature s))].
Definition signature_of_tree (t : tree) : option DecoratedSignature :=
  match t with GenNode 0 [GenNode 0 h; GenNode 0 s] => h ← of_nums h; s ← of_nums s; Some {| ds_hint := h; ds_signature := s |} | _ => None end.

Definition envelope_tree (e : TransactionEnvelope) : tree :=
  match e with EnvelopeTx tx sigs => GenNode 0 (transaction_tree tx :: (signature_tree <$> sigs)) | OtherEnvelope body => GenNode 1 (nums body) end.
Definition envelope_of (t : tree) : option TransactionEnvelope :=
  match t with
  | GenNode 0 (tx :: sigs) => tx ← transaction_of tx; sigs ← mapM signature_of_tree sigs; Some (EnvelopeTx tx sigs)
  | GenNode 1 l => OtherEnvelope <$> of_nums l
  | _ => None
  end.

Lemma signature_of_tree_of s : signature_of_tree (signature_tree s) = Some s.
Proof. destruct s; cbn. by rewrite !of_nums_of. Qed.

Lemma envelope_of_tree_of e : envelope_of (envelope_tree e) = Some e.
Proof.
  destruct e as [tx sigs|body]; cbn [envelope_tree envelope_of]; [| by rewrite of_nums_of].
  rewrite transaction_of_tree_of. cbn. by rewrite (mapM_encoded signature_tree signature_of_tree _ signature_of_tree_of).
Qed.

(** ** Texts *)

Fixpoint digits (p : positive) : string := match p with xH => "1" | xO p => String.append "o" (digits p) | xI p => String.append "i" (digits p) end.

Fixpoint of_digits (s : string) : option positive :=
  match s with
  | String "1" EmptyString => Some xH
  | String "o" s => xO <$> of_digits s
  | String "i" s => xI <$> of_digits s
  | _ => None
  end.

Lemma of_digits_of p : of_digits (digits p) = Some p.
Proof.
  induction p as [p IH|p IH|]; [| | done].
  - change (of_digits (digits p~1)) with (xI <$> of_digits (digits p)). by rewrite IH.
  - change (of_digits (digits p~0)) with (xO <$> of_digits (digits p)). by rewrite IH.
Qed.

Definition envelope_text (e : TransactionEnvelope) : string := digits (encode (envelope_tree e)).
Definition envelope_of_text (s : string) : option TransactionEnvelope := p ← of_digits s; t ← decode p; envelope_of t.

Lemma envelope_text_read e : envelope_of_text (envelope_text e) = Some e.
Proof. unfold envelope_of_text, envelope_text. rewrite of_digits_of. cbn. rewrite decode_encode. cbn. apply envelope_of_tree_of. Qed.
