(* ===== verification/EnvelopeTheorems.v ===== *)
(** * Envelopes from assembly to signature

    A contract call is built, merged with its simulation and signed: every authorisation
    entry of the wallet is signed over its own preimage, the others are left alone, and the
    signature of the envelope verifies. *)

From Stdlib Require Import Ascii.
From stdpp Require Import strings.
From S2P Require Import Prelude Ints Amounts Hashes ProverMonad Encryption Flows ScVals Queries Rpc Envelope CodecExample.

(** ** The libraries *)

(** Encodings without limits, read back as they are. *)
Class EnvelopeLaws {X : XdrLib} {K : LedgerXdr} (V : EnvelopeXdr) : Prop := {
  envelope_encodes tx sigs : is_Some (envelope_to_xdr (EnvelopeTx tx sigs));
  envelope_roundtrip e text : envelope_to_xdr e = Some text -> envelope_from_xdr text = Some e;
  preimage_encodes p : is_Some (preimage_to_xdr p);
  hash_defined id tx : is_Some (transaction_hash id tx);
}.

(** Ed25519 signatures of 64 bytes, and the text of public keys. *)
Class Ed25519Laws {X : XdrLib} {K : LedgerXdr} (E : Ed25519) : Prop := {
  ed_verifies key m : ed_verify (ed_public key) m (ed_sign key m) = true;
  ed_sign_length key m : length (ed_sign key m) = 64%nat;
  strkey_roundtrip text key : secret_from_strkey text = Some key -> account_from_strkey (account_strkey (ed_public key)) = Some (ed_public key);
}.

Section Facts.

Context {X : XdrLib} {K : LedgerXdr} {V : EnvelopeXdr} {VL : EnvelopeLaws V} {E : Ed25519} {EL : Ed25519Laws E} {C : Crypto}.
Variables (s : LocalSigner) (passphrase : string) (expiration : Z) (public_key : bytes).

Local Abbreviation address := (ls_public_key s).

(** An entry that waits for the wallet's signature. *)
Definition wallet_entry (e : SorobanAuthorizationEntry) : bool :=
  match auth_credentials e with
  | SourceAccountCredentials => false
  | AddressCreds creds =>
      is_void (cred_signature creds) && match scval_to_address_string (ScAddr (cred_address creds)) with Ok text => bool_decide (text = address) | Err _ => false end
  end.

(** An entry without a signature is of an account or of a contract. *)
Definition readable (e : SorobanAuthorizationEntry) : Prop :=
  match auth_credentials e with
  | SourceAccountCredentials => True
  | AddressCreds creds => cred_signature creds = ScVoid -> exists text, scval_to_address_string (ScAddr (cred_address creds)) = Ok text
  end.

Lemma needs_wallet e : readable e -> needs_wallet_auth e address = Ok (wallet_entry e).
Proof.
  unfold needs_wallet_auth, wallet_entry, readable. destruct (auth_credentials e) as [|creds]; [done |]. destruct (cred_signature creds); try done.
  intros Ht. destruct (Ht eq_refl) as [text ->]. done.
Qed.

(** What an entry's signature covers, and the signature. *)
Definition entry_preimage (e : SorobanAuthorizationEntry) (creds : AddressCredentials) : AuthPreimage :=
  {| ap_network_id := network_id passphrase; ap_nonce := cred_nonce creds; ap_expiration := expiration; ap_invocation := auth_root_invocation e |}.

Definition entry_signature (e : SorobanAuthorizationEntry) : bytes :=
  match auth_credentials e with
  | SourceAccountCredentials => []
  | AddressCreds creds => default [] (sign_data s <$> preimage_to_xdr (entry_preimage e creds))
  end.

Definition signed_entry (e : SorobanAuthorizationEntry) : SorobanAuthorizationEntry :=
  match auth_credentials e with
  | AddressCreds creds =>
      if wallet_entry e then
        {| auth_credentials := AddressCreds {| cred_address := cred_address creds; cred_nonce := cred_nonce creds; cred_expiration := expiration;
                                               cred_signature := address_credentials_signature public_key (entry_signature e) |};
           auth_root_invocation := auth_root_invocation e |}
      else e
  | SourceAccountCredentials => e
  end.

(** The wallet's signatures, by the index of their entries. *)
Fixpoint wallet_signatures (index : nat) (es : list SorobanAuthorizationEntry) : list (nat * bytes) :=
  match es with
  | [] => []
  | e :: rest => if wallet_entry e then (index, entry_signature e) :: wallet_signatures (S index) rest else wallet_signatures (S index) rest
  end.

Lemma wallet_entry_creds e : wallet_entry e = true -> exists creds, auth_credentials e = AddressCreds creds /\ is_void (cred_signature creds) = true.
Proof. unfold wallet_entry. destruct (auth_credentials e) as [|creds]; [done |]. intros [H _]%andb_true_iff. by exists creds. Qed.

Lemma steps_signed l : forall index es, decode_auth_entries l = Ok es -> Forall readable es ->
  exists steps, auth_steps_from index l passphrase address expiration = Ok steps /\ sign_steps s steps = Ok (wallet_signatures index es).
Proof using VL.
  induction l as [|b l IH]; intros index es Hd Hre; cbn [decode_auth_entries auth_steps_from] in *; [injection Hd as <-; by exists [] |].
  ok_inv. match goal with H : auth_entry_from_xdr b = Some ?e |- _ => rename e into e0; rewrite H end. apply Forall_cons in Hre as [Hr0 Hre]. cbn [ok_or mbind result_bind]. rewrite needs_wallet by done. cbn [mbind result_bind wallet_signatures].
  match goal with H : decode_auth_entries l = Ok ?x |- _ => destruct (IH (S index) x H Hre) as (steps & Hs & Hg) end. destruct (wallet_entry e0) eqn:Ew; [| by exists steps].
  apply wallet_entry_creds in Ew as (creds & Ec & _). unfold soroban_auth_preimage. rewrite Ec. cbn [mbind result_bind]. rewrite Hs. cbn [mbind result_bind].
  eexists. split; [reflexivity |]. cbn [sign_steps as_preimage as_entry_index]. unfold sign_auth_preimage, entry_signature. rewrite Ec.
  change (Build_AuthPreimage _ _ _ _) with (entry_preimage e0 creds). destruct (preimage_encodes (entry_preimage e0 creds)) as [data ->].
  cbn [ok_or mbind result_bind fmap option_fmap option_map default]. by rewrite Hg.
Qed.

(** ** The signatures by index *)

Definition signature_map (l : list (nat * bytes)) (m : gmap nat bytes) : gmap nat bytes := foldl (fun m x => <[x.1 := x.2]> m) m l.

Lemma signature_map_insert l : forall i x m, Forall (fun y => (i < y.1)%nat) l -> signature_map l (<[i := x]> m) = <[i := x]> (signature_map l m).
Proof.
  induction l as [|[j y] l IH]; intros i x m Hl; [done |]. apply Forall_cons in Hl as [Hj Hl]. cbn [signature_map foldl fst snd] in *. cbn in Hj.
  rewrite insert_insert_ne by lia. by apply IH.
Qed.

Lemma signature_map_fresh l : forall i m, Forall (fun y => (i < y.1)%nat) l -> m !! i = None -> signature_map l m !! i = None.
Proof.
  induction l as [|[j y] l IH]; intros i m Hl Hi; [done |]. apply Forall_cons in Hl as [Hj Hl]. cbn [signature_map foldl fst snd] in *. apply IH; [done |].
  cbn in Hj. by rewrite lookup_insert_ne by lia.
Qed.

Lemma wallet_signatures_above es : forall index i, (i < index)%nat -> Forall (fun y => (i < y.1)%nat) (wallet_signatures index es).
Proof.
  induction es as [|e es IH]; intros index i Hi; cbn [wallet_signatures]; [constructor |].
  destruct (wallet_entry e); [constructor; [done |] |]; apply IH; lia.
Qed.

Lemma entries_signed l : forall index es, decode_auth_entries l = Ok es -> Forall readable es ->
  sign_entries index l address public_key expiration (signature_map (wallet_signatures index es) ∅) = Ok (signed_entry <$> es, ∅, existsb wallet_entry es).
Proof.
  induction l as [|b l IH]; intros index es Hd Hre; cbn [decode_auth_entries sign_entries] in *; [by injection Hd as <- |].
  ok_inv. match goal with H : auth_entry_from_xdr b = Some ?e |- _ => rename e into e0; rewrite H end. apply Forall_cons in Hre as [Hr0 Hre]. cbn [ok_or mbind result_bind]. rewrite needs_wallet by done. cbn [mbind result_bind wallet_signatures].
  match goal with H : decode_auth_entries l = Ok ?x |- _ => rename x into rest; specialize (IH (S index) rest H Hre) end.
  rewrite fmap_cons. cbn [existsb]. destruct (wallet_entry e0) eqn:Ew.
  - pose proof (wallet_signatures_above rest (S index) index ltac:(lia)) as Hab. cbn [signature_map foldl fst snd]. change (foldl _ ?m ?l) with (signature_map l m).
    rewrite signature_map_insert, lookup_insert_eq by done. cbn [ok_or mbind result_bind].
    apply wallet_entry_creds in Ew as Hcr. destruct Hcr as (creds & Ec & Hv). unfold apply_address_auth_signature. rewrite Ec, Hv. cbn [negb mbind result_bind].
    rewrite delete_insert_id by (by apply signature_map_fresh). rewrite IH. cbn [mbind result_bind fst snd orb]. unfold signed_entry at 2. by rewrite Ec, Ew.
  - rewrite IH. cbn [mbind result_bind fst snd orb]. do 4 f_equal. unfold signed_entry. rewrite Ew. by destruct (auth_credentials e0).
Qed.

Lemma none_signed es : existsb wallet_entry es = false -> signed_entry <$> es = es.
Proof.
  induction es as [|e es IH]; [done |]. cbn [existsb]. intros [He Hes]%orb_false_iff. rewrite fmap_cons, IH by done. f_equal.
  unfold signed_entry. rewrite He. by destruct (auth_credentials e).
Qed.

End Facts.

(** ** The whole way *)

(** The transaction of a contract call, with its authorisation. *)
Definition call_tx (source contract : bytes) (function : string) (args : list ScVal) (seq fee : Z) (data : SorobanTransactionData) (auth : list SorobanAuthorizationEntry) : Transaction :=
  {| tx_source_account := source; tx_fee := fee; tx_seq_num := seq; tx_cond_memo := [];
     tx_operations := [{| op_source_account := None; op_body := InvokeHostFunction {| ic_contract := AddrContract contract; ic_function := function; ic_args := args |} auth |}];
     tx_ext := ExtV1 data |}.

Section Whole.

Context {X : XdrLib} {K : LedgerXdr} {V : EnvelopeXdr} {VL : EnvelopeLaws V} {E : Ed25519} {EL : Ed25519Laws E} {C : Crypto}.

Lemma assembled_call user seq contract_id function args raw sim prepared :
  build_invoke_contract_tx_envelope user seq BASE_FEE contract_id function args [] = Ok raw -> from_simulation raw sim = Ok prepared ->
  exists source contract data es resource_fee, account_from_strkey user = Some source /\ contract_from_strkey contract_id = Some contract /\
    min_resource_fee_u64 sim = Ok resource_fee /\ soroban_transaction_data sim = Ok data /\ decode_auth_entries (ps_auth_entries prepared) = Ok es /\
    envelope_to_xdr (EnvelopeTx (call_tx source contract function args seq (BASE_FEE + resource_fee) data es) []) = Some (ps_tx_xdr prepared).
Proof.
  intros Hb Hf. unfold build_invoke_contract_tx_envelope in Hb. ok_inv. case_if_in Hb; [discriminate |]. case_if_in Hb; [discriminate |]. injection Hb as <-.
  unfold from_simulation, assemble_soroban_transaction in Hf. ok_inv. cbn [tx_operations tx_fee tx_ext op_body op_source_account tx_source_account tx_seq_num tx_cond_memo] in *. ok_inv.
  match goal with H : (if bool_decide _ then _ else _) = Ok _ |- _ => case_if_in H; [discriminate |]; case_if_in H; [discriminate |] end. ok_inv.
  match goal with H : try_into_u 32 _ = Some ?f, H' : assembled_fee BASE_FEE ExtV0 ?f = Some _ |- _ => rename f into fee; rename H' into Hfee; rename H into Hr end.
  unfold try_into_u in Hr. case_if_in Hr; [| discriminate]. injection Hr as ->.
  unfold assembled_fee, try_into_u in Hfee. case_if_in Hfee; [| discriminate]. injection Hfee as <-. unfold fits_u in *. bools.
  assert (Z.min (2 ^ 64 - 1) (BASE_FEE + fee) = BASE_FEE + fee) as Em by lia. rewrite Em in *.
  do 5 eexists. split_and!; try eassumption. unfold auth_entries in *. cbn [ps_auth_entries]. ok_inv. congruence.
Qed.

(** The envelope that is signed. *)
Lemma unsigned_run s passphrase prepared source contract function args seq fee data es public_key :
  account_from_strkey (ls_public_key s) = Some public_key -> decode_auth_entries (ps_auth_entries prepared) = Ok es -> Forall readable es ->
  envelope_to_xdr (EnvelopeTx (call_tx source contract function args seq fee data es) []) = Some (ps_tx_xdr prepared) ->
  exists steps sigs text, auth_sign_steps prepared passphrase (ls_public_key s) = Ok steps /\ sign_steps s steps = Ok sigs /\
    unsigned_tx_for_signing prepared (ls_public_key s) sigs = Ok text /\
    envelope_from_xdr text = Some (EnvelopeTx (call_tx source contract function args seq fee data (signed_entry s passphrase (auth_expiration_ledger prepared) public_key <$> es)) []).
Proof using VL.
  intros Hpk Hd Hre Hx. destruct (steps_signed s passphrase (auth_expiration_ledger prepared) _ 0 es Hd Hre) as (steps & Hst & Hsg).
  exists steps, (wallet_signatures s passphrase (auth_expiration_ledger prepared) 0 es). pose proof (entries_signed s passphrase (auth_expiration_ledger prepared) public_key _ 0 es Hd Hre) as Hen.
  unfold unsigned_tx_for_signing. rewrite Hpk. cbn [ok_or mbind result_bind]. fold (signature_map (wallet_signatures s passphrase (auth_expiration_ledger prepared) 0 es) ∅).
  rewrite Hen. cbn [mbind result_bind]. rewrite bool_decide_eq_false_2 by (by intros []). destruct (existsb (wallet_entry s) es) eqn:Ew.
  - rewrite (envelope_roundtrip _ _ Hx). cbn [ok_or mbind result_bind patch_auth_entries tx_operations call_tx patch_operations op_body].
    destruct (envelope_encodes (call_tx source contract function args seq fee data (signed_entry s passphrase (auth_expiration_ledger prepared) public_key <$> es)) []) as [text Ht].
    exists text. split; [exact Hst |]. split; [exact Hsg |]. split; [| by apply envelope_roundtrip]. unfold call_tx in Ht. cbn. by rewrite Ht.
  - exists (ps_tx_xdr prepared). split; [exact Hst |]. split; [exact Hsg |]. split; [done |]. rewrite (none_signed s passphrase (auth_expiration_ledger prepared) public_key es Ew). by apply envelope_roundtrip.
Qed.

End Whole.

(** An entry is signed by the wallet: over the network, its own nonce and invocation and the
    expiration of the transaction, which it carries, under the wallet's key. *)
Definition entry_authorised `{XdrLib} `{EnvelopeXdr} `{Ed25519} `{Crypto} (s : LocalSigner) (passphrase : string) (expiration : Z) (e e' : SorobanAuthorizationEntry) : Prop :=
  if wallet_entry s e then
    exists creds data signature, auth_credentials e = AddressCreds creds /\ preimage_to_xdr (entry_preimage passphrase expiration e creds) = Some data /\
      e' = {| auth_credentials := AddressCreds {| cred_address := cred_address creds; cred_nonce := cred_nonce creds; cred_expiration := expiration;
                cred_signature := address_credentials_signature (ed_public (ls_signing_key s)) signature |}; auth_root_invocation := auth_root_invocation e |} /\
      ed_verify (ed_public (ls_signing_key s)) (sha256 data) signature = true
  else e' = e.

(** ** A signed call *)

(** C19. A contract call from construction to signature: what the client builds for a call,
    merges with the node's simulation and signs with a secret key is always signed, and the
    envelope passes [verify_tx] for the signer's address.  It carries the call unchanged, the
    next sequence number, the base fee with the simulated resource fee and the simulated
    resources; every authorisation entry that waits for the wallet is signed over the
    network, its own nonce, its own invocation and the expiration ledger it then carries, and
    every other entry is as the simulation gave it. *)
Theorem contract_call_signed (X : XdrLib) (K : LedgerXdr) (V : EnvelopeXdr) (VL : EnvelopeLaws V) (E : Ed25519) (EL : Ed25519Laws E) (C : Crypto)
    (secret passphrase contract_id function : string) (s : LocalSigner) (seq : Z) (args : list ScVal) (raw : TransactionEnvelope) (sim : SimulateTransactionResponse)
    (prepared : PreparedSorobanTx) :
  from_secret secret = Ok s -> build_invoke_contract_tx_envelope (ls_public_key s) seq BASE_FEE contract_id function args [] = Ok raw ->
  from_simulation raw sim = Ok prepared -> (forall es, decode_auth_entries (ps_auth_entries prepared) = Ok es -> Forall readable es) ->
  exists source contract data es es' resource_fee sg,
    let tx := call_tx source contract function args seq (BASE_FEE + resource_fee) data es' in
    contract_from_strkey contract_id = Some contract /\ min_resource_fee_u64 sim = Ok resource_fee /\ soroban_transaction_data sim = Ok data /\
    decode_auth_entries (ps_auth_entries prepared) = Ok es /\ Forall2 (entry_authorised s passphrase (auth_expiration_ledger prepared)) es es' /\
    sign_prepared_transaction s prepared passphrase (ls_public_key s) = Ok (EnvelopeTx tx [sg]) /\
    verify_tx (EnvelopeTx tx [sg]) passphrase (ls_public_key s) 0 = Ok tt.
Proof.
  intros Hs Hb Hf Hre. destruct (assembled_call _ _ _ _ _ _ _ _ Hb Hf) as (source & contract & data & es & fee & Hsrc & Hc & Hfee & Hdata & Hd & Hx).
  unfold from_secret in Hs. apply bind_Ok in Hs as (key & Hk%ok_or_Ok & [= <-]). set (s := Build_LocalSigner _ key) in *.
  pose proof (strkey_roundtrip _ _ Hk) as Hpk. change (account_strkey (ed_public key)) with (ls_public_key s) in Hpk.
  destruct (unsigned_run s passphrase prepared _ _ _ _ _ _ _ es _ Hpk Hd (Hre es Hd) Hx) as (steps & sigs & text & Hst & Hsg & Hun & Hfrom).
  set (es' := signed_entry s passphrase (auth_expiration_ledger prepared) (ed_public key) <$> es) in *.
  destruct (hash_defined (network_id passphrase) (call_tx source contract function args seq (BASE_FEE + fee) data es')) as [h Hh].
  exists source, contract, data, es, es', fee, {| ds_hint := drop 28 (ed_public key); ds_signature := ed_sign key h |}. cbn zeta.
  split; [exact Hc |]. split; [exact Hfee |]. split; [exact Hdata |]. split; [exact Hd |]. split; [| split].
  - apply Forall2_fmap_r, Forall_Forall2_diag, Forall_forall. intros e _. unfold compose, entry_authorised, signed_entry. cbn beta. destruct (wallet_entry s e) eqn:Ew; [| by destruct (auth_credentials e)].
    destruct (wallet_entry_creds s e Ew) as (creds & Ec & _). rewrite Ec. destruct (preimage_encodes (entry_preimage passphrase (auth_expiration_ledger prepared) e creds)) as [d Hp].
    exists creds, d, (sign_data s d). split; [done |]. split; [exact Hp |]. split; [| apply ed_verifies]. unfold entry_signature. by rewrite Ec, Hp.
  - unfold sign_prepared_transaction. rewrite bool_decide_eq_true_2 by done. cbn [negb]. rewrite Hst. cbn [mbind result_bind]. rewrite Hsg. cbn [mbind result_bind].
    rewrite Hun. cbn [mbind result_bind]. rewrite Hfrom. cbn [ok_or mbind result_bind sign_transaction]. rewrite Hh. cbn [ok_or mbind result_bind]. by rewrite Hpk.
  - cbn [verify_tx]. cbn [lookup list_lookup ok_or mbind result_bind]. rewrite Hh. cbn [ok_or mbind result_bind]. rewrite Hpk. cbn [ok_or mbind result_bind ds_hint ds_signature].
    rewrite bool_decide_eq_true_2 by done. cbn [negb]. rewrite bool_decide_eq_true_2 by apply ed_sign_length. cbn [negb]. by rewrite ed_verifies.
Qed.

(** ** An example

    One entry waits for the wallet, the other is covered by the transaction's source. *)
Definition demo_creds (signature : ScVal) (expiration : Z) : AddressCredentials :=
  {| cred_address := AddrAccount [7]; cred_nonce := 5; cred_expiration := expiration; cred_signature := signature |}.

Definition demo_entry : SorobanAuthorizationEntry := {| auth_credentials := AddressCreds (demo_creds ScVoid 0); auth_root_invocation := [1; 2] |}.
Definition demo_source_entry : SorobanAuthorizationEntry := {| auth_credentials := SourceAccountCredentials; auth_root_invocation := [3] |}.

#[local] Instance demo_xdr : XdrLib := {|
  from_xdr_base64 _ := None; scval_to_xdr _ := None; symbol_to_utf8 s := Some s; parse_address _ := None; account_strkey _ := "G7"; contract_strkey _ := "C" |}.

#[local] Instance demo_ledger : LedgerXdr := {|
  contract_from_strkey _ := Some [8]; account_from_strkey _ := Some (replicate 32 7); ledger_key_xdr _ := None; account_key_xdr _ := None; entry_from_xdr _ := None |}.

(** A toy signature scheme: the message's first bytes. *)
#[local] Instance demo_ed : Ed25519 := {|
  secret_from_strkey text := if bool_decide (text = "S7") then Some [7] else None;
  ed_public _ := replicate 32 7;
  ed_sign _ m := take 64 (m ++ replicate 64 0);
  ed_verify _ m sg := bool_decide (sg = take 64 (m ++ replicate 64 0)) |}.

#[local] Instance demo_envelope : EnvelopeXdr := {|
  envelope_to_xdr e := Some (envelope_text e);
  envelope_from_xdr := envelope_of_text;
  auth_entry_from_xdr t := if bool_decide (t = "entry") then Some demo_entry else if bool_decide (t = "source") then Some demo_source_entry else None;
  soroban_data_from_xdr _ := Some {| sd_resources := [4]; sd_resource_fee := 30 |};
  preimage_to_xdr p := Some (ap_network_id p ++ [ap_nonce p; ap_expiration p] ++ ap_invocation p);
  transaction_hash id tx := Some (id ++ [tx_fee tx; tx_seq_num tx]) |}.

#[local] Instance demo_envelope_laws : EnvelopeLaws demo_envelope.
Proof.
  split; [by intros tx sigs; eexists | | by intros p; eexists | by intros id tx; eexists].
  intros e t [= <-]. apply envelope_text_read.
Qed.

#[local] Instance demo_ed_laws : Ed25519Laws demo_ed.
Proof.
  split.
  - intros key m. cbn. by apply bool_decide_eq_true.
  - intros key m. cbn [ed_sign demo_ed]. rewrite length_take, length_app, length_replicate. lia.
  - reflexivity.
Qed.

Definition demo_sim : SimulateTransactionResponse := {|
  sim_latest_ledger := 1000; sim_result := Some {| sh_auth := ["entry"; "source"]; sh_retval := None; sh_xdr := None |}; sim_results := [];
  sim_transaction_data := Some "data"; sim_min_resource_fee := None; sim_error := None |}.

Definition demo_signer : LocalSigner := {| ls_public_key := "G7"; ls_signing_key := [7] |}.

(** The prepared call, as its two steps give it. *)
Definition demo_prepared : result FetchError PreparedSorobanTx :=
  raw ← build_invoke_contract_tx_envelope "G7" 42 BASE_FEE "C8" "transact" [ScU32 1] []; from_simulation raw demo_sim.

Lemma contract_call_signed_witness :
  exists prepared tx sg, demo_prepared = Ok prepared /\
    sign_prepared_transaction (H3 := ref_crypto) demo_signer prepared "passphrase" "G7" = Ok (EnvelopeTx tx [sg]) /\ verify_tx (H3 := ref_crypto) (EnvelopeTx tx [sg]) "passphrase" "G7" 0 = Ok tt /\
    tx_seq_num tx = 42.
Proof.
  assert (exists raw prepared, build_invoke_contract_tx_envelope "G7" 42 BASE_FEE "C8" "transact" [ScU32 1] [] = Ok raw /\ from_simulation raw demo_sim = Ok prepared /\
    ps_auth_entries prepared = ["entry"; "source"]) as (raw & prepared & Hb & Hf & Ha)
    by (do 2 eexists; split; [reflexivity | split; [vm_compute; reflexivity | reflexivity]]).
  destruct (contract_call_signed demo_xdr demo_ledger demo_envelope demo_envelope_laws demo_ed demo_ed_laws ref_crypto "S7" "passphrase" "C8" "transact" demo_signer 42
    [ScU32 1] raw demo_sim prepared ltac:(reflexivity) Hb Hf) as (source & contract & data & es & es' & fee & sg & _ & _ & _ & _ & _ & Hs & Hv).
  - intros es Hd. rewrite Ha in Hd. injection Hd as <-. repeat constructor. cbn. intros _. by eexists.
  - exists prepared. do 2 eexists. split; [unfold demo_prepared; rewrite Hb; exact Hf |]. split; [exact Hs |]. split; [exact Hv | reflexivity].
Defined.
