(* ===== verification/StateFetch.v ===== *)
(** * Reading the contracts' state

    [sdk/stellar/src/contract_state.rs], the calls of [tx_prepare.rs] and
    [transact_chain_context_from_state] of [sdk/types/src/chain_data.rs]: snapshots of the
    contracts, proofs of non-membership, the anchors of a transaction and the preparation of
    calls. *)

From Stdlib Require Import Ascii.
From stdpp Require Import strings.
From S2P Require Import Prelude Ints Amounts Hashes ProverMonad Encryption Notes Flows ScVals Storage Queries Rpc Envelope.

(** ** State of the contracts, as the client keeps it *)

Record PoolInfo : Type := {
  pi_ledger : Z;
  pi_contract_id : string;
  pi_contract_type : string;
  pi_admin : string;
  pi_token : string;
  pi_verifier : string;
  pi_aspmembership : string;
  pi_aspnonmembership : string;
  pi_merkle_levels : Z;
  pi_merkle_current_root_index : option Z;
  pi_merkle_next_index : list ascii;
  pi_maximum_deposit_amount : ExtAmount;
  pi_merkle_root : option Field;
  pi_merkle_capacity : Z;
  pi_total_commitments : list ascii;
}.

Record AspMembershipInfo : Type := {
  am_ledger : Z;
  am_contract_id : string;
  am_contract_type : string;
  am_root : Field;
  am_levels : Z;
  am_next_index : list ascii;
  am_admin : string;
  am_admin_insert_only : bool;
  am_capacity : Z;
  am_used_slots : list ascii;
}.

Record AspNonMembershipInfo : Type := {
  an_ledger : Z;
  an_contract_id : string;
  an_contract_type : string;
  an_root : Field;
  an_is_empty : bool;
  an_admin : string;
}.

Record ContractsStateData : Type := {
  cs_pools : list PoolInfo;
  cs_asp_membership : AspMembershipInfo;
  cs_asp_non_membership : AspNonMembershipInfo;
}.

(** The anchors of a transaction on chain. *)
Record TransactChainContext : Type := {
  ctx_pool_root : Field;
  ctx_pool_next_index : Z;
  ctx_pool_merkle_levels : Z;
  ctx_asp_membership_root : Field;
  ctx_asp_membership_contract_id : string;
  ctx_asp_membership_ledger : Z;
  ctx_non_membership_proof : AspNonMembershipProof;
}.

Definition transact_chain_context_from_state (data : ContractsStateData) (pool_contract_id : string) (non_membership_proof : AspNonMembershipProof)
    : result FetchError TransactChainContext :=
  pool ← ok_or (head (cs_pools data)) (PoolDataMissing pool_contract_id);
  pool_root ← ok_or (pi_merkle_root pool) MissingMerkleRoot;
  pool_next_index ← ok_or (parse_u 32 (pi_merkle_next_index pool)) InvalidNextIndex;
  Ok {| ctx_pool_root := pool_root; ctx_pool_next_index := pool_next_index; ctx_pool_merkle_levels := pi_merkle_levels pool;
        ctx_asp_membership_root := am_root (cs_asp_membership data); ctx_asp_membership_contract_id := am_contract_id (cs_asp_membership data);
        ctx_asp_membership_ledger := am_ledger (cs_asp_membership data); ctx_non_membership_proof := non_membership_proof |}.

Definition SMT_DEPTH : Z := 10.

Section Parsing.

Context `{XdrLib}.

Definition u256_to_i128_checked (v : Z) : result FetchError Z :=
  let be := be_bytes 32 v in
  if existsb (fun b => negb (b =? 0)) (take 16 be) then Err NotI128
  else
    let low := be_value (drop 16 be) in
    if 2 ^ 127 - 1 <? low then Err NotI128 else Ok low.

(** The macro [get_state!]. *)
Definition get_state (state : ContractState) (key source : string) : result FetchError ScVal := ok_or (state !! key) (MissingStateKey key source).

Definition state_u32 (state : ContractState) (key source : string) : result FetchError Z := v ← get_state state key source; map_err FetchStellar (scval_to_u32 v).
Definition state_u64 (state : ContractState) (key source : string) : result FetchError Z := v ← get_state state key source; map_err FetchStellar (scval_to_u64 v).
Definition state_u256 (state : ContractState) (key source : string) : result FetchError Z := v ← get_state state key source; map_err FetchStellar (scval_to_u256 v).
Definition state_address (state : ContractState) (key source : string) : result FetchError string :=
  v ← get_state state key source; map_err FetchStellar (scval_to_address_string v).
Definition state_bool (state : ContractState) (key source : string) : result FetchError bool := v ← get_state state key source; map_err FetchStellar (scval_to_bool v).

Definition field_of_u256 (v : Z) : result FetchError Field := map_err FetchField (Field_try_from_u256 v).

(** [2u64.pow(levels)], with overflow checks. *)
Definition capacity_of (levels : Z) : result FetchError Z := if levels <? 64 then Ok (2 ^ levels) else Err CapacityOverflow.

(** [.map(f).transpose()?] on an optional value. *)
Definition transpose {A B} (o : option A) (f : A -> result FetchError B) : result FetchError (option B) :=
  match o with None => Ok None | Some a => b ← f a; Ok (Some b) end.

Definition pool_info (pool : string) (ledger : Z) (pool_state root_state : ContractState) : result FetchError PoolInfo :=
  merkle_current_root_index ← transpose (pool_state !! "CurrentRootIndex") (fun v => map_err FetchStellar (scval_to_u32 v));
  merkle_root ← transpose (root_state !! "Root") (fun v => u ← map_err FetchStellar (scval_to_u256 v); field_of_u256 u);
  merkle_levels ← state_u32 pool_state "Levels" pool;
  merkle_capacity ← capacity_of merkle_levels;
  merkle_next_index ← state_u64 pool_state "NextIndex" pool;
  maximum_deposit_amount_u256 ← state_u256 pool_state "MaximumDepositAmount" pool;
  maximum_deposit_amount ← u256_to_i128_checked maximum_deposit_amount_u256;
  admin ← state_address pool_state "Admin" pool;
  token ← state_address pool_state "Token" pool;
  verifier ← state_address pool_state "Verifier" pool;
  aspmembership ← state_address pool_state "ASPMembership" pool;
  aspnonmembership ← state_address pool_state "ASPNonMembership" pool;
  Ok {| pi_ledger := ledger; pi_contract_id := pool; pi_contract_type := "Privacy Pool"; pi_admin := admin; pi_token := token; pi_verifier := verifier;
        pi_aspmembership := aspmembership; pi_aspnonmembership := aspnonmembership; pi_merkle_levels := merkle_levels;
        pi_merkle_current_root_index := merkle_current_root_index; pi_merkle_next_index := show_u merkle_next_index;
        pi_maximum_deposit_amount := maximum_deposit_amount; pi_merkle_root := merkle_root; pi_merkle_capacity := merkle_capacity;
        pi_total_commitments := show_u merkle_next_index |}.

Definition asp_membership_info (id : string) (ledger : Z) (state : ContractState) : result FetchError AspMembershipInfo :=
  next_index ← state_u64 state "NextIndex" id;
  levels ← state_u32 state "Levels" id;
  capacity ← capacity_of levels;
  root_u256 ← state_u256 state "Root" id;
  root ← field_of_u256 root_u256;
  admin ← state_address state "Admin" id;
  admin_insert_only ← state_bool state "AdminInsertOnly" id;
  Ok {| am_ledger := ledger; am_contract_id := id; am_contract_type := "ASP Membership"; am_root := root; am_levels := levels;
        am_next_index := show_u next_index; am_admin := admin; am_admin_insert_only := admin_insert_only; am_capacity := capacity;
        am_used_slots := show_u next_index |}.

Definition asp_non_membership_info (id : string) (ledger : Z) (state : ContractState) : result FetchError AspNonMembershipInfo :=
  root_u256 ← state_u256 state "Root" id;
  root ← field_of_u256 root_u256;
  admin ← state_address state "Admin" id;
  Ok {| an_ledger := ledger; an_contract_id := id; an_contract_type := "ASP Non-Membership (Sparse Merkle Tree)"; an_root := root;
        an_is_empty := Field_is_zero root; an_admin := admin |}.

(** ** [find_key] *)

Record ParsedFindResult : Type := {
  fr_found : bool;
  fr_siblings : list Field;
  fr_not_found_key : Field;
  fr_not_found_value : Field;
  fr_is_old0 : bool;
}.

Fixpoint parse_siblings (l : list ScVal) : result FetchError (list Field) :=
  match l with
  | [] => Ok []
  | inner :: rest => u ← map_err FetchStellar (scval_to_u256 inner); f ← field_of_u256 u; others ← parse_siblings rest; Ok (f :: others)
  end.

(** The value of the first name present, or the default. *)
Definition find_field (fields : gmap string ScVal) (name alias : string) : option ScVal :=
  match fields !! name with Some v => Some v | None => fields !! alias end.

Definition find_u256 (fields : gmap string ScVal) (name alias : string) : result FetchError Field :=
  match find_field fields name alias with
  | None => Ok Field_ZERO
  | Some v => u ← map_err FetchStellar (scval_to_u256 v); field_of_u256 u
  end.

Definition parse_find_result (val : ScVal) : result FetchError ParsedFindResult :=
  match val with
  | ScMap (Some map) =>
      fields ← map_err FetchStellar (event_values map ∅);
      found ← (v ← ok_or (fields !! "found") BadFindResult; map_err FetchStellar (scval_to_bool v));
      siblings ← match fields !! "siblings" with
                 | None => Ok []
                 | Some (ScVec (Some l)) => parse_siblings l
                 | Some (ScVec None) => Ok []
                 | Some _ => Err BadFindResult
                 end;
      not_found_key ← find_u256 fields "not_found_key" "notFoundKey";
      not_found_value ← find_u256 fields "not_found_value" "notFoundValue";
      is_old0 ← match find_field fields "is_old0" "isOld0" with
                | None => Ok false
                | Some v => map_err FetchStellar (scval_to_bool v)
                end;
      Ok {| fr_found := found; fr_siblings := siblings; fr_not_found_key := not_found_key; fr_not_found_value := not_found_value; fr_is_old0 := is_old0 |}
  | _ => Err BadFindResult
  end.

(** Siblings padded with zeros or cut to the depth of the circuit. *)
Definition fit_siblings (depth : nat) (siblings : list Field) : list Field :=
  if (length siblings <? depth)%nat then siblings ++ replicate (depth - length siblings) Field_ZERO else take depth siblings.

End Parsing.

(** ** Requests *)

Definition POOL_KEYS : list string :=
  ["Admin"; "Token"; "Verifier"; "ASPMembership"; "ASPNonMembership"; "Levels"; "CurrentRootIndex"; "NextIndex"; "MaximumDepositAmount"].
Definition ASP_MEMBERSHIP_KEYS : list string := ["Root"; "Levels"; "NextIndex"; "Admin"; "AdminInsertOnly"].
Definition ASP_NON_MEMBERSHIP_KEYS : list string := ["Root"; "Admin"].

Definition MAX_SNAPSHOT_ATTEMPTS : nat := 3.

Section Fetcher.

Context {Net : Type} `{RpcNode Net} `{XdrLib} `{LedgerXdr} `{EnvelopeXdr}.
Variable config : ContractConfig.

Local Abbreviation FM := (IO Net FetchError).

Definition enabled_pool_for (pool_contract_id : string) : result FetchError PoolConfigEntry :=
  ok_or (find (fun p => pool_enabled p && bool_decide (Queries.pool_contract_id p = pool_contract_id)) (cfg_pools config)) (PoolNotEnabled pool_contract_id).

Definition bulk (requests : list ContractDataBulkRequest) : FM (BulkState * Z) := io_map_err FetchRpc (get_contract_data_bulk requests).

Definition state_requests (pools : list string) : list ContractDataBulkRequest :=
  ((fun p => {| br_contract_id := p; br_enum_keys := POOL_KEYS; br_valued_keys := [] |}) <$> pools) ++
  [{| br_contract_id := cfg_asp_membership config; br_enum_keys := ASP_MEMBERSHIP_KEYS; br_valued_keys := [] |};
   {| br_contract_id := cfg_asp_non_membership config; br_enum_keys := ASP_NON_MEMBERSHIP_KEYS; br_valued_keys := [] |}].

(** The root index of each pool in the first reading. *)
Fixpoint root_indices (bulk_state : BulkState) (pools : list string) : result FetchError (list (string * Z)) :=
  match pools with
  | [] => Ok []
  | pool :: rest =>
      pool_state ← ok_or (bulk_state !! pool) (MissingContractState pool);
      index ← state_u32 pool_state "CurrentRootIndex" pool;
      others ← root_indices bulk_state rest;
      Ok ((pool, index) :: others)
  end.

Definition root_requests (indices : list (string * Z)) : list ContractDataBulkRequest :=
  (fun pi => {| br_contract_id := pi.1; br_enum_keys := ["CurrentRootIndex"]; br_valued_keys := [("Root", pi.2)] |}) <$> indices.

(** Whether a pool's root index has changed between the readings; [expected] is the map from
    pools to indices, so the last index of a pool counts. *)
Fixpoint drifted (root_state : BulkState) (expected : gmap string Z) (pools : list string) : result FetchError bool :=
  match pools with
  | [] => Ok false
  | pool :: rest =>
      index ← ok_or (expected !! pool) (MissingContractState pool);
      check_state ← ok_or (root_state !! pool) (MissingContractState pool);
      observed ← state_u32 check_state "CurrentRootIndex" pool;
      others ← drifted root_state expected rest;
      Ok (negb (observed =? index) || others)
  end.

Fixpoint pool_infos (bulk_state root_state : BulkState) (ledger : Z) (pools : list string) : result FetchError (list PoolInfo) :=
  match pools with
  | [] => Ok []
  | pool :: rest =>
      pool_state ← ok_or (bulk_state !! pool) (MissingContractState pool);
      info ← pool_info pool ledger pool_state (default ∅ (root_state !! pool));
      others ← pool_infos bulk_state root_state ledger rest;
      Ok (info :: others)
  end.

Definition snapshot_data (bulk_state root_state : BulkState) (ledger : Z) (pools : list string) : result FetchError ContractsStateData :=
  out ← pool_infos bulk_state root_state ledger pools;
  m_state ← ok_or (bulk_state !! cfg_asp_membership config) (MissingContractState (cfg_asp_membership config));
  m ← asp_membership_info (cfg_asp_membership config) ledger m_state;
  n_state ← ok_or (bulk_state !! cfg_asp_non_membership config) (MissingContractState (cfg_asp_non_membership config));
  n ← asp_non_membership_info (cfg_asp_non_membership config) ledger n_state;
  Ok {| cs_pools := out; cs_asp_membership := m; cs_asp_non_membership := n |}.

(** One attempt; [None] when a root has moved between the two readings. *)
Definition snapshot_attempt (pools : list string) : FM (option ContractsStateData) :=
  '(bulk_state, base_latest_ledger) ← bulk (state_requests pools);
  indices ← io_result (root_indices bulk_state pools);
  '(root_state, _) ← bulk (root_requests indices);
  drift ← io_result (drifted root_state (foldl (fun m p => <[p.1 := p.2]> m) ∅ indices) pools);
  if drift : bool then mret None
  else data ← io_result (snapshot_data bulk_state root_state base_latest_ledger pools); mret (Some data).

Fixpoint snapshot_loop (attempts : nat) (pools : list string) : FM ContractsStateData :=
  match attempts with
  | O => io_throw InconsistentSnapshot
  | S attempts =>
      data ← snapshot_attempt pools;
      match data with Some data => mret data | None => snapshot_loop attempts pools end
  end.

Definition contracts_data (pools : list string) : FM ContractsStateData := snapshot_loop MAX_SNAPSHOT_ATTEMPTS pools.

Definition all_contracts_data : FM ContractsStateData := contracts_data (Queries.pool_contract_id <$> enabled_pools config).

Definition contracts_data_for_pool (pool : string) : FM ContractsStateData :=
  p ← io_result (enabled_pool_for pool); contracts_data [Queries.pool_contract_id p].

Definition asp_state : FM ContractsStateData := contracts_data [].

(** ** Read-only calls *)

Definition simulate (tx : TransactionEnvelope) : FM SimulateTransactionResponse :=
  transaction ← io_result (ok_or (envelope_to_xdr tx) (FetchRpc RpcXdr));
  io_map_err FetchRpc (rpc_simulate_transaction transaction).

Definition simulate_single_retval (tx : TransactionEnvelope) : FM ScVal :=
  sim ← simulate tx;
  op_result ← io_result (first_result sim);
  retval_b64 ← io_result (ok_or (match sh_retval op_result with Some r => Some r | None => sh_xdr op_result end) MissingRetval);
  io_result (ok_or (from_xdr_base64 retval_b64) FetchXdr).

Definition build_find_key_simulation_tx (contract_id source_account : string) (key : Field) : result FetchError TransactionEnvelope :=
  build_invoke_contract_tx_envelope source_account 0 BASE_FEE contract_id "find_key" [field_to_scval_u256 key] [].

Definition build_is_known_root_simulation_tx (contract_id source_account : string) (root : Field) : result FetchError TransactionEnvelope :=
  build_invoke_contract_tx_envelope source_account 0 BASE_FEE contract_id "is_known_root" [field_to_scval_u256 root] [].

Definition get_nonmembership_proof (note_pubkey : NotePublicKey) (non_membership_root : Field) (smt_depth : nat) (source_account : string)
    : FM AspNonMembershipProof :=
  if (smt_depth =? 0)%nat then io_throw SmtDepthZero
  else
    key ← io_result (map_err FetchField (Field_try_from_le_bytes note_pubkey));
    if Field_is_zero non_membership_root then
      mret {| nmp_key := key; nmp_old_key := Field_ZERO; nmp_old_value := Field_ZERO; nmp_is_old0 := true;
              nmp_siblings := replicate smt_depth Field_ZERO; nmp_root := Field_ZERO |}
    else
      tx ← io_result (build_find_key_simulation_tx (cfg_asp_non_membership config) source_account key);
      retval ← simulate_single_retval tx;
      parsed ← io_result (parse_find_result retval);
      if fr_found parsed then io_throw Sanctioned
      else mret {| nmp_key := key; nmp_old_key := fr_not_found_key parsed; nmp_old_value := fr_not_found_value parsed; nmp_is_old0 := fr_is_old0 parsed;
                   nmp_siblings := fit_siblings smt_depth (fr_siblings parsed); nmp_root := non_membership_root |}.

Definition transact_chain_context (pool_contract_id : string) (note_pubkey : NotePublicKey) (user_address : string) : FM TransactChainContext :=
  data ← contracts_data_for_pool pool_contract_id;
  non_membership_proof ← get_nonmembership_proof note_pubkey (an_root (cs_asp_non_membership data)) (Z.to_nat SMT_DEPTH) user_address;
  io_result (transact_chain_context_from_state data pool_contract_id non_membership_proof).

Definition is_pool_known_root (pool_contract_id : string) (root : Field) : FM bool :=
  pool ← io_result (enabled_pool_for pool_contract_id);
  tx ← io_result (build_is_known_root_simulation_tx (Queries.pool_contract_id pool) (cfg_deployer config) root);
  retval ← simulate_single_retval tx;
  io_result (map_err FetchStellar (scval_to_bool retval)).

(** ** Calls to be signed *)

Definition account_sequence (source_account : string) : FM Z :=
  seq_num ← io_map_err FetchRpc (get_account source_account);
  io_result (ok_or (next_sequence seq_num) SequenceOverflow).

Definition prepare_pool_transact (pool_contract_id : string) (input : PoolTransactInput) (source_account : string) : FM PreparedSorobanTx :=
  _ ← io_result (enabled_pool_for pool_contract_id);
  args ← io_result (map_err FetchStellar (transact_args input source_account));
  seq ← account_sequence source_account;
  raw ← io_result (build_invoke_contract_tx_envelope source_account seq BASE_FEE pool_contract_id "transact" args []);
  sim ← simulate raw;
  io_result (from_simulation raw sim).

Definition prepare_register (source_account : string) (note_key encryption_key : bytes) : FM PreparedSorobanTx :=
  args ← io_result (map_err FetchStellar (register_args source_account note_key encryption_key));
  seq ← account_sequence source_account;
  raw ← io_result (build_invoke_contract_tx_envelope source_account seq BASE_FEE (cfg_public_key_registry config) "register" args []);
  sim ← simulate raw;
  io_result (from_simulation raw sim).

End Fetcher.
