(* ===== verification/Indexer.v ===== *)
(** * The indexer

    [sdk/stellar/src/indexer.rs]: pages of contract events fetched from the RPC node into a
    storage, until the tip is reached.  The storage is the class [ContractDataStorage], the
    trait of the same name; the client's database is its instance.  Then what the indexer asks of
    a node ([PagedNode]) and of a storage ([EventStore]), and the run of [catch_up] over them: it
    ends and the whole log of the contracts is stored; and that the SQLite storage keeps the
    interface. *)

From stdpp Require Import strings sorting.
From S2P Require Import Prelude Ints Amounts Poseidon2Tables Hashes ScVals Events Storage Queries StorageFacts SyncFacts WalletFacts SyncTheorems Rpc.

Definition PAGE_SIZE : nat := 300.
Definition MAX_PAGES_PER_ROUND : nat := 10.

Record ContractsEventData : Type := {
  cd_events : list ContractEvent;
  cd_cursor : string;
  cd_latest_ledger : Z;
}.

(** The trait; its methods are asynchronous and may fail. *)
Class ContractDataStorage (St : Type) : Type := {
  cds_get_sync_state : St -> result StorageError (list SyncMetadata);
  cds_save_events_batch : ContractsEventData -> St -> result StorageError unit * St;
  cds_save_sync_progress : list SyncMetadata -> bool -> St -> result StorageError unit * St;
}.

(** [LocalStorage]: the batch's cursor and ledger are not stored with it. *)
#[export] Instance local_storage : ContractDataStorage Db := {|
  cds_get_sync_state := get_sync_metadata;
  cds_save_events_batch batch := save_events_batch (cd_events batch);
  cds_save_sync_progress := save_sync_progress;
|}.

Definition contract_event_of (e : RpcEvent) : ContractEvent :=
  {| ce_id := ev_id e; ce_ledger := ev_ledger e; ce_contract_id := ev_contract_id e; ce_topics := ev_topic e; ce_value := ev_value e |}.

Inductive IndexerError : Type :=
| NoEnabledPool
| IndexerStorage (e : StorageError)
| IndexerRpc (e : RpcError)
| MissingCursor.

Record Indexer : Type := { ix_contract_ids : list string; ix_min_pool_ledger : Z }.

Section Indexing.

Context {Net St : Type} `{RpcNode Net} `{ContractDataStorage St}.

Local Abbreviation IX := (IO (Net * St) IndexerError).

Definition on_rpc {A} (m : IO Net RpcError A) : IO (Net * St) RpcError A := fun w => let '(r, net) := m w.1 in (r, (net, w.2)).
Definition on_storage {A} (m : St -> result StorageError A * St) : IX A := fun w => let '(r, s) := m w.2 in (map_err IndexerStorage r, (w.1, s)).

(** [Iterator::min]. *)
Definition minimum (l : list Z) : option Z := match l with [] => None | x :: rest => Some (foldl Z.min x rest) end.
Definition maximum (l : list Z) : option Z := match l with [] => None | x :: rest => Some (foldl Z.max x rest) end.

Definition active_sync (contract_ids : list string) (existing : list SyncMetadata) : list SyncMetadata :=
  filter (fun m => sm_contract_id m ∈ contract_ids) existing.

(** The probe: only a node that is ahead of the ledger asked for is no error. *)
Definition probe (contract_ids : list string) (ledger : Z) : IX unit := fun w =>
  match on_rpc (get_contract_events contract_ids ledger 1 None) w with
  | (Ok _, w') | (Err (RpcAhead _), w') => (Ok tt, w')
  | (Err e, w') => (Err (IndexerRpc e), w')
  end.

Definition Indexer_init (config : ContractConfig) : IX Indexer :=
  min_pool_ledger ← io_result (ok_or (min_deployment_ledger config) NoEnabledPool);
  let contract_ids := all_contract_ids config in
  existing_sync ← on_storage (fun s => (cds_get_sync_state s, s));
  let ledgers := filter (fun l => 0 < l) (sm_last_indexed_ledger <$> active_sync contract_ids existing_sync) in
  let probe_ledger := default min_pool_ledger (minimum ledgers) in
  probe contract_ids probe_ledger;;
  mret {| ix_contract_ids := contract_ids; ix_min_pool_ledger := min_pool_ledger |}.

(** The cursor the active contracts agree on; if they do not, the round starts from the ledger. *)
Definition resume_cursor (active : list SyncMetadata) : option string :=
  let cursors := filter (fun c => c <> EmptyString) (sm_cursor <$> active) in
  if (length (remove_dups cursors) <=? 1)%nat then
    m ← head active; if bool_decide (sm_cursor m = EmptyString) then None else Some (sm_cursor m)
  else None.

Definition progress_of (ix : Indexer) (cursor : string) (ledger : Z) : list SyncMetadata :=
  (fun id => {| sm_contract_id := id; sm_cursor := cursor; sm_last_indexed_ledger := ledger; sm_last_fully_indexed_ledger := 0 |}) <$> ix_contract_ids ix.

(** The loop over the pages of a round; [true] if another round may be needed. *)
Fixpoint fetch_pages (ix : Indexer) (pages : nat) (start_ledger : Z) (cursor : option string) (may_have_more : bool) : IX bool :=
  match pages with
  | O => mret may_have_more
  | S pages => fun w =>
      match on_rpc (get_contract_events (ix_contract_ids ix) start_ledger PAGE_SIZE cursor) w with
      | (Err (RpcAhead _), w') => (Ok false, w')
      | (Err e, w') => (Err (IndexerRpc e), w')
      | (Ok (new_cursor, events, latest_ledger), w') =>
          (new_cursor ← io_result (ok_or new_cursor MissingCursor);
           let is_empty := bool_decide (length events = 0%nat) in
           let progress_ledger := if is_empty then latest_ledger else default latest_ledger (maximum (ev_ledger <$> events)) in
           on_storage (cds_save_events_batch {| cd_events := contract_event_of <$> events; cd_cursor := new_cursor; cd_latest_ledger := latest_ledger |});;
           on_storage (cds_save_sync_progress (progress_of ix new_cursor progress_ledger) is_empty);;
           if is_empty then mret may_have_more else fetch_pages ix pages start_ledger (Some new_cursor) true) w'
      end
  end.

Definition fetch_contract_events_round (ix : Indexer) : IX bool :=
  network_tip ← io_map_err IndexerRpc (on_rpc get_latest_ledger);
  existing_sync ← on_storage (fun s => (cds_get_sync_state s, s));
  let active := active_sync (ix_contract_ids ix) existing_sync in
  let start_ledger := Z.min (default (ix_min_pool_ledger ix) (minimum (sm_last_indexed_ledger <$> active))) network_tip in
  fetch_pages ix MAX_PAGES_PER_ROUND start_ledger (resume_cursor active) false.

Definition fetch_contract_events (ix : Indexer) : IX unit := _ ← fetch_contract_events_round ix; mret tt.

(** [while self.fetch_contract_events_round().await? {}]; [None] without fuel. *)
Fixpoint catch_up (fuel : nat) (ix : Indexer) (w : Net * St) : option (result IndexerError unit * (Net * St)) :=
  match fuel with
  | O => None
  | S fuel =>
      match fetch_contract_events_round ix w with
      | (Err e, w') => Some (Err e, w')
      | (Ok true, w') => catch_up fuel ix w'
      | (Ok false, w') => Some (Ok tt, w')
      end
  end.

End Indexing.

(** ** What the indexer asks of a storage *)

(** What is kept of an event: ledger, contract, topics and value. *)
Definition fields_of (e : ContractEvent) : Z * string * string * string := (ce_ledger e, ce_contract_id e, String.concat "," (ce_topics e), ce_value e).

Class EventStore {St : Type} (C : ContractDataStorage St) : Type := {
  store_ok : St -> Prop;
  stored : St -> string -> option (Z * string * string * string);
  sync_state : St -> list SyncMetadata;
}.

(** The progress of every active contract. *)
Definition all_at (cursor : string) (ledger : Z) (fully : bool) (active : list SyncMetadata) : Prop :=
  Forall (fun m => sm_cursor m = cursor /\ sm_last_indexed_ledger m = ledger /\ (fully = true -> sm_last_fully_indexed_ledger m = ledger)) active.

Class EventStoreLaws {St : Type} (C : ContractDataStorage St) (ES : EventStore C) : Prop := {
  es_sync s : store_ok s -> cds_get_sync_state s = Ok (sync_state s);
  (** a batch is stored, except what is there already *)
  es_batch s b : store_ok s -> exists s', cds_save_events_batch b s = (Ok tt, s') /\ store_ok s' /\ sync_state s' = sync_state s /\
    forall id, stored s' id = match stored s id with Some f => Some f | None => fields_of <$> find (fun e => bool_decide (ce_id e = id)) (cd_events b) end;
  (** the progress of the contracts given is replaced *)
  es_progress s ix cursor ledger fully : store_ok s -> fits_u 32 ledger = true -> exists s', cds_save_sync_progress (progress_of ix cursor ledger) fully s = (Ok tt, s') /\ store_ok s' /\
    (forall id, stored s' id = stored s id) /\
    (ix_contract_ids ix <> [] -> active_sync (ix_contract_ids ix) (sync_state s') <> []) /\ all_at cursor ledger fully (active_sync (ix_contract_ids ix) (sync_state s'));
}.

(** ** The node *)

(** The request for a page of the contracts' events. *)
Definition page_request (ids : list string) (start : EventStart) (limit : nat) : GetEventsParams :=
  {| gp_type := Some "contract"; gp_topics := [["**"]]; gp_contract_ids := ids; gp_limit := Some limit;
     gp_cursor := match start with StartCursor c => Some c | _ => None end;
     gp_start_ledger := match start with StartLedger l => Some l | StartRange l _ => Some l | StartCursor _ => None end;
     gp_end_ledger := match start with StartRange _ l => Some l | _ => None end |}.

(** A node that serves a log in pages: from a ledger that holds no event before it, or from
    a cursor that stands at a position; its answer's cursor stands after the page.  The
    log's events are of distinct names and lie between the first ledger and the tip. *)
Class PagedNode {Net : Type} (node : RpcNode Net) (ids : list string) (log : list RpcEvent) (first tip : Z) (stands_at : string -> nat -> Prop) : Prop := {
  pn_tip net : rpc_get_latest_ledger net = (Ok tip, net);
  pn_page net start k limit : (start = StartLedger first /\ k = 0%nat \/ (exists c, start = StartCursor c /\ stands_at c k)) ->
    exists oldest c, rpc_get_events (page_request ids start limit) net =
      (Ok {| er_events := take limit (drop k log); er_latest_ledger := tip; er_oldest_ledger := oldest; er_cursor := c |}, net) /\
      stands_at c (k + length (take limit (drop k log)))%nat /\ c <> EmptyString;
  pn_names : NoDup (ev_id <$> log);
  pn_ledgers : Forall (fun e => fits_u 32 (ev_ledger e) = true) log;
  pn_range : fits_u 32 tip = true /\ first <= tip;
}.

Section Run.

Context {Net St : Type} {node : RpcNode Net} {C : ContractDataStorage St} {ES : EventStore C} {EL : EventStoreLaws C ES}.
Variables (ix : Indexer) (log : list RpcEvent) (tip : Z) (stands_at : string -> nat -> Prop).
(** The storage at the beginning. *)
Variable origin : St.
Context {PN : PagedNode node (ix_contract_ids ix) log (ix_min_pool_ledger ix) tip stands_at}.

Local Abbreviation ids := (ix_contract_ids ix).
Local Abbreviation active s := (active_sync ids (sync_state s)).

(** Nothing indexed yet, or all the contracts at one cursor. *)
Definition at_position (s : St) (k : nat) : Prop :=
  (active s = [] /\ k = 0%nat) \/ (active s <> [] /\ exists c, stands_at c k /\ c <> EmptyString /\ Forall (fun m => sm_cursor m = c) (active s)).

(** The first [k] events of the log are stored, as they are. *)
Definition holds_prefix (s : St) (k : nat) : Prop := forall e, e ∈ take k log -> stored s (ev_id e) = Some (fields_of (contract_event_of e)).

(** A storage that is free of other events of the log's names. *)
Definition no_clash (s : St) : Prop := forall e f, e ∈ log -> stored s (ev_id e) = Some f -> f = fields_of (contract_event_of e).

Record synced_to (s : St) (k : nat) : Prop := {
  sy_ok : store_ok s;
  sy_position : at_position s k;
  sy_prefix : holds_prefix s k;
  sy_clash : no_clash s;
  sy_bound : (k <= length log)%nat;
  sy_kept : forall id f, stored origin id = Some f -> stored s id = Some f;
}.

Lemma resume_at c l : l <> [] -> c <> EmptyString -> Forall (fun m => sm_cursor m = c) l -> resume_cursor l = Some c.
Proof.
  intros Hne Hc Hl. unfold resume_cursor. assert (filter (fun c => c <> EmptyString) (sm_cursor <$> l) = replicate (length l) c) as ->.
  { clear Hne. induction Hl as [|m l Hm Hl IH]; [done |]. rewrite fmap_cons, filter_cons, Hm, decide_True by done. cbn. by rewrite IH. }
  assert (length (remove_dups (replicate (length l) c)) <= 1)%nat as Hlen.
  { clear. induction (length l) as [|n IH]; [cbn; lia |]. cbn [replicate remove_dups]. case_decide as E; [done |].
    destruct n; [cbn; lia |]. destruct E. by left. }
  rewrite (proj2 (Nat.leb_le _ 1)) by exact Hlen. destruct Hl as [|m l Hm Hl]; [done |]. cbn [head mbind option_bind]. rewrite Hm. by rewrite bool_decide_eq_false_2.
Qed.

(** One page of events. *)
Lemma page_served start limit cursor k net : (cursor = None /\ start = ix_min_pool_ledger ix /\ k = 0%nat \/ exists c, cursor = Some c /\ stands_at c k) ->
  exists c, get_contract_events ids start limit cursor net = (Ok (Some c, take limit (drop k log), tip), net) /\
    stands_at c (k + length (take limit (drop k log)))%nat /\ c <> EmptyString.
Proof using PN.
  intros Hc. unfold get_contract_events, get_events.
  destruct (pn_page net (match cursor with Some c => StartCursor c | None => StartLedger start end) k limit) as (oldest & c & Hr & Hs & Hne).
  { destruct Hc as [(-> & -> & ->) | (c & -> & Hc)]; [by left | right; by exists c]. }
  exists c. split; [| by split]. unfold mbind, io_bind, io_map_err. unfold page_request in Hr. by rewrite Hr.
Qed.

Lemma maximum_in (l : list Z) (a : Z) : l <> [] -> Forall (fun x => fits_u 32 x = true) l -> fits_u 32 (default a (maximum l)) = true.
Proof.
  intros Hne Hl. destruct l as [|x l]; [done |]. cbn [maximum default]. apply Forall_cons in Hl as [Hx Hl]. clear Hne. revert x Hx.
  induction Hl as [|y l Hy Hl IH]; intros x Hx; [done |]. cbn [foldl]. apply IH. by destruct (Z.max_spec x y) as [[_ ->] | [_ ->]].
Qed.

Lemma page_of_log page k : page = take PAGE_SIZE (drop k log) -> forall x, x ∈ page -> x ∈ log.
Proof. intros -> x Hx. apply elem_of_take in Hx as (i & Hi & _). rewrite lookup_drop in Hi. by apply list_elem_of_lookup_2 in Hi. Qed.

#[local] Instance rpc_event_eq : EqDecision RpcEvent.
Proof. solve_decision. Defined.

(** A name of the log is looked up in a page. *)
Lemma find_in_page page k e : page = take PAGE_SIZE (drop k log) -> e ∈ log ->
  find (fun x => bool_decide (ce_id x = ev_id e)) (contract_event_of <$> page) = if bool_decide (e ∈ page) then Some (contract_event_of e) else None.
Proof using PN.
  intros Hpage He. assert (forall x, x ∈ page -> x ∈ log) as Hsub by exact (page_of_log page k Hpage). case_bool_decide as Hin.
  - apply (find_by_key ce_id _ (contract_event_of e)); [| by apply list_elem_of_fmap_2]. rewrite <- list_fmap_compose.
    apply (sublist_NoDup (ev_id <$> page) (ev_id <$> log)); [apply pn_names |]. apply fmap_sublist. rewrite Hpage. etrans; [apply sublist_take | apply sublist_drop].
  - destruct (find _ _) as [x|] eqn:Ef; [| done]. apply find_some in Ef as [Hx%list_elem_of_In Hid]. apply bool_decide_eq_true in Hid.
    apply list_elem_of_fmap in Hx as (e' & -> & He'). destruct Hin. assert (e' = e) as <-; [| done]. cbn in Hid.
    apply list_elem_of_lookup in He as (i & Hi). apply Hsub, list_elem_of_lookup in He' as (i' & Hi').
    assert (i = i') as ->; [| congruence]. apply (NoDup_lookup _ _ _ (ev_id e) pn_names); rewrite list_lookup_fmap; [by rewrite Hi | rewrite Hi'; cbn; by rewrite Hid].
Qed.

(** All contracts fully indexed up to the tip. *)
Definition caught_up (s : St) : Prop := active s <> [] /\ exists c, all_at c tip true (active s).

Hypothesis some_contract : ids <> [].

Lemma page_saved s k net c page : synced_to s k -> page = take PAGE_SIZE (drop k log) -> stands_at c (k + length page)%nat -> c <> EmptyString ->
  let is_empty := bool_decide (length page = 0%nat) in
  let ledger := if is_empty then tip else default tip (maximum (ev_ledger <$> page)) in
  exists s1 s2, on_storage (Net := Net) (cds_save_events_batch {| cd_events := contract_event_of <$> page; cd_cursor := c; cd_latest_ledger := tip |}) (net, s) = (Ok tt, (net, s1)) /\
    on_storage (Net := Net) (cds_save_sync_progress (progress_of ix c ledger) is_empty) (net, s1) = (Ok tt, (net, s2)) /\
    synced_to s2 (k + length page) /\ (is_empty = true -> caught_up s2).
Proof using EL PN some_contract.
  intros [S1 S2 S3 S4 S5 S6] Hpage Hat Hne is_empty ledger.
  pose proof (page_of_log page k Hpage) as Hsub.
  destruct (es_batch s {| cd_events := contract_event_of <$> page; cd_cursor := c; cd_latest_ledger := tip |} S1) as (s1 & B1 & B2 & B3 & B4).
  assert (fits_u 32 ledger = true) as Hfit.
  { unfold ledger, is_empty. case_bool_decide as El; [apply pn_range |]. apply maximum_in; [intros E; apply El; by rewrite <- (length_fmap ev_ledger), E |]. apply Forall_fmap, Forall_forall. intros e He.
    pose proof pn_ledgers as Hl. rewrite Forall_forall in Hl. apply Hl, Hsub, He. }
  destruct (es_progress s1 ix c ledger is_empty B2 Hfit) as (s2 & P1 & P2 & P3 & P4 & P5). exists s1, s2.
  unfold on_storage. cbn [fst snd]. rewrite B1, P1. split; [done |]. split; [done |].
  pose proof (fun e => find_in_page page k e Hpage) as Hfind.
  split; [split | intros E; split; [by apply P4 |]; exists c; unfold ledger in P5; rewrite E in P5; exact P5].
  - exact P2.
  - right. split; [by apply P4 |]. exists c. split_and!; [done | done |]. eapply Forall_impl; [exact P5 |]. cbn. tauto.
  - intros e He. rewrite P3, B4. assert (e ∈ log) as Hlog by (apply elem_of_take in He as (i & Hi & _); by apply list_elem_of_lookup_2 in Hi).
    rewrite <- (take_drop k (take _ log)), elem_of_app, take_take, Nat.min_l in He by lia. destruct He as [He | He]; [by rewrite (S3 e He) |].
    rewrite <- take_drop_commute in He. cbn [cd_events]. rewrite (Hfind e Hlog), bool_decide_eq_true_2.
    + destruct (stored s (ev_id e)) as [f|] eqn:Ef; [| done]. by rewrite (S4 e f Hlog Ef).
    + rewrite Hpage in He |- *. rewrite length_take in He. apply elem_of_take in He as (i & Hi & Hl). apply elem_of_take. exists i. split; [done | lia].
  - intros e f Hlog Hf. rewrite P3, B4 in Hf. destruct (stored s (ev_id e)) as [f'|] eqn:Ef; [injection Hf as <-; by apply (S4 e) |].
    cbn [cd_events] in Hf. rewrite (Hfind e Hlog) in Hf. case_bool_decide; [by injection Hf as <- | done].
  - rewrite Hpage, length_take, length_drop. lia.
  - intros id f Hf. by rewrite P3, B4, (S6 id f Hf).
Qed.

(** Where a request starts. *)
Definition starts_at (start : Z) (cursor : option string) (k : nat) : Prop :=
  cursor = None /\ start = ix_min_pool_ledger ix /\ k = 0%nat \/ exists c, cursor = Some c /\ stands_at c k.

(** A round makes progress until the log is exhausted. *)
Lemma pages_run pages : forall s k net start cursor more, synced_to s k -> starts_at start cursor k ->
  exists b s' k', fetch_pages ix pages start cursor more (net, s) = (Ok b, (net, s')) /\ synced_to s' k' /\ (k <= k')%nat /\
    (b = true -> more = true \/ (k < k')%nat) /\ (more = true -> b = true) /\
    (b = false -> pages = 0%nat \/ k' = length log /\ caught_up s').
Proof using EL PN some_contract.
  induction pages as [|pages IH]; intros s k net start cursor more Hs Hc; cbn [fetch_pages].
  - exists more, s, k. split_and!; auto.
  - destruct (page_served start PAGE_SIZE cursor k net Hc) as (c & Hp & Hat & Hne). unfold on_rpc. cbn [fst snd]. rewrite Hp. set (page := take PAGE_SIZE (drop k log)) in *.
    destruct (page_saved s k net c page Hs eq_refl Hat Hne) as (s1 & s2 & Hb & Hg & Hs2 & Hup).
    rewrite (io_bind_run _ _ _ c (net, s)) by done. rewrite (io_bind_run _ _ _ _ _ Hb). rewrite (io_bind_run _ _ _ _ _ Hg).
    destruct (bool_decide (length page = 0%nat)) eqn:Ee.
    + apply bool_decide_eq_true in Ee. exists more, s2, k. rewrite Ee, Nat.add_0_r in Hs2. split_and!; auto. intros _. right. split; [| by apply Hup].
      unfold page in Ee. rewrite length_take, length_drop in Ee. unfold PAGE_SIZE in Ee. pose proof (sy_bound _ _ Hs). lia.
    + apply bool_decide_eq_false in Ee. destruct (IH s2 _ net start (Some c) true Hs2) as (b & s' & k' & Hr & Hs' & Hk & Hb1 & Hb2 & Hb3); [right; by exists c |].
      exists b, s', k'. split; [exact Hr |]. split; [exact Hs' |]. split; [lia |]. split; [right; lia |]. split; [intros _; by apply Hb2 |].
      intros Hf. rewrite Hb2 in Hf; done.
Qed.

Lemma round_run s k net : synced_to s k ->
  exists b s' k', fetch_contract_events_round ix (net, s) = (Ok b, (net, s')) /\ synced_to s' k' /\ (k <= k')%nat /\
    (b = true -> (k < k')%nat) /\ (b = false -> k' = length log /\ caught_up s').
Proof using EL PN some_contract.
  intros Hs. pose proof (pn_tip net) as Ht. pose proof (es_sync s (sy_ok _ _ Hs)) as Hsync. unfold fetch_contract_events_round.
  rewrite (io_bind_run _ _ _ tip (net, s)) by (unfold io_map_err, on_rpc, get_latest_ledger; cbn [fst snd]; by rewrite Ht).
  rewrite (io_bind_run _ _ _ (sync_state s) (net, s)) by (unfold on_storage; cbn [fst snd]; by rewrite Hsync).
  edestruct (pages_run MAX_PAGES_PER_ROUND s k net) as (b & s' & k' & Hr & Hs' & Hk & Hb1 & Hb2 & Hb3); [exact Hs | |].
  2: { exists b, s', k'. split; [exact Hr |]. split; [exact Hs' |]. split; [exact Hk |]. split; [intros E; destruct (Hb1 E); [done | done] |].
       intros E. by destruct (Hb3 E). }
  destruct (sy_position _ _ Hs) as [[Ha ->] | (Ha & c & Hat & Hne & Hall)].
  - left. rewrite Ha. split; [done |]. split; [| done]. cbn. pose proof (proj2 pn_range). lia.
  - right. exists c. split; [by apply resume_at | done].
Qed.

(** [catch_up] ends after at most one round per event and one more. *)
Lemma catch_up_run fuel : forall s k net, synced_to s k -> (length log - k < fuel)%nat ->
  exists s', catch_up fuel ix (net, s) = Some (Ok tt, (net, s')) /\ synced_to s' (length log) /\ caught_up s'.
Proof using EL PN some_contract.
  induction fuel as [|fuel IH]; intros s k net Hs Hf; [lia |]. cbn [catch_up].
  destruct (round_run s k net Hs) as (b & s' & k' & -> & Hs' & Hk & Hb1 & Hb2). pose proof (sy_bound _ _ Hs'). destruct b.
  - apply (IH s' k' net Hs'). specialize (Hb1 eq_refl). lia.
  - destruct (Hb2 eq_refl) as [-> Hup]. by exists s'.
Qed.


End Run.

(** ** What the saves preserve *)

Section Preserved.

Context {Net St : Type} {node : RpcNode Net} {C : ContractDataStorage St}.
Variable R : St -> St -> Prop.
Context `{!PreOrder R}.
Hypothesis batch_R : forall b s, R s (cds_save_events_batch b s).2.
Hypothesis progress_R : forall l fully s, R s (cds_save_sync_progress l fully s).2.

Definition relates {E A} (m : IO (Net * St) E A) : Prop := forall w, R w.2 (m w).2.2.

Lemma relates_bind {E A B} (m : IO (Net * St) E A) (k : A -> IO (Net * St) E B) : relates m -> (forall a, relates (k a)) -> relates (m ≫= k).
Proof using PreOrder0.
  intros Hm Hk w. specialize (Hm w). unfold mbind, io_bind. destruct (m w) as [[a|e] w1]; cbn [snd] in *; [| done]. etrans; [exact Hm | apply Hk].
Qed.

Lemma relates_pure {E A} (r : result E A) : relates (io_result r).
Proof using PreOrder0. intros w. reflexivity. Qed.

Lemma relates_storage {A} (m : St -> result StorageError A * St) : (forall s, R s (m s).2) -> relates (on_storage m).
Proof. intros Hm w. unfold on_storage. specialize (Hm w.2). by destruct (m w.2). Qed.

Lemma relates_pages ix pages start cursor more : relates (fetch_pages ix pages start cursor more).
Proof using PreOrder0 batch_R progress_R.
  revert cursor more. induction pages as [|pages IH]; intros cursor more; cbn [fetch_pages]; [apply (relates_pure (Ok more)) |]. intros w.
  unfold on_rpc. destruct (get_contract_events _ _ _ _ w.1) as [[[[c events] latest]|e] net].
  - change w.2 with (net, w.2).2 at 1. revert w. cut (forall w' : Net * St, R w'.2 ((new_cursor ← io_result (ok_or c MissingCursor);
      on_storage (cds_save_events_batch {| cd_events := contract_event_of <$> events; cd_cursor := new_cursor; cd_latest_ledger := latest |});;
      on_storage (cds_save_sync_progress (progress_of ix new_cursor (if bool_decide (length events = 0%nat) then latest else default latest (maximum (ev_ledger <$> events)))) (bool_decide (length events = 0%nat)));;
      if bool_decide (length events = 0%nat) then mret more else fetch_pages ix pages start (Some new_cursor) true) w').2.2); [intros Hc w; apply (Hc (net, w.2)) |].
    intros w. apply relates_bind; [apply relates_pure |]. intros c'. apply relates_bind; [apply relates_storage, batch_R |]. intros _.
    apply relates_bind; [apply relates_storage, progress_R |]. intros _. destruct (bool_decide _); [apply (relates_pure (Ok more)) | apply IH].
  - destruct e; reflexivity.
Qed.

Lemma relates_round ix : relates (fetch_contract_events_round ix).
Proof using PreOrder0 batch_R progress_R.
  apply relates_bind; [intros w; unfold io_map_err, on_rpc; by destruct (get_latest_ledger w.1) |]. intros tip.
  apply relates_bind; [apply relates_storage; reflexivity |]. intros l. apply relates_pages.
Qed.

Lemma relates_catch_up ix fuel : forall w r w', catch_up fuel ix w = Some (r, w') -> R w.2 w'.2.
Proof using PreOrder0 batch_R progress_R.
  induction fuel as [|fuel IH]; intros w r w' H; [done |]. cbn [catch_up] in H. pose proof (relates_round ix w) as Hr.
  destruct (fetch_contract_events_round ix w) as [[[|]|e] w1]; cbn [snd] in Hr; [etrans; [exact Hr | by eapply IH] | by injection H as <- <- | by injection H as <- <-].
Qed.

End Preserved.

(** The tables the indexer writes are well formed. *)
Record index_ok (d : Db) : Prop := {
  io_ids : NoDup (fst <$> contracts d);
  io_addresses : NoDup (snd <$> contracts d);
  io_raw : forall r, r ∈ raw_contract_events d -> is_Some (lookup_address (contracts d) (raw_contract r));
  io_rows : forall r, r ∈ indexing_metadata d -> is_Some (lookup_address (contracts d) (sr_contract r)) /\ fits_u 32 (sr_indexed r) = true /\ fits_u 32 (sr_fully_indexed r) = true;
}.

Definition db_stored (d : Db) (id : string) : option (Z * string * string * string) :=
  r ← raw_of d id; a ← lookup_address (contracts d) (raw_contract r); Some (raw_ledger r, a, raw_topics r, raw_value r).

Definition db_sync (d : Db) : list SyncMetadata := match get_sync_metadata d with Ok l => l | Err _ => [] end.

#[export] Instance db_event_store : EventStore local_storage := {| store_ok := index_ok; stored := db_stored; sync_state := db_sync |}.

(** ** Contracts *)

Lemma lookup_id_address (table : list (Z * string)) a c : NoDup (fst <$> table) -> lookup_id table a = Some c -> lookup_address table c = Some a.
Proof.
  unfold lookup_id, lookup_address. intros Hnd. destruct (find _ table) as [[c' a']|] eqn:E; [| done]. intros [= <-].
  apply (find_key_some snd) in E as [Hin <-]. by rewrite (find_by_key fst table (c', a')).
Qed.

Lemma lookup_address_id (table : list (Z * string)) a c : NoDup (snd <$> table) -> lookup_address table c = Some a -> lookup_id table a = Some c.
Proof.
  unfold lookup_id, lookup_address. intros Hnd. destruct (find _ table) as [[c' a']|] eqn:E; [| done]. intros [= <-].
  apply (find_key_some fst) in E as [Hin <-]. by rewrite (find_by_key snd table (c', a')).
Qed.

(** More contracts do not change what is known of the others. *)
Definition more_contracts (d d' : Db) : Prop := forall c a, lookup_address (contracts d) c = Some a -> lookup_address (contracts d') c = Some a.

Lemma contract_created d a : index_ok d -> runs (get_or_create_contract_id a) d (fun c d' => index_ok d' /\ more_contracts d d' /\
  lookup_address (contracts d') c = Some a /\ raw_contract_events d' = raw_contract_events d /\ indexing_metadata d' = indexing_metadata d).
Proof.
  intros [I1 I2 I3 I4]. unfold get_or_create_contract_id. apply runs_read_bind. destruct (lookup_id (contracts d) a) as [c|] eqn:E.
  - apply runs_ret. split_and!; [by split | by intros ? ? | by apply lookup_id_address | done | done].
  - apply runs_write_bind, runs_ret. set (c := next_id (fst <$> contracts d)). cbn [contracts set_contracts raw_contract_events indexing_metadata].
    assert (forall c' a', lookup_address (contracts d) c' = Some a' -> lookup_address (contracts d ++ [(c, a)]) c' = Some a') as Hmore.
    { intros c' a' H. unfold lookup_address in *. destruct (find _ (contracts d)) eqn:F; [| done]. by rewrite (find_app_some _ _ _ _ F). }
    split_and!; [split | exact Hmore | | done | done]; cbn [contracts set_contracts raw_contract_events indexing_metadata].
    + by apply nodup_snoc_id.
    + rewrite fmap_app. apply NoDup_app. split; [done |]. split; [| apply NoDup_singleton]. intros x Hx Hin. apply list_elem_of_singleton in Hin as ->. cbn in Hx.
      unfold lookup_id in E. destruct (find _ _) eqn:F; [done |]. by apply (find_key_none snd) in F.
    + intros r Hr. destruct (I3 r Hr) as [x Hx]. exists x. by apply Hmore.
    + intros r Hr. destruct (I4 r Hr) as [[x Hx] Hf]. split; [exists x; by apply Hmore | exact Hf].
    + unfold lookup_address. rewrite find_app. rewrite (proj2 (find_key_none fst (contracts d) c)); [cbn; by rewrite bool_decide_eq_true_2 |].
      intros Hin. apply next_id_gt in Hin. unfold c in Hin. lia.
Qed.

(** ** The progress that is read *)

Definition metadata_of (d : Db) (r : SyncRow) : SyncMetadata :=
  {| sm_contract_id := default EmptyString (lookup_address (contracts d) (sr_contract r)); sm_cursor := default EmptyString (sr_cursor r);
     sm_last_indexed_ledger := sr_indexed r; sm_last_fully_indexed_ledger := sr_fully_indexed r |}.

Lemma sync_rows_read d rows : (forall r, r ∈ rows -> is_Some (lookup_address (contracts d) (sr_contract r)) /\ fits_u 32 (sr_indexed r) = true /\ fits_u 32 (sr_fully_indexed r) = true) ->
  sync_rows d rows = Ok (metadata_of d <$> rows).
Proof.
  induction rows as [|r rows IH]; intros Hr; [done |]. cbn [sync_rows]. destruct (Hr r ltac:(by left)) as ((a & Ha) & H1 & H2). unfold col_u32. rewrite Ha, H1, H2.
  cbn [mbind result_bind]. rewrite IH by (intros x Hx; apply Hr; by right). cbn [mbind result_bind]. rewrite fmap_cons. do 2 f_equal. unfold metadata_of. by rewrite Ha.
Qed.

Lemma db_sync_read d : index_ok d -> get_sync_metadata d = Ok (db_sync d) /\ db_sync d = metadata_of d <$> order_by sr_contract (indexing_metadata d).
Proof.
  intros I. unfold db_sync. assert (get_sync_metadata d = Ok (metadata_of d <$> order_by sr_contract (indexing_metadata d))) as ->; [| done].
  apply sync_rows_read. intros r Hr%elem_of_order_by. by apply io_rows.
Qed.

Lemma db_sync_more d d' : index_ok d -> index_ok d' -> more_contracts d d' -> indexing_metadata d' = indexing_metadata d -> db_sync d' = db_sync d.
Proof.
  intros I I' Hm E. rewrite (proj2 (db_sync_read d I)), (proj2 (db_sync_read d' I')), E. apply list_fmap_ext. intros i r Hr.
  apply list_elem_of_lookup_2, elem_of_order_by in Hr. destruct (io_rows d I r Hr) as ((a & Ha) & _). unfold metadata_of. by rewrite Ha, (Hm _ _ Ha).
Qed.

Lemma db_stored_more d d' id : index_ok d -> more_contracts d d' -> raw_contract_events d' = raw_contract_events d -> db_stored d' id = db_stored d id.
Proof.
  intros I Hm E. unfold db_stored, raw_of. rewrite E. destruct (find _ _) as [r|] eqn:F; [| done]. cbn. apply (find_key_some raw_id) in F as [Hin _].
  destruct (io_raw d I r Hin) as [a Ha]. by rewrite Ha, (Hm _ _ Ha).
Qed.

(** ** Batches *)

Lemma raw_event_saved d e : index_ok d -> runs (save_raw_event e) d (fun _ d' => index_ok d' /\ more_contracts d d' /\ indexing_metadata d' = indexing_metadata d /\
  forall id, db_stored d' id = match db_stored d id with Some f => Some f | None => if bool_decide (ce_id e = id) then Some (fields_of e) else None end).
Proof.
  intros I. unfold save_raw_event. eapply runs_bind; [exact (contract_created d (ce_contract_id e) I) |]. cbn beta. intros c d1 (I1 & M & Hc & Er & Em).
  apply runs_read_bind. unfold id. assert (forall id, db_stored d1 id = db_stored d id) as Es by (intros x; by apply db_stored_more).
  destruct (raw_of d1 (ce_id e)) as [r|] eqn:F.
  - apply runs_ret. split_and!; [done | done | done |]. intros x. rewrite Es. destruct (db_stored d x) eqn:Ex; [done |]. case_bool_decide as Eid; [| done]. exfalso.
    rewrite <- Es, <- Eid in Ex. unfold db_stored in Ex. rewrite F in Ex. cbn in Ex. unfold raw_of in F. apply (find_key_some raw_id) in F as [Hin _].
    destruct (io_raw d1 I1 r Hin) as [a Ha]. by rewrite Ha in Ex.
  - apply runs_write. destruct I1 as [J1 J2 J3 J4]. split_and!; [split; cbn; try assumption | done | done |].
    + intros r [Hr | ->%list_elem_of_singleton]%elem_of_app; [by apply J3 | cbn; by exists (ce_contract_id e)].
    + intros x. rewrite <- Es. unfold db_stored, raw_of in *. cbn [raw_contract_events set_raw contracts]. rewrite find_app.
      destruct (find (fun r => bool_decide (raw_id r = x)) (raw_contract_events d1)) as [r|] eqn:Fx; cbn [mbind option_bind].
      * apply (find_key_some raw_id) in Fx as [Hin _]. destruct (J3 r Hin) as [a ->]. done.
      * cbn [find raw_id]. case_bool_decide; [| done]. cbn. by rewrite Hc.
Qed.

Lemma batch_saved d es : index_ok d -> runs (save_events_batch es) d (fun _ d' => index_ok d' /\ more_contracts d d' /\ indexing_metadata d' = indexing_metadata d /\
  forall id, db_stored d' id = match db_stored d id with Some f => Some f | None => fields_of <$> find (fun e => bool_decide (ce_id e = id)) es end).
Proof.
  intros I. apply runs_transaction. revert d I. induction es as [|e es IH]; intros d I; cbn [db_each].
  - apply runs_ret. split_and!; [done | by intros ? ? | done |]. intros id. by destruct (db_stored d id).
  - eapply runs_bind; [exact (raw_event_saved d e I) |]. cbn beta. intros [] d1 (I1 & M1 & E1 & S1). eapply runs_mono; [exact (IH d1 I1) |]. cbn beta.
    intros [] d2 (I2 & M2 & E2 & S2). split_and!; [done | intros c a Hc; by apply M2, M1 | congruence |]. intros id. rewrite S2, S1. cbn [find].
    destruct (db_stored d id); [done |]. by case_bool_decide.
Qed.

(** ** Progress *)

(** The contract's rows, one at least, say this progress. *)
Definition at_progress (d : Db) (cursor : string) (ledger : Z) (fully : bool) (a : string) : Prop :=
  exists c, lookup_address (contracts d) c = Some a /\ (exists r, r ∈ indexing_metadata d /\ sr_contract r = c) /\
    forall r, r ∈ indexing_metadata d -> sr_contract r = c -> sr_cursor r = Some cursor /\ sr_indexed r = ledger /\ (fully = true -> sr_fully_indexed r = ledger).

Definition progress_entry (cursor : string) (ledger : Z) (a : string) : SyncMetadata :=
  {| sm_contract_id := a; sm_cursor := cursor; sm_last_indexed_ledger := ledger; sm_last_fully_indexed_ledger := 0 |}.

Lemma entry_saved d cursor ledger fully a : index_ok d -> fits_u 32 ledger = true ->
  runs (save_sync_entry fully (progress_entry cursor ledger a)) d (fun _ d' => index_ok d' /\ more_contracts d d' /\ raw_contract_events d' = raw_contract_events d /\
    at_progress d' cursor ledger fully a /\ forall a', at_progress d cursor ledger fully a' -> at_progress d' cursor ledger fully a').
Proof.
  intros I Hfit. unfold save_sync_entry. eapply runs_bind; [exact (contract_created d (sm_contract_id (progress_entry cursor ledger a)) I) |]. cbn beta.
  intros c d1 ([J1 J2 J3 J4] & M & Hc & Er & Em). apply runs_read_bind. cbn [progress_entry sm_cursor sm_last_indexed_ledger sm_contract_id] in *. apply runs_write.
  set (fresh := Build_SyncRow _ _ _ _). set (table := if existsb _ _ then _ else _). set (update := fun r => if sr_contract r =? c then _ else r).
  assert (forall r, r ∈ table -> r ∈ indexing_metadata d1 \/ r = fresh) as Htab.
  { intros r Hr. unfold table in Hr. destruct (existsb _ _); [by left |]. apply elem_of_app in Hr as [Hr | Hr%list_elem_of_singleton]; [by left | by right]. }
  assert (forall r, r ∈ indexing_metadata d1 -> r ∈ table) as Hsub by (intros r Hr; unfold table; destruct (existsb _ _); [done | apply elem_of_app; by left]).
  assert (exists r, r ∈ table /\ sr_contract r = c) as (r0 & Hr0 & Hr0c).
  { unfold table. destruct (existsb _ _) eqn:Ex; [apply existsb_exists in Ex as (r & Hr%list_elem_of_In & E%Z.eqb_eq); by exists r |].
    exists fresh. split; [apply elem_of_app; right; by apply list_elem_of_singleton | done]. }
  assert (forall r, sr_contract (update r) = sr_contract r) as Hupd by (intros r; unfold update; destruct (Z.eqb_spec (sr_contract r) c); [by cbn | done]).
  assert (forall r, r ∈ table -> sr_contract r = c -> sr_cursor (update r) = Some cursor /\ sr_indexed (update r) = ledger /\ (fully = true -> sr_fully_indexed (update r) = ledger)) as Hset.
  { intros r _ E. unfold update. rewrite (proj2 (Z.eqb_eq _ _) E). cbn. split; [done |]. split; [done |]. by intros ->. }
  split_and!; [split; cbn [contracts set_metadata raw_contract_events indexing_metadata]; try assumption | exact M | done | |].
  - intros r (r' & -> & Hr')%list_elem_of_fmap. rewrite Hupd. destruct (Htab r' Hr') as [H1 | ->].
    + destruct (J4 r' H1) as (K1 & K2 & K3). split; [done |]. unfold update. case_if; cbn; [| by split]. split; [done |]. by destruct fully.
    + split; [by exists a |]. unfold update, fresh. cbn [sr_contract]. rewrite Z.eqb_refl. cbn. split; [done |]. by destruct fully.
  - exists c. cbn [contracts set_metadata indexing_metadata]. split; [exact Hc |]. split; [exists (update r0); split; [by apply list_elem_of_fmap_2 | by rewrite Hupd] |].
    intros r (r' & -> & Hr')%list_elem_of_fmap E. rewrite Hupd in E. by apply Hset.
  - intros a' (c' & Hc' & (r1 & Hr1 & Hr1c) & Hall). exists c'. cbn [contracts set_metadata indexing_metadata]. split; [by apply M |]. rewrite <- Em in Hr1, Hall.
    split; [exists (update r1); split; [by apply list_elem_of_fmap_2, Hsub | by rewrite Hupd] |].
    intros r (r' & -> & Hr')%list_elem_of_fmap E. rewrite Hupd in E. destruct (decide (c' = c)) as [-> | Hne]; [by apply Hset |].
    unfold update. destruct (Z.eqb_spec (sr_contract r') c); [congruence |]. destruct (Htab r' Hr') as [H1 | ->]; [by apply Hall | done].
Qed.

Lemma progress_saved d cursor ledger fully l : index_ok d -> fits_u 32 ledger = true ->
  runs (save_sync_progress (progress_entry cursor ledger <$> l) fully) d (fun _ d' => index_ok d' /\ more_contracts d d' /\ raw_contract_events d' = raw_contract_events d /\
    Forall (at_progress d' cursor ledger fully) l).
Proof.
  intros I Hfit. apply runs_transaction. assert (forall done d, index_ok d -> Forall (at_progress d cursor ledger fully) done ->
    runs (db_each (save_sync_entry fully) (progress_entry cursor ledger <$> l)) d (fun _ d' => index_ok d' /\ more_contracts d d' /\ raw_contract_events d' = raw_contract_events d /\
      Forall (at_progress d' cursor ledger fully) (done ++ l))) as Hrun; [| exact (Hrun [] d I ltac:(constructor))].
  clear d I. induction l as [|a l IH]; intros before d I Hdone; cbn [fmap list_fmap db_each].
  - apply runs_ret. rewrite app_nil_r. split_and!; [done | by intros ? ? | done | done].
  - eapply runs_bind; [exact (entry_saved d cursor ledger fully a I Hfit) |]. cbn beta. intros [] d1 (I1 & M1 & R1 & A1 & K1).
    eapply runs_mono; [apply (IH (before ++ [a]) d1 I1) |].
    + apply Forall_app. split; [| by constructor]. eapply Forall_impl; [exact Hdone | exact K1].
    + cbn beta. intros [] d2 (I2 & M2 & R2 & A2). rewrite <- app_assoc in A2. split_and!; [done | intros x y Hx; by apply M2, M1 | congruence | done].
Qed.

#[export] Instance db_event_laws : EventStoreLaws local_storage db_event_store.
Proof.
  split.
  - intros d I. exact (proj1 (db_sync_read d I)).
  - intros d b I. destruct (batch_saved d (cd_events b) I) as ([] & d' & E & I' & M & Em & S). exists d'. split; [exact E |]. split; [exact I' |]. split; [by apply db_sync_more | exact S].
  - intros d ix cursor ledger fully I Hfit. destruct (progress_saved d cursor ledger fully (ix_contract_ids ix) I Hfit) as ([] & d' & E & I' & M & Er & A). exists d'.
    split; [exact E |]. split; [exact I' |]. split; [intros id; by apply db_stored_more |]. rewrite Forall_forall in A. cbn [sync_state db_event_store]. rewrite (proj2 (db_sync_read d' I')).
    split.
    + intros Hne. destruct (ix_contract_ids ix) as [|a l] eqn:El; [done |]. destruct (A a ltac:(by left)) as (c & Hc & (r & Hr & Hrc) & _). intros Hnil.
      assert (metadata_of d' r ∈ active_sync (a :: l) (metadata_of d' <$> order_by sr_contract (indexing_metadata d'))) as Hin.
      { apply list_elem_of_filter. split; [cbn; rewrite Hrc, Hc; by left | by apply list_elem_of_fmap_2, elem_of_order_by]. }
      rewrite Hnil in Hin. by apply not_elem_of_nil in Hin.
    + apply Forall_forall. intros m [Ha Hm]%list_elem_of_filter. apply list_elem_of_fmap in Hm as (r & -> & Hr%elem_of_order_by). cbn in Ha |- *.
      destruct (io_rows d' I' r Hr) as ((a & Hx) & _). rewrite Hx in Ha. cbn in Ha. destruct (A a Ha) as (c & Hc & _ & Hall).
      assert (sr_contract r = c) as Hrc. { pose proof (lookup_address_id _ _ _ (io_addresses d' I') Hx) as E1. pose proof (lookup_address_id _ _ _ (io_addresses d' I') Hc) as E2. congruence. }
      destruct (Hall r Hr Hrc) as (-> & -> & Hf). done.
Qed.

(** ** The whole run *)

(** A database the indexer may continue from: nothing of the contracts is indexed yet, or
    all stand at one cursor and hold the log up to it, and no event of the log is stored
    with other fields. *)
Definition resumable (ix : Indexer) (log : list RpcEvent) (stands_at : string -> nat -> Prop) (d : Db) (k : nat) : Prop :=
  index_ok d /\ at_position ix stands_at d k /\ holds_prefix log d k /\ no_clash log d /\ (k <= length log)%nat.

(** Indexing reaches the tip: over a node that serves the log of the contracts in pages,
    [catch_up] ends on the client's database, fresh or resumed from a cursor, after at most
    one round per missing event and one more.  Every event of the log is then stored with
    its ledger, contract, topics and value, nothing stored before is lost or changed, and all
    the contracts are recorded as fully indexed up to the tip. *)
Lemma catch_up_ingests_log {Net : Type} (node : RpcNode Net) (ix : Indexer) (log : list RpcEvent) (tip : Z) (stands_at : string -> nat -> Prop)
    (PN : PagedNode node (ix_contract_ids ix) log (ix_min_pool_ledger ix) tip stands_at) (d : Db) (k : nat) (net : Net) :
  ix_contract_ids ix <> [] -> resumable ix log stands_at d k ->
  exists d', catch_up (S (length log - k)) ix (net, d) = Some (Ok tt, (net, d')) /\ index_ok d' /\
    (forall e, e ∈ log -> db_stored d' (ev_id e) = Some (ev_ledger e, ev_contract_id e, String.concat "," (ev_topic e), ev_value e)) /\
    (forall id f, db_stored d id = Some f -> db_stored d' id = Some f) /\
    (exists l, get_sync_metadata d' = Ok l /\ active_sync (ix_contract_ids ix) l <> [] /\
       Forall (fun m => sm_last_indexed_ledger m = tip /\ sm_last_fully_indexed_ledger m = tip) (active_sync (ix_contract_ids ix) l)).
Proof.
  intros Hids (I & Hat & Hp & Hnc & Hk). assert (synced_to ix log stands_at d d k) as Hs by (split; auto).
  destruct (catch_up_run ix log tip stands_at d Hids (S (length log - k)) d k net Hs ltac:(lia)) as (d' & Hrun & [S1 _ S3 _ _ S6] & Hne & c & Hup).
  exists d'. split; [exact Hrun |]. split; [exact S1 |]. split; [intros e He; apply (S3 e); by rewrite firstn_all |]. split; [exact S6 |].
  exists (db_sync d'). split; [apply db_sync_read; exact S1 |]. split; [exact Hne |].
  eapply Forall_impl; [exact Hup |]. cbn. intros m (_ & H1 & H2). split; [exact H1 | by apply H2].
Qed.

(** ** A node with a log

    A cursor is as long as its position, and one character more. *)
Fixpoint cursor_text (k : nat) : string := match k with O => "#" | S k => String.append "|" (cursor_text k) end.

Definition cursor_stands (c : string) (k : nat) : Prop := String.length c = S k.

Definition log_node (log : list RpcEvent) (tip : Z) : RpcNode unit := {|
  rpc_get_events p net :=
    let k := match gp_cursor p with Some c => pred (String.length c) | None => 0%nat end in
    let page := take (default 0%nat (gp_limit p)) (drop k log) in
    (Ok {| er_events := page; er_latest_ledger := tip; er_oldest_ledger := 1; er_cursor := cursor_text (k + length page) |}, net);
  rpc_get_latest_ledger net := (Ok tip, net);
  rpc_get_ledger_entries _ net := (Err Reqwest, net);
  rpc_simulate_transaction _ net := (Err Reqwest, net);
  rpc_send_transaction _ net := (Err Reqwest, net);
  rpc_get_transaction _ net := (Err Reqwest, net);
|}.

Lemma cursor_length k : String.length (cursor_text k) = S k.
Proof. induction k as [|k IH]; [reflexivity |]. exact (f_equal S IH). Qed.

Lemma log_node_paged log tip ids first : NoDup (ev_id <$> log) -> Forall (fun e => fits_u 32 (ev_ledger e) = true) log -> fits_u 32 tip = true -> first <= tip ->
  PagedNode (log_node log tip) ids log first tip cursor_stands.
Proof.
  intros Hnd Hl Ht Hf. split; [reflexivity | | exact Hnd | exact Hl | by split].
  intros net start k limit Hstart. exists 1, (cursor_text (k + length (take limit (drop k log)))). split; [| split; [apply cursor_length | by destruct (k + _)%nat]].
  cbn [rpc_get_events log_node page_request gp_cursor gp_limit default].
  assert (match match start with StartCursor c => Some c | _ => None end with Some c => pred (String.length c) | None => 0%nat end = k) as ->; [| reflexivity].
  destruct Hstart as [[-> ->] | (c & -> & Hc)]; [reflexivity |]. unfold cursor_stands in Hc. by rewrite Hc.
Qed.

(** Nothing indexed, nothing stored. *)
Lemma resumable_new ix log stands_at d : index_ok d -> raw_contract_events d = [] -> indexing_metadata d = [] -> resumable ix log stands_at d 0.
Proof.
  intros I Er Em. split; [exact I |]. split; [left; split; [| done]; cbn [sync_state db_event_store]; by rewrite (proj2 (db_sync_read d I)), Em |].
  split; [intros e He; by apply not_elem_of_nil in He |]. split; [| lia]. intros e f _ Hf. cbn [stored db_event_store] in Hf. unfold db_stored, raw_of in Hf. by rewrite Er in Hf.
Qed.

(** A node with two events, asked by a new client. *)
Definition two_events : list RpcEvent :=
  [{| ev_ledger := 7; ev_contract_id := "pool"; ev_id := "a"; ev_topic := ["x"; "y"]; ev_value := "v" |};
   {| ev_ledger := 8; ev_contract_id := "asp"; ev_id := "b"; ev_topic := ["z"]; ev_value := "w" |}].

Definition two_indexer : Indexer := {| ix_contract_ids := ["pool"; "asp"]; ix_min_pool_ledger := 5 |}.

Example two_events_ingested :
  exists d', catch_up (H := log_node two_events 10) 3 two_indexer (tt, empty_db) = Some (Ok tt, (tt, d')) /\ db_stored d' "a" = Some (7, "pool", "x,y", "v") /\ length (raw_contract_events d') = 2%nat.
Proof.
  destruct (catch_up_ingests_log (log_node two_events 10) two_indexer two_events 10 cursor_stands
    ltac:(apply log_node_paged; [apply (bool_decide_eq_true_1 _); reflexivity | repeat constructor | reflexivity | cbn; lia]) empty_db 0 tt ltac:(discriminate)
    ltac:(apply resumable_new; [split; [constructor | constructor | intros r Hr; inversion Hr | intros r Hr; inversion Hr] | reflexivity | reflexivity]))
    as (d' & Hrun & _ & Hst & _).
  exists d'. split; [exact Hrun |]. split; [exact (Hst _ (list_elem_of_here _ _)) |].
  assert (exists d0, catch_up (H := log_node two_events 10) 3 two_indexer (tt, empty_db) = Some (Ok tt, (tt, d0)) /\ length (raw_contract_events d0) = 2%nat) as (d0 & H0 & Hl)
    by (eexists; split; [vm_compute; reflexivity | reflexivity]).
  change (S (length two_events - 0)) with 3%nat in Hrun. rewrite H0 in Hrun. injection Hrun as <-. exact Hl.
Defined.
