(* ===== verification/Bootnode.v ===== *)
(** * The bootnode

    [tools/bootnode]: a cache of the pages of [getEvents] that an upstream node serves.  The
    indexer ([indexer.rs]) follows the upstream's cursors from the deployment ledger and
    stores every page that has events; the server ([rpc.rs]) answers from the cache, or tells
    the client to continue on its own node.  The store is the class [BootStorage], the trait
    [Storage] of [storage/mod.rs], with its two implementations, in memory and in Postgres,
    where any request to the server may fail or lose its answer.
    Metrics, logging and the HTTP and JSON layers are left out. *)

From stdpp Require Import strings sorting.
From S2P Require Import Prelude Ints Rpc.

(** A step on the state. *)
Definition io_do {W E A} (f : W -> result E A * W) : IO W E A := f.

(** ** [config.rs] *)

Definition saturating_mul_u32 (a b : Z) : Z := Z.min (a * b) (2 ^ 32 - 1).

Definition cutoff_ledgers (redirect_days ledger_seconds : Z) : Z :=
  let seconds := saturating_mul_u32 (saturating_mul_u32 (saturating_mul_u32 redirect_days 24) 60) 60 in
  let denom := Z.max ledger_seconds 1 in
  seconds / denom.

(** The settings the service logic reads. *)
Record BootConfig : Type := {
  bc_redirect_days : Z;
  bc_ledger_seconds : Z;
  bc_max_pages_per_round : nat;
  bc_page_size : nat;
  bc_initial_ledger_tip : Z;
}.

Definition config_cutoff_ledgers (cfg : BootConfig) : Z := cutoff_ledgers (bc_redirect_days cfg) (bc_ledger_seconds cfg).

(** ** [messages.rs] *)

Record ContractEventFilter : Type := {
  cf_type : string;
  cf_topics : list (list string);
  cf_contract_ids : list string;
}.

Record PaginationParams : Type := { pg_limit : option nat; pg_cursor : option string }.

Record BootEventsParams : Type := {
  bp_filters : list ContractEventFilter;
  bp_pagination : PaginationParams;
  bp_start_ledger : option Z;
  bp_end_ledger : option Z;
  bp_xdr_format : option string;
}.

Record ParsedGetEvents : Type := { pg_start_ledger : option Z; pg_at_cursor : option string; pg_at_limit : option nat }.

Record BootLatestLedger : Type := { bl_id : string; bl_protocol_version : Z; bl_sequence : Z }.

Record BootEvent : Type := {
  be_type : string;
  be_ledger : Z;
  be_ledger_closed_at : string;
  be_contract_id : string;
  be_id : string;
  be_operation_index : option Z;
  be_transaction_index : option Z;
  be_tx_hash : option string;
  be_is_successful_contract_call : option bool;
  be_topic : list string;
  be_value : string;
}.

Record BootEventsResponse : Type := {
  br_events : list BootEvent;
  br_latest_ledger : Z;
  br_latest_ledger_close_time : string;
  br_oldest_ledger : Z;
  br_oldest_ledger_close_time : string;
  br_cursor : string;
}.

Definition both_starts : string := "getEvents params must include either startLedger or pagination.cursor, not both".
Definition no_start : string := "getEvents params must include either startLedger or pagination.cursor".

Definition parsed (p : BootEventsParams) : result string ParsedGetEvents :=
  match bp_start_ledger p, pg_cursor (bp_pagination p) with
  | Some _, Some _ => Err both_starts
  | None, None => Err no_start
  | _, _ => Ok {| pg_start_ledger := bp_start_ledger p; pg_at_cursor := pg_cursor (bp_pagination p); pg_at_limit := pg_limit (bp_pagination p) |}
  end.

(** [sort_unstable] on strings: equal strings are the same, so the result is determined. *)
Definition text_le (a b : string) : Prop := String.leb a b = true.

#[export] Instance text_le_dec : RelDecision text_le.
Proof. intros a b. unfold text_le. exact _. Defined.

Definition is_allowed_filters (p : BootEventsParams) (allowed_contract_ids : list string) : bool :=
  match bp_filters p with
  | [] => false
  | first :: _ =>
      if negb (bool_decide (cf_type first = "contract")) then false
      else if negb (bool_decide (cf_topics first = [["**"]])) then false
      else bool_decide (merge_sort text_le (cf_contract_ids first) = merge_sort text_le allowed_contract_ids)
  end.

Definition for_contracts (contract_ids : list string) (start_ledger : option Z) (cursor : option string) (limit : nat) : BootEventsParams :=
  {| bp_filters := [{| cf_type := "contract"; cf_topics := [["**"]]; cf_contract_ids := contract_ids |}];
     bp_pagination := {| pg_limit := Some limit; pg_cursor := cursor |}; bp_start_ledger := start_ledger; bp_end_ledger := None; bp_xdr_format := None |}.

(** ** [storage/mod.rs] *)

Record KvState : Type := {
  kv_last_cursor : option string;
  kv_last_fully_indexed_ledger : Z;
  kv_ledger_tip : Z;
  kv_in_sync : bool;
}.

Record InsertGetEventsPage : Type := {
  ip_cursor_in : option string;
  ip_start_ledger : option Z;
  ip_request : BootEventsParams;
  ip_result : BootEventsResponse;
  ip_cursor_out : string;
  ip_last_event_ledger : option Z;
  ip_latest_ledger : Z;
  ip_oldest_ledger : Z;
}.

Inductive BootStorageError : Type :=
| PgConnection
| PgStatement
| PgIntegerRange (what : string)
| PgUniqueIndex.

Class BootStorage (St : Type) : Type := {
  bs_ping : IO St BootStorageError unit;
  bs_load_kv : IO St BootStorageError KvState;
  bs_update_cursor : string -> IO St BootStorageError unit;
  bs_set_last_fully_indexed_ledger : Z -> IO St BootStorageError unit;
  bs_set_ledger_tip : Z -> IO St BootStorageError unit;
  bs_set_in_sync : bool -> IO St BootStorageError unit;
  bs_lookup_last_event_ledger_for_cursor : string -> IO St BootStorageError (option Z);
  bs_get_cached_get_events_by_cursor : string -> IO St BootStorageError (option BootEventsResponse);
  bs_get_cached_get_events_by_start_ledger : Z -> IO St BootStorageError (option BootEventsResponse);
  bs_store_get_events_page : InsertGetEventsPage -> IO St BootStorageError unit;
}.

Section Provided.

Context {St : Type} `{BootStorage St}.

Definition mark_caught_up (cursor : string) (latest_ledger : Z) : IO St BootStorageError unit :=
  bs_update_cursor cursor;;
  bs_set_last_fully_indexed_ledger latest_ledger;;
  bs_set_in_sync true.

(** A page without events is not stored, nor one whose place is taken. *)
Definition insert_get_events_page (page : InsertGetEventsPage) : IO St BootStorageError unit :=
  if bool_decide (br_events (ip_result page) = []) then mret tt
  else
    taken ← match ip_cursor_in page, ip_start_ledger page with
            | Some cursor_in, _ => cached ← bs_get_cached_get_events_by_cursor cursor_in; mret (bool_decide (is_Some cached))
            | None, Some start_ledger => cached ← bs_get_cached_get_events_by_start_ledger start_ledger; mret (bool_decide (is_Some cached))
            | None, None => mret false
            end;
    if (taken : bool) then mret tt else bs_store_get_events_page page.

End Provided.

(** ** [storage/in_memory.rs] *)

Record InMemory : Type := {
  im_last_cursor : option string;
  im_last_fully_indexed_ledger : Z;
  im_ledger_tip : Z;
  im_in_sync : bool;
  cache_by_cursor_in : gmap string BootEventsResponse;
  cache_by_start_ledger : gmap Z BootEventsResponse;
  ledger_by_cursor_out : gmap string Z;
}.

Definition InMemory_new : InMemory := Build_InMemory None 0 0 false ∅ ∅ ∅.

(** [with_state] and [with_state_mut]. *)
Definition with_state {A} (f : InMemory -> A) : IO InMemory BootStorageError A := fun s => (Ok (f s), s).
Definition with_state_mut (f : InMemory -> InMemory) : IO InMemory BootStorageError unit := fun s => (Ok tt, f s).

Definition im_load_kv : IO InMemory BootStorageError KvState :=
  with_state (fun s => {| kv_last_cursor := im_last_cursor s; kv_last_fully_indexed_ledger := im_last_fully_indexed_ledger s;
                          kv_ledger_tip := im_ledger_tip s; kv_in_sync := im_in_sync s |}).

Definition im_update_cursor (cursor : string) : IO InMemory BootStorageError unit :=
  with_state_mut (fun s => Build_InMemory (Some cursor) (im_last_fully_indexed_ledger s) (im_ledger_tip s) (im_in_sync s) (cache_by_cursor_in s) (cache_by_start_ledger s) (ledger_by_cursor_out s)).

Definition im_set_last_fully_indexed_ledger (ledger : Z) : IO InMemory BootStorageError unit :=
  with_state_mut (fun s => Build_InMemory (im_last_cursor s) ledger (im_ledger_tip s) (im_in_sync s) (cache_by_cursor_in s) (cache_by_start_ledger s) (ledger_by_cursor_out s)).

Definition im_set_ledger_tip (tip : Z) : IO InMemory BootStorageError unit :=
  with_state_mut (fun s => Build_InMemory (im_last_cursor s) (im_last_fully_indexed_ledger s) tip (im_in_sync s) (cache_by_cursor_in s) (cache_by_start_ledger s) (ledger_by_cursor_out s)).

Definition im_set_in_sync (in_sync : bool) : IO InMemory BootStorageError unit :=
  with_state_mut (fun s => Build_InMemory (im_last_cursor s) (im_last_fully_indexed_ledger s) (im_ledger_tip s) in_sync (cache_by_cursor_in s) (cache_by_start_ledger s) (ledger_by_cursor_out s)).

Definition im_store_get_events_page (page : InsertGetEventsPage) : IO InMemory BootStorageError unit :=
  with_state_mut (fun s =>
    let by_cursor := match ip_cursor_in page with Some c => <[c := ip_result page]> (cache_by_cursor_in s) | None => cache_by_cursor_in s end in
    let by_ledger := match ip_cursor_in page, ip_start_ledger page with None, Some l => <[l := ip_result page]> (cache_by_start_ledger s) | _, _ => cache_by_start_ledger s end in
    let ledgers := match ip_last_event_ledger page with Some l => <[ip_cursor_out page := l]> (ledger_by_cursor_out s) | None => ledger_by_cursor_out s end in
    Build_InMemory (im_last_cursor s) (im_last_fully_indexed_ledger s) (im_ledger_tip s) (im_in_sync s) by_cursor by_ledger ledgers).

#[export] Instance in_memory_storage : BootStorage InMemory := {|
  bs_ping := mret tt;
  bs_load_kv := im_load_kv;
  bs_update_cursor := im_update_cursor;
  bs_set_last_fully_indexed_ledger := im_set_last_fully_indexed_ledger;
  bs_set_ledger_tip := im_set_ledger_tip;
  bs_set_in_sync := im_set_in_sync;
  bs_lookup_last_event_ledger_for_cursor cursor := with_state (fun s => ledger_by_cursor_out s !! cursor);
  bs_get_cached_get_events_by_cursor cursor := with_state (fun s => cache_by_cursor_in s !! cursor);
  bs_get_cached_get_events_by_start_ledger ledger := with_state (fun s => cache_by_start_ledger s !! ledger);
  bs_store_get_events_page := im_store_get_events_page;
|}.

(** ** [storage/postgres.rs] *)

Record PageRow : Type := {
  pr_cursor_in : option string;
  pr_start_ledger : option Z;
  pr_request : BootEventsParams;
  pr_result : BootEventsResponse;
  pr_cursor_out : string;
  pr_last_event_ledger : option Z;
  pr_latest_ledger : Z;
  pr_oldest_ledger : Z;
}.

(** What the next request to the server meets: an answer, a failure, or a failure after the
    server has done what it was asked, whose answer is lost on the way. *)
Inductive PgOutcome : Type := PgAnswers | PgFails | PgLost.

(** The row of [indexer_state], the table [get_events_pages], and what the requests to come
    meet; those after the list are answered. *)
Record Postgres : Type := {
  pq_ahead : list PgOutcome;
  pq_last_cursor : option string;
  pq_last_fully_indexed_ledger : Z;
  pq_ledger_tip : Z;
  pq_in_sync : bool;
  get_events_pages : list PageRow;
}.

(** The tables [init] creates, with the defaults of their columns. *)
Definition Postgres_init : Postgres := Build_Postgres [] None 0 0 false [].

(** [LIMIT 1] without an order: one of the rows. *)
Class PgLimit : Type := { limit_one : list PageRow -> option PageRow }.

Class PgLimitLaws (L : PgLimit) : Prop := {
  limit_one_nil : limit_one [] = None;
  limit_one_row l : l <> [] -> exists r, limit_one l = Some r /\ r ∈ l;
}.

Section Pg.

Context {L : PgLimit}.

Local Abbreviation PG := (IO Postgres BootStorageError).

Definition pg_set_ahead (l : list PgOutcome) (s : Postgres) : Postgres :=
  Build_Postgres l (pq_last_cursor s) (pq_last_fully_indexed_ledger s) (pq_ledger_tip s) (pq_in_sync s) (get_events_pages s).

Definition pg_next (s : Postgres) : PgOutcome * Postgres :=
  match pq_ahead s with [] => (PgAnswers, s) | o :: l => (o, pg_set_ahead l s) end.

(** [self.pool.get().await?]. *)
Definition pool_get : PG unit := fun s =>
  let '(o, s) := pg_next s in (match o with PgAnswers => Ok tt | _ => Err PgConnection end, s).

(** A statement on the connection, [.await?]. *)
Definition pg_statement {A} (f : PG A) : PG A := fun s =>
  let '(o, s) := pg_next s in
  match o with PgAnswers => f s | PgFails => (Err PgStatement, s) | PgLost => (Err PgStatement, (f s).2) end.

(** [i32::try_from(..).context(..)?], before a connection is taken. *)
Definition pg_integer (what : string) (v : Z) : PG Z := io_result (ok_or (try_into_i 32 v) (PgIntegerRange what)).

Definition pg_integer_opt (what : string) (v : option Z) : PG (option Z) :=
  match v with None => mret None | Some v => x ← pg_integer what v; mret (Some x) end.

Definition pg_execute (f : Postgres -> Postgres) : PG unit := pool_get;; pg_statement (io_do (fun s => (Ok tt, f s))).
Definition pg_query {A} (f : Postgres -> A) : PG A := pool_get;; pg_statement (io_do (fun s => (Ok (f s), s))).

Definition pq_ping : PG unit := pg_query (fun _ => tt).

Definition pq_load_kv : PG KvState :=
  pg_query (fun s => {| kv_last_cursor := pq_last_cursor s; kv_last_fully_indexed_ledger := Z.max (pq_last_fully_indexed_ledger s) 0;
                        kv_ledger_tip := Z.max (pq_ledger_tip s) 0; kv_in_sync := pq_in_sync s |}).

Definition pq_update_cursor (cursor : string) : PG unit :=
  pg_execute (fun s => Build_Postgres (pq_ahead s) (Some cursor) (pq_last_fully_indexed_ledger s) (pq_ledger_tip s) (pq_in_sync s) (get_events_pages s)).

Definition pq_set_last_fully_indexed_ledger (ledger : Z) : PG unit :=
  ledger ← pg_integer "ledger" ledger;
  pg_execute (fun s => Build_Postgres (pq_ahead s) (pq_last_cursor s) ledger (pq_ledger_tip s) (pq_in_sync s) (get_events_pages s)).

Definition pq_set_ledger_tip (tip : Z) : PG unit :=
  tip ← pg_integer "ledger_tip" tip;
  pg_execute (fun s => Build_Postgres (pq_ahead s) (pq_last_cursor s) (pq_last_fully_indexed_ledger s) tip (pq_in_sync s) (get_events_pages s)).

Definition pq_set_in_sync (in_sync : bool) : PG unit :=
  pg_execute (fun s => Build_Postgres (pq_ahead s) (pq_last_cursor s) (pq_last_fully_indexed_ledger s) (pq_ledger_tip s) in_sync (get_events_pages s)).

(** The two unique indexes: on the cursor, and on the ledger of the rows without one.  A
    null ledger clashes with nothing. *)
Definition page_clash (row r : PageRow) : bool :=
  match pr_cursor_in row, pr_cursor_in r with
  | Some a, Some b => bool_decide (a = b)
  | None, None => match pr_start_ledger row, pr_start_ledger r with Some a, Some b => a =? b | _, _ => false end
  | _, _ => false
  end.

Definition pq_store_get_events_page (page : InsertGetEventsPage) : PG unit :=
  start_ledger ← pg_integer_opt "start_ledger" (ip_start_ledger page);
  last_event_ledger ← pg_integer_opt "last_event_ledger" (ip_last_event_ledger page);
  latest_ledger ← pg_integer "latest_ledger" (ip_latest_ledger page);
  oldest_ledger ← pg_integer "oldest_ledger" (ip_oldest_ledger page);
  pool_get;;
  pg_statement (io_do (fun s =>
    let row := {| pr_cursor_in := ip_cursor_in page; pr_start_ledger := start_ledger; pr_request := ip_request page; pr_result := ip_result page;
                  pr_cursor_out := ip_cursor_out page; pr_last_event_ledger := last_event_ledger; pr_latest_ledger := latest_ledger; pr_oldest_ledger := oldest_ledger |} in
    if existsb (page_clash row) (get_events_pages s) then (Err PgUniqueIndex, s)
    else (Ok tt, Build_Postgres (pq_ahead s) (pq_last_cursor s) (pq_last_fully_indexed_ledger s) (pq_ledger_tip s) (pq_in_sync s) (get_events_pages s ++ [row])))).

Definition pq_lookup_last_event_ledger_for_cursor (cursor : string) : PG (option Z) :=
  row ← pg_query (fun s => limit_one (filter (fun r => pr_cursor_out r = cursor /\ is_Some (pr_last_event_ledger r)) (get_events_pages s)));
  mret (r ← row; l ← pr_last_event_ledger r; Some (Z.max l 0)).

Definition pq_get_cached_get_events_by_cursor (cursor : string) : PG (option BootEventsResponse) :=
  row ← pg_query (fun s => limit_one (filter (fun r => pr_cursor_in r = Some cursor) (get_events_pages s)));
  mret (pr_result <$> row).

Definition pq_get_cached_get_events_by_start_ledger (start_ledger : Z) : PG (option BootEventsResponse) :=
  start_ledger ← pg_integer "start_ledger" start_ledger;
  row ← pg_query (fun s => limit_one (filter (fun r => pr_cursor_in r = None /\ pr_start_ledger r = Some start_ledger) (get_events_pages s)));
  mret (pr_result <$> row).

#[export] Instance postgres_storage : BootStorage Postgres := {|
  bs_ping := pq_ping;
  bs_load_kv := pq_load_kv;
  bs_update_cursor := pq_update_cursor;
  bs_set_last_fully_indexed_ledger := pq_set_last_fully_indexed_ledger;
  bs_set_ledger_tip := pq_set_ledger_tip;
  bs_set_in_sync := pq_set_in_sync;
  bs_lookup_last_event_ledger_for_cursor := pq_lookup_last_event_ledger_for_cursor;
  bs_get_cached_get_events_by_cursor := pq_get_cached_get_events_by_cursor;
  bs_get_cached_get_events_by_start_ledger := pq_get_cached_get_events_by_start_ledger;
  bs_store_get_events_page := pq_store_get_events_page;
|}.

End Pg.

(** ** The service *)

(** [upstream.rs], over HTTP. *)
Class Upstream (Up : Type) : Type := {
  up_get_latest_ledger : IO Up RpcError BootLatestLedger;
  up_get_events : BootEventsParams -> IO Up RpcError BootEventsResponse;
}.

Inductive BootError : Type :=
| BootStorageFailed (e : BootStorageError)
| UpstreamFailed (e : RpcError).

(** [AppState]: the tip is shared by the server and the indexer. *)
Record AppState : Type := {
  as_cfg : BootConfig;
  as_contract_ids : list string;
  as_min_deployment_ledger : Z;
}.

Record BootWorld (Up St : Type) : Type := BW { bw_upstream : Up; bw_storage : St; bw_ledger_tip : Z }.
Arguments BW {Up St}.
Arguments bw_upstream {Up St}.
Arguments bw_storage {Up St}.
Arguments bw_ledger_tip {Up St}.

(** JSON-RPC errors; the only data is that of a handoff. *)
Record HandoffData : Type := { hd_reason : string; hd_from_ledger : Z }.
Record ErrorObject : Type := { eo_code : Z; eo_message : string; eo_data : option HandoffData }.

Definition CACHE_MISS_CODE : Z := -32004.
Definition RETENTION_HANDOFF_CODE : Z := -32002.

Definition invalid_params (msg : string) : ErrorObject := {| eo_code := -32602; eo_message := msg; eo_data := None |}.
Definition cache_miss (msg : string) : ErrorObject := {| eo_code := CACHE_MISS_CODE; eo_message := msg; eo_data := None |}.

Definition cache_miss_for_tip (tip : Z) : ErrorObject :=
  if tip =? 0 then cache_miss "bootnode warming up; retry later" else cache_miss "cache miss; indexer may still be catching up".

Definition retention_handoff (from_ledger : Z) : ErrorObject :=
  {| eo_code := RETENTION_HANDOFF_CODE; eo_message := "Continue syncing on your RPC endpoint";
     eo_data := Some {| hd_reason := "retention_threshold"; hd_from_ledger := from_ledger |} |}.

(** The text of an error ([Display]). *)
Class ErrorText : Type := { error_text : BootError -> string }.

Section Service.

Context {Up St : Type} `{Upstream Up} `{BootStorage St} `{ErrorText}.
Variable state : AppState.

Local Abbreviation BM := (IO (BootWorld Up St)).

Definition on_store {A} (m : IO St BootStorageError A) : BM BootError A := fun w =>
  let '(r, s) := m (bw_storage w) in (map_err BootStorageFailed r, BW (bw_upstream w) s (bw_ledger_tip w)).
Definition on_upstream {A} (m : IO Up RpcError A) : BM BootError A := fun w =>
  let '(r, u) := m (bw_upstream w) in (map_err UpstreamFailed r, BW u (bw_storage w) (bw_ledger_tip w)).

Definition internal_error (e : BootError) : ErrorObject := {| eo_code := -32603; eo_message := error_text e; eo_data := None |}.

(** *** [rpc.rs] *)

Definition cache_miss_or_handoff (tip : Z) (tip_known : bool) (cutoff_ledger : Z) : BM ErrorObject BootEventsResponse :=
  if negb tip_known then io_throw (cache_miss_for_tip tip)
  else
    kv ← io_map_err internal_error (on_store bs_load_kv);
    if kv_in_sync kv then io_throw (retention_handoff cutoff_ledger) else io_throw (cache_miss_for_tip tip).

(** A page found in the cache, or none. *)
Definition serve_cached (tip : Z) (tip_known : bool) (cutoff_ledger : Z) (cached : option BootEventsResponse) : BM ErrorObject BootEventsResponse :=
  match cached with Some result => mret result | None => cache_miss_or_handoff tip tip_known cutoff_ledger end.

Definition get_events_handler (params : BootEventsParams) : BM ErrorObject BootEventsResponse :=
  p ← io_map_err invalid_params (io_result (parsed params));
  if negb (is_allowed_filters params (as_contract_ids state)) then io_throw (invalid_params "unsupported filters")
  else
    tip ← io_do (fun w => (Ok (bw_ledger_tip w), w));
    let tip_known := 0 <? tip in
    let cutoff_ledger := saturating_sub tip (config_cutoff_ledgers (as_cfg state)) in
    match pg_start_ledger p, pg_at_cursor p with
    | None, Some cursor =>
        last_event_ledger ← io_map_err internal_error (on_store (bs_lookup_last_event_ledger_for_cursor cursor));
        if tip_known && match last_event_ledger with Some l => cutoff_ledger <=? l | None => false end then io_throw (retention_handoff cutoff_ledger)
        else
          cached ← io_map_err internal_error (on_store (bs_get_cached_get_events_by_cursor cursor));
          serve_cached tip tip_known cutoff_ledger cached
    | start_ledger, cursor =>
        let handoff_ledger := match start_ledger, cursor with Some l, None => Some l | _, _ => None end in
        if tip_known && match handoff_ledger with Some l => cutoff_ledger <=? l | None => false end then io_throw (retention_handoff cutoff_ledger)
        else
          cached ← match start_ledger with
                   | Some l => io_map_err internal_error (on_store (bs_get_cached_get_events_by_start_ledger l))
                   | None => mret None
                   end;
          serve_cached tip tip_known cutoff_ledger cached
    end.

Definition boot_get_latest_ledger : BM ErrorObject BootLatestLedger := io_map_err internal_error (on_upstream up_get_latest_ledger).

(** The method [getEvents]. *)
Definition boot_get_events (params : BootEventsParams) : BM ErrorObject BootEventsResponse :=
  if bool_decide (is_Some (bp_end_ledger params)) then io_throw (invalid_params "endLedger is not supported by bootnode")
  else if bool_decide (is_Some (bp_xdr_format params)) then io_throw (invalid_params "xdrFormat is not supported by bootnode")
  else get_events_handler params.

(** *** [indexer.rs] *)

Fixpoint index_pages (pages : nat) (cursor : option string) (start_ledger : option Z) : BM BootError unit :=
  match pages with
  | O => mret tt
  | S pages =>
      let params := for_contracts (as_contract_ids state) start_ledger cursor (bc_page_size (as_cfg state)) in
      result ← on_upstream (up_get_events params);
      let cursor_out := br_cursor result in
      let last_event_ledger := be_ledger <$> last (br_events result) in
      let is_empty := bool_decide (br_events result = []) in
      (if is_empty then mret tt
       else
         on_store (bs_set_in_sync false);;
         on_store (insert_get_events_page {| ip_cursor_in := cursor; ip_start_ledger := start_ledger; ip_request := params; ip_result := result; ip_cursor_out := cursor_out;
           ip_last_event_ledger := last_event_ledger; ip_latest_ledger := br_latest_ledger result; ip_oldest_ledger := br_oldest_ledger result |}));;
      if is_empty then on_store (mark_caught_up cursor_out (br_latest_ledger result))
      else on_store (bs_update_cursor cursor_out);; index_pages pages (Some cursor_out) None
  end.

Definition run_round : BM BootError unit :=
  latest ← on_upstream up_get_latest_ledger;
  let tip_sequence := bl_sequence latest in
  io_do (fun w => (Ok tt, BW (bw_upstream w) (bw_storage w) tip_sequence));;
  on_store (bs_set_ledger_tip tip_sequence);;
  kv ← on_store bs_load_kv;
  let cursor := kv_last_cursor kv in
  let start_ledger := match cursor with None => Some (as_min_deployment_ledger state) | Some _ => None end in
  index_pages (bc_max_pages_per_round (as_cfg state)) cursor start_ledger.

(** *** [lib.rs]: the tip at the start of the service *)

Definition setup_tip : BM BootError unit :=
  kv ← on_store bs_load_kv;
  io_do (fun w => (Ok tt, BW (bw_upstream w) (bw_storage w) (Z.max (bc_initial_ledger_tip (as_cfg state)) (kv_ledger_tip kv)))).

(** *** [http_server.rs]: the health check, as its status and text *)

Definition healthz (w : BootWorld Up St) : (Z * string) * BootWorld Up St :=
  match on_store bs_ping w with
  | (Err _, w) => ((503, "db unavailable"), w)
  | (Ok _, w) =>
      let tip := bw_ledger_tip w in
      if tip =? 0 then ((503, "warming up"), w)
      else
        match on_store bs_load_kv w with
        | (Err _, w) => ((503, "kv unavailable"), w)
        | (Ok kv, w) =>
            let cutoff := config_cutoff_ledgers (as_cfg state) in
            if (0 <? tip) && (Z.min (kv_last_fully_indexed_ledger kv + cutoff) (2 ^ 32 - 1) <? tip) then ((503, "indexer behind"), w)
            else ((200, "ok"), w)
        end
  end.

End Service.
