(* ===== verification/BootnodeTheorems.v ===== *)
(** * What the bootnode serves

    [BootFaultLaws] says what a store of the bootnode does, when any operation may fail before or
    after it took effect, in terms of a view of it: the indexer's position, the pages by the place
    they start at, and the ledgers recorded for the cursors they end at; [BootStorageLaws] what it
    does when it answers.  Both stores satisfy them, Postgres the first for any sequence of
    failures.  Over an upstream node whose log of
    events only grows, and any store that keeps these laws: the pages of the cache are pages
    of the log, a client that follows them gets a prefix of the log, and where that prefix
    ends for good. *)

From Stdlib Require Import Ascii.
From stdpp Require Import strings sorting relations.
From S2P Require Import Prelude Ints Rpc Bootnode.

(** ** The view of a store *)

Record BootView : Type := {
  bv_cursor : option string;
  bv_fully : Z;
  bv_tip : Z;
  bv_in_sync : bool;
  bv_by_cursor : gmap string BootEventsResponse;
  bv_by_ledger : gmap Z BootEventsResponse;
  bv_ledgers : list (string * Z);
}.

Definition empty_view : BootView := Build_BootView None 0 0 false ∅ ∅ [].

Definition view_cursor c v := Build_BootView (Some c) (bv_fully v) (bv_tip v) (bv_in_sync v) (bv_by_cursor v) (bv_by_ledger v) (bv_ledgers v).
Definition view_fully l v := Build_BootView (bv_cursor v) l (bv_tip v) (bv_in_sync v) (bv_by_cursor v) (bv_by_ledger v) (bv_ledgers v).
Definition view_tip t v := Build_BootView (bv_cursor v) (bv_fully v) t (bv_in_sync v) (bv_by_cursor v) (bv_by_ledger v) (bv_ledgers v).
Definition view_in_sync b v := Build_BootView (bv_cursor v) (bv_fully v) (bv_tip v) b (bv_by_cursor v) (bv_by_ledger v) (bv_ledgers v).

Definition view_store (p : InsertGetEventsPage) (v : BootView) : BootView :=
  Build_BootView (bv_cursor v) (bv_fully v) (bv_tip v) (bv_in_sync v)
    (match ip_cursor_in p with Some c => <[c := ip_result p]> (bv_by_cursor v) | None => bv_by_cursor v end)
    (match ip_cursor_in p, ip_start_ledger p with None, Some l => <[l := ip_result p]> (bv_by_ledger v) | _, _ => bv_by_ledger v end)
    (match ip_last_event_ledger p with Some l => (ip_cursor_out p, l) :: bv_ledgers v | None => bv_ledgers v end).

Definition kv_of (v : BootView) : KvState :=
  {| kv_last_cursor := bv_cursor v; kv_last_fully_indexed_ledger := bv_fully v; kv_ledger_tip := bv_tip v; kv_in_sync := bv_in_sync v |}.

(** A ledger number as Postgres stores it. *)
Definition ledger_number (l : Z) : Prop := 0 <= l < 2 ^ 31.

Definition opt_ledger (l : option Z) : Prop := match l with Some l => ledger_number l | None => True end.

(** The place of a page is free. *)
Definition place_free (p : InsertGetEventsPage) (v : BootView) : Prop :=
  match ip_cursor_in p, ip_start_ledger p with
  | Some c, _ => bv_by_cursor v !! c = None
  | None, Some l => bv_by_ledger v !! l = None
  | None, None => True
  end.

Definition page_ledgers (p : InsertGetEventsPage) : Prop :=
  opt_ledger (ip_start_ledger p) /\ opt_ledger (ip_last_event_ledger p) /\ ledger_number (ip_latest_ledger p) /\ ledger_number (ip_oldest_ledger p).

Class BootRepr (St : Type) : Type := boot_repr : St -> BootView -> Prop.

(** An operation of a store, run in a state: its answer and the view it leaves satisfy [Q]. *)
Definition outcome {St A} {R : BootRepr St} (m : IO St BootStorageError A) (s : St) (Q : result BootStorageError A -> BootView -> Prop) : Prop :=
  exists r s' v, m s = (r, s') /\ boot_repr s' v /\ Q r v.

(** The operation is done and answered, or it fails: before it is done, or after. *)
Definition does {A} (v v' : BootView) (ok : A -> Prop) (r : result BootStorageError A) (x : BootView) : Prop :=
  match r with Ok a => ok a /\ x = v' | Err _ => x = v \/ x = v' end.

Definition ledger_found (v : BootView) (c : string) (o : option Z) : Prop :=
  match o with Some l => (c, l) ∈ bv_ledgers v | None => forall l, (c, l) ∉ bv_ledgers v end.

(** What a store promises to the service, when every operation may fail.  A page for a taken
    place may replace the one there. *)
Class BootFaultLaws {St : Type} (B : BootStorage St) (R : BootRepr St) : Prop := {
  bf_ping s v : boot_repr s v -> outcome bs_ping s (does v v (fun _ => True));
  bf_kv s v : boot_repr s v -> outcome bs_load_kv s (does v v (fun kv => kv = kv_of v));
  bf_cursor s v c : boot_repr s v -> outcome (bs_update_cursor c) s (does v (view_cursor c v) (fun _ => True));
  bf_fully s v l : boot_repr s v -> ledger_number l -> outcome (bs_set_last_fully_indexed_ledger l) s (does v (view_fully l v) (fun _ => True));
  bf_tip s v t : boot_repr s v -> ledger_number t -> outcome (bs_set_ledger_tip t) s (does v (view_tip t v) (fun _ => True));
  bf_in_sync s v b : boot_repr s v -> outcome (bs_set_in_sync b) s (does v (view_in_sync b v) (fun _ => True));
  bf_lookup s v c : boot_repr s v -> outcome (bs_lookup_last_event_ledger_for_cursor c) s (does v v (ledger_found v c));
  bf_by_cursor s v c : boot_repr s v -> outcome (bs_get_cached_get_events_by_cursor c) s (does v v (fun o => o = bv_by_cursor v !! c));
  bf_by_ledger s v l : boot_repr s v -> outcome (bs_get_cached_get_events_by_start_ledger l) s (does v v (fun o => o = bv_by_ledger v !! l));
  bf_store s v p : boot_repr s v -> page_ledgers p -> outcome (bs_store_get_events_page p) s (does v (view_store p v) (fun _ => True));
}.

(** What it promises when it answers: only a page for a taken place, and a ledger too large for
    it, may be refused. *)
Class BootStorageLaws {St : Type} (B : BootStorage St) (R : BootRepr St) : Prop := {
  bl_ping s v : boot_repr s v -> bs_ping s = (Ok tt, s);
  bl_kv s v : boot_repr s v -> bs_load_kv s = (Ok (kv_of v), s);
  bl_cursor s v c : boot_repr s v -> exists s', bs_update_cursor c s = (Ok tt, s') /\ boot_repr s' (view_cursor c v);
  bl_fully s v l : boot_repr s v -> ledger_number l -> exists s', bs_set_last_fully_indexed_ledger l s = (Ok tt, s') /\ boot_repr s' (view_fully l v);
  bl_tip s v t : boot_repr s v -> ledger_number t -> exists s', bs_set_ledger_tip t s = (Ok tt, s') /\ boot_repr s' (view_tip t v);
  bl_in_sync s v b : boot_repr s v -> exists s', bs_set_in_sync b s = (Ok tt, s') /\ boot_repr s' (view_in_sync b v);
  bl_lookup s v c : boot_repr s v -> exists o, bs_lookup_last_event_ledger_for_cursor c s = (Ok o, s) /\ ledger_found v c o;
  bl_by_cursor s v c : boot_repr s v -> bs_get_cached_get_events_by_cursor c s = (Ok (bv_by_cursor v !! c), s);
  bl_by_ledger s v l : boot_repr s v -> ledger_number l -> bs_get_cached_get_events_by_start_ledger l s = (Ok (bv_by_ledger v !! l), s);
  bl_by_any_ledger s v l : boot_repr s v -> outcome (bs_get_cached_get_events_by_start_ledger l) s (does v v (fun o => o = bv_by_ledger v !! l));
  bl_store s v p : boot_repr s v -> page_ledgers p -> place_free p v -> exists s', bs_store_get_events_page p s = (Ok tt, s') /\ boot_repr s' (view_store p v);
  bl_store_anywhere s v p : boot_repr s v -> page_ledgers p -> outcome (bs_store_get_events_page p) s (does v (view_store p v) (fun _ => True));
}.

Lemma outcome_ok {St A} {R : BootRepr St} (m : IO St BootStorageError A) s a s' v v' (ok : A -> Prop) : m s = (Ok a, s') -> boot_repr s' v' -> ok a -> outcome m s (does v v' ok).
Proof. intros E H Ha. exists (Ok a), s', v'. split_and!; [exact E | exact H | by split]. Qed.

Lemma outcome_err {St A} {R : BootRepr St} (m : IO St BootStorageError A) s e s' v v' (ok : A -> Prop) : m s = (Err e, s') -> boot_repr s' v -> outcome m s (does v v' ok).
Proof. intros E H. exists (Err e), s', v. split_and!; [exact E | exact H | by left]. Qed.

Lemma outcome_bind {St A C} {R : BootRepr St} (m : IO St BootStorageError A) (k : A -> IO St BootStorageError C) s Q Q' :
  outcome m s Q -> (forall a s1 v1, boot_repr s1 v1 -> Q (Ok a) v1 -> outcome (k a) s1 Q') -> (forall e v1, Q (Err e) v1 -> Q' (Err e) v1) -> outcome (m ≫= k) s Q'.
Proof.
  intros (r & s1 & v1 & E & H1 & Hq) Hk He. destruct r as [a|e].
  - destruct (Hk a s1 v1 H1 Hq) as (r & s2 & v2 & E2 & H2 & Hq2). exists r, s2, v2. split_and!; [| done | done]. by rewrite (io_bind_run _ _ _ _ _ E).
  - exists (Err e), s1, v1. split_and!; [by apply io_bind_fail | exact H1 | by apply He].
Qed.

(** A store that answers is one that may fail. *)
Lemma reliable_store {St} {B : BootStorage St} {R : BootRepr St} (BL : BootStorageLaws B R) : BootFaultLaws B R.
Proof.
  split; intros s v.
  - intros H. exact (outcome_ok _ s tt s v v _ (bl_ping s v H) H I).
  - intros H. exact (outcome_ok _ s _ s v v _ (bl_kv s v H) H eq_refl).
  - intros c H. destruct (bl_cursor s v c H) as (s' & E & H'). exact (outcome_ok _ s tt s' v _ _ E H' I).
  - intros l H Hl. destruct (bl_fully s v l H Hl) as (s' & E & H'). exact (outcome_ok _ s tt s' v _ _ E H' I).
  - intros t H Hl. destruct (bl_tip s v t H Hl) as (s' & E & H'). exact (outcome_ok _ s tt s' v _ _ E H' I).
  - intros b H. destruct (bl_in_sync s v b H) as (s' & E & H'). exact (outcome_ok _ s tt s' v _ _ E H' I).
  - intros c H. destruct (bl_lookup s v c H) as (o & E & Ho). exact (outcome_ok _ s o s v v _ E H Ho).
  - intros c H. exact (outcome_ok _ s _ s v v _ (bl_by_cursor s v c H) H eq_refl).
  - intros l H. exact (bl_by_any_ledger s v l H).
  - intros p H Hp. exact (bl_store_anywhere s v p H Hp).
Qed.

(** *** In memory *)

#[export] Instance in_memory_repr : BootRepr InMemory := fun s v =>
  im_last_cursor s = bv_cursor v /\ im_last_fully_indexed_ledger s = bv_fully v /\ im_ledger_tip s = bv_tip v /\ im_in_sync s = bv_in_sync v /\
  cache_by_cursor_in s = bv_by_cursor v /\ cache_by_start_ledger s = bv_by_ledger v /\
  forall c, match ledger_by_cursor_out s !! c with Some l => (c, l) ∈ bv_ledgers v | None => forall l, (c, l) ∉ bv_ledgers v end.

Lemma in_memory_new_repr : boot_repr InMemory_new empty_view.
Proof. repeat split. intros c. cbn. rewrite lookup_empty. intros l. apply not_elem_of_nil. Qed.

Lemma in_memory_store_repr s v p : boot_repr s v -> boot_repr (im_store_get_events_page p s).2 (view_store p v).
Proof.
  intros (H1 & H2 & H3 & H4 & H5 & H6 & H7). unfold view_store. repeat split; cbn; rewrite ?H5, ?H6; try assumption; try reflexivity.
  intros x. destruct (ip_last_event_ledger p) as [l|]; [| exact (H7 x)]. destruct (decide (ip_cursor_out p = x)) as [<-|Hne].
  - rewrite lookup_insert_eq. apply list_elem_of_here.
  - rewrite lookup_insert_ne by exact Hne. specialize (H7 x). destruct (ledger_by_cursor_out s !! x); [by apply list_elem_of_further |].
    intros l' [E|Hin]%elem_of_cons; [apply Hne; congruence | by apply (H7 l')].
Qed.

#[export] Instance in_memory_laws : BootStorageLaws in_memory_storage in_memory_repr.
Proof.
  assert (forall s v l, boot_repr s v -> bs_get_cached_get_events_by_start_ledger l s = (Ok (bv_by_ledger v !! l), s)) as Hledger.
  { intros s v l (_ & _ & _ & _ & _ & H6 & _). cbn. unfold with_state. by rewrite H6. }
  split; intros s v; lazymatch goal with |- boot_repr _ _ -> _ => intros H | _ => intros c H end; pose proof H as (H1 & H2 & H3 & H4 & H5 & H6 & H7).
  - reflexivity.
  - cbn. unfold im_load_kv, with_state, kv_of. by rewrite H1, H2, H3, H4.
  - eexists. split; [reflexivity |]. repeat split; try assumption.
  - intros _. eexists. split; [reflexivity |]. repeat split; try assumption.
  - intros _. eexists. split; [reflexivity |]. repeat split; try assumption.
  - eexists. split; [reflexivity |]. repeat split; try assumption.
  - eexists. split; [reflexivity | exact (H7 c)].
  - cbn. unfold with_state. by rewrite H5.
  - intros _. by apply Hledger.
  - exact (outcome_ok _ s _ s v v _ (Hledger s v c H) H eq_refl).
  - intros _ _. eexists. split; [reflexivity |]. by apply in_memory_store_repr.
  - intros _. exact (outcome_ok _ s tt _ v _ _ eq_refl (in_memory_store_repr s v c H) I).
Qed.

(** *** In Postgres *)

Section PostgresLaws.

Context {L : PgLimit} {LL : PgLimitLaws L}.

(** The rows hold the pages of the view, at the places of the view. *)
Record pages_repr (rows : list PageRow) (v : BootView) : Prop := {
  pr_rows : forall r, r ∈ rows -> match pr_cursor_in r, pr_start_ledger r with
    | Some c, _ => bv_by_cursor v !! c = Some (pr_result r) | None, Some l => bv_by_ledger v !! l = Some (pr_result r) | None, None => True end;
  pr_by_cursor : forall c p, bv_by_cursor v !! c = Some p -> exists r, r ∈ rows /\ pr_cursor_in r = Some c;
  pr_by_ledger : forall l p, bv_by_ledger v !! l = Some p -> exists r, r ∈ rows /\ pr_cursor_in r = None /\ pr_start_ledger r = Some l;
  pr_ledgers : forall c l, (c, l) ∈ bv_ledgers v <-> exists r, r ∈ rows /\ pr_cursor_out r = c /\ pr_last_event_ledger r = Some l;
  pr_ledger_numbers : forall c l, (c, l) ∈ bv_ledgers v -> ledger_number l;
}.

(** The tables hold the view, whatever the requests to come meet. *)
Definition postgres_view : BootRepr Postgres := fun s v =>
  pq_last_cursor s = bv_cursor v /\ (pq_last_fully_indexed_ledger s = bv_fully v /\ 0 <= bv_fully v) /\
  (pq_ledger_tip s = bv_tip v /\ 0 <= bv_tip v) /\ pq_in_sync s = bv_in_sync v /\ pages_repr (get_events_pages s) v.

(** They hold the view, and every request is answered. *)
#[export] Instance postgres_repr : BootRepr Postgres := fun s v => pq_ahead s = [] /\ postgres_view s v.

Lemma postgres_init_view outcomes : postgres_view (pg_set_ahead outcomes Postgres_init) empty_view.
Proof.
  assert (pages_repr [] empty_view) as Hp.
  { split; cbn.
    - intros r Hr. by apply not_elem_of_nil in Hr.
    - intros c p Hp. by rewrite lookup_empty in Hp.
    - intros l p Hp. by rewrite lookup_empty in Hp.
    - intros c l. split; [intros H; by apply not_elem_of_nil in H | intros (r & Hr & _); by apply not_elem_of_nil in Hr].
    - intros c l H. by apply not_elem_of_nil in H. }
  unfold postgres_view. cbn. auto 8 using Z.le_refl.
Qed.

Lemma postgres_init_repr : boot_repr Postgres_init empty_view.
Proof. split; [done | exact (postgres_init_view [])]. Qed.

Lemma limit_one_None l : limit_one l = None -> l = [].
Proof using LL. intros H. destruct l as [|r l]; [done |]. destruct (limit_one_row (r :: l)) as (x & Hx & _); [done |]. congruence. Qed.

Lemma limit_one_Some l r : limit_one l = Some r -> r ∈ l.
Proof using LL.
  intros H. destruct l as [|x l]; [rewrite limit_one_nil in H; discriminate H |]. destruct (limit_one_row (x :: l)) as (y & Hy & Hin); [done |]. congruence.
Qed.

Lemma pg_integer_run what l (s : Postgres) : ledger_number l -> pg_integer what l s = (Ok l, s).
Proof.
  intros [H1 H2]. unfold pg_integer, io_result, try_into_i. rewrite (proj2 (fits_i_spec 32 l)); [done |]. cbn in *. lia.
Qed.

Lemma pg_integer_opt_run what l (s : Postgres) : opt_ledger l -> pg_integer_opt what l s = (Ok l, s).
Proof. destruct l as [l|]; [| done]. intros H. unfold pg_integer_opt. by rewrite (io_bind_run _ _ _ _ _ (pg_integer_run what l s H)). Qed.

Lemma pool_get_run s : pq_ahead s = [] -> pool_get s = (Ok tt, s).
Proof. intros H. unfold pool_get, pg_next. by rewrite H. Qed.

Lemma pg_statement_run {A} (f : IO Postgres BootStorageError A) s : pq_ahead s = [] -> pg_statement f s = f s.
Proof. intros H. unfold pg_statement, pg_next. by rewrite H. Qed.

Lemma pg_query_run {A} (f : Postgres -> A) s : pq_ahead s = [] -> pg_query f s = (Ok (f s), s).
Proof. intros H. unfold pg_query. by rewrite (io_bind_run _ _ _ _ _ (pool_get_run s H)), pg_statement_run. Qed.

Lemma pg_execute_run f s : pq_ahead s = [] -> pg_execute f s = (Ok tt, f s).
Proof. intros H. unfold pg_execute. by rewrite (io_bind_run _ _ _ _ _ (pool_get_run s H)), pg_statement_run. Qed.

(** *** Requests that may fail *)

Local Abbreviation pg_outcome := (outcome (R := postgres_view)).

Lemma pool_get_outcome s v : postgres_view s v -> pg_outcome pool_get s (does v v (fun _ => True)).
Proof.
  intros H. unfold outcome, boot_repr, pool_get, pg_next. destruct (pq_ahead s) as [|[| |] l]; (eexists _, _, v; split; [reflexivity |]; split; [exact H |]); [by split | by split | by left | by left].
Qed.

Lemma pg_statement_outcome {A} (f : IO Postgres BootStorageError A) s v v' ok :
  (forall s, postgres_view s v -> pg_outcome f s (does v v' ok)) -> postgres_view s v -> pg_outcome (pg_statement f) s (does v v' ok).
Proof.
  intros Hf H. unfold pg_statement, pg_next. unfold outcome at 1. destruct (pq_ahead s) as [|o l]; [exact (Hf s H) |].
  destruct (Hf (pg_set_ahead l s) H) as (r & s' & x & E & Hx & Hr). destruct o.
  - exists r, s', x. by rewrite E.
  - exists (Err PgStatement), (pg_set_ahead l s), v. split_and!; [done | exact H | by left].
  - exists (Err PgStatement), s', x. rewrite E. split_and!; [done | exact Hx |]. destruct r as [a|e]; [destruct Hr as [_ ->]; by right | exact Hr].
Qed.

(** A connection, then a statement on it. *)
Lemma pg_request_outcome {A} (f : IO Postgres BootStorageError A) s v v' ok :
  (forall s, postgres_view s v -> pg_outcome f s (does v v' ok)) -> postgres_view s v -> pg_outcome (pool_get;; pg_statement f) s (does v v' ok).
Proof.
  intros Hf H. eapply outcome_bind; [by apply pool_get_outcome | |].
  - intros [] s1 v1 H1 [_ ->]. by apply pg_statement_outcome.
  - intros e v1 [->| ->]; by left.
Qed.

Lemma pg_query_outcome {A} (f : Postgres -> A) s v (ok : A -> Prop) : (forall s, postgres_view s v -> ok (f s)) -> postgres_view s v -> pg_outcome (pg_query f) s (does v v ok).
Proof. intros Hf. apply pg_request_outcome. intros s1 H1. apply (outcome_ok (R := postgres_view) _ s1 (f s1) s1); auto. Qed.

Lemma pg_execute_outcome f s v v' : (forall s, postgres_view s v -> postgres_view (f s) v') -> postgres_view s v -> pg_outcome (pg_execute f) s (does v v' (fun _ => True)).
Proof. intros Hf. apply pg_request_outcome. intros s1 H1. apply (outcome_ok (R := postgres_view) _ s1 tt (f s1)); [reflexivity | by apply Hf | done]. Qed.

(** What an operation makes of the rows it read. *)
Lemma outcome_answer {A C} (m : IO Postgres BootStorageError A) (f : A -> C) s v (ok : A -> Prop) (ok' : C -> Prop) :
  pg_outcome m s (does v v ok) -> (forall a, ok a -> ok' (f a)) -> pg_outcome (x ← m; mret (f x)) s (does v v ok').
Proof.
  intros Hm Hf. eapply outcome_bind; [exact Hm | |]; [| intros e v1 [->| ->]; by left].
  intros a s1 v1 H1 [Ha ->]. apply (outcome_ok (R := postgres_view) _ s1 (f a) s1); auto.
Qed.

(** A number is checked before the connection is taken. *)
Lemma pg_integer_outcome {A} what l (k : Z -> IO Postgres BootStorageError A) s v v' ok :
  postgres_view s v -> pg_outcome (k l) s (does v v' ok) -> pg_outcome (pg_integer what l ≫= k) s (does v v' ok).
Proof.
  intros H Hk. unfold pg_integer, io_result, try_into_i. destruct (fits_i 32 l) eqn:E; cbn [ok_or].
  - exact Hk.
  - by apply (outcome_err (R := postgres_view) _ s (PgIntegerRange what) s).
Qed.

Lemma cached_row (f : list PageRow) (P : PageRow -> Prop) `{forall r, Decision (P r)} (o : option BootEventsResponse) :
  (forall r, r ∈ f -> P r -> o = Some (pr_result r)) -> (is_Some o -> exists r, r ∈ f /\ P r) -> pr_result <$> limit_one (filter P f) = o.
Proof using LL.
  intros Hr Ho. destruct (limit_one (filter P f)) as [r|] eqn:E.
  - apply limit_one_Some, list_elem_of_filter in E as [HP Hin]. symmetry. by apply Hr.
  - apply limit_one_None in E. destruct o as [p|]; [| done]. destruct Ho as (r & Hin & HP); [by eexists |].
    assert (r ∈ filter P f) as Hf by (by apply list_elem_of_filter). rewrite E in Hf. by apply not_elem_of_nil in Hf.
Qed.

(** A page at a free place is a new row. *)
Lemma pages_repr_store rows v p row : pages_repr rows v -> page_ledgers p -> place_free p v ->
  pr_cursor_in row = ip_cursor_in p -> pr_start_ledger row = ip_start_ledger p -> pr_result row = ip_result p -> pr_cursor_out row = ip_cursor_out p ->
  pr_last_event_ledger row = ip_last_event_ledger p ->
  existsb (page_clash row) rows = false /\ pages_repr (rows ++ [row]) (view_store p v).
Proof.
  intros [R1 R2 R3 R4 R5] (_ & Hl & _) Hfree E1 E2 E3 E4 E5. unfold place_free in Hfree. split.
  - destruct (existsb _ _) eqn:E; [| done]. apply existsb_exists in E as (r & Hr%list_elem_of_In & E). specialize (R1 r Hr). unfold page_clash in E. rewrite E1, E2 in E.
    destruct (ip_cursor_in p) as [c|], (pr_cursor_in r) as [c'|]; try discriminate E; [apply bool_decide_eq_true in E; congruence |].
    destruct (ip_start_ledger p) as [l|], (pr_start_ledger r) as [l'|]; try discriminate E. apply Z.eqb_eq in E. congruence.
  - unfold view_store. split; cbn.
    + intros r [Hr | ->%list_elem_of_singleton]%elem_of_app.
      * specialize (R1 r Hr). destruct (ip_cursor_in p) as [c|], (pr_cursor_in r) as [c'|]; try exact R1.
        -- rewrite lookup_insert_ne; [exact R1 | congruence].
        -- destruct (ip_start_ledger p) as [l|], (pr_start_ledger r) as [l'|]; try exact R1. rewrite lookup_insert_ne; [exact R1 | congruence].
      * rewrite E1, E2, E3. destruct (ip_cursor_in p); [by rewrite lookup_insert_eq |]. destruct (ip_start_ledger p); [by rewrite lookup_insert_eq | done].
    + intros c q. destruct (ip_cursor_in p) as [c'|]; [intros [[<- _]|[_ Hq]]%lookup_insert_Some; [exists row; rewrite elem_of_app, list_elem_of_singleton; auto |] | intros Hq];
        (destruct (R2 c q Hq) as (r & Hr & Er); exists r; rewrite elem_of_app; auto).
    + intros l q. destruct (ip_cursor_in p) as [c'|]; [intros Hq | destruct (ip_start_ledger p) as [l'|]; [intros [[<- _]|[_ Hq]]%lookup_insert_Some; [exists row; rewrite elem_of_app, list_elem_of_singleton; auto |] | intros Hq]];
        (destruct (R3 l q Hq) as (r & Hr & Er); exists r; rewrite elem_of_app; auto).
    + intros c l. transitivity ((exists r, r ∈ rows /\ pr_cursor_out r = c /\ pr_last_event_ledger r = Some l) \/ pr_cursor_out row = c /\ pr_last_event_ledger row = Some l).
      * rewrite <- R4, E4, E5. destruct (ip_last_event_ledger p) as [l'|]; [| split; [auto | intros [?|[_ ?]]; done]].
        rewrite elem_of_cons. split; [intros [[= <- <-]|?]; auto | intros [?|[<- [= <-]]]; auto].
      * split; [intros [(r & Hr & Er)|Er]; [exists r | exists row]; rewrite elem_of_app, list_elem_of_singleton; auto |].
        intros (r & [Hr | ->%list_elem_of_singleton]%elem_of_app & Er); [left; by exists r | by right].
    + intros c l. destruct (ip_last_event_ledger p) as [l'|]; [intros [[= _ ->]|Hin]%elem_of_cons; [exact Hl | by apply (R5 c)] | apply R5].
Qed.

(** *** The tables and the view *)

(** The rows are those of a view with the same pages. *)
Ltac keep_pages := unfold postgres_view; intros (H2 & [H3 H3'] & [H4 H4'] & H5 & H6); split_and!; try assumption; try reflexivity; destruct H6; split; assumption.

Definition pg_cursor_set (c : string) (s : Postgres) : Postgres :=
  Build_Postgres (pq_ahead s) (Some c) (pq_last_fully_indexed_ledger s) (pq_ledger_tip s) (pq_in_sync s) (get_events_pages s).

Lemma view_of_cursor c s v : postgres_view s v -> postgres_view (pg_cursor_set c s) (view_cursor c v).
Proof. keep_pages. Qed.

Lemma view_of_fully l s v : ledger_number l -> postgres_view s v ->
  postgres_view (Build_Postgres (pq_ahead s) (pq_last_cursor s) l (pq_ledger_tip s) (pq_in_sync s) (get_events_pages s)) (view_fully l v).
Proof. intros []. keep_pages. Qed.

Lemma view_of_tip t s v : ledger_number t -> postgres_view s v ->
  postgres_view (Build_Postgres (pq_ahead s) (pq_last_cursor s) (pq_last_fully_indexed_ledger s) t (pq_in_sync s) (get_events_pages s)) (view_tip t v).
Proof. intros []. keep_pages. Qed.

Lemma view_of_in_sync b s v : postgres_view s v ->
  postgres_view (Build_Postgres (pq_ahead s) (pq_last_cursor s) (pq_last_fully_indexed_ledger s) (pq_ledger_tip s) b (get_events_pages s)) (view_in_sync b v).
Proof. keep_pages. Qed.

Lemma view_kv s v : postgres_view s v ->
  {| kv_last_cursor := pq_last_cursor s; kv_last_fully_indexed_ledger := Z.max (pq_last_fully_indexed_ledger s) 0; kv_ledger_tip := Z.max (pq_ledger_tip s) 0; kv_in_sync := pq_in_sync s |} = kv_of v.
Proof. intros (H2 & [H3 H3'] & [H4 H4'] & H5 & _). unfold kv_of. by rewrite H2, H3, H4, H5, !Z.max_l by assumption. Qed.

Lemma view_lookup c s v : postgres_view s v ->
  ledger_found v c (r ← limit_one (filter (fun r => pr_cursor_out r = c /\ is_Some (pr_last_event_ledger r)) (get_events_pages s)); l ← pr_last_event_ledger r; Some (Z.max l 0)).
Proof using LL.
  intros (_ & _ & _ & _ & H6). destruct (limit_one _) as [r|] eqn:E.
  - apply limit_one_Some, list_elem_of_filter in E as [[Hc [l Hl]] Hr]. cbn. rewrite Hl. cbn. rewrite <- Hc.
    assert ((pr_cursor_out r, l) ∈ bv_ledgers v) as Hin by (apply (pr_ledgers _ _ H6); by exists r). rewrite Z.max_l; [exact Hin | apply (pr_ledger_numbers _ _ H6 _ _ Hin)].
  - apply limit_one_None in E. cbn. intros l Hin. apply (pr_ledgers _ _ H6) in Hin as (r & Hr & Hc & Hl).
    assert (r ∈ filter (fun r => pr_cursor_out r = c /\ is_Some (pr_last_event_ledger r)) (get_events_pages s)) as Hf by (apply list_elem_of_filter; split; [by rewrite Hl | exact Hr]).
    rewrite E in Hf. by apply not_elem_of_nil in Hf.
Qed.

Lemma view_by_cursor c s v : postgres_view s v -> pr_result <$> limit_one (filter (fun r => pr_cursor_in r = Some c) (get_events_pages s)) = bv_by_cursor v !! c.
Proof using LL.
  intros (_ & _ & _ & _ & H6). apply cached_row.
  - intros r Hr Hc. pose proof (pr_rows _ _ H6 r Hr) as Hp. by rewrite Hc in Hp.
  - intros [p Hp]. exact (pr_by_cursor _ _ H6 c p Hp).
Qed.

Lemma view_by_ledger l s v : postgres_view s v ->
  pr_result <$> limit_one (filter (fun r => pr_cursor_in r = None /\ pr_start_ledger r = Some l) (get_events_pages s)) = bv_by_ledger v !! l.
Proof using LL.
  intros (_ & _ & _ & _ & H6). apply cached_row.
  - intros r Hr [Hn Hl]. pose proof (pr_rows _ _ H6 r Hr) as Hp. by rewrite Hn, Hl in Hp.
  - intros [p Hp]. exact (pr_by_ledger _ _ H6 l p Hp).
Qed.

(** The statement that stores a page, on the row of that page. *)
Definition pg_insert (row : PageRow) : IO Postgres BootStorageError unit := io_do (fun s =>
  if existsb (page_clash row) (get_events_pages s) then (Err PgUniqueIndex, s)
  else (Ok tt, Build_Postgres (pq_ahead s) (pq_last_cursor s) (pq_last_fully_indexed_ledger s) (pq_ledger_tip s) (pq_in_sync s) (get_events_pages s ++ [row]))).

Definition page_row (p : InsertGetEventsPage) : PageRow :=
  {| pr_cursor_in := ip_cursor_in p; pr_start_ledger := ip_start_ledger p; pr_request := ip_request p; pr_result := ip_result p; pr_cursor_out := ip_cursor_out p;
     pr_last_event_ledger := ip_last_event_ledger p; pr_latest_ledger := ip_latest_ledger p; pr_oldest_ledger := ip_oldest_ledger p |}.

Lemma pg_insert_free s v p : postgres_view s v -> page_ledgers p -> place_free p v ->
  exists s', pg_insert (page_row p) s = (Ok tt, s') /\ pq_ahead s' = pq_ahead s /\ postgres_view s' (view_store p v).
Proof.
  intros (H2 & H3 & H4 & H5 & H6) Hp Hf. unfold pg_insert, io_do.
  destruct (pages_repr_store (get_events_pages s) v p (page_row p) H6 Hp Hf) as [-> Hr]; try reflexivity.
  eexists. split; [reflexivity |]. split; [reflexivity |]. unfold postgres_view, view_store in *. cbn [bv_cursor bv_fully bv_tip bv_in_sync] in *. auto 8.
Qed.

(** The unique indexes refuse a page whose place is taken. *)
Lemma pg_insert_taken s v p : postgres_view s v -> ~ place_free p v -> pg_insert (page_row p) s = (Err PgUniqueIndex, s).
Proof.
  intros (_ & _ & _ & _ & H6) Hf. unfold pg_insert, io_do. destruct (existsb _ _) eqn:E; [done |]. exfalso. apply Hf. unfold place_free.
  assert (forall r, r ∈ get_events_pages s -> page_clash (page_row p) r = false) as Hno.
  { intros r Hr. destruct (page_clash (page_row p) r) eqn:Ec; [| done]. rewrite <- E. symmetry. apply existsb_exists. exists r. split; [by apply list_elem_of_In | exact Ec]. }
  unfold page_clash, page_row in Hno. cbn [pr_cursor_in pr_start_ledger] in Hno. destruct (ip_cursor_in p) as [c|].
  - destruct (bv_by_cursor v !! c) as [q|] eqn:Eq; [| done]. destruct (pr_by_cursor _ _ H6 c q Eq) as (r & Hr & Ec). specialize (Hno r Hr). rewrite Ec, bool_decide_eq_true_2 in Hno by done. discriminate Hno.
  - destruct (ip_start_ledger p) as [l|]; [| done]. destruct (bv_by_ledger v !! l) as [q|] eqn:Eq; [| done].
    destruct (pr_by_ledger _ _ H6 l q Eq) as (r & Hr & Ec & El). specialize (Hno r Hr). rewrite Ec, El, Z.eqb_refl in Hno. discriminate Hno.
Qed.

Lemma place_free_dec p v : Decision (place_free p v).
Proof. unfold place_free. destruct (ip_cursor_in p), (ip_start_ledger p); exact _. Defined.

Lemma pg_insert_outcome s v p : page_ledgers p -> postgres_view s v -> pg_outcome (pg_insert (page_row p)) s (does v (view_store p v) (fun _ => True)).
Proof.
  intros Hp H. destruct (place_free_dec p v) as [Hf|Hf].
  - destruct (pg_insert_free s v p H Hp Hf) as (s' & E & _ & Hs'). exact (outcome_ok (R := postgres_view) _ s tt s' v _ _ E Hs' I).
  - exact (outcome_err (R := postgres_view) _ s _ s v _ _ (pg_insert_taken s v p H Hf) H).
Qed.

Lemma pq_store_run p s : page_ledgers p -> pq_store_get_events_page p s = (pool_get;; pg_statement (pg_insert (page_row p))) s.
Proof.
  intros (P1 & P2 & P3 & P4). unfold pq_store_get_events_page.
  by rewrite (io_bind_run _ _ _ _ _ (pg_integer_opt_run _ _ s P1)), (io_bind_run _ _ _ _ _ (pg_integer_opt_run _ _ s P2)), (io_bind_run _ _ _ _ _ (pg_integer_run _ _ s P3)),
    (io_bind_run _ _ _ _ _ (pg_integer_run _ _ s P4)).
Qed.

(** *** The laws *)

Lemma postgres_faults : BootFaultLaws postgres_storage postgres_view.
Proof using LL.
  split; intros s v; lazymatch goal with |- boot_repr _ _ -> _ => intros H | _ => intros c H end.
  - by apply pg_query_outcome.
  - apply pg_query_outcome; [| exact H]. intros s1 H1. by apply view_kv.
  - apply pg_execute_outcome; [| exact H]. intros s1 H1. by apply view_of_cursor.
  - intros Hc. apply pg_integer_outcome; [exact H |]. apply pg_execute_outcome; [| exact H]. intros s1 H1. by apply view_of_fully.
  - intros Hc. apply pg_integer_outcome; [exact H |]. apply pg_execute_outcome; [| exact H]. intros s1 H1. by apply view_of_tip.
  - apply pg_execute_outcome; [| exact H]. intros s1 H1. by apply view_of_in_sync.
  - eapply outcome_answer; [| intros row Hrow; exact Hrow]. apply pg_query_outcome; [| exact H]. intros s1 H1. by apply view_lookup.
  - eapply outcome_answer; [| intros row Hrow; exact Hrow]. apply pg_query_outcome; [| exact H]. intros s1 H1. by apply view_by_cursor.
  - apply pg_integer_outcome; [exact H |]. eapply outcome_answer; [| intros row Hrow; exact Hrow]. apply pg_query_outcome; [| exact H]. intros s1 H1. by apply view_by_ledger.
  - intros Hp. unfold outcome. cbn [bs_store_get_events_page postgres_storage]. rewrite pq_store_run by exact Hp. apply pg_request_outcome; [| exact H]. intros s1 H1. by apply pg_insert_outcome.
Qed.

(** Where nothing fails, the calm state is kept. *)
Lemma calm_outcome {A} (m : IO Postgres BootStorageError A) s v v' ok : pg_outcome m s (does v v' ok) -> pq_ahead (m s).2 = [] -> outcome (R := postgres_repr) m s (does v v' ok).
Proof. intros (r & s' & x & E & Hx & Hr) Hc. exists r, s', x. rewrite E in Hc. by split_and!; [| split |]. Qed.

#[export] Instance postgres_laws : BootStorageLaws postgres_storage postgres_repr.
Proof using LL.
  split; intros s v; lazymatch goal with |- boot_repr _ _ -> _ => intros [H1 H] | _ => intros c [H1 H] end.
  - exact (pg_query_run _ s H1).
  - cbn [bs_load_kv postgres_storage]. unfold pq_load_kv. rewrite pg_query_run by exact H1. by rewrite (view_kv s v H).
  - eexists. split; [exact (pg_execute_run _ s H1) |]. split; [exact H1 | by apply view_of_cursor].
  - intros Hc. cbn [bs_set_last_fully_indexed_ledger postgres_storage]. unfold pq_set_last_fully_indexed_ledger. rewrite (io_bind_run _ _ _ _ _ (pg_integer_run _ c s Hc)), pg_execute_run by exact H1.
    eexists. split; [reflexivity |]. split; [exact H1 | by apply view_of_fully].
  - intros Hc. cbn [bs_set_ledger_tip postgres_storage]. unfold pq_set_ledger_tip. rewrite (io_bind_run _ _ _ _ _ (pg_integer_run _ c s Hc)), pg_execute_run by exact H1.
    eexists. split; [reflexivity |]. split; [exact H1 | by apply view_of_tip].
  - eexists. split; [exact (pg_execute_run _ s H1) |]. split; [exact H1 | by apply view_of_in_sync].
  - eexists. split; [| exact (view_lookup c s v H)]. cbn [bs_lookup_last_event_ledger_for_cursor postgres_storage]. unfold pq_lookup_last_event_ledger_for_cursor.
    by rewrite (io_bind_run _ _ _ _ _ (pg_query_run _ s H1)).
  - cbn [bs_get_cached_get_events_by_cursor postgres_storage]. unfold pq_get_cached_get_events_by_cursor. rewrite (io_bind_run _ _ _ _ _ (pg_query_run _ s H1)).
    unfold mret, io_ret. by rewrite (view_by_cursor c s v H).
  - intros Hc. cbn [bs_get_cached_get_events_by_start_ledger postgres_storage]. unfold pq_get_cached_get_events_by_start_ledger.
    rewrite (io_bind_run _ _ _ _ _ (pg_integer_run _ c s Hc)), (io_bind_run _ _ _ _ _ (pg_query_run _ s H1)). unfold mret, io_ret. by rewrite (view_by_ledger c s v H).
  - apply calm_outcome; [exact (@bf_by_ledger _ _ _ postgres_faults s v c H) |]. cbn [bs_get_cached_get_events_by_start_ledger postgres_storage]. unfold pq_get_cached_get_events_by_start_ledger.
    unfold pg_integer, io_result. destruct (try_into_i 32 c); cbn [ok_or]; [| exact H1]. by rewrite (io_bind_run _ _ s _ s eq_refl), (io_bind_run _ _ _ _ _ (pg_query_run _ s H1)).
  - intros Hp Hf. cbn [bs_store_get_events_page postgres_storage]. rewrite pq_store_run, (io_bind_run _ _ _ _ _ (pool_get_run s H1)), pg_statement_run by done.
    destruct (pg_insert_free s v c H Hp Hf) as (s' & E & Ha & Hs'). exists s'. split; [exact E |]. split; [by rewrite Ha | exact Hs'].
  - intros Hp. apply calm_outcome; [exact (@bf_store _ _ _ postgres_faults s v c H Hp) |]. cbn [bs_store_get_events_page postgres_storage].
    rewrite pq_store_run, (io_bind_run _ _ _ _ _ (pool_get_run s H1)), pg_statement_run by done. unfold pg_insert, io_do. by destruct (existsb _ _).
Qed.

End PostgresLaws.

(** ** The upstream node *)

(** The log of the contracts' events in a state of the node, and the cursors that stand at a
    position of it. *)
Class UpstreamLog {Up : Type} (U : Upstream Up) : Type := {
  up_log : Up -> list BootEvent;
  cursor_at : string -> nat -> Prop;
  cursor_rank : string -> Z;
}.

(** Where a request starts. *)
Definition starts_page {Up} {U : Upstream Up} {UL : UpstreamLog U} (first : Z) (start_ledger : option Z) (cursor : option string) (k : nat) : Prop :=
  start_ledger = Some first /\ cursor = None /\ k = 0%nat \/ exists c, start_ledger = None /\ cursor = Some c /\ cursor_at c k.

(** Requests may fail.  A page is what of the log lies after its start, up to the limit; the
    answer's cursor stands after the page, and cursors do not go back. *)
Class UpstreamLaws {Up : Type} (U : Upstream Up) (UL : UpstreamLog U) (ids : list string) (first : Z) (limit : nat) : Prop := {
  ul_latest u r u' : up_get_latest_ledger u = (r, u') -> up_log u `prefix_of` up_log u' /\ forall l, r = Ok l -> ledger_number (bl_sequence l);
  ul_grows p u r u' : up_get_events p u = (r, u') -> up_log u `prefix_of` up_log u';
  ul_page u start_ledger cursor k p u' : starts_page first start_ledger cursor k -> up_get_events (for_contracts ids start_ledger cursor limit) u = (Ok p, u') ->
    br_events p = take limit (drop k (up_log u')) /\ cursor_at (br_cursor p) (k + length (br_events p)) /\
    ledger_number (br_latest_ledger p) /\ ledger_number (br_oldest_ledger p);
  ul_forward u c p u' : up_get_events (for_contracts ids None (Some c) limit) u = (Ok p, u') -> cursor_rank c <= cursor_rank (br_cursor p);
  ul_position c k k' : cursor_at c k -> cursor_at c k' -> k = k';
  ul_ledgers u : Forall (fun e => ledger_number (be_ledger e)) (up_log u);
  ul_first : ledger_number first;
}.

(** ** The cache *)

Section Cache.

Context {Up St : Type} {U : Upstream Up} {UL : UpstreamLog U} {B : BootStorage St} {R : BootRepr St} {BL : BootFaultLaws B R} {ET : ErrorText}.
Variable state : AppState.

Local Abbreviation ids := (as_contract_ids state).
Local Abbreviation first := (as_min_deployment_ledger state).
Local Abbreviation limit := (bc_page_size (as_cfg state)).
Local Abbreviation World := (BootWorld Up St).

Context {LA : UpstreamLaws U UL ids first limit}.

(** A page that starts at a position of a log. *)
Record page_at (log : list BootEvent) (k : nat) (p : BootEventsResponse) : Prop := {
  pa_some : br_events p <> [];
  pa_events : br_events p = take (length (br_events p)) (drop k log);
  pa_cursor : cursor_at (br_cursor p) (k + length (br_events p));
}.

Record cache_ok (log : list BootEvent) (v : BootView) : Prop := {
  co_by_cursor : forall c p, bv_by_cursor v !! c = Some p -> exists k, cursor_at c k /\ page_at log k p;
  co_by_ledger : forall l p, bv_by_ledger v !! l = Some p -> l = first /\ page_at log 0 p;
  co_ledgers : forall c l, (c, l) ∈ bv_ledgers v -> exists k e, cursor_at c (S k) /\ log !! k = Some e /\ be_ledger e = l;
  co_cursor : forall c, bv_cursor v = Some c -> exists k, cursor_at c k;
}.

Lemma take_drop_prefix {A} (l l' : list A) n k : l `prefix_of` l' -> (n <= length (drop k l))%nat -> take n (drop k l') = take n (drop k l).
Proof.
  intros [m ->] Hn. rewrite length_drop in Hn. destruct (Nat.le_gt_cases k (length l)).
  - rewrite drop_app_le by done. rewrite take_app_le; [done | rewrite length_drop; lia].
  - replace n with 0%nat by lia. done.
Qed.

Lemma page_at_grows log log' k p : log `prefix_of` log' -> page_at log k p -> page_at log' k p.
Proof.
  intros Hp [H1 H2 H3]. split; [exact H1 | | exact H3]. rewrite H2 at 1. symmetry. apply take_drop_prefix; [exact Hp |].
  rewrite H2 at 1. rewrite length_take. lia.
Qed.

Lemma cache_ok_grows log log' v : log `prefix_of` log' -> cache_ok log v -> cache_ok log' v.
Proof.
  intros Hp [H1 H2 H3 H4]. split; [| | | exact H4].
  - intros c p (k & Hc & Hk)%H1. exists k. split; [exact Hc | by eapply page_at_grows].
  - intros l p [Hl Hk]%H2. split; [exact Hl | by eapply page_at_grows].
  - intros c l (k & e & Hc & He & Hl)%H3. exists k, e. split; [exact Hc |]. split; [by eapply prefix_lookup_Some | exact Hl].
Qed.

(** The service's state: the store shows a view whose pages are pages of the log. *)
Definition world_shows (w : World) (v : BootView) : Prop := boot_repr (bw_storage w) v /\ cache_ok (up_log (bw_upstream w)) v /\ 0 <= bw_ledger_tip w.

Lemma does_view {A} v v' (ok : A -> Prop) r x : does v v' ok r x -> x = v \/ x = v'.
Proof. destruct r; [intros [_ ->]; by right | done]. Qed.

(** The page of a round goes to its place, unless that is taken. *)
Lemma insert_outcome s v p : boot_repr s v -> br_events (ip_result p) <> [] -> page_ledgers p ->
  outcome (insert_get_events_page p) s (fun _ x => x = v \/ x = view_store p v /\ place_free p v).
Proof using BL.
  intros Hs Hne Hl. unfold insert_get_events_page. rewrite bool_decide_eq_false_2 by exact Hne.
  assert (forall (m : IO St BootStorageError (option BootEventsResponse)) o, outcome m s (does v v (fun x => x = o)) ->
    outcome (cached ← m; mret (bool_decide (is_Some cached))) s (does v v (fun taken => taken = bool_decide (is_Some o)))) as Hread.
  { intros m o Hm. eapply outcome_bind; [exact Hm | |]; [| intros e x [->| ->]; by left]. intros a s1 x H1 [-> ->]. by apply (outcome_ok _ s1 (bool_decide (is_Some o)) s1). }
  eapply (outcome_bind _ _ s (does v v (fun taken : bool => taken = false -> place_free p v))); [| | intros e x [->| ->]; by left].
  - assert (forall A (m : IO St BootStorageError A) (ok ok' : A -> Prop), (forall a, ok a -> ok' a) -> outcome m s (does v v ok) -> outcome m s (does v v ok')) as Hweak.
    { intros A m ok ok' Hok (r & s' & x & E & Hx & Hr). exists r, s', x. split_and!; [done | done |]. destruct r; [destruct Hr; split; auto | done]. }
    unfold place_free. destruct (ip_cursor_in p) as [c|].
    + refine (Hweak _ _ _ _ _ (Hread _ _ (bf_by_cursor s v c Hs))). intros taken ->. destruct (bv_by_cursor v !! c); [by rewrite bool_decide_eq_true_2 by by eexists | done].
    + destruct (ip_start_ledger p) as [l|]; [| by apply (outcome_ok _ s false s)].
      refine (Hweak _ _ _ _ _ (Hread _ _ (bf_by_ledger s v l Hs))). intros taken ->. destruct (bv_by_ledger v !! l); [by rewrite bool_decide_eq_true_2 by by eexists | done].
  - intros taken s1 x H1 [Hf ->]. destruct taken; [exists (Ok tt), s1, v; split_and!; [done | done | by left] |].
    destruct (bf_store s1 v p H1 Hl) as (r & s2 & x & E & Hx & Hr). exists r, s2, x. split_and!; [exact E | exact Hx |]. destruct (does_view _ _ _ _ _ Hr) as [->| ->]; auto.
Qed.

(** The place of the indexer moves, the pages stay. *)
Definition moved (v : BootView) (c : string) (x : BootView) : Prop :=
  bv_by_cursor x = bv_by_cursor v /\ bv_by_ledger x = bv_by_ledger v /\ bv_ledgers x = bv_ledgers v /\ (bv_cursor x = bv_cursor v \/ bv_cursor x = Some c).

Lemma caught_up_outcome s v c l : boot_repr s v -> ledger_number l -> outcome (mark_caught_up c l) s (fun _ x => moved v c x).
Proof using BL.
  intros Hs Hl. unfold mark_caught_up.
  eapply outcome_bind; [exact (bf_cursor s v c Hs) | | by intros e x [->| ->]; split_and!; auto]. intros _ s1 x1 H1 [_ ->].
  eapply outcome_bind; [exact (bf_fully s1 _ l H1 Hl) | | by intros e x [->| ->]; split_and!; auto]. intros _ s2 x2 H2 [_ ->].
  destruct (bf_in_sync s2 _ true H2) as (r & s3 & x & E & Hx & Hr). exists r, s3, x. split_and!; [exact E | exact Hx |].
  destruct (does_view _ _ _ _ _ Hr) as [->| ->]; split_and!; auto.
Qed.

(** *** A round of the indexer *)

(** How the cache of a running service changes: pages are never replaced, and once the indexer
    has a cursor it stores no page at an earlier one, nor at a ledger. *)
Record later (v v' : BootView) : Prop := {
  la_by_cursor : bv_by_cursor v ⊆ bv_by_cursor v';
  la_by_ledger : bv_by_ledger v ⊆ bv_by_ledger v';
  la_position : forall c0, bv_cursor v = Some c0 -> exists c1, bv_cursor v' = Some c1 /\ cursor_rank c0 <= cursor_rank c1;
  la_closed : forall c0 c, bv_cursor v = Some c0 -> cursor_rank c < cursor_rank c0 -> bv_by_cursor v !! c = None -> bv_by_cursor v' !! c = None;
  la_started : forall c0, bv_cursor v = Some c0 -> bv_by_ledger v' = bv_by_ledger v;
}.

#[local] Instance later_preorder : PreOrder later.
Proof.
  split.
  - intros v. split; [done | done | | done | done]. intros c0 H. exists c0. split; [exact H | lia].
  - intros v1 v2 v3 [A1 A2 A3 A4 A5] [B1 B2 B3 B4 B5]. split; [by etrans | by etrans | | |].
    + intros c0 (c1 & H1 & R1)%A3. destruct (B3 c1 H1) as (c2 & H2 & R2). exists c2. split; [exact H2 | lia].
    + intros c0 c H0 Hr Hc. destruct (A3 c0 H0) as (c1 & H1 & R1). apply (B4 c1 c H1); [lia | by apply (A4 c0)].
    + intros c0 H0. destruct (A3 c0 H0) as (c1 & H1 & _). rewrite (B5 c1 H1). by apply (A5 c0).
Qed.

(** A change of the kept values only, with a cursor that does not go back. *)
Lemma later_same v v' : bv_by_cursor v' = bv_by_cursor v -> bv_by_ledger v' = bv_by_ledger v ->
  (forall c0, bv_cursor v = Some c0 -> exists c1, bv_cursor v' = Some c1 /\ cursor_rank c0 <= cursor_rank c1) -> later v v'.
Proof. intros E1 E2 Hc. split; [by rewrite E1 | by rewrite E2 | exact Hc | intros c0 c _ _ H; by rewrite E1 | by intros]. Qed.

Definition start_of (cursor : option string) : option Z := match cursor with None => Some first | Some _ => None end.

Lemma start_of_page log v : cache_ok log v -> exists k, starts_page first (start_of (bv_cursor v)) (bv_cursor v) k.
Proof.
  intros Hv. destruct (bv_cursor v) as [c|] eqn:E; [| exists 0%nat; by left]. destruct (co_cursor _ _ Hv c E) as [k Hk]. exists k. right. by exists c.
Qed.

Lemma cache_ok_cursor log v c k : cache_ok log v -> cursor_at c k -> cache_ok log (view_cursor c v).
Proof. intros [H1 H2 H3 H4] Hc. split; try assumption. intros c' [= <-]. by exists k. Qed.

Lemma last_event log k (es : list BootEvent) : es <> [] -> es = take (length es) (drop k log) ->
  exists e, last es = Some e /\ log !! (k + pred (length es))%nat = Some e.
Proof.
  intros Hne E. rewrite last_lookup. destruct (es !! pred (length es)) as [e|] eqn:Ee.
  - exists e. split; [reflexivity |]. rewrite E in Ee. apply lookup_take_Some in Ee as [Ee _]. by rewrite lookup_drop, length_take, Nat.min_l in Ee by (rewrite E at 1; rewrite length_take; lia).
  - apply lookup_ge_None in Ee. destruct es; [done |]. cbn in Ee. lia.
Qed.

(** The page of a round, stored. *)
Lemma cache_ok_store log v k p request : cache_ok log v -> starts_page first (start_of (bv_cursor v)) (bv_cursor v) k -> page_at log k p ->
  cache_ok log (view_store {| ip_cursor_in := bv_cursor v; ip_start_ledger := start_of (bv_cursor v); ip_request := request; ip_result := p; ip_cursor_out := br_cursor p;
     ip_last_event_ledger := be_ledger <$> last (br_events p); ip_latest_ledger := br_latest_ledger p; ip_oldest_ledger := br_oldest_ledger p |} v).
Proof.
  intros [H1 H2 H3 H4] Hk Hp. unfold view_store. cbn [ip_cursor_in ip_start_ledger ip_result ip_cursor_out ip_last_event_ledger]. split; cbn [bv_by_cursor bv_by_ledger bv_ledgers bv_cursor].
  - intros c q Hq. destruct Hk as [(_ & Ec & ->)|(c0 & _ & Ec & Hc0)]; rewrite Ec in Hq; [by apply H1 |].
    apply lookup_insert_Some in Hq as [[<- <-]|[_ Hq]]; [by exists k | by apply H1].
  - intros l q Hq. destruct Hk as [(_ & Ec & ->)|(c0 & _ & Ec & Hc0)]; rewrite Ec in Hq; [| by apply H2].
    cbn [start_of] in Hq. apply lookup_insert_Some in Hq as [[<- <-]|[_ Hq]]; [by split | by apply H2].
  - intros c l Hin. destruct (last_event log k (br_events p) (pa_some _ _ _ Hp) (pa_events _ _ _ Hp)) as (e & El & Ee). rewrite El in Hin. cbn in Hin.
    apply elem_of_cons in Hin as [[= -> ->]|Hin]; [| by apply H3]. exists (k + pred (length (br_events p)))%nat, e.
    replace (S (k + pred (length (br_events p)))) with (k + length (br_events p))%nat; [by split_and!; [apply (pa_cursor _ _ _ Hp) | |] |].
    pose proof (pa_some _ _ _ Hp). destruct (br_events p); [done | cbn; lia].
  - exact H4.
Qed.

Lemma later_store v p : ip_cursor_in p = bv_cursor v -> ip_start_ledger p = start_of (bv_cursor v) -> place_free p v -> later v (view_store p v).
Proof.
  intros Ec El Hfree. unfold place_free in Hfree. rewrite Ec, El in Hfree. unfold view_store. rewrite Ec, El. destruct (bv_cursor v) as [c|] eqn:E; cbn [start_of] in *.
  - split; cbn [bv_by_cursor bv_by_ledger bv_cursor]; [by apply insert_subseteq | done | | | done].
    + intros c0 Hc0. rewrite E in Hc0. injection Hc0 as <-. exists c. split; [reflexivity | lia].
    + intros c0 c1 Hc0 Hr Hn. rewrite E in Hc0. injection Hc0 as <-. rewrite lookup_insert_ne; [exact Hn |]. intros ->. lia.
  - split; cbn [bv_by_cursor bv_by_ledger bv_cursor]; [done | by apply insert_subseteq | | |]; intros c0; rewrite E; discriminate.
Qed.

Lemma take_own_length {A} n (l : list A) : take n l = take (length (take n l)) l.
Proof. rewrite length_take. destruct (Nat.min_spec n (length l)) as [[_ ->]|[H ->]]; [done |]. by rewrite !take_ge. Qed.

Lemma page_of_upstream u k p u' : starts_page first (start_of k.1) k.1 k.2 -> up_get_events (for_contracts ids (start_of k.1) k.1 limit) u = (Ok p, u') ->
  br_events p <> [] -> page_at (up_log u') k.2 p.
Proof using LA.
  intros Hk Hp Hne. destruct (ul_page _ _ _ _ _ _ Hk Hp) as (He & Hc & _). split; [exact Hne | | exact Hc].
  rewrite He at 1. rewrite (take_own_length limit) at 1. by rewrite <- He.
Qed.

Lemma moved_ok log v c k x : cache_ok log v -> cursor_at c k -> moved v c x -> cache_ok log x.
Proof.
  intros [H1 H2 H3 H4] Hc (E1 & E2 & E3 & E4). split; rewrite ?E1, ?E2, ?E3; try assumption.
  intros c' Hc'. destruct E4 as [E|E]; rewrite E in Hc'; [by apply H4 |]. injection Hc' as <-. by exists k.
Qed.

Lemma moved_later v c x : (forall c0, bv_cursor v = Some c0 -> cursor_rank c0 <= cursor_rank c) -> moved v c x -> later v x.
Proof.
  intros Hr (E1 & E2 & _ & E4). apply later_same; [exact E1 | exact E2 |]. intros c0 Hc0. destruct E4 as [E|E]; rewrite E; [exists c0; split; [exact Hc0 | lia] | exists c; split; [done | by apply Hr]].
Qed.

(** A step of the indexer ends, well or not, in a later state of the cache. *)
Definition keeps_up {A} (m : IO World BootError A) (w : World) (v : BootView) : Prop := exists r w' v', m w = (r, w') /\ world_shows w' v' /\ later v v'.

Lemma keeps_up_assoc {A C D} (m : IO World BootError A) (f : A -> IO World BootError C) (g : C -> IO World BootError D) w v :
  keeps_up (m ≫= (fun a => f a ≫= g)) w v -> keeps_up ((m ≫= f) ≫= g) w v.
Proof. unfold keeps_up, mbind, io_bind. by destruct (m w) as [[a|e] w1]. Qed.

Lemma keeps_up_last {A} (m : IO St BootStorageError A) w v Q : world_shows w v -> outcome m (bw_storage w) Q ->
  (forall r x, Q r x -> cache_ok (up_log (bw_upstream w)) x /\ later v x) -> keeps_up (on_store m) w v.
Proof.
  intros (Hs & Hv & Ht) (r & s & x & E & Hx & Hq) Hall. destruct (Hall r x Hq) as [Hc Hl]. unfold keeps_up, on_store. rewrite E. by eexists _, (BW (bw_upstream w) s (bw_ledger_tip w)), x.
Qed.

Lemma keeps_up_store {A C} (m : IO St BootStorageError A) (k : A -> IO World BootError C) w v Q : world_shows w v -> outcome m (bw_storage w) Q ->
  (forall r x, Q r x -> cache_ok (up_log (bw_upstream w)) x /\ later v x) ->
  (forall a s x, Q (Ok a) x -> world_shows (BW (bw_upstream w) s (bw_ledger_tip w)) x -> keeps_up (k a) (BW (bw_upstream w) s (bw_ledger_tip w)) x) ->
  keeps_up (on_store m ≫= k) w v.
Proof.
  intros (Hs & Hv & Ht) (r & s & x & E & Hx & Hq) Hall Hk. destruct (Hall r x Hq) as [Hc Hl].
  assert (world_shows (BW (bw_upstream w) s (bw_ledger_tip w)) x) as Hw by done. destruct r as [a|e].
  - destruct (Hk a s x Hq Hw) as (r & w' & v' & E' & Hw' & Hl'). exists r, w', v'. split_and!; [| done | by etrans].
    rewrite (io_bind_run _ _ w a (BW (bw_upstream w) s (bw_ledger_tip w))); [exact E' | unfold on_store; by rewrite E].
  - exists (Err (BootStorageFailed e)), (BW (bw_upstream w) s (bw_ledger_tip w)), x. split_and!; [| done | done]. apply io_bind_fail. unfold on_store. by rewrite E.
Qed.

(** The page of a round, stored or not. *)
Lemma insert_ok log v k p request : cache_ok log v -> starts_page first (start_of (bv_cursor v)) (bv_cursor v) k -> page_at log k p ->
  let row := {| ip_cursor_in := bv_cursor v; ip_start_ledger := start_of (bv_cursor v); ip_request := request; ip_result := p; ip_cursor_out := br_cursor p;
    ip_last_event_ledger := be_ledger <$> last (br_events p); ip_latest_ledger := br_latest_ledger p; ip_oldest_ledger := br_oldest_ledger p |} in
  forall x, x = v \/ x = view_store row v /\ place_free row v -> cache_ok log x /\ later v x /\ bv_cursor x = bv_cursor v.
Proof.
  intros Hv Hk Hpage row x [->|[-> Hfree]]; [split_and!; [exact Hv | reflexivity | done] |].
  split_and!; [exact (cache_ok_store _ _ k p _ Hv Hk Hpage) | by apply later_store | done].
Qed.

Lemma in_sync_ok log v b x : cache_ok log v -> x = v \/ x = view_in_sync b v -> cache_ok log x /\ later v x.
Proof.
  intros Hv [->| ->]; [by split |]. split; [by destruct Hv; split |]. apply later_same; [done | done |]. intros c0 Hc0. exists c0. split; [exact Hc0 | lia].
Qed.

Lemma index_pages_shows n : forall w v, world_shows w v -> keeps_up (index_pages state n (bv_cursor v) (start_of (bv_cursor v))) w v.
Proof using BL LA.
  induction n as [|n IH]; intros w v Hw; cbn [index_pages]; [exists (Ok tt), w, v; split_and!; [done | done | reflexivity] |].
  destruct Hw as (Hs & Hv & Ht). destruct (start_of_page _ _ Hv) as [k Hk].
  destruct (up_get_events (for_contracts ids (start_of (bv_cursor v)) (bv_cursor v) limit) (bw_upstream w)) as [[p|e] u] eqn:Eu.
  2: { exists (Err (UpstreamFailed e)), (BW u (bw_storage w) (bw_ledger_tip w)), v. split; [apply io_bind_fail; unfold on_upstream; by rewrite Eu |].
       split; [| reflexivity]. split; [exact Hs |]. split; [| exact Ht]. eapply cache_ok_grows; [by eapply ul_grows | exact Hv]. }
  pose proof (cache_ok_grows _ _ _ (ul_grows _ _ _ _ Eu) Hv) as Hv'. destruct (ul_page _ _ _ _ _ _ Hk Eu) as (He & Hc & Hlat & Hold).
  assert (forall c0, bv_cursor v = Some c0 -> cursor_rank c0 <= cursor_rank (br_cursor p)) as Hrank.
  { intros c0 Hc0. rewrite Hc0 in Eu. exact (ul_forward _ _ _ _ Eu). }
  unfold keeps_up. rewrite (io_bind_run _ _ w p (BW u (bw_storage w) (bw_ledger_tip w))) by (unfold on_upstream; by rewrite Eu). cbv zeta.
  set (w1 := BW u (bw_storage w) (bw_ledger_tip w)). assert (world_shows w1 v) as Hw1 by done. case_bool_decide as Hempty.
  - rewrite (io_bind_run _ _ _ tt w1) by reflexivity. eapply keeps_up_last; [exact Hw1 | exact (caught_up_outcome _ v (br_cursor p) (br_latest_ledger p) Hs Hlat) |].
    intros r x Hx. split; [exact (moved_ok _ _ _ _ _ Hv' Hc Hx) | exact (moved_later _ _ _ Hrank Hx)].
  - pose proof (page_of_upstream _ (bv_cursor v, k) _ _ Hk Eu Hempty) as Hpage. cbn [fst snd] in Hpage.
    destruct (last_event _ _ _ Hempty (pa_events _ _ _ Hpage)) as (e & El & Ee). set (row := {| ip_cursor_in := bv_cursor v |}).
    assert (page_ledgers row) as Hl.
    { split; [unfold row; cbn; unfold start_of; destruct (bv_cursor v); [done | apply ul_first] |]. split; [| by split]. unfold row. cbn. rewrite El. cbn.
      pose proof (ul_ledgers u) as Hall. rewrite Forall_forall in Hall. apply Hall. by eapply list_elem_of_lookup_2. }
    apply keeps_up_assoc. eapply keeps_up_store; [exact Hw1 | exact (bf_in_sync _ v false Hs) | |].
    { intros r x Hr. exact (in_sync_ok _ _ _ _ Hv' (does_view _ _ _ _ _ Hr)). }
    intros _ s2 x2 [_ ->] Hw2. eapply keeps_up_store; [exact Hw2 | exact (insert_outcome s2 _ row (proj1 Hw2) Hempty Hl) | |];
      pose proof (insert_ok (up_log u) (view_in_sync false v) k p (ip_request row) (proj1 (proj2 Hw2)) Hk Hpage) as Hins.
    { intros r x Hx. by destruct (Hins x Hx) as (? & ? & _). }
    intros done_ s3 x3 Hx3 Hw3. destruct (Hins x3 Hx3) as (Hv3 & _ & Hc3). cbn [bw_upstream bw_ledger_tip].
    assert (forall r x, does x3 (view_cursor (br_cursor p) x3) (fun _ : unit => True) r x -> moved x3 (br_cursor p) x) as Hm.
    { intros r x Hr. destruct (does_view _ _ _ _ _ Hr) as [->| ->]; split_and!; auto. }
    eapply keeps_up_store; [exact Hw3 | exact (bf_cursor s3 x3 (br_cursor p) (proj1 Hw3)) | |].
    { intros r x Hr%Hm. split; [exact (moved_ok _ _ _ _ _ Hv3 Hc Hr) |]. eapply moved_later; [| exact Hr]. intros c0 Hc0. apply Hrank. rewrite <- Hc0. symmetry. exact Hc3. }
    intros _ s4 x4 [_ ->] Hw4. exact (IH _ _ Hw4).
Qed.

Lemma run_round_shows w v : world_shows w v -> keeps_up (run_round state) w v.
Proof using BL LA.
  intros (Hs & Hv & Ht). unfold run_round, keeps_up. destruct (up_get_latest_ledger (bw_upstream w)) as [[latest|e] u] eqn:Eu; destruct (ul_latest _ _ _ Eu) as [Hg Hseq].
  2: { exists (Err (UpstreamFailed e)), (BW u (bw_storage w) (bw_ledger_tip w)), v. split; [apply io_bind_fail; unfold on_upstream; by rewrite Eu |].
       split; [| reflexivity]. split; [exact Hs |]. split; [by eapply cache_ok_grows | exact Ht]. }
  specialize (Hseq latest eq_refl). rewrite (io_bind_run _ _ w latest (BW u (bw_storage w) (bw_ledger_tip w))) by (unfold on_upstream; by rewrite Eu). cbv zeta.
  rewrite (io_bind_run _ _ _ tt (BW u (bw_storage w) (bl_sequence latest))) by reflexivity.
  assert (world_shows (BW u (bw_storage w) (bl_sequence latest)) v) as Hw1 by (split; [exact Hs |]; split; [by eapply cache_ok_grows | exact (proj1 Hseq)]).
  eapply keeps_up_store; [exact Hw1 | exact (bf_tip _ v _ Hs Hseq) | |].
  { intros r x Hr. destruct Hw1 as (_ & Hv1 & _). destruct (does_view _ _ _ _ _ Hr) as [->| ->]; [by split |]. split; [by destruct Hv1; split |].
    apply later_same; [done | done |]. intros c0 Hc0. exists c0. split; [exact Hc0 | lia]. }
  intros _ s2 x2 [_ ->] Hw2. eapply keeps_up_store; [exact Hw2 | exact (bf_kv s2 _ (proj1 Hw2)) | |].
  { intros r x Hr. destruct (does_view _ _ _ _ _ Hr) as [->| ->]; (split; [exact (proj1 (proj2 Hw2)) | reflexivity]). }
  intros kv s3 x3 [-> ->] Hw3. exact (index_pages_shows (bc_max_pages_per_round (as_cfg state)) _ _ Hw3).
Qed.

(** ** Requests *)

Definition cutoff (w : World) : Z := saturating_sub (bw_ledger_tip w) (config_cutoff_ledgers (as_cfg state)).

(** The page cached at the place of a request. *)
Definition cached_at (v : BootView) (params : BootEventsParams) : option BootEventsResponse :=
  match bp_start_ledger params, pg_cursor (bp_pagination params) with
  | Some l, None => bv_by_ledger v !! l
  | None, Some c => bv_by_cursor v !! c
  | _, _ => None
  end.

(** A request the bootnode supports. *)
Definition well_formed (params : BootEventsParams) : Prop :=
  bp_end_ledger params = None /\ bp_xdr_format params = None /\ is_allowed_filters params ids = true /\
  match bp_start_ledger params, pg_cursor (bp_pagination params) with Some _, None | None, Some _ => True | _, _ => False end.

(** The request starts within the window that the client's own node serves. *)
Definition recent (w : World) (params : BootEventsParams) : Prop :=
  0 < bw_ledger_tip w /\
  ((exists l, bp_start_ledger params = Some l /\ cutoff w <= l) \/
   exists c k e, pg_cursor (bp_pagination params) = Some c /\ cursor_at c (S k) /\ up_log (bw_upstream w) !! k = Some e /\ cutoff w <= be_ledger e).

(** The answer to a request for which the store failed. *)
Definition storage_failed (e : BootStorageError) : ErrorObject := internal_error (BootStorageFailed e).

(** The answers to a request, in a state whose indexer is in sync or not. *)
Inductive answer (w : World) (v : BootView) (params : BootEventsParams) : result ErrorObject BootEventsResponse -> Prop :=
| answer_page p : well_formed params -> cached_at v params = Some p -> answer w v params (Ok p)
| answer_invalid msg : ~ well_formed params -> answer w v params (Err (invalid_params msg))
| answer_recent : recent w params -> answer w v params (Err (retention_handoff (cutoff w)))
| answer_synced : 0 < bw_ledger_tip w -> bv_in_sync v = true -> cached_at v params = None -> answer w v params (Err (retention_handoff (cutoff w)))
| answer_miss : bw_ledger_tip w = 0 \/ bv_in_sync v = false -> cached_at v params = None -> answer w v params (Err (cache_miss_for_tip (bw_ledger_tip w)))
| answer_failed e : answer w v params (Err (storage_failed e)).

Definition same_chain (w w' : World) : Prop := bw_upstream w' = bw_upstream w /\ bw_ledger_tip w' = bw_ledger_tip w.

(** A handler that only reads: it leaves the service as it is, and its answer satisfies [Q]. *)
Definition answered {A} (m : IO World ErrorObject A) (w : World) (v : BootView) (Q : result ErrorObject A -> Prop) : Prop :=
  forall w1, same_chain w w1 -> boot_repr (bw_storage w1) v -> exists r w', m w1 = (r, w') /\ same_chain w w' /\ boot_repr (bw_storage w') v /\ Q r.

Lemma answered_now {A} (r : result ErrorObject A) w v (Q : result ErrorObject A -> Prop) : Q r -> answered (fun w => (r, w)) w v Q.
Proof. intros Hq w1 Hc Hs. by exists r, w1. Qed.

Lemma answered_bind {A C} (m : IO World ErrorObject A) a (k : A -> IO World ErrorObject C) w v Q :
  (forall w1, same_chain w w1 -> m w1 = (Ok a, w1)) -> answered (k a) w v Q -> answered (m ≫= k) w v Q.
Proof. intros Hm Hk w1 Hc Hs. rewrite (io_bind_run _ _ w1 a w1) by exact (Hm w1 Hc). exact (Hk w1 Hc Hs). Qed.

Lemma answered_read {A C} (m : IO St BootStorageError A) (ok : A -> Prop) (k : A -> IO World ErrorObject C) w v (Q : result ErrorObject C -> Prop) :
  (forall s, boot_repr s v -> outcome m s (does v v ok)) -> (forall e, Q (Err (storage_failed e))) -> (forall a, ok a -> answered (k a) w v Q) ->
  answered (io_map_err internal_error (on_store m) ≫= k) w v Q.
Proof.
  intros Hm He Hk w1 [Hc1 Hc2] Hs. destruct (Hm _ Hs) as (r & s & x & E & Hx & Hr). set (w2 := BW (bw_upstream w1) s (bw_ledger_tip w1)).
  assert (x = v) as -> by (by destruct (does_view _ _ _ _ _ Hr)). destruct r as [a|e].
  - rewrite (io_bind_run _ _ w1 a w2) by (unfold io_map_err, on_store; by rewrite E). exact (Hk a (proj1 Hr) w2 (conj Hc1 Hc2) Hx).
  - exists (Err (storage_failed e)), w2. split_and!; [| by split | exact Hx | apply He]. apply io_bind_fail. unfold io_map_err, on_store. by rewrite E.
Qed.

Lemma serve_run w v params cached : 0 <= bw_ledger_tip w -> well_formed params -> cached = cached_at v params ->
  answered (serve_cached (bw_ledger_tip w) (0 <? bw_ledger_tip w) (cutoff w) cached) w v (answer w v params).
Proof using BL.
  intros Ht Hf ->. unfold serve_cached. destruct (cached_at v params) as [p|] eqn:E; [apply answered_now; by constructor |].
  unfold cache_miss_or_handoff. destruct (Z.ltb_spec 0 (bw_ledger_tip w)) as [Hp|Hp]; cbn [negb].
  - apply (answered_read _ (fun kv => kv = kv_of v)); [intros s Hs; by apply bf_kv | apply answer_failed |].
    intros kv ->. cbn [kv_in_sync kv_of]. destruct (bv_in_sync v) eqn:Es; apply answered_now; [by apply answer_synced | apply answer_miss; auto].
  - apply answered_now, answer_miss; [left; lia | exact E].
Qed.

Lemma handler_answers w v params : world_shows w v -> answered (boot_get_events state params) w v (answer w v params).
Proof using BL LA.
  intros (_ & Hv & Ht). unfold boot_get_events.
  case_bool_decide as Hend; [apply answered_now, answer_invalid; intros (E & _); rewrite E in Hend; by destruct Hend |].
  case_bool_decide as Hxdr; [apply answered_now, answer_invalid; intros (_ & E & _); rewrite E in Hxdr; by destruct Hxdr |].
  apply eq_None_not_Some in Hend, Hxdr. unfold get_events_handler, parsed.
  destruct (bp_start_ledger params) as [l|] eqn:El, (pg_cursor (bp_pagination params)) as [c|] eqn:Ec;
    try (apply answered_now, answer_invalid; intros (_ & _ & _ & E); by rewrite El, Ec in E);
    (eapply answered_bind; [intros w1 _; reflexivity |];
     destruct (is_allowed_filters params ids) eqn:Ef; cbn [negb]; [| apply answered_now, answer_invalid; intros (_ & _ & E & _); congruence];
     assert (well_formed params) as Hwf by (unfold well_formed; rewrite El, Ec; done);
     apply (answered_bind _ (bw_ledger_tip w)); [intros w1 [_ Hc1]; by rewrite <- Hc1 |]; cbv zeta; cbn [pg_start_ledger pg_at_cursor]; fold (cutoff w)).
  - destruct (_ && _) eqn:Eh.
    + bools. apply answered_now, answer_recent. split; [assumption |]. left. exists l. by split.
    + apply (answered_read _ (fun o => o = bv_by_ledger v !! l)); [intros s Hs; by apply bf_by_ledger | apply answer_failed |].
      intros o ->. apply serve_run; [exact Ht | exact Hwf |]. unfold cached_at. by rewrite El, Ec.
  - apply (answered_read _ (ledger_found v c)); [intros s Hs; by apply bf_lookup | apply answer_failed |]. intros o Ho. destruct (_ && _) eqn:Eh.
    + apply andb_true_iff in Eh as [Hp Hc]. destruct o as [l|]; [| discriminate Hc]. bools. destruct (co_ledgers _ _ Hv c l Ho) as (k & e & Hk & He & <-).
      apply answered_now, answer_recent. split; [assumption |]. right. by exists c, k, e.
    + apply (answered_read _ (fun o => o = bv_by_cursor v !! c)); [intros s Hs; by apply bf_by_cursor | apply answer_failed |].
      intros o' ->. apply serve_run; [exact Ht | exact Hwf |]. unfold cached_at. by rewrite El, Ec.
Qed.

(** A request, answered: the service shows what it showed. *)
Lemma handler_run w v params : world_shows w v ->
  exists r w', boot_get_events state params w = (r, w') /\ same_chain w w' /\ world_shows w' v /\ answer w v params r.
Proof using BL LA.
  intros Hw. destruct (handler_answers w v params Hw w (conj eq_refl eq_refl) (proj1 Hw)) as (r & w' & E & [Hu Ht] & Hs & Ha).
  exists r, w'. split_and!; [exact E | by split | | exact Ha]. unfold world_shows. rewrite Hu, Ht. destruct Hw as (_ & Hv & Ht0). by split_and!.
Qed.

(** *** The service over time *)

(** The indexer runs a round, whatever its outcome; the service answers a request, or restarts;
    the chain goes on. *)
Inductive boot_step (w : World) : World -> Prop :=
| step_round : boot_step w (run_round state w).2
| step_request params : boot_step w (boot_get_events state params w).2
| step_restart : boot_step w (setup_tip state w).2
| step_chain u : up_log (bw_upstream w) `prefix_of` up_log u -> boot_step w (BW u (bw_storage w) (bw_ledger_tip w)).

(** The setting is a [u32]. *)
Hypothesis initial_tip : 0 <= bc_initial_ledger_tip (as_cfg state).

Lemma setup_shows w v : world_shows w v -> world_shows (setup_tip state w).2 v.
Proof using BL initial_tip.
  intros (Hs & Hv & Ht). destruct (bf_kv _ v Hs) as (r & s & x & E & Hx & Hr). assert (x = v) as -> by (by destruct (does_view _ _ _ _ _ Hr)).
  unfold setup_tip, mbind, io_bind, on_store. rewrite E. destruct r as [kv|e]; cbn [map_err snd]; (split; [exact Hx |]; split; [exact Hv |]; cbn; lia).
Qed.

Lemma step_shows w v w' : world_shows w v -> boot_step w w' -> exists v', world_shows w' v' /\ later v v'.
Proof using BL LA initial_tip.
  intros Hw [ |params| | u Hu].
  - destruct (run_round_shows w v Hw) as (r & w1 & v1 & E & H1 & H2). rewrite E. by exists v1.
  - destruct (handler_run w v params Hw) as (r & w1 & E & _ & H1 & _). rewrite E. by exists v.
  - exists v. split; [by apply setup_shows | reflexivity].
  - destruct Hw as (Hs & Hv & Ht). exists v. split; [| reflexivity]. split; [exact Hs |]. split; [by eapply cache_ok_grows | exact Ht].
Qed.

Lemma steps_show w v w' : world_shows w v -> rtc boot_step w w' -> exists v', world_shows w' v' /\ later v v'.
Proof using BL LA initial_tip.
  intros Hw H. revert v Hw. induction H as [w|w w1 w2 H1 _ IH]; intros v Hw; [exists v; by split |].
  destruct (step_shows w v w1 Hw H1) as (v1 & Hw1 & L1). destruct (IH v1 Hw1) as (v2 & Hw2 & L2). exists v2. split; [exact Hw2 | by etrans].
Qed.

Lemma empty_shows (w : World) : boot_repr (bw_storage w) empty_view -> 0 <= bw_ledger_tip w -> world_shows w empty_view.
Proof.
  intros Hs Ht. split; [exact Hs |]. split; [| exact Ht]. split.
  - intros c p H. cbn in H. by rewrite lookup_empty in H.
  - intros l p H. cbn in H. by rewrite lookup_empty in H.
  - intros c l H. by apply not_elem_of_nil in H.
  - discriminate.
Qed.

(** ** A client that follows the pages *)

(** The events of the pages from a place on, one request after the other, and the place where
    the pages end. *)
Fixpoint boot_follow (n : nat) (start_ledger : option Z) (cursor : option string) (w : World) : list BootEvent * (option Z * option string) :=
  match n with
  | O => ([], (start_ledger, cursor))
  | S n =>
      match boot_get_events state (for_contracts ids start_ledger cursor limit) w with
      | (Ok p, w) => let '(es, place) := boot_follow n None (Some (br_cursor p)) w in (br_events p ++ es, place)
      | (Err _, _) => ([], (start_ledger, cursor))
      end
  end.

Lemma cached_page v log start_ledger cursor k p : cache_ok log v -> starts_page first start_ledger cursor k ->
  cached_at v (for_contracts ids start_ledger cursor limit) = Some p -> page_at log k p.
Proof using LA.
  intros Hv Hk Hp. unfold cached_at in Hp. cbn in Hp. destruct Hk as [(-> & -> & ->)|(c & -> & -> & Hc)].
  - exact (proj2 (co_by_ledger _ _ Hv _ _ Hp)).
  - destruct (co_by_cursor _ _ Hv c p Hp) as (k' & Hc' & Hpage). by rewrite (ul_position c k k' Hc Hc').
Qed.

Lemma later_cached v v2 params p : later v v2 -> cached_at v params = Some p -> cached_at v2 params = Some p.
Proof.
  intros Hlat. unfold cached_at. destruct (bp_start_ledger params) as [l|], (pg_cursor (bp_pagination params)) as [c|]; try done; intros Hp;
    [exact (lookup_weaken _ _ _ _ Hp (la_by_ledger _ _ Hlat)) | exact (lookup_weaken _ _ _ _ Hp (la_by_cursor _ _ Hlat))].
Qed.

Lemma follow_segment w v n : forall start_ledger cursor k, world_shows w v -> starts_page first start_ledger cursor k ->
  exists m, (boot_follow n start_ledger cursor w).1 = take m (drop k (up_log (bw_upstream w))).
Proof using BL LA.
  revert w. induction n as [|n IH]; intros w start_ledger cursor k Hw Hk; cbn [boot_follow]; [by exists 0%nat |].
  destruct (handler_run w v (for_contracts ids start_ledger cursor limit) Hw) as (r & w' & -> & [Hu _] & Hw' & Ha). destruct Ha as [p _ Hp| | | | |]; try (by exists 0%nat).
  pose proof (cached_page v _ _ _ k p (proj1 (proj2 Hw)) Hk Hp) as [P1 P2 P3].
  destruct (IH w' None (Some (br_cursor p)) (k + length (br_events p))%nat Hw') as [m Hm]; [right; by exists (br_cursor p) |]. rewrite Hu in Hm.
  destruct (boot_follow n None (Some (br_cursor p)) w') as [es place]. cbn [fst] in *. exists (length (br_events p) + m)%nat.
  rewrite Hm, P2 at 1. rewrite <- drop_drop, take_take_drop. done.
Qed.

(** Where the pages end for good, no later state serves more. *)
Lemma follow_stops v v2 n c : forall w w2 start_ledger cursor k es, world_shows w v -> world_shows w2 v2 -> later v v2 -> starts_page first start_ledger cursor k ->
  boot_follow n start_ledger cursor w = (es, (None, Some c)) -> bv_by_cursor v !! c = None -> bv_by_cursor v2 !! c = None ->
  forall m, (boot_follow m start_ledger cursor w2).1 `prefix_of` es.
Proof using BL LA.
  induction n as [|n IH]; intros w w2 start_ledger cursor k es Hw Hw2 Hlat Hk Hfollow Hc Hc2 m; cbn [boot_follow] in Hfollow;
    (destruct m as [|m]; [apply prefix_nil |]); cbn [boot_follow];
    destruct (handler_run w2 v2 (for_contracts ids start_ledger cursor limit) Hw2) as (r2 & w2' & -> & _ & Hw2' & Ha2); destruct Ha2 as [p2 _ Hp2| | | | |]; try apply prefix_nil.
  - injection Hfollow as <- -> ->. unfold cached_at in Hp2. cbn in Hp2. congruence.
  - destruct (handler_run w v (for_contracts ids start_ledger cursor limit) Hw) as (r & w' & Er & _ & Hw' & Ha). rewrite Er in Hfollow.
    destruct Ha as [p _ Hp| | | | |]; try (injection Hfollow as <- -> ->; unfold cached_at in Hp2; cbn in Hp2; congruence).
    assert (p2 = p) as -> by (pose proof (later_cached v v2 _ p Hlat Hp); congruence).
    pose proof (cached_page v _ _ _ k p (proj1 (proj2 Hw)) Hk Hp) as [P1 P2 P3].
    destruct (boot_follow n None (Some (br_cursor p)) w') as [es1 place] eqn:E1. injection Hfollow as <- ->.
    specialize (IH w' w2' None (Some (br_cursor p)) (k + length (br_events p))%nat es1 Hw' Hw2' Hlat ltac:(right; by exists (br_cursor p)) E1 Hc Hc2 m).
    destruct (boot_follow m None (Some (br_cursor p)) w2') as [es2 place2]. cbn [fst] in *. by apply prefix_app.
Qed.

(** A page once answered is the answer for ever, unless the client is handed off or the store fails. *)
Lemma answers_stay v v2 w w2 params p : world_shows w v -> world_shows w2 v2 -> later v v2 -> (boot_get_events state params w).1 = Ok p ->
  match (boot_get_events state params w2).1 with
  | Ok p2 => p2 = p
  | Err e => e = retention_handoff (cutoff w2) \/ exists f, e = storage_failed f
  end.
Proof using BL LA.
  intros Hw Hw2 Hlat Hp. destruct (handler_run w v params Hw) as (r & w' & E & _ & _ & Ha). rewrite E in Hp. cbn [fst] in Hp. subst r.
  inversion Ha as [q Hwf Hq| | | | |]; subst q. pose proof (later_cached v v2 params p Hlat Hq) as Hq2.
  destruct (handler_run w2 v2 params Hw2) as (r2 & w2' & -> & _ & _ & Ha2). cbn [fst].
  destruct Ha2 as [p2 _ Hp2|msg Hbad|Hr|_ _ Hno|_ Hno|e]; [congruence | done | by left | congruence | congruence | right; by exists e].
Qed.

End Cache.

(** ** The theorems *)

(** C21. Over an upstream node whose log only grows, and a store that keeps the laws of
    [BootFaultLaws], which let every one of its operations fail, before or after it took effect: after any
    sequence of rounds, requests, restarts and progress of the chain, wherever in a round the store or the
    upstream failed, a request leaves the view of the store, the upstream and the tip as they are, and a page it
    answers is the part of the upstream's log that starts at the requested place, for exactly the deployment's contracts.  Any other
    answer is one of the four documented errors: invalid parameters, for an unsupported request only; the miss; the handoff, only when the tip is
    known; or the internal error, when the store failed.  A page once answered is never replaced: later the
    same request is answered by the same page, handed off, or refused because the store failed.
    A client that follows the pages from the deployment ledger gets a prefix of the log: nothing is skipped, repeated or
    reordered.  (Postgres keeps the laws whatever its pool and server do.  The memory store does too; it dies with the
    process, so there a restart begins a new run.) *)
Theorem bootnode_serves_upstream {Up St : Type} {U : Upstream Up} {UL : UpstreamLog U} {B : BootStorage St} {R : BootRepr St} {ET : ErrorText}
    (BL : BootFaultLaws B R) (state : AppState)
    (LA : UpstreamLaws U UL (as_contract_ids state) (as_min_deployment_ledger state) (bc_page_size (as_cfg state))) (w0 w : BootWorld Up St) :
  0 <= bc_initial_ledger_tip (as_cfg state) -> boot_repr (bw_storage w0) empty_view -> 0 <= bw_ledger_tip w0 -> rtc (boot_step state) w0 w ->
  (exists v, boot_repr (bw_storage w) v /\ forall params, exists r w', boot_get_events state params w = (r, w') /\
    bw_upstream w' = bw_upstream w /\ bw_ledger_tip w' = bw_ledger_tip w /\ boot_repr (bw_storage w') v /\
    match r with
    | Ok p => is_allowed_filters params (as_contract_ids state) = true /\
        exists k, starts_page (as_min_deployment_ledger state) (bp_start_ledger params) (pg_cursor (bp_pagination params)) k /\ page_at (up_log (bw_upstream w)) k p
    | Err e => (exists msg, e = invalid_params msg /\ ~ well_formed state params) \/ e = cache_miss_for_tip (bw_ledger_tip w) \/
        (e = retention_handoff (cutoff state w) /\ 0 < bw_ledger_tip w) \/ exists f, e = storage_failed f
    end) /\
  (forall params p w2, (boot_get_events state params w).1 = Ok p -> rtc (boot_step state) w w2 ->
    match (boot_get_events state params w2).1 with
    | Ok p2 => p2 = p
    | Err e => e = retention_handoff (cutoff state w2) \/ exists f, e = storage_failed f
    end) /\
  (forall n, exists k, (boot_follow state n (Some (as_min_deployment_ledger state)) None w).1 = take k (up_log (bw_upstream w))).
Proof.
  intros Ht0 Hs Ht Hrun. destruct (steps_show state Ht0 w0 empty_view w (empty_shows state w0 Hs Ht) Hrun) as (v & Hw & _). split; [| split].
  - exists v. split; [exact (proj1 Hw) |]. intros params. destruct (handler_run state w v params Hw) as (r & w' & E & [Hu Htip] & Hw' & Ha).
    exists r, w'. split_and!; [exact E | exact Hu | exact Htip | exact (proj1 Hw') |]. destruct Ha as [p Hwf Hp|msg|[Hr _]|Hr _ _|_ _|e]; [| eauto 8 ..].
    split; [apply Hwf |]. unfold cached_at in Hp. destruct (bp_start_ledger params) as [l|], (pg_cursor (bp_pagination params)) as [c|]; try discriminate Hp.
    + destruct (co_by_ledger _ _ _ (proj1 (proj2 Hw)) l p Hp) as [-> Hk]. exists 0%nat. split; [by left | exact Hk].
    + destruct (co_by_cursor _ _ _ (proj1 (proj2 Hw)) c p Hp) as (k & Hc & Hk). exists k. split; [right; by exists c | exact Hk].
  - intros params p w2 Hp Hrun2. destruct (steps_show state Ht0 w v w2 Hw Hrun2) as (v2 & Hw2 & Hlat). exact (answers_stay state v v2 w w2 params p Hw Hw2 Hlat Hp).
  - intros n. destruct (follow_segment state w v n (Some (as_min_deployment_ledger state)) None 0%nat Hw) as [m Hm]; [by left | by exists m].
Qed.

(** When the upstream's answer to an idle poll carries a later cursor, the pages end there
    for every client and for ever: once the indexer holds a cursor later than the one the cached pages lead
    to, and no page is cached at that one, no later state of the bootnode, however many pages its
    indexer stores, serves a client that follows the pages more than it did then. *)
Theorem bootnode_ends_at_idle_poll {Up St : Type} {U : Upstream Up} {UL : UpstreamLog U} {B : BootStorage St} {R : BootRepr St} {ET : ErrorText}
    (BL : BootFaultLaws B R) (state : AppState)
    (LA : UpstreamLaws U UL (as_contract_ids state) (as_min_deployment_ledger state) (bc_page_size (as_cfg state))) (w0 w w2 : BootWorld Up St) n es c kv c' :
  0 <= bc_initial_ledger_tip (as_cfg state) -> boot_repr (bw_storage w0) empty_view -> 0 <= bw_ledger_tip w0 -> rtc (boot_step state) w0 w ->
  boot_follow state n (Some (as_min_deployment_ledger state)) None w = (es, (None, Some c)) ->
  (bs_get_cached_get_events_by_cursor c (bw_storage w)).1 = Ok None -> (bs_load_kv (bw_storage w)).1 = Ok kv -> kv_last_cursor kv = Some c' ->
  cursor_rank c < cursor_rank c' -> rtc (boot_step state) w w2 ->
  forall m, (boot_follow state m (Some (as_min_deployment_ledger state)) None w2).1 `prefix_of` es.
Proof.
  intros Ht0 Hs Ht Hrun Hfollow Hc Hkv Hc' Hrank Hrun2. destruct (steps_show state Ht0 w0 empty_view w (empty_shows state w0 Hs Ht) Hrun) as (v & Hw & _).
  destruct (steps_show state Ht0 w v w2 Hw Hrun2) as (v2 & Hw2 & Hlat). destruct (bf_by_cursor _ v c (proj1 Hw)) as (r1 & s1 & x1 & E1 & _ & Hr1). rewrite E1 in Hc. cbn in Hc. subst r1. destruct Hr1 as [Hc _]. symmetry in Hc.
  destruct (bf_kv _ v (proj1 Hw)) as (r3 & s3 & x3 & E3 & _ & Hr3). rewrite E3 in Hkv. cbn in Hkv. subst r3. destruct Hr3 as [-> _]. cbn in Hc'.
  apply (follow_stops state v v2 n c w w2 _ _ 0%nat es Hw Hw2 Hlat); [by left | exact Hfollow | exact Hc | exact (la_closed _ _ Hlat c' c Hc' Hrank Hc)].
Qed.

(** ** A run *)

(** An upstream whose time advances with every request; its second event appears at time 6.
    A cursor is a letter [p] for each event before it and a letter [t] for each unit of time. *)
Definition tick_event (id : string) (ledger : Z) : BootEvent :=
  {| be_type := "contract"; be_ledger := ledger; be_ledger_closed_at := ""; be_contract_id := "pool"; be_id := id; be_operation_index := None;
     be_transaction_index := None; be_tx_hash := None; be_is_successful_contract_call := None; be_topic := []; be_value := "" |}.

Definition tick_log (t : nat) : list BootEvent := if (t <? 6)%nat then [tick_event "e1" 150] else [tick_event "e1" 150; tick_event "e2" 160].

Definition letters (ch : ascii) (s : string) : nat := length (filter (fun x => x = ch) (String.list_ascii_of_string s)).

Definition tick_cursor (k t : nat) : string := String.string_of_list_ascii (replicate k "p"%char ++ replicate t "t"%char).

Definition tick_page (limit k age t : nat) : result RpcError BootEventsResponse * nat :=
  let events := take limit (drop k (tick_log (S t))) in
  (Ok {| br_events := events; br_latest_ledger := 200000; br_latest_ledger_close_time := ""; br_oldest_ledger := 1; br_oldest_ledger_close_time := "";
         br_cursor := tick_cursor (k + length events) (Nat.max age (S t)) |}, S t).

#[local] Instance tick_upstream : Upstream nat := {|
  up_get_latest_ledger t := (Ok {| bl_id := ""; bl_protocol_version := 23; bl_sequence := 200000 |}, S t);
  up_get_events p t :=
    let limit := default 0%nat (pg_limit (bp_pagination p)) in
    match bp_start_ledger p, pg_cursor (bp_pagination p) with
    | Some l, None => if l =? 100 then tick_page limit 0 0 t else (Err RpcSerde, t)
    | None, Some c => tick_page limit (letters "p" c) (letters "t" c) t
    | _, _ => (Err RpcSerde, t)
    end;
|}.

#[local] Instance tick_upstream_log : UpstreamLog tick_upstream := {|
  up_log := tick_log;
  cursor_at c k := letters "p" c = k;
  cursor_rank c := Z.of_nat (letters "t" c);
|}.

Lemma letters_cursor k t : letters "p" (tick_cursor k t) = k /\ letters "t" (tick_cursor k t) = t.
Proof.
  unfold letters, tick_cursor. rewrite String.list_ascii_of_string_of_list_ascii, !filter_app, !length_app.
  assert (forall (a b : ascii) n, length (filter (fun x => x = a) (replicate n b)) = if bool_decide (b = a) then n else 0%nat) as H.
  { intros a b n. induction n as [|n IH]; [by case_bool_decide |]. cbn [replicate]. rewrite filter_cons. revert IH. case_decide; case_bool_decide; try done. intros IH. cbn [length]. by rewrite IH. }
  rewrite !H. change (bool_decide ("p"%char = "p"%char)) with true. change (bool_decide ("t"%char = "t"%char)) with true.
  change (bool_decide ("p"%char = "t"%char)) with false. change (bool_decide ("t"%char = "p"%char)) with false. cbv iota. split; [apply Nat.add_0_r | reflexivity].
Qed.

Lemma tick_log_grows t t' : (t <= t')%nat -> tick_log t `prefix_of` tick_log t'.
Proof.
  intros H. unfold tick_log. destruct (Nat.ltb_spec t 6), (Nat.ltb_spec t' 6); try lia; [done | by exists [tick_event "e2" 160] | done].
Qed.

Lemma tick_laws ids : UpstreamLaws tick_upstream tick_upstream_log ids 100 2.
Proof.
  split.
  - intros u r u' [= <- <-]. split; [apply tick_log_grows; lia |]. intros l [= <-]. split; cbn; lia.
  - intros p u r u' H. cbn in H. destruct (bp_start_ledger p) as [l|], (pg_cursor (bp_pagination p)) as [c|]; try (injection H as _ <-; done);
      [destruct (l =? 100); [| injection H as _ <-; done] |]; injection H as _ <-; apply tick_log_grows; lia.
  - intros u start_ledger cursor k p u' [(-> & -> & ->)|(c & -> & -> & Hc)] H; cbn in H; injection H as <- <-; cbn [br_events br_cursor br_latest_ledger br_oldest_ledger].
    + split; [reflexivity |]. split; [apply letters_cursor |]. split; split; cbn; lia.
    + cbn in Hc. subst k. split; [reflexivity |]. split; [apply letters_cursor |]. split; split; cbn; lia.
  - intros u c p u' H. cbn in H. injection H as <- <-. cbn [cursor_rank tick_upstream_log br_cursor]. rewrite (proj2 (letters_cursor _ _)). lia.
  - intros c k k' <- <-. reflexivity.
  - intros u. cbn. unfold tick_log. destruct (u <? 6)%nat; repeat constructor; cbn; lia.
  - split; cbn; lia.
Qed.

Definition tick_config : BootConfig :=
  {| bc_redirect_days := 5; bc_ledger_seconds := 5; bc_max_pages_per_round := 10; bc_page_size := 2; bc_initial_ledger_tip := 0 |}.

Definition tick_state : AppState := {| as_cfg := tick_config; as_contract_ids := ["pool"]; as_min_deployment_ledger := 100 |}.

#[local] Instance tick_text : ErrorText := {| error_text _ := "" |}.

(** [LIMIT 1] takes the first row. *)
#[local] Instance first_row : PgLimit := {| limit_one := head |}.

Lemma first_row_laws : PgLimitLaws first_row.
Proof. split; [done |]. intros [|r l] H; [done |]. exists r. split; [done | apply list_elem_of_here]. Qed.

Definition tick_rounds {St} `{BootStorage St} (n : nat) (s : St) : BootWorld nat St := Nat.iter n (fun w => (run_round tick_state w).2) (BW 0%nat s 0).

Lemma tick_rounds_run {St} `{BootStorage St} (s : St) n m : rtc (boot_step tick_state) (tick_rounds n s) (tick_rounds (m + n) s).
Proof. induction m as [|m IH]; [done |]. eapply rtc_r; [exact IH | apply step_round]. Qed.

(** A Postgres whose twelfth request fails: in the first round, the statement that moves the
    cursor past the page just stored. *)
Definition tick_faulty : Postgres := pg_set_ahead (replicate 11 PgAnswers ++ [PgFails]) Postgres_init.

(** The first round, the second event, a second round. *)
Definition tick_cut : BootWorld nat Postgres := (run_round tick_state (BW 0%nat tick_faulty 0)).2.
Definition tick_resumed : BootWorld nat Postgres := (run_round tick_state (BW 6%nat (bw_storage tick_cut) (bw_ledger_tip tick_cut))).2.

Lemma tick_cut_run : rtc (boot_step tick_state) (BW 0%nat tick_faulty 0) tick_cut.
Proof. apply rtc_once, step_round. Qed.

Lemma tick_resumed_run : rtc (boot_step tick_state) tick_cut tick_resumed.
Proof.
  transitivity (BW 6%nat (bw_storage tick_cut) (bw_ledger_tip tick_cut)); apply rtc_once; [apply step_chain | apply step_round].
  apply tick_log_grows. apply Nat.leb_le. vm_compute. reflexivity.
Qed.

Lemma bootnode_serves_upstream_witness :
  let first_page := for_contracts ["pool"] (Some 100) None 2 in
  (run_round tick_state (BW 0%nat tick_faulty 0)).1 = Err (BootStorageFailed PgStatement) /\
  exists p, (boot_get_events tick_state first_page tick_cut).1 = Ok p /\
    match (boot_get_events tick_state first_page tick_resumed).1 with
    | Ok p2 => p2 = p
    | Err e => e = retention_handoff (cutoff tick_state tick_resumed) \/ exists f, e = storage_failed f
    end.
Proof.
  split; [vm_compute; reflexivity |]. eexists. split; [vm_compute; reflexivity |].
  apply (bootnode_serves_upstream (postgres_faults (LL := first_row_laws)) tick_state (tick_laws ["pool"]) (BW 0%nat tick_faulty 0) tick_cut).
  - cbn. lia.
  - apply postgres_init_view.
  - cbn. lia.
  - apply tick_cut_run.
  - vm_compute. reflexivity.
  - apply tick_resumed_run.
Defined.

(** After the first round the pages lead past the first event only.  Two rounds later the second
    event is stored, and a client still gets the first one only. *)
Lemma bootnode_ends_at_idle_poll_witness :
  tick_log (bw_upstream (tick_rounds 3 InMemory_new)) = [tick_event "e1" 150; tick_event "e2" 160] /\
  size (cache_by_cursor_in (bw_storage (tick_rounds 3 InMemory_new))) = 1%nat /\
  forall m, (boot_follow tick_state m (Some 100) None (tick_rounds 3 InMemory_new)).1 `prefix_of` [tick_event "e1" 150].
Proof.
  split; [vm_compute; reflexivity |]. split; [vm_compute; reflexivity |].
  apply (bootnode_ends_at_idle_poll (reliable_store in_memory_laws) tick_state (tick_laws ["pool"]) (tick_rounds 0 InMemory_new) (tick_rounds 1 InMemory_new) (tick_rounds 3 InMemory_new)
    5 [tick_event "e1" 150] "ptt" {| kv_last_cursor := Some "pttt"; kv_last_fully_indexed_ledger := 200000; kv_ledger_tip := 200000; kv_in_sync := true |} "pttt").
  - cbn. lia.
  - apply in_memory_new_repr.
  - cbn. lia.
  - apply (tick_rounds_run InMemory_new 0 1).
  - vm_compute. reflexivity.
  - vm_compute. reflexivity.
  - vm_compute. reflexivity.
  - reflexivity.
  - vm_compute. reflexivity.
  - apply (tick_rounds_run InMemory_new 1 2).
Defined.

(** A round cut between the page and the cursor has the same end.  The next round asks again from
    the old cursor, gets a longer page, finds the place taken, and moves past both events: no page is ever
    stored at the cursor that the first page leads to, and no client is ever served the second event. *)
Lemma bootnode_ends_after_cut_round w2 : rtc (boot_step tick_state) tick_resumed w2 ->
  tick_log (bw_upstream tick_resumed) = [tick_event "e1" 150; tick_event "e2" 160] /\
  forall m, (boot_follow tick_state m (Some 100) None w2).1 `prefix_of` [tick_event "e1" 150].
Proof.
  intros Hrun. split; [vm_compute; reflexivity |].
  apply (bootnode_ends_at_idle_poll (postgres_faults (LL := first_row_laws)) tick_state (tick_laws ["pool"]) (BW 0%nat tick_faulty 0) tick_resumed w2 5 [tick_event "e1" 150] "ptt"
    {| kv_last_cursor := Some "ppttttttttt"; kv_last_fully_indexed_ledger := 200000; kv_ledger_tip := 200000; kv_in_sync := true |} "ppttttttttt").
  - cbn. lia.
  - apply postgres_init_view.
  - cbn. lia.
  - etrans; [apply tick_cut_run | apply tick_resumed_run].
  - vm_compute. reflexivity.
  - vm_compute. reflexivity.
  - vm_compute. reflexivity.
  - reflexivity.
  - vm_compute. reflexivity.
  - exact Hrun.
Qed.
