(* ===== verification/Listener.v ===== *)
(** * The event listener of the web client

    [app/crates/platforms/web/src/events.rs]: the choice between the wallet's RPC node and a
    bootnode, the loop that follows the bootnode until it hands off, and the return to the
    wallet's node.  The bootnode of [Bootnode] is a node of the client. *)

From stdpp Require Import strings sorting relations.
From S2P Require Import Prelude Ints Amounts Poseidon2Tables Hashes ScVals Storage Queries Rpc Indexer Bootnode BootnodeTheorems.

(** ** The bootnode as a node of the client *)

Definition client_event (e : BootEvent) : RpcEvent :=
  {| ev_ledger := be_ledger e; ev_contract_id := be_contract_id e; ev_id := be_id e; ev_topic := be_topic e; ev_value := be_value e |}.

Definition client_response (r : BootEventsResponse) : GetEventsResponse :=
  {| er_events := client_event <$> br_events r; er_latest_ledger := br_latest_ledger r; er_oldest_ledger := br_oldest_ledger r; er_cursor := br_cursor r |}.

Definition client_error (e : ErrorObject) : RpcError := JsonRpc (eo_code e) (eo_message e).

(** The request as the bootnode decodes it. *)
Definition boot_params (p : GetEventsParams) : BootEventsParams :=
  {| bp_filters := match gp_type p with
                   | Some type => [{| cf_type := type; cf_topics := gp_topics p; cf_contract_ids := gp_contract_ids p |}]
                   | None => []
                   end;
     bp_pagination := {| pg_limit := gp_limit p; pg_cursor := gp_cursor p |}; bp_start_ledger := gp_start_ledger p; bp_end_ledger := gp_end_ledger p; bp_xdr_format := None |}.

Definition method_not_found {W A} : IO W RpcError A := io_throw (JsonRpc (-32601) "Method not found").

#[export] Instance boot_node {Up St} `{Upstream Up} `{BootStorage St} `{ErrorText} (state : AppState) : RpcNode (BootWorld Up St) := {|
  rpc_get_events p := r ← io_map_err client_error (boot_get_events state (boot_params p)); mret (client_response r);
  rpc_get_latest_ledger := r ← io_map_err client_error boot_get_latest_ledger; mret (bl_sequence r);
  rpc_get_ledger_entries _ := method_not_found;
  rpc_simulate_transaction _ := method_not_found;
  rpc_send_transaction _ := method_not_found;
  rpc_get_transaction _ := method_not_found;
|}.

(** ** The listener *)

Definition WEB_RETENTION_HANDOFF_CODE : Z := -32002.

Definition is_retention_handoff (e : RpcError) : bool := match e with JsonRpc code _ => code =? WEB_RETENTION_HANDOFF_CODE | _ => false end.

(** [downcast_ref::<RpcError>()]. *)
Definition is_rpc_sync_gap (e : IndexerError) : bool := match e with IndexerRpc (RpcSyncGap _) => true | _ => false end.
Definition is_retention_handoff_err (e : IndexerError) : bool := match e with IndexerRpc e => is_retention_handoff e | _ => false end.

Inductive BootnodeCheckError : Type :=
| CheckSyncGap (e : IndexerError)
| CheckFailed (e : IndexerError).

(** The bootnode of the settings, if it is enabled and has a url ([workers/storage.rs]). *)
Definition stored_bootnode_url `{SerdeJson BootnodeSetting} (a : AppDb) : option string :=
  match get_setting_json a APP_SETTING_BOOTNODE_CONFIG with
  | Ok (Some config) => if bs_enabled config && negb (bool_decide (bs_url config = EmptyString)) then Some (bs_url config) else None
  | _ => None
  end.

(** Why a listener ends before its main loop. *)
Inductive ListenEnd : Type :=
| InvalidConfig
| SyncGapNoBootnode (e : IndexerError)
| CursorsNotCleared (e : StorageError)
| BootnodeInitFailed (e : IndexerError)
| WalletInitFailed (e : IndexerError)
| ListenInitFailed (e : IndexerError).

Section Listener.

Context {Wallet Boot St : Type} {NW : RpcNode Wallet} {NB : RpcNode Boot} {CD : ContractDataStorage St}.

(** The statement [clear_indexing_cursors] of the storage, and the pause between two rounds, in
    which the nodes go on. *)
Variable clear_cursors : St -> result StorageError unit * St.
Variable pause : Wallet * Boot * St -> Wallet * Boot * St.
Variable config : ContractConfig.

Local Abbreviation LW := (Wallet * Boot * St)%type.

Definition on_wallet {E A} (m : IO (Wallet * St) E A) : IO LW E A := fun '(wallet, boot, s) =>
  let '(r, (wallet, s)) := m (wallet, s) in (r, (wallet, boot, s)).
Definition on_boot {E A} (m : IO (Boot * St) E A) : IO LW E A := fun '(wallet, boot, s) =>
  let '(r, (boot, s)) := m (boot, s) in (r, (wallet, boot, s)).
Definition on_bridge {A} (m : St -> result StorageError A * St) : IO LW StorageError A := fun '(wallet, boot, s) =>
  let '(r, s) := m s in (r, (wallet, boot, s)).

(** The url of a bootnode when the wallet's node does not reach back far enough. *)
Definition bootnode_check (bootnode_url stored_url : option string) : IO LW BootnodeCheckError (option string) := fun w =>
  match on_wallet (Indexer_init config) w with
  | (Ok _, w) => (Ok None, w)
  | (Err e, w) =>
      if is_rpc_sync_gap e then
        match match bootnode_url with Some url => Some url | None => stored_url end with
        | Some url => (Ok (Some url), w)
        | None => (Err (CheckSyncGap e), w)
        end
      else (Err (CheckFailed e), w)
  end.

(** The loop over the bootnode's pages, until it hands off; [None] without fuel. *)
Fixpoint follow_bootnode (fuel : nat) (ix : Indexer) (w : LW) : option LW :=
  match fuel with
  | O => None
  | S fuel =>
      match on_boot (fetch_contract_events ix) w with
      | (Ok _, w) => follow_bootnode fuel ix (pause w)
      | (Err e, w) =>
          if is_retention_handoff_err e then
            match on_bridge clear_cursors w with
            | (Err _, w) => follow_bootnode fuel ix w
            | (Ok _, w) => Some w
            end
          else follow_bootnode fuel ix (pause w)
      end
  end.

(** Everything before the main loop: the indexer it runs, or why there is none. *)
Definition listener_setup (fuel : nat) (has_bootnode : bool) (w : LW) : option ((Indexer + ListenEnd) * LW) :=
  match min_deployment_ledger config with
  | None => Some (inr InvalidConfig, w)
  | Some _ =>
      match on_wallet (Indexer_init config) w with
      | (Ok indexer, w) => Some (inl indexer, w)
      | (Err e, w) =>
          if negb (is_rpc_sync_gap e) then Some (inr (ListenInitFailed e), w)
          else if negb has_bootnode then Some (inr (SyncGapNoBootnode e), w)
          else
            match on_bridge clear_cursors w with
            | (Err e, w) => Some (inr (CursorsNotCleared e), w)
            | (Ok _, w) =>
                let back_to_rpc (w : LW) : option ((Indexer + ListenEnd) * LW) :=
                  match on_wallet (Indexer_init config) w with
                  | (Ok indexer, w) => Some (inl indexer, w)
                  | (Err e, w) => Some (inr (WalletInitFailed e), w)
                  end in
                match on_boot (Indexer_init config) w with
                | (Ok indexer, w) => match follow_bootnode fuel indexer w with Some w => back_to_rpc w | None => None end
                | (Err e, w) => if is_retention_handoff_err e then back_to_rpc w else Some (inr (BootnodeInitFailed e), w)
                end
            end
      end
  end.

(** The main loop, for a number of rounds: a failed round is logged. *)
Fixpoint listener_rounds (rounds : nat) (ix : Indexer) (w : LW) : LW :=
  match rounds with
  | O => w
  | S rounds => listener_rounds rounds ix (pause (on_wallet (fetch_contract_events ix) w).2)
  end.

Definition events_listener (fuel rounds : nat) (has_bootnode : bool) (w : LW) : option (option ListenEnd * LW) :=
  match listener_setup fuel has_bootnode w with
  | None => None
  | Some (inr reason, w) => Some (Some reason, w)
  | Some (inl indexer, w) => Some (None, listener_rounds rounds indexer w)
  end.

End Listener.

(** ** A client that was offline

    The wallet's node, the bootnode and the listener together: where the listener of a client
    that falls behind the wallet's node ends. *)

(** ** Cursors cleared *)

Section OrderMap.

Context {A : Type} (key : A -> Z) (f : A -> A).
Hypothesis key_f : forall x, key (f x) = key x.

Lemma list_merge_map l1 : forall l2, list_merge (by_key key) (f <$> l1) (f <$> l2) = f <$> list_merge (by_key key) l1 l2.
Proof using key_f.
  induction l1 as [|x l1 IH1]; intros l2; [cbn; by rewrite !(list_merge_nil_l (by_key key)) |]. induction l2 as [|y l2 IH2]; [cbn [fmap list_fmap]; by rewrite (list_merge_nil_r (by_key key)) |].
  rewrite !fmap_cons, !(list_merge_cons (by_key key)).
  destruct (decide (by_key key (f x) (f y))) as [H1|H1], (decide (by_key key x y)) as [H2|H2]; try (unfold by_key in H1, H2; rewrite !key_f in H1; lia).
  - rewrite fmap_cons. f_equal. exact (IH1 (y :: l2)).
  - rewrite fmap_cons. f_equal. exact IH2.
Qed.

(** The runs of the sort, changed. *)
Definition map_runs (st : list (option (list A))) : list (option (list A)) := map (fun o => match o with Some l => Some (f <$> l) | None => None end) st.

Lemma merge_list_to_stack_map (st : list (option (list A))) : forall l : list A, merge_list_to_stack (by_key key) (map_runs st) (f <$> l) = map_runs (merge_list_to_stack (by_key key) st l).
Proof using key_f.
  induction st as [|[l'|] st IH]; intros l; [done | | done]. cbn [map_runs map merge_list_to_stack]. by rewrite list_merge_map, <- IH.
Qed.

Lemma merge_stack_map (st : list (option (list A))) : merge_stack (by_key key) (map_runs st) = f <$> merge_stack (by_key key) st.
Proof using key_f.
  induction st as [|[l'|] st IH]; [done | | exact IH]. cbn [map_runs map merge_stack]. rewrite <- list_merge_map, <- IH. done.
Qed.

(** A change of the rows that keeps the key commutes with [ORDER BY]. *)
Lemma order_by_map l : order_by key (f <$> l) = f <$> order_by key l.
Proof using key_f.
  unfold order_by, merge_sort. change (@nil (option (list A))) with (map_runs []) at 1. generalize (@nil (option (list A))) as st.
  induction l as [|x l IH]; intros st; [apply merge_stack_map |]. rewrite fmap_cons. cbn [merge_sort_aux]. rewrite <- IH. f_equal. exact (merge_list_to_stack_map st [x]).
Qed.

End OrderMap.

Definition without_cursor (m : SyncMetadata) : SyncMetadata :=
  {| sm_contract_id := sm_contract_id m; sm_cursor := EmptyString; sm_last_indexed_ledger := sm_last_indexed_ledger m; sm_last_fully_indexed_ledger := sm_last_fully_indexed_ledger m |}.

Lemma clear_cursors_metadata d sync : get_sync_metadata d = Ok sync ->
  exists d', clear_indexing_cursors d = (Ok tt, d') /\ get_sync_metadata d' = Ok (without_cursor <$> sync).
Proof.
  intros H. eexists. split; [reflexivity |]. unfold get_sync_metadata in *. cbn [indexing_metadata set_metadata]. rewrite order_by_map by done.
  revert sync H. induction (order_by sr_contract (indexing_metadata d)) as [|r rows IH]; intros sync H; cbn [sync_rows] in H; [by injection H as <- |].
  rewrite fmap_cons. cbn [sync_rows sr_contract sr_indexed sr_fully_indexed sr_cursor]. cbn [contracts set_metadata]. destruct (lookup_address (contracts d) (sr_contract r)) as [address|]; [| by apply IH].
  apply bind_Ok in H as (i & -> & H). apply bind_Ok in H as (fl & -> & H). apply bind_Ok in H as (others & Ho & [= <-]). cbn. rewrite (IH _ Ho). done.
Qed.

(** ** Probes *)

(** The ledger the indexer asks for first. *)
Definition probed (config : ContractConfig) (sync : list SyncMetadata) : option Z :=
  minimum (filter (fun l => 0 < l) (sm_last_indexed_ledger <$> active_sync (all_contract_ids config) sync)).

Lemma probed_without_cursor config sync : probed config (without_cursor <$> sync) = probed config sync.
Proof.
  unfold probed, active_sync. do 2 f_equal. induction sync as [|m sync IH]; [done |]. rewrite fmap_cons, !filter_cons. cbn [sm_contract_id without_cursor].
  case_decide; [by rewrite !fmap_cons, IH | exact IH].
Qed.

Section Init.

Context {Net : Type} {node : RpcNode Net}.
Variable config : ContractConfig.

Lemma init_fails (net net' : Net) (d : Db) sync first ledger e : min_deployment_ledger config = Some first -> get_sync_metadata d = Ok sync -> probed config sync = Some ledger ->
  get_contract_events (all_contract_ids config) ledger 1 None net = (Err e, net') -> (forall newest, e <> RpcAhead newest) ->
  Indexer_init config (net, d) = (Err (IndexerRpc e), (net', d)).
Proof.
  intros Hfirst Hsync Hprobe He Hne. unfold Indexer_init. rewrite Hfirst. erewrite io_bind_run by reflexivity.
  erewrite io_bind_run by (unfold on_storage; cbn [cds_get_sync_state local_storage fst snd]; by rewrite Hsync). cbv zeta. unfold probed in Hprobe. rewrite Hprobe. cbn [from_option id].
  apply io_bind_fail. unfold probe, on_rpc. cbn [fst snd]. rewrite He. destruct e; try reflexivity. by destruct (Hne newest).
Qed.

(** A node that keeps the ledgers of a window, and says so when asked for an older one. *)
Class RetentionNode (ids : list string) (oldest newest : Z) : Prop := {
  rn_gap net ledger limit : ledger < oldest -> exists code message net',
    rpc_get_events (page_request ids (StartLedger ledger) limit) net = (Err (JsonRpc code message), net') /\ parse_ledger_range message = Some (oldest, newest);
}.

Lemma gap_reported oldest newest ledger (net : Net) : RetentionNode (all_contract_ids config) oldest newest -> ledger < oldest ->
  exists net', get_contract_events (all_contract_ids config) ledger 1 None net = (Err (RpcSyncGap oldest), net').
Proof.
  intros RN Hl. destruct (rn_gap net ledger 1 Hl) as (code & message & net' & E & Hm). exists net'. unfold get_contract_events, get_events. apply io_bind_fail.
  unfold io_map_err. unfold page_request in E. rewrite E. unfold events_error. cbn [map_err]. rewrite Hm. by rewrite (proj2 (Z.ltb_lt _ _) Hl).
Qed.

End Init.

(** A bootnode in sync hands off a client that starts from a ledger other than the first. *)
Lemma boot_hands_off {Up St : Type} {U : Upstream Up} {UL : UpstreamLog U} {B : BootStorage St} {R : BootRepr St} {ET : ErrorText} {BL : BootStorageLaws B R}
    (state : AppState) {LA : UpstreamLaws U UL (as_contract_ids state) (as_min_deployment_ledger state) (bc_page_size (as_cfg state))} (w : BootWorld Up St) v ledger :
  world_shows state w v -> bv_in_sync v = true -> 0 < bw_ledger_tip w -> ledger_number ledger -> ledger <> as_min_deployment_ledger state ->
  exists message, get_contract_events (H := boot_node state) (as_contract_ids state) ledger 1 None w = (Err (JsonRpc RETENTION_HANDOFF_CODE message), w).
Proof.
  intros (Hs & Hv & _) Hsync Htip Hl Hne. set (params := boot_params (page_request (as_contract_ids state) (StartLedger ledger) 1)).
  assert (boot_get_events state params w = (Err (retention_handoff (cutoff state w)), w)) as E.
  { assert (is_allowed_filters params (as_contract_ids state) = true) as Hf.
    { unfold is_allowed_filters, params. cbn [bp_filters boot_params page_request gp_type cf_type cf_topics cf_contract_ids gp_topics gp_contract_ids]. rewrite !bool_decide_eq_true_2 by done. done. }
    assert (bv_by_ledger v !! ledger = None) as Hnone.
    { destruct (bv_by_ledger v !! ledger) as [p|] eqn:Ep; [| done]. by destruct (co_by_ledger _ _ _ Hv ledger p Ep) as [-> _]. }
    unfold boot_get_events, get_events_handler, parsed. cbn [params boot_params page_request bp_end_ledger bp_xdr_format bp_start_ledger bp_pagination pg_cursor gp_cursor gp_start_ledger]. cbv iota.
    fold params. rewrite !bool_decide_eq_false_2 by (by intros []). erewrite io_bind_run by reflexivity. rewrite Hf. cbn [negb]. erewrite io_bind_run by reflexivity.
    cbn [pg_start_ledger pg_at_cursor]. rewrite (proj2 (Z.ltb_lt _ _) Htip). fold (cutoff state w). destruct (_ && _); [reflexivity |].
    rewrite (io_bind_run _ _ w None w) by (unfold io_map_err, on_store; rewrite (bl_by_ledger _ v ledger Hs Hl), Hnone; by destruct w).
    unfold serve_cached, cache_miss_or_handoff. cbn [negb]. rewrite (io_bind_run _ _ w (kv_of v) w) by (unfold io_map_err, on_store; rewrite (bl_kv _ v Hs); by destruct w).
    cbn [kv_in_sync kv_of]. by rewrite Hsync. }
  eexists. unfold get_contract_events, get_events. apply io_bind_fail. unfold io_map_err. cbn [rpc_get_events boot_node].
  unfold params, page_request in E. cbn [gp_cursor] in *. erewrite io_bind_fail by (unfold io_map_err; by rewrite E). reflexivity.
Qed.

(** ** The theorem *)

(** C22. A client that has followed the pool up to a ledger which the wallet's node no longer keeps is not
    helped by a bootnode, although the bootnode has every event: a bootnode in sync has a page for
    the deployment ledger only and for cursors, which the listener has just cleared, so it hands the client off
    at once, and the listener ends because the wallet's node again reports the gap. *)
Theorem offline_client_never_resumes {Wallet Up St : Type} {NW : RpcNode Wallet} {U : Upstream Up} {UL : UpstreamLog U} {B : BootStorage St} {R : BootRepr St} {ET : ErrorText}
    (BL : BootStorageLaws B R) (state : AppState) (config : ContractConfig)
    (LA : UpstreamLaws U UL (as_contract_ids state) (as_min_deployment_ledger state) (bc_page_size (as_cfg state)))
    (pause : Wallet * BootWorld Up St * Db -> Wallet * BootWorld Up St * Db) (boot0 boot : BootWorld Up St) wallet d sync kv first ledger oldest newest fuel rounds :
  0 <= bc_initial_ledger_tip (as_cfg state) -> boot_repr (bw_storage boot0) empty_view -> 0 <= bw_ledger_tip boot0 -> rtc (boot_step state) boot0 boot ->
  (bs_load_kv (bw_storage boot)).1 = Ok kv -> kv_in_sync kv = true -> 0 < bw_ledger_tip boot ->
  as_contract_ids state = all_contract_ids config -> min_deployment_ledger config = Some first ->
  RetentionNode (node := NW) (all_contract_ids config) oldest newest ->
  get_sync_metadata d = Ok sync -> probed config sync = Some ledger -> ledger_number ledger -> ledger < oldest -> ledger <> as_min_deployment_ledger state ->
  exists wallet' d', events_listener (NB := boot_node state) clear_indexing_cursors pause config fuel rounds true (wallet, boot, d)
    = Some (Some (WalletInitFailed (IndexerRpc (RpcSyncGap oldest))), (wallet', boot, d')).
Proof.
  intros Ht0 Hs Ht Hrun Hkv Hin Htip Hids Hfirst RN Hsync Hprobe Hl Hold Hne. pose proof (reliable_store BL) as BF.
  destruct (steps_show state Ht0 boot0 empty_view boot (empty_shows state boot0 Hs Ht) Hrun) as (v & Hw & _).
  rewrite (bl_kv _ v (proj1 Hw)) in Hkv. injection Hkv as <-. destruct (boot_hands_off state boot v ledger Hw Hin Htip Hl Hne) as (message & Hboot). rewrite Hids in Hboot.
  destruct (gap_reported config oldest newest ledger wallet RN Hold) as (wallet1 & Hg1). destruct (gap_reported config oldest newest ledger wallet1 RN Hold) as (wallet2 & Hg2).
  destruct (clear_cursors_metadata d sync Hsync) as (d' & Hclear & Hsync'). pose proof (eq_trans (probed_without_cursor config sync) Hprobe) as Hprobe'.
  exists wallet2, d'. unfold events_listener, listener_setup. rewrite Hfirst. unfold on_wallet at 1.
  rewrite (init_fails config wallet wallet1 d sync first ledger _ Hfirst Hsync Hprobe Hg1) by discriminate. cbn [is_rpc_sync_gap negb].
  unfold on_bridge. rewrite Hclear. unfold on_boot at 1. rewrite (init_fails config boot boot d' _ first ledger _ Hfirst Hsync' Hprobe' Hboot) by discriminate.
  cbn [is_retention_handoff_err is_retention_handoff]. change (RETENTION_HANDOFF_CODE =? WEB_RETENTION_HANDOFF_CODE) with true. cbv iota. unfold on_wallet.
  by rewrite (init_fails config wallet1 wallet2 d' _ first ledger _ Hfirst Hsync' Hprobe' Hg2) by discriminate.
Qed.

(** ** A run *)

(** The deployment has a pool since ledger 100; the wallet's node keeps the ledgers from 180000;
    the client has last followed the pool up to ledger 150. *)
Definition away_config : ContractConfig :=
  {| cfg_network := "testnet"; cfg_deployer := "admin"; cfg_admin := "admin"; cfg_asp_membership := "asp"; cfg_asp_non_membership := "asp-non"; cfg_verifier := "verifier";
     cfg_public_key_registry := "registry";
     cfg_pools := [{| pool_contract_id := "pool"; token_contract_id := "xlm"; deployment_ledger := 100; pool_enabled := true; pool_asset := Native |}] |}.

Definition away_state : AppState := {| as_cfg := tick_config; as_contract_ids := all_contract_ids away_config; as_min_deployment_ledger := 100 |}.

#[local] Existing Instance tick_upstream.
#[local] Existing Instance tick_upstream_log.
#[local] Existing Instance tick_text.

Definition away_boot : BootWorld nat InMemory := (run_round away_state (BW 0%nat InMemory_new 0)).2.

#[local] Instance away_wallet : RpcNode unit := {|
  rpc_get_events p net :=
    match gp_start_ledger p with
    | Some l => if l <? 180000 then (Err (JsonRpc (-32600) "startLedger must be within the ledger range: 180000 - 200000"), net) else (Err RpcSerde, net)
    | None => (Err RpcSerde, net)
    end;
  rpc_get_latest_ledger net := (Ok 200000, net);
  rpc_get_ledger_entries _ := io_throw RpcSerde;
  rpc_simulate_transaction _ := io_throw RpcSerde;
  rpc_send_transaction _ := io_throw RpcSerde;
  rpc_get_transaction _ := io_throw RpcSerde;
|}.

Lemma away_retention ids : RetentionNode (node := away_wallet) ids 180000 200000.
Proof.
  split. intros [] ledger limit Hl. exists (-32600), "startLedger must be within the ledger range: 180000 - 200000", tt. split; [| vm_compute; reflexivity].
  cbn. by rewrite (proj2 (Z.ltb_lt _ _) Hl).
Qed.

Definition away_db : Db := (save_sync_progress [{| sm_contract_id := "pool"; sm_cursor := "ptt"; sm_last_indexed_ledger := 150; sm_last_fully_indexed_ledger := 0 |}] false empty_db).2.

Lemma offline_client_never_resumes_witness :
  exists wallet' d', events_listener (NB := boot_node away_state) clear_indexing_cursors (fun w => w) away_config 10 10 true (tt, away_boot, away_db)
    = Some (Some (WalletInitFailed (IndexerRpc (RpcSyncGap 180000))), (wallet', away_boot, d')).
Proof.
  apply (offline_client_never_resumes in_memory_laws away_state away_config (tick_laws _) (fun w => w) (BW 0%nat InMemory_new 0) away_boot tt away_db
    [{| sm_contract_id := "pool"; sm_cursor := "ptt"; sm_last_indexed_ledger := 150; sm_last_fully_indexed_ledger := 0 |}]
    {| kv_last_cursor := Some "pttt"; kv_last_fully_indexed_ledger := 200000; kv_ledger_tip := 200000; kv_in_sync := true |} 100 150 180000 200000 10 10).
  - cbn. lia.
  - apply in_memory_new_repr.
  - cbn. lia.
  - apply rtc_once, step_round.
  - vm_compute. reflexivity.
  - reflexivity.
  - vm_compute. reflexivity.
  - reflexivity.
  - reflexivity.
  - apply away_retention.
  - vm_compute. reflexivity.
  - vm_compute. reflexivity.
  - split; cbn; lia.
  - lia.
  - discriminate.
Defined.
