(* ===== verification/R1cs.v ===== *)
(** * The R1CS file parser ([sdk/prover/src/r1cs.rs])

    The parser reads Circom's binary constraint files with a cursor; here it is a reader over
    the data with the cursor's position as state.  [usize] is 64 bits wide on servers and 32
    in the browser: its width is a parameter.  The capacities given to [Vec] are left out.
    The format is stated on its own as an encoder of sections, and the parser inverts it. *)

From S2P Require Import Prelude Ints Amounts.

(** ** Data *)

Record Term : Type := { wire_id : Z; coefficient : Z }.
Abbreviation LinearCombination := (list Term).
Record Constraint : Type := { lc_a : LinearCombination; lc_b : LinearCombination; lc_c : LinearCombination }.

Record R1CS : Type := {
  num_wires : Z;
  num_pub_out : Z;
  num_pub_in : Z;
  num_prv_in : Z;
  num_public : Z;
  constraints : list Constraint;
}.

Record R1CSHeader : Type := {
  h_field_size : Z;
  h_num_wires : Z;
  h_num_pub_out : Z;
  h_num_pub_in : Z;
  h_num_prv_in : Z;
  h_num_constraints : Z;
}.

Inductive R1csError : Type :=
| CursorOverflow               (** "Overflow in cursor position" *)
| SkipOverflow                 (** "Overflow in cursor skip" *)
| UnexpectedEnd                (** "Unexpected end of R1CS data" *)
| InvalidMagic                 (** "Invalid R1CS magic number" *)
| UnsupportedVersion (v : Z)   (** "Unsupported R1CS version: {}" *)
| SectionTooLarge              (** "Section size too large" *)
| InvalidCursor                (** "Invalid cursor position" *)
| InvalidRemaining             (** "Invalid remaining bytes calculation" *)
| MissingHeader                (** "Missing R1CS header section" *)
| PublicOverflow               (** "Overflow calculating num_public" *)
| UnsupportedFieldSize (n : Z). (** "Unsupported field size: {} (expected 32)" *)

(** ** The cursor *)

(** A step of the cursor: from a position to a value and a position. *)
Definition CM (A : Type) : Type := Z -> result R1csError (A * Z).

#[export] Instance cm_ret : MRet CM := fun A a pos => Ok (a, pos).
#[export] Instance cm_bind : MBind CM := fun A B k m pos =>
  match m pos with Ok (a, pos') => k a pos' | Err e => Err e end.

Section parser.
Variable usize_bits : Z.
Variable data : bytes.

Definition cfail {A} (e : R1csError) : CM A := fun _ => Err e.
Definition cfail_if (b : bool) (e : R1csError) : CM unit := if b then cfail e else mret tt.
Definition clift {A} (o : option A) (e : R1csError) : CM A := match o with Some a => mret a | None => cfail e end.
Definition position : CM Z := fun pos => Ok (pos, pos).
Definition set_position (p : Z) : CM unit := fun _ => Ok (tt, p).

Definition data_slice (start end_ : Z) : bytes := take (Z.to_nat (end_ - start)) (drop (Z.to_nat start) data).

Definition read_bytes (n : Z) : CM bytes :=
  pos ← position;
  end_ ← clift (checked_add usize_bits pos n) CursorOverflow;
  cfail_if (zlength data <? end_) UnexpectedEnd;;
  set_position end_;;
  mret (data_slice pos end_).

Definition read_u32_le : CM Z := b ← read_bytes 4; mret (le_value b).
Definition read_u64_le : CM Z := b ← read_bytes 8; mret (le_value b).

Definition skip (n : Z) : CM unit :=
  pos ← position;
  end_ ← clift (checked_add usize_bits pos n) SkipOverflow;
  cfail_if (zlength data <? end_) UnexpectedEnd;;
  set_position end_.

(** ** The parser *)

Definition parse_header : CM R1CSHeader :=
  field_size ← read_u32_le;
  cfail_if (negb (field_size =? 32)) (UnsupportedFieldSize field_size);;
  skip field_size;;
  wires ← read_u32_le;
  pub_out ← read_u32_le;
  pub_in ← read_u32_le;
  prv_in ← read_u32_le;
  _num_labels ← read_u64_le;
  n ← read_u32_le;
  mret {| h_field_size := field_size; h_num_wires := wires; h_num_pub_out := pub_out; h_num_pub_in := pub_in;
          h_num_prv_in := prv_in; h_num_constraints := n |}.

(** The loops [for _ in 0..n]: structural on the counter. *)
Fixpoint parse_terms (n : nat) (field_size : Z) : CM LinearCombination :=
  match n with
  | O => mret []
  | S n =>
      wire ← read_u32_le;
      coeff_bytes ← read_bytes field_size;
      rest ← parse_terms n field_size;
      mret ({| wire_id := wire; coefficient := le_value coeff_bytes mod BN_P |} :: rest)
  end.

Definition parse_linear_combination (field_size : Z) : CM LinearCombination :=
  num_terms ← read_u32_le; parse_terms (Z.to_nat num_terms) field_size.

Fixpoint parse_constraints_loop (n : nat) (field_size : Z) : CM (list Constraint) :=
  match n with
  | O => mret []
  | S n =>
      a ← parse_linear_combination field_size;
      b ← parse_linear_combination field_size;
      c ← parse_linear_combination field_size;
      rest ← parse_constraints_loop n field_size;
      mret ({| lc_a := a; lc_b := b; lc_c := c |} :: rest)
  end.

Definition parse_constraints (header : R1CSHeader) : CM (list Constraint) :=
  parse_constraints_loop (Z.to_nat (h_num_constraints header)) (h_field_size header).

(** One section of the first pass. *)
Definition parse_section (acc : option R1CSHeader * option (Z * Z)) : CM (option R1CSHeader * option (Z * Z)) :=
  section_type ← read_u32_le;
  section_size ← read_u64_le;
  section_start ← position;
  section_size_usize ← clift (try_into_u usize_bits section_size) SectionTooLarge;
  acc ←
    (if section_type =? 1 then h ← parse_header; mret (Some h, acc.2)
     else if section_type =? 2 then skip section_size_usize;; mret (acc.1, Some (section_start, section_size_usize))
     else skip section_size_usize;; mret acc);
  pos ← position;
  consumed ← clift (checked_sub pos section_start) InvalidCursor;
  (if consumed <? section_size_usize then
     remaining ← clift (checked_sub section_size_usize consumed) InvalidRemaining;
     skip remaining
   else mret tt);;
  mret acc.

Fixpoint parse_sections (n : nat) (acc : option R1CSHeader * option (Z * Z)) : CM (option R1CSHeader * option (Z * Z)) :=
  match n with
  | O => mret acc
  | S n => acc ← parse_section acc; parse_sections n acc
  end.

Definition r1cs_magic : bytes := [114; 49; 99; 115].

Definition parse_r1cs : CM R1CS :=
  magic ← read_bytes 4;
  cfail_if (negb (bool_decide (magic = r1cs_magic))) InvalidMagic;;
  version ← read_u32_le;
  cfail_if (negb (version =? 1)) (UnsupportedVersion version);;
  num_sections ← read_u32_le;
  acc ← parse_sections (Z.to_nat num_sections) (None, None);
  header ← clift acc.1 MissingHeader;
  cs ←
    match acc.2 with
    | Some (start, _) => set_position start;; parse_constraints header
    | None => mret []
    end;
  public ← clift (checked_add 32 (h_num_pub_out header) (h_num_pub_in header)) PublicOverflow;
  mret {| num_wires := h_num_wires header; num_pub_out := h_num_pub_out header; num_pub_in := h_num_pub_in header;
          num_prv_in := h_num_prv_in header; num_public := public; constraints := cs |}.

End parser.

(** [R1CS::parse]. *)
Definition R1CS_parse (usize_bits : Z) (data : bytes) : result R1csError R1CS :=
  match parse_r1cs usize_bits data 0 with Ok (r, _) => Ok r | Err e => Err e end.

Definition num_constraints (r : R1CS) : Z := zlength (constraints r).

(** ** The format

    A file is a list of sections in any order; a section that is neither a header nor
    constraints is skipped whatever its content. *)

Inductive R1csSection : Type :=
| HeaderSection (prime : bytes) (h : R1CSHeader) (labels : Z) (padding : bytes)
| ConstraintSection (cs : list Constraint) (padding : bytes)
| OtherSection (ty : Z) (content : bytes).

Definition encode_term (t : Term) : bytes := le_bytes 4 (wire_id t) ++ le_bytes 32 (coefficient t).
Definition encode_lc (l : LinearCombination) : bytes := le_bytes 4 (zlength l) ++ concat (encode_term <$> l).
Definition encode_constraint (c : Constraint) : bytes := encode_lc (lc_a c) ++ encode_lc (lc_b c) ++ encode_lc (lc_c c).

Definition section_type (s : R1csSection) : Z :=
  match s with HeaderSection _ _ _ _ => 1 | ConstraintSection _ _ => 2 | OtherSection ty _ => ty end.

Definition section_content (s : R1csSection) : bytes :=
  match s with
  | HeaderSection prime h labels padding =>
      le_bytes 4 (h_field_size h) ++ prime ++ le_bytes 4 (h_num_wires h) ++ le_bytes 4 (h_num_pub_out h) ++
      le_bytes 4 (h_num_pub_in h) ++ le_bytes 4 (h_num_prv_in h) ++ le_bytes 8 labels ++
      le_bytes 4 (h_num_constraints h) ++ padding
  | ConstraintSection cs padding => concat (encode_constraint <$> cs) ++ padding
  | OtherSection _ content => content
  end.

Definition encode_section (s : R1csSection) : bytes :=
  le_bytes 4 (section_type s) ++ le_bytes 8 (zlength (section_content s)) ++ section_content s.

Definition encode_file (secs : list R1csSection) : bytes :=
  r1cs_magic ++ le_bytes 4 1 ++ le_bytes 4 (zlength secs) ++ concat (encode_section <$> secs).

Definition is_u32 (x : Z) : Prop := 0 <= x < 2 ^ 32.

Definition term_ok (t : Term) : Prop := is_u32 (wire_id t) /\ in_field (coefficient t).
Definition lc_ok (l : LinearCombination) : Prop := is_u32 (zlength l) /\ Forall term_ok l.
Definition constraint_ok (c : Constraint) : Prop := lc_ok (lc_a c) /\ lc_ok (lc_b c) /\ lc_ok (lc_c c).

Definition section_ok (s : R1csSection) : Prop :=
  match s with
  | HeaderSection prime h labels _ =>
      length prime = 32%nat /\ h_field_size h = 32 /\ is_u32 (h_num_wires h) /\ is_u32 (h_num_pub_out h) /\
      is_u32 (h_num_pub_in h) /\ is_u32 (h_num_prv_in h) /\ is_u32 (h_num_constraints h)
  | ConstraintSection cs _ => Forall constraint_ok cs
  | OtherSection ty _ => is_u32 ty /\ ty <> 1 /\ ty <> 2
  end.

(** The header and the constraints of a file: of the last such sections. *)
Definition file_header (secs : list R1csSection) : option R1CSHeader :=
  foldl (fun acc s => match s with HeaderSection _ h _ _ => Some h | _ => acc end) None secs.
Definition file_constraints (secs : list R1csSection) : option (list Constraint) :=
  foldl (fun acc s => match s with ConstraintSection cs _ => Some cs | _ => acc end) None secs.

(** ** Reading *)

Section reading.
Variable usize_bits : Z.
Variable data : bytes.

(** What is left to read at a position. *)
Definition rest_at (pos : Z) (rest : bytes) : Prop :=
  0 <= pos <= zlength data /\ drop (Z.to_nat pos) data = rest.

Lemma rest_at_app pos b rest : rest_at pos (b ++ rest) -> rest_at (pos + zlength b) rest.
Proof.
  intros [Hpos Hd]. pose proof (f_equal length Hd) as Hl. rewrite length_drop, length_app in Hl. unfold zlength in *.
  split; [unfold zlength; lia |]. replace (Z.to_nat (pos + Z.of_nat (length b))) with (Z.to_nat pos + length b)%nat by lia.
  rewrite <- drop_drop, Hd. by rewrite drop_app_length.
Qed.

Lemma rest_at_length pos b rest : rest_at pos (b ++ rest) -> pos + zlength b <= zlength data.
Proof. intros [H _]%rest_at_app. lia. Qed.

(** [m] consumes exactly [b] and returns [a]. *)
Definition reads {A} (m : CM A) (b : bytes) (a : A) : Prop :=
  forall pos rest, rest_at pos (b ++ rest) -> m pos = Ok (a, pos + zlength b).

Lemma reads_ret {A} (a : A) : reads (mret a) [] a.
Proof. intros pos rest _. unfold mret, cm_ret, zlength. cbn. by rewrite Z.add_0_r. Qed.

Lemma reads_bind {A B} (m : CM A) (k : A -> CM B) b1 b2 a r :
  reads m b1 a -> reads (k a) b2 r -> reads (m ≫= k) (b1 ++ b2) r.
Proof.
  intros Hm Hk pos rest Hp. rewrite <- app_assoc in Hp. unfold mbind, cm_bind. rewrite (Hm _ _ Hp).
  rewrite (Hk _ _ (rest_at_app _ _ _ Hp)). unfold zlength. rewrite length_app. do 2 f_equal. lia.
Qed.

(** The last read of a sequence. *)
Lemma reads_last {A B} (m : CM A) (g : A -> B) b a : reads m b a -> reads (x ← m; mret (g x)) b (g a).
Proof. intros Hm. rewrite <- (app_nil_r b). eapply reads_bind; [exact Hm | apply reads_ret]. Qed.

Lemma reads_guard {A} c e (m : CM A) b a : c = false -> reads m b a -> reads (cfail_if c e;; m) b a.
Proof. intros -> Hm. exact Hm. Qed.

Hypothesis data_fits : zlength data < 2 ^ usize_bits.

Lemma checked_end pos b rest : rest_at pos (b ++ rest) -> checked_add usize_bits pos (zlength b) = Some (pos + zlength b).
Proof. intros H%rest_at_length. apply checked_add_Some. split; [done | lia]. Qed.

Lemma reads_bytes b : reads (read_bytes usize_bits data (zlength b)) b b.
Proof.
  intros pos rest Hp. unfold read_bytes, position, mbind, cm_bind.
  rewrite (checked_end _ _ _ Hp). cbn [clift mret cm_ret]. unfold cfail_if, mret, cm_ret.
  rewrite (proj2 (Z.ltb_ge _ _)) by (by eapply rest_at_length). cbn [set_position].
  do 2 f_equal. unfold data_slice. destruct Hp as [Hp Hd].
  replace (Z.to_nat (pos + zlength b - pos)) with (length b) by (unfold zlength; lia). by rewrite Hd, take_app_length.
Qed.

Lemma reads_skip b : reads (skip usize_bits data (zlength b)) b tt.
Proof.
  intros pos rest Hp. unfold skip, position, mbind, cm_bind.
  rewrite (checked_end _ _ _ Hp). cbn [clift mret cm_ret]. unfold cfail_if, mret, cm_ret.
  rewrite (proj2 (Z.ltb_ge _ _)) by (by eapply rest_at_length). done.
Qed.

Lemma reads_u32 x : is_u32 x -> reads (read_u32_le usize_bits data) (le_bytes 4 x) x.
Proof.
  intros Hx. unfold read_u32_le. rewrite <- (Z.mod_small x (2 ^ 32)) at 2 by exact Hx.
  change (2 ^ 32) with (256 ^ Z.of_nat 4). rewrite <- le_value_bytes.
  apply (reads_last _ le_value). pose proof (reads_bytes (le_bytes 4 x)) as H.
  unfold zlength in H. rewrite length_le_bytes in H. exact H.
Qed.

Lemma reads_u64 x : reads (read_u64_le usize_bits data) (le_bytes 8 x) (x mod 2 ^ 64).
Proof.
  unfold read_u64_le. change (2 ^ 64) with (256 ^ Z.of_nat 8). rewrite <- le_value_bytes.
  apply (reads_last _ le_value). pose proof (reads_bytes (le_bytes 8 x)) as H.
  unfold zlength in H. rewrite length_le_bytes in H. exact H.
Qed.

(** ** Constraints *)

Lemma reads_terms l : Forall term_ok l -> reads (parse_terms usize_bits data (length l) 32) (concat (encode_term <$> l)) l.
Proof.
  induction 1 as [|t l [Hw Hc] Hl IH]; [apply reads_ret |].
  cbn [length parse_terms fmap list_fmap concat]. unfold encode_term at 1. rewrite <- app_assoc.
  eapply reads_bind; [by apply reads_u32 |].
  eapply reads_bind.
  { pose proof (reads_bytes (le_bytes 32 (coefficient t))) as H. unfold zlength in H. rewrite length_le_bytes in H. exact H. }
  rewrite le_value_bytes, pow_256_32, (Z.mod_small (coefficient t) (2 ^ 256)), Z.mod_small by (exact Hc || by apply in_field_u256).
  destruct t. cbn [wire_id coefficient].
  apply (reads_last _ (fun rest => {| wire_id := wire_id0; coefficient := coefficient0 |} :: rest)). exact IH.
Qed.

Lemma reads_lc l : lc_ok l -> reads (parse_linear_combination usize_bits data 32) (encode_lc l) l.
Proof.
  intros [Hn Hl]. unfold parse_linear_combination, encode_lc. eapply reads_bind; [by apply reads_u32 |].
  unfold zlength. rewrite Nat2Z.id. by apply reads_terms.
Qed.

Lemma reads_constraints cs :
  Forall constraint_ok cs -> reads (parse_constraints_loop usize_bits data (length cs) 32) (concat (encode_constraint <$> cs)) cs.
Proof.
  induction 1 as [|c cs (Ha & Hb & Hc) Hcs IH]; [apply reads_ret |].
  cbn [length parse_constraints_loop fmap list_fmap concat]. unfold encode_constraint at 1. rewrite <- !app_assoc.
  do 3 (eapply reads_bind; [by apply reads_lc |]). destruct c.
  apply (reads_last _ (fun rest => {| lc_a := lc_a0; lc_b := lc_b0; lc_c := lc_c0 |} :: rest)). exact IH.
Qed.

(** ** Sections *)

Lemma reads_header prime h labels padding :
  section_ok (HeaderSection prime h labels padding) ->
  exists b, section_content (HeaderSection prime h labels padding) = b ++ padding /\ reads (parse_header usize_bits data) b h.
Proof.
  intros (Hp & Hf & Hw & Ho & Hi & Hv & Hc). cbn [section_content].
  exists (le_bytes 4 (h_field_size h) ++ prime ++ le_bytes 4 (h_num_wires h) ++ le_bytes 4 (h_num_pub_out h) ++
      le_bytes 4 (h_num_pub_in h) ++ le_bytes 4 (h_num_prv_in h) ++ le_bytes 8 labels ++ le_bytes 4 (h_num_constraints h)).
  split; [by rewrite <- !app_assoc |]. unfold parse_header.
  eapply reads_bind; [apply reads_u32; rewrite Hf; split; [done | reflexivity] |]. apply reads_guard; [by rewrite Hf |].
  eapply reads_bind.
  { replace (h_field_size h) with (zlength prime) by (unfold zlength; rewrite Hp, Hf; done). apply reads_skip. }
  do 4 (eapply reads_bind; [by apply reads_u32 |]). eapply reads_bind; [apply reads_u64 |].
  destruct h; cbn in *. eapply (reads_last _ (fun n => {| h_field_size := _; h_num_constraints := n |})). by apply reads_u32.
Qed.

(** What a section does to the accumulators, when it starts at [pos]. *)
Definition section_effect (s : R1csSection) (start : Z) (acc : option R1CSHeader * option (Z * Z)) : option R1CSHeader * option (Z * Z) :=
  match s with
  | HeaderSection _ h _ _ => (Some h, acc.2)
  | ConstraintSection _ _ => (acc.1, Some (start, zlength (section_content s)))
  | OtherSection _ _ => acc
  end.

(** The body of a section reads a prefix of its content. *)
Definition section_body (ty start size : Z) (acc : option R1CSHeader * option (Z * Z)) : CM (option R1CSHeader * option (Z * Z)) :=
  if ty =? 1 then h ← parse_header usize_bits data; mret (Some h, acc.2)
  else if ty =? 2 then skip usize_bits data size;; mret (acc.1, Some (start, size))
  else skip usize_bits data size;; mret acc.

Lemma section_body_reads s start acc :
  section_ok s ->
  exists b pad, section_content s = b ++ pad /\
    reads (section_body (section_type s) start (zlength (section_content s)) acc) b (section_effect s start acc).
Proof.
  intros Hs. destruct s as [prime h labels padding | cs padding | ty content].
  - destruct (reads_header _ _ _ _ Hs) as (b & E & Hr). exists b, padding. split; [done |].
    unfold section_body. cbn [section_type Z.eqb Pos.eqb]. by apply (reads_last _ (fun h => (Some h, acc.2))).
  - eexists _, []. rewrite app_nil_r. split; [reflexivity |].
    apply (reads_last _ (fun _ => (acc.1, Some (start, _))) _ tt), reads_skip.
  - exists content, []. rewrite app_nil_r. split; [done |]. destruct Hs as (_ & H1 & H2).
    unfold section_body. cbn [section_type section_content section_effect].
    rewrite (proj2 (Z.eqb_neq _ _) H1), (proj2 (Z.eqb_neq _ _) H2). apply (reads_last _ (fun _ => acc) _ tt), reads_skip.
Qed.

(** The bytes a section leaves unread are skipped. *)
Definition section_tail {A} (start size : Z) (acc : A) : CM A :=
  pos ← position;
  consumed ← clift (checked_sub pos start) InvalidCursor;
  (if consumed <? size then
     remaining ← clift (checked_sub size consumed) InvalidRemaining;
     skip usize_bits data remaining
   else mret tt);;
  mret acc.

Lemma section_tail_run {A} start b pad rest (acc : A) :
  rest_at (start + zlength b) (pad ++ rest) ->
  section_tail start (zlength (b ++ pad)) acc (start + zlength b) = Ok (acc, start + zlength (b ++ pad)).
Proof.
  intros Hp. unfold section_tail, position, mbind, cm_bind.
  rewrite (proj2 (checked_sub_Some _ _ (zlength b))) by (unfold zlength; lia). cbn [clift mret cm_ret].
  assert (zlength (b ++ pad) = zlength b + zlength pad) as Hl by (unfold zlength; rewrite length_app; lia). rewrite Hl.
  destruct (Z.ltb_spec (zlength b) (zlength b + zlength pad)) as [Hlt|Hge].
  - rewrite (proj2 (checked_sub_Some _ _ (zlength pad))) by (unfold zlength in *; lia). cbn [clift mret cm_ret].
    unfold mret, cm_ret. rewrite (reads_skip pad _ _ Hp). by rewrite Z.add_assoc.
  - unfold mret, cm_ret. do 2 f_equal. unfold zlength in *. lia.
Qed.

Lemma cm_bind_run {A B} (m : CM A) (k : A -> CM B) pos a pos' : m pos = Ok (a, pos') -> (m ≫= k) pos = k a pos'.
Proof. unfold mbind, cm_bind. by intros ->. Qed.

Lemma cm_guard_run {A} b e (k : CM A) pos : b = false -> (cfail_if b e;; k) pos = k pos.
Proof. by intros ->. Qed.

Lemma parse_section_run s acc pos rest :
  section_ok s -> 0 <= usize_bits <= 64 -> rest_at pos (encode_section s ++ rest) ->
  parse_section usize_bits data acc pos = Ok (section_effect s (pos + 12) acc, pos + zlength (encode_section s)).
Proof.
  intros Hs Hbits Hp. unfold encode_section in Hp. rewrite <- !app_assoc in Hp.
  assert (is_u32 (section_type s)) as Hty by (destruct s; cbn in *; [split; [lia | reflexivity] .. | tauto]).
  pose proof (rest_at_app _ _ _ Hp) as Hp1. pose proof (rest_at_app _ _ _ Hp1) as Hp2.
  pose proof (rest_at_length _ _ _ Hp2) as Hlen. pose proof (proj1 Hp) as Hpos.
  assert (forall n x, zlength (le_bytes n x) = Z.of_nat n) as Hz by (intros; unfold zlength; by rewrite length_le_bytes).
  assert (2 ^ usize_bits <= 2 ^ 64) as Hpow by (apply Z.pow_le_mono_r; lia).
  assert (0 <= zlength (section_content s) < 2 ^ usize_bits) as Hfit by (rewrite !Hz in Hlen; unfold zlength in *; lia).
  unfold parse_section. rewrite (cm_bind_run _ _ _ _ _ (reads_u32 _ Hty _ _ Hp)).
  rewrite (cm_bind_run _ _ _ _ _ (reads_u64 _ _ _ Hp1)). rewrite Z.mod_small by lia.
  rewrite !Hz in *. replace (pos + Z.of_nat 4 + Z.of_nat 8) with (pos + 12) in * by lia.
  rewrite (cm_bind_run position _ _ _ _ eq_refl).
  rewrite (proj2 (try_into_u_Some usize_bits _ (zlength (section_content s)))) by done.
  rewrite (cm_bind_run _ _ _ _ _ (eq_refl : clift (Some _) _ _ = Ok (_, _))).
  destruct (section_body_reads s (pos + 12) acc Hs) as (b & pad & E & Hr).
  rewrite E in Hp2. rewrite <- app_assoc in Hp2. fold (section_body (section_type s) (pos + 12) (zlength (section_content s)) acc).
  rewrite (cm_bind_run _ _ _ _ _ (Hr _ _ Hp2)).
  fold (section_tail (pos + 12) (zlength (section_content s)) (section_effect s (pos + 12) acc)).
  rewrite E, (section_tail_run (pos + 12) b pad rest _ (rest_at_app _ _ _ Hp2)).
  do 2 f_equal. unfold encode_section. rewrite E. unfold zlength. rewrite !length_app, !length_le_bytes. lia.
Qed.

(** ** Files *)

(** The recorded location of the constraints holds them. *)
Definition located (l : option (Z * Z)) (c : option (list Constraint)) : Prop :=
  match l, c with
  | None, None => True
  | Some (start, _), Some cs => Forall constraint_ok cs /\ exists rest, rest_at start (concat (encode_constraint <$> cs) ++ rest)
  | _, _ => False
  end.

Lemma parse_sections_run secs acc pos rest hd cs :
  Forall section_ok secs -> 0 <= usize_bits <= 64 -> rest_at pos (concat (encode_section <$> secs) ++ rest) ->
  acc.1 = hd -> located acc.2 cs ->
  exists loc pos', parse_sections usize_bits data (length secs) acc pos =
    Ok ((foldl (fun acc s => match s with HeaderSection _ h _ _ => Some h | _ => acc end) hd secs, loc), pos') /\
    located loc (foldl (fun acc s => match s with ConstraintSection cs _ => Some cs | _ => acc end) cs secs).
Proof.
  intros Hs Hbits. revert acc pos hd cs. induction Hs as [|s secs Hs Hsecs IH]; intros acc pos hd cs Hp Hhd Hloc.
  - exists acc.2, pos. cbn. split; [| done]. destruct acc; cbn in *. by subst.
  - rewrite fmap_cons in Hp. cbn [concat] in Hp. rewrite <- app_assoc in Hp. cbn [length parse_sections foldl].
    rewrite (cm_bind_run _ _ _ _ _ (parse_section_run s acc pos _ Hs Hbits Hp)).
    apply IH; [by apply rest_at_app | |].
    + destruct s; done.
    + destruct s as [| cs' padding |]; [done | | done]. cbn [section_effect located snd]. split; [done |].
      unfold encode_section in Hp. rewrite <- !app_assoc in Hp. apply rest_at_app, rest_at_app in Hp.
      unfold zlength in Hp. rewrite !length_le_bytes in Hp. replace (pos + Z.of_nat 4 + Z.of_nat 8) with (pos + 12) in Hp by lia.
      cbn [section_content] in Hp. rewrite <- app_assoc in Hp. eauto.
Qed.

End reading.

Lemma parse_encoded usize_bits secs h cs :
  0 <= usize_bits <= 64 -> zlength (encode_file secs) < 2 ^ usize_bits ->
  Forall section_ok secs -> is_u32 (zlength secs) ->
  file_header secs = Some h -> default [] (file_constraints secs) = cs -> (file_constraints secs <> None -> h_num_constraints h = zlength cs) ->
  h_field_size h = 32 -> 0 <= h_num_pub_out h -> 0 <= h_num_pub_in h ->
  R1CS_parse usize_bits (encode_file secs) =
    if h_num_pub_out h + h_num_pub_in h <? 2 ^ 32 then
      Ok {| num_wires := h_num_wires h; num_pub_out := h_num_pub_out h; num_pub_in := h_num_pub_in h;
            num_prv_in := h_num_prv_in h; num_public := h_num_pub_out h + h_num_pub_in h; constraints := cs |}
    else Err PublicOverflow.
Proof.
  intros Hbits Hfit Hs Hn Hh Hcs Hnc Hf Ho Hi. unfold R1CS_parse.
  set (data := encode_file secs) in *.
  assert (rest_at data 0 (data ++ [])) as Hp by (split; [unfold zlength; lia | by rewrite app_nil_r]).
  unfold data at 2 in Hp. unfold encode_file in Hp. rewrite <- !app_assoc in Hp.
  pose proof (rest_at_app _ _ _ _ Hp) as Hp1. pose proof (rest_at_app _ _ _ _ Hp1) as Hp2. pose proof (rest_at_app _ _ _ _ Hp2) as Hp3.
  unfold parse_r1cs.
  rewrite (cm_bind_run _ _ _ _ _ (reads_bytes usize_bits data Hfit r1cs_magic _ _ Hp)).
  rewrite cm_guard_run by (by rewrite bool_decide_true).
  rewrite (cm_bind_run _ _ _ _ _ (reads_u32 usize_bits data Hfit 1 ltac:(split; [done | reflexivity]) _ _ Hp1)).
  rewrite cm_guard_run by reflexivity.
  rewrite (cm_bind_run _ _ _ _ _ (reads_u32 usize_bits data Hfit _ Hn _ _ Hp2)).
  unfold zlength at 1. rewrite Nat2Z.id.
  destruct (parse_sections_run usize_bits data Hfit secs (None, None) _ _ None None Hs Hbits Hp3 eq_refl I) as (loc & pos' & E & Hloc).
  rewrite (cm_bind_run _ _ _ _ _ E). fold (file_header secs). fold (file_constraints secs) in Hloc. rewrite Hh. cbn [fst snd].
  rewrite (cm_bind_run (clift (Some h) _) _ _ _ _ eq_refl).
  assert (exists p, (match loc with Some (start, _) => set_position start;; parse_constraints usize_bits data h | None => mret [] end : CM _) pos'
                    = Ok (cs, p)) as (p & Ec).
  { unfold located in Hloc. destruct loc as [[start size]|], (file_constraints secs) as [cs'|]; try done; cbn [default] in Hcs; subst cs.
    - destruct Hloc as [Hok [rest Hr]]. eexists. rewrite (cm_bind_run (set_position start) _ _ tt start eq_refl).
      unfold parse_constraints. rewrite Hnc, Hf by done. unfold zlength. rewrite Nat2Z.id.
      apply (reads_constraints usize_bits data Hfit cs' Hok _ _ Hr).
    - eexists. reflexivity. }
  rewrite (cm_bind_run _ _ _ _ _ Ec). unfold checked_add. case_if.
  - done.
  - done.
Qed.

(** The header of a file is one of its sections. *)
Lemma file_header_ok secs h acc :
  Forall section_ok secs -> (forall h', acc = Some h' -> exists p l q, section_ok (HeaderSection p h' l q)) ->
  foldl (fun acc s => match s with HeaderSection _ h _ _ => Some h | _ => acc end) acc secs = Some h ->
  exists p l q, section_ok (HeaderSection p h l q).
Proof.
  intros Hs. revert acc. induction Hs as [|s secs Hs Hsecs IH]; intros acc Hacc; cbn [foldl]; [by apply Hacc |].
  apply IH. destruct s; [| done | done]. intros h' [= <-]. eauto.
Qed.

(** ** Properties *)

(** The parser reads the format: whatever the order of the sections, the padding after
    their data and the unknown sections between them, a file of well-formed sections that fits in
    memory parses to the last header and the last constraints, with every wire and coefficient, on a
    64-bit and on a 32-bit machine; the only failure left is the overflow of the number of
    public signals, reported as such. *)
Theorem r1cs_parse_inverts_format (usize_bits : Z) (secs : list R1csSection) (h : R1CSHeader) (cs : list Constraint) :
  0 <= usize_bits <= 64 -> zlength (encode_file secs) < 2 ^ usize_bits -> is_u32 (zlength secs) ->
  Forall section_ok secs -> file_header secs = Some h -> file_constraints secs = Some cs -> h_num_constraints h = zlength cs ->
  R1CS_parse usize_bits (encode_file secs) =
    if h_num_pub_out h + h_num_pub_in h <? 2 ^ 32 then
      Ok {| num_wires := h_num_wires h; num_pub_out := h_num_pub_out h; num_pub_in := h_num_pub_in h;
            num_prv_in := h_num_prv_in h; num_public := h_num_pub_out h + h_num_pub_in h; constraints := cs |}
    else Err PublicOverflow.
Proof.
  intros Hb Hfit Hn Hs Hh Hc Hnum.
  destruct (file_header_ok secs h None Hs ltac:(done) Hh) as (prime & labels & padding & Hok).
  destruct Hok as (_ & Hf & _ & Ho & Hi & _). apply parse_encoded; try done.
  - by rewrite Hc.
  - apply Ho.
  - apply Hi.
Qed.

Definition wit_lc : LinearCombination := [{| wire_id := 1; coefficient := 3 |}; {| wire_id := 2; coefficient := 5 |}].
Definition wit_header : R1CSHeader :=
  {| h_field_size := 32; h_num_wires := 4; h_num_pub_out := 1; h_num_pub_in := 1; h_num_prv_in := 1; h_num_constraints := 1 |}.
(** Constraints before the header, and an unknown section between them. *)
Definition wit_sections : list R1csSection :=
  [ConstraintSection [{| lc_a := wit_lc; lc_b := []; lc_c := wit_lc |}] [9]; OtherSection 3 [1; 2; 3];
   HeaderSection (replicate 32 0) wit_header 4 []].

Lemma r1cs_parse_inverts_format_witness :
  R1CS_parse 32 (encode_file wit_sections) =
  Ok {| num_wires := 4; num_pub_out := 1; num_pub_in := 1; num_prv_in := 1; num_public := 2;
        constraints := [{| lc_a := wit_lc; lc_b := []; lc_c := wit_lc |}] |}.
Proof.
  apply (r1cs_parse_inverts_format 32 wit_sections wit_header [{| lc_a := wit_lc; lc_b := []; lc_c := wit_lc |}]).
  - lia.
  - reflexivity.
  - split; [discriminate | reflexivity].
  - repeat first [split | constructor]; vm_compute; congruence.
  - reflexivity.
  - reflexivity.
  - reflexivity.
Defined.
