(* ===== verification/Prover.v ===== *)
(** * Groth16 proving ([sdk/prover/src/prover.rs])

    Loading a circuit, replaying its constraints on a witness, and the encodings of proofs
    and public inputs.  The arkworks crates are parameters: the constraint system
    ([ConstraintSystem], with the meaning of its three operations as laws) and the Groth16
    functions and serializations ([ArkGroth16]).  A group element is its coordinates. *)

From S2P Require Import Prelude Ints Amounts Hashes R1cs.

(** ** Errors *)

Inductive ProofError : Type :=
| PE_Prover (e : ProverError)          (** an error of the byte conversions *)
| PE_R1cs (e : R1csError)
| PublicInputsSize                     (** "Invalid public inputs size" *)
| PublicInputCount (got expected : Z)  (** "Public input count mismatch" *)
| VerificationError                    (** "Verification error: {}" *)
| ProvingKeyLoad                       (** "Failed to load proving key: {}" *)
| VkCountMismatch                      (** "VK public input count doesn't match R1CS" *)
| VkProcess                            (** "Failed to process VK: {}" *)
| VkSerialize                          (** "Failed to serialize VK: {}" *)
| VkLoad                               (** "Failed to load VK: {}" *)
| WitnessSize (got : nat)              (** "Invalid witness size: ..." *)
| WitnessTooShort (got need : Z)       (** "Witness too short: ..." *)
| ProofGeneration                      (** "Proof generation failed: {}" *)
| ProofSerialize                       (** "Failed to serialize A / B / C" *)
| ProofLoad                            (** "Failed to load proof: {}" *)
| InvalidVerifyingKey                  (** "Invalid verifying key" *)
| PublicSizeOverflow                   (** "Overflow calculating public inputs size" *)
| EndOffsetOverflow                    (** "Overflow calculating end offset" *)
| WitnessShortForPublic (need : Z).    (** "Witness too short: expected at least {} bytes ..." *)

(** ** Proofs for the contract *)

Record G1Affine : Type := { g1_x : Z; g1_y : Z }.
(** [c0 + c1 * u] *)
Record Fq2 : Type := { c0 : Z; c1 : Z }.
Record G2Affine : Type := { g2_x : Fq2; g2_y : Fq2 }.
Record ArkProof : Type := { ark_a : G1Affine; ark_b : G2Affine; ark_c : G1Affine }.

(** A coordinate is a 256-bit integer, 32 bytes big-endian. *)
Definition bigint_to_be_32 (value : Z) : bytes :=
  let b := be_bytes 32 value in
  let start := (32 - length b)%nat in
  replicate start 0 ++ take (length b `min` 32) b.

Definition g1_bytes_uncompressed (p : G1Affine) : bytes := bigint_to_be_32 (g1_x p) ++ bigint_to_be_32 (g1_y p).

Definition g2_bytes_uncompressed (p : G2Affine) : bytes :=
  let x0 := bigint_to_be_32 (c0 (g2_x p)) in
  let x1 := bigint_to_be_32 (c1 (g2_x p)) in
  let y0 := bigint_to_be_32 (c0 (g2_y p)) in
  let y1 := bigint_to_be_32 (c1 (g2_y p)) in
  x1 ++ x0 ++ y1 ++ y0.

Definition proof_to_uncompressed_bytes (p : ArkProof) : bytes :=
  g1_bytes_uncompressed (ark_a p) ++ g2_bytes_uncompressed (ark_b p) ++ g1_bytes_uncompressed (ark_c p).

(** ** Elements of a byte string *)

(** [bytes.chunks_exact(FIELD_SIZE)]. *)
Fixpoint chunks_exact (n : nat) (b : bytes) : list bytes :=
  match n with
  | O => []
  | S n => take FIELD_SIZE b :: chunks_exact n (drop FIELD_SIZE b)
  end.

Definition field_chunks (b : bytes) : list bytes := chunks_exact (length b / FIELD_SIZE) b.

(** [for chunk in .. { out.push(bytes_to_fr(chunk)?) }]; [bytes_to_fr] is
    [bytes_to_prime_field]. *)
Fixpoint elements (chunks : list bytes) : result ProofError (list Z) :=
  match chunks with
  | [] => Ok []
  | chunk :: rest => x ← map_err PE_Prover (bytes_to_prime_field chunk); xs ← elements rest; Ok (x :: xs)
  end.

(** ** Replaying the constraints *)

Record R1CSCircuit : Type := { rc_r1cs : R1CS; rc_witness : list Z }.

Class ConstraintSystem : Type := {
  CS : Type;
  Var : Type;
  var_one : Var;
  (** [None]: a [SynthesisError] of the constraint system *)
  new_input_variable : Z -> CS -> option (Var * CS);
  new_witness_variable : Z -> CS -> option (Var * CS);
  enforce_r1cs_constraint : list (Z * Var) -> list (Z * Var) -> list (Z * Var) -> CS -> option CS;
}.

Inductive SynthesisError : Type := Unsatisfiable | CsError.

Section replay.
Context {K : ConstraintSystem}.

(** The two allocation loops, [n] variables from wire [i] on. *)
Fixpoint alloc_inputs (n : nat) (i : nat) (witness : list Z) (vars : list Var) (cs : CS) : result SynthesisError (list Var * CS) :=
  match n with
  | O => Ok (vars, cs)
  | S n =>
      value ← ok_or (witness !! i) Unsatisfiable;
      '(var, cs) ← ok_or (new_input_variable value cs) CsError;
      alloc_inputs n (S i) witness (vars ++ [var]) cs
  end.

Fixpoint alloc_witnesses (n : nat) (i : nat) (witness : list Z) (vars : list Var) (cs : CS) : result SynthesisError (list Var * CS) :=
  match n with
  | O => Ok (vars, cs)
  | S n =>
      let value := default 0 (witness !! i) in
      '(var, cs) ← ok_or (new_witness_variable value cs) CsError;
      alloc_witnesses n (S i) witness (vars ++ [var]) cs
  end.

(** A linear combination over the variables: [None] is an index out of range. *)
Definition lc_over (vars : list Var) (l : LinearCombination) : option (list (Z * Var)) :=
  mapM (fun t => v ← zlookup vars (wire_id t); Some (coefficient t, v)) l.

Definition wires_in_range (max_wire : Z) (c : Constraint) : bool :=
  forallb (fun t => wire_id t <? max_wire) (lc_a c ++ lc_b c ++ lc_c c).

(** The outer option is the panic of an index or of an [expect]. *)
Fixpoint enforce_all (vars : list Var) (l : list Constraint) (cs : CS) : option (result SynthesisError CS) :=
  match l with
  | [] => Some (Ok cs)
  | c :: rest =>
      a ← lc_over vars (lc_a c);
      b ← lc_over vars (lc_b c);
      d ← lc_over vars (lc_c c);
      match enforce_r1cs_constraint a b d cs with
      | None => Some (Err CsError)
      | Some cs => enforce_all vars rest cs
      end
  end.

Definition generate_constraints (circuit : R1CSCircuit) (cs : CS) : option (result SynthesisError CS) :=
  let r := rc_r1cs circuit in
  let witness := rc_witness circuit in
  if negb (bool_decide (head witness = Some 1)) then Some (Err Unsatisfiable)
  else
    public_plus_one ← checked_add 32 (num_public r) 1;
    if num_wires r <? public_plus_one then Some (Err Unsatisfiable)
    else if zlength witness <? num_wires r then Some (Err Unsatisfiable)
    else
      let public := Z.to_nat (num_public r) in
      let wires := Z.to_nat (num_wires r) in
      match (acc ← alloc_inputs public 1 witness [var_one] cs;
             alloc_witnesses (wires - (public + 1)) (public + 1) witness acc.1 acc.2) with
      | Err e => Some (Err e)
      | Ok (vars, cs) =>
          if negb (forallb (wires_in_range (num_wires r)) (constraints r)) then Some (Err Unsatisfiable)
          else enforce_all vars (constraints r) cs
      end.

End replay.

(** ** Keys and proofs *)

Class ArkGroth16 : Type := {
  ProvingKey : Type;
  ArkVk : Type;
  ArkPvk : Type;
  (** [ProvingKey::deserialize_compressed_unchecked], [VerifyingKey::deserialize_compressed] *)
  pk_deserialize : bytes -> option ProvingKey;
  vk_deserialize : bytes -> option ArkVk;
  vk_serialize : ArkVk -> option bytes;
  pk_vk : ProvingKey -> ArkVk;
  (** [vk.gamma_abc_g1.len()] *)
  gamma_abc_len : ArkVk -> nat;
  process_vk : ArkVk -> option ArkPvk;
  (** [Groth16::prove], with the [n]-th state of the random generator *)
  groth16_prove : ProvingKey -> R1CSCircuit -> nat -> option ArkProof;
  verify_with_processed_vk : ArkPvk -> list Z -> ArkProof -> option bool;
  proof_deserialize : bytes -> option ArkProof;
  g1_serialize : G1Affine -> option bytes;
  g2_serialize : G2Affine -> option bytes;
}.

Record Prover `{ArkGroth16} : Type := { pr_pk : ProvingKey; pr_pvk : ArkPvk; pr_r1cs : R1CS }.

Section proving.
Context {A : ArkGroth16}.
Variable usize_bits : Z.

Definition verify_proof_with_processed_vk (pvk : ArkPvk) (expected_inputs : Z) (p : ArkProof) (public_inputs_bytes : bytes)
  : result ProofError bool :=
  if negb (bool_decide (length public_inputs_bytes mod FIELD_SIZE = 0)%nat) then Err PublicInputsSize
  else
    let num_inputs := Z.of_nat (length public_inputs_bytes / FIELD_SIZE) in
    if negb (num_inputs =? expected_inputs) then Err (PublicInputCount num_inputs expected_inputs)
    else
      public_inputs ← elements (field_chunks public_inputs_bytes);
      ok_or (verify_with_processed_vk pvk public_inputs p) VerificationError.

Definition Prover_new (pk_bytes r1cs_bytes : bytes) : result ProofError Prover :=
  pk ← ok_or (pk_deserialize pk_bytes) ProvingKeyLoad;
  let vk := pk_vk pk in
  r1cs ← map_err PE_R1cs (R1CS_parse usize_bits r1cs_bytes);
  if negb (Z.of_nat (gamma_abc_len vk - 1) =? num_public r1cs) then Err VkCountMismatch
  else
    pvk ← ok_or (process_vk vk) VkProcess;
    Ok {| pr_pk := pk; pr_pvk := pvk; pr_r1cs := r1cs |}.

Definition num_public_inputs (p : Prover) : Z := num_public (pr_r1cs p).
Definition Prover_num_constraints (p : Prover) : Z := num_constraints (pr_r1cs p).
Definition Prover_num_wires (p : Prover) : Z := num_wires (pr_r1cs p).

Definition get_verifying_key (p : Prover) : result ProofError bytes := ok_or (vk_serialize (pk_vk (pr_pk p))) VkSerialize.

(** The witness checks and the call of both proving functions. *)
Definition prove_core (p : Prover) (witness_bytes : bytes) (rng : nat) : result ProofError ArkProof :=
  if negb (bool_decide (length witness_bytes mod FIELD_SIZE = 0)%nat) then Err (WitnessSize (length witness_bytes))
  else
    let num_witness_elements := Z.of_nat (length witness_bytes / FIELD_SIZE) in
    if num_witness_elements <? num_wires (pr_r1cs p) then Err (WitnessTooShort num_witness_elements (num_wires (pr_r1cs p)))
    else
      witness ← elements (field_chunks witness_bytes);
      ok_or (groth16_prove (pr_pk p) {| rc_r1cs := pr_r1cs p; rc_witness := witness |} rng) ProofGeneration.

(** [Groth16Proof] of [sdk/prover/src/types.rs], and [to_bytes]. *)
Definition prove (p : Prover) (witness_bytes : bytes) (rng : nat) : result ProofError (bytes * bytes * bytes) :=
  proof ← prove_core p witness_bytes rng;
  a ← ok_or (g1_serialize (ark_a proof)) ProofSerialize;
  b ← ok_or (g2_serialize (ark_b proof)) ProofSerialize;
  c ← ok_or (g1_serialize (ark_c proof)) ProofSerialize;
  Ok (a, b, c).

Definition prove_bytes (p : Prover) (witness_bytes : bytes) (rng : nat) : result ProofError bytes :=
  proof ← prove p witness_bytes rng; Ok (proof.1.1 ++ proof.1.2 ++ proof.2).

Definition prove_bytes_uncompressed (p : Prover) (witness_bytes : bytes) (rng : nat) : result ProofError bytes :=
  proof ← prove_core p witness_bytes rng; Ok (proof_to_uncompressed_bytes proof).

Definition convert_proof_to_soroban (proof_bytes : bytes) : result ProofError bytes :=
  proof ← ok_or (proof_deserialize proof_bytes) ProofLoad; Ok (proof_to_uncompressed_bytes proof).

Definition extract_public_inputs (p : Prover) (witness_bytes : bytes) : result ProofError bytes :=
  if negb (bool_decide (length witness_bytes mod FIELD_SIZE = 0)%nat) then Err (WitnessSize (length witness_bytes))
  else
    let public := num_public (pr_r1cs p) in
    let start := Z.of_nat FIELD_SIZE in
    public_size ← ok_or (try_into_u usize_bits (public * Z.of_nat FIELD_SIZE)) PublicSizeOverflow;
    end_ ← ok_or (checked_add usize_bits start public_size) EndOffsetOverflow;
    if zlength witness_bytes <? end_ then Err (WitnessShortForPublic end_)
    else Ok (take (Z.to_nat (end_ - start)) (drop (Z.to_nat start) witness_bytes)).

Definition Prover_verify (p : Prover) (proof_bytes public_inputs_bytes : bytes) : result ProofError bool :=
  proof ← ok_or (proof_deserialize proof_bytes) ProofLoad;
  expected_inputs ← ok_or (checked_sub (Z.of_nat (gamma_abc_len (pk_vk (pr_pk p)))) 1) InvalidVerifyingKey;
  verify_proof_with_processed_vk (pr_pvk p) expected_inputs proof public_inputs_bytes.

(** The standalone [verify_proof]. *)
Definition groth16_verify_bytes (vk_bytes proof_bytes public_inputs_bytes : bytes) : result ProofError bool :=
  vk ← ok_or (vk_deserialize vk_bytes) VkLoad;
  pvk ← ok_or (process_vk vk) VkProcess;
  proof ← ok_or (proof_deserialize proof_bytes) ProofLoad;
  expected_inputs ← ok_or (checked_sub (Z.of_nat (gamma_abc_len vk)) 1) InvalidVerifyingKey;
  verify_proof_with_processed_vk pvk expected_inputs proof public_inputs_bytes.

End proving.
