(* ===== verification/ProverFacts.v ===== *)
(** * Properties of the prover

    The replayed constraint system is satisfied exactly by the witnesses of the circuit;
    the bytes sent to the contract decode there; the public inputs are the ones of the witness. *)

From S2P Require Import Prelude Ints Amounts Hashes R1cs Prover Pool Verifier.

(** ** What a constraint system means *)

Fixpoint dot (l : list Z) (xs : list Z) : Z :=
  match l, xs with c :: l, x :: xs => c * x + dot l xs | _, _ => 0 end.

(** [known cs v x]: the variable [v] of [cs] has the value [x]. *)
Class ConstraintSystemLaws (K : ConstraintSystem) : Type := {
  known : CS -> Var -> Z -> Prop;
  satisfied : CS -> Prop;
  known_one cs : known cs var_one 1;
  known_inj cs v x y : known cs v x -> known cs v y -> x = y;
  new_input_law x cs v cs' : new_input_variable x cs = Some (v, cs') ->
    known cs' v x /\ (forall u y, known cs u y -> known cs' u y) /\ (satisfied cs' <-> satisfied cs);
  new_witness_law x cs v cs' : new_witness_variable x cs = Some (v, cs') ->
    known cs' v x /\ (forall u y, known cs u y -> known cs' u y) /\ (satisfied cs' <-> satisfied cs);
  (** a constraint over variables with known values holds or not *)
  enforce_law a b c cs cs' xa xb xc : enforce_r1cs_constraint a b c cs = Some cs' ->
    Forall2 (fun t x => known cs t.2 x) a xa -> Forall2 (fun t x => known cs t.2 x) b xb -> Forall2 (fun t x => known cs t.2 x) c xc ->
    (forall u y, known cs u y -> known cs' u y) /\
    (satisfied cs' <-> satisfied cs /\ (dot a.*1 xa * dot b.*1 xb) mod BN_P = dot c.*1 xc mod BN_P);
  (** on a fresh system nothing fails *)
  cs_total : (forall x cs, is_Some (new_input_variable x cs)) /\ (forall x cs, is_Some (new_witness_variable x cs)) /\
             (forall a b c cs, is_Some (enforce_r1cs_constraint a b c cs));
}.

(** ** The meaning of a circuit *)

Definition lc_eval (w : list Z) (l : LinearCombination) : Z :=
  dot (coefficient <$> l) ((fun t => default 0 (zlookup w (wire_id t))) <$> l).

Definition constraint_holds (w : list Z) (c : Constraint) : Prop :=
  (lc_eval w (lc_a c) * lc_eval w (lc_b c)) mod BN_P = lc_eval w (lc_c c) mod BN_P.

Definition circuit_shape (circuit : R1CSCircuit) : Prop :=
  head (rc_witness circuit) = Some 1 /\ num_public (rc_r1cs circuit) + 1 <= num_wires (rc_r1cs circuit) /\
  num_wires (rc_r1cs circuit) <= zlength (rc_witness circuit) /\
  forallb (wires_in_range (num_wires (rc_r1cs circuit))) (constraints (rc_r1cs circuit)) = true.

Section replay.
Context {K : ConstraintSystem} {KL : ConstraintSystemLaws K}.

(** The variables allocated so far carry the first elements of the witness. *)
Definition carries (cs : CS) (vars : list Var) (w : list Z) : Prop := Forall2 (known cs) vars (take (length vars) w).

Lemma carries_snoc cs cs' vars w v x :
  carries cs vars w -> w !! length vars = Some x -> known cs' v x -> (forall u y, known cs u y -> known cs' u y) ->
  carries cs' (vars ++ [v]) w.
Proof.
  intros Hc Hx Hv Hm. unfold carries. rewrite length_app, Nat.add_1_r, (take_S_r _ _ _ Hx). apply Forall2_app.
  - eapply Forall2_impl; [exact Hc | exact Hm].
  - by constructor.
Qed.

Lemma alloc_inputs_run n w vars cs :
  (length vars + n <= length w)%nat -> carries cs vars w ->
  exists vars' cs', alloc_inputs n (length vars) w vars cs = Ok (vars', cs') /\ length vars' = (length vars + n)%nat /\
    carries cs' vars' w /\ (satisfied cs' <-> satisfied cs).
Proof.
  revert vars cs. induction n as [|n IH]; intros vars cs Hl Hc.
  - exists vars, cs. rewrite Nat.add_0_r. done.
  - destruct (lookup_lt_is_Some_2 w (length vars)) as [x Hx]; [lia |]. cbn [alloc_inputs]. rewrite Hx. cbn [ok_or mbind result_bind].
    destruct (proj1 cs_total x cs) as [[v cs1] E]. rewrite E. cbn [ok_or mbind result_bind].
    destruct (new_input_law x cs v cs1 E) as (Hv & Hm & Hsat).
    destruct (IH (vars ++ [v]) cs1) as (vars' & cs' & E' & Hlen & Hc' & Hs'); [rewrite length_app; cbn; lia | by eapply carries_snoc |].
    rewrite length_app, Nat.add_1_r in E', Hlen. exists vars', cs'. split_and!; [done | lia | done | by rewrite Hs'].
Qed.

Lemma alloc_witnesses_run n w vars cs :
  (length vars + n <= length w)%nat -> carries cs vars w ->
  exists vars' cs', alloc_witnesses n (length vars) w vars cs = Ok (vars', cs') /\ length vars' = (length vars + n)%nat /\
    carries cs' vars' w /\ (satisfied cs' <-> satisfied cs).
Proof.
  revert vars cs. induction n as [|n IH]; intros vars cs Hl Hc.
  - exists vars, cs. rewrite Nat.add_0_r. done.
  - destruct (lookup_lt_is_Some_2 w (length vars)) as [x Hx]; [lia |]. cbn [alloc_witnesses]. rewrite Hx. cbn [from_option id].
    destruct (proj1 (proj2 cs_total) x cs) as [[v cs1] E]. rewrite E. cbn [ok_or mbind result_bind].
    destruct (new_witness_law x cs v cs1 E) as (Hv & Hm & Hsat).
    destruct (IH (vars ++ [v]) cs1) as (vars' & cs' & E' & Hlen & Hc' & Hs'); [rewrite length_app; cbn; lia | by eapply carries_snoc |].
    rewrite length_app, Nat.add_1_r in E', Hlen. exists vars', cs'. split_and!; [done | lia | done | by rewrite Hs'].
Qed.

(** A linear combination over wires in range is one over known variables. *)
Lemma lc_over_run cs vars w l :
  carries cs vars w -> (length vars <= length w)%nat ->
  Forall (fun t => 0 <= wire_id t < Z.of_nat (length vars)) l ->
  exists a, lc_over vars l = Some a /\ a.*1 = coefficient <$> l /\
    Forall2 (fun t x => known cs t.2 x) a ((fun t => default 0 (zlookup w (wire_id t))) <$> l).
Proof.
  intros Hc Hlen. induction 1 as [|t l [H0 H1] Hl (a & E & Ha & Hk)]; [exists []; split; [done |]; split; [done | constructor] |].
  destruct (lookup_lt_is_Some_2 vars (Z.to_nat (wire_id t))) as [v Hv]; [lia |].
  assert (exists x, w !! Z.to_nat (wire_id t) = Some x /\ known cs v x) as (x & Hx & Hkx).
  { destruct (Forall2_lookup_l _ _ _ _ _ Hc Hv) as (x & Hx & ?). exists x. split; [| done].
    apply lookup_take_Some in Hx as [? _]. done. }
  exists ((coefficient t, v) :: a). unfold lc_over in *. cbn [mapM]. rewrite (zlookup_nonneg vars) by lia. rewrite Hv, E. cbn [mbind option_bind].
  split; [reflexivity |]. split; [by rewrite !fmap_cons, Ha |].
  rewrite fmap_cons, (zlookup_nonneg w) by lia. rewrite Hx. by constructor.
Qed.

Lemma enforce_all_run w vars l cs :
  carries cs vars w -> (length vars <= length w)%nat ->
  Forall (fun c => Forall (fun t => 0 <= wire_id t < Z.of_nat (length vars)) (lc_a c ++ lc_b c ++ lc_c c)) l ->
  exists cs', enforce_all vars l cs = Some (Ok cs') /\ (satisfied cs' <-> satisfied cs /\ Forall (constraint_holds w) l).
Proof.
  intros Hc Hlen Hl. revert cs Hc. induction Hl as [|c l Hr Hl IH]; intros cs Hc.
  - exists cs. split; [done |]. split; [by split | tauto].
  - apply Forall_app in Hr as [Hra Hr]. apply Forall_app in Hr as [Hrb Hrc].
    destruct (lc_over_run cs vars w _ Hc Hlen Hra) as (a & Ea & Fa & Ka).
    destruct (lc_over_run cs vars w _ Hc Hlen Hrb) as (b & Eb & Fb & Kb).
    destruct (lc_over_run cs vars w _ Hc Hlen Hrc) as (d & Ed & Fd & Kd).
    destruct (proj2 (proj2 cs_total) a b d cs) as [cs1 E].
    destruct (enforce_law a b d cs cs1 _ _ _ E Ka Kb Kd) as [Hm Hsat].
    destruct (IH cs1) as (cs' & E' & Hs'); [eapply Forall2_impl; [exact Hc | exact Hm] |].
    exists cs'. cbn [enforce_all]. rewrite Ea, Eb, Ed. cbn [mbind option_bind]. rewrite E. split; [done |].
    rewrite Hs', Hsat, Fa, Fb, Fd, Forall_cons. unfold constraint_holds at 2. unfold lc_eval. tauto.
Qed.

Lemma wires_in_range_spec max l :
  forallb (wires_in_range max) l = true -> Forall constraint_ok l ->
  Forall (fun c => Forall (fun t => 0 <= wire_id t < max) (lc_a c ++ lc_b c ++ lc_c c)) l.
Proof.
  rewrite forallb_forall. intros H Hok. rewrite Forall_forall in Hok. apply Forall_forall. intros c Hin.
  apply Forall_forall. intros t Ht. specialize (H c ltac:(by apply list_elem_of_In)). unfold wires_in_range in H.
  rewrite forallb_forall in H. specialize (H t ltac:(by apply list_elem_of_In)). apply Z.ltb_lt in H. split; [| done].
  destruct (Hok c Hin) as ((_ & Ha) & (_ & Hb) & (_ & Hd)). rewrite Forall_forall in Ha, Hb, Hd.
  apply elem_of_app in Ht as [Ht|[Ht|Ht]%elem_of_app]; [apply Ha in Ht | apply Hb in Ht | apply Hd in Ht]; apply Ht.
Qed.

(** The whole replay. *)
Lemma generate_constraints_run circuit cs :
  is_u32 (num_wires (rc_r1cs circuit)) -> 0 <= num_public (rc_r1cs circuit) < 2 ^ 32 - 1 ->
  Forall constraint_ok (constraints (rc_r1cs circuit)) ->
  exists r, generate_constraints circuit cs = Some r /\
    match r with
    | Ok cs' => circuit_shape circuit /\
        (satisfied cs' <-> satisfied cs /\ Forall (constraint_holds (rc_witness circuit)) (constraints (rc_r1cs circuit)))
    | Err e => ~ circuit_shape circuit
    end.
Proof.
  intros Hw Hp Hok. unfold generate_constraints, circuit_shape. set (r := rc_r1cs circuit) in *. set (w := rc_witness circuit) in *.
  case_bool_decide as Hone; cbn [negb]; [| eexists; split; [reflexivity | tauto]].
  rewrite (proj2 (checked_add_Some 32 (num_public r) 1 (num_public r + 1))) by lia. cbn [mbind option_bind].
  destruct (Z.ltb_spec (num_wires r) (num_public r + 1)) as [?|Hpw]; [eexists; split; [reflexivity |]; cbn; lia |].
  destruct (Z.ltb_spec (zlength w) (num_wires r)) as [?|Hlw]; [eexists; split; [reflexivity |]; cbn; lia |].
  unfold zlength in Hlw, Hw.
  assert (carries cs [var_one] w) as H1.
  { unfold carries. destruct w as [|x w0]; [done |]. cbn in Hone. injection Hone as ->. constructor; [apply known_one | constructor]. }
  destruct (alloc_inputs_run (Z.to_nat (num_public r)) w [var_one] cs) as (v1 & cs1 & E1 & L1 & C1 & S1);
    [cbn; unfold zlength in *; lia | done |]. cbn [length] in E1, L1. rewrite E1. cbn [mbind result_bind fst snd].
  destruct (alloc_witnesses_run (Z.to_nat (num_wires r) - (Z.to_nat (num_public r) + 1)) w v1 cs1) as (v2 & cs2 & E2 & L2 & C2 & S2);
    [unfold zlength in *; lia | done |].
  rewrite (Nat.add_comm (Z.to_nat (num_public r)) 1). rewrite (Nat.add_comm (Z.to_nat (num_public r)) 1) in E2, L2. rewrite L1 in E2, L2. rewrite E2.
  destruct (forallb (wires_in_range (num_wires r)) (constraints r)) eqn:Hr; cbn [negb]; [| eexists; split; [reflexivity |]; intuition congruence].
  assert (Z.of_nat (length v2) = num_wires r) as L by (unfold is_u32 in Hw; lia).
  destruct (enforce_all_run w v2 (constraints r) cs2 C2) as (cs3 & E3 & S3);
    [unfold zlength in *; lia | rewrite L; by apply wires_in_range_spec |].
  exists (Ok cs3). split; [done |]. unfold zlength. split; [done |]. by rewrite S3, S2, S1.
Qed.

End replay.

(** ** A reference constraint system: the values and whether all constraints hold *)

Record RefCs : Type := { ref_vals : list Z; ref_sat : bool }.

Definition ref_value (cs : RefCs) (v : option nat) : Z :=
  match v with None => 1 | Some i => default 0 (ref_vals cs !! i) end.

Definition ref_new (x : Z) (cs : RefCs) : option (option nat * RefCs) :=
  Some (Some (length (ref_vals cs)), {| ref_vals := ref_vals cs ++ [x]; ref_sat := ref_sat cs |}).

#[export] Instance ref_cs : ConstraintSystem := {|
  CS := RefCs; Var := option nat; var_one := None;
  new_input_variable := ref_new; new_witness_variable := ref_new;
  enforce_r1cs_constraint a b c cs :=
    let value l := dot l.*1 ((fun t => ref_value cs t.2) <$> l) in
    Some {| ref_vals := ref_vals cs; ref_sat := ref_sat cs && ((value a * value b) mod BN_P =? value c mod BN_P) |};
|}.

Definition ref_known (cs : RefCs) (v : option nat) (x : Z) : Prop :=
  match v with None => x = 1 | Some i => ref_vals cs !! i = Some x end.

Lemma ref_known_value cs (a : list (Z * option nat)) xs :
  Forall2 (fun t x => ref_known cs t.2 x) a xs -> (fun t => ref_value cs t.2) <$> a = xs.
Proof.
  induction 1 as [|t x a xs Hx _ IH]; [done |]. rewrite fmap_cons, IH. f_equal. unfold ref_known, ref_value in *.
  destruct t.2; [by rewrite Hx | done].
Qed.

Lemma ref_new_law x cs v cs' : ref_new x cs = Some (v, cs') ->
  ref_known cs' v x /\ (forall u y, ref_known cs u y -> ref_known cs' u y) /\ (ref_sat cs' = true <-> ref_sat cs = true).
Proof.
  intros [= <- <-]. cbn. split; [by rewrite lookup_app_r, Nat.sub_diag by lia |]. split; [| done].
  intros [i|] y; cbn; [apply lookup_app_l_Some | done].
Qed.

#[export] Instance ref_cs_laws : ConstraintSystemLaws ref_cs.
Proof.
  refine {| known := ref_known; satisfied := (fun cs => ref_sat cs = true) |}.
  - done.
  - intros cs [i|] x y; cbn; congruence.
  - exact ref_new_law.
  - exact ref_new_law.
  - intros a b c cs cs' xa xb xc [= <-] Ha Hb Hc. split; [done |]. cbn [ref_sat].
    rewrite (ref_known_value _ _ _ Ha), (ref_known_value _ _ _ Hb), (ref_known_value _ _ _ Hc), andb_true_iff, Z.eqb_eq. done.
  - split_and!; intros; by eexists.
Defined.

(** ** Properties *)

(** The circuit handed to the Groth16 prover means the parsed file: for a parsed
    circuit and any witness, replaying it on a satisfied constraint system never
    panics; it succeeds exactly when the witness starts with one and covers all wires,
    the public signals fit among them and every constraint mentions only these wires; and then the
    constraint system is satisfied exactly when every constraint A * B = C of the file
    holds of the witness modulo the field order. *)
Theorem replayed_circuit_exact (K : ConstraintSystem) (KL : ConstraintSystemLaws K) (circuit : R1CSCircuit) (cs : CS) :
  is_u32 (num_wires (rc_r1cs circuit)) -> 0 <= num_public (rc_r1cs circuit) < 2 ^ 32 - 1 ->
  Forall constraint_ok (constraints (rc_r1cs circuit)) -> satisfied cs ->
  generate_constraints circuit cs <> None /\
  ((exists cs', generate_constraints circuit cs = Some (Ok cs')) <-> circuit_shape circuit) /\
  (forall cs', generate_constraints circuit cs = Some (Ok cs') ->
     satisfied cs' <-> Forall (constraint_holds (rc_witness circuit)) (constraints (rc_r1cs circuit))).
Proof.
  intros Hw Hp Hok Hs. destruct (generate_constraints_run circuit cs Hw Hp Hok) as (r & E & Hr). rewrite E. split_and!.
  - done.
  - destruct r as [cs'|e]; split; [tauto | by eauto | by intros (? & ?) | tauto].
  - intros cs' [= ->]. tauto.
Qed.

Definition wit_r1cs : R1CS :=
  {| num_wires := 3; num_pub_out := 0; num_pub_in := 1; num_prv_in := 1; num_public := 1;
     constraints := [{| lc_a := [{| wire_id := 2; coefficient := 1 |}]; lc_b := [{| wire_id := 2; coefficient := 1 |}];
                        lc_c := [{| wire_id := 1; coefficient := 1 |}] |}] |}.

(** The square: 49 = 7 * 7. *)
Lemma replayed_circuit_exact_witness :
  exists cs', generate_constraints (K := ref_cs) {| rc_r1cs := wit_r1cs; rc_witness := [1; 49; 7] |} {| ref_vals := []; ref_sat := true |}
              = Some (Ok cs').
Proof.
  apply (replayed_circuit_exact ref_cs ref_cs_laws {| rc_r1cs := wit_r1cs; rc_witness := [1; 49; 7] |} {| ref_vals := []; ref_sat := true |}).
  - split; [discriminate | reflexivity].
  - split; [discriminate | reflexivity].
  - repeat first [split | constructor]; vm_compute; congruence.
  - reflexivity.
  - split_and!; [reflexivity | discriminate | discriminate | reflexivity].
Defined.

(** *** Public inputs *)

Lemma length_chunks_exact n b : length (chunks_exact n b) = n.
Proof. revert b. induction n as [|n IH]; intros b; cbn; [done | by rewrite IH]. Qed.

Lemma elements_chunks n b :
  (FIELD_SIZE * n <= length b)%nat ->
  exists xs, elements (chunks_exact n b) = Ok xs /\ length xs = n /\
    forall i, (i < n)%nat -> xs !! i = Some (le_value (take 32 (drop (32 * i) b)) mod BN_P).
Proof.
  unfold FIELD_SIZE. revert b. induction n as [|n IH]; intros b Hb; [exists []; split_and!; [done | done | lia] |].
  cbn [chunks_exact elements]. unfold bytes_to_prime_field.
  rewrite bool_decide_true by (unfold FIELD_SIZE; rewrite length_take; lia). cbn [negb map_err mbind result_bind].
  destruct (IH (drop 32 b)) as (xs & E & Hl & Hx); [rewrite length_drop; lia |]. change FIELD_SIZE with 32%nat. rewrite E.
  cbn [mbind result_bind]. eexists. split; [reflexivity |]. split; [cbn; lia |].
  intros [|i] Hi; [done |]. cbn [lookup list_lookup]. change (list_lookup i xs) with (xs !! i). rewrite Hx, drop_drop by lia.
  do 5 f_equal. lia.
Qed.

(** The public inputs taken from a witness are its elements 1 to [num_public]: the
    extraction succeeds exactly when the witness is a whole number of elements and long
    enough, and then the elements the verifier reads from its bytes are those of the
    witness after the constant one. *)
Theorem extracted_public_inputs (A : ArkGroth16) (p : Prover) (w : bytes) (n : nat) :
  num_public (pr_r1cs p) = Z.of_nat n -> Z.of_nat (32 * (n + 1)) < 2 ^ 32 ->
  match extract_public_inputs 32 p w with
  | Ok out => (length w mod 32 = 0)%nat /\ (32 * (n + 1) <= length w)%nat /\
      exists all pub, elements (field_chunks w) = Ok all /\ elements (field_chunks out) = Ok pub /\ pub = take n (drop 1 all)
  | Err _ => (length w mod 32 <> 0)%nat \/ (length w < 32 * (n + 1))%nat
  end.
Proof.
  intros Hn Hfit. unfold extract_public_inputs. change FIELD_SIZE with 32%nat. case_bool_decide as Hm; cbn [negb]; [| by left].
  rewrite Hn. assert (2 ^ 32 = 4294967296) as H32 by reflexivity.
  rewrite (proj2 (try_into_u_Some 32 _ (Z.of_nat (32 * n)))) by lia. cbn [ok_or mbind result_bind].
  rewrite (proj2 (checked_add_Some 32 _ _ (Z.of_nat (32 * (n + 1))))) by lia. cbn [ok_or mbind result_bind].
  unfold zlength. destruct (Z.ltb_spec (Z.of_nat (length w)) (Z.of_nat (32 * (n + 1)))) as [?|Hge]; [right; lia |].
  split; [done |]. split; [lia |]. set (out := take _ _).
  assert (length out = (32 * n)%nat) as Hout by (unfold out; rewrite length_take, length_drop; lia).
  unfold field_chunks. rewrite Hout. change FIELD_SIZE with 32%nat. rewrite (Nat.mul_comm 32 n), Nat.div_mul by lia.
  destruct (elements_chunks (length w / 32) w) as (all & Ea & La & Ha); [apply Nat.Div0.mul_div_le |].
  destruct (elements_chunks n out) as (pub & Ep & Lp & Hp); [unfold FIELD_SIZE; lia |].
  exists all, pub. split_and!; [done | done |]. apply list_eq. intros i.
  destruct (decide (i < n)%nat) as [Hi|Hi].
  2: { rewrite (lookup_ge_None_2 pub), (lookup_ge_None_2 (take n _)) by (rewrite ?length_take; lia). done. }
  rewrite Hp, lookup_take_lt, lookup_drop, Ha by (try apply Nat.div_le_lower_bound; lia).
  do 3 f_equal. unfold out. rewrite skipn_firstn_comm, take_take, drop_drop. f_equal; [lia |]. f_equal. lia.
Qed.

(** A Groth16 scheme with no content, on which the prover's own code runs. *)
#[export] Instance ref_ark : ArkGroth16 := {|
  ProvingKey := unit; ArkVk := unit; ArkPvk := unit;
  pk_deserialize _ := Some tt; vk_deserialize _ := Some tt; vk_serialize _ := Some []; pk_vk _ := tt;
  gamma_abc_len _ := 2%nat; process_vk _ := Some tt;
  groth16_prove _ _ _ := None; verify_with_processed_vk _ _ _ := None; proof_deserialize _ := None;
  g1_serialize _ := None; g2_serialize _ := None;
|}.

Lemma extracted_public_inputs_witness :
  match extract_public_inputs 32 {| pr_pk := tt; pr_pvk := tt; pr_r1cs := wit_r1cs |} (le_bytes 32 1 ++ le_bytes 32 49 ++ le_bytes 32 7) with
  | Ok out => exists pub, elements (field_chunks out) = Ok pub
  | Err _ => False
  end.
Proof.
  pose proof (extracted_public_inputs ref_ark {| pr_pk := tt; pr_pvk := tt; pr_r1cs := wit_r1cs |}
    (le_bytes 32 1 ++ le_bytes 32 49 ++ le_bytes 32 7) 1 eq_refl eq_refl) as H.
  destruct (extract_public_inputs _ _ _) as [out|e].
  - destruct H as (_ & _ & all & pub & _ & Hp & _). exact (ex_intro _ pub Hp).
  - destruct H as [H|H]; cbn in H; [exact (H eq_refl) | lia].
Defined.

(** *** Proofs for the contract *)

Lemma bigint_to_be_32_eq x : bigint_to_be_32 x = be_bytes 32 x.
Proof.
  unfold bigint_to_be_32. rewrite length_be_bytes. change (32 - 32)%nat with 0%nat. cbn [replicate app].
  rewrite take_ge; [done | rewrite length_be_bytes; lia].
Qed.

Lemma length_g1 p : length (g1_bytes_uncompressed p) = 64%nat.
Proof. unfold g1_bytes_uncompressed. rewrite !bigint_to_be_32_eq, length_app, !length_be_bytes. done. Qed.

Lemma length_g2 p : length (g2_bytes_uncompressed p) = 128%nat.
Proof. unfold g2_bytes_uncompressed. rewrite !bigint_to_be_32_eq, !length_app, !length_be_bytes. done. Qed.

Lemma decode_concat a b c :
  length a = 64%nat -> length b = 128%nat -> length c = 64%nat ->
  Groth16Proof_try_from (a ++ b ++ c) = Some (Ok {| g16_a := a; g16_b := b; g16_c := c |}).
Proof.
  intros Ha Hb Hc. assert (zlength (a ++ b ++ c) = 256) as Hl by (unfold zlength; rewrite !length_app; lia).
  destruct (proj1 (proof_bytes_decode (a ++ b ++ c)) Hl) as (p & E & Happ & La & Lb & Lc & _). rewrite E.
  apply app_inj_1 in Happ as [Ea Happ]; [| congruence]. apply app_inj_1 in Happ as [Eb Ec]; [| congruence].
  destruct p; cbn in *. by subst.
Qed.

(** The contract decodes the proof the prover sends: the uncompressed bytes are 256
    long, are accepted by the contract's decoder, and its three points are the big-endian
    coordinates of A, of B with the imaginary part of each coordinate first, and of C;
    canonical coordinates are read back. *)
Theorem prover_proof_decodes (p : ArkProof) :
  exists q, Groth16Proof_try_from (proof_to_uncompressed_bytes p) = Some (Ok q) /\
    zlength (proof_to_uncompressed_bytes p) = 256 /\
    g16_a q = be_bytes 32 (g1_x (ark_a p)) ++ be_bytes 32 (g1_y (ark_a p)) /\
    g16_b q = be_bytes 32 (c1 (g2_x (ark_b p))) ++ be_bytes 32 (c0 (g2_x (ark_b p))) ++
              be_bytes 32 (c1 (g2_y (ark_b p))) ++ be_bytes 32 (c0 (g2_y (ark_b p))) /\
    g16_c q = be_bytes 32 (g1_x (ark_c p)) ++ be_bytes 32 (g1_y (ark_c p)) /\
    (is_u256 (g1_x (ark_a p)) -> be_value (take 32 (g16_a q)) = g1_x (ark_a p)).
Proof.
  eexists. split; [apply decode_concat; [apply length_g1 | apply length_g2 | apply length_g1] |].
  cbn [g16_a g16_b g16_c]. unfold proof_to_uncompressed_bytes, g1_bytes_uncompressed, g2_bytes_uncompressed.
  rewrite !bigint_to_be_32_eq. split_and!; [| done .. |].
  - unfold zlength. rewrite !length_app, !length_be_bytes. done.
  - intros Hx. rewrite take_app_length' by (symmetry; apply length_be_bytes). rewrite be_value_bytes, pow_256_32. by rewrite Z.mod_small.
Qed.
