(* ===== verification/Witness.v ===== *)
(** * The inputs of the witness calculator

    [sdk/witness/src/lib.rs]: the JSON text of the circuit's inputs is flattened to lists of
    numbers by name, the calculator of [ark_circom] runs the circuit's program on them, and the
    witness is written out in bytes for the prover.  The loops of the source keep explicit
    stacks; the theorems relate them to a recursive reading of the text. *)

From Stdlib Require Import Ascii.
From stdpp Require Import strings pretty.
From S2P Require Import Prelude Ints Amounts Hashes Serialization ProverMonad Encryption Notes Flows FlowFacts FlowTheorems R1cs Prover.

(** ** Data *)

(** [serde_json::Number]: an integer, or a number that is not one. *)
Inductive JsonNumber : Type :=
| JInteger (z : Z)
| JFloat.

(** [serde_json::Value]; the fields of an object are in the order of its iterator. *)
Unset Elimination Schemes.
Inductive Json : Type :=
| JNumber (n : JsonNumber)
| JString (s : list ascii)
| JBool (b : bool)
| JNull
| JArray (items : list Json)
| JObject (fields : list (string * Json)).
Set Elimination Schemes.

(** [Number::as_u64], [Number::as_i64]. *)
Definition as_u64 (n : JsonNumber) : option Z := match n with JInteger z => try_into_u 64 z | JFloat => None end.
Definition as_i64 (n : JsonNumber) : option Z := match n with JInteger z => try_into_i 64 z | JFloat => None end.

(** [num_bigint]'s reading of digits in a radix, and the calculator of [ark_circom]. *)
Class NumBigint : Type := { parse_bytes : list ascii -> Z -> option Z }.

Class ArkCircom : Type := {
  ArkCalculator : Type;
  calculate_witness : ArkCalculator -> gmap string (list Z) -> option (list Z);
}.

(** The errors; the last three are panics. *)
Inductive WitnessError : Type :=
| InvalidNumber (key : string)
| InvalidBigint (key : string)
| UnexpectedObject (key : string)
| InputsNotObject
| CalculationFailed
| ExceedsModulus (z : Z)
| ElementTooLong (z : Z)
| NegativeElement (z : Z).

Abbreviation Inputs := (gmap string (list Z)).

(** ** Field elements *)

Definition BN254_FIELD_MODULUS : Z := 21888242871839275222246405745257275088548364400416034343698204186575808495617.

Definition to_field_element (bi : Z) : result WitnessError Z :=
  if bi <? 0 then
    let abs_value := bi * -1 in
    if abs_value <? BN254_FIELD_MODULUS then Ok (BN254_FIELD_MODULUS - abs_value) else Err (ExceedsModulus bi)
  else if bi <? BN254_FIELD_MODULUS then Ok bi else Err (ExceedsModulus bi).

(** [inputs.entry(key).or_default().push(value)]. *)
Definition push_input (key : string) (value : Z) (inputs : Inputs) : Inputs := <[key := default [] (inputs !! key) ++ [value]]> inputs.

(** ** Flattening *)

(** [is_pure_array]: no object anywhere in the value.  The stack has its top first. *)
Fixpoint is_pure_loop (fuel : nat) (stack : list Json) : option bool :=
  match stack with
  | [] => Some true
  | current :: stack =>
      match fuel with
      | O => None
      | S fuel =>
          match current with
          | JArray arr => is_pure_loop fuel (reverse arr ++ stack)
          | JObject _ => Some false
          | _ => is_pure_loop fuel stack
          end
      end
  end.

(** The number of values in a text, an upper bound of the pops. *)
Fixpoint json_size (v : Json) : nat :=
  match v with
  | JArray arr => S (sum_list_with json_size arr)
  | JObject fields => S (sum_list_with (fun f => json_size f.2) fields)
  | _ => 1
  end.

Definition is_pure_array (v : Json) : option bool := is_pure_loop (json_size v) [v].

Section Flatten.

Context {NB : NumBigint}.

Definition number_value (key : string) (n : JsonNumber) : result WitnessError Z :=
  match as_u64 n with
  | Some i => to_field_element i
  | None => match as_i64 n with Some i => to_field_element i | None => Err (InvalidNumber key) end
  end.

(** [s.strip_prefix("0x")]. *)
Definition strip_hex (s : list ascii) : option (list ascii) :=
  match s with
  | c0 :: c1 :: hex => if bool_decide (c0 = "0"%char /\ c1 = "x"%char) then Some hex else None
  | _ => None
  end.

Definition string_value (key : string) (s : list ascii) : result WitnessError Z :=
  let bi := match strip_hex s with Some hex => parse_bytes hex 16 | None => parse_bytes s 10 end in
  bi ← ok_or bi (InvalidBigint key);
  to_field_element bi.

(** The items of the inner stack. *)
Inductive WorkItem : Type :=
| WorkValue (v : Json)
| WorkArray (arr : list Json) (idx : nat).

Fixpoint flatten_pure_loop (fuel : nat) (key : string) (stack : list WorkItem) (inputs : Inputs) : option (result WitnessError Inputs) :=
  match stack with
  | [] => Some (Ok inputs)
  | item :: stack =>
      match fuel with
      | O => None
      | S fuel =>
          let push (r : result WitnessError Z) :=
            match r with Ok z => flatten_pure_loop fuel key stack (push_input key z inputs) | Err e => Some (Err e) end in
          match item with
          | WorkValue (JNumber n) => push (number_value key n)
          | WorkValue (JString s) => push (string_value key s)
          | WorkValue (JArray arr) => flatten_pure_loop fuel key (if bool_decide (arr = []) then stack else WorkArray arr 0 :: stack) inputs
          | WorkValue (JBool b) => push (Ok (if b then 1 else 0))
          | WorkValue JNull => push (Ok 0)
          | WorkValue (JObject _) => Some (Err (UnexpectedObject key))
          | WorkArray arr idx =>
              let stack := if (S idx <? length arr)%nat then WorkArray arr (S idx) :: stack else stack in
              flatten_pure_loop fuel key (WorkValue (default JNull (arr !! idx)) :: stack) inputs
          end
      end
  end.

(** A value is popped once and an array once more for each of its items. *)
Definition flatten_pure_array (key : string) (v : Json) (inputs : Inputs) : option (result WitnessError Inputs) :=
  flatten_pure_loop (2 * json_size v) key [WorkValue v] inputs.

Definition index_key (key : string) (idx : nat) : string := key +:+ "[" +:+ pretty (N.of_nat idx) +:+ "]".
Definition field_key (key field : string) : string := key +:+ "." +:+ field.

Fixpoint flatten_loop (fuel : nat) (stack : list (string * Json)) (inputs : Inputs) : option (result WitnessError Inputs) :=
  match stack with
  | [] => Some (Ok inputs)
  | (key, v) :: stack =>
      match fuel with
      | O => None
      | S fuel =>
          let push (r : result WitnessError Z) :=
            match r with Ok z => flatten_loop fuel stack (push_input key z inputs) | Err e => Some (Err e) end in
          match v with
          | JNumber n => push (number_value key n)
          | JString s => push (string_value key s)
          | JArray arr =>
              pure ← is_pure_array v;
              if pure : bool then
                r ← flatten_pure_array key v inputs;
                match r with Ok inputs => flatten_loop fuel stack inputs | Err e => Some (Err e) end
              else flatten_loop fuel (imap (fun idx item => (index_key key idx, item)) arr ++ stack) inputs
          | JObject fields => flatten_loop fuel (reverse ((fun f => (field_key key f.1, f.2)) <$> fields) ++ stack) inputs
          | JBool b => push (Ok (if b then 1 else 0))
          | JNull => push (Ok 0)
          end
      end
  end.

Definition flatten_input (key : string) (v : Json) (inputs : Inputs) : option (result WitnessError Inputs) := flatten_loop (json_size v) [(key, v)] inputs.

(** ** The witness *)

(** [for (key, value) in inputs_map]. *)
Fixpoint flatten_fields (fields : list (string * Json)) (inputs : Inputs) : option (result WitnessError Inputs) :=
  match fields with
  | [] => Some (Ok inputs)
  | (key, v) :: rest =>
      r ← flatten_input key v inputs;
      match r with Ok inputs => flatten_fields rest inputs | Err e => Some (Err e) end
  end.

(** The magnitude in at most 32 big-endian bytes, padded and reversed. *)
Definition element_to_bytes (bi : Z) : result WitnessError bytes :=
  if negb (Z.abs bi <? 2 ^ 256) then Err (ElementTooLong bi) else if bi <? 0 then Err (NegativeElement bi) else Ok (rev (be_bytes 32 bi)).

Fixpoint witness_to_bytes (witness : list Z) : result WitnessError bytes :=
  match witness with
  | [] => Ok []
  | bi :: rest => b ← element_to_bytes bi; bs ← witness_to_bytes rest; Ok (b ++ bs)
  end.

(** [compute_witness], once the text is parsed; [None] would be a loop without end. *)
Definition compute_witness {AC : ArkCircom} (calc : ArkCalculator) (inputs : Json) : option (result WitnessError bytes) :=
  match inputs with
  | JObject fields =>
      r ← flatten_fields fields ∅;
      Some (inputs ← r; witness ← ok_or (calculate_witness calc inputs) CalculationFailed; witness_to_bytes witness)
  | _ => Some (Err InputsNotObject)
  end.

End Flatten.

(** ** The recursive reading *)

(** No object inside. *)
Fixpoint pure (v : Json) : bool :=
  match v with
  | JArray arr => forallb pure arr
  | JObject _ => false
  | _ => true
  end.

(** The values of nested arrays, row by row. *)
Fixpoint leaves (v : Json) : list Json :=
  match v with
  | JArray arr => flat_map leaves arr
  | _ => [v]
  end.

(** The values of a text under their names, in the order they are read: the fields of an object
    last to first, everything else in order. *)
Fixpoint readings (key : string) (v : Json) : list (string * Json) :=
  match v with
  | JArray arr =>
      if pure v then pair key <$> leaves v
      else (fix go (i : nat) (l : list Json) := match l with [] => [] | x :: l => readings (index_key key i) x ++ go (S i) l end) 0%nat arr
  | JObject fields =>
      (fix go (l : list (string * Json)) := match l with [] => [] | (field, x) :: l => go l ++ readings (field_key key field) x end) fields
  | _ => [(key, v)]
  end.

Section Reading.

Context {NB : NumBigint}.

Definition leaf_value (key : string) (v : Json) : result WitnessError Z :=
  match v with
  | JNumber n => number_value key n
  | JString s => string_value key s
  | JBool b => Ok (if b then 1 else 0)
  | JNull => Ok 0
  | _ => Err (UnexpectedObject key)
  end.

(** The values read one by one; the first that is no field element ends it. *)
Fixpoint read_all (l : list (string * Json)) (inputs : Inputs) : result WitnessError Inputs :=
  match l with
  | [] => Ok inputs
  | (key, v) :: rest => z ← leaf_value key v; read_all rest (push_input key z inputs)
  end.

Lemma read_all_app l1 l2 inputs : read_all (l1 ++ l2) inputs = inputs' ← read_all l1 inputs; read_all l2 inputs'.
Proof.
  revert inputs. induction l1 as [|[key v] l1 IH]; intros inputs; [done |]. cbn [app read_all]. destruct (leaf_value key v) as [z|e]; [| done]. apply IH.
Qed.

Lemma json_size_pos v : (1 <= json_size v)%nat.
Proof. destruct v; cbn; lia. Qed.

Lemma is_pure_loop_spec fuel : forall stack, (sum_list_with json_size stack <= fuel)%nat -> is_pure_loop fuel stack = Some (forallb pure stack).
Proof.
  induction fuel as [|fuel IH]; intros [|v stack] Hf; try done; cbn [sum_list_with] in Hf; pose proof (json_size_pos v); [lia |].
  destruct v as [n|s|b| |arr|fields]; cbn [is_pure_loop forallb pure json_size] in *; try (apply IH; lia); [| done].
  rewrite IH by (rewrite sum_list_with_app, sum_list_with_reverse; lia). f_equal. rewrite forallb_app. f_equal.
  apply eq_true_iff_eq. rewrite !forallb_forall. setoid_rewrite <- list_elem_of_In. by setoid_rewrite elem_of_reverse.
Qed.

(** *** The inner loop *)

Definition item_leaves (item : WorkItem) : list Json :=
  match item with WorkValue v => leaves v | WorkArray arr idx => flat_map leaves (drop idx arr) end.

Definition item_cost (item : WorkItem) : nat :=
  match item with WorkValue v => 2 * json_size v - 1 | WorkArray arr idx => sum_list_with (fun v => 2 * json_size v) (drop idx arr) end%nat.

Definition item_ok (item : WorkItem) : Prop := match item with WorkValue _ => True | WorkArray arr idx => (idx < length arr)%nat end.

Lemma double_size arr : sum_list_with (fun v => 2 * json_size v)%nat arr = (2 * sum_list_with json_size arr)%nat.
Proof. induction arr as [|v arr IH]; [done |]. cbn [sum_list_with]. lia. Qed.

Lemma flatten_pure_loop_spec key fuel : forall stack inputs, Forall item_ok stack -> (sum_list_with item_cost stack <= fuel)%nat ->
  flatten_pure_loop fuel key stack inputs = Some (read_all (pair key <$> flat_map item_leaves stack) inputs).
Proof.
  induction fuel as [|fuel IH]; intros [|item stack] inputs Hok Hf; try done; cbn [sum_list_with] in Hf; apply Forall_cons in Hok as [Hi Hok].
  - exfalso. destruct item as [v|arr idx]; cbn [item_cost item_ok] in *; [pose proof (json_size_pos v); lia |].
    destruct (drop idx arr) as [|v rest] eqn:E; [apply (f_equal length) in E; rewrite length_drop in E; cbn in E; lia |]. cbn [sum_list_with] in Hf. pose proof (json_size_pos v). lia.
  - cbn [flatten_pure_loop flat_map]. destruct item as [v|arr idx]; cbn [item_cost item_ok item_leaves] in *.
    + destruct v as [n|s|b| |arr|fields]; cbn [leaves app json_size fmap list_fmap read_all leaf_value] in *.
      1: destruct (number_value key n) as [z|e]; [apply IH; [done | lia] | done].
      1: destruct (string_value key s) as [z|e]; [apply IH; [done | lia] | done].
      1, 2: apply IH; [done | lia].
      * rewrite IH; [| by case_bool_decide; [| constructor; [destruct arr; [done | apply Nat.lt_0_succ] |]] |].
        -- by case_bool_decide; [subst |].
        -- case_bool_decide; [subst; lia |]. cbn [sum_list_with item_cost drop]. rewrite double_size, drop_0. lia.
      * done.
    + destruct (lookup_lt_is_Some_2 arr idx Hi) as [v Hv]. rewrite Hv, (drop_S arr v idx Hv) in *. cbn [default flat_map sum_list_with id] in *. pose proof (json_size_pos v).
      rewrite IH.
      * cbn [flat_map item_leaves]. destruct (Nat.ltb_spec (S idx) (length arr)) as [Hlt | Hge]; cbn [flat_map item_leaves]; [by rewrite app_assoc |].
        rewrite drop_ge by lia. cbn [flat_map]. by rewrite app_nil_r.
      * constructor; [done |]. destruct (Nat.ltb_spec (S idx) (length arr)); [by constructor | done].
      * cbn [sum_list_with item_cost]. destruct (Nat.ltb_spec (S idx) (length arr)); cbn [sum_list_with item_cost id]; lia.
Qed.

Lemma flatten_pure_array_spec key v inputs : flatten_pure_array key v inputs = Some (read_all (pair key <$> leaves v) inputs).
Proof.
  unfold flatten_pure_array. rewrite flatten_pure_loop_spec; [| by repeat constructor | cbn [sum_list_with item_cost]; lia].
  cbn [flat_map item_leaves]. by rewrite app_nil_r.
Qed.

(** *** The outer loop *)

Lemma readings_items key arr : pure (JArray arr) = false -> readings key (JArray arr) = flat_map (fun kv => readings kv.1 kv.2) (imap (fun idx item => (index_key key idx, item)) arr).
Proof.
  intros Hp. cbn [readings]. rewrite Hp. clear Hp.
  enough (forall i, (fix go (i : nat) (l : list Json) : list (string * Json) := match l with [] => [] | x :: l => readings (index_key key i) x ++ go (S i) l end) i arr =
    flat_map (fun kv => readings kv.1 kv.2) (imap (fun idx item => (index_key key (i + idx), item)) arr)) as E by exact (E 0%nat).
  induction arr as [|x arr IH]; intros i; [done |]. cbn [imap flat_map fst snd]. rewrite Nat.add_0_r. f_equal. rewrite IH. f_equal. apply imap_ext. intros j y _. cbn. by rewrite Nat.add_succ_r.
Qed.

Lemma readings_fields key fields : readings key (JObject fields) = flat_map (fun kv => readings kv.1 kv.2) (reverse ((fun f => (field_key key f.1, f.2)) <$> fields)).
Proof.
  induction fields as [|[field x] fields IH]; [done |]. rewrite fmap_cons, reverse_cons, flat_map_app. cbn [flat_map fst snd]. rewrite app_nil_r, <- IH. done.
Qed.

Lemma sum_snd {A} (f : Json -> nat) (l : list (A * Json)) : sum_list_with (fun kv => f kv.2) l = sum_list_with f l.*2.
Proof. induction l as [|kv l IH]; [done |]. rewrite fmap_cons. cbn [sum_list_with]. by rewrite IH. Qed.

Lemma imap_snd key (arr : list Json) : (imap (fun idx item => (index_key key idx, item)) arr).*2 = arr.
Proof. rewrite fmap_imap. apply list_eq. intros i. rewrite list_lookup_imap. cbn. by destruct (arr !! i). Qed.

Lemma fields_size key (fields : list (string * Json)) :
  sum_list_with (fun kv => json_size kv.2) ((fun f => (field_key key f.1, f.2)) <$> fields) = sum_list_with (fun f => json_size f.2) fields.
Proof. induction fields as [|f fields IH]; [done |]. rewrite fmap_cons. cbn [sum_list_with snd]. by rewrite IH. Qed.

Lemma flatten_loop_spec fuel : forall stack inputs, (sum_list_with (fun kv => json_size kv.2) stack <= fuel)%nat ->
  flatten_loop fuel stack inputs = Some (read_all (flat_map (fun kv => readings kv.1 kv.2) stack) inputs).
Proof.
  induction fuel as [|fuel IH]; intros [|[key v] stack] inputs Hf; try done; cbn [sum_list_with snd] in Hf; pose proof (json_size_pos v); [lia |].
  cbn [flatten_loop flat_map fst snd]. destruct v as [n|s|b| |arr|fields].
  1: cbn [readings app read_all leaf_value]; destruct (number_value key n) as [z|e]; [apply IH; lia | done].
  1: cbn [readings app read_all leaf_value]; destruct (string_value key s) as [z|e]; [apply IH; lia | done].
  1, 2: cbn [readings app read_all leaf_value]; apply IH; lia.
  - unfold is_pure_array. rewrite is_pure_loop_spec by (cbn [sum_list_with]; lia). cbn [forallb mbind option_bind]. rewrite andb_true_r. destruct (pure (JArray arr)) eqn:Ep.
    + rewrite flatten_pure_array_spec. cbn [mbind option_bind]. cbn [readings]. rewrite Ep, read_all_app. destruct (read_all _ inputs) as [inputs'|e]; [| done]. apply IH. lia.
    + rewrite IH by (rewrite sum_list_with_app, sum_snd, imap_snd; cbn [json_size] in Hf; lia). by rewrite flat_map_app, readings_items.
  - rewrite IH.
    + by rewrite flat_map_app, readings_fields.
    + rewrite sum_list_with_app, sum_list_with_reverse, fields_size. cbn [json_size] in Hf. lia.
Qed.

End Reading.

(** ** Flattening is the recursive reading *)

Section Flattened.

Context {NB : NumBigint}.

(** The numbers read under a name, in order. *)
Definition read_under (k : string) (l : list (string * Json)) : list Z :=
  omap (fun kv => if bool_decide (kv.1 = k) then match leaf_value kv.1 kv.2 with Ok z => Some z | Err _ => None end else None) l.

Lemma push_lookup key z inputs k : default [] (push_input key z inputs !! k) = default [] (inputs !! k) ++ (if bool_decide (key = k) then [z] else []).
Proof.
  unfold push_input. case_bool_decide as E; [subst; by rewrite lookup_insert_eq |]. by rewrite lookup_insert_ne, app_nil_r.
Qed.

Lemma read_all_lookup l : forall inputs inputs', read_all l inputs = Ok inputs' ->
  forall k, default [] (inputs' !! k) = default [] (inputs !! k) ++ read_under k l.
Proof.
  induction l as [|[key v] l IH]; intros inputs inputs' E k; [injection E as <-; by rewrite app_nil_r |]. cbn [read_all] in E.
  destruct (leaf_value key v) as [z|e] eqn:Ev; [| done]. rewrite (IH _ _ E k), push_lookup, <- app_assoc. f_equal.
  unfold read_under. cbn [omap list_omap fst snd]. rewrite Ev. by case_bool_decide.
Qed.

Lemma read_all_Err l : forall inputs e, read_all l inputs = Err e -> exists before k leaf after,
  l = before ++ (k, leaf) :: after /\ leaf_value k leaf = Err e /\ Forall (fun kv => exists z, leaf_value kv.1 kv.2 = Ok z) before.
Proof.
  induction l as [|[key v] l IH]; intros inputs e E; [done |]. cbn [read_all] in E. destruct (leaf_value key v) as [z|e'] eqn:Ev.
  - destruct (IH _ _ E) as (before & k & leaf & after & -> & Hl & Hb). exists ((key, v) :: before), k, leaf, after. split; [done |]. split; [done |]. constructor; [by exists z | done].
  - injection E as <-. by exists [], key, v, l.
Qed.

Lemma modulus_is_p : BN254_FIELD_MODULUS = BN_P.
Proof. reflexivity. Qed.

(** Every number pushed is a field element. *)
Lemma to_field_element_Ok bi z : to_field_element bi = Ok z <-> z = bi mod BN_P /\ - BN_P < bi < BN_P.
Proof.
  unfold to_field_element. rewrite modulus_is_p. pose proof BN_P_pos. destruct (Z.ltb_spec bi 0) as [Hn | Hn].
  - destruct (Z.ltb_spec (bi * -1) BN_P) as [Hl | Hl]; [| split; [done | lia]].
    rewrite <- (Z.mod_unique_pos bi BN_P (-1) (bi + BN_P)) by lia. split; [intros [= <-]; lia |]. intros [-> _]. f_equal. lia.
  - destruct (Z.ltb_spec bi BN_P) as [Hl | Hl]; [| split; [done | lia]]. rewrite Z.mod_small by lia. split; [intros [= <-]; lia | by intros [-> _]].
Qed.

Lemma leaf_in_field key v z : leaf_value key v = Ok z -> in_field z.
Proof.
  assert (forall bi, to_field_element bi = Ok z -> in_field z) as Hf by (intros bi E; apply to_field_element_Ok in E as [-> _]; apply in_field_mod).
  destruct v as [n|s|b| |arr|fields]; cbn [leaf_value]; try done.
  - unfold number_value. destruct (as_u64 n); [by apply Hf |]. destruct (as_i64 n); [by apply Hf | done].
  - unfold string_value. destruct (match strip_hex s with Some _ => _ | None => _ end); [by apply Hf | done].
  - intros [= <-]. destruct b; split; (done || reflexivity).
  - intros [= <-]. by split.
Qed.

Lemma read_all_Ok l : forall inputs inputs', read_all l inputs = Ok inputs' -> Forall (fun kv => exists z, leaf_value kv.1 kv.2 = Ok z /\ in_field z) l.
Proof.
  induction l as [|[key v] l IH]; intros inputs inputs' E; [constructor |]. cbn [read_all] in E. destruct (leaf_value key v) as [z|e] eqn:Ev; [| done].
  constructor; [exists z; split; [done | by eapply leaf_in_field] | by eapply IH].
Qed.

End Flattened.

(** ** The inputs of a transaction *)

(** The documented reading of hexadecimal digits. *)
Class NumBigintLaws (NB : NumBigint) : Prop := {
  parse_bytes_hex s z : s <> [] -> hex_value 0 s = Some z -> parse_bytes s 16 = Some z;
}.

(** [serde_json] of the inputs: [InputValue] is untagged. *)
Definition input_json (v : InputValue) : Json :=
  match v with Single s => JString s | Array vs => JArray (JString <$> vs) end.

Definition circuit_json (fields : list (string * InputValue)) : Json := JObject ((fun kv => (kv.1, input_json kv.2)) <$> fields).

(** A value of the inputs and the numbers it shows. *)
Definition shows (v : InputValue) (zs : list Z) : Prop :=
  v = Array (hex_of_scalar <$> zs) \/ exists z, zs = [z] /\ v = Single (hex_of_scalar z).

Section Numbers.

Context {NB : NumBigint} {NBL : NumBigintLaws NB}.

Lemma read_hex key z : in_field z -> leaf_value key (JString (hex_of_scalar z)) = Ok z.
Proof.
  intros Hz. cbn [leaf_value]. unfold string_value, hex_of_scalar. cbn [strip_hex]. rewrite bool_decide_true by done.
  rewrite (parse_bytes_hex _ z).
  - cbn [ok_or mbind result_bind]. apply to_field_element_Ok. rewrite Z.mod_small by exact Hz. split; [done |]. destruct Hz. pose proof BN_P_pos. lia.
  - intros E. apply (f_equal length) in E. rewrite length_concat_hex, length_rev, length_le_bytes in E. done.
  - rewrite hex_value_bytes by apply le_bytes_bytes. rewrite le_value_bytes, length_le_bytes, pow_256_32, Z.mod_small by (by apply in_field_u256). done.
Qed.

Lemma pure_strings (l : list (list ascii)) : forallb pure (JString <$> l) = true.
Proof. induction l as [|s l IH]; [done | exact IH]. Qed.

Lemma leaves_strings (l : list (list ascii)) : flat_map leaves (JString <$> l) = JString <$> l.
Proof. induction l as [|s l IH]; [done |]. rewrite fmap_cons. cbn [flat_map leaves app]. by rewrite IH. Qed.

Lemma shown_readings key v zs : shows v zs -> readings key (input_json v) = pair key <$> ((fun z => JString (hex_of_scalar z)) <$> zs).
Proof.
  intros [-> | (z & -> & ->)]; [| done]. cbn [input_json readings pure leaves]. rewrite pure_strings, leaves_strings. f_equal. by rewrite <- list_fmap_compose.
Qed.

(** Numbers pushed one by one. *)
Lemma read_numbers key zs : Forall in_field zs -> forall inputs,
  read_all (pair key <$> ((fun z => JString (hex_of_scalar z)) <$> zs)) inputs =
  Ok (if bool_decide (zs = []) then inputs else <[key := default [] (inputs !! key) ++ zs]> inputs).
Proof.
  induction zs as [|z zs IH]; intros Hz inputs; [done |]. apply Forall_cons in Hz as [Hz Hzs]. rewrite !fmap_cons. cbn [read_all].
  rewrite read_hex by done. cbn [mbind result_bind]. rewrite (IH Hzs). rewrite (bool_decide_false (z :: zs = [])) by done. f_equal. unfold push_input.
  case_bool_decide as E; [by subst |]. rewrite lookup_insert_eq, insert_insert_eq. cbn [default id]. by rewrite <- app_assoc.
Qed.

Lemma flatten_fields_spec fields : forall inputs, flatten_fields fields inputs = Some (read_all (flat_map (fun kv => readings kv.1 kv.2) fields) inputs).
Proof.
  induction fields as [|[key v] fields IH]; intros inputs; [done |]. cbn [flatten_fields flat_map fst snd]. unfold flatten_input.
  rewrite flatten_loop_spec by (cbn [sum_list_with snd]; lia). cbn [flat_map fst snd mbind option_bind]. rewrite app_nil_r, read_all_app.
  destruct (read_all _ inputs) as [inputs'|e]; [apply IH | done].
Qed.

(** The inputs of a text of numbers: each name has its numbers, a name without any has no entry. *)
Definition inputs_of (numbers : list (string * list Z)) : Inputs := list_to_map (filter (fun kv => kv.2 <> []) numbers).

Lemma flatten_numbers fields : forall numbers inputs,
  Forall2 (fun f n => f.1 = n.1 /\ shows f.2 n.2 /\ Forall in_field n.2) fields numbers -> NoDup numbers.*1 -> (forall n, n ∈ numbers -> inputs !! n.1 = None) ->
  read_all (flat_map (fun kv => readings kv.1 kv.2) ((fun kv => (kv.1, input_json kv.2)) <$> fields)) inputs = Ok (inputs_of numbers ∪ inputs).
Proof.
  induction fields as [|[key v] fields IH]; intros numbers inputs Hf Hnd Hfresh.
  { apply Forall2_nil_inv_l in Hf as ->. cbn. by rewrite map_empty_union. }
  apply Forall2_cons_inv_l in Hf as ([key' zs] & rest & (Hk & Hs & Hz) & Hf & ->). cbn [fst snd] in *. subst key'. rewrite fmap_cons. apply NoDup_cons in Hnd as [Hnin Hnd].
  cbn [flat_map fst snd]. rewrite (shown_readings _ _ _ Hs), read_all_app, (read_numbers _ _ Hz). cbn [mbind result_bind].
  unfold inputs_of. rewrite filter_cons. cbn [snd]. pose proof (Hfresh (key, zs) ltac:(by left)) as Hnone. cbn [fst] in Hnone.
  case_bool_decide as E; [rewrite decide_False by (intros Hne; by apply Hne) | rewrite decide_True by done].
  - apply IH; [done | done |]. intros n Hn. apply Hfresh. by right.
  - rewrite Hnone. cbn [default app list_to_map]. change (list_to_map (?kv :: ?l)) with (<[kv.1 := kv.2]> (list_to_map l : Inputs)). cbn [fst snd].
    rewrite (IH rest); [| done | done |].
    + f_equal. unfold inputs_of. rewrite <- insert_union_l. rewrite insert_union_r; [done |].
      apply not_elem_of_list_to_map_1. intros Hin. apply Hnin. apply list_elem_of_fmap in Hin as (n & -> & Hn). apply list_elem_of_filter in Hn as [_ Hn]. apply (list_elem_of_fmap_2 fst _ _ Hn).
    + intros n Hn. rewrite lookup_insert_ne; [apply Hfresh; by right |]. intros ->. apply Hnin. apply (list_elem_of_fmap_2 fst _ _ Hn).
Qed.

End Numbers.

(** The signals of a transaction as numbers. *)
Definition asp_numbers (m : AspMembershipProof) (nm : AspNonMembershipProof) (slot : nat) : list (string * list Z) :=
  let prefix_m := ("membershipProofs[" +:+ pretty slot +:+ "][0].")%string in
  let prefix_n := ("nonMembershipProofs[" +:+ pretty slot +:+ "][0].")%string in
  [(prefix_m +:+ "leaf", [mp_leaf m]); (prefix_m +:+ "blinding", [mp_blinding m]);
   (prefix_m +:+ "pathIndices", [mp_path_indices m]); (prefix_m +:+ "pathElements", mp_path_elements m);
   (prefix_m +:+ "root", [mp_root m]);
   (prefix_n +:+ "key", [nmp_key nm]); (prefix_n +:+ "oldKey", [nmp_old_key nm]);
   (prefix_n +:+ "oldValue", [nmp_old_value nm]); (prefix_n +:+ "isOld0", [if nmp_is_old0 nm then 1 else 0]);
   (prefix_n +:+ "siblings", nmp_siblings nm); (prefix_n +:+ "root", [nmp_root nm])]%string.

Definition flow_numbers (p : TransactParams) (ins : list TransactInputNote) (outs : list TransactOutput) (hash : bytes) : list (string * list Z) :=
  let sk := scalar_of (priv_key p) in
  let m := membership_proof p in
  let nm := non_membership_proof p in
  [("root", [pool_root p]); ("publicAmount", [tx_ext_amount p mod BN_P]);
   ("inputNullifier", input_nullifier sk <$> ins); ("outputCommitment", output_commitment sk <$> outs);
   ("inAmount", in_amount <$> ins); ("inPrivateKey", (fun _ => sk) <$> ins);
   ("inBlinding", in_blinding <$> ins); ("inPathIndices", merkle_path_indices <$> ins);
   ("inPathElements", concat (merkle_path_elements <$> ins));
   ("outAmount", out_amount <$> outs); ("outPubkey", owner_key sk <$> outs);
   ("outBlinding", out_blinding <$> outs);
   ("membershipRoots", [mp_root m; mp_root m]);
   ("nonMembershipRoots", [nmp_root nm; nmp_root nm])]%string ++
  asp_numbers m nm 0 ++ asp_numbers m nm 1 ++ [("extDataHash"%string, [be_value hash])].

Lemma shows_signal z : shows (signal z) [z].
Proof. right. by exists z. Qed.

Lemma shows_signals {A} (f : A -> Z) l : shows (signals f l) (f <$> l).
Proof. left. unfold signals. by rewrite <- list_fmap_compose. Qed.

Lemma shows_ids (l : list Z) : shows (signals id l) l.
Proof. left. reflexivity. Qed.

(** The hash of the external data, a big-endian field element. *)
Lemma shows_hash h : Forall is_byte h -> length h = 32%nat -> shows (Single (be32_to_0x_hex h)) [be_value h].
Proof.
  intros Hb Hl. right. exists (be_value h). split; [done |]. unfold be32_to_0x_hex, hex_of_scalar. do 4 f_equal.
  change (rev (le_bytes 32 (be_value h))) with (be_bytes 32 (be_value h)). by rewrite <- Hl, be_bytes_value.
Qed.

Definition shown (f : string * InputValue) (n : string * list Z) : Prop := f.1 = n.1 /\ shows f.2 n.2 /\ Forall in_field n.2.

Lemma Forall_map_field {A} (P : A -> Prop) (f : A -> Z) l : Forall P l -> (forall x, P x -> in_field (f x)) -> Forall in_field (f <$> l).
Proof. intros Hl Hf. apply Forall_fmap. eapply Forall_impl; [exact Hl | exact Hf]. Qed.

Lemma asp_numbers_shown m nm slot : membership_typed m -> non_membership_typed nm -> Forall2 shown (asp_signal_list m nm slot) (asp_numbers m nm slot).
Proof.
  intros [] []. unfold asp_signal_list, asp_numbers. cbv zeta.
  repeat (constructor; [split; [reflexivity | cbn [snd]; split; [apply shows_signal || apply shows_ids | try done; constructor; try done] ] |]); [| constructor].
  destruct (nmp_is_old0 nm); split; (done || reflexivity).
Qed.

Lemma flow_numbers_shown p ins outs h : params_typed p -> Forall input_typed ins -> Forall output_typed outs ->
  Forall is_byte h -> length h = 32%nat -> be_value h < BN_P -> Forall2 shown (flow_signals p ins outs h) (flow_numbers p ins outs h).
Proof.
  intros Hp Hi Ho Hb Hl Hh. unfold flow_signals, flow_numbers. cbv zeta. assert (0 <= be_value h) as H0 by (apply (be_value_bound h Hb)).
  apply Forall2_app; [| apply Forall2_app; [| apply Forall2_app]].
  2, 3: apply asp_numbers_shown; apply Hp.
  2: { constructor; [| constructor]. split; [reflexivity |]. split; [by apply shows_hash |]. constructor; [by split | constructor]. }
  repeat (constructor; [split; [reflexivity | cbn [snd]; split; [apply shows_signal || apply shows_ids || apply shows_signals |]] |]); [.. | constructor].
  - apply Forall_singleton, Hp.
  - apply Forall_singleton, in_field_mod.
  - apply (Forall_map_field _ _ _ Hi). intros x _. apply nullifier_in_field.
  - apply (Forall_map_field _ _ _ Ho). intros x _. apply commitment_in_field.
  - apply (Forall_map_field _ _ _ Hi). intros x Hx. apply note_in_field, Hx.
  - apply (Forall_map_field _ _ _ Hi). intros x _. apply scalar_of_in_field.
  - apply (Forall_map_field _ _ _ Hi). intros x Hx. apply Hx.
  - apply (Forall_map_field _ _ _ Hi). intros x Hx. apply Hx.
  - apply Forall_concat, Forall_fmap. eapply Forall_impl; [exact Hi |]. intros x Hx. apply Hx.
  - apply (Forall_map_field _ _ _ Ho). intros x Hx. apply note_in_field, Hx.
  - apply (Forall_map_field _ _ _ Ho). intros x _. unfold owner_key. destruct (recipient_note_pubkey x); [apply scalar_of_in_field | apply public_key_in_field].
  - apply (Forall_map_field _ _ _ Ho). intros x Hx. apply Hx.
  - repeat constructor; apply (mt_root _ (pt_membership _ Hp)).
  - repeat constructor; apply (nt_root _ (pt_non_membership _ Hp)).
Qed.

(** The witness of the calculator, as the prover reads it. *)
Lemma witness_roundtrip ws : Forall in_field ws -> exists b, witness_to_bytes ws = Ok b /\ length b = (32 * length ws)%nat /\ elements (field_chunks b) = Ok ws.
Proof.
  intros Hw. enough (exists b, witness_to_bytes ws = Ok b /\ length b = (32 * length ws)%nat /\ elements (chunks_exact (length ws) b) = Ok ws) as (b & E & Hl & Hr).
  { exists b. split; [done |]. split; [done |]. unfold field_chunks, FIELD_SIZE. rewrite Hl, Nat.mul_comm, Nat.div_mul by lia. exact Hr. }
  induction Hw as [|w ws Hw Hws (b & E & Hl & Hr)]; [by exists [] |]. cbn [witness_to_bytes]. unfold element_to_bytes. pose proof (in_field_u256 w Hw) as [H0 Hu].
  rewrite (proj2 (Z.ltb_lt _ _)), (proj2 (Z.ltb_ge _ _)) by (rewrite ?Z.abs_eq; lia). cbn [negb mbind result_bind]. rewrite E. cbn [mbind result_bind].
  change (rev (be_bytes 32 w)) with (rev (rev (le_bytes 32 w))). rewrite rev_involutive. eexists. split; [done |].
  split; [rewrite length_app, length_le_bytes, Hl; cbn [length]; lia |]. cbn [length chunks_exact elements]. unfold FIELD_SIZE.
  rewrite take_app_length', drop_app_length' by (symmetry; apply length_le_bytes). unfold bytes_to_prime_field, FIELD_SIZE.
  rewrite bool_decide_true by apply length_le_bytes. cbn [negb map_err mbind result_bind]. rewrite Hr. cbn [mbind result_bind].
  rewrite le_value_bytes, pow_256_32, (Z.mod_small w (2 ^ 256)) by (by split). by rewrite Z.mod_small.
Qed.

(** The order of the fields does not matter. *)
Lemma flatten_permuted {NB : NumBigint} {NBL : NumBigintLaws NB} signals' numbers fields :
  Forall2 shown signals' numbers -> numbers.*1 = signals'.*1 -> NoDup signals'.*1 -> NoDup fields.*1 -> (list_to_map signals' : CircuitInputs) = list_to_map fields ->
  flatten_fields ((fun kv => (kv.1, input_json kv.2)) <$> fields) ∅ = Some (Ok (inputs_of numbers)).
Proof.
  intros Hs Hn Hnd Hndf E. assert (signals' ≡ₚ fields) as Hperm by (by apply (list_to_map_inj (M := gmap string))).
  destruct (Permutation_Forall2 Hperm Hs) as (numbers' & Hpn & Hs').
  assert (NoDup numbers'.*1) as Hnd' by (rewrite <- Hpn, Hn; exact Hnd).
  rewrite flatten_fields_spec, (flatten_numbers _ numbers'); [| exact Hs' | exact Hnd' | intros; apply lookup_empty].
  do 2 f_equal. rewrite map_union_empty. unfold inputs_of. apply list_to_map_proper; [| by rewrite Hpn].
  assert (sublist (filter (fun kv : string * list Z => kv.2 <> []) numbers').*1 numbers'.*1) as Hsub by (apply fmap_sublist, sublist_filter).
  by eapply sublist_NoDup.
Qed.

(** ** Theorems *)

(** C30. Flattening the inputs always ends, and is the recursive reading of the text: nested
    arrays without objects row by row under their own name, arrays with objects item by item
    under indexed names, objects field by field under dotted names.  It fails exactly when a
    value met in that order is no field element (a number that is no integer, text that is no
    number, a magnitude of the modulus or more, for which the code panics), with the error of
    the first such value.  When it succeeds, every name has the numbers it had, followed by
    those read under it in order, all of them field elements, a negative number as its residue. *)
Theorem flatten_input_exact (NB : NumBigint) (key : string) (v : Json) (inputs : Inputs) :
  flatten_input key v inputs = Some (read_all (readings key v) inputs) /\
  (forall e, read_all (readings key v) inputs = Err e -> exists before k leaf after,
     readings key v = before ++ (k, leaf) :: after /\ leaf_value k leaf = Err e /\ Forall (fun kv => exists z, leaf_value kv.1 kv.2 = Ok z) before) /\
  (forall inputs', read_all (readings key v) inputs = Ok inputs' ->
     Forall (fun kv => exists z, leaf_value kv.1 kv.2 = Ok z /\ in_field z) (readings key v) /\
     forall k, default [] (inputs' !! k) = default [] (inputs !! k) ++ read_under k (readings key v)).
Proof.
  split; [| split].
  - unfold flatten_input. rewrite flatten_loop_spec by (cbn [sum_list_with snd]; lia). cbn [flat_map fst snd]. by rewrite app_nil_r.
  - apply read_all_Err.
  - intros inputs' E. split; [by eapply read_all_Ok | by apply read_all_lookup].
Qed.

(** C29. The calculator and the prover get what the builder built.  Of every transaction the
    builder builds, with a hash of the external data that is a field element (as the reduced
    hash is), the text of the circuit's inputs, whatever the order of its fields, is flattened
    without an error or panic to the signals themselves: under each name of the circuit the
    numbers of the transaction in order (the root, the amount modulo the field, the nullifiers,
    the commitments, the secrets and paths of the notes, the two membership proofs), and nothing
    else.  A witness the calculator then returns is written to bytes from which the prover reads
    the same field elements; only a failed calculation is an error. *)
Theorem witness_inputs_exact (C : Crypto) (CL : CryptoLaws C) (NB : NumBigint) (NBL : NumBigintLaws NB) (AC : ArkCircom) (calc : ArkCalculator)
    (hash : FlowExtData -> result ProverError bytes) (p : TransactParams) (n n' : nat) (art : TransactArtifacts) (fields : list (string * InputValue)) :
  params_typed p ->
  flow_transact hash p n = Some (Ok art, n') ->
  (forall e h, hash e = Ok h -> Forall is_byte h /\ length h = 32%nat /\ be_value h < BN_P) ->
  NoDup fields.*1 -> circuit_inputs art = list_to_map fields ->
  exists ins outs h,
    padded (is_dummy_input (Z.to_nat (tx_tree_depth p))) (tx_inputs p) ins /\ padded is_dummy_output (tx_outputs p) outs /\ hash (art_ext_data art) = Ok h /\
    let inputs := inputs_of (flow_numbers p ins outs h) in
    flatten_fields ((fun kv => (kv.1, input_json kv.2)) <$> fields) ∅ = Some (Ok inputs) /\
    match calculate_witness calc inputs with
    | None => compute_witness calc (circuit_json fields) = Some (Err CalculationFailed)
    | Some ws => Forall in_field ws -> exists b, compute_witness calc (circuit_json fields) = Some (Ok b) /\ elements (field_chunks b) = Ok ws
    end.
Proof.
  intros Hp Hflow Hhash Hnd Hfields. apply flow_transact_result in Hflow as [_ (ins & outs & c0 & c1 & h & Hins & Houts & _ & He & Hh & _ & Hci)]; [| done | done].
  exists ins, outs, h. split; [done |]. split; [done |]. split; [done |]. intros inputs.
  assert (flatten_fields ((fun kv => (kv.1, input_json kv.2)) <$> fields) ∅ = Some (Ok inputs)) as Hflat.
  { apply (flatten_permuted (flow_signals p ins outs h)); [| | apply flow_signal_names | done | by rewrite <- Hci, Hfields].
    - destruct (Hhash _ _ Hh) as (Hb & Hl & Hlt). apply flow_numbers_shown; try done.
      + apply (padded_Forall _ input_typed _ _ (fun x H => proj1 (dummy_input_typed _ x H)) Hins), Hp.
      + apply (padded_Forall _ output_typed _ _ (fun x H => proj1 (dummy_output_typed x H)) Houts), Hp.
    - reflexivity. }
  split; [exact Hflat |]. unfold compute_witness, circuit_json. rewrite Hflat. cbn [mbind option_bind result_bind].
  destruct (calculate_witness calc inputs) as [ws|]; [| done]. intros Hws. destruct (witness_roundtrip ws Hws) as (b & E & _ & Hr). exists b. cbn [ok_or mbind result_bind]. by rewrite E.
Qed.

(** *** A reading of digits and a calculator *)

Definition ref_parse (s : list ascii) (radix : Z) : option Z := if bool_decide (s = []) then None else if radix =? 16 then hex_value 0 s else None.

#[local] Instance ref_bigint : NumBigint := {| parse_bytes := ref_parse |}.

#[local] Instance ref_bigint_laws : NumBigintLaws ref_bigint.
Proof. constructor. intros s z Hs E. cbn. unfold ref_parse. by rewrite bool_decide_false. Qed.

(** It returns one and the root. *)
#[local] Instance ref_circom : ArkCircom := {| ArkCalculator := unit; calculate_witness _ inputs := root ← inputs !! "root"%string; Some (1 :: root) |}.

(** The deposit of the reference request, its fields in the order of the map. *)
Lemma witness_inputs_exact_witness :
  exists art n' b root, flow_transact (C := ref_crypto) (fun _ => Ok (be_bytes 32 9)) wit_deposit 0%nat = Some (Ok art, n') /\
    compute_witness (tt : ArkCalculator) (circuit_json (map_to_list (circuit_inputs art))) = Some (Ok b) /\
    elements (field_chunks b) = Ok [1; root] /\ root = pool_root wit_deposit.
Proof.
  destruct (flow_transact_succeeds ref_crypto ref_crypto_laws (fun _ => Ok (be_bytes 32 9)) wit_deposit 0 wit_deposit_typed) as (art & n' & Hf & _).
  { split; [exact ref_entropy | intros e; exact (ex_intro _ _ eq_refl)]. }
  { exact wit_deposit_acceptable. }
  destruct (witness_inputs_exact ref_crypto ref_crypto_laws ref_bigint ref_bigint_laws ref_circom tt (fun _ => Ok (be_bytes 32 9)) wit_deposit 0 n' art
    (map_to_list (circuit_inputs art)) wit_deposit_typed Hf
    ltac:(intros e h [= <-]; split; [apply be_bytes_bytes | split; [apply length_be_bytes | rewrite be_value_bytes; vm_compute; reflexivity]])
    (NoDup_fst_map_to_list _) ltac:(symmetry; apply list_to_map_to_list)) as (ins & outs & h & _ & _ & _ & _ & Hcalc).
  assert (calculate_witness (ArkCircom := ref_circom) tt (inputs_of (flow_numbers wit_deposit ins outs h)) = Some [1; pool_root wit_deposit]) as Hr.
  { cbn [calculate_witness ref_circom]. unfold inputs_of, flow_numbers. cbv zeta. rewrite filter_app, filter_cons, decide_True by discriminate. cbn [app]. rewrite list_to_map_cons, lookup_insert_eq. reflexivity. }
  rewrite Hr in Hcalc. destruct Hcalc as (b & Hb & He).
  { constructor; [split; [discriminate | reflexivity] |]. constructor; [exact (pt_root _ wit_deposit_typed) | constructor]. }
  exists art, n', b, (pool_root wit_deposit). split; [exact Hf |]. split; [exact Hb |]. split; [exact He | reflexivity].
Defined.
