(* ===== verification/KeyFiles.v ===== *)
(** * Keys on disk and in the contract

    [circuit-keys/src/lib.rs]: the encodings of a verifying key (the snarkjs text, the bytes of
    the host's points, the binary file, the constants of a source file) and the replacement of a
    file; and the build script of the verifier contract
    ([contracts/circom-groth16-verifier/build.rs]), which turns the text into the constants the
    contract embeds. *)

From Stdlib Require Import Ascii.
From stdpp Require Import strings pretty.
From S2P Require Import Prelude Ints Amounts Encryption Serialization Rpc Prover Verifier Witness.

(** ** Keys *)

(** The order of the base field of the curve. *)
Definition FQ : Z := 21888242871839275222246405745257275088696311157297823662689037894645226208583.


Record ArkVerifyingKey : Type := {
  ak_alpha : G1Affine;
  ak_beta : G2Affine;
  ak_gamma : G2Affine;
  ak_delta : G2Affine;
  ak_gamma_abc : list G1Affine;
}.

(** [num_bigint::BigUint] as decimal text. *)
Class BigUintText : Type := {
  biguint_to_string : Z -> list ascii;
  biguint_parse : list ascii -> option Z;
}.

Class BigUintTextLaws (B : BigUintText) : Prop := {
  biguint_roundtrip n : 0 <= n -> biguint_parse (biguint_to_string n) = Some n;
}.

(** *** Bytes of the host's points *)

(** The bytes of a coordinate, right-aligned in 32 ([bigint_to_be_32]). *)
Definition key_be_32 (v : Z) : bytes :=
  let b := be_bytes 32 v in replicate (32 - length b) 0 ++ take (length b `min` 32) b.

Definition g1_to_soroban_bytes (p : G1Affine) : bytes := key_be_32 (g1_x p) ++ key_be_32 (g1_y p).

(** The imaginary part comes first. *)
Definition g2_to_soroban_bytes (p : G2Affine) : bytes :=
  key_be_32 (c1 (g2_x p)) ++ key_be_32 (c0 (g2_x p)) ++ key_be_32 (c1 (g2_y p)) ++ key_be_32 (c0 (g2_y p)).

(** [write_vk_soroban_bin], before the file is written; the count must fit 32 bits. *)
Definition vk_soroban_bytes (vk : ArkVerifyingKey) : option bytes :=
  ic_count ← try_into_u 32 (zlength (ak_gamma_abc vk));
  Some (g1_to_soroban_bytes (ak_alpha vk) ++ g2_to_soroban_bytes (ak_beta vk) ++ g2_to_soroban_bytes (ak_gamma vk) ++ g2_to_soroban_bytes (ak_delta vk)
        ++ le_bytes 4 ic_count ++ concat (g1_to_soroban_bytes <$> ak_gamma_abc vk)).

(** *** The key of the tests of the contracts ([soroban-utils/src/utils.rs]) *)

(** [try_into::<[u8; 32]>().expect(..)]. *)
Definition expect_32 (b : bytes) : option bytes := if bool_decide (length b = 32%nat) then Some b else None.

Definition g1_bytes_from_ark (p : G1Affine) : option bytes :=
  x_bytes ← expect_32 (be_bytes 32 (g1_x p));
  y_bytes ← expect_32 (be_bytes 32 (g1_y p));
  Some (x_bytes ++ y_bytes).

Definition g2_bytes_from_ark (p : G2Affine) : option bytes :=
  x0 ← expect_32 (be_bytes 32 (c0 (g2_x p)));
  x1 ← expect_32 (be_bytes 32 (c1 (g2_x p)));
  y0 ← expect_32 (be_bytes 32 (c0 (g2_y p)));
  y1 ← expect_32 (be_bytes 32 (c1 (g2_y p)));
  Some (x1 ++ x0 ++ y1 ++ y0).

Definition vk_bytes_from_ark (vk : ArkVerifyingKey) : option VerificationKey :=
  alpha ← g1_bytes_from_ark (ak_alpha vk);
  beta ← g2_bytes_from_ark (ak_beta vk);
  gamma ← g2_bytes_from_ark (ak_gamma vk);
  delta ← g2_bytes_from_ark (ak_delta vk);
  ic ← mapM g1_bytes_from_ark (ak_gamma_abc vk);
  Some {| vk_alpha := alpha; vk_beta := beta; vk_gamma := gamma; vk_delta := delta; vk_ic := ic |}.

(** *** The snarkjs text *)

Section Text.

Context {B : BigUintText}.

Definition fq_to_decimal (f : Z) : list ascii := biguint_to_string (be_value (be_bytes 32 f)).

Definition json_text (s : list ascii) : Json := JString s.
Definition literal (s : string) : Json := JString (String.list_ascii_of_string s).

Definition g1_to_snarkjs (p : G1Affine) : Json := JArray [json_text (fq_to_decimal (g1_x p)); json_text (fq_to_decimal (g1_y p)); literal "1"].

(** The real part comes first. *)
Definition g2_to_snarkjs (p : G2Affine) : Json :=
  JArray [JArray [json_text (fq_to_decimal (c0 (g2_x p))); json_text (fq_to_decimal (c1 (g2_x p)))];
          JArray [json_text (fq_to_decimal (c0 (g2_y p))); json_text (fq_to_decimal (c1 (g2_y p)))];
          JArray [literal "1"; literal "0"]].

Definition vk_to_snarkjs_json (vk : ArkVerifyingKey) : Json :=
  JObject [("protocol", literal "groth16"); ("curve", literal "bn128");
           ("nPublic", JNumber (JInteger (Z.max 0 (zlength (ak_gamma_abc vk) - 1))));
           ("vk_alpha_1", g1_to_snarkjs (ak_alpha vk)); ("vk_beta_2", g2_to_snarkjs (ak_beta vk));
           ("vk_gamma_2", g2_to_snarkjs (ak_gamma vk)); ("vk_delta_2", g2_to_snarkjs (ak_delta vk));
           ("IC", JArray (g1_to_snarkjs <$> ak_gamma_abc vk))]%string.

(** [Fq::from_be_bytes_mod_order]: a number of any size is reduced. *)
Definition parse_fq_decimal (value : list ascii) : option Z := bigint ← biguint_parse value; Some (bigint mod FQ).

Definition fq2_from_decimals (c0 c1 : list ascii) : option Fq2 := a ← parse_fq_decimal c0; b ← parse_fq_decimal c1; Some {| c0 := a; c1 := b |}.

(** *** The build script of the contract; [None] is a panic. *)

Definition json_array (v : Json) : option (list Json) := match v with JArray items => Some items | _ => None end.
Definition json_str (v : Json) : option (list ascii) := match v with JString s => Some s | _ => None end.

(** [v["name"]]: null when there is no such field. *)
Definition json_index (v : Json) (name : string) : Json :=
  match v with JObject fields => default JNull (snd <$> find (fun f => bool_decide (f.1 = name)) fields) | _ => JNull end.

(** [arr[i].as_str()]. *)
Definition str_at (arr : list Json) (i : nat) : option (list ascii) := v ← arr !! i; json_str v.

Definition g1_bytes (pt : Json) : option bytes :=
  arr ← json_array pt;
  sx ← str_at arr 0; x ← parse_fq_decimal sx;
  sy ← str_at arr 1; y ← parse_fq_decimal sy;
  Some (g1_to_soroban_bytes {| g1_x := x; g1_y := y |}).

Definition fq2_at (arr : list Json) (i : nat) : option Fq2 :=
  v ← arr !! i;
  parts ← json_array v;
  c0 ← str_at parts 0;
  c1 ← str_at parts 1;
  fq2_from_decimals c0 c1.

Definition g2_bytes (pt : Json) : option bytes :=
  arr ← json_array pt;
  x ← fq2_at arr 0;
  y ← fq2_at arr 1;
  Some (g2_to_soroban_bytes {| g2_x := x; g2_y := y |}).

(** The values of [vk_rs_from_json]. *)
Definition vk_constants (v : Json) : option EmbeddedVk :=
  alpha ← g1_bytes (json_index v "vk_alpha_1");
  beta ← g2_bytes (json_index v "vk_beta_2");
  gamma ← g2_bytes (json_index v "vk_gamma_2");
  delta ← g2_bytes (json_index v "vk_delta_2");
  ic_arr ← json_array (json_index v "IC");
  ic ← mapM g1_bytes ic_arr;
  Some {| VK_ALPHA_G1 := alpha; VK_BETA_G2 := beta; VK_GAMMA_G2 := gamma; VK_DELTA_G2 := delta; VK_IC := ic |}.

Definition chars (s : string) : list ascii := String.list_ascii_of_string s.

(** [join]. *)
Fixpoint join_chars (sep : list ascii) (l : list (list ascii)) : list ascii :=
  match l with
  | [] => []
  | [x] => x
  | x :: l => x ++ sep ++ join_chars sep l
  end.

(** [0x{b:02x}]. *)
Definition hex_literal (b : Z) : list ascii := ["0"; "x"; nibble_char (b / 16); nibble_char (b mod 16)]%char.

Definition fmt_bytes (b : bytes) : list ascii := chars "[" ++ join_chars (chars ",") (hex_literal <$> b) ++ chars "]".

(** The lines of the generated file after its comment. *)
Definition vk_rs_lines (vk : EmbeddedVk) : list (list ascii) :=
  [chars "const VK_ALPHA_G1: [u8; 64] = " ++ fmt_bytes VK_ALPHA_G1 ++ chars ";";
   chars "const VK_BETA_G2: [u8; 128] = " ++ fmt_bytes VK_BETA_G2 ++ chars ";";
   chars "const VK_GAMMA_G2: [u8; 128] = " ++ fmt_bytes VK_GAMMA_G2 ++ chars ";";
   chars "const VK_DELTA_G2: [u8; 128] = " ++ fmt_bytes VK_DELTA_G2 ++ chars ";";
   chars "const VK_IC: [[u8; 64]; " ++ show_u (zlength VK_IC) ++ chars "] = [" ++ join_chars (chars ",") (fmt_bytes <$> VK_IC) ++ chars "];"].

Definition vk_rs_from_json (v : Json) : option (list (list ascii)) := vk ← vk_constants v; Some (vk_rs_lines vk).

End Text.

(** ** Files *)

(** A path is its directory and its name. *)
Abbreviation Path := (string * string)%type.

Inductive FileError : Type :=
| AlreadyExists
| FileNotFound
| FileFault
| MissingParent
| MissingName
| NoTempFile
| Serialization.

(** The contents of the files, the number of operations so far and the contents after each. *)
Record Disk : Type := {
  dk_files : gmap Path bytes;
  dk_ops : nat;
  dk_seen : list (gmap Path bytes);
}.

(** Which operations fail, and how much a failed write has written. *)
Class Faults : Type := {
  fault : nat -> bool;
  short : nat -> nat;
}.

Section Files.

Context {F : Faults}.

Local Abbreviation FM := (IO Disk FileError).

(** One operation on the files: what it does, and what is left of it when it fails. *)
Definition disk_op (run : gmap Path bytes -> result FileError unit * gmap Path bytes) (broken : nat -> gmap Path bytes -> gmap Path bytes) : FM unit := fun d =>
  let k := dk_ops d in
  let '(r, files) := if fault k then (Err FileFault, broken k (dk_files d)) else run (dk_files d) in
  (r, {| dk_files := files; dk_ops := S k; dk_seen := dk_seen d ++ [files] |}).

(** [OpenOptions::new().write(true).create_new(true).open(p)]. *)
Definition create_new (p : Path) : FM unit :=
  disk_op (fun files => match files !! p with Some _ => (Err AlreadyExists, files) | None => (Ok tt, <[p := []]> files) end) (fun _ files => files).

Definition write_all (p : Path) (b : bytes) : FM unit :=
  disk_op (fun files => (Ok tt, <[p := b]> files)) (fun k files => <[p := take (short k) b]> files).

Definition sync_all : FM unit := disk_op (fun files => (Ok tt, files)) (fun _ files => files).

Definition fs_rename (from to_ : Path) : FM unit :=
  disk_op (fun files => match files !! from with Some b => (Ok tt, <[to_ := b]> (delete from files)) | None => (Err FileNotFound, files) end) (fun _ files => files).

Definition remove_file (p : Path) : FM unit :=
  disk_op (fun files => match files !! p with Some _ => (Ok tt, delete p files) | None => (Err FileNotFound, files) end) (fun _ files => files).

(** The process. *)
Variable pid : N.

Definition temp_name (name : string) (attempt : nat) : string :=
  let base := ("." +:+ name +:+ ".tmp." +:+ pretty pid)%string in
  if bool_decide (attempt = 0%nat) then base else (base +:+ "." +:+ pretty (N.of_nat attempt))%string.

(** The loop over the names of the temporary file, [n] more of them: the last name tried and
    whether the file was created. *)
Fixpoint create_temp (n attempt : nat) (dir name : string) : FM (Path * bool) := fun d =>
  let p := (dir, temp_name name attempt) in
  match create_new p d with
  | (Ok _, d) => (Ok (p, true), d)
  | (Err AlreadyExists, d) => match n with O => (Ok (p, false), d) | S n => create_temp n (S attempt) dir name d end
  | (Err e, d) => (Err e, d)
  end.

(** The contents go to the temporary file, which then takes the place of the target; after a
    failure the last temporary name is removed.  The directory is synchronised at the end. *)
Definition replace_through (temp : Path * bool) (target : Path) (b : bytes) : FM unit := fun d =>
  match (if temp.2 : bool then write_all temp.1 b;; sync_all;; fs_rename temp.1 target else io_throw NoTempFile) d with
  | (Err e, d) => (Err e, (remove_file temp.1 d).2)
  | (Ok _, d) => (sync_all;; sync_all) d
  end.

Definition atomic_write (dir name : option string) (b : bytes) : FM unit :=
  match dir, name with
  | None, _ => io_throw MissingParent
  | Some _, None => io_throw MissingName
  | Some dir, Some name => temp ← create_temp 999 0 dir name; replace_through temp (dir, name) b
  end.

Definition write_file (p : Path) (b : bytes) : FM unit := atomic_write (Some p.1) (Some p.2) b.

(** *** The writers *)

(** The proving key of arkworks, its serialization, and the text of a JSON value. *)
Class ArkKeys : Type := {
  ProvingKeyFile : Type;
  pk_vk : ProvingKeyFile -> ArkVerifyingKey;
  read_zkey : bytes -> option ProvingKeyFile;
  serialize_compressed : ProvingKeyFile -> option bytes;
  deserialize_compressed_unchecked : bytes -> option ProvingKeyFile;
  to_string_pretty : Json -> option bytes;
}.

(** [?] on an encoding that can fail. *)
Definition encoded (b : option bytes) : FM bytes := match b with Some b => mret b | None => io_throw Serialization end.

Definition write_proving_key_bin {K : ArkKeys} (pk : ProvingKeyFile) (path : Path) : FM unit := b ← encoded (serialize_compressed pk); write_file path b.

Definition write_vk_snarkjs_json {K : ArkKeys} {B : BigUintText} (vk : ArkVerifyingKey) (path : Path) : FM unit :=
  b ← encoded (to_string_pretty (vk_to_snarkjs_json vk)); write_file path b.

Definition write_vk_soroban_bin (vk : ArkVerifyingKey) (path : Path) : FM unit := b ← encoded (vk_soroban_bytes vk); write_file path b.

(** [{:?}] of an array of bytes. *)
Definition debug_bytes (b : bytes) : list ascii := chars "[" ++ join_chars (chars ", ") (show_u <$> b) ++ chars "]".

Definition newline : list ascii := [ascii_of_nat 10].

Definition vk_rust_const (vk : ArkVerifyingKey) : list ascii :=
  let ic_count := show_u (zlength (ak_gamma_abc vk)) in
  chars "//! Auto-generated verification key constants for Soroban contracts." ++ newline
  ++ chars "//! DO NOT EDIT - regenerate from the final ceremony zkey." ++ newline ++ newline
  ++ chars "#![allow(dead_code)]" ++ newline ++ newline
  ++ chars "pub const VK_ALPHA: [u8; 64] = " ++ debug_bytes (g1_to_soroban_bytes (ak_alpha vk)) ++ chars ";" ++ newline ++ newline
  ++ chars "pub const VK_BETA: [u8; 128] = " ++ debug_bytes (g2_to_soroban_bytes (ak_beta vk)) ++ chars ";" ++ newline ++ newline
  ++ chars "pub const VK_GAMMA: [u8; 128] = " ++ debug_bytes (g2_to_soroban_bytes (ak_gamma vk)) ++ chars ";" ++ newline ++ newline
  ++ chars "pub const VK_DELTA: [u8; 128] = " ++ debug_bytes (g2_to_soroban_bytes (ak_delta vk)) ++ chars ";" ++ newline ++ newline
  ++ chars "pub const VK_IC_COUNT: usize = " ++ ic_count ++ chars ";" ++ newline ++ newline
  ++ chars "pub const VK_IC: [[u8; 64]; " ++ ic_count ++ chars "] = [" ++ newline
  ++ concat ((fun ic => chars "    " ++ debug_bytes (g1_to_soroban_bytes ic) ++ chars "," ++ newline) <$> ak_gamma_abc vk)
  ++ chars "];" ++ newline.

Definition const_bytes (s : list ascii) : bytes := (fun c => Z.of_N (N_of_ascii c)) <$> s.

Definition write_vk_rust_const (vk : ArkVerifyingKey) (path : Path) : FM unit := write_file path (const_bytes (vk_rust_const vk)).

(** *** What a write leaves *)

Lemma string_length_app s1 s2 : String.length (s1 +:+ s2) = (String.length s1 + String.length s2)%nat.
Proof. induction s1 as [|c s1 IH]; [done |]. exact (f_equal S IH). Qed.

Lemma temp_not_target name attempt : temp_name name attempt <> name.
Proof.
  intros E. apply (f_equal String.length) in E. unfold temp_name in E. revert E. case_bool_decide; rewrite !string_length_app; cbn [String.length]; lia.
Qed.

(** An operation adds one state to those seen. *)
Lemma disk_op_run run broken d : exists files r, disk_op run broken d = (r, {| dk_files := files; dk_ops := S (dk_ops d); dk_seen := dk_seen d ++ [files] |}) /\
  (if fault (dk_ops d) then r = Err FileFault /\ files = broken (dk_ops d) (dk_files d) else (r, files) = run (dk_files d)).
Proof.
  unfold disk_op. destruct (fault (dk_ops d)); [by eexists _, _ |]. destruct (run (dk_files d)) as [r files]. by exists files, r.
Qed.

(** Between two disks only states of [P] are seen. *)
Definition saw (P : gmap Path bytes -> Prop) (d d' : Disk) : Prop := exists more, dk_seen d' = dk_seen d ++ more /\ Forall P more.

Lemma saw_trans P d1 d2 d3 : saw P d1 d2 -> saw P d2 d3 -> saw P d1 d3.
Proof. intros (m1 & E1 & H1) (m2 & E2 & H2). exists (m1 ++ m2). split; [by rewrite E2, E1, app_assoc | by apply Forall_app]. Qed.

Lemma saw_impl (P Q : gmap Path bytes -> Prop) d d' : (forall fs, P fs -> Q fs) -> saw P d d' -> saw Q d d'.
Proof. intros HPQ (m & E & H). exists m. split; [done | by eapply Forall_impl]. Qed.

Lemma saw_op (P : gmap Path bytes -> Prop) d files n : P files -> saw P d {| dk_files := files; dk_ops := n; dk_seen := dk_seen d ++ [files] |}.
Proof. intros HP. exists [files]. split; [done | by constructor]. Qed.

Lemma saw_refl P d : saw P d d.
Proof. exists []. by rewrite app_nil_r. Qed.

Lemma create_temp_spec dir name n : forall attempt d,
  match create_temp n attempt dir name d with
  | (Ok (p, true), d') => exists k, (k <= attempt + n)%nat /\ p = (dir, temp_name name k) /\ dk_files d !! p = None /\ dk_files d' = <[p := []]> (dk_files d) /\
      saw (fun fs => fs = dk_files d \/ fs = dk_files d') d d'
  | (Ok (p, false), d') => p = (dir, temp_name name (attempt + n)) /\ is_Some (dk_files d !! p) /\ dk_files d' = dk_files d /\ saw (fun fs => fs = dk_files d) d d'
  | (Err _, d') => dk_files d' = dk_files d /\ saw (fun fs => fs = dk_files d) d d'
  end.
Proof.
  induction n as [|n IH]; intros attempt d; cbn [create_temp]; unfold create_new;
    destruct (disk_op_run (fun files => match files !! (dir, temp_name name attempt) with Some _ => (Err AlreadyExists, files) | None => (Ok tt, <[(dir, temp_name name attempt) := []]> files) end)
      (fun _ files => files) d) as (files & r & -> & Hr); (destruct (fault (dk_ops d)); [destruct Hr as [-> ->]; split; [done | by apply saw_op] |]);
    (destruct (dk_files d !! (dir, temp_name name attempt)) as [c|] eqn:Ec; injection Hr as -> ->).
  - rewrite Nat.add_0_r. split; [done |]. split; [by rewrite Ec |]. split; [done | by apply saw_op].
  - exists attempt. split; [lia |]. split; [done |]. split; [done |]. split; [done |]. apply saw_op. by right.
  - specialize (IH (S attempt) {| dk_files := dk_files d; dk_ops := S (dk_ops d); dk_seen := dk_seen d ++ [dk_files d] |}).
    pose proof (saw_op (fun fs => fs = dk_files d) d (dk_files d) (S (dk_ops d)) eq_refl) as Hsaw.
    destruct (create_temp n (S attempt) dir name _) as [[[p [|]]|e] d']; cbn [dk_files] in IH.
    + destruct IH as (k & Hk & Hp & Hnone & Hf & Hs). exists k. split; [lia |]. do 3 (split; [done |]).
      eapply saw_trans; [eapply saw_impl; [| exact Hsaw]; intros fs ->; by left | exact Hs].
    + destruct IH as (Hp & Hsome & Hf & Hs). split; [by rewrite Nat.add_succ_r |]. do 2 (split; [done |]). by eapply saw_trans.
    + destruct IH as (Hf & Hs). split; [done |]. by eapply saw_trans.
  - exists attempt. split; [lia |]. split; [done |]. split; [done |]. split; [done |]. apply saw_op. by right.
Qed.

Lemma saw_base (P : gmap Path bytes -> Prop) d files n : saw P d {| dk_files := files; dk_ops := n; dk_seen := dk_seen d |}.
Proof. exists []. by rewrite app_nil_r. Qed.

Lemma saw_snoc (P : gmap Path bytes -> Prop) d files n l f :
  saw P d {| dk_files := ∅; dk_ops := 0; dk_seen := l |} -> P f -> saw P d {| dk_files := files; dk_ops := n; dk_seen := l ++ [f] |}.
Proof. intros (m & E & H) Hf. cbn in E. subst l. exists (m ++ [f]). split; [by rewrite app_assoc | apply Forall_app; split; [done | by constructor]]. Qed.

(** The states of a write through a temporary file that did not exist. *)
Definition stage (base : gmap Path bytes) (temp target : Path) (b : bytes) (fs : gmap Path bytes) : Prop :=
  fs = base \/ (exists x, fs = <[temp := x]> base) \/ fs = <[target := b]> base.

Lemma replace_created base temp target b d : base !! temp = None -> dk_files d = <[temp := []]> base ->
  let '(r, d') := replace_through (temp, true) target b d in
  saw (stage base temp target b) d d' /\ (forall u, r = Ok u -> dk_files d' = <[target := b]> base) /\ stage base temp target b (dk_files d').
Proof.
  intros Hnone Hd. unfold replace_through, write_all, sync_all, fs_rename, remove_file, disk_op, mbind, io_bind. cbn [fst snd]. rewrite Hd.
  assert (forall x, stage base temp target b (<[temp := x]> base)) as Hx by (intros x; right; left; by exists x).
  assert (stage base temp target b base) as Hb by (by left). assert (stage base temp target b (<[target := b]> base)) as Ht by (right; by right).
  assert (forall x : bytes, delete temp (<[temp := x]> base) = base) as Hdel by (intros x; by apply delete_insert_id).
  repeat (first [rewrite insert_insert_eq | rewrite lookup_insert_eq | rewrite Hdel | progress cbn [dk_files dk_ops dk_seen fst snd] | match goal with |- context [fault ?k] => destruct (fault k) end]);
    (split; [repeat (apply saw_snoc; [| first [apply Hx | apply Hb | apply Ht]]); apply saw_base | split; [intros u Hu; (discriminate || reflexivity) | first [apply Hx | apply Hb | apply Ht]]]).
Qed.

Lemma replace_exhausted temp target b d : exists e,
  replace_through (temp, false) target b d = (Err e, (remove_file temp d).2) /\
  (dk_files (remove_file temp d).2 = dk_files d \/ dk_files (remove_file temp d).2 = delete temp (dk_files d)) /\
  saw (fun fs => fs = dk_files (remove_file temp d).2) d (remove_file temp d).2.
Proof.
  exists NoTempFile. split; [done |]. unfold remove_file, disk_op. destruct (fault (dk_ops d)); [split; [by left | by apply saw_op] |].
  destruct (dk_files d !! temp); (split; [auto | by apply saw_op]).
Qed.

(** In a state on the way from [base] to the new contents of [target], the target has its old
    contents or all of the new ones, and every other file is as it was except for the temporary
    names next to the target. *)
Definition kept (base : gmap Path bytes) (target : Path) (b : bytes) (fs : gmap Path bytes) : Prop :=
  (fs !! target = base !! target \/ fs !! target = Some b) /\
  forall p, p <> target -> (forall k, (k < 1000)%nat -> p <> (target.1, temp_name target.2 k)) -> fs !! p = base !! p.

Lemma kept_base base target b : kept base target b base.
Proof. split; [by left | done]. Qed.

Lemma stage_kept base dir name k b fs : (k < 1000)%nat -> stage base (dir, temp_name name k) (dir, name) b fs -> kept base (dir, name) b fs.
Proof.
  intros Hk [-> | [[x ->] | ->]]; [apply kept_base | |].
  - split; [left; rewrite lookup_insert_ne; [done |]; intros E; injection E as E; by eapply temp_not_target |].
    intros p Hp Hpk. rewrite lookup_insert_ne; [done |]. intros <-. by apply (Hpk k).
  - split; [right; by rewrite lookup_insert_eq |]. intros p Hp _. by rewrite lookup_insert_ne.
Qed.

Lemma kept_delete base dir name b : kept base (dir, name) b (delete (dir, temp_name name 999) base).
Proof.
  split; [left; rewrite lookup_delete_ne; [done |]; intros E; injection E as E; by eapply temp_not_target |].
  intros p Hp Hpk. rewrite lookup_delete_ne; [done |]. intros <-. apply (Hpk 999%nat); [lia | done].
Qed.

(** A file is replaced as a whole, whatever operations fail and wherever a write is cut short. *)
Lemma write_file_kept target b d :
  let '(r, d') := write_file target b d in
  saw (kept (dk_files d) target b) d d' /\ kept (dk_files d) target b (dk_files d') /\ (forall u, r = Ok u -> dk_files d' = <[target := b]> (dk_files d)).
Proof.
  destruct target as [dir name]. unfold write_file, atomic_write, mbind, io_bind. cbn [fst snd]. pose proof (create_temp_spec dir name 999 0 d) as Ht.
  pose proof (kept_base (dk_files d) (dir, name) b) as Hb.
  destruct (create_temp 999 0 dir name d) as [[[temp [|]]|e] d1].
  - destruct Ht as (k & Hk & -> & Hnone & Hf1 & Hs1). pose proof (replace_created (dk_files d) _ (dir, name) b d1 Hnone Hf1) as Hrep.
    destruct (replace_through _ (dir, name) b d1) as [r d2]. destruct Hrep as (Hs2 & Hok & Hst).
    pose proof (fun fs => stage_kept (dk_files d) dir name k b fs ltac:(lia)) as Hview.
    split; [| split; [by apply Hview | exact Hok]]. eapply saw_trans; [| eapply saw_impl; [exact Hview | exact Hs2]].
    eapply saw_impl; [| exact Hs1]. intros fs [-> | ->]; [done |]. apply Hview. right; left. rewrite Hf1. by exists [].
  - destruct Ht as (-> & Hsome & Hf1 & Hs1). destruct (replace_exhausted (dir, temp_name name (0 + 999)) (dir, name) b d1) as (e & -> & Hf2 & Hs2). rewrite Hf1 in Hf2.
    assert (kept (dk_files d) (dir, name) b (dk_files (remove_file (dir, temp_name name (0 + 999)) d1).2)) as Hkept by (destruct Hf2 as [-> | ->]; [done | apply kept_delete]).
    split; [| split; [done | by intros u Hu]]. eapply saw_trans; [eapply saw_impl; [| exact Hs1]; by intros fs -> | eapply saw_impl; [| exact Hs2]; by intros fs ->].
  - destruct Ht as (Hf1 & Hs1). rewrite Hf1. split; [eapply saw_impl; [| exact Hs1]; by intros fs -> | split; [done | by intros u Hu]].
Qed.

End Files.

(** ** The key in the contract *)

Definition in_fq (z : Z) : Prop := 0 <= z < FQ.
Definition g1_typed (p : G1Affine) : Prop := in_fq (g1_x p) /\ in_fq (g1_y p).
Definition g2_typed (p : G2Affine) : Prop := (in_fq (c0 (g2_x p)) /\ in_fq (c1 (g2_x p))) /\ in_fq (c0 (g2_y p)) /\ in_fq (c1 (g2_y p)).

(** The coordinates are reduced, as [ark_bn254] keeps them. *)
Record key_typed (vk : ArkVerifyingKey) : Prop := {
  kt_alpha : g1_typed (ak_alpha vk);
  kt_beta : g2_typed (ak_beta vk);
  kt_gamma : g2_typed (ak_gamma vk);
  kt_delta : g2_typed (ak_delta vk);
  kt_gamma_abc : Forall g1_typed (ak_gamma_abc vk);
}.

(** The constants that hold a key. *)
Definition constants_of (vk : ArkVerifyingKey) : EmbeddedVk :=
  {| VK_ALPHA_G1 := g1_to_soroban_bytes (ak_alpha vk); VK_BETA_G2 := g2_to_soroban_bytes (ak_beta vk); VK_GAMMA_G2 := g2_to_soroban_bytes (ak_gamma vk);
     VK_DELTA_G2 := g2_to_soroban_bytes (ak_delta vk); VK_IC := g1_to_soroban_bytes <$> ak_gamma_abc vk |}.

Lemma fq_u256 z : in_fq z -> 0 <= z < 2 ^ 256.
Proof. intros [H0 H1]. split; [done |]. eapply Z.lt_trans; [exact H1 | reflexivity]. Qed.

Lemma coordinate_bytes z : key_be_32 z = be_bytes 32 z.
Proof. unfold key_be_32. rewrite length_be_bytes. change (32 - 32)%nat with 0%nat. cbn [replicate app]. apply take_ge. rewrite length_be_bytes. lia. Qed.

Lemma coordinate_is_bytes z : Forall is_byte (key_be_32 z).
Proof. rewrite coordinate_bytes. apply be_bytes_bytes. Qed.

Lemma coordinates_inj a b s t : in_fq a -> in_fq b -> key_be_32 a ++ s = key_be_32 b ++ t -> a = b /\ s = t.
Proof.
  intros Ha Hb E. rewrite (coordinate_bytes a), (coordinate_bytes b) in E. apply app_inj_1 in E as [E ->]; [| by rewrite !length_be_bytes]. split; [| done].
  apply (f_equal be_value) in E. rewrite !be_value_bytes, pow_256_32 in E. by rewrite (Z.mod_small a), (Z.mod_small b) in E by (by apply fq_u256).
Qed.

Lemma g1_bytes_inj p q : g1_typed p -> g1_typed q -> g1_to_soroban_bytes p = g1_to_soroban_bytes q -> p = q.
Proof.
  destruct p as [px py], q as [qx qy]. intros [Hx Hy] [Hx' Hy'] E. unfold g1_to_soroban_bytes in E. cbn [g1_x g1_y g2_x g2_y c0 c1] in *.
  apply coordinates_inj in E as [-> E]; [| done | done]. rewrite <- (app_nil_r (key_be_32 py)), <- (app_nil_r (key_be_32 qy)) in E.
  by apply coordinates_inj in E as [-> _].
Qed.

Lemma g2_bytes_inj p q : g2_typed p -> g2_typed q -> g2_to_soroban_bytes p = g2_to_soroban_bytes q -> p = q.
Proof.
  destruct p as [[a b] [c e]], q as [[a' b'] [c' e']]. intros [[Ha Hb] [Hc He]] [[Ha' Hb'] [Hc' He']] E. unfold g2_to_soroban_bytes in E. cbn [g1_x g1_y g2_x g2_y c0 c1] in *.
  do 3 (apply coordinates_inj in E as [-> E]; [| done | done]). rewrite <- (app_nil_r (key_be_32 c)), <- (app_nil_r (key_be_32 c')) in E.
  by apply coordinates_inj in E as [-> _].
Qed.

Lemma fmap_inj_typed {A C} (f : A -> C) (P : A -> Prop) l l' : (forall x y, P x -> P y -> f x = f y -> x = y) -> Forall P l -> Forall P l' -> f <$> l = f <$> l' -> l = l'.
Proof.
  intros Hf Hl. revert l'. induction Hl as [|p l Hp Hl IH]; intros [|q l'] Hl' E; try done.
  apply Forall_cons in Hl' as [Hq Hl']. injection E as E1 E2. f_equal; [by apply Hf | by apply IH].
Qed.

Lemma key_inj vk vk' : key_typed vk -> key_typed vk' -> constants_of vk' = constants_of vk -> vk' = vk.
Proof.
  intros [Ha Hb Hg Hd Hi] [Ha' Hb' Hg' Hd' Hi'] E.
  pose proof (f_equal (@VK_ALPHA_G1) E : g1_to_soroban_bytes (ak_alpha vk') = g1_to_soroban_bytes (ak_alpha vk)) as Ea.
  pose proof (f_equal (@VK_BETA_G2) E : g2_to_soroban_bytes (ak_beta vk') = g2_to_soroban_bytes (ak_beta vk)) as Eb.
  pose proof (f_equal (@VK_GAMMA_G2) E : g2_to_soroban_bytes (ak_gamma vk') = g2_to_soroban_bytes (ak_gamma vk)) as Eg.
  pose proof (f_equal (@VK_DELTA_G2) E : g2_to_soroban_bytes (ak_delta vk') = g2_to_soroban_bytes (ak_delta vk)) as Ed.
  pose proof (f_equal (@VK_IC) E : g1_to_soroban_bytes <$> ak_gamma_abc vk' = g1_to_soroban_bytes <$> ak_gamma_abc vk) as Ei. clear E. destruct vk, vk'. cbn [ak_alpha ak_beta ak_gamma ak_delta ak_gamma_abc] in *.
  f_equal; [by apply g1_bytes_inj | by apply g2_bytes_inj | by apply g2_bytes_inj | by apply g2_bytes_inj |].
  by apply (fmap_inj_typed g1_to_soroban_bytes g1_typed); [apply g1_bytes_inj | | |].
Qed.

Lemma length_g1_soroban p : length (g1_to_soroban_bytes p) = 64%nat.
Proof. unfold g1_to_soroban_bytes. by rewrite !coordinate_bytes, !length_app, !length_be_bytes. Qed.

Lemma length_g2_soroban p : length (g2_to_soroban_bytes p) = 128%nat.
Proof. unfold g2_to_soroban_bytes. by rewrite !coordinate_bytes, !length_app, !length_be_bytes. Qed.

(** *** The literals of the generated file *)

(** A list of bytes as the compiler reads it: [0x] and two digits each, between commas. *)
Fixpoint bytes_literal (s : list ascii) : option bytes :=
  match s with
  | ("0" :: "x" :: h :: l :: rest)%char =>
      h ← nibble_value h; l ← nibble_value l;
      match rest with
      | ["]"%char] => Some [16 * h + l]
      | (","%char :: rest) => b ← bytes_literal rest; Some (16 * h + l :: b)
      | _ => None
      end
  | _ => None
  end.

Definition array_literal (s : list ascii) : option bytes :=
  match s with
  | ["["; "]"]%char => Some []
  | "["%char :: s => bytes_literal s
  | _ => None
  end.

Lemma byte_nibbles x : is_byte x -> nibble_value (nibble_char (x / 16)) = Some (x / 16) /\ nibble_value (nibble_char (x mod 16)) = Some (x mod 16).
Proof. intros Hx. destruct (nibbles_of_byte x Hx) as [Hh Hl]. split; by apply nibble_spec. Qed.

Lemma bytes_literal_join x b : Forall is_byte (x :: b) -> bytes_literal (join_chars (chars ",") (hex_literal <$> x :: b) ++ chars "]") = Some (x :: b).
Proof.
  revert x. induction b as [|y b IH]; intros x Hb; apply Forall_cons in Hb as [Hx Hb]; destruct (byte_nibbles x Hx) as [Hh Hl].
  - cbn -[nibble_char nibble_value Z.div Z.modulo Z.mul]. rewrite Hh, Hl. cbn -[Z.mul Z.div Z.modulo]. by rewrite <- Z.div_mod by lia.
  - specialize (IH y Hb). revert IH. generalize (y :: b). intros t IH.
    assert (forall (l : list (list ascii)) z, l <> [] -> join_chars (chars ",") (hex_literal x :: l) ++ z = ("0" :: "x" :: nibble_char (x / 16) :: nibble_char (x mod 16) :: "," :: (join_chars (chars ",") l ++ z))%char) as Hjoin by (by intros [|? ?]).
    destruct t as [|u t]; [discriminate IH |]. rewrite fmap_cons, Hjoin by done. cbn [bytes_literal]. rewrite Hh, Hl. cbn [mbind option_bind].
    rewrite IH. cbn [mbind option_bind]. by rewrite <- Z.div_mod by lia.
Qed.

Lemma literal_fmt b : Forall is_byte b -> array_literal (fmt_bytes b) = Some b.
Proof.
  destruct b as [|x b]; [done |]. intros Hb. rewrite <- (bytes_literal_join x b Hb). unfold fmt_bytes.
  assert (exists t, join_chars (chars ",") (hex_literal <$> x :: b) ++ chars "]" = "0"%char :: t) as [t ->] by (destruct b; by eexists). done.
Qed.

Lemma literals_read vk : Forall (fun b => array_literal (fmt_bytes b) = Some b)
  ([g1_to_soroban_bytes (ak_alpha vk); g2_to_soroban_bytes (ak_beta vk); g2_to_soroban_bytes (ak_gamma vk); g2_to_soroban_bytes (ak_delta vk)] ++ (g1_to_soroban_bytes <$> ak_gamma_abc vk)).
Proof.
  assert (forall p, array_literal (fmt_bytes (g1_to_soroban_bytes p)) = Some (g1_to_soroban_bytes p)) as H1.
  { intros p. apply literal_fmt. unfold g1_to_soroban_bytes. rewrite !Forall_app. repeat split; apply coordinate_is_bytes. }
  assert (forall p, array_literal (fmt_bytes (g2_to_soroban_bytes p)) = Some (g2_to_soroban_bytes p)) as H2.
  { intros p. apply literal_fmt. unfold g2_to_soroban_bytes. rewrite !Forall_app. repeat split; apply coordinate_is_bytes. }
  apply Forall_cons; split; [apply H1 |]. do 3 (apply Forall_cons; split; [apply H2 |]). apply Forall_fmap, Forall_true. intros p. apply H1.
Qed.

Lemma expect_coordinate z : expect_32 (be_bytes 32 z) = Some (key_be_32 z).
Proof. unfold expect_32. rewrite bool_decide_eq_true_2 by apply length_be_bytes. exact (f_equal Some (eq_sym (coordinate_bytes z))). Qed.

Lemma g1_from_ark p : g1_bytes_from_ark p = Some (g1_to_soroban_bytes p).
Proof. unfold g1_bytes_from_ark. do 2 (rewrite expect_coordinate; cbn [mbind option_bind]). reflexivity. Qed.

Lemma g2_from_ark p : g2_bytes_from_ark p = Some (g2_to_soroban_bytes p).
Proof.
  unfold g2_bytes_from_ark. do 4 (rewrite expect_coordinate; cbn [mbind option_bind]). reflexivity.
Qed.

Lemma vk_from_ark vk : vk_bytes_from_ark vk = Some (embedded_vk (vk := constants_of vk)).
Proof.
  unfold vk_bytes_from_ark. rewrite g1_from_ark, !g2_from_ark. cbn [mbind option_bind].
  assert (mapM g1_bytes_from_ark (ak_gamma_abc vk) = Some (g1_to_soroban_bytes <$> ak_gamma_abc vk)) as ->; [| done].
  induction (ak_gamma_abc vk) as [|p l IH]; [done |]. cbn [mapM]. rewrite g1_from_ark. cbn [mbind option_bind]. by rewrite IH.
Qed.

Section Embedding.

Context {B : BigUintText} {BL : BigUintTextLaws B}.

Lemma fq_decimal z : in_fq z -> parse_fq_decimal (fq_to_decimal z) = Some z.
Proof.
  intros Hz. unfold parse_fq_decimal, fq_to_decimal. rewrite be_value_bytes, pow_256_32, Z.mod_small by (by apply fq_u256).
  rewrite biguint_roundtrip by apply Hz. cbn. by rewrite Z.mod_small.
Qed.

Lemma g1_text p : g1_typed p -> g1_bytes (g1_to_snarkjs p) = Some (g1_to_soroban_bytes p).
Proof. intros [Hx Hy]. unfold g1_bytes. cbn. rewrite (fq_decimal _ Hx). cbn. rewrite (fq_decimal _ Hy). by destruct p. Qed.

Lemma g2_text p : g2_typed p -> g2_bytes (g2_to_snarkjs p) = Some (g2_to_soroban_bytes p).
Proof.
  intros [[Ha Hb] [Hc He]]. unfold g2_bytes, fq2_at. cbn. unfold fq2_from_decimals. rewrite (fq_decimal _ Ha), (fq_decimal _ Hb), (fq_decimal _ Hc), (fq_decimal _ He).
  by destruct p as [[] []].
Qed.

Lemma ic_text l : Forall g1_typed l -> mapM g1_bytes (g1_to_snarkjs <$> l) = Some (g1_to_soroban_bytes <$> l).
Proof. induction 1 as [|p l Hp Hl IH]; [done |]. rewrite !fmap_cons. cbn [mapM]. rewrite (g1_text _ Hp). cbn. by rewrite IH. Qed.

Lemma key_embedded vk : key_typed vk -> vk_constants (vk_to_snarkjs_json vk) = Some (constants_of vk).
Proof.
  intros [Ha Hb Hg Hd Hi]. unfold vk_constants.
  change (json_index (vk_to_snarkjs_json vk) "vk_alpha_1") with (g1_to_snarkjs (ak_alpha vk)). change (json_index (vk_to_snarkjs_json vk) "vk_beta_2") with (g2_to_snarkjs (ak_beta vk)).
  change (json_index (vk_to_snarkjs_json vk) "vk_gamma_2") with (g2_to_snarkjs (ak_gamma vk)). change (json_index (vk_to_snarkjs_json vk) "vk_delta_2") with (g2_to_snarkjs (ak_delta vk)).
  change (json_index (vk_to_snarkjs_json vk) "IC") with (JArray (g1_to_snarkjs <$> ak_gamma_abc vk)).
  rewrite (g1_text _ Ha), (g2_text _ Hb), (g2_text _ Hg), (g2_text _ Hd). cbn [mbind option_bind json_array]. by rewrite (ic_text _ Hi).
Qed.

End Embedding.

(** *** An instance: decimal digits *)

#[local] Instance decimal_biguint : BigUintText := {|
  biguint_to_string n := digits (S (Z.to_nat (Z.log2 n))) n [];
  biguint_parse s := match s with [] => None | _ => parse_digits (fun _ => true) 1 0 s end;
|}.

#[local] Instance decimal_biguint_laws : BigUintTextLaws decimal_biguint.
Proof.
  constructor. intros n Hn. cbn [biguint_parse biguint_to_string decimal_biguint].
  destruct (digits_head (S (Z.to_nat (Z.log2 n))) n []) as (d & s & Hs & Hd); [done | done |]. rewrite Hs, <- Hs.
  rewrite parse_digits_digits; [cbn [parse_digits]; f_equal; lia | done | | done]. split; [done |]. rewrite Nat2Z.inj_succ, Z2Nat.id by apply Z.log2_nonneg.
  destruct (decide (n = 0)) as [->|Hz]; [done |]. destruct (Z.log2_spec n) as [_ H]; [lia |]. eapply Z.lt_le_trans; [exact H |]. apply Z.pow_le_mono_l. lia.
Qed.

(** ** Theorems *)

(** C31. The contract embeds the key of the ceremony.  Of every key with reduced coordinates, the
    text that is written for it is turned by the build script, without a panic, into constants
    whose literals the compiler reads as the 64 and 128 bytes of the host's points (the imaginary
    part of a coordinate first, although the text has the real part first), and the verifier's key
    is made of them, in the encoding the prover uses for the points of a proof; the binary file
    holds the same bytes with their count, and the key the contract's tests build from an arkworks key
    is the embedded one.  Different keys have different constants. *)
Theorem ceremony_key_embedded (B : BigUintText) (BL : BigUintTextLaws B) (vk : ArkVerifyingKey) : key_typed vk ->
  vk_rs_from_json (vk_to_snarkjs_json vk) = Some (vk_rs_lines (constants_of vk)) /\
  Forall (fun b => array_literal (fmt_bytes b) = Some b) ([g1_to_soroban_bytes (ak_alpha vk); g2_to_soroban_bytes (ak_beta vk); g2_to_soroban_bytes (ak_gamma vk); g2_to_soroban_bytes (ak_delta vk)] ++ (g1_to_soroban_bytes <$> ak_gamma_abc vk)) /\
  embedded_vk (vk := constants_of vk) =
    {| vk_alpha := g1_to_soroban_bytes (ak_alpha vk); vk_beta := g2_to_soroban_bytes (ak_beta vk); vk_gamma := g2_to_soroban_bytes (ak_gamma vk);
       vk_delta := g2_to_soroban_bytes (ak_delta vk); vk_ic := g1_to_soroban_bytes <$> ak_gamma_abc vk |} /\
  vk_bytes_from_ark vk = Some (embedded_vk (vk := constants_of vk)) /\
  (forall p q, g1_to_soroban_bytes p = g1_bytes_uncompressed p /\ g2_to_soroban_bytes q = g2_bytes_uncompressed q) /\
  (length (vk_alpha (embedded_vk (vk := constants_of vk))) = 64%nat /\ length (vk_beta (embedded_vk (vk := constants_of vk))) = 128%nat) /\
  (zlength (ak_gamma_abc vk) < 2 ^ 32 ->
   vk_soroban_bytes vk = Some (VK_ALPHA_G1 (EmbeddedVk := constants_of vk) ++ VK_BETA_G2 (EmbeddedVk := constants_of vk) ++ VK_GAMMA_G2 (EmbeddedVk := constants_of vk)
     ++ VK_DELTA_G2 (EmbeddedVk := constants_of vk) ++ le_bytes 4 (zlength (ak_gamma_abc vk)) ++ concat (VK_IC (EmbeddedVk := constants_of vk)))) /\
  forall vk', key_typed vk' -> vk_constants (vk_to_snarkjs_json vk') = vk_constants (vk_to_snarkjs_json vk) -> vk' = vk.
Proof.
  intros Hk. split; [unfold vk_rs_from_json; by rewrite key_embedded |]. split; [apply literals_read |]. split; [done |]. split; [apply vk_from_ark |]. split; [done |]. split; [| split].
  - exact (conj (length_g1_soroban (ak_alpha vk)) (length_g2_soroban (ak_beta vk))).
  - intros Hn. unfold vk_soroban_bytes, try_into_u. rewrite (proj2 (fits_u_spec 32 _)); [done |]. unfold zlength in *. lia.
  - intros vk' Hk' E. rewrite !key_embedded in E by done. apply (inj Some) in E. by apply key_inj.
Qed.

Lemma ceremony_key_embedded_witness :
  let p := {| g1_x := 1; g1_y := 2 |} in let q := {| g2_x := {| c0 := 3; c1 := 4 |}; g2_y := {| c0 := 5; c1 := FQ - 1 |} |} in
  let vk := {| ak_alpha := p; ak_beta := q; ak_gamma := q; ak_delta := q; ak_gamma_abc := [p; p] |} in
  key_typed vk /\ vk_rs_from_json (B := decimal_biguint) (vk_to_snarkjs_json (B := decimal_biguint) vk) = Some (vk_rs_lines (constants_of vk)).
Proof.
  intros p q vk. assert (key_typed vk) as Hk by (repeat constructor; vm_compute; discriminate).
  exact (conj Hk (proj1 (ceremony_key_embedded decimal_biguint decimal_biguint_laws vk Hk))).
Defined.
