(* ===== verification/Ceremony.v ===== *)
(** * The ceremony tool

    [tools/ceremony-cli]: the wrapper of the trusted setup around [snarkjs] ([main.rs]: the guards
    on files, the commands of a step, their log, the choice of the circuit) and the export of the
    final key ([export_deployment.rs]).  The processes, the entropy of the system, the glob and the
    quoting of a shell word are parameters ([Host]); the arkworks keys are those of [KeyFiles]. *)

From Stdlib Require Import Ascii.
From stdpp Require Import strings pretty.
From S2P Require Import Prelude Ints Amounts Rpc Prover Verifier Witness KeyFiles.

(** ** Paths *)

(** A path is written as its prefix, up to the last separator, and the rest. *)
Definition path_text (p : Path) : string := p.1 +:+ p.2.

(** The part up to the last [sep], and the part after it. *)
Fixpoint split_last (sep : ascii) (s : list ascii) : option (list ascii * list ascii) :=
  match s with
  | [] => None
  | c :: rest =>
      match split_last sep rest with
      | Some (a, b) => Some (c :: a, b)
      | None => if Ascii.eqb c sep then Some ([c], rest) else None
      end
  end.

Definition path_of (s : string) : Path :=
  match split_last "/" (chars s) with
  | Some (a, b) => (String.string_of_list_ascii a, String.string_of_list_ascii b)
  | None => (EmptyString, s)
  end.

(** [Path::join]. *)
Definition path_join (dir s : string) : Path :=
  path_of
    (if String.prefix "/" s then s
     else if bool_decide (dir = EmptyString) || bool_decide (last (chars dir) = Some "/"%char) then dir +:+ s
     else dir +:+ "/" +:+ s).

(** [Path::extension] and the stem before it: the text around the last dot, unless the dot
    starts the name. *)
Definition stem_and_extension (name : string) : option (string * string) :=
  if bool_decide (name = ".."%string) then None
  else match split_last "." (chars name) with
       | Some (stem, ext) => if (length stem <=? 1)%nat then None else Some (String.string_of_list_ascii (removelast stem), String.string_of_list_ascii ext)
       | None => None
       end.

Definition to_ascii_lowercase (c : ascii) : ascii :=
  let v := nat_of_ascii c in if ((65 <=? v) && (v <=? 90))%nat then ascii_of_nat (v + 32) else c.

Definition eq_ignore_ascii_case (a b : string) : bool := bool_decide ((to_ascii_lowercase <$> chars a) = (to_ascii_lowercase <$> chars b)).

(** ** The console *)

Inductive CeremonyError : Type :=
| Message (text : string)
| InFile (e : FileError) (path : Path).

(** How a child process ends. *)
Inductive ProcessEnd : Type :=
| ProgramNotFound
| StartFailed (e : string)
| Exited (status : string) (success : bool).

(** A process that was run: its arguments, the files before it and its end. *)
Record Run : Type := { rn_args : list string; rn_before : gmap Path bytes; rn_end : ProcessEnd }.

Record Console : Type := {
  cn_disk : Disk;
  cn_lines : list string;
  cn_runs : list Run;
}.

Class Host : Type := {
  spawn : string -> list string -> gmap Path bytes -> ProcessEnd * gmap Path bytes;
  seconds : nat -> string;                       (** how long the n-th process took *)
  directory_len : string -> option Z;            (** the directories, with the length their metadata gives *)
  modified : Path -> option Z;
  current_dir : option (list string);            (** its components, the innermost first *)
  glob_paths : string -> option (list Path);
  try_quote : string -> option string;           (** [shlex::try_quote] *)
}.

(** What [getrandom] gives: the 32 bytes, or an error. *)
Abbreviation Random := (result string bytes).

Local Abbreviation M := (IO Console CeremonyError).

Definition println (line : string) : M unit := fun w => (Ok tt, {| cn_disk := cn_disk w; cn_lines := cn_lines w ++ [line]; cn_runs := cn_runs w |}).

Definition bail {A} (text : string) : M A := io_throw (Message text).

Definition on_disk {A} (path : Path) (m : IO Disk FileError A) : M A := fun w =>
  let '(r, d) := m (cn_disk w) in (map_err (fun e => InFile e path) r, {| cn_disk := d; cn_lines := cn_lines w; cn_runs := cn_runs w |}).

Definition the_files : M (gmap Path bytes) := fun w => (Ok (dk_files (cn_disk w)), w).

(** ** Commands *)

Section Commands.

Context {H : Host}.

(** *** The log *)

Fixpoint render_args (sensitive_flags : list string) (redacted_next : bool) (args : list string) : list string :=
  match args with
  | [] => []
  | arg :: rest =>
      if redacted_next then "[REDACTED]"%string :: render_args sensitive_flags false rest
      else match find (fun f => String.prefix (f +:+ "=") arg) sensitive_flags with
           | Some flag => (flag +:+ "=[REDACTED]") :: render_args sensitive_flags false rest
           | None =>
               if existsb (fun flag => bool_decide (flag = arg)) sensitive_flags then arg :: render_args sensitive_flags true rest
               else default arg (try_quote arg) :: render_args sensitive_flags false rest
           end
  end.

Definition format_command_with_redactions (program : string) (args sensitive_flags : list string) : string :=
  program +:+ " " +:+ String.concat " " (render_args sensitive_flags false args).

Definition format_command (program : string) (args : list string) : string := format_command_with_redactions program args ["-e"; "--entropy"]%string.

(** *** Processes *)

(** [trait CommandRunner]. *)
Class CommandRunner : Type := run : string -> list string -> M unit.

Definition start (program : string) (args : list string) : M ProcessEnd := fun w =>
  let d := cn_disk w in
  let '(e, files) := spawn program args (dk_files d) in
  (Ok e, {| cn_disk := {| dk_files := files; dk_ops := dk_ops d; dk_seen := dk_seen d ++ [files] |}; cn_lines := cn_lines w;
            cn_runs := cn_runs w ++ [{| rn_args := args; rn_before := dk_files d; rn_end := e |}] |}).

Definition elapsed : M string := fun w => (Ok (seconds (length (cn_runs w))), w).

#[local] Instance ProcessRunner : CommandRunner := fun program args =>
  let pretty := format_command program args in
  println ("[snarkjs-wrapper] running: " +:+ pretty);;
  status ← start program args;
  match status with
  | ProgramNotFound => bail ("`" +:+ program +:+ "` not found in PATH. Install with: npm install -g " +:+ program)
  | StartFailed e => bail ("failed to start `" +:+ pretty +:+ "`: " +:+ e)
  | Exited status success =>
      t ← elapsed;
      println ("[snarkjs-wrapper] completed in " +:+ t +:+ "s: " +:+ pretty);;
      if success then mret tt else bail ("command failed with status " +:+ status +:+ ": " +:+ pretty)
  end.

(** *** Guards *)

Definition is_file (files : gmap Path bytes) (p : Path) : bool := bool_decide (is_Some (files !! p)).
Definition is_dir (s : string) : bool := bool_decide (is_Some (directory_len s)).
Definition path_exists (files : gmap Path bytes) (p : Path) : bool := is_file files p || is_dir (path_text p).

Definition assert_readable_file (path : Path) (label : string) : M unit :=
  files ← the_files;
  if negb (path_exists files path) then bail (label +:+ " path does not exist: " +:+ path_text path)
  else if negb (is_file files path) then bail (label +:+ " path is not a file: " +:+ path_text path)
  else mret tt.

Definition assert_dir_exists (dir : string) : M unit :=
  files ← the_files;
  if negb (path_exists files (path_of dir) || is_dir dir) then bail ("directory does not exist: " +:+ dir)
  else if negb (is_dir dir) then bail ("path is not a directory: " +:+ dir)
  else mret tt.

Definition assert_output_allowed (path : Path) (force : bool) : M unit :=
  files ← the_files;
  if path_exists files path && negb force then bail ("refusing to overwrite existing output `" +:+ path_text path +:+ "`; pass --force to allow")
  else mret tt.

Definition validate_beacon_hash (value : string) : M unit :=
  let is_hex := forallb (fun c => bool_decide (is_Some (nibble_value c))) (chars value) in
  if negb is_hex || (String.length value <? 32)%nat then bail ("invalid beacon hash. expected hex string of length >= 32, got `" +:+ value +:+ "`")
  else mret tt.

(** *** Sizes *)

(** The quotient to the nearest integer, a tie to the even one. *)
Definition round_half_even (n d : Z) : Z :=
  let q := n / d in let r := n mod d in
  if 2 * r <? d then q else if d <? 2 * r then q + 1 else if Z.even q then q else q + 1.

(** [bytes as f64]: 53 significant bits. *)
Definition as_f64 (n : Z) : Z := let e := Z.log2 n - 52 in if e <=? 0 then n else round_half_even n (2 ^ e) * 2 ^ e.

(** [{:.2}] of [n / d], where [d] is a power of two: the quotient is exact. *)
Definition two_decimals (n d : Z) : string :=
  let c := round_half_even (as_f64 n * 100) d in
  pretty (c / 100) +:+ "." +:+ pretty (c mod 100 / 10) +:+ pretty (c mod 10).

Definition format_bytes_human (bytes : Z) : string :=
  let KB := 1024 in let MB := 1024 * KB in let GB := 1024 * MB in
  if GB <=? bytes then two_decimals bytes GB +:+ " GB"
  else if MB <=? bytes then two_decimals bytes MB +:+ " MB"
  else if KB <=? bytes then two_decimals bytes KB +:+ " KB"
  else pretty bytes +:+ " B".

Definition print_file_size (path : Path) : M unit :=
  files ← the_files;
  match (match files !! path with Some b => Some (zlength b) | None => directory_len (path_text path) end) with
  | Some bytes => println ("[info] " +:+ path_text path +:+ ": " +:+ format_bytes_human bytes)
  | None => io_throw (InFile FileNotFound path)
  end.

Definition print_next_steps (zkey_path : Path) (actions : list string) : M unit :=
  println EmptyString;; println "=== Ceremony step complete ===";;
  println ("Produced zkey artifact: " +:+ path_text zkey_path);;
  println "Next actions:";;
  foldr (fun action k => println ("  - " +:+ action);; k) (mret tt) actions.

(** *** The circuit *)

Definition resolve_snarkjs_circuit_path (path : Path) : M Path :=
  assert_readable_file path "circuit";;
  match stem_and_extension path.2 with
  | Some (stem, ext) =>
      if eq_ignore_ascii_case ext "circom" then
        let r1cs_path := (path.1, stem +:+ ".r1cs") in
        assert_readable_file r1cs_path "compiled circuit (.r1cs)";;
        mret r1cs_path
      else mret path
  | None => mret path
  end.

Definition DEFAULT_R1CS_NAME : string := "policy_tx_2_2.r1cs".

(** The text of a directory from its components, the innermost first. *)
Definition root_text (components : list string) : string := "/" +:+ String.concat "/" (rev components).

(** The loop that walks up to the directory with [Cargo.lock]. *)
Fixpoint find_root (files : gmap Path bytes) (components : list string) : option (list string) :=
  if is_file files (path_join (root_text components) "Cargo.lock") then Some components
  else match components with
       | [] => None
       | _ :: components => find_root files components
       end.

Definition is_release (p : Path) : bool := existsb (fun c => bool_decide (c = chars "release")) (split_on "/" (chars (path_text p))).

(** [modified()], or the epoch. *)
Definition mtime (p : Path) : Z := default 0 (modified p).

(** The comparison of the sort is not [Greater]. *)
Definition candidate_le (a b : Path) : bool :=
  match is_release a, is_release b with
  | true, false => true
  | false, true => false
  | _, _ => mtime b <=? mtime a
  end.

Fixpoint insert_candidate (p : Path) (l : list Path) : list Path :=
  match l with
  | [] => [p]
  | x :: rest => if candidate_le p x then p :: x :: rest else x :: insert_candidate p rest
  end.

(** [sort_by], a stable sort. *)
Definition sort_candidates (l : list Path) : list Path := foldr insert_candidate [] l.

Definition discover_r1cs (name : string) : M Path :=
  files ← the_files;
  match current_dir with
  | None => bail "failed to determine current directory"
  | Some cwd =>
      match find_root files cwd with
      | None => bail "could not find workspace root (no Cargo.lock in any parent directory)"
      | Some root =>
          let pattern := path_text (path_join (root_text root) ("target/*/build/circuits-*/out/circuits/" +:+ name)) in
          match glob_paths pattern with
          | None => bail ("invalid glob pattern: " +:+ pattern)
          | Some entries =>
              match filter (fun p => is_file files p = true) entries with
              | [] => bail ("no compiled circuit `" +:+ name +:+ "` found." +:+ String (ascii_of_nat 10) EmptyString +:+
                  "Run `cargo build -p circuits --release` first, or pass --circuits <path> explicitly.")
              | candidates =>
                  match sort_candidates candidates with
                  | best :: _ => mret best
                  | [] => bail "unexpected empty candidate list"
                  end
              end
          end
      end
  end.

Definition resolve_circuits (explicit : option Path) : M Path :=
  match explicit with
  | Some path => resolve_snarkjs_circuit_path path
  | None =>
      discovered ← discover_r1cs DEFAULT_R1CS_NAME;
      println ("[info] auto-discovered circuit: " +:+ path_text discovered);;
      mret discovered
  end.

(** *** Entropy *)

Definition entropy_hex (b : bytes) : string := String.string_of_list_ascii (nibbles_encode b).

Definition generate_entropy_hex (random : Random) : M string :=
  match random with
  | Ok b => mret (entropy_hex b)
  | Err e => bail ("failed to obtain CSPRNG entropy from OS: " +:+ e)
  end.

(** *** The steps of the ceremony *)

Record CeremonyArgs : Type := { ca_circuits : option Path; ca_ptau : Path; ca_output : Path; ca_force : bool }.

Record ContributeArgs : Type := {
  co_zkey : Path; co_circuits : option Path; co_ptau : Path; co_output : Path; co_name : string; co_force : bool;
}.

Record FinalizeArgs : Type := {
  fi_zkey : Path; fi_beacon_hash : string; fi_beacon_power : Z; fi_out_dir : string; fi_basename : string; fi_force : bool;
}.

Definition setup_cmd (circuit ptau output : Path) : list string := ["groth16"; "setup"; path_text circuit; path_text ptau; path_text output]%string.
Definition verify_cmd (circuit ptau zkey : Path) : list string := ["zkey"; "verify"; path_text circuit; path_text ptau; path_text zkey]%string.
Definition contribute_cmd (zkey output : Path) (name entropy : string) : list string :=
  ["zkey"; "contribute"; path_text zkey; path_text output; "--name=" +:+ name; "-v"; "-e=" +:+ entropy]%string.
Definition beacon_cmd (zkey final_zkey : Path) (beacon_hash : string) (beacon_power : Z) : list string :=
  ["zkey"; "beacon"; path_text zkey; path_text final_zkey; beacon_hash; pretty beacon_power; "-n=Final Beacon phase2"]%string.
Definition export_vkey_cmd (final_zkey vkey_json : Path) : list string :=
  ["zkey"; "export"; "verificationkey"; path_text final_zkey; path_text vkey_json]%string.

Definition final_zkey_of (args : FinalizeArgs) : Path := path_join (fi_out_dir args) (fi_basename args +:+ "_final.zkey").
Definition vkey_json_of (args : FinalizeArgs) : Path := path_join (fi_out_dir args) (fi_basename args +:+ "_verification_key.json").

Context {R : CommandRunner}.

Definition ceremony_init (args : CeremonyArgs) : M unit :=
  assert_readable_file (ca_ptau args) "ptau";;
  assert_output_allowed (ca_output args) (ca_force args);;
  circuit ← resolve_circuits (ca_circuits args);
  run "snarkjs" (setup_cmd circuit (ca_ptau args) (ca_output args));;
  print_file_size (ca_output args);;
  run "snarkjs" (verify_cmd circuit (ca_ptau args) (ca_output args));;
  print_next_steps (ca_output args) ["Share the new .zkey with the first contributor to begin the ceremony."]%string.

Definition contribute (random : Random) (args : ContributeArgs) : M unit :=
  assert_readable_file (co_zkey args) "input zkey";;
  assert_readable_file (co_ptau args) "ptau";;
  circuit ← resolve_circuits (co_circuits args);
  run "snarkjs" (verify_cmd circuit (co_ptau args) (co_zkey args));;
  assert_output_allowed (co_output args) (co_force args);;
  entropy ← generate_entropy_hex random;
  run "snarkjs" (contribute_cmd (co_zkey args) (co_output args) (co_name args) entropy);;
  print_file_size (co_output args);;
  run "snarkjs" (verify_cmd circuit (co_ptau args) (co_output args));;
  print_next_steps (co_output args)
    ["Send only the contributed .zkey to the ceremony coordinator."; "Entropy is generated automatically with OS CSPRNG and never printed."]%string.

Definition finalize (args : FinalizeArgs) : M unit :=
  assert_readable_file (fi_zkey args) "input zkey";;
  assert_dir_exists (fi_out_dir args);;
  let final_zkey := final_zkey_of args in
  let vkey_json := vkey_json_of args in
  assert_output_allowed final_zkey (fi_force args);;
  assert_output_allowed vkey_json (fi_force args);;
  validate_beacon_hash (fi_beacon_hash args);;
  run "snarkjs" (beacon_cmd (fi_zkey args) final_zkey (fi_beacon_hash args) (fi_beacon_power args));;
  print_file_size final_zkey;;
  run "snarkjs" (export_vkey_cmd final_zkey vkey_json);;
  print_next_steps final_zkey
    ["Publish the final zkey and verification key for public audit."; "Record beacon parameters (hash + power) in your ceremony transcript."]%string.

(** *** The export of the final key *)

Context {F : Faults} {B : BigUintText} {K : ArkKeys}.
Variable pid : N.

Record ExportDeploymentArgs : Type := { ed_zkey : Path; ed_out_dir : string; ed_basename : string; ed_force : bool }.

Definition read_file (p : Path) : IO Disk FileError bytes := fun d =>
  let k := dk_ops d in
  (if fault k then Err FileFault else match dk_files d !! p with Some b => Ok b | None => Err FileNotFound end,
   {| dk_files := dk_files d; dk_ops := S k; dk_seen := dk_seen d ++ [dk_files d] |}).

Definition proving_key_from_zkey (zkey_path : Path) : M ProvingKeyFile :=
  b ← on_disk zkey_path (read_file zkey_path);
  match read_zkey b with
  | Some pk => mret pk
  | None => bail ("failed to parse snarkjs zkey " +:+ path_text zkey_path)
  end.

(** The four outputs. *)
Definition pk_path (args : ExportDeploymentArgs) : Path := path_join (ed_out_dir args) (ed_basename args +:+ "_proving_key.bin").
Definition vk_json_path (args : ExportDeploymentArgs) : Path := path_join (ed_out_dir args) (ed_basename args +:+ "_vk.json").
Definition vk_soroban_path (args : ExportDeploymentArgs) : Path := path_join (ed_out_dir args) (ed_basename args +:+ "_vk_soroban.bin").
Definition vk_const_path (args : ExportDeploymentArgs) : Path := path_join (ed_out_dir args) (ed_basename args +:+ "_vk_const.rs").

(** [==] on values; no float is compared. *)
Fixpoint json_eqb (a b : Json) : bool :=
  match a, b with
  | JNumber (JInteger x), JNumber (JInteger y) => x =? y
  | JNumber JFloat, JNumber JFloat => true
  | JString s, JString t => bool_decide (s = t)
  | JBool x, JBool y => Bool.eqb x y
  | JNull, JNull => true
  | JArray l, JArray l' =>
      (fix go l l' := match l, l' with [], [] => true | x :: l, y :: l' => json_eqb x y && go l l' | _, _ => false end) l l'
  | JObject l, JObject l' =>
      (fix go l l' := match l, l' with [], [] => true | (n, x) :: l, (m, y) :: l' => bool_decide (n = m) && json_eqb x y && go l l' | _, _ => false end) l l'
  | _, _ => false
  end.

Definition export_deployment (args : ExportDeploymentArgs) : M unit :=
  assert_readable_file (ed_zkey args) "zkey";;
  assert_dir_exists (ed_out_dir args);;
  assert_output_allowed (pk_path args) (ed_force args);;
  assert_output_allowed (vk_json_path args) (ed_force args);;
  assert_output_allowed (vk_soroban_path args) (ed_force args);;
  assert_output_allowed (vk_const_path args) (ed_force args);;
  pk ← proving_key_from_zkey (ed_zkey args);
  pk_bytes ← on_disk (pk_path args) (encoded (serialize_compressed pk));
  (if deserialize_compressed_unchecked pk_bytes is Some _ then mret tt else bail "failed to round-trip proving key bytes");;
  on_disk (pk_path args) (write_proving_key_bin pid pk (pk_path args));;
  on_disk (vk_json_path args) (write_vk_snarkjs_json pid (pk_vk pk) (vk_json_path args));;
  on_disk (vk_soroban_path args) (write_vk_soroban_bin pid (pk_vk pk) (vk_soroban_path args));;
  on_disk (vk_const_path args) (write_vk_rust_const pid (pk_vk pk) (vk_const_path args));;
  written ← on_disk (pk_path args) (read_file (pk_path args));
  match deserialize_compressed_unchecked written with
  | None => bail ("failed to read back " +:+ path_text (pk_path args))
  | Some written_pk =>
      if json_eqb (vk_to_snarkjs_json (pk_vk written_pk)) (vk_to_snarkjs_json (pk_vk pk)) then
        println "Generated:";;
        println ("  " +:+ path_text (pk_path args));; println ("  " +:+ path_text (vk_json_path args));;
        println ("  " +:+ path_text (vk_soroban_path args));; println ("  " +:+ path_text (vk_const_path args))
      else bail "validation failed: proving key contains a different verification key"
  end.

(** *** The command line *)

Inductive Commands : Type :=
| Init (args : CeremonyArgs)
| Contribute (args : ContributeArgs)
| Finalize (args : FinalizeArgs)
| ExportDeployment (args : ExportDeploymentArgs).

Definition ceremony_execute (random : Random) (command : Commands) : M unit :=
  match command with
  | Init args => ceremony_init args
  | Contribute args => contribute random args
  | Finalize args => finalize args
  | ExportDeployment args => export_deployment args
  end.

End Commands.

(** ** The runs of a step *)

#[local] Existing Instance ProcessRunner.

Create HintDb ceremony.

Section Steps.

Context {H : Host}.

(** An operation that runs no process, leaves the disk alone and depends on nothing else. *)
Definition quiet {A} (m : M A) : Prop := forall w,
  cn_runs (m w).2 = cn_runs w /\ cn_disk (m w).2 = cn_disk w /\ forall w', cn_disk w' = cn_disk w -> (m w').1 = (m w).1.

Lemma quiet_ret {A} (a : A) : quiet (mret a).
Proof. by intros w. Qed.
Lemma quiet_bail {A} text : quiet (bail (A := A) text).
Proof. by intros w. Qed.
Lemma quiet_throw {A} e : quiet (io_throw (A := A) e).
Proof. by intros w. Qed.
Lemma quiet_println line : quiet (println line).
Proof. by intros w. Qed.
Lemma quiet_files : quiet the_files.
Proof. intros w. do 2 (split; [done |]). intros w' E. unfold the_files. cbn. by rewrite E. Qed.

Lemma quiet_bind {A C} (m : M A) (k : A -> M C) : quiet m -> (forall a, quiet (k a)) -> quiet (m ≫= k).
Proof.
  intros Hm Hk w. unfold mbind, io_bind. destruct (Hm w) as (Hr & Hd & He).
  assert (forall w', cn_disk w' = cn_disk w -> match m w' with (Ok a, w2) => k a w2 | (Err e, w2) => (Err e, w2) end .1 = match m w with (Ok a, w2) => k a w2 | (Err e, w2) => (Err e, w2) end .1) as Hsame.
  { intros w' Hw'. specialize (He w' Hw'). destruct (Hm w') as (_ & Hd' & _). destruct (m w') as [r' w1'], (m w) as [r w1]. cbn in *. subst r'. destruct r as [a|e]; [| done].
    apply (Hk a w1). congruence. }
  split; [| split; [| exact Hsame]]; clear Hsame; destruct (m w) as [[a|e] w1]; try done; destruct (Hk a w1) as (Hr' & Hd' & _); cbn in *; congruence.
Qed.

Lemma quiet_if {A} (b : bool) (m m' : M A) : quiet m -> quiet m' -> quiet (if b then m else m').
Proof. by destruct b. Qed.

Hint Resolve quiet_ret quiet_bail quiet_throw quiet_println quiet_files quiet_bind quiet_if : ceremony.

Lemma quiet_readable path label : quiet (assert_readable_file path label).
Proof. unfold assert_readable_file. auto with ceremony. Qed.
Lemma quiet_dir dir : quiet (assert_dir_exists dir).
Proof. unfold assert_dir_exists. auto with ceremony. Qed.
Lemma quiet_allowed path force : quiet (assert_output_allowed path force).
Proof. unfold assert_output_allowed. auto with ceremony. Qed.
Lemma quiet_beacon value : quiet (validate_beacon_hash value).
Proof. unfold validate_beacon_hash. auto with ceremony. Qed.
Lemma quiet_size path : quiet (print_file_size path).
Proof. unfold print_file_size. apply quiet_bind; [apply quiet_files |]. intros files. destruct (match files !! path with Some b => _ | None => _ end); auto with ceremony. Qed.
Lemma quiet_next path actions : quiet (print_next_steps path actions).
Proof.
  unfold print_next_steps. repeat (apply quiet_bind; [apply quiet_println | intros _]). induction actions as [|a l IH]; cbn [foldr]; auto with ceremony.
Qed.
Lemma quiet_entropy random : quiet (generate_entropy_hex random).
Proof. destruct random; cbn [generate_entropy_hex]; auto with ceremony. Qed.

Hint Resolve quiet_readable quiet_dir quiet_allowed quiet_beacon quiet_size quiet_next quiet_entropy : ceremony.

Lemma quiet_circuit explicit : quiet (resolve_circuits explicit).
Proof.
  destruct explicit as [path|]; cbn [resolve_circuits].
  - unfold resolve_snarkjs_circuit_path. apply quiet_bind; [auto with ceremony | intros _]. destruct (stem_and_extension path.2) as [[stem ext]|]; auto 6 with ceremony.
  - apply quiet_bind; [| auto with ceremony]. unfold discover_r1cs. apply quiet_bind; [auto with ceremony | intros files].
    destruct current_dir as [cwd|]; [| auto with ceremony]. destruct (find_root files cwd); [| auto with ceremony]. destruct (glob_paths _) as [entries|]; [| auto with ceremony].
    destruct (filter _ entries); [auto with ceremony |]. destruct (sort_candidates _); auto with ceremony.
Qed.

Hint Resolve quiet_circuit : ceremony.

(** A command that is to be run, and the paths that must be free before it unless they may be
    overwritten. *)
Record Step : Type := { st_args : list string; st_fresh : list Path }.

Definition succeeded (r : Run) : bool := match rn_end r with Exited _ success => success | _ => false end.

(** A run of the command of a step. *)
Definition runs_step (force : bool) (r : Run) (s : Step) : Prop :=
  rn_args r = st_args s /\ (force = false -> Forall (fun p => rn_before r !! p = None) (st_fresh s)).

(** The runs that carry out a plan: all of it when the result is [Ok]; otherwise a first part,
    of which only the last may have failed. *)
Inductive carries_out (force : bool) : list Step -> list Run -> bool -> Prop :=
| out_done : carries_out force [] [] true
| out_stop plan : carries_out force plan [] false
| out_failed s plan r : runs_step force r s -> succeeded r = false -> carries_out force (s :: plan) [r] false
| out_next s plan r runs ok : runs_step force r s -> succeeded r = true -> carries_out force plan runs ok -> carries_out force (s :: plan) (r :: runs) ok.

(** From [w], [m] carries out the plan. *)
Definition follows {A} (force : bool) (plan : list Step) (m : M A) (w : Console) : Prop :=
  exists new, cn_runs (m w).2 = cn_runs w ++ new /\ carries_out force plan new (is_ok (m w).1).

Lemma follows_quiet {A C} force plan (m : M A) (k : A -> M C) w : quiet m ->
  (forall a, (m w).1 = Ok a -> cn_disk (m w).2 = cn_disk w -> follows force plan (k a) (m w).2) -> follows force plan (m ≫= k) w.
Proof.
  intros Hm Hk. unfold follows, mbind, io_bind. destruct (Hm w) as (Hr & Hd & _). destruct (m w) as [[a|e] w1]; cbn [fst snd] in *.
  - rewrite <- Hr. apply (Hk a eq_refl Hd).
  - exists []. split; [by rewrite app_nil_r | constructor].
Qed.

Lemma follows_last force (m : M unit) w : quiet m -> (forall w, is_ok (m w).1 = true) -> follows force [] m w.
Proof. intros Hm Hok. exists []. rewrite (proj1 (Hm w)), Hok. split; [by rewrite app_nil_r | constructor]. Qed.

Lemma follows_run {C} force s plan (k : M C) w : (force = false -> Forall (fun p => dk_files (cn_disk w) !! p = None) (st_fresh s)) ->
  (forall w', follows force plan k w') -> follows force (s :: plan) (run "snarkjs" (st_args s);; k) w.
Proof.
  intros Hfresh Hk. unfold follows, run, ProcessRunner, mbind, io_bind, println, start, elapsed, bail, io_throw. cbn [cn_disk cn_lines cn_runs].
  destruct (spawn "snarkjs" (st_args s) (dk_files (cn_disk w))) as [e files]. cbn [cn_disk cn_lines cn_runs].
  destruct e as [|t|t [|]]; cbn [fst snd cn_runs is_ok mret io_ret]; try (eexists; split; [reflexivity |]; by apply out_failed).
  edestruct Hk as (new & -> & Hnew). cbn [cn_runs]. eexists. rewrite <- app_assoc. split; [reflexivity |]. by apply out_next.
Qed.

(** A path whose use as an output is allowed is free or may be overwritten. *)
Lemma allowed_fresh path force w u : (assert_output_allowed path force w).1 = Ok u -> force = false -> dk_files (cn_disk w) !! path = None.
Proof.
  unfold assert_output_allowed, the_files, mbind, io_bind, bail, io_throw. intros E ->. unfold path_exists, is_file in E.
  destruct (dk_files (cn_disk w) !! path) as [b|]; [| done]. rewrite bool_decide_eq_true_2 in E by done. discriminate E.
Qed.

Lemma next_steps_ok path actions w : is_ok (print_next_steps path actions w).1 = true.
Proof.
  unfold print_next_steps, mbind, io_bind, println. cbn [fst snd]. match goal with |- context [foldr _ _ _ ?w] => generalize w end.
  induction actions as [|a l IH]; intros w'; [done |]. cbn [foldr]. apply IH.
Qed.

(** *** The plans *)

Definition init_plan (args : CeremonyArgs) (circuit : Path) : list Step :=
  [{| st_args := setup_cmd circuit (ca_ptau args) (ca_output args); st_fresh := [ca_output args] |};
   {| st_args := verify_cmd circuit (ca_ptau args) (ca_output args); st_fresh := [] |}].

Definition contribute_plan (args : ContributeArgs) (circuit : Path) (random : Random) : list Step :=
  [{| st_args := verify_cmd circuit (co_ptau args) (co_zkey args); st_fresh := [] |};
   {| st_args := contribute_cmd (co_zkey args) (co_output args) (co_name args) (match random with Ok b => entropy_hex b | Err _ => EmptyString end); st_fresh := [co_output args] |};
   {| st_args := verify_cmd circuit (co_ptau args) (co_output args); st_fresh := [] |}].

Definition finalize_plan (args : FinalizeArgs) : list Step :=
  [{| st_args := beacon_cmd (fi_zkey args) (final_zkey_of args) (fi_beacon_hash args) (fi_beacon_power args); st_fresh := [final_zkey_of args; vkey_json_of args] |};
   {| st_args := export_vkey_cmd (final_zkey_of args) (vkey_json_of args); st_fresh := [] |}].

(** The result of a quiet operation later, on the same disk. *)
Lemma quiet_later {A} (m : M A) w w' (a : A) : quiet m -> cn_disk w' = cn_disk w -> (m w').1 = Ok a -> (m w).1 = Ok a.
Proof. intros Hm Hd <-. symmetry. by apply (Hm w). Qed.

Lemma init_follows args w circuit : (resolve_circuits (ca_circuits args) w).1 = Ok circuit -> follows (ca_force args) (init_plan args circuit) (ceremony_init args) w.
Proof.
  intros Hc. unfold ceremony_init. apply follows_quiet; [auto with ceremony |]. intros _ _ Hd1. apply follows_quiet; [auto with ceremony |]. intros u Hallow Hd2.
  apply follows_quiet; [auto with ceremony |]. intros c Hc' Hd3. apply (quiet_later _ w) in Hc'; [| apply quiet_circuit | congruence].
  replace c with circuit by congruence. apply (follows_run _ {| st_args := _; st_fresh := [ca_output args] |}).
  - intros Hf. constructor; [| constructor]. rewrite Hd3, Hd2. by eapply allowed_fresh.
  - intros w1. apply follows_quiet; [auto with ceremony |]. intros _ _ _. apply (follows_run _ {| st_args := _; st_fresh := [] |}); [by constructor |].
    intros w2. apply follows_last; [auto with ceremony | apply next_steps_ok].
Qed.

Lemma contribute_follows random args w circuit : (resolve_circuits (co_circuits args) w).1 = Ok circuit ->
  follows (co_force args) (contribute_plan args circuit random) (contribute random args) w.
Proof.
  intros Hc. unfold contribute. do 2 (apply follows_quiet; [auto with ceremony |]; intros _ _ ?Hd).
  apply follows_quiet; [auto with ceremony |]. intros c Hc' Hd3. apply (quiet_later _ w) in Hc'; [| apply quiet_circuit | congruence].
  replace c with circuit by congruence. apply (follows_run _ {| st_args := _; st_fresh := [] |}); [by constructor |]. intros w1.
  apply follows_quiet; [auto with ceremony |]. intros u Hallow Hd4. apply follows_quiet; [auto with ceremony |]. intros e He Hd5.
  assert (e = match random with Ok b => entropy_hex b | Err _ => EmptyString end) as -> by (destruct random; cbn in He; congruence).
  apply (follows_run _ {| st_args := _; st_fresh := [co_output args] |}).
  - intros Hf. constructor; [| constructor]. rewrite Hd5, Hd4. by eapply allowed_fresh.
  - intros w2. apply follows_quiet; [auto with ceremony |]. intros _ _ _. apply (follows_run _ {| st_args := _; st_fresh := [] |}); [by constructor |].
    intros w3. apply follows_last; [auto with ceremony | apply next_steps_ok].
Qed.

Lemma finalize_follows args w : follows (fi_force args) (finalize_plan args) (finalize args) w.
Proof.
  unfold finalize. do 2 (apply follows_quiet; [auto with ceremony |]; intros _ _ _). apply follows_quiet; [auto with ceremony |]. intros u1 Ha1 Hd1.
  apply follows_quiet; [auto with ceremony |]. intros u2 Ha2 Hd2. apply follows_quiet; [auto with ceremony |]. intros _ _ Hd3.
  apply (follows_run _ {| st_args := _; st_fresh := [final_zkey_of args; vkey_json_of args] |}).
  - intros Hf. rewrite Hd3, Hd2. constructor; [rewrite Hd1; by eapply allowed_fresh | constructor; [by eapply allowed_fresh | constructor]].
  - intros w1. apply follows_quiet; [auto with ceremony |]. intros _ _ _. apply (follows_run _ {| st_args := _; st_fresh := [] |}); [by constructor |].
    intros w2. apply follows_last; [auto with ceremony | apply next_steps_ok].
Qed.

(** A step that cannot find its circuit runs nothing and fails. *)
Definition stops {A} (m : M A) (w : Console) : Prop := cn_runs (m w).2 = cn_runs w /\ is_ok (m w).1 = false.

Lemma stops_quiet {A C} (m : M A) (k : A -> M C) w : quiet m -> (forall a, cn_disk (m w).2 = cn_disk w -> stops (k a) (m w).2) -> stops (m ≫= k) w.
Proof.
  intros Hm Hk. unfold stops, mbind, io_bind. destruct (Hm w) as (Hr & Hd & _). destruct (m w) as [[a|e] w1]; cbn [fst snd] in *; [| done].
  destruct (Hk a Hd) as [Hr' Hok]. split; [congruence | done].
Qed.

Lemma stops_unresolved {C} explicit (k : Path -> M C) w w' e : (resolve_circuits explicit w).1 = Err e -> cn_disk w' = cn_disk w -> stops (resolve_circuits explicit ≫= k) w'.
Proof.
  intros He Hd. destruct (quiet_circuit explicit w) as (_ & _ & Hsame). destruct (quiet_circuit explicit w') as (Hr & _ & _). specialize (Hsame w' Hd). rewrite He in Hsame.
  unfold stops, mbind, io_bind. destruct (resolve_circuits explicit w') as [[a|e'] w1]; [discriminate Hsame | done].
Qed.

Lemma init_stops args w e : (resolve_circuits (ca_circuits args) w).1 = Err e -> stops (ceremony_init args) w.
Proof. intros He. unfold ceremony_init. do 2 (apply stops_quiet; [auto with ceremony |]; intros _ ?Hd). eapply stops_unresolved; [exact He | congruence]. Qed.

Lemma contribute_stops random args w e : (resolve_circuits (co_circuits args) w).1 = Err e -> stops (contribute random args) w.
Proof. intros He. unfold contribute. do 2 (apply stops_quiet; [auto with ceremony |]; intros _ ?Hd). eapply stops_unresolved; [exact He | congruence]. Qed.

(** The export runs no process. *)
Definition silent {A} (m : M A) : Prop := forall w, cn_runs (m w).2 = cn_runs w.

Lemma silent_quiet {A} (m : M A) : quiet m -> silent m.
Proof. intros Hm w. apply Hm. Qed.

Lemma silent_disk {A} path (m : IO Disk FileError A) : silent (on_disk path m).
Proof. intros w. unfold on_disk. by destruct (m (cn_disk w)). Qed.

Lemma silent_bind {A C} (m : M A) (k : A -> M C) : silent m -> (forall a, silent (k a)) -> silent (m ≫= k).
Proof. intros Hm Hk w. unfold mbind, io_bind. specialize (Hm w). destruct (m w) as [[a|e] w1]; cbn in *; [by rewrite Hk | done]. Qed.

Lemma export_silent {F : Faults} {B : BigUintText} {K : ArkKeys} pid args : silent (export_deployment pid args).
Proof.
  unfold export_deployment. do 6 (apply silent_bind; [apply silent_quiet; auto with ceremony | intros _]).
  apply silent_bind; [apply silent_bind; [apply silent_disk |]; intros b; destruct (read_zkey b); apply silent_quiet; auto with ceremony | intros pk].
  apply silent_bind; [apply silent_disk | intros b]. apply silent_bind; [destruct (deserialize_compressed_unchecked b); apply silent_quiet; auto with ceremony | intros _].
  do 4 (apply silent_bind; [apply silent_disk | intros _]). apply silent_bind; [apply silent_disk | intros c]. destruct (deserialize_compressed_unchecked c); [| apply silent_quiet; auto with ceremony].
  destruct (json_eqb _ _); apply silent_quiet; auto 10 with ceremony.
Qed.

Lemma silent_follows {A} force (m : M A) w : silent m -> follows force [] m w.
Proof. intros Hm. exists []. rewrite Hm, app_nil_r. split; [done |]. destruct (is_ok (m w).1); constructor. Qed.

(** The commands of a step, once its circuit is found. *)
Definition plan_of (random : Random) (command : Commands) (w : Console) : option (list Step) :=
  match command with
  | Init args => match (resolve_circuits (ca_circuits args) w).1 with Ok circuit => Some (init_plan args circuit) | Err _ => None end
  | Contribute args => match (resolve_circuits (co_circuits args) w).1 with Ok circuit => Some (contribute_plan args circuit random) | Err _ => None end
  | Finalize args => Some (finalize_plan args)
  | ExportDeployment _ => Some []
  end.

Definition force_of (command : Commands) : bool :=
  match command with Init args => ca_force args | Contribute args => co_force args | Finalize args => fi_force args | ExportDeployment args => ed_force args end.

End Steps.

#[local] Hint Resolve quiet_readable quiet_dir quiet_allowed : ceremony.

(** ** What the console shows *)

(** The same files, of the same lengths. *)
Definition same_shape (f g : gmap Path bytes) : Prop := forall p, length <$> f !! p = length <$> g !! p.

(** What a child process does depends on the entropy it is given only in the contents of the
    files it writes: commands with the same log, on files of the same lengths, end the same
    way and leave files of the same lengths. *)
Class BlindHost (H : Host) : Prop :=
  spawn_blind program args args' f g : render_args ["-e"; "--entropy"]%string false args = render_args ["-e"; "--entropy"]%string false args' -> same_shape f g ->
    (spawn program args f).1 = (spawn program args' g).1 /\ same_shape (spawn program args f).2 (spawn program args' g).2.

Section Blind.

Context {H : Host} {HB : BlindHost H}.

Record low (w w' : Console) : Prop := {
  low_lines : cn_lines w = cn_lines w';
  low_files : same_shape (dk_files (cn_disk w)) (dk_files (cn_disk w'));
  low_count : length (cn_runs w) = length (cn_runs w');
}.

(** Two runs that cannot be told apart by their results and what they print. *)
Definition blind {A} (m m' : M A) : Prop := forall w w', low w w' -> (m w).1 = (m' w').1 /\ low (m w).2 (m' w').2.

Lemma blind_ret {A} (a : A) : blind (mret a) (mret a).
Proof. by intros w w'. Qed.
Lemma blind_bail {A} text : blind (bail (A := A) text) (bail text).
Proof. by intros w w'. Qed.
Lemma blind_throw {A} e : blind (io_throw (A := A) e) (io_throw e).
Proof. by intros w w'. Qed.
Lemma blind_println line : blind (println line) (println line).
Proof. intros w w' [Hl Hf Hc]. split; [done |]. split; cbn; [by rewrite Hl | done | done]. Qed.

Lemma blind_bind {A C} (m m' : M A) (k k' : A -> M C) : blind m m' -> (forall a, blind (k a) (k' a)) -> blind (m ≫= k) (m' ≫= k').
Proof.
  intros Hm Hk w w' Hw. unfold mbind, io_bind. destruct (Hm w w' Hw) as [E Hl]. destruct (m w) as [r w1], (m' w') as [r' w1']. cbn in E, Hl. subst r'.
  destruct r as [a|e]; [by apply Hk | done].
Qed.

Lemma blind_known {A C} (a a' : A) (k k' : A -> M C) : blind (k a) (k' a') -> blind (mret a ≫= k) (mret a' ≫= k').
Proof. intros Hk. exact Hk. Qed.

Lemma blind_if {A} (b : bool) (m1 m2 n1 n2 : M A) : blind m1 n1 -> blind m2 n2 -> blind (if b then m1 else m2) (if b then n1 else n2).
Proof. by destruct b. Qed.

Lemma blind_files {C} (k k' : gmap Path bytes -> M C) : (forall f g, same_shape f g -> blind (k f) (k' g)) -> blind (the_files ≫= k) (the_files ≫= k').
Proof. intros Hk w w' Hw. unfold the_files, mbind, io_bind. apply Hk; [apply Hw | done]. Qed.

Hint Resolve blind_ret blind_bail blind_throw blind_println blind_bind blind_if : ceremony.

Lemma shape_file f g p : same_shape f g -> is_file f p = is_file g p.
Proof. intros Hs. specialize (Hs p). unfold is_file. destruct (f !! p), (g !! p); (discriminate Hs || done). Qed.

Lemma blind_readable path label : blind (assert_readable_file path label) (assert_readable_file path label).
Proof. apply blind_files. intros f g Hs. unfold path_exists. rewrite (shape_file f g path Hs). auto with ceremony. Qed.

Lemma blind_allowed path force : blind (assert_output_allowed path force) (assert_output_allowed path force).
Proof. apply blind_files. intros f g Hs. unfold path_exists. rewrite (shape_file f g path Hs). auto with ceremony. Qed.

Lemma blind_size path : blind (print_file_size path) (print_file_size path).
Proof.
  apply blind_files. intros f g Hs. specialize (Hs path). destruct (f !! path) as [b|], (g !! path) as [c|]; try discriminate Hs.
  - unfold zlength. injection Hs as ->. apply blind_println.
  - destruct (directory_len (path_text path)); auto with ceremony.
Qed.

Lemma blind_next path actions : blind (print_next_steps path actions) (print_next_steps path actions).
Proof. unfold print_next_steps. repeat (apply blind_bind; [apply blind_println | intros _]). induction actions as [|a l IH]; cbn [foldr]; auto with ceremony. Qed.

Lemma shape_root f g cwd : same_shape f g -> find_root f cwd = find_root g cwd.
Proof. intros Hs. induction cwd as [|c cwd IH]; cbn [find_root]; rewrite (shape_file f g _ Hs); [done |]. by rewrite IH. Qed.

Hint Resolve blind_readable blind_allowed blind_size blind_next : ceremony.

Lemma blind_circuit explicit : blind (resolve_circuits explicit) (resolve_circuits explicit).
Proof.
  destruct explicit as [path|]; cbn [resolve_circuits].
  - unfold resolve_snarkjs_circuit_path. apply blind_bind; [auto with ceremony | intros _]. destruct (stem_and_extension path.2) as [[stem ext]|]; auto 6 with ceremony.
  - apply blind_bind; [| auto with ceremony]. unfold discover_r1cs. apply blind_files. intros f g Hs.
    destruct current_dir as [cwd|]; [| auto with ceremony]. rewrite (shape_root f g cwd Hs). destruct (find_root g cwd); [| auto with ceremony]. destruct (glob_paths _) as [entries|]; [| auto with ceremony].
    rewrite (list_filter_iff (fun p => is_file f p = true) (fun p => is_file g p = true)) by (intros p; by rewrite (shape_file f g p Hs)).
    destruct (filter _ entries); [auto with ceremony |]. destruct (sort_candidates _); auto with ceremony.
Qed.

Lemma blind_run args args' : render_args ["-e"; "--entropy"]%string false args = render_args ["-e"; "--entropy"]%string false args' -> blind (run "snarkjs" args) (run "snarkjs" args').
Proof.
  intros Hargs. unfold run, ProcessRunner, format_command, format_command_with_redactions. rewrite Hargs. apply blind_bind; [apply blind_println | intros _].
  apply blind_bind.
  - intros w w' [Hl Hf Hc]. unfold start. destruct (spawn_blind "snarkjs" args args' _ _ Hargs Hf) as [He Hs]. destruct (spawn _ args _), (spawn _ args' _). cbn in *. subst.
    split; [done |]. split; cbn; [done | done |]. by rewrite !length_app, Hc.
  - intros [|e|status success]; [auto with ceremony | auto with ceremony |]. apply blind_bind; [| auto with ceremony].
    intros w w' [Hl Hf Hc]. unfold elapsed. by rewrite Hc.
Qed.

(** The entropy is the value of a flag that is not shown. *)
Lemma contribute_redacted zkey output name e e' :
  render_args ["-e"; "--entropy"]%string false (contribute_cmd zkey output name e) = render_args ["-e"; "--entropy"]%string false (contribute_cmd zkey output name e').
Proof.
  assert (forall pre redacted x y, render_args ["-e"; "--entropy"]%string false [x] = render_args ["-e"; "--entropy"]%string false [y] ->
    render_args ["-e"; "--entropy"]%string redacted (pre ++ [x]) = render_args ["-e"; "--entropy"]%string redacted (pre ++ [y])) as Hpre.
  { intros pre. induction pre as [|a pre IH]; intros redacted x y E; [by destruct redacted |]. cbn [app render_args].
    destruct redacted; [by f_equal; apply IH |]. destruct (find _ _); [by f_equal; apply IH |]. destruct (existsb _ _); f_equal; by apply IH. }
  apply (Hpre ["zkey"; "contribute"; path_text zkey; path_text output; "--name=" +:+ name; "-v"]%string). by destruct e, e'.
Qed.

Lemma contribute_blind b b' args : blind (contribute (Ok b) args) (contribute (Ok b') args).
Proof.
  unfold contribute. do 2 (apply blind_bind; [auto with ceremony | intros _]). apply blind_bind; [apply blind_circuit | intros circuit].
  apply blind_bind; [by apply blind_run | intros _]. apply blind_bind; [auto with ceremony | intros _]. cbn [generate_entropy_hex].
  apply blind_known. apply blind_bind; [apply blind_run, contribute_redacted | intros _]. apply blind_bind; [auto with ceremony | intros _].
  apply blind_bind; [by apply blind_run | auto with ceremony].
Qed.

End Blind.

(** ** The exported files *)

Lemma chars_app a b : chars (a +:+ b) = chars a ++ chars b.
Proof. unfold chars. induction a as [|c a IH]; [done |]. exact (f_equal (cons c) IH). Qed.

Lemma chars_inj a b : chars a = chars b -> a = b.
Proof. unfold chars. intros E. rewrite <- (String.string_of_list_ascii_of_string a), <- (String.string_of_list_ascii_of_string b). by rewrite E. Qed.

Lemma split_last_app sep s a b : split_last sep s = Some (a, b) -> a ++ b = s.
Proof.
  revert a b. induction s as [|c s IH]; intros a b E; [done |]. cbn [split_last] in E. destruct (split_last sep s) as [[a' b']|].
  - injection E as <- <-. cbn. by rewrite (IH a' b').
  - destruct (Ascii.eqb c sep); [by injection E as <- <- | done].
Qed.

(** A path is written as it was read. *)
Lemma path_text_of s : path_text (path_of s) = s.
Proof.
  unfold path_text, path_of. destruct (split_last "/" (chars s)) as [[a b]|] eqn:E; [| done]. apply split_last_app in E. apply chars_inj. rewrite chars_app. unfold chars. cbn [fst snd].
  by rewrite !String.list_ascii_of_string_of_list_ascii.
Qed.

(** The last character of a path tells the outputs from the temporary names. *)
Definition last_char (s : string) : option ascii := last (chars s).

Lemma last_char_app a b c : last_char b = Some c -> last_char (a +:+ b) = Some c.
Proof. unfold last_char. intros E. rewrite chars_app, last_app, E. done. Qed.

Lemma pretty_go_last x s : (0 < x)%N -> exists t d, chars (pretty_N_go x s) = t ++ pretty_N_char d :: chars s.
Proof.
  revert s. induction x as [x IH] using (well_founded_induction N.lt_wf_0). intros s Hx. rewrite pretty_N_go_step by done.
  destruct (N.eq_0_gt_0_cases (x `div` 10)) as [Hd|Hd]; [rewrite Hd, pretty_N_go_0; by exists [], (x `mod` 10)%N |].
  destruct (IH (x `div` 10)%N (N.div_lt x 10 Hx ltac:(lia)) (String (pretty_N_char (x `mod` 10)) s) Hd) as (t & d & E).
  exists (t ++ [pretty_N_char d]), (x `mod` 10)%N. rewrite E. by rewrite <- app_assoc.
Qed.

Lemma pretty_N_char_digit d : is_Some (digit_value (pretty_N_char d)).
Proof. unfold pretty_N_char. repeat case_match; by eexists. Qed.

Lemma pretty_last (n : N) : exists c, last_char (pretty n) = Some c /\ is_Some (digit_value c).
Proof.
  unfold pretty, pretty_N. case_decide as E; [by eexists; split; [reflexivity | eexists] |]. destruct (pretty_go_last n EmptyString) as (t & d & E'); [lia |].
  exists (pretty_N_char d). split; [| apply pretty_N_char_digit]. unfold last_char. rewrite E'. apply last_snoc.
Qed.

Lemma temp_name_last pid name k : exists c, last_char (temp_name pid name k) = Some c /\ is_Some (digit_value c).
Proof.
  unfold temp_name. destruct (bool_decide (k = 0%nat)); [destruct (pretty_last pid) as (c & E & Hc) | destruct (pretty_last (N.of_nat k)) as (c & E & Hc)]; exists c; (split; [| exact Hc]).
  - by repeat apply last_char_app.
  - apply last_char_app. by apply last_char_app.
Qed.

Lemma string_app_assoc a b c : a +:+ b +:+ c = (a +:+ b) +:+ c.
Proof. apply chars_inj. by rewrite !chars_app, app_assoc. Qed.

Lemma prefix_slash c s : String.prefix "/" (String c s) = if ascii_dec "/" c then true else false.
Proof. destruct s; cbn; by destruct (ascii_dec "/" c). Qed.

Section Exporting.

Context {H : Host} {F : Faults} {B : BigUintText} {K : ArkKeys} (pid : N).

(** The joined paths differ in their suffix only. *)
Lemma join_text dir base : exists before, forall suffix, String.prefix "/" suffix = false -> path_text (path_join dir (base +:+ suffix)) = before +:+ suffix.
Proof.
  unfold path_join. destruct base as [|c base].
  - exists (if bool_decide (dir = EmptyString) || bool_decide (last (chars dir) = Some "/"%char) then dir else dir +:+ "/"). intros suffix Hs. rewrite path_text_of.
    change (EmptyString +:+ suffix) with suffix. rewrite Hs. destruct (bool_decide _ || _); [done |]. apply string_app_assoc.
  - exists (if String.prefix "/" (String c base) then String c base else if bool_decide (dir = EmptyString) || bool_decide (last (chars dir) = Some "/"%char) then dir +:+ String c base else dir +:+ "/" +:+ String c base).
    intros suffix _. rewrite path_text_of. change (String c base +:+ suffix) with (String c (base +:+ suffix)). rewrite !prefix_slash.
    destruct (ascii_dec "/" c); [done |]. change (String c (base +:+ suffix)) with (String c base +:+ suffix).
    destruct (bool_decide _ || _); by rewrite ?string_app_assoc.
Qed.

(** The outputs, with their suffixes. *)
Definition suffixes : list string := ["_proving_key.bin"; "_vk.json"; "_vk_soroban.bin"; "_vk_const.rs"]%string.
Definition output_path (args : ExportDeploymentArgs) (suffix : string) : Path := path_join (ed_out_dir args) (ed_basename args +:+ suffix).

Lemma outputs_apart args s s' : s ∈ suffixes -> s' ∈ suffixes -> output_path args s = output_path args s' -> s = s'.
Proof.
  intros Hs Hs' E. destruct (join_text (ed_out_dir args) (ed_basename args)) as [before Htext]. apply (f_equal path_text) in E. unfold output_path in E.
  assert (forall x, x ∈ suffixes -> String.prefix "/" x = false) as Hp by (apply Forall_forall; by repeat constructor). rewrite !Htext in E by (by apply Hp).
  apply (f_equal chars) in E. rewrite !chars_app in E. apply app_inv_head in E. by apply chars_inj.
Qed.

Lemma output_not_temp args s dir name k : s ∈ suffixes -> output_path args s <> (dir, temp_name pid name k).
Proof.
  intros Hs E. destruct (join_text (ed_out_dir args) (ed_basename args)) as [before Htext]. destruct (temp_name_last pid name k) as (c & Hc & Hd).
  assert (exists c, last_char s = Some c /\ digit_value c = None /\ String.prefix "/" s = false) as (c' & Hc' & Hd' & Hp).
  { revert s Hs E. assert (Forall (fun s => exists c, last_char s = Some c /\ digit_value c = None /\ String.prefix "/" s = false) suffixes) as Hall by (repeat constructor; by eexists).
    intros s Hs _. exact (proj1 (Forall_forall _ _) Hall s Hs). }
  apply (f_equal path_text) in E. unfold output_path in E. rewrite Htext in E by done. apply (last_char_app before) in Hc'. apply (last_char_app dir) in Hc.
  unfold path_text in E. cbn [fst snd] in E. rewrite E, Hc in Hc'. injection Hc' as ->. rewrite Hd' in Hd. by destruct Hd.
Qed.

Definition put (p : Path) (b : option bytes) (m : gmap Path bytes) : gmap Path bytes := match b with Some b => <[p := b]> m | None => m end.

(** The encodings of a key, as far as they exist. *)
Definition outputs (args : ExportDeploymentArgs) (pk : ProvingKeyFile) : gmap Path bytes :=
  put (vk_const_path args) (Some (const_bytes (vk_rust_const (pk_vk pk)))) (put (vk_soroban_path args) (vk_soroban_bytes (pk_vk pk))
    (put (vk_json_path args) (to_string_pretty (vk_to_snarkjs_json (pk_vk pk))) (put (pk_path args) (serialize_compressed pk) ∅))).

Lemma lookup_put_eq p b m : m !! p = None -> put p b m !! p = b.
Proof. intros Hm. destruct b; [by apply lookup_insert_eq | done]. Qed.
Lemma lookup_put_ne p q b m : p <> q -> put p b m !! q = m !! q.
Proof. intros Hpq. destruct b; [by apply lookup_insert_ne | done]. Qed.

Lemma lookup_outputs args pk :
  outputs args pk !! pk_path args = serialize_compressed pk /\ outputs args pk !! vk_json_path args = to_string_pretty (vk_to_snarkjs_json (pk_vk pk)) /\
  outputs args pk !! vk_soroban_path args = vk_soroban_bytes (pk_vk pk) /\ outputs args pk !! vk_const_path args = Some (const_bytes (vk_rust_const (pk_vk pk))) /\
  forall p, is_Some (outputs args pk !! p) -> exists s, s ∈ suffixes /\ p = output_path args s.
Proof.
  assert (forall i j s s', suffixes !! i = Some s -> suffixes !! j = Some s' -> i <> j -> output_path args s <> output_path args s') as Hne.
  { intros i j s s' Hi Hj Hij E. apply outputs_apart in E; [| by eapply list_elem_of_lookup_2 | by eapply list_elem_of_lookup_2]. subst s'.
    apply Hij. eapply (NoDup_lookup suffixes); [| done | done]. by repeat constructor; set_solver. }
  pose proof (Hne 0%nat 1%nat _ _ eq_refl eq_refl ltac:(done)) as H01. pose proof (Hne 0%nat 2%nat _ _ eq_refl eq_refl ltac:(done)) as H02. pose proof (Hne 0%nat 3%nat _ _ eq_refl eq_refl ltac:(done)) as H03.
  pose proof (Hne 1%nat 2%nat _ _ eq_refl eq_refl ltac:(done)) as H12. pose proof (Hne 1%nat 3%nat _ _ eq_refl eq_refl ltac:(done)) as H13. pose proof (Hne 2%nat 3%nat _ _ eq_refl eq_refl ltac:(done)) as H23.
  change (output_path args "_proving_key.bin") with (pk_path args) in *. change (output_path args "_vk.json") with (vk_json_path args) in *.
  change (output_path args "_vk_soroban.bin") with (vk_soroban_path args) in *. change (output_path args "_vk_const.rs") with (vk_const_path args) in *.
  unfold outputs. split_and!.
  - rewrite !lookup_put_ne by congruence. by rewrite lookup_put_eq.
  - rewrite !lookup_put_ne by congruence. rewrite lookup_put_eq; [done |]. by rewrite lookup_put_ne.
  - rewrite lookup_put_ne by congruence. rewrite lookup_put_eq; [done |]. by rewrite !lookup_put_ne by congruence.
  - rewrite lookup_put_eq; [done |]. by rewrite !lookup_put_ne by congruence.
  - intros p Hp. destruct (decide (p = vk_const_path args)) as [->|N3]; [exists "_vk_const.rs"%string; exact (conj (list_elem_of_lookup_2 suffixes 3 _ eq_refl) eq_refl) |].
    destruct (decide (p = vk_soroban_path args)) as [->|N2]; [exists "_vk_soroban.bin"%string; exact (conj (list_elem_of_lookup_2 suffixes 2 _ eq_refl) eq_refl) |].
    destruct (decide (p = vk_json_path args)) as [->|N1]; [exists "_vk.json"%string; exact (conj (list_elem_of_lookup_2 suffixes 1 _ eq_refl) eq_refl) |].
    destruct (decide (p = pk_path args)) as [->|N0]; [exists "_proving_key.bin"%string; exact (conj (list_elem_of_lookup_2 suffixes 0 _ eq_refl) eq_refl) |].
    rewrite !lookup_put_ne in Hp by congruence. by destruct Hp.
Qed.

(** On the way to its outputs an export has each of them as it was or complete, and changes no
    other file but the temporary names. *)
Definition within (base outs fs : gmap Path bytes) : Prop := forall p,
  match outs !! p with
  | Some b => fs !! p = base !! p \/ fs !! p = Some b
  | None => (forall o k, is_Some (outs !! o) -> (k < 1000)%nat -> p <> (o.1, temp_name pid o.2 k)) -> fs !! p = base !! p
  end.

Lemma within_base base outs : within base outs base.
Proof. intros p. destruct (outs !! p); [by left | done]. Qed.

Lemma kept_within args pk base target b fs fs' : outputs args pk !! target = Some b -> within base (outputs args pk) fs -> kept pid fs target b fs' -> within base (outputs args pk) fs'.
Proof.
  intros Ht Hw [Hk1 Hk2] p. specialize (Hw p). destruct (decide (p = target)) as [->|Hp].
  - rewrite Ht in *. destruct Hk1 as [-> | ->]; [done | by right].
  - destruct (outputs args pk !! p) as [b'|] eqn:E.
    + rewrite Hk2; [done | done |]. intros k _. destruct (lookup_outputs args pk) as (_ & _ & _ & _ & Hall). destruct (Hall p) as (s & Hs & ->); [by eexists |]. by apply output_not_temp.
    + intros Hn. rewrite Hk2; [by apply Hw | done |]. intros k Hk. apply Hn; [by eexists | done].
Qed.

Lemma bind_cases {A C} (Q : result CeremonyError C -> Console -> Prop) (m : M A) (k : A -> M C) w :
  (forall e w1, m w = (Err e, w1) -> Q (Err e) w1) -> (forall a w1, m w = (Ok a, w1) -> Q (k a w1).1 (k a w1).2) -> Q ((m ≫= k) w).1 ((m ≫= k) w).2.
Proof. intros He Ha. unfold mbind, io_bind. destruct (m w) as [[a|e] w1]; [by apply Ha | by apply He]. Qed.

Lemma quiet_disk {A} (m : M A) w r w1 : quiet m -> m w = (r, w1) -> cn_disk w1 = cn_disk w.
Proof. intros Hm E. destruct (Hm w) as (_ & Hd & _). by rewrite E in Hd. Qed.

(** *** The writes *)

Section Writes.

Context (d0 : Disk) (args : ExportDeploymentArgs) (pk : ProvingKeyFile).

Definition under_way (w : Console) : Prop :=
  saw (within (dk_files d0) (outputs args pk)) d0 (cn_disk w) /\ within (dk_files d0) (outputs args pk) (dk_files (cn_disk w)).

Lemma written_whole target o w r w1 : under_way w -> outputs args pk !! target = o -> on_disk target (b ← encoded o; write_file pid target b) w = (r, w1) ->
  under_way w1 /\ (is_ok r = true -> dk_files (cn_disk w1) = put target o (dk_files (cn_disk w)) /\ is_Some o).
Proof.
  intros [Hs Hw] Ho E. destruct o as [b|]; [| by injection E as <- <-]. unfold on_disk, encoded, mbind, io_bind, mret, io_ret in E.
  pose proof (write_file_kept pid target b (cn_disk w)) as Hkept. destruct (write_file pid target b (cn_disk w)) as [r' d']. destruct Hkept as (Hsaw & Hlast & Hok). injection E as <- <-.
  split; [split; cbn [cn_disk] |].
  - eapply saw_trans; [exact Hs |]. eapply saw_impl; [| exact Hsaw]. intros fs Hfs. by eapply kept_within.
  - by eapply kept_within.
  - destruct r' as [u|e]; [| discriminate]. intros _. split; [| by eexists]. by eapply Hok.
Qed.

Lemma read_under_way p w r w1 : under_way w -> on_disk p (read_file p) w = (r, w1) ->
  under_way w1 /\ dk_files (cn_disk w1) = dk_files (cn_disk w) /\ (forall b, r = Ok b -> dk_files (cn_disk w) !! p = Some b).
Proof.
  intros [Hs Hw] E. unfold on_disk, read_file in E. injection E as <- <-. split; [split; cbn [cn_disk dk_files]; [| done] | split; [done |]].
  - eapply saw_trans; [exact Hs | by apply saw_op].
  - intros b Hb. destruct (fault (dk_ops (cn_disk w))); [discriminate Hb |]. destruct (dk_files (cn_disk w) !! p); [by injection Hb as -> | discriminate Hb].
Qed.

End Writes.

Lemma json_eqb_eq a b : json_eqb a b = true -> a = b.
Proof.
  revert a b. fix json_eqb_eq 1. intros [[x|]|s|x| |l|l] [[y|]|t|y| |l'|l'] E; cbn [json_eqb] in E; try discriminate E; try reflexivity.
  - by apply Z.eqb_eq in E as ->.
  - by apply bool_decide_eq_true in E as ->.
  - by apply Bool.eqb_prop in E as ->.
  - f_equal. revert l' E. induction l as [|x l IH]; intros [|y l'] E; try discriminate E; [reflexivity |]. apply andb_true_iff in E as [E1 E2]. f_equal; [exact (json_eqb_eq x y E1) | exact (IH l' E2)].
  - f_equal. revert l' E. induction l as [|[n x] l IH]; intros [|[m y] l'] E; try discriminate E; [reflexivity |]. apply andb_true_iff in E as [E1 E2]. apply andb_true_iff in E1 as [En E1].
    apply bool_decide_eq_true in En as ->. f_equal; [f_equal; exact (json_eqb_eq x y E1) | exact (IH l' E2)].
Qed.

(** *** The export *)

Definition key_in (files : gmap Path bytes) (zkey : Path) : option ProvingKeyFile := b ← files !! zkey; read_zkey b.

(** An output exists and may not be overwritten. *)
Definition refused (args : ExportDeploymentArgs) (files : gmap Path bytes) : Prop :=
  ed_force args = false /\ exists s, s ∈ suffixes /\ is_Some (files !! output_path args s).

(** What an export of the key [pk] leaves. *)
Definition exported (args : ExportDeploymentArgs) (d0 : Disk) (pk : ProvingKeyFile) (ok : bool) (w' : Console) : Prop :=
  under_way d0 args pk w' /\
  (ok = true ->
   dk_files (cn_disk w') = outputs args pk ∪ dk_files d0 /\ (forall s, s ∈ suffixes -> is_Some (outputs args pk !! output_path args s)) /\
   exists written pk', outputs args pk !! pk_path args = Some written /\ deserialize_compressed_unchecked written = Some pk' /\
     vk_to_snarkjs_json (pk_vk pk') = vk_to_snarkjs_json (pk_vk pk)).

Definition export_result (args : ExportDeploymentArgs) (d0 : Disk) (r : result CeremonyError unit) (w' : Console) : Prop :=
  match key_in (dk_files d0) (ed_zkey args) with
  | Some pk => exported args d0 pk (is_ok r) w'
  | None => is_ok r = false /\ dk_files (cn_disk w') = dk_files d0
  end /\
  (refused args (dk_files d0) -> is_ok r = false /\ dk_files (cn_disk w') = dk_files d0).

Lemma outcome_untouched args d0 e w' : dk_files (cn_disk w') = dk_files d0 -> saw (fun fs => fs = dk_files d0) d0 (cn_disk w') -> export_result args d0 (Err e) w'.
Proof.
  intros Hf Hs. split; [| done]. destruct (key_in _ _) as [pk|]; [| done]. split; [| done]. split; [| rewrite Hf; apply within_base].
  eapply saw_impl; [| exact Hs]. intros fs ->. apply within_base.
Qed.

Lemma outcome_guard {A} args d0 (m : M A) (k : A -> M unit) w : quiet m -> cn_disk w = d0 ->
  (forall a w1, m w = (Ok a, w1) -> cn_disk w1 = d0 -> export_result args d0 (k a w1).1 (k a w1).2) -> export_result args d0 ((m ≫= k) w).1 ((m ≫= k) w).2.
Proof.
  intros Hm Hd Hk. apply bind_cases.
  - intros e w1 E. apply (quiet_disk m) in E; [| done]. apply outcome_untouched; rewrite E, Hd; [done | apply saw_refl].
  - intros a w1 E. apply Hk; [done |]. apply (quiet_disk m) in E; [| done]. congruence.
Qed.

Lemma free_output args d0 w w1 s u : cn_disk w = d0 -> assert_output_allowed (output_path args s) (ed_force args) w = (Ok u, w1) ->
  ed_force args = false -> dk_files d0 !! output_path args s = None.
Proof. intros <- E Hf. eapply allowed_fresh; [by rewrite E | done]. Qed.

(** The rest of the export, once the key is read. *)
Lemma export_written args d0 pk w : under_way d0 args pk w -> dk_files (cn_disk w) = dk_files d0 ->
  let rest := (on_disk (pk_path args) (write_proving_key_bin pid pk (pk_path args));;
    on_disk (vk_json_path args) (write_vk_snarkjs_json pid (pk_vk pk) (vk_json_path args));;
    on_disk (vk_soroban_path args) (write_vk_soroban_bin pid (pk_vk pk) (vk_soroban_path args));;
    on_disk (vk_const_path args) (write_vk_rust_const pid (pk_vk pk) (vk_const_path args));;
    written ← on_disk (pk_path args) (read_file (pk_path args));
    match deserialize_compressed_unchecked written with
    | None => bail ("failed to read back " +:+ path_text (pk_path args))
    | Some written_pk =>
        if json_eqb (vk_to_snarkjs_json (pk_vk written_pk)) (vk_to_snarkjs_json (pk_vk pk)) then
          println "Generated:";;
          println ("  " +:+ path_text (pk_path args));; println ("  " +:+ path_text (vk_json_path args));;
          println ("  " +:+ path_text (vk_soroban_path args));; println ("  " +:+ path_text (vk_const_path args))
        else bail "validation failed: proving key contains a different verification key"
    end) w in
  exported args d0 pk (is_ok rest.1) rest.2.
Proof.
  intros Hu Hf rest. subst rest. destruct (lookup_outputs args pk) as (L0 & L1 & L2 & L3 & _).
  assert (forall e w1, under_way d0 args pk w1 -> exported args d0 pk (is_ok (Err (A := unit) (E := CeremonyError) e)) w1) as Hfail by (by split).
  apply (bind_cases (fun r => exported args d0 pk (is_ok r))); intros ? w1 E1; destruct (written_whole d0 args pk _ _ _ _ _ Hu L0 E1) as [Hu1 Hok1]; [by apply Hfail |].
  apply (bind_cases (fun r => exported args d0 pk (is_ok r))); intros ? w2 E2; destruct (written_whole d0 args pk _ _ _ _ _ Hu1 L1 E2) as [Hu2 Hok2]; [by apply Hfail |].
  apply (bind_cases (fun r => exported args d0 pk (is_ok r))); intros ? w3 E3; destruct (written_whole d0 args pk _ _ _ _ _ Hu2 L2 E3) as [Hu3 Hok3]; [by apply Hfail |].
  apply (bind_cases (fun r => exported args d0 pk (is_ok r))); intros ? w4 E4; destruct (written_whole d0 args pk _ _ _ _ _ Hu3 L3 E4) as [Hu4 Hok4]; [by apply Hfail |].
  apply (bind_cases (fun r => exported args d0 pk (is_ok r))); intros a5 w5 E5; destruct (read_under_way d0 args pk _ _ _ _ Hu4 E5) as (Hu5 & Hf5 & Hread); [by apply Hfail |].
  destruct (Hok1 eq_refl) as [F1 S1], (Hok2 eq_refl) as [F2 S2], (Hok3 eq_refl) as [F3 S3], (Hok4 eq_refl) as [F4 S4].
  assert (dk_files (cn_disk w5) = outputs args pk ∪ dk_files d0) as Hall.
  { rewrite Hf5, F4, F3, F2, F1, Hf. unfold outputs, put. destruct S1 as [? ->], S2 as [? ->], S3 as [? ->]. by rewrite <- !insert_union_l, map_empty_union. }
  destruct (deserialize_compressed_unchecked a5) as [pk'|] eqn:Ede; [| by apply Hfail].
  destruct (json_eqb _ _) eqn:Ej; [| by apply Hfail]. split; [exact Hu5 |]. intros _. split; [exact Hall |]. split.
  - apply Forall_forall. repeat constructor; [change (is_Some (outputs args pk !! pk_path args)) | change (is_Some (outputs args pk !! vk_json_path args))
      | change (is_Some (outputs args pk !! vk_soroban_path args)) | change (is_Some (outputs args pk !! vk_const_path args))]; congruence.
  - exists a5, pk'. split; [| split; [done | by apply json_eqb_eq]]. specialize (Hread a5 eq_refl). rewrite <- Hf5, Hall in Hread.
    apply lookup_union_Some_raw in Hread as [Hread|[Hread _]]; [done |]. rewrite L0 in Hread. destruct S1. congruence.
Qed.

Lemma read_key args d0 w r w1 : cn_disk w = d0 -> proving_key_from_zkey (ed_zkey args) w = (r, w1) ->
  dk_files (cn_disk w1) = dk_files d0 /\ saw (fun fs => fs = dk_files d0) d0 (cn_disk w1) /\ (forall pk, r = Ok pk -> key_in (dk_files d0) (ed_zkey args) = Some pk).
Proof.
  intros <- E. unfold proving_key_from_zkey, on_disk, read_file, mbind, io_bind in E. unfold key_in.
  pose proof (saw_op (fun fs => fs = dk_files (cn_disk w)) (cn_disk w) (dk_files (cn_disk w)) (S (dk_ops (cn_disk w))) eq_refl) as Hsaw.
  destruct (fault (dk_ops (cn_disk w))); [by injection E as <- <- |]. destruct (dk_files (cn_disk w) !! ed_zkey args) as [b|]; [| by injection E as <- <-].
  cbn [map_err mbind option_bind] in *. destruct (read_zkey b) as [pk|]; injection E as <- <-; (split; [done |]; split; [done |]); intros pk' Hpk; (discriminate Hpk || by injection Hpk as ->).
Qed.

Lemma export_outcome args w : export_result args (cn_disk w) (export_deployment pid args w).1 (export_deployment pid args w).2.
Proof.
  unfold export_deployment. apply outcome_guard; [auto with ceremony | done |]; intros ? ? _ ?. apply outcome_guard; [auto with ceremony | done |]; intros ? ? _ D0.
  apply outcome_guard; [auto with ceremony | done |]; intros ? ? A0 D1. apply outcome_guard; [auto with ceremony | done |]; intros ? ? A1 D2.
  apply outcome_guard; [auto with ceremony | done |]; intros ? ? A2 D3. apply outcome_guard; [auto with ceremony | done |]; intros ? v1 A3 D4.
  assert (~ refused args (dk_files (cn_disk w))) as Hfree.
  { intros [Hforce (s & Hs & Hsome)].
    assert (Forall (fun s => dk_files (cn_disk w) !! output_path args s = None) suffixes) as Hall.
    { constructor; [exact (free_output args _ _ _ "_proving_key.bin" _ D0 A0 Hforce) |]. constructor; [exact (free_output args _ _ _ "_vk.json" _ D1 A1 Hforce) |].
      constructor; [exact (free_output args _ _ _ "_vk_soroban.bin" _ D2 A2 Hforce) |]. constructor; [exact (free_output args _ _ _ "_vk_const.rs" _ D3 A3 Hforce) | constructor]. }
    rewrite (proj1 (Forall_forall _ _) Hall s Hs) in Hsome. by destruct Hsome. }
  apply bind_cases; intros pk v2 E2; destruct (read_key args _ _ _ _ D4 E2) as (Hf & Hs & Hkey); [by apply outcome_untouched |]. specialize (Hkey pk eq_refl).
  assert (under_way (cn_disk w) args pk v2) as Hu by (split; [eapply saw_impl; [| exact Hs]; intros fs ->; apply within_base | rewrite Hf; apply within_base]).
  assert (forall r w', exported args (cn_disk w) pk (is_ok r) w' -> export_result args (cn_disk w) r w') as Hout by (intros r w' Hx; split; [by rewrite Hkey | done]).
  apply bind_cases; intros b v3 E3; unfold on_disk, encoded in E3; destruct (serialize_compressed pk) as [pkb|]; try discriminate E3; injection E3 as <- <-; [by apply outcome_untouched |].
  apply bind_cases; destruct (deserialize_compressed_unchecked pkb); intros ? v4 E4; try discriminate E4; injection E4 as <- <-; [by apply outcome_untouched |].
  apply Hout. by apply export_written.
Qed.

End Exporting.

(** ** The circuit that is found *)

Section Discovery.

Context {H : Host}.

Lemma candidate_le_total a b : candidate_le a b = false -> candidate_le b a = true.
Proof. unfold candidate_le. destruct (is_release a), (is_release b); intros E; try discriminate E; try reflexivity; apply Z.leb_gt in E; apply Z.leb_le; lia. Qed.

Lemma candidate_le_trans a b c : candidate_le a b = true -> candidate_le b c = true -> candidate_le a c = true.
Proof. unfold candidate_le. destruct (is_release a), (is_release b), (is_release c); intros E E'; try discriminate; try reflexivity; apply Z.leb_le in E, E'; apply Z.leb_le; lia. Qed.

Lemma insert_nonempty p l : insert_candidate p l <> [].
Proof. destruct l as [|x l]; cbn [insert_candidate]; [done |]. by destruct (candidate_le p x). Qed.

Lemma sorted_first l p rest : sort_candidates l = p :: rest -> p ∈ l /\ Forall (fun q => candidate_le p q = true) l.
Proof.
  revert p rest. induction l as [|x l IH]; intros p rest E; [discriminate E |]. cbn [sort_candidates foldr] in E. change (foldr insert_candidate [] l) with (sort_candidates l) in E.
  assert (candidate_le x x = true) as Hrefl by (destruct (candidate_le x x) eqn:Ex; [done | by rewrite (candidate_le_total x x Ex) in Ex]).
  destruct (sort_candidates l) as [|y l'] eqn:Es.
  - destruct l as [|z l]; [| by apply insert_nonempty in Es].
    injection E as <- _. split; [by left | by constructor].
  - destruct (IH y l' eq_refl) as [Hin Hall]. cbn [insert_candidate] in E. destruct (candidate_le x y) eqn:Exy; injection E as <- _.
    + split; [by left |]. constructor; [done |]. eapply Forall_impl; [exact Hall |]. intros q Hq. exact (candidate_le_trans _ _ _ Exy Hq).
    + split; [by right |]. constructor; [by apply candidate_le_total | done].
Qed.

(** The circuit that is found is a file of the glob, and none of them is better: a release build
    before any other, then the newest. *)
Lemma discovered_best name p w : (discover_r1cs name w).1 = Ok p -> exists cwd root entries,
  current_dir = Some cwd /\ find_root (dk_files (cn_disk w)) cwd = Some root /\
  glob_paths (path_text (path_join (root_text root) ("target/*/build/circuits-*/out/circuits/" +:+ name))) = Some entries /\
  p ∈ entries /\ is_file (dk_files (cn_disk w)) p = true /\ forall q, q ∈ entries -> is_file (dk_files (cn_disk w)) q = true -> candidate_le p q = true.
Proof.
  unfold discover_r1cs, the_files, mbind, io_bind. destruct current_dir as [cwd|]; [| discriminate]. destruct (find_root _ cwd) as [root|] eqn:Er; [| discriminate].
  destruct (glob_paths _) as [entries|] eqn:Eg; [| discriminate]. intros E. exists cwd, root, entries. do 3 (split; [done |]).
  destruct (filter (fun p => is_file (dk_files (cn_disk w)) p = true) entries) as [|c l] eqn:Ef; [discriminate E |]. rewrite <- Ef in E.
  destruct (sort_candidates (filter _ entries)) as [|best rest] eqn:Es; [discriminate E |]. injection E as ->. apply sorted_first in Es as [Hin Hall].
  apply list_elem_of_filter in Hin as [Hf Hin]. do 2 (split; [done |]). intros q Hq Hqf. eapply Forall_forall in Hall; [exact Hall |]. by apply list_elem_of_filter.
Qed.

End Discovery.

(** A workspace below a directory named [release], with a release build and a newer debug build. *)
#[local] Instance release_host : Host := {|
  spawn _ _ files := (Exited "exit status: 0" true, files);
  seconds _ := "0.01"%string;
  directory_len _ := None;
  modified p := if String.prefix "/srv/release/ws/target/debug/" p.1 then Some 2 else Some 1;
  current_dir := Some ["ws"; "release"; "srv"]%string;
  glob_paths _ := Some [("/srv/release/ws/target/debug/build/circuits-1/out/circuits/", "policy_tx_2_2.r1cs"); ("/srv/release/ws/target/release/build/circuits-1/out/circuits/", "policy_tx_2_2.r1cs")]%string;
  try_quote s := Some s;
|}.

(** Every component of the path counts, so that there the debug build is taken. *)
Lemma release_root_takes_debug :
  let w := {| cn_disk := {| dk_files := list_to_map [(("/srv/release/ws/", "Cargo.lock"), []);
      (("/srv/release/ws/target/debug/build/circuits-1/out/circuits/", "policy_tx_2_2.r1cs"), []); (("/srv/release/ws/target/release/build/circuits-1/out/circuits/", "policy_tx_2_2.r1cs"), [])]%string;
      dk_ops := 0; dk_seen := [] |}; cn_lines := []; cn_runs := [] |} in
  (discover_r1cs (H := release_host) DEFAULT_R1CS_NAME w).1 = Ok ("/srv/release/ws/target/debug/build/circuits-1/out/circuits/", "policy_tx_2_2.r1cs")%string.
Proof. vm_compute. reflexivity. Qed.

(** ** Theorems *)

(** C34. A step of the ceremony counts only when it is verified.  An initialisation that returns
    [Ok] has run the setup and then the verification of its output; a contribution has verified
    the key it received, contributed with the entropy of the system and verified its output; a
    finalisation has applied the beacon and exported the verification key, each in this order
    and each with a successful exit.  A step that fails has run a first part of its commands, of
    which only the last may have failed, and none when the circuit is not found.  Without
    [--force] no command that writes a key is run while its output exists.  The export of a
    deployment reads the key itself and runs no command at all (the README of the tool says that
    it goes through [snarkjs]). *)
Theorem ceremony_steps_verified (H : Host) (F : Faults) (B : BigUintText) (K : ArkKeys) (pid : N) (random : Random) (command : Commands) (w : Console) :
  let '(r, w') := ceremony_execute pid random command w in
  exists new, cn_runs w' = cn_runs w ++ new /\
  match plan_of random command w with
  | Some plan => carries_out (force_of command) plan new (is_ok r)
  | None => new = [] /\ is_ok r = false
  end.
Proof.
  assert (forall m : M unit, stops m w -> exists new, cn_runs (m w).2 = cn_runs w ++ new /\ new = [] /\ is_ok (m w).1 = false) as Hstop.
  { intros m [Hr Hok]. exists []. by rewrite app_nil_r. }
  enough (exists new, cn_runs (ceremony_execute pid random command w).2 = cn_runs w ++ new /\
    match plan_of random command w with Some plan => carries_out (force_of command) plan new (is_ok (ceremony_execute pid random command w).1) | None => new = [] /\ is_ok (ceremony_execute pid random command w).1 = false end)
    as Hgoal by (by destruct (ceremony_execute pid random command w)).
  destruct command as [args|args|args|args]; cbn [ceremony_execute plan_of force_of].
  - destruct (resolve_circuits (ca_circuits args) w).1 as [circuit|e] eqn:Hc; [by apply init_follows | apply Hstop; by eapply init_stops].
  - destruct (resolve_circuits (co_circuits args) w).1 as [circuit|e] eqn:Hc; [by apply contribute_follows | apply Hstop; by eapply contribute_stops].
  - apply finalize_follows.
  - by apply silent_follows, export_silent.
Qed.

(** C33. The console does not show the entropy of a contribution.  For any two draws of the system's
    entropy, with child processes that show it only in the contents of the files they write, the
    contribution ends with the same result, the text of an error included, and prints the same
    lines. *)
Theorem entropy_never_shown (H : Host) (HB : BlindHost H) (b b' : bytes) (args : ContributeArgs) (w : Console) :
  (contribute (Ok b) args w).1 = (contribute (Ok b') args w).1 /\
  cn_lines (contribute (Ok b) args w).2 = cn_lines (contribute (Ok b') args w).2.
Proof.
  destruct (contribute_blind b b' args w w) as [E [Hl _ _]]; [by split | exact (conj E Hl)].
Qed.

(** A process that writes a byte of its last argument. *)
#[local] Instance writing_host : Host := {|
  spawn _ args files := (Exited "exit status: 0" true, <[("out/", "new.zkey")%string := [Z.of_nat (nat_of_ascii (default "0"%char (last (chars (default EmptyString (last args))))))]]> files);
  seconds _ := "0.01"%string;
  directory_len _ := None;
  modified _ := None;
  current_dir := None;
  glob_paths _ := None;
  try_quote s := Some s;
|}.

Definition sample_console : Console :=
  {| cn_disk := {| dk_files := list_to_map [((EmptyString, "c.r1cs"), [1]); ((EmptyString, "p.ptau"), [2]); ((EmptyString, "old.zkey"), [3])]%string; dk_ops := 0; dk_seen := [] |}; cn_lines := []; cn_runs := [] |}.

Definition sample_contribution : ContributeArgs :=
  {| co_zkey := (EmptyString, "old.zkey"); co_circuits := Some (EmptyString, "c.r1cs"); co_ptau := (EmptyString, "p.ptau"); co_output := ("out/", "new.zkey"); co_name := "alice"; co_force := true |}%string.

Lemma entropy_never_shown_witness :
  BlindHost writing_host /\
  (contribute (H := writing_host) (Ok [1]) sample_contribution sample_console).1 = Ok tt /\
  dk_files (cn_disk (contribute (H := writing_host) (Ok [1]) sample_contribution sample_console).2) <> ∅ /\
  cn_lines (contribute (H := writing_host) (Ok [1]) sample_contribution sample_console).2 = cn_lines (contribute (H := writing_host) (Ok [2]) sample_contribution sample_console).2.
Proof.
  assert (BlindHost writing_host) as HB.
  { intros program args args' f g _ Hs. split; [reflexivity |]. intros p. cbn [spawn writing_host snd]. destruct (decide (p = ("out/", "new.zkey")%string)) as [->|Hp].
    - rewrite !lookup_insert_eq. reflexivity.
    - rewrite !lookup_insert_ne by (intros E; apply Hp; symmetry; exact E). apply Hs. }
  split; [exact HB |]. split; [vm_compute; reflexivity |]. split; [intros E; apply (f_equal (fun m => m !! (EmptyString, "old.zkey")%string)) in E; vm_compute in E; discriminate E |].
  exact (proj2 (entropy_never_shown writing_host HB [1] [2] sample_contribution sample_console)).
Defined.

(** C32. The export of the final key is whole.  Whatever operations of it fail, in every state of the
    disk each of the four outputs is as it was or holds the complete encoding of the key in the
    [.zkey] file, and no other file changes but the temporary names next to the outputs.  When it
    returns [Ok] the four files are there, nothing else has changed, and the proving key that was
    written reads back with the same verifying key.  When the [.zkey] file does not parse, or an
    output exists and [--force] is not given, it fails and changes nothing. *)
Theorem deployment_exported (H : Host) (F : Faults) (B : BigUintText) (K : ArkKeys) (pid : N) (args : ExportDeploymentArgs) (w : Console) :
  let '(r, w') := export_deployment pid args w in
  let files := dk_files (cn_disk w) in
  match key_in files (ed_zkey args) with
  | Some pk =>
      saw (within pid files (outputs args pk)) (cn_disk w) (cn_disk w') /\ within pid files (outputs args pk) (dk_files (cn_disk w')) /\
      (is_ok r = true ->
       dk_files (cn_disk w') = outputs args pk ∪ files /\ (forall s, s ∈ suffixes -> is_Some (outputs args pk !! output_path args s)) /\
       exists written pk', outputs args pk !! pk_path args = Some written /\ deserialize_compressed_unchecked written = Some pk' /\
         vk_to_snarkjs_json (pk_vk pk') = vk_to_snarkjs_json (pk_vk pk))
  | None => is_ok r = false /\ dk_files (cn_disk w') = files
  end /\
  (refused args files -> is_ok r = false /\ dk_files (cn_disk w') = files).
Proof.
  pose proof (export_outcome pid args w) as [Hkey Hrefused]. destruct (export_deployment pid args w) as [r w']. cbn [fst snd] in *. split; [| exact Hrefused].
  destruct (key_in _ _) as [pk|]; [| exact Hkey]. destruct Hkey as [[Hs Hw] Hok]. exact (conj Hs (conj Hw Hok)).
Qed.
