(* ===== verification/Disclosure.v ===== *)
(** * Selective disclosure ([sdk/types/src/disclosure.rs], [sdk/disclosure/src/lib.rs])

    A receipt shows that its holder owns notes of the pool to an authority: a Groth16 proof
    whose public inputs are pool roots, note commitments and a hash of the context.  Here are
    the schema checks of receipts, the context hash, the registry of circuits and the
    verification of receipts.  A [str] is the list of its bytes; SHA-256, the [hex] crate and
    Groth16 are parameters. *)

From Stdlib Require Import Ascii.
From S2P Require Import Prelude Ints Amounts Hashes ProverMonad R1cs Prover.

Definition str (s : string) : list ascii := String.list_ascii_of_string s.

(** [hex::decode]; encoding is [hex_encode] of [Amounts]. *)
Class HexVec : Type := hex_decode : list ascii -> option bytes.

(** ** Constants *)

Definition DISCLOSURE_RECEIPT_VERSION : Z := 1.
Definition SELECTIVE_DISCLOSURE_1_CIRCUIT : list ascii := str "selectiveDisclosure_1".
Definition SELECTIVE_DISCLOSURE_1_LEVELS : Z := 10.
Definition SELECTIVE_DISCLOSURE_1_N_NOTES : Z := 1.
Definition COMPRESSED_GROTH16_PROOF_BYTES : nat := 128.
Definition CONTEXT_HASH_DOMAIN : bytes := (fun c => Z.of_nat (nat_of_ascii c)) <$> str "disclosure-context-v1".

(** ** Types *)

Record DisclosureCircuitMetadata : Type := {
  dm_name : list ascii;
  dm_levels : Z;
  dm_n_notes : Z;
  dm_vk_hash : list ascii;
}.

Record DisclosureContext : Type := {
  dc_network : list ascii;
  dc_pool_address : list ascii;
  dc_authority_label : list ascii;
  dc_authority_identity_payload_hex : list ascii;
  dc_purpose : list ascii;
  dc_context_nonce : Field;
}.

Record DisclosurePublicInputs : Type := {
  dp_roots : list Field;
  dp_note_commitments : list Field;
  dp_ext_context_hash : Field;
}.

Record DisclosureReceipt : Type := {
  dr_version : Z;
  dr_circuit : DisclosureCircuitMetadata;
  dr_context : DisclosureContext;
  dr_public_inputs : DisclosurePublicInputs;
  dr_proof_compressed_hex : list ascii;
  dr_issued_at : list ascii;
}.

Record DisclosureVerificationReport : Type := {
  proof_verified : bool;
  context_verified : bool;
  known_root_status : bool;
}.

Definition is_fully_verified (r : DisclosureVerificationReport) : bool :=
  proof_verified r && context_verified r && known_root_status r.

#[export] Instance DisclosureCircuitMetadata_eq_dec : EqDecision DisclosureCircuitMetadata.
Proof. solve_decision. Defined.

Inductive DisclosureError : Type :=
| UnsupportedVersionD                       (** "Unsupported disclosure receipt version" *)
| EmptyField (name : string)                (** "{name} cannot be empty" *)
| ZeroField (name : string)                 (** "Circuit {name} cannot be zero" *)
| NoPrefix (name : string)                  (** "{name}: expected 0x prefix" *)
| EmptyHex (name : string)                  (** "{name}: hex payload cannot be empty" *)
| OddHex (name : string)                    (** "{name}: hex payload must have even length" *)
| UppercaseHex (name : string)              (** "{name}: expected lowercase hex" *)
| InvalidHex (name : string)                (** "{name}: invalid hex: {e}" *)
| HexBytes (name : string) (expected got : nat) (** "{name}: expected {} bytes, got {}" *)
| RootsLength                               (** "Roots length does not match n_notes" *)
| CommitmentsLength                         (** "note_commitments length does not match n_notes" *)
| MetadataMismatch                          (** "Disclosure receipt circuit metadata mismatch" *)
| UnknownPublicInput (name : list ascii)    (** "Unknown public input `{other}` in circuit `{}` order" *)
| VkHashMismatch                            (** "Verifying key hash mismatch" *)
| UnknownCircuit (name : list ascii)        (** "Unknown disclosure circuit: {}" *)
| ProofDidNotVerify                         (** "Generated disclosure proof did not verify" *)
| DE_Proof (e : ProofError)                 (** an error of the prover *)
| DE_Callback.                              (** the caller's predicate failed *)

(** ** Schema checks *)

Definition is_upper (c : ascii) : bool := let v := nat_of_ascii c in (65 <=? v)%nat && (v <=? 90)%nat.

(** [value.strip_prefix("0x")]. *)
Definition after_0x (s : list ascii) : option (list ascii) :=
  match s with
  | x :: y :: r => if bool_decide (x = "0"%char /\ y = "x"%char) then Some r else None
  | _ => None
  end.

Definition fail_when (b : bool) (e : DisclosureError) : result DisclosureError unit := if b then Err e else Ok tt.

Definition is_empty (s : list ascii) : bool := bool_decide (s = []).

Section schema.
Context {HV : HexVec}.

Definition parse_0x_hex (name : string) (value : list ascii) : result DisclosureError bytes :=
  hex_value ← ok_or (after_0x value) (NoPrefix name);
  fail_when (is_empty hex_value) (EmptyHex name);;
  fail_when (negb (bool_decide (length hex_value mod 2 = 0)%nat)) (OddHex name);;
  fail_when (existsb is_upper hex_value) (UppercaseHex name);;
  ok_or (hex_decode hex_value) (InvalidHex name).

Definition parse_0x_hex_exact (name : string) (value : list ascii) (expected_bytes : nat) : result DisclosureError bytes :=
  b ← parse_0x_hex name value;
  fail_when (negb (bool_decide (length b = expected_bytes))) (HexBytes name expected_bytes (length b));;
  Ok b.

Definition DisclosureCircuitMetadata_validate (m : DisclosureCircuitMetadata) : result DisclosureError unit :=
  fail_when (is_empty (dm_name m)) (EmptyField "Circuit name");;
  fail_when (dm_levels m =? 0) (ZeroField "levels");;
  fail_when (dm_n_notes m =? 0) (ZeroField "n_notes");;
  parse_0x_hex_exact "vk_hash" (dm_vk_hash m) 32;;
  Ok tt.

Definition DisclosureContext_validate (c : DisclosureContext) : result DisclosureError unit :=
  fail_when (is_empty (dc_network c)) (EmptyField "Network");;
  fail_when (is_empty (dc_pool_address c)) (EmptyField "pool_address");;
  fail_when (is_empty (dc_authority_label c)) (EmptyField "authority_label");;
  parse_0x_hex "authority_identity_payload_hex" (dc_authority_identity_payload_hex c);;
  fail_when (is_empty (dc_purpose c)) (EmptyField "Purpose").

Definition DisclosurePublicInputs_validate (p : DisclosurePublicInputs) (n_notes : Z) : result DisclosureError unit :=
  fail_when (negb (zlength (dp_roots p) =? n_notes)) RootsLength;;
  fail_when (negb (zlength (dp_note_commitments p) =? n_notes)) CommitmentsLength.

Definition proof_compressed_bytes (r : DisclosureReceipt) : result DisclosureError bytes :=
  parse_0x_hex_exact "proof_compressed_hex" (dr_proof_compressed_hex r) COMPRESSED_GROTH16_PROOF_BYTES.

Definition DisclosureReceipt_validate (r : DisclosureReceipt) : result DisclosureError unit :=
  fail_when (negb (dr_version r =? DISCLOSURE_RECEIPT_VERSION)) UnsupportedVersionD;;
  DisclosureCircuitMetadata_validate (dr_circuit r);;
  DisclosureContext_validate (dr_context r);;
  DisclosurePublicInputs_validate (dr_public_inputs r) (dm_n_notes (dr_circuit r));;
  parse_0x_hex_exact "proof_compressed_hex" (dr_proof_compressed_hex r) COMPRESSED_GROTH16_PROOF_BYTES;;
  fail_when (is_empty (dr_issued_at r)) (EmptyField "issued_at").

End schema.

(** ** The context hash *)

Definition bytes_of (s : list ascii) : bytes := (fun c => Z.of_nat (nat_of_ascii c)) <$> s.

(** [feed_str]: the length as a little-endian [u64], then the bytes. *)
Definition feed_str (s : list ascii) : bytes := le_bytes 8 (zlength s) ++ bytes_of s.

Definition context_preimage (c : DisclosureContext) : bytes :=
  CONTEXT_HASH_DOMAIN ++ feed_str (dc_network c) ++ feed_str (dc_pool_address c) ++ feed_str (dc_authority_label c) ++
  feed_str (dc_authority_identity_payload_hex c) ++ feed_str (dc_purpose c) ++ Field_to_le_bytes (dc_context_nonce c).

Section disclosure.
Context {C : Crypto} {HV : HexVec} {HC : HexCodec} {AG : ArkGroth16}.

Definition derive_ext_context_hash (c : DisclosureContext) : result DisclosureError Field :=
  DisclosureContext_validate c;;
  Ok (Field_from_le_bytes_mod_order (sha256 (context_preimage c))).

Definition verify_receipt_context (r : DisclosureReceipt) : result DisclosureError bool :=
  expected ← derive_ext_context_hash (dr_context r);
  Ok (expected =? dp_ext_context_hash (dr_public_inputs r)).

(** [vk_hash_hex]; [verifying_key_hash] is the same function. *)
Definition vk_hash_hex (vk_bytes : bytes) : list ascii := "0"%char :: "x"%char :: hex_encode (sha256 vk_bytes).
Definition verifying_key_hash (vk_bytes : bytes) : list ascii := "0"%char :: "x"%char :: hex_encode (sha256 vk_bytes).

Definition validate_verifying_key_hash (vk_bytes : bytes) (expected_vk_hash : list ascii) : result DisclosureError bool :=
  fail_when (negb (bool_decide (verifying_key_hash vk_bytes = expected_vk_hash))) VkHashMismatch;;
  Ok true.

(** ** Registered circuits *)

Record CircuitArtifacts : Type := { ca_wasm : string; ca_r1cs : string; ca_proving_key : string; ca_verifying_key_json : string }.

Record RegisteredCircuit : Type := {
  rg_name : list ascii;
  rg_levels : Z;
  rg_n_notes : Z;
  rg_public_inputs_order : list (list ascii);
  rg_artifacts : CircuitArtifacts;
}.

Definition SELECTIVE_DISCLOSURE_1_PUBLIC_INPUTS_ORDER : list (list ascii) :=
  [str "roots"; str "noteCommitments"; str "extContextHash"].

Definition SELECTIVE_DISCLOSURE_1 : RegisteredCircuit :=
  {| rg_name := SELECTIVE_DISCLOSURE_1_CIRCUIT; rg_levels := SELECTIVE_DISCLOSURE_1_LEVELS;
     rg_n_notes := SELECTIVE_DISCLOSURE_1_N_NOTES; rg_public_inputs_order := SELECTIVE_DISCLOSURE_1_PUBLIC_INPUTS_ORDER;
     rg_artifacts := {| ca_wasm := "selectiveDisclosure_1.wasm"; ca_r1cs := "selectiveDisclosure_1.r1cs";
                        ca_proving_key := "selectiveDisclosure_1_proving_key.bin";
                        ca_verifying_key_json := "selectiveDisclosure_1_vk.json" |} |}.

Definition receipt_metadata (c : RegisteredCircuit) (vk_hash : list ascii) : DisclosureCircuitMetadata :=
  {| dm_name := rg_name c; dm_levels := rg_levels c; dm_n_notes := rg_n_notes c; dm_vk_hash := vk_hash |}.

Definition validate_receipt (c : RegisteredCircuit) (r : DisclosureReceipt) (expected_vk_hash : list ascii)
  : result DisclosureError unit :=
  DisclosureReceipt_validate r;;
  let expected := receipt_metadata c expected_vk_hash in
  DisclosureCircuitMetadata_validate expected;;
  fail_when (negb (bool_decide (dr_circuit r = expected))) MetadataMismatch.

(** The loop over the names; the capacity of the buffer fits for every [u32] count. *)
Fixpoint public_inputs_loop (order : list (list ascii)) (p : DisclosurePublicInputs) : result DisclosureError bytes :=
  match order with
  | [] => Ok []
  | name :: rest =>
      this ←
        (if bool_decide (name = str "roots") then Ok (concat (Field_to_le_bytes <$> dp_roots p))
         else if bool_decide (name = str "noteCommitments") then Ok (concat (Field_to_le_bytes <$> dp_note_commitments p))
         else if bool_decide (name = str "extContextHash") then Ok (Field_to_le_bytes (dp_ext_context_hash p))
         else Err (UnknownPublicInput name));
      rest ← public_inputs_loop rest p;
      Ok (this ++ rest)
  end.

Definition public_inputs_bytes (c : RegisteredCircuit) (r : DisclosureReceipt) : result DisclosureError bytes :=
  public_inputs_loop (rg_public_inputs_order c) (dr_public_inputs r).

Definition find_circuit (name : list ascii) : option RegisteredCircuit :=
  if bool_decide (name = SELECTIVE_DISCLOSURE_1_CIRCUIT) then Some SELECTIVE_DISCLOSURE_1 else None.

Definition validate_registered_receipt (r : DisclosureReceipt) (expected_vk_hash : list ascii) : result DisclosureError RegisteredCircuit :=
  circuit ← ok_or (find_circuit (dm_name (dr_circuit r))) (UnknownCircuit (dm_name (dr_circuit r)));
  validate_receipt circuit r expected_vk_hash;;
  Ok circuit.

Definition validate_and_serialize_receipt_public_inputs (r : DisclosureReceipt) (expected_vk_hash : list ascii) : result DisclosureError bytes :=
  circuit ← validate_registered_receipt r expected_vk_hash;
  public_inputs_bytes circuit r.

(** ** Proving and verifying *)

Record ProvedReceiptProof : Type := { prp_proof_compressed : bytes; prp_public_inputs : bytes }.

Definition prove_receipt_proof_with_prover (usize_bits : Z) (p : Prover) (witness_bytes : bytes) (rng : nat)
  : result DisclosureError ProvedReceiptProof :=
  proof_compressed ← map_err DE_Proof (prove_bytes p witness_bytes rng);
  public_inputs ← map_err DE_Proof (extract_public_inputs usize_bits p witness_bytes);
  ok ← map_err DE_Proof (Prover_verify p proof_compressed public_inputs);
  fail_when (negb ok) ProofDidNotVerify;;
  Ok {| prp_proof_compressed := proof_compressed; prp_public_inputs := public_inputs |}.

Definition prove_receipt_proof (usize_bits : Z) (proving_key_bytes r1cs_bytes witness_bytes : bytes) (rng : nat)
  : result DisclosureError ProvedReceiptProof :=
  prover ← map_err DE_Proof (Prover_new usize_bits proving_key_bytes r1cs_bytes);
  prove_receipt_proof_with_prover usize_bits prover witness_bytes rng.

Definition verify_receipt_proof (r : DisclosureReceipt) (vk_bytes : bytes) (expected_vk_hash : list ascii) : result DisclosureError bool :=
  validate_verifying_key_hash vk_bytes expected_vk_hash;;
  circuit ← validate_registered_receipt r expected_vk_hash;
  proof_bytes ← proof_compressed_bytes r;
  public_inputs ← public_inputs_bytes circuit r;
  map_err DE_Proof (groth16_verify_bytes vk_bytes proof_bytes public_inputs).

(** [for root in .. { if !is_known_root(root)? { return Ok(false) } } Ok(true)]. *)
Fixpoint known_roots_loop (is_known_root : Field -> result DisclosureError bool) (roots : list Field) : result DisclosureError bool :=
  match roots with
  | [] => Ok true
  | root :: rest => known ← is_known_root root; if negb known then Ok false else known_roots_loop is_known_root rest
  end.

Definition verify_receipt_known_roots_with (r : DisclosureReceipt) (expected_vk_hash : list ascii)
    (is_known_root : Field -> result DisclosureError bool) : result DisclosureError bool :=
  validate_registered_receipt r expected_vk_hash;;
  known_roots_loop is_known_root (dp_roots (dr_public_inputs r)).

Definition verify_receipt_report_with (r : DisclosureReceipt) (expected_vk_hash : list ascii)
    (verify_proof : DisclosureReceipt -> list ascii -> result DisclosureError bool) (context_ok : bool)
    (is_known_root : Field -> result DisclosureError bool) : result DisclosureError DisclosureVerificationReport :=
  validate_registered_receipt r expected_vk_hash;;
  proof_ok ← verify_proof r expected_vk_hash;
  known ← verify_receipt_known_roots_with r expected_vk_hash is_known_root;
  Ok {| proof_verified := proof_ok; context_verified := context_ok; known_root_status := known |}.

End disclosure.
