(* ===== verification/DisclosureFacts.v ===== *)
(** * Properties of selective disclosure

    Receipts have one textual form, their context hash binds every field of the context, and
    a report is fully verified exactly when every check of the receipt holds. *)

From Stdlib Require Import Ascii.
From stdpp Require Import pretty.
From S2P Require Import Prelude Ints Amounts Hashes Serialization ProverMonad Encryption Notes Flows FlowFacts.
From S2P Require Import R1cs Prover ProverFacts Disclosure.

(** ** The hex crate *)

Class HexVecLaws (HV : HexVec) (HC : HexCodec) : Prop := {
  (** without upper-case digits, a decodable text is the encoding of its bytes *)
  hex_decode_lower s b : hex_decode s = Some b -> existsb is_upper s = false -> s = hex_encode b /\ Forall is_byte b;
  hex_vec_decode_encode b : Forall is_byte b -> hex_decode (hex_encode b) = Some b;
  hex_encode_lower b : Forall is_byte b -> existsb is_upper (hex_encode b) = false;
  hex_vec_length b : length (hex_encode b) = (2 * length b)%nat;
}.

#[export] Instance ref_hex_vec : HexVec := fun s => nibbles_decode s (length s / 2).

Lemma nibble_value_lower c d : nibble_value c = Some d -> is_upper c = false -> c = nibble_char d /\ 0 <= d < 16.
Proof.
  intros H Hu.
  assert (match nibble_value c with
          | Some d => is_upper c || (bool_decide (c = nibble_char d) && (0 <=? d) && (d <? 16)) | None => true end = true) as Hb.
  { clear. destruct c as [[] [] [] [] [] [] [] []]; vm_compute; reflexivity. }
  rewrite H, Hu in Hb. cbn [orb] in Hb. rewrite !andb_true_iff, bool_decide_eq_true, Z.leb_le, Z.ltb_lt in Hb. tauto.
Qed.

Lemma nibble_char_lower d : 0 <= d < 16 -> is_upper (nibble_char d) = false.
Proof.
  intros H. assert (exists k, d = Z.of_nat k /\ (k < 16)%nat) as (k & -> & Hk) by (exists (Z.to_nat d); lia).
  do 16 (destruct k as [|k]; [reflexivity |]). lia.
Qed.

Lemma nibbles_decode_lower n s b :
  nibbles_decode s n = Some b -> existsb is_upper s = false -> s = nibbles_encode b /\ Forall is_byte b.
Proof.
  revert s b. induction n as [|n IH]; intros s b; [by destruct s; intros [= <-] |].
  destruct s as [|x [|y s]]; [done | done |]. cbn [nibbles_decode].
  intros (h & Hh & (l & Hl & (r & Hr & [= <-])%bind_Some)%bind_Some)%bind_Some Hu.
  cbn [existsb] in Hu. apply orb_false_iff in Hu as [Hux Hu]. apply orb_false_iff in Hu as [Huy Hu].
  destruct (nibble_value_lower _ _ Hh Hux) as [-> Hhb]. destruct (nibble_value_lower _ _ Hl Huy) as [-> Hlb].
  destruct (IH _ _ Hr Hu) as [-> Hb]. split; [| constructor; [unfold is_byte; lia | done]].
  cbn [nibbles_encode]. replace ((16 * h + l) / 16) with h; [replace ((16 * h + l) mod 16) with l; [done |] |].
  - apply (Z.mod_unique_pos _ _ h); lia.
  - apply (Z.div_unique_pos _ _ _ l); lia.
Qed.

#[export] Instance ref_hex_vec_laws : HexVecLaws ref_hex_vec ref_hex.
Proof.
  constructor.
  - intros s b. apply nibbles_decode_lower.
  - intros b Hb. unfold hex_decode, ref_hex_vec, hex_encode, ref_hex. rewrite (@hex_encode_length ref_hex ref_hex_laws b : length (nibbles_encode b) = (2 * length b)%nat).
    rewrite (Nat.mul_comm 2), Nat.div_mul by done. exact (@hex_decode_encode ref_hex ref_hex_laws b Hb).
  - induction 1 as [|x b Hx Hb IH]; [done |]. cbn [hex_encode ref_hex nibbles_encode existsb].
    destruct (nibbles_of_byte x Hx) as [Hh Hl]. rewrite !nibble_char_lower by done. exact IH.
  - exact (@hex_encode_length ref_hex ref_hex_laws).
Qed.

(** ** Schema checks as propositions *)

Lemma fail_when_Ok b e u : fail_when b e = Ok u <-> b = false.
Proof. unfold fail_when. destruct b, u; split; congruence. Qed.

Lemma fail_when_bind {A} b e (m : result DisclosureError A) a : (fail_when b e;; m) = Ok a <-> b = false /\ m = Ok a.
Proof. unfold fail_when. destruct b; cbn; [split; [done | by intros [? _]] | tauto]. Qed.

Lemma bind_unit {A B} (m : result DisclosureError A) (k : result DisclosureError B) b :
  (m;; k) = Ok b <-> (exists a, m = Ok a) /\ k = Ok b.
Proof. rewrite bind_Ok. split; [intros (a & ? & ?); eauto | intros [[a ?] ?]; eauto]. Qed.

Definition text_0x `{HexCodec} (b : bytes) : list ascii := "0"%char :: "x"%char :: hex_encode b.

Section schema.
Context {HV : HexVec} {HC : HexCodec} {HL : HexVecLaws HV HC}.

Lemma after_0x_Some s r : after_0x s = Some r <-> s = "0"%char :: "x"%char :: r.
Proof.
  unfold after_0x. destruct s as [|a [|b s]]; [done | done |]. case_bool_decide as H; split; intros E; simplify_eq; try done.
  - by destruct H as [-> ->].
  - tauto.
Qed.

Lemma parse_0x_hex_iff name s b :
  parse_0x_hex name s = Ok b <-> s = text_0x b /\ b <> [] /\ Forall is_byte b.
Proof.
  unfold parse_0x_hex, text_0x. rewrite bind_Ok. setoid_rewrite fail_when_bind. setoid_rewrite fail_when_bind. setoid_rewrite fail_when_bind.
  setoid_rewrite ok_or_Ok. setoid_rewrite after_0x_Some. unfold is_empty. split.
  - intros (r & -> & Hne%bool_decide_eq_false & _ & Hup & Hd). destruct (hex_decode_lower r b Hd Hup) as [-> Hb].
    split_and!; [done | | done]. intros ->. apply Hne. pose proof (hex_vec_length (HV := HV) []) as Hl. by destruct (hex_encode []).
  - intros (-> & Hne & Hb). exists (hex_encode b). pose proof (hex_vec_length (HV := HV) b) as Hl. split_and!.
    + done.
    + apply bool_decide_eq_false. intros E. rewrite E in Hl. destruct b; [done | cbn in Hl; lia].
    + apply negb_false_iff, bool_decide_eq_true. rewrite Hl, Nat.mul_comm. apply Nat.Div0.mod_mul.
    + by apply hex_encode_lower.
    + by apply hex_vec_decode_encode.
Qed.

Lemma parse_0x_hex_exact_iff name s n b :
  parse_0x_hex_exact name s n = Ok b <-> s = text_0x b /\ b <> [] /\ Forall is_byte b /\ length b = n.
Proof.
  unfold parse_0x_hex_exact. rewrite bind_Ok. setoid_rewrite parse_0x_hex_iff. setoid_rewrite fail_when_bind. split.
  - intros (x & (-> & Hne & Hb) & Hl%negb_false_iff%bool_decide_eq_true & [= ->]). done.
  - intros (-> & Hne & Hb & Hl). exists b. rewrite negb_false_iff, bool_decide_eq_true. done.
Qed.

(** Contexts and receipts that pass the schema checks. *)
Definition context_valid (c : DisclosureContext) : Prop :=
  dc_network c <> [] /\ dc_pool_address c <> [] /\ dc_authority_label c <> [] /\ dc_purpose c <> [] /\
  exists b, b <> [] /\ Forall is_byte b /\ dc_authority_identity_payload_hex c = text_0x b.

Lemma context_validate_iff c u : DisclosureContext_validate c = Ok u <-> context_valid c.
Proof.
  unfold DisclosureContext_validate, context_valid, is_empty. rewrite !fail_when_bind, bind_unit, fail_when_Ok, !bool_decide_eq_false.
  setoid_rewrite parse_0x_hex_iff. split.
  - intros (? & ? & ? & (b & ? & ? & ?) & ?). eauto 10.
  - intros (? & ? & ? & ? & b & ? & ? & ?). eauto 10.
Qed.

Record receipt_valid (r : DisclosureReceipt) (vk_hash : list ascii) (proof : bytes) : Prop := {
  rv_version : dr_version r = 1;
  rv_circuit : dr_circuit r = {| dm_name := SELECTIVE_DISCLOSURE_1_CIRCUIT; dm_levels := 10; dm_n_notes := 1; dm_vk_hash := vk_hash |};
  rv_vk_hash : exists h, vk_hash = text_0x h /\ length h = 32%nat /\ Forall is_byte h;
  rv_context : context_valid (dr_context r);
  rv_root : exists root, dp_roots (dr_public_inputs r) = [root];
  rv_commitment : exists commitment, dp_note_commitments (dr_public_inputs r) = [commitment];
  rv_proof : dr_proof_compressed_hex r = text_0x proof;
  rv_proof_bytes : length proof = 128%nat /\ Forall is_byte proof;
  rv_issued : dr_issued_at r <> [];
}.

Lemma singleton_length {A} (l : list A) : zlength l = 1 <-> exists x, l = [x].
Proof. unfold zlength. split; [| by intros [x ->]]. destruct l as [|x [|]]; cbn; [lia | eauto | lia]. Qed.

Lemma metadata_validate_iff m u :
  DisclosureCircuitMetadata_validate m = Ok u <->
  dm_name m <> [] /\ dm_levels m <> 0 /\ dm_n_notes m <> 0 /\ exists h, dm_vk_hash m = text_0x h /\ length h = 32%nat /\ Forall is_byte h.
Proof.
  unfold DisclosureCircuitMetadata_validate, is_empty. rewrite !fail_when_bind, bind_unit, bool_decide_eq_false, !Z.eqb_neq.
  setoid_rewrite parse_0x_hex_exact_iff. split.
  - intros (? & ? & ? & (h & ? & ? & ? & ?) & _). eauto 10.
  - intros (? & ? & ? & h & ? & Hl & ?). split_and!; [done .. | | by destruct u]. exists h. split_and!; [done | by intros -> | done | done].
Qed.

Lemma validate_registered_iff (C : Crypto) r vk_hash c :
  validate_registered_receipt r vk_hash = Ok c <->
  c = SELECTIVE_DISCLOSURE_1 /\ exists proof, receipt_valid r vk_hash proof.
Proof.
  unfold validate_registered_receipt, find_circuit, validate_receipt. rewrite bind_Ok. split.
  - intros (c' & Hf & H). apply ok_or_Ok in Hf.
    destruct (bool_decide (dm_name (dr_circuit r) = SELECTIVE_DISCLOSURE_1_CIRCUIT)); [| done]. injection Hf as <-.
    rewrite bind_unit in H. destruct H as [[[] H] [= <-]]. split; [done |].
    rewrite bind_unit in H. destruct H as [[[] Hr] H]. rewrite bind_unit, fail_when_Ok, negb_false_iff, bool_decide_eq_true in H.
    destruct H as [[[] Hm] Hc]. unfold DisclosureReceipt_validate in Hr.
    rewrite fail_when_bind, !bind_unit, fail_when_Ok in Hr. destruct Hr as (Hv & _ & [[] Hctx] & [[] Hp] & [proof Hpf] & Hi).
    apply context_validate_iff in Hctx. apply parse_0x_hex_exact_iff in Hpf as (? & ? & ? & ?).
    apply metadata_validate_iff in Hm as (_ & _ & _ & h & ? & ? & ?).
    unfold DisclosurePublicInputs_validate in Hp. rewrite fail_when_bind, fail_when_Ok, !negb_false_iff, !Z.eqb_eq, Hc in Hp.
    destruct Hp as [Hp1%singleton_length Hp2%singleton_length].
    exists proof. constructor; try done; [| by eauto |].
    + by apply negb_false_iff, Z.eqb_eq in Hv.
    + unfold is_empty in Hi. by apply bool_decide_eq_false in Hi.
  - intros (-> & proof & [Hv Hc (h & Hh & Hhl & Hhb) Hctx Hr Hcm Hp [Hpl Hpb] Hi]). exists SELECTIVE_DISCLOSURE_1. split.
    { rewrite ok_or_Ok, Hc. cbn [dm_name]. by rewrite bool_decide_true. }
    assert (DisclosureCircuitMetadata_validate (dr_circuit r) = Ok tt) as Hm.
    { rewrite Hc. apply metadata_validate_iff. cbn. split_and!; [done .. |]. eauto. }
    rewrite bind_unit. split; [| done]. exists tt. rewrite !bind_unit, fail_when_Ok, negb_false_iff, bool_decide_eq_true.
    split_and!; [exists tt | exists tt | done].
    + unfold DisclosureReceipt_validate. rewrite fail_when_bind, !bind_unit, fail_when_Ok. split_and!.
      * by apply negb_false_iff, Z.eqb_eq.
      * by eauto.
      * exists tt. by apply context_validate_iff.
      * exists tt. unfold DisclosurePublicInputs_validate. rewrite fail_when_bind, fail_when_Ok, !negb_false_iff, !Z.eqb_eq, Hc.
        by split; apply singleton_length.
      * exists proof. apply parse_0x_hex_exact_iff. split_and!; [done | by intros -> | done | done].
      * by apply bool_decide_eq_false.
    + rewrite Hc in Hm. exact Hm.
Qed.

End schema.

(** ** The context hash binds the context *)

Definition context_sized (c : DisclosureContext) : Prop :=
  zlength (dc_network c) < 2 ^ 64 /\ zlength (dc_pool_address c) < 2 ^ 64 /\ zlength (dc_authority_label c) < 2 ^ 64 /\
  zlength (dc_authority_identity_payload_hex c) < 2 ^ 64 /\ zlength (dc_purpose c) < 2 ^ 64 /\ in_field (dc_context_nonce c).

Lemma bytes_of_inj s t : bytes_of s = bytes_of t -> s = t.
Proof.
  unfold bytes_of. revert t. induction s as [|a s IH]; intros [|b t]; [done | done | done |]. rewrite !fmap_cons. intros [= H1 H2].
  apply IH in H2 as ->. f_equal. apply Nat2Z.inj in H1. rewrite <- (ascii_nat_embedding a), H1. apply ascii_nat_embedding.
Qed.

(** A length-delimited string is read back from the front of any bytes. *)
Lemma feed_str_inj s t r1 r2 :
  zlength s < 2 ^ 64 -> zlength t < 2 ^ 64 -> feed_str s ++ r1 = feed_str t ++ r2 -> s = t /\ r1 = r2.
Proof.
  intros Hs Ht E. unfold feed_str in E. rewrite <- !app_assoc in E. apply app_inj_1 in E as [El E]; [| by rewrite !length_le_bytes].
  assert (zlength s = zlength t) as Hl.
  { apply (f_equal le_value) in El. rewrite !le_value_bytes in El. change (256 ^ Z.of_nat 8) with (2 ^ 64) in El.
    rewrite !Z.mod_small in El by (unfold zlength in *; lia). done. }
  apply app_inj_1 in E as [Eb Er]; [| unfold bytes_of; rewrite !length_fmap; unfold zlength in Hl; lia].
  split; [by apply bytes_of_inj | done].
Qed.

Lemma context_preimage_inj c d :
  context_sized c -> context_sized d -> context_preimage c = context_preimage d -> c = d.
Proof.
  intros (N1 & N2 & N3 & N4 & N5 & N6) (M1 & M2 & M3 & M4 & M5 & M6) E. unfold context_preimage in E. apply app_inv_head in E.
  apply feed_str_inj in E as [E1 E]; [| done ..]. apply feed_str_inj in E as [E2 E]; [| done ..].
  apply feed_str_inj in E as [E3 E]; [| done ..]. apply feed_str_inj in E as [E4 E]; [| done ..].
  apply feed_str_inj in E as [E5 E]; [| done ..]. apply Field_to_le_bytes_inj in E; [| done ..].
  destruct c, d; cbn in *. by subst.
Qed.

(** ** Properties *)

(** The context hash is defined exactly on the contexts that pass the schema checks,
    where it is the SHA-256 of a preimage reduced to the field, and the preimage
    determines the context: two contexts (of strings below [2^64] bytes) with the same
    preimage are equal, so no text can be moved from one field to the next. *)
Theorem context_hash_binds (C : Crypto) (HV : HexVec) (HC : HexCodec) (HL : HexVecLaws HV HC) (c d : DisclosureContext) :
  ((exists f, derive_ext_context_hash c = Ok f) <-> context_valid c) /\
  (forall f, derive_ext_context_hash c = Ok f -> f = le_value (sha256 (context_preimage c)) mod BN_P /\ in_field f) /\
  (context_sized c -> context_sized d -> context_preimage c = context_preimage d -> c = d).
Proof.
  split_and!.
  - unfold derive_ext_context_hash. setoid_rewrite bind_unit. rewrite <- (context_validate_iff c tt). split.
    + by intros (f & ([] & H) & _).
    + intros H. eauto.
  - unfold derive_ext_context_hash. intros f. rewrite bind_unit. intros [_ [= <-]]. rewrite Field_mod_order_mod.
    split; [done | apply in_field_mod].
  - apply context_preimage_inj.
Qed.

Definition wit_context (network label : string) : DisclosureContext :=
  {| dc_network := str network; dc_pool_address := str "CPOOL"; dc_authority_label := str label;
     dc_authority_identity_payload_hex := str "0x01ff"; dc_purpose := str "audit"; dc_context_nonce := 7 |}.

Lemma context_hash_binds_witness :
  exists f, derive_ext_context_hash (C := ref_crypto) (wit_context "testnet" "tax") = Ok f /\ in_field f.
Proof.
  destruct (context_hash_binds ref_crypto ref_hex_vec ref_hex ref_hex_vec_laws (wit_context "testnet" "tax") (wit_context "testnet" "tax"))
    as (Hiff & Hf & _).
  destruct (proj2 Hiff) as [f E]; [| exact (ex_intro _ f (conj E (proj2 (Hf f E))))].
  split; [discriminate |]. split; [discriminate |]. split; [discriminate |]. split; [discriminate |].
  exists [1; 255]. split; [discriminate |]. split; [repeat constructor; discriminate | reflexivity].
Defined.

(** What the authority relies on. *)
Definition receipt_trustworthy `{Crypto, HexVec, HexCodec, ArkGroth16} (r : DisclosureReceipt) (vk : bytes) (vk_hash : list ascii)
    (known : Field -> result DisclosureError bool) : Prop :=
  vk_hash = verifying_key_hash vk /\
  (exists proof root commitment, receipt_valid r vk_hash proof /\
     dp_roots (dr_public_inputs r) = [root] /\ dp_note_commitments (dr_public_inputs r) = [commitment] /\
     groth16_verify_bytes vk proof (Field_to_le_bytes root ++ Field_to_le_bytes commitment ++
       Field_to_le_bytes (dp_ext_context_hash (dr_public_inputs r))) = Ok true /\
     known root = Ok true) /\
  le_value (sha256 (context_preimage (dr_context r))) mod BN_P = dp_ext_context_hash (dr_public_inputs r).

Section verification.
Context {C : Crypto} {HV : HexVec} {HC : HexCodec} {HL : HexVecLaws HV HC} {AG : ArkGroth16}.

Lemma public_inputs_bytes_eq r root commitment :
  dp_roots (dr_public_inputs r) = [root] -> dp_note_commitments (dr_public_inputs r) = [commitment] ->
  public_inputs_bytes SELECTIVE_DISCLOSURE_1 r =
  Ok (Field_to_le_bytes root ++ Field_to_le_bytes commitment ++ Field_to_le_bytes (dp_ext_context_hash (dr_public_inputs r))).
Proof.
  intros Hr Hc. unfold public_inputs_bytes. cbn [SELECTIVE_DISCLOSURE_1 rg_public_inputs_order SELECTIVE_DISCLOSURE_1_PUBLIC_INPUTS_ORDER public_inputs_loop].
  rewrite (bool_decide_true (str "roots" = str "roots")) by done.
  rewrite (bool_decide_false (str "noteCommitments" = str "roots")) by done.
  rewrite (bool_decide_true (str "noteCommitments" = str "noteCommitments")) by done.
  rewrite (bool_decide_false (str "extContextHash" = str "roots")) by done.
  rewrite (bool_decide_false (str "extContextHash" = str "noteCommitments")) by done.
  rewrite (bool_decide_true (str "extContextHash" = str "extContextHash")) by done.
  rewrite Hr, Hc. cbn [mbind result_bind fmap list_fmap concat]. by rewrite !app_nil_r.
Qed.

(** The proof of a receipt verifies exactly when the key has the hash, the receipt is
    valid and Groth16 accepts. *)
Lemma verify_receipt_proof_iff r vk vk_hash :
  verify_receipt_proof r vk vk_hash = Ok true <->
  vk_hash = verifying_key_hash vk /\
  exists proof root commitment, receipt_valid r vk_hash proof /\
    dp_roots (dr_public_inputs r) = [root] /\ dp_note_commitments (dr_public_inputs r) = [commitment] /\
    groth16_verify_bytes vk proof (Field_to_le_bytes root ++ Field_to_le_bytes commitment ++
       Field_to_le_bytes (dp_ext_context_hash (dr_public_inputs r))) = Ok true.
Proof.
  unfold verify_receipt_proof, validate_verifying_key_hash. rewrite bind_unit. setoid_rewrite fail_when_bind.
  setoid_rewrite negb_false_iff. setoid_rewrite bool_decide_eq_true. rewrite bind_Ok. split.
  - intros [(b & Hvk & _) (c & Hreg & H)]. apply (validate_registered_iff C) in Hreg as (-> & proof & Hv). split; [done |].
    apply bind_Ok in H as (proof' & Hp & H). apply bind_Ok in H as (inputs & Hin & H).
    unfold proof_compressed_bytes in Hp. apply parse_0x_hex_exact_iff in Hp as (Hp & _ & Hb & Hl).
    destruct (rv_root _ _ _ Hv) as [root Hr]. destruct (rv_commitment _ _ _ Hv) as [cm Hc].
    rewrite (public_inputs_bytes_eq r root cm Hr Hc) in Hin. injection Hin as <-.
    exists proof', root, cm. split_and!; [| done | done |].
    + destruct Hv. constructor; try done.
    + destruct (groth16_verify_bytes vk proof' _) as [b'|]; [| done]. cbn in H. congruence.
  - intros (-> & proof & root & cm & Hv & Hr & Hc & Hg). split; [by eauto |].
    exists SELECTIVE_DISCLOSURE_1. split; [apply (validate_registered_iff C); eauto |].
    rewrite bind_Ok. exists proof. split.
    { unfold proof_compressed_bytes. apply parse_0x_hex_exact_iff. destruct Hv. destruct rv_proof_bytes0 as [Hl Hb].
      split_and!; [done | by intros -> | done | done]. }
    rewrite bind_Ok. eexists. split; [by apply public_inputs_bytes_eq |]. by rewrite Hg.
Qed.

End verification.

(** C36. A report is fully verified exactly for a trustworthy receipt: the verifying key
    has the expected hash, the receipt passes every schema check and is of the registered
    circuit, Groth16 accepts its proof for its root, its commitment and its context hash
    in this order, the context hash is that of its context, and the pool knows the root. *)
Theorem receipt_report_exact (C : Crypto) (HV : HexVec) (HC : HexCodec) (HL : HexVecLaws HV HC) (AG : ArkGroth16)
    (r : DisclosureReceipt) (vk : bytes) (vk_hash : list ascii) (known : Field -> result DisclosureError bool) :
  (exists ctx rep, verify_receipt_context r = Ok ctx /\
     verify_receipt_report_with r vk_hash (fun r h => verify_receipt_proof r vk h) ctx known = Ok rep /\
     is_fully_verified rep = true) <->
  receipt_trustworthy r vk vk_hash known.
Proof.
  unfold verify_receipt_report_with, verify_receipt_known_roots_with, receipt_trustworthy. split.
  - intros (ctx & rep & Hctx & Hrep & Hfull). apply bind_unit in Hrep as [[c Hreg] Hrep].
    apply bind_Ok in Hrep as (pok & Hpok & Hrep). apply bind_Ok in Hrep as (kn & Hkn & [= <-]).
    unfold is_fully_verified in Hfull. cbn in Hfull. rewrite !andb_true_iff in Hfull. destruct Hfull as [[-> ->] ->].
    apply verify_receipt_proof_iff in Hpok as (Hvk & proof & root & cm & Hv & Hr & Hc & Hg).
    apply bind_unit in Hkn as [_ Hkn]. rewrite Hr in Hkn. cbn [known_roots_loop] in Hkn. apply bind_Ok in Hkn as (b & Hb & Hkn).
    destruct b; [| done]. unfold verify_receipt_context, derive_ext_context_hash in Hctx.
    apply bind_Ok in Hctx as (f & Hf & [= Heq]). apply bind_unit in Hf as [_ [= <-]]. apply Z.eqb_eq in Heq.
    rewrite Field_mod_order_mod in Heq. split_and!; [done | | done]. exists proof, root, cm. done.
  - intros (Hvk & (proof & root & cm & Hv & Hr & Hc & Hg & Hk) & Heq).
    assert (validate_registered_receipt r vk_hash = Ok SELECTIVE_DISCLOSURE_1) as Hreg by (apply (validate_registered_iff C); eauto).
    exists true, {| proof_verified := true; context_verified := true; known_root_status := true |}. split_and!; [| | done].
    + unfold verify_receipt_context, derive_ext_context_hash.
      rewrite (proj2 (context_validate_iff (dr_context r) tt)) by apply Hv. cbn [mbind result_bind].
      rewrite Field_mod_order_mod, Heq, Z.eqb_refl. done.
    + rewrite Hreg. cbn [mbind result_bind].
      rewrite (proj2 (verify_receipt_proof_iff r vk vk_hash)) by (split; [done |]; exists proof, root, cm; done).
      cbn [mbind result_bind]. rewrite Hr. cbn [known_roots_loop]. rewrite Hk. done.
Qed.

(** A Groth16 scheme that accepts everything, for three public inputs. *)
Definition accepting_ark : ArkGroth16 := {|
  ProvingKey := unit; ArkVk := unit; ArkPvk := unit;
  pk_deserialize _ := Some tt; vk_deserialize _ := Some tt; vk_serialize _ := Some []; pk_vk _ := tt;
  gamma_abc_len _ := 4%nat; process_vk _ := Some tt;
  groth16_prove _ _ _ := None; verify_with_processed_vk _ _ _ := Some true;
  proof_deserialize _ := Some {| ark_a := {| g1_x := 0; g1_y := 0 |};
    ark_b := {| g2_x := {| c0 := 0; c1 := 0 |}; g2_y := {| c0 := 0; c1 := 0 |} |}; ark_c := {| g1_x := 0; g1_y := 0 |} |};
  g1_serialize _ := None; g2_serialize _ := None;
|}.

Definition wit_hash : list ascii := verifying_key_hash (C := ref_crypto) (HC := ref_hex) [].
Definition wit_receipt : DisclosureReceipt :=
  {| dr_version := 1;
     dr_circuit := {| dm_name := SELECTIVE_DISCLOSURE_1_CIRCUIT; dm_levels := 10; dm_n_notes := 1; dm_vk_hash := wit_hash |};
     dr_context := wit_context "testnet" "tax";
     dr_public_inputs := {| dp_roots := [5]; dp_note_commitments := [6];
       dp_ext_context_hash := le_value (sha256 (Crypto := ref_crypto) (context_preimage (wit_context "testnet" "tax"))) mod BN_P |};
     dr_proof_compressed_hex := text_0x (H := ref_hex) (replicate 128 1); dr_issued_at := str "2025" |}.

Lemma receipt_report_exact_witness :
  exists ctx rep, verify_receipt_context (C := ref_crypto) (HV := ref_hex_vec) wit_receipt = Ok ctx /\
     verify_receipt_report_with (HV := ref_hex_vec) wit_receipt wit_hash
       (fun r h => verify_receipt_proof (C := ref_crypto) (HV := ref_hex_vec) (HC := ref_hex) (AG := accepting_ark) r [] h)
       ctx (fun _ => Ok true) = Ok rep /\ is_fully_verified rep = true.
Proof.
  apply (receipt_report_exact ref_crypto ref_hex_vec ref_hex ref_hex_vec_laws accepting_ark wit_receipt [] wit_hash (fun _ => Ok true)).
  split; [reflexivity |]. split; [| reflexivity]. exists (replicate 128 1), 5, 6. split; [| repeat split; vm_compute; reflexivity].
  constructor.
  - reflexivity.
  - reflexivity.
  - exists (le_bytes 32 0). split; [vm_compute; reflexivity |]. split; [reflexivity | apply le_bytes_bytes].
  - split; [discriminate |]. split; [discriminate |]. split; [discriminate |]. split; [discriminate |].
    exists [1; 255]. split; [discriminate |]. split; [repeat constructor; discriminate | reflexivity].
  - exists 5. reflexivity.
  - exists 6. reflexivity.
  - reflexivity.
  - split; [reflexivity |]. apply Forall_replicate. split; [discriminate | reflexivity].
  - discriminate.
Defined.

(** ** The disclosure circuit's inputs *)

Record disclosure_typed (p : SelectiveDisclosure1Params) : Prop := {
  st_root : in_field (sd_root p);
  st_commitment : in_field (sd_note_commitment p);
  st_amount : is_note (sd_note_amount p);
  st_private : length (sd_note_private_key p) = 32%nat;
  st_blinding : in_field (sd_note_blinding p);
  st_indices : in_field (sd_merkle_path_indices p);
  st_path : Forall in_field (sd_merkle_path_elements p);
  st_context : in_field (sd_ext_context_hash p);
}.

Definition disclosure_signals (p : SelectiveDisclosure1Params) : list (string * InputValue) :=
  [("roots", signals id [sd_root p]); ("noteCommitments", signals id [sd_note_commitment p]);
   ("extContextHash", signal (sd_ext_context_hash p)); ("inAmount", signals id [sd_note_amount p]);
   ("inPrivateKey", signals scalar_of [sd_note_private_key p]); ("inBlinding", signals id [sd_note_blinding p]);
   ("inPathIndices", signals id [sd_merkle_path_indices p]); ("inPathElements", signals id (sd_merkle_path_elements p))]%string.

(** The builder never fails on typed arguments, and its public signals are the public
    inputs of the receipt. *)
Lemma selective_disclosure_run p n :
  disclosure_typed p ->
  selective_disclosure_1 p n =
  Some (Ok {| da_circuit_inputs := list_to_map (disclosure_signals p); da_ext_context_hash := sd_ext_context_hash p |}, n).
Proof.
  intros [H1 H2 H3 H4 H5 H6 H7 H8]. apply note_in_field in H3. unfold selective_disclosure_1, note_amount_to_field, Field_from_note, Field_to_le_bytes.
  erewrite rm_bind_step; [| apply field_to_circuit_hex_run, H1]. erewrite rm_bind_step; [| apply field_to_circuit_hex_run, H2].
  erewrite rm_bind_step; [| apply field_to_circuit_hex_run, H8]. erewrite rm_bind_step; [| apply field_to_circuit_hex_run, H3].
  erewrite rm_bind_step; [| apply lift_hex_run, H4]. erewrite rm_bind_step; [| apply lift_hex_run, length_le_bytes].
  erewrite rm_bind_step; [| apply field_to_circuit_hex_run, H6]. erewrite rm_bind_step; [| apply fields_to_circuit_hex_run, H7].
  rewrite (scalar_of_le_bytes _ H5), <- set_all_list_to_map; [reflexivity |].
  match goal with |- NoDup ?l => let l' := eval cbv -[signal signals] in l in change (NoDup l') end.
  apply (bool_decide_unpack _). vm_compute. exact I.
Qed.
