(* ===== verification/Combination.v ===== *)
(** * Coin selection ([sdk/tx-planner/src/plan/combination.rs], [plan/error.rs])

    Which of the wallet's notes to spend for an amount: the two-pointer scan for pairs,
    the scan for single notes, the bounded depth-first search for three notes and more,
    and the greedy fallback; with what each finds. *)

From stdpp Require Import sorting.
From S2P Require Import Prelude Ints Amounts.

Inductive PlanError : Type :=
| NoSpendableNotes
| NoCombination
| TooManyNotes (selected max_notes : nat)
| NoteIndexOutOfRange (index : nat)
| InputAmountOverflow
| InternalError (reason : string)
| InvalidPlan
| CommitmentNotFound (commitment : Field)
| NoteAmountMismatch (commitment : Field) (actual expected : NoteAmount)
| NoNoteForAmount (amount : NoteAmount)
| AmbiguousNoteForAmount (amount : NoteAmount)
| PlanPanic.      (** an index out of bounds: the code panics *)

Definition TRANSACTION_LIMIT : nat := 10.

Inductive CombinationResult : Type :=
| TwoExact (i j : nat)
| OneExact (i : nat)
| TwoOvershoot (i j : nat) (excess : NoteAmount)
| OneOvershoot (i : nat) (excess : NoteAmount)
| ExactK (indices : list nat)
| Overshoot (indices : list nat) (excess : NoteAmount)
| Impossible.

#[export] Instance CombinationResult_eq_dec : EqDecision CombinationResult.
Proof. solve_decision. Defined.

(** [sort_unstable_by_key(|&(_, x)| x)]: some order of the list by amount; which one of
    equal amounts comes first is not specified. *)
Class SortByAmount : Type := sort_by_amount : list (nat * Z) -> list (nat * Z).

Definition ascending (l : list (nat * Z)) : Prop :=
  forall p q x y, (p <= q)%nat -> l !! p = Some x -> l !! q = Some y -> x.2 <= y.2.

Class SortByAmountLaws (s : SortByAmount) : Prop := {
  sort_permutation : forall l, sort_by_amount l ≡ₚ l;
  sort_ascending : forall l, ascending (sort_by_amount l);
}.

(** ** Pairs *)

Inductive TwoScan : Type :=
| TwoScanExact (i j : nat)
| TwoScanOvershoot (i j : nat) (excess : NoteAmount)
| TwoScanMiss.

(** The [while left < right] loop; every round moves one end, so that [length] rounds are
    enough. *)
Fixpoint two_scan_loop (fuel : nat) (sorted : list (nat * Z)) (goal : NoteAmount) (left right : nat)
    (best_overshoot : option (nat * nat * NoteAmount)) : result PlanError TwoScan :=
  match fuel with
  | O => Err PlanPanic
  | S fuel =>
      if (left <? right)%nat then
        x ← ok_or (sorted !! left) PlanPanic;
        y ← ok_or (sorted !! right) PlanPanic;
        match NoteAmount_checked_add x.2 y.2 with
        | None => Err InputAmountOverflow
        | Some sum =>
            match NoteAmount_checked_sub sum goal with
            | None => two_scan_loop fuel sorted goal (S left) right best_overshoot
            | Some diff =>
                if NoteAmount_is_zero diff then Ok (TwoScanExact x.1 y.1)
                else if NoteAmount_ZERO <? diff then
                  let best_overshoot :=
                    match best_overshoot with
                    | None => Some (x.1, y.1, diff)
                    | Some (_, _, excess) => if diff <? excess then Some (x.1, y.1, diff) else best_overshoot
                    end in
                  if (right =? 0)%nat then Err (InternalError "two-scan: right index underflow")
                  else two_scan_loop fuel sorted goal left (right - 1) best_overshoot
                else two_scan_loop fuel sorted goal left right best_overshoot
            end
        end
      else
        Ok (match best_overshoot with
            | Some (i, j, excess) => TwoScanOvershoot i j excess
            | None => TwoScanMiss
            end)
  end.

Definition two_scan (sorted : list (nat * Z)) (goal : NoteAmount) : result PlanError TwoScan :=
  if (length sorted <? 2)%nat then Ok TwoScanMiss
  else two_scan_loop (length sorted) sorted goal 0 (length sorted - 1) None.

(** ** Single notes *)

Inductive OneScan : Type :=
| OneScanExact (i : nat)
| OneScanOvershoot (i : nat) (excess : NoteAmount)
| OneScanMiss.

Fixpoint one_scan (sorted : list (nat * Z)) (goal : NoteAmount) : OneScan :=
  match sorted with
  | [] => OneScanMiss
  | (idx, x) :: sorted =>
      match NoteAmount_checked_sub x goal with
      | None => one_scan sorted goal
      | Some diff =>
          if NoteAmount_is_zero diff then OneScanExact idx
          else if NoteAmount_ZERO <? diff then OneScanOvershoot idx diff
          else one_scan sorted goal
      end
  end.

(** ** Three notes and more *)

Inductive KScan : Type :=
| KScanExact (indices : list nat)
| KScanOvershoot (indices : list nat) (excess : NoteAmount)
| KScanMiss.

(** The mutable part of [DfsContext]. *)
Record DfsState : Type := {
  iteration_limit : Z;
  path : list nat;
  best_overshoot : option (NoteAmount * list nat);
}.

(** The search from an index on: [candidates] are the ones from that index. *)
Fixpoint dfs (goal : NoteAmount) (target_k : nat) (candidates : list (nat * Z)) (sum : NoteAmount) (st : DfsState)
  : result PlanError (bool * DfsState) :=
  if (length (path st) =? target_k)%nat then
    match NoteAmount_checked_sub sum goal with
    | None => Ok (false, st)
    | Some diff =>
        if NoteAmount_is_zero diff then Ok (true, st)
        else if (NoteAmount_ZERO <? diff) && (match best_overshoot st with None => true | Some (min_ov, _) => diff <? min_ov end) then
          Ok (false, {| iteration_limit := iteration_limit st; path := path st; best_overshoot := Some (diff, path st) |})
        else Ok (false, st)
    end
  else
    match candidates with
    | [] => Ok (false, st)
    | (note_index, note_amount) :: rest =>
        if (goal <=? sum) || (iteration_limit st <=? 0) then Ok (false, st)
        else
          let pushed := {| iteration_limit := iteration_limit st - 1; path := path st ++ [note_index];
                           best_overshoot := best_overshoot st |} in
          match NoteAmount_checked_add sum note_amount with
          | None => Err InputAmountOverflow
          | Some with_note =>
              r ← dfs goal target_k rest with_note pushed;
              let '(found, st) := r in
              if found : bool then Ok (true, st)
              else
                dfs goal target_k rest sum
                  {| iteration_limit := iteration_limit st; path := removelast (path st); best_overshoot := best_overshoot st |}
          end
    end.

Fixpoint greedy_loop (rev_sorted : list (nat * Z)) (goal total : NoteAmount) (picks : list nat) : result PlanError KScan :=
  match rev_sorted with
  | [] => Ok KScanMiss
  | (idx, x) :: rev_sorted =>
      match NoteAmount_checked_add total x with
      | None => Err InputAmountOverflow
      | Some total =>
          let picks := picks ++ [idx] in
          if goal <=? total then
            excess ← ok_or (NoteAmount_checked_sub total goal) (InternalError "greedy: excess invariant");
            Ok (KScanOvershoot picks excess)
          else greedy_loop rev_sorted goal total picks
      end
  end.

Definition greedy_impl (sorted : list (nat * Z)) (goal : NoteAmount) : result PlanError KScan :=
  greedy_loop (rev sorted) goal NoteAmount_ZERO [].

(** [for k in 3..=max_k]; [None] when the loop ends without a return. *)
Fixpoint k_loop (ks : list nat) (candidates_desc : list (nat * Z)) (goal : NoteAmount) : result PlanError (option KScan) :=
  match ks with
  | [] => Ok None
  | k :: ks =>
      r ← dfs goal k candidates_desc NoteAmount_ZERO {| iteration_limit := 5000; path := []; best_overshoot := None |};
      let '(found, st) := r in
      if found : bool then Ok (Some (KScanExact (path st)))
      else
        match best_overshoot st with
        | Some (excess, overshoot_path) => Ok (Some (KScanOvershoot overshoot_path excess))
        | None => k_loop ks candidates_desc goal
        end
  end.

Definition k_scan (sorted : list (nat * Z)) (goal : NoteAmount) : result PlanError KScan :=
  let candidates_desc := rev (filter (fun e => e.2 < goal) sorted) in
  r ← (if (3 <=? length candidates_desc)%nat then
         let max_k := Nat.min (length candidates_desc) TRANSACTION_LIMIT in
         k_loop (seq 3 (max_k - 2)) candidates_desc goal
       else Ok None);
  match r with
  | Some k => Ok k
  | None => greedy_impl sorted goal
  end.

(** ** The selection *)

Definition find_combination {s : SortByAmount} (values : list NoteAmount) (goal : NoteAmount) : result PlanError CombinationResult :=
  match values with
  | [] => Ok Impossible
  | _ =>
      let sorted_vals := sort_by_amount (imap pair values) in
      two ← two_scan sorted_vals goal;
      match two with
      | TwoScanExact i j => Ok (TwoExact i j)
      | _ =>
          let one := one_scan sorted_vals goal in
          match one with
          | OneScanExact i => Ok (OneExact i)
          | _ =>
              match two with
              | TwoScanOvershoot i j excess => Ok (TwoOvershoot i j excess)
              | _ =>
                  match one with
                  | OneScanOvershoot i excess => Ok (OneOvershoot i excess)
                  | _ =>
                      k ← k_scan sorted_vals goal;
                      Ok (match k with
                          | KScanExact indices => ExactK indices
                          | KScanOvershoot indices excess => Overshoot indices excess
                          | KScanMiss => Impossible
                          end)
                  end
              end
          end
      end
  end.
