(* ===== verification/CombinationFacts.v ===== *)
(** * What coin selection finds

    Every combination returned is made of distinct notes of the wallet and has the sum it
    says; the scan for pairs is exhaustive, so that an exact pair is found whenever there
    is one and an overshooting pair has the least excess; and only a wallet too small for
    the amount is told that nothing is possible. *)

From stdpp Require Import sorting.
From S2P Require Import Prelude Ints Amounts Combination.

(** ** Sums over picked notes *)

Definition value_at (values : list Z) (i : nat) : Z := default 0 (values !! i).

Fixpoint sum_at (values : list Z) (ids : list nat) : Z :=
  match ids with
  | [] => 0
  | i :: ids => value_at values i + sum_at values ids
  end.

(** Distinct indices of the wallet. *)
Definition picked (values : list Z) (ids : list nat) : Prop := NoDup ids /\ Forall (fun i => (i < length values)%nat) ids.

Fixpoint total (l : list Z) : Z := match l with [] => 0 | x :: l => x + total l end.

Lemma sum_at_app values ids js : sum_at values (ids ++ js) = sum_at values ids + sum_at values js.
Proof. induction ids as [|i ids IH]; cbn [sum_at app]; lia. Qed.

Lemma total_app l1 l2 : total (l1 ++ l2) = total l1 + total l2.
Proof. induction l1 as [|x l1 IH]; cbn [total app]; lia. Qed.

#[export] Instance total_perm : Proper ((≡ₚ) ==> eq) total.
Proof. induction 1; cbn [total]; lia. Qed.

(** The entries of the sorted list are the notes with their indices. *)
Record indexed (values : list Z) (l : list (nat * Z)) : Prop := {
  indexed_nodup : NoDup l.*1;
  indexed_value : forall e, e ∈ l -> values !! e.1 = Some e.2;
}.

Lemma imap_pair_indexed (values : list Z) : indexed values (imap pair values).
Proof.
  split.
  - assert ((imap pair values).*1 = seq 0 (length values)) as ->; [| apply NoDup_seq].
    rewrite fmap_imap. change (imap (fun (n : nat) (_ : Z) => n) values = seq 0 (length values)).
    by rewrite (imap_seq_0 values (fun i => i)), list_fmap_id.
  - intros e (i & Hi)%list_elem_of_lookup. rewrite list_lookup_imap in Hi.
    destruct (values !! i) as [x|] eqn:E; [| done]. cbn in Hi. by injection Hi as <-.
Qed.

Lemma indexed_perm values l l' : l ≡ₚ l' -> indexed values l' -> indexed values l.
Proof. intros Hp [Hn Hv]. split; [by rewrite Hp | intros e; rewrite Hp; apply Hv]. Qed.

Lemma indexed_cons values e l : indexed values (e :: l) -> values !! e.1 = Some e.2 /\ (e.1 ∉ l.*1) /\ indexed values l.
Proof.
  intros [Hn Hv]. rewrite fmap_cons, NoDup_cons in Hn. destruct Hn as [Hni Hn].
  split_and!; [apply Hv; by left | done | split; [done | intros; apply Hv; by right]].
Qed.

Lemma indexed_filter values (P : nat * Z -> Prop) `{forall x, Decision (P x)} l : indexed values l -> indexed values (filter P l).
Proof.
  intros [Hn Hv]. split; [| intros e [_ He]%list_elem_of_filter; by apply Hv]. clear Hv.
  induction l as [|e l IH]; [done |]. rewrite fmap_cons, NoDup_cons in Hn. destruct Hn as [Hni Hn]. rewrite filter_cons.
  destruct (decide (P e)); [| by apply IH]. rewrite fmap_cons, NoDup_cons. split; [| by apply IH].
  intros (f & Ef & [_ Hf]%list_elem_of_filter)%list_elem_of_fmap. apply Hni. rewrite Ef. by apply list_elem_of_fmap_2.
Qed.

Lemma indexed_rev values l : indexed values l -> indexed values (rev l).
Proof. apply indexed_perm. symmetry. apply Permutation_rev. Qed.

Lemma indexed_total values l : l ≡ₚ imap pair values -> total l.*2 = total values.
Proof.
  intros Hp. rewrite Hp, fmap_imap. f_equal. apply list_eq. intros i. rewrite list_lookup_imap. by destruct (values !! i).
Qed.

Lemma indexed_lookup values l p e : indexed values l -> l !! p = Some e -> value_at values e.1 = e.2 /\ (e.1 < length values)%nat.
Proof.
  intros [_ Hv] He. specialize (Hv e). rewrite list_elem_of_lookup in Hv. specialize (Hv ltac:(eauto)).
  split; [unfold value_at; by rewrite Hv | by eapply lookup_lt_Some].
Qed.

Lemma indexed_distinct values l p q e f : indexed values l -> l !! p = Some e -> l !! q = Some f -> p <> q -> e.1 <> f.1.
Proof.
  intros [Hn _] He Hf Hpq Heq. apply Hpq. eapply (NoDup_lookup l.*1); [exact Hn | |].
  - by rewrite list_lookup_fmap, He.
  - rewrite list_lookup_fmap, Hf. cbn. by rewrite Heq.
Qed.

(** ** Pairs *)

(** An overshooting pair at two positions. *)
Definition pair_over (sorted : list (nat * Z)) (goal : Z) (i j : nat) (excess : Z) : Prop :=
  exists p q x y, (p < q)%nat /\ sorted !! p = Some x /\ sorted !! q = Some y /\ x.1 = i /\ y.1 = j /\
    x.2 + y.2 = goal + excess /\ 0 < excess.

Section two_scan.
Variables (sorted : list (nat * Z)) (goal : Z).

(** Every pair with one end outside the window is below the goal, or no better than the
    best overshoot so far. *)
Definition window_done (left right : nat) (best : option (nat * nat * Z)) : Prop :=
  forall p q x y, (p < q)%nat -> sorted !! p = Some x -> sorted !! q = Some y -> (p < left)%nat \/ (right < q)%nat ->
    x.2 + y.2 < goal \/ exists i j e, best = Some (i, j, e) /\ goal + e <= x.2 + y.2.

Definition best_ok (best : option (nat * nat * Z)) : Prop :=
  match best with None => True | Some (i, j, e) => pair_over sorted goal i j e end.

Definition two_scan_ok (r : TwoScan) : Prop :=
  match r with
  | TwoScanExact i j =>
      exists p q x y, (p < q)%nat /\ sorted !! p = Some x /\ sorted !! q = Some y /\ x.1 = i /\ y.1 = j /\ x.2 + y.2 = goal
  | TwoScanOvershoot i j e =>
      pair_over sorted goal i j e /\
      (forall p q x y, (p < q)%nat -> sorted !! p = Some x -> sorted !! q = Some y -> x.2 + y.2 < goal \/ goal + e <= x.2 + y.2)
  | TwoScanMiss => forall p q x y, (p < q)%nat -> sorted !! p = Some x -> sorted !! q = Some y -> x.2 + y.2 < goal
  end.

Hypotheses (Hasc : ascending sorted) (Hgoal : 0 <= goal).

Lemma window_left left right best x y :
  window_done left right best -> sorted !! left = Some x -> sorted !! right = Some y -> x.2 + y.2 < goal ->
  window_done (S left) right best.
Proof using Hasc.
  intros Hw Hx Hy Hlt p q a b Hpq Ha Hb Hout. destruct (decide (p < left \/ right < q)%nat) as [Ho | Ho]; [by eapply Hw |].
  assert (p = left) as -> by lia. left. simplify_eq. pose proof (Hasc q right b y ltac:(lia) Hb Hy). lia.
Qed.

Lemma window_right left right best best' x y e :
  window_done left right best -> sorted !! left = Some x -> sorted !! right = Some y -> x.2 + y.2 = goal + e ->
  (exists i j e', best' = Some (i, j, e') /\ e' <= e) ->
  (forall i j f, best = Some (i, j, f) -> exists i' j' f', best' = Some (i', j', f') /\ f' <= f) ->
  (left < right)%nat -> window_done left (right - 1) best'.
Proof using Hasc.
  intros Hw Hx Hy He (i & j & e' & -> & Hle) Hmono Hlr p q a b Hpq Ha Hb Hout.
  destruct (decide (p < left \/ right < q)%nat) as [Ho | Ho].
  - destruct (Hw p q a b Hpq Ha Hb Ho) as [? | (i0 & j0 & f & Hbest & Hf)]; [by left | right].
    destruct (Hmono _ _ _ Hbest) as (i1 & j1 & f1 & [= <- <- <-] & Hf1). do 3 eexists. split; [done | lia].
  - assert (q = right) as -> by lia. right. do 3 eexists. split; [done |]. simplify_eq.
    pose proof (Hasc left p x a ltac:(lia) Hx Ha). lia.
Qed.

Lemma two_scan_loop_ok fuel left right best r :
  (right < length sorted)%nat -> window_done left right best -> best_ok best ->
  two_scan_loop fuel sorted goal left right best = Ok r -> two_scan_ok r.
Proof using Hasc Hgoal.
  revert left right best. induction fuel as [|fuel IH]; intros left right best Hr Hw Hb; cbn [two_scan_loop]; [done |].
  destruct (Nat.ltb_spec left right) as [Hlr | Hlr].
  - destruct (lookup_lt_is_Some_2 sorted left) as [x Hx]; [lia |]. destruct (lookup_lt_is_Some_2 sorted right Hr) as [y Hy].
    rewrite Hx, Hy. cbn [ok_or mbind result_bind]. destruct (NoteAmount_checked_add x.2 y.2) as [sum|] eqn:Es; [| done].
    apply checked_add_Some in Es as [-> _]. destruct (NoteAmount_checked_sub (x.2 + y.2) goal) as [diff|] eqn:Ed.
    + apply checked_sub_Some in Ed as [-> Hle]. unfold NoteAmount_is_zero. destruct (Z.eqb_spec (x.2 + y.2 - goal) 0) as [E0 | E0].
      * intros [= <-]. exists left, right, x, y. split_and!; [lia | done .. | lia].
      * unfold NoteAmount_ZERO. rewrite (proj2 (Z.ltb_lt 0 _)) by lia. rewrite (proj2 (Nat.eqb_neq right 0)) by lia.
        assert (pair_over sorted goal x.1 y.1 (x.2 + y.2 - goal)) as Hpo.
        { exists left, right, x, y. split_and!; [lia | done .. | lia | lia]. }
        apply IH; [lia | |].
        -- eapply (window_right left right best); [done | exact Hx | exact Hy | | | | done].
           ++ instantiate (1 := x.2 + y.2 - goal). lia.
           ++ destruct best as [[[i j] f]|]; [| do 3 eexists; split; [done | lia]].
              destruct (Z.ltb_spec (x.2 + y.2 - goal) f); do 3 eexists; (split; [done | lia]).
           ++ intros i j f ->. destruct (Z.ltb_spec (x.2 + y.2 - goal) f); do 3 eexists; (split; [done | lia]).
        -- destruct best as [[[i j] f]|]; [| done]. destruct (x.2 + y.2 - goal <? f); done.
    + apply checked_sub_None in Ed. apply IH; [done | by eapply window_left | done].
  - intros [= <-]. destruct best as [[[i j] e]|]; cbn [two_scan_ok].
    + split; [done |]. intros p q x y Hpq Hx Hy. destruct (Hw p q x y Hpq Hx Hy ltac:(lia)) as [? | (i' & j' & e' & [= <- <- <-] & ?)]; auto.
    + intros p q x y Hpq Hx Hy. destruct (Hw p q x y Hpq Hx Hy ltac:(lia)) as [? | (i' & j' & e' & ? & ?)]; done.
Qed.

Lemma two_scan_correct r : two_scan sorted goal = Ok r -> two_scan_ok r.
Proof using Hasc Hgoal.
  unfold two_scan. destruct (Nat.ltb_spec (length sorted) 2) as [H2 | H2].
  - intros [= <-] p q x y Hpq Hx Hy. apply lookup_lt_Some in Hx, Hy. lia.
  - apply two_scan_loop_ok; [lia | | done]. intros p q x y Hpq Hx Hy [H | H]; [lia |]. apply lookup_lt_Some in Hy. lia.
Qed.

(** The scan ends, with an answer unless two amounts overflow. *)
Lemma two_scan_loop_total fuel left right best :
  (right < length sorted)%nat -> (right - left < fuel)%nat ->
  (exists r, two_scan_loop fuel sorted goal left right best = Ok r) \/
  two_scan_loop fuel sorted goal left right best = Err InputAmountOverflow.
Proof using Hgoal.
  revert left right best. induction fuel as [|fuel IH]; intros left right best Hr Hf; [lia |]. cbn [two_scan_loop].
  destruct (Nat.ltb_spec left right) as [Hlr | Hlr]; [| eauto].
  destruct (lookup_lt_is_Some_2 sorted left) as [x Hx]; [lia |]. destruct (lookup_lt_is_Some_2 sorted right Hr) as [y Hy].
  rewrite Hx, Hy. cbn [ok_or mbind result_bind]. destruct (NoteAmount_checked_add x.2 y.2) as [sum|]; [| by right].
  destruct (NoteAmount_checked_sub sum goal) as [diff|] eqn:Ed; [| apply IH; lia].
  apply checked_sub_Some in Ed as [-> Hle]. unfold NoteAmount_is_zero, NoteAmount_ZERO.
  destruct (Z.eqb_spec (sum - goal) 0); [eauto |]. rewrite (proj2 (Z.ltb_lt 0 _)) by lia.
  rewrite (proj2 (Nat.eqb_neq right 0)) by lia. apply IH; lia.
Qed.

End two_scan.

(** ** Single notes *)

Lemma one_scan_correct sorted goal :
  ascending sorted ->
  match one_scan sorted goal with
  | OneScanExact i => exists x, x ∈ sorted /\ x.1 = i /\ x.2 = goal
  | OneScanOvershoot i e =>
      (exists x, x ∈ sorted /\ x.1 = i /\ x.2 = goal + e /\ 0 < e) /\
      (forall x, x ∈ sorted -> x.2 < goal \/ goal + e <= x.2)
  | OneScanMiss => forall x, x ∈ sorted -> x.2 < goal
  end.
Proof.
  induction sorted as [|[i x] sorted IH]; intros Hasc; cbn [one_scan].
  { intros e He. by apply elem_of_nil in He. }
  assert (ascending sorted) as Hasc' by (intros p q a b Hpq Ha Hb; apply (Hasc (S p) (S q)); [lia | done | done]).
  assert (forall y, y ∈ sorted -> x <= y.2) as Hmin.
  { intros y (q & Hq)%list_elem_of_lookup. apply (Hasc 0%nat (S q) (i, x) y); [lia | done | done]. }
  specialize (IH Hasc'). destruct (NoteAmount_checked_sub x goal) as [diff|] eqn:Ed.
  - apply checked_sub_Some in Ed as [-> Hle]. unfold NoteAmount_is_zero, NoteAmount_ZERO. destruct (Z.eqb_spec (x - goal) 0) as [E0 | E0].
    + exists (i, x). split_and!; [by left | done | cbn; lia].
    + rewrite (proj2 (Z.ltb_lt 0 _)) by lia. split.
      * exists (i, x). split_and!; [by left | done | cbn; lia | lia].
      * intros y [-> | Hy]%elem_of_cons; [cbn; lia | right]. specialize (Hmin y Hy). lia.
  - apply checked_sub_None in Ed. destruct (one_scan sorted goal) as [j|j e|].
    + destruct IH as (y & Hy & ?). exists y. split; [by right | done].
    + destruct IH as [(y & Hy & ?) Hm]. split; [exists y; split; [by right | done] |].
      intros z [-> | Hz]%elem_of_cons; [by left | by apply Hm].
    + intros z [-> | Hz]%elem_of_cons; [done | by apply IH].
Qed.

(** ** Three notes and more *)

Section k_scan.
Variables (values : list Z) (goal : Z).
Hypothesis Hvalues : Forall is_note values.

(** A path with its sum: distinct notes still to be continued by [candidates]. *)
Record path_ok (candidates : list (nat * Z)) (sum : Z) (p : list nat) : Prop := {
  path_sum : sum = sum_at values p;
  path_nodup : NoDup (p ++ candidates.*1);
  path_range : Forall (fun i => (i < length values)%nat) p;
  path_indexed : indexed values candidates;
}.

Definition k_over (k : nat) (e : Z) (p : list nat) : Prop :=
  picked values p /\ length p = k /\ sum_at values p = goal + e /\ 0 < e.

Definition best_path_ok (k : nat) (best : option (Z * list nat)) : Prop :=
  match best with None => True | Some (e, p) => k_over k e p end.

Lemma path_ok_picked c s p : path_ok c s p -> picked values p.
Proof. intros []. split; [by apply NoDup_app in path_nodup0 as [? _] | done]. Qed.

Lemma path_ok_skip i x c s p : path_ok ((i, x) :: c) s p -> path_ok c s p.
Proof.
  intros [? Hn ? Hi]. apply indexed_cons in Hi as (_ & _ & Hi). split; [done | | done | done].
  rewrite fmap_cons in Hn. cbn [fst] in Hn. rewrite NoDup_app in *. destruct Hn as (? & Hd & Hn). apply NoDup_cons in Hn as [_ Hn].
  split_and!; [done | | done]. intros j Hj Hj'. apply (Hd j Hj). by right.
Qed.

Lemma path_ok_take i x c s p : path_ok ((i, x) :: c) s p -> path_ok c (s + x) (p ++ [i]).
Proof.
  intros [-> Hn Hr Hi]. apply indexed_cons in Hi as (Hv & _ & Hi). cbn [fst snd] in Hv. split.
  - rewrite sum_at_app. cbn [sum_at]. unfold value_at. rewrite Hv. cbn. lia.
  - rewrite <- app_assoc. exact Hn.
  - apply Forall_app. split; [done |]. constructor; [by eapply lookup_lt_Some | done].
  - done.
Qed.

Lemma removelast_snoc {A} (l : list A) x : removelast (l ++ [x]) = l.
Proof. by rewrite removelast_app, app_nil_r. Qed.

Lemma dfs_leaf k sum st found st' candidates :
  path_ok candidates sum (path st) -> best_path_ok k (best_overshoot st) -> length (path st) = k ->
  match NoteAmount_checked_sub sum goal with
  | None => Ok (false, st)
  | Some diff =>
      if NoteAmount_is_zero diff then Ok (true, st)
      else if (NoteAmount_ZERO <? diff) && (match best_overshoot st with None => true | Some (min_ov, _) => diff <? min_ov end) then
        Ok (false, {| iteration_limit := iteration_limit st; path := path st; best_overshoot := Some (diff, path st) |})
      else Ok (false, st)
  end = Ok (found, st') :> result PlanError (bool * DfsState) ->
  best_path_ok k (best_overshoot st') /\
  if found then picked values (path st') /\ length (path st') = k /\ sum_at values (path st') = goal
  else path st' = path st.
Proof.
  intros Hp Hb Hk. pose proof (path_ok_picked _ _ _ Hp) as Hpk. pose proof (path_sum _ _ _ Hp) as Hsum.
  destruct (NoteAmount_checked_sub sum goal) as [diff|] eqn:Ed; [| by intros [= <- <-]].
  apply checked_sub_Some in Ed as [-> Hle]. unfold NoteAmount_is_zero, NoteAmount_ZERO.
  destruct (Z.eqb_spec (sum - goal) 0) as [E0 | E0].
  - intros [= <- <-]. split; [done |]. split_and!; [done | done | lia].
  - rewrite (proj2 (Z.ltb_lt 0 _)) by lia. cbn [andb].
    destruct (match best_overshoot st with None => true | Some (min_ov, _) => sum - goal <? min_ov end); intros [= <- <-]; [| done].
    split; [| done]. cbn [best_overshoot best_path_ok]. split_and!; [done | done | lia | lia].
Qed.

Lemma dfs_correct k candidates sum st found st' :
  path_ok candidates sum (path st) -> best_path_ok k (best_overshoot st) ->
  dfs goal k candidates sum st = Ok (found, st') ->
  best_path_ok k (best_overshoot st') /\
  if found then picked values (path st') /\ length (path st') = k /\ sum_at values (path st') = goal
  else path st' = path st.
Proof.
  revert sum st found st'. induction candidates as [|[i x] rest IH]; intros sum st found st' Hp Hb; cbn [dfs].
  - destruct (Nat.eqb_spec (length (path st)) k) as [Hk | Hk]; [| by intros [= <- <-]].
    by apply (dfs_leaf k sum st found st' []).
  - destruct (Nat.eqb_spec (length (path st)) k) as [Hk | Hk]; [by apply (dfs_leaf k sum st found st' ((i, x) :: rest)) |].
    destruct ((goal <=? sum) || (iteration_limit st <=? 0)); [by intros [= <- <-] |].
    destruct (NoteAmount_checked_add sum x) as [s1|] eqn:Es; [| done]. apply checked_add_Some in Es as [-> _].
    destruct (dfs goal k rest (sum + x) _) as [[f1 st1]|e] eqn:E1; [| done]. cbn [mbind result_bind].
    apply IH in E1 as [Hb1 Hf1]; [| by apply path_ok_take | done]. destruct f1.
    + intros [= <- <-]. done.
    + cbn [path] in Hf1. intros E2. apply IH in E2; [| cbn [path]; rewrite Hf1, removelast_snoc; by eapply path_ok_skip | done].
      cbn [path] in E2. by rewrite Hf1, removelast_snoc in E2.
Qed.

(** Distinct notes sum to at most the wallet. *)
Lemma sum_at_perm ids js : ids ≡ₚ js -> sum_at values ids = sum_at values js.
Proof. induction 1; cbn [sum_at]; lia. Qed.

Lemma sum_at_nonneg ids : 0 <= sum_at values ids.
Proof using Hvalues.
  induction ids as [|i ids IH]; cbn [sum_at]; [lia |]. unfold value_at. destruct (values !! i) as [x|] eqn:E; cbn; [| lia].
  pose proof (Forall_lookup_1 _ _ _ _ Hvalues E) as Hx. unfold is_note in Hx. lia.
Qed.

Lemma sum_at_all : sum_at values (seq 0 (length values)) = total values.
Proof.
  assert (forall l pre, values = pre ++ l -> sum_at values (seq (length pre) (length l)) = total l) as H.
  { induction l as [|x l IH]; intros pre E; [done |]. cbn [length seq sum_at total].
    assert (value_at values (length pre) = x) as -> by (unfold value_at; rewrite E, list_lookup_middle; done).
    specialize (IH (pre ++ [x])). rewrite length_app in IH. cbn [length] in IH.
    rewrite Nat.add_1_r in IH. rewrite IH; [done |]. by rewrite <- app_assoc. }
  by apply (H values []).
Qed.

Lemma sum_at_le ids : picked values ids -> sum_at values ids <= total values.
Proof using Hvalues.
  intros [Hn Hr]. assert (ids ⊆+ seq 0 (length values)) as Hs.
  { apply NoDup_submseteq; [done |]. intros i Hi. rewrite Forall_forall in Hr. specialize (Hr i Hi). apply elem_of_seq. lia. }
  apply submseteq_Permutation in Hs as [k Hk]. rewrite <- sum_at_all, (sum_at_perm _ _ Hk), sum_at_app.
  pose proof (sum_at_nonneg k). lia.
Qed.

Hypothesis Htotal : total values < 2 ^ 128.

Lemma dfs_total k candidates sum st :
  path_ok candidates sum (path st) -> best_path_ok k (best_overshoot st) -> exists r, dfs goal k candidates sum st = Ok r.
Proof using Hvalues Htotal.
  revert sum st. induction candidates as [|[i x] rest IH]; intros sum st Hp Hb; cbn [dfs].
  - destruct (length (path st) =? k)%nat; [| eauto]. destruct (NoteAmount_checked_sub sum goal); [| eauto].
    destruct (NoteAmount_is_zero _); [eauto |]. destruct (_ && _); eauto.
  - destruct (length (path st) =? k)%nat.
    + destruct (NoteAmount_checked_sub sum goal); [| eauto]. destruct (NoteAmount_is_zero _); [eauto |]. destruct (_ && _); eauto.
    + destruct (_ || _); [eauto |]. pose proof (path_ok_take _ _ _ _ _ Hp) as Hp'.
      pose proof (sum_at_le _ (path_ok_picked _ _ _ Hp')) as Hle. rewrite <- (path_sum _ _ _ Hp') in Hle.
      assert (NoteAmount_checked_add sum x = Some (sum + x)) as -> by (apply checked_add_Some; lia).
      set (pushed := {| iteration_limit := iteration_limit st - 1; path := path st ++ [i]; best_overshoot := best_overshoot st |}).
      destruct (IH (sum + x) pushed Hp' Hb) as [[f st1] E1]. rewrite E1. cbn [mbind result_bind].
      destruct (dfs_correct k rest (sum + x) pushed f st1 Hp' Hb E1) as [Hb1 Hf]. destruct f; [eauto |].
      cbn [path pushed] in Hf. apply IH; [| done]. cbn [path]. rewrite Hf, removelast_snoc. by eapply path_ok_skip.
Qed.

(** What the k-scan returns. *)
Definition k_scan_ok (r : KScan) : Prop :=
  match r with
  | KScanExact ids => picked values ids /\ (3 <= length ids <= TRANSACTION_LIMIT)%nat /\ sum_at values ids = goal
  | KScanOvershoot ids e => picked values ids /\ sum_at values ids = goal + e /\ 0 <= e
  | KScanMiss => total values < goal
  end.

Lemma path_ok_nil candidates : indexed values candidates -> path_ok candidates 0 [].
Proof. intros Hi. split; [done | apply Hi | constructor | done]. Qed.

Lemma k_loop_correct ks candidates :
  indexed values candidates -> Forall (fun k => (3 <= k <= TRANSACTION_LIMIT)%nat) ks ->
  exists r, k_loop ks candidates goal = Ok r /\ match r with Some k => k_scan_ok k | None => True end.
Proof using Hvalues Htotal.
  intros Hi. induction ks as [|k ks IH]; intros Hks; [by exists None |]. apply Forall_cons in Hks as [Hk Hks]. cbn [k_loop].
  set (st := {| iteration_limit := 5000; path := []; best_overshoot := None |}).
  destruct (dfs_total k candidates NoteAmount_ZERO st (path_ok_nil _ Hi) I) as [[f st'] E]. rewrite E. cbn [mbind result_bind].
  destruct (dfs_correct k candidates NoteAmount_ZERO st f st' (path_ok_nil _ Hi) I E) as [Hb Hf]. destruct f.
  - eexists. split; [reflexivity |]. cbn [k_scan_ok]. destruct Hf as (? & -> & ?). done.
  - destruct (best_overshoot st') as [[e p]|]; [| by apply IH]. eexists. split; [reflexivity |].
    cbn [k_scan_ok]. destruct Hb as (? & _ & ? & ?). split_and!; [done | done | lia].
Qed.

Lemma greedy_correct l p s :
  path_ok l s p -> s < goal ->
  exists r, greedy_loop l goal s p = Ok r /\
    match r with KScanMiss => s + total l.*2 < goal | KScanExact _ => False | _ => k_scan_ok r end.
Proof using Hvalues Htotal.
  revert p s. induction l as [|[i x] l IH]; intros p s Hp Hs; cbn [greedy_loop].
  - eexists. split; [reflexivity |]. cbn. lia.
  - pose proof (path_ok_take _ _ _ _ _ Hp) as Hp'. pose proof (sum_at_le _ (path_ok_picked _ _ _ Hp')) as Hle.
    rewrite <- (path_sum _ _ _ Hp') in Hle.
    assert (NoteAmount_checked_add s x = Some (s + x)) as -> by (apply checked_add_Some; lia).
    destruct (Z.leb_spec goal (s + x)) as [Hge | Hlt].
    + assert (NoteAmount_checked_sub (s + x) goal = Some (s + x - goal)) as -> by (apply checked_sub_Some; lia).
      eexists. split; [reflexivity |]. cbn [k_scan_ok]. split_and!; [by eapply path_ok_picked | | lia].
      rewrite <- (path_sum _ _ _ Hp'). lia.
    + destruct (IH (p ++ [i]) (s + x) Hp' Hlt) as (r & Hr & Hok). exists r. split; [done |].
      destruct r; [done | done |]. rewrite fmap_cons. cbn [total snd]. lia.
Qed.

Lemma k_scan_correct sorted :
  indexed values sorted -> sorted ≡ₚ imap pair values -> 0 < goal -> exists r, k_scan sorted goal = Ok r /\ k_scan_ok r.
Proof using Hvalues Htotal.
  intros Hi Hperm Hgoal. unfold k_scan. set (cands := rev _).
  assert (indexed values cands) as Hc by (by apply indexed_rev, indexed_filter).
  assert (exists r, (if (3 <=? length cands)%nat then k_loop (seq 3 (Nat.min (length cands) TRANSACTION_LIMIT - 2)) cands goal else Ok None) = Ok r /\
    match r with Some k => k_scan_ok k | None => True end) as (r & -> & Hr).
  { destruct (Nat.leb_spec 3 (length cands)); [| by exists None]. apply k_loop_correct; [done |].
    apply Forall_forall. intros k Hk%elem_of_seq. unfold TRANSACTION_LIMIT in *. lia. }
  cbn [mbind result_bind]. destruct r as [k|]; [by exists k |]. unfold greedy_impl.
  destruct (greedy_correct (rev sorted) [] NoteAmount_ZERO (path_ok_nil _ (indexed_rev _ _ Hi)) ltac:(done)) as (r & Er & Hok).
  exists r. split; [done |]. destruct r; [done | done |]. cbn [k_scan_ok].
  rewrite <- Permutation_rev, (indexed_total values) in Hok by done. unfold NoteAmount_ZERO in Hok. lia.
Qed.

End k_scan.

(** ** The selection *)

(** Every two different notes. *)
Definition all_pairs (values : list Z) (P : Z -> Prop) : Prop :=
  forall i j x y, i <> j -> values !! i = Some x -> values !! j = Some y -> P (x + y).

Definition two_notes (values : list Z) (i j : nat) (sum : Z) : Prop :=
  i <> j /\ exists x y, values !! i = Some x /\ values !! j = Some y /\ x + y = sum.

(** What each answer means. *)
Definition combination_ok (values : list Z) (goal : Z) (r : CombinationResult) : Prop :=
  match r with
  | TwoExact i j => two_notes values i j goal
  | OneExact i => values !! i = Some goal /\ all_pairs values (fun s => s <> goal)
  | TwoOvershoot i j e =>
      two_notes values i j (goal + e) /\ 0 < e /\ (goal ∉ values) /\ all_pairs values (fun s => s < goal \/ goal + e <= s)
  | OneOvershoot i e =>
      values !! i = Some (goal + e) /\ 0 < e /\ Forall (fun x => x < goal \/ goal + e <= x) values /\
      all_pairs values (fun s => s < goal)
  | ExactK ids =>
      picked values ids /\ (3 <= length ids <= TRANSACTION_LIMIT)%nat /\ sum_at values ids = goal /\
      Forall (fun x => x < goal) values /\ all_pairs values (fun s => s < goal)
  | Overshoot ids e =>
      picked values ids /\ sum_at values ids = goal + e /\ 0 <= e /\
      Forall (fun x => x < goal) values /\ all_pairs values (fun s => s < goal)
  | Impossible => values = [] \/ total values < goal
  end.

Section selection.
Context {srt : SortByAmount} {laws : SortByAmountLaws srt}.
Variables (values : list Z) (goal : Z).

Local Abbreviation sorted := (sort_by_amount (imap pair values)).

Lemma sorted_perm : sorted ≡ₚ imap pair values.
Proof using laws. apply sort_permutation. Qed.

Lemma sorted_indexed : indexed values sorted.
Proof using laws. eapply indexed_perm; [apply sorted_perm | apply imap_pair_indexed]. Qed.

Lemma sorted_position i x : values !! i = Some x -> exists p, sorted !! p = Some (i, x).
Proof using laws.
  intros Hi. apply list_elem_of_lookup. rewrite sorted_perm. apply elem_of_lookup_imap. by exists i, x.
Qed.

Lemma all_pairs_sorted (P : Z -> Prop) :
  (forall p q x y, (p < q)%nat -> sorted !! p = Some x -> sorted !! q = Some y -> P (x.2 + y.2)) -> all_pairs values P.
Proof using laws.
  intros H i j x y Hij Hx Hy. destruct (sorted_position i x Hx) as [p Hp], (sorted_position j y Hy) as [q Hq].
  destruct (Nat.lt_total p q) as [Hlt | [-> | Hlt]].
  - exact (H p q (i, x) (j, y) Hlt Hp Hq).
  - congruence.
  - rewrite Z.add_comm. exact (H q p (j, y) (i, x) Hlt Hq Hp).
Qed.

Lemma two_notes_sorted p q x y :
  (p < q)%nat -> sorted !! p = Some x -> sorted !! q = Some y -> two_notes values x.1 y.1 (x.2 + y.2).
Proof using laws.
  intros Hpq Hx Hy. split; [eapply (indexed_distinct values sorted p q); [apply sorted_indexed | done | done | lia] |].
  exists x.2, y.2. split_and!; [| | done]; apply (indexed_value _ _ sorted_indexed), list_elem_of_lookup; eauto.
Qed.

Lemma values_sorted (P : Z -> Prop) : (forall x, x ∈ sorted -> P x.2) -> Forall P values.
Proof using laws.
  intros H. apply Forall_lookup. intros i x Hi. destruct (sorted_position i x Hi) as [p Hp].
  apply (H (i, x)), list_elem_of_lookup. eauto.
Qed.

Lemma pair_le_total i j x y :
  Forall is_note values -> i <> j -> values !! i = Some x -> values !! j = Some y -> x + y <= total values.
Proof.
  intros Hv Hij Hx Hy. pose proof (sum_at_le values Hv [i; j]) as H. cbn [sum_at] in H. unfold value_at in H. rewrite Hx, Hy in H.
  cbn in H. enough (picked values [i; j]) by (specialize (H H0); lia). split.
  - apply NoDup_cons. split; [intros ->%list_elem_of_singleton; done | apply NoDup_singleton].
  - repeat constructor; by eapply lookup_lt_Some.
Qed.

Lemma two_scan_loop_no_overflow fuel left right best :
  Forall is_note values -> total values < 2 ^ 128 -> two_scan_loop fuel sorted goal left right best <> Err InputAmountOverflow.
Proof using laws.
  intros Hv Ht. revert left right best. induction fuel as [|fuel IH]; intros left right best; cbn [two_scan_loop]; [done |].
  destruct (Nat.ltb_spec left right) as [Hlr | Hlr]; [| done].
  destruct (sorted !! left) as [x|] eqn:Hx; [| done]. cbn [ok_or mbind result_bind].
  destruct (sorted !! right) as [y|] eqn:Hy; [| done]. cbn [ok_or mbind result_bind].
  destruct (two_notes_sorted left right x y Hlr Hx Hy) as (Hne & a & b & Ha & Hb & Hab).
  pose proof (pair_le_total _ _ _ _ Hv Hne Ha Hb) as Hle.
  assert (NoteAmount_checked_add x.2 y.2 = Some (x.2 + y.2)) as -> by (apply checked_add_Some; lia).
  destruct (NoteAmount_checked_sub (x.2 + y.2) goal); [| apply IH]. destruct (NoteAmount_is_zero _); [done |].
  destruct (NoteAmount_ZERO <? _); [| apply IH]. destruct (right =? 0)%nat; [done | apply IH].
Qed.

Lemma two_scan_run :
  Forall is_note values -> is_note goal -> total values < 2 ^ 128 ->
  exists r, two_scan sorted goal = Ok r /\ two_scan_ok sorted goal r.
Proof using laws.
  intros Hv Hg Ht. assert (exists r, two_scan sorted goal = Ok r) as [r Hr].
  { unfold two_scan. destruct (Nat.ltb_spec (length sorted) 2); [eauto |].
    destruct (two_scan_loop_total sorted goal ltac:(apply Hg) (length sorted) 0 (length sorted - 1) None) as [? | Hov]; [lia | lia | done |].
    by apply two_scan_loop_no_overflow in Hov. }
  exists r. split; [done |]. apply two_scan_correct; [apply sort_ascending | apply Hg | done].
Qed.

Lemma find_combination_ok :
  Forall is_note values -> is_note goal -> total values < 2 ^ 128 ->
  exists r, find_combination values goal = Ok r /\ combination_ok values goal r.
Proof using laws.
  intros Hv Hg Ht. destruct (decide (values = [])) as [-> | Hne]; [exists Impossible; split; [done | by left] |].
  unfold find_combination. destruct values as [|v0 vs] eqn:Ev; [done |]. rewrite <- Ev in *. clear Hne.
  destruct (two_scan_run Hv Hg Ht) as (two & -> & Htwo). cbn [mbind result_bind].
  pose proof (one_scan_correct sorted goal (sort_ascending _)) as Hone.
  assert (forall x, x ∈ sorted -> values !! x.1 = Some x.2) as Hval by apply (indexed_value _ _ sorted_indexed).
  destruct two as [i j|i j e|]; cbn [two_scan_ok] in Htwo.
  - exists (TwoExact i j). split; [done |]. destruct Htwo as (p & q & x & y & Hpq & Hx & Hy & <- & <- & <-). by apply (two_notes_sorted p q).
  - destruct Htwo as [(p & q & x & y & Hpq & Hx & Hy & <- & <- & Hs & He) Hmin].
    destruct (one_scan sorted goal) as [k|k f|] eqn:Eo.
    + exists (OneExact k). split; [done |]. destruct Hone as (z & Hz & <- & Ez). split; [by rewrite <- Ez; apply Hval |].
      apply all_pairs_sorted. intros p' q' x' y' Hpq' Hx' Hy'. specialize (Hmin p' q' x' y' Hpq' Hx' Hy'). lia.
    + eexists. split; [reflexivity |]. cbn [combination_ok]. split_and!.
      * rewrite <- Hs. by apply (two_notes_sorted p q).
      * done.
      * destruct Hone as [(z & _ & _ & _ & Hf) Hm]. intros Hgin.
        assert (Forall (fun x => x < goal \/ goal + f <= x) values) as HF by (by apply values_sorted).
        rewrite Forall_forall in HF. specialize (HF goal Hgin). lia.
      * by apply all_pairs_sorted.
    + eexists. split; [reflexivity |]. cbn [combination_ok]. split_and!.
      * rewrite <- Hs. by apply (two_notes_sorted p q).
      * done.
      * intros Hgin. assert (Forall (fun x => x < goal) values) as HF by (by apply values_sorted).
        rewrite Forall_forall in HF. specialize (HF goal Hgin). lia.
      * by apply all_pairs_sorted.
  - assert (all_pairs values (fun s => s < goal)) as Hp by (by apply all_pairs_sorted).
    destruct (one_scan sorted goal) as [k|k f|] eqn:Eo.
    + exists (OneExact k). split; [done |]. destruct Hone as (z & Hz & <- & Ez). split; [by rewrite <- Ez; apply Hval |].
      intros a b x y Hab Hx Hy. specialize (Hp a b x y Hab Hx Hy). cbn in Hp. lia.
    + eexists. split; [reflexivity |]. destruct Hone as [(z & Hz & <- & Ez & Hf) Hm]. cbn [combination_ok]. split_and!; [| done | | done].
      * rewrite <- Ez. by apply Hval.
      * by apply values_sorted.
    + assert (Forall (fun x => x < goal) values) as HF by (by apply values_sorted).
      assert (0 < goal) as Hgoal.
      { rewrite Ev in HF, Hv. apply Forall_cons in HF as [Hlt _]. apply Forall_cons in Hv as [[? _] _]. lia. }
      destruct (k_scan_correct values goal Hv Ht sorted sorted_indexed sorted_perm Hgoal) as (r & -> & Hr). cbn [mbind result_bind].
      eexists. split; [reflexivity |]. destruct r; cbn [combination_ok k_scan_ok] in *; [tauto | tauto | by right].
Qed.

End selection.

(** ** A concrete sort *)

Definition by_amount (x y : nat * Z) : Prop := x.2 <= y.2.

#[export] Instance by_amount_dec x y : Decision (by_amount x y).
Proof. unfold by_amount. apply _. Defined.

#[export] Instance by_amount_total : Total by_amount.
Proof. intros x y. unfold by_amount. lia. Qed.

#[export] Instance by_amount_trans : Transitive by_amount.
Proof. intros x y z. unfold by_amount. lia. Qed.

#[export] Instance ref_sort : SortByAmount := merge_sort by_amount.

Lemma sorted_ascending l : StronglySorted by_amount l -> ascending l.
Proof.
  intros Hs. induction Hs as [|e l Hs IH He]; intros p q x y Hpq Hx Hy; [done |].
  destruct p as [|p], q as [|q]; cbn in Hx, Hy.
  - simplify_eq. lia.
  - simplify_eq. rewrite Forall_forall in He. apply He, list_elem_of_lookup. eauto.
  - lia.
  - apply (IH p q x y); [lia | done | done].
Qed.

#[export] Instance ref_sort_laws : SortByAmountLaws ref_sort.
Proof.
  split; intros l.
  - apply merge_sort_Permutation.
  - apply sorted_ascending. apply StronglySorted_merge_sort; apply _.
Qed.

(** Coin selection: for a wallet whose total fits an amount, whatever order the sort
    leaves equal notes in, [find_combination] returns (no error, no panic, within the
    iteration limit) an answer that is what it says: distinct notes of the wallet whose sum
    is the goal, or the goal plus the excess; an exact pair whenever there is one, an exact
    single note otherwise, the overshooting pair of least excess next, and [Impossible] only
    when the whole wallet is below the goal (or empty). *)
Theorem find_combination_correct (srt : SortByAmount) (laws : SortByAmountLaws srt) (values : list NoteAmount) (goal : NoteAmount) :
  Forall is_note values -> is_note goal -> total values < 2 ^ 128 ->
  exists r, find_combination values goal = Ok r /\ combination_ok values goal r /\
    (forall i j, two_notes values i j goal -> exists i' j', r = TwoExact i' j').
Proof.
  intros Hv Hg Ht. destruct (find_combination_ok values goal Hv Hg Ht) as (r & Hr & Hok). exists r. split_and!; [done | done |].
  intros i j (Hij & x & y & Hx & Hy & Hs). pose proof Hg as [Hg0 _].
  assert (forall P : Z -> Prop, all_pairs values P -> P goal) as Hall by (intros P HP; rewrite <- Hs; by apply (HP i j)).
  destruct r as [i' j'|i'|i' j' e|i' e|ids|ids e|]; cbn [combination_ok] in Hok.
  - eauto.
  - by destruct (Hall _ (proj2 Hok)).
  - destruct Hok as (_ & He & _ & Hp). destruct (Hall _ Hp); lia.
  - destruct Hok as (_ & _ & _ & Hp). specialize (Hall _ Hp). cbn in Hall. lia.
  - destruct Hok as (_ & _ & _ & _ & Hp). specialize (Hall _ Hp). cbn in Hall. lia.
  - destruct Hok as (_ & _ & _ & _ & Hp). specialize (Hall _ Hp). cbn in Hall. lia.
  - destruct Hok as [-> | Hlt]; [done |]. pose proof (pair_le_total values i j x y Hv Hij Hx Hy). lia.
Qed.

Lemma find_combination_correct_witness :
  find_combination [4; 6; 10] 10 = Ok (TwoExact 0 1) /\ find_combination [2; 3; 6] 10 = Ok (Overshoot [2; 1; 0]%nat 1) /\
  exists r, find_combination [2; 3; 5] 10 = Ok r /\ combination_ok [2; 3; 5] 10 r.
Proof.
  split; [vm_compute; reflexivity | split; [vm_compute; reflexivity |]].
  destruct (find_combination_correct ref_sort ref_sort_laws [2; 3; 5] 10) as (r & H & Hok & _).
  - repeat constructor; lia.
  - split; lia.
  - cbn. lia.
  - exists r. split; [exact H | exact Hok].
Defined.
