(* ===== verification/CombinationMin.v ===== *)
(** * Coin selection uses as few notes as possible

    The depth-first search tries the largest notes first, so that it leaves a size [k] only
    when no [k] notes reach the goal.  Hence a selection of three notes or more is of least
    size, and the planner finds a plan whenever ten notes can cover the amount. *)

From stdpp Require Import sorting.
From S2P Require Import Prelude Ints Amounts Combination CombinationFacts.

Definition descending (l : list (nat * Z)) : Prop :=
  forall p q x y, (p <= q)%nat -> l !! p = Some x -> l !! q = Some y -> y.2 <= x.2.

(** The sum of the first [n] entries. *)
Definition top (n : nat) (l : list (nat * Z)) : Z := total (take n l).*2.

Lemma top_0 l : top 0 l = 0.
Proof. done. Qed.

Lemma top_cons n e l : top (S n) (e :: l) = e.2 + top n l.
Proof. done. Qed.

Lemma rev_descending l : ascending l -> descending (rev l).
Proof.
  intros Ha p q x y Hpq Hx Hy. pose proof (lookup_lt_Some _ _ _ Hx) as Hp. pose proof (lookup_lt_Some _ _ _ Hy) as Hq.
  rewrite length_rev in Hp, Hq. rewrite rev_alt in Hx, Hy. fold (reverse l) in Hx, Hy. rewrite reverse_lookup in Hx, Hy by done.
  eapply (Ha (length l - S q)%nat (length l - S p)%nat); [lia | done | done].
Qed.

(** ** No selection beats the largest notes *)

Lemma top_shift n e l : descending (e :: l) -> Forall (fun f => 0 <= f.2) (e :: l) -> top n l <= top n (e :: l).
Proof.
  revert e l. induction n as [|n IH]; intros e l Hd Hn; [done |]. rewrite top_cons.
  apply Forall_cons in Hn as [He Hn]. destruct l as [|f l].
  - unfold top. rewrite !take_nil. cbn. lia.
  - rewrite top_cons. assert (f.2 <= e.2) by (apply (Hd 0%nat 1%nat e f); [lia | done | done]).
    assert (descending (f :: l)) as Hd' by (intros p q x y Hpq Hx Hy; apply (Hd (S p) (S q)); [lia | done | done]).
    pose proof (IH f l Hd' Hn). lia.
Qed.

Lemma sublist_top s l : sublist s l -> descending l -> Forall (fun f => 0 <= f.2) l -> total s.*2 <= top (length s) l.
Proof.
  intros Hs. induction Hs as [|e s l Hs IH|e s l Hs IH]; intros Hd Hn.
  - done.
  - rewrite fmap_cons. cbn [total length]. rewrite top_cons. apply Forall_cons in Hn as [_ Hn].
    assert (descending l) as Hd' by (intros p q x y Hpq Hx Hy; apply (Hd (S p) (S q)); [lia | done | done]). specialize (IH Hd' Hn). lia.
  - assert (descending l) as Hd' by (intros p q x y Hpq Hx Hy; apply (Hd (S p) (S q)); [lia | done | done]).
    pose proof (top_shift (length s) e l Hd Hn). apply Forall_cons in Hn as [_ Hn]. specialize (IH Hd' Hn). lia.
Qed.

Lemma picked_sublist values l ids :
  indexed values l -> (forall i x, values !! i = Some x -> (i, x) ∈ l) -> picked values ids ->
  exists s, sublist s l /\ length s = length ids /\ total s.*2 = sum_at values ids.
Proof.
  intros [Hn Hv] Hall [Hnd Hr]. set (sel := (fun i => (i, value_at values i)) <$> ids).
  assert (sel ⊆+ l) as Hs.
  { apply NoDup_submseteq.
    - unfold sel. apply NoDup_fmap_2; [| done]. intros i j [= E _]. done.
    - intros e (i & -> & Hi)%list_elem_of_fmap. rewrite Forall_forall in Hr. destruct (lookup_lt_is_Some_2 values i (Hr i Hi)) as [x Hx].
      unfold value_at. rewrite Hx. by apply Hall. }
  apply submseteq_sublist_r in Hs as (s & Hp & Hsub). exists s. split; [done |]. split.
  - rewrite <- (Permutation_length Hp). unfold sel. apply length_fmap.
  - rewrite <- Hp. unfold sel. clear. induction ids as [|i ids IH]; [done |]. cbn. by rewrite <- IH.
Qed.

(** ** The first path of the search *)

Lemma dfs_best_mono goal k c sum st found st' :
  dfs goal k c sum st = Ok (found, st') -> best_overshoot st <> None -> best_overshoot st' <> None.
Proof.
  revert sum st found st'. induction c as [|[i x] c IH]; intros sum st found st'; cbn [dfs].
  - destruct (length (path st) =? k)%nat; [| by intros [= _ <-]]. destruct (NoteAmount_checked_sub sum goal); [| by intros [= _ <-]].
    destruct (NoteAmount_is_zero _); [by intros [= _ <-] |]. destruct (_ && _); by intros [= _ <-].
  - destruct (length (path st) =? k)%nat.
    + destruct (NoteAmount_checked_sub sum goal); [| by intros [= _ <-]].
      destruct (NoteAmount_is_zero _); [by intros [= _ <-] |]. destruct (_ && _); by intros [= _ <-].
    + destruct (_ || _); [by intros [= _ <-] |]. destruct (NoteAmount_checked_add sum x) as [s1|]; [| done].
      destruct (dfs goal k c s1 _) as [[f st1]|e] eqn:E1; [| done]. cbn [mbind result_bind]. intros H Hb.
      apply IH in E1; [| done]. destruct f; [by injection H as _ <- |]. by apply IH in H.
Qed.

Lemma dfs_leaf_best (sum goal : Z) (st : DfsState) found st' :
  (if NoteAmount_is_zero (sum - goal) then Ok (true, st)
   else if (NoteAmount_ZERO <? sum - goal) && (match best_overshoot st with None => true | Some (min_ov, _) => sum - goal <? min_ov end) then
     Ok (false, {| iteration_limit := iteration_limit st; path := path st; best_overshoot := Some (sum - goal, path st) |})
   else Ok (false, st)) = Ok (found, st') :> result PlanError (bool * DfsState) -> goal <= sum ->
  found = true \/ best_overshoot st' <> None.
Proof.
  intros Hrun Hge. unfold NoteAmount_is_zero, NoteAmount_ZERO in Hrun. destruct (Z.eqb_spec (sum - goal) 0).
  - injection Hrun as <- _. by left.
  - rewrite (proj2 (Z.ltb_lt 0 _)) in Hrun by lia. cbn [andb] in Hrun. right.
    destruct (best_overshoot st) as [[m p]|] eqn:Eb; [| by injection Hrun as _ <-].
    destruct (sum - goal <? m); injection Hrun as _ <-; [done | congruence].
Qed.

Lemma dfs_first goal k c sum st found st' :
  dfs goal k c sum st = Ok (found, st') -> (length (path st) <= k)%nat ->
  (k - length (path st) <= length c)%nat -> Z.of_nat (k - length (path st)) <= iteration_limit st ->
  goal <= sum + top (k - length (path st)) c ->
  (forall j, (j < k - length (path st))%nat -> sum + top j c < goal) ->
  found = true \/ best_overshoot st' <> None.
Proof.
  revert sum st found st'. induction c as [|[i x] c IH]; intros sum st found st' Hrun Hk Hlen Hlim Hge Hlow.
  all: cbn [dfs] in Hrun; destruct (Nat.eqb_spec (length (path st)) k) as [Ek | Ek].
  1, 3: assert (k - length (path st) = 0)%nat as E0 by lia; rewrite E0, top_0, Z.add_0_r in Hge;
    assert (NoteAmount_checked_sub sum goal = Some (sum - goal)) as Ed by (apply checked_sub_Some; lia); rewrite Ed in Hrun;
    by apply dfs_leaf_best in Hrun.
  - cbn [length] in Hlen. lia.
  - destruct (k - length (path st))%nat as [|n] eqn:En; [lia |]. specialize (Hlow 0%nat ltac:(lia)) as H0. rewrite top_0 in H0.
    rewrite (proj2 (Z.leb_gt goal sum)), (proj2 (Z.leb_gt (iteration_limit st) 0)) in Hrun by lia. cbn [orb] in Hrun.
    destruct (NoteAmount_checked_add sum x) as [s1|] eqn:Es; [| done]. apply checked_add_Some in Es as [-> _].
    destruct (dfs goal k c (sum + x) _) as [[f st1]|e] eqn:E1; [| done]. cbn [mbind result_bind] in Hrun.
    assert (f = true \/ best_overshoot st1 <> None) as [-> | Hb].
    { eapply IH; [exact E1 | ..]; cbn [path iteration_limit]; rewrite length_app; cbn [length];
        replace (k - (length (path st) + 1))%nat with n by lia.
      - lia.
      - cbn [length] in Hlen. lia.
      - lia.
      - rewrite top_cons in Hge. cbn [snd] in Hge. lia.
      - intros j Hj. specialize (Hlow (S j) ltac:(lia)). rewrite top_cons in Hlow. cbn [snd] in Hlow. lia. }
    + injection Hrun as <- <-. by left.
    + destruct f; [injection Hrun as <- <-; by left |]. right. by apply dfs_best_mono in Hrun.
Qed.

(** ** The sizes left behind *)

Section minimal.
Variables (values : list Z) (goal : Z).
Hypothesis Hvalues : Forall is_note values.
Hypothesis Htotal : total values < 2 ^ 128.

Definition below (n : nat) (c : list (nat * Z)) : Prop := forall j, (j < n)%nat -> top j c < goal.

Definition k_ids (r : KScan) : option (list nat) :=
  match r with KScanExact ids | KScanOvershoot ids _ => Some ids | KScanMiss => None end.

Lemma k_loop_min k0 n c r :
  indexed values c -> (k0 + n <= 5000)%nat -> (n = 0 \/ k0 + n <= S (length c))%nat -> below k0 c ->
  k_loop (seq k0 n) c goal = Ok r ->
  match r with
  | None => below (k0 + n) c
  | Some k => exists ids, k_ids k = Some ids /\ below (length ids) c
  end.
Proof using Hvalues Htotal.
  intros Hi. revert k0. induction n as [|n IH]; intros k0 H5 Hlen Hlow.
  - cbn [seq k_loop]. intros [= <-]. by rewrite Nat.add_0_r.
  - destruct Hlen as [? | Hlen]; [lia |]. cbn [seq k_loop]. set (st := {| iteration_limit := 5000; path := []; best_overshoot := None |}).
    destruct (dfs_total values goal Hvalues Htotal k0 c NoteAmount_ZERO st (path_ok_nil _ _ Hi) I) as [[f st'] E].
    rewrite E. cbn [mbind result_bind].
    destruct (dfs_correct values goal k0 c NoteAmount_ZERO st f st' (path_ok_nil _ _ Hi) I E) as [Hb Hf]. destruct f.
    + intros [= <-]. exists (path st'). split; [done |]. destruct Hf as (_ & -> & _). done.
    + destruct (best_overshoot st') as [[e p]|] eqn:Eb.
      * intros [= <-]. exists p. split; [done |]. destruct Hb as (_ & -> & _). done.
      * intros Hrun. assert (below (S k0) c) as Hlow'.
        { intros j Hj. destruct (decide (j = k0)) as [-> | ]; [| apply Hlow; lia]. apply Z.nle_gt. intros Hge.
          assert (false = true \/ best_overshoot st' <> None) as [? | Hne]; [| done | congruence].
          eapply dfs_first; [exact E | ..]; cbn [path length iteration_limit st]; rewrite ?Nat.sub_0_r.
          - lia.
          - lia.
          - lia.
          - exact Hge.
          - exact Hlow. }
        apply IH in Hrun; [| lia | lia | done]. destruct r; [done |]. by rewrite Nat.add_succ_r.
Qed.

Lemma greedy_min l pre p s r :
  length p = length pre -> s = total pre.*2 -> below (length pre) (pre ++ l) -> s < goal ->
  greedy_loop l goal s p = Ok r ->
  match k_ids r with Some ids => below (length ids) (pre ++ l) | None => True end.
Proof.
  revert pre p s. induction l as [|[i x] l IH]; intros pre p s Hp Hs Hlow Hlt; cbn [greedy_loop].
  - by intros [= <-].
  - destruct (NoteAmount_checked_add s x) as [s1|] eqn:Es; [| done]. apply checked_add_Some in Es as [-> _].
    assert (below (S (length pre)) (pre ++ (i, x) :: l)) as Hlow'.
    { intros j Hj. destruct (decide (j = length pre)) as [-> | ]; [| apply Hlow; lia]. unfold top. rewrite take_app_length. lia. }
    destruct (Z.leb_spec goal (s + x)) as [Hge | Hlt'].
    + destruct (NoteAmount_checked_sub (s + x) goal) as [e|]; [| done]. intros [= <-]. cbn [k_ids].
      rewrite length_app, Hp. cbn [length]. by rewrite Nat.add_1_r.
    + intros Hrun. replace (pre ++ (i, x) :: l) with ((pre ++ [(i, x)]) ++ l) in * by (by rewrite <- app_assoc).
      eapply IH; [| | | exact Hlt' | exact Hrun].
      * rewrite !length_app. cbn. lia.
      * rewrite fmap_app, total_app. cbn. lia.
      * rewrite length_app. cbn [length]. by rewrite Nat.add_1_r.
Qed.

(** Everything below the size of the result is too small. *)
Lemma k_scan_min sorted r :
  indexed values sorted -> Forall (fun e => e.2 < goal) sorted -> below 3 (rev sorted) -> 0 < goal ->
  k_scan sorted goal = Ok r ->
  match k_ids r with Some ids => below (length ids) (rev sorted) | None => True end.
Proof using Hvalues Htotal.
  intros Hi Hall H3 Hgoal. unfold k_scan.
  assert (filter (fun e => e.2 < goal) sorted = sorted) as ->.
  { clear - Hall. induction Hall as [|e l He Hl IH]; [done |]. rewrite filter_cons, decide_True by done. by rewrite IH. }
  set (c := rev sorted) in *. assert (indexed values c) as Hc by (by apply indexed_rev).
  assert (length c = length sorted) as Hlc by (unfold c; by rewrite length_rev).
  assert (forall r0, (if (3 <=? length c)%nat then k_loop (seq 3 (Nat.min (length c) TRANSACTION_LIMIT - 2)) c goal else Ok None) = Ok r0 ->
    match r0 with None => True | Some k => exists ids, k_ids k = Some ids /\ below (length ids) c end) as Hk.
  { intros r0. destruct (Nat.leb_spec 3 (length c)); [| by intros [= <-]]. intros Hrun.
    apply k_loop_min in Hrun; [| done | unfold TRANSACTION_LIMIT; lia | right; unfold TRANSACTION_LIMIT; lia | done]. by destruct r0. }
  destruct (if (3 <=? length c)%nat then _ else _) as [r0|e]; [| done]. specialize (Hk r0 eq_refl). cbn [mbind result_bind].
  destruct r0 as [k|].
  - intros [= <-]. destruct Hk as (ids & -> & Hb). done.
  - intros Hrun. apply (greedy_min c [] [] 0 r) in Hrun; [done | done | done | | lia]. intros j Hj. cbn in Hj. lia.
Qed.

End minimal.

(** The indices an answer picks. *)
Definition result_ids (r : CombinationResult) : list nat :=
  match r with
  | TwoExact i j | TwoOvershoot i j _ => [i; j]
  | OneExact i | OneOvershoot i _ => [i]
  | ExactK ids | Overshoot ids _ => ids
  | Impossible => []
  end.

Lemma find_combination_cons {srt : SortByAmount} values goal :
  values <> [] ->
  find_combination values goal =
    (two ← two_scan (sort_by_amount (imap pair values)) goal;
     match two with
     | TwoScanExact i j => Ok (TwoExact i j)
     | _ =>
         match one_scan (sort_by_amount (imap pair values)) goal with
         | OneScanExact i => Ok (OneExact i)
         | one =>
             match two with
             | TwoScanOvershoot i j excess => Ok (TwoOvershoot i j excess)
             | _ =>
                 match one with
                 | OneScanOvershoot i excess => Ok (OneOvershoot i excess)
                 | _ =>
                     k ← k_scan (sort_by_amount (imap pair values)) goal;
                     Ok (match k with
                         | KScanExact indices => ExactK indices
                         | KScanOvershoot indices excess => Overshoot indices excess
                         | KScanMiss => Impossible
                         end)
                 end
             end
         end
     end).
Proof.
  intros Hne. unfold find_combination. destruct values; [done |]. destruct (two_scan _ goal) as [[]|]; [done | | | done];
    cbn [mbind result_bind]; by destruct (one_scan _ goal).
Qed.

(** ** The order of the picks

    The picks come in the order of the candidates, largest first. *)

Definition best_sublist (st : DfsState) (l : list nat) : Prop :=
  match best_overshoot st with None => True | Some (_, p) => sublist p l end.

Lemma dfs_leaf_sublist sum goal st found st' l c :
  sublist (path st ++ c) l -> best_sublist st l ->
  match NoteAmount_checked_sub sum goal with
  | None => Ok (false, st)
  | Some diff =>
      if NoteAmount_is_zero diff then Ok (true, st)
      else if (NoteAmount_ZERO <? diff) && (match best_overshoot st with None => true | Some (min_ov, _) => diff <? min_ov end) then
        Ok (false, {| iteration_limit := iteration_limit st; path := path st; best_overshoot := Some (diff, path st) |})
      else Ok (false, st)
  end = Ok (found, st') :> result PlanError (bool * DfsState) ->
  best_sublist st' l /\ (if found then sublist (path st') l else path st' = path st).
Proof.
  intros Hs Hb. assert (sublist (path st) l) as Hp by (etrans; [| exact Hs]; by apply sublist_inserts_r).
  destruct (NoteAmount_checked_sub sum goal) as [diff|]; [| by intros [= <- <-]].
  destruct (NoteAmount_is_zero diff); [by intros [= <- <-] |]. destruct (_ && _); by intros [= <- <-].
Qed.

Lemma dfs_sublist goal k c sum st found st' l :
  sublist (path st ++ c.*1) l -> best_sublist st l -> dfs goal k c sum st = Ok (found, st') ->
  best_sublist st' l /\ (if found then sublist (path st') l else path st' = path st).
Proof.
  revert sum st found st'. induction c as [|[i x] c IH]; intros sum st found st' Hs Hb; cbn [dfs];
    (destruct (length (path st) =? k)%nat; [apply (dfs_leaf_sublist sum goal st found st' l _ Hs Hb) |]).
  - by intros [= <- <-].
  - destruct (_ || _); [by intros [= <- <-] |]. destruct (NoteAmount_checked_add sum x) as [s1|]; [| done].
    set (pushed := {| iteration_limit := _; path := _; best_overshoot := _ |}).
    destruct (dfs goal k c s1 pushed) as [[f st1]|e] eqn:E1; [| done]. cbn [mbind result_bind].
    rewrite fmap_cons in Hs. cbn [fst] in Hs.
    apply IH in E1 as [Hb1 Hf]; [| cbn [pushed path]; by rewrite <- app_assoc | done]. destruct f.
    + intros [= <- <-]. done.
    + cbn [pushed path] in Hf. intros E2. apply IH in E2.
      * cbn [path] in E2. by rewrite Hf, removelast_snoc in E2.
      * cbn [path]. rewrite Hf, removelast_snoc. etrans; [| exact Hs]. apply sublist_app; [done |]. by apply sublist_cons.
      * done.
Qed.

Lemma k_loop_sublist ks c goal k ids :
  k_loop ks c goal = Ok (Some k) -> k_ids k = Some ids -> sublist ids c.*1.
Proof.
  induction ks as [|k0 ks IH]; cbn [k_loop]; [done |]. set (st := {| iteration_limit := 5000; path := []; best_overshoot := None |}).
  destruct (dfs goal k0 c NoteAmount_ZERO st) as [[f st']|e] eqn:E; [| done]. cbn [mbind result_bind].
  apply (dfs_sublist _ _ _ _ _ _ _ c.*1) in E as [Hb Hf]; [| done | done]. destruct f.
  - intros [= <-] [= <-]. done.
  - unfold best_sublist in Hb. destruct (best_overshoot st') as [[e p]|]; [| done]. intros [= <-] [= <-]. done.
Qed.

Lemma greedy_sublist l goal s p r ids full :
  sublist (p ++ l.*1) full -> greedy_loop l goal s p = Ok r -> k_ids r = Some ids -> sublist ids full.
Proof.
  revert s p. induction l as [|[i x] l IH]; intros s p Hs; cbn [greedy_loop]; [by intros [= <-] |].
  destruct (NoteAmount_checked_add s x) as [s1|]; [| done]. rewrite fmap_cons in Hs. cbn [fst] in Hs.
  replace (p ++ i :: l.*1) with ((p ++ [i]) ++ l.*1) in Hs by (by rewrite <- app_assoc).
  destruct (goal <=? s1); [| by apply IH]. destruct (NoteAmount_checked_sub s1 goal); [| done].
  intros [= <-] [= <-]. etrans; [| exact Hs]. by apply sublist_inserts_r.
Qed.

Lemma k_scan_sublist sorted goal r ids :
  Forall (fun e => e.2 < goal) sorted -> k_scan sorted goal = Ok r -> k_ids r = Some ids -> sublist ids (rev sorted).*1.
Proof.
  intros Hall. unfold k_scan. assert (filter (fun e => e.2 < goal) sorted = sorted) as ->.
  { induction Hall as [|e l He Hl IH]; [done |]. rewrite filter_cons, decide_True by done. by rewrite IH. }
  destruct (3 <=? length (rev sorted))%nat.
  - destruct (k_loop _ _ _) as [[k|]|e] eqn:E; [| | done]; cbn [mbind result_bind].
    + intros [= <-] Hids. by eapply k_loop_sublist.
    + intros Hrun Hids. eapply greedy_sublist; [| exact Hrun | exact Hids]. done.
  - cbn [mbind result_bind]. intros Hrun Hids. eapply greedy_sublist; [| exact Hrun | exact Hids]. done.
Qed.

(** Largest first. *)
Definition picks_descending (values : list Z) (ids : list nat) : Prop :=
  StronglySorted (fun i j => value_at values j <= value_at values i) ids.

Lemma StronglySorted_sublist {A} (R : A -> A -> Prop) s l : sublist s l -> StronglySorted R l -> StronglySorted R s.
Proof.
  intros Hs. induction Hs as [|e s l Hs IH|e s l Hs IH]; intros Hl; [done | |].
  - apply StronglySorted_inv in Hl as [Hl He]. constructor; [by apply IH |].
    apply Forall_forall. intros f Hf. rewrite Forall_forall in He. apply He.
    eapply elem_of_submseteq; [exact Hf |]. by apply sublist_submseteq.
  - apply StronglySorted_inv in Hl as [Hl _]. by apply IH.
Qed.

Lemma descending_picks values l : indexed values l -> descending l -> picks_descending values l.*1.
Proof.
  intros Hi Hd. unfold picks_descending. induction l as [|e l IH]; [constructor |].
  pose proof Hi as Hi'. apply indexed_cons in Hi as (Hv & _ & Hi). rewrite fmap_cons. constructor.
  - apply IH; [done |]. intros p q x y Hpq Hx Hy. apply (Hd (S p) (S q)); [lia | done | done].
  - apply Forall_forall. intros j (f & -> & (q & Hf)%list_elem_of_lookup)%list_elem_of_fmap.
    destruct (indexed_lookup values (e :: l) (S q) f Hi' Hf) as [-> _]. unfold value_at. rewrite Hv. cbn.
    apply (Hd 0%nat (S q)); [lia | done | done].
Qed.

(** ** The selection *)

Section selection.
Context {srt : SortByAmount} {laws : SortByAmountLaws srt}.
Variables (values : list Z) (goal : Z).
Hypotheses (Hvalues : Forall is_note values) (Hgoal : is_note goal) (Htotal : total values < 2 ^ 128).

Local Abbreviation sorted := (sort_by_amount (imap pair values)).

Lemma sum_at_top ids : picked values ids -> sum_at values ids <= top (length ids) (rev sorted).
Proof using laws Hvalues.
  intros Hp. assert (indexed values (rev sorted)) as Hi by (apply indexed_rev, sorted_indexed).
  assert (forall i x, values !! i = Some x -> (i, x) ∈ rev sorted) as Hall.
  { intros i x Hx. rewrite <- Permutation_rev. apply list_elem_of_lookup. by apply sorted_position. }
  destruct (picked_sublist values (rev sorted) ids Hi Hall Hp) as (s & Hs & Hlen & <-). rewrite <- Hlen. apply sublist_top; [done | |].
  - apply rev_descending, sort_ascending.
  - apply Forall_forall. intros e He. pose proof (indexed_value _ _ Hi e He) as Hv. apply (Forall_lookup_1 _ _ _ _ Hvalues Hv).
Qed.

(** No pair and no single note reach the goal. *)
Lemma below_3 : 0 < goal -> Forall (fun x => x < goal) values -> all_pairs values (fun s => s < goal) -> below goal 3 (rev sorted).
Proof using laws.
  intros H0 H1 H2 j Hj. assert (indexed values (rev sorted)) as Hi by (apply indexed_rev, sorted_indexed).
  destruct (rev sorted) as [|a [|b l]] eqn:E.
  - unfold top. rewrite take_nil. done.
  - assert (a.2 < goal).
    { rewrite Forall_lookup in H1. apply (H1 a.1). apply (indexed_value _ _ Hi). by left. }
    destruct j as [|[|[|j]]]; [done | ..]; unfold top; cbn; lia.
  - assert (values !! a.1 = Some a.2) as Ha by (apply (indexed_value _ _ Hi); by left).
    assert (values !! b.1 = Some b.2) as Hb by (apply (indexed_value _ _ Hi); right; by left).
    assert (a.1 <> b.1) as Hne by (eapply (indexed_distinct values (a :: b :: l) 0 1); done).
    rewrite Forall_lookup in H1. specialize (H1 _ _ Ha). specialize (H2 _ _ _ _ Hne Ha Hb). cbn in H1, H2.
    destruct j as [|[|[|j]]]; [done | rewrite top_cons, top_0; lia | rewrite !top_cons, top_0; lia | lia].
Qed.

(** Three picks or more come from the k-scan. *)
Lemma find_combination_k r :
  find_combination values goal = Ok r -> (3 <= length (result_ids r))%nat ->
  0 < goal /\ Forall (fun x => x < goal) values /\ all_pairs values (fun s => s < goal) /\
  Forall (fun e => e.2 < goal) sorted /\ exists k, k_scan sorted goal = Ok k /\ k_ids k = Some (result_ids r).
Proof using laws Hvalues Hgoal Htotal.
  intros Hrun H3. destruct (find_combination_ok values goal Hvalues Hgoal Htotal) as (r' & Hr' & Hok).
  rewrite Hrun in Hr'. injection Hr' as <-.
  assert (Forall (fun x => x < goal) values /\ all_pairs values (fun s => s < goal)) as [H1 H2].
  { destruct r; cbn [result_ids length combination_ok] in *; try lia; tauto. }
  assert (values <> []) as Hne by (intros E; rewrite E in Hrun; injection Hrun as <-; cbn in H3; lia).
  split_and!; [| done | done | |].
  - destruct (lookup_lt_is_Some_2 values 0) as [x Hx]; [destruct values; [done | cbn; lia] |].
    pose proof (Forall_lookup_1 _ _ _ _ H1 Hx) as Hlt0. pose proof (Forall_lookup_1 _ _ _ _ Hvalues Hx) as [? _]. cbn in Hlt0. lia.
  - apply Forall_forall. intros e He. pose proof (indexed_value _ _ (sorted_indexed values) e He) as Hv. by apply (Forall_lookup_1 _ _ _ _ H1 Hv).
  - rewrite find_combination_cons in Hrun by done.
    destruct (two_scan sorted goal) as [two|]; [| done]. cbn [mbind result_bind] in Hrun.
    destruct two as [i j|i j e|]; [injection Hrun as <-; cbn in H3; lia | |].
    + destruct (one_scan sorted goal); injection Hrun as <-; cbn in H3; lia.
    + destruct (one_scan sorted goal); [injection Hrun as <-; cbn in H3; lia | injection Hrun as <-; cbn in H3; lia |].
      destruct (k_scan sorted goal) as [k|]; [| done]. cbn [mbind result_bind] in Hrun. exists k. split; [done |].
      destruct k; injection Hrun as <-; [done | done | cbn in H3; lia].
Qed.

(** A selection of three notes or more is of least size. *)
Lemma find_combination_min r ids :
  find_combination values goal = Ok r -> (3 <= length (result_ids r))%nat ->
  picked values ids -> (length ids < length (result_ids r))%nat -> sum_at values ids < goal.
Proof using laws Hvalues Hgoal Htotal.
  intros Hrun H3 Hp Hlt. destruct (find_combination_k r Hrun H3) as (H0 & H1 & H2 & Hall & k & Hk & Hids).
  pose proof (k_scan_min values goal Hvalues Htotal sorted k (sorted_indexed values) Hall (below_3 H0 H1 H2) H0 Hk) as Hmin.
  rewrite Hids in Hmin. specialize (Hmin (length ids) Hlt). pose proof (sum_at_top ids Hp). lia.
Qed.

Lemma find_combination_desc r :
  find_combination values goal = Ok r -> (3 <= length (result_ids r))%nat -> picks_descending values (result_ids r).
Proof using laws Hvalues Hgoal Htotal.
  intros Hrun H3. destruct (find_combination_k r Hrun H3) as (_ & _ & _ & Hall & k & Hk & Hids).
  eapply StronglySorted_sublist; [by eapply k_scan_sublist |].
  apply descending_picks; [apply indexed_rev, sorted_indexed | apply rev_descending, sort_ascending].
Qed.

End selection.
