(* ===== verification/Plan.v ===== *)
(** * Plans and spend sessions ([sdk/tx-planner/src/plan/mod.rs], [execute/mod.rs])

    A plan is a sequence of two-input transactions that merges the selected notes and
    pays out of the last merge; a session resolves each step against the wallet, turns
    it into the transaction to prove, and updates the wallet once it went through. *)

From S2P Require Import Prelude Ints Amounts Combination.

Record SpendableNote : Type := {
  sn_commitment : Field;
  sn_amount : NoteAmount;
}.

#[export] Instance SpendableNote_eq_dec : EqDecision SpendableNote.
Proof. solve_decision. Defined.

Record StepNote : Type := {
  step_commitment : option Field;
  step_amount : NoteAmount;
}.

Inductive StepAction : Type :=
| Consolidate (output : NoteAmount)
| Final (outputs : NoteAmount * option NoteAmount).

Record PlannedStep : Type := {
  inputs : StepNote * option StepNote;
  action : StepAction;
}.

(** [TransactionPlan]: its steps. *)
Record TransactionPlan : Type := {
  plan_steps : list PlannedStep;
}.

Definition assemble (steps : list PlannedStep) : option TransactionPlan :=
  match last steps with
  | Some {| inputs := _; action := Final _ |} => Some {| plan_steps := steps |}
  | _ => None
  end.

Definition from_spendable (note : SpendableNote) : StepNote :=
  {| step_commitment := Some (sn_commitment note); step_amount := sn_amount note |}.

Definition from_amount (amount : NoteAmount) : StepNote := {| step_commitment := None; step_amount := amount |}.

(** The loop over the notes after the first. *)
Fixpoint merge_steps (notes : list SpendableNote) (indices : list nat) (sum : NoteAmount) (prev_note : StepNote)
  : result PlanError (list PlannedStep) :=
  match indices with
  | [] => Ok []
  | index :: indices =>
      note ← ok_or (notes !! index) PlanPanic;
      let current_note := from_spendable note in
      match NoteAmount_checked_add sum (step_amount current_note) with
      | None => Err InputAmountOverflow
      | Some sum =>
          steps ← merge_steps notes indices sum (from_amount sum);
          Ok ({| inputs := (prev_note, Some current_note); action := Consolidate sum |} :: steps)
      end
  end.

(** [if let Some(last_step) = steps.last_mut() { last_step.action = ... }]. *)
Fixpoint set_last_action (a : StepAction) (steps : list PlannedStep) : list PlannedStep :=
  match steps with
  | [] => []
  | [s] => [{| inputs := inputs s; action := a |}]
  | s :: steps => s :: set_last_action a steps
  end.

(** The indices and the change an answer of the selection stands for. *)
Definition selection_of (combo : CombinationResult) : result PlanError (list nat * option NoteAmount) :=
  match combo with
  | Impossible => Err NoCombination
  | OneExact i => Ok ([i], None)
  | TwoExact i j => Ok ([i; j], None)
  | OneOvershoot i excess => Ok ([i], Some excess)
  | TwoOvershoot i j excess => Ok ([i; j], Some excess)
  | ExactK indices => Ok (indices, None)
  | Overshoot indices excess => Ok (indices, Some excess)
  end.

Fixpoint check_indices (notes : list SpendableNote) (indices : list nat) : result PlanError unit :=
  match indices with
  | [] => Ok tt
  | index :: indices => if (length notes <=? index)%nat then Err (NoteIndexOutOfRange index) else check_indices notes indices
  end.

Definition plan {srt : SortByAmount} (amount : NoteAmount) (notes : list SpendableNote) : result PlanError TransactionPlan :=
  match notes with
  | [] => Err NoSpendableNotes
  | _ =>
      let values := sn_amount <$> notes in
      combo ← find_combination values amount;
      sel ← selection_of combo;
      let '(indices, change) := sel in
      if (TRANSACTION_LIMIT <? length indices)%nat then Err (TooManyNotes (length indices) TRANSACTION_LIMIT)
      else
        check_indices notes indices;;
        match indices with
        | [] => Err PlanPanic
        | i0 :: rest =>
            n0 ← ok_or (notes !! i0) PlanPanic;
            let note0 := from_spendable n0 in
            steps ←
              (if (length indices =? 1)%nat then Ok [{| inputs := (note0, None); action := Final (amount, change) |}]
               else
                 steps ← merge_steps notes rest (step_amount note0) note0;
                 Ok (set_last_action (Final (amount, change)) steps));
            ok_or (assemble steps) InvalidPlan
        end
  end.

(** ** Resolution against the wallet *)

Definition resolve_input_note (input : StepNote) (notes : list SpendableNote) (sibling : option StepNote)
  : result PlanError SpendableNote :=
  match step_commitment input with
  | Some commitment =>
      note ← ok_or (List.find (fun note => sn_commitment note =? commitment) notes) (CommitmentNotFound commitment);
      if negb (sn_amount note =? step_amount input) then
        Err (NoteAmountMismatch commitment (sn_amount note) (step_amount input))
      else Ok note
  | None =>
      let excluded := sibling ≫= step_commitment in
      let matches := filter (fun note => excluded <> Some (sn_commitment note))
                       (filter (fun note => sn_amount note = step_amount input) notes) in
      match matches with
      | [] => Err (NoNoteForAmount (step_amount input))
      | [note] => Ok note
      | _ => Err (AmbiguousNoteForAmount (step_amount input))
      end
  end.

Definition resolve (step : PlannedStep) (notes : list SpendableNote) : result PlanError (list SpendableNote) :=
  first ← resolve_input_note (inputs step).1 notes (inputs step).2;
  match (inputs step).2 with
  | Some second =>
      note ← resolve_input_note second notes (Some (inputs step).1);
      Ok [first; note]
  | None => Ok [first]
  end.

(** ** Sessions *)

Inductive SpendSessionError : Type :=
| SpendPlan (e : PlanError)
| Complete
| ExtAmountOverflow
| MissingWithdrawRecipient.

Inductive SpendTarget : Type :=
| Transfer (recipient_note recipient_enc : bytes)
| Withdraw (recipient : string).

Record Transact : Type := {
  input_commitments : list Field;
  output_amounts : NoteAmount * NoteAmount;
  tr_ext_amount : ExtAmount;
  ext_recipient : string;
  out_recipient_note_pubkeys : option bytes * option bytes;
  out_recipient_encryption_pubkeys : option bytes * option bytes;
}.

Record SpendSession : Type := {
  steps : list PlannedStep;
  wallet : list SpendableNote;
  pool_address : string;
  target : SpendTarget;
  step_index : nat;
}.

Definition validate_target (t : SpendTarget) : result SpendSessionError unit :=
  match t with
  | Withdraw EmptyString => Err MissingWithdrawRecipient
  | _ => Ok tt
  end.

Definition setup {srt : SortByAmount} (w : list SpendableNote) (amount : NoteAmount) (pool : string) (t : SpendTarget)
  : result SpendSessionError SpendSession :=
  validate_target t;;
  tx_plan ← map_err SpendPlan (plan amount w);
  Ok {| steps := plan_steps tx_plan; wallet := w; pool_address := pool; target := t; step_index := 0 |}.

Definition is_done (s : SpendSession) : bool := (length (steps s) <=? step_index s)%nat.

Definition is_consolidate_step (s : SpendSession) : bool :=
  match steps s !! step_index s with
  | Some {| inputs := _; action := Consolidate _ |} => true
  | _ => false
  end.

Definition materialize_step (step : PlannedStep) (pool : string) (t : SpendTarget) (resolved_inputs : list SpendableNote)
  : result SpendSessionError Transact :=
  let commitments := sn_commitment <$> resolved_inputs in
  match action step with
  | Consolidate output =>
      Ok {| input_commitments := commitments; output_amounts := (output, NoteAmount_ZERO); tr_ext_amount := ExtAmount_ZERO;
            ext_recipient := pool; out_recipient_note_pubkeys := (None, None); out_recipient_encryption_pubkeys := (None, None) |}
  | Final outputs =>
      match t with
      | Transfer recipient_note recipient_enc =>
          let out1 := default NoteAmount_ZERO outputs.2 in
          let '(note_pks, enc_pks) :=
            match outputs.2 with
            | Some _ => ((Some recipient_note, None), (Some recipient_enc, None))
            | None => ((Some recipient_note, Some recipient_note), (Some recipient_enc, Some recipient_enc))
            end in
          Ok {| input_commitments := commitments; output_amounts := (outputs.1, out1); tr_ext_amount := ExtAmount_ZERO;
                ext_recipient := pool; out_recipient_note_pubkeys := note_pks; out_recipient_encryption_pubkeys := enc_pks |}
      | Withdraw recipient =>
          ext ← map_err (fun _ => ExtAmountOverflow) (ExtAmount_try_from_note outputs.1);
          ext_amount ← ok_or (ExtAmount_checked_neg ext) ExtAmountOverflow;
          Ok {| input_commitments := commitments; output_amounts := (default NoteAmount_ZERO outputs.2, NoteAmount_ZERO);
                tr_ext_amount := ext_amount; ext_recipient := recipient; out_recipient_note_pubkeys := (None, None);
                out_recipient_encryption_pubkeys := (None, None) |}
      end
  end.

Definition step (s : SpendSession) : result SpendSessionError (option Transact) :=
  if is_done s then Ok None
  else
    st ← ok_or (steps s !! step_index s) (SpendPlan PlanPanic);
    resolved ← map_err SpendPlan (resolve st (wallet s));
    t ← materialize_step st (pool_address s) (target s) resolved;
    Ok (Some t).

(** [for note in spent { wallet.retain(|n| n.commitment != note.commitment) }]. *)
Definition remove_spent (w spent : list SpendableNote) : list SpendableNote :=
  foldl (fun w note => filter (fun n => sn_commitment n <> sn_commitment note) w) w spent.

Definition complete_step (s : SpendSession) (output_commitments : Field * Field) : result SpendSessionError SpendSession :=
  if is_done s then Err Complete
  else
    st ← ok_or (steps s !! step_index s) (SpendPlan PlanPanic);
    spent ← map_err SpendPlan (resolve st (wallet s));
    let w := remove_spent (wallet s) spent in
    let w := match action st with
             | Consolidate output => w ++ [{| sn_commitment := output_commitments.1; sn_amount := output |}]
             | Final _ => w
             end in
    Ok {| steps := steps s; wallet := w; pool_address := pool_address s; target := target s; step_index := S (step_index s) |}.
