(* ===== verification/PlanFacts.v ===== *)
(** * What a plan does

    A plan exists exactly when ten notes of the wallet can cover the amount; its steps
    balance, feed each other and spend distinct notes of the wallet.  [SessionFacts.v] runs
    it to the end. *)

From stdpp Require Import sorting.
From S2P Require Import Prelude Ints Amounts Combination CombinationFacts CombinationMin Plan.

(** ** Notes by index *)

Definition no_note : SpendableNote := {| sn_commitment := 0; sn_amount := 0 |}.

Definition note_at (notes : list SpendableNote) (i : nat) : SpendableNote := default no_note (notes !! i).

Definition amounts (notes : list SpendableNote) : list Z := sn_amount <$> notes.

(** The wallet's notes outside a selection. *)
Definition others (notes : list SpendableNote) (ids : list nat) : list SpendableNote :=
  note_at notes <$> filter (fun i => i ∉ ids) (seq 0 (length notes)).

Lemma value_at_note notes i : value_at (amounts notes) i = sn_amount (note_at notes i).
Proof. unfold value_at, amounts, note_at. rewrite list_lookup_fmap. by destruct (notes !! i). Qed.

Lemma sum_at_notes notes ids : sum_at (amounts notes) ids = total (amounts (note_at notes <$> ids)).
Proof. induction ids as [|i ids IH]; [done |]. cbn [sum_at]. rewrite IH, value_at_note. done. Qed.

Lemma note_at_lookup notes i : (i < length notes)%nat -> notes !! i = Some (note_at notes i).
Proof. intros Hi. unfold note_at. by destruct (lookup_lt_is_Some_2 notes i Hi) as [n ->]. Qed.

Lemma notes_all notes : note_at notes <$> seq 0 (length notes) = notes.
Proof.
  apply list_eq. intros i. rewrite list_lookup_fmap. destruct (decide (i < length notes)%nat) as [Hi | Hi].
  - rewrite lookup_seq_lt by done. cbn. by rewrite note_at_lookup.
  - rewrite (lookup_ge_None_2 notes) by lia. rewrite lookup_ge_None_2; [done |]. rewrite length_seq. lia.
Qed.

Lemma seq_split n (ids : list nat) :
  NoDup ids -> Forall (fun i => (i < n)%nat) ids -> seq 0 n ≡ₚ ids ++ filter (fun i => i ∉ ids) (seq 0 n).
Proof.
  intros Hn Hr. apply NoDup_Permutation; [apply NoDup_seq | |].
  - apply NoDup_app. split_and!; [done | | apply NoDup_filter, NoDup_seq]. intros i Hi [Hni _]%list_elem_of_filter. done.
  - intros i. rewrite elem_of_app, list_elem_of_filter, elem_of_seq. rewrite Forall_forall in Hr. split.
    + intros Hi. destruct (decide (i ∈ ids)); [by left | right; split; [done | lia]].
    + intros [Hi | [_ Hi]]; [specialize (Hr i Hi); lia | done].
Qed.

Lemma wallet_split notes ids :
  picked (amounts notes) ids -> notes ≡ₚ (note_at notes <$> ids) ++ others notes ids.
Proof.
  intros [Hn Hr]. unfold amounts in Hr. rewrite length_fmap in Hr. rewrite <- (notes_all notes) at 1.
  rewrite (seq_split (length notes) ids Hn Hr) at 1. by rewrite fmap_app.
Qed.

(** ** The steps of a plan *)

(** The steps that merge [ns] into the note [prev] of amount [sum], and pay at the end. *)
Fixpoint steps_of (prev : StepNote) (sum : Z) (ns : list SpendableNote) (out : Z * option Z) : list PlannedStep :=
  match ns with
  | [] => [{| inputs := (prev, None); action := Final out |}]
  | [n] => [{| inputs := (prev, Some (from_spendable n)); action := Final out |}]
  | n :: ns =>
      {| inputs := (prev, Some (from_spendable n)); action := Consolidate (sum + sn_amount n) |} ::
      steps_of (from_amount (sum + sn_amount n)) (sum + sn_amount n) ns out
  end.

Lemma merge_steps_run notes ids prev sum out :
  Forall (fun i => (i < length notes)%nat) ids -> ids <> [] -> sum + sum_at (amounts notes) ids < 2 ^ 128 ->
  Forall is_note (amounts notes) ->
  exists steps, merge_steps notes ids sum prev = Ok steps /\ steps <> [] /\
    set_last_action (Final out) steps = steps_of prev sum (note_at notes <$> ids) out.
Proof.
  intros Hr Hne Hsum Hn. revert prev sum Hsum Hr Hne. induction ids as [|i ids IH]; intros prev sum Hsum Hr Hne; [done |].
  apply Forall_cons in Hr as [Hi Hr]. cbn [sum_at] in Hsum. rewrite value_at_note in Hsum. cbn [merge_steps].
  rewrite note_at_lookup by done. cbn [ok_or mbind result_bind]. set (n := note_at notes i) in *. unfold from_spendable at 1. cbn [step_amount].
  pose proof (sum_at_nonneg _ Hn ids) as H0.
  assert (NoteAmount_checked_add sum (sn_amount n) = Some (sum + sn_amount n)) as -> by (apply checked_add_Some; lia).
  destruct ids as [|j ids].
  - cbn [merge_steps mbind result_bind]. eexists. split; [reflexivity |]. split; [done |]. done.
  - destruct (IH (from_amount (sum + sn_amount n)) (sum + sn_amount n)) as (st & Hst & Hne' & Hs); [lia | done | done |].
    rewrite Hst. cbn [mbind result_bind]. eexists. split; [reflexivity |]. split; [done |].
    destruct st as [|s0 st]; [done |]. cbn [set_last_action]. cbn [set_last_action] in Hs.
    change ((note_at notes <$> i :: j :: ids)) with (n :: note_at notes j :: (note_at notes <$> ids)). cbn [steps_of].
    f_equal. exact Hs.
Qed.

Lemma steps_of_last prev sum ns out : exists s, last (steps_of prev sum ns out) = Some s /\ action s = Final out.
Proof.
  revert prev sum. induction ns as [|n ns IH]; intros prev sum; [eexists; split; [done | done] |]. cbn [steps_of]. destruct ns as [|n' ns].
  - eexists; split; done.
  - destruct (IH (from_amount (sum + sn_amount n)) (sum + sn_amount n)) as (s & Hs & Ha). exists s. split; [| done].
    rewrite last_cons, Hs. done.
Qed.

Lemma assemble_steps prev sum ns out : assemble (steps_of prev sum ns out) = Some {| plan_steps := steps_of prev sum ns out |}.
Proof. unfold assemble. destruct (steps_of_last prev sum ns out) as ([ins a] & -> & Ha). cbn in Ha. by rewrite Ha. Qed.

(** ** When a plan exists *)

Lemma picked_pair values i j s : two_notes values i j s -> picked values [i; j] /\ sum_at values [i; j] = s.
Proof.
  intros (Hij & x & y & Hx & Hy & <-). split.
  - split; [apply NoDup_cons; split; [by intros ->%list_elem_of_singleton | apply NoDup_singleton] |].
    repeat constructor; by eapply lookup_lt_Some.
  - cbn [sum_at]. unfold value_at. rewrite Hx, Hy. cbn. lia.
Qed.

Lemma picked_one values i x : values !! i = Some x -> picked values [i] /\ sum_at values [i] = x.
Proof.
  intros Hx. split.
  - split; [apply NoDup_singleton | repeat constructor; by eapply lookup_lt_Some].
  - cbn [sum_at]. unfold value_at. rewrite Hx. cbn. lia.
Qed.

Lemma selection_ok values goal r :
  Forall is_note values -> values <> [] -> 0 <= goal -> combination_ok values goal r -> r <> Impossible ->
  exists change, selection_of r = Ok (result_ids r, change) /\ picked values (result_ids r) /\ result_ids r <> [] /\
    sum_at values (result_ids r) = goal + default 0 change /\ 0 <= default 0 change.
Proof.
  intros Hv Hne Hg Hok Hr. destruct r as [i j|i|i j e|i e|ids|ids e|]; cbn [combination_ok selection_of result_ids] in *; [.. | done].
  - apply picked_pair in Hok as [Hp Hs]. exists None. change (default 0 None) with 0. split_and!; [done | done | done | lia | done].
  - destruct (picked_one values i goal (proj1 Hok)) as [Hp Hs]. exists None. change (default 0 None) with 0. split_and!; [done | done | done | lia | done].
  - destruct (picked_pair values i j _ (proj1 Hok)) as [Hp Hs]. exists (Some e). split_and!; [done | done | done | done | cbn; lia].
  - destruct (picked_one values i _ (proj1 Hok)) as [Hp Hs]. exists (Some e). split_and!; [done | done | done | done | cbn; lia].
  - destruct Hok as (Hp & Hl & Hs & _). exists None. change (default 0 None) with 0. split_and!; [done | done | | lia | done]. intros ->. cbn in Hl. lia.
  - destruct Hok as (Hp & Hs & He & Hall & _). exists (Some e). split_and!; [done | done | | done | done]. intros ->. cbn in Hs.
    destruct values as [|x xs]; [done |]. apply Forall_cons in Hall as [Hx _]. apply Forall_cons in Hv as [[? _] _]. lia.
Qed.

Lemma check_indices_ok notes ids : Forall (fun i => (i < length notes)%nat) ids -> check_indices notes ids = Ok tt.
Proof. induction 1 as [|i ids Hi _ IH]; [done |]. cbn [check_indices]. by rewrite (proj2 (Nat.leb_gt _ _)). Qed.

(** The plan of a selection. *)
Definition planned (notes : list SpendableNote) (amount : Z) (ids : list nat) (change : option Z) : list PlannedStep :=
  match note_at notes <$> ids with
  | [] => []
  | n0 :: ns => steps_of (from_spendable n0) (sn_amount n0) ns (amount, change)
  end.

Section plan.
Context {srt : SortByAmount} {laws : SortByAmountLaws srt}.
Variables (notes : list SpendableNote) (amount : Z).
Hypotheses (Hnotes : Forall is_note (amounts notes)) (Hamount : is_note amount) (Htotal : total (amounts notes) < 2 ^ 128).

Local Abbreviation values := (amounts notes).

(** Distinct notes of the wallet, at most ten, that reach the amount. *)
Definition coverable : Prop := exists ids, picked values ids /\ (length ids <= TRANSACTION_LIMIT)%nat /\ amount <= sum_at values ids.

Lemma plan_cases :
  notes <> [] ->
  exists r, find_combination values amount = Ok r /\ combination_ok values amount r /\
    (r = Impossible -> plan amount notes = Err NoCombination) /\
    (r <> Impossible -> (TRANSACTION_LIMIT < length (result_ids r))%nat ->
       plan amount notes = Err (TooManyNotes (length (result_ids r)) TRANSACTION_LIMIT)) /\
    (r <> Impossible -> (length (result_ids r) <= TRANSACTION_LIMIT)%nat ->
       exists change, plan amount notes = Ok {| plan_steps := planned notes amount (result_ids r) change |} /\
         picked values (result_ids r) /\ result_ids r <> [] /\
         sum_at values (result_ids r) = amount + default 0 change /\ 0 <= default 0 change).
Proof using laws Hnotes Hamount Htotal.
  intros Hne. assert (values <> []) as Hvne by (intros E; apply fmap_nil_inv in E; done).
  destruct (find_combination_ok values amount Hnotes Hamount Htotal) as (r & Hr & Hok). exists r. split_and!; [done | done | ..].
  - intros ->. unfold plan. destruct notes; [done |]. fold (amounts (s :: l)). rewrite Hr. done.
  - intros Hi Hlen. destruct (selection_ok values amount r Hnotes Hvne ltac:(apply Hamount) Hok Hi) as (change & Hsel & _).
    unfold plan. destruct notes; [done |]. fold (amounts (s :: l)). rewrite Hr. cbn [mbind result_bind]. rewrite Hsel. cbn [mbind result_bind].
    by rewrite (proj2 (Nat.ltb_lt _ _)).
  - intros Hi Hlen. destruct (selection_ok values amount r Hnotes Hvne ltac:(apply Hamount) Hok Hi) as (change & Hsel & Hp & Hids & Hsum & Hch).
    exists change. split_and!; [| done ..]. pose proof (sum_at_le values Hnotes _ Hp) as Hle. destruct Hp as [Hnd Hrange].
    unfold amounts in Hrange. rewrite length_fmap in Hrange.
    assert (plan amount notes =
      (sel ← selection_of r;
       let '(indices, change) := sel in
       if (TRANSACTION_LIMIT <? length indices)%nat then Err (TooManyNotes (length indices) TRANSACTION_LIMIT)
       else
         check_indices notes indices;;
         match indices with
         | [] => Err PlanPanic
         | i0 :: rest =>
             n0 ← ok_or (notes !! i0) PlanPanic;
             let note0 := from_spendable n0 in
             steps ←
               (if (length indices =? 1)%nat then Ok [{| inputs := (note0, None); action := Final (amount, change) |}]
                else
                  steps ← merge_steps notes rest (step_amount note0) note0;
                  Ok (set_last_action (Final (amount, change)) steps));
             ok_or (assemble steps) InvalidPlan
         end)) as ->.
    { unfold plan. destruct notes as [|n l]; [done |]. fold (amounts (n :: l)). rewrite Hr. done. }
    rewrite Hsel. cbn [mbind result_bind]. rewrite (proj2 (Nat.ltb_ge _ _)) by done. rewrite check_indices_ok by done. cbn [mbind result_bind].
    unfold planned. destruct (result_ids r) as [|i0 rest]; [done |]. apply Forall_cons in Hrange as [Hi0 Hrange].
    rewrite note_at_lookup by done. cbn [ok_or mbind result_bind fmap list_fmap]. set (n0 := note_at notes i0) in *.
    cbn [length]. destruct rest as [|i1 rest].
    + cbn [Nat.eqb]. done.
    + cbn [Nat.eqb]. rewrite fmap_cons in *.
      assert (step_amount (from_spendable n0) + sum_at values (i1 :: rest) < 2 ^ 128) as Hlt.
      { cbn [sum_at] in Hle. rewrite (value_at_note notes i0) in Hle. fold n0 in Hle. cbn [step_amount from_spendable sum_at]. lia. }
      destruct (merge_steps_run notes (i1 :: rest) (from_spendable n0) (step_amount (from_spendable n0)) (amount, change) Hrange ltac:(done) Hlt Hnotes)
        as (st & -> & _ & Hset). cbn [mbind result_bind]. rewrite Hset. cbn [length Nat.eqb mbind result_bind].
      rewrite assemble_steps. done.
Qed.

Lemma plan_iff_coverable : notes <> [] -> (exists p, plan amount notes = Ok p) <-> coverable.
Proof using laws Hnotes Hamount Htotal.
  intros Hne. destruct (plan_cases Hne) as (r & Hr & Hok & Himp & Hmany & Hplan). split.
  - intros [p Hp]. assert (r <> Impossible) as Hi by (intros ->; rewrite Himp in Hp; done).
    destruct (decide (length (result_ids r) <= TRANSACTION_LIMIT)%nat) as [Hle | Hgt]; [| rewrite Hmany in Hp by (done || lia); done].
    destruct (Hplan Hi Hle) as (change & _ & Hpk & _ & Hs & Hc). exists (result_ids r). split_and!; [done | done | lia].
  - intros (ids & Hpk & Hle & Hs).
    assert (r <> Impossible) as Hi.
    { intros ->. cbn [combination_ok] in Hok. destruct Hok as [Hnil | Hlt]; [by apply fmap_nil_inv in Hnil |].
      pose proof (sum_at_le values Hnotes ids Hpk). lia. }
    destruct (decide (length (result_ids r) <= TRANSACTION_LIMIT)%nat) as [Hle' | Hgt].
    + destruct (Hplan Hi Hle') as (change & Hp & _). eauto.
    + exfalso. pose proof (find_combination_min values amount Hnotes Hamount Htotal r ids Hr) as Hmin.
      unfold TRANSACTION_LIMIT in *. specialize (Hmin ltac:(lia) Hpk ltac:(lia)). lia.
Qed.

End plan.

(** ** What the steps do *)

Definition input_sum (s : PlannedStep) : Z :=
  step_amount (inputs s).1 + match (inputs s).2 with Some n => step_amount n | None => 0 end.

(** A step pays out what it takes in. *)
Definition balanced (s : PlannedStep) : Prop :=
  match action s with
  | Consolidate output => input_sum s = output
  | Final (a, change) => input_sum s = a + default 0 change
  end.

(** Every step but the last merges into the first input of the next; the last is final. *)
Fixpoint linked (out : Z * option Z) (ss : list PlannedStep) : Prop :=
  match ss with
  | [] => False
  | [s] => action s = Final out
  | s :: ((s' :: _) as ss) => (exists o, action s = Consolidate o /\ (inputs s').1 = from_amount o) /\ linked out ss
  end.

(** The notes of the wallet the steps name, as commitment and amount. *)
Definition named_inputs (s : PlannedStep) : list (Field * Z) :=
  omap (fun n => c ← step_commitment n; Some (c, step_amount n))
    ((inputs s).1 :: match (inputs s).2 with Some n => [n] | None => [] end).

Definition note_pair (n : SpendableNote) : Field * Z := (sn_commitment n, sn_amount n).

Lemma steps_of_length prev sum ns out : length (steps_of prev sum ns out) = Nat.max 1 (length ns).
Proof.
  revert prev sum. induction ns as [|n ns IH]; intros prev sum; [done |]. cbn [steps_of]. destruct ns as [|n' ns]; [done |].
  cbn [length]. rewrite IH. cbn [length]. lia.
Qed.

Lemma steps_of_balanced prev sum ns out :
  step_amount prev = sum -> sum + total (amounts ns) = out.1 + default 0 out.2 -> Forall balanced (steps_of prev sum ns out).
Proof.
  revert prev sum. induction ns as [|n ns IH]; intros prev sum Hp Hs; cbn [steps_of].
  - constructor; [| done]. unfold balanced, input_sum. destruct out as [a c]. cbn in *. lia.
  - destruct ns as [|n' ns].
    + constructor; [| done]. unfold balanced, input_sum. destruct out as [a c]. cbn in *. lia.
    + constructor; [unfold balanced, input_sum; cbn; lia |]. apply IH; [done |].
      unfold amounts in *. rewrite fmap_cons in Hs. cbn [total] in Hs. lia.
Qed.

Lemma steps_of_linked prev sum ns out : linked out (steps_of prev sum ns out).
Proof.
  revert prev sum. induction ns as [|n ns IH]; intros prev sum; [done |]. cbn [steps_of]. destruct ns as [|n' ns]; [done |].
  specialize (IH (from_amount (sum + sn_amount n)) (sum + sn_amount n)).
  assert (exists s ss, steps_of (from_amount (sum + sn_amount n)) (sum + sn_amount n) (n' :: ns) out = s :: ss /\
                  (inputs s).1 = from_amount (sum + sn_amount n)) as (s & ss & E & Ei).
  { cbn [steps_of]. destruct ns; eauto. }
  rewrite E in *. split; [| done]. exists (sum + sn_amount n). done.
Qed.

Lemma steps_of_named prev sum ns out :
  mjoin (named_inputs <$> steps_of prev sum ns out) =
  (match step_commitment prev with Some c => [(c, step_amount prev)] | None => [] end) ++ (note_pair <$> ns).
Proof.
  revert prev sum. induction ns as [|n ns IH]; intros prev sum; cbn [steps_of].
  - unfold named_inputs. cbn. by destruct (step_commitment prev).
  - destruct ns as [|n' ns].
    + unfold named_inputs. cbn. by destruct (step_commitment prev).
    + rewrite fmap_cons. cbn [mjoin list_join]. rewrite IH. unfold named_inputs at 1. cbn [inputs fst snd step_commitment from_amount app].
      cbn. by destruct (step_commitment prev).
Qed.

(** C26. Plans: for a wallet whose total fits an amount, [plan] succeeds exactly when at most
    ten notes of it can cover the amount (with no note it says so, with too little it says
    that no combination exists, and otherwise that too many notes are needed).  A plan takes
    at most nine transactions; each pays out what it takes in; each but the last merges into
    the first input of the next; the last one pays the amount and the change; and the wallet
    notes the steps name are distinct ones, whose sum is the amount and the change. *)
Theorem plan_correct (srt : SortByAmount) (laws : SortByAmountLaws srt) (notes : list SpendableNote) (amount : NoteAmount) :
  Forall is_note (amounts notes) -> is_note amount -> total (amounts notes) < 2 ^ 128 ->
  (notes = [] -> plan amount notes = Err NoSpendableNotes) /\
  (notes <> [] -> (exists p, plan amount notes = Ok p) <-> coverable notes amount) /\
  (notes <> [] -> total (amounts notes) < amount -> plan amount notes = Err NoCombination) /\
  (notes <> [] -> amount <= total (amounts notes) -> ~ coverable notes amount ->
     exists k, plan amount notes = Err (TooManyNotes k TRANSACTION_LIMIT)) /\
  (forall p, plan amount notes = Ok p ->
     exists ids change, picked (amounts notes) ids /\ sum_at (amounts notes) ids = amount + default 0 change /\ 0 <= default 0 change /\
       (1 <= length (plan_steps p) <= 9)%nat /\ Forall balanced (plan_steps p) /\ linked (amount, change) (plan_steps p) /\
       mjoin (named_inputs <$> plan_steps p) = (fun i => note_pair (note_at notes i)) <$> ids).
Proof.
  intros Hn Ha Ht. split; [by intros -> |]. split; [intros Hne; by apply plan_iff_coverable |].
  destruct (decide (notes = [])) as [-> | Hne]; [split_and!; done |].
  destruct (plan_cases notes amount Hn Ha Ht Hne) as (r & Hr & Hok & Himp & Hmany & Hplan).
  destruct (plan_iff_coverable notes amount Hn Ha Ht Hne) as [_ Hcov]. split_and!.
  - intros _ Hlt. apply Himp. destruct (decide (r = Impossible)) as [| Hi]; [done | exfalso].
    destruct (selection_ok (amounts notes) amount r Hn) as (change & _ & Hp & _ & Hs & Hc); [| apply Ha | done | done |].
    + intros E. by apply fmap_nil_inv in E.
    + pose proof (sum_at_le (amounts notes) Hn _ Hp). lia.
  - intros _ Hge Hnc. assert (r <> Impossible) as Hi.
    { intros ->. cbn [combination_ok] in Hok. destruct Hok as [E | ?]; [by apply fmap_nil_inv in E | lia]. }
    destruct (decide (TRANSACTION_LIMIT < length (result_ids r))%nat) as [Hgt | Hle]; [eauto |]. exfalso. apply Hnc.
    destruct (Hplan Hi ltac:(lia)) as (change & _ & Hp & _ & Hs & Hc). exists (result_ids r). split_and!; [done | lia | lia].
  - intros p Hp. assert (r <> Impossible) as Hi by (intros ->; rewrite Himp in Hp; done).
    destruct (decide (TRANSACTION_LIMIT < length (result_ids r))%nat) as [Hgt | Hle]; [by rewrite Hmany in Hp |].
    destruct (Hplan Hi ltac:(lia)) as (change & Hp' & Hpk & Hids & Hs & Hc). rewrite Hp in Hp'. injection Hp' as ->.
    exists (result_ids r), change. rewrite sum_at_notes in Hs. cbn [plan_steps]. unfold planned.
    rewrite <- sum_at_notes in Hs. destruct (result_ids r) as [|i0 rest] eqn:Eids; [done |]. rewrite fmap_cons. cbn [sum_at] in Hs.
    rewrite (value_at_note notes i0), sum_at_notes in Hs. split_and!; [done | | done | | | | |].
    + cbn [sum_at]. rewrite value_at_note, sum_at_notes. done.
    + rewrite steps_of_length. lia.
    + rewrite steps_of_length, length_fmap. unfold TRANSACTION_LIMIT in Hle. cbn [length] in Hle. lia.
    + by apply steps_of_balanced.
    + apply steps_of_linked.
    + rewrite steps_of_named. cbn [from_spendable step_commitment step_amount app]. rewrite fmap_cons. f_equal.
      by rewrite <- list_fmap_compose.
Qed.

Lemma plan_correct_witness :
  exists p, plan 10 [{| sn_commitment := 1; sn_amount := 2 |}; {| sn_commitment := 2; sn_amount := 3 |}; {| sn_commitment := 3; sn_amount := 5 |}] = Ok p.
Proof.
  apply (proj1 (proj2 (plan_correct ref_sort ref_sort_laws
    [{| sn_commitment := 1; sn_amount := 2 |}; {| sn_commitment := 2; sn_amount := 3 |}; {| sn_commitment := 3; sn_amount := 5 |}] 10
    ltac:(repeat constructor; cbn; lia) ltac:(split; lia) ltac:(vm_compute; reflexivity)))); [discriminate |].
  exists [0; 1; 2]%nat. split; [| split; [unfold TRANSACTION_LIMIT; cbn; lia | vm_compute; congruence]].
  split; [apply (bool_decide_eq_true_1 _); vm_compute; reflexivity | repeat constructor; cbn; lia].
Defined.
