(* ===== verification/SessionFacts.v ===== *)
(** * Spend sessions run to the end

    A session alternates [step] (the next transaction to prove) and [complete_step] (the
    wallet update).  Because the selection is of least size and largest first, the merged
    note of every step is the only one of its amount, so that no step is ambiguous. *)

From stdpp Require Import sorting.
From S2P Require Import Prelude Ints Amounts Combination CombinationFacts CombinationMin Plan PlanFacts.

Definition commitments (w : list SpendableNote) : list Field := sn_commitment <$> w.

(** ** Resolving inputs *)

Lemma find_commitment (w : list SpendableNote) (n : SpendableNote) :
  NoDup (commitments w) -> n ∈ w -> List.find (fun m => sn_commitment m =? sn_commitment n) w = Some n.
Proof.
  induction w as [|m w IH]; intros Hnd Hin; [by apply elem_of_nil in Hin |]. unfold commitments in Hnd.
  rewrite fmap_cons, NoDup_cons in Hnd. destruct Hnd as [Hni Hnd]. cbn [List.find]. apply elem_of_cons in Hin as [-> | Hin].
  - by rewrite Z.eqb_refl.
  - destruct (Z.eqb_spec (sn_commitment m) (sn_commitment n)) as [E | E]; [| by apply IH].
    exfalso. apply Hni. rewrite E. by apply list_elem_of_fmap_2.
Qed.

Lemma resolve_named w n sib :
  NoDup (commitments w) -> n ∈ w -> resolve_input_note (from_spendable n) w sib = Ok n.
Proof.
  intros Hnd Hin. unfold resolve_input_note. cbn [from_spendable step_commitment step_amount]. rewrite find_commitment by done.
  cbn [ok_or mbind result_bind]. by rewrite Z.eqb_refl.
Qed.

(** The only note of its amount besides the sibling. *)
Definition only_amount (w : list SpendableNote) (p : SpendableNote) (sib : option SpendableNote) : Prop :=
  forall x, x ∈ w -> sn_amount x = sn_amount p -> x = p \/ Some x = sib.

Lemma filter_single {A} (P : A -> Prop) `{forall x, Decision (P x)} (l : list A) (p : A) :
  NoDup l -> p ∈ l -> P p -> (forall x, x ∈ l -> P x -> x = p) -> filter P l = [p].
Proof.
  intros Hnd Hin HP Hu. assert (filter P l ≡ₚ [p]) as Hperm; [| by apply Permutation_singleton_r in Hperm].
  apply NoDup_Permutation; [by apply NoDup_filter | apply NoDup_singleton |]. intros x. rewrite list_elem_of_filter, list_elem_of_singleton.
  split; [intros [? ?]; by apply Hu | intros ->; done].
Qed.

Lemma resolve_amount w p sib :
  NoDup (commitments w) -> p ∈ w -> only_amount w p sib -> (forall s, sib = Some s -> sn_commitment s <> sn_commitment p) ->
  resolve_input_note (from_amount (sn_amount p)) w (from_spendable <$> sib) = Ok p.
Proof.
  intros Hnd Hin Ho Hs. unfold resolve_input_note. cbn [from_amount step_commitment step_amount].
  set (excluded := (from_spendable <$> sib) ≫= step_commitment).
  assert (excluded = sn_commitment <$> sib) as Ex by (unfold excluded; by destruct sib). rewrite list_filter_filter.
  rewrite (filter_single _ w p); [done | | done | |].
  - by apply (NoDup_fmap_1 sn_commitment).
  - split; [| done]. rewrite Ex. destruct sib as [s|]; [| done]. cbn. intros [= E]. by apply (Hs s).
  - intros x Hx [Hne Ha]. destruct (Ho x Hx Ha) as [| E]; [done |]. destruct Hne. by rewrite Ex, <- E.
Qed.

(** The first input of a step stands for the note [p] of the wallet. *)
Definition stands_for (w : list SpendableNote) (prev : StepNote) (p : SpendableNote) (sib : option SpendableNote) : Prop :=
  prev = from_spendable p \/ (prev = from_amount (sn_amount p) /\ only_amount w p sib).

Lemma resolve_first w prev p sib :
  NoDup (commitments w) -> p ∈ w -> stands_for w prev p sib -> (forall s, sib = Some s -> sn_commitment s <> sn_commitment p) ->
  resolve_input_note prev w (from_spendable <$> sib) = Ok p.
Proof. intros Hnd Hin [-> | [-> Ho]] Hs; [by apply resolve_named | by apply resolve_amount]. Qed.

Lemma resolve_two w prev p n a :
  NoDup (commitments w) -> p ∈ w -> n ∈ w -> sn_commitment n <> sn_commitment p -> stands_for w prev p (Some n) ->
  resolve {| inputs := (prev, Some (from_spendable n)); action := a |} w = Ok [p; n].
Proof.
  intros Hnd Hp Hn Hne Hst. unfold resolve. cbn [inputs fst snd].
  pose proof (resolve_first w prev p (Some n) Hnd Hp Hst ltac:(intros s [= <-]; done)) as Hr.
  cbn [fmap option_fmap option_map] in Hr. rewrite Hr. cbn [mbind result_bind].
  by rewrite resolve_named.
Qed.

Lemma resolve_one w prev p a :
  NoDup (commitments w) -> p ∈ w -> stands_for w prev p None ->
  resolve {| inputs := (prev, None); action := a |} w = Ok [p].
Proof. intros Hnd Hp Hst. unfold resolve. cbn [inputs fst snd].
  pose proof (resolve_first w prev p None Hnd Hp Hst ltac:(done)) as Hr. cbn [fmap option_fmap option_map] in Hr. by rewrite Hr.
Qed.

(** ** Removing spent notes *)

Lemma remove_note w n rest :
  w ≡ₚ n :: rest -> NoDup (commitments w) -> filter (fun m => sn_commitment m <> sn_commitment n) w ≡ₚ rest.
Proof.
  intros Hp Hnd. rewrite Hp. rewrite filter_cons, decide_False by tauto.
  assert (sn_commitment n ∉ commitments rest) as Hni.
  { unfold commitments in *. rewrite Hp, fmap_cons, NoDup_cons in Hnd. tauto. }
  rewrite filter_all; [done |]. intros m Hm E. apply Hni. rewrite <- E. by apply list_elem_of_fmap_2.
Qed.

Lemma remove_two w p n rest :
  w ≡ₚ p :: n :: rest -> NoDup (commitments w) -> remove_spent w [p; n] ≡ₚ rest.
Proof.
  intros Hp Hnd. unfold remove_spent. cbn [foldl]. pose proof (remove_note w p (n :: rest) Hp Hnd) as H1.
  apply remove_note; [done |]. unfold commitments in *. rewrite H1. rewrite Hp, fmap_cons, NoDup_cons in Hnd. tauto.
Qed.

(** ** Running a session *)

(** The caller's loop: prove and submit the step, then complete it with the output
    commitments of the proof; with the wallet each transaction was made from. *)
Fixpoint run_session (s : SpendSession) (outs : list (Field * Field))
  : result SpendSessionError (list (list SpendableNote * Transact) * SpendSession) :=
  match outs with
  | [] => Ok ([], s)
  | out :: outs =>
      t ← step s;
      t ← ok_or t Complete;
      s' ← complete_step s out;
      r ← run_session s' outs;
      Ok ((wallet s, t) :: r.1, r.2)
  end.

(** A transaction conserves value: it spends distinct notes of the wallet, and what they hold,
    with the external amount, is what it puts out. *)
Definition conserves (w : list SpendableNote) (t : Transact) : Prop :=
  exists spent, (forall n, n ∈ spent -> n ∈ w) /\ commitments spent = input_commitments t /\ NoDup (input_commitments t) /\
    total (amounts spent) + tr_ext_amount t = (output_amounts t).1 + (output_amounts t).2.

(** The final transaction pays the target. *)
Definition pays (tg : SpendTarget) (amount : Z) (change : option Z) (t : Transact) : Prop :=
  match tg with
  | Transfer note_pk enc_pk =>
      output_amounts t = (amount, default 0 change) /\ tr_ext_amount t = 0 /\
      (out_recipient_note_pubkeys t).1 = Some note_pk /\ (out_recipient_encryption_pubkeys t).1 = Some enc_pk /\
      (change <> None -> (out_recipient_note_pubkeys t).2 = None /\ (out_recipient_encryption_pubkeys t).2 = None)
  | Withdraw recipient =>
      tr_ext_amount t = - amount /\ ext_recipient t = recipient /\ output_amounts t = (default 0 change, 0) /\
      out_recipient_note_pubkeys t = (None, None) /\ out_recipient_encryption_pubkeys t = (None, None)
  end.

Definition target_fits (tg : SpendTarget) (amount : Z) : Prop :=
  match tg with Transfer _ _ => True | Withdraw _ => amount < 2 ^ 127 end.

Lemma materialize_consolidate ins o pool tg spent :
  materialize_step {| inputs := ins; action := Consolidate o |} pool tg spent =
  Ok {| input_commitments := commitments spent; output_amounts := (o, 0); tr_ext_amount := 0; ext_recipient := pool;
        out_recipient_note_pubkeys := (None, None); out_recipient_encryption_pubkeys := (None, None) |}.
Proof. done. Qed.

Lemma materialize_final ins amount change pool tg spent :
  target_fits tg amount -> 0 <= amount ->
  exists t, materialize_step {| inputs := ins; action := Final (amount, change) |} pool tg spent = Ok t /\
    input_commitments t = commitments spent /\ pays tg amount change t /\
    (total (amounts spent) = amount + default 0 change ->
     total (amounts spent) + tr_ext_amount t = (output_amounts t).1 + (output_amounts t).2).
Proof.
  intros Hf H0. destruct tg as [pk ek|recipient]; unfold materialize_step; cbn [action fst snd].
  - destruct change as [c|]; eexists; (split; [reflexivity |]); (split; [done |]);
      cbn [pays output_amounts tr_ext_amount out_recipient_note_pubkeys out_recipient_encryption_pubkeys fst snd];
      (split; [split_and!; done |]); intros ->; unfold ExtAmount_ZERO, NoteAmount_ZERO; cbn; lia.
  - cbn [target_fits] in Hf. unfold ExtAmount_try_from_note, ExtAmount_checked_neg, checked_neg_i, try_into_i, fits_i.
    change (128 - 1) with 127.
    rewrite (proj2 (Z.leb_le (- 2 ^ 127) amount)), (proj2 (Z.ltb_lt amount (2 ^ 127))) by lia. cbn [andb ok_or map_err mbind result_bind].
    rewrite (proj2 (Z.leb_le (- 2 ^ 127) (- amount))), (proj2 (Z.ltb_lt (- amount) (2 ^ 127))) by lia. cbn [andb ok_or mbind result_bind].
    eexists. split; [reflexivity |]. split; [done |]. cbn [pays output_amounts tr_ext_amount ext_recipient fst snd out_recipient_note_pubkeys out_recipient_encryption_pubkeys].
    split; [split_and!; done |]. intros ->. unfold NoteAmount_ZERO. lia.
Qed.

(** No unspent note has the amount of a merge. *)
Fixpoint distinct_sums (os : list SpendableNote) (sum : Z) (ns : list SpendableNote) : Prop :=
  match ns with
  | n :: ((_ :: rest) as ns') =>
      (forall x, x ∈ rest ++ os -> sn_amount x <> sum + sn_amount n) /\ distinct_sums os (sum + sn_amount n) ns'
  | _ => True
  end.

(** What a run of the remaining steps gives. *)
Definition ran (s : SpendSession) (outs : list (Field * Field)) (os : list SpendableNote) (amount : Z) (change : option Z) : Prop :=
  exists txs s', run_session s outs = Ok (txs, s') /\ length txs = length outs /\ is_done s' = true /\ wallet s' ≡ₚ os /\
    Forall (fun e => conserves e.1 e.2) txs /\ (exists e, last txs = Some e /\ pays (target s) amount change e.2).

Lemma is_done_lt s : (step_index s < length (steps s))%nat -> is_done s = false.
Proof. intros H. unfold is_done. by apply Nat.leb_gt. Qed.

(** The last step of a session. *)
Lemma run_final s pre ins amount change spent os out :
  steps s = pre ++ [{| inputs := ins; action := Final (amount, change) |}] -> step_index s = length pre ->
  resolve {| inputs := ins; action := Final (amount, change) |} (wallet s) = Ok spent ->
  wallet s ≡ₚ spent ++ os -> NoDup (commitments spent) -> remove_spent (wallet s) spent ≡ₚ os ->
  total (amounts spent) = amount + default 0 change -> target_fits (target s) amount -> 0 <= amount ->
  ran s [out] os amount change.
Proof.
  intros Hs Hi Hr Hw Hnd Hrem Hsum Hf H0.
  assert (steps s !! step_index s = Some {| inputs := ins; action := Final (amount, change) |}) as Hl.
  { rewrite Hs, Hi. apply list_lookup_middle. done. }
  pose proof (is_done_lt s ltac:(rewrite Hs, length_app, Hi; cbn; lia)) as Hd.
  destruct (materialize_final ins amount change (pool_address s) (target s) spent Hf H0) as (t & Ht & Hc & Hpays & Hbal).
  unfold ran. cbn [run_session]. unfold step, complete_step. rewrite Hd, Hl. cbn [ok_or mbind result_bind]. rewrite Hr.
  cbn [map_err mbind result_bind]. rewrite Ht. cbn [ok_or mbind result_bind action fst snd].
  do 2 eexists. split; [reflexivity |]. split_and!.
  - done.
  - unfold is_done. cbn [steps step_index]. apply Nat.leb_le. rewrite Hs, length_app, Hi. cbn. lia.
  - done.
  - constructor; [| done]. cbn [fst snd]. exists spent. split_and!; [| done | by rewrite Hc | by apply Hbal].
    intros n Hn. rewrite Hw. apply elem_of_app. by left.
  - eexists. split; [reflexivity |]. done.
Qed.

(** ** Running all the steps *)

Lemma fresh_app (outs : list (Field * Field)) w w' :
  w ≡ₚ w' -> NoDup (outs.*1 ++ commitments w) -> NoDup (outs.*1 ++ commitments w').
Proof. intros Hp H. unfold commitments in *. by rewrite <- Hp. Qed.

(** A merge step: the two inputs are spent, the merged note joins the wallet. *)
Lemma run_consolidate s pre prev p n o rest out outs os amount change post :
  steps s = pre ++ {| inputs := (prev, Some (from_spendable n)); action := Consolidate o |} :: post -> step_index s = length pre ->
  wallet s ≡ₚ p :: n :: rest -> NoDup (commitments (wallet s)) -> stands_for (wallet s) prev p (Some n) ->
  o = sn_amount p + sn_amount n ->
  (forall s', steps s' = (pre ++ [{| inputs := (prev, Some (from_spendable n)); action := Consolidate o |}]) ++ post ->
     step_index s' = S (length pre) -> target s' = target s ->
     wallet s' ≡ₚ {| sn_commitment := out.1; sn_amount := o |} :: rest -> ran s' outs os amount change) ->
  ran s (out :: outs) os amount change.
Proof.
  intros Hs Hi Hw Hnd Hst Ho Hnext. set (st := {| inputs := _; action := _ |}) in *.
  assert (steps s !! step_index s = Some st) as Hl by (rewrite Hs, Hi; by apply list_lookup_middle).
  pose proof (is_done_lt s ltac:(rewrite Hs, length_app, Hi; cbn; lia)) as Hd.
  assert (NoDup (commitments [p; n])) as Hnd2.
  { unfold commitments in *. rewrite Hw in Hnd. rewrite !fmap_cons in *. apply (NoDup_app [_; _] (sn_commitment <$> rest)) in Hnd. tauto. }
  assert (resolve st (wallet s) = Ok [p; n]) as Hr.
  { apply resolve_two; [done | rewrite Hw; by left | rewrite Hw; right; by left | | done].
    apply NoDup_cons in Hnd2 as [Hni _]. intros E. apply Hni. rewrite <- E. by left. }
  pose proof (remove_two (wallet s) p n rest Hw Hnd) as Hrem.
  set (s1 := {| steps := steps s; wallet := remove_spent (wallet s) [p; n] ++ [{| sn_commitment := out.1; sn_amount := o |}];
                pool_address := pool_address s; target := target s; step_index := S (step_index s) |}).
  destruct (Hnext s1) as (txs & s' & Hrun & Hlen & Hdone & Hw' & Hcons & e & Hlast & Hpays).
  { cbn [s1 steps]. rewrite Hs, <- app_assoc. done. }
  { cbn [s1 step_index]. by rewrite Hi. }
  { done. }
  { cbn [s1 wallet]. rewrite Hrem. by rewrite Permutation_app_comm. }
  unfold ran. cbn [run_session]. unfold step, complete_step. rewrite Hd, Hl. cbn [ok_or mbind result_bind]. rewrite Hr.
  cbn [map_err mbind result_bind]. unfold st. rewrite materialize_consolidate. cbn [ok_or mbind result_bind action fst snd].
  fold s1. rewrite Hrun. cbn [mbind result_bind fst snd]. do 2 eexists. split; [reflexivity |]. split_and!.
  - cbn [length]. by rewrite Hlen.
  - done.
  - done.
  - constructor; [| done]. exists [p; n]. cbn [fst snd input_commitments tr_ext_amount output_amounts]. split_and!; [| done | done |].
    + intros m [-> | [-> | []%elem_of_nil]%elem_of_cons]%elem_of_cons; rewrite Hw; [by left | right; by left].
    + unfold ExtAmount_ZERO. cbn. lia.
  - exists e. split; [| done]. destruct txs; [done |]. exact Hlast.
Qed.

Lemma stands_for_sib w prev p ns os :
  w ≡ₚ p :: ns ++ os ->
  prev = from_spendable p \/ (prev = from_amount (sn_amount p) /\ forall x, x ∈ tail ns ++ os -> sn_amount x <> sn_amount p) ->
  stands_for w prev p (head ns).
Proof.
  intros Hw [-> | [-> Hd]]; [by left |]. right. split; [done |]. intros x Hx Ha. rewrite Hw in Hx.
  apply elem_of_cons in Hx as [-> | Hx]; [by left |]. destruct ns as [|n ns]; cbn [tail head app] in *.
  - by destruct (Hd x Hx).
  - apply elem_of_cons in Hx as [-> | Hx]; [by right | by destruct (Hd x Hx)].
Qed.

Lemma run_steps ns s pre prev p os outs amount change :
  steps s = pre ++ steps_of prev (sn_amount p) ns (amount, change) -> step_index s = length pre ->
  wallet s ≡ₚ p :: ns ++ os -> NoDup (outs.*1 ++ commitments (wallet s)) -> length outs = Nat.max 1 (length ns) ->
  prev = from_spendable p \/ (prev = from_amount (sn_amount p) /\ forall x, x ∈ tail ns ++ os -> sn_amount x <> sn_amount p) ->
  distinct_sums os (sn_amount p) ns -> sn_amount p + total (amounts ns) = amount + default 0 change ->
  target_fits (target s) amount -> 0 <= amount ->
  ran s outs os amount change.
Proof.
  revert s pre prev p outs. induction ns as [|n ns IH]; intros s pre prev p outs Hs Hi Hw Hnd Hlen Hp Hd Hsum Hf H0.
  - destruct outs as [|out [|]]; [done | | done]. pose proof (stands_for_sib _ _ _ [] os Hw Hp) as Hst.
    apply NoDup_app in Hnd as (_ & _ & Hnd). cbn [steps_of app head] in *.
    assert (p ∈ wallet s) as Hin by (rewrite Hw; by left).
    eapply (run_final s pre _ amount change [p] os out Hs Hi); [by apply resolve_one | done | apply NoDup_singleton | | cbn in *; lia | done | done].
    unfold remove_spent. cbn [foldl]. by apply remove_note.
  - pose proof (stands_for_sib _ _ _ (n :: ns) os Hw Hp) as Hst. cbn [app head] in *.
    pose proof (proj2 (proj2 (proj1 (NoDup_app _ _) Hnd))) as Hnd'. destruct ns as [|n' ns].
    + destruct outs as [|out [|]]; [done | | done]. cbn [steps_of] in Hs. cbn [app] in Hw.
      assert (NoDup (commitments [p; n])) as Hnd2.
      { unfold commitments in *. rewrite Hw in Hnd'. rewrite !fmap_cons in *. apply (NoDup_app [_; _] (sn_commitment <$> os)) in Hnd'. tauto. }
      eapply (run_final s pre _ amount change [p; n] os out Hs Hi); [| done | done | by apply remove_two | cbn in *; lia | done | done].
      apply resolve_two; [done | rewrite Hw; by left | rewrite Hw; right; by left | | done].
      apply NoDup_cons in Hnd2 as [Hni _]. intros E. apply Hni. rewrite <- E. by left.
    + destruct outs as [|out outs]; [done |]. destruct Hd as [Hd1 Hd2]. cbn [steps_of] in Hs.
      eapply (run_consolidate s pre prev p n _ ((n' :: ns) ++ os) out outs os amount change _ Hs Hi Hw Hnd' Hst eq_refl).
      intros s' Hs' Hi' Ht' Hw'. set (q := {| sn_commitment := out.1; sn_amount := sn_amount p + sn_amount n |}) in *.
      eapply (IH s' _ (from_amount (sn_amount q)) q outs Hs').
      * rewrite Hi', length_app. cbn. lia.
      * exact Hw'.
      * apply (fresh_app _ (q :: (n' :: ns) ++ os)); [by rewrite Hw' |]. apply (fresh_app _ _ _ Hw) in Hnd.
        unfold commitments in *. rewrite !fmap_cons in *. cbn [app] in Hnd. apply NoDup_cons in Hnd as [Hno Hnd].
        rewrite not_elem_of_app in Hno. rewrite <- Permutation_middle. apply NoDup_cons.
        apply NoDup_app in Hnd as (Hn1 & Hn2 & Hn3). apply NoDup_cons in Hn3 as [_ Hn3]. apply NoDup_cons in Hn3 as [_ Hn3].
        rewrite !not_elem_of_cons in Hno. cbn [app]. split.
        -- rewrite not_elem_of_app. tauto.
        -- apply NoDup_app. split_and!; [done | | done]. intros c Hc Hc'. apply (Hn2 c Hc). right. by right.
      * cbn [length] in *. lia.
      * right. split; [done |]. exact Hd1.
      * exact Hd2.
      * unfold amounts in *. rewrite !fmap_cons in *. cbn [total] in *. cbn [q sn_amount]. lia.
      * by rewrite Ht'.
      * done.
Qed.

(** ** No merge is ambiguous *)

Section unambiguous.
Context {srt : SortByAmount} {laws : SortByAmountLaws srt}.
Variables (notes : list SpendableNote) (amount : Z) (r : CombinationResult).
Hypotheses (Hnotes : Forall is_note (amounts notes)) (Hamount : is_note amount) (Htotal : total (amounts notes) < 2 ^ 128).
Hypotheses (Hr : find_combination (amounts notes) amount = Ok r) (H3 : (3 <= length (result_ids r))%nat).
Hypotheses (Hpicked : picked (amounts notes) (result_ids r)) (Hsum : amount <= sum_at (amounts notes) (result_ids r)).

Local Abbreviation values := (amounts notes).

Lemma no_smaller ids : picked values ids -> (length ids < length (result_ids r))%nat -> sum_at values ids < amount.
Proof using laws Hnotes Hamount Htotal Hr H3. by apply find_combination_min. Qed.

(** Every selected note counts. *)
Lemma selected_pos pre i rest : result_ids r = pre ++ i :: rest -> 0 < value_at values i.
Proof using laws Hnotes Hamount Htotal Hr H3 Hpicked Hsum.
  intros E. pose proof Hpicked as [Hnd Hrange]. rewrite E in Hnd, Hrange.
  assert (0 <= value_at values i) as Hge.
  { pose proof (sum_at_nonneg values Hnotes [i]) as H. cbn [sum_at] in H. lia. }
  destruct (decide (value_at values i = 0)) as [E0 | ]; [exfalso | lia].
  assert (sum_at values (pre ++ rest) < amount) as Hlt.
  { apply no_smaller.
    - rewrite <- Permutation_middle in Hnd, Hrange. split; [by apply NoDup_cons in Hnd as [_ Hnd] | by apply Forall_cons in Hrange as [_ Hrange]].
    - rewrite E, !length_app. cbn. lia. }
  rewrite sum_at_app in Hlt. rewrite E, sum_at_app in Hsum. cbn [sum_at] in Hsum. lia.
Qed.

(** An unselected note is not worth two selected ones or more. *)
Lemma other_not_merge pre rest t :
  result_ids r = pre ++ rest -> (2 <= length pre)%nat -> t ∉ result_ids r -> (t < length notes)%nat ->
  value_at values t <> sum_at values pre.
Proof using laws Hnotes Hamount Htotal Hr H3 Hpicked Hsum.
  intros E Hlen Ht Hlt Heq. pose proof Hpicked as [Hnd Hrange]. rewrite E in Hnd, Hrange, Ht.
  assert (sum_at values (t :: rest) < amount) as H.
  { apply no_smaller.
    - apply NoDup_app in Hnd as (_ & _ & Hnd). apply Forall_app in Hrange as [_ Hrange]. split.
      + apply NoDup_cons. split; [| done]. rewrite not_elem_of_app in Ht. tauto.
      + constructor; [| done]. unfold amounts. by rewrite length_fmap.
    - rewrite E, length_app. cbn. lia. }
  cbn [sum_at] in H. rewrite E, sum_at_app in Hsum. lia.
Qed.

Lemma distinct_merges rest pre :
  result_ids r = pre ++ rest -> pre <> [] -> distinct_sums (others notes (result_ids r)) (sum_at values pre) (note_at notes <$> rest).
Proof using laws Hnotes Hamount Htotal Hr H3 Hpicked Hsum.
  revert pre. induction rest as [|i rest IH]; intros pre E Hne; [done |]. destruct rest as [|j rest]; [done |].
  assert (sum_at values pre + sn_amount (note_at notes i) = sum_at values (pre ++ [i])) as Es.
  { rewrite sum_at_app. cbn [sum_at]. rewrite value_at_note. lia. }
  specialize (IH (pre ++ [i]) ltac:(by rewrite <- app_assoc) ltac:(by destruct pre)).
  rewrite !fmap_cons in *. cbn [distinct_sums]. rewrite Es. split; [| exact IH].
  intros x Hx. apply elem_of_app in Hx as [Hx | Hx].
  - apply list_elem_of_fmap in Hx as (k & -> & Hk). apply list_elem_of_split in Hk as (r1 & r2 & ->).
    destruct pre as [|a pre]; [done |]. pose proof (selected_pos [] a _ E) as Ha.
    pose proof (find_combination_desc values amount Hnotes Hamount Htotal r Hr H3) as Hdesc.
    unfold picks_descending in Hdesc. rewrite E in Hdesc.
    pose proof (sum_at_nonneg values Hnotes pre) as H0. rewrite <- Es, <- !value_at_note. cbn [sum_at].
    rewrite StronglySorted_app in Hdesc. destruct Hdesc as (_ & _ & Hdesc). apply StronglySorted_inv in Hdesc as [_ Hall].
    rewrite Forall_forall in Hall. specialize (Hall k ltac:(right; apply elem_of_app; right; by left)). lia.
  - unfold others in Hx. apply list_elem_of_fmap in Hx as (t & -> & [Ht Hin]%list_elem_of_filter). apply elem_of_seq in Hin.
    rewrite <- value_at_note. apply (other_not_merge _ (j :: rest)); [by rewrite <- app_assoc | | done | lia].
    rewrite length_app. destruct pre; [done |]. cbn. lia.
Qed.

End unambiguous.

(** ** Completion *)

Lemma setup_plan {srt : SortByAmount} w amount pool t p :
  validate_target t = Ok tt -> plan amount w = Ok p ->
  setup w amount pool t = Ok {| steps := plan_steps p; wallet := w; pool_address := pool; target := t; step_index := 0 |}.
Proof. intros Ht Hp. unfold setup. rewrite Ht. cbn [mbind result_bind]. by rewrite Hp. Qed.

(** A session set up on a coverable amount runs. *)
Lemma session_runs (srt : SortByAmount) (laws : SortByAmountLaws srt) (notes : list SpendableNote) (amount : NoteAmount)
    (pool : string) (t : SpendTarget) :
  Forall is_note (amounts notes) -> is_note amount -> total (amounts notes) < 2 ^ 128 -> NoDup (commitments notes) ->
  notes <> [] -> coverable notes amount -> validate_target t = Ok tt -> target_fits t amount ->
  exists s ids change, setup notes amount pool t = Ok s /\ (1 <= length (steps s) <= 9)%nat /\ target s = t /\ step_index s = 0%nat /\
    picked (amounts notes) ids /\ sum_at (amounts notes) ids = amount + default 0 change /\ 0 <= default 0 change /\
    forall outs, length outs = length (steps s) -> NoDup (outs.*1 ++ commitments notes) -> ran s outs (others notes ids) amount change.
Proof.
  intros Hn Ha Htot Hnd Hne Hcov Ht Hf. destruct (plan_iff_coverable notes amount Hn Ha Htot Hne) as [_ Hp].
  destruct (Hp Hcov) as [p Hplan0]. destruct (plan_cases notes amount Hn Ha Htot Hne) as (r & Hr & Hok & Himp & Hmany & Hplan).
  assert (r <> Impossible) as Hi by (intros ->; rewrite Himp in Hplan0; done).
  destruct (decide (TRANSACTION_LIMIT < length (result_ids r))%nat) as [Hgt | Hle]; [by rewrite Hmany in Hplan0 |].
  destruct (Hplan Hi ltac:(lia)) as (change & Hpl & Hpk & Hids & Hs & Hc). rewrite (setup_plan _ _ _ _ _ Ht Hpl).
  eexists. exists (result_ids r), change. split; [reflexivity |]. cbn [steps target plan_steps].
  pose proof (wallet_split notes (result_ids r) Hpk) as Hsplit.
  assert (forall pre rest, result_ids r = pre ++ rest -> pre <> [] ->
    distinct_sums (others notes (result_ids r)) (sum_at (amounts notes) pre) (note_at notes <$> rest)) as Hds.
  { intros pre rest E Hpre. destruct (decide (3 <= length (result_ids r))%nat) as [H3 | H3].
    - apply (distinct_merges notes amount r); [done | done | done | done | done | done | lia | done | done].
    - rewrite E, length_app in H3. destruct pre; [done |]. cbn in H3. destruct rest as [|? [|]]; [done | done | cbn in H3; lia]. }
  unfold planned. destruct (result_ids r) as [|i0 rest] eqn:E; [done |]. rewrite fmap_cons in *. set (n0 := note_at notes i0) in *.
  specialize (Hds [i0] rest eq_refl ltac:(done)). cbn [sum_at] in Hds. rewrite value_at_note in Hds. fold n0 in Hds. rewrite Z.add_0_r in Hds.
  split_and!; [rewrite steps_of_length; lia | rewrite steps_of_length, length_fmap; unfold TRANSACTION_LIMIT in Hle; cbn in Hle; lia | done | done | exact Hpk | done | done |].
  intros outs Hlen Hfresh. rewrite steps_of_length in Hlen.
  apply (run_steps (note_at notes <$> rest) {| steps := steps_of (from_spendable n0) (sn_amount n0) (note_at notes <$> rest) (amount, change); wallet := notes; pool_address := pool; target := t; step_index := 0 |}
    [] (from_spendable n0) n0 (others notes (i0 :: rest)) outs amount change);
    [reflexivity | done | exact Hsplit | exact Hfresh | done | by left | exact Hds | | exact Hf | apply Ha].
  cbn [sum_at] in Hs. rewrite value_at_note, sum_at_notes in Hs. exact Hs.
Qed.

(** Spend sessions: when the wallet's notes are distinct, fit an amount in total and at
    most ten of them cover the amount, [setup] accepts a valid target and the session runs to
    the end, whatever fresh output commitments the proofs come with: no step is ambiguous
    (although merged notes are looked up by amount only), every transaction spends distinct
    notes of the wallet of that moment and conserves value, the last one pays the target, and
    the final wallet holds exactly the notes outside the selection.  After that [step] gives
    nothing and [complete_step] refuses. *)
Theorem session_completes (srt : SortByAmount) (laws : SortByAmountLaws srt) (notes : list SpendableNote) (amount : NoteAmount)
    (pool : string) (t : SpendTarget) :
  Forall is_note (amounts notes) -> is_note amount -> total (amounts notes) < 2 ^ 128 -> NoDup (commitments notes) ->
  notes <> [] -> coverable notes amount -> validate_target t = Ok tt -> target_fits t amount ->
  exists s ids change, setup notes amount pool t = Ok s /\ (1 <= length (steps s) <= 9)%nat /\ target s = t /\
    picked (amounts notes) ids /\ sum_at (amounts notes) ids = amount + default 0 change /\ 0 <= default 0 change /\
    forall outs, length outs = length (steps s) -> NoDup (outs.*1 ++ commitments notes) ->
      exists txs s', run_session s outs = Ok (txs, s') /\ length txs = length outs /\
        Forall (fun e => conserves e.1 e.2) txs /\ (exists e, last txs = Some e /\ pays t amount change e.2) /\
        wallet s' ≡ₚ others notes ids /\ step s' = Ok None /\ forall out, complete_step s' out = Err Complete.
Proof.
  intros Hn Ha Htot Hnd Hne Hcov Ht Hf.
  destruct (session_runs srt laws notes amount pool t Hn Ha Htot Hnd Hne Hcov Ht Hf) as (s & ids & change & Hs & Hlen & Htg & _ & Hpk & Hsum & Hc & Hrun).
  exists s, ids, change. do 6 (split; [done |]). intros outs Hl Hfresh.
  destruct (Hrun outs Hl Hfresh) as (txs & s' & Hr & Hl' & Hd & Hw & Hcons & e & Hlast & Hpays). exists txs, s'.
  split_and!; [done | done | done | exists e; by rewrite <- Htg | done | unfold step; by rewrite Hd | intros out; unfold complete_step; by rewrite Hd].
Qed.

Definition session_notes : list SpendableNote :=
  [{| sn_commitment := 1; sn_amount := 2 |}; {| sn_commitment := 2; sn_amount := 3 |}; {| sn_commitment := 3; sn_amount := 5 |};
   {| sn_commitment := 4; sn_amount := 1 |}].

Lemma session_completes_witness :
  exists s, setup session_notes 9 "pool" (Withdraw "recipient") = Ok s /\
    exists txs s', run_session s [(10, 11); (12, 13)] = Ok (txs, s') /\ wallet s' ≡ₚ [{| sn_commitment := 1; sn_amount := 2 |}].
Proof.
  destruct (session_completes ref_sort ref_sort_laws session_notes 9 "pool" (Withdraw "recipient")
    ltac:(repeat constructor; cbn; lia) ltac:(split; lia) ltac:(vm_compute; reflexivity)
    ltac:(apply (bool_decide_eq_true_1 _); vm_compute; reflexivity) ltac:(discriminate)
    ltac:(exists [0; 1; 2]%nat; split; [split; [apply (bool_decide_eq_true_1 _); vm_compute; reflexivity | repeat constructor; cbn; lia]
           | split; [unfold TRANSACTION_LIMIT; cbn; lia | vm_compute; congruence]])
    eq_refl ltac:(vm_compute; reflexivity)) as (s & ids & change & Hs & _ & _ & _ & _ & _ & Hrun).
  exists s. split; [exact Hs |]. assert (exists s0, setup session_notes 9 "pool" (Withdraw "recipient") = Ok s0 /\ length (steps s0) = 2%nat) as (s0 & Hs0 & Hl)
    by (eexists; split; vm_compute; reflexivity).
  rewrite Hs in Hs0. injection Hs0 as <-. destruct (Hrun [(10, 11); (12, 13)]) as (txs & s' & Hr & _);
    [by rewrite Hl | apply (bool_decide_eq_true_1 _); vm_compute; reflexivity |].
  exists txs, s'. split; [exact Hr |]. clear Hrun. assert (Hr' := Hr). clear Hl.
  vm_compute in Hs. injection Hs as <-. vm_compute in Hr'. injection Hr' as _ <-. done.
Defined.
