(* ===== verification/PoolClient.v ===== *)
(** * The pool client

    [sdk/pool/src]: the assembly of a transaction's parameters and of disclosure inputs from
    the local database ([transact.rs], [disclosure.rs]), the plans and their steps
    ([plan.rs], [core/mod.rs], [core/plan.rs]) and the reads of the storage layer
    ([storage/mod.rs]). *)

From Stdlib Require Import Ascii.
From S2P Require Import Prelude Ints Amounts Poseidon2Tables Hashes ProverMonad Encryption Notes Flows PrefixTree ScVals Events Storage Queries Rpc Envelope StateFetch Indexer Combination Plan.

(** The [anyhow] errors of the builders, with the errors of the crates they call. *)
Inductive BuildError : Type :=
| TooManyInputs
| MissingKeys
| MissingPoolRoot
| PoolRootMismatch
| RecipientKeysUnpaired (output : nat)
| NoteNotFound
| BuildStorage (e : StorageError)
| BuildTree (e : TreeError)
| BuildProver (e : ProverError).

(** Errors, panics and random draws, as in [ProverMonad]. *)
Definition BM (A : Type) : Type := nat -> option (result BuildError A * nat).

#[export] Instance bm_ret : MRet BM := fun A a n => Some (Ok a, n).
#[export] Instance bm_bind : MBind BM := fun A B k m n =>
  match m n with
  | None => None
  | Some (Err e, n') => Some (Err e, n')
  | Some (Ok a, n') => k a n'
  end.

Definition bm_throw {A} (e : BuildError) : BM A := fun n => Some (Err e, n).
Definition bm_result {A} (r : result BuildError A) : BM A := fun n => Some (r, n).
Definition of_storage {A} (r : result StorageError A) : BM A := bm_result (map_err BuildStorage r).
Definition of_tree {A} (r : option (result TreeError A)) : BM A := fun n => r ← r; Some (map_err BuildTree r, n).
Definition of_prover {A} (r : option (result ProverError A)) : BM A := fun n => r ← r; Some (map_err BuildProver r, n).
Definition of_panic {A} (o : option A) : BM A := fun n => a ← o; Some (Ok a, n).
Definition of_random {A} (m : RM A) : BM A := fun n => r ← m n; Some (map_err BuildProver r.1, r.2).

(** ** Transaction requests *)

Record TransactRequest : Type := {
  rq_user_address : string;
  rq_pool_root : option Field;
  rq_pool_next_index : Z;
  rq_pool_address : string;
  rq_ext_recipient : string;
  rq_ext_amount : ExtAmount;
  rq_aspmem_root : Field;
  rq_aspmem_contract_id : string;
  rq_aspmem_ledger : Z;
  rq_input_commitments : list Field;
  rq_output_amounts : NoteAmount * NoteAmount;
  rq_out_recipient_note_pubkeys : option NotePublicKey * option NotePublicKey;
  rq_out_recipient_encryption_pubkeys : option EncryptionPublicKey * option EncryptionPublicKey;
  rq_smt_depth : Z;
  rq_tree_depth : Z;
  rq_non_membership_proof : AspNonMembershipProof;
}.

Definition transact_request_from_step (step : Transact) (user_address pool_address : string) (chain : TransactChainContext) : TransactRequest :=
  {| rq_user_address := user_address; rq_pool_root := Some (ctx_pool_root chain); rq_pool_next_index := ctx_pool_next_index chain;
     rq_pool_address := pool_address; rq_ext_recipient := Plan.ext_recipient step; rq_ext_amount := tr_ext_amount step;
     rq_aspmem_root := ctx_asp_membership_root chain; rq_aspmem_contract_id := ctx_asp_membership_contract_id chain;
     rq_aspmem_ledger := ctx_asp_membership_ledger chain; rq_input_commitments := input_commitments step;
     rq_output_amounts := output_amounts step; rq_out_recipient_note_pubkeys := out_recipient_note_pubkeys step;
     rq_out_recipient_encryption_pubkeys := out_recipient_encryption_pubkeys step; rq_smt_depth := SMT_DEPTH;
     rq_tree_depth := ctx_pool_merkle_levels chain; rq_non_membership_proof := ctx_non_membership_proof chain |}.

(** ** The builders *)

(** A value, or the state of the synchronisation that prevents it. *)
Definition or_sync (A : Type) : Type := A + AspMembershipSync.

Definition load_user_key_material (d : Db) (user_address : string) : result BuildError (NotePrivateKey * NotePublicKey * EncryptionPublicKey * Field) :=
  keys ← ok_or (get_user_keys d user_address) MissingKeys;
  Ok (note_private (su_note_keypair keys), note_public (su_note_keypair keys), enc_public (su_encryption_keypair keys), su_membership_blinding keys).

Definition build_membership_proof (d : Db) (aspmem_contract_id : string) (note_pubkey : NotePublicKey) (membership_blinding : Field)
    (aspmem_root : Field) (aspmem_ledger tree_depth : Z) : BM (or_sync AspMembershipProof) :=
  user_leaf ← of_prover (asp_membership_leaf note_pubkey membership_blinding);
  status ← of_storage (check_asp_membership_precondition d aspmem_contract_id user_leaf aspmem_root aspmem_ledger);
  match status with
  | UserIndex user_leaf_index =>
      leaves ← of_storage (get_all_asp_membership_leaves_ordered d aspmem_contract_id);
      tree ← of_tree (MerklePrefixTree_new tree_depth leaves);
      built ← of_panic (pt_build tree);
      proof ← of_tree (ptb_proof built user_leaf_index);
      mret (inl {| mp_leaf := user_leaf; mp_blinding := membership_blinding; mp_path_elements := path_elements proof;
                   mp_path_indices := path_indices proof; mp_root := proof_root proof |})
  | status => mret (inr status)
  end.

Definition build_validated_pool_tree (d : Db) (pool_address : string) (pool_next_index tree_depth : Z) (expected_pool_root : Field)
    : BM (or_sync MerklePrefixTreeBuilt) :=
  leaves ← of_storage (get_pool_commitment_leaves_ordered d pool_address);
  if negb (zlength leaves =? pool_next_index) then mret (inr (SyncRequired None))
  else
    tree ← of_tree (MerklePrefixTree_new tree_depth leaves);
    built ← of_panic (pt_build tree);
    computed_root ← of_tree (ptb_root built);
    if negb (computed_root =? expected_pool_root) then bm_throw PoolRootMismatch else mret (inl built).

Definition build_pool_input_note (amount : NoteAmount) (blinding : Field) (leaf_index : Z) (tree : MerklePrefixTreeBuilt) : BM TransactInputNote :=
  proof ← of_tree (ptb_proof tree leaf_index);
  mret {| in_amount := amount; in_blinding := blinding; merkle_path_elements := path_elements proof; merkle_path_indices := path_indices proof |}.

Fixpoint build_input_notes (d : Db) (user_address pool_address : string) (tree : MerklePrefixTreeBuilt) (commitments : list Field)
    : BM (or_sync (list TransactInputNote)) :=
  match commitments with
  | [] => mret (inl [])
  | c :: rest =>
      found ← of_storage (get_unspent_user_note_by_commitment d pool_address user_address c);
      match found with
      | None => mret (inr (SyncRequired None))
      | Some (amount, blinding, leaf_index) =>
          note ← build_pool_input_note amount blinding leaf_index tree;
          others ← build_input_notes d user_address pool_address tree rest;
          match others with
          | inl notes => mret (inl (note :: notes))
          | inr status => mret (inr status)
          end
      end
  end.

Definition build_pool_inputs (d : Db) (user_address pool_address : string) (pool_next_index tree_depth : Z) (expected_pool_root : Field)
    (commitments : list Field) : BM (or_sync (list TransactInputNote)) :=
  if bool_decide (commitments = []) then mret (inl [])
  else
    tree ← build_validated_pool_tree d pool_address pool_next_index tree_depth expected_pool_root;
    match tree with
    | inl tree => build_input_notes d user_address pool_address tree commitments
    | inr status => mret (inr status)
    end.

Section Builder.

Context {C : Crypto}.

Definition build_output (i : nat) (amount : NoteAmount) (note_pk : option NotePublicKey) (enc_pk : option EncryptionPublicKey) : BM TransactOutput :=
  if negb (Bool.eqb (bool_decide (is_Some note_pk)) (bool_decide (is_Some enc_pk))) then bm_throw (RecipientKeysUnpaired i)
  else
    blinding ← of_random generate_random_blinding;
    mret {| out_amount := amount; out_blinding := blinding; recipient_note_pubkey := note_pk; recipient_encryption_pubkey := enc_pk |}.

Definition build_transact_params (d : Db) (req : TransactRequest) : BM (or_sync TransactParams) :=
  if (2 <? length (rq_input_commitments req))%nat then bm_throw TooManyInputs
  else
    keys ← bm_result (load_user_key_material d (rq_user_address req));
    let '(note_privkey, note_pubkey, encryption_pubkey, membership_blinding) := keys in
    membership ← build_membership_proof d (rq_aspmem_contract_id req) note_pubkey membership_blinding (rq_aspmem_root req)
      (rq_aspmem_ledger req) (rq_tree_depth req);
    match membership with
    | inr status => mret (inr status)
    | inl membership_proof =>
        pool_root ← bm_result (ok_or (rq_pool_root req) MissingPoolRoot);
        inputs ← build_pool_inputs d (rq_user_address req) (rq_pool_address req) (rq_pool_next_index req) (rq_tree_depth req) pool_root
          (rq_input_commitments req);
        match inputs with
        | inr status => mret (inr status)
        | inl inputs =>
            out0 ← build_output 0 (rq_output_amounts req).1 (rq_out_recipient_note_pubkeys req).1 (rq_out_recipient_encryption_pubkeys req).1;
            out1 ← build_output 1 (rq_output_amounts req).2 (rq_out_recipient_note_pubkeys req).2 (rq_out_recipient_encryption_pubkeys req).2;
            mret (inl {| priv_key := note_privkey; encryption_pubkey := encryption_pubkey; pool_root := pool_root;
              Flows.ext_recipient := rq_ext_recipient req; tx_ext_amount := rq_ext_amount req; tx_inputs := inputs; tx_outputs := [out0; out1];
              membership_proof := membership_proof; non_membership_proof := rq_non_membership_proof req; tx_tree_depth := rq_tree_depth req;
              tx_smt_depth := rq_smt_depth req |})
        end
    end.

End Builder.

(** ** Disclosure inputs *)

Record DisclosureInputsRequest : Type := {
  dr_user_address : string;
  dr_pool_address : string;
  dr_selected_commitment : Field;
  dr_pool_root : option Field;
  dr_pool_next_index : Z;
  dr_tree_depth : Z;
}.

Record DisclosureInputs : Type := {
  di_root : Field;
  di_note_commitment : Field;
  di_note_amount : NoteAmount;
  di_note_private_key : NotePrivateKey;
  di_note_blinding : Field;
  di_merkle_path_indices : Field;
  di_merkle_path_elements : list Field;
}.

Definition build_disclosure_inputs (d : Db) (req : DisclosureInputsRequest) : BM (or_sync DisclosureInputs) :=
  pool_root ← bm_result (ok_or (dr_pool_root req) MissingPoolRoot);
  keys ← bm_result (load_user_key_material d (dr_user_address req));
  let '(note_privkey, _, _, _) := keys in
  tree ← build_validated_pool_tree d (dr_pool_address req) (dr_pool_next_index req) (dr_tree_depth req) pool_root;
  match tree with
  | inr status => mret (inr status)
  | inl tree =>
      found ← of_storage (get_unspent_user_note_by_commitment d (dr_pool_address req) (dr_user_address req) (dr_selected_commitment req));
      note ← bm_result (ok_or found NoteNotFound);
      let '(amount, blinding, leaf_index) := note in
      proof ← of_tree (ptb_proof tree leaf_index);
      mret (inl {| di_root := proof_root proof; di_note_commitment := dr_selected_commitment req; di_note_amount := amount;
                   di_note_private_key := note_privkey; di_note_blinding := blinding; di_merkle_path_indices := path_indices proof;
                   di_merkle_path_elements := path_elements proof |})
  end.

(** ** Reads *)

Definition spendable_notes_from_storage (d : Db) (pool address : string) : result StorageError (list SpendableNote) :=
  notes ← list_unspent_user_notes d pool address;
  Ok (map (fun n => {| sn_commitment := us_id n; sn_amount := us_amount n |}) notes).

(** [None] is the overflow error. *)
Definition wallet_balance (wallet : list SpendableNote) : option NoteAmount :=
  foldl (fun sum n => s ← sum; NoteAmount_checked_add s (sn_amount n)) (Some NoteAmount_ZERO) wallet.

(** ** Plans *)

(** [PoolError]; the text of [Other] with the error it was made from.  [ClientPanic] stands for
    a panic. *)
Inductive PoolClientError : Type :=
| InvalidConfig (what : string)
| PlanFailed (e : PlanError)
| SessionFailed (e : SpendSessionError)
| MembershipSync (status : AspMembershipSync)
| ClientOther (what : string)
| ClientStorage (e : StorageError)
| ClientBuild (e : BuildError)
| ClientFetch (what : string) (e : FetchError)
| ClientSubmit (what : string) (e : SubmitError)
| ClientIndexer (e : IndexerError)
| ClientPanic.

Inductive PlanKind : Type :=
| DepositPlan (amount : NoteAmount)
| SpendPlanKind (session : SpendSession)
| RawPlan (step : Transact).

Record PreparedTransactionPlan : Type := {
  plan_tx_count : Z;
  plan_current_tx : Z;
  plan_kind : PlanKind;
}.

Definition plan_deposit (amount : NoteAmount) : PreparedTransactionPlan :=
  {| plan_tx_count := 1; plan_current_tx := 0; plan_kind := DepositPlan amount |}.

Definition plan_from_session (session : SpendSession) : result SpendSessionError PreparedTransactionPlan :=
  tx_count ← ok_or (try_into_u 32 (zlength (steps session))) Complete;
  Ok {| plan_tx_count := tx_count; plan_current_tx := 0; plan_kind := SpendPlanKind session |}.

Definition plan_from_transact (step : Transact) : PreparedTransactionPlan :=
  {| plan_tx_count := 1; plan_current_tx := 0; plan_kind := RawPlan step |}.

Definition plan_is_complete (p : PreparedTransactionPlan) : bool := plan_tx_count p <=? plan_current_tx p.

(** [None] is the panic of [expect]. *)
Definition plan_advance (p : PreparedTransactionPlan) : option PreparedTransactionPlan :=
  n ← checked_add 32 (plan_current_tx p) 1;
  Some {| plan_tx_count := plan_tx_count p; plan_current_tx := n; plan_kind := plan_kind p |}.

Definition deposit_amount (p : PreparedTransactionPlan) : option NoteAmount :=
  match plan_kind p with DepositPlan amount => Some amount | _ => None end.

Definition current_spend_step (p : PreparedTransactionPlan) : result SpendSessionError (option Transact) :=
  match plan_kind p with SpendPlanKind session => step session | _ => Ok None end.

Definition raw_transact_step (p : PreparedTransactionPlan) : option Transact :=
  match plan_kind p with RawPlan step => Some step | _ => None end.

Definition complete_pending_spend (p : PreparedTransactionPlan) (output_commitments : Field * Field)
    : option (result SpendSessionError PreparedTransactionPlan) :=
  match plan_kind p with
  | SpendPlanKind session =>
      match complete_step session output_commitments with
      | Err e => Some (Err e)
      | Ok session =>
          p ← plan_advance {| plan_tx_count := plan_tx_count p; plan_current_tx := plan_current_tx p; plan_kind := SpendPlanKind session |};
          Some (Ok p)
      end
  | _ => p ← plan_advance p; Some (Ok p)
  end.

Definition finish_proved_tx (p : PreparedTransactionPlan) (output_commitments : Field * Field)
    : option (result PoolClientError PreparedTransactionPlan) :=
  match plan_kind p with
  | DepositPlan _ | RawPlan _ => p ← plan_advance p; Some (Ok p)
  | SpendPlanKind _ => r ← complete_pending_spend p output_commitments; Some (map_err SessionFailed r)
  end.

Definition transact_step_for_plan (p : PreparedTransactionPlan) : result PoolClientError Transact :=
  match deposit_amount p with
  | Some _ => Err (ClientOther "deposit transact step requires PoolCore::deposit_transact_step")
  | None =>
      step ← map_err SessionFailed (current_spend_step p);
      ok_or step (ClientOther "plan tx missing")
  end.

(** ** [PoolCore]: its configuration is the pool's address and the user's *)

Record PoolChainConfig : Type := { pcc_pool_contract_id : string; pcc_user_address : string }.

Definition PoolChainConfig_validate (c : PoolChainConfig) : result PoolClientError unit :=
  if bool_decide (pcc_pool_contract_id c = EmptyString) then Err (InvalidConfig "pool_contract_id must not be empty")
  else if bool_decide (pcc_user_address c = EmptyString) then Err (InvalidConfig "user_address must not be empty")
  else Ok tt.

Record TransferRecipient : Type := { tr_note_public_key : NotePublicKey; tr_encryption_public_key : EncryptionPublicKey }.

Section Core.

Context {srt : SortByAmount}.

Definition prepare_deposit (amount : NoteAmount) : result PoolClientError PreparedTransactionPlan :=
  if NoteAmount_is_zero amount then Err (InvalidConfig "amount must be > 0") else Ok (plan_deposit amount).

Definition prepare_spend (c : PoolChainConfig) (wallet : list SpendableNote) (amount : NoteAmount) (t : SpendTarget)
    : result PoolClientError PreparedTransactionPlan :=
  if NoteAmount_is_zero amount then Err (InvalidConfig "amount must be > 0")
  else
    session ← map_err SessionFailed (setup wallet amount (pcc_pool_contract_id c) t);
    map_err SessionFailed (plan_from_session session).

Definition prepare_transfer (c : PoolChainConfig) (wallet : list SpendableNote) (r : TransferRecipient) (amount : NoteAmount) :=
  prepare_spend c wallet amount (Transfer (tr_note_public_key r) (tr_encryption_public_key r)).

Definition prepare_withdraw (c : PoolChainConfig) (wallet : list SpendableNote) (amount : NoteAmount) (recipient : string) :=
  prepare_spend c wallet amount (Withdraw recipient).

Definition estimate (wallet : list SpendableNote) (amount : NoteAmount) : result PoolClientError Z :=
  p ← map_err PlanFailed (plan amount wallet);
  Ok (default (2 ^ 32 - 1) (try_into_u 32 (zlength (plan_steps p)))).

Definition deposit_transact_step (c : PoolChainConfig) (note_pub : NotePublicKey) (enc_pub : EncryptionPublicKey) (amount : NoteAmount)
    : result PoolClientError Transact :=
  ext ← map_err (fun _ => ClientOther "deposit amount exceeds ext_amount range") (ExtAmount_try_from_note amount);
  Ok {| input_commitments := []; output_amounts := (amount, NoteAmount_ZERO); tr_ext_amount := ext; Plan.ext_recipient := pcc_pool_contract_id c;
        out_recipient_note_pubkeys := (Some note_pub, Some note_pub); out_recipient_encryption_pubkeys := (Some enc_pub, Some enc_pub) |}.

End Core.
