(* ===== verification/PoolClientFacts.v ===== *)
(** * Properties of the pool client

    What the parameters built from the local database are: inputs that the user owns, that
    are not spent and whose paths open the pool's root. *)

From Stdlib Require Import Ascii.
From stdpp Require Import sorting.
From S2P Require Import Prelude Ints Amounts Poseidon2Tables Hashes ProverMonad Encryption Notes Flows FlowFacts FlowTheorems Soroban MerkleSpec PrefixTree ScVals ScValFacts Events Storage Queries Scan StorageFacts SyncFacts WalletFacts ReconcileFacts SyncTheorems QueryFacts EndToEnd Combination Plan PoolClient DbTypes.

(** ** Successful runs *)

Lemma bm_bind_Ok {A B} (m : BM A) (k : A -> BM B) n b n' :
  (m ≫= k) n = Some (Ok b, n') <-> exists a n1, m n = Some (Ok a, n1) /\ k a n1 = Some (Ok b, n').
Proof.
  unfold mbind, bm_bind. destruct (m n) as [[[a|e] n1]|]; split; try done.
  - eauto.
  - by intros (? & ? & [= <- <-] & ?).
  - by intros (? & ? & ? & ?).
  - by intros (? & ? & ? & ?).
Qed.

Lemma map_err_Ok {E F A} (f : E -> F) (r : result E A) a : map_err f r = Ok a <-> r = Ok a.
Proof. destruct r; cbn; split; congruence. Qed.

Lemma bm_result_Ok {A} (r : result BuildError A) n a n' : bm_result r n = Some (Ok a, n') <-> r = Ok a /\ n' = n.
Proof. unfold bm_result. split; [by intros [= -> ->] | by intros [-> ->]]. Qed.

Lemma of_storage_Ok {A} (r : result StorageError A) n a n' : of_storage r n = Some (Ok a, n') <-> r = Ok a /\ n' = n.
Proof. unfold of_storage. by rewrite bm_result_Ok, map_err_Ok. Qed.

Lemma of_tree_Ok {A} (r : option (result TreeError A)) n a n' : of_tree r n = Some (Ok a, n') <-> r = Some (Ok a) /\ n' = n.
Proof. unfold of_tree. destruct r as [[|]|]; cbn; split; [by intros [= -> ->] | by intros [[= ->] ->] | done | by intros [? ?] | done | by intros [? ?]]. Qed.

Lemma of_prover_Ok {A} (r : option (result ProverError A)) n a n' : of_prover r n = Some (Ok a, n') <-> r = Some (Ok a) /\ n' = n.
Proof. unfold of_prover. destruct r as [[|]|]; cbn; split; [by intros [= -> ->] | by intros [[= ->] ->] | done | by intros [? ?] | done | by intros [? ?]]. Qed.

Lemma of_panic_Ok {A} (o : option A) n a n' : of_panic o n = Some (Ok a, n') <-> o = Some a /\ n' = n.
Proof. unfold of_panic. destruct o; cbn; split; [by intros [= -> ->] | by intros [[= ->] ->] | done | by intros [? ?]]. Qed.

Lemma of_random_Ok {A} (m : RM A) n a n' : of_random m n = Some (Ok a, n') <-> m n = Some (Ok a, n').
Proof. unfold of_random. destruct (m n) as [[[|] ?]|]; cbn; split; congruence. Qed.

Lemma bm_mret_Ok {A} (a b : A) n n' : (mret a : BM A) n = Some (Ok b, n') <-> b = a /\ n' = n.
Proof. unfold mret, bm_ret. split; [by intros [= -> ->] | by intros [-> ->]]. Qed.

Ltac bm_inv :=
  repeat match goal with
  | H : (_ ≫= _) _ = Some (Ok _, _) |- _ => apply bm_bind_Ok in H; destruct H as (? & ? & ? & H)
  | H : bm_result _ _ = Some (Ok _, _) |- _ => apply bm_result_Ok in H; destruct H as [? ?]; subst
  | H : of_storage _ _ = Some (Ok _, _) |- _ => apply of_storage_Ok in H; destruct H as [? ?]; subst
  | H : of_tree _ _ = Some (Ok _, _) |- _ => apply of_tree_Ok in H; destruct H as [? ?]; subst
  | H : of_prover _ _ = Some (Ok _, _) |- _ => apply of_prover_Ok in H; destruct H as [? ?]; subst
  | H : of_panic _ _ = Some (Ok _, _) |- _ => apply of_panic_Ok in H; destruct H as [? ?]; subst
  | H : of_random _ _ = Some (Ok _, _) |- _ => apply of_random_Ok in H
  | H : bm_throw _ _ = Some (Ok _, _) |- _ => discriminate H
  | H : mret _ _ = Some (Ok _, _) |- _ => apply bm_mret_Ok in H; destruct H as [? ?]; subst
  end.

(** ** Ordered leaves *)

Lemma consecutive_lookup rows : forall k leaves z c, consecutive k rows = Ok leaves -> (z, c) ∈ rows ->
  k <= z /\ leaves !! Z.to_nat (z - k) = Some c.
Proof.
  induction rows as [|[i x] rows IH]; intros k leaves z c H Hin; [by apply not_elem_of_nil in Hin |].
  cbn [consecutive] in H. apply bind_Ok in H as (i' & Hi & H). unfold col_u32 in Hi. case_if_in Hi; [| discriminate]. injection Hi as <-.
  case_if_in H; [| discriminate]. subst i. ok_inv. match goal with H : checked_add _ _ _ = Some _ |- _ => apply checked_add_Some in H as [-> _] end.
  apply elem_of_cons in Hin as [[= -> ->]|Hin]; [rewrite Z.sub_diag; split; [lia | reflexivity] |].
  edestruct IH as [Hle Hl]; [eassumption | exact Hin |]. split; [lia |].
  replace (Z.to_nat (z - k)) with (S (Z.to_nat (z - (k + 1)))) by lia. exact Hl.
Qed.

Lemma consecutive_leaves rows : forall k leaves, consecutive k rows = Ok leaves -> leaves = snd <$> rows.
Proof.
  induction rows as [|[i x] rows IH]; intros k leaves H; cbn [consecutive] in H; [by injection H as <- |].
  ok_inv. case_if_in H; [| discriminate]. ok_inv. cbn. f_equal. by eapply IH.
Qed.

(** The leaves of a table read in the order of their indices. *)
Section Ordered.

Context {R : Type} (key : R -> Z) (leaf : R -> Field) (rows : list R) (leaves : list Field).
Hypothesis Hread : consecutive 0 ((fun r => (key r, leaf r)) <$> order_by key rows) = Ok leaves.

Lemma ordered_lookup z c : (z, c) ∈ (fun r => (key r, leaf r)) <$> rows -> 0 <= z /\ leaves !! Z.to_nat z = Some c.
Proof using Hread.
  intros (r & E & Hr)%list_elem_of_fmap. destruct (consecutive_lookup _ _ _ z c Hread) as [H0 Hl]; [| by rewrite Z.sub_0_r in Hl].
  apply list_elem_of_fmap. exists r. split; [exact E | by apply elem_of_order_by].
Qed.

Lemma ordered_canonical : (forall r, r ∈ rows -> in_field (leaf r)) -> Forall in_field leaves.
Proof using Hread.
  intros H. rewrite (consecutive_leaves _ _ _ Hread), <- list_fmap_compose. apply Forall_fmap, Forall_forall. intros r Hr%elem_of_order_by. by apply H.
Qed.

Lemma ordered_length : zlength leaves = zlength rows.
Proof using Hread. unfold zlength. by rewrite (consecutive_leaves _ _ _ Hread), !length_fmap, (Permutation_length (order_by_perm key rows)). Qed.

End Ordered.

(** ** Trees *)

Section Trees.

Context {host : HostPoseidon2} {laws : HostPoseidon2Laws host}.

Lemma sib_path_field leaves n l i : Forall in_field leaves -> Forall in_field (sib_path leaves n l i).
Proof. intros Hl. revert l i. induction n as [|n IH]; intros l i; cbn [sib_path]; [constructor |]. constructor; [by apply nd_field | apply IH]. Qed.

(** A proof of a tree built from leaves that fit opens the tree's root. *)
Lemma built_proof_opens depth leaves t b index leaf p :
  Forall in_field leaves -> zlength leaves <= 2 ^ depth -> MerklePrefixTree_new depth leaves = Some (Ok t) -> pt_build t = Some b ->
  0 <= index -> leaves !! Z.to_nat index = Some leaf -> ptb_proof b index = Some (Ok p) ->
  ptb_root b = Some (Ok (proof_root p)) /\ path_indices p = index /\ length (path_elements p) = Z.to_nat depth /\
  path_root leaf (path_elements p) (Z.to_nat index) = Some (proof_root p) /\
  Forall in_field (path_elements p) /\ in_field (path_indices p) /\ in_field (proof_root p).
Proof.
  intros Hl Hfit Hn Hb Hi Hleaf Hp.
  assert (0 <= depth) as H0.
  { destruct (Z.le_gt_cases 0 depth) as [|Hneg]; [assumption |]. rewrite Z.pow_neg_r in Hfit by exact Hneg.
    apply lookup_lt_Some in Hleaf. unfold zlength in Hfit. lia. }
  assert (1 <= depth <= 32) as Hd.
  { unfold MerklePrefixTree_new in Hn. case_if_in Hn; [discriminate Hn |]. bools. lia. }
  destruct (client_proof_run leaves (Z.to_nat depth) (Z.to_nat index) leaf Hl) as (t' & b' & Hn' & Hb' & Hr & Hp' & Hroot & _); [lia | | exact Hleaf |].
  - apply Nat2Z.inj_le. rewrite Nat2Z.inj_pow. replace (Z.of_nat 2 ^ Z.of_nat (Z.to_nat depth)) with (2 ^ depth) by (f_equal; lia). exact Hfit.
  - rewrite Z2Nat.id in Hn', Hp' by lia. rewrite Hn in Hn'. injection Hn' as <-. rewrite Hb in Hb'. injection Hb' as <-.
    rewrite Hp in Hp'. injection Hp' as ->. cbn [proof_root path_indices path_elements]. split; [exact Hr |]. split; [reflexivity |]. split; [apply sib_path_length |]. split; [exact Hroot |].
    split; [apply sib_path_field, Hl |]. split; [| by apply nd_field].
    apply lookup_lt_Some in Hleaf. assert (2 ^ depth <= 2 ^ 32) by (apply Z.pow_le_mono_r; lia). assert (2 ^ 32 < BN_P) by reflexivity.
    unfold in_field, zlength in *. lia.
Qed.

End Trees.

(** ** Notes *)

(** The widths of the columns, and the uniqueness the schema requires of accounts. *)
Record db_typed (d : Db) : Prop := {
  dt_commitments : forall c, c ∈ pool_commitments d -> in_field (pc_commitment c) /\ 0 <= pc_leaf_index c < 2 ^ 32 /\ Forall is_byte (pc_encrypted_output c);
  dt_leaves : forall l, l ∈ asp_membership_leaves d -> in_field (lr_leaf l);
  dt_keys : forall k, k ∈ keypairs d -> length (note_public (kr_note k)) = 32%nat /\ length (note_private (kr_note k)) = 32%nat /\
    length (enc_public (kr_encryption k)) = 32%nat /\ in_field (kr_membership_blinding k);
  dt_accounts : NoDup (snd <$> accounts d);
  dt_contracts : NoDup (snd <$> contracts d);
}.

(** The database of a client that has run has these types. *)
Lemma schema_db_typed d : schema_ok d -> db_typed d.
Proof.
  intros H. destruct (so_commitments d H) as (_ & _ & _ & H1). destruct (so_leaves d H) as (_ & _ & H2). destruct (so_keypairs d H) as (_ & H3).
  split; [| | | exact (proj2 (so_accounts d H)) | exact (proj2 (so_contracts d H))].
  - intros c Hc. exact (proj2 (proj1 (Forall_forall _ _) H1 c Hc)).
  - intros l Hl. apply (proj1 (Forall_forall _ _) H2 l Hl).
  - intros k Hk. destruct (proj1 (Forall_forall _ _) H3 k Hk) as (_ & K1 & K2 & K3 & _ & K4). auto.
Qed.

Lemma unique_snd {A B} (l : list (A * B)) a a' b : NoDup (snd <$> l) -> (a, b) ∈ l -> (a', b) ∈ l -> a = a'.
Proof.
  intros Hnd (i & Hi)%list_elem_of_lookup (j & Hj)%list_elem_of_lookup.
  assert (i = j) as <-. { apply (NoDup_lookup _ _ _ b Hnd); rewrite list_lookup_fmap; [by rewrite Hi | by rewrite Hj]. }
  rewrite Hi in Hj. by injection Hj.
Qed.

Lemma lookup_address_elem table id address : lookup_address table id = Some address -> (id, address) ∈ table.
Proof.
  unfold lookup_address. intros H. destruct (find _ _) as [[i a]|] eqn:E; [| discriminate]. injection H as <-.
  apply find_some in E as [E Hi]. cbn in Hi. apply bool_decide_eq_true in Hi as ->. by apply list_elem_of_In.
Qed.

Lemma lookup_id_elem table id address : lookup_id table address = Some id -> (id, address) ∈ table.
Proof.
  unfold lookup_id. intros H. destruct (find _ _) as [[i a]|] eqn:E; [| discriminate]. injection H as <-.
  apply find_some in E as [E Hi]. cbn in Hi. apply bool_decide_eq_true in Hi as ->. by apply list_elem_of_In.
Qed.

Lemma latest_keypair_elem d account k : latest_keypair d account = Some k -> k ∈ keypairs d /\ kr_account k = account.
Proof.
  unfold latest_keypair. intros H%last_Some_elem_of. rewrite elem_of_order_by in H. apply list_elem_of_filter in H as [H1 H2]. auto.
Qed.

Lemma user_keys_typed d user keys : db_typed d -> get_user_keys d user = Some keys ->
  length (note_public (su_note_keypair keys)) = 32%nat /\ length (note_private (su_note_keypair keys)) = 32%nat /\
  length (enc_public (su_encryption_keypair keys)) = 32%nat /\ in_field (su_membership_blinding keys).
Proof.
  intros Hd H. unfold get_user_keys in H. apply bind_Some in H as (a & _ & H). apply bind_Some in H as (k & [Hk _]%latest_keypair_elem & [= <-]).
  exact (dt_keys d Hd k Hk).
Qed.

Section Notes.

Context {C : Crypto} {CL : CryptoLaws C} {X : XdrLib}.

Lemma is_account_keys d a : is_account d a -> exists k, latest_keypair d (ak_account a) = Some k /\ ak_note_keypair a = kr_note k.
Proof.
  unfold is_account, get_accounts_with_latest_keypairs. intros (row & _ & H)%list_elem_of_omap.
  apply bind_Some in H as (k & Hk & [= <-]). exists k. auto.
Qed.

(** A derived note opens its commitment under the account's key. *)
Lemma derived_opens d a c x : db_typed d -> is_account d a -> c ∈ pool_commitments d -> derive_user_note a (row_of c) = Ok (Some x) ->
  is_note (dn_amount x) /\ dn_amount x <> 0 /\ in_field (dn_blinding x) /\
  pc_commitment c = commitment_of (dn_amount x) (scalar_of (note_public (ak_note_keypair a))) (dn_blinding x) /\
  dn_expected_nullifier x = nullifier_of (scalar_of (note_private (ak_note_keypair a))) (pc_commitment c) (pc_leaf_index c).
Proof.
  intros Hd Ha Hc H. destruct (is_account_keys d a Ha) as (k & [Hk _]%latest_keypair_elem & Ek). destruct (dt_keys d Hd k Hk) as (H1 & H2 & _). rewrite <- Ek in H1, H2.
  destruct (dt_commitments d Hd c Hc) as (H3 & H4 & H5). unfold derive_user_note in H.
  destruct (try_decrypt_and_derive_user_note _ _ _ _ _ _) as [[[[y|]|e] n]|] eqn:E; try discriminate H. injection H as <-.
  destruct (derive_user_note_Some _ _ _ _ _ _ _ _ H1 H2 H4 H3 H5 E) as (A1 & A2 & A3 & A4 & A5).
  cbn [dn_amount dn_blinding dn_expected_nullifier]. exact (conj A1 (conj A2 (conj A3 (conj A4 A5)))).
Qed.

(** The pool has published the nullifier. *)
Definition nullifier_published (d : Db) (pool : string) (nullifier : Field) : Prop :=
  exists r e, event_at d r (Nullifier e) /\ raw_pool d r = Some pool /\ cn_nullifier e = nullifier.

(** A note the user can spend: it opens its commitment, a leaf of the pool, under the user's
    latest key, and its nullifier is not published. *)
Record spendable_note (d : Db) (pool : string) (keys : NoteKeyPair) (c : Field) (amount : NoteAmount) (blinding : Field) (index : Z) : Prop := {
  sp_amount : is_note amount /\ amount <> 0;
  sp_blinding : in_field blinding;
  sp_opens : c = commitment_of amount (scalar_of (note_public keys)) blinding;
  sp_leaf : (index, c) ∈ index_pair <$> pool_rows d pool;
  sp_unspent : ~ nullifier_published d pool (nullifier_of (scalar_of (note_private keys)) c index);
}.

Lemma nullifier_of_pool d c pool nullifier : storable d -> tables_ok d -> db_typed d -> c ∈ pool_commitments d -> address_of d (pc_event c) = Some pool ->
  nullifier_published d pool nullifier ->
  exists r e r' e', event_at d r (Nullifier e) /\ cn_nullifier e = nullifier /\ event_at d r' (Commitment e') /\ cc_commitment e' = pc_commitment c /\ raw_contract r = raw_contract r'.
Proof.
  intros Hs Ht Hd Hc Hp (r & e & He & Hr & Hn). destruct (to_commitments d Ht c Hc) as (r' & e' & He' & Hev & Hcm & _).
  exists r, e, r', e'. split; [exact He |]. split; [exact Hn |]. split; [exact He' |]. split; [by symmetry |].
  rewrite Hev, (address_of_raw d r' Hs (proj1 He')) in Hp. unfold raw_pool in *. apply lookup_address_elem in Hr, Hp.
  exact (unique_snd _ _ _ _ (dt_contracts d Hd) Hr Hp).
Qed.

Lemma found_note d pool user keys c amount blinding index :
  storable d -> wallet_ok derive_user_note d -> wallet_exact derive_user_note d -> db_typed d -> get_user_keys d user = Some keys ->
  get_unspent_user_note_by_commitment d pool user c = Ok (Some (amount, blinding, index)) ->
  spendable_note d pool (su_note_keypair keys) c amount blinding index.
Proof.
  intros Hs W We Hd Hk H. unfold get_unspent_user_note_by_commitment in H.
  destruct (head _) as [[n row]|] eqn:Eh; [| discriminate]. apply head_Some_elem_of, list_elem_of_omap in Eh as (n' & Hn & Hm).
  apply bind_Some in Hm as (row' & Hrow & Hm). destruct (_ && _) eqn:Eb in Hm; [| discriminate Hm]. injection Hm as -> ->.
  apply andb_true_iff in Eb as [[[Hus Hpool]%andb_true_iff Hcm%Z.eqb_eq]%andb_true_iff Hun%bool_decide_eq_true].
  apply bool_decide_eq_true in Hus, Hpool.
  destruct (wo_notes _ d W n Hn) as (c0 & a & x & Hc0 & Ha & Hx & Hid & Huid & Hacc & Hnull & Hbl & Ham & _).
  rewrite Hid, (find_id_unique d c0 (wo_tables _ d W) Hc0) in Hrow. injection Hrow as <-.
  apply bind_Ok in H as (am & Hamt & H). apply bind_Ok in H as (li & Hli & [= <- <- <-]).
  unfold col_u32 in Hli. case_if_in Hli; [| discriminate Hli]. injection Hli as <-.
  destruct (derived_opens d a c0 x Hd Ha Hc0 Hx) as (A1 & A2 & A3 & A4 & A5).
  destruct (column_amount_ok n (dn_amount x) A1 Ham) as [Hcol Ecol]. unfold column_amount in Hcol. rewrite Hcol in Hamt. injection Hamt as <-.
  assert (su_note_keypair keys = ak_note_keypair a) as ->.
  { unfold get_user_keys in Hk. apply bind_Some in Hk as (acc & Hid' & Hk). apply bind_Some in Hk as (k & Hlk & [= <-]).
    destruct (is_account_keys d a Ha) as (k' & Hlk' & ->). rewrite Hacc in Hus. apply lookup_id_elem in Hid'. apply lookup_address_elem in Hus.
    rewrite (unique_snd _ _ _ _ (dt_accounts d Hd) Hid' Hus), Hlk' in Hlk. by injection Hlk as ->. }
  rewrite Ecol, Hbl, <- Hcm. split; [auto | exact A3 | exact A4 | |].
  - apply list_elem_of_fmap. exists c0. split; [reflexivity |]. apply list_elem_of_filter. auto.
  - rewrite <- A5. intros (r & e & r' & e' & He & Hne & He' & Hce & Hrr)%(nullifier_of_pool d c0 pool _ Hs (wo_tables _ d W) Hd Hc0 Hpool).
    assert (is_Some (un_nullifier_id n)) as [? E]; [| rewrite Hun in E; discriminate E].
    apply (we_spent _ d We n (raw_contract r') Hn); [exists r', e'; split; [exact He' |]; split; [by rewrite Huid | reflexivity] |].
    exists r, e. split; [exact He |]. split; [by rewrite Hnull | exact Hrr].
Qed.

End Notes.

(** ** The builders *)

Section Build.

Context {C : Crypto} {CL : CryptoLaws C} {X : XdrLib} {host : HostPoseidon2} {laws : HostPoseidon2Laws host}.

(** An input of the transaction for a commitment: a note the user can spend, whose path opens
    the root. *)
Definition input_opens (d : Db) (pool : string) (keys : NoteKeyPair) (depth root : Z) (c : Field) (i : TransactInputNote) : Prop :=
  spendable_note d pool keys c (in_amount i) (in_blinding i) (merkle_path_indices i) /\ input_typed i /\
  length (merkle_path_elements i) = Z.to_nat depth /\
  path_root c (merkle_path_elements i) (Z.to_nat (merkle_path_indices i)) = Some root.

Definition membership_opens (keys : StoredUserKeys) (depth : Z) (m : AspMembershipProof) : Prop :=
  asp_membership_leaf (note_public (su_note_keypair keys)) (su_membership_blinding keys) = Some (Ok (mp_leaf m)) /\
  mp_blinding m = su_membership_blinding keys /\ membership_typed m /\ length (mp_path_elements m) = Z.to_nat depth /\
  path_root (mp_leaf m) (mp_path_elements m) (Z.to_nat (mp_path_indices m)) = Some (mp_root m).

Definition membership_rows (d : Db) (contract : string) : list LeafRow := filter (fun r => address_of d (lr_event r) = Some contract) (asp_membership_leaves d).

Lemma precondition_index d contract leaf root ledger i : check_asp_membership_precondition d contract leaf root ledger = Ok (UserIndex i) ->
  (i, leaf) ∈ (fun r => (lr_index r, lr_leaf r)) <$> membership_rows d contract.
Proof.
  unfold check_asp_membership_precondition. intros H. apply bind_Ok in H as (m & _ & H). destruct (find _ _); [| discriminate H].
  case_if_in H; [discriminate H |]. destruct (last _); [| discriminate H]. apply bind_Ok in H as (? & _ & H).
  case_if_in H; [case_if_in H; discriminate H |]. fold (membership_rows d contract) in H. destruct (find _ _) as [r|] eqn:E; [| discriminate H]. injection H as <-.
  apply find_some in E as [Hr He%Z.eqb_eq]. apply list_elem_of_fmap. exists r. split; [by rewrite He | by apply list_elem_of_In].
Qed.

Lemma membership_proof_spec d contract keys root ledger depth n m n' :
  db_typed d -> in_field (su_membership_blinding keys) -> zlength (membership_rows d contract) <= 2 ^ depth ->
  build_membership_proof d contract (note_public (su_note_keypair keys)) (su_membership_blinding keys) root ledger depth n = Some (Ok (inl m), n') ->
  membership_opens keys depth m.
Proof.
  intros Hd Hbl Hfit H. unfold build_membership_proof in H. bm_inv. destruct x1 as [g| |i]; [bm_inv; discriminate .. |]. bm_inv.
  match goal with H : inl _ = inl _ |- _ => injection H as -> end.
  match goal with H : check_asp_membership_precondition _ _ _ _ _ = _ |- _ => apply precondition_index in H as Hi end.
  match goal with H : get_all_asp_membership_leaves_ordered _ _ = Ok ?l |- _ => rename H into Hl; rename l into leaves end.
  unfold get_all_asp_membership_leaves_ordered in Hl. fold (membership_rows d contract) in Hl.
  destruct (ordered_lookup _ _ _ _ Hl _ _ Hi) as [Hpos Hleaf].
  assert (Forall in_field leaves) as Hcan. { apply (ordered_canonical _ _ _ _ Hl). intros r [_ Hr]%list_elem_of_filter. by apply (dt_leaves d Hd). }
  edestruct built_proof_opens as (Hr & Hidx & Hlen & Hpath & Hpf & Hif & Hrf); [exact Hcan | | eassumption | eassumption | exact Hpos | exact Hleaf | eassumption |].
  - by rewrite (ordered_length _ _ _ _ Hl).
  - assert (in_field x) as Hxf by exact (proj1 (Forall_lookup _ _) Hcan _ _ Hleaf).
    unfold membership_opens. cbn [mp_leaf mp_blinding mp_path_elements mp_path_indices mp_root]. rewrite Hidx in *.
    split; [eassumption |]. split; [reflexivity |]. split; [constructor; assumption |]. auto.
Qed.

(** The validated tree and the inputs made from it. *)
Definition validated (d : Db) (pool : string) (depth root : Z) (b : MerklePrefixTreeBuilt) : Prop :=
  exists leaves t, get_pool_commitment_leaves_ordered d pool = Ok leaves /\ zlength leaves <= 2 ^ depth /\
    MerklePrefixTree_new depth leaves = Some (Ok t) /\ pt_build t = Some b /\ ptb_root b = Some (Ok root).

Lemma validated_tree d pool next depth root n b n' : next <= 2 ^ depth ->
  build_validated_pool_tree d pool next depth root n = Some (Ok (inl b), n') -> validated d pool depth root b.
Proof.
  intros Hfit H. unfold build_validated_pool_tree in H. bm_inv. case_if_in H; bm_inv; [discriminate |]. case_if_in H; bm_inv.
  match goal with H : inl _ = inl _ |- _ => injection H as -> end. subst. do 2 eexists. split; [eassumption |]. split; [lia |]. eauto.
Qed.

Lemma validated_leaf d pool depth root b index c p : db_typed d -> validated d pool depth root b -> (index, c) ∈ index_pair <$> pool_rows d pool ->
  ptb_proof b index = Some (Ok p) ->
  proof_root p = root /\ path_indices p = index /\ length (path_elements p) = Z.to_nat depth /\ path_root c (path_elements p) (Z.to_nat index) = Some root /\
  Forall in_field (path_elements p) /\ in_field index.
Proof.
  intros Hd (leaves & t & Hl & Hfit & Hn & Hb & Hr) Hin Hp. unfold get_pool_commitment_leaves_ordered in Hl. fold (pool_rows d pool) in Hl.
  destruct (ordered_lookup _ _ _ _ Hl _ _ Hin) as [H0 Hleaf].
  destruct (built_proof_opens depth leaves t b index c p) as (Hr' & Hidx & Hlen & Hpath & H1 & H2 & _); try assumption.
  - apply (ordered_canonical _ _ _ _ Hl). intros r [_ Hr']%list_elem_of_filter. exact (proj1 (dt_commitments d Hd r Hr')).
  - rewrite Hr in Hr'. injection Hr' as ->. rewrite Hidx in H2. auto 10.
Qed.

Lemma input_notes_spec d pool user keys depth root b cs : forall n inputs n',
  storable d -> wallet_ok derive_user_note d -> wallet_exact derive_user_note d -> db_typed d -> get_user_keys d user = Some keys ->
  validated d pool depth root b -> build_input_notes d user pool b cs n = Some (Ok (inl inputs), n') ->
  Forall2 (input_opens d pool (su_note_keypair keys) depth root) cs inputs.
Proof.
  induction cs as [|c cs IH]; intros n inputs n' Hs W We Hd Hk Hv H; cbn [build_input_notes] in H; bm_inv.
  - match goal with H : inl _ = inl _ |- _ => injection H as -> end. constructor.
  - destruct x as [[[amount blinding] index]|]; [| bm_inv; discriminate]. apply bm_bind_Ok in H as (note & n1 & Hnote & H).
    apply bm_bind_Ok in H as (others & n2 & Hothers & H). destruct others as [notes|status]; bm_inv; [| discriminate].
    match goal with H : inl _ = inl _ |- _ => injection H as -> end. constructor; [| exact (IH _ _ _ Hs W We Hd Hk Hv Hothers)].
    unfold build_pool_input_note in Hnote. bm_inv. match goal with H : get_unspent_user_note_by_commitment _ _ _ _ = _ |- _ => pose proof (found_note d pool user keys _ _ _ _ Hs W We Hd Hk H) as Hsp end.
    match goal with H : ptb_proof _ _ = _ |- _ => destruct (validated_leaf d pool depth root b index c _ Hd Hv (sp_leaf _ _ _ _ _ _ _ Hsp) H) as (_ & Hidx & Hlen & Hpath & Hpf & Hif) end.
    unfold input_opens. cbn [in_amount in_blinding merkle_path_elements merkle_path_indices]. rewrite Hidx.
    split; [exact Hsp |]. split; [destruct Hsp as [[? _] ? _ _ _]; by constructor | auto].
Qed.

Lemma pool_inputs_spec d pool user keys next depth root cs n inputs n' :
  storable d -> wallet_ok derive_user_note d -> wallet_exact derive_user_note d -> db_typed d -> get_user_keys d user = Some keys -> next <= 2 ^ depth ->
  build_pool_inputs d user pool next depth root cs n = Some (Ok (inl inputs), n') ->
  Forall2 (input_opens d pool (su_note_keypair keys) depth root) cs inputs.
Proof.
  intros Hs W We Hd Hk Hfit H. unfold build_pool_inputs in H. case_bool_decide as E.
  - bm_inv. match goal with H : inl _ = inl _ |- _ => injection H as -> end. subst. constructor.
  - apply bm_bind_Ok in H as ([tree|status] & n1 & Ht & H); [| bm_inv; discriminate].
    exact (input_notes_spec d pool user keys depth root tree cs _ _ _ Hs W We Hd Hk (validated_tree _ _ _ _ _ _ _ _ Hfit Ht) H).
Qed.

(** What a request asks of each output. *)
Definition output_requested (amount : NoteAmount) (note_pk : option NotePublicKey) (enc_pk : option EncryptionPublicKey) (o : TransactOutput) : Prop :=
  out_amount o = amount /\ recipient_note_pubkey o = note_pk /\ recipient_encryption_pubkey o = enc_pk /\ (is_Some note_pk <-> is_Some enc_pk) /\ in_field (out_blinding o).

Lemma build_output_spec i amount note_pk enc_pk n o n' : build_output i amount note_pk enc_pk n = Some (Ok o, n') -> output_requested amount note_pk enc_pk o.
Proof.
  unfold build_output, output_requested. intros H. destruct (negb _) eqn:E; [discriminate |]. apply bm_bind_Ok in H as (b & n1 & [Hb _]%of_random_Ok%generate_random_blinding_Ok & H).
  bm_inv. cbn [out_amount recipient_note_pubkey recipient_encryption_pubkey out_blinding].
  split; [reflexivity |]. split; [reflexivity |]. split; [reflexivity |]. split; [| exact Hb].
  apply negb_false_iff, eqb_prop in E. by rewrite <- (bool_decide_eq_true (is_Some note_pk)), E, bool_decide_eq_true.
Qed.

(** What the parameters of a request are. *)
Record built_for (d : Db) (req : TransactRequest) (keys : StoredUserKeys) (p : TransactParams) : Prop := {
  bf_keys : get_user_keys d (rq_user_address req) = Some keys;
  bf_private : priv_key p = note_private (su_note_keypair keys);
  bf_encryption : encryption_pubkey p = enc_public (su_encryption_keypair keys);
  bf_root : rq_pool_root req = Some (pool_root p);
  bf_inputs : (length (tx_inputs p) <= 2)%nat;
  bf_open : Forall2 (input_opens d (rq_pool_address req) (su_note_keypair keys) (rq_tree_depth req) (pool_root p)) (rq_input_commitments req) (tx_inputs p);
  bf_member : membership_opens keys (rq_tree_depth req) (membership_proof p);
  bf_request : Flows.ext_recipient p = rq_ext_recipient req /\ tx_ext_amount p = rq_ext_amount req /\ non_membership_proof p = rq_non_membership_proof req /\
    tx_tree_depth p = rq_tree_depth req /\ tx_smt_depth p = rq_smt_depth req;
  bf_outputs : exists o0 o1, tx_outputs p = [o0; o1] /\
    output_requested (rq_output_amounts req).1 (rq_out_recipient_note_pubkeys req).1 (rq_out_recipient_encryption_pubkeys req).1 o0 /\
    output_requested (rq_output_amounts req).2 (rq_out_recipient_note_pubkeys req).2 (rq_out_recipient_encryption_pubkeys req).2 o1;
}.

Lemma builder_sound d req n n' p :
  storable d -> wallet_ok derive_user_note d -> wallet_exact derive_user_note d -> db_typed d ->
  rq_pool_next_index req <= 2 ^ rq_tree_depth req -> zlength (membership_rows d (rq_aspmem_contract_id req)) <= 2 ^ rq_tree_depth req ->
  build_transact_params d req n = Some (Ok (inl p), n') -> exists keys, built_for d req keys p.
Proof.
  intros Hs W We Hd Hfit Hmfit H. unfold build_transact_params in H. case_if_in H; [discriminate |].
  apply bm_bind_Ok in H as ([[[sk pk] ek] mb] & n1 & Hk & H). apply bm_result_Ok in Hk as [Hk ->]. unfold load_user_key_material in Hk.
  apply bind_Ok in Hk as (keys & Hk%ok_or_Ok & [= <- <- <- <-]). exists keys.
  destruct (user_keys_typed d _ keys Hd Hk) as (_ & _ & _ & Hbl).
  apply bm_bind_Ok in H as ([m|status] & n2 & Hm & H); [| bm_inv; discriminate]. apply (membership_proof_spec _ _ _ _ _ _ _ _ _ Hd Hbl Hmfit) in Hm.
  apply bm_bind_Ok in H as (root & n3 & Hroot & H). apply bm_result_Ok in Hroot as [Hroot%ok_or_Ok ->].
  apply bm_bind_Ok in H as ([inputs|status] & n4 & Hin & H); [| bm_inv; discriminate]. apply (pool_inputs_spec _ _ _ _ _ _ _ _ _ _ _ Hs W We Hd Hk Hfit) in Hin.
  apply bm_bind_Ok in H as (o0 & n5 & Ho0%build_output_spec & H). apply bm_bind_Ok in H as (o1 & n6 & Ho1%build_output_spec & H).
  apply bm_mret_Ok in H as [[= ->] ->]. split; cbn [priv_key encryption_pubkey pool_root Flows.ext_recipient tx_ext_amount tx_inputs tx_outputs membership_proof
    non_membership_proof tx_tree_depth tx_smt_depth]; auto 10.
  - apply Forall2_length in Hin. rewrite <- Hin. by apply Nat.ltb_ge.
  - exists o0, o1. auto.
Qed.

End Build.

(** ** When the builder is ready *)

Lemma bm_bind_step {A B} (m : BM A) (k : A -> BM B) n a n1 : m n = Some (Ok a, n1) -> (m ≫= k) n = k a n1.
Proof. unfold mbind, bm_bind. by intros ->. Qed.

Ltac bm_step H := rewrite (bm_bind_step _ _ _ _ _ H).

Section Ready.

Context {C : Crypto} {CL : CryptoLaws C} {X : XdrLib} {host : HostPoseidon2} {laws : HostPoseidon2Laws host}.

(** An unspent note of the user in the pool. *)
Definition holds_note (d : Db) (pool user : string) (c : Field) : Prop :=
  exists n, n ∈ user_notes d /\ un_id n = c /\ lookup_address (accounts d) (un_account n) = Some user /\ un_nullifier_id n = None /\
    exists r, r ∈ pool_rows d pool /\ un_commitment_id n = pc_id r.

Lemma note_is_found d pool user c : wallet_ok derive_user_note d -> db_typed d -> holds_note d pool user c ->
  exists amount blinding index, get_unspent_user_note_by_commitment d pool user c = Ok (Some (amount, blinding, index)).
Proof.
  intros W Hd (n & Hn & Hid & Hu & Hs & row & [Hp Hrow]%list_elem_of_filter & Hci). unfold get_unspent_user_note_by_commitment.
  destruct (head _) as [[n' row']|] eqn:Eh.
  - apply head_Some_elem_of, list_elem_of_omap in Eh as (n'' & Hn' & Hm). apply bind_Some in Hm as (row'' & Hr & Hm).
    destruct (_ && _) in Hm; [| discriminate Hm]. injection Hm as -> ->. apply find_id in Hr as [Hr Hri].
    destruct (wo_notes _ d W n' Hn') as (c0 & a & x & Hc0 & Ha & Hx & Hid0 & _ & _ & _ & _ & Ham & _).
    destruct (derived_opens d a c0 x Hd Ha Hc0 Hx) as (A1 & _). destruct (column_amount_ok n' (dn_amount x) A1 Ham) as [Hcol _].
    destruct (dt_commitments d Hd row' Hr) as (_ & [H0 H1] & _). unfold column_amount in Hcol. rewrite Hcol. cbn [mbind result_bind].
    unfold col_u32, fits_u. rewrite (proj2 (Z.leb_le 0 _) H0), (proj2 (Z.ltb_lt _ (2 ^ 32)) H1). cbn [andb mbind result_bind]. eauto.
  - exfalso. destruct (omap _ (user_notes d)) as [|y l] eqn:E; [| discriminate Eh]. clear Eh. eapply (not_elem_of_nil (n, row)). rewrite <- E.
    apply list_elem_of_omap. exists n. split; [exact Hn |]. rewrite Hci, (find_id_unique d row (wo_tables _ d W) Hrow). cbn [mbind option_bind].
    destruct (wo_notes _ d W n Hn) as (c0 & a & x & Hc0 & _ & _ & Hid0 & Huid & _).
    assert (c0 = row) as ->. { apply (fmap_nodup_eq pc_id (pool_commitments d) _ _ (to_commitment_ids d (wo_tables _ d W)) Hc0 Hrow). congruence. }
    unfold note_in_pool. rewrite !bool_decide_true by assumption. by rewrite <- Hid, Huid, Z.eqb_refl.
Qed.

Lemma input_notes_ready d pool user keys depth leaves t b cs : forall n,
  storable d -> wallet_ok derive_user_note d -> wallet_exact derive_user_note d -> db_typed d -> get_user_keys d user = Some keys ->
  (1 <= depth <= 32)%nat -> (length leaves <= 2 ^ depth)%nat -> get_pool_commitment_leaves_ordered d pool = Ok leaves -> MerklePrefixTree_new (Z.of_nat depth) leaves = Some (Ok t) -> pt_build t = Some b ->
  Forall (holds_note d pool user) cs -> exists inputs, build_input_notes d user pool b cs n = Some (Ok (inl inputs), n).
Proof.
  intros n Hs W We Hd Hk Hdep Hfit Hl Ht Hb. induction cs as [|c cs IH]; intros Hcs; [by eexists |]. apply Forall_cons in Hcs as [Hc Hcs].
  destruct (IH Hcs) as (notes & Hnotes). destruct (note_is_found d pool user c W Hd Hc) as (amount & blinding & index & Hf).
  pose proof (found_note d pool user keys c _ _ _ Hs W We Hd Hk Hf) as Hsp. pose proof Hl as Hl'. unfold get_pool_commitment_leaves_ordered in Hl'. fold (pool_rows d pool) in Hl'.
  destruct (ordered_lookup _ _ _ _ Hl' _ _ (sp_leaf _ _ _ _ _ _ _ Hsp)) as [Hpos Hleaf].
  assert (Forall in_field leaves) as Hcan.
  { apply (ordered_canonical _ _ _ _ Hl'). intros r [_ Hr]%list_elem_of_filter. exact (proj1 (dt_commitments d Hd r Hr)). }
  destruct (client_proof_run leaves depth (Z.to_nat index) c Hcan Hdep Hfit Hleaf) as (t' & b' & Ht' & Hb' & _ & Hp & _).
  rewrite Ht in Ht'. injection Ht' as <-. rewrite Hb in Hb'. injection Hb' as <-. rewrite Z2Nat.id in Hp by exact Hpos.
  cbn [build_input_notes]. eexists. bm_step (proj2 (of_storage_Ok _ n _ n) (conj Hf eq_refl)). unfold build_pool_input_note.
  erewrite bm_bind_step; [| by bm_step (proj2 (of_tree_Ok _ n _ n) (conj Hp eq_refl))]. bm_step Hnotes. reflexivity.
Qed.

Lemma membership_ready d contract keys root ledger depth leaves leaf i n :
  db_typed d -> (1 <= depth <= 32)%nat -> get_all_asp_membership_leaves_ordered d contract = Ok leaves -> (length leaves <= 2 ^ depth)%nat ->
  asp_membership_leaf (note_public (su_note_keypair keys)) (su_membership_blinding keys) = Some (Ok leaf) ->
  check_asp_membership_precondition d contract leaf root ledger = Ok (UserIndex i) ->
  exists m, build_membership_proof d contract (note_public (su_note_keypair keys)) (su_membership_blinding keys) root ledger (Z.of_nat depth) n = Some (Ok (inl m), n).
Proof.
  intros Hd Hdep Hl Hfit Hleaf Hc. pose proof Hl as Hl'. unfold get_all_asp_membership_leaves_ordered in Hl'. fold (membership_rows d contract) in Hl'.
  destruct (ordered_lookup _ _ _ _ Hl' _ _ (precondition_index _ _ _ _ _ _ Hc)) as [Hpos Hat].
  assert (Forall in_field leaves) as Hcan. { apply (ordered_canonical _ _ _ _ Hl'). intros r [_ Hr]%list_elem_of_filter. by apply (dt_leaves d Hd). }
  destruct (client_proof_run leaves depth (Z.to_nat i) leaf Hcan Hdep Hfit Hat) as (t & b & Ht & Hb & _ & Hp & _). rewrite Z2Nat.id in Hp by exact Hpos.
  eexists. unfold build_membership_proof. bm_step (proj2 (of_prover_Ok _ n _ n) (conj Hleaf eq_refl)). bm_step (proj2 (of_storage_Ok _ n _ n) (conj Hc eq_refl)).
  bm_step (proj2 (of_storage_Ok _ n _ n) (conj Hl eq_refl)). bm_step (proj2 (of_tree_Ok _ n _ n) (conj Ht eq_refl)). bm_step (proj2 (of_panic_Ok _ n _ n) (conj Hb eq_refl)).
  bm_step (proj2 (of_tree_Ok _ n _ n) (conj Hp eq_refl)). reflexivity.
Qed.

Lemma validated_ready d pool depth leaves root n : db_typed d -> (1 <= depth <= 32)%nat -> get_pool_commitment_leaves_ordered d pool = Ok leaves ->
  root = tree_root poseidon2_compress zero_leaf leaves depth ->
  exists t b, MerklePrefixTree_new (Z.of_nat depth) leaves = Some (Ok t) /\ pt_build t = Some b /\
    build_validated_pool_tree d pool (zlength leaves) (Z.of_nat depth) root n = Some (Ok (inl b), n).
Proof.
  intros Hd Hdep Hl ->. assert (Forall in_field leaves) as Hcan.
  { unfold get_pool_commitment_leaves_ordered in Hl. apply (ordered_canonical _ _ _ _ Hl). intros r [_ Hr]%list_elem_of_filter. exact (proj1 (dt_commitments d Hd r Hr)). }
  destruct (client_tree_run leaves depth Hcan Hdep) as (t & b & Ht & Hb & _ & _ & _ & Hr). exists t, b. split; [exact Ht |]. split; [exact Hb |].
  unfold build_validated_pool_tree. bm_step (proj2 (of_storage_Ok _ n _ n) (conj Hl eq_refl)). rewrite Z.eqb_refl. cbn [negb].
  bm_step (proj2 (of_tree_Ok _ n _ n) (conj Ht eq_refl)). bm_step (proj2 (of_panic_Ok _ n _ n) (conj Hb eq_refl)).
  bm_step (proj2 (of_tree_Ok _ n _ n) (conj Hr eq_refl)). rewrite Z.eqb_refl. reflexivity.
Qed.

Lemma output_ready i amount note_pk enc_pk n : entropy_available C -> (is_Some note_pk <-> is_Some enc_pk) ->
  exists o n', build_output i amount note_pk enc_pk n = Some (Ok o, n').
Proof.
  intros He Hp. destruct (generate_random_blinding_available n He) as (b & Hb). unfold build_output.
  rewrite (bool_decide_ext _ _ Hp), eqb_reflx. cbn [negb]. do 2 eexists. bm_step (proj2 (of_random_Ok _ n _ _) Hb). reflexivity.
Qed.

(** What a request needs of the database and of the chain for the builder to be ready. *)
Record request_ready (d : Db) (req : TransactRequest) (keys : StoredUserKeys) (leaves members : list Field) (depth : nat) : Prop := {
  rr_inputs : (length (rq_input_commitments req) <= 2)%nat;
  rr_keys : get_user_keys d (rq_user_address req) = Some keys;
  rr_depth : rq_tree_depth req = Z.of_nat depth /\ (1 <= depth <= 32)%nat;
  (** the pool's leaves are the events the client holds, and the chain reported their root and number *)
  rr_leaves : forall z c, published d (rq_pool_address req) z c <-> exists i, z = Z.of_nat i /\ leaves !! i = Some c;
  rr_fits : (length leaves <= 2 ^ depth)%nat /\ rq_pool_next_index req = zlength leaves;
  rr_root : rq_pool_root req = Some (tree_root poseidon2_compress zero_leaf leaves depth);
  (** the user's leaf is in the association set, and its events are read up to the ledger asked for *)
  rr_members : get_all_asp_membership_leaves_ordered d (rq_aspmem_contract_id req) = Ok members /\ (length members <= 2 ^ depth)%nat;
  rr_member : forall leaf, asp_membership_leaf (note_public (su_note_keypair keys)) (su_membership_blinding keys) = Some (Ok leaf) ->
    exists i, check_asp_membership_precondition d (rq_aspmem_contract_id req) leaf (rq_aspmem_root req) (rq_aspmem_ledger req) = Ok (UserIndex i);
  rr_notes : Forall (holds_note d (rq_pool_address req) (rq_user_address req)) (rq_input_commitments req);
  rr_paired0 : is_Some (rq_out_recipient_note_pubkeys req).1 <-> is_Some (rq_out_recipient_encryption_pubkeys req).1;
  rr_paired1 : is_Some (rq_out_recipient_note_pubkeys req).2 <-> is_Some (rq_out_recipient_encryption_pubkeys req).2;
}.

Lemma builder_ready d req keys leaves members depth n :
  entropy_available C -> storable d -> wallet_ok derive_user_note d -> wallet_exact derive_user_note d -> db_typed d ->
  request_ready d req keys leaves members depth -> exists p n', build_transact_params d req n = Some (Ok (inl p), n').
Proof.
  intros He Hs W We Hd [R1 R2 [R3 R3'] R4 [R5 R5'] R6 [R7 R7'] R8 R9 R10 R11].
  pose proof (leaves_ordered_exact d (rq_pool_address req) leaves Hs (wo_tables _ d W) (we_events _ d We) R4) as Hl.
  destruct (user_keys_typed d _ keys Hd R2) as (K1 & _ & _ & K4). destruct (asp_membership_leaf_run host laws _ _ K4 K1) as (leaf & Hleaf & _).
  destruct (R8 leaf Hleaf) as (i & Hi).
  destruct (membership_ready d _ keys (rq_aspmem_root req) (rq_aspmem_ledger req) depth members leaf i n Hd R3' R7 R7' Hleaf Hi) as (m & Hm).
  unfold build_transact_params. rewrite (proj2 (Nat.ltb_ge _ _) R1).
  erewrite bm_bind_step; [| apply bm_result_Ok; split; [unfold load_user_key_material; rewrite R2; reflexivity | reflexivity]]. cbn beta iota.
  rewrite R3. bm_step Hm.
  erewrite bm_bind_step; [| apply bm_result_Ok; split; [apply ok_or_Ok; exact R6 | reflexivity]].
  assert (exists inputs, build_pool_inputs d (rq_user_address req) (rq_pool_address req) (rq_pool_next_index req) (Z.of_nat depth)
    (tree_root poseidon2_compress zero_leaf leaves depth) (rq_input_commitments req) n = Some (Ok (inl inputs), n)) as (inputs & Hin).
  { unfold build_pool_inputs. case_bool_decide; [by eexists |].
    destruct (validated_ready d (rq_pool_address req) depth leaves _ n Hd R3' Hl eq_refl) as (t & b & Ht & Hb & Hv). rewrite R5'. bm_step Hv.
    exact (input_notes_ready d _ _ keys depth leaves t b _ n Hs W We Hd R2 R3' R5 Hl Ht Hb R9). }
  bm_step Hin. destruct (output_ready 0 (rq_output_amounts req).1 _ _ n He R10) as (o0 & n0 & H0). bm_step H0.
  destruct (output_ready 1 (rq_output_amounts req).2 _ _ n0 He R11) as (o1 & n1 & H1). bm_step H1. do 2 eexists. reflexivity.
Qed.

End Ready.

(** ** From the request to the circuit's inputs *)

(** The widths of a request's fields. *)
Record request_typed (req : TransactRequest) : Prop := {
  rt_ext : is_ext (rq_ext_amount req);
  rt_amounts : is_note (rq_output_amounts req).1 /\ is_note (rq_output_amounts req).2;
  rt_note_keys : forall k, (rq_out_recipient_note_pubkeys req).1 = Some k \/ (rq_out_recipient_note_pubkeys req).2 = Some k -> length k = 32%nat;
  rt_enc_keys : forall k, (rq_out_recipient_encryption_pubkeys req).1 = Some k \/ (rq_out_recipient_encryption_pubkeys req).2 = Some k -> length k = 32%nat;
  rt_root : forall r, rq_pool_root req = Some r -> in_field r;
  rt_depths : 0 < rq_tree_depth req /\ 0 < rq_smt_depth req;
  rt_non_membership : non_membership_typed (rq_non_membership_proof req);
}.

Section Composition.

Context {C : Crypto} {CL : CryptoLaws C} {X : XdrLib} {host : HostPoseidon2} {laws : HostPoseidon2Laws host}.

Lemma requested_typed amount note_pk enc_pk o : is_note amount -> (forall k, note_pk = Some k -> length k = 32%nat) -> (forall k, enc_pk = Some k -> length k = 32%nat) ->
  output_requested amount note_pk enc_pk o -> output_typed o /\ keys_paired o.
Proof. intros H1 H2 H3 (E1 & E2 & E3 & E4 & E5). split; [split |]; unfold keys_paired; rewrite ?E1, ?E2, ?E3; assumption. Qed.

Lemma built_typed d req keys p : db_typed d -> request_typed req -> built_for d req keys p -> params_typed p /\ Forall keys_paired (tx_outputs p).
Proof.
  intros Hd [T1 [T2 T2'] T3 T4 T5 [T6 T6'] T7] [B1 B2 B3 B4 _ B5 (_ & _ & B6 & _) (_ & B7 & B8 & B9 & B10) (o0 & o1 & B11 & O0 & O1)].
  destruct (user_keys_typed d _ keys Hd B1) as (_ & K2 & K3 & _).
  apply requested_typed in O0 as [O0 P0]; [| assumption | eauto ..]. apply requested_typed in O1 as [O1 P1]; [| assumption | eauto ..].
  split; [| rewrite B11; constructor; [exact P0 | constructor; [exact P1 | constructor]]]. split; rewrite ?B2, ?B3, ?B7, ?B8, ?B9, ?B10; try assumption; try lia.
  - by apply T5.
  - clear -B5. induction B5 as [|c i cs ins (_ & H & _) _ IH]; constructor; assumption.
  - rewrite B11. constructor; [exact O0 | constructor; [exact O1 | constructor]].
Qed.

Lemma built_acceptable d req keys p : request_typed req -> built_for d req keys p -> Forall keys_paired (tx_outputs p) ->
  length (nmp_siblings (rq_non_membership_proof req)) = Z.to_nat (rq_smt_depth req) -> balance_ok p -> flow_acceptable p.
Proof.
  intros [_ _ _ _ _ [T6 T6'] _] [_ _ _ _ B0 B5 (_ & _ & _ & B6 & _) (_ & _ & B8 & B9 & B10) (o0 & o1 & B11 & _)] Hp Hsib Hbal.
  split; [| split; [exact Hbal |]; split; [exact B0 |]; split; [| exact Hp]].
  - unfold shapes_ok. rewrite B8, B9, B10, B11. split; [lia |]. split; [lia |]. split; [exact B6 |]. split; [exact Hsib |]. cbn. lia.
  - rewrite B9. clear -B5. induction B5 as [|c i cs ins (_ & _ & H & _) _ IH]; constructor; assumption.
Qed.

End Composition.
