(* ===== verification/PoolClientTheorems.v ===== *)
(** * The pool client's claims

    A database with one unspent note, and what the builder makes of it. *)

From Stdlib Require Import Ascii.
From S2P Require Import Prelude Ints Amounts Poseidon2Tables Hashes ProverMonad Encryption Notes Flows FlowFacts FlowTheorems Soroban MerkleSpec AspMembership Pool PrefixTree ScVals ScValFacts Events Storage Queries Scan StorageFacts SyncFacts WalletFacts ReconcileFacts SyncTheorems QueryFacts EndToEnd Combination Plan PoolClient PoolClientFacts.

(** ** A wallet with one note, not spent, of a member of the association set *)

Section Scenario.

Variables (cm leaf root : Field) (out : bytes) (nullifier : Field).

Definition fund_xdr : XdrLib := {|
  from_xdr_base64 s :=
    if bool_decide (s = "c") then Some (ScSymbol "new_commitment_event")
    else if bool_decide (s = "l") then Some (ScSymbol "LeafAdded")
    else if bool_decide (s = "c0") then Some (u256_val cm)
    else if bool_decide (s = "out") then Some (struct_val [("encrypted_output", ScBytes out); ("index", ScU32 0)])
    else if bool_decide (s = "leaf") then Some (struct_val [("index", ScU64 0); ("leaf", u256_val leaf); ("root", u256_val root)])
    else Some ScVoid;
  scval_to_xdr _ := None;
  symbol_to_utf8 s := Some s;
  parse_address _ := None;
  account_strkey _ := "G";
  contract_strkey _ := "C";
|}.

#[local] Instance fund_xdr_laws : XdrLaws fund_xdr.
Proof. split. reflexivity. Qed.

Definition fund_raw1 : RawEvent := {| raw_id := "1"; raw_ledger := 10; raw_contract := 1; raw_topics := "c,c0"; raw_value := "out" |}.
Definition fund_raw2 : RawEvent := {| raw_id := "2"; raw_ledger := 11; raw_contract := 2; raw_topics := "l"; raw_value := "leaf" |}.
Definition fund_event1 : ClientCommitmentEvent := {| cc_id := "1"; cc_commitment := cm; cc_index := 0; cc_encrypted_output := out |}.
Definition fund_event2 : ClientLeafAddedEvent := {| cl_id := "2"; cl_leaf := leaf; cl_index := 0; cl_root := root |}.
Definition fund_row : CommitmentRow := {| pc_id := 1; pc_commitment := cm; pc_leaf_index := 0; pc_encrypted_output := out; pc_event := "1" |}.
Definition fund_note : UserNoteRow := {| un_id := cm; un_account := 1; un_commitment_id := 1; un_nullifier_id := None; un_expected_nullifier := nullifier;
  un_blinding := 88; un_amount := NoteAmount_to_string 20 |}.
Definition fund_leaf_row : LeafRow := {| lr_contract := 2; lr_index := 0; lr_leaf := leaf; lr_root := root; lr_event := "2" |}.

Definition fund_db : Db :=
  Build_Db [(1, "pool"); (2, "asp")] [{| sr_contract := 2; sr_cursor := None; sr_indexed := 12; sr_fully_indexed := 12 |}] [fund_raw1; fund_raw2] [(1, "alice")]
    [{| kr_id := 1; kr_note := sync_keys; kr_encryption := sync_encryption; kr_membership_blinding := 3; kr_account := 1 |}] [] [fund_row] [] [fund_leaf_row] [fund_note] ∅ ∅.

Hypothesis Hcm : in_field cm.
Hypothesis Hleaf : in_field leaf.
Hypothesis Hroot : in_field root.

Lemma fund_parse1 : parse_event (H := fund_xdr) (event_of fund_db fund_raw1) = Ok (Commitment fund_event1).
Proof using Hcm.
  refine (contract_event_parsed (X := fund_xdr) (event_of fund_db fund_raw1) (FromPool (NewCommitmentEvent cm 0 out)) Hcm _).
  exists "c", ["c0"]. split; [reflexivity |]. split; [reflexivity |]. split; [repeat constructor | left; reflexivity].
Qed.

Lemma fund_parse2 : parse_event (H := fund_xdr) (event_of fund_db fund_raw2) = Ok (LeafAdded fund_event2).
Proof using Hleaf Hroot.
  refine (contract_event_parsed (X := fund_xdr) (event_of fund_db fund_raw2) (FromMembership {| la_leaf := leaf; la_index := 0; la_root := root |}) _ _).
  - split; [exact Hleaf |]. split; [exact Hroot |]. cbn. lia.
  - exists "l", []. split; [reflexivity |]. split; [reflexivity |]. split; [constructor | left; reflexivity].
Qed.

Lemma fund_event_at r e : event_at (X := fund_xdr) fund_db r e <-> (r = fund_raw1 /\ e = Commitment fund_event1) \/ (r = fund_raw2 /\ e = LeafAdded fund_event2).
Proof using Hcm Hleaf Hroot.
  split.
  - intros [[-> | ->%list_elem_of_singleton]%elem_of_cons He].
    + rewrite fund_parse1 in He. injection He as <-. auto.
    + rewrite fund_parse2 in He. injection He as <-. auto.
  - intros [[-> ->]|[-> ->]]; (split; [apply list_elem_of_In; cbn; tauto |]); [exact fund_parse1 | exact fund_parse2].
Qed.

Lemma fund_storable : storable (X := fund_xdr) fund_db.
Proof using Hcm Hleaf Hroot.
  split.
  - reflexivity.
  - apply NoDup_ListNoDup. cbn. repeat constructor; cbn; intuition discriminate.
  - intros r [-> | ->%list_elem_of_singleton]%elem_of_cons; by eexists.
  - intros r [-> | ->%list_elem_of_singleton]%elem_of_cons; [exists (Commitment fund_event1); split; [exact fund_parse1 | cbn; lia] | exists (LeafAdded fund_event2); split; [exact fund_parse2 | exact I]].
  - intros r1 r2 e1 e2 [[-> _]|[_ E]]%fund_event_at [[-> _]|[_ E']]%fund_event_at _; (reflexivity || discriminate E || discriminate E').
  - intros r1 r2 e1 e2 [[_ E]|[_ E]]%fund_event_at; discriminate E.
  - intros r1 r2 e1 e2 [[_ E]|[-> _]]%fund_event_at [[_ E']|[-> _]]%fund_event_at _ _; (reflexivity || discriminate E || discriminate E').
Qed.

Lemma fund_tables : tables_ok (X := fund_xdr) fund_db.
Proof using Hcm Hleaf Hroot.
  split; try (by intros ? ?%not_elem_of_nil); try (apply NoDup_ListNoDup; cbn; repeat constructor; cbn; tauto).
  - intros c ->%list_elem_of_singleton. exists fund_raw1, fund_event1. split; [apply fund_event_at; auto | repeat split].
  - intros l ->%list_elem_of_singleton. exists fund_raw2, fund_event2. split; [apply fund_event_at; auto | repeat split].
Qed.

Lemma fund_accounts : get_accounts_with_latest_keypairs fund_db = [sync_account].
Proof. reflexivity. Qed.

Hypothesis Hout : Forall is_byte out.
Hypothesis Hderive : forall i, derive_user_note (H := ref_crypto) sync_account (row_at i fund_event1)
  = Ok (Some {| dn_amount := 20; dn_blinding := 88; dn_expected_nullifier := nullifier |}).

Lemma fund_note_ok n : n ∈ user_notes fund_db -> note_ok (derive_user_note (H := ref_crypto)) fund_db n.
Proof using Hderive.
  intros ->%list_elem_of_singleton. exists fund_row, sync_account. eexists. split; [by apply list_elem_of_singleton |].
  split; [unfold is_account; rewrite fund_accounts; by apply list_elem_of_singleton |]. split; [exact (Hderive 1) |]. repeat split. discriminate.
Qed.

Lemma fund_wallet : wallet_ok (X := fund_xdr) (derive_user_note (H := ref_crypto)) fund_db.
Proof using Hcm Hleaf Hroot Hderive.
  split; try (intros *; cbn; rewrite lookup_empty; intros; discriminate).
  - exact fund_tables.
  - intros c ->%list_elem_of_singleton. reflexivity.
  - by intros ? ?%not_elem_of_nil.
  - exact fund_note_ok.
  - apply NoDup_singleton.
Qed.

Lemma fund_exact : wallet_exact (X := fund_xdr) (derive_user_note (H := ref_crypto)) fund_db.
Proof using Hcm Hleaf Hroot Hderive.
  split.
  - reflexivity.
  - exact fund_note_ok.
  - intros a r e _ [[_ [= ->]]|[_ E]]%fund_event_at _; [| discriminate E]. exists fund_note. split; [by apply list_elem_of_singleton | reflexivity].
  - intros n p ->%list_elem_of_singleton _. split; [intros [? E]; discriminate E |]. intros (r & e & [[_ E]|[_ E]]%fund_event_at & _); discriminate E.
Qed.

Lemma fund_typed : db_typed fund_db.
Proof using Hcm Hleaf Hout.
  split.
  - intros c ->%list_elem_of_singleton. split; [exact Hcm |]. split; [cbn; lia | exact Hout].
  - intros l ->%list_elem_of_singleton. exact Hleaf.
  - intros k ->%list_elem_of_singleton. split; [apply length_le_bytes |]. split; [apply length_le_bytes |]. split; [reflexivity | split; reflexivity || (cbn; lia)].
  - apply NoDup_singleton.
  - apply NoDup_ListNoDup. cbn. repeat constructor; cbn; intuition discriminate.
Qed.

(** Alice asks to pay 15 of the note of 20 to Bob's keys, with 5 back. *)
Definition fund_request (pool_root : Field) : TransactRequest :=
  {| rq_user_address := "alice"; rq_pool_root := Some pool_root; rq_pool_next_index := 1; rq_pool_address := "pool"; rq_ext_recipient := "pool";
     rq_ext_amount := 0; rq_aspmem_root := root; rq_aspmem_contract_id := "asp"; rq_aspmem_ledger := 12; rq_input_commitments := [cm];
     rq_output_amounts := (15, 5); rq_out_recipient_note_pubkeys := (Some (le_bytes 32 6), None);
     rq_out_recipient_encryption_pubkeys := (Some (replicate 32 7), None); rq_smt_depth := 2; rq_tree_depth := 3;
     rq_non_membership_proof := wit_non_membership |}.

Definition fund_keys : StoredUserKeys := {| su_note_keypair := sync_keys; su_encryption_keypair := sync_encryption; su_membership_blinding := 3 |}.

Lemma fund_request_typed pool_root : in_field pool_root -> request_typed (fund_request pool_root).
Proof.
  intros Hr. split; cbn [fund_request rq_ext_amount rq_output_amounts rq_out_recipient_note_pubkeys rq_out_recipient_encryption_pubkeys rq_pool_root rq_tree_depth rq_smt_depth rq_non_membership_proof fst snd].
  - split; reflexivity || (cbn; lia).
  - split; split; reflexivity || lia.
  - intros k [[= <-]|E]; [reflexivity | discriminate E].
  - intros k [[= <-]|E]; [reflexivity | discriminate E].
  - intros r [= <-]. exact Hr.
  - lia.
  - constructor; ground.
Qed.

Hypothesis Hasp : asp_membership_leaf (note_public sync_keys) 3 = Some (Ok leaf).

Lemma fund_ready : request_ready (X := fund_xdr) (host := ref_host_poseidon2) fund_db
  (fund_request (tree_root (poseidon2_compress (host := ref_host_poseidon2)) zero_leaf [cm] 3)) fund_keys [cm] [leaf] 3.
Proof using Hcm Hleaf Hroot Hasp.
  split; cbn [fund_request rq_ext_amount rq_output_amounts rq_out_recipient_note_pubkeys rq_out_recipient_encryption_pubkeys rq_pool_root rq_tree_depth rq_smt_depth
    rq_input_commitments rq_user_address rq_pool_address rq_pool_next_index rq_aspmem_contract_id rq_aspmem_root rq_aspmem_ledger fst snd].
  - cbn. lia.
  - reflexivity.
  - lia.
  - intros z c. split.
    + intros (r & e & [[-> [= ->]]|[_ E]]%fund_event_at & _ & <- & <-); [| discriminate E]. exists 0%nat. split; reflexivity.
    + intros (i & -> & Hi). destruct i as [|i]; [| discriminate Hi]. injection Hi as <-. exists fund_raw1, fund_event1. split; [apply fund_event_at; auto |]. repeat split.
  - split; [cbn; lia | reflexivity].
  - reflexivity.
  - split; [reflexivity | cbn; lia].
  - intros l Hl. cbn [fund_keys su_note_keypair su_membership_blinding] in Hl. rewrite Hasp in Hl. injection Hl as <-. exists 0.
    unfold check_asp_membership_precondition. change (get_sync_metadata fund_db) with
      (Ok (E := StorageError) [{| sm_contract_id := "asp"; sm_cursor := EmptyString; sm_last_indexed_ledger := 12; sm_last_fully_indexed_ledger := 12 |}]).
    cbn [mbind result_bind]. cbn [find sm_contract_id]. rewrite bool_decide_true by reflexivity. cbn [sm_last_fully_indexed_ledger].
    change (12 <? 12) with false. cbn iota. fold (membership_rows fund_db "asp"). change (membership_rows fund_db "asp") with [fund_leaf_row].
    change (last (order_by lr_index [fund_leaf_row])) with (Some fund_leaf_row). cbn iota.
    change (col_u32 _) with (Ok (E := StorageError) 11). cbn [mbind result_bind fund_leaf_row lr_root lr_leaf find lr_index]. rewrite !Z.eqb_refl. reflexivity.
  - constructor; [| constructor]. exists fund_note. split; [by apply list_elem_of_singleton |]. split; [reflexivity |]. split; [reflexivity |]. split; [reflexivity |].
    exists fund_row. split; [| reflexivity]. change (pool_rows fund_db "pool") with [fund_row]. by apply list_elem_of_singleton.
  - split; intros _; by eexists.
  - split; intros [? E]; discriminate E.
Qed.

End Scenario.

(** C11. Parameters built from a synchronised database spend the user's own unspent notes: when
    the builder is ready, each input is a note that opens its commitment, a leaf of the
    pool, under the user's latest key with a non-zero amount, whose nullifier the pool has
    not published, and whose path hashes up to the pool root the chain reported; the
    membership proof is for the user's leaf and opens the root it names; the keys, the
    public amount, the recipient, the output amounts and the recipients' keys are those of
    the request, and there are at most two inputs. *)
Theorem built_inputs_are_spendable (C : Crypto) (CL : CryptoLaws C) (X : XdrLib) (host : HostPoseidon2) (laws : HostPoseidon2Laws host)
    (d : Db) (req : TransactRequest) (n n' : nat) (p : TransactParams) :
  storable d -> wallet_ok derive_user_note d -> wallet_exact derive_user_note d -> db_typed d ->
  rq_pool_next_index req <= 2 ^ rq_tree_depth req -> zlength (membership_rows d (rq_aspmem_contract_id req)) <= 2 ^ rq_tree_depth req ->
  build_transact_params d req n = Some (Ok (inl p), n') -> exists keys, built_for d req keys p.
Proof. exact (builder_sound d req n n' p). Qed.

Lemma sync_output_bytes : Forall is_byte sync_output.
Proof. vm_compute. repeat (constructor; [split; [discriminate | reflexivity] |]). constructor. Qed.

Lemma fund_leaf : exists leaf, asp_membership_leaf (note_public sync_keys) 3 = Some (Ok leaf) /\ in_field leaf.
Proof.
  destruct (asp_membership_leaf_run ref_host_poseidon2 ref_host_poseidon2_laws (note_public sync_keys) 3) as (leaf & H & Hf & _); [split; [discriminate | reflexivity] | apply length_le_bytes |].
  exists leaf. split; [exact H | exact Hf].
Qed.

Lemma built_inputs_are_spendable_witness :
  exists leaf p n' keys, let d := fund_db sync_commitment leaf 31 sync_output sync_nullifier in
  let req := fund_request sync_commitment 31 (tree_root (poseidon2_compress (host := ref_host_poseidon2)) zero_leaf [sync_commitment] 3) in
  build_transact_params (C := ref_crypto) d req 0%nat = Some (Ok (inl p), n') /\
  built_for (X := fund_xdr sync_commitment leaf 31 sync_output) d req keys p.
Proof.
  destruct fund_leaf as (leaf & Hasp & Hleaf). pose proof (commitment_in_field 20 (public_key_of (scalar_of (le_bytes 32 5))) 88) as Hcm. change (commitment_of _ _ _) with sync_commitment in Hcm.
  assert (in_field 31) as H31 by (split; [discriminate | reflexivity]).
  pose proof (fund_storable sync_commitment leaf 31 sync_output sync_nullifier Hcm Hleaf H31) as Hs.
  pose proof (fund_wallet sync_commitment leaf 31 sync_output sync_nullifier Hcm Hleaf H31 sync_derive) as W.
  pose proof (fund_exact sync_commitment leaf 31 sync_output sync_nullifier Hcm Hleaf H31 sync_derive) as We.
  pose proof (fund_typed sync_commitment leaf 31 sync_output sync_nullifier Hcm Hleaf sync_output_bytes) as Hd.
  destruct (builder_ready (C := ref_crypto) (laws := ref_host_poseidon2_laws) _ _ _ _ _ _ 0 ref_entropy Hs W We Hd
    (fund_ready sync_commitment leaf 31 sync_output sync_nullifier Hcm Hleaf H31 Hasp)) as (p & n' & H).
  destruct (built_inputs_are_spendable ref_crypto ref_crypto_laws (fund_xdr sync_commitment leaf 31 sync_output) ref_host_poseidon2 ref_host_poseidon2_laws _
    (fund_request sync_commitment 31 (tree_root (poseidon2_compress (host := ref_host_poseidon2)) zero_leaf [sync_commitment] 3)) 0 n' p Hs W We Hd) as (keys & B);
    [discriminate | discriminate | exact H |].
  exists leaf, p, n', keys. split; [exact H | exact B].
Defined.

(** C12. A synchronised client can transact: if the database holds the pool's events and the
    chain reported the root and the number of the leaves they carry, the user's leaf is in the
    association set and indexed, and the user holds the inputs' notes, then the builder is
    ready, whatever was asked; and if the amounts then balance and the non-membership proof has
    its length, the prover's [transact] accepts the parameters and returns the circuit's inputs. *)
Theorem synced_client_can_transact (C : Crypto) (CL : CryptoLaws C) (X : XdrLib) (host : HostPoseidon2) (laws : HostPoseidon2Laws host)
    (hash : FlowExtData -> result ProverError bytes) (d : Db) (req : TransactRequest) (keys : StoredUserKeys) (leaves members : list Field) (depth n : nat) :
  entropy_available C -> (forall e, exists h, hash e = Ok h) ->
  storable d -> wallet_ok derive_user_note d -> wallet_exact derive_user_note d -> db_typed d ->
  request_typed req -> request_ready d req keys leaves members depth ->
  exists p n', build_transact_params d req n = Some (Ok (inl p), n') /\
    (length (nmp_siblings (rq_non_membership_proof req)) = Z.to_nat (rq_smt_depth req) -> balance_ok p ->
     exists art n'', flow_transact hash p n' = Some (Ok art, n'')).
Proof.
  intros He Hh Hs W We Hd Ht R. destruct (builder_ready d req keys leaves members depth n He Hs W We Hd R) as (p & n' & H). exists p, n'. split; [exact H |].
  assert (Z.of_nat (2 ^ depth) = 2 ^ Z.of_nat depth) as E by apply Nat2Z.inj_pow. intros Hsib Hbal. destruct R as [_ _ [R3 _] _ [R5 R5'] _ [R7 R7'] _ _ _ _].
  destruct (builder_sound d req n n' p Hs W We Hd) as (keys' & B); [rewrite R5', R3; unfold zlength; lia | | exact H |].
  - unfold get_all_asp_membership_leaves_ordered in R7. fold (membership_rows d (rq_aspmem_contract_id req)) in R7. rewrite <- (ordered_length _ _ _ _ R7), R3. unfold zlength. lia.
  - destruct (built_typed d req keys' p Hd Ht B) as [Hp Hpair]. pose proof (built_acceptable d req keys' p Ht B Hpair Hsib Hbal) as Ha.
    destruct (flow_transact_succeeds C CL hash p n' Hp (conj He Hh) Ha) as (art & n'' & Hf & _). eauto.
Qed.

Lemma synced_client_can_transact_witness :
  exists leaf p n', build_transact_params (C := ref_crypto) (fund_db sync_commitment leaf 31 sync_output sync_nullifier)
    (fund_request sync_commitment 31 (tree_root (poseidon2_compress (host := ref_host_poseidon2)) zero_leaf [sync_commitment] 3)) 0%nat = Some (Ok (inl p), n') /\
    (balance_ok p -> exists art n'', flow_transact (C := ref_crypto) ref_hash p n' = Some (Ok art, n'')).
Proof.
  destruct fund_leaf as (leaf & Hasp & Hleaf). pose proof (commitment_in_field 20 (public_key_of (scalar_of (le_bytes 32 5))) 88) as Hcm. change (commitment_of _ _ _) with sync_commitment in Hcm.
  assert (in_field 31) as H31 by (split; [discriminate | reflexivity]).
  destruct (synced_client_can_transact ref_crypto ref_crypto_laws (fund_xdr sync_commitment leaf 31 sync_output) ref_host_poseidon2 ref_host_poseidon2_laws ref_hash
    (fund_db sync_commitment leaf 31 sync_output sync_nullifier)
    (fund_request sync_commitment 31 (tree_root (poseidon2_compress (host := ref_host_poseidon2)) zero_leaf [sync_commitment] 3)) fund_keys [sync_commitment] [leaf] 3 0) as (p & n' & H & Hf).
  - exact ref_entropy.
  - intros e. exact (ex_intro _ _ eq_refl).
  - exact (fund_storable sync_commitment leaf 31 sync_output sync_nullifier Hcm Hleaf H31).
  - exact (fund_wallet sync_commitment leaf 31 sync_output sync_nullifier Hcm Hleaf H31 sync_derive).
  - exact (fund_exact sync_commitment leaf 31 sync_output sync_nullifier Hcm Hleaf H31 sync_derive).
  - exact (fund_typed sync_commitment leaf 31 sync_output sync_nullifier Hcm Hleaf sync_output_bytes).
  - apply fund_request_typed. apply (nd_field (laws := ref_host_poseidon2_laws)). constructor; [exact Hcm | constructor].
  - exact (fund_ready sync_commitment leaf 31 sync_output sync_nullifier Hcm Hleaf H31 Hasp).
  - exists leaf, p, n'. split; [exact H |]. intros Hb. exact (Hf eq_refl Hb).
Defined.
