(* ===== verification/PoolExec.v ===== *)
(** * The pool object

    [sdk/pool/src/pool.rs] with the traits it is made of ([storage/mod.rs], [prover/mod.rs],
    [signer/mod.rs]) and the local implementations ([storage/local.rs], [signer/local.rs],
    [prover/mod.rs]): plans executed one transaction at a time, the waits for the
    synchronisation and for the confirmation, disclosure and synchronisation. *)

From Stdlib Require Import Ascii.
From stdpp Require Import strings.
From S2P Require Import Prelude Ints Amounts Poseidon2Tables Hashes ProverMonad Encryption Notes Flows PrefixTree ScVals Events Storage Queries Scan Rpc Envelope StateFetch Indexer R1cs Prover Disclosure Combination Plan PoolClient.

(** A proved transaction; [soroban_tx] is filled by the simulation. *)
Record PreparedProverTx : Type := {
  pp_proof_uncompressed : bytes;
  pp_ext_data : FlowExtData;
  pp_prepared : PreparedTxPublic;
  pp_soroban_tx : PreparedSorobanTx;
}.

Definition default_soroban_tx : PreparedSorobanTx := {| ps_tx_xdr := EmptyString; ps_auth_entries := []; ps_latest_ledger := 0 |}.

Definition output_pair (p : PreparedProverTx) : Field * Field :=
  (default 0 (tp_output_commitments (pp_prepared p) !! 0%nat), default 0 (tp_output_commitments (pp_prepared p) !! 1%nat)).

Record DisclosureProveParams : Type := { dpp_inputs : DisclosureInputs; dpp_context : DisclosureContext }.

(** What a pool object is given: a storage, a prover and a signer, over a local state [L]. *)
Class PoolParts (L : Type) : Type := {
  storage_user_public_keys : string -> IO L PoolClientError (NotePublicKey * EncryptionPublicKey);
  storage_spendable_notes : string -> string -> IO L PoolClientError (list SpendableNote);
  storage_notes : string -> string -> IO L PoolClientError (list UserNoteSummary);
  storage_build_transact_params : TransactRequest -> IO L PoolClientError TransactParams;
  storage_build_disclosure_inputs : DisclosureInputsRequest -> IO L PoolClientError DisclosureInputs;
  part_prove_transact : TransactParams -> IO L PoolClientError PreparedProverTx;
  part_prove_disclosure : DisclosureProveParams -> IO L PoolClientError DisclosureReceipt;
  part_verify_disclosure_proof : DisclosureReceipt -> list ascii -> IO L PoolClientError bool;
  part_sign : PreparedProverTx -> IO L PoolClientError string;
}.

Record PrivatePoolConfig : Type := {
  pp_contract_config : ContractConfig;
  pp_chain : PoolChainConfig;
}.

Record DisclosureRequest : Type := {
  dq_selected_commitment : Field;
  dq_authority_label : list ascii;
  dq_authority_identity_payload_hex : list ascii;
  dq_purpose : list ascii;
  dq_context_nonce : Field;
}.

Definition SYNC_MAX_RETRIES : nat := 30.
Definition DISCLOSE_MAX_RETRIES : nat := 30.
Definition CONFIRM_POLL_ATTEMPTS : nat := 30.

Section Pool.

Context {Net L : Type} `{RpcNode Net} `{XdrLib} `{LedgerXdr} `{EnvelopeXdr} `{PoolParts L} `{SortByAmount} `{Crypto} `{HexVec}.

(** [sleep]: whatever else runs meanwhile may change the world. *)
Variable sleep : Net * L -> Net * L.
Variable config : PrivatePoolConfig.

Local Abbreviation PX := (IO (Net * L) PoolClientError).
Local Abbreviation chain := (pp_chain config).

Definition on_net {E A} (f : E -> PoolClientError) (m : IO Net E A) : PX A := fun w => let '(r, net) := m w.1 in (map_err f r, (net, w.2)).
Definition on_local {A} (m : IO L PoolClientError A) : PX A := fun w => let '(r, l) := m w.2 in (r, (w.1, l)).
Definition pause : PX unit := fun w => (Ok tt, sleep w).

(** ** Reads *)

Definition spendable_notes : PX (list SpendableNote) := on_local (storage_spendable_notes (pcc_pool_contract_id chain) (pcc_user_address chain)).

Definition pool_balance : PX NoteAmount :=
  wallet ← spendable_notes;
  io_result (ok_or (wallet_balance wallet) (ClientOther "wallet balance overflow")).

Definition pool_notes : PX (list UserNoteSummary) := on_local (storage_notes (pcc_pool_contract_id chain) (pcc_user_address chain)).

Definition pool_estimate (amount : NoteAmount) : PX Z := wallet ← spendable_notes; io_result (estimate wallet amount).

(** ** One transaction *)

Definition fetch_transact_chain_context : PX TransactChainContext :=
  keys ← on_local (storage_user_public_keys (pcc_user_address chain));
  on_net (ClientFetch "fetch chain context") (transact_chain_context (pp_contract_config config) (pcc_pool_contract_id chain) keys.1 (pcc_user_address chain)).

Definition pool_deposit_transact_step (amount : NoteAmount) : PX Transact :=
  keys ← on_local (storage_user_public_keys (pcc_user_address chain));
  io_result (deposit_transact_step chain keys.1 keys.2 amount).

Definition next_step (plan : PreparedTransactionPlan) : PX Transact :=
  match deposit_amount plan with
  | Some amount => pool_deposit_transact_step amount
  | None => match raw_transact_step plan with Some step => mret step | None => io_result (transact_step_for_plan plan) end
  end.

Definition finish_prepared (plan : PreparedTransactionPlan) (prepared : PreparedProverTx) : result PoolClientError PreparedTransactionPlan :=
  match finish_proved_tx plan (output_pair prepared) with Some r => r | None => Err ClientPanic end.

(** [next_prepared_transaction], with the plan it leaves behind. *)
Definition prove_next (plan : PreparedTransactionPlan) : PX (PreparedProverTx * PreparedTransactionPlan) :=
  if plan_is_complete plan then io_throw (ClientOther "transaction plan is complete")
  else
    context ← fetch_transact_chain_context;
    step ← next_step plan;
    let req := transact_request_from_step step (pcc_user_address chain) (pcc_pool_contract_id chain) context in
    params ← on_local (storage_build_transact_params req);
    prepared ← on_local (part_prove_transact params);
    plan ← io_result (finish_prepared plan prepared);
    mret (prepared, plan).

Definition pool_simulate (prepared : PreparedProverTx) : PX PreparedProverTx :=
  soroban_tx ← on_net (ClientFetch "simulate transaction") (prepare_pool_transact (pp_contract_config config) (pcc_pool_contract_id chain)
    (pool_transact_input (pp_proof_uncompressed prepared) (pp_ext_data prepared) (pp_prepared prepared)) (pcc_user_address chain));
  mret {| pp_proof_uncompressed := pp_proof_uncompressed prepared; pp_ext_data := pp_ext_data prepared; pp_prepared := pp_prepared prepared;
          pp_soroban_tx := soroban_tx |}.

Definition submit (signed_xdr : string) : PX string :=
  envelope ← io_result (ok_or (envelope_from_xdr signed_xdr) (ClientOther "invalid signed transaction xdr"));
  tx ← io_result (ok_or (envelope_to_xdr envelope) (ClientOther "submit transaction"));
  on_net (ClientSubmit "submit transaction") (submit_tx tx).

(** The polls from one attempt on, [tries] of them. *)
Fixpoint confirm_from (hash : string) (first : bool) (tries : nat) : PX string :=
  match tries with
  | O => io_throw (ClientOther "transaction confirmation failed")
  | S tries =>
      (if first then mret tt else pause);;
      status ← on_net (ClientSubmit "confirm transaction") (confirm_tx hash);
      match status with
      | TxSuccess => mret hash
      | TxFailed detail => io_throw (ClientOther ("transaction failed" +:+ detail))
      | TxPending => match tries with O => io_throw (ClientOther "transaction confirmation timed out") | S _ => confirm_from hash false tries end
      end
  end.

Definition confirm (hash : string) : PX string := confirm_from hash true CONFIRM_POLL_ATTEMPTS.

(** ** Execution *)

(** The wait for the synchronisation: [tries] more waits are allowed. *)
Fixpoint prove_waiting (tries : nat) (plan : PreparedTransactionPlan) : PX (PreparedProverTx * PreparedTransactionPlan) := fun w =>
  match prove_next plan w with
  | (Err (MembershipSync (SyncRequired gap)), w') =>
      match tries with
      | O => (Err (MembershipSync (SyncRequired gap)), w')
      | S tries => prove_waiting tries plan (sleep w')
      end
  | r => r
  end.

Definition execute_one (plan : PreparedTransactionPlan) : PX (string * PreparedTransactionPlan) :=
  proved ← prove_waiting SYNC_MAX_RETRIES plan;
  let '(prepared, plan) := proved in
  prepared ← pool_simulate prepared;
  signed ← on_local (part_sign prepared);
  hash ← submit signed;
  result ← confirm hash;
  mret (result, plan).

(** [while !plan.is_complete()]; [None] without fuel. *)
Fixpoint execute (fuel : nat) (plan : PreparedTransactionPlan) (results : list string) (w : Net * L)
    : option (result PoolClientError (list string) * (Net * L)) :=
  if plan_is_complete plan then Some (Ok results, w)
  else
    match fuel with
    | O => None
    | S fuel =>
        match execute_one plan w with
        | (Err e, w') => Some (Err e, w')
        | (Ok (result, plan), w') => execute fuel plan (results ++ [result]) w'
        end
    end.

(** As many rounds as the plan has transactions to go. *)
Definition plan_fuel (plan : PreparedTransactionPlan) : nat := Z.to_nat (plan_tx_count plan - plan_current_tx plan).

Definition run_plan (plan : result PoolClientError PreparedTransactionPlan) (w : Net * L) : option (result PoolClientError (list string) * (Net * L)) :=
  match plan with
  | Err e => Some (Err e, w)
  | Ok plan => execute (plan_fuel plan) plan [] w
  end.

Definition last_result (what : string) (r : option (result PoolClientError (list string) * (Net * L))) : option (result PoolClientError string * (Net * L)) :=
  '(r, w) ← r; Some (results ← r; ok_or (last results) (ClientOther what), w).

Definition deposit (amount : NoteAmount) (w : Net * L) := last_result "deposit produced no transaction" (run_plan (prepare_deposit amount) w).

Definition pool_transfer (recipient : TransferRecipient) (amount : NoteAmount) (w : Net * L) : option (result PoolClientError (list string) * (Net * L)) :=
  match spendable_notes w with
  | (Err e, w') => Some (Err e, w')
  | (Ok wallet, w') => run_plan (prepare_transfer chain wallet recipient amount) w'
  end.

Definition withdraw (amount : NoteAmount) (recipient : string) (w : Net * L) : option (result PoolClientError (list string) * (Net * L)) :=
  match spendable_notes w with
  | (Err e, w') => Some (Err e, w')
  | (Ok wallet, w') => run_plan (prepare_withdraw chain wallet amount recipient) w'
  end.

Definition pool_transact (step : Transact) (w : Net * L) := last_result "transact produced no transaction" (run_plan (Ok (plan_from_transact step)) w).

(** ** Disclosure *)

(** The anchors of a disclosure: root, number of leaves, depth and the pool's address. *)
Definition disclosure_anchor : PX (Field * Z * Z * string) :=
  data ← on_net (ClientFetch "fetch chain context") (contracts_data_for_pool (pp_contract_config config) (pcc_pool_contract_id chain));
  pool ← io_result (ok_or (head (cs_pools data)) (ClientOther "pool not found in contract state"));
  pool_root ← io_result (ok_or (pi_merkle_root pool) (ClientOther "pool merkle_root not fetched"));
  pool_next_index ← io_result (ok_or (parse_u 32 (pi_merkle_next_index pool)) (ClientOther "invalid pool merkle_next_index"));
  mret (pool_root, pool_next_index, pi_merkle_levels pool, pi_contract_id pool).

Definition disclose_once (req : DisclosureRequest) : PX (DisclosureInputs * string) :=
  anchor ← disclosure_anchor;
  let '(pool_root, pool_next_index, levels, pool) := anchor in
  inputs ← on_local (storage_build_disclosure_inputs {| dr_user_address := pcc_user_address chain; dr_pool_address := pcc_pool_contract_id chain;
    dr_selected_commitment := dq_selected_commitment req; dr_pool_root := Some pool_root; dr_pool_next_index := pool_next_index; dr_tree_depth := levels |});
  mret (inputs, pool).

Definition context_of (req : DisclosureRequest) (pool : string) : DisclosureContext :=
  {| dc_network := str (cfg_network (pp_contract_config config)); dc_pool_address := str pool; dc_authority_label := dq_authority_label req;
     dc_authority_identity_payload_hex := dq_authority_identity_payload_hex req; dc_purpose := dq_purpose req; dc_context_nonce := dq_context_nonce req |}.

Fixpoint disclose_waiting (tries : nat) (req : DisclosureRequest) : PX (option DisclosureReceipt) := fun w =>
  match disclose_once req w with
  | (Ok (inputs, pool), w') =>
      (receipt ← on_local (part_prove_disclosure {| dpp_inputs := inputs; dpp_context := context_of req pool |}); mret (Some receipt)) w'
  | (Err (MembershipSync RegisterAtASP), w') => (Ok None, w')
  | (Err (MembershipSync (SyncRequired gap)), w') =>
      match tries with
      | O => (Err (MembershipSync (SyncRequired gap)), w')
      | S tries => disclose_waiting tries req (sleep w')
      end
  | (Err e, w') => (Err e, w')
  end.

Definition disclose (req : DisclosureRequest) : PX (option DisclosureReceipt) := disclose_waiting DISCLOSE_MAX_RETRIES req.

(** [for root in roots { ... break }]. *)
Fixpoint all_roots_known (pool : string) (roots : list Field) : PX bool :=
  match roots with
  | [] => mret true
  | root :: rest =>
      is_known ← on_net (ClientFetch "root freshness check failed") (is_pool_known_root (pp_contract_config config) pool root);
      if is_known : bool then all_roots_known pool rest else mret false
  end.

Definition verify_disclosure_receipt (receipt : DisclosureReceipt) (expected_vk_hash : list ascii) : PX DisclosureVerificationReport :=
  proof_verified ← on_local (part_verify_disclosure_proof receipt expected_vk_hash);
  context_verified ← io_result (map_err (fun _ => ClientOther "context verification failed") (verify_receipt_context receipt));
  known_root_status ← all_roots_known (String.string_of_list_ascii (dc_pool_address (dr_context receipt))) (dp_roots (dr_public_inputs receipt));
  mret {| proof_verified := proof_verified; context_verified := context_verified; known_root_status := known_root_status |}.

End Pool.
