(* ===== verification/PoolExecFacts.v ===== *)
(** * Plans executed

    What [execute] of [pool.rs] does with a spend plan: the rounds it takes, the transactions
    it performs and how often it waits. *)

From Stdlib Require Import Ascii.
From stdpp Require Import strings.
From S2P Require Import Prelude Ints Amounts Hashes ProverMonad Encryption Notes Flows ScVals Storage Queries Rpc Envelope StateFetch Indexer R1cs Prover Disclosure Combination CombinationFacts CombinationMin Plan PlanFacts SessionFacts PoolClient PoolExec.

(** The plan of a session under way. *)
Definition spend_plan (s : SpendSession) : PreparedTransactionPlan :=
  {| plan_tx_count := zlength (steps s); plan_current_tx := Z.of_nat (step_index s); plan_kind := SpendPlanKind s |}.

Lemma plan_of_session s : zlength (steps s) < 2 ^ 32 -> step_index s = 0%nat -> plan_from_session s = Ok (spend_plan s).
Proof.
  intros H H0. unfold plan_from_session, spend_plan, try_into_u, fits_u. rewrite H0. unfold zlength in *.
  rewrite (proj2 (Z.leb_le _ _)), (proj2 (Z.ltb_lt _ _)) by lia. done.
Qed.

Lemma spend_plan_complete s : plan_is_complete (spend_plan s) = is_done s.
Proof. unfold plan_is_complete, is_done, spend_plan, zlength. cbn [plan_tx_count plan_current_tx]. apply eq_true_iff_eq. rewrite Z.leb_le, Nat.leb_le. lia. Qed.

Lemma completed_step s out s' : complete_step s out = Ok s' ->
  is_done s = false /\ steps s' = steps s /\ step_index s' = S (step_index s).
Proof.
  unfold complete_step. destruct (is_done s); [done |]. intros H. ok_inv. done.
Qed.

Lemma finish_spend s p : zlength (steps s) < 2 ^ 32 ->
  finish_prepared (spend_plan s) p = match complete_step s (output_pair p) with Err e => Err (SessionFailed e) | Ok s' => Ok (spend_plan s') end.
Proof.
  intros H. unfold finish_prepared, finish_proved_tx, complete_pending_spend. cbn [spend_plan plan_kind].
  destruct (complete_step s (output_pair p)) as [s'|e] eqn:E; [| done]. apply completed_step in E as (Hd & Hs & Hi).
  unfold is_done in Hd. apply Nat.leb_gt in Hd. unfold plan_advance, checked_add. cbn [spend_plan plan_current_tx plan_tx_count plan_kind]. unfold zlength in *.
  rewrite (proj2 (Z.ltb_lt (Z.of_nat (step_index s) + 1) (2 ^ 32))) by lia. cbn. unfold spend_plan, zlength. rewrite Hs, Hi. do 2 f_equal. lia.
Qed.

Section Execution.

Context {Net L : Type} `{RpcNode Net} `{XdrLib} `{LedgerXdr} `{EnvelopeXdr} `{PoolParts L}.
Variable sleep : Net * L -> Net * L.
Variable config : PrivatePoolConfig.

Local Abbreviation PX := (IO (Net * L) PoolClientError).
Local Abbreviation chain := (pp_chain config).

(** A transaction proved against the chain's state of the moment. *)
Definition attempt (t : Transact) : PX (TransactChainContext * PreparedProverTx) :=
  context ← fetch_transact_chain_context config;
  params ← on_local (storage_build_transact_params (transact_request_from_step t (pcc_user_address chain) (pcc_pool_contract_id chain) context));
  prepared ← on_local (part_prove_transact params);
  mret (context, prepared).

(** A proved transaction brought to the chain. *)
Definition settle (prepared : PreparedProverTx) : PX string :=
  prepared ← pool_simulate config prepared;
  signed ← on_local (part_sign prepared);
  hash ← submit signed;
  confirm sleep hash.

(** [n] attempts in vain, each followed by a pause. *)
Inductive waits (plan : PreparedTransactionPlan) : nat -> Net * L -> Net * L -> Prop :=
| waits_none w : waits plan 0 w w
| waits_more n w gap w1 w' : prove_next config plan w = (Err (MembershipSync (SyncRequired gap)), w1) -> waits plan n (sleep w1) w' -> waits plan (S n) w w'.

(** The transactions of a session, one after the other: each is proved after at most thirty
    waits, settled, and its outputs complete the session's step. *)
Inductive performed : SpendSession -> Net * L -> list (TransactChainContext * PreparedProverTx) -> list string -> SpendSession -> Net * L -> Prop :=
| performed_none s w : performed s w [] [] s w
| performed_next s w n w0 t context prepared w1 hash w2 s1 txs hashes s' w' :
    waits (spend_plan s) n w w0 -> (n <= SYNC_MAX_RETRIES)%nat -> step s = Ok (Some t) -> attempt t w0 = (Ok (context, prepared), w1) ->
    complete_step s (output_pair prepared) = Ok s1 -> settle prepared w1 = (Ok hash, w2) -> performed s1 w2 txs hashes s' w' ->
    performed s w ((context, prepared) :: txs) (hash :: hashes) s' w'.

Lemma on_local_Ok {A} (m : IO L PoolClientError A) w a w' : on_local (Net:=Net) m w = (Ok a, w') -> exists l, m w.2 = (Ok a, l) /\ w' = (w.1, l).
Proof. unfold on_local. destruct (m w.2) as [r l]. intros [= -> <-]. eauto. Qed.

(** The step a spend plan is at. *)
Lemma next_step_spend s (w : Net * L) t w' : next_step config (spend_plan s) w = (Ok t, w') <-> step s = Ok (Some t) /\ w' = w.
Proof.
  change (next_step config (spend_plan s)) with (io_result (W := Net * L) (o ← map_err SessionFailed (step s); ok_or o (ClientOther "plan tx missing"))).
  rewrite io_result_Ok. destruct (step s) as [[t'|]|]; cbn; intuition congruence.
Qed.

Lemma prove_next_spend s w p plan w' : zlength (steps s) < 2 ^ 32 ->
  prove_next config (spend_plan s) w = (Ok (p, plan), w') <->
  exists t context s', step s = Ok (Some t) /\ attempt t w = (Ok (context, p), w') /\ complete_step s (output_pair p) = Ok s' /\ plan = spend_plan s'.
Proof.
  intros Hlen. unfold prove_next, attempt. rewrite spend_plan_complete. split.
  - destruct (is_done s) eqn:Ed; [done |]. intros Hr. io_inv. simplify_eq. rewrite finish_spend in * by done.
    destruct (complete_step s (output_pair _)) as [s'|] eqn:Ec; [| done]. simplify_eq.
    match goal with Hn : next_step _ _ _ = _ |- _ => apply next_step_spend in Hn as [Hn ->] end.
    eexists _, _, _. split; [done |]. split; [by io_go | done].
  - intros (t & context & s' & Hs & Ha & Hc & ->). destruct (completed_step _ _ _ Hc) as [-> _]. io_inv. simplify_eq.
    io_go. rewrite (io_bind_run _ _ _ _ _ (proj2 (next_step_spend _ _ _ _) (conj Hs eq_refl))). io_go.
    by rewrite finish_spend, Hc.
Qed.

(** ** Waiting *)

Lemma prove_waiting_Ok tries plan w r w' :
  prove_waiting sleep config tries plan w = (Ok r, w') <-> exists n w0, (n <= tries)%nat /\ waits plan n w w0 /\ prove_next config plan w0 = (Ok r, w').
Proof.
  revert w. induction tries as [|tries IH]; intros w; cbn [prove_waiting]; (destruct (prove_next config plan w) as [[a|e] w1] eqn:E).
  - split; [intros [= <- <-]; exists 0%nat, w; split; [lia | split; [constructor | done]] |].
    intros (n & w0 & Hn & Hw & Hp). assert (n = 0%nat) as -> by lia. inversion Hw; subst. by rewrite <- Hp, <- E.
  - split; [by destruct e as [| | |[]| | | | | | |] |]. intros (n & w0 & Hn & Hw & Hp). assert (n = 0%nat) as -> by lia. inversion Hw; subst. congruence.
  - split; [intros [= <- <-]; exists 0%nat, w; split; [lia | split; [constructor | done]] |].
    intros (n & w0 & Hn & Hw & Hp). inversion Hw; subst; congruence.
  - assert (forall gap, e = MembershipSync (SyncRequired gap) ->
      prove_waiting sleep config tries plan (sleep w1) = (Ok r, w') <-> exists n w0, (n <= S tries)%nat /\ waits plan n w w0 /\ prove_next config plan w0 = (Ok r, w')) as Hgap.
    { intros gap ->. rewrite IH. split.
      - intros (n & w0 & Hn & Hw & Hp). exists (S n), w0. split; [lia |]. split; [by eapply waits_more | done].
      - intros (n & w0 & Hn & Hw & Hp). inversion Hw as [|n' ? gap' w2 ? Hf Hw']; subst; [congruence |]. rewrite E in Hf. injection Hf as _ <-. exists n', w0. split; [lia | done]. }
    assert ((forall gap, e <> MembershipSync (SyncRequired gap)) ->
      (Err e, w1) = (Ok r, w') <-> exists n w0, (n <= S tries)%nat /\ waits plan n w w0 /\ prove_next config plan w0 = (Ok r, w')) as Hother.
    { intros Hne. split; [done |]. intros (n & w0 & _ & Hw & Hp). inversion Hw as [|n' ? gap' w2 ? Hf Hw']; subst; [congruence |]. rewrite E in Hf. injection Hf as -> _. by destruct (Hne gap'). }
    destruct e; try (apply Hother; intros ? [=]; fail). destruct status; try (apply Hother; intros ? [=]; fail). by eapply Hgap.
Qed.

(** ** One transaction *)

Lemma execute_one_Ok s w hash plan w' : zlength (steps s) < 2 ^ 32 ->
  execute_one sleep config (spend_plan s) w = (Ok (hash, plan), w') <->
  exists n w0 t context prepared w1 s1, waits (spend_plan s) n w w0 /\ (n <= SYNC_MAX_RETRIES)%nat /\ step s = Ok (Some t) /\
    attempt t w0 = (Ok (context, prepared), w1) /\ complete_step s (output_pair prepared) = Ok s1 /\ settle prepared w1 = (Ok hash, w') /\ plan = spend_plan s1.
Proof.
  intros Hlen. unfold execute_one, settle. split.
  - intros Hr. apply io_bind_Ok in Hr as ([prepared p] & w1 & Hp & Hr). apply prove_waiting_Ok in Hp as (n & w0 & Hn & Hw & Hp).
    apply prove_next_spend in Hp as (t & context & s1 & Hs & Ha & Hc & ->); [| done]. io_inv. simplify_eq.
    exists n, w0, t, context, prepared, w1, s1. split_and!; try done. by io_go.
  - intros (n & w0 & t & context & prepared & w1 & s1 & Hw & Hn & Hs & Ha & Hc & Hset & ->).
    rewrite (io_bind_run _ _ _ (prepared, spend_plan s1) w1); [io_inv; by io_go |].
    apply prove_waiting_Ok. exists n, w0. split; [done |]. split; [done |]. apply prove_next_spend; [done |]. by exists t, context, s1.
Qed.

(** ** The whole plan *)

(** How an execution ends: with every transaction performed, or with an error after some of them. *)
Definition outcome (s : SpendSession) (w : Net * L) (acc : list string) (r : result PoolClientError (list string)) (w' : Net * L) : Prop :=
  match r with
  | Ok results => exists txs hashes s', performed s w txs hashes s' w' /\ is_done s' = true /\ results = acc ++ hashes
  | Err e => exists txs hashes s1 w1, performed s w txs hashes s1 w1 /\ is_done s1 = false /\ execute_one sleep config (spend_plan s1) w1 = (Err e, w')
  end.

Lemma execute_outcome fuel : forall s w acc, zlength (steps s) < 2 ^ 32 -> fuel = (length (steps s) - step_index s)%nat ->
  exists r w', execute sleep config fuel (spend_plan s) acc w = Some (r, w') /\ outcome s w acc r w'.
Proof.
  induction fuel as [|fuel IH]; intros s w acc Hlen Hf; cbn [execute]; rewrite spend_plan_complete; destruct (is_done s) eqn:Ed.
  - eexists _, _. split; [reflexivity |]. exists [], [], s. split; [constructor |]. by rewrite app_nil_r.
  - unfold is_done in Ed. apply Nat.leb_gt in Ed. lia.
  - unfold is_done in Ed. apply Nat.leb_le in Ed. lia.
  - destruct (execute_one sleep config (spend_plan s) w) as [[[hash plan]|e] w1] eqn:E.
    + apply execute_one_Ok in E as (n & w0 & t & context & prepared & w2 & s1 & Hw & Hn & Hs & Ha & Hc & Hset & ->); [| done].
      destruct (completed_step _ _ _ Hc) as (_ & Hst & Hi).
      destruct (IH s1 w1 (acc ++ [hash])) as (r & w' & Hr & Hout); [by rewrite Hst | rewrite Hst, Hi; lia |].
      exists r, w'. split; [exact Hr |]. destruct r as [results|e]; cbn [outcome] in *.
      * destruct Hout as (txs & hashes & s' & Hp & Hd & ->). exists ((context, prepared) :: txs), (hash :: hashes), s'.
        split; [by econstructor |]. split; [done |]. by rewrite <- app_assoc.
      * destruct Hout as (txs & hashes & s' & w3 & Hp & Hd & He). exists ((context, prepared) :: txs), (hash :: hashes), s', w3.
        split; [by econstructor |]. by split.
    + eexists _, _. split; [reflexivity |]. exists [], [], s, w. split; [constructor | by split].
Qed.

(** The outputs of the transactions complete the session. *)
Lemma performed_session s w txs hashes s' w' : performed s w txs hashes s' w' ->
  length hashes = length txs /\ steps s' = steps s /\ step_index s' = (step_index s + length txs)%nat /\
  exists run, run_session s (output_pair ∘ snd <$> txs) = Ok (run, s') /\ length run = length txs.
Proof.
  induction 1 as [s w|s w n w0 t context prepared w1 hash w2 s1 txs hashes s' w' Hw Hn Hs Ha Hc Hset Hp (IH1 & IH2 & IH3 & run & IH4 & IH5)].
  - cbn. split_and!; [done | done | lia |]. by exists [].
  - destruct (completed_step _ _ _ Hc) as (_ & Hst & Hi). split_and!; [cbn; lia | congruence | rewrite IH3, Hi; cbn; lia |].
    exists ((wallet s, t) :: run). split; [| cbn; lia]. rewrite fmap_cons. cbn [run_session].
    rewrite Hs. cbn [mbind result_bind ok_or compose snd]. rewrite Hc. cbn [mbind result_bind]. by rewrite IH4.
Qed.

Lemma performed_bound s w txs hashes s' w' : performed s w txs hashes s' w' -> txs = [] \/ (step_index s + length txs <= length (steps s))%nat.
Proof.
  induction 1 as [|s w n w0 t context prepared w1 hash w2 s1 txs hashes s' w' Hw Hn Hs Ha Hc Hset Hp IH]; [by left |]. right.
  destruct (completed_step _ _ _ Hc) as (Hd & Hst & Hi). unfold is_done in Hd. apply Nat.leb_gt in Hd.
  destruct IH as [-> | IH]; cbn; rewrite ?Hst, ?Hi in *; lia.
Qed.

(** ** What a storage promises

    A storage that checks its leaves of the pool against the chain's before it builds the
    inputs of a transaction; no part that execution calls changes them. *)
Class LeafStore : Type := {
  stored_leaves : L -> string -> option (list Field);
  stored_root : L -> string -> Z -> option Field;
}.

Definition same_store {LS : LeafStore} (l l' : L) : Prop := stored_leaves l' = stored_leaves l /\ stored_root l' = stored_root l.

Class ValidatingStorage (LS : LeafStore) : Prop := {
  build_validates req l p l' : storage_build_transact_params req l = (Ok p, l') -> rq_input_commitments req <> [] ->
    (exists leaves, stored_leaves l (rq_pool_address req) = Some leaves /\ zlength leaves = rq_pool_next_index req) /\
    stored_root l (rq_pool_address req) (rq_tree_depth req) = rq_pool_root req;
  keys_keep user l : same_store l (storage_user_public_keys user l).2;
  build_keeps req l : same_store l (storage_build_transact_params req l).2;
  prove_keeps params l : same_store l (part_prove_transact params l).2;
  sign_keeps prepared l : same_store l (part_sign prepared l).2;
}.

Section Validating.

Context {LS : LeafStore} {VS : ValidatingStorage LS}.
(** Nothing synchronises while the client sleeps. *)
Hypothesis sleep_keeps : forall w, same_store w.2 (sleep w).2.

Definition keeps {A} (m : PX A) : Prop := forall w, same_store w.2 (m w).2.2.

Lemma same_store_trans (l1 l2 l3 : L) : same_store l1 l2 -> same_store l2 l3 -> same_store l1 l3.
Proof. unfold same_store. intros [-> ->] [-> ->]. by split. Qed.

Lemma px_keeps_bind {A B} (m : PX A) (k : A -> PX B) : keeps m -> (forall a, keeps (k a)) -> keeps (m ≫= k).
Proof.
  intros Hm Hk w. specialize (Hm w). unfold mbind, io_bind. destruct (m w) as [[a|e] w1]; cbn [snd] in *; [| done].
  eapply same_store_trans; [exact Hm | apply Hk].
Qed.

Lemma keeps_result {A} (r : result PoolClientError A) : keeps (io_result r).
Proof. by intros w. Qed.

Lemma keeps_on_net {E A} (f : E -> PoolClientError) (m : IO Net E A) : keeps (on_net f m).
Proof. intros w. unfold on_net. by destruct (m w.1). Qed.

Lemma keeps_on_local {A} (m : IO L PoolClientError A) : (forall l, same_store l (m l).2) -> keeps (on_local m).
Proof. intros Hm w. unfold on_local. specialize (Hm w.2). by destruct (m w.2). Qed.

Lemma keeps_confirm hash first tries : keeps (confirm_from sleep hash first tries).
Proof using sleep_keeps VS.
  revert first. induction tries as [|tries IH]; intros first; cbn [confirm_from]; [apply (keeps_result (Err _)) |].
  apply px_keeps_bind; [destruct first; [apply (keeps_result (Ok tt)) | intros w; apply sleep_keeps] |]. intros _.
  apply px_keeps_bind; [apply keeps_on_net |]. intros [|detail|]; [apply (keeps_result (Ok _)) | apply (keeps_result (Err _)) |].
  destruct tries; [apply (keeps_result (Err _)) | apply IH].
Qed.

Lemma keeps_fetch : keeps (fetch_transact_chain_context config).
Proof. apply px_keeps_bind; [apply keeps_on_local, keys_keep |]. intros keys. apply keeps_on_net. Qed.

Lemma keeps_attempt t : keeps (attempt t).
Proof.
  apply px_keeps_bind; [apply keeps_fetch |]. intros context. apply px_keeps_bind; [apply keeps_on_local, build_keeps |].
  intros params. apply px_keeps_bind; [apply keeps_on_local, prove_keeps |]. intros prepared. apply (keeps_result (Ok _)).
Qed.

Lemma keeps_settle prepared : keeps (settle prepared).
Proof using sleep_keeps VS.
  apply px_keeps_bind; [apply px_keeps_bind; [apply keeps_on_net |]; intros tx; apply (keeps_result (Ok _)) |]. intros p.
  apply px_keeps_bind; [apply keeps_on_local, sign_keeps |]. intros signed.
  apply px_keeps_bind; [| intros hash; apply keeps_confirm].
  apply px_keeps_bind; [apply keeps_result |]. intros envelope. apply px_keeps_bind; [apply keeps_result |]. intros tx. apply keeps_on_net.
Qed.

Lemma keeps_prove_next s : keeps (prove_next config (spend_plan s)).
Proof.
  unfold prove_next. destruct (plan_is_complete _); [apply (keeps_result (Err _)) |].
  apply px_keeps_bind; [apply keeps_fetch |]. intros context. apply px_keeps_bind; [apply keeps_result |]. intros t.
  apply px_keeps_bind; [apply keeps_on_local, build_keeps |]. intros params. apply px_keeps_bind; [apply keeps_on_local, prove_keeps |].
  intros p. apply px_keeps_bind; [apply keeps_result |]. intros plan. apply (keeps_result (Ok _)).
Qed.

Lemma keeps_waits s n w w' : waits (spend_plan s) n w w' -> same_store w.2 w'.2.
Proof using sleep_keeps VS.
  induction 1 as [|n w gap w1 w' Hp _ IH]; [by split |]. pose proof (keeps_prove_next s w) as Hk. rewrite Hp in Hk.
  eapply same_store_trans; [exact Hk |]. eapply same_store_trans; [apply sleep_keeps | exact IH].
Qed.

(** A step of a session spends a note. *)
Lemma step_spends s t : step s = Ok (Some t) -> input_commitments t <> [].
Proof.
  unfold step. destruct (is_done s); [done |]. intros Hs. apply bind_Ok in Hs as (st & _ & Hs). apply bind_Ok in Hs as (spent & Hr & Hs).
  apply bind_Ok in Hs as (t' & Ht & [= <-]). assert (spent <> []) as Hne.
  { destruct (resolve st (wallet s)) as [l|] eqn:E; [| done]. injection Hr as ->. unfold resolve in E. apply bind_Ok in E as (first & _ & E).
    destruct (inputs st).2; [apply bind_Ok in E as (second & _ & E) |]; by injection E as <-. }
  assert (input_commitments t' = commitments spent) as ->; [| by destruct spent].
  unfold materialize_step in Ht. repeat (case_match; try discriminate); ok_inv; simplify_eq; done.
Qed.

(** What was built agrees with the store it was built from. *)
Lemma attempt_validates t w context p w' : attempt t w = (Ok (context, p), w') -> input_commitments t <> [] ->
  exists leaves, stored_leaves w.2 (pcc_pool_contract_id chain) = Some leaves /\ ctx_pool_next_index context = zlength leaves /\
    stored_root w.2 (pcc_pool_contract_id chain) (ctx_pool_merkle_levels context) = Some (ctx_pool_root context).
Proof.
  unfold attempt. intros Ha Hne. apply io_bind_Ok in Ha as (c & w1 & Hf & Ha). pose proof (keeps_fetch w) as Hk. rewrite Hf in Hk. destruct Hk as [Hk1 Hk2].
  io_inv. simplify_eq. match goal with Hb : on_local (storage_build_transact_params _) _ = _ |- _ => apply on_local_Ok in Hb as (l & Hbuild & ->) end.
  destruct (build_validates _ _ _ _ Hbuild Hne) as [(leaves & Hl & Hz) Hr]. cbn [snd] in Hk1, Hk2. rewrite Hk1 in Hl. rewrite Hk2 in Hr. eauto.
Qed.

Lemma performed_validates s w txs hashes s' w' : performed s w txs hashes s' w' ->
  same_store w.2 w'.2 /\ Forall (fun tx => exists leaves, stored_leaves w.2 (pcc_pool_contract_id chain) = Some leaves /\ ctx_pool_next_index tx.1 = zlength leaves /\
    stored_root w.2 (pcc_pool_contract_id chain) (ctx_pool_merkle_levels tx.1) = Some (ctx_pool_root tx.1)) txs.
Proof using sleep_keeps VS.
  induction 1 as [|s w n w0 t context prepared w1 hash w2 s1 txs hashes s' w' Hw Hn Hs Ha Hc Hset Hp [IH1 IH2]]; [by repeat split |].
  pose proof (keeps_waits _ _ _ _ Hw) as K0. pose proof (keeps_attempt t w0) as K1. rewrite Ha in K1. pose proof (keeps_settle prepared w1) as K2. rewrite Hset in K2.
  cbn [snd] in K1, K2. assert (same_store w.2 w2.2) as K by eauto using same_store_trans. split; [eauto using same_store_trans |].
  destruct K as [E1 E2]. rewrite E1, E2 in IH2. constructor; [| exact IH2].
  destruct (attempt_validates t w0 context prepared w1 Ha (step_spends _ _ Hs)) as (leaves & Hl & Hz & Hr). destruct K0 as [E3 E4].
  rewrite E3 in Hl. rewrite E4 in Hr. by exists leaves.
Qed.

End Validating.


End Execution.
