(* ===== verification/PoolExecTheorems.v ===== *)
(** * What executing a plan does

    The claims about the pool object's [execute], and runs of it on a small deployment. *)

From Stdlib Require Import Ascii.
From stdpp Require Import strings.
From S2P Require Import Prelude Ints Amounts Hashes ProverMonad Encryption Notes Flows ScVals ScValFacts Storage Queries Rpc Envelope StateFetch Indexer R1cs Prover Disclosure Combination CombinationFacts CombinationMin Plan PlanFacts SessionFacts PoolClient PoolExec PoolExecFacts.

(** ** A deployment to run the client on

    A node with one pool and its two association sets, and the parts of a pool object, both
    small enough to be evaluated: the examples of the client's theorems run on them.  The
    state of the network is the number of transactions the pool has accepted, two at most;
    the state of the parts is the number of leaves of the pool they hold and of proofs made. *)

Definition town_xdr : XdrLib := {|
  from_xdr_base64 _ := None;
  scval_to_xdr _ := Some [];
  symbol_to_utf8 s := Some s;
  parse_address s := if bool_decide (s = "alice") then Some (AddrAccount [9]) else Some (AddrContract [1]);
  account_strkey _ := "alice";
  contract_strkey _ := "contract";
|}.

Definition town_strkey (s : string) : option bytes :=
  if bool_decide (s = "pool") then Some [1] else if bool_decide (s = "asp") then Some [2] else if bool_decide (s = "blocked") then Some [3] else None.

(** A key of the ledger as text: the contract and the name of the variant. *)
Definition town_key (key : LedgerKey) : option string :=
  prefix ← match lk_contract key with AddrContract [1] => Some "pool/" | AddrContract [2] => Some "asp/" | AddrContract [3] => Some "blocked/" | _ => None end;
  match lk_key key with ScVec (Some (ScSymbol name :: _)) => Some (String.append prefix name) | _ => Some (String.append prefix "instance") end.

Definition town_entries : list (string * LedgerEntryData) :=
  [("pool/Admin", ContractData (ScAddr (AddrAccount [9]))); ("pool/Token", ContractData (ScAddr (AddrContract [4]))); ("pool/Verifier", ContractData (ScAddr (AddrContract [5])));
   ("pool/ASPMembership", ContractData (ScAddr (AddrContract [2]))); ("pool/ASPNonMembership", ContractData (ScAddr (AddrContract [3])));
   ("pool/Levels", ContractData (ScU32 10)); ("pool/CurrentRootIndex", ContractData (ScU32 0)); ("pool/MaximumDepositAmount", ContractData (u256_val 1000));
   ("pool/Root", ContractData (u256_val 77)); ("0", ContractData (ScU64 0)); ("2", ContractData (ScU64 2)); ("4", ContractData (ScU64 4));
   ("asp/Root", ContractData (u256_val 88)); ("asp/Levels", ContractData (ScU32 10)); ("asp/NextIndex", ContractData (ScU64 1)); ("asp/Admin", ContractData (ScAddr (AddrAccount [9])));
   ("asp/AdminInsertOnly", ContractData (ScBool true)); ("blocked/Root", ContractData (u256_val 0)); ("blocked/Admin", ContractData (ScAddr (AddrAccount [9])));
   ("account", AccountData 41)].

Definition town_ledger_xdr : LedgerXdr := {|
  contract_from_strkey := town_strkey;
  account_from_strkey s := if bool_decide (s = "alice") then Some [9] else None;
  ledger_key_xdr := town_key;
  account_key_xdr _ := Some "account";
  entry_from_xdr s := snd <$> find (fun e => bool_decide (e.1 = s)) town_entries;
|}.

Definition town_tx : Transaction := {| tx_source_account := [9]; tx_fee := 100; tx_seq_num := 42; tx_cond_memo := []; tx_operations := []; tx_ext := ExtV0 |}.

Definition town_envelope_xdr : EnvelopeXdr := {|
  envelope_to_xdr _ := Some "envelope";
  envelope_from_xdr _ := Some (EnvelopeTx town_tx []);
  auth_entry_from_xdr _ := None;
  soroban_data_from_xdr _ := Some {| sd_resources := []; sd_resource_fee := 0 |};
  preimage_to_xdr _ := None;
  transaction_hash _ _ := None;
|}.

(** The pool has two leaves more with every transaction. *)
Definition town_next_index (n : nat) : string := match n with 0%nat => "0" | 1%nat => "2" | _ => "4" end.

Definition town_entry (n : nat) (key : string) : option LedgerEntryResult :=
  if bool_decide (key = "pool/NextIndex") then Some {| le_key := key; le_xdr := town_next_index n |}
  else if existsb (fun e => bool_decide (e.1 = key)) town_entries then Some {| le_key := key; le_xdr := key |} else None.

Definition town_node : RpcNode nat := {|
  rpc_get_events _ n := (Err Reqwest, n);
  rpc_get_latest_ledger n := (Ok 100, n);
  rpc_get_ledger_entries keys n := (Ok {| ge_entries := Some (omap (town_entry n) keys); ge_latest_ledger := 100 |}, n);
  rpc_simulate_transaction _ n := (Ok {| sim_latest_ledger := 100; sim_result := Some {| sh_auth := []; sh_retval := None; sh_xdr := None |}; sim_results := [];
                                          sim_transaction_data := Some "data"; sim_min_resource_fee := None; sim_error := None |}, n);
  rpc_send_transaction _ n :=
    if (n <? 2)%nat then (Ok {| sr_hash := town_next_index n; sr_status := "PENDING"; sr_error_result_xdr := None |}, S n) else (Err Reqwest, n);
  rpc_get_transaction _ n := (Ok {| gt_status := "SUCCESS"; gt_result_xdr := None |}, n);
|}.

Definition town_params : TransactParams := {|
  priv_key := []; encryption_pubkey := []; pool_root := 77; Flows.ext_recipient := "pool"; tx_ext_amount := 0; tx_inputs := []; tx_outputs := [];
  membership_proof := {| mp_leaf := 0; mp_blinding := 0; mp_path_elements := []; mp_path_indices := 0; mp_root := 0 |};
  non_membership_proof := {| nmp_key := 0; nmp_old_key := 0; nmp_old_value := 0; nmp_is_old0 := true; nmp_siblings := []; nmp_root := 0 |};
  tx_tree_depth := 10; tx_smt_depth := 10 |}.

Definition town_prepared (n : nat) : PreparedProverTx := {|
  pp_proof_uncompressed := replicate 256 0;
  pp_ext_data := {| fe_recipient := "pool"; fe_ext_amount := 0; fe_encrypted_output0 := [1]; fe_encrypted_output1 := [2] |};
  pp_prepared := {| tp_pool_root := 77; tp_input_nullifiers := [5; 6]; tp_output_commitments := [Z.of_nat (100 + 2 * n); Z.of_nat (101 + 2 * n)]; tp_public_amount := 0;
                    tp_ext_data_hash_be := replicate 32 0; tp_asp_membership_root := 88; tp_asp_non_membership_root := 0 |};
  pp_soroban_tx := default_soroban_tx |}.

(** Parts that prove anything, once they hold all the leaves. *)
Definition town_parts : PoolParts (nat * nat) := {|
  storage_user_public_keys _ l := (Ok (replicate 32 0, replicate 32 0), l);
  storage_spendable_notes _ _ l := (Ok [], l);
  storage_notes _ _ l := (Ok [], l);
  storage_build_transact_params req l :=
    (if bool_decide (Z.of_nat l.1 = rq_pool_next_index req /\ rq_pool_root req = Some 77) then Ok town_params else Err (MembershipSync (SyncRequired None)), l);
  storage_build_disclosure_inputs _ l := (Err ClientPanic, l);
  part_prove_transact _ l := (Ok (town_prepared l.2), (l.1, S l.2));
  part_prove_disclosure _ l := (Err ClientPanic, l);
  part_verify_disclosure_proof _ _ l := (Err ClientPanic, l);
  part_sign _ l := (Ok "signed", l);
|}.

(** A pause during which the leaves of the pool are fetched. *)
Definition town_sync (w : nat * (nat * nat)) : nat * (nat * nat) := (w.1, (2 * w.1, w.2.2)%nat).

Definition town_contracts : ContractConfig := {|
  cfg_network := "town"; cfg_deployer := "alice"; cfg_admin := "alice"; cfg_asp_membership := "asp"; cfg_asp_non_membership := "blocked";
  cfg_verifier := "verifier"; cfg_public_key_registry := "registry";
  cfg_pools := [{| pool_contract_id := "pool"; token_contract_id := "token"; deployment_ledger := 1; pool_enabled := true; pool_asset := Native |}] |}.

Definition town_config : PrivatePoolConfig := {| pp_contract_config := town_contracts; pp_chain := {| pcc_pool_contract_id := "pool"; pcc_user_address := "alice" |} |}.

(** ** Executing plans *)

(** C13. Executing a spend: a transfer or withdrawal that some ten notes can cover is prepared
    to a plan of one to nine transactions, and its execution always ends, whatever the node
    and the parts answer, after at most thirty waits per transaction.  Either every
    transaction of the spend session has been performed, in order, each proved against the
    state of the chain read for it, settled, and completed with its own output commitments,
    and the results are their hashes; or an error is reported after some of them, the first
    that failed.  When the output commitments are fresh, the transactions that were performed
    conserve value and the last one pays the target. *)
Theorem spend_plan_executes {Net L : Type} (node : RpcNode Net) (X : XdrLib) (K : LedgerXdr) (V : EnvelopeXdr) (parts : PoolParts L)
    (srt : SortByAmount) (laws : SortByAmountLaws srt) (sleep : Net * L -> Net * L) (config : PrivatePoolConfig)
    (notes : list SpendableNote) (amount : NoteAmount) (t : SpendTarget) :
  Forall is_note (amounts notes) -> is_note amount -> amount <> 0 -> total (amounts notes) < 2 ^ 128 -> NoDup (commitments notes) ->
  notes <> [] -> coverable notes amount -> validate_target t = Ok tt -> target_fits t amount ->
  exists plan s, prepare_spend (pp_chain config) notes amount t = Ok plan /\ (1 <= length (steps s) <= 9)%nat /\
    forall w, exists r w', run_plan sleep config (Ok plan) w = Some (r, w') /\
      match r with
      | Ok hashes => length hashes = length (steps s) /\
          exists txs s', performed sleep config s w txs hashes s' w' /\
            let outs := output_pair ∘ snd <$> txs in
            exists run, run_session s outs = Ok (run, s') /\
              (NoDup (outs.*1 ++ commitments notes) ->
               Forall (fun e => conserves e.1 e.2) run /\ exists e change, last run = Some e /\ pays t amount change e.2)
      | Err e => exists txs hashes s1 w1, performed sleep config s w txs hashes s1 w1 /\ (length hashes < length (steps s))%nat /\
          execute_one sleep config (spend_plan s1) w1 = (Err e, w')
      end.
Proof.
  intros Hn Ha H0 Htot Hnd Hne Hcov Ht Hf.
  destruct (session_runs srt laws notes amount (pcc_pool_contract_id (pp_chain config)) t Hn Ha Htot Hnd Hne Hcov Ht Hf)
    as (s & ids & change & Hs & Hlen & Htg & Hi & _ & _ & _ & Hrun).
  assert (zlength (steps s) < 2 ^ 32) as Hz by (unfold zlength; lia).
  exists (spend_plan s), s. split; [| split; [exact Hlen |]].
  { unfold prepare_spend, NoteAmount_is_zero. rewrite (proj2 (Z.eqb_neq _ _)) by done. rewrite Hs. cbn [map_err mbind result_bind].
    by rewrite plan_of_session. }
  intros w. cbn [run_plan]. assert (plan_fuel (spend_plan s) = (length (steps s) - step_index s)%nat) as Hfuel
    by (unfold plan_fuel, spend_plan, zlength; cbn [plan_tx_count plan_current_tx]; lia).
  destruct (execute_outcome sleep config (plan_fuel (spend_plan s)) s w [] Hz Hfuel) as (r & w' & Hr & Hout).
  exists r, w'. split; [exact Hr |]. destruct r as [hashes|e]; cbn [outcome] in Hout.
  - destruct Hout as (txs & new & s' & Hp & Hd & ->). cbn [app].
    destruct (performed_session _ _ _ _ _ _ _ _ Hp) as (Hl & Hst & Hix & run & Hsess & Hlr).
    assert (length txs = length (steps s)) as Hlt.
    { unfold is_done in Hd. apply Nat.leb_le in Hd. rewrite Hst, Hix, Hi in Hd. destruct (performed_bound _ _ _ _ _ _ _ _ Hp) as [-> | Hb]; cbn in *; lia. }
    split; [lia |]. exists txs, s'. split; [exact Hp |]. exists run. split; [exact Hsess |]. intros Hfresh.
    destruct (Hrun (output_pair ∘ snd <$> txs)) as (run' & s'' & Hr' & _ & _ & _ & Hcons & e & Hlast & Hpays); [by rewrite length_fmap | done |].
    rewrite Hsess in Hr'. injection Hr' as <- <-. split; [exact Hcons |]. exists e, change. by rewrite <- Htg.
  - destruct Hout as (txs & new & s1 & w1 & Hp & Hd & He). exists txs, new, s1, w1. split; [exact Hp |]. split; [| exact He].
    destruct (performed_session _ _ _ _ _ _ _ _ Hp) as (Hl & Hst & Hix & _). unfold is_done in Hd. apply Nat.leb_gt in Hd. rewrite Hst, Hix in Hd. lia.
Qed.

(** A withdrawal of nine from notes of two, three, five and one, in two transactions; the
    client catches up with the first while it waits to prove the second. *)
Lemma spend_plan_executes_witness :
  exists plan s, prepare_spend (pp_chain town_config) session_notes 9 (Withdraw "alice") = Ok plan /\ (length (steps s) <= 9)%nat /\
    exists w' txs s', run_plan (H := town_node) (H0 := town_xdr) (H1 := town_ledger_xdr) (H2 := town_envelope_xdr) (H3 := town_parts)
      town_sync town_config (Ok plan) (0, (0, 0))%nat = Some (Ok ["0"; "2"], w') /\
      performed (H := town_node) (H0 := town_xdr) (H1 := town_ledger_xdr) (H2 := town_envelope_xdr) (H3 := town_parts)
        town_sync town_config s (0, (0, 0))%nat txs ["0"; "2"] s' w'.
Proof.
  destruct (spend_plan_executes town_node town_xdr town_ledger_xdr town_envelope_xdr town_parts ref_sort ref_sort_laws town_sync town_config session_notes 9 (Withdraw "alice")
    ltac:(repeat constructor; cbn; lia) ltac:(split; lia) ltac:(discriminate) ltac:(vm_compute; reflexivity)
    ltac:(apply (bool_decide_eq_true_1 _); vm_compute; reflexivity) ltac:(discriminate)
    ltac:(exists [0; 1; 2]%nat; split; [split; [apply (bool_decide_eq_true_1 _); vm_compute; reflexivity | repeat constructor; cbn; lia]
           | split; [unfold TRANSACTION_LIMIT; cbn; lia | vm_compute; congruence]])
    eq_refl ltac:(vm_compute; reflexivity)) as (plan & s & Hp & Hl & Hrun).
  exists plan, s. split; [exact Hp |]. split; [exact (proj2 Hl) |].
  assert (exists p, prepare_spend (pp_chain town_config) session_notes 9 (Withdraw "alice") = Ok p /\ exists w',
    run_plan (H := town_node) (H0 := town_xdr) (H1 := town_ledger_xdr) (H2 := town_envelope_xdr) (H3 := town_parts) town_sync town_config (Ok p) (0, (0, 0))%nat = Some (Ok ["0"; "2"], w'))
    as (p & Hp' & w1 & Hw1) by (eexists; split; [vm_compute; reflexivity | eexists; vm_compute; reflexivity]).
  rewrite Hp in Hp'. injection Hp' as <-. destruct (Hrun (0, (0, 0))%nat) as (r & w' & Hr & Hout). rewrite Hw1 in Hr. injection Hr as <- <-.
  destruct Hout as (_ & txs & s' & Hperf & _). exists w1, txs, s'. split; [exact Hw1 | exact Hperf].
Defined.

(** ** The chain grows *)

(** A chain whose pool has [next] leaves: what the client reads of it lies between the reads,
    and a confirmed transaction has added its two leaves. *)
Class PoolGrows {Net L : Type} (node : RpcNode Net) (X : XdrLib) (K : LedgerXdr) (V : EnvelopeXdr) (parts : PoolParts L)
    (sleep : Net * L -> Net * L) (config : PrivatePoolConfig) (next : Net -> Z) : Prop := {
  read_grows w : next w.1 <= next (fetch_transact_chain_context config w).2.1;
  read_between w c w' : fetch_transact_chain_context config w = (Ok c, w') -> next w.1 <= ctx_pool_next_index c <= next w'.1;
  sleep_grows w : next w.1 <= next (sleep w).1;
  settled_grows p w hash w' : settle sleep config p w = (Ok hash, w') -> next w.1 + 2 <= next w'.1;
}.

Section Growing.

Context {Net L : Type} {node : RpcNode Net} {X : XdrLib} {K : LedgerXdr} {V : EnvelopeXdr} {parts : PoolParts L}.
Context {sleep : Net * L -> Net * L} {config : PrivatePoolConfig} {next : Net -> Z} {G : PoolGrows node X K V parts sleep config next}.

Lemma local_same_net {A} (m : IO L PoolClientError A) (w : Net * L) : (on_local m w).2.1 = w.1.
Proof. unfold on_local. by destruct (m w.2). Qed.

Lemma prove_next_grows s w : next w.1 <= next (prove_next config (spend_plan s) w).2.1.
Proof using G.
  unfold prove_next. destruct (plan_is_complete _); [cbn; lia |]. pose proof (read_grows w) as Hg. unfold mbind at 1, io_bind.
  destruct (fetch_transact_chain_context config w) as [[c|e] w1]; cbn [snd] in Hg; [| exact Hg]. unfold mbind at 1, io_bind.
  change (next_step config (spend_plan s)) with (io_result (W := Net * L) (o ← map_err SessionFailed (step s); ok_or o (ClientOther "plan tx missing"))).
  unfold io_result at 1. destruct (mbind _ _) as [t|e]; [| exact Hg]. unfold mbind at 1, io_bind.
  pose proof (local_same_net (storage_build_transact_params (transact_request_from_step t (pcc_user_address (pp_chain config)) (pcc_pool_contract_id (pp_chain config)) c)) w1) as E1.
  destruct (on_local _ w1) as [[p|e] w2]; cbn [snd] in E1 |- *; [| by rewrite E1]. unfold mbind at 1, io_bind. pose proof (local_same_net (part_prove_transact p) w2) as E2.
  destruct (on_local _ w2) as [[q|e] w3]; cbn [snd] in E2 |- *; [| by rewrite E2, E1]. unfold mbind, io_bind, io_result.
  destruct (finish_prepared _ _); cbn; by rewrite E2, E1.
Qed.

Lemma waits_grow s n w w' : waits sleep config (spend_plan s) n w w' -> next w.1 <= next w'.1.
Proof using G.
  induction 1 as [|n w gap w1 w' Hp _ IH]; [lia |]. pose proof (prove_next_grows s w) as H1. rewrite Hp in H1. pose proof (sleep_grows w1). cbn [snd] in H1. lia.
Qed.

Lemma attempt_grows t w c p w' : attempt config t w = (Ok (c, p), w') -> next w.1 <= ctx_pool_next_index c <= next w'.1.
Proof using G.
  unfold attempt. intros Ha. io_inv. simplify_eq. match goal with Hf : fetch_transact_chain_context _ _ = _ |- _ => apply read_between in Hf as [F1 F2] end.
  repeat match goal with Hb : on_local _ _ = _ |- _ => apply on_local_Ok in Hb as (? & _ & ->) end. cbn [fst] in *. lia.
Qed.

(** Later transactions are proved against a pool with more leaves. *)
Lemma performed_grows s w txs hashes s' w' : performed sleep config s w txs hashes s' w' ->
  Forall (fun tx => next w.1 <= ctx_pool_next_index tx.1) txs /\
  forall i j a b, txs !! i = Some a -> txs !! j = Some b -> (i < j)%nat -> ctx_pool_next_index a.1 + 2 <= ctx_pool_next_index b.1.
Proof using G.
  induction 1 as [|s w n w0 t context prepared w1 hash w2 s1 txs hashes s' w' Hw Hn Hs Ha Hc Hset Hp [IH1 IH2]]; [split; [done |]; by intros [] |].
  apply waits_grow in Hw. apply attempt_grows in Ha as [A1 A2]. apply settled_grows in Hset. split.
  - constructor; [cbn; lia |]. eapply Forall_impl; [exact IH1 |]. cbn. intros tx Ht. lia.
  - intros [|i] [|j] a b Hi Hj Hlt; cbn in Hi, Hj; [lia | | lia | apply (IH2 i j); [done | done | lia]].
    injection Hi as <-. cbn [fst]. rewrite Forall_lookup in IH1. specialize (IH1 _ _ Hj). cbn in IH1. lia.
Qed.

End Growing.

(** C14. Executing without synchronising: [execute] waits for the client to catch up but does
    not make it.  With a storage that checks its leaves against the chain, when nothing else
    synchronises it during the waits and every confirmed transaction adds its leaves to the
    pool, a plan of two transactions or more never succeeds: the execution ends with an error
    after one transaction at most. *)
Theorem multi_step_needs_sync {Net L : Type} (node : RpcNode Net) (X : XdrLib) (K : LedgerXdr) (V : EnvelopeXdr) (parts : PoolParts L)
    (LS : LeafStore) (VS : ValidatingStorage LS) (sleep : Net * L -> Net * L) (config : PrivatePoolConfig)
    (next : Net -> Z) (G : PoolGrows node X K V parts sleep config next) (s : SpendSession) :
  (forall w, same_store w.2 (sleep w).2) -> zlength (steps s) < 2 ^ 32 -> step_index s = 0%nat -> (2 <= length (steps s))%nat ->
  forall w, exists e w', run_plan sleep config (Ok (spend_plan s)) w = Some (Err e, w') /\
    exists txs hashes s1 w1, performed sleep config s w txs hashes s1 w1 /\ (length hashes <= 1)%nat /\ execute_one sleep config (spend_plan s1) w1 = (Err e, w').
Proof.
  intros Hsleep Hz H0 H2 w. cbn [run_plan].
  assert (forall txs hashes s1 w1, performed sleep config s w txs hashes s1 w1 -> (length hashes <= 1)%nat) as Hone.
  { intros txs hashes s1 w1 Hp. destruct (performed_session _ _ _ _ _ _ _ _ Hp) as (Hl & _). rewrite Hl. destruct txs as [|a [|b txs]]; [cbn; lia | cbn; lia |].
    destruct (performed_grows _ _ _ _ _ _ Hp) as [_ Hg]. specialize (Hg 0%nat 1%nat a b eq_refl eq_refl ltac:(lia)).
    destruct (performed_validates _ _ Hsleep _ _ _ _ _ _ Hp) as [_ Hv]. rewrite !Forall_cons in Hv. destruct Hv as ((l1 & E1 & N1 & _) & (l2 & E2 & N2 & _) & _).
    rewrite E1 in E2. injection E2 as ->. lia. }
  destruct (execute_outcome sleep config (plan_fuel (spend_plan s)) s w [] Hz) as ([hashes|e] & w' & Hr & Hout).
  { unfold plan_fuel, spend_plan, zlength. cbn [plan_tx_count plan_current_tx]. lia. }
  - destruct Hout as (txs & new & s' & Hp & Hd & ->). destruct (performed_session _ _ _ _ _ _ _ _ Hp) as (Hl & Hst & Hix & _). specialize (Hone _ _ _ _ Hp).
    unfold is_done in Hd. apply Nat.leb_le in Hd. rewrite Hst, Hix in Hd. lia.
  - exists e, w'. split; [exact Hr |]. destruct Hout as (txs & new & s1 & w1 & Hp & _ & He). exists txs, new, s1, w1. eauto.
Qed.

(** The deployment above, with parts that hold their leaves and never fetch more. *)
#[local] Instance town_leaves : LeafStore (L := nat * nat) := {| stored_leaves l _ := Some (replicate l.1 0); stored_root _ _ _ := Some 77 |}.

#[local] Instance town_validates : ValidatingStorage (H3 := town_parts) town_leaves.
Proof.
  split; [| by split ..]. intros req l p l' Hb _. cbn in Hb. destruct (bool_decide _) eqn:E; [| done]. apply bool_decide_eq_true in E as [E1 E2].
  split; [exists (replicate l.1 0); split; [done |]; unfold zlength; by rewrite length_replicate | done].
Qed.

(** Only a submission changes the network. *)
Definition still {E A} (m : IO nat E A) : Prop := forall n, (m n).2 = n.

Lemma still_bind {E A B} (m : IO nat E A) (k : A -> IO nat E B) : still m -> (forall a, still (k a)) -> still (m ≫= k).
Proof. intros Hm Hk n. specialize (Hm n). unfold mbind, io_bind. destruct (m n) as [[a|e] n1]; cbn in *; [rewrite <- Hm; apply Hk | done]. Qed.

Lemma still_map_err {E F A} (f : E -> F) (m : IO nat E A) : still m -> still (io_map_err f m).
Proof. intros Hm n. specialize (Hm n). unfold io_map_err. by destruct (m n). Qed.

Lemma town_prepare_still pool input source :
  still (prepare_pool_transact (H := town_node) (H0 := town_xdr) (H1 := town_ledger_xdr) (H2 := town_envelope_xdr) town_contracts pool input source).
Proof.
  unfold prepare_pool_transact, account_sequence, simulate, get_account.
  repeat (first [apply still_bind; [| intros ?] | apply still_map_err]); try (by intros n).
  case_match; [by intros n |]. apply still_bind; [by intros n |]. intros []; by intros n.
Qed.

Definition town_next (n : nat) : Z := match n with 0%nat => 0 | 1%nat => 2 | _ => 4 end.

#[local] Instance town_grows : PoolGrows town_node town_xdr town_ledger_xdr town_envelope_xdr town_parts id town_config town_next.
Proof.
  split.
  - intros [[|[|n]] l]; vm_compute; discriminate.
  - intros [[|[|n]] l] c w' Hf; vm_compute in Hf; injection Hf as <- <-; vm_compute; split; discriminate.
  - intros w. reflexivity.
  - intros p [n l] hash w' Hs. unfold settle in Hs. apply io_bind_Ok in Hs as (q & w1 & Hq & Hs). apply io_bind_Ok in Hs as (signed & w2 & Hsig & Hs).
    apply io_bind_Ok in Hs as (h & w3 & Hsub & Hc). assert (w1.1 = n) as E1.
    { unfold pool_simulate in Hq. apply io_bind_Ok in Hq as (tx & w0 & Hn & [= <- <-]). unfold on_net in Hn.
      match type of Hn with context [prepare_pool_transact ?c ?a ?i ?u] => pose proof (town_prepare_still a i u n) as Hk end. cbn [fst pp_contract_config town_config] in Hn.
      destruct (prepare_pool_transact _ _ _ _ n) as [r n']. by injection Hn as _ <-. }
    injection Hsig as <- <-. destruct w1 as [n1 l1]. cbn [fst] in *. subst n1. vm_compute in Hsub. destruct n as [|[|n]]; [| | discriminate Hsub];
      injection Hsub as <- <-; vm_compute in Hc; injection Hc as <- <-; vm_compute; discriminate.
Qed.

(** The withdrawal of the example above, without synchronisation: the first transaction is
    confirmed, the second is given up after thirty waits. *)
Lemma multi_step_needs_sync_witness :
  exists s, setup session_notes 9 "pool" (Withdraw "alice") = Ok s /\ exists e w',
    run_plan (H := town_node) (H0 := town_xdr) (H1 := town_ledger_xdr) (H2 := town_envelope_xdr) (H3 := town_parts) id town_config (Ok (spend_plan s)) (0, (0, 0))%nat = Some (Err e, w') /\
    e = MembershipSync (SyncRequired None) /\ w'.1 = 1%nat.
Proof.
  assert (exists s, setup session_notes 9 "pool" (Withdraw "alice") = Ok s /\ length (steps s) = 2%nat /\ step_index s = 0%nat /\ exists w',
    run_plan (H := town_node) (H0 := town_xdr) (H1 := town_ledger_xdr) (H2 := town_envelope_xdr) (H3 := town_parts) id town_config (Ok (spend_plan s)) (0, (0, 0))%nat =
      Some (Err (MembershipSync (SyncRequired None)), w') /\ w'.1 = 1%nat) as (s & Hs & Hl & Hi & w1 & Hr1 & Hw1)
    by (eexists; split; [vm_compute; reflexivity | split; [reflexivity | split; [reflexivity | eexists; split; vm_compute; reflexivity]]]).
  exists s. split; [exact Hs |].
  destruct (multi_step_needs_sync town_node town_xdr town_ledger_xdr town_envelope_xdr town_parts town_leaves town_validates id town_config town_next town_grows s
    ltac:(intros w; split; reflexivity) ltac:(unfold zlength; rewrite Hl; reflexivity) Hi ltac:(rewrite Hl; lia) (0, (0, 0))%nat) as (e & w' & Hr & _).
  exists e, w'. split; [exact Hr |]. rewrite Hr1 in Hr. injection Hr as <- <-. split; [reflexivity | exact Hw1].
Defined.
