(* ===== verification/PoolLocal.v ===== *)
(** * The native pool client

    The local implementations of the pool object's parts: [LocalStorage]
    ([sdk/pool/src/storage/local.rs] and [storage/mod.rs]), [ProverEngine] and [LocalProver]
    ([prover/mod.rs], [prover/local.rs]) and [LocalSigner] ([signer/local.rs]), with [sync]
    of [pool.rs].  The local state is the database and the number of random draws made. *)

From Stdlib Require Import Ascii.
From stdpp Require Import strings.
From S2P Require Import Prelude Ints Amounts Poseidon2Tables Hashes ProverMonad Encryption Notes Flows PrefixTree ScVals ScValFacts Events Storage Queries Scan StorageFacts SyncFacts WalletFacts ReconcileFacts SyncTheorems Rpc Envelope StateFetch Indexer R1cs Prover Disclosure Combination Plan PoolClient PoolClientFacts PoolExec PoolExecFacts.

(** The local state: the database and the random draws made. *)
Definition LocalState : Type := Db * nat.

Section Storage.

Context `{Crypto}.

Definition map_user_keys (d : Db) (user_address : string) : result PoolClientError StoredUserKeys :=
  ok_or (get_user_keys d user_address) (ClientOther "address should generate privacy keys and ASP secret first").

(** [map_build_params] and [map_build_disclosure_inputs]. *)
Definition map_build {A} (r : option (result BuildError (or_sync A) * nat)) : result PoolClientError A :=
  match r with
  | None => Err ClientPanic
  | Some (Err e, _) => Err (ClientBuild e)
  | Some (Ok (inl a), _) => Ok a
  | Some (Ok (inr status), _) => Err (MembershipSync status)
  end.

(** The draws after a build. *)
Definition drawn {A} (n : nat) (r : option (A * nat)) : nat := match r with Some (_, n') => n' | None => n end.

Definition local_build {A} (m : Db -> BM (or_sync A)) : IO LocalState PoolClientError A := fun l =>
  let r := m l.1 l.2 in (map_build r, (l.1, drawn l.2 r)).

Definition local_read {A} (f : Db -> result PoolClientError A) : IO LocalState PoolClientError A := fun l => (f l.1, l).

End Storage.

(** ** Proving *)

Section Engine.

Context `{Crypto} {X : XdrLib} {AG : ArkGroth16}.
Variables (usize_bits : Z) (keccak256_lib : bytes -> bytes).
(** The witness calculator on the JSON text of the inputs. *)
Variable compute_witness : CircuitInputs -> option bytes.
Variable engine : Prover.

Inductive EngineError : Type :=
| EngineFlow (e : ProverError)
| EngineProof (e : ProofError)
| WitnessFailed
| VerificationFailed
| ProofSize (n : nat).

Definition offchain_hash (e : FlowExtData) : result ProverError bytes := map_err (fun _ => ExtDataHashFailed) (hash_ext_data_offchain keccak256_lib e).

(** [ProverEngine::prove]; [rng] is the state of the generator. *)
Definition engine_prove (artifacts : TransactArtifacts) (rng : nat) : result EngineError PreparedProverTx :=
  witness_bytes ← ok_or (compute_witness (circuit_inputs artifacts)) WitnessFailed;
  proof_compressed ← map_err EngineProof (prove_bytes engine witness_bytes rng);
  public_inputs ← map_err EngineProof (extract_public_inputs usize_bits engine witness_bytes);
  verified ← map_err EngineProof (Prover_verify engine proof_compressed public_inputs);
  if negb verified then Err VerificationFailed
  else
    proof_uncompressed ← map_err EngineProof (convert_proof_to_soroban proof_compressed);
    if negb (bool_decide (length proof_uncompressed = 256%nat)) then Err (ProofSize (length proof_uncompressed))
    else Ok {| pp_proof_uncompressed := proof_uncompressed; pp_ext_data := art_ext_data artifacts;
               pp_prepared := PreparedTxPublic_of (prepared artifacts); pp_soroban_tx := default_soroban_tx |}.

(** [ProverEngine::prove_transact]; [None] is a panic. *)
Definition engine_prove_transact (params : TransactParams) (n : nat) : option (result EngineError PreparedProverTx * nat) :=
  '(artifacts, n') ← flow_transact offchain_hash params n;
  Some (match artifacts with Err e => Err (EngineFlow e) | Ok artifacts => engine_prove artifacts n' end, S n').

Definition local_prove (params : TransactParams) : IO LocalState PoolClientError PreparedProverTx := fun l =>
  match engine_prove_transact params l.2 with
  | None => (Err ClientPanic, l)
  | Some (r, n') => (map_err (fun _ => ClientOther "prove") r, (l.1, n'))
  end.

End Engine.

(** ** Signing *)

Record PoolLocalSigner : Type := { pls_stellar : LocalSigner; pls_network_passphrase : string; pls_user_address : string }.

Section Signer.

Context `{Crypto} `{XdrLib} `{LedgerXdr} `{EnvelopeXdr} `{Ed25519}.

Definition local_signer_new (secret_key network_passphrase user_address : string) : result PoolClientError PoolLocalSigner :=
  stellar ← map_err (ClientFetch "signer") (from_secret secret_key);
  Ok {| pls_stellar := stellar; pls_network_passphrase := network_passphrase; pls_user_address := user_address |}.

Definition local_sign (s : PoolLocalSigner) (prepared : PreparedProverTx) : result PoolClientError string :=
  envelope ← map_err (ClientFetch "sign transaction") (sign_prepared_transaction (pls_stellar s) (pp_soroban_tx prepared) (pls_network_passphrase s) (pls_user_address s));
  ok_or (envelope_to_xdr envelope) (ClientOther "encode signed transaction xdr").

End Signer.

Section LocalParts.

Context `{Crypto} `{XdrLib} `{LedgerXdr} `{EnvelopeXdr} `{Ed25519} {AG : ArkGroth16}.
Variables (usize_bits : Z) (keccak256_lib : bytes -> bytes) (compute_witness : CircuitInputs -> option bytes) (engine : Prover) (signer : PoolLocalSigner).

(** [LocalProver] proves no disclosures. *)
#[local] Instance local_parts : PoolParts LocalState := {|
  storage_user_public_keys user := local_read (fun d =>
    keys ← map_user_keys d user; Ok (note_public (su_note_keypair keys), enc_public (su_encryption_keypair keys)));
  storage_spendable_notes pool user := local_read (fun d => map_err ClientStorage (spendable_notes_from_storage d pool user));
  storage_notes pool user := local_read (fun d => map_err ClientStorage (list_pool_user_notes d pool user));
  storage_build_transact_params req := local_build (fun d => build_transact_params d req);
  storage_build_disclosure_inputs req := local_build (fun d => build_disclosure_inputs d req);
  part_prove_transact := local_prove usize_bits keccak256_lib compute_witness engine;
  part_prove_disclosure _ := io_throw (ClientOther "disclosure proving is not configured for this prover");
  part_verify_disclosure_proof _ _ := io_throw (ClientOther "disclosure verification is not configured for this prover");
  part_sign prepared := io_result (local_sign signer prepared);
|}.

(** ** Synchronisation

    [sync]: the indexer works on a second handle to the same database.  [None] when a loop
    does not end within the fuel. *)
Definition sync {Net} `{RpcNode Net} (config : ContractConfig) (fuel : nat) (w : Net * LocalState) : option (result PoolClientError unit * (Net * LocalState)) :=
  let '(net, (d, n)) := w in
  match Indexer_init config (net, d) with
  | (Err e, (net, d)) => Some (Err (ClientIndexer e), (net, (d, n)))
  | (Ok ix, (net, d)) =>
      '(r, (net, d)) ← catch_up fuel ix (net, d);
      match r with
      | Err e => Some (Err (ClientIndexer e), (net, (d, n)))
      | Ok _ => '(r, d) ← process_local_state derive_user_note fuel d; Some (map_err ClientStorage r, (net, (d, n)))
      end
  end.

End LocalParts.

(** ** The native storage checks its leaves *)

Section Validates.

Context `{Crypto} `{XdrLib} `{LedgerXdr} `{EnvelopeXdr} `{Ed25519} {AG : ArkGroth16}.
Variables (usize_bits : Z) (keccak256_lib : bytes -> bytes) (compute_witness : CircuitInputs -> option bytes) (engine : Prover) (signer : PoolLocalSigner).

Local Abbreviation parts := (local_parts usize_bits keccak256_lib compute_witness engine signer).

(** The leaves of a pool in the database, and the root of the tree built from them. *)
Definition db_leaves (d : Db) (pool : string) : option (list Field) := match get_pool_commitment_leaves_ordered d pool with Ok leaves => Some leaves | Err _ => None end.

Definition db_root (d : Db) (pool : string) (depth : Z) : option Field :=
  leaves ← db_leaves d pool;
  match MerklePrefixTree_new depth leaves with
  | Some (Ok t) => b ← pt_build t; match ptb_root b with Some (Ok root) => Some root | _ => None end
  | _ => None
  end.

#[local] Instance local_leaves : LeafStore (L := LocalState) := {| stored_leaves l := db_leaves l.1; stored_root l := db_root l.1 |}.

Lemma validated_tree_leaves d pool next depth root n b n' :
  build_validated_pool_tree d pool next depth root n = Some (Ok (inl b), n') ->
  (exists leaves, db_leaves d pool = Some leaves /\ zlength leaves = next) /\ db_root d pool depth = Some root.
Proof.
  intros Hb. unfold build_validated_pool_tree in Hb. bm_inv. case_if_in Hb; bm_inv; [discriminate |]. case_if_in Hb; bm_inv.
  unfold db_root, db_leaves. match goal with Hl : get_pool_commitment_leaves_ordered _ _ = _ |- _ => rewrite Hl end. split; [eexists; split; [done | lia] |].
  cbn. match goal with Ht : MerklePrefixTree_new _ _ = _ |- _ => rewrite Ht end. match goal with Ht : pt_build _ = _ |- _ => rewrite Ht end. cbn.
  match goal with Ht : ptb_root _ = _ |- _ => rewrite Ht end. f_equal.
Qed.

Lemma built_inputs_validated d req n p n' : build_transact_params d req n = Some (Ok (inl p), n') -> rq_input_commitments req <> [] ->
  (exists leaves, db_leaves d (rq_pool_address req) = Some leaves /\ zlength leaves = rq_pool_next_index req) /\ db_root d (rq_pool_address req) (rq_tree_depth req) = rq_pool_root req.
Proof.
  intros Hb Hne. unfold build_transact_params in Hb. case_if_in Hb; [discriminate |]. apply bm_bind_Ok in Hb as ([[[k1 k2] k3] k4] & n1 & _ & Hb).
  apply bm_bind_Ok in Hb as ([m|st] & n2 & _ & Hb); [| by bm_inv]. apply bm_bind_Ok in Hb as (root & n3 & Hroot & Hb). apply bm_result_Ok in Hroot as [Hroot ->].
  destruct (rq_pool_root req) as [r|]; [| done]. injection Hroot as ->. apply bm_bind_Ok in Hb as ([inputs|st] & n4 & Hin & Hb).
  - unfold build_pool_inputs in Hin. rewrite bool_decide_eq_false_2 in Hin by done. apply bm_bind_Ok in Hin as ([b|st] & n5 & Ht & Hin); [| by bm_inv].
    exact (validated_tree_leaves _ _ _ _ _ _ _ _ Ht).
  - by bm_inv.
Qed.

(** The native parts promise what [ValidatingStorage] asks. *)
#[local] Instance local_validates : ValidatingStorage (H3 := parts) local_leaves.
Proof.
  split.
  - intros req [d n] p l' Hb Hne. cbn [parts local_parts storage_build_transact_params local_build fst snd] in Hb. unfold local_build in Hb. cbn [fst snd] in Hb.
    destruct (build_transact_params d req n) as [[[[q|st]|e] n']|] eqn:E; try discriminate Hb. injection Hb as -> <-.
    exact (built_inputs_validated _ _ _ _ _ E Hne).
  - by intros user l.
  - by intros req l.
  - intros params l. cbn. unfold local_prove. destruct (engine_prove_transact _ _ _ _ params l.2) as [[r n']|]; by split.
  - by intros prepared l.
Qed.

End Validates.

(** ** A client synchronises

    [sync] as a whole: the indexer catches up with the node and the local state is processed. *)

(** More fuel changes nothing. *)
Lemma catch_up_more {Net St} {node : RpcNode Net} {C : ContractDataStorage St} ix f : forall f' (w : Net * St) x, catch_up f ix w = Some x -> (f <= f')%nat -> catch_up f' ix w = Some x.
Proof.
  induction f as [|f IH]; intros [|f'] w x Hx Hf; try done; [lia |]. cbn [catch_up] in *. destruct (fetch_contract_events_round ix w) as [[[|]|e] w1]; [| done | done].
  apply IH; [done | lia].
Qed.

Lemma local_state_more `{XdrLib} derive f : forall f' d x, process_local_state derive f d = Some x -> (f <= f')%nat -> process_local_state derive f' d = Some x.
Proof.
  induction f as [|f IH]; intros [|f'] d x Hx Hf; try done; [lia |]. cbn [process_local_state] in *.
  destruct (process_local_state_batch derive d) as [[[|]|e] d1]; [| done | done]. apply IH; [done | lia].
Qed.

#[export] Instance grows_preorder : PreOrder grows.
Proof. split; [exact grows_refl | exact grows_trans]. Qed.

Lemma catch_up_grows {Net} {node : RpcNode Net} ix fuel (w : Net * Db) r w' : catch_up fuel ix w = Some (r, w') -> grows w.2 w'.2.
Proof.
  apply (relates_catch_up grows).
  - intros b d. destruct (save_events_grows d (cd_events b)) as (u & d' & E & G). cbn [cds_save_events_batch local_storage]. by rewrite E.
  - intros l fully d. destruct (save_progress_grows d l fully) as (u & d' & E & G). cbn [cds_save_sync_progress local_storage]. by rewrite E.
Qed.

Lemma init_contracts {Net St} {node : RpcNode Net} {C : ContractDataStorage St} config (w : Net * St) ix w' :
  Indexer_init config w = (Ok ix, w') -> ix_contract_ids ix = all_contract_ids config.
Proof. unfold Indexer_init. intros H. io_inv. done. Qed.

Lemma stored_ingested d d' id : ingested d' = ingested d -> db_stored d' id = db_stored d id.
Proof. intros [= Ec Er _ _ _]. unfold db_stored, raw_of. by rewrite Er, Ec. Qed.

(** The progress read depends on the contracts and the progress stored. *)
Lemma sync_rows_contracts d d' rows : contracts d' = contracts d -> sync_rows d' rows = sync_rows d rows.
Proof. intros Ec. induction rows as [|r rows IH]; [done |]. cbn [sync_rows]. rewrite Ec, IH. done. Qed.

Lemma metadata_ingested d d' : ingested d' = ingested d -> get_sync_metadata d' = get_sync_metadata d.
Proof. intros [= Ec _ _ _ Em]. unfold get_sync_metadata. rewrite Em. by apply sync_rows_contracts. Qed.

(** C10. Synchronising: over a node that serves the log of the contracts in pages, [sync] of a
    pool object returns success, whether its database is new or resumes from a cursor, under
    three conditions on the data, without which it can end in an error or never: the wallet of
    the database is consistent ([wallet_ok]); before and after the log is fetched, the stored events can have their
    rows ([storable]: each parses, from a known contract, and no commitment, nullifier or leaf index
    repeats); and with the log fetched, no attempt of an account to open a published output ends in an error
    and no two commitments give the same nullifier ([derive_ok]).  The whole log is then in the database and nothing
    stored before is lost, all the contracts are recorded as fully indexed up to the tip,
    every event has its row in the tables, and the wallet is exact: the notes are those the
    accounts can derive from the published commitments, marked spent exactly when their
    nullifiers are published. *)
Theorem client_sync_completes {Net : Type} (node : RpcNode Net) (X : XdrLib) (C : Crypto) (config : ContractConfig) (ix : Indexer) (log : list RpcEvent) (tip : Z)
    (stands_at : string -> nat -> Prop) (PN : PagedNode node (ix_contract_ids ix) log (ix_min_pool_ledger ix) tip stands_at) (d : Db) (k n : nat) (net : Net) :
  Indexer_init config (net, d) = (Ok ix, (net, d)) -> resumable ix log stands_at d k -> storable d -> wallet_ok derive_user_note d ->
  (forall d1, catch_up (S (length log - k)) ix (net, d) = Some (Ok tt, (net, d1)) -> storable d1 /\ derive_ok derive_user_note d1) ->
  exists fuel d', sync config fuel (net, (d, n)) = Some (Ok tt, (net, (d', n))) /\
    (forall e, e ∈ log -> db_stored d' (ev_id e) = Some (ev_ledger e, ev_contract_id e, String.concat "," (ev_topic e), ev_value e)) /\
    (forall id f, db_stored d id = Some f -> db_stored d' id = Some f) /\
    (exists l, get_sync_metadata d' = Ok l /\ active_sync (ix_contract_ids ix) l <> [] /\
       Forall (fun m => sm_last_indexed_ledger m = tip /\ sm_last_fully_indexed_ledger m = tip) (active_sync (ix_contract_ids ix) l)) /\
    wallet_ok derive_user_note d' /\ wallet_exact derive_user_note d'.
Proof.
  intros Hinit Hres Hs W Hd1. assert (ix_contract_ids ix <> []) as Hids.
  { rewrite (init_contracts _ _ _ _ Hinit). unfold all_contract_ids. by destruct (pool_contract_id <$> _). }
  destruct (catch_up_ingests_log node ix log tip stands_at PN d k net Hids Hres) as (d1 & Hrun & _ & Hlog & Hkept & l & Hl & Hup).
  destruct (Hd1 d1 Hrun) as [Hs1 Hdo]. pose proof (catch_up_grows _ _ _ _ _ Hrun) as G.
  destruct (local_sync_run derive_user_note d d1 Hs W G Hs1 Hdo) as (f & d' & Hproc & E & W' & We).
  exists (Nat.max (S (length log - k)) f), d'. split; [| split; [| split; [| split; [| by split]]]].
  - unfold sync. rewrite Hinit. rewrite (catch_up_more _ _ _ _ _ Hrun) by lia. cbn [mbind option_bind].
    rewrite (local_state_more _ _ _ _ _ Hproc) by lia. done.
  - intros e He. rewrite (stored_ingested _ _ _ E). by apply Hlog.
  - intros id fl Hf. rewrite (stored_ingested _ _ _ E). by apply Hkept.
  - exists l. split; [| exact Hup]. by rewrite <- Hl, (metadata_ingested _ _ E).
Qed.

(** A new client of one account, and a pool that has published a note of it and its
    nullifier. *)
Definition sync_log : list RpcEvent :=
  [{| ev_ledger := 10; ev_contract_id := "pool"; ev_id := "1"; ev_topic := ["c"; "c0"]; ev_value := "out" |};
   {| ev_ledger := 11; ev_contract_id := "pool"; ev_id := "2"; ev_topic := ["n"; "n0"]; ev_value := "void" |}].

Definition sync_config : ContractConfig := {|
  cfg_network := "test"; cfg_deployer := "G"; cfg_admin := "G"; cfg_asp_membership := "asp"; cfg_asp_non_membership := "blocked"; cfg_verifier := "verifier";
  cfg_public_key_registry := "registry";
  cfg_pools := [{| pool_contract_id := "pool"; token_contract_id := "token"; deployment_ledger := 9; pool_enabled := true; pool_asset := Native |}] |}.

Definition sync_indexer : Indexer := {| ix_contract_ids := ["pool"; "asp"; "registry"]; ix_min_pool_ledger := 9 |}.

(** The database once the log is in. *)
Definition sync_row (c : Z) : SyncRow := {| sr_contract := c; sr_cursor := Some "||#"; sr_indexed := 20; sr_fully_indexed := 20 |}.
Definition sync_ingested : Db := set_metadata [sync_row 1; sync_row 2; sync_row 3] (set_contracts [(1, "pool"); (2, "asp"); (3, "registry")] sync_db).

Lemma sync_caught_up : catch_up (H := log_node sync_log 20) 3 sync_indexer (tt, sync_start) = Some (Ok tt, (tt, sync_ingested)).
Proof. vm_compute. reflexivity. Qed.

Lemma sync_ingested_grows : grows sync_db sync_ingested.
Proof. split; [exists [(2, "asp"); (3, "registry")]; reflexivity | exists []; reflexivity | reflexivity]. Qed.

Lemma client_sync_completes_witness :
  exists fuel d', sync (H := ref_crypto) (H0 := sync_xdr) (H4 := log_node sync_log 20) sync_config fuel (tt, (sync_start, 0%nat)) = Some (Ok tt, (tt, (d', 0%nat))) /\
    db_stored d' "1" = Some (10, "pool", "c,c0", "out") /\ wallet_exact (X := sync_xdr) (derive_user_note (H := ref_crypto)) d'.
Proof.
  destruct (client_sync_completes (log_node sync_log 20) sync_xdr ref_crypto sync_config sync_indexer sync_log 20 cursor_stands
    ltac:(apply log_node_paged; [apply (bool_decide_eq_true_1 _); reflexivity | repeat constructor | reflexivity | cbn; lia]) sync_start 0 0 tt
    ltac:(reflexivity)
    ltac:(apply resumable_new; [split; [constructor | constructor | intros r Hr; inversion Hr | intros r Hr; inversion Hr] | reflexivity | reflexivity])
    ltac:(by apply empty_storable) ltac:(apply empty_wallet; reflexivity)) as (fuel & d' & Hs & Hst & _ & _ & _ & Hw).
  - intros d1 Hrun. change (S (length sync_log - 0)) with 3%nat in Hrun. rewrite sync_caught_up in Hrun. injection Hrun as <-.
    split; [exact (storable_same_events sync_db _ sync_storable sync_ingested_grows eq_refl) | exact (derive_ok_same_events _ sync_db _ sync_storable sync_ingested_grows eq_refl sync_derive_ok)].
  - exists fuel, d'. split; [exact Hs |]. split; [exact (Hst _ (list_elem_of_here _ _)) | exact Hw].
Defined.
