(* ===== verification/Worker.v ===== *)
(** * The storage worker of the web client

    [app/crates/platforms/web/src/workers/storage.rs] with the messages of [protocol.rs]: the
    worker that owns the database, its requests, the task that processes stored events in the
    background, and the bridge through which the page uses it as a [Storage] and as a
    [ContractDataStorage].

    The worker is a single thread: a request runs from its arrival to its answer without a
    pause, except that a ping is repeated until the initialisation has ended; the processor
    pauses after every batch.  An error is sent as its text, which the model keeps as the error itself. *)

From Stdlib Require Import Ascii.
From stdpp Require Import strings.
From S2P Require Import Prelude Ints Amounts Poseidon2Tables Hashes ProverMonad Encryption Notes Flows PrefixTree ScVals Events Storage Queries Scan Rpc Envelope StateFetch Indexer Disclosure Combination Plan PoolClient PoolExec.

(** ** Messages *)

(** [UserKeys]: only the public halves leave the worker. *)
Record PublicUserKeys : Type := { uk_note_public : NotePublicKey; uk_encryption_public : EncryptionPublicKey }.

Inductive StorageWorkerRequest : Type :=
| ReqPing
| ReqSyncState
| ReqSaveEvents (data : ContractsEventData)
| ReqSaveSyncProgress (metadata : list SyncMetadata) (fully_indexed : bool)
| ReqClearIndexingCursors
| ReqDeriveSaveUserKeys (address : string) (signature : KeyDerivationSignature) (network_context : string)
| ReqDisclaimerState (address : string)
| ReqAcceptDisclaimer (address disclaimer_hash_hex : string)
| ReqGetSetting (key : string)
| ReqSetSetting (key value_json : string)
| ReqUserKeys (address : string)
| ReqAspSecret (address : string)
| ReqUserNotes (address : string) (limit : Z)
| ReqPortfolioBalances (address : string)
| ReqRecordOperation (address pool_contract_id op_type amount direction : string) (counterparty tx_hash : option string)
| ReqListOperations (address pool_contract_id : string) (limit : Z)
| ReqUnspentUserNotes (user_address pool_contract_id : string)
| ReqPoolUserNotes (user_address pool_contract_id : string)
| ReqRecentPubKeys (limit : Z)
| ReqRecipientLookup (address public_key_registry_contract_id : string)
| ReqOperationalFeed (limit : Z) (asp_membership_contract_id public_key_registry_contract_id : string)
| ReqDisclosureInputs (req : DisclosureInputsRequest)
| ReqTransact (req : TransactRequest)
| ReqDeriveASPleaf (membership_blinding : Field) (pubkey : NotePublicKey).

Inductive WorkerError : Type :=
| NotInitialized
| InitError (message : string)
| StorageFailed (e : StorageError)
| BuildFailed (e : BuildError)
| KeysFailed (e : ProverError)
| BadJson.

Inductive StorageWorkerResponse : Type :=
| RespPong
| RespSyncState (state : list SyncMetadata)
| RespSaved
| RespError (e : WorkerError)
| RespDisclaimerState (state : DisclaimerState)
| RespSetting (value_json : option string)
| RespUserKeys (keys : option PublicUserKeys)
| RespAspSecret (membership_blinding : option Field)
| RespUserNotes (notes : list UserNoteSummary)
| RespPortfolioBalances (balances : list PortfolioBalance)
| RespOperations (operations : list UserOperation)
| RespPubKeys (entries : list PublicKeyEntry)
| RespRecipientLookup (lookup : RecipientLookup)
| RespOperationalFeed (items : list OperationalFeedItem)
| RespAspMembershipSync (status : AspMembershipSync)
| RespDisclosureInputs (inputs : DisclosureInputs)
| RespTransactParams (params : TransactParams)
| RespDeriveASPleaf (leaf : Field).

(** ** The worker *)

Inductive InitState : Type :=
| InitPending
| InitReady
| InitFailed (message : string).

(** [STORAGE]; a panic while it is borrowed leaves it so, and every later access panics. *)
Inductive StorageCell : Type :=
| CellEmpty
| CellOpen (a : AppDb)
| CellBorrowed.

(** The processor task: not spawned, spawned and never woken, between two batches, at rest
    after a run with the error it logged, or ended by a panic. *)
Inductive Processor : Type :=
| ProcAbsent
| ProcSpawned
| ProcRunning
| ProcResting (logged : option WorkerError)
| ProcDead.

(** The state of the worker; [wk_channel] is the number of messages waiting for the processor,
    once there is a channel, and [wk_draws] counts the random draws. *)
Record Worker : Type := {
  wk_cell : StorageCell;
  wk_init : InitState;
  wk_channel : option nat;
  wk_processor : Processor;
  wk_draws : nat;
}.

Definition set_cell (c : StorageCell) (w : Worker) : Worker :=
  {| wk_cell := c; wk_init := wk_init w; wk_channel := wk_channel w; wk_processor := wk_processor w; wk_draws := wk_draws w |}.
Definition set_init (i : InitState) (w : Worker) : Worker :=
  {| wk_cell := wk_cell w; wk_init := i; wk_channel := wk_channel w; wk_processor := wk_processor w; wk_draws := wk_draws w |}.
Definition set_channel (n : option nat) (w : Worker) : Worker :=
  {| wk_cell := wk_cell w; wk_init := wk_init w; wk_channel := n; wk_processor := wk_processor w; wk_draws := wk_draws w |}.
Definition set_processor (p : Processor) (w : Worker) : Worker :=
  {| wk_cell := wk_cell w; wk_init := wk_init w; wk_channel := wk_channel w; wk_processor := p; wk_draws := wk_draws w |}.
Definition set_draws (n : nat) (w : Worker) : Worker :=
  {| wk_cell := wk_cell w; wk_init := wk_init w; wk_channel := wk_channel w; wk_processor := wk_processor w; wk_draws := n |}.

Definition set_chain (d : Db) (a : AppDb) : AppDb := Build_AppDb d (app_settings a) (disclaimer_acceptances a) (app_user_operations a).

(** A worker that has just started. *)
Definition worker_main : Worker := {| wk_cell := CellEmpty; wk_init := InitPending; wk_channel := None; wk_processor := ProcAbsent; wk_draws := 0 |}.

(** ** Initialisation *)

Definition contains (message part : string) : bool := bool_decide (is_Some (String.index 0 part message)).

Definition is_opfs_locked_error (message : string) : bool :=
  contains message "NoModificationAllowedError"
  && (contains message "createSyncAccessHandle" || contains message "Access Handles cannot be created").

(** The message for a failed installation of the file system, from the two texts of the error. *)
Definition vfs_message (text debug : string) : string :=
  let combined := if bool_decide (text = EmptyString) then debug else (text +:+ " " +:+ debug)%string in
  if is_opfs_locked_error combined
  then "Another tab or window is using this app's local database. Please close other tabs/windows running this app, then reload this page."
  else "Failed to initialize local database storage.".

(** [init], after [sqlite_wasm_vfs] answered [vfs] and [connect] opened the database. *)
Definition worker_init (vfs : result (string * string) unit) (connect : result string AppDb) (w : Worker) : Worker :=
  match vfs with
  | Err (text, debug) => set_init (InitFailed (vfs_message text debug)) w
  | Ok _ =>
      match connect with
      | Err e => set_init (InitFailed ("Failed to open local database: " +:+ e)%string) w
      | Ok a => set_init InitReady (set_processor ProcSpawned (set_channel (Some 0%nat) (set_cell (CellOpen a) w)))
      end
  end.

(** ** Requests *)

(** What a request does: its answer, [None] while there is none or after a panic. *)
Definition WM (A : Type) : Type := Worker -> option (result WorkerError A) * Worker.

#[export] Instance wm_ret : MRet WM := fun A a w => (Some (Ok a), w).
#[export] Instance wm_bind : MBind WM := fun A B k m w =>
  match m w with
  | (Some (Ok a), w') => k a w'
  | (Some (Err e), w') => (Some (Err e), w')
  | (None, w') => (None, w')
  end.

Definition wm_result {A} (r : result WorkerError A) : WM A := fun w => (Some r, w).

(** The futures crate's bounded channel: how many messages it holds for a given buffer. *)
Class MpscChannel : Type := { mpsc_capacity : nat -> nat }.

(** The documentation: the buffer and one slot for each sender. *)
Class MpscChannelLaws (M : MpscChannel) : Prop := { mpsc_capacity_spec buffer : mpsc_capacity buffer = S buffer }.

(** [serde_json::Value]. *)
Class JsonValues : Type := {
  JsonValue : Type;
  json_value :: SerdeJson JsonValue;
  value_to_string : JsonValue -> string;
}.

Section Router.

Context `{Crypto} {X : XdrLib} {SM : SqliteMax} {J : JsonValues} {M : MpscChannel}.

(** The disclaimer and the deployment are embedded by the build. *)
Variables CURRENT_DISCLAIMER_TEXT_MD CURRENT_DISCLAIMER_HASH_HEX : string.
Variable DEPLOYMENT : option ContractConfig.

Definition kick_processor : WM unit := fun w =>
  (Some (Ok tt), match wk_channel w with
                 | Some n => set_channel (Some (if (n <? mpsc_capacity 1)%nat then S n else n)) w
                 | None => w
                 end).

(** [with_storage!] and [with_storage_mut!] with a statement that does not panic. *)
Definition with_storage {A} (statement : AppDb -> result StorageError A * AppDb) : WM A := fun w =>
  match wk_cell w with
  | CellEmpty => (Some (Err NotInitialized), w)
  | CellBorrowed => (None, w)
  | CellOpen a => let '(r, a') := statement a in (Some (map_err StorageFailed r), set_cell (CellOpen a') w)
  end.

Definition reading {A} (f : AppDb -> result StorageError A) : AppDb -> result StorageError A * AppDb := fun a => (f a, a).
Definition on_chain {A} (m : DM A) : AppDb -> result StorageError A * AppDb := fun a => let '(r, d) := m (app_chain a) in (r, set_chain d a).

(** [with_storage_mut!] around a build. *)
Definition with_build {A} (build : Db -> BM A) : WM A := fun w =>
  match wk_cell w with
  | CellEmpty => (Some (Err NotInitialized), w)
  | CellBorrowed => (None, w)
  | CellOpen a =>
      match build (app_chain a) (wk_draws w) with
      | None => (None, set_cell CellBorrowed w)
      | Some (r, n) => (Some (map_err BuildFailed r), set_draws n w)
      end
  end.

(** A computation of the prover, outside the storage. *)
Definition of_keys {A} (m : RM A) : WM A := fun w =>
  match m (wk_draws w) with
  | None => (None, w)
  | Some (r, n) => (Some (map_err KeysFailed r), set_draws n w)
  end.

Definition public_keys_of (keys : StoredUserKeys) : PublicUserKeys :=
  {| uk_note_public := note_public (su_note_keypair keys); uk_encryption_public := enc_public (su_encryption_keypair keys) |}.

Definition ping : WM StorageWorkerResponse := fun w =>
  match wk_init w with
  | InitReady => (kick_processor;; mret RespPong) w
  | InitFailed message => (Some (Ok (RespError (InitError message))), w)
  | InitPending => (None, w)
  end.

(** [router]; [now] is the clock of the database. *)
Definition router (now : Z) (req : StorageWorkerRequest) : WM StorageWorkerResponse :=
  match req with
  | ReqPing => ping
  | ReqSyncState => state ← with_storage (reading (fun a => get_sync_metadata (app_chain a))); mret (RespSyncState state)
  | ReqSaveEvents data => with_storage (on_chain (save_events_batch (cd_events data)));; kick_processor;; mret RespSaved
  | ReqSaveSyncProgress metadata fully_indexed => with_storage (on_chain (save_sync_progress metadata fully_indexed));; mret RespSaved
  | ReqClearIndexingCursors => with_storage (on_chain clear_indexing_cursors);; mret RespSaved
  | ReqDeriveSaveUserKeys address signature network_context =>
      keys ← of_keys (derive_encryption_and_note_keypairs signature);
      membership_blinding ← of_keys (derive_membership_blinding signature (bytes_of_string network_context));
      with_storage (on_chain (save_encryption_and_note_keypairs address keys.1 keys.2 membership_blinding));;
      kick_processor;;
      mret RespSaved
  | ReqDisclaimerState address =>
      state ← with_storage (get_disclaimer_state CURRENT_DISCLAIMER_TEXT_MD CURRENT_DISCLAIMER_HASH_HEX address);
      mret (RespDisclaimerState state)
  | ReqAcceptDisclaimer address hash => with_storage (accept_current_disclaimer CURRENT_DISCLAIMER_HASH_HEX address hash);; mret RespSaved
  | ReqGetSetting key =>
      value ← with_storage (reading (fun a => get_setting_json (T := JsonValue) a key));
      mret (RespSetting (value_to_string <$> value))
  | ReqSetSetting key value_json =>
      value ← wm_result (ok_or (json_from_str (T := JsonValue) value_json) BadJson);
      with_storage (set_setting_json key value);;
      mret RespSaved
  | ReqUserKeys address =>
      keys ← with_storage (reading (fun a => Ok (get_user_keys (app_chain a) address)));
      mret (RespUserKeys (public_keys_of <$> keys))
  | ReqAspSecret address =>
      keys ← with_storage (reading (fun a => Ok (get_user_keys (app_chain a) address)));
      mret (RespAspSecret (su_membership_blinding <$> keys))
  | ReqUserNotes address limit =>
      notes ← with_storage (reading (fun a => list_user_notes (app_chain a) address limit)); mret (RespUserNotes notes)
  | ReqPortfolioBalances address =>
      config ← wm_result (ok_or DEPLOYMENT BadJson);
      balances ← with_storage (reading (fun a => list_portfolio_balances (app_chain a) address config));
      mret (RespPortfolioBalances balances)
  | ReqRecordOperation address pool op_type amount direction counterparty tx_hash =>
      with_storage (insert_operation now address pool op_type amount direction counterparty tx_hash);; mret RespSaved
  | ReqListOperations address pool limit =>
      operations ← with_storage (reading (fun a => Ok (list_operations a address pool limit))); mret (RespOperations operations)
  | ReqUnspentUserNotes user pool =>
      notes ← with_storage (reading (fun a => list_unspent_user_notes (app_chain a) pool user)); mret (RespUserNotes notes)
  | ReqPoolUserNotes user pool =>
      notes ← with_storage (reading (fun a => list_pool_user_notes (app_chain a) pool user)); mret (RespUserNotes notes)
  | ReqRecentPubKeys limit => entries ← with_storage (reading (fun a => get_recent_public_keys (app_chain a) limit)); mret (RespPubKeys entries)
  | ReqRecipientLookup address registry =>
      lookup ← with_storage (reading (fun a => recipient_lookup (app_chain a) address registry)); mret (RespRecipientLookup lookup)
  | ReqOperationalFeed limit asp_membership registry =>
      items ← with_storage (reading (fun a => get_operational_feed (app_chain a) limit asp_membership registry)); mret (RespOperationalFeed items)
  | ReqDisclosureInputs req =>
      built ← with_build (fun d => build_disclosure_inputs d req);
      mret (match built with inl inputs => RespDisclosureInputs inputs | inr status => RespAspMembershipSync status end)
  | ReqTransact req =>
      built ← with_build (fun d => build_transact_params d req);
      mret (match built with inl params => RespTransactParams params | inr status => RespAspMembershipSync status end)
  | ReqDeriveASPleaf membership_blinding pubkey =>
      leaf ← of_keys (lift_fallible (asp_membership_leaf pubkey membership_blinding)); mret (RespDeriveASPleaf leaf)
  end.

(** [StorageWorker]: errors become messages. *)
Definition StorageWorker (now : Z) (req : StorageWorkerRequest) (w : Worker) : option StorageWorkerResponse * Worker :=
  match router now req w with
  | (Some (Ok response), w') => (Some response, w')
  | (Some (Err e), w') => (Some (RespError e), w')
  | (None, w') => (None, w')
  end.

(** ** The processor *)

(** [rx.next()]: the processor takes a message. *)
Definition processor_wake (w : Worker) : option Worker :=
  match wk_processor w, wk_channel w with
  | (ProcSpawned | ProcResting _), Some (S n) => Some (set_processor ProcRunning (set_channel (Some n) w))
  | _, _ => None
  end.

(** One batch of [process_until_empty], to its pause or to the end of the run. *)
Definition processor_batch (w : Worker) : Worker :=
  match wk_cell w with
  | CellEmpty => set_processor (ProcResting (Some NotInitialized)) w
  | CellBorrowed => set_processor ProcDead w
  | CellOpen a =>
      match process_local_state_batch derive_user_note (app_chain a) with
      | (Ok did_work, d) => set_processor (if (did_work : bool) then ProcRunning else ProcResting None) (set_cell (CellOpen (set_chain d a)) w)
      | (Err DerivePanic, _) => set_processor ProcDead (set_cell CellBorrowed w)
      | (Err e, d) => set_processor (ProcResting (Some (StorageFailed e))) (set_cell (CellOpen (set_chain d a)) w)
      end
  end.

(** [run_processor_loop] until it waits for a message, when nothing else happens; [None] without
    fuel. *)
Fixpoint run_processor_loop (fuel : nat) (w : Worker) : option Worker :=
  match fuel with
  | O => None
  | S fuel =>
      match wk_processor w with
      | ProcRunning => run_processor_loop fuel (processor_batch w)
      | _ => match processor_wake w with Some w' => run_processor_loop fuel w' | None => Some w end
      end
  end.

(** ** The bridge *)

(** Whether the worker answers a request within its time. *)
Variable in_time : Worker -> StorageWorkerRequest -> bool.

Inductive BridgeError : Type :=
| TimedOut
| Answered (e : WorkerError)
| Unexpected (response : StorageWorkerResponse).

(** [StorageBridge::call]: the worker runs a request also when its answer comes too late.  For a
    ping, [w] is the worker at its last repetition. *)
Definition bridge_call (now : Z) (req : StorageWorkerRequest) : IO Worker BridgeError StorageWorkerResponse := fun w =>
  let '(answer, w') := StorageWorker now req w in
  (match answer with
   | Some response => if in_time w req then match response with RespError e => Err (Answered e) | _ => Ok response end else Err TimedOut
   | None => Err TimedOut
   end, w').

Definition expect {A} (f : StorageWorkerResponse -> option A) (now : Z) (req : StorageWorkerRequest) : IO Worker BridgeError A :=
  response ← bridge_call now req;
  io_result (ok_or (f response) (Unexpected response)).

Definition as_pong (r : StorageWorkerResponse) : option unit := match r with RespPong => Some tt | _ => None end.
Definition as_saved (r : StorageWorkerResponse) : option unit := match r with RespSaved => Some tt | _ => None end.
Definition as_sync_state (r : StorageWorkerResponse) : option (list SyncMetadata) := match r with RespSyncState state => Some state | _ => None end.
Definition as_notes (r : StorageWorkerResponse) : option (list UserNoteSummary) := match r with RespUserNotes notes => Some notes | _ => None end.
Definition as_keys (r : StorageWorkerResponse) : option (option PublicUserKeys) := match r with RespUserKeys keys => Some keys | _ => None end.
Definition as_params (r : StorageWorkerResponse) : option (TransactParams + AspMembershipSync) :=
  match r with RespTransactParams params => Some (inl params) | RespAspMembershipSync status => Some (inr status) | _ => None end.
Definition as_inputs (r : StorageWorkerResponse) : option (DisclosureInputs + AspMembershipSync) :=
  match r with RespDisclosureInputs inputs => Some (inl inputs) | RespAspMembershipSync status => Some (inr status) | _ => None end.

Definition bridge_ping (now : Z) : IO Worker BridgeError unit := expect as_pong now ReqPing.
Definition bridge_clear_indexing_cursors (now : Z) : IO Worker BridgeError unit := expect as_saved now ReqClearIndexingCursors.

(** The bootnode of the settings, if it is enabled and has a url; every failure is no bootnode. *)
Definition bridge_stored_bootnode_url `{SerdeJson BootnodeSetting} (now : Z) (w : Worker) : option string :=
  match (bridge_call now (ReqGetSetting APP_SETTING_BOOTNODE_CONFIG) w).1 with
  | Ok (RespSetting (Some json)) =>
      config ← json_from_str json;
      if bs_enabled config && negb (bool_decide (bs_url config = EmptyString)) then Some (bs_url config) else None
  | _ => None
  end.

(** *** [ContractDataStorage] *)

Definition storage_error (e : BridgeError) : StorageError :=
  match e with
  | TimedOut => WorkerTimeout
  | Answered (StorageFailed e) => e
  | _ => WorkerReply
  end.

Definition bridge_get_sync_state (now : Z) : IO Worker StorageError (list SyncMetadata) := io_map_err storage_error (expect as_sync_state now ReqSyncState).
Definition bridge_save_events_batch (now : Z) (data : ContractsEventData) : IO Worker StorageError unit :=
  io_map_err storage_error (expect as_saved now (ReqSaveEvents data)).
Definition bridge_save_sync_progress (now : Z) (metadata : list SyncMetadata) (fully_indexed : bool) : IO Worker StorageError unit :=
  io_map_err storage_error (expect as_saved now (ReqSaveSyncProgress metadata fully_indexed)).

Variable now : Z.

#[local] Instance bridge_storage : ContractDataStorage Worker := {|
  cds_get_sync_state w := (bridge_get_sync_state now w).1;
  cds_save_events_batch := bridge_save_events_batch now;
  cds_save_sync_progress := bridge_save_sync_progress now;
|}.

(** *** [Storage] *)

Definition pool_error (e : BridgeError) : PoolClientError := ClientOther "storage worker".

(** A response that may ask for synchronisation. *)
Definition ready_or_sync {A} (r : A + AspMembershipSync) : IO Worker PoolClientError A :=
  match r with inl a => mret a | inr status => io_throw (MembershipSync status) end.

Definition bridge_ensure_ready : IO Worker PoolClientError unit := io_map_err pool_error (bridge_ping now).

(** Ingesting wakes the processor; nothing waits for it. *)
Definition bridge_process_pending_state : IO Worker PoolClientError unit := mret tt.

Definition bridge_spendable_notes (pool user : string) : IO Worker PoolClientError (list SpendableNote) :=
  notes ← io_map_err pool_error (expect as_notes now (ReqUnspentUserNotes user pool));
  mret ((fun n => {| sn_commitment := us_id n; sn_amount := us_amount n |}) <$> notes).

Definition bridge_notes (pool user : string) : IO Worker PoolClientError (list UserNoteSummary) :=
  io_map_err pool_error (expect as_notes now (ReqPoolUserNotes user pool)).

Definition bridge_build_transact_params (req : TransactRequest) : IO Worker PoolClientError TransactParams :=
  built ← io_map_err pool_error (expect as_params now (ReqTransact req));
  ready_or_sync built.

Definition bridge_build_disclosure_inputs (req : DisclosureInputsRequest) : IO Worker PoolClientError DisclosureInputs :=
  built ← io_map_err pool_error (expect as_inputs now (ReqDisclosureInputs req));
  ready_or_sync built.

(** The private keys do not leave the worker. *)
Definition bridge_user_keys (user : string) : IO Worker PoolClientError StoredUserKeys :=
  io_throw (ClientOther "full user keys are not available on the storage bridge; use user_public_keys").

Definition bridge_user_public_keys (user : string) : IO Worker PoolClientError (NotePublicKey * EncryptionPublicKey) :=
  keys ← io_map_err pool_error (expect as_keys now (ReqUserKeys user));
  keys ← io_result (ok_or keys (ClientOther "user keys not found in worker storage"));
  mret (uk_note_public keys, uk_encryption_public keys).

Definition bridge_user_note_pubkey (user : string) : IO Worker PoolClientError NotePublicKey :=
  keys ← bridge_user_public_keys user;
  mret keys.1.

End Router.
