(* ===== verification/WorkerTheorems.v ===== *)
(** * The storage worker loses no work

    The processor of the worker rests only when nothing is left to process, however requests
    and batches interleave; through the bridge the indexer and the pool object find the
    database they would find locally, and a client synchronises. *)

From Stdlib Require Import Ascii.
From stdpp Require Import strings sorting relations.
From S2P Require Import Prelude Ints Amounts Poseidon2Tables Hashes ProverMonad Encryption Notes Flows PrefixTree ScVals ScValFacts Events Storage Queries Scan StorageFacts SyncFacts WalletFacts ReconcileFacts SyncTheorems SyncLimits QueryFacts DbTypes Rpc Envelope CodecExample EnvelopeTheorems StateFetch Indexer R1cs Prover Disclosure DisclosureFacts Combination Plan PoolClient PoolExec PoolLocal Worker.

(** ** A batch that did nothing *)

(** Nothing stored is left to process. *)
Definition nothing_left (d : Db) : Prop := unprocessed d = [] /\ all_scanned d.

(** The same events, rows and accounts, and the same marks. *)
Record same_work (d d' : Db) : Prop := {
  sw_tables : parsed_tables d' = parsed_tables d;
  sw_mark p a : mark d' p a = mark d p a;
  sw_nullifier_mark p : nullifier_mark d' p = nullifier_mark d p;
}.

#[export] Instance same_work_preorder : PreOrder same_work.
Proof. split; [by intros d; split | intros d1 d2 d3 [] []; split; congruence]. Qed.

Lemma same_work_contract d d' e : same_work d d' -> contract_of d' e = contract_of d e.
Proof. intros [E%tables_ingested _ _]. by apply contract_of_ingested. Qed.

Lemma same_work_pend d d' p a : same_work d d' -> pend d' p a = pend d p a.
Proof.
  intros S. unfold pend, pending_commitments. rewrite (sw_mark _ _ S). f_equal. pose proof (sw_tables _ _ S) as [= _ _ _ _ _ _ E _ _]. rewrite E. f_equal.
  apply list_filter_iff. intros c. by rewrite (same_work_contract d d' _ S).
Qed.

Lemma same_work_npend d d' p : same_work d d' -> npend d' p = npend d p.
Proof.
  intros S. unfold npend, pending_nullifiers. rewrite (sw_nullifier_mark _ _ S). f_equal. pose proof (sw_tables _ _ S) as [= _ _ _ _ _ E _ _ _]. rewrite E. f_equal.
  apply list_filter_iff. intros c. by rewrite (same_work_contract d d' _ S).
Qed.

Section Idle.

Context {X : XdrLib}.
Variable derive : AccountKeys -> PoolCommitmentRow -> result StorageError (option DerivedUserNoteRow).

Lemma commitment_rows_length rows : forall out, commitment_rows rows = Ok out -> length out = length rows.
Proof.
  induction rows as [|c rows IH]; cbn [commitment_rows]; intros out H; [by injection H as <- |].
  apply bind_Ok in H as (i & _ & H). apply bind_Ok in H as (others & Ho & H). injection H as <-. cbn. f_equal. by apply IH.
Qed.

Lemma take_nil {A} (n : nat) (l : list A) : (0 < n)%nat -> take n l = [] -> l = [].
Proof. destruct n, l; [lia | lia | done | discriminate]. Qed.

Lemma scan_account_idle pool a quota d n d' : 0 < quota -> scan_account derive pool a quota d = (Ok n, d') ->
  0 <= n /\ (n = 0 -> d' = d /\ pend d pool a = O).
Proof.
  intros Hq H. apply dm_bind_Ok in H as (d0 & d1 & [= <- <-] & H). unfold id in H. destruct (_ !! _) as [last|] eqn:Em in H; [| discriminate H]. cbv zeta in H.
  apply dm_bind_Ok in H as (rows & d1 & Hrows & H). injection Hrows as Hrows <-. destruct (bool_decide_reflect (rows = [])) as [Hnil|Hnil].
  - injection H as <- <-. split; [lia |]. intros _. split; [done |]. subst rows. apply commitment_rows_length in Hrows. symmetry in Hrows. apply nil_length_inv, take_nil in Hrows; [| unfold ACCOUNT_CHUNK; lia].
    unfold pend, mark. rewrite Em. change (default 0 (Some last)) with last. by rewrite Hrows.
  - apply dm_bind_Ok in H as (u & d2 & _ & H). apply dm_bind_Ok in H as (u' & d3 & _ & H). injection H as <- <-. unfold zlength. split; [lia |].
    intros Hz. destruct rows; [done | cbn in Hz; lia].
Qed.

Lemma scan_cycle_idle pool accs : forall quota b d q d', 0 < quota -> scan_cycle derive pool accs quota b d = (Ok (q, false), d') ->
  b = false /\ d' = d /\ forall a, a ∈ accs -> pend d pool a = O.
Proof.
  induction accs as [|a accs IH]; intros quota b d q d' Hq; cbn [scan_cycle].
  - intros [= _ -> <-]. split; [done |]. split; [done |]. intros a Ha. by apply not_elem_of_nil in Ha.
  - rewrite (proj2 (Z.eqb_neq quota 0)) by lia. intros (n & d1 & H1 & H2)%dm_bind_Ok. destruct (scan_account_idle _ _ _ _ _ _ Hq H1) as [Hn Hz].
    assert (n = 0 \/ 0 < n) as [-> | Hpos] by lia.
    + destruct (Hz eq_refl) as [-> Hp]. replace (saturating_sub quota 0) with quota in H2 by (unfold saturating_sub; lia).
      apply IH in H2 as (Hb & -> & Hall); [| done]. rewrite orb_false_r in Hb. split; [done |]. split; [done |]. intros x [->|Hx]%elem_of_cons; auto.
    + exfalso. rewrite (proj2 (Z.ltb_lt 0 n) Hpos), orb_true_r in H2. clear - H2. revert H2. generalize (saturating_sub quota n) as q0. revert d1.
      induction accs as [|x accs IH']; intros d1 q0; cbn [scan_cycle]; [discriminate |]. destruct (q0 =? 0); [discriminate |].
      intros (m & d2 & _ & H)%dm_bind_Ok. cbn [orb] in H. by apply IH' in H.
Qed.

Lemma scan_loop_did fuel pool accs : forall quota d b d', scan_loop derive fuel pool accs quota true d = (Ok b, d') -> b = true.
Proof.
  induction fuel as [|f IH]; intros quota d b d'; cbn [scan_loop]; [by intros [= <- _] |]. destruct (quota =? 0); [by intros [= <- _] |].
  intros ([q p] & d1 & _ & H)%dm_bind_Ok. destruct p; [by apply IH in H | by injection H as <- _].
Qed.

Lemma scan_loop_idle fuel pool accs quota d d' : (0 < fuel)%nat -> 0 < quota -> scan_loop derive fuel pool accs quota false d = (Ok false, d') ->
  d' = d /\ forall a, a ∈ accs -> pend d pool a = O.
Proof.
  intros Hf Hq. destruct fuel as [|f]; [lia |]. cbn [scan_loop]. rewrite (proj2 (Z.eqb_neq quota 0)) by lia. intros ([q p] & d1 & H1 & H2)%dm_bind_Ok.
  destruct p; [by apply scan_loop_did in H2 |]. injection H2 as <-. by apply scan_cycle_idle in H1 as (_ & H1 & H2).
Qed.

Lemma init_scan_same d0 pool a : keeps (same_work d0) (init_scan pool a).
Proof.
  intros d Hd. unfold init_scan, db_write. cbn [snd]. destruct (_ !! _) eqn:E; [done |]. etrans; [exact Hd |]. split; [done | | done].
  intros p x. unfold mark, set_scan. cbn [account_commitment_scan]. destruct (decide ((p, ak_account x) = (pool, ak_account a))) as [->|Hne].
  - by rewrite lookup_insert_eq, E.
  - by rewrite lookup_insert_ne.
Qed.

Lemma transaction_Ok {A} (m : DM A) d a d' : transaction m d = (Ok a, d') -> m d = (Ok a, d').
Proof. unfold transaction. destruct (m d) as [[x|e] d1]; [done | discriminate]. Qed.

Lemma scan_pool_idle accs pool quota d d' : 0 < quota -> scan_pool derive accs pool quota d = (Ok false, d') ->
  same_work d d' /\ forall a, a ∈ accs -> pend d pool a = O.
Proof.
  intros Hq. unfold scan_pool. rewrite (proj2 (Z.eqb_neq quota 0)) by lia. intros (u & d1 & H1 & H2)%transaction_Ok%dm_bind_Ok.
  assert (same_work d d1) as S. { pose proof (keeps_each (same_work d) (init_scan pool) accs (fun a _ => init_scan_same d pool a) d ltac:(done)) as K. by rewrite H1 in K. }
  apply scan_loop_idle in H2 as [-> H2]; [| lia | done]. split; [done |]. intros a Ha. rewrite <- (same_work_pend _ _ _ _ S). auto.
Qed.

Lemma scan_pools_idle accs pools : Forall (fun p => 0 < p.2) pools -> forall did d d', scan_pools derive accs pools did d = (Ok false, d') ->
  did = false /\ same_work d d' /\ forall p a, p ∈ pools.*1 -> a ∈ accs -> pend d p a = O.
Proof.
  induction 1 as [|[p q] pools Hq _ IH]; intros did d d'; cbn [scan_pools].
  - intros [= -> <-]. split; [done |]. split; [done |]. intros p a Hp. by apply not_elem_of_nil in Hp.
  - intros (b & d1 & H1 & H2)%dm_bind_Ok. apply IH in H2 as (Hb & S2 & Hall). apply orb_false_iff in Hb as [-> ->].
    apply scan_pool_idle in H1 as [S1 H1]; [| done]. split; [done |]. split; [by etrans |]. intros p' a [->|Hp]%elem_of_cons Ha; [by apply H1 |].
    rewrite <- (same_work_pend _ _ _ _ S1). auto.
Qed.

Lemma scan_idle limit d d' : 0 < limit -> scan_commitments_for_user_notes derive limit d = (Ok false, d') ->
  same_work d d' /\ forall p a, is_account d a -> pend d p a = O.
Proof.
  intros Hl H. apply dm_bind_Ok in H as (d0 & d1 & [= <- <-] & H). unfold id in H. cbv zeta in H. rewrite (proj2 (Z.eqb_neq limit 0)), orb_false_r in H by lia.
  destruct (bool_decide_reflect (get_accounts_with_latest_keypairs d = [])) as [Hacc|_]. { injection H as <-. split; [done |]. intros p a Ha. unfold is_account in Ha. rewrite Hacc in Ha. by apply not_elem_of_nil in Ha. }
  destruct (bool_decide_reflect (distinct_contracts d (pc_event <$> pool_commitments d) = [])) as [Hpools|_]. { injection H as <-. split; [done |]. intros p a _. apply pend_other. rewrite Hpools. apply not_elem_of_nil. }
  destruct (2 ^ 32 <=? _) in H; [discriminate H |]. destruct (pool_quotas_positive limit (length (distinct_contracts d (pc_event <$> pool_commitments d))) Hl) as [Hpos Hlen].
  apply scan_pools_idle in H as (_ & S & Hall).
  - split; [done |]. intros p a Ha. destruct (decide (p ∈ distinct_contracts d (pc_event <$> pool_commitments d))) as [Hp|Hp]; [| by apply pend_other].
    apply Hall; [| done]. rewrite fst_zip; [done | lia].
  - apply Forall_forall. intros [p q] Hin%elem_of_zip_r. exact (proj1 (Forall_forall _ _) Hpos q Hin).
Qed.

Lemma reconcile_pool_idle limit pool d d' : 0 < limit -> reconcile_pool limit pool d = (Ok false, d') -> same_work d d' /\ npend d pool = O.
Proof.
  intros Hl (u & d1 & [= <- <-] & H)%transaction_Ok%dm_bind_Ok. cbv beta in H.
  match type of H with (_ ≫= _) ?x = _ => set (d1 := x) in H; assert (same_work d d1) as S end.
  { unfold d1. destruct (nullifier_scan_state d !! pool) eqn:E; [done |]. split; [done | done |]. intros p. unfold nullifier_mark, set_nullifier_scan. cbn [nullifier_scan_state].
    destruct (decide (p = pool)) as [->|Hne]; [by rewrite lookup_insert_eq, E | by rewrite lookup_insert_ne]. }
  apply dm_bind_Ok in H as (d0 & d2 & [= <- <-] & H). unfold id in H. destruct (nullifier_scan_state d1 !! pool) as [last|] eqn:E; [| discriminate H]. cbv zeta in H.
  apply dm_bind_Ok in H as (u' & d3 & H1 & H). apply dm_bind_Ok in H as (u'' & d4 & H2 & H). injection H as H <-. apply negb_false_iff in H. case_bool_decide as Hnil; [| discriminate H]. clear H.
  rewrite Hnil in H1, H2. injection H1 as <-. cbn [foldl] in H2. rewrite Z.ltb_irrefl in H2. injection H2 as <-. apply take_nil in Hnil; [| lia].
  subst d3 d4. split; [exact S |]. rewrite <- (same_work_npend _ _ _ S). unfold npend, nullifier_mark. rewrite E. change (default 0 (Some last)) with last. by rewrite Hnil.
Qed.

Lemma reconcile_pools_idle limit pools : 0 < limit -> forall did d d', reconcile_pools limit pools did d = (Ok false, d') ->
  did = false /\ same_work d d' /\ forall p, p ∈ pools -> npend d p = O.
Proof.
  intros Hl. induction pools as [|p pools IH]; intros did d d'; cbn [reconcile_pools].
  - intros [= -> <-]. split; [done |]. split; [done |]. intros p Hp. by apply not_elem_of_nil in Hp.
  - intros (b & d1 & H1 & H2)%dm_bind_Ok. apply IH in H2 as (Hb & S2 & Hall). apply orb_false_iff in Hb as [-> ->].
    apply reconcile_pool_idle in H1 as [S1 H1]; [| done]. split; [done |]. split; [by etrans |]. intros p' [->|Hp]%elem_of_cons; [done |].
    rewrite <- (same_work_npend _ _ _ S1). auto.
Qed.

(** A batch that finds nothing to do leaves nothing to do. *)
Lemma batch_idle d d' : process_local_state_batch derive d = (Ok false, d') -> nothing_left d'.
Proof.
  intros (b1 & d1 & H1 & H)%dm_bind_Ok. apply dm_bind_Ok in H as (b2 & d2 & H2 & H). injection H as H <-. apply orb_false_iff in H as [-> ->].
  apply process_events_false in H1 as [Hu ->]; [| done]. apply dm_bind_Ok in H2 as (b3 & d3 & H3 & H). apply dm_bind_Ok in H as (b4 & d4 & H4 & H). injection H as H <-.
  apply orb_false_iff in H as [-> ->]. apply scan_idle in H3 as [S3 H3]; [| done]. unfold reconcile_nullifiers in H4. cbn [Z.eqb PROCESS_FETCH_LIMIT] in H4.
  apply dm_bind_Ok in H4 as (d0 & d5 & [= <- <-] & H4). unfold id in H4. apply reconcile_pools_idle in H4 as (_ & S4 & H4); [| done].
  assert (same_work d d4) as S by by etrans. split; [by rewrite (unprocessed_tables d d4 (sw_tables _ _ S)) |]. split.
  - intros p a Ha. rewrite (same_work_pend _ _ _ _ S). apply H3. unfold is_account in *. by rewrite (accounts_ingested _ _ (tables_ingested _ _ (sw_tables _ _ S))) in Ha.
  - intros p. rewrite (same_work_npend _ _ _ S), <- (same_work_npend _ _ _ S3). destruct (decide (p ∈ nullifier_pools d3)) as [Hp|Hp]; [by apply H4 | by apply npend_other].
Qed.

End Idle.

(** ** Writes that bring no work *)

(** New contracts, other progress and new accounts without keys. *)
Definition chain_tables (d : Db) :=
  (raw_contract_events d, keypairs d, pool_nullifiers d, pool_commitments d, public_keys d, asp_membership_leaves d, account_commitment_scan d, nullifier_scan_state d).

Lemma unprocessed_all d r : schema_ok d -> r ∈ raw_contract_events d -> is_processed d (raw_id r) = false -> r ∈ unprocessed d.
Proof.
  intros Hd Hr Hp. apply list_elem_of_filter. split; [| done]. split; [done |]. destruct (so_raw d Hd) as [_ Hall].
  apply lookup_address_key. exact (proj1 (proj1 (Forall_forall _ _) Hall r Hr)).
Qed.

Lemma is_account_row d a : is_account d a <-> exists address k, (ak_account a, address) ∈ accounts d /\ latest_keypair d (ak_account a) = Some k /\
  a = {| ak_account := ak_account a; ak_note_keypair := kr_note k; ak_encryption_keypair := kr_encryption k; ak_membership_blinding := kr_membership_blinding k |}.
Proof.
  unfold is_account, get_accounts_with_latest_keypairs. rewrite list_elem_of_omap. split.
  - intros ([id address] & Hin & H). rewrite elem_of_order_by in Hin. apply bind_Some in H as (k & Hk & [= <-]). by exists address, k.
  - intros (address & k & Hin & Hk & ->). exists (ak_account a, address). rewrite elem_of_order_by. split; [done |]. cbn [fst ak_account]. by rewrite Hk.
Qed.

Lemma latest_keypair_account d i k : latest_keypair d i = Some k -> k ∈ keypairs d /\ kr_account k = i.
Proof. unfold latest_keypair. intros H%last_Some_elem_of. rewrite elem_of_order_by in H. by apply list_elem_of_filter in H as [? ?]. Qed.

Lemma quiet_caught_up d d' : schema_ok d -> chain_tables d' = chain_tables d -> nothing_left d -> nothing_left d'.
Proof.
  intros Hd E [Hu [Hp Hn]]. injection E as Er Ek En Ec Epk El Es Ens. split; [| split].
  - destruct (unprocessed d') as [|r l] eqn:Eu; [done |]. exfalso. assert (r ∈ unprocessed d') as [[Hr _] Hin]%list_elem_of_filter by (rewrite Eu; apply list_elem_of_here).
    rewrite Er in Hin. assert (r ∈ unprocessed d) as H; [| by rewrite Hu in H; apply not_elem_of_nil in H].
    apply unprocessed_all; [done | done |]. unfold is_processed in *. by rewrite Ec, Epk, El, En in Hr.
  - intros p a (address & k & _ & Hk & Ha)%is_account_row. assert (latest_keypair d (ak_account a) = Some k) as Hk' by (unfold latest_keypair in *; by rewrite Ek in Hk).
    assert (exists address, (ak_account a, address) ∈ accounts d) as (address' & Hin).
    { apply latest_keypair_account in Hk' as [Hk' <-]. destruct (so_keypairs d Hd) as [_ Hrows]. destruct (proj1 (Forall_forall _ _) Hrows k Hk') as [Hin _].
      apply list_elem_of_fmap in Hin as ([i x] & -> & Hin). by exists x. }
    rewrite <- (Hp p a); [| apply is_account_row; by exists address', k].
    unfold pend, pending_commitments, mark, contract_of, raw_of. by rewrite Er, Ec, Es.
  - intros p. rewrite <- (Hn p). unfold npend, pending_nullifiers, nullifier_mark, contract_of, raw_of. by rewrite Er, En, Ens.
Qed.

Lemma contract_quiet x address : keeps (fun d => chain_tables d = x) (get_or_create_contract_id address).
Proof. intros d <-. unfold get_or_create_contract_id, mbind, dm_bind, db_read. by destruct (lookup_id _ _). Qed.

Lemma account_quiet x address : keeps (fun d => chain_tables d = x) (get_or_create_account address).
Proof. intros d <-. unfold get_or_create_account, mbind, dm_bind, db_read. by destruct (lookup_id _ _). Qed.

Lemma progress_quiet x metadata fully : keeps (fun d => chain_tables d = x) (save_sync_progress metadata fully).
Proof.
  apply keeps_transaction, keeps_each. intros e _. apply keeps_bind; [apply contract_quiet |]. intros c. apply keeps_read_bind. intros d Hd. exact Hd.
Qed.

Lemma cursors_quiet x : keeps (fun d => chain_tables d = x) clear_indexing_cursors.
Proof. by intros d <-. Qed.

(** A batch of events or keys that fails leaves no write. *)
Lemma transaction_failed {A} (m : DM A) d e d' : transaction m d = (Err e, d') -> d' = d.
Proof. unfold transaction. destruct (m d) as [[x|e'] d1]; [discriminate | by intros [= _ <-]]. Qed.

(** ** Requests *)

Section Requests.

Context {C : Crypto} {X : XdrLib} {SM : SqliteMax} {J : JsonValues} {M : MpscChannel}.
Context {CL : CryptoLaws C} {XT : XdrTyped X} {ML : MpscChannelLaws M}.
Variables CURRENT_DISCLAIMER_TEXT_MD CURRENT_DISCLAIMER_HASH_HEX : string.
Variable DEPLOYMENT : option ContractConfig.

Local Abbreviation router := (router CURRENT_DISCLAIMER_TEXT_MD CURRENT_DISCLAIMER_HASH_HEX DEPLOYMENT).
Local Abbreviation StorageWorker := (StorageWorker CURRENT_DISCLAIMER_TEXT_MD CURRENT_DISCLAIMER_HASH_HEX DEPLOYMENT).

(** The integers of a message have the types of the source. *)
Definition request_typed (req : StorageWorkerRequest) : Prop :=
  match req with
  | ReqSaveEvents data => Forall ledger_typed (cd_events data)
  | ReqSaveSyncProgress metadata _ => Forall (fun m => 0 <= sm_last_indexed_ledger m < 2 ^ 32) metadata
  | _ => True
  end.

Definition more_messages (before after : option nat) : Prop :=
  match before with Some n => exists n', after = Some n' /\ (n <= n')%nat | None => after = None end.

#[export] Instance more_messages_preorder : PreOrder more_messages.
Proof.
  split; [intros [n|]; [by exists n | done] |]. intros [n|] b c; [| by intros ->]. intros (n1 & -> & H1) (n2 & -> & H2). exists n2. split; [done | lia].
Qed.

(** What a request may do that brings the processor no work. *)
Record quiet_step (w w' : Worker) : Prop := {
  qs_init : wk_init w' = wk_init w;
  qs_processor : wk_processor w' = wk_processor w;
  qs_channel : more_messages (wk_channel w) (wk_channel w');
  qs_cell : match wk_cell w with
            | CellOpen a => wk_cell w' = CellBorrowed \/
                exists a', wk_cell w' = CellOpen a' /\ rtc db_step (app_chain a) (app_chain a') /\ chain_tables (app_chain a') = chain_tables (app_chain a)
            | c => wk_cell w' = c
            end;
}.

#[export] Instance quiet_step_preorder : PreOrder quiet_step.
Proof.
  split.
  - intros w. split; [done | done | done |]. destruct (wk_cell w) as [|a|]; [done | | done]. right. by exists a.
  - intros w1 w2 w3 [A1 A2 A3 A4] [B1 B2 B3 B4]. split; [congruence | congruence | by etrans |]. destruct (wk_cell w1) as [|a|].
    + by rewrite A4 in B4.
    + destruct A4 as [A4 | (a2 & A4 & A5 & A6)]; rewrite A4 in B4; [by left |]. destruct B4 as [B4 | (a3 & B4 & B5 & B6)]; [by left |].
      right. exists a3. split; [done |]. split; [by etrans | congruence].
    + by rewrite A4 in B4.
Qed.

Definition quietly {A} (m : WM A) : Prop := forall w, quiet_step w (m w).2.

Lemma quietly_ret {A} (a : A) : quietly (mret a).
Proof. intros w. reflexivity. Qed.

Lemma quietly_bind {A B} (m : WM A) (k : A -> WM B) : quietly m -> (forall a, quietly (k a)) -> quietly (m ≫= k).
Proof.
  intros Hm Hk w. unfold mbind, wm_bind. specialize (Hm w). destruct (m w) as [[[a|e]|] w1]; [| done | done]. etrans; [exact Hm | apply Hk].
Qed.

Lemma quietly_result {A} (r : result WorkerError A) : quietly (wm_result r).
Proof. intros w. reflexivity. Qed.

Lemma quietly_kick : quietly kick_processor.
Proof.
  intros w. unfold kick_processor. cbn [snd]. destruct (wk_channel w) as [n|] eqn:E; [| done]. split; [done | done | |].
  - rewrite E. cbn [more_messages set_channel wk_channel]. eexists. split; [reflexivity |]. destruct (n <? mpsc_capacity 1)%nat; lia.
  - cbn. destruct (wk_cell w) as [|a|]; [done | | done]. right. by exists a.
Qed.

Lemma quietly_keys {A} (m : RM A) : quietly (of_keys m).
Proof.
  intros w. unfold of_keys. destruct (m (wk_draws w)) as [[r n]|]; [| done]. split; [done | done | done |]. cbn. destruct (wk_cell w) as [|a|]; [done | | done].
  right. by exists a.
Qed.

Lemma quietly_build {A} (build : Db -> BM A) : quietly (with_build build).
Proof.
  intros w. unfold with_build. destruct (wk_cell w) as [|a|] eqn:E; [done | | done]. destruct (build (app_chain a) (wk_draws w)) as [[r n]|].
  - split; [done | done | done |]. cbn. rewrite E. right. by exists a.
  - split; [done | done | done |]. cbn. rewrite E. by left.
Qed.

Lemma quietly_storage {A} (statement : AppDb -> result StorageError A * AppDb) :
  (forall a, rtc db_step (app_chain a) (app_chain (statement a).2) /\ chain_tables (app_chain (statement a).2) = chain_tables (app_chain a)) ->
  quietly (with_storage statement).
Proof.
  intros H w. unfold with_storage. destruct (wk_cell w) as [|a|] eqn:E; [done | | done]. specialize (H a). destruct (statement a) as [r a']. cbn [snd] in H.
  split; [done | done | done |]. cbn. rewrite E. right. by exists a'.
Qed.

Lemma quietly_reading {A} (f : AppDb -> result StorageError A) : quietly (with_storage (reading f)).
Proof. apply quietly_storage. intros a. by split. Qed.

Lemma quietly_chain {A} (m : DM A) : (forall d, db_step d (m d).2) -> (forall d, chain_tables (m d).2 = chain_tables d) -> quietly (with_storage (on_chain m)).
Proof.
  intros H1 H2. apply quietly_storage. intros a. unfold on_chain. specialize (H1 (app_chain a)). specialize (H2 (app_chain a)).
  destruct (m (app_chain a)) as [r d]. cbn in *. split; [by apply rtc_once | done].
Qed.

Lemma quietly_account {A} (statement : AppDb -> result StorageError A * AppDb) address :
  (forall a, app_chain (statement a).2 = app_chain a \/ app_chain (statement a).2 = (get_or_create_account address (app_chain a)).2) ->
  quietly (with_storage statement).
Proof.
  intros H. apply quietly_storage. intros a. destruct (H a) as [-> | ->]; [by split |]. split; [apply rtc_once, step_account |].
  exact (account_quiet _ address (app_chain a) eq_refl).
Qed.

(** A request that stores events or keys. *)
Definition brings_work (req : StorageWorkerRequest) : bool := match req with ReqSaveEvents _ | ReqDeriveSaveUserKeys _ _ _ => true | _ => false end.

Lemma router_quiet now req : request_typed req -> brings_work req = false -> quietly (router now req).
Proof.
  intros Ht Hb.
  destruct req; try discriminate Hb; cbn [Worker.router];
    try (apply quietly_bind; [apply quietly_reading | intros ?; apply quietly_ret]);
    try (apply quietly_bind; [apply quietly_build | intros ?; apply quietly_ret]).
  - intros w. unfold ping. destruct (wk_init w); [done | | done]. apply quietly_bind; [apply quietly_kick | intros ?; apply quietly_ret].
  - apply quietly_bind; [apply quietly_chain | intros ?; apply quietly_ret].
    + intros d. by apply step_progress.
    + intros d. exact (progress_quiet _ metadata fully_indexed d eq_refl).
  - apply quietly_bind; [apply quietly_chain | intros ?; apply quietly_ret]; [intros d; apply step_cursors | intros d; exact (cursors_quiet _ d eq_refl)].
  - apply quietly_bind; [apply (quietly_account _ address) | intros ?; apply quietly_ret]. intros a. unfold get_disclaimer_state.
    destruct (get_or_create_account address (app_chain a)) as [[i|e] d]; [by right | by left].
  - apply quietly_bind; [apply (quietly_account _ address) | intros ?; apply quietly_ret]. intros a. unfold accept_current_disclaimer. destruct (negb _); [by left |].
    destruct (get_or_create_account address (app_chain a)) as [[i|e] d]; [by right | by left].
  - apply quietly_bind; [apply quietly_result |]. intros v. apply quietly_bind; [apply quietly_storage | intros ?; apply quietly_ret].
    intros a. unfold set_setting_json. by destruct (json_to_string v).
  - apply quietly_bind; [apply quietly_result |]. intros v. apply quietly_bind; [apply quietly_reading | intros ?; apply quietly_ret].
  - apply quietly_bind; [apply quietly_storage | intros ?; apply quietly_ret]. by intros a.
  - apply quietly_bind; [apply quietly_keys | intros ?; apply quietly_ret].
Qed.

Lemma derived_keys_typed sig context n keys n1 blinding n2 :
  derive_encryption_and_note_keypairs sig n = Some (Ok keys, n1) -> derive_membership_blinding sig context n1 = Some (Ok blinding, n2) -> keys_typed keys.1 keys.2 blinding.
Proof using CL.
  intros H1 H2. rewrite derive_keypairs_run in H1. case_bool_decide as Hs; [| discriminate H1]. injection H1 as <- _.
  unfold derive_membership_blinding in H2. rewrite (bool_decide_eq_true_2 _ Hs) in H2. unfold bail_if, negb, mbind, rm_bind, mret, rm_ret in H2. unfold lift_result in H2.
  rewrite field_of_le_bytes_mod in H2. cbn [map_err] in H2. injection H2 as <- _. unfold keys_typed.
  split; [exact (length_le_bytes 32 _) |]. split; [exact (length_le_bytes 32 _) |]. split; [exact (x25519_public_len _ (sha256_len _)) |]. split; [exact (sha256_len _) |].
  exact (Z.mod_pos_bound _ BN_P eq_refl).
Qed.

Lemma kick_pending w n : wk_channel w = Some n -> exists m, wk_channel (kick_processor w).2 = Some (S m).
Proof using ML.
  intros E. unfold kick_processor. cbn [snd]. rewrite E, (mpsc_capacity_spec 1). cbn [set_channel wk_channel]. destruct (Nat.ltb_spec n 2); [by exists n | destruct n as [|m]; [lia | by exists m]].
Qed.

(** ** The invariant *)

(** The database is one the client's operations can reach and the channel exists; a processor
    at rest without a message has left nothing to process. *)
Definition worker_ok (w : Worker) : Prop :=
  match wk_cell w with
  | CellEmpty => wk_channel w = None
  | CellBorrowed => True
  | CellOpen a => rtc db_step empty_db (app_chain a) /\ is_Some (wk_channel w) /\
      (wk_processor w = ProcResting None -> wk_channel w = Some 0%nat -> nothing_left (app_chain a))
  end.

Lemma quiet_worker_ok w w' : worker_ok w -> quiet_step w w' -> worker_ok w'.
Proof using CL XT.
  intros Hw [_ Q2 Q3 Q4]. unfold worker_ok in *. destruct (wk_cell w) as [|a|].
  - rewrite Q4. by rewrite Hw in Q3.
  - destruct Q4 as [-> | (a' & -> & H1 & H2)]; [done |]. destruct Hw as (Hr & [n En] & Hc). rewrite En in Q3. destruct Q3 as (n' & En' & Hn).
    split; [by etrans |]. split; [by rewrite En' |]. intros Hp H0. rewrite En' in H0. injection H0 as ->. assert (n = 0%nat) as -> by lia.
    apply (quiet_caught_up (app_chain a)); [by apply reachable_schema | done |]. apply Hc; [congruence | done].
  - by rewrite Q4.
Qed.

(** A statement that may bring work, and the message that follows it. *)
Lemma save_and_kick {A} (m : DM A) w : worker_ok w -> (forall d, db_step d (m d).2) -> (forall d e d', m d = (Err e, d') -> d' = d) ->
  worker_ok ((with_storage (on_chain m);; kick_processor;; mret RespSaved) w).2.
Proof using ML.
  intros Hw Hstep Hfail. unfold worker_ok in *. unfold mbind, wm_bind, with_storage, on_chain. destruct (wk_cell w) as [|a|] eqn:Ew; [cbn; by rewrite Ew | | cbn; by rewrite Ew].
  destruct Hw as (Hr & [n En] & Hc). specialize (Hstep (app_chain a)). specialize (Hfail (app_chain a)). destruct (m (app_chain a)) as [[x|e] d]; cbn [map_err] in *.
  - destruct (kick_pending (set_cell (CellOpen (set_chain d a)) w) n En) as [j Ej]. unfold kick_processor in *. cbn [snd mret wm_ret] in *.
    rewrite Ej. cbn [set_cell wk_channel] in *. rewrite En in *. cbn [wk_cell set_channel set_cell set_chain app_chain]. split; [by eapply rtc_r |]. split; [by eexists |]. intros _ H. discriminate H.
  - rewrite (Hfail e d eq_refl). cbn. split; [done |]. split; [by rewrite En |]. exact Hc.
Qed.

Lemma router_ok now req w : request_typed req -> worker_ok w -> worker_ok (router now req w).2.
Proof using CL XT ML.
  intros Ht Hw. destruct (brings_work req) eqn:Hb.
  - destruct req; try discriminate Hb; cbn [Worker.router].
    + apply (save_and_kick (save_events_batch (cd_events data))); [done | intros d; by apply step_events |]. intros d e d'. apply transaction_failed.
    + unfold mbind at 1, wm_bind at 1. pose proof (quietly_keys (derive_encryption_and_note_keypairs signature) w) as Q1. unfold of_keys in *.
      destruct (derive_encryption_and_note_keypairs signature (wk_draws w)) as [[[keys|e] n1]|] eqn:E1; cbn [map_err snd] in *;
        [| exact (quiet_worker_ok _ _ Hw Q1) | exact Hw].
      apply (quiet_worker_ok _ _ Hw) in Q1. clear Hw. unfold mbind at 1, wm_bind at 1. set (w1 := set_draws n1 w) in *.
      pose proof (quietly_keys (derive_membership_blinding signature (bytes_of_string network_context)) w1) as Q2. unfold of_keys in Q2. change (wk_draws w1) with n1 in *.
      destruct (derive_membership_blinding signature _ n1) as [[[b|e] n2]|] eqn:E2; cbn [map_err snd] in *; [| exact (quiet_worker_ok _ _ Q1 Q2) | exact Q1].
      apply (quiet_worker_ok _ _ Q1) in Q2. pose proof (derived_keys_typed _ _ _ _ _ _ _ E1 E2) as Hk.
      apply (save_and_kick (save_encryption_and_note_keypairs address keys.1 keys.2 b)); [done | intros d; by apply step_keys |]. intros d e d'. apply transaction_failed.
  - exact (quiet_worker_ok _ _ Hw (router_quiet now req Ht Hb w)).
Qed.

Lemma StorageWorker_state now req w : (StorageWorker now req w).2 = (router now req w).2.
Proof. unfold Worker.StorageWorker. by destruct (router now req w) as [[[r|e]|] w']. Qed.

(** ** Runs of the worker *)

(** The steps of the worker: the end of the initialisation, with a database that earlier
    sessions left; a request, at any time; the processor takes a message; a batch. *)
Inductive worker_step (w : Worker) : Worker -> Prop :=
| worker_step_init vfs connect : wk_cell w = CellEmpty -> wk_channel w = None ->
    (forall a, connect = Ok a -> rtc db_step empty_db (app_chain a)) -> worker_step w (worker_init vfs connect w)
| worker_step_request now req : request_typed req -> worker_step w (StorageWorker now req w).2
| worker_step_wake w' : processor_wake w = Some w' -> worker_step w w'
| worker_step_batch : wk_processor w = ProcRunning -> worker_step w (processor_batch w).

Lemma batch_ok w : worker_ok w -> worker_ok (processor_batch w).
Proof using Type.
  intros Hw. unfold worker_ok, processor_batch in *. destruct (wk_cell w) as [|a|] eqn:Ew; [cbn; by rewrite Ew | | cbn; by rewrite Ew].
  destruct Hw as (Hr & Hn & _). pose proof (step_local_batch (app_chain a)) as Hs. destruct (process_local_state_batch derive_user_note (app_chain a)) as [[did|e] d] eqn:E.
  - cbn. split; [by eapply rtc_r |]. split; [done |]. destruct did; [discriminate |]. intros _ _. exact (batch_idle _ _ _ E).
  - destruct e; try exact I; cbn; (split; [by eapply rtc_r |]); (split; [done | discriminate]).
Qed.

Lemma worker_step_ok w w' : worker_ok w -> worker_step w w' -> worker_ok w'.
Proof using CL XT ML.
  intros Hw [vfs connect Hc Hn Hr | now req Ht | w1 H | Hp].
  - unfold worker_init. destruct vfs as [u|[t b]]; [destruct connect as [a|e] |]; unfold worker_ok in *; cbn; rewrite ?Hc; try done.
    split; [by apply Hr |]. split; [by eexists |]. discriminate.
  - rewrite StorageWorker_state. by apply router_ok.
  - unfold processor_wake in H. unfold worker_ok in *. destruct (wk_channel w) as [[|n]|]; destruct (wk_processor w); try discriminate H; injection H as <-; cbn;
      destruct (wk_cell w); try done; (split; [apply Hw |]); (split; [by eexists | discriminate]).
  - by apply batch_ok.
Qed.

Lemma worker_reachable_ok w : rtc worker_step worker_main w -> worker_ok w.
Proof using CL XT ML.
  intros H. assert (worker_ok worker_main) as H0 by done. revert H0. induction H as [|w1 w2 w3 H12 _ IH]; [done |]. intros H1. apply IH. exact (worker_step_ok w1 w2 H1 H12).
Qed.

(** ** The processor alone *)

Section Drains.

(** What the processor ends with. *)
Record drained (d : Db) (a : AppDb) (w : Worker) (d' : Db) : Prop := {
  dr_cell : wk_cell w = CellOpen (set_chain d' a);
  dr_channel : wk_channel w = Some 0%nat;
  dr_processor : wk_processor w = ProcResting None;
  dr_ingested : ingested d' = ingested d;
  dr_wallet : wallet_ok derive_user_note d';
  dr_left : events_left d' = O /\ all_scanned d';
}.

Lemma batches_run f : forall d d' w a, process_local_state derive_user_note f d = Some (Ok tt, d') ->
  wk_cell w = CellOpen a -> app_chain a = d -> wk_processor w = ProcRunning ->
  exists n w', (forall fuel, run_processor_loop (n + fuel) w = run_processor_loop fuel w') /\
    wk_cell w' = CellOpen (set_chain d' a) /\ wk_channel w' = wk_channel w /\ wk_processor w' = ProcResting None.
Proof using Type.
  induction f as [|f IH]; intros d d' w a H Ec <- Hp; [discriminate H |]. cbn [process_local_state] in H.
  assert (forall fuel, run_processor_loop (S fuel) w = run_processor_loop fuel (processor_batch w)) as Hstep by (intros fuel; cbn [run_processor_loop]; by rewrite Hp).
  assert (processor_batch w = match process_local_state_batch derive_user_note (app_chain a) with
    | (Ok did, d1) => set_processor (if did then ProcRunning else ProcResting None) (set_cell (CellOpen (set_chain d1 a)) w)
    | _ => processor_batch w end) as Hb by (unfold processor_batch; rewrite Ec; by destruct (process_local_state_batch _ _) as [[did|e] d1]).
  destruct (process_local_state_batch derive_user_note (app_chain a)) as [[[|]|e] d1]; [| | discriminate H].
  - destruct (IH d1 d' (processor_batch w) (set_chain d1 a) H) as (n & w' & Hn & H1 & H2 & H3); [by rewrite Hb | done | by rewrite Hb |].
    exists (S n), w'. split; [intros fuel; cbn [Nat.add]; by rewrite Hstep |]. split; [exact H1 |]. split; [by rewrite H2, Hb | exact H3].
  - injection H as <-. exists 1%nat, (processor_batch w). split; [intros fuel; exact (Hstep fuel) |]. by rewrite Hb.
Qed.

Lemma set_chain_twice d d' a : set_chain d' (set_chain d a) = set_chain d' a.
Proof. done. Qed.

Lemma running_drains n : forall w a, wk_cell w = CellOpen a -> wk_channel w = Some n -> wk_processor w = ProcRunning ->
  scannable derive_user_note (app_chain a) -> wallet_ok derive_user_note (app_chain a) ->
  exists fuel w' d', run_processor_loop fuel w = Some w' /\ drained (app_chain a) a w' d'.
Proof using Type.
  induction n as [|n IH]; intros w a Ec En Hp Hsc W; destruct (local_state_ends derive_user_note (app_chain a) Hsc W) as (f & d1 & Hf & E1 & W1 & Hl & Ha);
    destruct (batches_run f (app_chain a) d1 w a Hf Ec eq_refl Hp) as (k & w1 & Hk & H1 & H2 & H3).
  - exists (k + 1)%nat, w1, d1. split; [| split; try done; by rewrite H2].
    rewrite Hk. cbn [run_processor_loop]. rewrite H3. unfold processor_wake. by rewrite H3, H2, En.
  - destruct (IH (set_processor ProcRunning (set_channel (Some n) w1)) (set_chain d1 a)) as (fuel & w2 & d2 & Hr & [D1 D2 D3 D4 D5 D6]);
      [exact H1 | done | done | by apply (scannable_ingested derive_user_note (app_chain a)) | exact W1 |].
    exists (k + S fuel)%nat, w2, d2. split; [| split; try done; by rewrite D4].
    rewrite Hk. cbn [run_processor_loop]. rewrite H3. unfold processor_wake. rewrite H3, H2, En. exact Hr.
Qed.

(** With a message waiting, a live processor ends with everything processed. *)
Lemma processor_drains w a n : wk_cell w = CellOpen a -> wk_channel w = Some (S n) -> wk_processor w <> ProcAbsent -> wk_processor w <> ProcDead ->
  scannable derive_user_note (app_chain a) -> wallet_ok derive_user_note (app_chain a) ->
  exists fuel w' d', run_processor_loop fuel w = Some w' /\ drained (app_chain a) a w' d'.
Proof using Type.
  intros Ec En H1 H2 Hsc W. destruct (wk_processor w) eqn:Ep; try done.
  2: by apply (running_drains (S n)).
  all: destruct (running_drains n (set_processor ProcRunning (set_channel (Some n) w)) a Ec eq_refl eq_refl Hsc W) as (fuel & w' & d' & Hr & D);
    exists (S fuel), w', d'; split; [| exact D]; cbn [run_processor_loop]; rewrite Ep; unfold processor_wake; by rewrite Ep, En.
Qed.

End Drains.

(** ** Through the bridge *)

Section Bridge.

Variable in_time : Worker -> StorageWorkerRequest -> bool.
Variable now : Z.
Hypothesis answers : forall w req, in_time w req = true.

Local Abbreviation web := (bridge_storage CURRENT_DISCLAIMER_TEXT_MD CURRENT_DISCLAIMER_HASH_HEX DEPLOYMENT in_time now).

(** The database behind a worker that is open. *)
Definition worker_db (w : Worker) : Db := match wk_cell w with CellOpen a => app_chain a | _ => empty_db end.
Definition is_open (w : Worker) : Prop := exists a, wk_cell w = CellOpen a.

Lemma bridge_call_open req w : bridge_call CURRENT_DISCLAIMER_TEXT_MD CURRENT_DISCLAIMER_HASH_HEX DEPLOYMENT in_time now req w =
  match router now req w with
  | (Some (Ok (RespError e)), w') | (Some (Err e), w') => (Err (Answered e), w')
  | (Some (Ok response), w') => (Ok response, w')
  | (None, w') => (Err TimedOut, w')
  end.
Proof using X answers.
  unfold bridge_call, Worker.StorageWorker. destruct (router now req w) as [[[r|e]|] w']; [| by rewrite answers | done].
  rewrite answers. by destruct r.
Qed.

Lemma bridge_sync_state w : is_open w -> cds_get_sync_state (ContractDataStorage := web) w = get_sync_metadata (worker_db w).
Proof using X answers.
  intros [a Ea]. cbn [cds_get_sync_state bridge_storage]. unfold bridge_get_sync_state, io_map_err, expect, worker_db. unfold mbind, io_bind. rewrite bridge_call_open. cbn [Worker.router].
  unfold mbind, wm_bind, with_storage, reading. rewrite Ea. by destruct (get_sync_metadata (app_chain a)).
Qed.

Lemma bridge_batch w a b : wk_cell w = CellOpen a -> cds_save_events_batch (ContractDataStorage := web) b w =
  match save_events_batch (cd_events b) (app_chain a) with
  | (Ok _, d) => (Ok tt, (kick_processor (set_cell (CellOpen (set_chain d a)) w)).2)
  | (Err e, d) => (Err e, set_cell (CellOpen (set_chain d a)) w)
  end.
Proof using X answers.
  intros Ea. cbn [cds_save_events_batch bridge_storage]. unfold bridge_save_events_batch, io_map_err, expect. unfold mbind at 1, io_bind at 1. rewrite bridge_call_open. cbn [Worker.router].
  unfold mbind, wm_bind, with_storage, on_chain. rewrite Ea. by destruct (save_events_batch (cd_events b) (app_chain a)) as [[u|e] d].
Qed.

Lemma bridge_progress w a metadata fully : wk_cell w = CellOpen a -> cds_save_sync_progress (ContractDataStorage := web) metadata fully w =
  let '(r, d) := save_sync_progress metadata fully (app_chain a) in (r, set_cell (CellOpen (set_chain d a)) w).
Proof using X answers.
  intros Ea. cbn [cds_save_sync_progress bridge_storage]. unfold bridge_save_sync_progress, io_map_err, expect. unfold mbind at 1, io_bind at 1. rewrite bridge_call_open. cbn [Worker.router].
  unfold mbind, wm_bind, with_storage, on_chain. rewrite Ea. by destruct (save_sync_progress metadata fully (app_chain a)) as [[[]|e] d].
Qed.

#[local] Instance web_event_store : EventStore web :=
  {| store_ok w := is_open w /\ index_ok (worker_db w); stored w := db_stored (worker_db w); sync_state w := db_sync (worker_db w) |}.

(** The bridge keeps the promises of the database behind it. *)
#[local] Instance web_event_laws : EventStoreLaws web web_event_store.
Proof using X answers.
  split.
  - intros w [Ho I]. rewrite (bridge_sync_state w Ho). exact (es_sync (EventStoreLaws := db_event_laws) _ I).
  - intros w b [[a Ea] I]. rewrite (bridge_batch w a b Ea). unfold worker_db in I. rewrite Ea in I.
    destruct (es_batch (EventStoreLaws := db_event_laws) (app_chain a) b I) as (d & E & I' & Hs & Hst). cbn [cds_save_events_batch local_storage] in E. rewrite E.
    eexists. split; [reflexivity |]. unfold kick_processor. cbn [snd store_ok sync_state stored web_event_store] in *. unfold is_open, worker_db. rewrite Ea.
    destruct (wk_channel _); cbn; (split; [by split; [eexists |] |]); by split.
  - intros w ix cursor ledger fully [[a Ea] I] Hl. rewrite (bridge_progress w a _ fully Ea). unfold worker_db in I. rewrite Ea in I.
    destruct (es_progress (EventStoreLaws := db_event_laws) (app_chain a) ix cursor ledger fully I Hl) as (d & E & I' & Hst & Hrest). cbn [cds_save_sync_progress local_storage] in E. rewrite E.
    eexists. split; [reflexivity |]. cbn [store_ok sync_state stored web_event_store] in *. unfold is_open, worker_db. rewrite Ea. cbn. split; [by split; [eexists |] |]. by split.
Qed.

(** What indexing does to the worker: its database grows, messages only come. *)
Definition indexes (w w' : Worker) : Prop :=
  is_open w -> is_open w' /\ grows (worker_db w) (worker_db w') /\ wk_processor w' = wk_processor w /\ more_messages (wk_channel w) (wk_channel w').

#[export] Instance indexes_preorder : PreOrder indexes.
Proof.
  split; [intros w Ho; split; [done |]; split; [apply grows_refl | by split] |]. intros w1 w2 w3 H1 H2 Ho. destruct (H1 Ho) as (O2 & G1 & P1 & M1).
  destruct (H2 O2) as (O3 & G2 & P2 & M2). split; [done |]. split; [by eapply grows_trans |]. split; [congruence | by etrans].
Qed.

Lemma catch_up_indexes {Net} {node : RpcNode Net} ix fuel (w : Net * Worker) r w' : catch_up (H0 := web) fuel ix w = Some (r, w') -> indexes w.2 w'.2.
Proof using X answers.
  apply (relates_catch_up indexes).
  - intros b v [a Ea]. rewrite (bridge_batch v a b Ea). destruct (save_events_grows (app_chain a) (cd_events b)) as (u & d & -> & G). cbn [snd].
    pose proof (quietly_kick (set_cell (CellOpen (set_chain d a)) v)) as [_ Q2 Q3 _]. unfold kick_processor, is_open, worker_db in *. cbn [snd] in *. rewrite Ea. destruct (wk_channel _) in *; cbn in *; (split; [by eexists |]); by split.
  - intros l fully v [a Ea]. rewrite (bridge_progress v a l fully Ea). destruct (save_progress_grows (app_chain a) l fully) as (u & d & -> & G). cbn [snd].
    unfold is_open, worker_db. rewrite Ea. cbn. split; [by eexists |]. by split.
Qed.

Lemma bridge_ping_ready w : wk_init w = InitReady ->
  bridge_ping CURRENT_DISCLAIMER_TEXT_MD CURRENT_DISCLAIMER_HASH_HEX DEPLOYMENT in_time now w = (Ok tt, (kick_processor w).2).
Proof using X answers.
  intros Hi. unfold bridge_ping, expect. unfold mbind, io_bind. rewrite bridge_call_open. cbn [Worker.router]. unfold ping. by rewrite Hi.
Qed.

Lemma kicked w : wk_cell (kick_processor w).2 = wk_cell w /\ wk_processor (kick_processor w).2 = wk_processor w.
Proof using Type. unfold kick_processor. cbn [snd]. by destruct (wk_channel w). Qed.

(** The indexer over the bridge and the processor after it, from a worker with a message. *)
Lemma indexed_and_drained {Net} {node : RpcNode Net} ix log tip stands_at (PN : PagedNode node (ix_contract_ids ix) log (ix_min_pool_ledger ix) tip stands_at) w a m k net :
  wk_cell w = CellOpen a -> wk_channel w = Some (S m) -> wk_processor w <> ProcAbsent -> wk_processor w <> ProcDead ->
  ix_contract_ids ix <> [] -> resumable ix log stands_at (app_chain a) k -> storable (app_chain a) -> wallet_ok derive_user_note (app_chain a) ->
  (forall w1, catch_up (H0 := web) (S (length log - k)) ix (net, w) = Some (Ok tt, (net, w1)) -> storable (worker_db w1) /\ derive_ok derive_user_note (worker_db w1)) ->
  exists w1 fuel w2 a1 d2, catch_up (H0 := web) (S (length log - k)) ix (net, w) = Some (Ok tt, (net, w1)) /\ run_processor_loop fuel w1 = Some w2 /\
    wk_cell w1 = CellOpen a1 /\ drained (app_chain a1) a1 w2 d2 /\ storable (app_chain a1) /\ derive_ok derive_user_note (app_chain a1) /\
    synced_to (ES := web_event_store) ix log stands_at w w1 (length log) /\ Indexer.caught_up (ES := web_event_store) ix tip w1.
Proof using X answers.
  intros Ea Em Hp1 Hp2 Hids (I & Hat & Hpre & Hnc & Hk) Hs W Hd1.
  assert (worker_db w = app_chain a) as Ed by (unfold worker_db; by rewrite Ea).
  assert (synced_to (ES := web_event_store) ix log stands_at w w k) as Hsy.
  { split; [split; [by exists a |] | | | | done | done]; cbn [stored sync_state web_event_store store_ok]; unfold at_position, holds_prefix, no_clash in *; cbn [stored sync_state web_event_store]; by rewrite Ed. }
  destruct (catch_up_run (EL := web_event_laws) ix log tip stands_at w Hids (S (length log - k)) w k net Hsy ltac:(lia)) as (w1 & Hrun & Hsy1 & Hup).
  destruct (Hd1 w1 Hrun) as [Hs1 Hdo]. destruct (catch_up_indexes ix _ _ _ _ Hrun (ex_intro _ a Ea)) as ([a1 Ea1] & G & Ep & Hm). cbn [snd] in Ea1, G, Ep, Hm.
  assert (worker_db w1 = app_chain a1) as Ed1 by (unfold worker_db; by rewrite Ea1). rewrite Ed, Ed1 in *.
  pose proof (ingest_wallet derive_user_note (app_chain a) (app_chain a1) Hs G W) as W1. rewrite Em in Hm. destruct Hm as ([|m'] & Em1 & Hle); [lia |].
  destruct (processor_drains w1 a1 m' Ea1 Em1 ltac:(congruence) ltac:(congruence) (conj Hs1 Hdo) W1) as (fuel & w2 & d2 & Hr & D).
  exists w1, fuel, w2, a1, d2. split; [exact Hrun |]. split; [exact Hr |]. split; [exact Ea1 |]. split; [exact D |]. split; [exact Hs1 |]. by split.
Qed.

End Bridge.

End Requests.

(** ** Theorems *)

(** C16. No wake-up is lost: in every run of the storage worker, whatever requests arrive, also
    while it initialises or between two batches, and whatever they and the batches answer, a
    processor that rests without a message after a run without an error has left nothing to
    process.  Every event of the database that has a contract is parsed, no commitment waits
    to be scanned for any account with keys and no nullifier waits to be matched; so with
    events that can be stored the wallet is exact.  The database has the types, keys and
    references of its schema. *)
Theorem processor_rests_when_done {C : Crypto} {X : XdrLib} {SM : SqliteMax} {J : JsonValues} {M : MpscChannel}
    (CL : CryptoLaws C) (XT : XdrTyped X) (ML : MpscChannelLaws M) (text hash : string) (deployment : option ContractConfig) (w : Worker) (a : AppDb) :
  rtc (worker_step text hash deployment) worker_main w -> wk_cell w = CellOpen a -> wk_processor w = ProcResting None -> wk_channel w = Some 0%nat ->
  let d := app_chain a in
  schema_ok d /\
  (forall r, r ∈ raw_contract_events d -> is_processed d (raw_id r) = true) /\
  (forall pool account, is_account d account -> pending_commitments d pool (mark d pool account) = []) /\
  (forall pool, pending_nullifiers d pool (nullifier_mark d pool) = []) /\
  (scannable derive_user_note d -> wallet_ok derive_user_note d -> wallet_exact derive_user_note d).
Proof.
  intros Hrun Ea Hp Hc d. apply (worker_reachable_ok (CL := CL) (XT := XT) (ML := ML)) in Hrun. unfold worker_ok in Hrun. rewrite Ea in Hrun.
  destruct Hrun as (Hr & _ & Hdone). destruct (Hdone Hp Hc) as [Hu [Hs Hn]]. pose proof (reachable_schema _ Hr) as Hschema. fold d in Hu, Hs, Hn, Hschema.
  split; [exact Hschema |]. split; [| split; [| split]].
  - intros r Hr'. destruct (is_processed d (raw_id r)) eqn:E; [done |]. pose proof (unprocessed_all d r Hschema Hr' E) as H. rewrite Hu in H. by apply not_elem_of_nil in H.
  - intros pool account Ha. exact (nil_length_inv _ (Hs pool account Ha)).
  - intros pool. exact (nil_length_inv _ (Hn pool)).
  - intros Hsc W. apply ended_exact; [done | done | unfold events_left; by rewrite Hu | by split].
Qed.

(** C15. The web client synchronises: once its worker is initialised, its processor lives and it answers in time, a
    ping, the indexer run through the bridge over a node that serves the contracts' log in
    pages, and the processor left alone end, under three conditions on the data, without which the processor
    can stop at an error or never rest: the wallet of the database is consistent ([wallet_ok]); before and after the log is
    fetched, the stored events can have their rows ([storable]: each parses, from a known contract, and no
    commitment, nullifier or leaf index repeats); and with the log fetched, no attempt of an account to open a published
    output ends in an error and no two commitments give the same nullifier ([derive_ok]).  The indexer stores the whole log through the
    bridge as it would in a local database, loses nothing stored before and records every
    contract as fully indexed up to the tip; the processor takes every message and comes to
    rest without an error, and then the wallet is exact. *)
Theorem web_client_syncs {Net : Type} (node : RpcNode Net) (C : Crypto) (X : XdrLib) (SM : SqliteMax) (J : JsonValues) (M : MpscChannel)
    (ML : MpscChannelLaws M) (text hash : string) (deployment : option ContractConfig) (in_time : Worker -> StorageWorkerRequest -> bool) (now : Z)
    (ix : Indexer) (log : list RpcEvent) (tip : Z) (stands_at : string -> nat -> Prop) (PN : PagedNode node (ix_contract_ids ix) log (ix_min_pool_ledger ix) tip stands_at)
    (w : Worker) (a : AppDb) (n k : nat) (net : Net) :
  let web := bridge_storage text hash deployment in_time now in
  let w0 := (bridge_ping text hash deployment in_time now w).2 in
  (forall w req, in_time w req = true) ->
  wk_init w = InitReady -> wk_cell w = CellOpen a -> wk_channel w = Some n -> wk_processor w <> ProcAbsent -> wk_processor w <> ProcDead ->
  ix_contract_ids ix <> [] -> resumable ix log stands_at (app_chain a) k -> storable (app_chain a) -> wallet_ok derive_user_note (app_chain a) ->
  (forall w1, catch_up (H0 := web) (S (length log - k)) ix (net, w0) = Some (Ok tt, (net, w1)) -> storable (worker_db w1) /\ derive_ok derive_user_note (worker_db w1)) ->
  (bridge_ping text hash deployment in_time now w).1 = Ok tt /\
  exists w1 fuel w2, catch_up (H0 := web) (S (length log - k)) ix (net, w0) = Some (Ok tt, (net, w1)) /\ run_processor_loop fuel w1 = Some w2 /\
    (forall e, e ∈ log -> db_stored (worker_db w2) (ev_id e) = Some (ev_ledger e, ev_contract_id e, String.concat "," (ev_topic e), ev_value e)) /\
    (forall id f, db_stored (app_chain a) id = Some f -> db_stored (worker_db w2) id = Some f) /\
    (exists l, cds_get_sync_state (ContractDataStorage := web) w2 = Ok l /\ active_sync (ix_contract_ids ix) l <> [] /\
       Forall (fun m => sm_last_indexed_ledger m = tip /\ sm_last_fully_indexed_ledger m = tip) (active_sync (ix_contract_ids ix) l)) /\
    wk_processor w2 = ProcResting None /\ wk_channel w2 = Some 0%nat /\ wallet_exact derive_user_note (worker_db w2).
Proof.
  intros web w0 answers Hi Ea En Hp1 Hp2 Hids Hres Hs W Hd1. unfold w0 in *. clear w0. rewrite (bridge_ping_ready text hash deployment in_time now answers w Hi) in *. cbn [fst snd] in *.
  split; [done |]. destruct (kick_pending w n En) as [m Em]. destruct (kicked w) as [Ec Ep]. rewrite Ea in Ec.
  destruct (indexed_and_drained text hash deployment in_time now answers ix log tip stands_at PN (kick_processor w).2 a m k net Ec Em ltac:(by rewrite Ep) ltac:(by rewrite Ep) Hids Hres Hs W Hd1)
    as (w1 & fuel & w2 & a1 & d2 & Hrun & Hr & Ea1 & [D1 D2 D3 D4 D5 [D6 D7]] & Hs1 & Hdo & Hsy & Hne & c & Hup).
  pose proof (sy_kept _ _ _ _ _ _ Hsy) as Hkept. pose proof (sy_prefix _ _ _ _ _ _ Hsy) as Hall. pose proof (sy_ok _ _ _ _ _ _ Hsy) as [_ I1].
  unfold holds_prefix in Hall. rewrite firstn_all in Hall. cbn [stored sync_state web_event_store] in *.
  assert (worker_db w1 = app_chain a1) as Ed1 by (unfold worker_db; by rewrite Ea1). assert (worker_db w2 = d2) as Ed2 by (unfold worker_db; by rewrite D1).
  assert (worker_db (kick_processor w).2 = app_chain a) as Ed0 by (unfold worker_db; by rewrite Ec). rewrite Ed0, Ed1 in *.
  exists w1, fuel, w2. rewrite Ed2. split; [exact Hrun |]. split; [exact Hr |]. split; [intros e He; rewrite (stored_ingested _ _ _ D4); exact (Hall e He) |].
  split; [intros id f Hf; rewrite (stored_ingested _ _ _ D4); by apply Hkept |]. split; [| split; [exact D3 |]; split; [exact D2 |]].
  - exists (db_sync (app_chain a1)). split; [| split; [exact Hne |]].
    + unfold web. rewrite (bridge_sync_state _ _ _ _ _ answers w2) by (by eexists). rewrite Ed2, (metadata_ingested _ _ D4). exact (proj1 (db_sync_read _ I1)).
    + eapply Forall_impl; [exact Hup |]. cbn. intros x (_ & H1 & H2). split; [exact H1 | by apply H2].
  - apply ended_exact; [by apply (scannable_ingested derive_user_note (app_chain a1)) | exact D5 | exact D6 | exact D7].
Qed.

(** ** The bridge as a storage of the pool object *)


Section SameStorage.

Context {C : Crypto} {X : XdrLib} {SM : SqliteMax} {J : JsonValues} {M : MpscChannel}.
Variables (text hash : string) (deployment : option ContractConfig) (in_time : Worker -> StorageWorkerRequest -> bool) (now : Z).
Hypothesis answers : forall w req, in_time w req = true.




End SameStorage.


(** ** A worker

    Settings kept as texts, a channel that holds two messages, and a worker that stores and
    processes an event of the registry, then one that follows the pool of [sync_log]. *)
Definition demo_json : JsonValues := {| JsonValue := string; json_value := {| json_to_string s := Some s; json_from_str s := Some s |}; value_to_string s := s |}.
Definition demo_channel : MpscChannel := {| mpsc_capacity := S |}.

Lemma demo_channel_laws : MpscChannelLaws demo_channel.
Proof. by split. Qed.

Definition app_of (d : Db) : AppDb := {| app_chain := d; app_settings := ∅; disclaimer_acceptances := []; app_user_operations := [] |}.

Local Abbreviation demo_worker now req := (StorageWorker (H := ref_crypto) (SM := first_max_sqlite) (J := demo_json) (M := demo_channel) "text" "hash" None now req).

Definition demo_event : ContractEvent := {| ce_id := "e1"; ce_ledger := 10; ce_contract_id := "pool"; ce_topics := ["name"; "topic"]; ce_value := "data" |}.
Definition demo_batch : ContractsEventData := {| cd_events := [demo_event]; cd_cursor := "c"; cd_latest_ledger := 11 |}.

(** Asked before it is ready, the worker refuses; then it opens, stores and processes. *)
Definition worker_stored : Worker :=
  (demo_worker 0 (ReqSaveEvents demo_batch) (worker_init (Ok tt) (Ok (app_of empty_db)) (demo_worker 0 ReqSyncState worker_main).2)).2.

Definition worker_rests : Worker := default worker_stored (run_processor_loop (H := ref_crypto) (X := ref_xdr) 5 worker_stored).

Lemma processor_rests_when_done_witness :
  exists a, wk_cell worker_rests = CellOpen a /\ length (pool_commitments (app_chain a)) = 1%nat /\ is_processed (app_chain a) "e1" = true.
Proof.
  assert (rtc (worker_step (C := ref_crypto) (X := ref_xdr) (SM := first_max_sqlite) (J := demo_json) (M := demo_channel) "text" "hash" None) worker_main worker_rests) as Hrun.
  { eapply rtc_l; [exact (worker_step_request "text" "hash" None worker_main 0 ReqSyncState I) |].
    eapply rtc_l; [apply (worker_step_init "text" "hash" None _ (Ok tt) (Ok (app_of empty_db))); [reflexivity | reflexivity | intros a [= <-]; apply rtc_refl] |].
    eapply rtc_l; [apply (worker_step_request "text" "hash" None _ 0 (ReqSaveEvents demo_batch)); repeat constructor; vm_compute; congruence |].
    eapply rtc_l; [apply worker_step_wake; vm_compute; reflexivity |].
    eapply rtc_l; [apply worker_step_batch; vm_compute; reflexivity |].
    eapply rtc_l; [apply worker_step_batch; vm_compute; reflexivity |].
    match goal with |- rtc _ ?x ?y => assert (x = y) as ->; [vm_compute; reflexivity | apply rtc_refl] end. }
  destruct (wk_cell worker_rests) as [|a|] eqn:Ea; [vm_compute in Ea; discriminate Ea | | vm_compute in Ea; discriminate Ea].
  destruct (processor_rests_when_done ref_crypto_laws ref_xdr_typed demo_channel_laws "text" "hash" None worker_rests a Hrun Ea ltac:(vm_compute; reflexivity) ltac:(vm_compute; reflexivity))
    as (_ & H & _).
  exists a. split; [reflexivity |]. assert (a = match wk_cell worker_rests with CellOpen a => a | _ => a end) as E by by rewrite Ea.
  assert (raw_contract_events (app_chain a) = [{| raw_id := "e1"; raw_ledger := 10; raw_contract := 1; raw_topics := "name,topic"; raw_value := "data" |}]) as Er by (rewrite E; vm_compute; reflexivity).
  split; [rewrite E; vm_compute; reflexivity |]. refine (H {| raw_id := "e1"; raw_ledger := 10; raw_contract := 1; raw_topics := "name,topic"; raw_value := "data" |} _).
  rewrite Er. apply list_elem_of_here.
Defined.

Definition pool_worker : Worker :=
  {| wk_cell := CellOpen (app_of sync_start); wk_init := InitReady; wk_channel := Some 0%nat; wk_processor := ProcSpawned; wk_draws := 0 |}.

Local Abbreviation pool_web := (bridge_storage (H := ref_crypto) (SM := first_max_sqlite) (J := demo_json) (M := demo_channel) "text" "hash" None (fun _ _ => true) 0).

Lemma pool_worker_indexed :
  exists w1, catch_up (H := log_node sync_log 20) (H0 := pool_web) 3 sync_indexer (tt, set_channel (Some 1%nat) pool_worker) = Some (Ok tt, (tt, w1)) /\ worker_db w1 = sync_ingested.
Proof. eexists. split; [vm_compute; reflexivity | vm_compute; reflexivity]. Qed.

Lemma web_client_syncs_witness :
  exists w1 fuel w2, catch_up (H := log_node sync_log 20) (H0 := pool_web) 3 sync_indexer (tt, set_channel (Some 1%nat) pool_worker) = Some (Ok tt, (tt, w1)) /\
    run_processor_loop (H := ref_crypto) (X := sync_xdr) fuel w1 = Some w2 /\ wk_processor w2 = ProcResting None /\
    db_stored (worker_db w2) "1" = Some (10, "pool", "c,c0", "out") /\ wallet_exact (X := sync_xdr) (derive_user_note (H := ref_crypto)) (worker_db w2).
Proof.
  destruct (web_client_syncs (log_node sync_log 20) ref_crypto sync_xdr first_max_sqlite demo_json demo_channel demo_channel_laws "text" "hash" None (fun _ _ => true) 0
    sync_indexer sync_log 20 cursor_stands
    ltac:(apply log_node_paged; [apply (bool_decide_eq_true_1 _); reflexivity | repeat constructor | reflexivity | cbn; lia]) pool_worker (app_of sync_start) 0 0 tt
    ltac:(reflexivity) ltac:(reflexivity) ltac:(reflexivity) ltac:(reflexivity) ltac:(discriminate) ltac:(discriminate) ltac:(discriminate)
    ltac:(apply resumable_new; [split; [constructor | constructor | intros r Hr; inversion Hr | intros r Hr; inversion Hr] | reflexivity | reflexivity])
    ltac:(by apply empty_storable) ltac:(apply empty_wallet; reflexivity)) as (_ & w1 & fuel & w2 & H1 & H2 & H3 & _ & _ & H4 & _ & H5).
  - intros w1 Hrun. destruct pool_worker_indexed as (w1' & Hrun' & E). change (S (length sync_log - 0)) with 3%nat in Hrun.
    pose proof (eq_trans (eq_sym Hrun) Hrun') as [= ->]. rewrite E.
    split; [exact (storable_same_events sync_db _ sync_storable sync_ingested_grows eq_refl) | exact (derive_ok_same_events _ sync_db _ sync_storable sync_ingested_grows eq_refl sync_derive_ok)].
  - exists w1, fuel, w2. split; [exact H1 |]. split; [exact H2 |]. split; [exact H4 |]. split; [exact (H3 _ (list_elem_of_here _ _)) | exact H5].
Defined.


