(* ===== verification/WebClient.v ===== *)
(** * The web client

    The browser side of a payment: the proving worker and its bridge
    ([app/crates/platforms/web/src/workers/prover.rs]), the signer that asks the user's wallet
    ([signer.rs]) and the pool session of the page ([client/transact.rs], [client/disclosure.rs],
    the parsers of [client/mod.rs]), which runs a plan with its own loop and reports progress. *)

From Stdlib Require Import Ascii.
From stdpp Require Import strings.
From S2P Require Import Prelude Ints Amounts Poseidon2Tables Hashes ProverMonad Encryption Notes Flows PrefixTree ScVals Events Storage Queries Scan Rpc Envelope StateFetch Indexer R1cs Prover Disclosure Combination Plan PoolClient PoolExec PoolLocal CombinationFacts SessionFacts PoolExecFacts PoolExecTheorems.

(** ** The proving worker *)

(** The witness calculator of [sdk/witness], which runs the circuit's program. *)
Class WitnessLib : Type := {
  WitnessCalculator : Type;
  calculator_new : bytes -> bytes -> option WitnessCalculator;
  calculator_run : WitnessCalculator -> CircuitInputs -> option bytes;
}.

(** The digest the build expects of an artifact. *)
Record Expected : Type := { ex_len : nat; ex_sha256 : bytes }.

(** The embedded proving keys and the digests of the six artifacts. *)
Class WebArtifacts : Type := {
  PROVING_KEY : bytes;
  DISCLOSURE_PROVING_KEY : bytes;
  expected_policy_key : Expected;
  expected_policy_wasm : Expected;
  expected_policy_r1cs : Expected;
  expected_disclosure_key : Expected;
  expected_disclosure_wasm : Expected;
  expected_disclosure_r1cs : Expected;
}.

Inductive ProverWorkerError : Type :=
| FetchFailed (path : string)
| LengthMismatch (name : string)
| Sha256Mismatch (name : string)
| WitnessInit (what : string)
| ProverInit (what : string) (e : ProofError)
| ProverNotInitialized (what : string)
| TransactFailed (e : EngineError)
| DisclosureFailed (e : DisclosureError)
| CircuitFailed (e : ProverError)
| WitnessRun
| NoClock.

Inductive ProverWorkerRequest : Type :=
| PReqPing
| PReqTransact (params : TransactParams)
| PReqDisclosure (req : DisclosureProveParams)
| PReqVerifyDisclosureProof (receipt : DisclosureReceipt) (expected_vk_hash : list ascii).

Inductive ProverWorkerResponse : Type :=
| PRespPong
| PRespError (e : ProverWorkerError)
| PRespTransactPrepared (prepared : PreparedProverTx)
| PRespDisclosure (receipt : DisclosureReceipt)
| PRespDisclosureProofVerified (verified : bool).

Section ProverWorker.

Context `{Crypto} {HC : HexCodec} {HV : HexVec} {X : XdrLib} {AG : ArkGroth16} {WL : WitnessLib} {WA : WebArtifacts}.
Variables (usize_bits : Z) (keccak256_lib : bytes -> bytes).

(** [ProverEngine]. *)
Record ProverEngine : Type := { eng_witness : WitnessCalculator; eng_prover : Prover }.

Definition ProverEngine_new (proving_key circuit_wasm r1cs : bytes) : result ProverWorkerError ProverEngine :=
  witness ← ok_or (calculator_new circuit_wasm r1cs) (WitnessInit "transact");
  prover ← map_err (ProverInit "transact") (Prover_new usize_bits proving_key r1cs);
  Ok {| eng_witness := witness; eng_prover := prover |}.

(** The three cells of the worker and the draws it made. *)
Record ProverWorkerState : Type := {
  pw_transact : option ProverEngine;
  pw_disclosure_calc : option WitnessCalculator;
  pw_disclosure_prover : option Prover;
  pw_draws : nat;
}.

Definition prover_worker_main : ProverWorkerState := {| pw_transact := None; pw_disclosure_calc := None; pw_disclosure_prover := None; pw_draws := 0 |}.

Definition prover_ready (w : ProverWorkerState) : bool :=
  bool_decide (is_Some (pw_transact w)) && bool_decide (is_Some (pw_disclosure_calc w)) && bool_decide (is_Some (pw_disclosure_prover w)).

Definition ensure_sha256_matches (name : string) (b : bytes) (e : Expected) : result ProverWorkerError unit :=
  if negb (length b =? ex_len e)%nat then Err (LengthMismatch name)
  else if negb (bool_decide (sha256 b = ex_sha256 e)) then Err (Sha256Mismatch name)
  else Ok tt.

(** [load_circuit_artifacts]; [fetch] is the application's server.  The cells are filled when
    everything succeeded. *)
Definition load_circuit_artifacts (fetch : string -> option bytes) (w : ProverWorkerState) : result ProverWorkerError unit * ProverWorkerState :=
  if prover_ready w then (Ok tt, w)
  else
    let fetched path := ok_or (fetch path) (FetchFailed path) in
    let loaded :=
      wasm_bytes ← fetched "circuits/policy_tx_2_2.wasm";
      r1cs_bytes ← fetched "circuits/policy_tx_2_2.r1cs";
      disc_wasm_bytes ← fetched "circuits/selectiveDisclosure_1.wasm";
      disc_r1cs_bytes ← fetched "circuits/selectiveDisclosure_1.r1cs";
      ensure_sha256_matches "policy_tx_2_2_proving_key.bin" PROVING_KEY expected_policy_key;;
      ensure_sha256_matches "policy_tx_2_2.wasm" wasm_bytes expected_policy_wasm;;
      ensure_sha256_matches "policy_tx_2_2.r1cs" r1cs_bytes expected_policy_r1cs;;
      ensure_sha256_matches "selectiveDisclosure_1_proving_key.bin" DISCLOSURE_PROVING_KEY expected_disclosure_key;;
      ensure_sha256_matches "selectiveDisclosure_1.wasm" disc_wasm_bytes expected_disclosure_wasm;;
      ensure_sha256_matches "selectiveDisclosure_1.r1cs" disc_r1cs_bytes expected_disclosure_r1cs;;
      transact_prover ← ProverEngine_new PROVING_KEY wasm_bytes r1cs_bytes;
      calc ← ok_or (calculator_new disc_wasm_bytes disc_r1cs_bytes) (WitnessInit "disclosure");
      prover ← map_err (ProverInit "disclosure") (Prover_new usize_bits DISCLOSURE_PROVING_KEY disc_r1cs_bytes);
      Ok (transact_prover, calc, prover) in
    match loaded with
    | Err e => (Err e, w)
    | Ok (transact_prover, calc, prover) =>
        (Ok tt, {| pw_transact := Some transact_prover; pw_disclosure_calc := Some calc; pw_disclosure_prover := Some prover; pw_draws := pw_draws w |})
    end.

Definition pw_spend (n : nat) (w : ProverWorkerState) : ProverWorkerState :=
  {| pw_transact := pw_transact w; pw_disclosure_calc := pw_disclosure_calc w; pw_disclosure_prover := pw_disclosure_prover w; pw_draws := n |}.

(** The receipt of a proved disclosure; [issued_at] is the browser's clock. *)
Definition disclosure_receipt (req : DisclosureProveParams) (ext_context_hash : Field) (proof_compressed : bytes) (vk_hash : list ascii) (issued_at : list ascii)
    : DisclosureReceipt := {|
  dr_version := DISCLOSURE_RECEIPT_VERSION;
  dr_circuit := {| dm_name := SELECTIVE_DISCLOSURE_1_CIRCUIT; dm_levels := SELECTIVE_DISCLOSURE_1_LEVELS; dm_n_notes := SELECTIVE_DISCLOSURE_1_N_NOTES; dm_vk_hash := vk_hash |};
  dr_context := dpp_context req;
  dr_public_inputs := {| dp_roots := [di_root (dpp_inputs req)]; dp_note_commitments := [di_note_commitment (dpp_inputs req)]; dp_ext_context_hash := ext_context_hash |};
  dr_proof_compressed_hex := "0"%char :: "x"%char :: hex_encode proof_compressed;
  dr_issued_at := issued_at |}.

Definition disclosure_params (inputs : DisclosureInputs) (ext_context_hash : Field) : SelectiveDisclosure1Params := {|
  sd_root := di_root inputs; sd_note_commitment := di_note_commitment inputs; sd_note_amount := di_note_amount inputs; sd_note_private_key := di_note_private_key inputs;
  sd_note_blinding := di_note_blinding inputs; sd_merkle_path_indices := di_merkle_path_indices inputs; sd_merkle_path_elements := di_merkle_path_elements inputs;
  sd_ext_context_hash := ext_context_hash |}.

(** The disclosure request after the circuit's inputs are there; [rng] is the state of the
    generator. *)
Definition prove_disclosure_with (issued_at : option (list ascii)) (req : DisclosureProveParams) (ext_context_hash : Field) (artifacts : DisclosureArtifacts)
    (rng : nat) (w : ProverWorkerState) : result ProverWorkerError DisclosureReceipt :=
  calc ← ok_or (pw_disclosure_calc w) (ProverNotInitialized "disclosure witness calculator");
  witness_bytes ← ok_or (calculator_run calc (da_circuit_inputs artifacts)) WitnessRun;
  prover ← ok_or (pw_disclosure_prover w) (ProverNotInitialized "disclosure prover");
  proved ← map_err DisclosureFailed (prove_receipt_proof_with_prover usize_bits prover witness_bytes rng);
  vk_bytes ← map_err (fun e => DisclosureFailed (DE_Proof e)) (get_verifying_key prover);
  issued_at ← ok_or issued_at NoClock;
  Ok (disclosure_receipt req ext_context_hash (prp_proof_compressed proved) (vk_hash_hex vk_bytes) issued_at).

(** [router]: the answer, [None] while a ping waits or after a panic. *)
Definition prover_router (issued_at : option (list ascii)) (req : ProverWorkerRequest) (w : ProverWorkerState)
    : option (result ProverWorkerError ProverWorkerResponse) * ProverWorkerState :=
  match req with
  | PReqPing => (if prover_ready w then Some (Ok PRespPong) else None, w)
  | PReqTransact params =>
      match pw_transact w with
      | None => (Some (Err (ProverNotInitialized "transact prover")), w)
      | Some engine =>
          match engine_prove_transact usize_bits keccak256_lib (calculator_run (eng_witness engine)) (eng_prover engine) params (pw_draws w) with
          | None => (None, w)
          | Some (r, n) => (Some (prepared ← map_err TransactFailed r; Ok (PRespTransactPrepared prepared)), pw_spend n w)
          end
      end
  | PReqDisclosure req =>
      match derive_ext_context_hash (dpp_context req) with
      | Err e => (Some (Err (DisclosureFailed e)), w)
      | Ok ext_context_hash =>
          match selective_disclosure_1 (disclosure_params (dpp_inputs req) ext_context_hash) (pw_draws w) with
          | None => (None, w)
          | Some (Err e, n) => (Some (Err (CircuitFailed e)), pw_spend n w)
          | Some (Ok artifacts, n) => (Some (receipt ← prove_disclosure_with issued_at req ext_context_hash artifacts n w; Ok (PRespDisclosure receipt)), pw_spend (S n) w)
          end
      end
  | PReqVerifyDisclosureProof receipt expected_vk_hash =>
      (Some (
         _ ← map_err DisclosureFailed (validate_registered_receipt receipt expected_vk_hash);
         prover ← ok_or (pw_disclosure_prover w) (ProverNotInitialized "disclosure prover");
         vk_bytes ← map_err (fun e => DisclosureFailed (DE_Proof e)) (get_verifying_key prover);
         verified ← map_err DisclosureFailed (verify_receipt_proof receipt vk_bytes expected_vk_hash);
         Ok (PRespDisclosureProofVerified verified)), w)
  end.

Definition ProverWorker (issued_at : option (list ascii)) (req : ProverWorkerRequest) (w : ProverWorkerState) : option ProverWorkerResponse * ProverWorkerState :=
  match prover_router issued_at req w with
  | (Some (Ok response), w') => (Some response, w')
  | (Some (Err e), w') => (Some (PRespError e), w')
  | (None, w') => (None, w')
  end.

(** *** The bridge *)

Variable prover_in_time : ProverWorkerState -> ProverWorkerRequest -> bool.
Variable clock : option (list ascii).

(** [ProverBridge::call], to a [PoolError]. *)
Definition prover_call {A} (expect : ProverWorkerResponse -> option A) (req : ProverWorkerRequest) : IO ProverWorkerState PoolClientError A := fun w =>
  let '(answer, w') := ProverWorker clock req w in
  (match answer with
   | Some response => if prover_in_time w req then ok_or (expect response) (ClientOther "prover worker") else Err (ClientOther "operation timed out")
   | None => Err (ClientOther "operation timed out")
   end, w').

Definition prover_ping : IO ProverWorkerState PoolClientError unit := prover_call (fun r => match r with PRespPong => Some tt | _ => None end) PReqPing.

Definition bridge_prove_transact (params : TransactParams) : IO ProverWorkerState PoolClientError PreparedProverTx :=
  prover_call (fun r => match r with PRespTransactPrepared prepared => Some prepared | _ => None end) (PReqTransact params).

Definition bridge_prove_disclosure (req : DisclosureProveParams) : IO ProverWorkerState PoolClientError DisclosureReceipt :=
  prover_call (fun r => match r with PRespDisclosure receipt => Some receipt | _ => None end) (PReqDisclosure req).

Definition bridge_verify_disclosure_proof (receipt : DisclosureReceipt) (expected_vk_hash : list ascii) : IO ProverWorkerState PoolClientError bool :=
  prover_call (fun r => match r with PRespDisclosureProofVerified v => Some v | _ => None end) (PReqVerifyDisclosureProof receipt expected_vk_hash).

End ProverWorker.

(** ** The wallet

    [signer.rs]: the page asks the user's wallet to sign, entry by entry and then the
    transaction. *)

(** The wallet's two methods, with the address and the network they are given, and the base64
    codec. *)
Class WalletBridge (W : Type) : Type := {
  wallet_sign_auth_entry : string -> string -> string -> IO W unit string;
  wallet_sign_transaction : string -> string -> string -> IO W unit string;
  b64_encode : bytes -> string;
  b64_decode : string -> option bytes;
}.

Inductive WalletError : Type :=
| WalletFetch (e : FetchError)
| WalletRejected (method : string)
| BadSignature
| InvalidEnvelope.

Section Wallet.

Context {W : Type} `{WalletBridge W} `{Crypto} `{XdrLib} `{LedgerXdr} `{EnvelopeXdr} `{Ed25519}.

(** [Signature::from_base64]. *)
Definition signature_from_base64 (s : string) : result WalletError bytes :=
  b ← ok_or (b64_decode s) BadSignature;
  if bool_decide (length b = 64%nat) then Ok b else Err BadSignature.

Definition wallet_preimage_b64 (step : AuthSignStep) : result WalletError string :=
  data ← ok_or (preimage_to_xdr (as_preimage step)) (WalletFetch FetchXdr); Ok (b64_encode data).

(** The loop over the entries to sign. *)
Fixpoint wallet_sign_steps (steps : list AuthSignStep) (network_passphrase user_address : string) : IO W WalletError (list (nat * bytes)) :=
  match steps with
  | [] => mret []
  | step :: rest =>
      preimage_b64 ← io_result (wallet_preimage_b64 step);
      sig_b64 ← io_map_err (fun _ => WalletRejected "signAuthEntry") (wallet_sign_auth_entry preimage_b64 user_address network_passphrase);
      signature ← io_result (signature_from_base64 sig_b64);
      others ← wallet_sign_steps rest network_passphrase user_address;
      mret ((as_entry_index step, signature) :: others)
  end.

Definition wallet_sign_prepared_transaction (prepared : PreparedSorobanTx) (network_passphrase user_address : string) : IO W WalletError TransactionEnvelope :=
  steps ← io_result (map_err WalletFetch (auth_sign_steps prepared network_passphrase user_address));
  auth_signatures ← wallet_sign_steps steps network_passphrase user_address;
  tx_b64 ← io_result (map_err WalletFetch (unsigned_tx_for_signing prepared user_address auth_signatures));
  signed_b64 ← io_map_err (fun _ => WalletRejected "signTransaction") (wallet_sign_transaction tx_b64 user_address network_passphrase);
  io_result (ok_or (envelope_from_xdr signed_b64) InvalidEnvelope).

(** [WalletSigner]. *)
Definition wallet_sign (network_passphrase user_address : string) (prepared : PreparedProverTx) : IO W PoolClientError string :=
  envelope ← io_map_err (fun _ => ClientOther "wallet") (wallet_sign_prepared_transaction (pp_soroban_tx prepared) network_passphrase user_address);
  io_result (ok_or (envelope_to_xdr envelope) (ClientOther "encode signed transaction xdr")).

End Wallet.

(** ** Values of the page *)

(** A [JsValue] as the parsers tell them apart; a [BigInt] is an integer. *)
Inductive JsValue : Type :=
| JsString (s : list ascii)
| JsBigInt (z : Z)
| JsNull
| JsUndefined
| JsOther.

Inductive JsError : Type :=
| JsBad (what : string)
| JsAmount (e : AmountError)
| JsPool (e : PoolClientError).

(** [BigInt.toString(10)] and [BigInt.toString(16)]: as many digits as the number has. *)
Definition js_decimal (z : Z) : list ascii :=
  let show n := digits (S (Z.to_nat (Z.log2 n))) n [] in
  if z <? 0 then "-"%char :: show (- z) else show z.

Definition hex_char (d : Z) : ascii := if d <? 10 then digit_char d else ascii_of_nat (87 + Z.to_nat d).

Fixpoint hex_digits (fuel : nat) (n : Z) (acc : list ascii) : list ascii :=
  match fuel with
  | O => acc
  | S fuel => let acc := hex_char (n mod 16) :: acc in if n / 16 =? 0 then acc else hex_digits fuel (n / 16) acc
  end.

Definition js_hex (z : Z) : list ascii :=
  let show n := hex_digits (S (Z.to_nat (Z.log2 n))) n [] in
  if z <? 0 then "-"%char :: show (- z) else show z.

Definition parse_ext_amount_decimal (b : Z) : result JsError ExtAmount := map_err JsAmount (ExtAmount_from_str (js_decimal b)).
Definition parse_note_amount_decimal (b : Z) : result JsError NoteAmount := map_err JsAmount (NoteAmount_from_str (js_decimal b)).

Section Parse.

Context {HC : HexCodec}.

Definition parse_field_bigint_numeric (b : Z) : result JsError Field :=
  let hex := js_hex b in
  if bool_decide (head hex = Some "-"%char) then Err (JsBad "field BigInt must be non-negative")
  else if (64 <? length hex)%nat then Err (JsBad "field BigInt does not fit into 256 bits")
  else map_err JsAmount (Field_from_0x_hex_be ("0"%char :: "x"%char :: replicate (64 - length hex) "0"%char ++ hex)).

Definition parse_field_hex_str (s : list ascii) : result JsError Field := map_err JsAmount (Field_from_str s).

Fixpoint parse_note_ids (ids : list JsValue) : result JsError (list Field) :=
  match ids with
  | [] => Ok []
  | JsString s :: rest => f ← parse_field_hex_str s; others ← parse_note_ids rest; Ok (f :: others)
  | _ :: _ => Err (JsBad "input_note_ids must be string[]")
  end.

Definition parse_input_note_ids (ids : list JsValue) (min_len max_len : nat) (len_err : string) : result JsError (list Field) :=
  if (length ids <? min_len)%nat || (max_len <? length ids)%nat then Err (JsBad len_err) else parse_note_ids ids.

Definition parse_output_amount (v : JsValue) : result JsError NoteAmount :=
  match v with JsBigInt b => parse_note_amount_decimal b | _ => Err (JsBad "output_amounts must be BigInt[]") end.

Definition parse_output_amounts (amounts : list JsValue) : result JsError (NoteAmount * NoteAmount) :=
  match amounts with
  | [v0; v1] => a0 ← parse_output_amount v0; a1 ← parse_output_amount v1; Ok (a0, a1)
  | _ => Err (JsBad "output_amounts must have length 2")
  end.

Definition parse_output_key (what : string) (v : JsValue) : result JsError (option bytes) :=
  match v with
  | JsNull | JsUndefined => Ok None
  | JsString s => k ← map_err JsAmount (parse_0x_hex_32 s); Ok (Some k)
  | _ => Err (JsBad what)
  end.

(** Beyond the end of an array is [undefined]. *)
Definition js_get (l : list JsValue) (i : nat) : JsValue := default JsUndefined (l !! i).

Definition parse_output_recipient_keys (note_keys enc_keys : list JsValue)
    : result JsError ((option bytes * option bytes) * (option bytes * option bytes)) :=
  let note := parse_output_key "out_recipient_note_keys_hex must be (string|null)[]" in
  let enc := parse_output_key "out_recipient_enc_keys_hex must be (string|null)[]" in
  n0 ← note (js_get note_keys 0); e0 ← enc (js_get enc_keys 0);
  n1 ← note (js_get note_keys 1); e1 ← enc (js_get enc_keys 1);
  Ok ((n0, n1), (e0, e1)).

End Parse.

(** ** The pool session of the page *)

(** What [emit_progress] gives to the callback of the page; what the callback does, and whether
    it throws, changes nothing. *)
Record ProgressEvent : Type := {
  pe_flow : string;
  pe_stage : string;
  pe_message : string;
  pe_current : option Z;
  pe_total : option Z;
}.

Inductive ExecuteFailure : Type :=
| WebPlanFailed (hashes : list string) (error : PoolClientError)
| AspNotReady.

Abbreviation ExecuteOutcome := (result ExecuteFailure (list string)).

(** The message of an error. *)
Definition pool_err_message (other : PoolClientError -> string) (error : PoolClientError) : string :=
  match error with
  | MembershipSync RegisterAtASP => "register at ASP before transacting"
  | MembershipSync (SyncRequired _) => "indexer sync in progress; try again shortly"
  | _ => other error
  end.

Inductive ExecuteJsResponse : Type :=
| JsComplete (hashes : list string)
| JsFailed (hashes : list string) (message : string)
| JsAspNotReady.

Definition ExecuteJsResponse_from (other : PoolClientError -> string) (outcome : ExecuteOutcome) : ExecuteJsResponse :=
  match outcome with
  | Ok hashes => JsComplete hashes
  | Err (WebPlanFailed hashes error) => JsFailed hashes (pool_err_message other error)
  | Err AspNotReady => JsAspNotReady
  end.

Section Session.

Context {Net L : Type} `{RpcNode Net} `{XdrLib} `{LedgerXdr} `{EnvelopeXdr} `{PoolParts L} `{SortByAmount} `{Crypto} `{HexVec} {HC : HexCodec}.

Variable sleep : Net * L -> Net * L.
Variable config : PrivatePoolConfig.
(** Whether the page gave a callback. *)
Variable on_status : bool.

Local Abbreviation chain := (pp_chain config).

(** The world of the page: that of the pool object and the progress reported. *)
Local Abbreviation W := (Net * L * list ProgressEvent)%type.

Definition emit_progress (flow stage message : string) (current total : option Z) (w : W) : W :=
  if on_status then (w.1, w.2 ++ [{| pe_flow := flow; pe_stage := stage; pe_message := message; pe_current := current; pe_total := total |}]) else w.

(** An operation of the pool object. *)
Definition on_pool {A} (m : IO (Net * L) PoolClientError A) : IO W PoolClientError A := fun w => let '(r, w') := m w.1 in (r, (w', w.2)).

Definition show_number (n : Z) : string := String.string_of_list_ascii (show_u n).

(** "Proving step 1/2…" in a plan of several transactions, "Proving…" in one of a single one. *)
Definition step_message (verb : string) (current total : Z) : string :=
  if 1 <? total then (verb +:+ " step " +:+ show_number current +:+ "/" +:+ show_number total +:+ "…")%string else (verb +:+ "…")%string.

Definition sync_message (gap : option Z) : string :=
  match gap with
  | Some gap => ("Waiting to sync " +:+ show_number gap +:+ " ledger(s) from the chain…")%string
  | None => "Waiting to sync ledgers from the chain…"
  end.

(** The inner loop: prove, and while the storage is behind wait a second and try again; [None]
    when [tries] attempts do not end it. *)
Fixpoint web_prove (tries : nat) (flow : string) (current total : Z) (plan : PreparedTransactionPlan) (hashes : list string) (w : W)
    : option (result ExecuteFailure (PreparedProverTx * PreparedTransactionPlan) * W) :=
  match tries with
  | O => None
  | S tries =>
      let w := emit_progress flow "prove" (step_message "Proving" current total) (Some current) (Some total) w in
      match on_pool (prove_next config plan) w with
      | (Ok proved, w) => Some (Ok proved, w)
      | (Err (MembershipSync RegisterAtASP), w) =>
          Some (Err (if bool_decide (hashes = []) then AspNotReady else WebPlanFailed hashes (MembershipSync RegisterAtASP)), w)
      | (Err (MembershipSync (SyncRequired gap)), w) =>
          let w := emit_progress flow "sync_wait" (sync_message gap) (Some current) (Some total) w in
          web_prove tries flow current total plan hashes (sleep w.1, w.2)
      | (Err error, w) => Some (Err (WebPlanFailed hashes error), w)
      end
  end.

(** The rest of a step: simulate, sign, submit and confirm. *)
Definition web_settle (flow : string) (current total : Z) (prepared : PreparedProverTx) : IO W PoolClientError string := fun w =>
  let report stage verb w := emit_progress flow stage (step_message verb current total) (Some current) (Some total) w in
  match on_pool (pool_simulate config prepared) (report "simulate" "Simulating" w) with
  | (Err e, w) => (Err e, w)
  | (Ok prepared, w) =>
      match on_pool (on_local (part_sign prepared)) (report "sign" "Signing" w) with
      | (Err e, w) => (Err e, w)
      | (Ok signed, w) =>
          match on_pool (submit signed) (report "submit" "Submitting" w) with
          | (Err e, w) => (Err e, w)
          | (Ok hash, w) =>
              match on_pool (confirm sleep hash) w with
              | (Err e, w) => (Err e, w)
              | (Ok _, w) => (Ok hash, w)
              end
          end
      end
  end.

(** [execute_plan]: [fuel] bounds the transactions and [tries] the attempts at each proof. *)
Fixpoint execute_plan (tries fuel : nat) (flow : string) (total : Z) (plan : PreparedTransactionPlan) (hashes : list string) (w : W) : option (ExecuteOutcome * W) :=
  if plan_is_complete plan then Some (Ok hashes, w)
  else
    match fuel with
    | O => None
    | S fuel =>
        let current := Z.min (2 ^ 32 - 1) (plan_current_tx plan + 1) in
        match web_prove tries flow current total plan hashes w with
        | None => None
        | Some (Err failure, w) => Some (Err failure, w)
        | Some (Ok (prepared, plan), w) =>
            match web_settle flow current total prepared w with
            | (Err error, w) => Some (Err (WebPlanFailed hashes error), w)
            | (Ok hash, w) => execute_plan tries fuel flow total plan (hashes ++ [hash]) w
            end
        end
    end.

Definition web_execute (tries : nat) (flow : string) (plan : PreparedTransactionPlan) (w : W) : option (result JsError ExecuteOutcome * W) :=
  '(outcome, w) ← execute_plan tries (plan_fuel plan) flow (plan_tx_count plan) plan [] w; Some (Ok outcome, w).

(** A plan the pool object may refuse to make. *)
Definition web_execute_planned (tries : nat) (flow : string) (plan : result PoolClientError PreparedTransactionPlan) (w : W)
    : option (result JsError ExecuteOutcome * W) :=
  match plan with
  | Err e => Some (Err (JsPool e), w)
  | Ok plan => web_execute tries flow plan w
  end.

(** *** The flows *)

(** The arguments of a deposit: the amount, and the outputs when they are not the default. *)
Definition parse_deposit (amount : Z) (output_amounts : list JsValue) : result JsError (ExtAmount * NoteAmount * (NoteAmount * NoteAmount)) :=
  ext_amount ← parse_ext_amount_decimal amount;
  if ext_amount <=? ExtAmount_ZERO then Err (JsBad "amount must be > 0 for deposit")
  else
    note_amount ← map_err (fun _ => JsBad "deposit amount exceeds note amount range") (NoteAmount_try_from_ext ext_amount);
    out_amounts ← parse_output_amounts output_amounts;
    Ok (ext_amount, note_amount, out_amounts).

Definition deposit_inner (tries : nat) (amount : Z) (output_amounts : list JsValue) (w : W) : option (result JsError ExecuteOutcome * W) :=
  match parse_deposit amount output_amounts with
  | Err e => Some (Err e, w)
  | Ok (ext_amount, note_amount, out_amounts) =>
      if negb (bool_decide (out_amounts = (note_amount, NoteAmount_ZERO))) then
        match on_pool (on_local (storage_user_public_keys (pcc_user_address chain))) w with
        | (Err e, w) => Some (Err (JsPool e), w)
        | (Ok (note_pk, enc_pk), w) =>
            web_execute tries "deposit" (plan_from_transact {| input_commitments := []; output_amounts := out_amounts; tr_ext_amount := ext_amount;
              Plan.ext_recipient := pcc_pool_contract_id chain; out_recipient_note_pubkeys := (Some note_pk, Some note_pk);
              out_recipient_encryption_pubkeys := (Some enc_pk, Some enc_pk) |}) w
        end
      else web_execute_planned tries "deposit" (prepare_deposit note_amount) w
  end.

Definition parse_positive (amount : Z) : result JsError NoteAmount :=
  amount ← parse_note_amount_decimal amount;
  if NoteAmount_is_zero amount then Err (JsBad "amount must be > 0") else Ok amount.

Definition spend_inner (tries : nat) (amount : Z) (target : SpendTarget) (flow : string) (w : W) : option (result JsError ExecuteOutcome * W) :=
  match parse_positive amount with
  | Err e => Some (Err e, w)
  | Ok amount =>
      match on_pool (spendable_notes config) w with
      | (Err e, w) => Some (Err (JsPool e), w)
      | (Ok wallet, w) =>
          web_execute_planned tries flow
            (match target with
             | Transfer recipient_note recipient_enc =>
                 prepare_transfer chain wallet {| tr_note_public_key := recipient_note; tr_encryption_public_key := recipient_enc |} amount
             | Withdraw recipient => prepare_withdraw chain wallet amount recipient
             end) w
      end
  end.

Definition estimate_inner (amount : Z) (w : W) : result JsError Z * W :=
  match parse_positive amount with
  | Err e => (Err e, w)
  | Ok amount => let '(r, w) := on_pool (pool_estimate config amount) w in (map_err JsPool r, w)
  end.

Definition parse_transact (recipient : string) (ext_amount : Z) (input_note_ids output_amounts note_keys enc_keys : list JsValue) : result JsError Transact :=
  if negb (length note_keys =? 2)%nat then Err (JsBad "out_recipient_note_keys_hex must have length 2")
  else if negb (length enc_keys =? 2)%nat then Err (JsBad "out_recipient_enc_keys_hex must have length 2")
  else
    ext_amount ← parse_ext_amount_decimal ext_amount;
    input_commitments ← parse_input_note_ids input_note_ids 0 2 "input_note_ids must have length 0..=2";
    out_amounts ← parse_output_amounts output_amounts;
    keys ← parse_output_recipient_keys note_keys enc_keys;
    Ok {| input_commitments := input_commitments; output_amounts := out_amounts; tr_ext_amount := ext_amount; Plan.ext_recipient := recipient;
          out_recipient_note_pubkeys := keys.1; out_recipient_encryption_pubkeys := keys.2 |}.

Definition transact_inner (tries : nat) (recipient : string) (ext_amount : Z) (input_note_ids output_amounts note_keys enc_keys : list JsValue) (flow : string) (w : W)
    : option (result JsError ExecuteOutcome * W) :=
  match parse_transact recipient ext_amount input_note_ids output_amounts note_keys enc_keys with
  | Err e => Some (Err e, w)
  | Ok step => web_execute tries flow (plan_from_transact step) w
  end.

(** The exported methods parse the recipient's keys first. *)
Definition web_transfer (tries : nat) (amount : Z) (note_key_hex enc_key_hex : list ascii) (w : W) : option (result JsError ExecuteOutcome * W) :=
  match (note ← map_err JsAmount (parse_0x_hex_32 note_key_hex); enc ← map_err JsAmount (parse_0x_hex_32 enc_key_hex); Ok (Transfer note enc)) with
  | Err e => Some (Err e, w)
  | Ok target => spend_inner tries amount target "transfer" w
  end.

Definition web_withdraw (tries : nat) (recipient : string) (amount : Z) (w : W) : option (result JsError ExecuteOutcome * W) :=
  spend_inner tries amount (Withdraw recipient) "withdraw" w.

(** *** Disclosure *)

Definition disclose_inner (selected_commitment_hex authority_label authority_identity_payload_hex purpose : list ascii) (context_nonce : Z) (w : W)
    : result JsError (option DisclosureReceipt) * W :=
  let report stage message w := emit_progress "disclosure" stage message None None w in
  let w := report "fetch_chain_state" "Fetching on-chain state…" (report "sync_check" "Checking sync & ASP membership…" w) in
  let req :=
    selected_commitment ← parse_field_hex_str selected_commitment_hex;
    nonce ← parse_field_bigint_numeric context_nonce;
    Ok {| dq_selected_commitment := selected_commitment; dq_authority_label := authority_label;
          dq_authority_identity_payload_hex := authority_identity_payload_hex; dq_purpose := purpose; dq_context_nonce := nonce |} in
  match req with
  | Err e => (Err e, w)
  | Ok req =>
      let w := report "prove" "Proving…" (report "load_state" "Building witness inputs…" w) in
      let '(r, w) := on_pool (disclose sleep config req) w in (map_err JsPool r, w)
  end.

End Session.

(** ** The page and the pool object

    The page runs a plan with a loop of its own; this is how it compares with [execute] of the
    pool object. *)

Section WebPool.

Context {Net L : Type} `{RpcNode Net} `{XdrLib} `{LedgerXdr} `{EnvelopeXdr} `{PoolParts L}.
Variable sleep : Net * L -> Net * L.
Variable config : PrivatePoolConfig.

(** The transactions a plan has confirmed so far, and the plan and world they lead to. *)
Inductive confirmed : PreparedTransactionPlan -> Net * L -> list string -> PreparedTransactionPlan -> Net * L -> Prop :=
| confirmed_none plan w : confirmed plan w [] plan w
| confirmed_next plan w hash plan1 w1 hashes plan' w' :
    plan_is_complete plan = false -> execute_one sleep config plan w = (Ok (hash, plan1), w1) ->
    confirmed plan1 w1 hashes plan' w' -> confirmed plan w (hash :: hashes) plan' w'.

(** What the page makes of the error that ends a plan: an account that is not a member is told
    so only when nothing was sent yet. *)
Definition failure_of (hashes : list string) (e : PoolClientError) : ExecuteFailure :=
  match e with
  | MembershipSync RegisterAtASP => if bool_decide (hashes = []) then AspNotReady else WebPlanFailed hashes e
  | _ => WebPlanFailed hashes e
  end.

Definition is_wait (e : PoolClientError) : bool := match e with MembershipSync (SyncRequired _) => true | _ => false end.

(** The first attempt to prove the next transaction that does not answer that the storage is
    behind, with a pause after each that does; [None] when the first [n] all do. *)
Fixpoint waited (n : nat) (plan : PreparedTransactionPlan) (w : Net * L) : option (result PoolClientError (PreparedProverTx * PreparedTransactionPlan) * (Net * L)) :=
  match n with
  | O => None
  | S n =>
      match prove_next config plan w with
      | (Err (MembershipSync (SyncRequired _)), w) => waited n plan (sleep w)
      | (r, w) => Some (r, w)
      end
  end.

(** *** Errors that are not a wait *)

Definition not_waiting {W A} (m : IO W PoolClientError A) : Prop := forall w s w', m w <> (Err (MembershipSync s), w').

Lemma not_waiting_bind {W A B} (m : IO W PoolClientError A) (k : A -> IO W PoolClientError B) :
  not_waiting m -> (forall a, not_waiting (k a)) -> not_waiting (m ≫= k).
Proof.
  intros Hm Hk w s w'. unfold mbind, io_bind. destruct (m w) as [[a|e] w1] eqn:E; cbn; [apply Hk |]. intros [= -> ->]. by eapply Hm.
Qed.

Lemma not_waiting_result {W A} (r : result PoolClientError A) : (forall s, r <> Err (MembershipSync s)) -> not_waiting (W := W) (io_result r).
Proof. intros Hr w s w' [= E _]. by eapply Hr. Qed.

Lemma not_waiting_net {E A} (f : E -> PoolClientError) (m : IO Net E A) : (forall e s, f e <> MembershipSync s) -> not_waiting (on_net (L := L) f m).
Proof. intros Hf w s w'. unfold on_net. destruct (m w.1) as [[a|e] n]; cbn; [done |]. intros [= E1 _]. by eapply Hf. Qed.

Lemma not_waiting_confirm hash first tries : not_waiting (confirm_from (L := L) sleep hash first tries).
Proof.
  revert first. induction tries as [|tries IH]; intros first; cbn [confirm_from]; [done |].
  apply not_waiting_bind; [by destruct first |]. intros _. apply not_waiting_bind; [by apply not_waiting_net |].
  intros [| detail |]; [done | done |]. destruct tries; [done | apply IH].
Qed.

Lemma not_waiting_settle prepared : (forall p, not_waiting (part_sign p)) -> not_waiting (settle (L := L) sleep config prepared).
Proof.
  intros Hs. unfold settle, pool_simulate, submit. repeat (first [apply not_waiting_confirm | apply not_waiting_bind; [| intros ?]]); try (by apply not_waiting_net); try done.
  - intros w s w' E. unfold on_local in E. destruct (part_sign _ w.2) as [r l] eqn:Es. injection E as -> _. by eapply Hs.
  - apply not_waiting_result. by destruct (envelope_from_xdr _).
  - apply not_waiting_result. by destruct (envelope_to_xdr _).
Qed.

(** *** A step *)

Lemma progressed flow stage message current total (v : Net * L) log on_status :
  exists more, emit_progress on_status flow stage message current total (v, log) = (v, log ++ more).
Proof. unfold emit_progress. destruct on_status; eexists; [done |]. by rewrite app_nil_r. Qed.

Lemma confirm_from_hash hash first tries w hash' w' : confirm_from (L := L) sleep hash first tries w = (Ok hash', w') -> hash' = hash.
Proof.
  revert first w. induction tries as [|tries IH]; intros first w E; cbn [confirm_from] in E; [done |].
  apply io_bind_Ok in E as (_ & w1 & _ & E). apply io_bind_Ok in E as (status & w2 & _ & E).
  destruct status; [by injection E as <- _ | done |]. destruct tries; [done |]. by eapply IH.
Qed.

Lemma settle_web on_status flow current total prepared (v : Net * L) log : exists more,
  web_settle sleep config on_status flow current total prepared (v, log) =
  ((settle sleep config prepared v).1, ((settle sleep config prepared v).2, log ++ more)).
Proof.
  unfold web_settle, settle, on_pool, mbind, io_bind.
  destruct (progressed flow "simulate" (step_message "Simulating" current total) (Some current) (Some total) v log on_status) as [m1 ->]. cbn [fst snd].
  destruct (pool_simulate config prepared v) as [[p|e] v1]; [| by exists m1].
  destruct (progressed flow "sign" (step_message "Signing" current total) (Some current) (Some total) v1 (log ++ m1) on_status) as [m2 ->]. cbn [fst snd].
  destruct (on_local (part_sign p) v1) as [[signed|e] v2]; [| exists (m1 ++ m2); by rewrite app_assoc].
  destruct (progressed flow "submit" (step_message "Submitting" current total) (Some current) (Some total) v2 ((log ++ m1) ++ m2) on_status) as [m3 ->]. cbn [fst snd].
  exists (m1 ++ m2 ++ m3). rewrite <- !app_assoc. destruct (submit signed v2) as [[hash|e] v3]; [| done].
  cbn [fst snd]. destruct (confirm sleep hash v3) as [[hash'|e] v4] eqn:Ec; [| done]. apply confirm_from_hash in Ec as ->. done.
Qed.

(** One attempt of the page: it reports, asks the pool object, and decides what the answer means. *)
Lemma web_prove_step on_status flow current total plan hashes tries (v : Net * L) log : exists m1 m2,
  web_prove sleep config on_status (S tries) flow current total plan hashes (v, log) =
  match prove_next config plan v with
  | (Err (MembershipSync (SyncRequired gap)), v1) => web_prove sleep config on_status tries flow current total plan hashes (sleep v1, (log ++ m1) ++ m2)
  | (r, v1) => Some (map_err (failure_of hashes) r, (v1, log ++ m1))
  end.
Proof.
  cbn [web_prove]. unfold on_pool.
  destruct (progressed flow "prove" (step_message "Proving" current total) (Some current) (Some total) v log on_status) as [m1 ->]. cbn [fst snd].
  exists m1. destruct (prove_next config plan v) as [[proved|e] v1]; [by exists [] |].
  destruct e; try (by exists []). destruct status as [gap| |]; [| by exists [] | by exists []].
  destruct (progressed flow "sync_wait" (sync_message gap) (Some current) (Some total) v1 (log ++ m1) on_status) as [m2 ->]. by exists m2.
Qed.

(** The page takes the first answer that is not a wait, whenever it comes, and waits as long as
    none does. *)
Lemma prove_waits on_status flow current total plan hashes n : forall v log,
  match waited n plan v with
  | None => web_prove sleep config on_status n flow current total plan hashes (v, log) = None
  | Some (r, v') => exists more, web_prove sleep config on_status n flow current total plan hashes (v, log) = Some (map_err (failure_of hashes) r, (v', log ++ more))
  end.
Proof.
  induction n as [|n IH]; intros v log; [done |]. cbn [waited]. destruct (web_prove_step on_status flow current total plan hashes n v log) as (m1 & m2 & ->).
  destruct (prove_next config plan v) as [[proved|e] v1]; [by exists m1 |]. destruct e; try (by exists m1). destruct status as [gap| |]; [| by exists m1 | by exists m1].
  specialize (IH (sleep v1) ((log ++ m1) ++ m2)). destruct (waited n plan (sleep v1)) as [[r v']|]; [| exact IH].
  destruct IH as [m3 ->]. exists (m1 ++ m2 ++ m3). by rewrite !app_assoc.
Qed.

Lemma waited_answers n plan v gap v' : waited n plan v <> Some (Err (MembershipSync (SyncRequired gap)), v').
Proof.
  revert v. induction n as [|n IH]; intros v; [done |]. cbn [waited]. destruct (prove_next config plan v) as [[proved|e] v1]; [done |].
  destruct e; try congruence. destruct status; [apply IH | congruence | congruence].
Qed.

(** No transaction is given up because the storage is behind. *)
Lemma execute_plan_waits (Hsign : forall p, not_waiting (part_sign p)) on_status tries flow total fuel : forall plan results v log hashes gap w,
  execute_plan sleep config on_status tries fuel flow total plan results (v, log) <> Some (Err (WebPlanFailed hashes (MembershipSync (SyncRequired gap))), w).
Proof.
  induction fuel as [|fuel IH]; intros plan results v log hashes gap w; cbn [execute_plan]; destruct (plan_is_complete plan); try done.
  set (current := Z.min _ _). pose proof (prove_waits on_status flow current total plan results tries v log) as Hp. pose proof (waited_answers tries plan v) as Hw.
  destruct (waited tries plan v) as [[r v1]|]; [| by rewrite Hp]. destruct Hp as [more ->]. destruct r as [[prepared plan1]|e]; cbn [map_err].
  - destruct (settle_web on_status flow current total prepared v1 (log ++ more)) as [m2 ->]. pose proof (not_waiting_settle prepared Hsign v1) as Hs.
    destruct (settle sleep config prepared v1) as [[hash|e] v2]; cbn [fst snd]; [apply IH |]. intros [= _ -> _]. by eapply Hs.
  - unfold failure_of. destruct e; try congruence. destruct status; [intros [= _ -> _]; by eapply Hw | case_bool_decide; congruence | congruence].
Qed.

(** The round of a transaction from the first attempt on: what the page does once an attempt
    answers, and what it waits for until then. *)
Lemma round_waits on_status tries flow total fuel plan results v log : plan_is_complete plan = false ->
  match waited tries plan v with
  | None => execute_plan sleep config on_status tries (S fuel) flow total plan results (v, log) = None
  | Some (Err e, v') => exists more, execute_plan sleep config on_status tries (S fuel) flow total plan results (v, log) = Some (Err (failure_of results e), (v', log ++ more))
  | Some (Ok (prepared, plan1), v1) =>
      match settle sleep config prepared v1 with
      | (Err e, v') => exists more, execute_plan sleep config on_status tries (S fuel) flow total plan results (v, log) = Some (Err (WebPlanFailed results e), (v', log ++ more))
      | (Ok hash, v') => exists more, execute_plan sleep config on_status tries (S fuel) flow total plan results (v, log) =
          execute_plan sleep config on_status tries fuel flow total plan1 (results ++ [hash]) (v', log ++ more)
      end
  end.
Proof.
  intros Ep. cbn [execute_plan]. rewrite Ep. set (current := Z.min _ _). pose proof (prove_waits on_status flow current total plan results tries v log) as Hp.
  destruct (waited tries plan v) as [[[[prepared plan1]|e] v1]|]; [| destruct Hp as [more ->]; by exists more | by rewrite Hp]. destruct Hp as [m1 ->]. cbn [map_err].
  destruct (settle_web on_status flow current total prepared v1 (log ++ m1)) as [m2 ->].
  destruct (settle sleep config prepared v1) as [[hash|e] v2]; cbn [fst snd]; exists (m1 ++ m2); by rewrite app_assoc.
Qed.

(** The page's wait against the pool object's, which gives up after [n] pauses. *)
Lemma prove_web on_status flow current total plan hashes n : forall v log,
  match prove_waiting sleep config n plan v with
  | (Err (MembershipSync (SyncRequired gap)), _) => web_prove sleep config on_status (S n) flow current total plan hashes (v, log) = None
  | (r, v') => forall k, exists more, web_prove sleep config on_status (S n + k) flow current total plan hashes (v, log) =
      Some (map_err (failure_of hashes) r, (v', log ++ more))
  end.
Proof.
  induction n as [|n IH]; intros v log; cbn [prove_waiting];
    pose proof (fun tries => web_prove_step on_status flow current total plan hashes tries v log) as Hstep;
    destruct (prove_next config plan v) as [[proved|e] v1];
    try destruct e; try destruct status as [gap| |]; try (intros k; destruct (Hstep k) as (m1 & _ & E); by exists m1);
    try (intros k; destruct (Hstep (S n + k)%nat) as (m1 & _ & E); by exists m1).
  - by destruct (Hstep 0%nat) as (m1 & m2 & ->).
  - destruct (Hstep (S n)) as (m1 & m2 & E1).
    specialize (IH (sleep v1)). destruct (prove_waiting sleep config n plan (sleep v1)) as [[r|e] v'].
    + intros k. destruct (Hstep (S n + k)%nat) as (m3 & m4 & E3). destruct (IH ((log ++ m3) ++ m4) k) as [more E].
      exists (m3 ++ m4 ++ more). cbn [Nat.add] in *. rewrite E3, E. by rewrite !app_assoc.
    + destruct e; try destruct status as [gap'| |];
        try (intros k; destruct (Hstep (S n + k)%nat) as (m3 & m4 & E3); destruct (IH ((log ++ m3) ++ m4) k) as [more E];
             exists (m3 ++ m4 ++ more); cbn [Nat.add] in *; rewrite E3, E; by rewrite !app_assoc).
      rewrite E1. apply IH.
Qed.

Lemma execute_one_settles plan v : execute_one sleep config plan v =
  match prove_waiting sleep config SYNC_MAX_RETRIES plan v with
  | (Ok (prepared, plan1), v1) => let '(r, v2) := settle sleep config prepared v1 in (hash ← r; Ok (hash, plan1), v2)
  | (Err e, v1) => (Err e, v1)
  end.
Proof.
  unfold execute_one, settle, mbind at 1, io_bind at 1. destruct (prove_waiting _ _ _ plan v) as [[[prepared plan1]|e] v1]; [| done].
  unfold mbind, io_bind. destruct (pool_simulate config prepared v1) as [[p|e] v2]; [| done]. destruct (on_local _ v2) as [[signed|e] v3]; [| done].
  destruct (submit signed v3) as [[hash|e] v4]; [| done]. by destruct (confirm sleep hash v4) as [[h|e] v5].
Qed.

(** One round of the page. *)
Lemma round_web (Hsign : forall p, not_waiting (part_sign p)) on_status flow total fuel plan results v log : plan_is_complete plan = false ->
  match execute_one sleep config plan v with
  | (Ok (hash, plan1), v') => forall k, exists more,
      execute_plan sleep config on_status (S SYNC_MAX_RETRIES + k) (S fuel) flow total plan results (v, log) =
      execute_plan sleep config on_status (S SYNC_MAX_RETRIES + k) fuel flow total plan1 (results ++ [hash]) (v', log ++ more)
  | (Err e, v') =>
      if is_wait e
      then execute_plan sleep config on_status (S SYNC_MAX_RETRIES) (S fuel) flow total plan results (v, log) = None
      else forall k, exists more,
        execute_plan sleep config on_status (S SYNC_MAX_RETRIES + k) (S fuel) flow total plan results (v, log) =
          Some (Err (failure_of results e), (v', log ++ more))
  end.
Proof.
  intros Ep. rewrite execute_one_settles. cbn [execute_plan]. rewrite Ep. set (current := Z.min _ _).
  pose proof (prove_web on_status flow current total plan results SYNC_MAX_RETRIES v log) as Hp.
  destruct (prove_waiting sleep config SYNC_MAX_RETRIES plan v) as [[[prepared plan1]|e] v1].
  - pose proof (not_waiting_settle prepared Hsign v1) as Hnw.
    destruct (settle sleep config prepared v1) as [[hash|e] v2] eqn:Es; cbn -[Nat.add].
    1: { intros k. destruct (Hp k) as [m1 E]. rewrite E. cbn [map_err]. destruct (settle_web on_status flow current total prepared v1 (log ++ m1)) as [m2 ->].
      rewrite Es. exists (m1 ++ m2). cbn -[Nat.add]. by rewrite app_assoc. }
    assert (is_wait e = false) as -> by (destruct e; try done; by edestruct Hnw).
    intros k. destruct (Hp k) as [m1 E]. rewrite E. cbn [map_err]. destruct (settle_web on_status flow current total prepared v1 (log ++ m1)) as [m2 ->].
    rewrite Es. exists (m1 ++ m2). cbn -[Nat.add]. rewrite app_assoc. destruct e; try done. by edestruct Hnw.
  - destruct e; try destruct status; cbn [is_wait]; try (rewrite Hp; done); intros k; destruct (Hp k) as [m1 ->]; by exists m1.
Qed.

(** A whole plan of the page, begun with [results] confirmed. *)
Lemma plan_web (Hsign : forall p, not_waiting (part_sign p)) on_status flow total fuel : forall plan results v,
  match execute sleep config fuel plan results v with
  | None => forall k log, execute_plan sleep config on_status (S SYNC_MAX_RETRIES + k) fuel flow total plan results (v, log) = None
  | Some (Ok hashes, v') => forall k log, exists more,
      execute_plan sleep config on_status (S SYNC_MAX_RETRIES + k) fuel flow total plan results (v, log) = Some (Ok hashes, (v', log ++ more))
  | Some (Err e, v') => exists hashes plan1 v1, confirmed plan v hashes plan1 v1 /\ plan_is_complete plan1 = false /\
      execute_one sleep config plan1 v1 = (Err e, v') /\ (length hashes < fuel)%nat /\
      (forall k log, exists more, execute_plan sleep config on_status (S SYNC_MAX_RETRIES + k) fuel flow total plan results (v, log) =
        execute_plan sleep config on_status (S SYNC_MAX_RETRIES + k) (fuel - length hashes) flow total plan1 (results ++ hashes) (v1, log ++ more)) /\
      if is_wait e
      then forall log, execute_plan sleep config on_status (S SYNC_MAX_RETRIES) fuel flow total plan results (v, log) = None
      else forall k log, exists more,
        execute_plan sleep config on_status (S SYNC_MAX_RETRIES + k) fuel flow total plan results (v, log) =
          Some (Err (failure_of (results ++ hashes) e), (v', log ++ more))
  end.
Proof.
  induction fuel as [|fuel IH]; intros plan results v; cbn [execute]; destruct (plan_is_complete plan) eqn:Ep;
    try (intros k log; exists []; cbn [execute_plan]; rewrite Ep; by rewrite app_nil_r); [intros k log; cbn [execute_plan]; by rewrite Ep |].
  pose proof (fun log => round_web Hsign on_status flow total fuel plan results v log Ep) as Hround.
  destruct (execute_one sleep config plan v) as [[[hash plan1]|e] v1] eqn:Eone.
  - specialize (IH plan1 (results ++ [hash]) v1).
    destruct (execute sleep config fuel plan1 (results ++ [hash]) v1) as [[[hashes|e] v']|].
    + intros k log. destruct (Hround log k) as [m1 ->]. destruct (IH k (log ++ m1)) as [m2 ->]. exists (m1 ++ m2). by rewrite app_assoc.
    + destruct IH as (hashes & plan2 & v2 & Hc & Hp & He & Hlen & Hreach & Hend).
      exists (hash :: hashes), plan2, v2. split; [by econstructor |]. split; [done |]. split; [done |]. split; [cbn; lia |]. split.
      { intros k log. destruct (Hround log k) as [m1 ->]. destruct (Hreach k (log ++ m1)) as [m2 ->]. exists (m1 ++ m2). cbn [length Nat.sub]. by rewrite <- !app_assoc. }
      destruct (is_wait e).
      * intros log. destruct (Hround log 0%nat) as [m1 E1]. exact (eq_trans E1 (Hend (log ++ m1))).
      * intros k log. destruct (Hround log k) as [m1 ->]. destruct (Hend k (log ++ m1)) as [m2 ->]. exists (m1 ++ m2).
        by rewrite <- !app_assoc.
    + intros k log. destruct (Hround log k) as [m1 ->]. apply IH.
  - exists [], plan, v. split; [constructor |]. split; [done |]. split; [done |]. rewrite app_nil_r. split; [cbn; lia |].
    split; [intros k log; exists []; by rewrite app_nil_r |]. destruct (is_wait e); intros; apply Hround.
Qed.

End WebPool.

(** C18. The page runs a plan the way the pool object does: its own loop, with its progress
    reports, and [execute] of [pool.rs] send the same transactions.  When the pool object
    completes the plan so does the page, with the same hashes and the same world after it, however
    long the page is ready to wait.  When it stops at an error, the page stops at the same
    transaction with the same error, reports the hashes confirmed before (which the pool object
    drops), and tells the user to register with the association exactly when the account is not
    a member and nothing was sent yet.  The one difference is the wait for the synchronisation.
    Where the pool object gives up after thirty pauses the page, at the same transaction, goes on:
    however many attempts are counted, it has not ended as long as all of them answer that the storage is behind,
    and at the first that answers otherwise it takes that answer, an error or a proof, and settles the transaction and goes on with the
    plan.  In no run does it report a missing synchronisation.  (The errors of the signer itself are
    assumed to be none about membership.) *)
Theorem web_execute_agrees {Net L : Type} (node : RpcNode Net) (X : XdrLib) (K : LedgerXdr) (V : EnvelopeXdr) (parts : PoolParts L)
    (sleep : Net * L -> Net * L) (config : PrivatePoolConfig) (on_status : bool) (flow : string) (plan : PreparedTransactionPlan) (v : Net * L) log
    (sign_never_waits : forall p, not_waiting (part_sign p)) :
  let web k := web_execute sleep config on_status (S SYNC_MAX_RETRIES + k) flow plan (v, log) in
  match execute sleep config (plan_fuel plan) plan [] v with
  | None => forall k, web k = None
  | Some (Ok hashes, v') => forall k, exists more, web k = Some (Ok (Ok hashes), (v', log ++ more))
  | Some (Err e, v') => exists hashes plan1 v1, confirmed sleep config plan v hashes plan1 v1 /\ plan_is_complete plan1 = false /\
      execute_one sleep config plan1 v1 = (Err e, v') /\
      match e with
      | MembershipSync (SyncRequired _) => web 0%nat = None /\
          forall k, match waited sleep config (S SYNC_MAX_RETRIES + k) plan1 v1 with
          | None => web k = None
          | Some (Err e', v2) => exists more, web k = Some (Ok (Err (failure_of hashes e')), (v2, log ++ more))
          | Some (Ok (prepared, plan2), v2) =>
              match settle sleep config prepared v2 with
              | (Err e', v3) => exists more, web k = Some (Ok (Err (WebPlanFailed hashes e')), (v3, log ++ more))
              | (Ok hash, v3) => exists more, web k =
                  ('(outcome, w) ← execute_plan sleep config on_status (S SYNC_MAX_RETRIES + k) (plan_fuel plan - S (length hashes)) flow (plan_tx_count plan) plan2 (hashes ++ [hash]) (v3, log ++ more);
                   Some (Ok outcome, w))
              end
          end
      | MembershipSync RegisterAtASP => forall k, exists more,
          web k = Some (Ok (Err (if bool_decide (hashes = []) then AspNotReady else WebPlanFailed hashes e)), (v', log ++ more))
      | _ => forall k, exists more, web k = Some (Ok (Err (WebPlanFailed hashes e)), (v', log ++ more))
      end
  end /\
  forall k hashes gap w, web k <> Some (Ok (Err (WebPlanFailed hashes (MembershipSync (SyncRequired gap)))), w).
Proof.
  intros web. pose proof (plan_web sleep config sign_never_waits on_status flow (plan_tx_count plan) (plan_fuel plan) plan [] v) as Hp.
  subst web. unfold web_execute. split.
  2: { intros k hashes gap w. pose proof (execute_plan_waits sleep config sign_never_waits on_status (S SYNC_MAX_RETRIES + k) flow (plan_tx_count plan) (plan_fuel plan) plan [] v log hashes gap) as Hw.
       destruct (execute_plan _ _ _ _ _ _ _ _ _ _) as [[outcome w1]|]; [| done]. cbn. intros [= -> _]. by eapply Hw. }
  destruct (execute sleep config (plan_fuel plan) plan [] v) as [[[hashes|e] v']|].
  - intros k. destruct (Hp k log) as [more ->]. by exists more.
  - destruct Hp as (hashes & plan1 & v1 & Hc & Hd & He & Hlen & Hreach & Hend). exists hashes, plan1, v1. do 3 (split; [done |]).
    destruct e; try destruct status; cbn [is_wait app failure_of] in Hend; try (intros k; destruct (Hend k log) as [more ->]; by exists more).
    split; [cbn [Nat.add]; rewrite Nat.add_0_r, Hend; done |]. intros k. destruct (Hreach k log) as [m1 ->]. cbn [app].
    replace (plan_fuel plan - length hashes)%nat with (S (plan_fuel plan - S (length hashes))) by lia.
    pose proof (round_waits sleep config on_status (S SYNC_MAX_RETRIES + k) flow (plan_tx_count plan) (plan_fuel plan - S (length hashes)) plan1 hashes v1 (log ++ m1) Hd) as Hr.
    destruct (waited sleep config (S SYNC_MAX_RETRIES + k) plan1 v1) as [[[[prepared plan2]|e] v2]|]; [| destruct Hr as [m2 ->]; exists (m1 ++ m2); by rewrite app_assoc | by rewrite Hr].
    destruct (settle sleep config prepared v2) as [[hash|e] v3]; destruct Hr as [m2 ->]; exists (m1 ++ m2); by rewrite app_assoc.
  - intros k. by rewrite Hp.
Qed.

(** A withdrawal of nine in two transactions: with the synchronisation the page completes it, and
    without it the page is still waiting for the second transaction where the pool object has
    given up. *)
Lemma web_execute_agrees_witness :
  exists plan w1 more, prepare_spend (pp_chain town_config) session_notes 9 (Withdraw "alice") = Ok plan /\
    web_execute (H := town_node) (H0 := town_xdr) (H1 := town_ledger_xdr) (H2 := town_envelope_xdr) (H3 := town_parts) town_sync town_config true 40 "withdraw" plan
      ((0, (0, 0))%nat, []) = Some (Ok (Ok ["0"; "2"]), (w1, more)) /\
    web_execute (H := town_node) (H0 := town_xdr) (H1 := town_ledger_xdr) (H2 := town_envelope_xdr) (H3 := town_parts) id town_config true 31 "withdraw" plan
      ((0, (0, 0))%nat, []) = None.
Proof.
  assert (exists p, prepare_spend (pp_chain town_config) session_notes 9 (Withdraw "alice") = Ok p /\
      (exists w', execute (H := town_node) (H0 := town_xdr) (H1 := town_ledger_xdr) (H2 := town_envelope_xdr) (H3 := town_parts) town_sync town_config
        (plan_fuel p) p [] (0, (0, 0))%nat = Some (Ok ["0"; "2"], w')) /\
      exists w', execute (H := town_node) (H0 := town_xdr) (H1 := town_ledger_xdr) (H2 := town_envelope_xdr) (H3 := town_parts) id town_config
        (plan_fuel p) p [] (0, (0, 0))%nat = Some (Err (MembershipSync (SyncRequired None)), w')) as (p & Hp & (w1 & Hw1) & w2 & Hw2)
    by (eexists; split; [vm_compute; reflexivity | split; eexists; vm_compute; reflexivity]).
  assert (forall q, not_waiting (part_sign (PoolParts := town_parts) q)) as Hsign by (intros q l s l'; discriminate).
  pose proof (web_execute_agrees town_node town_xdr town_ledger_xdr town_envelope_xdr town_parts town_sync town_config true "withdraw" p (0, (0, 0))%nat [] Hsign) as Hok.
  pose proof (web_execute_agrees town_node town_xdr town_ledger_xdr town_envelope_xdr town_parts id town_config true "withdraw" p (0, (0, 0))%nat [] Hsign) as Hwait.
  cbv zeta in Hok, Hwait. destruct Hok as [Hok _], Hwait as [Hwait _]. rewrite Hw1 in Hok. rewrite Hw2 in Hwait. destruct (Hok 9%nat) as [more Hmore].
  destruct Hwait as (_ & _ & _ & _ & _ & _ & Hnone & _). exists p, w1, more. split; [exact Hp |]. split; [exact Hmore | exact Hnone].
Defined.

(** ** The numbers of the page *)

Lemma parse_digits_fits fits sign acc s r : parse_digits fits sign acc s = Some r ->
  parse_digits (fun _ => true) sign acc s = Some r /\ (s <> [] -> fits r = true).
Proof.
  revert acc. induction s as [|c s IH]; intros acc E; [done |]. cbn [parse_digits] in *. destruct (digit_value c) as [d|]; [| done].
  cbn [mbind option_bind] in *. destruct (fits (acc * 10 + sign * d)) eqn:Ef; [| done]. destruct (IH _ E) as [E1 Hf]. split; [done |]. intros _.
  destruct s; [by injection E as <- | by apply Hf].
Qed.

(** A number has as many digits as its size in bits, at most. *)
Lemma digits_fuel base n : 2 <= base -> 0 <= n -> n < base ^ Z.of_nat (S (Z.to_nat (Z.log2 n))).
Proof.
  intros Hb Hn. pose proof (Z.log2_nonneg n) as Hl. rewrite Nat2Z.inj_succ, Z2Nat.id by done. destruct (decide (n = 0)) as [-> | Hne].
  - cbn. lia.
  - pose proof (Z.log2_spec n ltac:(lia)) as [_ Hs]. eapply Z.lt_le_trans; [exact Hs |]. apply Z.pow_le_mono_l. lia.
Qed.

(** Reading a printed number back, at a width that holds all the smaller ones. *)
Lemma read_decimal fits sign n : 0 <= n -> (fits (sign * n) = true -> forall m, 0 <= m <= n -> fits (sign * m) = true) ->
  parse_digits fits sign 0 (digits (S (Z.to_nat (Z.log2 n))) n []) = if fits (sign * n) then Some (sign * n) else None.
Proof.
  intros Hn Hmono. pose proof (digits_fuel 10 n ltac:(lia) Hn) as Hfuel. destruct (fits (sign * n)) eqn:Ef.
  - rewrite parse_digits_digits; [done | by apply Hmono | by split | done].
  - destruct (parse_digits fits _ _ _) as [r|] eqn:E; [| done]. apply parse_digits_fits in E as [E Hr].
    rewrite parse_digits_digits in E by done. injection E as <-.
    destruct (digits_head (S (Z.to_nat (Z.log2 n))) n [] ltac:(done) Hn) as (d & s & Hd & _). rewrite Hd in Hr. by rewrite Hr in Ef.
Qed.

Lemma read_decimal_u w b : 0 < w -> parse_u w (js_decimal b) = if fits_u w b then Some b else None.
Proof.
  intros Hw. unfold js_decimal. destruct (Z.ltb_spec b 0) as [Hb | Hb].
  - assert (fits_u w b = false) as -> by (apply not_true_iff_false; rewrite fits_u_spec; lia). done.
  - destruct (digits_head (S (Z.to_nat (Z.log2 b))) b [] ltac:(done) Hb) as (d & s & Hd & Hr). rewrite Hd, parse_u_nosign, <- Hd by (by apply digit_char_not_sign).
    rewrite read_decimal; rewrite ?Z.mul_1_l; [done | done |]. rewrite fits_u_spec. intros [_ Hf] m Hm. apply fits_u_spec. lia.
Qed.

Lemma read_decimal_i w b : 0 < w -> parse_i w (js_decimal b) = if fits_i w b then Some b else None.
Proof.
  intros Hw. pose proof (Z.pow_pos_nonneg 2 (w - 1) ltac:(lia) ltac:(lia)) as Hp. unfold js_decimal. destruct (Z.ltb_spec b 0) as [Hb | Hb].
  - destruct (digits_head (S (Z.to_nat (Z.log2 (- b)))) (- b) [] ltac:(done) ltac:(lia)) as (d & s & Hd & Hr).
    transitivity (parse_digits (fits_i w) (-1) 0 (digits (S (Z.to_nat (Z.log2 (- b)))) (- b) [])); [by rewrite Hd |].
    rewrite read_decimal; [by replace (-1 * - b) with b by lia | lia |]. rewrite fits_i_spec. intros Hf m Hm. apply fits_i_spec. lia.
  - destruct (digits_head (S (Z.to_nat (Z.log2 b))) b [] ltac:(done) Hb) as (d & s & Hd & Hr). destruct (digit_char_not_sign d Hr).
    rewrite Hd, parse_i_nosign, <- Hd by done. rewrite read_decimal; rewrite ?Z.mul_1_l; [done | done |]. rewrite fits_i_spec. intros Hf m Hm. apply fits_i_spec. lia.
Qed.

(** The [k] low hexadecimal digits of a number. *)
Fixpoint hex_word (k : nat) (n : Z) : list ascii :=
  match k with O => [] | S k => hex_word k (n / 16) ++ [hex_char (n mod 16)] end.

Lemma hex_char_nibble d : 0 <= d < 16 -> hex_char d = nibble_char d.
Proof. intros Hd. unfold hex_char, nibble_char, digit_char. destruct (Z.ltb_spec d 10); f_equal; lia. Qed.

Lemma hex_word_bytes k n : hex_word (2 * k) n = nibbles_encode (be_bytes k n).
Proof.
  revert n. induction k as [|k IH]; intros n; [done |]. replace (2 * S k)%nat with (S (S (2 * k))) by lia. cbn [hex_word].
  change (be_bytes (S k) n) with (be_bytes k (n / 256) ++ [n mod 256]). rewrite Z.div_div, IH by lia. change (16 * 16) with 256.
  assert (forall l x, nibbles_encode (l ++ [x]) = nibbles_encode l ++ [nibble_char (x / 16); nibble_char (x mod 16)]) as -> by
    (intros l x; induction l as [|y l IHl]; [done |]; cbn; by rewrite IHl).
  rewrite <- app_assoc. cbn [app]. rewrite !hex_char_nibble by (apply Z.mod_pos_bound; lia).
  do 3 f_equal; f_equal; Z.div_mod_to_equations; lia.
Qed.

(** All its digits, as many as it needs. *)
Lemma hex_digits_word fuel : forall n acc, fuel <> O -> 0 <= n -> n < 16 ^ Z.of_nat fuel -> exists k,
  hex_digits fuel n acc = hex_word (S k) n ++ acc /\ n < 16 ^ Z.of_nat (S k) /\ (k <> O -> 16 ^ Z.of_nat k <= n).
Proof.
  induction fuel as [|fuel IH]; intros n acc Hf Hn Hlt; [done |]. cbn [hex_digits]. destruct (Z.eqb_spec (n / 16) 0) as [E | E].
  - exists 0%nat. assert (n < 16) by (Z.div_mod_to_equations; lia). cbn. split_and!; [done | lia | done].
  - assert (0 < n / 16) by (Z.div_mod_to_equations; lia). rewrite Nat2Z.inj_succ, Z.pow_succ_r in Hlt by lia.
    destruct (IH (n / 16) (hex_char (n mod 16) :: acc)) as (k & Hd & Hu & Hl).
    { intros ->. cbn in Hlt. Z.div_mod_to_equations; lia. }
    { lia. }
    { apply Z.div_lt_upper_bound; lia. }
    exists (S k). split_and!.
    + rewrite Hd. change (hex_word (S (S k)) n) with (hex_word (S k) (n / 16) ++ [hex_char (n mod 16)]). by rewrite <- app_assoc.
    + rewrite (Nat2Z.inj_succ (S k)), Z.pow_succ_r by lia. Z.div_mod_to_equations; lia.
    + intros _. destruct k as [|k]; [change (16 ^ Z.of_nat 1) with 16; Z.div_mod_to_equations; lia |].
      specialize (Hl ltac:(done)). rewrite (Nat2Z.inj_succ (S k)), Z.pow_succ_r by lia. Z.div_mod_to_equations; lia.
Qed.

Lemma length_hex_word k n : length (hex_word k n) = k.
Proof. revert n. induction k as [|k IH]; intros n; [done |]. cbn [hex_word]. rewrite length_app, IH. cbn. lia. Qed.

(** Leading zeros. *)
Lemma hex_word_pad j k n : 0 <= n < 16 ^ Z.of_nat k -> hex_word (j + k) n = replicate j "0"%char ++ hex_word k n.
Proof.
  revert n. induction k as [|k IH]; intros n Hn.
  - change (16 ^ Z.of_nat 0) with 1 in Hn. replace n with 0 by lia. rewrite Nat.add_0_r, app_nil_r. clear. induction j as [|j IH]; [done |].
    cbn [hex_word]. change (0 / 16) with 0. rewrite IH. change (hex_char (0 mod 16)) with "0"%char. by rewrite <- replicate_cons_app.
  - rewrite Nat.add_succ_r. cbn [hex_word]. rewrite Nat2Z.inj_succ, Z.pow_succ_r in Hn by lia.
    rewrite IH by (Z.div_mod_to_equations; lia). by rewrite app_assoc.
Qed.

Lemma hex_word_head k n : exists d s, hex_word (S k) n = hex_char d :: s /\ 0 <= d < 16.
Proof.
  revert n. induction k as [|k IH]; intros n.
  - exists (n mod 16), []. split; [done | apply Z.mod_pos_bound; lia].
  - destruct (IH (n / 16)) as (d & s & E & Hd). exists d, (s ++ [hex_char (n mod 16)]). split; [| done].
    change (hex_word (S (S k)) n) with (hex_word (S k) (n / 16) ++ [hex_char (n mod 16)]). by rewrite E.
Qed.

Lemma hex_char_not_sign d : 0 <= d < 16 -> hex_char d <> "-"%char.
Proof.
  intros Hd. assert (exists k, d = Z.of_nat k /\ (k < 16)%nat) as (k & -> & Hk) by (exists (Z.to_nat d); lia). do 16 (destruct k as [|k]; [done |]). lia.
Qed.

(** What the page makes of the hexadecimal text of a number. *)
Lemma js_hex_shape b :
  if b <? 0 then head (js_hex b) = Some "-"%char
  else head (js_hex b) <> Some "-"%char /\
    if b <? 2 ^ 256 then (length (js_hex b) <= 64)%nat /\ replicate (64 - length (js_hex b)) "0"%char ++ js_hex b = nibbles_encode (be_bytes 32 b)
    else (64 < length (js_hex b))%nat.
Proof.
  unfold js_hex. destruct (Z.ltb_spec b 0) as [Hb | Hb]; [done |].
  destruct (hex_digits_word (S (Z.to_nat (Z.log2 b))) b [] ltac:(done) Hb (digits_fuel 16 b ltac:(lia) Hb)) as (k & -> & Hu & Hl). rewrite app_nil_r.
  split; [destruct (hex_word_head k b) as (d & s & -> & Hd); cbn; intros [= E]; by eapply hex_char_not_sign |].
  rewrite length_hex_word. change (2 ^ 256) with (16 ^ Z.of_nat 64). destruct (Z.ltb_spec b (16 ^ Z.of_nat 64)) as [Hs | Hs].
  - assert (S k <= 64)%nat as Hk.
    { destruct (decide (k = 0%nat)) as [-> | Hne]; [lia |]. specialize (Hl Hne). assert (16 ^ Z.of_nat k < 16 ^ Z.of_nat 64) as Hlt by lia.
      apply Z.pow_lt_mono_r_iff in Hlt; lia. }
    split; [done |]. rewrite <- hex_word_bytes, <- hex_word_pad by done. f_equal. lia.
  - assert (16 ^ Z.of_nat 64 < 16 ^ Z.of_nat (S k)) as Hlt by lia. apply Z.pow_lt_mono_r_iff in Hlt; lia.
Qed.

(** C39. The numbers the page is given.  A JavaScript [BigInt] of any size becomes a note amount
    exactly when it is between zero and the largest 128-bit number, a signed amount exactly when
    it fits 128 signed bits, and a field element exactly when it is not negative and below the
    modulus (its hexadecimal text, however short, is padded to 32 bytes); the value is then the
    number itself, and every other number is refused rather than wrapped.  The [hex] crate is only
    known to decode what it encodes and to write lower-case digits. *)
Theorem page_numbers_exact `{HexCodecLaws} (lower_case : forall b, Forall is_byte b -> hex_encode b = nibbles_encode b) (b : Z) :
  (forall a, parse_note_amount_decimal b = Ok a <-> a = b /\ 0 <= b < 2 ^ 128) /\
  (forall a, parse_ext_amount_decimal b = Ok a <-> a = b /\ is_ext b) /\
  (forall f, parse_field_bigint_numeric b = Ok f <-> f = b /\ in_field b).
Proof.
  split_and!.
  - intros a. unfold parse_note_amount_decimal, NoteAmount_from_str. rewrite read_decimal_u, <- fits_u_spec by lia. destruct (fits_u 128 b); naive_solver.
  - intros a. unfold parse_ext_amount_decimal, ExtAmount_from_str, is_ext. change 127 with (128 - 1). rewrite read_decimal_i, <- fits_i_spec by lia. destruct (fits_i 128 b); naive_solver.
  - intros f. unfold parse_field_bigint_numeric. pose proof (js_hex_shape b) as Hs. unfold in_field. destruct (Z.ltb_spec b 0) as [Hb | Hb].
    { rewrite Hs, bool_decide_true by done. split; [done | lia]. }
    destruct Hs as [Hh Hs]. rewrite bool_decide_false by done. destruct (Z.ltb_spec b (2 ^ 256)) as [Hl | Hl].
    + destruct Hs as [Hlen Hpad]. rewrite (proj2 (Nat.ltb_ge _ _) Hlen), Hpad, <- lower_case by apply be_bytes_bytes.
      change ("0"%char :: "x"%char :: hex_encode (be_bytes 32 b)) with (encode_0x_hex (be_bytes 32 b)). unfold Field_from_0x_hex_be.
      rewrite (parse_encode_0x_hex (be_bytes 32 b)) by auto with pay. cbn [mbind result_bind]. unfold Field_try_from_be_bytes.
      rewrite be_value_bytes, pow_256_32, Z.mod_small by lia.
      destruct (Field_try_from_u256 b) as [v|e] eqn:E; cbn [map_err].
      * apply Field_try_from_u256_Ok in E as [-> Hm]. naive_solver.
      * split; [done |]. intros [_ [_ Hm]]. by rewrite Field_try_from_u256_ok in E.
    + rewrite (proj2 (Nat.ltb_lt _ _) Hs). split; [done |]. intros [_ [_ Hm]]. pose proof BN_P_lt_2_254. lia.
Qed.

(** The largest values, one more, and a field element of one digit. *)
Lemma page_numbers_exact_witness :
  (forall c, Forall is_byte c -> hex_encode c = nibbles_encode c) /\
  parse_note_amount_decimal (2 ^ 128 - 1) = Ok (2 ^ 128 - 1) /\ (forall a, parse_note_amount_decimal (2 ^ 128) <> Ok a) /\
  parse_ext_amount_decimal (- 2 ^ 127) = Ok (- 2 ^ 127) /\ (forall a, parse_ext_amount_decimal (2 ^ 127) <> Ok a) /\
  parse_field_bigint_numeric 10 = Ok 10 /\ parse_field_bigint_numeric (BN_P - 1) = Ok (BN_P - 1) /\ (forall f, parse_field_bigint_numeric (-1) <> Ok f).
Proof.
  pose proof (fun b => proj1 (page_numbers_exact (fun c _ => eq_refl) b)) as Hn. pose proof (fun b => proj2 (page_numbers_exact (fun c _ => eq_refl) b)) as Hp.
  split; [intros c _; reflexivity |].
  split; [apply Hn; vm_compute; repeat split; congruence |]. split; [intros a E; apply Hn in E as [_ [_ E]]; exact (Z.lt_irrefl _ E) |].
  split; [apply (proj1 (Hp _)); vm_compute; repeat split; congruence |].
  split; [intros a E; apply (proj1 (Hp _)) in E as [_ [_ E]]; exact (Z.lt_irrefl _ E) |].
  split; [apply (proj2 (Hp _)); vm_compute; repeat split; congruence |]. split; [apply (proj2 (Hp _)); vm_compute; repeat split; congruence |].
  intros f E. apply (proj2 (Hp _)) in E as [_ [E _]]. exact (E eq_refl).
Defined.
