(* ===== verification/LeafCli.v ===== *)
(** * The leaf tool of the whitelist server

    [server/leaf-cli/src/main.rs]: the leaf of a user in the membership tree, synthetic users,
    the onboarding without a browser, the check of a membership and a deposit through the pool
    object.  The deployment file and the artifacts of the circuit are given; a command answers
    the line it prints. *)

From Stdlib Require Import Ascii.
From stdpp Require Import strings sorting.
From S2P Require Import Prelude Ints Amounts Poseidon2Tables Hashes ProverMonad Encryption Notes Flows ScVals ScValFacts Events Storage Queries Scan StorageFacts SyncFacts SyncTheorems SyncLimits QueryFacts DbTypes Rpc Envelope StateFetch Indexer R1cs Prover Verifier Witness KeyFiles Disclosure Combination Plan PoolClient PoolExec PoolLocal Worker WorkerTheorems.

Inductive LeafCliError : Type :=
| LeafUsage
| BadPublicKey (e : AmountError)
| BadAspSecret (e : AmountError)
| BadAmountText
| BadDeployments
| NoMatchingPool
| LeafProver (e : ProverError)
| LeafStorage (e : StorageError)
| LeafFetch (e : FetchError)
| LeafClient (e : PoolClientError).

Definition TESTNET_PASSPHRASE : string := "Test SDF Network ; September 2015".

(** ** Lines *)

Definition quoted (s : list ascii) : list ascii := ascii_of_nat 34 :: s ++ [ascii_of_nat 34].

(** A line of JSON, each value as it is given. *)
Definition json_line (fields : list (string * list ascii)) : list ascii :=
  chars "{" ++ join_chars (chars ",") ((fun f => quoted (chars f.1) ++ chars ":" ++ f.2) <$> fields) ++ chars "}".

(** The digits of a number of any size. *)
Definition decimal_text (z : Z) : list ascii := digits (S (Z.to_nat (Z.log2 z))) z [].

(** [{:?}] of the status. *)
Definition debug_status (status : AspMembershipSync) : list ascii :=
  match status with
  | SyncRequired (Some gap) => chars "SyncRequired(Some(" ++ decimal_text gap ++ chars "))"
  | SyncRequired None => chars "SyncRequired(None)"
  | RegisterAtASP => chars "RegisterAtASP"
  | UserIndex index => chars "UserIndex(" ++ decimal_text index ++ chars ")"
  end.

Section Commands.

Context `{Crypto} {HC : HexCodec}.

Definition leaf_line (leaf : Field) : list ascii := json_line [("leafHex", quoted (Field_to_0x_hex_be leaf)); ("leafDec", quoted (decimal_text leaf))]%string.

(** The leaf of two arguments; [None] is a panic. *)
Definition leaf_of_args (pubkey_hex secret_hex : list ascii) : option (result LeafCliError Field) :=
  match parse_0x_hex_32 pubkey_hex with
  | Err e => Some (Err (BadPublicKey e))
  | Ok pubkey =>
      match Field_from_0x_hex_be secret_hex with
      | Err e => Some (Err (BadAspSecret e))
      | Ok secret => leaf ← asp_membership_leaf pubkey secret; Some (map_err LeafProver leaf)
      end
  end.

Definition leaf_command (args : list (list ascii)) : option (result LeafCliError (list ascii)) :=
  match args with
  | pubkey_hex :: secret_hex :: _ => r ← leaf_of_args pubkey_hex secret_hex; Some (leaf ← r; Ok (leaf_line leaf))
  | _ => Some (Err LeafUsage)
  end.

(** A synthetic signature and the keys derived from it. *)
Definition synthetic_keys (network : string) : RM (Field * (NoteKeyPair * EncryptionKeyPair)) :=
  sig ← getrandom 64 RandomFailed;
  blinding ← derive_membership_blinding sig (bytes_of_string network);
  keys ← derive_encryption_and_note_keypairs sig;
  mret (blinding, keys).

Definition test_user (network : option string) : RM (list ascii) :=
  '(blinding, keys) ← synthetic_keys (default "testnet"%string network);
  mret (json_line [("notePublicKey", quoted (encode_0x_hex (note_public keys.1))); ("aspSecret", quoted (Field_to_0x_hex_be blinding))]%string).

Definition seed_line (address : string) (pubkey : NotePublicKey) (blinding : Field) : list ascii :=
  json_line [("address", quoted (chars address)); ("notePublicKey", quoted (encode_0x_hex pubkey)); ("aspSecret", quoted (Field_to_0x_hex_be blinding))]%string.

Definition e2e_seed (address : string) (network : option string) (l : LocalState) : option (result LeafCliError (list ascii) * LocalState) :=
  let '(d, n) := l in
  '(r, n) ← synthetic_keys (default "testnet"%string network) n;
  match r with
  | Err e => Some (Err (LeafProver e), (d, n))
  | Ok (blinding, keys) =>
      let '(saved, d) := save_encryption_and_note_keypairs address keys.1 keys.2 blinding d in
      Some (u ← map_err LeafStorage saved; Ok (seed_line address (note_public keys.1) blinding), (d, n))
  end.

(** The pool of an asset code, or the first one. *)
Definition selects (pool_asset : option string) (p : PoolConfigEntry) : bool :=
  match pool_asset with
  | None => true
  | Some code =>
      if bool_decide (code = "XLM"%string) || bool_decide (code = "native"%string) then match Queries.pool_asset p with Native => true | _ => false end
      else match Queries.pool_asset p with
           | Classic c _ => bool_decide (c = code)
           | TokenContract _ symbol => bool_decide (symbol = code)
           | Native => false
           end
  end.

Definition select_pool (config : ContractConfig) (pool_asset : option string) : result LeafCliError string :=
  ok_or (Queries.pool_contract_id <$> find (selects pool_asset) (cfg_pools config)) NoMatchingPool.

Context {Net : Type} `{RpcNode Net} {X : XdrLib} {LX : LedgerXdr} {EX : EnvelopeXdr} {ED : Ed25519} {SA : SortByAmount} {HV : HexVec} {AG : ArkGroth16}.
Variables (usize_bits : Z) (keccak256_lib : bytes -> bytes) (compute_witness : CircuitInputs -> option bytes) (engine : Prover).
Variable sleep : Net * LocalState -> Net * LocalState.

(** [check_membership]: the indexer, the processing of the events, and the check of the
    transaction flow against the state of the contracts. *)
Definition check_membership (config : ContractConfig) (leaf : Field) (fuel : nat) (w : Net * LocalState) : option (result LeafCliError (list ascii) * (Net * LocalState)) :=
  '(synced, w) ← sync config fuel w;
  match synced with
  | Err e => Some (Err (LeafClient e), w)
  | Ok _ =>
      let '(net, (d, n)) := w in
      let '(state, net) := asp_state config net in
      Some (data ← map_err LeafFetch state;
            let asp := cs_asp_membership data in
            status ← map_err LeafStorage (check_asp_membership_precondition d (cfg_asp_membership config) leaf (am_root asp) (am_ledger asp));
            Ok (json_line [("leafHex", quoted (Field_to_0x_hex_be leaf)); ("chainRoot", quoted (Field_to_0x_hex_be (am_root asp)));
                           ("chainLedger", decimal_text (am_ledger asp)); ("status", quoted (debug_status status))]%string),
            (net, (d, n)))
  end.

Definition check_membership_command (pubkey_hex secret_hex : list ascii) (deployments : option ContractConfig) (fuel : nat) (w : Net * LocalState)
    : option (result LeafCliError (list ascii) * (Net * LocalState)) :=
  r ← leaf_of_args pubkey_hex secret_hex;
  match r with
  | Err e => Some (Err e, w)
  | Ok leaf => match deployments with Some config => check_membership config leaf fuel w | None => Some (Err BadDeployments, w) end
  end.

(** [e2e-deposit], from the arguments to the printed hash. *)
Definition e2e_deposit (secret address : string) (amount : list ascii) (deployments : option ContractConfig) (pool_asset : option string) (fuel : nat) (w : Net * LocalState)
    : option (result LeafCliError (list ascii) * (Net * LocalState)) :=
  match (amount ← ok_or (parse_u 128 amount) BadAmountText;
         config ← ok_or deployments BadDeployments;
         pool ← select_pool config pool_asset;
         signer ← map_err LeafClient (local_signer_new secret TESTNET_PASSPHRASE address);
         let chain := {| pcc_pool_contract_id := pool; pcc_user_address := address |} in
         u ← map_err LeafClient (PoolChainConfig_validate chain);
         Ok (amount, signer, {| pp_contract_config := config; pp_chain := chain |})) with
  | Err e => Some (Err e, w)
  | Ok (amount, signer, config) =>
      '(synced, w) ← sync (pp_contract_config config) fuel w;
      match synced with
      | Err e => Some (Err (LeafClient e), w)
      | Ok _ =>
          '(sent, w) ← deposit (H3 := local_parts usize_bits keccak256_lib compute_witness engine signer) sleep config amount w;
          Some (hash ← map_err LeafClient sent; Ok (json_line [("txHash", quoted (chars hash))]%string), w)
      end
  end.

End Commands.

(** ** The keys that are stored *)

Lemma last_cases {A} (t : list A) : t = [] \/ exists s z, t = s ++ [z].
Proof. induction t as [|z s _] using rev_ind; [by left | right; by exists s, z]. Qed.

Lemma last_of_order {A} (key : A -> Z) l x : (forall y, y ∈ l -> key y < key x) -> last (order_by key (l ++ [x])) = Some x.
Proof.
  intros Hmax. pose proof (order_by_sorted key (l ++ [x])) as Hs. pose proof (fun y => elem_of_order_by key y (l ++ [x])) as Hin. revert Hs Hin.
  generalize (order_by key (l ++ [x])). intros t Hs Hin. assert (x ∈ t) as Hx by (apply Hin; set_solver). destruct (last_cases t) as [->|(s & z & ->)]; [set_solver |].
  rewrite last_snoc. f_equal. assert (z ∈ l ++ [x]) as Hz by (apply Hin; set_solver). apply elem_of_app in Hz as [Hz|Hz]; [| by apply list_elem_of_singleton in Hz].
  apply elem_of_app in Hx as [Hx|Hx]; [| by apply list_elem_of_singleton in Hx].
  pose proof (StronglySorted_app_1_elem_of _ _ _ _ _ Hs Hx (proj2 (list_elem_of_singleton z z) eq_refl)) as Hle. unfold by_key in Hle. specialize (Hmax z Hz). lia.
Qed.

Lemma saved_user_keys d address note encryption blinding :
  let '(r, d') := save_encryption_and_note_keypairs address note encryption blinding d in
  r = Ok tt /\ get_user_keys d' address = Some {| su_note_keypair := note; su_encryption_keypair := encryption; su_membership_blinding := blinding |}.
Proof.
  unfold save_encryption_and_note_keypairs, transaction, get_or_create_account, mbind, dm_bind, db_read, db_write, mret, dm_ret.
  assert (forall t d1 id, lookup_id (accounts (set_keypairs t d1)) address = Some id ->
    t = keypairs d1 ++ [{| kr_id := next_id (kr_id <$> keypairs d1); kr_note := note; kr_encryption := encryption; kr_membership_blinding := blinding; kr_account := id |}] ->
    get_user_keys (set_keypairs t d1) address = Some {| su_note_keypair := note; su_encryption_keypair := encryption; su_membership_blinding := blinding |}) as Hkeys.
  { intros t d1 id Hid ->. unfold get_user_keys. rewrite Hid. cbn [mbind option_bind]. unfold latest_keypair. cbn [keypairs set_keypairs]. rewrite filter_app, filter_cons_True by done. rewrite filter_nil.
    rewrite last_of_order; [done |]. intros y [_ Hy]%list_elem_of_filter. apply next_id_gt. by apply list_elem_of_fmap_2. }
  destruct (lookup_id (accounts d) address) as [id|] eqn:E.
  - split; [done |]. by apply (Hkeys _ _ id).
  - split; [done |]. apply (Hkeys _ _ (next_id (fst <$> accounts d))); [| done]. cbn [accounts set_keypairs set_accounts]. unfold lookup_id in *. rewrite find_app.
    destruct (find _ (accounts d)); [discriminate E |]. cbn. by rewrite bool_decide_eq_true_2.
Qed.

(** ** Synthetic users *)

Section Onboarding.

Context (C : Crypto) {CL : CryptoLaws C} {HC : HexCodec}.

(** The keys of a signature. *)
Definition note_of (sig : bytes) : NoteKeyPair :=
  let sk := le_bytes 32 (le_value (sha256 (note_key_preimage sig)) mod BN_P) in {| note_private := sk; note_public := le_bytes 32 (public_key_of (scalar_of sk)) |}.
Definition encryption_of (sig : bytes) : EncryptionKeyPair :=
  let ek := sha256 (encryption_key_preimage sig) in {| enc_private := ek; enc_public := x25519_public ek |}.
Definition blinding_of (sig : bytes) (network : string) : Field := le_value (sha256 (membership_preimage sig (bytes_of_string network))) mod BN_P.

Lemma keys_run sig n : length sig = 64%nat -> derive_encryption_and_note_keypairs sig n = Some (Ok (note_of sig, encryption_of sig), n).
Proof. intros Hs. rewrite derive_keypairs_run. by rewrite bool_decide_eq_true_2. Qed.

Lemma blinding_run sig network n : length sig = 64%nat -> derive_membership_blinding sig (bytes_of_string network) n = Some (Ok (blinding_of sig network), n).
Proof.
  intros Hs. unfold derive_membership_blinding. rewrite bool_decide_eq_true_2 by done. cbn [negb bail_if]. unfold mbind, rm_bind. cbn [mret rm_ret]. unfold lift_result.
  rewrite field_of_le_bytes_mod. reflexivity.
Qed.

Lemma synthetic_keys_run network n sig : getrandom_bytes n 64 = Some sig ->
  synthetic_keys network n = Some (Ok (blinding_of sig network, (note_of sig, encryption_of sig)), S n).
Proof.
  intros Hsig. destruct (getrandom_len n 64 sig Hsig) as [Hlen _]. unfold synthetic_keys.
  erewrite rm_bind_step; [| unfold getrandom; by rewrite Hsig]. erewrite rm_bind_step; [| by apply blinding_run]. erewrite rm_bind_step; [| by apply keys_run]. reflexivity.
Qed.

Lemma blinding_in_field sig network : in_field (blinding_of sig network).
Proof. apply Z.mod_pos_bound. reflexivity. Qed.

Lemma length_note_of sig : length (note_public (note_of sig)) = 32%nat.
Proof. apply length_le_bytes. Qed.

Lemma note_of_bytes sig : Forall is_byte (note_public (note_of sig)).
Proof. apply le_bytes_bytes. Qed.

(** The arguments of the leaf command as the tool prints them. *)
Lemma leaf_of_printed {HL : HexCodecLaws} sig network leaf : asp_membership_leaf (note_public (note_of sig)) (blinding_of sig network) = Some (Ok leaf) ->
  leaf_command [encode_0x_hex (note_public (note_of sig)); Field_to_0x_hex_be (blinding_of sig network)] = Some (Ok (leaf_line leaf)).
Proof.
  intros Hleaf. unfold leaf_command, leaf_of_args. rewrite parse_encode_0x_hex by first [apply note_of_bytes | apply length_note_of].
  assert (Field_from_0x_hex_be (Field_to_0x_hex_be (blinding_of sig network)) = Ok (blinding_of sig network)) as ->.
  { unfold Field_from_0x_hex_be, Field_to_0x_hex_be. rewrite parse_encode_0x_hex; [| apply be_bytes_bytes | apply length_be_bytes].
    cbn [mbind result_bind]. apply Field_be_roundtrip, blinding_in_field. }
  rewrite Hleaf. reflexivity.
Qed.

Lemma seed_run address network d n sig : getrandom_bytes n 64 = Some sig ->
  let name := default "testnet"%string network in
  let d' := (save_encryption_and_note_keypairs address (note_of sig) (encryption_of sig) (blinding_of sig name) d).2 in
  e2e_seed address network (d, n) = Some (Ok (seed_line address (note_public (note_of sig)) (blinding_of sig name)), (d', S n)).
Proof.
  intros Hsig name d'. unfold e2e_seed. fold name. rewrite (synthetic_keys_run name n sig Hsig). cbn [mbind option_bind fst snd]. subst d'.
  pose proof (saved_user_keys d address (note_of sig) (encryption_of sig) (blinding_of sig name)) as Hs.
  destruct (save_encryption_and_note_keypairs _ _ _ _ d) as [r d']. by destruct Hs as [-> _].
Qed.

(** *** The storage worker *)

Context {X : XdrLib} {SM : SqliteMax} {J : JsonValues} {M : MpscChannel}.
Variables (md hash : string) (deployment : option ContractConfig) (now : Z).

Lemma worker_saves address sig network a w : length sig = 64%nat -> wk_cell w = CellOpen a -> exists w' a',
  StorageWorker md hash deployment now (ReqDeriveSaveUserKeys address sig network) w = (Some RespSaved, w') /\ wk_cell w' = CellOpen a' /\
  app_chain a' = (save_encryption_and_note_keypairs address (note_of sig) (encryption_of sig) (blinding_of sig network) (app_chain a)).2.
Proof.
  intros Hs Hcell. unfold StorageWorker, router, mbind, wm_bind, of_keys. rewrite (keys_run sig (wk_draws w) Hs). cbn [map_err set_draws wk_draws].
  rewrite (blinding_run sig network (wk_draws w) Hs). cbn [map_err fst snd]. unfold with_storage. cbn [set_draws wk_cell]. rewrite Hcell. unfold on_chain.
  pose proof (saved_user_keys (app_chain a) address (note_of sig) (encryption_of sig) (blinding_of sig network)) as Hsaved.
  destruct (save_encryption_and_note_keypairs _ _ _ _ (app_chain a)) as [r d']. destruct Hsaved as [-> _]. cbn [map_err fst snd].
  unfold kick_processor. destruct (wk_channel _); eexists _, _; (split; [reflexivity |]); split; reflexivity.
Qed.

Lemma worker_derives pk secret leaf w : asp_membership_leaf pk secret = Some (Ok leaf) ->
  StorageWorker md hash deployment now (ReqDeriveASPleaf secret pk) w = (Some (RespDeriveASPleaf leaf), w).
Proof.
  intros Hleaf. unfold StorageWorker, router, mbind, wm_bind, of_keys, lift_fallible. rewrite Hleaf. cbn [mbind option_bind map_err]. by destruct w.
Qed.

End Onboarding.

(** ** Theorems *)

(** C35. The headless onboarding is the one of the browser.  For a draw of 64 bytes as signature, the
    tool stores for the address the keys that the storage worker stores for that signature, in
    the same database, and prints the public key and the secret of these stored keys; the leaf
    command reads what was printed, accepts it, and prints the leaf that the worker derives of
    these keys for the page and that the client proves its membership with. *)
Theorem headless_onboarding_agrees (C : Crypto) (CL : CryptoLaws C) (HC : HexCodec) (HL : HexCodecLaws) (X : XdrLib) (SM : SqliteMax) (J : JsonValues) (M : MpscChannel)
    (md hash : string) (deployment : option ContractConfig) (now : Z) (address : string) (network : option string) (a : AppDb) (w : Worker) (n : nat) (sig : bytes) :
  getrandom_bytes n 64 = Some sig -> wk_cell w = CellOpen a ->
  exists pk secret leaf d' a' w' keys,
    e2e_seed address network (app_chain a, n) = Some (Ok (seed_line address pk secret), (d', S n)) /\
    get_user_keys d' address = Some keys /\ note_public (su_note_keypair keys) = pk /\ su_membership_blinding keys = secret /\
    StorageWorker md hash deployment now (ReqDeriveSaveUserKeys address sig (default "testnet"%string network)) w = (Some RespSaved, w') /\
    wk_cell w' = CellOpen a' /\ app_chain a' = d' /\
    leaf_command [encode_0x_hex pk; Field_to_0x_hex_be secret] = Some (Ok (leaf_line leaf)) /\
    asp_membership_leaf pk secret = Some (Ok leaf) /\
    StorageWorker md hash deployment now (ReqDeriveASPleaf secret pk) w = (Some (RespDeriveASPleaf leaf), w).
Proof.
  intros Hsig Hcell. destruct (getrandom_len n 64 sig Hsig) as [Hlen _]. set (name := default "testnet"%string network).
  destruct (asp_membership_leaf_run ref_host_poseidon2 ref_host_poseidon2_laws (note_public (note_of C sig)) (blinding_of C sig name)) as (leaf & Hleaf & _);
    [apply blinding_in_field | apply length_note_of |].
  pose proof (saved_user_keys (app_chain a) address (note_of C sig) (encryption_of C sig) (blinding_of C sig name)) as Hsaved.
  pose proof (seed_run C address network (app_chain a) n sig Hsig) as Hseed. cbv zeta in Hseed. fold name in Hseed.
  destruct (worker_saves C md hash deployment now address sig name a w Hlen Hcell) as (w' & a' & Hw & Hc' & Ha').
  destruct (save_encryption_and_note_keypairs address (note_of C sig) (encryption_of C sig) (blinding_of C sig name) (app_chain a)) as [r d']. destruct Hsaved as [-> Hkeys].
  eexists _, _, leaf, d', a', w', _. split; [exact Hseed |]. split; [exact Hkeys |]. do 2 (split; [reflexivity |]). split; [exact Hw |]. split; [exact Hc' |]. split; [exact Ha' |].
  split; [by apply leaf_of_printed |]. split; [exact Hleaf |]. by apply worker_derives.
Qed.

Lemma headless_onboarding_agrees_witness : exists line d' leaf text,
  e2e_seed (H := ref_crypto) "carol" None (sync_start, 0%nat) = Some (Ok line, (d', 1%nat)) /\ is_Some (get_user_keys d' "carol") /\
  leaf_command text = Some (Ok (leaf_line leaf)).
Proof.
  destruct (headless_onboarding_agrees ref_crypto ref_crypto_laws ref_hex ref_hex_laws sync_xdr first_max_sqlite demo_json demo_channel "text" "hash" None 0 "carol" None (app_of sync_start) pool_worker 0%nat _ eq_refl eq_refl)
    as (pk & secret & leaf & d' & a' & w' & keys & Hseed & Hkeys & _ & _ & _ & _ & _ & Hleaf & _).
  eexists _, d', leaf, _. split; [exact Hseed |]. split; [rewrite Hkeys; by eexists | exact Hleaf].
Defined.
